(* ===== verification/_CoqProject ===== *)
-Q . S2P
Prelude.v
Bytes.v
Netip.v
Protocol.v
AuthLimit.v
Sni.v
Registry.v
RegistrySteps.v
Frames.v
UdpSession.v
UdpForward.v
NativeWg.v
Scheduler.v
Multipath.v
ServerMultipath.v
Egress.v
SocksServer.v
WgKeys.v
Sessions.v
IpPool.v
ServerAuth.v
ServerTable.v
ServerToy.v
ServerSteps.v
ServerOps.v
RelayPool.v
UdpRelay.v
UdpRelaySteps.v
Dns.v
RelayPublic.v
RelayAgent.v
ClientTransport.v
ClientUpgrade.v
WsBind.v
ClientSession.v
ClientRenewal.v
TunnelPlane.v
Forwarding.v
ServerConfig.v
ConfigWatch.v
KubeWatch.v
RelayProcess.v
GuiConfig.v
GuiManager.v
