(* ===== verification/Prelude.v ===== *)
(** * ntwire: a verification library

    ntwire gives authenticated clients WireGuard tunnels to a server's
    services.  A server (src/pkg/server) authenticates SSH keys or OIDC
    tokens, hands out sessions with tunnel addresses and peers of its
    WireGuard device, serves SOCKS and DNS inside the tunnel, and may register
    with relays (src/pkg/relay), which pass TLS connections and WireGuard
    datagrams through without terminating either.  Client and server carry
    the datagrams over several paths at once (src/pkg/wstransport).  This
    development models the decision-making parts of these packages and proves
    what they are for.

    ** Files and what they model

    Foundations.
    - [Prelude]: this file; generic lemmas on lists, options, machine
      integers, counting in maps, and the tactics and hints.
    - [Bytes]: Go's bytes, slices, strings and encoding/binary.
    - [Netip]: net/netip's addresses and prefixes.
    - [Protocol]: src/pkg/protocol/protocol.go, messages, capabilities and
      signed payloads.
    - [AuthLimit]: src/pkg/authlimit, the nonce cache and the rate limiter.

    The relay.
    - [Sni]: pkg/relay/sni.go, peekClientHello.
    - [Registry], [RegistrySteps]: pkg/relay/registry.go, the tenants and
      their connections; first the locked operations, then Open, OpenSNI and
      handleData (agent.go) interleaved.
    - [RelayPublic]: pkg/relay/public.go, a public connection from the accept
      loop to the splice.
    - [UdpSession], [UdpForward]: udpsession.go, udpforward.go, reflect.go,
      the UDP relay's sessions and what each datagram makes it send.
    - [NativeWg]: nativewg.go, the relay of native WireGuard packets.
    - [KubeWatch]: kubernetes.go, the Services that put hostnames into
      [Registry]'s table.
    - [RelayProcess]: config.go and relay.go, what a relay's configuration must
      be, and its sockets from the start to the close.

    The transport.
    - [Frames]: control frames, MTU probes, the receive filter and the
      duplicate cache of pkg/wstransport.
    - [Scheduler]: path selection (multipath.go).
    - [Multipath], [ServerMultipath]: the two multipath binds.
    - [WsBind]: bind.go, the bind over WebSockets, as the steps of its
      goroutines.

    The client.
    - [ClientTransport]: the parts of client.go, transportstate.go and
      reconnect.go that turn a session's answer and the user's options into a
      data plane and local listeners.
    - [ClientUpgrade]: directupgrade.go, the loop that moves a connection from
      the WebSocket to the UDP relay and to a direct path and back.
    - [ClientSession]: client.go and reconnect.go, a connection from the
      answer on: renewals, reconnections, moved listeners and the close.
    - [ClientRenewal]: renewLoop, and renewals against [ServerAuth].

    The desktop application.
    - [GuiConfig]: internal/gui/config and the profile requests of
      internal/gui/api: profiles, their options, the import of the command
      line's settings, redacted and validated proxies.
    - [GuiManager]: internal/gui/manager, the profiles and their connections
      under the calls of the settings page and the tray, as steps of each
      call and attempt.

    The server.
    - [Sessions], [IpPool], [WgKeys]: session.go, allocateIP's scan, and the
      keys of pkg/wgnet.
    - [ServerAuth]: server.go, authorizer.go and the peer operations of
      dataplane.go, one definition per request, on one [Server] record.
    - [ServerTable], [ServerSteps], [ServerOps], [ServerToy]: the invariant of
      that record, its sequences of operations, single operations, and a
      concrete server on which the theorems are evaluated.
    - [Egress], [SocksServer]: destination control (filter.go, asn.go,
      policy.go) and the SOCKS server.
    - [TunnelPlane]: dataplane.go, the listeners of the tunnels and their
      reconciliation on a reload.
    - [Forwarding]: dataplane.go, what is accepted, dialed and relayed through
      those listeners.
    - [ServerConfig], [ConfigWatch]: config.go and reload.go, what a
      configuration must be to be accepted, and how changes of it are noticed.
    - [Dns]: dns.go, the in-tunnel DNS server.
    - [RelayPool], [RelayAgent], [UdpRelay], [UdpRelaySteps]: the server's side
      of the relays: relaypool.go, the allocations of relay.go, udprelay.go.

    ** How the parts meet

    A client is heard at [RelayPublic], which peeks its server name with
    [Sni], is limited by [AuthLimit] and routed by [Registry]; the server's
    answer to its authentication is [ServerAuth.auth], which uses [AuthLimit]
    for replays, [Protocol] for the signed payload, [Sessions] for the table
    and [IpPool] for the address.  The principal behind a tunnel address
    ([ServerAuth.principalForIP]) is what [Dns], [Forwarding] and the policies
    of [Egress] ask for; [Forwarding] accepts through [TunnelPlane]'s
    listeners, and [SocksServer] asks [Egress].  Datagrams reach the server's
    [ServerMultipath] from paths the client's [Multipath] proves with
    [Frames]' probes and chooses with [Scheduler]; a path over the relay is a
    session of [UdpSession], which [UdpRelay] obtains through [RelayAgent]
    from the member [RelayPool] prefers.  The client takes the answer of
    [ServerAuth.auth] to [ClientTransport.newConnectionNetwork], keeps the
    session with [ClientRenewal], replaces it with [ClientSession], and
    [ClientUpgrade] looks for better paths than [WsBind]'s.

    ** Conventions

    Definitions keep the source's names.  What a call reads from outside is an
    argument: the clock, the order of a range over a map, random bytes, the
    outcome of a network operation, a third party's answer.  Type classes
    ([SSH], [KeyOps], [AddrText], [DnsCodec]) hold the functions of libraries
    the source calls, with the laws the proofs use; each has a concrete
    instance, on which the witnesses run.  Integers are [Z] with Go's
    wrap-around written out ([u64], [i64]); [float64] is [SpecFloat] at
    precision 53.  Objects shared by pointer live in a heap.  An operation
    that holds one mutex throughout is one function; one that does not is a
    labelled transition system whose [step] is a partial function of label
    and state, so that schedules execute, with [run] over lists of labels.
    Fields that only remember the past (tokens handed out, ids used) are
    written by steps and read by none but the freshness of random values.

    Loops without a structural argument have fuel, and each has a theorem that
    the fuel given is enough: the TLS record loop of [Sni] (its record
    bound), the binary search of [Egress] (the number of ranges), the address
    scan of [IpPool] (the size of the prefix).

    ** What the theorems show

    - Authentication: [auth_sound], [auth_answers_once], [Register_accepts_once]
      and [NonceCache_refines_log]: only signed, timely, fresh requests are
      answered, and none twice unless 4096 other signed ones pushed its nonce
      out of the cache within five minutes.
    - Sessions: [sessions_isolated], [peers_authorized], [session_cap],
      [key_stays_owned], [Reload_keeps_granted], [allocateIP_complete].
    - The configuration: what is accepted can be run, three named kinds of
      configuration apart ([accepted_config]), no change is lost and no bad one taken over ([changes_are_loaded]).
    - The relay: [capability_delivery], [tenant_accounting],
      [handle_transparent], [Kubernetes_refines_claims],
      [discovery_follows_services], [start_all_or_nothing],
      [loaded_registrations_reachable],
      [peekClientHello_host]; the datagram relays are no open reflectors
      ([not_an_open_reflector], [native_not_an_open_relay]) and conserve their
      ports ([udp_ports_conserved], [udp_demux]).
    - The server's side of the relays: every allocation ends up in exactly one
      place ([udp_relay_tokens]), late answers redirect nobody
      ([udp_relay_endpoint], [agent_reply_matched]), no interleaving panics,
      blocks or deadlocks ([agent_delivery_safe], [udp_relay_progress],
      [RelayPool_progress]), and what the pool has published are the relays
      that are registered ([RelayPool_publishes]).
    - Transport: [Send_safe], [probe_authentic], [wrapReceive_delivers],
      [source_ownership], [Select_policy]; the callbacks of the WebSocket bind
      are serialized ([lifecycle_serialized]), an open client's one carrier can
      always be brought back ([client_keeps_carrier]) and its queues are
      bounded ([send_queues]).
    - The client: its listeners stay where the user's options allow, whatever
      the server's answer asks for ([tunnel_listener_confined]), its carrier is one asked for
      ([connection_carrier]); the upgrade ladder is coherent, climbs on
      evidence only and paces its attempts ([ladder_coherent],
      [endpoint_follows_ladder], [climbs_on_evidence], [attempts_paced]); no
      listener or device is lost or shared ([client_owns]), a new session is
      published at once or not at all ([session_published_at_once]), and one
      renewed when it is due is never lost ([renewals_keep_session],
      [renewal_paced]).
    - The desktop application: every connection has one owner
      ([connections_owned]) unless a profile returns under the id of an attempt
      still running, no call or attempt is stuck ([calls_finish]), a
      restart finds the profiles ([restart_restores]) and the settings page
      keeps credentials it never sees ([page_keeps_credentials]).
    - What leaves the tunnel: only what was granted and approved is dialed
      ([forward_authorized]), each UDP socket serves one source
      ([udp_flows_private]), a reload serves the tunnels configured
      ([reload_reconciles]); [socks_egress], [socks5_connect_answered],
      [destinationAllowed_spec], [Lookup_refines_scan], and for DNS
      [dns_local_names_stay], [dns_reveals_only_granted], [dns_answer_typed],
      [dns_never_panics].

    Examples beside them run schedules on which the code does something else
    than its comments say ([delivered_connection_leak], [late_reply_lost],
    [dns_long_name_panics] and others).

    ** Bounds

    The server's invariant is stated for a device that accepts the commands
    it is given ([env_ok]), the relay pool's for fewer than 2^64 updates of
    one pool, and [dns_never_panics] for names that fit into a DNS name.
    Carriers are followed from one open of a settled bind to its close, a
    renewed session while nothing else ends it ([renewals_keep_session]), and a
    client's answers name each tunnel once ([client_owns]).

    ** Not modelled

    The client's status documents and web interface, the desktop
    application's windows, tray and updates, the command lines and the
    portal's pages drive the parts above through HTTP and a user interface,
    and keep little state of their own.  Configuration files are decoded by a YAML library: [ServerConfig]
    and [RelayProcess] start from the decoded values.  Sockets, TLS,
    WebSockets, the WireGuard device, x/crypto/ssh, OIDC verification, MASQUE
    and the Kubernetes client's list and watch are libraries: they appear as
    parameters and arguments. *)
From stdpp Require Export base gmap strings list fin_maps fin_sets sorting.
From Stdlib Require Export ZArith Lia.

#[export] Set Default Goal Selector "!".
Open Scope Z_scope.

(** ** Notation scope *)
Declare Scope go_scope.
Delimit Scope go_scope with go.
Open Scope go_scope.

(** ** Go results: a value, or an error *)
Inductive result (E A : Type) : Type :=
  | Ok (a : A)
  | Err (e : E).
Arguments Ok {_ _} _.
Arguments Err {_ _} _.

#[export] Instance result_eq_dec {E A} {HE : EqDecision E} {HA : EqDecision A} :
  EqDecision (result E A).
Proof. intros x y. unfold Decision. decide equality; [apply HA|apply HE]. Defined.

Definition res_bind {E A B} (r : result E A) (f : A -> result E B) : result E B :=
  match r with Ok a => f a | Err e => Err e end.

Notation "'let?' x ':=' r 'in' k" := (res_bind r (fun x => k))
  (at level 10, x name, r at level 100, k at level 200) : go_scope.
Notation "'let?' ' p ':=' r 'in' k" := (res_bind r (fun x => let p := x in k))
  (at level 10, p strict pattern, r at level 100, k at level 200) : go_scope.

Lemma res_bind_ok {E A B} (r : result E A) (f : A -> result E B) b :
  res_bind r f = Ok b <-> exists a, r = Ok a /\ f a = Ok b.
Proof. destruct r; simpl; naive_solver. Qed.

(** ** Machine integers *)
Definition int64_max : Z := 9223372036854775807.
Definition int64_min : Z := -9223372036854775808.
Definition uint64_mod : Z := 18446744073709551616.

Definition u64 (z : Z) : Z := z mod uint64_mod.

(** Wrap-around of a signed 64-bit result. *)
Definition i64 (z : Z) : Z := (z + 9223372036854775808) mod uint64_mod - 9223372036854775808.

Definition in_int64 (z : Z) : Prop := int64_min <= z <= int64_max.

Lemma i64_id z : in_int64 z -> i64 z = z.
Proof. unfold in_int64, i64, int64_min, int64_max, uint64_mod. intros. rewrite Z.mod_small; lia. Qed.

Lemma i64_range z : in_int64 (i64 z).
Proof.
  unfold in_int64, i64, int64_min, int64_max, uint64_mod.
  pose proof (Z.mod_pos_bound (z + 9223372036854775808) 18446744073709551616). lia.
Qed.

Lemma u64_range z : 0 <= u64 z < uint64_mod.
Proof. apply Z.mod_pos_bound. done. Qed.

Lemma u64_id z : 0 <= z < uint64_mod -> u64 z = z.
Proof. apply Z.mod_small. Qed.

(** Go's [int] division and remainder truncate towards zero. *)
Definition go_div (a b : Z) : Z := Z.quot a b.
Definition go_rem (a b : Z) : Z := Z.rem a b.

(** ** Time

    A [time.Time] is a number of nanoseconds on one clock; a
    [time.Duration] is a signed 64-bit count of nanoseconds.  [Time.Sub]
    saturates at the ends of the duration range. *)
Definition second : Z := 1000000000.
Definition minute : Z := 60 * second.

(** The zero [time.Time]: January 1, year 1 UTC in Unix nanoseconds. *)
Definition time_zero : Z := -62135596800 * second.

Definition clamp64 (z : Z) : Z := Z.max int64_min (Z.min int64_max z).

Definition time_sub (t u : Z) : Z := clamp64 (t - u).
Definition time_add (t d : Z) : Z := t + d.
Definition time_after (t u : Z) : bool := u <? t.
Definition time_before (t u : Z) : bool := t <? u.

Lemma time_sub_le t u d : in_int64 d -> d < int64_max -> (time_sub t u <= d <-> t - u <= d).
Proof. unfold in_int64, time_sub, clamp64, int64_min, int64_max. lia. Qed.

Lemma time_sub_gt t u d : in_int64 d -> d < int64_max -> (d < time_sub t u <-> d < t - u).
Proof. unfold in_int64, time_sub, clamp64, int64_min, int64_max. lia. Qed.

Lemma time_sub_mono t t' u : t <= t' -> time_sub t u <= time_sub t' u.
Proof. unfold time_sub, clamp64, int64_min, int64_max. lia. Qed.

(** ** Strings: Go strings are byte sequences, ordered bytewise *)
Definition str_leb (a b : string) : bool := String.leb a b.
Definition str_le (a b : string) : Prop := str_leb a b = true.

#[export] Instance str_le_dec a b : Decision (str_le a b).
Proof. unfold str_le. apply _. Defined.

Lemma ascii_compare_refl c : Ascii.compare c c = Eq.
Proof. unfold Ascii.compare. apply N.compare_refl. Qed.

Lemma str_compare_refl s : String.compare s s = Eq.
Proof. induction s as [|c s IH]; simpl; [done|]. by rewrite ascii_compare_refl. Qed.

Lemma ascii_compare_eq c d : Ascii.compare c d = Eq -> c = d.
Proof.
  unfold Ascii.compare. intros H%N.compare_eq.
  rewrite <-(Ascii.ascii_N_embedding c), <-(Ascii.ascii_N_embedding d). by rewrite H.
Qed.

Lemma str_compare_lt_trans a b c :
  String.compare a b <> Gt -> String.compare b c <> Gt -> String.compare a c <> Gt.
Proof.
  revert b c. induction a as [|x a IH]; intros [|y b] [|z c]; simpl; try done.
  destruct (Ascii.compare x y) eqn:E1; intros H1; [| |done];
  destruct (Ascii.compare y z) eqn:E2; intros H2; try done.
  - apply ascii_compare_eq in E1, E2. subst. rewrite ascii_compare_refl. eauto.
  - apply ascii_compare_eq in E1. subst. by rewrite E2.
  - apply ascii_compare_eq in E2. subst. by rewrite E1.
  - unfold Ascii.compare in *.
    rewrite (proj2 (N.compare_lt_iff _ _)); [done|].
    rewrite N.compare_lt_iff in E1, E2. lia.
Qed.

#[export] Instance str_le_trans : Transitive str_le.
Proof.
  intros a b c. unfold str_le, str_leb, String.leb. intros H1 H2.
  pose proof (str_compare_lt_trans a b c) as H.
  destruct (String.compare a b), (String.compare b c), (String.compare a c);
    try done; by destruct H.
Qed.

#[export] Instance str_le_total : Total str_le.
Proof. intros a b. apply String.leb_total. Qed.

#[export] Instance str_le_antisym : AntiSymm (=) str_le.
Proof. intros a b. apply String.leb_antisym. Qed.

#[export] Instance str_le_refl : Reflexive str_le.
Proof. intros a. by destruct (str_le_total a a). Qed.

Definition str_ltb (a b : string) : bool := String.ltb a b.

(** [sort.Strings]. *)
Definition sort_strings (l : list string) : list string := merge_sort str_le l.

Lemma sort_strings_perm l : sort_strings l ≡ₚ l.
Proof. apply merge_sort_Permutation. Qed.

Lemma sort_strings_sorted l : Sorted str_le (sort_strings l).
Proof. apply Sorted_merge_sort. apply _. Qed.

Lemma sort_strings_unique l l' : l ≡ₚ l' -> sort_strings l = sort_strings l'.
Proof.
  intros H. apply (Sorted_unique str_le); try apply sort_strings_sorted.
  by rewrite !sort_strings_perm.
Qed.

(** ** Lists *)
Fixpoint sum_Z (l : list Z) : Z :=
  match l with [] => 0 | x :: l => x + sum_Z l end.

Lemma sum_Z_app l l' : sum_Z (l ++ l') = sum_Z l + sum_Z l'.
Proof. induction l; simpl; lia. Qed.

Definition Zlen {A} (l : list A) : Z := Z.of_nat (length l).

Lemma Zlen_app {A} (l l' : list A) : Zlen (l ++ l') = Zlen l + Zlen l'.
Proof. unfold Zlen. rewrite length_app. lia. Qed.

Lemma Zlen_nonneg {A} (l : list A) : 0 <= Zlen l.
Proof. unfold Zlen. lia. Qed.

Lemma Zlen_cons {A} (x : A) l : Zlen (x :: l) = 1 + Zlen l.
Proof. unfold Zlen. simpl. lia. Qed.

(** ** Maps *)
Definition Zsize {K A} `{Countable K} (m : gmap K A) : Z := Z.of_nat (size m).

Lemma Zsize_insert {K A} `{Countable K} (m : gmap K A) k v :
  Zsize (<[k:=v]> m) = match m !! k with Some _ => Zsize m | None => Zsize m + 1 end.
Proof. unfold Zsize. rewrite map_size_insert. destruct (m !! k); unfold id; lia. Qed.

Lemma Zsize_delete {K A} `{Countable K} (m : gmap K A) k :
  Zsize (delete k m) = match m !! k with Some _ => Zsize m - 1 | None => Zsize m end.
Proof.
  unfold Zsize. destruct (m !! k) as [v|] eqn:E; [|by rewrite delete_id].
  rewrite map_size_delete_Some by eauto.
  assert (size m <> 0%nat) by (eapply map_size_ne_0_lookup_2; eauto). lia.
Qed.

(** Go leaves the order of [range] over a map open: a range order is any
    function that lists the keys of each map exactly once. *)
Definition map_keys {K A} `{Countable K} (m : gmap K A) : list K := (map_to_list m).*1.

Definition ranges {K A} `{Countable K} (ord : gmap K A -> list K) : Prop :=
  forall m, ord m ≡ₚ map_keys m.

Lemma ranges_map_keys {K A} `{Countable K} : ranges (A := A) (map_keys (K := K)).
Proof. intros m. reflexivity. Qed.

Lemma elem_of_map_keys {K A} `{Countable K} (m : gmap K A) k :
  k ∈ map_keys m <-> is_Some (m !! k).
Proof.
  unfold map_keys. rewrite list_elem_of_fmap. split.
  - intros ([k' v] & -> & Hin%elem_of_map_to_list). by exists v.
  - intros [v Hv]. exists (k, v). split; [done|]. by apply elem_of_map_to_list.
Qed.

Lemma elem_of_ranges {K A} `{Countable K} (ord : gmap K A -> list K) m k :
  ranges ord -> k ∈ ord m <-> is_Some (m !! k).
Proof. intros ->. apply elem_of_map_keys. Qed.

Lemma NoDup_ranges {K A} `{Countable K} (ord : gmap K A -> list K) m :
  ranges ord -> NoDup (ord m).
Proof. intros ->. apply NoDup_fst_map_to_list. Qed.

#[export] Hint Resolve ranges_map_keys NoDup_ranges : core.

(** The number of entries of a map that satisfy a predicate. *)
Definition count_map {K A} `{Countable K} (P : K * A -> Prop) `{!forall x, Decision (P x)}
  (m : gmap K A) : nat := size (filter P m).

Section count_map.
Context {K A : Type} `{Countable K} (P : K * A -> Prop) `{!forall x, Decision (P x)}.
Implicit Types (m : gmap K A).

Lemma count_map_empty : count_map P ∅ = 0%nat.
Proof. unfold count_map. by rewrite map_filter_empty, map_size_empty. Qed.

Lemma count_map_insert_fresh m k v :
  m !! k = None ->
  count_map P (<[k:=v]> m) = ((if decide (P (k, v)) then 1 else 0) + count_map P m)%nat.
Proof.
  intros Hk. unfold count_map. case_decide as HP.
  - rewrite map_filter_insert_True by done.
    rewrite map_size_insert_None; [lia|]. apply map_lookup_filter_None. by left.
  - rewrite map_filter_insert_False by done. by rewrite delete_id.
Qed.

Lemma count_map_delete m k v :
  m !! k = Some v ->
  count_map P m = ((if decide (P (k, v)) then 1 else 0) + count_map P (delete k m))%nat.
Proof.
  intros Hk. rewrite <-(insert_id m k v) at 1 by done. rewrite <-insert_delete_eq.
  apply count_map_insert_fresh. apply lookup_delete_eq.
Qed.

Lemma count_map_insert_upd m k v v' :
  m !! k = Some v ->
  ((if decide (P (k, v)) then 1 else 0) + count_map P (<[k:=v']> m) =
   (if decide (P (k, v')) then 1 else 0) + count_map P m)%nat.
Proof.
  intros Hk. rewrite (count_map_delete m k v Hk).
  rewrite <-insert_delete_eq, count_map_insert_fresh; [lia|]. apply lookup_delete_eq.
Qed.
End count_map.

(** The same count for a boolean test of the values, as an integer. *)
Definition countZ {K A} `{Countable K} (f : A -> bool) (m : gmap K A) : Z :=
  Z.of_nat (count_map (fun e => f e.2 = true) m).

Section countZ.
Context {K A : Type} `{Countable K} (f : A -> bool).
Implicit Types (m : gmap K A).

Lemma countZ_nonneg m : 0 <= countZ f m.
Proof. unfold countZ. lia. Qed.

Lemma countZ_empty : countZ f (∅ : gmap K A) = 0.
Proof. unfold countZ. by rewrite count_map_empty. Qed.

Lemma decide_bool (b : bool) : Z.of_nat (if decide (b = true) then 1 else 0) = Z.b2z b.
Proof. by destruct b. Qed.

Lemma countZ_fresh m k v : m !! k = None -> countZ f (<[k:=v]> m) = Z.b2z (f v) + countZ f m.
Proof.
  intros Hk. unfold countZ. rewrite count_map_insert_fresh by done.
  rewrite Nat2Z.inj_add. simpl. by rewrite decide_bool.
Qed.

Lemma countZ_delete m k v : m !! k = Some v -> countZ f (delete k m) = countZ f m - Z.b2z (f v).
Proof.
  intros Hk. unfold countZ. rewrite (count_map_delete _ m k v) by done.
  rewrite Nat2Z.inj_add. simpl. rewrite decide_bool. lia.
Qed.

Lemma countZ_upd m k v v' :
  m !! k = Some v -> countZ f (<[k:=v']> m) = countZ f m + Z.b2z (f v') - Z.b2z (f v).
Proof.
  intros Hk. rewrite <-insert_delete_eq, countZ_fresh by apply lookup_delete_eq.
  rewrite (countZ_delete _ _ v) by done. lia.
Qed.

Lemma countZ_pos m k v : m !! k = Some v -> f v = true -> 0 < countZ f m.
Proof.
  intros Hk Hv. pose proof (countZ_delete m k v Hk) as Hd. rewrite Hv in Hd. simpl in Hd.
  pose proof (countZ_nonneg (delete k m)). lia.
Qed.

Lemma countZ_zero m : (forall k v, m !! k = Some v -> f v = false) -> countZ f m = 0.
Proof.
  induction m as [|k v m Hk IH] using map_ind; intros Hm; [apply countZ_empty|].
  rewrite countZ_fresh by done. rewrite (Hm k v) by apply lookup_insert_eq. simpl.
  rewrite IH; [done|]. intros k' v' Hv. apply (Hm k'). rewrite lookup_insert_ne; [done|].
  intros ->. congruence.
Qed.
End countZ.

Lemma countZ_ext {K A} `{Countable K} (f g : A -> bool) (m : gmap K A) :
  (forall k v, m !! k = Some v -> f v = g v) -> countZ f m = countZ g m.
Proof.
  intros Hfg. unfold countZ, count_map. f_equal. f_equal.
  apply map_filter_strong_ext. intros k v. simpl. split; intros [Hv Hm]; split; try done.
  - by rewrite <-(Hfg k v).
  - by rewrite (Hfg k v).
Qed.

Lemma countZ_le {K A} `{Countable K} (f g : A -> bool) (m m' : gmap K A) :
  (forall k v, m !! k = Some v -> f v = true -> m' !! k = Some v /\ g v = true) ->
  countZ f m <= countZ g m'.
Proof.
  intros Hle. unfold countZ, count_map. apply inj_le. apply map_subseteq_size.
  apply map_subseteq_spec. intros k v. rewrite !map_lookup_filter_Some. simpl. intros [Hv Hf]. eauto.
Qed.

(** ** Occurrences *)
Definition occ {A} `{EqDecision A} (x : A) (l : list A) : Z := Zlen (filter (fun y => y = x) l).

Lemma occ_nil {A} `{EqDecision A} (x : A) : occ x [] = 0.
Proof. done. Qed.

Lemma occ_cons {A} `{EqDecision A} (x y : A) l :
  occ x (y :: l) = Z.b2z (bool_decide (y = x)) + occ x l.
Proof.
  unfold occ. rewrite filter_cons. destruct (decide (y = x)) as [H|H].
  - rewrite Zlen_cons, bool_decide_true by done. done.
  - by rewrite bool_decide_false.
Qed.

Lemma occ_app {A} `{EqDecision A} (x : A) l l' : occ x (l ++ l') = occ x l + occ x l'.
Proof. unfold occ. by rewrite filter_app, Zlen_app. Qed.

Lemma occ_nonneg {A} `{EqDecision A} (x : A) l : 0 <= occ x l.
Proof. apply Zlen_nonneg. Qed.

Lemma occ_pos {A} `{EqDecision A} (x : A) l : 0 < occ x l <-> x ∈ l.
Proof.
  induction l as [|y l IH].
  - split; [done|]. by intros H%not_elem_of_nil.
  - rewrite occ_cons, elem_of_cons, <-IH. pose proof (occ_nonneg x l).
    destruct (decide (y = x)) as [->|Hne].
    + rewrite bool_decide_true by done. simpl. split; [by left|lia].
    + rewrite bool_decide_false by done. simpl. split; [by right|]. intros [->|]; [done|lia].
Qed.

Lemma occ_perm {A} `{EqDecision A} (x : A) l l' : l ≡ₚ l' -> occ x l = occ x l'.
Proof. unfold occ, Zlen. by intros ->. Qed.

Lemma occ_fmap {A B} `{EqDecision B} (f : A -> B) (x : B) (l : list A) :
  occ x (f <$> l) = Zlen (filter (fun a => f a = x) l).
Proof.
  induction l as [|a l IH]; [done|]. rewrite fmap_cons, occ_cons, filter_cons, IH.
  destruct (decide (f a = x)); [rewrite bool_decide_true, Zlen_cons by done|rewrite bool_decide_false by done]; done.
Qed.

Lemma countZ_set {K A} `{Countable K} (f : A -> bool) (m : gmap K A) k v :
  countZ f (<[k := v]> m)
  = countZ f m + Z.b2z (f v) - match m !! k with Some v0 => Z.b2z (f v0) | None => 0 end.
Proof.
  destruct (m !! k) as [v0|] eqn:E; [by rewrite (countZ_upd f m k v0)|].
  rewrite countZ_fresh by done. lia.
Qed.

Lemma countZ_list {K A} `{Countable K} (f : A -> bool) (m : gmap K A) :
  countZ f m = Zlen (filter (fun a => f a = true) (map_to_list m).*2).
Proof.
  induction m as [|k v m Hk IH] using map_ind; [by rewrite countZ_empty, map_to_list_empty|].
  rewrite countZ_fresh by done. unfold Zlen. rewrite map_to_list_insert by done.
  rewrite fmap_cons, filter_cons. simpl. rewrite IH. unfold Zlen.
  destruct (decide (f v = true)) as [->|Hf]; simpl; [lia|]. destruct (f v); simpl; [done|lia].
Qed.

Lemma countZ_difference {K A} `{Countable K} (f : A -> bool) (m m' : gmap K A) :
  m' ⊆ m -> countZ f m = countZ f m' + countZ f (m ∖ m').
Proof.
  intros Hsub. rewrite <-(map_difference_union m' m Hsub) at 1.
  assert (Hd : m' ##ₘ m ∖ m') by (by apply map_disjoint_difference_r1).
  revert Hd. generalize (m ∖ m') as r. clear Hsub. intros r.
  induction m' as [|k v m' Hk IH] using map_ind; intros Hd.
  - by rewrite countZ_empty, (left_id_L ∅ (∪)).
  - apply map_disjoint_insert_l in Hd as [Hr Hd].
    rewrite <-insert_union_l, !countZ_fresh; [|done|by apply lookup_union_None].
    rewrite IH by done. lia.
Qed.

Lemma countZ_pos_inv {K A} `{Countable K} (f : A -> bool) (m : gmap K A) :
  0 < countZ f m -> exists k a, m !! k = Some a /\ f a = true.
Proof.
  induction m as [|k a m Hk IH] using map_ind; [by rewrite countZ_empty|].
  rewrite countZ_fresh by done. intros Hc. destruct (f a) eqn:E.
  - exists k, a. by rewrite lookup_insert_eq.
  - destruct IH as (k' & a' & Hk' & Ha'); [simpl in Hc; lia|]. exists k', a'.
    rewrite lookup_insert_ne; [done|]. congruence.
Qed.

(** ** Work left: the sum of a weight over a map *)
Definition weigh {K A} `{Countable K} (w : A -> nat) (m : gmap K A) : nat :=
  map_fold (fun _ a n => (w a + n)%nat) 0%nat m.

Section weigh.
Context {K A : Type} `{Countable K} (w : A -> nat).
Implicit Types (m : gmap K A).

Lemma weigh_delete m k a : m !! k = Some a -> weigh w m = (w a + weigh w (delete k m))%nat.
Proof. intros Hk. unfold weigh. by rewrite (map_fold_delete_L _ _ k a) by (done || lia). Qed.

Lemma weigh_upd m k a a' : m !! k = Some a -> (weigh w (<[k := a']> m) + w a = w a' + weigh w m)%nat.
Proof.
  intros Hk. rewrite (weigh_delete m k a Hk), (weigh_delete (<[k := a']> m) k a').
  - rewrite delete_insert_eq. lia.
  - by rewrite lookup_insert_eq.
Qed.

Lemma weigh_lower m k a a' :
  m !! k = Some a -> (w a' < w a)%nat -> (weigh w (<[k := a']> m) < weigh w m)%nat.
Proof. intros Hk Hw. pose proof (weigh_upd m k a a' Hk). lia. Qed.

Lemma weigh_pos m : (0 < weigh w m)%nat -> exists k a, m !! k = Some a /\ (0 < w a)%nat.
Proof.
  induction m as [|k a m Hk IH] using map_ind; [unfold weigh; rewrite map_fold_empty; lia|].
  rewrite (weigh_delete _ k a) by apply lookup_insert_eq. rewrite delete_insert_id by done.
  intros Hw. destruct (w a) as [|n] eqn:E.
  - destruct IH as (k' & a' & Hk' & Ha'); [lia|]. exists k', a'.
    rewrite lookup_insert_ne; [done|]. intros ->. congruence.
  - exists k, a. rewrite lookup_insert_eq, E. split; [done|lia].
Qed.

Lemma weigh_none m : (forall k a, m !! k = Some a -> w a = 0%nat) -> weigh w m = 0%nat.
Proof.
  intros Hm. destruct (weigh w m) as [|n] eqn:E; [done|].
  destruct (weigh_pos m) as (k & a & Hk & Ha); [lia|]. rewrite (Hm k a Hk) in Ha. lia.
Qed.
End weigh.

(** ** Automation *)
Create HintDb go.
Create Rewrite HintDb bytes.
#[export] Hint Resolve u64_range i64_range Zlen_nonneg : go.

(** [case_go] splits on the innermost [if] or option match the goal is
    stuck on and keeps the equation. *)
Ltac case_go :=
  match goal with
  | |- context [if ?b then _ else _] => destruct b eqn:?
  | |- context [match ?x with Some _ => _ | None => _ end] => destruct x eqn:?
  | |- context [match ?x with Ok _ => _ | Err _ => _ end] => destruct x eqn:?
  | H : context [if ?b then _ else _] |- _ => destruct b eqn:?
  | H : context [match ?x with Some _ => _ | None => _ end] |- _ => destruct x eqn:?
  | H : context [match ?x with Ok _ => _ | Err _ => _ end] |- _ => destruct x eqn:?
  end.

(** [bool_lia] turns boolean comparisons of the context into inequalities. *)
Ltac bool_to_prop :=
  repeat match goal with
  | H : (_ && _)%bool = true |- _ => apply andb_true_iff in H as [? ?]
  | H : (_ || _)%bool = false |- _ => apply orb_false_iff in H as [? ?]
  | H : (_ && _)%bool = false |- _ => apply andb_false_iff in H
  | H : (_ || _)%bool = true |- _ => apply orb_true_iff in H
  | H : negb _ = true |- _ => apply negb_true_iff in H
  | H : negb _ = false |- _ => apply negb_false_iff in H
  | H : (_ <=? _) = true |- _ => apply Z.leb_le in H
  | H : (_ <=? _) = false |- _ => apply Z.leb_gt in H
  | H : (_ <? _) = true |- _ => apply Z.ltb_lt in H
  | H : (_ <? _) = false |- _ => apply Z.ltb_ge in H
  | H : (_ =? _) = true |- _ => apply Z.eqb_eq in H
  | H : (_ =? _) = false |- _ => apply Z.eqb_neq in H
  | H : (_ =? _)%string = true |- _ => apply String.eqb_eq in H
  | H : (_ =? _)%string = false |- _ => apply String.eqb_neq in H
  | H : bool_decide _ = true |- _ => apply bool_decide_eq_true in H
  | H : bool_decide _ = false |- _ => apply bool_decide_eq_false in H
  end.

Ltac bool_lia := bool_to_prop; lia.
