(* ===== verification/Bytes.v ===== *)
(** Bytes, byte slices and strings as Go has them: unsigned conversions of
    [byte], the fixed-width integers of [encoding/binary], and the functions
    of package [strings] the program calls. *)
From S2P Require Import Prelude.
From Stdlib Require Export Strings.Byte.

#[export] Instance byte_eq_dec : EqDecision byte := Byte.byte_eq_dec.
#[export] Instance byte_countable : Countable byte.
Proof.
  refine (inj_countable Byte.to_N Byte.of_N _). intros b. apply Byte.of_to_N.
Defined.

(** ** Bytes as integers *)
Definition byte_val (b : byte) : Z := Z.of_N (Byte.to_N b).

(** [byte(z)]: the low eight bits. *)
Definition byte_of (z : Z) : byte :=
  match Byte.of_N (Z.to_N (z mod 256)) with Some b => b | None => x00 end.

Lemma byte_val_range b : 0 <= byte_val b < 256.
Proof. unfold byte_val. pose proof (Byte.to_N_bounded b). lia. Qed.

Lemma byte_val_of z : byte_val (byte_of z) = z mod 256.
Proof.
  unfold byte_val, byte_of. pose proof (Z.mod_pos_bound z 256 eq_refl) as Hz.
  destruct (Byte.of_N _) as [b|] eqn:E.
  - apply Byte.to_of_N in E. rewrite E. lia.
  - apply Byte.of_N_None_iff in E. lia.
Qed.

Lemma byte_of_val b : byte_of (byte_val b) = b.
Proof.
  unfold byte_of, byte_val. pose proof (Byte.to_N_bounded b).
  rewrite Z.mod_small by lia. by rewrite N2Z.id, Byte.of_to_N.
Qed.

Lemma byte_val_inj b c : byte_val b = byte_val c -> b = c.
Proof. intros H. by rewrite <-(byte_of_val b), H, byte_of_val. Qed.

(** ** encoding/binary *)
Definition put_be16 (z : Z) : list byte := [byte_of (Z.shiftr z 8); byte_of z].
Definition put_be32 (z : Z) : list byte :=
  [byte_of (Z.shiftr z 24); byte_of (Z.shiftr z 16); byte_of (Z.shiftr z 8); byte_of z].
Definition put_le16 (z : Z) : list byte := [byte_of z; byte_of (Z.shiftr z 8)].

Definition be16 (b0 b1 : byte) : Z := Z.lor (Z.shiftl (byte_val b0) 8) (byte_val b1).
Definition le16 (b0 b1 : byte) : Z := Z.lor (byte_val b0) (Z.shiftl (byte_val b1) 8).
Definition be32 (b0 b1 b2 b3 : byte) : Z :=
  Z.lor (Z.shiftl (byte_val b0) 24) (Z.lor (Z.shiftl (byte_val b1) 16)
    (Z.lor (Z.shiftl (byte_val b2) 8) (byte_val b3))).
Definition le32 (b0 b1 b2 b3 : byte) : Z := be32 b3 b2 b1 b0.

(** A shifted value and one below the shift have no bit in common. *)
Lemma land_shiftl_small a b n : 0 <= n -> 0 <= b < 2 ^ n -> Z.land (a * 2 ^ n) b = 0.
Proof.
  intros Hn Hb. apply Z.bits_inj_0. intros i.
  destruct (Z.neg_nonneg_cases i); [by rewrite Z.testbit_neg_r|].
  rewrite Z.land_spec. destruct (Z.lt_ge_cases i n); [by rewrite Z.mul_pow2_bits_low|].
  rewrite <-(Z.mod_small b (2 ^ n)), Z.mod_pow2_bits_high by lia. by rewrite andb_false_r.
Qed.

Lemma lor_shiftl_add a b n : 0 <= n -> 0 <= b < 2 ^ n -> Z.lor (Z.shiftl a n) b = a * 2 ^ n + b.
Proof.
  intros Hn Hb. rewrite Z.shiftl_mul_pow2 by done.
  rewrite Z.add_nocarry_lxor by (by apply land_shiftl_small).
  symmetry. apply Z.lxor_lor. by apply land_shiftl_small.
Qed.

Lemma be16_eq b0 b1 : be16 b0 b1 = byte_val b0 * 256 + byte_val b1.
Proof. unfold be16. by rewrite lor_shiftl_add by (lia || apply byte_val_range). Qed.

Lemma le16_eq b0 b1 : le16 b0 b1 = byte_val b1 * 256 + byte_val b0.
Proof. unfold le16. rewrite Z.lor_comm. apply be16_eq. Qed.

Lemma be16_range b0 b1 : 0 <= be16 b0 b1 < 65536.
Proof. rewrite be16_eq. pose proof (byte_val_range b0). pose proof (byte_val_range b1). lia. Qed.

Lemma be32_eq b0 b1 b2 b3 :
  be32 b0 b1 b2 b3 =
  byte_val b0 * 16777216 + byte_val b1 * 65536 + byte_val b2 * 256 + byte_val b3.
Proof.
  unfold be32. pose proof (byte_val_range b1). pose proof (byte_val_range b2).
  pose proof (byte_val_range b3).
  rewrite (lor_shiftl_add (byte_val b2)) by (change (2 ^ 8) with 256; lia).
  change (2 ^ 8) with 256.
  rewrite (lor_shiftl_add (byte_val b1)) by (change (2 ^ 16) with 65536; lia).
  change (2 ^ 16) with 65536.
  rewrite lor_shiftl_add by (change (2 ^ 24) with 16777216; lia).
  change (2 ^ 24) with 16777216. lia.
Qed.

Lemma be16_put z : 0 <= z < 65536 -> be16 (byte_of (Z.shiftr z 8)) (byte_of z) = z.
Proof.
  intros Hz. rewrite be16_eq, !byte_val_of, Z.shiftr_div_pow2 by lia. change (2 ^ 8) with 256.
  pose proof (Z.div_mod z 256). rewrite (Z.mod_small (z / 256)); [lia|].
  pose proof (Z.div_lt_upper_bound z 256 256). pose proof (Z.div_pos z 256). lia.
Qed.

Lemma le16_put z : 0 <= z < 65536 -> le16 (byte_of z) (byte_of (Z.shiftr z 8)) = z.
Proof. intros. unfold le16. rewrite Z.lor_comm. by apply be16_put. Qed.

Lemma put_be32_inj x y :
  0 <= x < 4294967296 -> 0 <= y < 4294967296 -> put_be32 x = put_be32 y -> x = y.
Proof.
  intros Hx Hy [= H3 H2 H1 H0].
  apply (f_equal byte_val) in H0, H1, H2, H3.
  rewrite !byte_val_of, ?Z.shiftr_div_pow2 in * by lia.
  change (2 ^ 24) with 16777216 in *. change (2 ^ 16) with 65536 in *. change (2 ^ 8) with 256 in *.
  Z.to_euclidean_division_equations. lia.
Qed.

Lemma length_put_be32 x : length (put_be32 x) = 4%nat.
Proof. done. Qed.

(** ** Strings and byte slices *)
Definition bytes_of (s : string) : list byte := String.list_byte_of_string s.
Definition str_of (l : list byte) : string := String.string_of_list_byte l.

(** [len(s)] *)
Definition str_len (s : string) : Z := Zlen (bytes_of s).

Lemma str_of_bytes_of s : str_of (bytes_of s) = s.
Proof. apply String.string_of_list_byte_of_string. Qed.
Lemma bytes_of_str_of l : bytes_of (str_of l) = l.
Proof. apply String.list_byte_of_string_of_list_byte. Qed.

Lemma bytes_of_inj s s' : bytes_of s = bytes_of s' -> s = s'.
Proof. intros H. by rewrite <-(str_of_bytes_of s), H, str_of_bytes_of. Qed.

#[export] Hint Rewrite str_of_bytes_of bytes_of_str_of byte_of_val byte_val_of : bytes.

(** ** Package strings *)

Definition is_ascii (l : list byte) : bool := forallb (fun b => byte_val b <? 128) l.

Definition lower_byte (b : byte) : byte :=
  let z := byte_val b in
  if (65 <=? z) && (z <=? 90) then byte_of (z + 32) else b.

(** [strings.ToLower] maps ASCII strings bytewise; on other strings it
    applies the Unicode case tables, which are a parameter. *)
Definition to_lower (unicode_lower : list byte -> list byte) (l : list byte) : list byte :=
  if is_ascii l then lower_byte <$> l else unicode_lower l.

Fixpoint strip_prefix (p l : list byte) : option (list byte) :=
  match p, l with
  | [], _ => Some l
  | x :: p, y :: l => if bool_decide (x = y) then strip_prefix p l else None
  | _ :: _, [] => None
  end.

Definition has_prefix (l p : list byte) : bool :=
  match strip_prefix p l with Some _ => true | None => false end.

Definition has_suffix (l p : list byte) : bool := has_prefix (reverse l) (reverse p).

(** [strings.TrimSuffix] *)
Definition trim_suffix (l p : list byte) : list byte :=
  match strip_prefix (reverse p) (reverse l) with Some r => reverse r | None => l end.

Lemma strip_prefix_spec p l r : strip_prefix p l = Some r <-> l = p ++ r.
Proof.
  revert l. induction p as [|x p IH]; intros l; simpl; [naive_solver|].
  destruct l as [|y l]; [naive_solver|]. case_bool_decide as Hxy.
  - subst. rewrite IH. naive_solver.
  - naive_solver.
Qed.

Lemma has_prefix_spec l p : has_prefix l p = true <-> p `prefix_of` l.
Proof.
  unfold has_prefix. destruct (strip_prefix p l) as [r|] eqn:E.
  - apply strip_prefix_spec in E. split; [intros _; by exists r|done].
  - split; [done|]. intros [r Hr]. apply strip_prefix_spec in Hr. congruence.
Qed.

Lemma has_suffix_spec l p : has_suffix l p = true <-> p `suffix_of` l.
Proof.
  unfold has_suffix. rewrite has_prefix_spec. split.
  - intros [k Hk]. exists (reverse k). apply (f_equal reverse) in Hk.
    by rewrite reverse_app, !reverse_involutive in Hk.
  - intros [k ->]. exists (reverse k). by rewrite reverse_app.
Qed.

(** The UTF-8 encodings of the Unicode white space [strings.TrimSpace]
    removes from both ends. *)
Definition white_space : list (list byte) :=
  [[x09]; [x0a]; [x0b]; [x0c]; [x0d]; [x20]; [xc2; x85]; [xc2; xa0]; [xe1; x9a; x80];
   [xe2; x80; x80]; [xe2; x80; x81]; [xe2; x80; x82]; [xe2; x80; x83]; [xe2; x80; x84];
   [xe2; x80; x85]; [xe2; x80; x86]; [xe2; x80; x87]; [xe2; x80; x88]; [xe2; x80; x89];
   [xe2; x80; x8a]; [xe2; x80; xa8]; [xe2; x80; xa9]; [xe2; x80; xaf]; [xe2; x81; x9f];
   [xe3; x80; x80]].

Definition strip_first (ps : list (list byte)) (l : list byte) : option (list byte) :=
  foldr (fun p acc => match strip_prefix p l with Some r => Some r | None => acc end) None ps.

Fixpoint trim_left_fuel (fuel : nat) (ps : list (list byte)) (l : list byte) : list byte :=
  match fuel with
  | O => l
  | S fuel => match strip_first ps l with Some r => trim_left_fuel fuel ps r | None => l end
  end.

(** [strings.TrimSpace]; one pass removes at least one byte, so the length is
    enough fuel. *)
Definition trim_space (l : list byte) : list byte :=
  let r := trim_left_fuel (length l) white_space l in
  reverse (trim_left_fuel (length r) (reverse <$> white_space) (reverse r)).

(** [strings.Split] at dots. *)
Fixpoint split_dots (l : list byte) : list (list byte) :=
  match l with
  | [] => [[]]
  | x :: l => if bool_decide (x = x2e) then [] :: split_dots l
              else match split_dots l with w :: ws => (x :: w) :: ws | [] => [[x]] end
  end.
