(* ===== verification/Netip.v ===== *)
(** The part of package [net/netip] the program uses: addresses with their
    zones, the address classes, and prefixes.  An IPv4 address is a 32-bit
    integer and an IPv6 address a 128-bit one; the bit operations are those
    of the Go package.  The lemmas turn classes and prefixes into ranges of
    integers, which is how the components' theorems state them. *)
From S2P Require Import Prelude Bytes.

(** ** Addresses *)

(** [netip.Addr]: the zero value, an IPv4 address, or an IPv6 address with
    its zone (empty when it has none). *)
Inductive Addr : Type :=
  | AddrNone
  | Addr4 (a : Z)
  | Addr6 (a : Z) (zone : string).

#[export] Instance Addr_eq_dec : EqDecision Addr.
Proof. solve_decision. Defined.

#[export] Instance Addr_countable : Countable Addr.
Proof.
  refine (inj_countable'
    (fun x => match x with
              | AddrNone => inl () | Addr4 a => inr (inl a) | Addr6 a z => inr (inr (a, z)) end)
    (fun y => match y with
              | inl _ => AddrNone | inr (inl a) => Addr4 a | inr (inr (a, z)) => Addr6 a z end) _).
  by intros [].
Defined.

(** The integers of an address are in range. *)
Definition addr_wf (x : Addr) : bool :=
  match x with
  | AddrNone => true
  | Addr4 a => (0 <=? a) && (a <? 2 ^ 32)
  | Addr6 a _ => (0 <=? a) && (a <? 2 ^ 128)
  end.

Definition addr_IsValid (x : Addr) : bool := match x with AddrNone => false | _ => true end.
Definition Is4 (x : Addr) : bool := match x with Addr4 _ => true | _ => false end.
Definition Is6 (x : Addr) : bool := match x with Addr6 _ _ => true | _ => false end.

(** An IPv4-mapped IPv6 address: the high 96 bits are [::ffff]. *)
Definition Is4In6 (x : Addr) : bool :=
  match x with Addr6 a _ => Z.shiftr a 32 =? 0xffff | _ => false end.

Definition Unmap (x : Addr) : Addr :=
  match x with
  | Addr6 a _ => if Is4In6 x then Addr4 (Z.land a 0xffffffff) else x
  | _ => x
  end.

(** The next address of the family, or the zero value after the last one. *)
Definition Next (x : Addr) : Addr :=
  match x with
  | AddrNone => AddrNone
  | Addr4 a => if a + 1 =? 2 ^ 32 then AddrNone else Addr4 (a + 1)
  | Addr6 a z => if a + 1 =? 2 ^ 128 then AddrNone else Addr6 (a + 1) z
  end.

(** ** Address classes *)

Definition v6u16 (a i : Z) : Z := Z.land (Z.shiftr a (112 - 16 * i)) 0xffff.

Definition IsLoopback (x : Addr) : bool :=
  match Unmap x with
  | AddrNone => false
  | Addr4 a => Z.shiftr a 24 =? 127
  | Addr6 a _ => a =? 1
  end.

Definition IsUnspecified (x : Addr) : bool :=
  match x with
  | AddrNone => false
  | Addr4 a => a =? 0
  | Addr6 a z => (a =? 0) && (z =? "")%string
  end.

Definition IsLinkLocalUnicast (x : Addr) : bool :=
  match Unmap x with
  | AddrNone => false
  | Addr4 a => (Z.shiftr a 24 =? 169) && (Z.land (Z.shiftr a 16) 0xff =? 254)
  | Addr6 a _ => Z.land (v6u16 a 0) 0xffc0 =? 0xfe80
  end.

Definition IsLinkLocalMulticast (x : Addr) : bool :=
  match Unmap x with
  | AddrNone => false
  | Addr4 a =>
      (Z.shiftr a 24 =? 224) && (Z.land (Z.shiftr a 16) 0xff =? 0) &&
      (Z.land (Z.shiftr a 8) 0xff =? 0)
  | Addr6 a _ => Z.land (v6u16 a 0) 0xff0f =? 0xff02
  end.

Definition IsInterfaceLocalMulticast (x : Addr) : bool :=
  match x with
  | Addr6 a _ => negb (Is4In6 x) && (Z.land (v6u16 a 0) 0xff0f =? 0xff01)
  | _ => false
  end.

(** ** Prefixes *)

(** [netip.Prefix], as [ParsePrefix] gives it: no zone, and as many bits as
    the family allows. *)
Record Prefix := { p_addr : Addr; p_bits : Z }.

#[export] Instance Prefix_eq_dec : EqDecision Prefix.
Proof. solve_decision. Defined.

Definition prefix_IsValid (p : Prefix) : bool :=
  match p_addr p with
  | AddrNone => false
  | Addr4 _ => (0 <=? p_bits p) && (p_bits p <=? 32)
  | Addr6 _ z => (0 <=? p_bits p) && (p_bits p <=? 128) && (z =? "")%string
  end.

Definition prefix_wf (p : Prefix) : bool := prefix_IsValid p && addr_wf (p_addr p).

(** The mask of a [w]-bit family with [n] leading ones. *)
Definition mask (w n : Z) : Z := Z.shiftl (Z.ones n) (w - n).

Definition Contains (p : Prefix) (x : Addr) : bool :=
  prefix_IsValid p &&
  match p_addr p, x with
  | Addr4 b, Addr4 a => Z.shiftr (Z.lxor a b) (32 - p_bits p) =? 0
  | Addr6 b _, Addr6 a z => (z =? "")%string && (Z.land (Z.lxor a b) (mask 128 (p_bits p)) =? 0)
  | _, _ => false
  end.

Definition Masked (p : Prefix) : Prefix :=
  match p_addr p with
  | AddrNone => p
  | Addr4 a => {| p_addr := Addr4 (Z.land a (mask 32 (p_bits p))); p_bits := p_bits p |}
  | Addr6 a _ => {| p_addr := Addr6 (Z.land a (mask 128 (p_bits p))) ""; p_bits := p_bits p |}
  end.

(** Dotted-quad and colon-separated literals. *)
Definition v4 (a b c d : Z) : Addr := Addr4 (a * 2 ^ 24 + b * 2 ^ 16 + c * 2 ^ 8 + d).
Definition v6_high (a rest : Z) : Addr := Addr6 (a * 2 ^ 112 + rest) "".

Definition AddrPort : Type := Addr * Z.

(** ** Bit operations as arithmetic *)
Lemma land_ones_eq a n : 0 <= n -> Z.land a (Z.ones n) = a mod 2 ^ n.
Proof. apply Z.land_ones. Qed.

Lemma land_mask a w n : 0 <= n <= w -> 0 <= a < 2 ^ w ->
  Z.land a (mask w n) = Z.shiftl (Z.shiftr a (w - n)) (w - n).
Proof.
  intros Hn Ha. unfold mask.
  transitivity (Z.shiftl (Z.land (Z.shiftr a (w - n)) (Z.ones n)) (w - n)).
  - apply Z.bits_inj'. intros i Hi.
    rewrite Z.land_spec, !Z.shiftl_spec, Z.land_spec by lia.
    destruct (Z.lt_ge_cases i (w - n)).
    + rewrite (Z.testbit_neg_r (Z.ones n)) by lia. by rewrite !andb_false_r.
    + rewrite Z.shiftr_spec by lia. do 2 f_equal. lia.
  - f_equal. rewrite Z.land_ones by lia. apply Z.mod_small.
    rewrite Z.shiftr_div_pow2 by lia. split; [apply Z.div_pos; lia|].
    apply Z.div_lt_upper_bound; [lia|]. rewrite <-Z.pow_add_r by lia.
    replace (w - n + n) with w by lia. lia.
Qed.

Lemma shiftl_zero_iff a n : 0 <= n -> Z.shiftl a n = 0 <-> a = 0.
Proof. intros. rewrite Z.shiftl_mul_pow2 by done. split; nia. Qed.

Lemma lxor_range a b n : 0 <= n -> 0 <= a < 2 ^ n -> 0 <= b < 2 ^ n -> 0 <= Z.lxor a b < 2 ^ n.
Proof.
  intros Hn Ha Hb. split; [by apply Z.lxor_nonneg; lia|].
  destruct (Z.eq_dec (Z.lxor a b) 0) as [->|Hz]; [lia|].
  apply Z.log2_lt_pow2; [assert (0 <= Z.lxor a b) by (apply Z.lxor_nonneg; lia); lia|].
  pose proof (Z.log2_lxor a b) as Hl.
  assert (Hlog : forall x, 0 <= x < 2 ^ n -> Z.log2 x < Z.max 1 n \/ x = 0).
  { intros x Hx. destruct (Z.eq_dec x 0); [by right|left].
    assert (Z.log2 x < n) by (apply Z.log2_lt_pow2; lia). lia. }
  destruct (Z.eq_dec n 0) as [->|Hn0].
  { assert (a = 0) as -> by (change (2 ^ 0) with 1 in *; lia).
    assert (b = 0) as -> by (change (2 ^ 0) with 1 in *; lia). done. }
  assert (Ha' : Z.log2 a < n).
  { destruct (Z.eq_dec a 0) as [->|]; [simpl; lia|]. apply Z.log2_lt_pow2; lia. }
  assert (Hb' : Z.log2 b < n).
  { destruct (Z.eq_dec b 0) as [->|]; [simpl; lia|]. apply Z.log2_lt_pow2; lia. }
  specialize (Hl ltac:(lia) ltac:(lia)). lia.
Qed.

(** Two integers agree above bit [n] when they are in the same block. *)
Lemma same_block a b n : 0 <= n -> Z.shiftr (Z.lxor a b) n = 0 <-> a / 2 ^ n = b / 2 ^ n.
Proof.
  intros Hn. rewrite Z.shiftr_lxor, Z.lxor_eq_0_iff, !Z.shiftr_div_pow2 by done. done.
Qed.

(** ** Prefixes as ranges *)

(** The width of an address's family. *)
Definition width (x : Addr) : Z := match x with Addr6 _ _ => 128 | _ => 32 end.
Definition addr_int (x : Addr) : Z := match x with AddrNone => 0 | Addr4 a => a | Addr6 a _ => a end.
Definition zone_free (x : Addr) : bool := match x with Addr6 _ z => (z =? "")%string | _ => true end.

(** A prefix contains an address when both are of one family, the address
    has no zone, and they agree on the leading bits. *)
Lemma Contains_spec p x :
  prefix_wf p = true -> addr_wf x = true ->
  Contains p x = true <->
  Is4 (p_addr p) = Is4 x /\ addr_IsValid x = true /\ zone_free x = true /\
  addr_int x / 2 ^ (width x - p_bits p) = addr_int (p_addr p) / 2 ^ (width x - p_bits p).
Proof.
  intros Hp Hx. unfold prefix_wf in Hp. apply andb_true_iff in Hp as [Hv Hw].
  unfold Contains. rewrite Hv. unfold prefix_IsValid in Hv.
  destruct p as [[|b|b z] n], x as [|a|a z']; simpl in *; try (split; [done|by intros (?&?&?&?)]).
  - rewrite Z.eqb_eq, same_block by bool_lia. naive_solver.
  - bool_to_prop. rewrite andb_true_iff, Z.eqb_eq.
    rewrite land_mask by (lia || (apply lxor_range; lia)).
    rewrite shiftl_zero_iff, same_block by lia. naive_solver.
Qed.

Lemma block_range a b n : 0 <= n -> a / 2 ^ n = b / 2 ^ n <->
  b / 2 ^ n * 2 ^ n <= a < b / 2 ^ n * 2 ^ n + 2 ^ n.
Proof.
  intros Hn. assert (0 < 2 ^ n) by lia. split.
  - intros <-. pose proof (Z.div_mod a (2 ^ n)). pose proof (Z.mod_pos_bound a (2 ^ n)). lia.
  - intros Hr. symmetry. apply (Z.div_unique _ _ _ (a - b / 2 ^ n * 2 ^ n)); lia.
Qed.

(** [Masked] keeps the block and clears the rest. *)
Lemma Masked_addr p : prefix_wf p = true ->
  addr_int (p_addr (Masked p)) =
  addr_int (p_addr p) / 2 ^ (width (p_addr p) - p_bits p) * 2 ^ (width (p_addr p) - p_bits p).
Proof.
  unfold prefix_wf, prefix_IsValid. destruct p as [[|a|a z] n]; simpl; intros Hp; [done| |];
    bool_to_prop; rewrite land_mask by lia;
    by rewrite Z.shiftl_mul_pow2, Z.shiftr_div_pow2 by lia.
Qed.

Lemma masked_range a w n : 0 <= n <= w -> 0 <= a < 2 ^ w -> 0 <= Z.land a (mask w n) < 2 ^ w.
Proof.
  intros Hn Ha. rewrite land_mask, Z.shiftl_mul_pow2, Z.shiftr_div_pow2 by lia.
  assert (Hp : 0 < 2 ^ (w - n)) by lia. pose proof (Z.div_pos a (2 ^ (w - n))).
  pose proof (Z.mul_div_le a (2 ^ (w - n)) Hp). lia.
Qed.

Lemma Masked_wf p : prefix_wf p = true -> prefix_wf (Masked p) = true.
Proof.
  unfold prefix_wf, prefix_IsValid, Masked, addr_wf. destruct p as [[|a|a z] n]; [done|..];
    cbn [p_addr p_bits]; intros Hp; bool_to_prop.
  - pose proof (masked_range a 32 n). repeat (apply andb_true_iff; split);
      first [apply Z.leb_le; lia|apply Z.ltb_lt; lia].
  - pose proof (masked_range a 128 n). repeat (apply andb_true_iff; split);
      first [apply Z.leb_le; lia|apply Z.ltb_lt; lia|done].
Qed.

Lemma Masked_idemp p : Masked (Masked p) = Masked p.
Proof.
  destruct p as [[|a|a z] n]; [done|..]; unfold Masked; simpl; by rewrite <-Z.land_assoc, Z.land_diag.
Qed.

(** ** Classes as ranges *)
Lemma shiftr_eq_range a n k : 0 <= n -> Z.shiftr a n = k <-> k * 2 ^ n <= a < (k + 1) * 2 ^ n.
Proof.
  intros Hn. rewrite Z.shiftr_div_pow2 by done. assert (0 < 2 ^ n) by lia. split.
  - intros <-. pose proof (Z.div_mod a (2 ^ n)). pose proof (Z.mod_pos_bound a (2 ^ n)). lia.
  - intros Hr. symmetry. apply (Z.div_unique _ _ _ (a - k * 2 ^ n)); lia.
Qed.

Lemma Unmap_6 a z :
  Unmap (Addr6 a z) = if Is4In6 (Addr6 a z) then Addr4 (a mod 2 ^ 32) else Addr6 a z.
Proof.
  unfold Unmap. destruct (Is4In6 _); [|reflexivity].
  f_equal. change 0xffffffff with (Z.ones 32). apply Z.land_ones. lia.
Qed.

Lemma Unmap_wf x : addr_wf x = true -> addr_wf (Unmap x) = true.
Proof.
  destruct x as [|a|a z]; intros Hx; [reflexivity|exact Hx|].
  rewrite Unmap_6. destruct (Is4In6 _); [|exact Hx].
  unfold addr_wf. pose proof (Z.mod_pos_bound a (2 ^ 32)).
  apply andb_true_iff. rewrite Z.leb_le, Z.ltb_lt. lia.
Qed.

Lemma Unmap_unmapped x : Is4In6 (Unmap x) = false.
Proof.
  destruct x as [|a|a z]; [reflexivity|reflexivity|].
  rewrite Unmap_6. destruct (Is4In6 (Addr6 a z)) eqn:E; [reflexivity|exact E].
Qed.

Lemma Unmap_id x : Is4In6 x = false -> Unmap x = x.
Proof. destruct x as [|a|a z]; [reflexivity|reflexivity|]. rewrite Unmap_6. intros ->. reflexivity. Qed.

Lemma Unmap_idemp x : Unmap (Unmap x) = Unmap x.
Proof. apply Unmap_id, Unmap_unmapped. Qed.

Lemma Unmap_valid x : addr_IsValid (Unmap x) = addr_IsValid x.
Proof. destruct x as [|a|a z]; [reflexivity|reflexivity|]. rewrite Unmap_6. destruct (Is4In6 _); reflexivity. Qed.

(** The classes of an unmapped address. *)
Lemma IsLoopback_4 a : IsLoopback (Addr4 a) = true <-> 127 * 2 ^ 24 <= a < 128 * 2 ^ 24.
Proof. unfold IsLoopback, Unmap. rewrite Z.eqb_eq, shiftr_eq_range by lia. reflexivity. Qed.

Lemma IsLoopback_6 a z : Is4In6 (Addr6 a z) = false -> IsLoopback (Addr6 a z) = true <-> a = 1.
Proof. intros Hm. unfold IsLoopback. rewrite Unmap_id by done. apply Z.eqb_eq. Qed.

Lemma IsLinkLocalUnicast_4 a :
  IsLinkLocalUnicast (Addr4 a) = true <->
  (169 * 256 + 254) * 2 ^ 16 <= a < (169 * 256 + 254 + 1) * 2 ^ 16.
Proof.
  unfold IsLinkLocalUnicast, Unmap. rewrite andb_true_iff, !Z.eqb_eq, shiftr_eq_range by lia.
  change 0xff with (Z.ones 8). rewrite Z.land_ones, Z.shiftr_div_pow2 by lia.
  change (2 ^ 24) with 16777216. change (2 ^ 16) with 65536. change (2 ^ 8) with 256.
  Z.to_euclidean_division_equations. lia.
Qed.

Lemma IsLinkLocalMulticast_4 a :
  IsLinkLocalMulticast (Addr4 a) = true <-> 224 * 2 ^ 24 <= a < 224 * 2 ^ 24 + 256.
Proof.
  unfold IsLinkLocalMulticast, Unmap.
  rewrite !andb_true_iff, !Z.eqb_eq, shiftr_eq_range by lia.
  change 0xff with (Z.ones 8). rewrite !Z.land_ones, !Z.shiftr_div_pow2 by lia.
  change (2 ^ 24) with 16777216. change (2 ^ 16) with 65536. change (2 ^ 8) with 256.
  Z.to_euclidean_division_equations. lia.
Qed.

Lemma v6u16_0 a : 0 <= a < 2 ^ 128 -> v6u16 a 0 = a / 2 ^ 112.
Proof.
  intros Ha. unfold v6u16. change (112 - 16 * 0) with 112. change 0xffff with (Z.ones 16).
  rewrite Z.land_ones, Z.shiftr_div_pow2 by lia. apply Z.mod_small.
  split; [apply Z.div_pos; lia|]. apply Z.div_lt_upper_bound; [lia|].
  rewrite <-Z.pow_add_r by lia. change (112 + 16) with 128. lia.
Qed.

Lemma IsLinkLocalUnicast_6 a z :
  Is4In6 (Addr6 a z) = false -> 0 <= a < 2 ^ 128 ->
  IsLinkLocalUnicast (Addr6 a z) = true <-> 0xfe80 * 2 ^ 112 <= a < 0xfec0 * 2 ^ 112.
Proof.
  intros Hm Ha. unfold IsLinkLocalUnicast. rewrite Unmap_id by done. rewrite v6u16_0 by done.
  assert (Hu : 0 <= a / 2 ^ 112 < 2 ^ 16).
  { split; [apply Z.div_pos; lia|]. apply Z.div_lt_upper_bound; [lia|].
    rewrite <-Z.pow_add_r by lia. change (112 + 16) with 128. lia. }
  change 0xffc0 with (mask 16 10).
  rewrite Z.eqb_eq, land_mask by lia. change (16 - 10) with 6.
  rewrite Z.shiftl_mul_pow2, Z.shiftr_div_pow2, Z.div_div by lia.
  rewrite <-Z.pow_add_r by lia. change (112 + 6) with 118.
  set (q := a / 2 ^ 118). assert (Hq : a / 2 ^ 118 = q) by done.
  transitivity (q = 0x3fa); [split; intros; [change (2 ^ 6) with 64 in *; lia|subst q; lia]|].
  rewrite <-Hq, <-Z.shiftr_div_pow2, shiftr_eq_range by lia.
  change (0x3fa * 2 ^ 118) with (0xfe80 * 2 ^ 112).
  change ((0x3fa + 1) * 2 ^ 118) with (0xfec0 * 2 ^ 112). done.
Qed.

(** The scope nibble of a multicast address: [ff?s::]. *)
Definition multicast_scope (u s : Z) : bool := (u / 256 =? 255) && (u mod 16 =? s).

Lemma multicast_scope_bits u s : 0 <= u < 65536 -> 0 <= s < 16 ->
  (Z.land u 0xff0f =? 0xff00 + s) = multicast_scope u s.
Proof.
  intros Hu Hs. change 0xff0f with (Z.lor (mask 16 8) (Z.ones 4)).
  rewrite Z.land_lor_distr_r, land_mask, Z.land_ones by lia. change (16 - 8) with 8.
  pose proof (Z.mod_pos_bound u (2 ^ 4)).
  rewrite lor_shiftl_add, Z.shiftr_div_pow2 by lia.
  unfold multicast_scope. apply eq_true_iff_eq. rewrite andb_true_iff, !Z.eqb_eq.
  change (2 ^ 8) with 256. change (2 ^ 4) with 16.
  Z.to_euclidean_division_equations. lia.
Qed.

Lemma v6_top a : 0 <= a < 2 ^ 128 -> 0 <= a / 2 ^ 112 < 65536.
Proof.
  intros Ha. split; [apply Z.div_pos; lia|]. apply Z.div_lt_upper_bound; [lia|].
  change 65536 with (2 ^ 16). rewrite <-Z.pow_add_r by lia. change (112 + 16) with 128. lia.
Qed.

Lemma IsLinkLocalMulticast_6 a z :
  Is4In6 (Addr6 a z) = false -> 0 <= a < 2 ^ 128 ->
  IsLinkLocalMulticast (Addr6 a z) = multicast_scope (a / 2 ^ 112) 2.
Proof.
  intros Hm Ha. unfold IsLinkLocalMulticast. rewrite Unmap_id, v6u16_0 by done.
  apply (multicast_scope_bits _ 2); [by apply v6_top|lia].
Qed.

Lemma IsInterfaceLocalMulticast_6 a z :
  Is4In6 (Addr6 a z) = false -> 0 <= a < 2 ^ 128 ->
  IsInterfaceLocalMulticast (Addr6 a z) = multicast_scope (a / 2 ^ 112) 1.
Proof.
  intros Hm Ha. unfold IsInterfaceLocalMulticast. rewrite Hm, v6u16_0 by done.
  apply (multicast_scope_bits _ 1); [by apply v6_top|lia].
Qed.

(** ** Addresses as bytes *)

(** Big-endian integers of any length. *)
Definition be_val (l : list byte) : Z := foldl (fun acc b => acc * 256 + byte_val b) 0 l.

Fixpoint put_be (n : nat) (z : Z) : list byte :=
  match n with O => [] | S n => put_be n (z / 256) ++ [byte_of z] end.

Definition AddrFrom4 (l : list byte) : Addr := Addr4 (be_val l).
Definition AddrFrom16 (l : list byte) : Addr := Addr6 (be_val l) "".

(** [None] is the panic of [As4] on an address that has no IPv4 form. *)
Definition As4 (x : Addr) : option (list byte) :=
  match Unmap x with Addr4 a => Some (put_be 4 a) | _ => None end.

Definition As16 (x : Addr) : list byte :=
  match x with
  | AddrNone => put_be 16 0
  | Addr4 a => put_be 16 (0xffff * 2 ^ 32 + a)
  | Addr6 a _ => put_be 16 a
  end.

Lemma length_put_be n z : length (put_be n z) = n.
Proof. revert z. induction n as [|n IH]; intros z; simpl; [done|]. rewrite length_app, IH. simpl. lia. Qed.

Lemma be_val_app l b : be_val (l ++ [b]) = be_val l * 256 + byte_val b.
Proof. unfold be_val. by rewrite foldl_app. Qed.

Lemma be_val_put n z : 0 <= z < 256 ^ Z.of_nat n -> be_val (put_be n z) = z.
Proof.
  revert z. induction n as [|n IH]; intros z Hz.
  - change (256 ^ Z.of_nat 0) with 1 in Hz. simpl. change (be_val []) with 0. lia.
  - cbn [put_be]. rewrite be_val_app, byte_val_of. rewrite Nat2Z.inj_succ, Z.pow_succ_r in Hz by lia.
    rewrite IH; [|split; [apply Z.div_pos; lia|apply Z.div_lt_upper_bound; lia]].
    pose proof (Z.div_mod z 256). lia.
Qed.

Lemma be_val_range l : 0 <= be_val l < 256 ^ Zlen l.
Proof.
  induction l as [|b l IH] using rev_ind; [change (be_val []) with 0; done|].
  rewrite be_val_app, Zlen_app. change (Zlen [b]) with 1. rewrite Z.pow_add_r by (unfold Zlen; lia).
  change (256 ^ 1) with 256. pose proof (byte_val_range b). lia.
Qed.

Lemma put_be_val l : put_be (length l) (be_val l) = l.
Proof.
  induction l as [|b l IH] using rev_ind; [done|].
  rewrite length_app, Nat.add_comm. cbn [length Nat.add put_be]. rewrite be_val_app.
  pose proof (byte_val_range b). rewrite (Z.div_add_l _ 256) by lia.
  rewrite (Z.div_small (byte_val b)), Z.add_0_r, IH by lia. do 2 f_equal.
  apply byte_val_inj. rewrite byte_val_of, Z.add_comm, Z.mod_add by lia. by apply Z.mod_small.
Qed.

Lemma AddrFrom4_wf l : length l = 4%nat -> addr_wf (AddrFrom4 l) = true.
Proof.
  intros Hl. unfold AddrFrom4, addr_wf. pose proof (be_val_range l) as Hr. unfold Zlen in Hr.
  rewrite Hl in Hr. change (256 ^ Z.of_nat 4) with (2 ^ 32) in Hr.
  apply andb_true_iff. rewrite Z.leb_le, Z.ltb_lt. lia.
Qed.

Lemma AddrFrom16_wf l : length l = 16%nat -> addr_wf (AddrFrom16 l) = true.
Proof.
  intros Hl. unfold AddrFrom16, addr_wf. pose proof (be_val_range l) as Hr. unfold Zlen in Hr.
  rewrite Hl in Hr. change (256 ^ Z.of_nat 16) with (2 ^ 128) in Hr.
  apply andb_true_iff. rewrite Z.leb_le, Z.ltb_lt. lia.
Qed.

Lemma AddrFrom4_put a : 0 <= a < 2 ^ 32 -> AddrFrom4 (put_be 4 a) = Addr4 a.
Proof. intros Ha. unfold AddrFrom4. rewrite be_val_put; [done|]. by change (256 ^ Z.of_nat 4) with (2 ^ 32). Qed.

Lemma AddrFrom16_put a : 0 <= a < 2 ^ 128 -> AddrFrom16 (put_be 16 a) = Addr6 a "".
Proof. intros Ha. unfold AddrFrom16. rewrite be_val_put; [done|]. by change (256 ^ Z.of_nat 16) with (2 ^ 128). Qed.
