(* ===== verification/Protocol.v ===== *)
(** The control-plane wire format of [pkg/protocol/protocol.go]: capability
    negotiation, the request and response structures the other components
    exchange, and the two length-prefixed payloads that are signed. *)
From S2P Require Import Prelude Bytes.

Definition Version : Z := 1.

Definition CapabilityMultipathV1 : string := "multipath-v1".
Definition CapabilityMultipathV2 : string := "multipath-v2".
Definition CapabilityMultipathV3 : string := "multipath-v3".
Definition CapabilityPathMTUV1 : string := "path-mtu-v1".
Definition CapabilityNativeWireGuardRelay : string := "native-wireguard-relay-v1".
Definition CapabilityMASQUERelayV1 : string := "masque-relay-v1".

Definition ErrorUnsupportedCapability : string := "unsupported_capability".
Definition ErrorInvalidRequest : string := "invalid_request".
Definition ErrorClockSkew : string := "clock_skew".
Definition ErrorReplayedNonce : string := "replayed_nonce".
Definition ErrorUnknownKey : string := "unknown_key".
Definition ErrorBadSignature : string := "bad_signature".
Definition ErrorRelayNameNotAllowed : string := "relay_name_not_allowed".

(** ** Capabilities *)

(** The error of [ValidateRequiredCapabilities], before formatting. *)
Inductive cap_error : Type :=
  | EmptyCapability
  | CapabilityNotSupported (want : string).

Definition HasCapability (caps : list string) (want : string) : bool :=
  existsb (fun got => (got =? want)%string) caps.

Fixpoint ValidateRequiredCapabilities (supported required : list string) : result cap_error () :=
  match required with
  | [] => Ok ()
  | want :: required =>
      if (want =? "")%string then Err EmptyCapability
      else if negb (HasCapability supported want) then Err (CapabilityNotSupported want)
      else ValidateRequiredCapabilities supported required
  end.

(** The loop of [IntersectCapabilities]: [seen] is its map, [out] its slice. *)
Fixpoint intersect_loop (supported offer : list string) (seen : gset string) (out : list string) :
    list string :=
  match offer with
  | [] => out
  | cap :: offer =>
      if (cap =? "")%string || negb (bool_decide (trim_space (bytes_of cap) = bytes_of cap))
         || negb (HasCapability supported cap)
      then intersect_loop supported offer seen out
      else if bool_decide (cap ∈ seen) then intersect_loop supported offer seen out
      else intersect_loop supported offer ({[cap]} ∪ seen) (out ++ [cap])
  end.

Definition IntersectCapabilities (offer supported : list string) : list string :=
  intersect_loop supported offer ∅ [].

(** ** Structures *)
Record ClientInfo := {
  ci_OS : string;
  ci_Arch : string;
  ci_Hostname : string;
  ci_Username : string;
  ci_ClientVersion : string;
  ci_LatencyMillis : Z;
  ci_Reconnections : Z;
  ci_Extra : gmap string string;
  ci_PortalCapabilities : list string;
}.

Record AuthRequest := {
  ar_Version : Z;
  ar_PublicKey : string;
  ar_WireGuardPublicKey : string;
  ar_Timestamp : string;
  ar_Nonce : string;
  ar_Info : ClientInfo;
  ar_Signature : string;
  ar_TransportCapabilities : list string;
  ar_RequiredTransportCapabilities : list string;
  ar_QueryOnly : bool;
}.

Record Tunnel := {
  tn_Name : string;
  tn_Description : string;
  tn_VirtualPort : Z;
  tn_Protocol : string;
  tn_UDPIdleTimeout : Z;
  tn_LocalPort : Z;
  tn_LocalHost : string;
  tn_TargetHint : string;
  tn_Instructions : string;
  tn_DocsURL : string;
}.

Record SocksTarget := {
  st_Name : string;
  st_LocalPort : Z;
  st_VirtualPort : Z;
  st_TunnelIP : string;
  st_DomainFilters : list string;
  st_Filters : list string;
}.

Record RelayRegisterRequest := {
  rr_Version : Z;
  rr_PublicKey : string;
  rr_Name : string;
  rr_Timestamp : string;
  rr_Nonce : string;
  rr_Signature : string;
  rr_ServerVersion : string;
  rr_Capabilities : list string;
  rr_RequiredCapabilities : list string;
  rr_SocksTargets : list SocksTarget;
}.

Record RelayRegisterResponse := {
  rp_Version : Z;
  rp_Name : string;
  rp_Domain : string;
  rp_Error : string;
  rp_Code : string;
  rp_ReflectAddr : string;
  rp_UDPRelayAddr : string;
  rp_NativeWireGuardAddr : string;
  rp_NativeWireGuardToken : string;
  rp_RelayVersion : string;
  rp_Capabilities : list string;
  rp_RequiredCapabilities : list string;
}.

Record RelayOpen := {
  ro_ConnID : string;
  ro_ClientAddr : string;
  ro_SNI : string;
}.

Record RelayUDPStats := {
  us_Token : string;
  us_ClientPacketsReceived : Z;
  us_ClientBytesReceived : Z;
  us_ServerPacketsForwarded : Z;
  us_ServerBytesForwarded : Z;
  us_ServerPacketsReceived : Z;
  us_ServerBytesReceived : Z;
  us_ClientPacketsForwarded : Z;
  us_ClientBytesForwarded : Z;
}.

Definition IsBrowserSocksTarget (targetHint : string) : bool := (targetHint =? "socks")%string.

(** ** Signed payloads *)
Inductive payload_error : Type :=
  | UnsupportedVersion (v : Z)
  | FieldTooLarge.

Definition max_field : Z := Z.shiftl 1 20.

(** The shared loop of both payloads: each field under its 32-bit big-endian
    length, an error on the first field over one mebibyte. *)
Fixpoint write_fields (b : list byte) (fields : list string) : result payload_error (list byte) :=
  match fields with
  | [] => Ok b
  | f :: fields =>
      if max_field <? str_len f then Err FieldTooLarge
      else write_fields (b ++ put_be32 (str_len f mod 4294967296) ++ bytes_of f) fields
  end.

Definition relay_domain : list byte := bytes_of "ntwire-relay-register-v1" ++ [x00].
Definition auth_domain : list byte := bytes_of "ntwire-auth-v1" ++ [x00].

Definition RelayRegisterPayload (r : RelayRegisterRequest) : result payload_error (list byte) :=
  if negb (rr_Version r =? Version) then Err (UnsupportedVersion (rr_Version r))
  else write_fields relay_domain [rr_PublicKey r; rr_Name r; rr_Timestamp r; rr_Nonce r].

Definition extra_fields (m : gmap string string) (keys : list string) : list string :=
  keys ≫= (fun k => [k; default "" (m !! k)]).

(** [ranged] is the order in which the [range] loop meets the keys of
    [r.Info.Extra], which Go leaves open. *)
Definition SigningPayload (ranged : list string) (r : AuthRequest) :
    result payload_error (list byte) :=
  if negb (ar_Version r =? Version) then Err (UnsupportedVersion (ar_Version r))
  else
    let i := ar_Info r in
    let fields := [ar_PublicKey r; ar_WireGuardPublicKey r; ar_Timestamp r; ar_Nonce r;
                   ci_OS i; ci_Arch i; ci_Hostname i; ci_Username i; ci_ClientVersion i] in
    let keys := sort_strings ranged in
    write_fields auth_domain (fields ++ extra_fields (ci_Extra i) keys).

(** [ranged] lists the keys of the map, each once. *)
Definition ranges_over (ranged : list string) (r : AuthRequest) : Prop :=
  ranged ≡ₚ map_keys (ci_Extra (ar_Info r)).

(** ** Lemmas *)

Lemma HasCapability_elem caps want : HasCapability caps want = true <-> want ∈ caps.
Proof.
  unfold HasCapability. rewrite existsb_exists, list_elem_of_In. split.
  - intros (x & Hx & ->%String.eqb_eq). done.
  - intros H. exists want. by rewrite String.eqb_refl.
Qed.

(** The capabilities an offer may contribute. *)
Definition eligible (supported : list string) (cap : string) : Prop :=
  cap <> ""%string /\ trim_space (bytes_of cap) = bytes_of cap /\ cap ∈ supported.

Lemma eligible_test supported cap :
  (cap =? "")%string || negb (bool_decide (trim_space (bytes_of cap) = bytes_of cap))
    || negb (HasCapability supported cap) = false <-> eligible supported cap.
Proof.
  unfold eligible. rewrite !orb_false_iff, !negb_false_iff, bool_decide_eq_true,
    HasCapability_elem, String.eqb_neq. tauto.
Qed.

(** The loop keeps what it has and appends, in order and once each, the
    eligible capabilities of the rest that it has not seen. *)
Lemma intersect_loop_spec supported offer seen out :
  (forall c, c ∈ out <-> c ∈ seen) -> NoDup out ->
  exists new, intersect_loop supported offer seen out = out ++ new /\
    NoDup (out ++ new) /\ new `sublist_of` offer /\
    (forall c, c ∈ out ++ new <-> c ∈ out \/ (c ∈ offer /\ eligible supported c)).
Proof.
  revert seen out. induction offer as [|c offer IH]; intros seen out Hseen Hnd; simpl.
  { exists []. rewrite app_nil_r. split_and!; try done. set_solver. }
  destruct ((c =? "")%string || _ || _) eqn:Ec.
  - assert (~ eligible supported c) as Hc by (rewrite <-eligible_test; congruence).
    destruct (IH seen out Hseen Hnd) as (new & -> & ? & ? & Hin). exists new.
    split_and!; [done..|by apply sublist_cons|]. intros d. rewrite Hin. set_solver.
  - apply eligible_test in Ec. case_bool_decide as Hs.
    + destruct (IH seen out Hseen Hnd) as (new & -> & ? & ? & Hin). exists new.
      split_and!; [done..|by apply sublist_cons|]. intros d. rewrite Hin.
      apply Hseen in Hs. set_solver.
    + assert (c ∉ out) as Hout by (by rewrite Hseen).
      destruct (IH ({[c]} ∪ seen) (out ++ [c])) as (new & -> & Hnd' & Hsub & Hin).
      { intros d. set_solver. }
      { apply NoDup_app. split_and!; [done|set_solver|apply NoDup_singleton]. }
      exists (c :: new). rewrite <-app_assoc in *. simpl in *.
      split_and!; [done..|by apply sublist_skip|].
      intros d. rewrite Hin. set_solver.
Qed.

Lemma str_len_range s : 0 <= str_len s.
Proof. apply Zlen_nonneg. Qed.

Lemma write_fields_ok b fields p :
  write_fields b fields = Ok p <->
  Forall (fun f => str_len f <= max_field) fields /\
  p = b ++ (fields ≫= (fun f => put_be32 (str_len f) ++ bytes_of f)).
Proof.
  revert b. induction fields as [|f fields IH]; intros b; cbn [write_fields mbind list_bind].
  { rewrite app_nil_r. split; [intros [= ->]; done|by intros [_ ->]]. }
  destruct (max_field <? str_len f) eqn:E.
  - split; [done|]. intros [HF _]. apply Forall_cons in HF as [? _]. bool_lia.
  - assert (str_len f mod 4294967296 = str_len f) as ->.
    { apply Z.mod_small. pose proof (str_len_range f).
      unfold max_field in *. change (Z.shiftl 1 20) with 1048576 in *. bool_lia. }
    rewrite IH, Forall_cons, <-!app_assoc. bool_to_prop. intuition.
Qed.

Lemma write_fields_inj b fs gs p :
  write_fields b fs = Ok p -> write_fields b gs = Ok p -> fs = gs.
Proof.
  intros [Hf ->]%write_fields_ok [Hg H%app_inv_head]%write_fields_ok.
  revert gs Hg H. induction Hf as [|f fs Hf _ IH]; intros [|g gs] Hg; try done.
  cbn [mbind list_bind]. rewrite <-!app_assoc. intros H.
  apply Forall_cons in Hg as [Hg HG].
  assert (str_len f = str_len g) as E.
  { pose proof (str_len_range f). pose proof (str_len_range g).
    unfold max_field in *. change (Z.shiftl 1 20) with 1048576 in *.
    apply put_be32_inj; [lia..|]. by apply app_inj_1 in H as [? _]. }
  apply app_inj_1 in H as [_ H]; [|done]. unfold str_len, Zlen in E.
  apply app_inj_1 in H as [Hfg%bytes_of_inj H]; [|lia]. subst. f_equal. by apply IH.
Qed.

(** Equal fields over sorted distinct keys are equal maps. *)
Lemma extra_fields_inj m1 m2 k1 k2 :
  (forall k, k ∈ k1 <-> is_Some (m1 !! k)) -> (forall k, k ∈ k2 <-> is_Some (m2 !! k)) ->
  extra_fields m1 k1 = extra_fields m2 k2 -> m1 = m2.
Proof.
  intros H1 H2 E.
  assert (k1 = k2 /\ forall k, k ∈ k1 -> m1 !!! k = m2 !!! k) as [-> Hk].
  { clear H1 H2. revert k2 E. unfold extra_fields.
    induction k1 as [|a k1 IH]; intros [|c k2]; simpl; try done; [set_solver|].
    intros [= -> Hv E]. destruct (IH _ E) as [-> IH']. split; [done|].
    intros k [->|Hin]%elem_of_cons; [|by apply IH'].
    rewrite !lookup_total_alt. done. }
  apply map_eq. intros k. specialize (H1 k). specialize (H2 k). specialize (Hk k).
  rewrite !lookup_total_alt in Hk.
  destruct (m1 !! k) eqn:E1, (m2 !! k) eqn:E2; simpl in *; try done.
  - f_equal. apply Hk. by apply H1.
  - destruct (proj1 H2); [by apply H1|done].
  - destruct (proj1 H1); [by apply H2|done].
Qed.

Lemma ranged_elem ranged r k :
  ranges_over ranged r -> k ∈ sort_strings ranged <-> is_Some (ci_Extra (ar_Info r) !! k).
Proof.
  unfold ranges_over. intros H. by rewrite sort_strings_perm, H, elem_of_map_keys.
Qed.

(** ** Properties *)

(** two signing payloads are byte-equal only for requests that agree on
    every signed field, the [Extra] map included, whatever the order its keys
    were ranged over: the encoding has no ambiguity a signature could be moved
    across. *)
Theorem SigningPayload_injective ranged1 ranged2 r1 r2 p
    (H1 : ranges_over ranged1 r1) (H2 : ranges_over ranged2 r2)
    (P1 : SigningPayload ranged1 r1 = Ok p) (P2 : SigningPayload ranged2 r2 = Ok p) :
  ar_PublicKey r1 = ar_PublicKey r2 /\ ar_WireGuardPublicKey r1 = ar_WireGuardPublicKey r2 /\
  ar_Timestamp r1 = ar_Timestamp r2 /\ ar_Nonce r1 = ar_Nonce r2 /\
  ci_OS (ar_Info r1) = ci_OS (ar_Info r2) /\ ci_Arch (ar_Info r1) = ci_Arch (ar_Info r2) /\
  ci_Hostname (ar_Info r1) = ci_Hostname (ar_Info r2) /\
  ci_Username (ar_Info r1) = ci_Username (ar_Info r2) /\
  ci_ClientVersion (ar_Info r1) = ci_ClientVersion (ar_Info r2) /\
  ci_Extra (ar_Info r1) = ci_Extra (ar_Info r2).
Proof.
  unfold SigningPayload in *. case_go; [done|]. case_go; [done|].
  pose proof (write_fields_inj _ _ _ _ P1 P2) as E. simplify_eq/=.
  split_and!; try done. eapply extra_fields_inj; [| |done]; intros k; by apply ranged_elem.
Qed.

(** The signing payload does not depend on the order Go's [range] meets
    the keys of [Extra]. *)
Theorem SigningPayload_order_independent ranged1 ranged2 r
    (H1 : ranges_over ranged1 r) (H2 : ranges_over ranged2 r) :
  SigningPayload ranged1 r = SigningPayload ranged2 r.
Proof.
  unfold SigningPayload. by rewrite (sort_strings_unique ranged1 ranged2) by (by rewrite H1, H2).
Qed.

(** a relay registration payload is never a prefix of a client
    authentication payload, nor the other way round, so a signature over one
    is never a signature over the other; and two equal registration payloads
    bind the same key, tenant name, timestamp and nonce. *)
Theorem RelayRegisterPayload_separated r r' ranged a p p' q
    (HR : RelayRegisterPayload r = Ok p) (HR' : RelayRegisterPayload r' = Ok p')
    (HA : SigningPayload ranged a = Ok q) :
  ~ p `prefix_of` q /\ ~ q `prefix_of` p /\
  (p = p' -> rr_PublicKey r = rr_PublicKey r' /\ rr_Name r = rr_Name r' /\
             rr_Timestamp r = rr_Timestamp r' /\ rr_Nonce r = rr_Nonce r').
Proof.
  unfold RelayRegisterPayload, SigningPayload in *. repeat (case_go; [done|]).
  split_and!.
  - apply write_fields_ok in HR as [_ ->], HA as [_ ->]. by intros [k [=]].
  - apply write_fields_ok in HR as [_ ->], HA as [_ ->]. by intros [k [=]].
  - intros ->. by pose proof (write_fields_inj _ _ _ _ HR HR') as [= ? ? ? ?].
Qed.

(** [IntersectCapabilities] returns exactly the offered capabilities that
    are non-empty, free of surrounding white space and supported, each once
    and in offer order. *)
Theorem IntersectCapabilities_spec offer supported :
  (forall c, c ∈ IntersectCapabilities offer supported <->
             c ∈ offer /\ eligible supported c) /\
  NoDup (IntersectCapabilities offer supported) /\
  IntersectCapabilities offer supported `sublist_of` offer.
Proof.
  destruct (intersect_loop_spec supported offer ∅ []) as (new & E & Hnd & Hsub & Hin);
    [set_solver|apply NoDup_nil_2|].
  unfold IntersectCapabilities. rewrite E. simpl in *.
  split_and!; [|done..]. intros c. rewrite Hin. set_solver.
Qed.

(** ** Witnesses *)
Definition example_info (latency : Z) : ClientInfo := {|
  ci_OS := "linux"; ci_Arch := "arm64"; ci_Hostname := "h"; ci_Username := "u";
  ci_ClientVersion := "1"; ci_LatencyMillis := latency; ci_Reconnections := 0;
  ci_Extra := {["b" := "2"; "a" := "1"]}; ci_PortalCapabilities := [] |}.

Definition example_auth (latency : Z) (query : bool) : AuthRequest := {|
  ar_Version := 1; ar_PublicKey := "pk"; ar_WireGuardPublicKey := "wg"; ar_Timestamp := "t";
  ar_Nonce := "n"; ar_Info := example_info latency; ar_Signature := "s";
  ar_TransportCapabilities := []; ar_RequiredTransportCapabilities := [];
  ar_QueryOnly := query |}.

Definition example_register : RelayRegisterRequest := {|
  rr_Version := 1; rr_PublicKey := "pk"; rr_Name := "tenant"; rr_Timestamp := "t";
  rr_Nonce := "n"; rr_Signature := "s"; rr_ServerVersion := ""; rr_Capabilities := [];
  rr_RequiredCapabilities := []; rr_SocksTargets := [] |}.

Definition payload_of {E} (r : result E (list byte)) : list byte :=
  match r with Ok p => p | Err _ => [] end.

Lemma example_ranges latency query :
  ranges_over ["a"; "b"] (example_auth latency query) /\
  ranges_over ["b"; "a"] (example_auth latency query).
Proof.
  unfold ranges_over, example_auth, example_info, map_keys. cbn [ar_Info ci_Extra].
  change (map_to_list ({["b" := "2"; "a" := "1"]} : gmap string string)).*1 with ["a"; "b"] ||
  change (map_to_list ({["b" := "2"; "a" := "1"]} : gmap string string)).*1 with ["b"; "a"].
  split; [done || apply Permutation_swap|apply Permutation_swap || done].
Qed.

Lemma SigningPayload_injective_witness :
  ar_Nonce (example_auth 5 true) = ar_Nonce (example_auth 9 false).
Proof.
  apply (SigningPayload_injective ["a"; "b"] ["b"; "a"] (example_auth 5 true)
           (example_auth 9 false) (payload_of (SigningPayload ["a"; "b"] (example_auth 5 true)))).
  - apply example_ranges.
  - apply example_ranges.
  - vm_compute. reflexivity.
  - vm_compute. reflexivity.
Defined.

Lemma SigningPayload_order_independent_witness :
  SigningPayload ["a"; "b"] (example_auth 5 true) = SigningPayload ["b"; "a"] (example_auth 5 true).
Proof. apply SigningPayload_order_independent; apply example_ranges. Defined.

Lemma RelayRegisterPayload_separated_witness :
  ~ payload_of (RelayRegisterPayload example_register)
    `prefix_of` payload_of (SigningPayload ["a"; "b"] (example_auth 5 true)).
Proof.
  destruct (RelayRegisterPayload_separated example_register example_register ["a"; "b"]
    (example_auth 5 true) (payload_of (RelayRegisterPayload example_register))
    (payload_of (RelayRegisterPayload example_register))
    (payload_of (SigningPayload ["a"; "b"] (example_auth 5 true)))) as [H _];
    [vm_compute; reflexivity..|exact H].
Defined.
