(* ===== verification/AuthLimit.v ===== *)
(** [pkg/authlimit/authlimit.go]: the replay-nonce cache and the per-source
    request limiter.  Each method holds its mutex throughout, so it is one
    step; [now] is its reading of the clock and [ord] the order its [range]
    loops meet the map in. *)
From S2P Require Import Prelude.

Definition DefaultMaxNonces : Z := 4096.
Definition DefaultMaxSources : Z := 65536.

(** ** NonceCache *)
Module NonceCache.

Record t := mk {
  ttl : Z;
  max : Z;
  seen : gmap string Z;
}.

Definition NewNonceCache (ttl max : Z) : t :=
  mk (if ttl <=? 0 then 5 * minute else ttl)
     (if max <=? 0 then DefaultMaxNonces else max) ∅.

Definition expired (ttl now at_ : Z) : bool := ttl <? time_sub now at_.

(** One iteration of the loop of [sweepLocked]: the map and the oldest
    survivor so far. *)
Definition sweep_step (ttl now : Z) (acc : gmap string Z * option (string * Z)) (k : string) :
    gmap string Z * option (string * Z) :=
  let '(seen, oldest) := acc in
  match seen !! k with
  | None => acc
  | Some at_ =>
      if expired ttl now at_ then (delete k seen, oldest)
      else match oldest with
           | None => (seen, Some (k, at_))
           | Some (_, oldestAt) =>
               if time_before at_ oldestAt then (seen, Some (k, at_)) else acc
           end
  end.

Definition sweepLocked (ord : gmap string Z -> list string) (now : Z) (c : t) : t :=
  let '(seen', oldest) := foldl (sweep_step (ttl c) now) (seen c, None) (ord (seen c)) in
  match oldest with
  | Some (oldestKey, _) =>
      if max c <=? Zsize seen' then mk (ttl c) (max c) (delete oldestKey seen')
      else mk (ttl c) (max c) seen'
  | None => mk (ttl c) (max c) seen'
  end.

Definition Use (ord : gmap string Z -> list string) (now : Z) (n : string) (c : t) : bool * t :=
  if (n =? "")%string then (false, c)
  else
    let fresh :=
      match seen c !! n with
      | Some at_ => negb (time_sub now at_ <=? ttl c)
      | None => true
      end in
    if negb fresh then (false, c)
    else
      let c := if max c <=? Zsize (seen c) then sweepLocked ord now c else c in
      (true, mk (ttl c) (max c) (<[n:=now]> (seen c))).

Definition Len (c : t) : Z := Zsize (seen c).

(** *** The abstract specification: an unbounded log of accepted nonces *)
Definition log := list (string * Z).

Definition live (ttl now : Z) (e : string * Z) : bool := negb (expired ttl now e.2).

Definition log_use (ttl now : Z) (n : string) (l : log) : bool * log :=
  if (n =? "")%string then (false, l)
  else if existsb (fun e => (e.1 =? n)%string && live ttl now e) l then (false, l)
  else (true, (n, now) :: l).

(** A call: the clock, the nonce and the range order of that call. *)
Record call := { at_time : Z; nonce : string; order : gmap string Z -> list string }.

Fixpoint run (cs : list call) (c : t) : list bool * t :=
  match cs with
  | [] => ([], c)
  | x :: cs =>
      let '(r, c) := Use (order x) (at_time x) (nonce x) c in
      let '(rs, c) := run cs c in (r :: rs, c)
  end.

Fixpoint log_run (ttl : Z) (cs : list call) (l : log) : list bool * log :=
  match cs with
  | [] => ([], l)
  | x :: cs =>
      let '(r, l) := log_use ttl (at_time x) (nonce x) l in
      let '(rs, l) := log_run ttl cs l in (r :: rs, l)
  end.

(** The calls are made in clock order from [t0], and each finds fewer than
    [max] nonces accepted within the last [ttl]. *)
Fixpoint roomy (ttl max t0 : Z) (cs : list call) (l : log) : Prop :=
  match cs with
  | [] => True
  | x :: cs =>
      t0 <= at_time x /\ ranges (order x) /\
      Zlen (filter (fun e => live ttl (at_time x) e = true) l) < max /\
      roomy ttl max (at_time x) cs (log_use ttl (at_time x) (nonce x) l).2
  end.

(** *** The sweep *)

Definition oldest_in (acc : gmap string Z * option (string * Z)) : Prop :=
  match acc.2 with Some (k, _) => is_Some (acc.1 !! k) | None => True end.

Lemma sweep_step_lookup ttl now acc k k' :
  (sweep_step ttl now acc k).1 !! k' =
    if decide (k = k') then
      match acc.1 !! k with
      | Some a => if expired ttl now a then None else Some a
      | None => None
      end
    else acc.1 !! k'.
Proof.
  destruct acc as [m o]. unfold sweep_step. simpl.
  destruct (m !! k) as [a|] eqn:E; simpl; [|by case_decide; subst].
  destruct (expired ttl now a) eqn:Ee; simpl.
  - rewrite lookup_delete. by case_decide.
  - transitivity (m !! k'); [by repeat case_match|by case_decide; subst].
Qed.

(** After a prefix of the range, the visited keys have lost their expired
    entries and nothing else has changed. *)
Lemma sweep_fold_lookup ttl now ks acc k :
  NoDup ks ->
  (foldl (sweep_step ttl now) acc ks).1 !! k =
    if decide (k ∈ ks) then
      match acc.1 !! k with
      | Some a => if expired ttl now a then None else Some a
      | None => None
      end
    else acc.1 !! k.
Proof.
  revert acc. induction ks as [|x ks IH]; intros acc Hnd; cbn [foldl].
  { by rewrite decide_False by set_solver. }
  apply NoDup_cons in Hnd as [Hx Hnd]. rewrite IH, sweep_step_lookup by done.
  destruct (decide (x = k)) as [->|].
  - by rewrite decide_False, decide_True by set_solver.
  - by rewrite (decide_ext (k ∈ x :: ks) (k ∈ ks)) by set_solver.
Qed.

(** The survivor the loop remembers is an entry of the map, and there is one
    as soon as an unexpired entry was met. *)
Lemma sweep_fold_oldest ttl now ks acc :
  NoDup ks -> oldest_in acc ->
  (forall k a, acc.2 = Some (k, a) -> k ∉ ks) ->
  oldest_in (foldl (sweep_step ttl now) acc ks) /\
  ((foldl (sweep_step ttl now) acc ks).2 = None ->
     acc.2 = None /\ forall k a, k ∈ ks -> acc.1 !! k = Some a -> expired ttl now a = true).
Proof.
  revert acc. induction ks as [|x ks IH]; intros [m o] Hnd Hin Ho; cbn [foldl].
  { split; [done|]. intros HN. split; [done|]. set_solver. }
  apply NoDup_cons in Hnd as [Hx Hnd].
  set (acc' := sweep_step ttl now (m, o) x). unfold sweep_step in acc'.
  destruct (m !! x) as [a|] eqn:Em; subst acc'.
  2:{ destruct (IH (m, o)) as [? HN]; [done..|set_solver|].
      split; [done|]. intros [? Hall]%HN. split; [done|].
      intros k a [->|]%elem_of_cons ?; [by simplify_eq/=|eauto]. }
  destruct (expired ttl now a) eqn:Ee.
  - destruct (IH (delete x m, o)) as [? HN]; [done| |set_solver|].
    { unfold oldest_in in *. simpl in *. destruct o as [[k b]|]; [|done].
      rewrite lookup_delete_ne; [done|]. intros ->. eapply Ho; [done|left]. }
    split; [done|]. intros [? Hall]%HN. split; [done|].
    intros k b [->|Hk]%elem_of_cons Hb; simpl in *; [by simplify_eq|].
    apply (Hall k b Hk). rewrite lookup_delete_ne; [done|]. by intros ->.
  - set (acc' := match o with None => _ | Some _ => _ end).
    assert (acc' = (m, Some (x, a)) \/ acc' = (m, o) /\ o <> None) as Hacc.
    { subst acc'. destruct o as [[k b]|]; [|by left].
      destruct (time_before a b); [by left|by right]. }
    clearbody acc'. destruct Hacc as [->|[-> Ho']].
    + destruct (IH (m, Some (x, a))) as [? HN]; [done|by exists a| |].
      { intros k b [= <- <-]. done. }
      split; [done|]. by intros [? _]%HN.
    + destruct (IH (m, o)) as [? HN]; [done|done|set_solver|].
      split; [done|]. by intros [? _]%HN.
Qed.

(** [sweepLocked] drops every expired entry and makes room. *)
Lemma sweepLocked_spec ord now c (H : ranges ord) :
  let swept := foldl (sweep_step (ttl c) now) (seen c, None) (ord (seen c)) in
  (forall k, swept.1 !! k =
     match seen c !! k with
     | Some a => if expired (ttl c) now a then None else Some a
     | None => None
     end) /\
  ttl (sweepLocked ord now c) = ttl c /\ max (sweepLocked ord now c) = max c /\
  (Zsize swept.1 < max c -> seen (sweepLocked ord now c) = swept.1) /\
  (0 < max c -> Zsize (seen c) <= max c -> Zsize (seen (sweepLocked ord now c)) < max c).
Proof.
  intros swept.
  assert (forall k, swept.1 !! k =
     match seen c !! k with
     | Some a => if expired (ttl c) now a then None else Some a
     | None => None
     end) as Hl.
  { intros k. unfold swept. rewrite sweep_fold_lookup by auto. simpl.
    case_decide as Hk; [done|]. rewrite elem_of_ranges in Hk by done.
    by destruct (seen c !! k); [destruct Hk|]. }
  destruct (sweep_fold_oldest (ttl c) now (ord (seen c)) (seen c, None)) as [Hin HN];
    [auto|done|done|]. fold swept in Hin, HN. split; [done|].
  assert (Zsize swept.1 <= Zsize (seen c)) as Hsz.
  { unfold Zsize. apply inj_le, map_subseteq_size, map_subseteq_spec. intros k a.
    rewrite Hl. repeat case_match; naive_solver. }
  unfold sweepLocked. fold swept. destruct swept as [m [[k a]|]]; simpl in *.
  - unfold oldest_in in Hin. simpl in Hin. destruct Hin as [b Hb].
    pose proof (map_size_delete_Some k m (mk_is_Some _ _ Hb)).
    assert (size m <> 0%nat) by (eapply map_size_ne_0_lookup_2; eauto).
    destruct (max c <=? Zsize m) eqn:E; simpl; unfold Zsize in *; split_and!; try done; bool_lia.
  - destruct HN as [_ HN]; [done|].
    assert (m = ∅) as ->.
    { apply map_empty. intros k. rewrite Hl. destruct (seen c !! k) as [a|] eqn:E; [|done].
      rewrite (HN k a); [done| |done]. rewrite elem_of_ranges by done. by exists a. }
    split_and!; try done.
Qed.

(** *** The cache never holds more than [max] entries *)
Definition bounded (c : t) : Prop := 0 < max c /\ Len c <= max c.

Lemma Use_bounded ord now n c (H : ranges ord) :
  bounded c -> bounded (Use ord now n c).2 /\ max (Use ord now n c).2 = max c.
Proof.
  unfold bounded, Len. intros [Hm Hs]. unfold Use. case_go; [done|].
  destruct (negb _); [done|].
  destruct (sweepLocked_spec ord now c H) as (_ & _ & Hmax & _ & Hsz).
  destruct (max c <=? Zsize (seen c)) eqn:E; simpl.
  - rewrite Hmax, Zsize_insert. specialize (Hsz Hm Hs). case_match; lia.
  - rewrite Zsize_insert. bool_to_prop. case_match; lia.
Qed.

Lemma run_bounded cs c :
  Forall (fun x => ranges (order x)) cs -> bounded c ->
  bounded (run cs c).2 /\ max (run cs c).2 = max c.
Proof.
  revert c. induction cs as [|x cs IH]; intros c HF Hb; simpl; [done|].
  apply Forall_cons in HF as [Hx HF].
  destruct (Use_bounded (order x) (at_time x) (nonce x) c Hx Hb) as [Hb' Hm].
  destruct (Use _ _ _ c) as [r c']. simpl in *.
  destruct (IH c' HF Hb') as [? ?]. destruct (run cs c'). simpl in *. split; [done|congruence].
Qed.

(** *** Simulation with the log *)

(** Every cached entry was logged, and every logged entry that is still live
    at [t0] is cached under its own time. *)
Definition sim (t0 : Z) (c : t) (l : log) : Prop :=
  (forall k a, seen c !! k = Some a -> (k, a) ∈ l) /\
  (forall k a, (k, a) ∈ l -> live (ttl c) t0 (k, a) = true -> seen c !! k = Some a).

Lemma live_mono ttl t0 t1 e : t0 <= t1 -> live ttl t1 e = true -> live ttl t0 e = true.
Proof.
  unfold live, expired. intros Ht H. bool_to_prop. apply negb_true_iff, Z.ltb_ge.
  pose proof (time_sub_mono t0 t1 e.2 Ht). lia.
Qed.

Lemma log_use_fresh ttl now n l :
  existsb (fun e => (e.1 =? n)%string && live ttl now e) l = false <->
  (forall a, (n, a) ∈ l -> live ttl now (n, a) = false).
Proof.
  rewrite <-not_true_iff_false, existsb_exists. split.
  - intros H a Hin. apply not_true_iff_false. intros Hl. apply H. exists (n, a).
    rewrite <-list_elem_of_In. simpl. by rewrite String.eqb_refl.
  - intros H ([k a] & Hin%list_elem_of_In & Hk). simpl in Hk. bool_to_prop.
    simplify_eq/=. rewrite H in *; done.
Qed.

(** A sweep with room keeps the simulation. *)
Lemma sweepLocked_sim ord now c l (H : ranges ord) :
  Zlen (filter (fun e => live (ttl c) now e = true) l) < max c ->
  sim now c l -> sim now (sweepLocked ord now c) l /\ ttl (sweepLocked ord now c) = ttl c /\
    max (sweepLocked ord now c) = max c.
Proof.
  intros Hroom [Hs1 Hs2].
  destruct (sweepLocked_spec ord now c H) as (Hl & Httl & Hmax & Hsame & _).
  revert Hl Hsame. set (swept := (foldl _ _ _).1). intros Hl Hsame.
  assert (Zsize swept < max c) as Hsz.
  { eapply Z.le_lt_trans; [|done]. unfold Zsize, Zlen. apply inj_le.
    rewrite <-length_map_to_list. apply submseteq_length, NoDup_submseteq.
    { apply NoDup_map_to_list. }
    intros [k a] Hka%elem_of_map_to_list. rewrite Hl in Hka.
    apply list_elem_of_filter. destruct (seen c !! k) eqn:E; [|done].
    case_go; [done|]. simplify_eq. unfold live. simpl. split; [by apply negb_true_iff|auto]. }
  split_and!; [|done..]. unfold sim. rewrite (Hsame Hsz), Httl. split.
  - intros k a. rewrite Hl. repeat case_go; naive_solver.
  - intros k a Hin Hlive. rewrite Hl, (Hs2 k a Hin Hlive).
    unfold live in Hlive. simpl in Hlive. by destruct (expired (ttl c) now a).
Qed.

Lemma Use_sim ord now t0 n c l (H : ranges ord) :
  t0 <= now -> Zlen (filter (fun e => live (ttl c) now e = true) l) < max c ->
  sim t0 c l ->
  (Use ord now n c).1 = (log_use (ttl c) now n l).1 /\
  sim now (Use ord now n c).2 (log_use (ttl c) now n l).2 /\
  ttl (Use ord now n c).2 = ttl c /\ max (Use ord now n c).2 = max c.
Proof.
  intros Ht Hroom [Hs1 Hs2].
  assert (sim now c l) as Hsim by (split; eauto using live_mono).
  unfold Use, log_use. destruct (n =? "")%string; [done|].
  destruct (existsb _ l) eqn:Ex.
  - apply existsb_exists in Ex as ([k a] & Hin%list_elem_of_In & Hk). simpl in Hk.
    bool_to_prop. subst. destruct Hsim as [? Hs]. rewrite (Hs n a) by done.
    unfold live, expired in *. simpl in *.
    rewrite negb_involutive in *. bool_to_prop.
    by rewrite (proj2 (Z.leb_le _ _)) by done.
  - rewrite log_use_fresh in Ex.
    assert (match seen c !! n with
            | Some at_ => negb (time_sub now at_ <=? ttl c)
            | None => true end = true) as ->.
    { destruct (seen c !! n) as [a|] eqn:E; [|done]. specialize (Ex a (Hs1 n a E)).
      unfold live, expired in Ex. simpl in Ex. bool_to_prop.
      apply negb_true_iff, Z.leb_gt. lia. }
    simpl.
    set (c' := if max c <=? Zsize (seen c) then sweepLocked ord now c else c).
    assert (sim now c' l /\ ttl c' = ttl c /\ max c' = max c) as ([Hc1 Hc2] & Httl & Hmax).
    { subst c'. case_go; [|done]. by apply sweepLocked_sim. }
    split_and!; [done| |done..]. split; simpl.
    + intros k a. rewrite lookup_insert. case_decide; [intros [= <-]; subst; left|].
      intros. right. eauto.
    + intros k a [[= -> ->]|Hin]%elem_of_cons Hlive; [apply lookup_insert_eq|].
      rewrite lookup_insert_ne; [auto|]. intros ->. rewrite Httl, Ex in Hlive; done.
Qed.

(** With room, a call keeps every unexpired entry and files what it accepts. *)
Lemma Use_keeps ord now n c (H : ranges ord) :
  Zlen (filter (fun e => live (ttl c) now e = true) (map_to_list (seen c))) < max c ->
  (forall k a, seen c !! k = Some a -> live (ttl c) now (k, a) = true ->
     seen (Use ord now n c).2 !! k = Some a) /\
  ((Use ord now n c).1 = true -> seen (Use ord now n c).2 !! n = Some now) /\
  ttl (Use ord now n c).2 = ttl c /\ max (Use ord now n c).2 = max c.
Proof.
  intros Hroom.
  destruct (Use_sim ord now now n c (map_to_list (seen c)) H) as (_ & [_ Hs] & Httl & Hmax);
    [lia|done| |].
  { by split; intros k a; rewrite elem_of_map_to_list. }
  split_and!; [|intros Hok|done..].
  - intros k a Hk Hl. apply Hs; [|by rewrite Httl]. unfold log_use.
    destruct (_ =? _)%string; simpl; [by apply elem_of_map_to_list|].
    destruct (existsb _ _); simpl; [by apply elem_of_map_to_list|].
    right. by apply elem_of_map_to_list.
  - unfold Use in *. destruct (n =? "")%string; [done|]. destruct (negb _); [done|].
    simpl. apply lookup_insert_eq.
Qed.

(** A sweep only drops entries, and a call adds at most its own. *)
Lemma sweepLocked_subset ord now c k a (H : ranges ord) :
  seen (sweepLocked ord now c) !! k = Some a -> seen c !! k = Some a.
Proof.
  destruct (sweepLocked_spec ord now c H) as (Hl & _). intros Hk.
  assert (Hs : (foldl (sweep_step (ttl c) now) (seen c, None) (ord (seen c))).1 !! k = Some a).
  { revert Hk. unfold sweepLocked. destruct (foldl _ _ _) as [m [[k' b]|]]; simpl; [|done].
    case_go; simpl; [|done]. rewrite lookup_delete. by case_decide. }
  rewrite Hl in Hs. repeat case_match; congruence.
Qed.

Lemma Use_adds ord now n c k a (H : ranges ord) :
  seen (Use ord now n c).2 !! k = Some a -> seen c !! k = Some a \/ k = n /\ a = now.
Proof.
  unfold Use. case_go; [by left|]. destruct (negb _); [by left|]. simpl.
  rewrite lookup_insert. case_decide as Hk; [intros [= <-]; by right|]. left. revert H0.
  case_go; [by apply sweepLocked_subset|done].
Qed.

Lemma Use_const ord now n c (H : ranges ord) :
  ttl (Use ord now n c).2 = ttl c /\ max (Use ord now n c).2 = max c.
Proof.
  unfold Use. case_go; [done|]. destruct (negb _); [done|]. simpl.
  destruct (sweepLocked_spec ord now c H) as (_ & Ht & Hm & _). by case_go.
Qed.

Lemma Use_files ord now n c :
  (Use ord now n c).1 = true -> seen (Use ord now n c).2 !! n = Some now.
Proof.
  unfold Use. case_go; [done|]. destruct (negb _); [done|]. intros _. apply lookup_insert_eq.
Qed.

(** A call that finds the cache full of live entries may forget one; any
    other keeps them all. *)
Definition crowd (now : Z) (c : t) : list string :=
  map fst (filter (fun e => live (ttl c) now e = true) (map_to_list (seen c))).

Lemma Use_keeps_or_crowd ord now n c k a (H : ranges ord) :
  seen c !! k = Some a -> time_sub now a <= ttl c ->
  seen (Use ord now n c).2 !! k = Some a \/ max c <= Zlen (crowd now c).
Proof.
  intros Hk Ha. unfold crowd, Zlen. rewrite length_map.
  destruct (Z.lt_ge_cases (Zlen (filter (fun e => live (ttl c) now e = true) (map_to_list (seen c)))) (max c))
    as [Hroom|]; [|by right].
  left. destruct (Use_keeps ord now n c H Hroom) as (Hkeep & _). apply Hkeep; [done|].
  unfold live, expired. simpl. apply negb_true_iff, Z.ltb_ge. done.
Qed.

Lemma crowd_NoDup now c : NoDup (crowd now c).
Proof.
  eapply (sublist_NoDup _ ((map_to_list (seen c)).*1)).
  - apply NoDup_fst_map_to_list.
  - apply fmap_sublist, sublist_filter.
Qed.

Lemma elem_of_crowd now c k :
  k ∈ crowd now c -> exists a, seen c !! k = Some a /\ time_sub now a <= ttl c.
Proof.
  intros ([k' a] & -> & [Hl Hin]%list_elem_of_filter)%list_elem_of_fmap. simpl.
  exists a. apply elem_of_map_to_list in Hin. split; [done|].
  unfold live, expired in Hl. simpl in Hl. bool_lia.
Qed.

Lemma Use_live ord now n c a :
  seen c !! n = Some a -> time_sub now a <= ttl c -> Use ord now n c = (false, c).
Proof.
  intros Hn Ha. unfold Use. rewrite Hn.
  rewrite (proj2 (Z.leb_le _ _)) by done. by destruct (n =? "")%string.
Qed.

Lemma cache_run_sim cs t0 c l :
  roomy (ttl c) (max c) t0 cs l -> sim t0 c l -> (run cs c).1 = (log_run (ttl c) cs l).1.
Proof.
  revert t0 c l. induction cs as [|x cs IH]; intros t0 c l; simpl; [done|].
  intros (Ht & Hord & Hroom & Hrest) Hsim.
  destruct (Use_sim (order x) (at_time x) t0 (nonce x) c l) as (Hr & Hs & Httl & Hmax);
    [done..|].
  destruct (Use _ _ _ c) as [r c'], (log_use _ _ _ l) as [r' l']. simpl in *. subst r'.
  specialize (IH (at_time x) c' l'). rewrite Httl, Hmax in IH. specialize (IH Hrest Hs).
  destruct (run cs c'), (log_run _ cs l'). simpl in *. congruence.
Qed.

(** In a log, entries of one nonce are further apart than [ttl]. *)
Definition spaced (ttl : Z) (l : log) : Prop :=
  forall i j k a b, (i < j)%nat -> l !! i = Some (k, a) -> l !! j = Some (k, b) ->
    ttl < time_sub a b.

Lemma log_use_spaced ttl now n l : spaced ttl l -> spaced ttl (log_use ttl now n l).2.
Proof.
  intros Hs. unfold log_use. case_go; [done|]. case_go; [done|]. simpl.
  intros [|i] [|j] k a b Hij Hi Hj; simpl in *; try lia; [|eapply (Hs i j); eauto; lia].
  simplify_eq. match goal with H : existsb _ _ = false |- _ => rename H into Ex end.
  rewrite log_use_fresh in Ex. apply list_elem_of_lookup_2 in Hj. specialize (Ex _ Hj).
  unfold live, expired in Ex. simpl in Ex. bool_lia.
Qed.

Lemma log_run_spaced ttl cs l : spaced ttl l -> spaced ttl (log_run ttl cs l).2.
Proof.
  revert l. induction cs as [|x cs IH]; intros l Hl; simpl; [done|].
  pose proof (log_use_spaced ttl (at_time x) (nonce x) l Hl).
  destruct (log_use _ _ _ l) as [r l']. simpl in *. specialize (IH l').
  destruct (log_run ttl cs l'). simpl in *. auto.
Qed.

Lemma NewNonceCache_max_pos ttl max' : 0 < max (NewNonceCache ttl max').
Proof. unfold NewNonceCache, DefaultMaxNonces. simpl. case_go; bool_lia. Qed.

(** as long as fewer than [max] nonces are accepted within one TTL, the
    bounded cache answers every call exactly as an unbounded log of accepted
    nonces would, and in that log two acceptances of one nonce are more than
    the TTL apart: no signed request is replayed inside its window. *)
Theorem NonceCache_refines_log ttl' max' t0 cs
    (H : roomy (ttl (NewNonceCache ttl' max')) (max (NewNonceCache ttl' max')) t0 cs []) :
  let c := NewNonceCache ttl' max' in
  (run cs c).1 = (log_run (ttl c) cs []).1 /\ spaced (ttl c) (log_run (ttl c) cs []).2.
Proof.
  intros c. split.
  - eapply cache_run_sim; [done|]. split; simpl; [by intros ??; rewrite lookup_empty|].
    by intros ?? ?%elem_of_nil.
  - apply log_run_spaced. by intros [|i].
Qed.

(** Whatever nonces are presented, in whatever order the sweeps meet the
    map, the cache never holds more than its configured number of entries. *)
Theorem NonceCache_bounded ttl' max' cs (H : Forall (fun x => ranges (order x)) cs) :
  Len (run cs (NewNonceCache ttl' max')).2 <= max (NewNonceCache ttl' max').
Proof.
  pose proof (NewNonceCache_max_pos ttl' max').
  destruct (run_bounded cs (NewNonceCache ttl' max')) as [[_ Hl] Hm]; [done| |congruence].
  split; [done|]. unfold Len, Zsize. simpl. rewrite map_size_empty. simpl in *. lia.
Qed.

(** An empty nonce is always refused, and a nonce recorded within the TTL
    is refused whatever the state of the cache. *)
Theorem Use_replay_rejected ord now n c a
    (H : n = ""%string \/ (seen c !! n = Some a /\ time_sub now a <= ttl c)) :
  Use ord now n c = (false, c).
Proof.
  destruct H as [->|[Hn Ha]]; [done|]. by apply (Use_live _ _ _ _ a).
Qed.
End NonceCache.

(** ** SourceLimiter *)
Module SourceLimiter.

Record sourceState := { n : Z; since : Z }.

Record t := mk {
  limit : Z;
  window : Z;
  max : Z;
  sources : gmap string sourceState;
  sweepAt : Z;
}.

Definition NewSourceLimiter (limit window max : Z) : t :=
  mk limit (if window <=? 0 then minute else window)
     (if max <=? 0 then DefaultMaxSources else max) ∅ time_zero.

Definition elapsed (window now : Z) (s : sourceState) : bool :=
  window <? time_sub now (since s).

(** The first loop of [sweepLocked]: its body tests and deletes the current
    entry alone, so the order does not matter. *)
Definition drop_elapsed (window now : Z) (m : gmap string sourceState) :
    gmap string sourceState :=
  filter (fun e => elapsed window now e.2 = false) m.

(** The second loop: delete the keys met until the table is at [target]. *)
Fixpoint evict (target : Z) (ks : list string) (m : gmap string sourceState) :
    gmap string sourceState :=
  match ks with
  | [] => m
  | k :: ks => if Zsize m <=? target then m else evict target ks (delete k m)
  end.

Definition sweepLocked (ord : gmap string sourceState -> list string) (now : Z) (l : t) : t :=
  let m := drop_elapsed (window l) now (sources l) in
  let target := max l - go_div (max l) 10 in
  mk (limit l) (window l) (max l) (evict target (ord m) m) (sweepAt l).

Definition Allow (ord : gmap string sourceState -> list string) (now : Z) (source : string)
    (l : t) : bool * t :=
  if limit l <=? 0 then (true, l)
  else
    let l :=
      if time_after now (sweepAt l) || (max l <=? Zsize (sources l)) then
        let l := sweepLocked ord now l in
        mk (limit l) (window l) (max l) (sources l) (time_add now (window l))
      else l in
    let reset := (true, mk (limit l) (window l) (max l)
                     (<[source := {| n := 1; since := now |}]> (sources l)) (sweepAt l)) in
    match sources l !! source with
    | None => reset
    | Some s =>
        if elapsed (window l) now s then reset
        else
          let s := {| n := n s + 1; since := since s |} in
          (n s <=? limit l, mk (limit l) (window l) (max l)
                               (<[source := s]> (sources l)) (sweepAt l))
    end.

Definition Len (l : t) : Z := Zsize (sources l).

Record call := {
  at_time : Z; source : string; order : gmap string sourceState -> list string }.

Fixpoint run (cs : list call) (l : t) : list bool * t :=
  match cs with
  | [] => ([], l)
  | x :: cs =>
      let '(r, l) := Allow (order x) (at_time x) (source x) l in
      let '(rs, l) := run cs l in (r :: rs, l)
  end.

(** *** The abstract specification: an independent fixed window per source,
    never swept. *)
Abbreviation windows := (gmap string sourceState).

Definition window_allow (limit window now : Z) (src : string) (w : windows) : bool * windows :=
  match w !! src with
  | Some s =>
      if elapsed window now s then (true, <[src := {| n := 1; since := now |}]> w)
      else (n s + 1 <=? limit, <[src := {| n := n s + 1; since := since s |}]> w)
  | None => (true, <[src := {| n := 1; since := now |}]> w)
  end.

Fixpoint window_run (limit window : Z) (cs : list call) (w : windows) : list bool * windows :=
  match cs with
  | [] => ([], w)
  | x :: cs =>
      let '(r, w) := window_allow limit window (at_time x) (source x) w in
      let '(rs, w) := window_run limit window cs w in (r :: rs, w)
  end.

(** Calls in clock order, none of which finds the table full. *)
Fixpoint roomy (t0 : Z) (cs : list call) (l : t) : Prop :=
  match cs with
  | [] => True
  | x :: cs =>
      t0 <= at_time x /\ Zsize (drop_elapsed (window l) (at_time x) (sources l)) <=
        max l - go_div (max l) 10 /\
      roomy (at_time x) cs (Allow (order x) (at_time x) (source x) l).2
  end.

(** *** Eviction *)
Lemma evict_size target ks m :
  (forall k, k ∈ ks -> is_Some (m !! k)) -> NoDup ks -> Zsize m <= target + Zlen ks ->
  Zsize (evict target ks m) <= Z.max target (Zsize m - Zlen ks) /\
  Zsize (evict target ks m) <= Zsize m.
Proof.
  revert m. induction ks as [|k ks IH]; intros m Hin Hnd Hsz; cbn [evict].
  { unfold Zlen in *. simpl in *. lia. }
  apply NoDup_cons in Hnd as [Hk Hnd]. rewrite Zlen_cons in *.
  destruct (Zsize m <=? target) eqn:E; [bool_lia|].
  destruct (Hin k) as [v Hv]; [left|].
  assert (Zsize (delete k m) = Zsize m - 1) as Hd by (by rewrite Zsize_delete, Hv).
  destruct (IH (delete k m)) as [? ?]; [|done|lia|lia].
  intros j Hj. rewrite lookup_delete_ne by (intros ->; done). apply Hin. by right.
Qed.

Lemma evict_small target ks m : Zsize m <= target -> evict target ks m = m.
Proof. intros H. destruct ks; simpl; [done|]. by rewrite (proj2 (Z.leb_le _ _)). Qed.

Lemma Zlen_ranges (ord : gmap string sourceState -> list string) m :
  ranges ord -> Zlen (ord m) = Zsize m.
Proof.
  intros H. unfold Zlen, Zsize. by rewrite (H m), <-length_map_to_list; unfold map_keys;
    rewrite length_fmap.
Qed.

Lemma sweepLocked_size ord now l (H : ranges ord) :
  0 < max l -> Len (sweepLocked ord now l) <= max l - go_div (max l) 10.
Proof.
  intros Hm. unfold Len, sweepLocked. simpl.
  set (m := drop_elapsed _ _ _). set (target := max l - _).
  assert (0 <= target) by (subst target; unfold go_div; Z.to_euclidean_division_equations; lia).
  destruct (evict_size target (ord m) m) as [Hs _].
  - intros k. by apply elem_of_ranges.
  - by apply NoDup_ranges.
  - rewrite Zlen_ranges by done. lia.
  - rewrite Zlen_ranges in Hs by done. lia.
Qed.

(** *** Simulation with the windows *)
Definition sim (t0 : Z) (l : t) (w : windows) : Prop :=
  forall k, match w !! k with
            | None => sources l !! k = None
            | Some s => sources l !! k = Some s \/
                        (sources l !! k = None /\ elapsed (window l) t0 s = true)
            end.

Lemma elapsed_mono window t0 t1 s : t0 <= t1 -> elapsed window t0 s = true ->
  elapsed window t1 s = true.
Proof.
  unfold elapsed. intros Ht H. pose proof (time_sub_mono t0 t1 (since s) Ht).
  apply Z.ltb_lt. bool_lia.
Qed.

Lemma drop_elapsed_sim t0 now l w :
  t0 <= now -> sim t0 l w ->
  forall k, match w !! k with
            | None => drop_elapsed (window l) now (sources l) !! k = None
            | Some s =>
                (drop_elapsed (window l) now (sources l) !! k = Some s /\
                 elapsed (window l) now s = false) \/
                (drop_elapsed (window l) now (sources l) !! k = None /\
                 elapsed (window l) now s = true)
            end.
Proof.
  intros Ht Hsim k. specialize (Hsim k). unfold drop_elapsed.
  destruct (w !! k) as [s|].
  - destruct (elapsed (window l) now s) eqn:E.
    + right. split; [|done]. apply map_lookup_filter_None.
      destruct Hsim as [->|[-> _]]; [right|by left]. intros ? [= <-]. simpl. congruence.
    + left. split; [|done]. apply map_lookup_filter_Some. simpl. split; [|done].
      destruct Hsim as [?|[_ He]]; [done|]. by rewrite (elapsed_mono _ _ _ _ Ht He) in E.
  - apply map_lookup_filter_None. by left.
Qed.

Definition allow_tail (now : Z) (src : string) (l : t) : bool * t :=
  let reset := (true, mk (limit l) (window l) (max l)
                   (<[src := {| n := 1; since := now |}]> (sources l)) (sweepAt l)) in
  match sources l !! src with
  | None => reset
  | Some s =>
      if elapsed (window l) now s then reset
      else
        let s := {| n := n s + 1; since := since s |} in
        (n s <=? limit l, mk (limit l) (window l) (max l)
                             (<[src := s]> (sources l)) (sweepAt l))
  end.

Lemma sim_insert now l w src s a b c d :
  sim now l w -> b = window l -> sim now (mk a b c (<[src:=s]> (sources l)) d) (<[src:=s]> w).
Proof.
  intros Hsim -> k. specialize (Hsim k). cbn [sources window].
  rewrite !lookup_insert. case_decide; auto.
Qed.

Lemma allow_tail_sim now src l w :
  sim now l w ->
  (allow_tail now src l).1 = (window_allow (limit l) (window l) now src w).1 /\
  sim now (allow_tail now src l).2 (window_allow (limit l) (window l) now src w).2.
Proof.
  intros Hsim. pose proof (Hsim src) as Hsrc. unfold allow_tail, window_allow.
  destruct (w !! src) as [s|] eqn:Ew; [destruct Hsrc as [->|[-> Hs]]|rewrite Hsrc].
  - destruct (elapsed (window l) now s); split; try done; by apply sim_insert.
  - rewrite Hs. split; [done|]. by apply sim_insert.
  - split; [done|]. by apply sim_insert.
Qed.

Lemma Allow_sim ord now t0 src l w :
  0 < limit l -> t0 <= now ->
  Zsize (drop_elapsed (window l) now (sources l)) <= max l - go_div (max l) 10 ->
  sim t0 l w ->
  (Allow ord now src l).1 = (window_allow (limit l) (window l) now src w).1 /\
  sim now (Allow ord now src l).2 (window_allow (limit l) (window l) now src w).2 /\
  limit (Allow ord now src l).2 = limit l /\ window (Allow ord now src l).2 = window l.
Proof.
  intros Hlim Ht Hroom Hsim. unfold Allow. rewrite (proj2 (Z.leb_gt _ _)) by done.
  set (l' := if _ || _ then _ else l).
  assert (sim now l' w /\ limit l' = limit l /\ window l' = window l) as (Hs & Hl & Hw).
  { subst l'. case_go; [|split_and!; [|done..]].
    - unfold sweepLocked. simpl. rewrite evict_small by done.
      split_and!; [|done..]. intros k. simpl.
      pose proof (drop_elapsed_sim t0 now l w Ht Hsim k). case_match; naive_solver.
    - intros k. specialize (Hsim k). case_match; [|done].
      destruct Hsim as [?|[? ?]]; [by left|right; eauto using elapsed_mono]. }
  fold (allow_tail now src l'). rewrite <-Hl, <-Hw.
  destruct (allow_tail_sim now src l' w Hs) as [H1 H2]. split_and!; [done|done|..];
    unfold allow_tail; repeat case_go; done.
Qed.

Lemma limiter_run_sim cs t0 l w :
  0 < limit l -> roomy t0 cs l -> sim t0 l w ->
  (run cs l).1 = (window_run (limit l) (window l) cs w).1.
Proof.
  revert t0 l w. induction cs as [|x cs IH]; intros t0 l w Hlim; simpl; [done|].
  intros (Ht & Hroom & Hrest) Hsim.
  destruct (Allow_sim (order x) (at_time x) t0 (source x) l w) as (Hr & Hs & Hl & Hw);
    [done..|].
  destruct (Allow _ _ _ l) as [r l'], (window_allow _ _ _ _ w) as [r' w']. simpl in *. subst r'.
  specialize (IH (at_time x) l' w'). rewrite Hl, Hw in IH. specialize (IH Hlim Hrest Hs).
  destruct (run cs l'), (window_run _ _ cs w'). simpl in *. congruence.
Qed.

(** *** Counting the calls of one source *)
Definition calls (src : string) (cs : list call) : Z :=
  Zlen (filter (fun x => source x = src) cs).

Fixpoint allowed (src : string) (cs : list call) (rs : list bool) : Z :=
  match cs, rs with
  | x :: cs, r :: rs =>
      (if (source x =? src)%string && r then 1 else 0) + allowed src cs rs
  | _, _ => 0
  end.

Lemma calls_cons src x cs :
  calls src (x :: cs) = (if (source x =? src)%string then 1 else 0) + calls src cs.
Proof.
  unfold calls. rewrite filter_cons. destruct (String.eqb_spec (source x) src).
  - rewrite decide_True by done. by rewrite Zlen_cons.
  - by rewrite decide_False by done.
Qed.

Lemma calls_nonneg src cs : 0 <= calls src cs.
Proof. apply Zlen_nonneg. Qed.

(** [used w src] counts the calls [src] has made in its current window. *)
Definition used (w : windows) (src : string) : Z :=
  match w !! src with Some s => n s | None => 0 end.

Lemma window_allow_insert limit window now src w :
  exists s, (window_allow limit window now src w).2 = <[src:=s]> w.
Proof. unfold window_allow. repeat case_go; eauto. Qed.

Lemma window_allow_own limit window now t0 src w :
  0 < limit -> t0 <= now <= t0 + window -> 0 <= window ->
  (forall s, w !! src = Some s -> t0 <= since s) ->
  exists s, (window_allow limit window now src w).2 = <[src:=s]> w /\
    n s = used w src + 1 /\ t0 <= since s /\
    (window_allow limit window now src w).1 = (n s <=? limit).
Proof.
  intros Hl Ht Hw Hsince. unfold window_allow, used. destruct (w !! src) as [s|].
  - specialize (Hsince s eq_refl).
    assert (elapsed window now s = false) as ->.
    { unfold elapsed, time_sub, clamp64, int64_min, int64_max. apply Z.ltb_ge. lia. }
    eexists. by split_and!.
  - eexists. split_and!; [done|done|simpl; lia|]. simpl. symmetry. apply Z.leb_le. lia.
Qed.

Lemma window_run_count limit window src cs t0 w :
  0 < limit -> 0 <= window -> 0 <= used w src ->
  (forall s, w !! src = Some s -> t0 <= since s) ->
  Forall (fun x => t0 <= at_time x <= t0 + window) cs ->
  allowed src cs (window_run limit window cs w).1 =
    Z.max 0 (Z.min (limit - used w src) (calls src cs)).
Proof.
  intros Hl Hw. revert w. induction cs as [|x cs IH]; intros w Hu Hsince HF.
  { simpl. change (calls src []) with 0. lia. }
  apply Forall_cons in HF as [Hx HF]. rewrite calls_cons. cbn [window_run].
  pose proof (calls_nonneg src cs).
  destruct (String.eqb_spec (source x) src) as [<-|E].
  - destruct (window_allow_own limit window (at_time x) t0 (source x) w) as (s & E2 & Hn & Hs & E1);
      [done..|].
    destruct (window_allow _ _ _ _ w) as [r w']. simpl in E1, E2. subst.
    specialize (IH (<[source x:=s]> w)). unfold used in IH.
    rewrite lookup_insert_eq in IH. destruct (window_run _ _ cs _). simpl in *.
    rewrite String.eqb_refl, IH; [|lia|by intros s' [= <-]|done].
    simpl. destruct (n s <=? limit) eqn:En; bool_lia.
  - destruct (window_allow_insert limit window (at_time x) (source x) w) as [s E2].
    destruct (window_allow _ _ _ _ w) as [r w']. simpl in E2. subst.
    specialize (IH (<[source x:=s]> w)). unfold used in IH.
    rewrite lookup_insert_ne in IH by done. fold (used w src) in IH.
    destruct (window_run _ _ cs _). simpl in *.
    rewrite (proj2 (String.eqb_neq _ _)) by done. by rewrite IH.
Qed.

(** *** Size *)
Lemma Allow_size ord now src l (H : ranges ord) :
  0 < max l ->
  Len (Allow ord now src l).2 <= Z.max (Z.max (Len l) (max l)) (max l - go_div (max l) 10 + 1) /\
  (Len l <= Z.max (max l) (max l - go_div (max l) 10 + 1) ->
   Len (Allow ord now src l).2 <= Z.max (max l) (max l - go_div (max l) 10 + 1)) /\
  max (Allow ord now src l).2 = max l.
Proof.
  intros Hm. unfold Allow. destruct (limit l <=? 0); [simpl; lia|].
  set (l' := if _ || _ then _ else l).
  assert (max l' = max l /\ (Len l' <= max l - go_div (max l) 10 \/ Len l' < max l)) as [Hm' Hl].
  { subst l'. destruct (time_after _ _ || _) eqn:E.
    - split; [done|]. left. exact (sweepLocked_size ord now l H Hm).
    - bool_to_prop. split; [done|]. right. unfold Len. lia. }
  fold (allow_tail now src l'). rewrite <-Hm'.
  assert (max (allow_tail now src l').2 = max l' /\
          Len (allow_tail now src l').2 <= Len l' + 1) as [-> Hle].
  { unfold allow_tail, Len. split; [by repeat case_go|].
    repeat case_go; simpl; rewrite Zsize_insert; case_match; lia. }
  rewrite Hm' in *. split_and!; [|intros _|done];
  assert (0 <= go_div (max l) 10)
    by (unfold go_div; Z.to_euclidean_division_equations; lia); lia.
Qed.

Lemma NewSourceLimiter_max_pos limit window max' : 0 < max (NewSourceLimiter limit window max').
Proof. unfold NewSourceLimiter, DefaultMaxSources. simpl. case_go; bool_lia. Qed.

Lemma run_size cs l :
  Forall (fun x => ranges (order x)) cs -> 0 < max l ->
  Len l <= Z.max (max l) (max l - go_div (max l) 10 + 1) ->
  Len (run cs l).2 <= Z.max (max l) (max l - go_div (max l) 10 + 1).
Proof.
  revert l. induction cs as [|x cs IH]; intros l HF Hm Hs; simpl; [done|].
  apply Forall_cons in HF as [Hx HF].
  destruct (Allow_size (order x) (at_time x) (source x) l Hx Hm) as (_ & Hl & Hmax).
  destruct (Allow _ _ _ l) as [r l']. simpl in *. specialize (IH l' HF).
  rewrite Hmax in IH. destruct (run cs l'). simpl in *. auto.
Qed.

(** *** Properties *)

(** while the table has room, the limiter answers every call as an
    independent fixed window per source would, although it sweeps its table;
    and within the window that opens at [t0] exactly the first [limit] calls
    of each source are let through. *)
Theorem SourceLimiter_exact lim win max' t0 cs
    (Hlim : 0 < lim)
    (Hroom : roomy t0 cs (NewSourceLimiter lim win max')) :
  let l := NewSourceLimiter lim win max' in
  (run cs l).1 = (window_run lim (window l) cs ∅).1 /\
  (Forall (fun x => t0 <= at_time x <= t0 + window l) cs ->
   forall src, allowed src cs (run cs l).1 = Z.min lim (calls src cs)).
Proof.
  intros l.
  assert ((run cs l).1 = (window_run lim (window l) cs ∅).1) as E.
  { apply (limiter_run_sim cs t0 l ∅); [done|done|]. intros k. by rewrite lookup_empty. }
  split; [done|]. intros HF src. rewrite E.
  rewrite (window_run_count lim (window l) src cs t0 ∅); [| |..|done]; try done.
  - unfold used. rewrite lookup_empty. pose proof (calls_nonneg src cs). lia.
  - subst l. unfold NewSourceLimiter. simpl. unfold minute, second. case_go; bool_lia.
Qed.

(** the table stays bounded whatever sources call: never more than [max]
    entries when [max] is at least ten, never more than one above it below
    that -- where the eviction target is [max] itself and the call that
    triggered the eviction is then added on top, as the second part shows
    on a limiter for one source that holds two. *)
Theorem SourceLimiter_bounded lim win max' cs (H : Forall (fun x => ranges (order x)) cs) :
  let l := NewSourceLimiter lim win max' in
  Len (run cs l).2 <= (if 10 <=? max l then max l else max l + 1) /\
  (exists cs', Forall (fun x => ranges (order x)) cs' /\
     Len (run cs' (NewSourceLimiter 1 minute 1)).2 = 2).
Proof.
  intros l. split.
  - pose proof (NewSourceLimiter_max_pos lim win max') as Hm. fold l in Hm.
    assert (Len l = 0) as Hl by done.
    pose proof (run_size cs l H Hm) as Hs. rewrite Hl in Hs.
    unfold go_div in Hs. case_go; bool_to_prop; Z.to_euclidean_division_equations; lia.
  - exists [{| at_time := 1; source := "a"; order := map_keys |};
            {| at_time := 2; source := "b"; order := map_keys |}].
    split; [repeat constructor; auto|]. vm_compute. done.
Qed.
End SourceLimiter.

(** ** Witnesses *)
Section witnesses.
Let use (at_ : Z) (nonce : string) : NonceCache.call :=
  {| NonceCache.at_time := at_; NonceCache.nonce := nonce; NonceCache.order := map_keys |}.
Let act (at_ : Z) (src : string) : SourceLimiter.call :=
  {| SourceLimiter.at_time := at_; SourceLimiter.source := src;
     SourceLimiter.order := map_keys |}.

(** Three uses of one nonce at a cache of two entries: refused inside the
    window of 10, accepted past it. *)
Lemma NonceCache_refines_log_witness :
  (NonceCache.run [use 1 "n"; use 11 "n"; use 12 "n"] (NonceCache.NewNonceCache 10 2)).1 =
    [true; false; true].
Proof.
  rewrite (proj1 (NonceCache.NonceCache_refines_log 10 2 0 [use 1 "n"; use 11 "n"; use 12 "n"]
    ltac:(simpl; split_and!; auto; vm_compute; done))).
  vm_compute. reflexivity.
Defined.

Lemma NonceCache_bounded_witness :
  NonceCache.Len (NonceCache.run [use 1 "a"; use 2 "b"; use 3 "c"]
    (NonceCache.NewNonceCache 10 2)).2 <= 2.
Proof. apply NonceCache.NonceCache_bounded. repeat constructor; auto. Defined.

Lemma Use_replay_rejected_witness :
  NonceCache.Use map_keys 11 "n" (NonceCache.mk 10 2 {["n" := 1]}) =
    (false, NonceCache.mk 10 2 {["n" := 1]}).
Proof. apply (NonceCache.Use_replay_rejected _ _ _ _ 1). right. by vm_compute. Defined.

Lemma SourceLimiter_exact_witness :
  SourceLimiter.allowed "a" [act 1 "a"; act 2 "b"; act 3 "a"; act 4 "a"]
    (SourceLimiter.run [act 1 "a"; act 2 "b"; act 3 "a"; act 4 "a"]
       (SourceLimiter.NewSourceLimiter 2 60 100)).1 = 2.
Proof.
  rewrite (proj2 (SourceLimiter.SourceLimiter_exact 2 60 100 1
    [act 1 "a"; act 2 "b"; act 3 "a"; act 4 "a"] ltac:(done)
    ltac:(vm_compute; repeat split; discriminate))); [done|].
  repeat constructor; vm_compute; done.
Defined.

Lemma SourceLimiter_bounded_witness :
  SourceLimiter.Len (SourceLimiter.run [act 1 "a"; act 2 "b"]
    (SourceLimiter.NewSourceLimiter 5 60 100)).2 <= 100.
Proof.
  apply (SourceLimiter.SourceLimiter_bounded 5 60 100). repeat constructor; auto.
Defined.
End witnesses.
