(* ===== verification/Sni.v ===== *)
(** [pkg/relay/sni.go]: reading a TLS ClientHello off a connection without
    terminating TLS.  A reader is the list of bytes still to come; a read past
    its end is the error [io.ReadFull] returns. *)
From S2P Require Import Prelude Bytes.

Definition maxClientHelloRecords : Z := 4.
Definition maxClientHelloBytes : Z := 16 * 1024.
Definition recordTypeHandshake : byte := x16.
Definition handshakeTypeClient : byte := x01.
Definition extensionServerName : Z := 0.
Definition serverNameTypeHost : byte := x00.
Definition tlsRecordHeaderSize : Z := 5.
Definition handshakeHeaderSize : Z := 4.

(** The errors of the file, one constructor per message; [OutOfFuel] is not an
    error of the code and is shown unreachable. *)
Inductive sni_error : Type :=
  | ReadingRecordHeader
  | NotHandshakeRecord (b : byte)
  | TooManyRecords
  | ExceedsCap
  | ReadingRecordPayload
  | NotClientHello (b : byte)
  | ClientHelloTooShort
  | TruncatedLengthPrefix (field : string)
  | TruncatedValue (field : string)
  | ExtensionsTruncatedLength
  | ExtensionsTruncatedBody
  | ExtensionHeaderTruncated
  | ExtensionBodyTruncated
  | ServerNameExtensionTruncated
  | ServerNameListTruncated
  | ServerNameEntryTruncated
  | ServerNameHostTruncated
  | OutOfFuel.

(** [b[:n]] and [b[n:]] for a checked [n]. *)
Definition takeZ (n : Z) (l : list byte) : list byte := take (Z.to_nat n) l.
Definition dropZ (n : Z) (l : list byte) : list byte := drop (Z.to_nat n) l.

(** [io.ReadFull] of [n] bytes. *)
Definition read_full (n : Z) (r : list byte) : option (list byte * list byte) :=
  if n <=? Zlen r then Some (takeZ n r, dropZ n r) else None.

Section sni.
(** The Unicode case mapping of [strings.ToLower] on non-ASCII strings. *)
Context (unicode_lower : list byte -> list byte).

Definition normalizeSNI (s : list byte) : list byte :=
  trim_suffix (to_lower unicode_lower s) [x2e].

(** The loop of [skipLengthPrefixed] over the first [prefixLen] bytes. *)
Definition prefix_length (b : list byte) : Z :=
  foldl (fun n x => Z.lor (Z.shiftl n 8) (byte_val x)) 0 b.

Definition skipLengthPrefixed (field : string) (b : list byte) (prefixLen : Z) :
    result sni_error (list byte) :=
  if Zlen b <? prefixLen then Err (TruncatedLengthPrefix field)
  else
    let n := prefix_length (takeZ prefixLen b) in
    let b := dropZ prefixLen b in
    if Zlen b <? n then Err (TruncatedValue field) else Ok (dropZ n b).

(** The loop of [parseServerNameExtension]; an entry takes at least three
    bytes. *)
Fixpoint server_name_loop (fuel : nat) (data : list byte) : result sni_error (list byte) :=
  match fuel with
  | O => Err OutOfFuel
  | S fuel =>
      match data with
      | [] => Ok []
      | nameType :: l1 :: l0 :: data =>
          let nameLen := be16 l1 l0 in
          if Zlen data <? nameLen then Err ServerNameHostTruncated
          else
            let name := takeZ nameLen data in
            let data := dropZ nameLen data in
            if negb (bool_decide (nameType = serverNameTypeHost)) then server_name_loop fuel data
            else Ok (normalizeSNI name)
      | _ => Err ServerNameEntryTruncated
      end
  end.

Definition parseServerNameExtension (data : list byte) : result sni_error (list byte) :=
  match data with
  | l1 :: l0 :: data =>
      let listLen := be16 l1 l0 in
      if Zlen data <? listLen then Err ServerNameListTruncated
      else
        let data := takeZ listLen data in
        server_name_loop (S (length data)) data
  | _ => Err ServerNameExtensionTruncated
  end.

(** The extension loop of [parseClientHelloServerName]. *)
Fixpoint extension_loop (fuel : nat) (extensions : list byte) : result sni_error (list byte) :=
  match fuel with
  | O => Err OutOfFuel
  | S fuel =>
      match extensions with
      | [] => Ok []
      | t1 :: t0 :: l1 :: l0 :: extensions =>
          let extType := be16 t1 t0 in
          let extDataLen := be16 l1 l0 in
          if Zlen extensions <? extDataLen then Err ExtensionBodyTruncated
          else
            let data := takeZ extDataLen extensions in
            let extensions := dropZ extDataLen extensions in
            if negb (extType =? extensionServerName) then extension_loop fuel extensions
            else parseServerNameExtension data
      | _ => Err ExtensionHeaderTruncated
      end
  end.

Definition parseClientHelloServerName (b : list byte) : result sni_error (list byte) :=
  if Zlen b <? 34 then Err ClientHelloTooShort
  else
    let b := dropZ 34 b in
    let? b := skipLengthPrefixed "session_id" b 1 in
    let? b := skipLengthPrefixed "cipher_suites" b 2 in
    let? b := skipLengthPrefixed "compression_methods" b 1 in
    match b with
    | [] => Ok []
    | e1 :: e0 :: b =>
        let extLen := be16 e1 e0 in
        if Zlen b <? extLen then Err ExtensionsTruncatedBody
        else
          let extensions := takeZ extLen b in
          extension_loop (S (length extensions)) extensions
    | _ => Err ExtensionsTruncatedLength
    end.

(** The loop of [peekClientHello]: [buf] holds the raw record bytes, [msg] the
    reassembled handshake bytes.  The result carries what is left of the
    reader. *)
Fixpoint peek_loop (fuel : nat) (r buf msg : list byte) (records : Z) :
    result sni_error (list byte * list byte * list byte) :=
  match fuel with
  | O => Err OutOfFuel
  | S fuel =>
      match read_full tlsRecordHeaderSize r with
      | None => Err ReadingRecordHeader
      | Some (header, r) =>
          let header0 := default x00 (header !! 0%nat) in
          if negb (bool_decide (header0 = recordTypeHandshake)) then
            Err (NotHandshakeRecord header0)
          else
            let length := be16 (default x00 (header !! 3%nat)) (default x00 (header !! 4%nat)) in
            let records := records + 1 in
            if maxClientHelloRecords <? records then Err TooManyRecords
            else if maxClientHelloBytes <? Zlen buf + tlsRecordHeaderSize + length then
              Err ExceedsCap
            else
              match read_full length r with
              | None => Err ReadingRecordPayload
              | Some (payload, r) =>
                  let buf := buf ++ header ++ payload in
                  let msg := msg ++ payload in
                  match msg with
                  | h0 :: h1 :: h2 :: h3 :: body =>
                      if negb (bool_decide (h0 = handshakeTypeClient)) then
                        Err (NotClientHello h0)
                      else
                        let msgLen := Z.lor (Z.lor (Z.shiftl (byte_val h1) 16)
                                              (Z.shiftl (byte_val h2) 8)) (byte_val h3) in
                        if Zlen msg <? handshakeHeaderSize + msgLen then
                          peek_loop fuel r buf msg records
                        else
                          let? sni := parseClientHelloServerName (takeZ msgLen body) in
                          Ok (sni, buf, r)
                  | _ => peek_loop fuel r buf msg records
                  end
              end
      end
  end.

(** Five rounds are enough: the fifth record is refused. *)
Definition peekClientHello (r : list byte) :
    result sni_error (list byte * list byte * list byte) :=
  peek_loop (S (Z.to_nat maxClientHelloRecords)) r [] [] 0.
End sni.

(** ** Slicing *)
Lemma takeZ_app (a b : list byte) n : n = Zlen a -> takeZ n (a ++ b) = a.
Proof. intros ->. unfold takeZ, Zlen. rewrite Nat2Z.id. by apply take_app_length. Qed.

Lemma dropZ_app (a b : list byte) n : n = Zlen a -> dropZ n (a ++ b) = b.
Proof. intros ->. unfold dropZ, Zlen. rewrite Nat2Z.id. by apply drop_app_length. Qed.

Lemma takeZ_all (a : list byte) : takeZ (Zlen a) a = a.
Proof. rewrite <-(app_nil_r a) at 2. by apply takeZ_app. Qed.

Lemma takeZ_dropZ n l : takeZ n l ++ dropZ n l = l.
Proof. apply take_drop. Qed.

Lemma Zlen_takeZ n (l : list byte) : 0 <= n <= Zlen l -> Zlen (takeZ n l) = n.
Proof. unfold Zlen, takeZ. rewrite length_take. lia. Qed.

Lemma Zlen_dropZ n (l : list byte) : 0 <= n <= Zlen l -> Zlen (dropZ n l) = Zlen l - n.
Proof. unfold Zlen, dropZ. rewrite length_drop. lia. Qed.

Lemma length_dropZ n (l : list byte) : (length (dropZ n l) <= length l)%nat.
Proof. unfold dropZ. rewrite length_drop. lia. Qed.

Lemma length_takeZ n (l : list byte) : (length (takeZ n l) <= length l)%nat.
Proof. unfold takeZ. rewrite length_take. lia. Qed.

Lemma read_full_app (a b : list byte) n : n = Zlen a -> read_full n (a ++ b) = Some (a, b).
Proof.
  intros Hn. unfold read_full. pose proof (Zlen_nonneg b).
  rewrite (proj2 (Z.leb_le _ _)) by (rewrite Zlen_app; lia).
  by rewrite takeZ_app, dropZ_app.
Qed.

Lemma read_full_spec n r a b :
  0 <= n -> read_full n r = Some (a, b) -> r = a ++ b /\ Zlen a = n.
Proof.
  unfold read_full. intros Hn H. case_go; [|done]. bool_to_prop. simplify_eq.
  rewrite takeZ_dropZ, Zlen_takeZ; done.
Qed.

Lemma ltb_Zlen_app (a b : list byte) n : n = Zlen a -> (Zlen (a ++ b) <? n) = false.
Proof. intros ->. apply Z.ltb_ge. rewrite Zlen_app. pose proof (Zlen_nonneg b). lia. Qed.

Section sni_lemmas.
Context (unicode_lower : list byte -> list byte).
Local Abbreviation normalizeSNI := (normalizeSNI unicode_lower).
Local Abbreviation server_name_loop := (server_name_loop unicode_lower).
Local Abbreviation parseServerNameExtension := (parseServerNameExtension unicode_lower).
Local Abbreviation extension_loop := (extension_loop unicode_lower).
Local Abbreviation parseClientHelloServerName := (parseClientHelloServerName unicode_lower).
Local Abbreviation peek_loop := (peek_loop unicode_lower).
Local Abbreviation peekClientHello := (peekClientHello unicode_lower).

(** ** Fuel *)
Lemma server_name_loop_fuel fuel data :
  (length data < fuel)%nat -> server_name_loop fuel data <> Err OutOfFuel.
Proof.
  revert data. induction fuel as [|fuel IH]; intros data Hf; [lia|].
  destruct data as [|t [|l1 [|l0 data]]]; try done. simpl in *.
  repeat case_go; try done. apply IH. pose proof (length_dropZ (be16 l1 l0) data). lia.
Qed.

Lemma parseServerNameExtension_fuel data : parseServerNameExtension data <> Err OutOfFuel.
Proof.
  destruct data as [|l1 [|l0 data]]; try done. cbn -[Sni.server_name_loop].
  case_go; [done|]. apply server_name_loop_fuel. lia.
Qed.

Lemma extension_loop_fuel fuel l :
  (length l < fuel)%nat -> extension_loop fuel l <> Err OutOfFuel.
Proof.
  revert l. induction fuel as [|fuel IH]; intros l Hf; [lia|].
  destruct l as [|t1 [|t0 [|l1 [|l0 l]]]]; try done. simpl in *.
  repeat case_go; try done; [|apply parseServerNameExtension_fuel].
  apply IH. pose proof (length_dropZ (be16 l1 l0) l). lia.
Qed.

Lemma skipLengthPrefixed_fuel field b n : skipLengthPrefixed field b n <> Err OutOfFuel.
Proof. unfold skipLengthPrefixed. by repeat case_go. Qed.

Lemma res_bind_err {E A B} (r : result E A) (f : A -> result E B) e :
  r <> Err e -> (forall a, f a <> Err e) -> res_bind r f <> Err e.
Proof. intros Hr Hf. destruct r; simpl; [apply Hf|congruence]. Qed.

Lemma parseClientHelloServerName_fuel b : parseClientHelloServerName b <> Err OutOfFuel.
Proof.
  unfold Sni.parseClientHelloServerName. case_go; [done|].
  repeat (apply res_bind_err; [apply skipLengthPrefixed_fuel|intros ?]).
  repeat case_match; try done. apply extension_loop_fuel. lia.
Qed.

Lemma peek_loop_fuel fuel r buf msg records :
  records <= maxClientHelloRecords ->
  (Z.to_nat (maxClientHelloRecords - records) < fuel)%nat ->
  peek_loop fuel r buf msg records <> Err OutOfFuel.
Proof.
  revert r buf msg records. induction fuel as [|fuel IH]; intros r buf msg records Hr Hf; [lia|].
  cbn [Sni.peek_loop]. destruct (read_full _ r) as [[header r']|]; [|done].
  case_go; [done|]. destruct (maxClientHelloRecords <? records + 1) eqn:E; [done|].
  assert (forall r buf msg, peek_loop fuel r buf msg (records + 1) <> Err OutOfFuel) as IH'
    by (intros; apply IH; bool_lia).
  case_go; [done|]. repeat (case_match; try done).
  apply res_bind_err; [apply parseClientHelloServerName_fuel|done].
Qed.

(** ** What is consumed *)
Lemma peek_loop_consumed fuel r buf msg records sni raw r' :
  peek_loop fuel r buf msg records = Ok (sni, raw, r') ->
  exists c, raw = buf ++ c /\ r = c ++ r' /\ Zlen raw <= maxClientHelloBytes.
Proof.
  revert r buf msg records. induction fuel as [|fuel IH]; intros r buf msg records; [done|].
  cbn [Sni.peek_loop].
  destruct (read_full tlsRecordHeaderSize r) as [[header r1]|] eqn:E1; [|done].
  apply read_full_spec in E1 as [-> Hh]; [|done].
  set (len := be16 _ _).
  case_go; [done|]. case_go; [done|].
  destruct (maxClientHelloBytes <? _) eqn:Ecap; [done|].
  destruct (read_full len r1) as [[payload r2]|] eqn:E2; [|done].
  apply read_full_spec in E2 as [-> Hp]; [|apply be16_range].
  assert (peek_loop fuel r2 (buf ++ header ++ payload) (msg ++ payload) (records + 1)
            = Ok (sni, raw, r') ->
    exists c, raw = buf ++ c /\ header ++ payload ++ r2 = c ++ r' /\
      Zlen raw <= maxClientHelloBytes) as Hloop.
  { intros (c & -> & -> & Hle)%IH. exists (header ++ payload ++ c).
    split_and!; [by rewrite <-!app_assoc..|done]. }
  destruct (msg ++ payload) as [|h0 [|h1 [|h2 [|h3 body]]]]; eauto.
  case_go; [done|]. case_go; [eauto|]. rewrite res_bind_ok. intros (s & _ & [= <- <- <-]).
  exists (header ++ payload). rewrite <-!app_assoc. split_and!; [done..|].
  rewrite !Zlen_app, Hh, Hp. bool_lia.
Qed.

(** ** The wire format, as its writer builds it *)
Definition vec8 (d : list byte) : list byte := byte_of (Zlen d) :: d.
Definition vec16 (d : list byte) : list byte := put_be16 (Zlen d) ++ d.

Definition record_bytes (rec : byte * byte * list byte) : list byte :=
  let '(v1, v0, payload) := rec in recordTypeHandshake :: v1 :: v0 :: vec16 payload.

Definition ext_bytes (e : Z * list byte) : list byte := put_be16 e.1 ++ vec16 e.2.

Definition handshake_bytes (body : list byte) : list byte :=
  handshakeTypeClient :: byte_of (Z.shiftr (Zlen body) 16) :: byte_of (Z.shiftr (Zlen body) 8)
    :: byte_of (Zlen body) :: body.

Definition hello_body (head session suites comps : list byte) (exts : list (Z * list byte)) :
    list byte :=
  head ++ vec8 session ++ vec16 suites ++ vec8 comps ++ vec16 (exts ≫= ext_bytes).

Definition server_name_ext (host : list byte) : list byte :=
  vec16 (serverNameTypeHost :: vec16 host).

Lemma Zlen_put_be16 z : Zlen (put_be16 z) = 2.
Proof. done. Qed.

Lemma skip_vec8 field d rest :
  Zlen d < 256 -> skipLengthPrefixed field (vec8 d ++ rest) 1 = Ok rest.
Proof.
  intros Hd. pose proof (Zlen_nonneg d). unfold skipLengthPrefixed, vec8.
  change ((byte_of (Zlen d) :: d) ++ rest) with ([byte_of (Zlen d)] ++ d ++ rest).
  rewrite ltb_Zlen_app, takeZ_app, dropZ_app by done.
  cbn [prefix_length foldl]. unfold prefix_length. cbn [foldl].
  rewrite Z.shiftl_0_l, Z.lor_0_l, byte_val_of, Z.mod_small by lia.
  by rewrite ltb_Zlen_app, dropZ_app.
Qed.

Lemma be16_vec (d : list byte) : Zlen d < 65536 ->
  be16 (byte_of (Z.shiftr (Zlen d) 8)) (byte_of (Zlen d)) = Zlen d.
Proof. intros. apply be16_put. pose proof (Zlen_nonneg d). lia. Qed.

Lemma skip_vec16 field d rest :
  Zlen d < 65536 -> skipLengthPrefixed field (vec16 d ++ rest) 2 = Ok rest.
Proof.
  intros Hd. unfold skipLengthPrefixed, vec16. rewrite <-app_assoc.
  rewrite ltb_Zlen_app, takeZ_app, dropZ_app by done.
  unfold prefix_length, put_be16. cbn [foldl].
  rewrite Z.shiftl_0_l, Z.lor_0_l. fold (be16 (byte_of (Z.shiftr (Zlen d) 8)) (byte_of (Zlen d))).
  by rewrite be16_vec, ltb_Zlen_app, dropZ_app by done.
Qed.

Lemma server_name_loop_host fuel host rest :
  Zlen host < 65536 ->
  server_name_loop (S fuel) (serverNameTypeHost :: vec16 host ++ rest) = Ok (normalizeSNI host).
Proof.
  intros Hh. unfold vec16, put_be16. cbn [Sni.server_name_loop app].
  by rewrite be16_vec, ltb_Zlen_app, takeZ_app by done.
Qed.

Lemma parseServerNameExtension_host host :
  Zlen host < 65533 -> parseServerNameExtension (server_name_ext host) = Ok (normalizeSNI host).
Proof.
  intros Hh. unfold server_name_ext. set (l := serverNameTypeHost :: vec16 host).
  assert (Zlen l = Zlen host + 3) as Hl.
  { unfold l, vec16. rewrite Zlen_cons, Zlen_app. rewrite Zlen_put_be16. lia. }
  unfold vec16, put_be16. cbn -[Sni.server_name_loop]. rewrite be16_vec by lia.
  rewrite Z.ltb_irrefl, takeZ_all. unfold l at 2. rewrite <-(app_nil_r (vec16 host)).
  apply server_name_loop_host. lia.
Qed.

Definition ext_ok (e : Z * list byte) : Prop := 0 <= e.1 < 65536 /\ Zlen e.2 < 65536.

Lemma extension_loop_step fuel e rest :
  ext_ok e ->
  extension_loop (S fuel) (ext_bytes e ++ rest) =
    if e.1 =? extensionServerName then parseServerNameExtension e.2
    else extension_loop fuel rest.
Proof.
  intros [Ht Hd]. destruct e as [t d]. simpl in *. unfold ext_bytes, vec16, put_be16.
  cbn [app fst snd Sni.extension_loop]. rewrite (be16_put t), be16_vec by done.
  rewrite ltb_Zlen_app, takeZ_app, dropZ_app by done. by destruct (t =? extensionServerName).
Qed.

(** The loop skips every extension that is not server_name and stops at the
    first that is. *)
Lemma extension_loop_skip fuel exts rest :
  Forall (fun e => ext_ok e /\ e.1 <> extensionServerName) exts ->
  (length exts <= fuel)%nat ->
  extension_loop fuel ((exts ≫= ext_bytes) ++ rest) = extension_loop (fuel - length exts) rest.
Proof.
  revert fuel. induction exts as [|e exts IH]; intros fuel HF Hf; cbn [mbind list_bind].
  { simpl. by rewrite Nat.sub_0_r. }
  apply Forall_cons in HF as [[He Hne] HF]. destruct fuel as [|fuel]; simpl in Hf; [lia|].
  rewrite <-app_assoc, extension_loop_step by done.
  rewrite (proj2 (Z.eqb_neq _ _)) by done. rewrite IH by (done || lia). done.
Qed.

Lemma length_exts exts : (length exts <= length (exts ≫= ext_bytes))%nat.
Proof.
  induction exts as [|e exts IH]; [simpl; lia|].
  rewrite bind_cons, length_app. unfold ext_bytes at 1, put_be16. cbn [length app]. lia.
Qed.

Lemma parse_hello_body head session suites comps exts :
  Zlen head = 34 -> Zlen session < 256 -> Zlen suites < 65536 -> Zlen comps < 256 ->
  Zlen (exts ≫= ext_bytes) < 65536 ->
  parseClientHelloServerName (hello_body head session suites comps exts) =
    extension_loop (S (length (exts ≫= ext_bytes))) (exts ≫= ext_bytes).
Proof.
  intros Hh Hs Hc Hm He. unfold Sni.parseClientHelloServerName, hello_body.
  rewrite ltb_Zlen_app, dropZ_app by done.
  rewrite skip_vec8 by done. cbn [res_bind]. rewrite skip_vec16 by done. cbn [res_bind].
  rewrite skip_vec8 by done. cbn [res_bind]. unfold vec16, put_be16. cbn [app].
  rewrite be16_vec by done. by rewrite Z.ltb_irrefl, takeZ_all.
Qed.

(** ** Reassembly *)
Definition records_bytes (recs : list (byte * byte * list byte)) : list byte :=
  recs ≫= record_bytes.

Definition payloads (recs : list (byte * byte * list byte)) : list byte := recs ≫= snd.

Lemma be24_put z : 0 <= z < 16777216 ->
  Z.lor (Z.lor (Z.shiftl (byte_val (byte_of (Z.shiftr z 16))) 16)
               (Z.shiftl (byte_val (byte_of (Z.shiftr z 8))) 8)) (byte_val (byte_of z)) = z.
Proof.
  intros Hz. rewrite !byte_val_of, !Z.shiftr_div_pow2 by lia.
  change (2 ^ 16) with 65536. change (2 ^ 8) with 256. rewrite <-Z.lor_assoc.
  rewrite (lor_shiftl_add (z / 256 mod 256))
    by (change (2 ^ 8) with 256; Z.to_euclidean_division_equations; lia).
  change (2 ^ 8) with 256.
  rewrite lor_shiftl_add by (change (2 ^ 16) with 65536; Z.to_euclidean_division_equations; lia).
  change (2 ^ 16) with 65536. Z.to_euclidean_division_equations. lia.
Qed.

Lemma peek_step fuel v1 v0 p r buf msg records :
  Zlen p < 65536 -> records < maxClientHelloRecords ->
  Zlen (buf ++ record_bytes (v1, v0, p)) <= maxClientHelloBytes ->
  peek_loop (S fuel) (record_bytes (v1, v0, p) ++ r) buf msg records =
    match msg ++ p with
    | h0 :: h1 :: h2 :: h3 :: body =>
        if negb (bool_decide (h0 = handshakeTypeClient)) then Err (NotClientHello h0)
        else
          let msgLen := Z.lor (Z.lor (Z.shiftl (byte_val h1) 16)
                                (Z.shiftl (byte_val h2) 8)) (byte_val h3) in
          if Zlen (msg ++ p) <? handshakeHeaderSize + msgLen then
            peek_loop fuel r (buf ++ record_bytes (v1, v0, p)) (msg ++ p) (records + 1)
          else
            let? sni := parseClientHelloServerName (takeZ msgLen body) in
            Ok (sni, buf ++ record_bytes (v1, v0, p), r)
    | _ => peek_loop fuel r (buf ++ record_bytes (v1, v0, p)) (msg ++ p) (records + 1)
    end.
Proof.
  intros Hp Hr Hcap. unfold record_bytes in *. unfold vec16, put_be16 in *.
  set (hd := [recordTypeHandshake; v1; v0; byte_of (Z.shiftr (Zlen p) 8); byte_of (Zlen p)]).
  change (recordTypeHandshake :: v1 :: v0 ::
    [byte_of (Z.shiftr (Zlen p) 8); byte_of (Zlen p)] ++ p) with (hd ++ p) in *.
  cbn [Sni.peek_loop]. rewrite <-app_assoc, (read_full_app hd) by done.
  change (hd !! 0%nat) with (Some recordTypeHandshake). cbn [default from_option id].
  rewrite bool_decide_true by done. cbn [negb]. subst hd. cbn [lookup list_lookup].
  cbn [default from_option id]. rewrite be16_vec by done.
  rewrite !Zlen_app in Hcap.
  rewrite (proj2 (Z.ltb_ge _ _)) by (unfold maxClientHelloRecords in *; lia).
  rewrite (proj2 (Z.ltb_ge _ _)) by (unfold tlsRecordHeaderSize; change (Zlen [_;_;_;_;_]) with 5 in Hcap; lia).
  by rewrite read_full_app by done.
Qed.

(** A record that does not complete the message is buffered. *)
Lemma peek_step_more fuel v1 v0 p r buf msg records body more extra :
  Zlen p < 65536 -> records < maxClientHelloRecords ->
  Zlen (buf ++ record_bytes (v1, v0, p)) <= maxClientHelloBytes ->
  Zlen body < 16777216 -> (msg ++ p) ++ more = handshake_bytes body ++ extra ->
  Zlen (msg ++ p) < handshakeHeaderSize + Zlen body ->
  peek_loop (S fuel) (record_bytes (v1, v0, p) ++ r) buf msg records =
    peek_loop fuel r (buf ++ record_bytes (v1, v0, p)) (msg ++ p) (records + 1).
Proof.
  intros Hp Hr Hcap Hb Hm Hs. rewrite peek_step by done.
  destruct (msg ++ p) as [|h0 [|h1 [|h2 [|h3 l]]]]; try done.
  unfold handshake_bytes in Hm. cbn [app] in Hm. injection Hm as -> -> -> -> Hl.
  rewrite bool_decide_true by done. cbn [negb]. pose proof (Zlen_nonneg body).
  by rewrite be24_put, (proj2 (Z.ltb_lt _ _)) by lia.
Qed.

(** The record that completes the message hands its body to the parser. *)
Lemma peek_step_done fuel v1 v0 p r buf msg records body extra :
  Zlen p < 65536 -> records < maxClientHelloRecords ->
  Zlen (buf ++ record_bytes (v1, v0, p)) <= maxClientHelloBytes ->
  Zlen body < 16777216 -> msg ++ p = handshake_bytes body ++ extra ->
  peek_loop (S fuel) (record_bytes (v1, v0, p) ++ r) buf msg records =
    let? sni := parseClientHelloServerName body in
    Ok (sni, buf ++ record_bytes (v1, v0, p), r).
Proof.
  intros Hp Hr Hcap Hb Hm. rewrite peek_step, Hm by done. unfold handshake_bytes. cbn [app].
  rewrite bool_decide_true by done. cbn [negb]. pose proof (Zlen_nonneg body).
  pose proof (Zlen_nonneg extra). rewrite be24_put by lia.
  rewrite (proj2 (Z.ltb_ge _ _)) by (unfold handshakeHeaderSize; rewrite !Zlen_cons, Zlen_app; lia).
  by rewrite takeZ_app.
Qed.

Lemma peek_loop_records fuel init v1 v0 p r buf msg records body extra :
  (length init < fuel)%nat ->
  records + Zlen init < maxClientHelloRecords ->
  Forall (fun rec => Zlen rec.2 < 65536) init -> Zlen p < 65536 ->
  Zlen (buf ++ records_bytes (init ++ [(v1, v0, p)])) <= maxClientHelloBytes ->
  Zlen body < 16777216 ->
  msg ++ payloads init ++ p = handshake_bytes body ++ extra ->
  Zlen (msg ++ payloads init) < handshakeHeaderSize + Zlen body ->
  peek_loop fuel (records_bytes (init ++ [(v1, v0, p)]) ++ r) buf msg records =
    let? sni := parseClientHelloServerName body in
    Ok (sni, buf ++ records_bytes (init ++ [(v1, v0, p)]), r).
Proof.
  revert fuel buf msg records.
  induction init as [|[[w1 w0] q] init IH]; intros fuel buf msg records Hf Hr HF Hp Hcap Hb Hm Hs;
    (destruct fuel as [|fuel]; [simpl in Hf; lia|]).
  - unfold records_bytes in *. cbn [app mbind list_bind payloads] in *. rewrite app_nil_r in *.
    apply (peek_step_done fuel v1 v0 p r buf msg records body extra); try done.
    unfold Zlen in Hr. simpl in Hr. lia.
  - apply Forall_cons in HF as [Hq HF]. simpl in Hq. rewrite Zlen_cons in Hr.
    pose proof (Zlen_nonneg init).
    unfold records_bytes, payloads in *. rewrite <-app_comm_cons, bind_cons in *.
    cbn [snd] in Hm, Hs.
    rewrite <-(app_assoc (record_bytes _)), (app_assoc buf) in *.
    pose proof (Zlen_nonneg ((init ++ [(v1, v0, p)]) ≫= record_bytes)).
    pose proof (Zlen_nonneg (init ≫= snd)).
    rewrite (peek_step_more fuel w1 w0 q _ buf msg records body ((init ≫= snd) ++ p) extra).
    + rewrite IH; try done; [simpl in Hf; lia|lia| |].
      * by rewrite <-app_assoc in *.
      * by rewrite <-app_assoc in *.
    + done.
    + lia.
    + rewrite Zlen_app in Hcap. lia.
    + done.
    + by rewrite <-!app_assoc in *.
    + rewrite app_assoc, Zlen_app in Hs. lia.
Qed.

(** A record past the limits ends the peek. *)
Lemma peek_step_refused fuel v1 v0 p r buf msg records :
  Zlen p < 65536 ->
  maxClientHelloRecords <= records \/ maxClientHelloBytes < Zlen (buf ++ record_bytes (v1, v0, p)) ->
  peek_loop (S fuel) (record_bytes (v1, v0, p) ++ r) buf msg records = Err TooManyRecords
  \/ peek_loop (S fuel) (record_bytes (v1, v0, p) ++ r) buf msg records = Err ExceedsCap.
Proof.
  intros Hp Hl. unfold record_bytes, vec16, put_be16 in *.
  set (hd := [recordTypeHandshake; v1; v0; byte_of (Z.shiftr (Zlen p) 8); byte_of (Zlen p)]).
  change (recordTypeHandshake :: v1 :: v0 ::
    [byte_of (Z.shiftr (Zlen p) 8); byte_of (Zlen p)] ++ p) with (hd ++ p) in *.
  cbn [Sni.peek_loop]. rewrite <-app_assoc, (read_full_app hd) by done.
  change (hd !! 0%nat) with (Some recordTypeHandshake). cbn [default from_option id].
  rewrite bool_decide_true by done. cbn [negb]. subst hd. cbn [lookup list_lookup].
  cbn [default from_option id]. rewrite be16_vec by done.
  destruct (maxClientHelloRecords <? records + 1) eqn:E1; [by left|right].
  rewrite (proj2 (Z.ltb_lt _ _)); [done|]. destruct Hl as [Hl|Hl]; [bool_lia|].
  rewrite !Zlen_app in Hl. unfold tlsRecordHeaderSize. change (Zlen [_;_;_;_;_]) with 5 in Hl. lia.
Qed.

Lemma peek_loop_refused fuel init v1 v0 p r buf msg records body extra :
  maxClientHelloRecords - records < Z.of_nat fuel -> records <= maxClientHelloRecords ->
  Forall (fun rec => Zlen rec.2 < 65536) init -> Zlen p < 65536 -> Zlen body < 16777216 ->
  msg ++ payloads init ++ p = handshake_bytes body ++ extra ->
  Zlen (msg ++ payloads init) < handshakeHeaderSize + Zlen body ->
  maxClientHelloRecords <= records + Zlen init
    \/ maxClientHelloBytes < Zlen (buf ++ records_bytes (init ++ [(v1, v0, p)])) ->
  peek_loop fuel (records_bytes (init ++ [(v1, v0, p)]) ++ r) buf msg records = Err TooManyRecords
  \/ peek_loop fuel (records_bytes (init ++ [(v1, v0, p)]) ++ r) buf msg records = Err ExceedsCap.
Proof.
  revert fuel buf msg records.
  induction init as [|[[w1 w0] q] init IH]; intros fuel buf msg records Hf Hr HF Hp Hb Hm Hs Hl;
    (destruct fuel as [|fuel]; [simpl in Hf; lia|]).
  - unfold records_bytes in *. cbn [app mbind list_bind] in *. rewrite app_nil_r in *.
    apply peek_step_refused; [done|]. unfold Zlen at 1 in Hl. simpl length in Hl. destruct Hl; [left; lia|by right].
  - apply Forall_cons in HF as [Hq HF]. simpl in Hq. rewrite Zlen_cons in Hl.
    unfold records_bytes, payloads in *. rewrite <-app_comm_cons, bind_cons in *. cbn [snd] in Hm, Hs.
    rewrite <-(app_assoc (record_bytes _)), (app_assoc buf) in *.
    destruct (decide (maxClientHelloRecords <= records \/ maxClientHelloBytes < Zlen (buf ++ record_bytes (w1, w0, q))))
      as [Hd|Hd]; [by apply peek_step_refused|].
    rewrite (peek_step_more fuel w1 w0 q _ buf msg records body ((init ≫= snd) ++ p) extra); try done; try lia.
    + apply IH; try done; try lia; by rewrite <-app_assoc in *.
    + by rewrite <-!app_assoc in *.
    + pose proof (Zlen_nonneg (init ≫= snd)). rewrite app_assoc, Zlen_app in Hs. lia.
Qed.
End sni_lemmas.

(** ** Properties *)

(** The head, session id, suites and compression methods fit their length
    prefixes, and so does the extensions block. *)
Definition hello_ok (head session suites comps : list byte) (exts : list (Z * list byte)) : Prop :=
  Zlen head = 34 /\ Zlen session < 256 /\ Zlen suites < 65536 /\ Zlen comps < 256 /\
  Zlen (exts ≫= ext_bytes) < 65536.

(** A handshake message cut into TLS records at any positions: every record but
    the last leaves it incomplete. *)
Definition fragmented (init : list (byte * byte * list byte)) (last : byte * byte * list byte)
    (body extra : list byte) : Prop :=
  Forall (fun rec => Zlen rec.2 < 65536) (init ++ [last]) /\
  payloads init ++ last.2 = handshake_bytes body ++ extra /\
  Zlen (payloads init) < handshakeHeaderSize + Zlen body.

(** What the relay is ready to read: four records of 16 KiB together. *)
Definition within_limits (recs : list (byte * byte * list byte)) : Prop :=
  Zlen recs <= 4 /\ Zlen (records_bytes recs) <= 16384.

Lemma peekClientHello_fragmented lower init last r body extra :
  Zlen body < 16777216 -> fragmented init last body extra -> within_limits (init ++ [last]) ->
  peekClientHello lower (records_bytes (init ++ [last]) ++ r) =
    let? sni := parseClientHelloServerName lower body in
    Ok (sni, records_bytes (init ++ [last]), r).
Proof.
  intros Hb (HF & Hm & Hs) [Hn Hcap]. destruct last as [[v1 v0] p].
  assert (Hn' : Zlen init < maxClientHelloRecords)
    by (rewrite Zlen_app in Hn; change (Zlen [_]) with 1 in Hn; unfold maxClientHelloRecords; lia).
  apply Forall_app in HF as [HF [Hp _]%Forall_cons]. unfold peekClientHello.
  rewrite (peek_loop_records lower _ init v1 v0 p r [] [] 0 body extra); try done.
  unfold Zlen, maxClientHelloRecords in *. lia.
Qed.

Lemma peekClientHello_refused lower init last r body extra :
  Zlen body < 16777216 -> fragmented init last body extra -> ~ within_limits (init ++ [last]) ->
  peekClientHello lower (records_bytes (init ++ [last]) ++ r) = Err TooManyRecords
  \/ peekClientHello lower (records_bytes (init ++ [last]) ++ r) = Err ExceedsCap.
Proof.
  intros Hb (HF & Hm & Hs) Hn. destruct last as [[v1 v0] p].
  apply Forall_app in HF as [HF [Hp _]%Forall_cons]. unfold peekClientHello.
  apply (peek_loop_refused lower _ init v1 v0 p r [] [] 0 body extra); try done.
  destruct (decide (maxClientHelloRecords <= 0 + Zlen init)) as [|Hi]; [by left|right].
  apply Z.nle_gt. intros Hc. apply Hn. split; [|done]. rewrite Zlen_app. change (Zlen [_]) with 1.
  unfold maxClientHelloRecords in Hi. lia.
Qed.

(** the relay's peek never consumes more than it returns for replay: on
    success the connection's bytes are exactly the returned raw bytes followed
    by what is left unread, the raw bytes are at most 16 KiB, and on no input
    does the read loop fail to decide within its record bound. *)
Theorem peekClientHello_replay lower r :
  peekClientHello lower r <> Err OutOfFuel /\
  (forall sni raw rest, peekClientHello lower r = Ok (sni, raw, rest) ->
     r = raw ++ rest /\ Zlen raw <= maxClientHelloBytes).
Proof.
  split.
  - apply peek_loop_fuel; unfold maxClientHelloRecords; lia.
  - by intros sni raw rest (c & -> & -> & Hle)%peek_loop_consumed.
Qed.

(** C40: a ClientHello that carries a server_name extension, behind any other
    extensions and cut at any positions into at most four TLS records of
    together at most 16 KiB, is reassembled to the normalized host name it
    names, and the records come back verbatim; cut into more records or more
    bytes it is refused for that, and never answered with a host name. *)
Theorem peekClientHello_host lower head session suites comps before host after init last extra r
    (Hok : hello_ok head session suites comps
             (before ++ (extensionServerName, server_name_ext host) :: after))
    (Hbefore : Forall (fun e => ext_ok e /\ e.1 <> extensionServerName) before)
    (Hfrag : fragmented init last
       (hello_body head session suites comps
          (before ++ (extensionServerName, server_name_ext host) :: after)) extra) :
  (within_limits (init ++ [last]) ->
   peekClientHello lower (records_bytes (init ++ [last]) ++ r) =
     Ok (normalizeSNI lower host, records_bytes (init ++ [last]), r))
  /\ (~ within_limits (init ++ [last]) ->
      peekClientHello lower (records_bytes (init ++ [last]) ++ r) = Err TooManyRecords
      \/ peekClientHello lower (records_bytes (init ++ [last]) ++ r) = Err ExceedsCap).
Proof.
  destruct Hok as (Hh & Hs & Hc & Hm & He). set (exts := before ++ _ :: after) in *.
  assert (Zlen (hello_body head session suites comps exts) < 16777216) as Hlen.
  { unfold hello_body, vec8, vec16. repeat (rewrite Zlen_app || rewrite Zlen_cons).
    rewrite ?Zlen_put_be16. lia. }
  split; intros Hlim; [|by eapply peekClientHello_refused].
  rewrite (peekClientHello_fragmented lower init last r _ extra) by done.
  rewrite parse_hello_body by done.
  assert (Zlen (server_name_ext host) < 65536 /\ Zlen host < 65533) as [Hn Hhost].
  { unfold exts in He. rewrite bind_app, bind_cons, !Zlen_app in He.
    pose proof (Zlen_nonneg (before ≫= ext_bytes)). pose proof (Zlen_nonneg (after ≫= ext_bytes)).
    unfold ext_bytes at 2 in He. unfold server_name_ext, vec16 in *. cbn [fst snd] in He.
    repeat (rewrite Zlen_app in * || rewrite Zlen_cons in *). rewrite !Zlen_put_be16 in *. lia. }
  unfold exts. rewrite bind_app, bind_cons.
  rewrite extension_loop_skip by (done || (rewrite length_app; pose proof (length_exts before); lia)).
  match goal with |- context [extension_loop _ ?f _] =>
    destruct f as [|fuel] eqn:Ef; [rewrite length_app in Ef; pose proof (length_exts before); lia|] end.
  rewrite extension_loop_step by done. cbn [fst snd].
  by rewrite Z.eqb_refl, parseServerNameExtension_host by done.
Qed.

(** ** Witness: a hello cut into two records in the middle of its random *)
Definition example_exts : list (Z * list byte) :=
  [(23, [])] ++ (extensionServerName, server_name_ext (bytes_of "A.Example.")) :: [(16, [x00])].

Definition example_body : list byte :=
  hello_body (replicate 34 x03) [] [x13; x01] [x00] example_exts.

Definition example_init : list (byte * byte * list byte) :=
  [(x03, x01, take 20 (handshake_bytes example_body))].

Definition example_last : byte * byte * list byte :=
  (x03, x01, drop 20 (handshake_bytes example_body)).

(** The same hello in six records, two more than are read. *)
Definition example_chunks : list (byte * byte * list byte) :=
  (fun i => (x03, x01, take 8 (drop (8 * i) (handshake_bytes example_body)))) <$> seq 0 5.
Definition example_rest : byte * byte * list byte := (x03, x01, drop 40 (handshake_bytes example_body)).

Lemma peekClientHello_host_witness :
  peekClientHello id (records_bytes (example_init ++ [example_last]) ++ [x17]) =
    Ok (bytes_of "a.example", records_bytes (example_init ++ [example_last]), [x17])
  /\ (peekClientHello id (records_bytes (example_chunks ++ [example_rest]) ++ []) = Err TooManyRecords
      \/ peekClientHello id (records_bytes (example_chunks ++ [example_rest]) ++ []) = Err ExceedsCap).
Proof.
  change (bytes_of "a.example") with (normalizeSNI id (bytes_of "A.Example.")). split.
  - apply (peekClientHello_host id (replicate 34 x03) [] [x13; x01] [x00] [(23, [])]
           (bytes_of "A.Example.") [(16, [x00])] example_init example_last []).
    + unfold hello_ok. vm_compute. done.
    + apply Forall_singleton. vm_compute. done.
    + unfold fragmented. split_and!; [|vm_compute; done..].
      apply Forall_cons; split; [|apply Forall_singleton]; vm_compute; done.
    + vm_compute. split; discriminate.
  - apply (peekClientHello_host id (replicate 34 x03) [] [x13; x01] [x00] [(23, [])]
           (bytes_of "A.Example.") [(16, [x00])] example_chunks example_rest []).
    + unfold hello_ok. vm_compute. done.
    + apply Forall_singleton. vm_compute. done.
    + unfold fragmented. split_and!; [|vm_compute; done..].
      repeat (apply Forall_cons; split; [vm_compute; done|]). apply Forall_nil. exact I.
    + intros [H _]. vm_compute in H. by apply H.
Defined.
