(* ===== verification/Registry.v ===== *)
(** [pkg/relay/registry.go], the state and its locked operations: registered
    keys, tenants and their agents, discovered Kubernetes services, connection
    accounting and the single-use connection ids.  Each operation here is one
    critical section of [Registry.mu]; the calls made of several sections are
    put together in [RegistrySteps]. *)
From S2P Require Import Prelude Bytes Protocol AuthLimit.

(** What the registry uses of package [sshkey] (which delegates to
    [golang.org/x/crypto/ssh]) and of [time.Parse]. *)
Class SSH : Type := {
  PublicKey : Type;
  ParsePublicString : string -> option PublicKey;
  Fingerprint : PublicKey -> string;
  Verify : PublicKey -> list byte -> string -> bool;
  ParseTimestamp : string -> option Z;
}.

Record Limits := {
  HandshakeTimeout : Z;
  DialBackTimeout : Z;
  MaxPendingPerServer : Z;
  MaxConnsPerServer : Z;
  UDPRelayIdleTimeout : Z;
  MaxUDPRelaySessionsPerServer : Z;
  MaxRegistrationsPerMinute : Z;
  MaxPendingRegistrations : Z;
}.

(** A live control connection; [ag_ref] is its address, which is what pointer
    comparison looks at. *)
Record Agent := {
  ag_ref : Z;
  ag_Name : string;
  ag_Fingerprint : string;
}.

Inductive RegistrationSource : Type := SourceStatic | SourceOutbound | SourceKubernetes.

#[export] Instance RegistrationSource_eq_dec : EqDecision RegistrationSource.
Proof. solve_decision. Defined.

Record ServerEndpoint := {
  ep_Hostname : string;
  ep_Address : string;
  ep_Namespace : string;
  ep_Service : string;
  ep_Tenant : string;
  ep_Source : RegistrationSource;
  ep_ID : string;
}.

Record tenantState := {
  agent : option Agent;
  pending : Z;
  live : Z;
}.

Definition new_tenant : tenantState := {| agent := None; pending := 0; live := 0 |}.
Definition with_agent (a : option Agent) (t : tenantState) : tenantState :=
  {| agent := a; pending := pending t; live := live t |}.
Definition add_pending (d : Z) (t : tenantState) : tenantState :=
  {| agent := agent t; pending := pending t + d; live := live t |}.
Definition add_live (d : Z) (t : tenantState) : tenantState :=
  {| agent := agent t; pending := pending t; live := live t + d |}.

Record pendingConn := {
  pc_name : string;
  pc_expires : Z;
}.

(** The message of a [RegisterError]: a fixed text, or the capability error. *)
Inductive reg_message : Type := MsgText (s : string) | MsgCapability (e : cap_error).
Record RegisterError := { re_Code : string; re_Message : reg_message }.

Inductive open_error : Type :=
  | ErrTenantUnknown
  | ErrTenantAtCapacity
  | ErrRandom
  | ErrPush
  | ErrDialBackTimeout
  | ErrContext
  | ErrDial (ns svc : string).

Inductive upsert_error : Type := InvalidEndpoint | DuplicateHostname (h : string).

Section registry.
Context {ssh : SSH}.

Record Registration := {
  rg_Name : string;
  rg_PublicKey : PublicKey;
  rg_Listen : string;
}.

(** [pending] maps connection ids to pending connections; the channels of a
    pending connection are in [RegistrySteps].  [discoveredUsage] holds
    pointers, because a dial keeps its pointer across an unlock: [heap] is
    what they point to. *)
Record Registry := mkRegistry {
  byFingerprint : gmap string Registration;
  tenants : gmap string tenantState;
  pendings : gmap string pendingConn;
  nonces : NonceCache.t;
  kubernetes : gmap string ServerEndpoint;
  conflicts : gmap string (gmap string ServerEndpoint);
  limits : Limits;
  discoveredUsage : gmap string Z;
  heap : gmap Z tenantState;
}.

Definition set_tenants (f : gmap string tenantState -> gmap string tenantState) (r : Registry) :=
  mkRegistry (byFingerprint r) (f (tenants r)) (pendings r) (nonces r) (kubernetes r)
    (conflicts r) (limits r) (discoveredUsage r) (heap r).
Definition set_pendings (f : gmap string pendingConn -> gmap string pendingConn) (r : Registry) :=
  mkRegistry (byFingerprint r) (tenants r) (f (pendings r)) (nonces r) (kubernetes r)
    (conflicts r) (limits r) (discoveredUsage r) (heap r).
Definition set_nonces (n : NonceCache.t) (r : Registry) :=
  mkRegistry (byFingerprint r) (tenants r) (pendings r) n (kubernetes r)
    (conflicts r) (limits r) (discoveredUsage r) (heap r).
Definition set_k8s (k : gmap string ServerEndpoint)
    (c : gmap string (gmap string ServerEndpoint)) (r : Registry) :=
  mkRegistry (byFingerprint r) (tenants r) (pendings r) (nonces r) k c
    (limits r) (discoveredUsage r) (heap r).
Definition set_usage (u : gmap string Z) (h : gmap Z tenantState) (r : Registry) :=
  mkRegistry (byFingerprint r) (tenants r) (pendings r) (nonces r) (kubernetes r)
    (conflicts r) (limits r) u h.

Definition maxNonces : Z := DefaultMaxNonces.

Definition NewRegistry (registrations : list Registration) (limits : Limits) : Registry :=
  mkRegistry
    (foldl (fun m reg => <[Fingerprint (rg_PublicKey reg) := reg]> m) ∅ registrations)
    (foldl (fun m reg => <[rg_Name reg := new_tenant]> m) ∅ registrations)
    ∅ (NonceCache.NewNonceCache (5 * minute) maxNonces) ∅ ∅ limits ∅ ∅.

(** ** Kubernetes endpoints *)
Definition UpsertKubernetes (ep : ServerEndpoint) (r : Registry) :
    result upsert_error () * Registry :=
  let h := ep_Hostname ep in
  if negb (bool_decide (ep_Source ep = SourceKubernetes)) || (h =? "")%string
     || (ep_Address ep =? "")%string || (ep_ID ep =? "")%string
  then (Err InvalidEndpoint, r)
  else
    match kubernetes r !! h with
    | Some old =>
        if (ep_ID old =? ep_ID ep)%string then
          match conflicts r !! h with
          | Some c => (Err (DuplicateHostname h),
                       set_k8s (kubernetes r) (<[h := <[ep_ID ep := ep]> c]> (conflicts r)) r)
          | None => (Ok (), set_k8s (<[h := ep]> (kubernetes r)) (conflicts r) r)
          end
        else
          let c := default {[ep_ID old := old]} (conflicts r !! h) in
          (Err (DuplicateHostname h),
           set_k8s (delete h (kubernetes r)) (<[h := <[ep_ID ep := ep]> c]> (conflicts r)) r)
    | None =>
        match conflicts r !! h with
        | Some c => (Err (DuplicateHostname h),
                     set_k8s (kubernetes r) (<[h := <[ep_ID ep := ep]> c]> (conflicts r)) r)
        | None => (Ok (), set_k8s (<[h := ep]> (kubernetes r)) (conflicts r) r)
        end
    end.

Definition RemoveKubernetes (hostname id : string) (r : Registry) : Registry :=
  let k :=
    match kubernetes r !! hostname with
    | Some ep => if (ep_ID ep =? id)%string then delete hostname (kubernetes r) else kubernetes r
    | None => kubernetes r
    end in
  match conflicts r !! hostname with
  | None => set_k8s k (conflicts r) r
  | Some c =>
      let c := delete id c in
      match map_to_list c with
      | [(_, ep)] => set_k8s (<[hostname := ep]> k) (delete hostname (conflicts r)) r
      | [] => set_k8s k (delete hostname (conflicts r)) r
      | _ => set_k8s k (<[hostname := c]> (conflicts r)) r
      end
  end.

Definition Lookup (hostname : string) (r : Registry) : option ServerEndpoint :=
  kubernetes r !! hostname.

(** In the order [range] meets the map. *)
Definition List (ord : gmap string ServerEndpoint -> list string) (r : Registry) :
    list ServerEndpoint :=
  omap (fun h => kubernetes r !! h) (ord (kubernetes r)).

(** ** Registration *)
Definition relayCapabilities : list string :=
  [CapabilityMultipathV3; CapabilityNativeWireGuardRelay].

Definition reg_error (code : string) (msg : reg_message) : RegisterError :=
  {| re_Code := code; re_Message := msg |}.

(** One step for the whole call.  Its one change to shared state is the check
    of the nonce, under the cache's own mutex; the registration it looks up is
    an immutable value that a reload may meanwhile replace, and then the step
    stands at the lookup.  One reading of the clock, [now], stands for the
    call's readings, microseconds apart. *)
Definition Register (ord : gmap string Z -> list string) (now : Z) (req : RelayRegisterRequest)
    (r : Registry) : result RegisterError (string * string) * Registry :=
  if negb (rr_Version req =? Version) then
    (Err (reg_error ErrorInvalidRequest (MsgText "unsupported protocol version")), r)
  else
    match ValidateRequiredCapabilities relayCapabilities (rr_RequiredCapabilities req) with
    | Err e => (Err (reg_error ErrorUnsupportedCapability (MsgCapability e)), r)
    | Ok _ =>
        let skewed :=
          match ParseTimestamp (rr_Timestamp req) with
          | None => true
          | Some ts => (2 * minute <? time_sub now ts) || (2 * minute <? time_sub ts now)
          end in
        if skewed then
          (Err (reg_error ErrorClockSkew (MsgText "timestamp outside permitted window")), r)
        else
          match ParsePublicString (rr_PublicKey req) with
          | None => (Err (reg_error ErrorUnknownKey (MsgText "unrecognized public key")), r)
          | Some key =>
              let fp := Fingerprint key in
              match byFingerprint r !! fp with
              | None => (Err (reg_error ErrorUnknownKey (MsgText "unknown public key")), r)
              | Some reg =>
                  let verified :=
                    match RelayRegisterPayload req with
                    | Err _ => false
                    | Ok payload => Verify (rg_PublicKey reg) payload (rr_Signature req)
                    end in
                  if negb verified then
                    (Err (reg_error ErrorBadSignature (MsgText "invalid signature")), r)
                  else
                    let '(fresh, n) := NonceCache.Use ord now (rr_Nonce req) (nonces r) in
                    let r := set_nonces n r in
                    if negb fresh then
                      (Err (reg_error ErrorReplayedNonce (MsgText "replayed nonce")), r)
                    else if negb (rr_Name req =? rg_Name reg)%string then
                      (Err (reg_error ErrorRelayNameNotAllowed
                              (MsgText "name does not match this key's registration")), r)
                    else (Ok (rg_Name reg, fp), r)
              end
          end
    end.

(** The agent the call closes after the unlock, if any. *)
Definition RegisterAgent (name : string) (a : Agent) (r : Registry) : option Agent * Registry :=
  let t := default new_tenant (tenants r !! name) in
  (agent t, set_tenants (<[name := with_agent (Some a) t]>) r).

Definition DeregisterAgent (name : string) (a : Agent) (r : Registry) : Registry :=
  match tenants r !! name with
  | Some t =>
      match agent t with
      | Some b => if ag_ref b =? ag_ref a then set_tenants (<[name := with_agent None t]>) r else r
      | None => r
      end
  | None => r
  end.

(** The test of [ReplaceRegistrations] on one tenant. *)
Definition evicted (fpByName : gmap string string) (name : string) (t : tenantState) :
    option Agent :=
  match agent t with
  | None => None
  | Some a =>
      match fpByName !! name with
      | Some newFP => if (newFP =? ag_Fingerprint a)%string then None else Some a
      | None => Some a
      end
  end.

Definition fp_by_name (registrations : list Registration) : gmap string string :=
  foldl (fun m reg => <[rg_Name reg := Fingerprint (rg_PublicKey reg)]> m) ∅ registrations.

(** The agents closed after the unlock, in range order. *)
Definition ReplaceRegistrations (ord : gmap string tenantState -> list string)
    (registrations : list Registration) (r : Registry) : list Agent * Registry :=
  let byFP := foldl (fun m reg => <[Fingerprint (rg_PublicKey reg) := reg]> m) ∅ registrations in
  let fpByName := fp_by_name registrations in
  (omap (fun name => tenants r !! name ≫= evicted fpByName name) (ord (tenants r)),
   mkRegistry byFP
     (map_imap (fun name t => Some (match evicted fpByName name t with Some _ => with_agent None t | None => t end))
        (tenants r))
     (pendings r) (nonces r) (kubernetes r) (conflicts r) (limits r) (discoveredUsage r) (heap r)).

(** ** Connection accounting *)

(** The first critical section of [Open]: the capacity checks and the mint.
    [connID] is what [randomConnID] returned. *)
Definition open_begin (now : Z) (name : string) (connID : option string) (r : Registry) :
    result open_error (string * Agent) * Registry :=
  match tenants r !! name with
  | None => (Err ErrTenantUnknown, r)
  | Some t =>
      match agent t with
      | None => (Err ErrTenantUnknown, r)
      | Some a =>
          if (MaxPendingPerServer (limits r) <=? pending t) ||
             (MaxConnsPerServer (limits r) <=? pending t + live t)
          then (Err ErrTenantAtCapacity, r)
          else
            match connID with
            | None => (Err ErrRandom, r)
            | Some id =>
                (Ok (id, a),
                 set_tenants (<[name := add_pending 1 t]>)
                   (set_pendings (<[id := {| pc_name := name;
                                             pc_expires := time_add now (DialBackTimeout (limits r)) |}]>)
                      r))
            end
      end
  end.

(** The section of [Open] that accounts a delivered connection. *)
Definition open_live (name : string) (r : Registry) : Registry :=
  match tenants r !! name with
  | Some t => set_tenants (<[name := add_live 1 t]>) r
  | None => r
  end.

Definition cancelPending (connID : string) (r : Registry) : Registry :=
  match pendings r !! connID with
  | None => r
  | Some p =>
      let r := set_pendings (delete connID) r in
      match tenants r !! pc_name p with
      | Some t => set_tenants (<[pc_name p := add_pending (-1) t]>) r
      | None => r
      end
  end.

(** Whether a handoff is returned; its channels are those of [connID]. *)
Definition Redeem (now : Z) (connID : string) (r : Registry) : bool * Registry :=
  match pendings r !! connID with
  | None => (false, r)
  | Some p => (negb (time_after now (pc_expires p)), cancelPending connID r)
  end.

(** ** Discovered services *)

(** The decision of [OpenSNI] under its first lock. *)
Inductive route : Type :=
  | RouteTenant (tenant : string)
  | RouteKubernetes (ep : ServerEndpoint)
  | RouteUnknown.

Definition opensni_route (tenant hostname : string) (r : Registry) : route :=
  let active := negb (tenant =? "")%string &&
    match tenants r !! tenant with
    | Some t => match agent t with Some _ => true | None => false end
    | None => false
    end in
  if active then RouteTenant tenant
  else match kubernetes r !! hostname with
       | Some ep => RouteKubernetes ep
       | None => if (tenant =? "")%string then RouteUnknown else RouteTenant tenant
       end.

Definition usage_key (ep : ServerEndpoint) : string := "kubernetes:" ++ ep_Hostname ep.

(** The section before the dial; [fresh] is the address of a new usage record
    if one is allocated.  The result is the pointer the dial keeps. *)
Definition dial_begin (fresh : Z) (key : string) (r : Registry) :
    result open_error Z * Registry :=
  let '(usage, r) :=
    match discoveredUsage r !! key with
    | Some u => (u, r)
    | None => (fresh, set_usage (<[key := fresh]> (discoveredUsage r))
                        (<[fresh := new_tenant]> (heap r)) r)
    end in
  let t := default new_tenant (heap r !! usage) in
  if ((0 <? MaxPendingPerServer (limits r)) && (MaxPendingPerServer (limits r) <=? pending t)) ||
     ((0 <? MaxConnsPerServer (limits r)) && (MaxConnsPerServer (limits r) <=? pending t + live t))
  then (Err ErrTenantAtCapacity, r)
  else (Ok usage, set_usage (discoveredUsage r) (<[usage := add_pending 1 t]> (heap r)) r).

(** The section after the dial, through the pointer kept across it. *)
Definition dial_end (key : string) (usage : Z) (dialed : bool) (r : Registry) : Registry :=
  let t := add_pending (-1) (default new_tenant (heap r !! usage)) in
  let t := if dialed then add_live 1 t else t in
  let h := <[usage := t]> (heap r) in
  if live t + pending t =? 0 then set_usage (delete key (discoveredUsage r)) h r
  else set_usage (discoveredUsage r) h r.

Definition Release (name : string) (r : Registry) : Registry :=
  match discoveredUsage r !! name with
  | Some u =>
      let t := default new_tenant (heap r !! u) in
      let t := if 0 <? live t then add_live (-1) t else t in
      let h := <[u := t]> (heap r) in
      if live t + pending t =? 0 then set_usage (delete name (discoveredUsage r)) h r
      else set_usage (discoveredUsage r) h r
  | None =>
      match tenants r !! name with
      | Some t => if 0 <? live t then set_tenants (<[name := add_live (-1) t]>) r else r
      | None => r
      end
  end.

(** ** The hostname table against its specification

    The specification keeps, for every hostname, all the Services that claim
    it, by id.  A hostname routes exactly when one Service claims it. *)
Inductive k8s_event : Type :=
  | Upserted (ep : ServerEndpoint)
  | Removed (hostname id : string).

Definition k8s_step (r : Registry) (e : k8s_event) : Registry :=
  match e with
  | Upserted ep => (UpsertKubernetes ep r).2
  | Removed h id => RemoveKubernetes h id r
  end.

Definition valid_endpoint (ep : ServerEndpoint) : bool :=
  bool_decide (ep_Source ep = SourceKubernetes) && negb (ep_Hostname ep =? "")%string
  && negb (ep_Address ep =? "")%string && negb (ep_ID ep =? "")%string.

Abbreviation claim_table := (gmap string (gmap string ServerEndpoint)).

Definition claims (t : claim_table) (h : string) : gmap string ServerEndpoint :=
  default ∅ (t !! h).

Definition spec_step (t : claim_table) (e : k8s_event) : claim_table :=
  match e with
  | Upserted ep =>
      if valid_endpoint ep
      then <[ep_Hostname ep := <[ep_ID ep := ep]> (claims t (ep_Hostname ep))]> t
      else t
  | Removed h id => <[h := delete id (claims t h)]> t
  end.

(** The one Service of a claim set, if there is exactly one. *)
Definition sole (c : gmap string ServerEndpoint) : option ServerEndpoint :=
  match map_to_list c with [(_, ep)] => Some ep | _ => None end.

(** What the two maps say of one hostname, and when they say it well: it is
    unclaimed, routed or in conflict, its claims filed under their ids. *)
Abbreviation entry := (option ServerEndpoint * option (gmap string ServerEndpoint))%type.

Definition entry_of (r : Registry) (h : string) : entry := (kubernetes r !! h, conflicts r !! h).

Definition entry_claims (e : entry) : gmap string ServerEndpoint :=
  match e with
  | (_, Some c) => c
  | (Some ep, None) => {[ep_ID ep := ep]}
  | (None, None) => ∅
  end.

Definition entry_wf (e : entry) : Prop :=
  match e with
  | (Some _, Some _) => False
  | (None, Some c) => (2 <= size c)%nat /\ forall k ep, c !! k = Some ep -> ep_ID ep = k
  | (_, None) => True
  end.

Definition k8s_wf (r : Registry) : Prop := forall h, entry_wf (entry_of r h).

Lemma sole_empty : sole ∅ = None.
Proof. unfold sole. by rewrite map_to_list_empty. Qed.

Lemma sole_singleton id ep : sole {[id := ep]} = Some ep.
Proof. unfold sole. by rewrite map_to_list_singleton. Qed.

Lemma sole_conflict c : (2 <= size c)%nat -> sole c = None.
Proof.
  unfold sole. rewrite <-length_map_to_list.
  destruct (map_to_list c) as [|[? ?] [|? ?]]; simpl; [done|lia|done].
Qed.

Lemma size_insert_grows (c : gmap string ServerEndpoint) k ep : (size c <= size (<[k:=ep]> c))%nat.
Proof. rewrite map_size_insert. destruct (c !! k); unfold id; simpl; lia. Qed.

(** A claim set by its size: what [RemoveKubernetes] tests with [len]. *)
Lemma claim_set_cases (c : gmap string ServerEndpoint) :
  match map_to_list c with
  | [] => c = ∅
  | [(id, ep)] => c = {[id := ep]}
  | _ => (2 <= size c)%nat
  end.
Proof.
  rewrite <-length_map_to_list.
  destruct (map_to_list c) as [|[id ep] [|? ?]] eqn:E; simpl; [| |lia].
  - by apply map_to_list_empty_iff.
  - apply map_to_list_inj. by rewrite E, map_to_list_singleton.
Qed.

Lemma entry_sole e : entry_wf e -> e.1 = sole (entry_claims e).
Proof.
  destruct e as [[ep|] [c|]]; simpl; intros H; [done|by rewrite sole_singleton| |done].
  rewrite sole_conflict; [done|apply H].
Qed.

(** The maps change at one hostname alone. *)
Lemma UpsertKubernetes_frame ep r h :
  h <> ep_Hostname ep -> entry_of (UpsertKubernetes ep r).2 h = entry_of r h.
Proof.
  intros Hh. unfold UpsertKubernetes, entry_of.
  repeat case_go; simpl; rewrite ?lookup_insert_ne, ?lookup_delete_ne by done; done.
Qed.

Lemma RemoveKubernetes_frame h' k r h :
  h <> h' -> entry_of (RemoveKubernetes h' k r) h = entry_of r h.
Proof.
  intros Hh. unfold RemoveKubernetes, entry_of.
  destruct (conflicts r !! h'), (kubernetes r !! h'); simpl; repeat case_match; simpl;
    rewrite ?lookup_insert_ne, ?lookup_delete_ne by done; done.
Qed.

Lemma valid_endpoint_guard ep :
  negb (bool_decide (ep_Source ep = SourceKubernetes)) || (ep_Hostname ep =? "")%string
     || (ep_Address ep =? "")%string || (ep_ID ep =? "")%string = negb (valid_endpoint ep).
Proof. unfold valid_endpoint. by rewrite !negb_andb, !negb_involutive. Qed.

(** At the hostname itself: the claims gain the endpoint, the entry stays
    well formed, and the call fails exactly when another Service claims it. *)
Lemma UpsertKubernetes_entry ep r (H : entry_wf (entry_of r (ep_Hostname ep))) :
  let e := entry_of r (ep_Hostname ep) in
  let e' := entry_of (UpsertKubernetes ep r).2 (ep_Hostname ep) in
  valid_endpoint ep = true ->
  entry_wf e' /\ entry_claims e' = <[ep_ID ep := ep]> (entry_claims e) /\
  ((UpsertKubernetes ep r).1 = Ok () <-> delete (ep_ID ep) (entry_claims e) = ∅).
Proof.
  intros e e' Hv. subst e e'. unfold UpsertKubernetes, entry_of in *.
  rewrite valid_endpoint_guard, Hv. simpl.
  destruct (kubernetes r !! ep_Hostname ep) as [old|] eqn:Ek,
           (conflicts r !! ep_Hostname ep) as [c|] eqn:Ec; simpl in H; [done| | |].
  - destruct (ep_ID old =? ep_ID ep)%string eqn:E; simpl; bool_to_prop.
    + rewrite lookup_insert_eq, Ec, E. simpl.
      by rewrite insert_singleton_eq, delete_singleton_eq.
    + rewrite lookup_insert_eq, lookup_delete_eq. simpl. split_and!.
      * rewrite map_size_insert_None, map_size_singleton; [lia|]. by rewrite lookup_singleton_ne.
      * intros k ep'. rewrite lookup_insert, lookup_singleton. repeat case_decide; naive_solver.
      * done.
      * split; [done|]. rewrite delete_singleton_ne by done. by intros Hemp%map_non_empty_singleton.
  - simpl. rewrite lookup_insert_eq, Ek. simpl. destruct H as [H2 Hid]. split_and!.
    + pose proof (size_insert_grows c (ep_ID ep) ep). lia.
    + intros k ep'. rewrite lookup_insert. case_decide; naive_solver.
    + done.
    + split; [done|]. intros Hemp. pose proof (Zsize_delete c (ep_ID ep)) as Hs.
      rewrite Hemp in Hs. unfold Zsize in Hs. rewrite map_size_empty in Hs.
      destruct (c !! ep_ID ep); lia.
  - simpl. rewrite lookup_insert_eq, Ec. simpl. by rewrite insert_empty, delete_empty.
Qed.

Lemma RemoveKubernetes_entry h k r (H : entry_wf (entry_of r h)) :
  let e' := entry_of (RemoveKubernetes h k r) h in
  entry_wf e' /\ entry_claims e' = delete k (entry_claims (entry_of r h)).
Proof.
  intros e'. subst e'. unfold RemoveKubernetes, entry_of in *.
  destruct (kubernetes r !! h) as [ep|] eqn:Ek, (conflicts r !! h) as [c|] eqn:Ec;
    simpl in H; [done| | |].
  - destruct (ep_ID ep =? k)%string eqn:E; simpl; bool_to_prop.
    + rewrite lookup_delete_eq, Ec. subst. by rewrite delete_singleton_eq.
    + rewrite Ek, Ec. simpl. by rewrite delete_singleton_ne.
  - destruct H as [H2 Hid]. pose proof (claim_set_cases (delete k c)) as Hc.
    destruct (map_to_list (delete k c)) as [|[k' ep] [|? ?]]; simpl.
    + by rewrite Ek, lookup_delete_eq, Hc.
    + rewrite lookup_insert_eq, lookup_delete_eq. simpl. split; [done|].
      assert (ep_ID ep = k') as ->; [|done]. apply Hid.
      assert (delete k c !! k' = Some ep) as [? ?]%lookup_delete_Some; [|done].
      rewrite Hc. apply lookup_singleton_eq.
    + rewrite Ek, lookup_insert_eq. simpl. split_and!; [done| |done].
      intros k'' ep' [? ?]%lookup_delete_Some. eauto.
  - simpl. rewrite Ek, Ec. simpl. by rewrite delete_empty.
Qed.

Lemma k8s_step_sim r t e :
  k8s_wf r -> (forall h, entry_claims (entry_of r h) = claims t h) ->
  k8s_wf (k8s_step r e) /\
  (forall h, entry_claims (entry_of (k8s_step r e) h) = claims (spec_step t e) h).
Proof.
  intros Hwf Hsim. destruct e as [ep|h' k]; cbn [k8s_step spec_step].
  - destruct (valid_endpoint ep) eqn:Hv.
    2:{ unfold UpsertKubernetes. by rewrite valid_endpoint_guard, Hv. }
    destruct (UpsertKubernetes_entry ep r (Hwf _) Hv) as (Hw & Hc & _).
    split; intros h; (destruct (decide (h = ep_Hostname ep)) as [->|];
      [|rewrite UpsertKubernetes_frame by done]); [done|apply Hwf| |].
    + rewrite Hc, Hsim. unfold claims at 2. by rewrite lookup_insert_eq.
    + rewrite Hsim. unfold claims. by rewrite lookup_insert_ne.
  - destruct (RemoveKubernetes_entry h' k r (Hwf _)) as (Hw & Hc).
    split; intros h; (destruct (decide (h = h')) as [->|];
      [|rewrite RemoveKubernetes_frame by done]); [done|apply Hwf| |].
    + rewrite Hc, Hsim. unfold claims at 2. by rewrite lookup_insert_eq.
    + rewrite Hsim. unfold claims. by rewrite lookup_insert_ne.
Qed.

Lemma k8s_run_sim es r t :
  k8s_wf r -> (forall h, entry_claims (entry_of r h) = claims t h) ->
  k8s_wf (foldl k8s_step r es) /\
  (forall h, entry_claims (entry_of (foldl k8s_step r es) h) = claims (foldl spec_step t es) h).
Proof.
  revert r t. induction es as [|e es IH]; intros r t Hwf Hsim; simpl; [done|].
  by destruct (k8s_step_sim r t e Hwf Hsim); apply IH.
Qed.

(** after any sequence of Service additions and removals, a hostname
    routes to a Service exactly when that Service alone claims it; a claim
    made while another Service holds the name is refused, and the name
    becomes routable again as soon as one claim is left. *)
Theorem Kubernetes_refines_claims regs lim es :
  let r := foldl k8s_step (NewRegistry regs lim) es in
  let t := foldl spec_step ∅ es in
  (forall h, Lookup h r = sole (claims t h)) /\
  (forall ep, (UpsertKubernetes ep r).1 = Ok () <->
     valid_endpoint ep = true /\ delete (ep_ID ep) (claims t (ep_Hostname ep)) = ∅).
Proof.
  intros r t. destruct (k8s_run_sim es (NewRegistry regs lim) ∅) as [Hwf Hsim].
  { by intros h. }
  { by intros h. }
  fold r t in Hwf, Hsim. split.
  - intros h. rewrite <-Hsim. apply (entry_sole (entry_of r h)), Hwf.
  - intros ep. destruct (valid_endpoint ep) eqn:Hv.
    + destruct (UpsertKubernetes_entry ep r (Hwf _) Hv) as (_ & _ & ->). rewrite Hsim. naive_solver.
    + unfold UpsertKubernetes. rewrite valid_endpoint_guard, Hv. simpl. naive_solver.
Qed.

(** ** Registration *)

(** What a request shows before its nonce is looked at: it is in date, and
    its key, which is registered, signed it. *)
Definition authentic (now : Z) (req : RelayRegisterRequest) (r : Registry)
    (reg : Registration) (fp : string) : Prop :=
  rr_Version req = Version /\
  ValidateRequiredCapabilities relayCapabilities (rr_RequiredCapabilities req) = Ok tt /\
  (exists ts, ParseTimestamp (rr_Timestamp req) = Some ts /\
     now - ts <= 2 * minute /\ ts - now <= 2 * minute) /\
  (exists key, ParsePublicString (rr_PublicKey req) = Some key /\ fp = Fingerprint key) /\
  byFingerprint r !! fp = Some reg /\
  (exists payload, RelayRegisterPayload req = Ok payload /\
     Verify (rg_PublicKey reg) payload (rr_Signature req) = true).

Lemma skew_iff now ts :
  (2 * minute <? time_sub now ts) || (2 * minute <? time_sub ts now) = false <->
  now - ts <= 2 * minute /\ ts - now <= 2 * minute.
Proof.
  assert (in_int64 (2 * minute) /\ 2 * minute < int64_max) as [H1 H2] by (vm_compute; intuition done).
  rewrite orb_false_iff, !Z.ltb_ge, !time_sub_le by done. done.
Qed.

(** The registry acts on a request only when it is authentic, and then by its
    nonce alone. *)
Lemma Register_cases ord now req r :
  (exists reg fp, authentic now req r reg fp /\
     let u := NonceCache.Use ord now (rr_Nonce req) (nonces r) in
     (Register ord now req r).2 = set_nonces u.2 r /\
     (u.1 = false -> (Register ord now req r).1 =
        Err (reg_error ErrorReplayedNonce (MsgText "replayed nonce"))) /\
     (u.1 = true -> rr_Name req <> rg_Name reg -> (Register ord now req r).1 =
        Err (reg_error ErrorRelayNameNotAllowed
               (MsgText "name does not match this key's registration"))) /\
     (u.1 = true -> rr_Name req = rg_Name reg ->
        (Register ord now req r).1 = Ok (rg_Name reg, fp))) \/
  ((forall reg fp, ~ authentic now req r reg fp) /\
   (Register ord now req r).2 = r /\ exists e, (Register ord now req r).1 = Err e).
Proof.
  unfold Register, authentic.
  destruct (rr_Version req =? Version) eqn:Ev; simpl; bool_to_prop.
  2:{ right. split; [|naive_solver]. intros reg fp (? & _). done. }
  destruct (ValidateRequiredCapabilities _ _) as [[]|e] eqn:Ec.
  2:{ right. split; [|naive_solver]. intros reg fp (_ & ? & _). done. }
  destruct (ParseTimestamp _) as [ts|] eqn:Et.
  2:{ right. split; [|naive_solver]. intros reg fp (_ & _ & (? & ? & _) & _). done. }
  destruct (_ || _) eqn:Es.
  { right. split; [|naive_solver]. intros reg fp (_ & _ & (? & [= <-] & Hs) & _).
    apply skew_iff in Hs. congruence. }
  apply skew_iff in Es.
  destruct (ParsePublicString _) as [key|] eqn:Ek.
  2:{ right. split; [|naive_solver]. intros reg fp (_ & _ & _ & (? & ? & _) & _). done. }
  destruct (byFingerprint r !! _) as [reg|] eqn:Er.
  2:{ right. split; [|naive_solver]. intros reg fp (_ & _ & _ & (? & [= <-] & ->) & ? & _).
      congruence. }
  destruct (match RelayRegisterPayload req with Ok _ => _ | Err _ => _ end) eqn:Ep; simpl.
  2:{ right. split; [|naive_solver]. intros reg' fp (_ & _ & _ & (? & [= <-] & ->) & ? & (? & Hp & ?)).
      simplify_eq. rewrite Hp in Ep. congruence. }
  left. exists reg, (Fingerprint key).
  destruct (NonceCache.Use _ _ _ _) as [fresh n]. split.
  { split_and!; [done|done|naive_solver|naive_solver|done|].
    destruct (RelayRegisterPayload req) as [payload|]; [|done]. by exists payload. }
  destruct fresh; simpl; [|done].
  destruct (rr_Name req =? rg_Name reg)%string eqn:En; simpl; bool_to_prop; done.
Qed.

(** a registration succeeds exactly when the request is in date, signed
    by a registered key over its own payload, carries a fresh nonce and asks
    for the name configured for that key, which is the name returned; and no
    request that is not signed by a registered key touches the nonce cache
    or anything else. *)
Theorem Register_authenticates ord now req r :
  (forall name fp, (Register ord now req r).1 = Ok (name, fp) <->
     exists reg, authentic now req r reg fp /\ name = rg_Name reg /\ rr_Name req = rg_Name reg /\
       (NonceCache.Use ord now (rr_Nonce req) (nonces r)).1 = true) /\
  ((Register ord now req r).2 = r \/
   exists reg fp, authentic now req r reg fp /\
     (Register ord now req r).2 =
       set_nonces (NonceCache.Use ord now (rr_Nonce req) (nonces r)).2 r).
Proof.
  destruct (Register_cases ord now req r) as [(reg & fp & Ha & Hst & Hr & Hn & Hok)|(Hna & Hst & e & He)].
  - split; [|right; naive_solver]. intros name fp'. split.
    + intros H. destruct (NonceCache.Use _ _ _ _) as [[] ?] eqn:Eu; simpl in *;
        [|rewrite Hr in H; done].
      destruct (decide (rr_Name req = rg_Name reg)) as [Heq|Hne];
        [|rewrite Hn in H; done].
      rewrite Hok in H by done. simplify_eq. by exists reg.
    + intros (reg' & Ha' & -> & Hname & Hu).
      assert (fp' = fp /\ reg' = reg) as [-> ->]; [|by apply Hok].
      destruct Ha as (_ & _ & _ & (? & ? & ->) & ? & _), Ha' as (_ & _ & _ & (? & ? & ->) & ? & _).
      split; congruence.
  - split; [|by left]. intros name fp. rewrite He. split; [done|].
    intros (reg & Ha & _). by destruct (Hna reg fp).
Qed.

(** A trace of registrations and configuration reloads. *)
Inductive reg_event : Type :=
  | Registered (ord : gmap string Z -> list string) (now : Z) (req : RelayRegisterRequest)
  | Reloaded (ord : gmap string tenantState -> list string) (regs : list Registration).

Definition reg_step (e : reg_event) (r : Registry) :
    option (result RegisterError (string * string)) * Registry :=
  match e with
  | Registered ord now req => let '(x, r) := Register ord now req r in (Some x, r)
  | Reloaded ord regs => (None, (ReplaceRegistrations ord regs r).2)
  end.

Fixpoint reg_run (es : list reg_event) (r : Registry) :
    list (option (result RegisterError (string * string))) * Registry :=
  match es with
  | [] => ([], r)
  | e :: es => let '(x, r) := reg_step e r in let '(xs, r) := reg_run es r in (x :: xs, r)
  end.

(** The state event [i] finds. *)
Definition state_at (es : list reg_event) (r : Registry) (i : nat) : Registry :=
  (reg_run (take i es) r).2.

(** Event [i] is a registration that is accepted. *)
Definition accepted_at (es : list reg_event) (r : Registry) (i : nat) (now : Z)
    (req : RelayRegisterRequest) : Prop :=
  exists ord p, es !! i = Some (Registered ord now req) /\ (reg_run es r).1 !! i = Some (Some (Ok p)).

(** Event [i] is a registration with this nonce, in date and signed by a
    registered key. *)
Definition signed_at (es : list reg_event) (r : Registry) (i : nat) (now : Z) (nonce : string) : Prop :=
  exists ord req reg fp, es !! i = Some (Registered ord now req) /\ rr_Nonce req = nonce /\
    authentic now req (state_at es r i) reg fp.

(** Event [m] is a registration before which, within five minutes, signed
    registrations came with as many different nonces as the cache holds. *)
Definition crowded (es : list reg_event) (r : Registry) (m : nat) : Prop :=
  exists ord now req ks, es !! m = Some (Registered ord now req) /\
    NoDup ks /\ maxNonces <= Zlen ks /\
    forall k, k ∈ ks -> exists i now', (i < m)%nat /\ now - 5 * minute <= now' <= now /\
      signed_at es r i now' k.

(** The clock of the registrations does not run backward. *)
Fixpoint reg_clock (t0 : Z) (es : list reg_event) : Prop :=
  match es with
  | [] => True
  | Registered ord now _ :: es => t0 <= now /\ ranges ord /\ reg_clock now es
  | Reloaded _ _ :: es => reg_clock t0 es
  end.

Lemma reg_clock_mono t0 es i j ord ord' now now' req req' :
  reg_clock t0 es -> (i <= j)%nat -> es !! i = Some (Registered ord now req) ->
  es !! j = Some (Registered ord' now' req') -> t0 <= now <= now' /\ ranges ord.
Proof.
  revert t0 i j. induction es as [|e es IH]; intros t0 i j Ht Hij Hi Hj; [done|].
  assert (Hlow : forall t1 k o n q, reg_clock t1 es -> es !! k = Some (Registered o n q) -> t1 <= n).
  { clear. induction es as [|e es IH]; intros t1 k o n q Ht Hk; [done|].
    destruct k as [|k]; simpl in Hk; [injection Hk as ->; by destruct Ht|].
    destruct e as [o' n' q'|]; [destruct Ht as (? & _ & Ht)|]; pose proof (IH _ _ _ _ _ Ht Hk); lia. }
  destruct i as [|i].
  - injection Hi as ->. destruct Ht as (H0 & Hr & Ht).
    destruct j as [|j]; [injection Hj as <- <- <-|pose proof (Hlow _ _ _ _ _ Ht Hj)]; (split; [lia|done]).
  - destruct j as [|j]; [lia|]. simpl in Hi, Hj.
    destruct e as [o' n' q'|]; [destruct Ht as (? & _ & Ht)|];
      (destruct (IH _ i j Ht) as [? ?]; [lia|done|done|]); (split; [lia|done]).
Qed.

Lemma reg_run_app es es' r : (reg_run (es ++ es') r).2 = (reg_run es' (reg_run es r).2).2.
Proof.
  revert r. induction es as [|e es IH]; intros r; [done|]. simpl.
  destruct (reg_step e r) as [x r1]. specialize (IH r1).
  destruct (reg_run (es ++ es') r1), (reg_run es r1). exact IH.
Qed.

Lemma state_at_S es r i e :
  es !! i = Some e -> state_at es r (S i) = (reg_step e (state_at es r i)).2.
Proof.
  intros Hi. unfold state_at. rewrite (take_S_r _ _ e) by done. rewrite reg_run_app. simpl.
  by destruct (reg_step e _).
Qed.

Lemma reg_run_lookup es r i e :
  es !! i = Some e -> (reg_run es r).1 !! i = Some (reg_step e (state_at es r i)).1.
Proof.
  revert r i. induction es as [|e' es IH]; intros r i Hi; [done|]. unfold state_at. simpl.
  destruct i as [|i]; simpl.
  - injection Hi as ->. by destruct (reg_step e r) as [x r1], (reg_run es r1).
  - destruct (reg_step e' r) as [x r1]. specialize (IH r1 i Hi). unfold state_at in IH.
    by destruct (reg_run es r1), (reg_run (take i es) r1).
Qed.

Lemma accepted_at_state es r i now req :
  accepted_at es r i now req -> exists ord p, es !! i = Some (Registered ord now req) /\
    (Register ord now req (state_at es r i)).1 = Ok p.
Proof.
  intros (ord & p & He & Hp). exists ord, p. split; [done|]. rewrite (reg_run_lookup _ _ _ _ He) in Hp.
  simpl in Hp. destruct (Register _ _ _ _). simpl in *. congruence.
Qed.

(** An accepted request left its nonce in the cache. *)
Lemma Register_uses ord now req r p :
  (Register ord now req r).1 = Ok p ->
  exists reg fp, authentic now req r reg fp /\
    (Register ord now req r).2 = set_nonces (NonceCache.Use ord now (rr_Nonce req) (nonces r)).2 r /\
    (NonceCache.Use ord now (rr_Nonce req) (nonces r)).1 = true.
Proof.
  intros Hok.
  destruct (Register_cases ord now req r) as [(reg & fp & Ha & Hst & Hr & _)|(_ & _ & e & He)];
    [|congruence].
  exists reg, fp. split_and!; [done..|]. apply not_false_iff_true. intros Hf.
  rewrite Hr in Hok; done.
Qed.

(** Only a signed registration touches the cache, and only to use its nonce. *)
Lemma reg_step_nonces e r :
  nonces (reg_step e r).2 = nonces r \/
  exists ord now req reg fp, e = Registered ord now req /\ authentic now req r reg fp /\
    nonces (reg_step e r).2 = (NonceCache.Use ord now (rr_Nonce req) (nonces r)).2.
Proof.
  destruct e as [ord now req|ord regs]; [|by left]. simpl.
  destruct (Register_cases ord now req r) as [(reg & fp & Ha & Hst & _)|(_ & Hst & _)];
    destruct (Register ord now req r) as [x r']; simpl in *; rewrite Hst; [right|by left].
  by exists ord, now, req, reg, fp.
Qed.

Definition fresh_cache (r : Registry) : Prop :=
  NonceCache.ttl (nonces r) = 5 * minute /\ NonceCache.max (nonces r) = maxNonces.

Section replay.
Context (t0 : Z) (es : list reg_event) (r : Registry).
Context (Hclock : reg_clock t0 es) (Hfresh : fresh_cache r) (Hempty : NonceCache.seen (nonces r) = ∅).

Lemma state_at_cache m :
  (m <= length es)%nat -> fresh_cache (state_at es r m) /\
  forall k a, NonceCache.seen (nonces (state_at es r m)) !! k = Some a ->
    exists i, (i < m)%nat /\ signed_at es r i a k.
Proof.
  induction m as [|m IH]; intros Hm.
  { split; [done|]. intros k a Hk. unfold state_at in Hk. simpl in Hk. by rewrite Hempty in Hk. }
  destruct (lookup_lt_is_Some_2 es m ltac:(lia)) as [e He]. rewrite (state_at_S _ _ _ _ He).
  destruct (IH ltac:(lia)) as [[Ht Hx] Hs]. unfold fresh_cache.
  destruct (reg_step_nonces e (state_at es r m)) as [->|(ord & now & req & reg & fp & -> & Ha & ->)].
  { split; [done|]. intros k a (i & ? & ?)%Hs. exists i. split; [lia|done]. }
  destruct (reg_clock_mono _ _ m m _ _ _ _ _ _ Hclock (le_n _) He He) as [_ Hord].
  destruct (NonceCache.Use_const ord now (rr_Nonce req) (nonces (state_at es r m)) Hord) as [-> ->].
  split; [done|]. intros k a [(i & ? & ?)%Hs|[-> ->]]%NonceCache.Use_adds; [|exists m|done].
  - exists i. split; [lia|done].
  - split; [lia|]. by exists ord, req, reg, fp.
Qed.

(** A full cache witnesses a crowd of signed registrations. *)
Lemma full_crowded m ord now req :
  es !! m = Some (Registered ord now req) ->
  NonceCache.max (nonces (state_at es r m)) <= Zlen (NonceCache.crowd now (nonces (state_at es r m))) ->
  crowded es r m.
Proof.
  intros He Hfull. pose proof (lookup_lt_Some _ _ _ He).
  destruct (state_at_cache m ltac:(lia)) as [[Ht Hx] Hs]. rewrite Hx in Hfull.
  exists ord, now, req, (NonceCache.crowd now (nonces (state_at es r m))).
  split; [done|]. split; [apply NonceCache.crowd_NoDup|]. split; [done|].
  intros k (a & Hk & Hlive)%NonceCache.elem_of_crowd. destruct (Hs k a Hk) as (i & Hi & Hsig).
  exists i, a. split; [done|]. rewrite Ht in Hlive.
  apply time_sub_le in Hlive; [|vm_compute; intuition done|done].
  pose proof Hsig as (ord' & req' & _ & _ & He' & _).
  destruct (reg_clock_mono _ _ i m _ _ _ _ _ _ Hclock ltac:(lia) He' He) as [? _].
  split; [lia|done].
Qed.

(** A nonce stays in the cache for its lifetime unless a crowd comes. *)
Lemma nonce_kept i now req m :
  accepted_at es r i now req -> (i < m <= length es)%nat ->
  (forall ord' now' req' m', (m' < m)%nat -> es !! m' = Some (Registered ord' now' req') ->
     time_sub now' now <= 5 * minute) ->
  NonceCache.seen (nonces (state_at es r m)) !! rr_Nonce req = Some now \/
  exists m', (i < m' < m)%nat /\ crowded es r m'.
Proof.
  intros Ha [Him Hm] Hlive. induction m as [|m IH]; [lia|].
  destruct (decide (m = i)) as [->|Hne].
  { left. apply accepted_at_state in Ha as (ord & p & He & Hok).
    rewrite (state_at_S _ _ _ _ He). simpl.
    apply Register_uses in Hok as (reg & fp & _ & Hst & Hu).
    destruct (Register ord now req _) as [x r']. simpl in *. rewrite Hst. by apply NonceCache.Use_files. }
  assert (Hlive' : forall ord' now' req' m', (m' < m)%nat -> es !! m' = Some (Registered ord' now' req') ->
     time_sub now' now <= 5 * minute) by (intros ????? Hq; eapply Hlive; [|exact Hq]; lia).
  destruct (IH ltac:(lia) ltac:(lia) Hlive') as [Hk|(m' & ? & ?)]; [|right; exists m'; split; [lia|done]].
  destruct (lookup_lt_is_Some_2 es m ltac:(lia)) as [e He]. rewrite (state_at_S _ _ _ _ He).
  destruct (reg_step_nonces e (state_at es r m)) as [->|(ord & now' & req' & reg & fp & -> & _ & ->)]; [by left|].
  destruct (reg_clock_mono _ _ m m _ _ _ _ _ _ Hclock (le_n _) He He) as [_ Hord].
  destruct (state_at_cache m ltac:(lia)) as [[Ht _] _].
  destruct (NonceCache.Use_keeps_or_crowd ord now' (rr_Nonce req') _ _ _ Hord Hk) as [Hk'|Hfull].
  { rewrite Ht. eapply Hlive; [|exact He]. lia. }
  - by left.
  - right. exists m. split; [lia|]. by eapply full_crowded.
Qed.

Lemma accepted_spaced i j now now' req req' :
  (i < j)%nat -> accepted_at es r i now req -> accepted_at es r j now' req' ->
  rr_Nonce req = rr_Nonce req' ->
  5 * minute < now' - now \/ exists m, (i < m < j)%nat /\ crowded es r m.
Proof.
  intros Hij Hi Hj Hn. apply accepted_at_state in Hj as (ord' & p & He & Hok).
  pose proof (lookup_lt_Some _ _ _ He).
  destruct (Z.lt_ge_cases (5 * minute) (now' - now)) as [|Hle]; [by left|right].
  assert (Hlive : time_sub now' now <= 5 * minute)
    by (apply time_sub_le; [vm_compute; intuition done|done|done]).
  destruct (nonce_kept i now req j Hi) as [Hk|Hc]; [lia| | |done].
  { intros o n q m' Hm' Hq.
    destruct (reg_clock_mono _ _ m' j _ _ _ _ _ _ Hclock ltac:(lia) Hq He) as [? _].
    pose proof (time_sub_mono n now' now ltac:(lia)). lia. }
  apply Register_uses in Hok as (_ & _ & _ & _ & Hu).
  destruct (state_at_cache j ltac:(lia)) as [[Ht _] _].
  rewrite (NonceCache.Use_live _ _ _ _ now) in Hu; [done|by rewrite <-Hn|by rewrite Ht].
Qed.
End replay.

(** A crowd takes as many events. *)
Lemma crowded_long es r m : crowded es r m -> maxNonces <= Z.of_nat m.
Proof.
  intros (ord & now & req & ks & _ & Hnd & Hlen & Hks).
  assert (Hsub : ks ⊆+ omap (fun e => match e with Registered _ _ q => Some (rr_Nonce q) | _ => None end) (take m es)).
  { apply NoDup_submseteq; [done|]. intros k (i & now' & Hi & _ & ord' & req' & _ & _ & He & <- & _)%Hks.
    apply list_elem_of_omap. exists (Registered ord' now' req'). split; [|done].
    apply (list_elem_of_lookup_2 _ i). by rewrite lookup_take_lt. }
  apply submseteq_length in Hsub.
  assert (forall l : list reg_event, length (omap (fun e => match e with Registered _ _ q => Some (rr_Nonce q) | _ => None end) l)
            <= length l)%nat as Hom.
  { induction l as [|x l IH]; [done|]. cbn [omap list_omap]. destruct x; simpl in *; lia. }
  specialize (Hom (take m es)). rewrite length_take in Hom. unfold Zlen in Hlen. lia.
Qed.

Lemma accepted_in_date es r i now req :
  accepted_at es r i now req -> exists ts, ParseTimestamp (rr_Timestamp req) = Some ts /\
    now - ts <= 2 * minute /\ ts - now <= 2 * minute.
Proof.
  intros (ord & p & _ & Hok)%accepted_at_state.
  by destruct (Register_uses _ _ _ _ _ Hok) as (? & ? & (_ & _ & ? & _) & _).
Qed.

(** C2: a signed registration is accepted a second time only if, between the
    two, the nonce cache overflowed with signed registrations: whatever the
    distance in time and across any configuration reloads, of two accepted
    requests with one nonce the timestamps differ, unless some registration
    between them was preceded, within five minutes, by registrations that
    registered keys had signed with [maxNonces] (4096) different nonces.  The
    clock window of a request and the lifetime of its nonce overlap; the
    cache drops its oldest entry only when that many others are still alive. *)
Theorem Register_accepts_once regs lim t0 es i j now now' req req'
    (H : reg_clock t0 es) (Hij : (i < j)%nat)
    (Hi : accepted_at es (NewRegistry regs lim) i now req)
    (Hj : accepted_at es (NewRegistry regs lim) j now' req') :
  rr_Nonce req = rr_Nonce req' ->
  rr_Timestamp req <> rr_Timestamp req' \/
  exists m, (i < m < j)%nat /\ crowded es (NewRegistry regs lim) m.
Proof.
  intros Hn.
  destruct (accepted_spaced t0 es (NewRegistry regs lim) H (conj eq_refl eq_refl) eq_refl
              i j now now' req req' Hij Hi Hj Hn) as [Hfar|Hc]; [left|by right].
  intros Hts. destruct (accepted_in_date _ _ _ _ _ Hi) as (ts & Hp & ? & ?).
  destruct (accepted_in_date _ _ _ _ _ Hj) as (ts' & Hp' & ? & ?).
  rewrite Hts, Hp' in Hp. simplify_eq. unfold minute, second in *. lia.
Qed.

(** ** Control connections *)

Definition live_agent (r : Registry) (name : string) : option Agent := tenants r !! name ≫= agent.

Lemma ReplaceRegistrations_live ord regs r name :
  live_agent (ReplaceRegistrations ord regs r).2 name =
    match live_agent r name with
    | Some a => if decide (fp_by_name regs !! name = Some (ag_Fingerprint a)) then Some a else None
    | None => None
    end.
Proof.
  unfold live_agent. simpl. rewrite map_lookup_imap.
  destruct (tenants r !! name) as [t|]; simpl; [|done]. unfold evicted.
  destruct (agent t) as [a|] eqn:Ea; [|by rewrite Ea].
  destruct (fp_by_name regs !! name) as [fp|]; [|done].
  destruct (fp =? ag_Fingerprint a)%string eqn:E; bool_to_prop.
  - subst. by rewrite decide_True, Ea.
  - rewrite decide_False; [done|]. congruence.
Qed.

Lemma elem_of_evicted ord regs r a (H : ranges ord) :
  a ∈ (ReplaceRegistrations ord regs r).1 <->
  exists name, live_agent r name = Some a /\ fp_by_name regs !! name <> Some (ag_Fingerprint a).
Proof.
  simpl. rewrite list_elem_of_omap.
  assert (forall t name, evicted (fp_by_name regs) name t = Some a <->
    agent t = Some a /\ fp_by_name regs !! name <> Some (ag_Fingerprint a)) as Hev.
  { intros t name. unfold evicted. destruct (agent t) as [b|]; [|naive_solver].
    destruct (fp_by_name regs !! name) as [fp|]; [|naive_solver].
    destruct (fp =? ag_Fingerprint b)%string eqn:E; bool_to_prop; naive_solver. }
  unfold live_agent. split.
  - intros (name & _ & Ht). destruct (tenants r !! name) as [t|] eqn:E; [|done].
    simpl in Ht. apply Hev in Ht. exists name. by rewrite E.
  - intros (name & Ht & Hne). destruct (tenants r !! name) as [t|] eqn:E; [|done]. simpl in Ht.
    exists name. rewrite elem_of_ranges by done. rewrite E. split; [eauto|]. by apply Hev.
Qed.

Lemma RegisterAgent_live name a r name' :
  live_agent (RegisterAgent name a r).2 name' =
    if decide (name = name') then Some a else live_agent r name'.
Proof. unfold live_agent. simpl. rewrite lookup_insert. by case_decide. Qed.

Lemma RegisterAgent_closes name a r : (RegisterAgent name a r).1 = live_agent r name.
Proof. unfold live_agent. simpl. by destruct (tenants r !! name). Qed.

Lemma DeregisterAgent_live name a r name' :
  live_agent (DeregisterAgent name a r) name' =
    match live_agent r name' with
    | Some b => if bool_decide (name = name') && (ag_ref b =? ag_ref a) then None else Some b
    | None => None
    end.
Proof.
  unfold live_agent, DeregisterAgent. destruct (decide (name = name')) as [->|Hne].
  - rewrite bool_decide_true by done. destruct (tenants r !! name') as [t|] eqn:E; simpl;
      [|by rewrite E]. destruct (agent t) as [b|] eqn:Eb; simpl; [|by rewrite E].
    destruct (ag_ref b =? ag_ref a); simpl; [by rewrite lookup_insert_eq|].
    by rewrite E.
  - rewrite bool_decide_false by done. simpl.
    assert (tenants (match tenants r !! name with
      | Some t => match agent t with
        | Some b => if ag_ref b =? ag_ref a
                    then set_tenants (<[name := with_agent None t]>) r else r
        | None => r end
      | None => r end) !! name' = tenants r !! name') as ->.
    { repeat case_match; simpl; by rewrite ?lookup_insert_ne. }
    by destruct (tenants r !! name' ≫= agent).
Qed.

(** a reload closes exactly the agents whose name is gone from the
    configuration or is bound to another key, clears their slots, and leaves
    every other control connection live. *)
Theorem ReplaceRegistrations_evicts ord regs r (H : ranges ord) :
  (forall name a, live_agent (ReplaceRegistrations ord regs r).2 name = Some a <->
     live_agent r name = Some a /\ fp_by_name regs !! name = Some (ag_Fingerprint a)) /\
  (forall a, a ∈ (ReplaceRegistrations ord regs r).1 <->
     exists name, live_agent r name = Some a /\
       fp_by_name regs !! name <> Some (ag_Fingerprint a)).
Proof.
  split; [|intros a; by apply elem_of_evicted]. intros name a.
  rewrite ReplaceRegistrations_live. destruct (live_agent r name) as [b|]; [|naive_solver].
  case_decide; naive_solver.
Qed.

(** A trace of agents coming, going and being reloaded, with the agents the
    registry closes. *)
Inductive agent_event : Type :=
  | Bound (name : string) (a : Agent)
  | Unbound (name : string) (a : Agent)
  | Swapped (ord : gmap string tenantState -> list string) (regs : list Registration).

Definition agent_step (st : list Agent * Registry) (e : agent_event) : list Agent * Registry :=
  let '(closed, r) := st in
  match e with
  | Bound name a =>
      let '(old, r) := RegisterAgent name a r in
      (match old with Some b => b :: closed | None => closed end, r)
  | Unbound name a => (closed, DeregisterAgent name a r)
  | Swapped ord regs => let '(ev, r) := ReplaceRegistrations ord regs r in (ev ++ closed, r)
  end.

Definition fair_event (e : agent_event) : Prop :=
  match e with Swapped ord _ => ranges ord | _ => True end.

Definition accounted (es : list agent_event) (st : list Agent * Registry) : Prop :=
  forall name a, Bound name a ∈ es ->
    live_agent st.2 name = Some a \/ a ∈ st.1 \/
    exists b, Unbound name b ∈ es /\ ag_ref b = ag_ref a.

Lemma agent_step_accounted es st e :
  fair_event e -> accounted es st -> accounted (es ++ [e]) (agent_step st e).
Proof.
  destruct st as [closed r]. intros Hfair Hacc name a [Hin|Hin]%elem_of_app.
  - destruct (Hacc name a Hin) as [Hl|[Hc|(b & Hb & Hr)]]; cbn [fst snd] in *.
    2:{ right; left. destruct e; simpl; [destruct (tenants r !! _ ); simpl; repeat case_match|..];
        set_solver. }
    2:{ right; right. exists b. split; [|done]. apply elem_of_app. by left. }
    destruct e as [name' a'|name' a'|ord regs].
    + pose proof (RegisterAgent_live name' a' r name) as Hl'.
      pose proof (RegisterAgent_closes name' a' r) as Hcl.
      cbn [agent_step]. destruct (RegisterAgent name' a' r) as [old r']. cbn [fst snd] in *.
      rewrite Hl'. case_decide as Hn; [|by left].
      right; left. subst. rewrite Hl. left.
    + cbn [agent_step]. simpl. rewrite DeregisterAgent_live, Hl.
      destruct (bool_decide (name' = name) && (ag_ref a =? ag_ref a')) eqn:E; [|by left].
      bool_to_prop. subst. right; right. exists a'. split; [|done]. set_solver.
    + pose proof (elem_of_evicted ord regs r a Hfair) as Hev.
      pose proof (ReplaceRegistrations_live ord regs r name) as Hl'.
      cbn [agent_step]. destruct (ReplaceRegistrations ord regs r) as [ev r']. cbn [fst snd] in *.
      rewrite Hl, Hl' in *. case_decide as Hfp; [by left|]. right; left.
      apply elem_of_app. left. apply Hev. eauto.
  - apply list_elem_of_singleton in Hin as <-. left. cbn [agent_step].
    pose proof (RegisterAgent_live name a r name) as Hl. rewrite decide_True in Hl by done.
    by destruct (RegisterAgent name a r).
Qed.

(** no control connection is lost: every agent ever bound to a name is
    the live one, was closed by the registry when a newer agent or a reload
    displaced it, or was deregistered by its own handler. *)
Theorem agents_accounted regs lim es (H : Forall fair_event es) :
  accounted es (foldl agent_step ([], NewRegistry regs lim) es).
Proof.
  induction es as [|e es IH] using rev_ind; [intros name a Hin; by apply elem_of_nil in Hin|].
  apply Forall_app in H as [H He]. inversion_clear He.
  rewrite foldl_snoc.
  apply agent_step_accounted; [done|by apply IH].
Qed.

(** The last agent bound to a name is live until it is displaced: a late
    deregistration of an older one does nothing. *)
Lemma DeregisterAgent_stale name a b r :
  live_agent r name = Some b -> ag_ref a <> ag_ref b -> DeregisterAgent name a r = r.
Proof.
  unfold live_agent, DeregisterAgent. intros Hl Hne.
  destruct (tenants r !! name) as [t|]; [|done]. simpl in Hl. rewrite Hl.
  destruct (ag_ref b =? ag_ref a) eqn:E; [|done]. bool_to_prop. congruence.
Qed.
End registry.

(** ** Concrete instances *)
(** A toy signature scheme: a key signs anything with its own name; the
    timestamps are two instants six minutes apart. *)
Definition toy_ssh : SSH := {|
  PublicKey := string;
  ParsePublicString s := if (s =? "")%string then None else Some s;
  Fingerprint k := ("SHA256:" ++ k)%string;
  Verify k _ sig := (sig =? k)%string;
  ParseTimestamp s :=
    if (s =? "t0")%string then Some 0 else if (s =? "t6")%string then Some (6 * minute) else None;
|}.

Definition toy_lim : Limits := {|
  HandshakeTimeout := 10 * second; DialBackTimeout := 10 * second;
  MaxPendingPerServer := 4; MaxConnsPerServer := 8; UDPRelayIdleTimeout := minute;
  MaxUDPRelaySessionsPerServer := 4; MaxRegistrationsPerMinute := 60;
  MaxPendingRegistrations := 16 |}.

Definition toy_site (k : string) : @Registration toy_ssh :=
  {| rg_Name := "site"; rg_PublicKey := (k : @PublicKey toy_ssh); rg_Listen := "" |}.

Definition toy_req (ts sig : string) : RelayRegisterRequest := {|
  rr_Version := Version; rr_PublicKey := "key"; rr_Name := "site"; rr_Timestamp := ts;
  rr_Nonce := "n"; rr_Signature := sig; rr_ServerVersion := ""; rr_Capabilities := [];
  rr_RequiredCapabilities := []; rr_SocksTargets := [] |}.

Definition toy_trace : list (@reg_event toy_ssh) :=
  [Registered map_keys 0 (toy_req "t0" "key"); Registered map_keys 1 (toy_req "t0" "key");
   Reloaded map_keys [toy_site "key"]; Registered map_keys (6 * minute) (toy_req "t6" "key")].

(** The replay one nanosecond later is refused; the fresh request six minutes
    later, under the same nonce, is accepted, and its timestamp differs. *)
Lemma Register_accepts_once_witness : rr_Timestamp (toy_req "t0" "key") <> rr_Timestamp (toy_req "t6" "key").
Proof.
  destruct (@Register_accepts_once toy_ssh [toy_site "key"] toy_lim 0 toy_trace 0 3 0 (6 * minute)
           (toy_req "t0" "key") (toy_req "t6" "key")) as [Hts|(m & Hm & Hc)];
    [..|exact Hts|apply crowded_long in Hc; unfold maxNonces, DefaultMaxNonces in Hc; lia].
  - simpl. split_and!; auto; vm_compute; done.
  - lia.
  - exists map_keys, ("site", "SHA256:key"). split; vm_compute; reflexivity.
  - exists map_keys, ("site", "SHA256:key"). split; vm_compute; reflexivity.
  - reflexivity.
Defined.

Definition toy_agent (n : Z) (k : string) : Agent := {| ag_ref := n; ag_Name := "site"; ag_Fingerprint := k |}.

(** A key rotation evicts the agent bound under the old key. *)
Lemma ReplaceRegistrations_evicts_witness :
  toy_agent 1 "SHA256:old" ∈ (@ReplaceRegistrations toy_ssh map_keys [toy_site "new"]
    (RegisterAgent "site" (toy_agent 1 "SHA256:old") (NewRegistry [toy_site "old"] toy_lim)).2).1.
Proof.
  apply (proj2 (@ReplaceRegistrations_evicts toy_ssh map_keys [toy_site "new"]
    (RegisterAgent "site" (toy_agent 1 "SHA256:old") (NewRegistry [toy_site "old"] toy_lim)).2
    ranges_map_keys)).
  exists "site"%string. split; [vm_compute; reflexivity|vm_compute; discriminate].
Defined.

Lemma agents_accounted_witness :
  let es := [Bound "site" (toy_agent 1 "SHA256:old"); Bound "site" (toy_agent 2 "SHA256:old");
             Unbound "site" (toy_agent 1 "SHA256:old"); Swapped map_keys [toy_site "new"]] in
  accounted es (foldl agent_step ([], @NewRegistry toy_ssh [toy_site "old"] toy_lim) es).
Proof.
  apply (@agents_accounted toy_ssh). repeat constructor; simpl; auto.
Defined.
