(* ===== verification/RegistrySteps.v ===== *)
(** [pkg/relay/registry.go] with its concurrency: the calls of [Open] and
    [OpenSNI], whose critical sections interleave with the agents listener's
    [handleData] ([pkg/relay/agent.go]), as a labelled transition system.

    A step is one critical section of [Registry.mu], one channel operation or
    one external event (a push that fails, a timer, a dial that returns).
    [step] is a function of the label, so traces execute; [reachable] is the
    set of states some trace leads to. *)
From S2P Require Import Prelude Bytes Protocol AuthLimit Registry.

Section steps.
Context {ssh : SSH}.

(** The two channels of a pending connection: [ch] has one buffer slot,
    [done] carries no value. *)
Record chan := { ch_buf : option Z; ch_done : bool }.

(** Where a call of [Open] is.  [ToCancel], [ToDrain] and [ToClose] are the
    three statements of its timeout and cancellation branches. *)
Inductive open_phase : Type :=
  | Pushing (a : Agent)
  | PushFailed
  | Waiting
  | GotConn (conn : Z)
  | ToCancel (e : open_error)
  | ToDrain (e : open_error)
  | ToClose (e : open_error)
  | Opened (conn : Z)
  | Failed (e : open_error)
  | Released (conn : Z).

Record open_call := { oc_name : string; oc_id : string; oc_phase : open_phase }.

(** Where a call of [handleData] is, with the connection it accepted. *)
Inductive handler_phase : Type :=
  | Redeemed
  | Accepted (conn : Z)
  | Checked (conn : Z)
  | Serving (conn : Z)
  | Rejected
  | Gone (conn : Z).

Record handler := { hd_id : string; hd_phase : handler_phase }.

(** Where a dial of a discovered Service is, with the usage record whose
    address it keeps. *)
Inductive dial_phase : Type := Dialing | Connected | DialOver.
Record dial := { dl_key : string; dl_usage : Z; dl_phase : dial_phase }.

Record sys := mkSys {
  reg : Registry;
  chans : gmap string chan;
  opens : gmap nat open_call;
  handlers : gmap nat handler;
  dials : gmap nat dial;
  closed : gset Z;
}.

Inductive label : Type :=
  | LBind (name : string) (a : Agent)
  | LUnbind (name : string) (a : Agent)
  | LReload (ord : gmap string tenantState -> list string) (regs : list Registration)
  | LOpen (t : nat) (now : Z) (name : string) (connID : option string)
  | LPush (t : nat) (ok : bool)
  | LPushCancel (t : nat)
  | LReceive (t : nat)
  | LAccount (t : nat)
  | LGiveUp (t : nat) (e : open_error)
  | LCancel (t : nat)
  | LDrain (t : nat)
  | LCloseDone (t : nat)
  | LRelease (t : nat)
  | LRedeem (h : nat) (now : Z) (connID : string)
  | LAccept (h : nat) (conn : option Z)
  | LCheckDone (h : nat)
  | LDeliver (h : nat)
  | LDeliverDone (h : nat)
  | LDial (d : nat) (fresh : Z) (ep : ServerEndpoint)
  | LDialed (d : nat) (ok : bool)
  | LDialRelease (d : nat).

Definition with_reg (r : Registry) (s : sys) : sys :=
  mkSys r (chans s) (opens s) (handlers s) (dials s) (closed s).
Definition set_open (t : nat) (o : open_call) (s : sys) : sys :=
  mkSys (reg s) (chans s) (<[t := o]> (opens s)) (handlers s) (dials s) (closed s).
Definition set_handler (h : nat) (x : handler) (s : sys) : sys :=
  mkSys (reg s) (chans s) (opens s) (<[h := x]> (handlers s)) (dials s) (closed s).
Definition set_chan (id : string) (c : chan) (s : sys) : sys :=
  mkSys (reg s) (<[id := c]> (chans s)) (opens s) (handlers s) (dials s) (closed s).
Definition set_dial (d : nat) (x : dial) (s : sys) : sys :=
  mkSys (reg s) (chans s) (opens s) (handlers s) (<[d := x]> (dials s)) (closed s).
Definition close_conn (c : Z) (s : sys) : sys :=
  mkSys (reg s) (chans s) (opens s) (handlers s) (dials s) ({[c]} ∪ closed s).

Definition to_phase (p : open_phase) (o : open_call) : open_call :=
  {| oc_name := oc_name o; oc_id := oc_id o; oc_phase := p |}.

(** [Open]: the steps of its call [t]. *)
Definition step_open (l : label) (s : sys) : option sys :=
  match l with
  | LOpen t now name connID =>
      match opens s !! t, connID with
      | None, Some id =>
          (* [crypto/rand]: a minted id is new *)
          if bool_decide (chans s !! id = None) then
            match open_begin now name connID (reg s) with
            | (Ok (id, a), r) =>
                Some (set_open t {| oc_name := name; oc_id := id; oc_phase := Pushing a |}
                       (set_chan id {| ch_buf := None; ch_done := false |} (with_reg r s)))
            | (Err e, r) =>
                Some (set_open t {| oc_name := name; oc_id := ""; oc_phase := Failed e |} (with_reg r s))
            end
          else None
      | None, None =>
          match open_begin now name None (reg s) with
          | (Err e, r) =>
              Some (set_open t {| oc_name := name; oc_id := ""; oc_phase := Failed e |} (with_reg r s))
          | _ => None
          end
      | _, _ => None
      end
  | LPush t ok =>
      match opens s !! t with
      | Some o => match oc_phase o with
                  | Pushing _ => Some (set_open t (to_phase (if ok then Waiting else PushFailed) o) s)
                  | _ => None
                  end
      | None => None
      end
  | LPushCancel t =>
      match opens s !! t with
      | Some o => match oc_phase o with
                  | PushFailed => Some (set_open t (to_phase (Failed ErrPush) o)
                                         (with_reg (cancelPending (oc_id o) (reg s)) s))
                  | _ => None
                  end
      | None => None
      end
  | LReceive t =>
      match opens s !! t with
      | Some o =>
          match oc_phase o, chans s !! oc_id o with
          | Waiting, Some c =>
              match ch_buf c with
              | Some conn => Some (set_open t (to_phase (GotConn conn) o)
                                    (set_chan (oc_id o) {| ch_buf := None; ch_done := ch_done c |} s))
              | None => None
              end
          | _, _ => None
          end
      | None => None
      end
  | LAccount t =>
      match opens s !! t with
      | Some o => match oc_phase o with
                  | GotConn conn => Some (set_open t (to_phase (Opened conn) o)
                                           (with_reg (open_live (oc_name o) (reg s)) s))
                  | _ => None
                  end
      | None => None
      end
  | LGiveUp t e =>
      match opens s !! t with
      | Some o => match oc_phase o with
                  | Waiting => Some (set_open t (to_phase (ToCancel e) o) s)
                  | _ => None
                  end
      | None => None
      end
  | LCancel t =>
      match opens s !! t with
      | Some o => match oc_phase o with
                  | ToCancel e => Some (set_open t (to_phase (ToDrain e) o)
                                         (with_reg (cancelPending (oc_id o) (reg s)) s))
                  | _ => None
                  end
      | None => None
      end
  | LDrain t =>
      match opens s !! t with
      | Some o =>
          match oc_phase o, chans s !! oc_id o with
          | ToDrain e, Some c =>
              let s := set_open t (to_phase (ToClose e) o) s in
              match ch_buf c with
              | Some conn => Some (close_conn conn
                                    (set_chan (oc_id o) {| ch_buf := None; ch_done := ch_done c |} s))
              | None => Some s
              end
          | _, _ => None
          end
      | None => None
      end
  | LCloseDone t =>
      match opens s !! t with
      | Some o =>
          match oc_phase o, chans s !! oc_id o with
          | ToClose e, Some c =>
              Some (set_open t (to_phase (Failed e) o)
                     (set_chan (oc_id o) {| ch_buf := ch_buf c; ch_done := true |} s))
          | _, _ => None
          end
      | None => None
      end
  (* [dispatch]'s deferred [back.Close] and [Release] *)
  | LRelease t =>
      match opens s !! t with
      | Some o => match oc_phase o with
                  | Opened conn => Some (set_open t (to_phase (Released conn) o)
                                          (close_conn conn (with_reg (Release (oc_name o) (reg s)) s)))
                  | _ => None
                  end
      | None => None
      end
  | _ => None
  end.

(** [handleData]: the steps of its call [h]. *)
Definition step_handler (l : label) (s : sys) : option sys :=
  match l with
  | LRedeem h now connID =>
      match handlers s !! h with
      | None =>
          let '(ok, r) := Redeem now connID (reg s) in
          Some (set_handler h {| hd_id := connID; hd_phase := if ok then Redeemed else Rejected |}
                 (with_reg r s))
      | Some _ => None
      end
  | LAccept h conn =>
      match handlers s !! h with
      | Some x => match hd_phase x with
                  | Redeemed => Some (set_handler h {| hd_id := hd_id x;
                      hd_phase := match conn with Some c => Accepted c | None => Rejected end |} s)
                  | _ => None
                  end
      | None => None
      end
  (* the non-blocking look at [Done] *)
  | LCheckDone h =>
      match handlers s !! h with
      | Some x =>
          match hd_phase x, chans s !! hd_id x with
          | Accepted conn, Some c =>
              if ch_done c
              then Some (close_conn conn (set_handler h {| hd_id := hd_id x; hd_phase := Gone conn |} s))
              else Some (set_handler h {| hd_id := hd_id x; hd_phase := Checked conn |} s)
          | _, _ => None
          end
      | None => None
      end
  (* the two cases of the second [select] *)
  | LDeliver h =>
      match handlers s !! h with
      | Some x =>
          match hd_phase x, chans s !! hd_id x with
          | Checked conn, Some c =>
              match ch_buf c with
              | None => Some (set_handler h {| hd_id := hd_id x; hd_phase := Serving conn |}
                               (set_chan (hd_id x) {| ch_buf := Some conn; ch_done := ch_done c |} s))
              | Some _ => None
              end
          | _, _ => None
          end
      | None => None
      end
  | LDeliverDone h =>
      match handlers s !! h with
      | Some x =>
          match hd_phase x, chans s !! hd_id x with
          | Checked conn, Some c =>
              if ch_done c
              then Some (close_conn conn (set_handler h {| hd_id := hd_id x; hd_phase := Gone conn |} s))
              else None
          | _, _ => None
          end
      | None => None
      end
  | _ => None
  end.

(** [OpenSNI] on a discovered Service, and the [Release] that ends it. *)
Definition step_dial (l : label) (s : sys) : option sys :=
  match l with
  | LDial d fresh ep =>
      match dials s !! d with
      | None =>
          if bool_decide (heap (reg s) !! fresh = None) then
            match dial_begin fresh (usage_key ep) (reg s) with
            | (Ok u, r) =>
                Some (set_dial d {| dl_key := usage_key ep; dl_usage := u; dl_phase := Dialing |}
                       (with_reg r s))
            | (Err _, r) =>
                Some (set_dial d {| dl_key := usage_key ep; dl_usage := fresh; dl_phase := DialOver |}
                       (with_reg r s))
            end
          else None
      | Some _ => None
      end
  | LDialed d ok =>
      match dials s !! d with
      | Some x =>
          match dl_phase x with
          | Dialing =>
              Some (set_dial d {| dl_key := dl_key x; dl_usage := dl_usage x;
                                  dl_phase := if ok then Connected else DialOver |}
                     (with_reg (dial_end (dl_key x) (dl_usage x) ok (reg s)) s))
          | _ => None
          end
      | None => None
      end
  | LDialRelease d =>
      match dials s !! d with
      | Some x =>
          match dl_phase x with
          | Connected =>
              Some (set_dial d {| dl_key := dl_key x; dl_usage := dl_usage x; dl_phase := DialOver |}
                     (with_reg (Release (dl_key x) (reg s)) s))
          | _ => None
          end
      | None => None
      end
  | _ => None
  end.

(** Tenant names are DNS labels ([LoadConfig] checks them), so none of them
    is a discovered Service's usage key. *)
Definition tenant_name (name : string) : bool := negb (String.prefix "kubernetes:" name).

Definition step (l : label) (s : sys) : option sys :=
  match l with
  | LBind name a =>
      if tenant_name name then Some (with_reg (RegisterAgent name a (reg s)).2 s) else None
  | LUnbind name a => Some (with_reg (DeregisterAgent name a (reg s)) s)
  | LReload ord regs => Some (with_reg (ReplaceRegistrations ord regs (reg s)).2 s)
  | LRedeem _ _ _ | LAccept _ _ | LCheckDone _ | LDeliver _ | LDeliverDone _ => step_handler l s
  | LDial _ _ _ | LDialed _ _ | LDialRelease _ => step_dial l s
  | _ => step_open l s
  end.

Definition init (regs : list Registration) (lim : Limits) : sys :=
  mkSys (NewRegistry regs lim) ∅ ∅ ∅ ∅ ∅.

Fixpoint run (ls : list label) (s : sys) : option sys :=
  match ls with
  | [] => Some s
  | l :: ls => match step l s with Some s => run ls s | None => None end
  end.

Inductive reachable (regs : list Registration) (lim : Limits) : sys -> Prop :=
  | reach_init : reachable regs lim (init regs lim)
  | reach_step s l s' : reachable regs lim s -> step l s = Some s' -> reachable regs lim s'.

Lemma run_reachable regs lim ls s s' :
  reachable regs lim s -> run ls s = Some s' -> reachable regs lim s'.
Proof.
  revert s. induction ls as [|l ls IH]; simpl; intros s Hs; [by intros [= <-]|].
  destruct (step l s) as [s1|] eqn:E; [|done]. apply IH. by apply (reach_step _ _ s l).
Qed.

(** ** Accounting *)
Definition opened (p : open_phase) : bool := match p with Opened _ => true | _ => false end.
Definition failed (p : open_phase) : bool := match p with Failed _ => true | _ => false end.

Definition pends (name : string) (p : pendingConn) : bool := (pc_name p =? name)%string.
Definition holds (name : string) (o : open_call) : bool :=
  (oc_name o =? name)%string && opened (oc_phase o).

(** A tenant's counters are the sizes of the sets they stand for. *)
Record tenants_ok (r : Registry) (os : gmap nat open_call) (cs : gmap string chan) : Prop := {
  tok_pending : forall name t, tenants r !! name = Some t ->
    pending t = countZ (pends name) (pendings r);
  tok_live : forall name t, tenants r !! name = Some t -> live t = countZ (holds name) os;
  tok_bound : forall name t, tenants r !! name = Some t ->
    pending t <= Z.max 0 (MaxPendingPerServer (limits r));
  tok_name : forall name t, tenants r !! name = Some t -> tenant_name name = true;
  tok_pend : forall id p, pendings r !! id = Some p ->
    is_Some (tenants r !! pc_name p) /\ is_Some (cs !! id);
  tok_open : forall t o, os !! t = Some o -> failed (oc_phase o) = false ->
    is_Some (tenants r !! oc_name o);
}.

(** The rest of the registry does not matter. *)
Lemma tenants_ok_ext r r' os cs :
  tenants r' = tenants r -> pendings r' = pendings r -> limits r' = limits r ->
  tenants_ok r os cs -> tenants_ok r' os cs.
Proof. intros Ht Hp Hl []. constructor; rewrite ?Ht, ?Hp, ?Hl; done. Qed.

Lemma tenants_ok_chan r os cs id c : tenants_ok r os cs -> tenants_ok r os (<[id := c]> cs).
Proof.
  intros []. constructor; try done. intros id' p Hp. destruct (tok_pend0 id' p Hp). split; [done|].
  rewrite lookup_insert. case_decide; [by eexists|done].
Qed.

Lemma tenants_ok_phase r os cs t o p :
  tenants_ok r os cs -> os !! t = Some o -> opened p = opened (oc_phase o) ->
  failed (oc_phase o) = false -> tenants_ok r (<[t := to_phase p o]> os) cs.
Proof.
  intros [] Ho Hp Hf. constructor; try done.
  - intros name x Hx. rewrite (countZ_upd _ _ _ o) by done. unfold holds at 2 3. simpl.
    rewrite Hp, (tok_live0 name x Hx). lia.
  - intros t' o'. rewrite lookup_insert. case_decide; [intros [= <-] _; simpl; eauto|eauto].
Qed.

(** The tables of tenants after an update of one tenant's counters. *)
Lemma tenants_ok_set r os cs os' cs' name t t' ps :
  tenants_ok r os cs -> tenants r !! name = Some t ->
  pending t' = countZ (pends name) ps -> live t' = countZ (holds name) os' ->
  pending t' <= Z.max 0 (MaxPendingPerServer (limits r)) ->
  (forall name', name' <> name -> countZ (pends name') ps = countZ (pends name') (pendings r)) ->
  (forall name', name' <> name -> countZ (holds name') os' = countZ (holds name') os) ->
  (forall id p, ps !! id = Some p -> is_Some (tenants r !! pc_name p) /\ is_Some (cs' !! id)) ->
  (forall i o, os' !! i = Some o -> failed (oc_phase o) = false -> is_Some (tenants r !! oc_name o)) ->
  tenants_ok (set_tenants (<[name := t']>) (set_pendings (fun _ => ps) r)) os' cs'.
Proof.
  intros [] Ht Hp Hl Hb Hp' Hl' Hps Hos.
  assert (forall n, is_Some (tenants r !! n) -> is_Some (<[name := t']> (tenants r) !! n)) as Hsome.
  { intros n Hn. rewrite lookup_insert. case_decide; [by eexists|done]. }
  constructor; simpl; try (intros n x; rewrite lookup_insert; case_decide;
    [intros [= <-]; subst; try done; by apply (tok_name0 _ t)|intros Hx]); [| | | | |].
  - rewrite Hp' by done. auto.
  - rewrite Hl' by done. auto.
  - by apply (tok_bound0 n).
  - by apply (tok_name0 n x).
  - intros id p Hin. destruct (Hps id p Hin). auto.
  - intros i o Hi Hf. eauto.
Qed.

Lemma pends_ne name name' p : pc_name p = name -> name' <> name -> pends name' p = false.
Proof. intros <- ?. unfold pends. apply String.eqb_neq. congruence. Qed.

Lemma holds_ne name name' o : oc_name o = name -> name' <> name -> holds name' o = false.
Proof.
  intros <- ?. unfold holds. rewrite (proj2 (String.eqb_neq _ _)) by congruence. done.
Qed.

Lemma pends_eq p : pends (pc_name p) p = true.
Proof. apply String.eqb_refl. Qed.

Lemma tenants_ok_cancel r os cs id : tenants_ok r os cs -> tenants_ok (cancelPending id r) os cs.
Proof.
  intros H. unfold cancelPending. destruct (pendings r !! id) as [p|] eqn:Ep; [|done].
  destruct H as [Hp Hl Hb Hn Hpe Ho] eqn:E. clear E. destruct (Hpe id p Ep) as [[t Ht] Hc].
  cbn [tenants set_pendings]. rewrite Ht.
  pose proof (Hp _ t Ht) as Hpt. pose proof (Hb _ t Ht).
  pose proof (countZ_delete (pends (pc_name p)) _ _ _ Ep) as Hd. rewrite pends_eq in Hd. simpl in Hd.
  apply (tenants_ok_set r os cs os cs (pc_name p) t _ (delete id (pendings r)) H Ht); simpl.
  - lia.
  - auto.
  - lia.
  - intros name' Hne. rewrite (countZ_delete _ _ _ p) by done.
    rewrite (pends_ne (pc_name p)) by done. simpl. lia.
  - done.
  - intros id' p' [_ Hp']%lookup_delete_Some. auto.
  - done.
Qed.

Lemma tenants_ok_begin now name id a r r' t os cs :
  tenants_ok r os cs -> cs !! id = None -> os !! t = None ->
  open_begin now name (Some id) r = (Ok (id, a), r') ->
  tenants_ok r' (<[t := {| oc_name := name; oc_id := id; oc_phase := Pushing a |}]> os)
    (<[id := {| ch_buf := None; ch_done := false |}]> cs).
Proof.
  intros H Hid Ht. unfold open_begin. destruct (tenants r !! name) as [x|] eqn:Ex; [|done].
  destruct (agent x); [|done]. destruct (_ || _) eqn:Ecap; [done|]. intros [= _ <-].
  bool_to_prop. destruct H as [Hp Hl Hb Hn Hpe Ho] eqn:E. clear E.
  assert (pendings r !! id = None) as Hfresh.
  { apply eq_None_not_Some. intros [p Hpid]. destruct (Hpe id p Hpid) as [_ [? ?]]. congruence. }
  pose proof (Hp name x Ex).
  apply (tenants_ok_set r os cs _ _ name x _ (<[id := _]> (pendings r)) H Ex); simpl.
  - rewrite countZ_fresh by done. unfold pends at 1. simpl. rewrite String.eqb_refl. simpl. lia.
  - rewrite countZ_fresh by done. unfold holds at 1. simpl. rewrite andb_false_r. simpl.
    rewrite (Hl name x Ex). lia.
  - lia.
  - intros name' Hne. rewrite countZ_fresh by done. rewrite (pends_ne name) by done. simpl. lia.
  - intros name' Hne. rewrite countZ_fresh by done. rewrite (holds_ne name) by done. simpl. lia.
  - intros id' p. rewrite !lookup_insert. case_decide; [intros [= <-]; simpl; split; by eexists|].
    apply Hpe.
  - intros i o. rewrite lookup_insert. case_decide; [intros [= <-] _; simpl; by eexists|]. apply Ho.
Qed.

Lemma tenants_ok_refused r os cs t name e :
  tenants_ok r os cs -> os !! t = None ->
  tenants_ok r (<[t := {| oc_name := name; oc_id := ""; oc_phase := Failed e |}]> os) cs.
Proof.
  intros [Hp Hl Hb Hn Hpe Ho] Ht. constructor; try done.
  - intros n x Hx. rewrite countZ_fresh by done. unfold holds at 1. simpl.
    rewrite andb_false_r. pose proof (Hl n x Hx). simpl. lia.
  - intros i o. rewrite lookup_insert. case_decide; [by intros [= <-]|]. apply Ho.
Qed.

Lemma tenants_ok_live r os cs t o conn :
  tenants_ok r os cs -> os !! t = Some o -> oc_phase o = GotConn conn ->
  tenants_ok (open_live (oc_name o) r) (<[t := to_phase (Opened conn) o]> os) cs.
Proof.
  intros H Hto Hph. destruct H as [Hp Hl Hb Hn Hpe Ho] eqn:E. clear E.
  destruct (Ho t o Hto) as [x Hx]; [by rewrite Hph|]. unfold open_live. rewrite Hx.
  assert (forall name, countZ (holds name) (<[t := to_phase (Opened conn) o]> os) =
    countZ (holds name) os + Z.b2z (oc_name o =? name)%string) as Hcnt.
  { intros name. rewrite (countZ_upd _ _ _ o) by done. unfold holds at 2 3. simpl.
    rewrite Hph. simpl. rewrite andb_true_r, andb_false_r. simpl. lia. }
  apply (tenants_ok_set r os cs _ cs (oc_name o) x _ (pendings r) H Hx); simpl; auto.
  - rewrite Hcnt, String.eqb_refl, (Hl _ x Hx). done.
  - by apply (Hb (oc_name o)).
  - intros name' Hne. rewrite Hcnt, (proj2 (String.eqb_neq _ _)) by congruence. simpl. lia.
  - intros i o'. rewrite lookup_insert. case_decide; [intros [= <-] _; simpl; by eexists|]. apply Ho.
Qed.

(** The agents of the tenants do not matter to the accounts. *)
Lemma tenants_ok_agents r os cs (f : string -> tenantState -> tenantState) :
  (forall n t, pending (f n t) = pending t) -> (forall n t, live (f n t) = live t) ->
  tenants_ok r os cs ->
  tenants_ok (set_tenants (map_imap (fun n t => Some (f n t))) r) os cs.
Proof.
  intros Hfp Hfl [Hp Hl Hb Hn Hpe Ho].
  assert (forall n t, map_imap (fun n t => Some (f n t)) (tenants r) !! n = Some t ->
    exists t0, tenants r !! n = Some t0 /\ pending t = pending t0 /\ live t = live t0) as Hinv.
  { intros n t. rewrite map_lookup_imap. destruct (tenants r !! n) as [t0|]; [|done].
    simpl. intros [= <-]. by exists t0. }
  assert (forall n, is_Some (tenants r !! n) ->
    is_Some (map_imap (fun n t => Some (f n t)) (tenants r) !! n)) as Hsome.
  { intros n [t Ht]. rewrite map_lookup_imap, Ht. by eexists. }
  constructor; simpl; [intros n t (t0 & Ht & Hpt & Hlt)%Hinv..| |].
  - rewrite Hpt. auto.
  - rewrite Hlt. auto.
  - rewrite Hpt. by apply (Hb n).
  - by apply (Hn n t0).
  - intros id p Hid. destruct (Hpe id p Hid). auto.
  - eauto.
Qed.

Lemma tenants_ok_update r os cs name t t' :
  tenants r !! name = Some t -> pending t' = pending t -> live t' = live t ->
  tenants_ok r os cs -> tenants_ok (set_tenants (<[name := t']>) r) os cs.
Proof.
  intros Ht Hp Hl H. destruct H as [Hp' Hl' Hb Hn Hpe Ho] eqn:E. clear E.
  apply (tenants_ok_set r os cs os cs name t t' (pendings r) H Ht); auto.
  - rewrite Hp. auto.
  - rewrite Hl. auto.
  - rewrite Hp. by apply (Hb name).
Qed.

Lemma tenants_ok_bind r os cs name a :
  tenant_name name = true -> tenants_ok r os cs -> tenants_ok (RegisterAgent name a r).2 os cs.
Proof.
  intros Hname H. unfold RegisterAgent. simpl.
  destruct (tenants r !! name) as [t|] eqn:Et; simpl; [by apply (tenants_ok_update r os cs name t)|].
  destruct H as [Hp Hl Hb Hn Hpe Ho].
  assert (forall n, is_Some (tenants r !! n) ->
    is_Some (<[name := with_agent (Some a) new_tenant]> (tenants r) !! n)) as Hsome.
  { intros n Hs. rewrite lookup_insert. case_decide; [by eexists|done]. }
  constructor; simpl; try (intros n x; rewrite lookup_insert; case_decide;
    [intros [= <-]; subst; simpl; try (done || lia)|intros Hx; by eauto]).
  - symmetry. apply countZ_zero. intros id p Hid. apply String.eqb_neq. intros <-.
    destruct (Hpe id p Hid) as [[? ?] _]. congruence.
  - symmetry. apply countZ_zero. intros i o Hi. unfold holds.
    destruct (oc_name o =? n)%string eqn:En; [|done]. bool_to_prop. subst.
    destruct (failed (oc_phase o)) eqn:Ef; [by destruct (oc_phase o)|].
    destruct (Ho i o Hi Ef) as [? ?]. congruence.
  - intros id p Hid. destruct (Hpe id p Hid). auto.
  - eauto.
Qed.

Lemma tenants_ok_unbind r os cs name a :
  tenants_ok r os cs -> tenants_ok (DeregisterAgent name a r) os cs.
Proof.
  intros H. unfold DeregisterAgent. destruct (tenants r !! name) as [t|] eqn:Et; [|done].
  destruct (agent t); [|done]. destruct (_ =? _); [|done]. by apply (tenants_ok_update r os cs name t).
Qed.

Lemma tenants_ok_reload r os cs ord regs :
  tenants_ok r os cs -> tenants_ok (ReplaceRegistrations ord regs r).2 os cs.
Proof.
  intros H. eapply tenants_ok_ext; [| | |apply (tenants_ok_agents r os cs
    (fun n t => match evicted (fp_by_name regs) n t with Some _ => with_agent None t | None => t end))];
    [done..| | |].
  - intros n t. by destruct (evicted _ n t).
  - intros n t. by destruct (evicted _ n t).
  - done.
Qed.

Lemma tenants_ok_release r os cs t o conn :
  tenants_ok r os cs -> os !! t = Some o -> oc_phase o = Opened conn ->
  (forall key u, discoveredUsage r !! key = Some u -> tenant_name key = false) ->
  tenants_ok (Release (oc_name o) r) (<[t := to_phase (Released conn) o]> os) cs.
Proof.
  intros H Hto Hph Hdu. destruct H as [Hp Hl Hb Hn Hpe Ho] eqn:E. clear E.
  destruct (Ho t o Hto) as [x Hx]; [by rewrite Hph|].
  unfold Release. destruct (discoveredUsage r !! oc_name o) as [u|] eqn:Eu.
  { apply Hdu in Eu. apply Hn in Hx. congruence. }
  rewrite Hx.
  assert (forall name, countZ (holds name) (<[t := to_phase (Released conn) o]> os) =
    countZ (holds name) os - Z.b2z (oc_name o =? name)%string) as Hcnt.
  { intros name. rewrite (countZ_upd _ _ _ o) by done. unfold holds at 2 3. simpl.
    rewrite Hph. simpl. rewrite andb_true_r, andb_false_r. simpl. lia. }
  assert (0 < live x) as Hpos.
  { rewrite (Hl _ x Hx). apply (countZ_pos _ os t o); [done|]. unfold holds.
    rewrite Hph, String.eqb_refl. done. }
  rewrite (proj2 (Z.ltb_lt _ _)) by done.
  apply (tenants_ok_set r os cs _ cs (oc_name o) x _ (pendings r) H Hx); simpl; auto.
  - rewrite Hcnt, String.eqb_refl, (Hl _ x Hx). simpl. lia.
  - by apply (Hb (oc_name o)).
  - intros name' Hne. rewrite Hcnt, (proj2 (String.eqb_neq _ _)) by congruence. simpl. lia.
  - intros i o'. rewrite lookup_insert. case_decide; [intros [= <-] _; simpl; by eexists|]. apply Ho.
Qed.

(** ** Discovered services *)
Definition dialing (key : string) (x : dial) : bool :=
  (dl_key x =? key)%string && match dl_phase x with Dialing => true | _ => false end.
Definition connected (key : string) (x : dial) : bool :=
  (dl_key x =? key)%string && match dl_phase x with Connected => true | _ => false end.
Definition active (x : dial) : bool := match dl_phase x with DialOver => false | _ => true end.

(** The counters of a usage record are right, and within the limits. *)
Definition usage_ok (lim : Limits) (ds : gmap nat dial) (key : string) (t : tenantState) : Prop :=
  pending t = countZ (dialing key) ds /\ live t = countZ (connected key) ds /\
  0 < pending t + live t /\
  (0 < MaxPendingPerServer lim -> pending t <= MaxPendingPerServer lim) /\
  (0 < MaxConnsPerServer lim -> pending t + live t <= MaxConnsPerServer lim).

Record dials_ok (r : Registry) (ds : gmap nat dial) : Prop := {
  dok_usage : forall key u, discoveredUsage r !! key = Some u ->
    tenant_name key = false /\
    exists t, heap r !! u = Some t /\ usage_ok (limits r) ds key t;
  dok_inj : forall key key' u, discoveredUsage r !! key = Some u ->
    discoveredUsage r !! key' = Some u -> key = key';
  dok_dial : forall d x, ds !! d = Some x -> active x = true ->
    discoveredUsage r !! dl_key x = Some (dl_usage x);
}.

Definition same_counts (key : string) (ds ds' : gmap nat dial) : Prop :=
  forall key', key' <> key ->
    countZ (dialing key') ds' = countZ (dialing key') ds /\
    countZ (connected key') ds' = countZ (connected key') ds.

Lemma usage_ok_same lim key key' ds ds' t :
  same_counts key ds ds' -> key' <> key -> usage_ok lim ds key' t -> usage_ok lim ds' key' t.
Proof. intros Hs Hne. unfold usage_ok. by destruct (Hs key' Hne) as [-> ->]. Qed.

(** A record is filed, or updated, under its key. *)
Lemma dials_ok_set r ds ds' key u t :
  dials_ok r ds -> same_counts key ds ds' -> tenant_name key = false ->
  usage_ok (limits r) ds' key t ->
  discoveredUsage r !! key = Some u \/ discoveredUsage r !! key = None /\ heap r !! u = None ->
  (forall d x, ds' !! d = Some x -> active x = true ->
     dl_key x = key /\ dl_usage x = u \/ dl_key x <> key /\ ds !! d = Some x) ->
  dials_ok (set_usage (<[key := u]> (discoveredUsage r)) (<[u := t]> (heap r)) r) ds'.
Proof.
  intros [Hu Hi Hd] Hs Hn Ht Hkey Hds.
  assert (forall key', key' <> key -> discoveredUsage r !! key' <> Some u) as Hother.
  { intros key' Hne Hk'. destruct Hkey as [Hk|[_ Hh]]; [by apply Hne, (Hi _ _ u)|].
    destruct (Hu _ _ Hk') as (_ & ? & ? & _). congruence. }
  constructor; simpl.
  - intros k v. rewrite lookup_insert. case_decide as Hk; [intros [= <-]; subst|intros Hkv].
    + split; [done|]. exists t. by rewrite lookup_insert_eq.
    + destruct (Hu k v Hkv) as (Hkn & t' & Hh & Ht'). split; [done|]. exists t'.
      rewrite lookup_insert_ne; [|by intros ->; apply (Hother k)].
      split; [done|]. by eapply usage_ok_same.
  - intros k k' v. rewrite !lookup_insert. repeat case_decide; subst; intros Hv Hv'; simplify_eq;
      [done|exfalso; by apply (Hother k')|exfalso; by apply (Hother k)|by apply (Hi _ _ v)].
  - intros d x Hx Ha. destruct (Hds d x Hx Ha) as [[-> ->]|[Hne Hx']]; [apply lookup_insert_eq|].
    rewrite lookup_insert_ne by done. by apply (Hd d).
Qed.

(** A record with nothing left to count is dropped. *)
Lemma dials_ok_drop r ds ds' key u t :
  dials_ok r ds -> same_counts key ds ds' -> discoveredUsage r !! key = Some u ->
  (forall d x, ds' !! d = Some x -> active x = true -> dl_key x <> key /\ ds !! d = Some x) ->
  dials_ok (set_usage (delete key (discoveredUsage r)) (<[u := t]> (heap r)) r) ds'.
Proof.
  intros [Hu Hi Hd] Hs Hkey Hds. constructor; simpl.
  - intros k v [Hk Hkv]%lookup_delete_Some.
    destruct (Hu k v Hkv) as (Hkn & t' & Hh & Ht'). split; [done|]. exists t'.
    rewrite lookup_insert_ne; [|intros ->; by apply Hk, (Hi _ _ v)].
    split; [done|]. eapply usage_ok_same; [done|by intros ->|done].
  - intros k k' v [_ Hv]%lookup_delete_Some [_ Hv']%lookup_delete_Some. by apply (Hi _ _ v).
  - intros d x Hx Ha. destruct (Hds d x Hx Ha) as [Hne Hx'].
    rewrite lookup_delete_ne by done. by apply (Hd d).
Qed.

Definition phase_counts (p : dial_phase) : Z * Z :=
  match p with Dialing => (1, 0) | Connected => (0, 1) | DialOver => (0, 0) end.

(** What moving a dial to another phase does to the counts of every key. *)
Lemma counts_phase (ds : gmap nat dial) d x p key :
  ds !! d = Some x ->
  let x' := {| dl_key := dl_key x; dl_usage := dl_usage x; dl_phase := p |} in
  let k := if (dl_key x =? key)%string then 1 else 0 in
  countZ (dialing key) (<[d := x']> ds) =
    countZ (dialing key) ds + k * ((phase_counts p).1 - (phase_counts (dl_phase x)).1) /\
  countZ (connected key) (<[d := x']> ds) =
    countZ (connected key) ds + k * ((phase_counts p).2 - (phase_counts (dl_phase x)).2).
Proof.
  intros Hx x' k. rewrite !(countZ_upd _ _ _ x) by done.
  unfold dialing, connected, x', k. simpl.
  destruct (_ =? _)%string; destruct p, (dl_phase x); simpl; lia.
Qed.

Lemma counts_fresh (ds : gmap nat dial) d key u key' :
  ds !! d = None ->
  let x := {| dl_key := key; dl_usage := u; dl_phase := Dialing |} in
  countZ (dialing key') (<[d := x]> ds) =
    countZ (dialing key') ds + (if (key =? key')%string then 1 else 0) /\
  countZ (connected key') (<[d := x]> ds) = countZ (connected key') ds.
Proof.
  intros Hd x. rewrite !countZ_fresh by done. unfold dialing, connected, x. simpl.
  destruct (_ =? _)%string; simpl; lia.
Qed.

Lemma counts_over (ds : gmap nat dial) d key u key' :
  ds !! d = None ->
  let x := {| dl_key := key; dl_usage := u; dl_phase := DialOver |} in
  countZ (dialing key') (<[d := x]> ds) = countZ (dialing key') ds /\
  countZ (connected key') (<[d := x]> ds) = countZ (connected key') ds.
Proof.
  intros Hd x. rewrite !countZ_fresh by done. unfold dialing, connected, x. simpl.
  by rewrite andb_false_r.
Qed.

(** No record, no dials. *)
Lemma no_usage_counts r ds key :
  dials_ok r ds -> discoveredUsage r !! key = None ->
  countZ (dialing key) ds = 0 /\ countZ (connected key) ds = 0.
Proof.
  intros [_ _ Hd] Hk. split; apply countZ_zero; intros d x Hx;
    unfold dialing, connected; destruct (dl_key x =? key)%string eqn:E; try done; bool_to_prop; subst;
    destruct (dl_phase x) eqn:Ep; try done;
    specialize (Hd d x Hx); unfold active in Hd; rewrite Ep in Hd; specialize (Hd eq_refl); congruence.
Qed.

Lemma str_eqb_ne a b : a <> b -> (a =? b)%string = false.
Proof. apply String.eqb_neq. Qed.

Lemma usage_key_prefix ep : tenant_name (usage_key ep) = false.
Proof. unfold tenant_name, usage_key. simpl. by destruct (ep_Hostname ep). Qed.

Lemma dials_ok_begin r ds d fresh ep u r' :
  dials_ok r ds -> ds !! d = None -> heap r !! fresh = None ->
  dial_begin fresh (usage_key ep) r = (Ok u, r') ->
  dials_ok r' (<[d := {| dl_key := usage_key ep; dl_usage := u; dl_phase := Dialing |}]> ds).
Proof.
  intros H Hd Hf Hb. pose proof (counts_fresh ds d (usage_key ep) u) as Hc. cbv zeta in Hc.
  set (ds' := <[d := _]> ds) in *. set (key := usage_key ep) in *.
  assert (same_counts key ds ds') as Hs.
  { intros k Hk. destruct (Hc k Hd) as [-> ->]. rewrite str_eqb_ne by done. lia. }
  assert (forall d0 x, ds' !! d0 = Some x -> active x = true ->
     discoveredUsage r !! key = Some u \/ discoveredUsage r !! key = None ->
     dl_key x = key /\ dl_usage x = u \/ dl_key x <> key /\ ds !! d0 = Some x) as Hds.
  { intros d0 x. unfold ds'. rewrite lookup_insert. case_decide; [intros [= <-]; by left|].
    intros Hx Ha Hk. pose proof (dok_dial r ds H d0 x Hx Ha) as Hu.
    destruct (decide (dl_key x = key)) as [E|]; [|by right]. rewrite E in Hu.
    left. destruct Hk; split; congruence. }
  destruct (Hc key Hd) as [Hcd Hcc]. rewrite String.eqb_refl in Hcd.
  unfold dial_begin in Hb. destruct (discoveredUsage r !! key) as [u'|] eqn:Eu.
  - destruct (dok_usage r ds H key u' Eu) as (_ & t & Ht & Hp & Hl & Hpos & Hmp & Hmc).
    rewrite Ht in Hb. simpl in Hb. destruct (_ || _) eqn:Ecap; [done|]. simplify_eq.
    rewrite <-(insert_id (discoveredUsage r) key u) by done.
    apply (dials_ok_set r ds ds' key u); [done..|by apply usage_key_prefix| |by left|by eauto].
    unfold usage_ok. simpl. apply orb_false_iff in Ecap as [E1 E2].
    apply andb_false_iff in E1, E2. rewrite !Z.ltb_ge, !Z.leb_gt in E1, E2. lia.
  - simpl in Hb. rewrite lookup_insert_eq in Hb. simpl in Hb.
    destruct (_ || _) eqn:Ecap; [done|]. simplify_eq. unfold set_usage. simpl.
    rewrite insert_insert_eq. 
    apply (dials_ok_set r ds ds' key u); [done..|by apply usage_key_prefix| |by right|by eauto].
    destruct (no_usage_counts r ds key H Eu) as [Hz1 Hz2].
    unfold usage_ok. simpl. apply orb_false_iff in Ecap as [E1 E2].
    apply andb_false_iff in E1, E2. rewrite !Z.ltb_ge, !Z.leb_gt in E1, E2. lia.
Qed.

Lemma dial_begin_refused r ds fresh key e r' :
  dials_ok r ds -> heap r !! fresh = None -> dial_begin fresh key r = (Err e, r') -> r' = r.
Proof.
  intros H Hf Hb. unfold dial_begin in Hb. destruct (discoveredUsage r !! key) as [u|] eqn:Eu.
  - destruct (_ || _); [by simplify_eq|done].
  - simpl in Hb. rewrite lookup_insert_eq in Hb. simpl in Hb.
    destruct (_ || _) eqn:Ecap; [|done]. exfalso. bool_to_prop. destruct Ecap as [E|E]; bool_lia.
Qed.

Lemma dials_ok_over r ds d key u :
  dials_ok r ds -> ds !! d = None ->
  dials_ok r (<[d := {| dl_key := key; dl_usage := u; dl_phase := DialOver |}]> ds).
Proof.
  intros [Hu Hi Hdl] Hd. constructor; [|done|].
  - intros k v Hkv. destruct (Hu k v Hkv) as (? & t & ? & Ht). split; [done|]. exists t. split; [done|].
    unfold usage_ok. destruct (counts_over ds d key u k Hd) as [-> ->]. done.
  - intros d0 x. rewrite lookup_insert. case_decide; [by intros [= <-]|]. apply Hdl.
Qed.

(** A dial moves on: its record follows, and is dropped when nothing is left. *)
Lemma dials_ok_move r ds d x p t t' :
  dials_ok r ds -> ds !! d = Some x -> active x = true ->
  heap r !! dl_usage x = Some t ->
  (p = Connected \/ p = DialOver) ->
  pending t' = pending t + (phase_counts p).1 - (phase_counts (dl_phase x)).1 ->
  live t' = live t + (phase_counts p).2 - (phase_counts (dl_phase x)).2 ->
  let ds' := <[d := {| dl_key := dl_key x; dl_usage := dl_usage x; dl_phase := p |}]> ds in
  let h := <[dl_usage x := t']> (heap r) in
  dials_ok (if live t' + pending t' =? 0 then set_usage (delete (dl_key x) (discoveredUsage r)) h r
            else set_usage (discoveredUsage r) h r) ds'.
Proof.
  intros H Hx Ha Ht Hp Hpe Hli ds' h.
  pose proof (dok_dial r ds H d x Hx Ha) as Hu.
  destruct (dok_usage r ds H _ _ Hu) as (Hn & t0 & Ht0 & Hpt & Hlt & Hpos & Hmp & Hmc).
  rewrite Ht in Ht0. simplify_eq.
  pose proof (counts_phase ds d x p) as Hc. cbv zeta in Hc.
  fold ds' in Hc.
  assert (same_counts (dl_key x) ds ds') as Hs.
  { intros k Hk. destruct (Hc k Hx) as [-> ->]. rewrite str_eqb_ne by done. lia. }
  destruct (Hc (dl_key x) Hx) as [Hcd Hcc]. rewrite String.eqb_refl in Hcd, Hcc.
  assert (forall d0 y, ds' !! d0 = Some y -> active y = true ->
    (dl_key y = dl_key x /\ dl_usage y = dl_usage x) \/ dl_key y <> dl_key x /\ ds !! d0 = Some y) as Hds.
  { intros d0 y. unfold ds'. rewrite lookup_insert. case_decide; [intros [= <-]; by left|].
    intros Hy Hay. destruct (decide (dl_key y = dl_key x)) as [E|]; [|by right].
    left. split; [done|]. pose proof (dok_dial r ds H d0 y Hy Hay). congruence. }
  destruct (live t' + pending t' =? 0) eqn:Ez; bool_to_prop.
  - apply (dials_ok_drop r ds); try done. intros d0 y Hy Hay.
    destruct (Hds d0 y Hy Hay) as [[Hk _]|?]; [|done]. exfalso.
    assert (0 < countZ (dialing (dl_key x)) ds' + countZ (connected (dl_key x)) ds') as Hc0; [|lia].
    pose proof (countZ_nonneg (dialing (dl_key x)) ds').
    pose proof (countZ_nonneg (connected (dl_key x)) ds').
    pose proof (countZ_pos (dialing (dl_key x)) ds' d0 y Hy).
    pose proof (countZ_pos (connected (dl_key x)) ds' d0 y Hy).
    unfold dialing, connected, active in *. rewrite Hk, String.eqb_refl in *.
    destruct (dl_phase y); simpl in *; intuition lia.
  - rewrite <-(insert_id (discoveredUsage r) (dl_key x) (dl_usage x)) by done.
    apply (dials_ok_set r ds); auto. unfold usage_ok.
    pose proof (countZ_nonneg (dialing (dl_key x)) ds').
    pose proof (countZ_nonneg (connected (dl_key x)) ds').
    destruct Hp as [-> | ->], (dl_phase x) eqn:Ep; unfold active in Ha; rewrite Ep in Ha;
      simpl in *; try done; split_and!; try lia.
Qed.

(** ** Connection ids and what is delivered under them *)
Definition conn_of (p : open_phase) : option Z :=
  match p with GotConn c | Opened c | Released c => Some c | _ => None end.
Definition rejected (x : handler) : bool :=
  match hd_phase x with Rejected => true | _ => false end.
Definition serving (x : handler) : option Z :=
  match hd_phase x with Serving c => Some c | _ => None end.

(** Some handler redeemed [id] and serves [conn] under it. *)
Definition served (hs : gmap nat handler) (id : string) (conn : Z) : Prop :=
  exists h, hs !! h = Some {| hd_id := id; hd_phase := Serving conn |}.

Record conns_ok (ps : gmap string pendingConn) (cs : gmap string chan)
    (os : gmap nat open_call) (hs : gmap nat handler) : Prop := {
  cok_spent : forall h x, hs !! h = Some x -> rejected x = false ->
    ps !! hd_id x = None /\ is_Some (cs !! hd_id x);
  cok_once : forall h h' x x', hs !! h = Some x -> hs !! h' = Some x' ->
    rejected x = false -> rejected x' = false -> hd_id x = hd_id x' -> h = h';
  cok_buf : forall id c conn, cs !! id = Some c -> ch_buf c = Some conn -> served hs id conn;
  cok_open : forall t o, os !! t = Some o -> failed (oc_phase o) = false -> is_Some (cs !! oc_id o);
  cok_uniq : forall t t' o o', os !! t = Some o -> os !! t' = Some o' ->
    failed (oc_phase o) = false -> failed (oc_phase o') = false -> oc_id o = oc_id o' -> t = t';
  cok_conn : forall t o conn, os !! t = Some o -> conn_of (oc_phase o) = Some conn ->
    served hs (oc_id o) conn;
}.

Lemma conns_ok_pending ps ps' cs os hs :
  (forall id, ps !! id = None -> ps' !! id = None) -> conns_ok ps cs os hs -> conns_ok ps' cs os hs.
Proof.
  intros Hsub [Hs Ho Hb Hop Hu Hc]. constructor; try done.
  intros h x Hx Hr. destruct (Hs h x Hx Hr). auto.
Qed.

Lemma conns_ok_phase ps cs os hs t o p :
  conns_ok ps cs os hs -> os !! t = Some o -> failed (oc_phase o) = false ->
  (forall conn, conn_of p = Some conn -> served hs (oc_id o) conn) ->
  conns_ok ps cs (<[t := to_phase p o]> os) hs.
Proof.
  intros [Hs Ho Hb Hop Hu Hc] Ht Hf Hp. constructor; try done.
  - intros t' o'. rewrite lookup_insert. case_decide; [intros [= <-] _; simpl; eauto|eauto].
  - intros t1 t2 o1 o2. rewrite !lookup_insert. repeat case_decide; subst; try done; [..|eauto];
      intros Ho1 Ho2 Hf1 Hf2 Hid; simplify_eq; eapply Hu; eauto.
  - intros t' o' conn. rewrite lookup_insert. case_decide; [intros [= <-]; simpl; auto|eauto].
Qed.

Lemma conns_ok_chan ps cs os hs id c :
  conns_ok ps cs os hs -> (forall conn, ch_buf c = Some conn -> served hs id conn) ->
  conns_ok ps (<[id := c]> cs) os hs.
Proof.
  intros [Hs Ho Hb Hop Hu Hc] Hbuf.
  assert (forall i, is_Some (cs !! i) -> is_Some (<[id := c]> cs !! i)) as Hsome.
  { intros i Hi. rewrite lookup_insert. case_decide; [by eexists|done]. }
  constructor; try done.
  - intros h x Hx Hr. destruct (Hs h x Hx Hr). auto.
  - intros i c' conn. rewrite lookup_insert. case_decide; [intros [= <-]; subst; auto|eauto].
  - eauto.
Qed.

Lemma conns_ok_handler ps cs os hs h x x' :
  conns_ok ps cs os hs -> hs !! h = Some x -> hd_id x' = hd_id x -> serving x = None ->
  rejected x = false -> conns_ok ps cs os (<[h := x']> hs).
Proof.
  intros [Hs Ho Hb Hop Hu Hc] Hx Hid Hsv Hr.
  assert (forall id conn, served hs id conn -> served (<[h := x']> hs) id conn) as Hserved.
  { intros id conn [h' Hh']. exists h'. rewrite lookup_insert_ne; [done|]. intros ->. by simplify_eq. }
  constructor; try done.
  - intros h' y. rewrite lookup_insert. case_decide; [intros [= <-] _; rewrite Hid; eauto|eauto].
  - intros h1 h2 y1 y2. rewrite !lookup_insert. repeat case_decide; subst; try done; [..|eauto];
      intros H1 H2 Hr1 Hr2 Heq; simplify_eq; eapply Ho; eauto; congruence.
  - eauto.
  - eauto.
Qed.

Lemma conns_ok_begin ps cs os hs t id name a p :
  conns_ok ps cs os hs -> cs !! id = None -> os !! t = None ->
  conns_ok (<[id := p]> ps) (<[id := {| ch_buf := None; ch_done := false |}]> cs)
    (<[t := {| oc_name := name; oc_id := id; oc_phase := Pushing a |}]> os) hs.
Proof.
  intros [Hs Ho Hb Hop Hu Hc] Hid Ht. constructor.
  - intros h x Hx Hr. destruct (Hs h x Hx Hr) as [? [c Hcs]].
    rewrite !lookup_insert_ne by congruence. eauto.
  - done.
  - intros i c conn. rewrite lookup_insert. case_decide; [by intros [= <-]|eauto].
  - intros t' o. rewrite lookup_insert. case_decide.
    + intros [= <-] _. simpl. by rewrite lookup_insert_eq.
    + intros Ho' Hf. destruct (Hop t' o Ho' Hf) as [c Hcs]. rewrite lookup_insert_ne by congruence. eauto.
  - assert (forall t1 o1, os !! t1 = Some o1 -> failed (oc_phase o1) = false -> oc_id o1 <> id) as Hne.
    { intros t1 o1 H1 Hf1 Heq. destruct (Hop t1 o1 H1 Hf1) as [? ?]. congruence. }
    intros t1 t2 o1 o2. rewrite !lookup_insert. repeat case_decide; subst; try done; [..|eauto];
      intros H1 H2 Hf1 Hf2 Heq; simplify_eq; simpl in *; exfalso; eapply Hne; eauto.
  - intros t' o conn. rewrite lookup_insert. case_decide; [by intros [= <-]|eauto].
Qed.

Lemma conns_ok_refused ps cs os hs t name e :
  conns_ok ps cs os hs -> os !! t = None ->
  conns_ok ps cs (<[t := {| oc_name := name; oc_id := ""; oc_phase := Failed e |}]> os) hs.
Proof.
  intros [Hs Ho Hb Hop Hu Hc] Ht. constructor; try done.
  - intros t' o. rewrite lookup_insert. case_decide; [by intros [= <-]|eauto].
  - intros t1 t2 o1 o2. rewrite !lookup_insert.
    repeat case_decide; subst; try done; [by intros [= <-]|by intros ? [= <-]|eauto].
  - intros t' o conn. rewrite lookup_insert. case_decide; [by intros [= <-]|eauto].
Qed.

(** A redemption spends the id, whether or not it comes in time. *)
Lemma conns_ok_redeem ps cs os hs h id ph :
  conns_ok ps cs os hs -> hs !! h = None -> ph = Rejected \/ ph = Redeemed ->
  (ph = Redeemed -> is_Some (ps !! id) /\ is_Some (cs !! id)) ->
  conns_ok (delete id ps) cs os (<[h := {| hd_id := id; hd_phase := ph |}]> hs).
Proof.
  intros [Hs Ho Hb Hop Hu Hc] Hh Hph Hin.
  assert (forall i conn, served hs i conn ->
    served (<[h := {| hd_id := id; hd_phase := ph |}]> hs) i conn) as Hserved.
  { intros i conn [h' Hh']. exists h'. rewrite lookup_insert_ne; [done|]. by intros ->; simplify_eq. }
  constructor; try done.
  - intros h' x. rewrite lookup_insert. case_decide.
    + intros [= <-]. destruct Hph as [->| ->]; [done|]. intros _. simpl.
      rewrite lookup_delete_eq. by destruct Hin.
    + intros Hx Hr. destruct (Hs h' x Hx Hr). rewrite lookup_delete. by case_decide.
  - assert (forall h1 x1, hs !! h1 = Some x1 -> rejected x1 = false -> ph = Redeemed -> hd_id x1 <> id) as Hne.
    { intros h1 x1 H1 Hr1 Hp Hid. destruct (Hs h1 x1 H1 Hr1), (Hin Hp) as [[? ?] _]. congruence. }
    intros h1 h2 x1 x2. rewrite !lookup_insert. repeat case_decide; subst; try done; [..|eauto];
      intros H1 H2 Hr1 Hr2 Heq; simplify_eq; simpl in *; exfalso;
      (destruct Hph as [->| ->]; [done|]); eapply Hne; eauto.
  - eauto.
  - eauto.
Qed.

(** ** The invariant *)
Record sys_ok (lim : Limits) (s : sys) : Prop := {
  sok_tenants : tenants_ok (reg s) (opens s) (chans s);
  sok_dials : dials_ok (reg s) (dials s);
  sok_conns : conns_ok (pendings (reg s)) (chans s) (opens s) (handlers s);
  sok_limits : limits (reg s) = lim;
}.

Lemma dials_ok_ext r r' ds :
  discoveredUsage r' = discoveredUsage r -> heap r' = heap r -> limits r' = limits r ->
  dials_ok r ds -> dials_ok r' ds.
Proof. intros Hu Hh Hl []. constructor; rewrite ?Hu, ?Hh, ?Hl; done. Qed.

(** What an operation on tenants and pending ids leaves alone. *)
Definition frame (r r' : Registry) : Prop :=
  discoveredUsage r' = discoveredUsage r /\ heap r' = heap r /\ limits r' = limits r.

Lemma frame_cancel id r : frame r (cancelPending id r).
Proof. unfold cancelPending, frame. by repeat case_match. Qed.

Lemma frame_begin now name id r : frame r (open_begin now name id r).2.
Proof. unfold open_begin, frame. by repeat case_match. Qed.

Lemma frame_live name r : frame r (open_live name r) /\ pendings (open_live name r) = pendings r.
Proof. unfold open_live, frame. by repeat case_match. Qed.

Lemma cancel_pendings id r : pendings (cancelPending id r) = delete id (pendings r).
Proof.
  unfold cancelPending. destruct (pendings r !! id) eqn:E; [by case_match|].
  by rewrite delete_id.
Qed.

Lemma cancel_spent id id' r : pendings r !! id' = None -> pendings (cancelPending id r) !! id' = None.
Proof. rewrite cancel_pendings. intros H. rewrite lookup_delete. by case_decide. Qed.

(** A call that moves on without touching the registry or the channels. *)
Lemma sys_ok_phase lim s t o p :
  sys_ok lim s -> opens s !! t = Some o -> failed (oc_phase o) = false ->
  opened p = opened (oc_phase o) ->
  (forall conn, conn_of p = Some conn -> served (handlers s) (oc_id o) conn) ->
  sys_ok lim (set_open t (to_phase p o) s).
Proof.
  intros [] Ho Hf Hp Hc. constructor; simpl; [by apply tenants_ok_phase|done| |done].
  by apply conns_ok_phase.
Qed.

Lemma sys_ok_chan lim s id c :
  sys_ok lim s -> (forall conn, ch_buf c = Some conn -> served (handlers s) id conn) ->
  sys_ok lim (set_chan id c s).
Proof.
  intros [] Hc. constructor; simpl; [by apply tenants_ok_chan|done|by apply conns_ok_chan|done].
Qed.

Lemma sys_ok_cancel lim s id : sys_ok lim s -> sys_ok lim (with_reg (cancelPending id (reg s)) s).
Proof.
  intros []. destruct (frame_cancel id (reg s)) as (? & ? & ?).
  constructor; simpl; [by apply tenants_ok_cancel|by apply (dials_ok_ext (reg s))| |congruence].
  eapply conns_ok_pending; [|done]. intros i. apply cancel_spent.
Qed.

Lemma sys_ok_close lim s c : sys_ok lim s -> sys_ok lim (close_conn c s).
Proof. intros []. by constructor. Qed.

Lemma buf_served lim s id c conn :
  sys_ok lim s -> chans s !! id = Some c -> ch_buf c = Some conn -> served (handlers s) id conn.
Proof. intros [_ _ [] _]. eauto. Qed.

Lemma Release_frame name r :
  tenant_name name = true -> (forall key u, discoveredUsage r !! key = Some u -> tenant_name key = false) ->
  frame r (Release name r) /\ pendings (Release name r) = pendings r.
Proof.
  intros Hn Hdu. unfold Release, frame. destruct (discoveredUsage r !! name) as [u|] eqn:E.
  - apply Hdu in E. congruence.
  - by repeat case_match.
Qed.

Lemma step_open_begin_ok lim s t now name connID s' :
  sys_ok lim s -> step_open (LOpen t now name connID) s = Some s' -> sys_ok lim s'.
Proof.
  intros [Ht Hd Hc Hl]. cbn [step_open].
  destruct (opens s !! t) as [o|] eqn:Eo; [by destruct connID|].
  destruct (frame_begin now name connID (reg s)) as (Hf1 & Hf2 & Hf3).
  assert (forall e r, open_begin now name connID (reg s) = (Err e, r) -> r = reg s) as Herr.
  { intros e r. unfold open_begin. repeat case_match; congruence. }
  destruct connID as [id|]; [case_bool_decide as Hid; [|done]|].
  - destruct (open_begin _ _ _ _) as [[[id' a]|e] r] eqn:Eb; intros [= <-]; simpl in *.
    + assert (id' = id /\ exists p, pendings r = <[id := p]> (pendings (reg s))) as (-> & p & Hp).
      { unfold open_begin in Eb. repeat case_match; simplify_eq; simpl; eauto. }
      constructor; simpl; [by eapply tenants_ok_begin|by apply (dials_ok_ext (reg s))| |congruence].
      rewrite Hp. by apply conns_ok_begin.
    + rewrite (Herr e r) by done.
      constructor; simpl; [by apply tenants_ok_refused|done|by apply conns_ok_refused|done].
  - destruct (open_begin _ _ _ _) as [[|e] r] eqn:Eb; intros [= <-]; simpl in *.
    rewrite (Herr e r) by done.
    constructor; simpl; [by apply tenants_ok_refused|done|by apply conns_ok_refused|done].
Qed.

Lemma step_open_account_ok lim s t s' :
  sys_ok lim s -> step_open (LAccount t) s = Some s' -> sys_ok lim s'.
Proof.
  intros [Ht Hd Hc Hl]. simpl. destruct (opens s !! t) as [o|] eqn:Eo; [|done].
  destruct (oc_phase o) eqn:Ep; try done. intros [= <-].
  destruct (frame_live (oc_name o) (reg s)) as [(? & ? & ?) Hp].
  constructor; simpl; [by eapply tenants_ok_live|by apply (dials_ok_ext (reg s))| |congruence].
  rewrite Hp. apply conns_ok_phase; [done..|by rewrite Ep|]. intros c [= <-].
  apply (cok_conn _ _ _ _ Hc t); [done|by rewrite Ep].
Qed.

Lemma step_open_release_ok lim s t s' :
  sys_ok lim s -> step_open (LRelease t) s = Some s' -> sys_ok lim s'.
Proof.
  intros [Ht Hd Hc Hl]. simpl. destruct (opens s !! t) as [o|] eqn:Eo; [|done].
  destruct (oc_phase o) eqn:Ep; try done. intros [= <-].
  assert (forall key u, discoveredUsage (reg s) !! key = Some u -> tenant_name key = false) as Hdu.
  { intros key u Hk. by destruct (dok_usage _ _ Hd key u Hk). }
  destruct (tok_open _ _ _ Ht t o Eo) as [x Hx]; [by rewrite Ep|].
  destruct (Release_frame (oc_name o) (reg s)) as [(? & ? & ?) Hp]; [|done|].
  { by apply (tok_name _ _ _ Ht _ x). }
  constructor; simpl; [by eapply tenants_ok_release|by apply (dials_ok_ext (reg s))| |congruence].
  rewrite Hp. apply conns_ok_phase; [done..|by rewrite Ep|]. intros c [= <-].
  apply (cok_conn _ _ _ _ Hc t); [done|by rewrite Ep].
Qed.

Lemma step_open_ok lim s l s' : sys_ok lim s -> step_open l s = Some s' -> sys_ok lim s'.
Proof.
  intros H Hstep. destruct l; try done; try (by eapply step_open_begin_ok);
    try (by eapply step_open_account_ok); try (by eapply step_open_release_ok); simpl in Hstep;
    (destruct (opens s !! t) as [o|] eqn:Eo; [|done]); destruct (oc_phase o) eqn:Ep; try done.
  - simplify_eq. apply sys_ok_phase; [done..|by rewrite Ep|by rewrite Ep; destruct ok|by destruct ok].
  - simplify_eq. apply (sys_ok_phase lim (with_reg _ s)); [by apply sys_ok_cancel|done|..]; by rewrite ?Ep.
  - destruct (chans s !! oc_id o) as [c|] eqn:Ec; [|done].
    destruct (ch_buf c) as [conn|] eqn:Eb; [|done]. simplify_eq.
    apply (sys_ok_phase lim (set_chan _ _ s)); [by apply sys_ok_chan|done|by rewrite Ep..|].
    intros c' [= <-]. exact (buf_served lim s _ c _ H Ec Eb).
  - simplify_eq. apply sys_ok_phase; by rewrite ?Ep.
  - simplify_eq. apply (sys_ok_phase lim (with_reg _ s)); [by apply sys_ok_cancel|done|..]; by rewrite ?Ep.
  - destruct (chans s !! oc_id o) as [c|] eqn:Ec; [|done].
    assert (sys_ok lim (set_open t (to_phase (ToClose e) o) s)) as H1.
    { apply sys_ok_phase; by rewrite ?Ep. }
    destruct (ch_buf c) as [conn|] eqn:Eb; simplify_eq; [|done].
    by apply sys_ok_close, sys_ok_chan.
  - destruct (chans s !! oc_id o) as [c|] eqn:Ec; [|done]. simplify_eq.
    apply (sys_ok_phase lim (set_chan _ _ s)); [|done|by rewrite Ep..|done].
    apply sys_ok_chan; [done|]. intros conn Hb. exact (buf_served lim s _ c _ H Ec Hb).
Qed.

Lemma sys_ok_handler lim s h x x' :
  sys_ok lim s -> handlers s !! h = Some x -> hd_id x' = hd_id x -> serving x = None ->
  rejected x = false -> sys_ok lim (set_handler h x' s).
Proof.
  intros [] Hx Hid Hs Hr. constructor; simpl; try done. by eapply conns_ok_handler.
Qed.

Lemma Redeem_registry now id r :
  (Redeem now id r).2 = cancelPending id r /\
  ((Redeem now id r).1 = true -> is_Some (pendings r !! id)).
Proof.
  unfold Redeem. destruct (pendings r !! id) eqn:E; simpl; [by split; [|eexists]|].
  split; [|done]. unfold cancelPending. by rewrite E.
Qed.

Lemma step_handler_ok lim s l s' : sys_ok lim s -> step_handler l s = Some s' -> sys_ok lim s'.
Proof.
  intros H Hstep. destruct l; try done; simpl in Hstep;
    destruct (handlers s !! h) as [x|] eqn:Eh; try done;
    try (destruct (hd_phase x) eqn:Ep; try done;
         assert (serving x = None /\ rejected x = false) as [Hsv Hrj]
           by (unfold serving, rejected; by rewrite Ep)).
  - destruct (Redeem_registry now connID (reg s)) as [Hreg Hok].
    destruct (Redeem now connID (reg s)) as [ok r]. simpl in *. simplify_eq.
    pose proof (sys_ok_cancel lim s connID H) as [Ht Hd Hc Hl]. constructor; simpl; try done.
    rewrite cancel_pendings. apply conns_ok_redeem; [by destruct H|done|by destruct ok; auto|].
    destruct ok; [|done]. intros _. destruct (Hok eq_refl) as [p Hp].
    split; [done|]. by destruct (tok_pend _ _ _ (sok_tenants _ _ H) connID p Hp).
  - simplify_eq. by eapply sys_ok_handler.
  - destruct (chans s !! hd_id x) as [c|] eqn:Ec; [|done].
    destruct (ch_done c); simplify_eq; [apply sys_ok_close|]; by eapply sys_ok_handler.
  - destruct (chans s !! hd_id x) as [c|] eqn:Ec; [|done].
    destruct (ch_buf c) as [|] eqn:Eb; [done|]. simplify_eq.
    assert (sys_ok lim (set_handler h {| hd_id := hd_id x; hd_phase := Serving conn |} s)) as H1
      by (by eapply sys_ok_handler).
    apply (sys_ok_chan lim _ (hd_id x) {| ch_buf := Some conn; ch_done := ch_done c |}) in H1; [done|].
    intros c' [= <-]. exists h. simpl. apply lookup_insert_eq.
  - destruct (chans s !! hd_id x) as [c|] eqn:Ec; [|done].
    destruct (ch_done c); [|done]. simplify_eq. apply sys_ok_close. by eapply sys_ok_handler.
Qed.

Lemma tenants_of_set_usage r os cs u h : tenants_ok r os cs -> tenants_ok (set_usage u h r) os cs.
Proof. by apply tenants_ok_ext. Qed.

Lemma dial_begin_frame fresh key r :
  let r' := (dial_begin fresh key r).2 in
  tenants r' = tenants r /\ pendings r' = pendings r /\ limits r' = limits r.
Proof. unfold dial_begin. by destruct (discoveredUsage r !! key); repeat case_match. Qed.

Lemma step_dial_ok lim s l s' : sys_ok lim s -> step_dial l s = Some s' -> sys_ok lim s'.
Proof.
  intros [Ht Hd Hc Hl] Hstep. destruct l as [| | | | | | | | | | | | | | | | | |d fresh ep|d ok|d];
    try done; simpl in Hstep; destruct (dials s !! d) as [x|] eqn:Ed; try done.
  - case_bool_decide as Hf; [|done].
    destruct (dial_begin_frame fresh (usage_key ep) (reg s)) as (Hf1 & Hf2 & Hf3).
    destruct (dial_begin _ _ _) as [[u|e] r] eqn:Eb; simplify_eq; simpl in *.
    + constructor; simpl; [by eapply tenants_ok_ext|by eapply dials_ok_begin|by rewrite Hf2|congruence].
    + rewrite (dial_begin_refused _ _ _ _ _ _ Hd Hf Eb).
      constructor; simpl; [done|by apply dials_ok_over|done|done].
  - destruct (dl_phase x) eqn:Ep; try done. simplify_eq.
    pose proof (dok_dial _ _ Hd d x Ed) as Hu. unfold active in Hu. rewrite Ep in Hu.
    destruct (dok_usage _ _ Hd _ _ (Hu eq_refl)) as (_ & t & Hh & _).
    assert (exists u h, dial_end (dl_key x) (dl_usage x) ok (reg s) = set_usage u h (reg s)) as (u & h & E).
    { unfold dial_end. case_match; eauto. }
    constructor; simpl; [by rewrite E; apply tenants_of_set_usage| |by rewrite E|by rewrite E].
    unfold dial_end. rewrite Hh. simpl.
    destruct ok; apply (dials_ok_move _ _ d x _ t); unfold active; rewrite ?Ep; simpl; auto; lia.
  - destruct (dl_phase x) eqn:Ep; try done. simplify_eq.
    pose proof (dok_dial _ _ Hd d x Ed) as Hu. unfold active in Hu. rewrite Ep in Hu.
    specialize (Hu eq_refl). destruct (dok_usage _ _ Hd _ _ Hu) as (_ & t & Hh & _ & Hlt & _).
    assert (0 < live t) as Hpos.
    { rewrite Hlt. apply (countZ_pos _ (dials s) d x); [done|]. unfold connected.
      by rewrite Ep, String.eqb_refl. }
    assert (exists u h, Release (dl_key x) (reg s) = set_usage u h (reg s)) as (u & h & E).
    { unfold Release. rewrite Hu. case_match; eauto. }
    constructor; simpl; [by rewrite E; apply tenants_of_set_usage| |by rewrite E|by rewrite E].
    unfold Release. rewrite Hu, Hh. cbn [default]. rewrite (proj2 (Z.ltb_lt _ _)) by done.
    apply (dials_ok_move _ _ d x _ t); unfold active; rewrite ?Ep; simpl; auto; lia.
Qed.

Lemma step_ok lim s l s' : sys_ok lim s -> step l s = Some s' -> sys_ok lim s'.
Proof.
  intros H Hstep. unfold step in Hstep.
  destruct l; try (by eapply step_open_ok); try (by eapply step_handler_ok);
    try (by eapply step_dial_ok); destruct H as [Ht Hd Hc Hl].
  - destruct (tenant_name name) eqn:En; simplify_eq.
    constructor; simpl; [by apply tenants_ok_bind|by apply (dials_ok_ext (reg s))|done|done].
  - simplify_eq.
    assert (frame (reg s) (DeregisterAgent name a (reg s)) /\
      pendings (DeregisterAgent name a (reg s)) = pendings (reg s)) as [(? & ? & ?) Hp].
    { unfold DeregisterAgent, frame. by repeat case_match. }
    constructor; simpl; [by apply tenants_ok_unbind|by apply (dials_ok_ext (reg s))|by rewrite Hp|congruence].
  - simplify_eq.
    constructor; simpl; [by apply (tenants_ok_reload _ _ _ ord regs)|by apply (dials_ok_ext (reg s))|done|done].
Qed.

Definition labels (regs : list Registration) : Prop :=
  Forall (fun reg => tenant_name (rg_Name reg) = true) regs.

Lemma NewRegistry_tenants regs lim name t :
  tenants (NewRegistry regs lim) !! name = Some t ->
  t = new_tenant /\ name ∈ rg_Name <$> regs.
Proof.
  simpl. induction regs as [|reg regs IH] using rev_ind; [done|].
  rewrite foldl_snoc, fmap_app, elem_of_app, lookup_insert. simpl.
  case_decide; [intros [= <-]; subst; split; [done|right; left]|].
  intros Ht. destruct (IH Ht). auto.
Qed.

Lemma init_ok regs lim : labels regs -> sys_ok lim (init regs lim).
Proof.
  intros Hl. constructor; [constructor|constructor|constructor|]; try done; simpl.
  - intros name t [-> _]%(NewRegistry_tenants _ lim). by rewrite countZ_empty.
  - intros name t [-> _]%(NewRegistry_tenants _ lim). by rewrite countZ_empty.
  - intros name t [-> _]%(NewRegistry_tenants _ lim). simpl. lia.
  - intros name t [_ (reg0 & -> & Hin)%list_elem_of_fmap]%(NewRegistry_tenants _ lim).
    unfold labels in Hl. rewrite Forall_forall in Hl. auto.
Qed.

Lemma reachable_ok regs lim s : labels regs -> reachable regs lim s -> sys_ok lim s.
Proof. intros Hl Hr. induction Hr; [by apply init_ok|by eapply step_ok]. Qed.

(** C14: whatever the interleaving of [Open], [Redeem], timeouts, releases,
    agents and reloads, a tenant's [pending] is the number of unredeemed ids
    minted for it, never above the limit, and its [live] is the number of
    connections handed out for it and not yet released. *)
Theorem tenant_accounting regs lim s name t (Hl : labels regs) (Hr : reachable regs lim s)
    (Ht : tenants (reg s) !! name = Some t) :
  pending t = countZ (pends name) (pendings (reg s)) /\
  0 <= pending t <= Z.max 0 (MaxPendingPerServer lim) /\
  live t = countZ (holds name) (opens s).
Proof.
  destruct (reachable_ok regs lim s Hl Hr) as [[Hp Hv Hb _ _ _] _ _ <-].
  specialize (Hp name t Ht). specialize (Hv name t Ht). specialize (Hb name t Ht).
  pose proof (countZ_nonneg (pends name) (pendings (reg s))). lia.
Qed.

(** the usage record whose address a dial keeps across its unlock is
    still the one the table holds when the dial returns, its counters are
    the dials and connections under the key, and for a discovered Service
    the limits on pending and on all connections are never exceeded. *)
Theorem discovered_accounting regs lim s (Hl : labels regs) (Hr : reachable regs lim s) :
  (forall d x, dials s !! d = Some x -> active x = true ->
     discoveredUsage (reg s) !! dl_key x = Some (dl_usage x)) /\
  (forall key u, discoveredUsage (reg s) !! key = Some u -> exists t, heap (reg s) !! u = Some t /\
     pending t = countZ (dialing key) (dials s) /\ live t = countZ (connected key) (dials s) /\
     0 < pending t + live t /\
     (0 < MaxPendingPerServer lim -> pending t <= MaxPendingPerServer lim) /\
     (0 < MaxConnsPerServer lim -> pending t + live t <= MaxConnsPerServer lim)).
Proof.
  destruct (reachable_ok regs lim s Hl Hr) as [_ [Hu _ Hd] _ <-]. split; [done|].
  intros key u Hk. destruct (Hu key u Hk) as (_ & t & ? & ?). by exists t.
Qed.

(** C13: a connection id is a single-use capability: two data connections
    never redeem the same one, and the connection [Open] returns is one that
    was presented under the id minted for that very call. *)
Theorem capability_delivery regs lim s (Hl : labels regs) (Hr : reachable regs lim s) :
  (forall h h' x x', handlers s !! h = Some x -> handlers s !! h' = Some x' ->
     hd_phase x <> Rejected -> hd_phase x' <> Rejected -> hd_id x = hd_id x' -> h = h') /\
  (forall t o conn, opens s !! t = Some o -> oc_phase o = Opened conn ->
     exists h, handlers s !! h = Some {| hd_id := oc_id o; hd_phase := Serving conn |} /\
       forall t' o' conn', opens s !! t' = Some o' -> oc_phase o' = Opened conn' ->
         oc_id o' = oc_id o -> t' = t).
Proof.
  destruct (reachable_ok regs lim s Hl Hr) as [_ _ [_ Ho _ _ Hu Hc] _]. split.
  - intros h h' x x' Hx Hx' Hj Hj'. apply (Ho h h' x x'); try done; unfold rejected; by case_match.
  - intros t o conn Hto Hph. destruct (Hc t o conn Hto) as [h Hh]; [by rewrite Hph|].
    exists h. split; [done|]. intros t' o' conn' Hto' Hph' Hid.
    apply (Hu t' t o' o); rewrite ?Hph, ?Hph'; done.
Qed.
End steps.

(** ** Concrete traces *)
#[local] Existing Instance toy_ssh.
Definition small_lim : Limits := {|
  HandshakeTimeout := 10 * second; DialBackTimeout := 10 * second;
  MaxPendingPerServer := 1; MaxConnsPerServer := 1; UDPRelayIdleTimeout := minute;
  MaxUDPRelaySessionsPerServer := 4; MaxRegistrationsPerMinute := 60;
  MaxPendingRegistrations := 16 |}.

Definition k8s_ep : ServerEndpoint := {|
  ep_Hostname := "app.example"; ep_Address := "app.ns.svc:443"; ep_Namespace := "ns";
  ep_Service := "app"; ep_Tenant := ""; ep_Source := SourceKubernetes; ep_ID := "uid" |}.

Definition start : @sys toy_ssh := init [toy_site "key"] small_lim.

(** Call [t] of [Open] is redeemed by handler [t] with connection [c]. *)
Definition redeemed (t : nat) (id : string) (c : Z) : list (@label toy_ssh) :=
  [LOpen t 0 "site" (Some id); LPush t true; LRedeem t 1 id; LAccept t (Some c);
   LCheckDone t; LDeliver t; LReceive t].

(** Two calls in turn reach the point between [Redeem]'s [pending--] and
    [Open]'s [live++]: the tenant, limited to one connection, holds two. *)
Definition overshoot : list label :=
  LBind "site" (toy_agent 1 "SHA256:key") ::
  redeemed 0 "id0" 100 ++ redeemed 1 "id1" 101 ++ [LAccount 0; LAccount 1].

Definition busy : list label :=
  overshoot ++ [LDial 0 7 k8s_ep; LDialed 0 true].

(** The timeout drains the empty channel, the handler's send fits its buffer,
    and only then is [done] closed. *)
Definition leak : list label :=
  [LBind "site" (toy_agent 1 "SHA256:key"); LOpen 0 0 "site" (Some "id0"); LPush 0 true;
   LRedeem 0 1 "id0"; LAccept 0 (Some 100); LGiveUp 0 ErrDialBackTimeout; LCancel 0; LDrain 0;
   LCheckDone 0; LDeliver 0; LCloseDone 0].

Definition after (ls : list label) : sys := default start (run ls start).

Lemma after_reachable ls s :
  run ls start = Some s -> reachable [toy_site "key"] small_lim (after ls).
Proof.
  intros H. unfold after. rewrite H. simpl.
  by apply (run_reachable _ _ ls start); [constructor|].
Qed.

Lemma labels_toy : labels [toy_site "key"].
Proof. by repeat constructor. Qed.

(** The cap on a tenant's connections is not an invariant: the slot of a
    redeemed id is free until the connection is accounted. *)
Lemma connection_cap_overshoot :
  exists s t, reachable [toy_site "key"] small_lim s /\
    tenants (reg s) !! "site"%string = Some t /\
    live t = 2 /\ MaxConnsPerServer small_lim = 1.
Proof.
  exists (after overshoot), {| agent := Some (toy_agent 1 "SHA256:key"); pending := 0; live := 2 |}.
  split_and!; [|by vm_compute..]. eapply after_reachable. vm_compute. reflexivity.
Qed.

(** A connection delivered between the drain and the close of [done] stays in
    the buffer: nobody reads it, nobody closes it, and its handler waits. *)
Lemma delivered_connection_leak :
  exists s, reachable [toy_site "key"] small_lim s /\
    (forall t o, opens s !! t = Some o -> failed (oc_phase o) = true) /\
    (exists c, chans s !! "id0"%string = Some c /\ ch_buf c = Some 100 /\ ch_done c = true) /\
    (exists h, handlers s !! 0%nat = Some h /\ hd_phase h = Serving 100) /\ 100 ∉ closed s.
Proof.
  exists (after leak). split_and!.
  - eapply after_reachable. vm_compute. reflexivity.
  - intros t o Ho.
    assert (opens (after leak) = {[0%nat := {| oc_name := "site"; oc_id := "id0";
      oc_phase := Failed ErrDialBackTimeout |}]}) as Hos by (vm_compute; reflexivity).
    rewrite Hos, lookup_singleton in Ho. case_decide; [by simplify_eq|done].
  - exists {| ch_buf := Some 100; ch_done := true |}. by vm_compute.
  - exists {| hd_id := "id0"; hd_phase := Serving 100 |}. by vm_compute.
  - vm_compute. intros H. by inversion H.
Qed.

(** A key is verified, a reload revokes it, and only then is the agent bound:
    the reload's eviction has come too early and the agent stays. *)
Lemma revoked_key_bound :
  let old := toy_site "key" in
  let '(ok, r) := Register map_keys 0 (toy_req "t0" "key") (NewRegistry [old] small_lim) in
  let r := (ReplaceRegistrations map_keys [toy_site "new"] r).2 in
  let r := (RegisterAgent "site" (toy_agent 1 "SHA256:key") r).2 in
  ok = Ok ("site"%string, "SHA256:key"%string) /\
  live_agent r "site" = Some (toy_agent 1 "SHA256:key") /\
  byFingerprint r !! "SHA256:key"%string = None.
Proof. by vm_compute. Qed.

Lemma tenant_accounting_witness :
  live {| agent := Some (toy_agent 1 "SHA256:key"); pending := 0; live := 2 |} =
    countZ (holds "site") (opens (after overshoot)).
Proof.
  apply (tenant_accounting [toy_site "key"] small_lim (after overshoot) "site").
  - apply labels_toy.
  - eapply after_reachable. vm_compute. reflexivity.
  - vm_compute. reflexivity.
Defined.

Lemma discovered_accounting_witness :
  discoveredUsage (reg (after busy)) !! usage_key k8s_ep = Some 7.
Proof.
  apply (proj1 (discovered_accounting [toy_site "key"] small_lim (after busy)
    labels_toy ltac:(eapply after_reachable; vm_compute; reflexivity)) 0%nat
    {| dl_key := usage_key k8s_ep; dl_usage := 7; dl_phase := Connected |}); vm_compute; reflexivity.
Defined.

Lemma capability_delivery_witness :
  exists h, handlers (after overshoot) !! h =
    Some {| hd_id := "id1"; hd_phase := Serving 101 |}.
Proof.
  destruct (proj2 (capability_delivery [toy_site "key"] small_lim (after overshoot)
    labels_toy ltac:(eapply after_reachable; vm_compute; reflexivity)) 1%nat
    {| oc_name := "site"; oc_id := "id1"; oc_phase := Opened 101 |} 101) as [h [Hh _]].
  - vm_compute. reflexivity.
  - reflexivity.
  - exists h. exact Hh.
Defined.
