(* ===== verification/Frames.v ===== *)
(** [pkg/wstransport]: the control frames carried beside WireGuard traffic
    ([direct.go], with [FilterBind], which separates the two on receive), the
    path probe and MTU probe payloads ([multipath.go], [pathmtu.go]), the
    WebSocket datagram bounds ([wstransport.go]) and the duplicate cache
    ([multipath.go]). *)
From S2P Require Import Prelude Bytes.

Definition controlMagic : list byte := [x00; x4e; x54; x57].

Definition FrameReflectRequest : byte := x01.
Definition FrameReflectResponse : byte := x02.
Definition FramePrime : byte := x03.
Definition FrameRelayBind : byte := x04.
Definition FrameRelayBindAck : byte := x05.
Definition FrameNativeWireGuardAssociate : byte := x06.
Definition FramePathProbe : byte := x06.
Definition FramePathAck : byte := x07.
Definition FrameThroughputReport : byte := x08.
Definition FramePathMTUProbe : byte := x09.
Definition FramePathMTUAck : byte := x0a.
Definition FramePathDataAck : byte := x0b.

Definition MaxRelayDatagram : Z := 1500.
Definition controlHeaderLen : Z := 5.
Definition pathProbeSize : Z := 12.
Definition minPathMTUProbe : Z := 1200.

(** [wstransport.go] *)
Definition ValidDatagram (b : list byte) : bool := (16 <=? Zlen b) && (Zlen b <=? 65535).
Definition Accept (b : list byte) : option (list byte) := if ValidDatagram b then Some b else None.

Definition ValidRelayDatagram (b : list byte) : bool := (0 <? Zlen b) && (Zlen b <=? MaxRelayDatagram).

Definition isControlFrame (b : list byte) : bool :=
  match b with
  | b0 :: b1 :: b2 :: b3 :: _ :: _ =>
      Byte.eqb b0 x00 && Byte.eqb b1 x4e && Byte.eqb b2 x54 && Byte.eqb b3 x57
  | _ => false
  end.

Definition EncodeControlFrame (typ : byte) (payload : list byte) : list byte :=
  controlMagic ++ typ :: payload.

Definition DecodeControlFrame (b : list byte) : option (byte * list byte) :=
  if isControlFrame b then
    match b with
    | _ :: _ :: _ :: _ :: typ :: payload => Some (typ, payload)
    | _ => None
    end
  else None.

Definition ValidPathControl (typ : byte) (payload : list byte) : bool :=
  (Byte.eqb typ FramePathProbe || Byte.eqb typ FramePathAck) && (Zlen payload =? pathProbeSize).

(** [isWireGuardTransport]: the four-byte message type is 4. *)
Definition isWireGuardTransport (b : list byte) : bool :=
  match b with
  | b0 :: b1 :: b2 :: b3 :: _ => le32 b0 b1 b2 b3 =? 4
  | _ => false
  end.

Definition isWireGuardTransportBatch (bufs : list (list byte)) : bool :=
  match bufs with b :: _ => isWireGuardTransport b | [] => false end.

(** ** Path MTU probes *)
Record PathMTUProbe := { Nonce : list byte; Target : Z }.

Definition nextPathMTUProbe (current : Z) : Z :=
  if current =? 1200 then 1400 else if current =? 1400 then MaxRelayDatagram else 0.

Definition zeros (n : Z) : list byte := replicate (Z.to_nat n) x00.

(** [nil] stands for the Go nil slice: no frame. *)
Definition EncodePathMTUProbe (nonce : list byte) (target : Z) : list byte :=
  if (target <? minPathMTUProbe) || (MaxRelayDatagram <? target) then []
  else nonce ++ put_le16 target ++ zeros (target - controlHeaderLen - pathProbeSize - 2).

Definition target_at (b : list byte) : Z :=
  match drop 12 b with t0 :: t1 :: _ => le16 t0 t1 | _ => 0 end.

Definition DecodePathMTUProbe (b : list byte) : option PathMTUProbe :=
  if Zlen b <? pathProbeSize + 2 then None
  else
    let t := target_at b in
    if (minPathMTUProbe <=? t) && (t <=? MaxRelayDatagram) && (Zlen b =? t - controlHeaderLen)
    then Some {| Nonce := take 12 b; Target := t |}
    else None.

Definition EncodePathMTUAck (nonce : list byte) (target : Z) : list byte := nonce ++ put_le16 target.

Definition DecodePathMTUAck (b : list byte) : option PathMTUProbe :=
  if negb (Zlen b =? pathProbeSize + 2) then None
  else
    let t := target_at b in
    if (minPathMTUProbe <=? t) && (t <=? MaxRelayDatagram)
    then Some {| Nonce := take 12 b; Target := t |}
    else None.

(** ** [FilterBind] *)
Section filter_bind.
Context {Endpoint AddrPort : Type}.
(** [netip.ParseAddrPort] of the endpoint's [DstToString]. *)
Variable endpoint_addr : Endpoint -> option AddrPort.

Record ControlPacket := { cp_Type : byte; cp_Payload : list byte; cp_From : AddrPort }.

(** What is done with an intercepted frame. *)
Inductive delivery : Type :=
  | ToProbeHandler (typ : byte) (payload : list byte) (ep : Endpoint)
  | ToControlHandler (cp : ControlPacket)
  | ToControl (cp : ControlPacket)
  | Dropped.

Record FilterBind := {
  fb_probeHandler : bool;
  fb_controlHandler : option (ControlPacket -> bool);
  fb_control : list ControlPacket;
}.

Definition control_capacity : Z := 32.

Definition is_probe_frame (typ : byte) : bool :=
  existsb (Byte.eqb typ) [FramePathProbe; FramePathAck; FrameThroughputReport;
                          FramePathMTUProbe; FramePathMTUAck; FramePathDataAck].

Definition deliverControl (b : list byte) (ep : Endpoint) (f : FilterBind) : delivery * FilterBind :=
  match DecodeControlFrame b with
  | None => (Dropped, f)
  | Some (typ, payload) =>
      if is_probe_frame typ then
        (if fb_probeHandler f then ToProbeHandler typ payload ep else Dropped, f)
      else
        match endpoint_addr ep with
        | None => (Dropped, f)
        | Some addr =>
            let cp := {| cp_Type := typ; cp_Payload := payload; cp_From := addr |} in
            if match fb_controlHandler f with Some h => h cp | None => false end
            then (ToControlHandler cp, f)
            else if Zlen (fb_control f) <? control_capacity
            then (ToControl cp, {| fb_probeHandler := fb_probeHandler f;
                                   fb_controlHandler := fb_controlHandler f;
                                   fb_control := fb_control f ++ [cp] |})
            else (Dropped, f)
        end
  end.

(** One receive slot: its own backing array, the size of the datagram in it
    and its source.  [copy] writes over the front of the array. *)
Record slot := { sl_buf : list byte; sl_size : nat; sl_ep : Endpoint }.

Definition datagram (s : slot) : list byte := take (sl_size s) (sl_buf s).

Definition copy_into (dst src : list byte) : list byte * nat :=
  let n := Nat.min (length dst) (length src) in (take n src ++ drop n dst, n).

Definition move_slot (src dst : slot) : slot :=
  let '(b, n) := copy_into (sl_buf dst) (datagram src) in
  {| sl_buf := b; sl_size := n; sl_ep := sl_ep src |}.

(** The loop of [wrapReceive] over the [k] slots from [i]: the deliveries it
    makes and the slots it leaves, of which the first [out] count. *)
Fixpoint filter_loop (k i out : nat) (slots : list slot) (f : FilterBind) :
    nat * list slot * FilterBind * list delivery :=
  match k with
  | O => (out, slots, f, [])
  | S k =>
      match slots !! i with
      | None => (out, slots, f, [])
      | Some s =>
          if isControlFrame (datagram s) then
            let '(d, f) := deliverControl (datagram s) (sl_ep s) f in
            let '(out, slots, f, ds) := filter_loop k (S i) out slots f in
            (out, slots, f, d :: ds)
          else
            let slots :=
              if (out =? i)%nat then slots
              else match slots !! out with
                   | Some dst => <[out := move_slot s dst]> slots
                   | None => slots
                   end in
            filter_loop k (S i) (S out) slots f
      end
  end.

(** What the wrapped receive function returns: each read of the underlying
    bind fills the slots; a batch of control frames only is read again.
    [None] once the reads run out is the underlying read blocking. *)
Fixpoint receive {E : Type} (reads : list (result E (list slot))) (f : FilterBind) :
    option (result E (nat * list slot)) * FilterBind * list delivery :=
  match reads with
  | [] => (None, f, [])
  | Err e :: _ => (Some (Err e), f, [])
  | Ok slots :: reads =>
      let '(out, slots, f, ds) := filter_loop (length slots) 0 0 slots f in
      if (0 <? out)%nat then (Some (Ok (out, slots)), f, ds)
      else let '(r, f, ds') := receive reads f in (r, f, ds ++ ds')
  end.

(** *** What survives the filter *)

(** The slots after a loop that has placed [kept] and still has the slots of
    [rest] to look at, from index [i] on. *)
Definition uniform (len : nat) (slots : list slot) : Prop :=
  Forall (fun s => length (sl_buf s) = len /\ (sl_size s <= len)%nat) slots.

Definition content (s : slot) : list byte * Endpoint := (datagram s, sl_ep s).

Definition passes (s : slot) : Prop := isControlFrame (datagram s) = false.
#[local] Instance passes_dec s : Decision (passes s).
Proof. unfold passes. apply _. Defined.

(** The frames intercepted, handled in order. *)
Fixpoint deliver_all (bs : list slot) (f : FilterBind) : FilterBind * list delivery :=
  match bs with
  | [] => (f, [])
  | b :: bs =>
      if isControlFrame (datagram b) then
        let '(d, f) := deliverControl (datagram b) (sl_ep b) f in
        let '(f, ds) := deliver_all bs f in (f, d :: ds)
      else deliver_all bs f
  end.

Lemma move_slot_content len src dst :
  length (sl_buf src) = len -> length (sl_buf dst) = len -> (sl_size src <= len)%nat ->
  content (move_slot src dst) = content src /\ length (sl_buf (move_slot src dst)) = len /\
  (sl_size (move_slot src dst) <= len)%nat.
Proof.
  intros Hs Hd Hn. unfold move_slot, copy_into, content, datagram. simpl.
  rewrite length_take, Hs, Hd, (Nat.min_l (sl_size src) len) by lia.
  rewrite (Nat.min_r len) by lia. split_and!.
  - rewrite take_app_length' by (rewrite !length_take; lia). rewrite take_take.
    by rewrite Nat.min_id.
  - rewrite length_app, !length_take, length_drop. lia.
  - done.
Qed.

Lemma take_insert_snoc (l : list slot) n x :
  (n < length l)%nat -> take (S n) (<[n := x]> l) = take n l ++ [x].
Proof.
  intros Hn. rewrite (take_S_r _ _ x) by (by apply list_lookup_insert_eq).
  by rewrite take_insert_ge by lia.
Qed.

Lemma filter_loop_spec len slots0 k i out slots f :
  uniform len slots -> length slots = length slots0 -> (i + k = length slots)%nat ->
  (out <= i)%nat -> drop i slots = drop i slots0 ->
  content <$> take out slots = content <$> filter passes (take i slots0) ->
  let '(out', slots', f', ds) := filter_loop k i out slots f in
  content <$> take out' slots' = content <$> filter passes slots0 /\
  length slots' = length slots0 /\ uniform len slots' /\ (out' <= length slots')%nat /\
  (f', ds) = deliver_all (drop i slots0) f.
Proof.
  revert i out slots f. induction k as [|k IH]; intros i out slots f Hu Hlen Hik Hout Hdrop Hkept.
  { simpl. rewrite drop_ge by lia. rewrite (take_ge slots0) in Hkept by lia. split_and!; try done. lia. }
  assert (exists s, slots !! i = Some s) as [s Hs] by (apply lookup_lt_is_Some_2; lia).
  assert (slots0 !! i = Some s) as Hs0.
  { rewrite <-(Nat.add_0_r i), <-lookup_drop, <-Hdrop, lookup_drop, Nat.add_0_r. done. }
  assert (drop i slots0 = s :: drop (S i) slots0) as Hd0 by (by apply drop_S).
  assert (drop (S i) slots = drop (S i) slots0) as HdS.
  { rewrite <-Nat.add_1_r, <-!drop_drop, Hdrop. done. }
  cbn [filter_loop]. rewrite Hs, Hd0. cbn [deliver_all].
  destruct (isControlFrame (datagram s)) eqn:Ec.
  - destruct (deliverControl _ _ _) as [d f1].
    specialize (IH (S i) out slots f1 Hu Hlen). destruct (filter_loop _ _ _ _ _) as [[[o sl] f2] ds].
    destruct (deliver_all (drop (S i) slots0) f1) as [f3 ds3].
    destruct IH as (H1 & H2 & H3 & H4 & H5); [lia|lia|done| |].
    { rewrite (take_S_r _ _ s), filter_app by done. rewrite filter_cons_False.
      - by rewrite app_nil_r.
      - unfold passes. congruence. }
    split_and!; try done. congruence.
  - pose proof Hu as Huf. unfold uniform in Huf. rewrite Forall_lookup in Huf.
    destruct (Huf i s Hs) as [Hls Hsz].
    assert (passes s) as Hps by done.
    set (slots' := if (out =? i)%nat then slots else _).
    assert (exists s', slots' = <[out := s']> slots /\ content s' = content s /\
      length (sl_buf s') = len /\ (sl_size s' <= len)%nat) as (s' & Hs' & Hc & Hl' & Hsz').
    { unfold slots'. destruct (Nat.eqb_spec out i) as [->|Hne].
      - exists s. by rewrite list_insert_id.
      - assert (exists dst, slots !! out = Some dst) as [dst Hdst] by (apply lookup_lt_is_Some_2; lia).
        destruct (Huf out dst Hdst) as [Hld _]. rewrite Hdst. exists (move_slot s dst).
        destruct (move_slot_content len s dst) as (? & ? & ?); done. }
    clearbody slots'. subst slots'. apply IH.
    + apply Forall_insert; done.
    + by rewrite length_insert.
    + rewrite length_insert. lia.
    + lia.
    + by rewrite drop_insert_lt by lia.
    + rewrite take_insert_snoc by lia.
      rewrite (take_S_r slots0 i s) by done. rewrite filter_app, filter_cons_True by done.
      rewrite !fmap_app. simpl. by rewrite Hkept, Hc.
Qed.

Lemma deliver_all_app bs bs' f :
  deliver_all (bs ++ bs') f =
    let '(f1, ds) := deliver_all bs f in
    let '(f2, ds') := deliver_all bs' f1 in (f2, ds ++ ds').
Proof.
  revert f. induction bs as [|b bs IH]; intros f; simpl; [by destruct (deliver_all bs' f)|].
  destruct (isControlFrame _); [|apply IH].
  destruct (deliverControl _ _ _) as [d f1]. rewrite IH.
  destruct (deliver_all bs f1) as [f2 ds]. by destruct (deliver_all bs' f2).
Qed.

Lemma filter_batch_spec len slots f (H : uniform len slots) :
  let '(out, slots', f', ds) := filter_loop (length slots) 0 0 slots f in
  out = length (filter passes slots) /\
  content <$> take out slots' = content <$> filter passes slots /\ uniform len slots' /\
  (f', ds) = deliver_all slots f.
Proof.
  pose proof (filter_loop_spec len slots (length slots) 0 0 slots f) as Hl.
  destruct (filter_loop _ _ _ _ _) as [[[out slots'] f'] ds].
  destruct Hl as (Hc & Hlen & Hu & Ho & Hd); try done. split_and!; try done.
  apply (f_equal length) in Hc. rewrite !length_fmap, length_take in Hc. lia.
Qed.

(** a receive returns exactly the WireGuard datagrams of the first batch
    that has any, in order and with their sources, packed to the front of the
    slots with every slot keeping its own buffer; every control frame up to
    there, the batches of control frames alone included, is handed to its
    handler once and in order, and none reaches WireGuard. *)
Theorem wrapReceive_spec {E : Type} len pre slots post f
    (Hpre : Forall (fun b => uniform len b /\ filter passes b = []) pre)
    (Hslots : uniform len slots) (Hne : filter passes slots <> []) :
  exists slots', @receive E ((Ok <$> pre) ++ Ok slots :: post) f =
      (Some (Ok (length (filter passes slots), slots')), (deliver_all (concat pre ++ slots) f).1,
       (deliver_all (concat pre ++ slots) f).2) /\
    content <$> take (length (filter passes slots)) slots' = content <$> filter passes slots /\
    uniform len slots'.
Proof.
  revert f. induction Hpre as [|b pre [Hb Hemp] Hpre IH]; intros f;
    rewrite ?fmap_nil, ?fmap_cons; cbn [app receive concat].
  - pose proof (filter_batch_spec len slots f Hslots) as Hl.
    destruct (filter_loop _ _ _ _ _) as [[[out slots'] f'] ds].
    destruct Hl as (-> & Hc & Hu & <-). exists slots'.
    destruct (Nat.ltb_spec 0 (length (filter passes slots))); [done|].
    destruct (filter passes slots); simpl in *; [done|lia].
  - pose proof (filter_batch_spec len b f Hb) as Hl.
    destruct (filter_loop _ _ _ _ _) as [[[out slots'] f'] ds].
    destruct Hl as (-> & _ & _ & Hd). rewrite Hemp. cbn [length Nat.ltb Nat.leb].
    destruct (IH f') as (sl & -> & Hc & Hu). exists sl. split; [|done].
    rewrite <-app_assoc, (deliver_all_app b), <-Hd. by destruct (deliver_all _ f').
Qed.
End filter_bind.

(** ** Frames *)
Lemma isControlFrame_iff b :
  isControlFrame b = true <-> exists typ payload, b = EncodeControlFrame typ payload.
Proof.
  split.
  - destruct b as [|b0 [|b1 [|b2 [|b3 [|typ payload]]]]]; try done. simpl.
    intros H. bool_to_prop. exists typ, payload. unfold EncodeControlFrame, controlMagic.
    repeat match goal with H : Byte.eqb _ _ = true |- _ => apply Byte.byte_dec_bl in H; subst end.
    done.
  - by intros (typ & payload & ->).
Qed.

Lemma DecodeControlFrame_iff b typ payload :
  DecodeControlFrame b = Some (typ, payload) <-> b = EncodeControlFrame typ payload.
Proof.
  unfold DecodeControlFrame. split.
  - destruct (isControlFrame b) eqn:E; [|done].
    apply isControlFrame_iff in E as (t & p & ->). simpl. by intros [= -> ->].
  - by intros ->.
Qed.

(** The message type of a WireGuard datagram: 1 to 4, little endian. *)
Definition wireguard_message (b : list byte) : Prop :=
  match b with b0 :: b1 :: b2 :: b3 :: _ => 1 <= le32 b0 b1 b2 b3 <= 4 | _ => False end.

Lemma le32_eq b0 b1 b2 b3 :
  le32 b0 b1 b2 b3 = ((byte_val b3 * 256 + byte_val b2) * 256 + byte_val b1) * 256 + byte_val b0.
Proof. unfold le32. rewrite be32_eq. lia. Qed.

(** a frame decodes to what was encoded and nothing else does, and no
    WireGuard message, whatever its type, is ever taken for a control frame. *)
Theorem control_frames_disjoint :
  (forall b typ payload, DecodeControlFrame b = Some (typ, payload) <->
     b = EncodeControlFrame typ payload) /\
  (forall b, wireguard_message b -> isControlFrame b = false).
Proof.
  split; [apply DecodeControlFrame_iff|].
  intros b Hw. apply not_true_iff_false. intros (typ & payload & ->)%isControlFrame_iff.
  revert Hw. unfold wireguard_message, EncodeControlFrame, controlMagic. simpl.
  rewrite le32_eq. vm_compute. intuition discriminate.
Qed.

(** ** MTU probes *)
Lemma Zlen_zeros n : 0 <= n -> Zlen (zeros n) = n.
Proof. intros. unfold Zlen, zeros. rewrite length_replicate. lia. Qed.

Lemma target_at_put nonce target rest :
  length nonce = 12%nat -> 0 <= target < 65536 ->
  target_at (nonce ++ put_le16 target ++ rest) = target.
Proof.
  intros Hn Ht. unfold target_at, put_le16. rewrite drop_app_length' by done. simpl.
  by apply le16_put.
Qed.

(** a probe for any permitted size decodes to its nonce and size and fills
    exactly that size on the wire with its control header; its ack decodes to
    the same pair and is shorter than any probe, so answering cannot amplify;
    whatever decodes as a probe has the length it claims. *)
Theorem mtu_probe_roundtrip nonce target
    (Hn : length nonce = 12%nat) (Ht : minPathMTUProbe <= target <= MaxRelayDatagram) :
  let probe := EncodePathMTUProbe nonce target in
  let ack := EncodePathMTUAck nonce target in
  DecodePathMTUProbe probe = Some {| Nonce := nonce; Target := target |} /\
  Zlen (EncodeControlFrame FramePathMTUProbe probe) = target /\
  DecodePathMTUAck ack = Some {| Nonce := nonce; Target := target |} /\
  Zlen (EncodeControlFrame FramePathMTUAck ack) < Zlen (EncodeControlFrame FramePathMTUProbe probe) /\
  (forall b p, DecodePathMTUProbe b = Some p ->
     Zlen (EncodeControlFrame FramePathMTUProbe b) = Target p).
Proof.
  unfold minPathMTUProbe, MaxRelayDatagram in Ht. cbv zeta.
  assert (EncodePathMTUProbe nonce target =
    nonce ++ put_le16 target ++ zeros (target - controlHeaderLen - pathProbeSize - 2)) as Hp.
  { unfold EncodePathMTUProbe, minPathMTUProbe, MaxRelayDatagram.
    by rewrite (proj2 (Z.ltb_ge _ _)), (proj2 (Z.ltb_ge _ _)) by lia. }
  assert (Zlen (EncodePathMTUProbe nonce target) = target - controlHeaderLen) as Hl.
  { rewrite Hp, !Zlen_app, Zlen_zeros by (unfold controlHeaderLen, pathProbeSize; lia).
    unfold Zlen. rewrite Hn. unfold controlHeaderLen, pathProbeSize. simpl. lia. }
  assert (Zlen (EncodePathMTUAck nonce target) = 14) as Hla.
  { unfold EncodePathMTUAck. rewrite Zlen_app. unfold Zlen. by rewrite Hn. }
  assert (forall typ b, Zlen (EncodeControlFrame typ b) = 5 + Zlen b) as Hf.
  { intros typ b. unfold EncodeControlFrame. rewrite Zlen_app, Zlen_cons.
    change (Zlen controlMagic) with 4. lia. }
  unfold controlHeaderLen in *. split_and!.
  - unfold DecodePathMTUProbe. rewrite Hl. unfold pathProbeSize, minPathMTUProbe, MaxRelayDatagram, controlHeaderLen.
    rewrite (proj2 (Z.ltb_ge _ _)) by lia. rewrite Hp, target_at_put by (done || lia).
    rewrite !(proj2 (Z.leb_le _ _)), Z.eqb_refl by lia. simpl. by rewrite take_app_length'.
  - rewrite Hf, Hl. lia.
  - unfold DecodePathMTUAck. rewrite Hla. simpl. unfold EncodePathMTUAck.
    rewrite <-(app_nil_r (put_le16 target)), target_at_put by (done || lia).
    unfold minPathMTUProbe, MaxRelayDatagram.
    rewrite !(proj2 (Z.leb_le _ _)) by lia. simpl. by rewrite take_app_length'.
  - rewrite !Hf, Hl, Hla. lia.
  - intros b p. rewrite Hf. unfold DecodePathMTUProbe, controlHeaderLen. case_go; [done|].
    case_go; [|done]. intros [= <-]. simpl. bool_lia.
Qed.

(** ** [DuplicateCache] *)
Module DuplicateCache.

Record t := mk {
  entries : gmap (list Z) Z;
  ttl : Z;
  limit : Z;
}.

Definition NewDuplicateCache (limit ttl : Z) : t :=
  mk ∅ (if ttl <=? 0 then 10 * second else ttl) (if limit <=? 0 then 4096 else limit).

(** The receiver index and counter of a transport message, as byte values. *)
Definition transportKey (b : list byte) : option (list Z) :=
  if (Zlen b <? 16) || negb (isWireGuardTransport b) then None
  else Some (byte_val <$> take 12 (drop 4 b)).

(** [ord] is the order [range] meets the map when one entry is dropped. *)
Definition Seen (ord : gmap (list Z) Z -> list (list Z)) (b : list byte) (now : Z) (c : t) :
    bool * t :=
  match transportKey b with
  | None => (false, c)
  | Some k =>
      let fresh (es : gmap (list Z) Z) :=
        let es :=
          if limit c <=? Zsize es then
            match ord es with key :: _ => delete key es | [] => es end
          else es in
        (false, mk (<[k := time_add now (ttl c)]> es) (ttl c) (limit c)) in
      match entries c !! k with
      | Some expiry => if time_after expiry now then (true, c) else fresh (delete k (entries c))
      | None => fresh (entries c)
      end
  end.

(** *** The cache against the history of accepted packets *)
Record call := { packet : list byte; at_time : Z; order : gmap (list Z) Z -> list (list Z) }.

Fixpoint run (cs : list call) (c : t) : list bool * t :=
  match cs with
  | [] => ([], c)
  | x :: cs =>
      let '(r, c) := Seen (order x) (packet x) (at_time x) c in
      let '(rs, c) := run cs c in (r :: rs, c)
  end.

Lemma Seen_params ord b now c :
  ttl (Seen ord b now c).2 = ttl c /\ limit (Seen ord b now c).2 = limit c.
Proof. unfold Seen. by repeat case_match. Qed.

(** One call: a repeat is only answered on an entry still in date, and every
    entry afterwards was there before or is this packet's, filed now. *)
Lemma Seen_cases ord b now c :
  ((Seen ord b now c).1 = true -> exists k e, transportKey b = Some k /\
     entries c !! k = Some e /\ now < e) /\
  (forall k e, entries (Seen ord b now c).2 !! k = Some e ->
     entries c !! k = Some e \/
     transportKey b = Some k /\ (Seen ord b now c).1 = false /\ e = now + ttl c).
Proof.
  unfold Seen. destruct (transportKey b) as [k|] eqn:Ek; [|by split; [|left]].
  assert (forall es : gmap (list Z) Z, (forall k' e, es !! k' = Some e -> entries c !! k' = Some e) ->
    forall k' e, <[k := time_add now (ttl c)]> (if limit c <=? Zsize es
      then match ord es with key :: _ => delete key es | [] => es end else es) !! k' = Some e ->
      entries c !! k' = Some e \/ Some k = Some k' /\ false = false /\ e = now + ttl c) as Hfresh.
  { intros es Hes k' e. rewrite lookup_insert. case_decide as Hk.
    - intros [= <-]. right. subst. done.
    - intros He. left. apply Hes. revert He.
      destruct (limit c <=? Zsize es); [|done]. destruct (ord es); [done|].
      by intros [_ ?]%lookup_delete_Some. }
  destruct (entries c !! k) as [e|] eqn:Ee; simpl.
  - unfold time_after. destruct (now <? e) eqn:El; simpl; bool_to_prop.
    + split; [|by left]. intros _. by exists k, e.
    + split; [done|]. apply Hfresh. by intros k' e' [_ ?]%lookup_delete_Some.
  - split; [done|]. by apply Hfresh.
Qed.

Lemma run_dup_sound cs c j :
  (run cs c).1 !! j = Some true ->
  exists x k, cs !! j = Some x /\ transportKey (packet x) = Some k /\
    ((exists e, entries c !! k = Some e /\ at_time x < e) \/
     exists i y, (i < j)%nat /\ cs !! i = Some y /\ transportKey (packet y) = Some k /\
       (run cs c).1 !! i = Some false /\ at_time x < at_time y + ttl c).
Proof.
  revert c j. induction cs as [|x cs IH]; intros c j; simpl; [done|].
  pose proof (Seen_cases (order x) (packet x) (at_time x) c) as [Hrep Hent].
  pose proof (Seen_params (order x) (packet x) (at_time x) c) as [Httl _].
  destruct (Seen _ _ _ c) as [r c']. specialize (IH c'). destruct (run cs c') as [rs c''].
  cbn [fst snd] in *. destruct j as [|j]; simpl.
  - intros [= ->]. destruct (Hrep eq_refl) as (k & e & Hk & He & Hlt).
    exists x, k. eauto 10.
  - intros Hj. destruct (IH j Hj) as (y & k & Hy & Hk & [(e & He & Hlt)|(i & z & Hi & Hz & Hkz & Hr & Hlt)]).
    + exists y, k. do 2 (split; [done|]). destruct (Hent k e He) as [He'|(Hkx & Hrx & ->)].
      * left. eauto.
      * right. exists 0%nat, x. simpl. rewrite Hrx. split_and!; (done || lia).
    + exists y, k. do 2 (split; [done|]). right. exists (S i), z. rewrite Httl in Hlt.
      split_and!; (done || lia).
Qed.

Lemma Seen_size ord b now c (H : ranges ord) :
  0 < limit c -> Zsize (entries c) <= limit c -> Zsize (entries (Seen ord b now c).2) <= limit c.
Proof.
  intros Hl Hs. unfold Seen. destruct (transportKey b) as [k|]; [|done].
  assert (forall es : gmap (list Z) Z, Zsize es <= limit c ->
    Zsize (<[k := time_add now (ttl c)]> (if limit c <=? Zsize es
      then match ord es with key :: _ => delete key es | [] => es end else es)) <= limit c) as Hfresh.
  { intros es Hes. destruct (limit c <=? Zsize es) eqn:E; bool_to_prop.
    - destruct (ord es) as [|key rest] eqn:Eo.
      + assert (es = ∅) as ->.
        { apply map_empty. intros k'. apply eq_None_not_Some. intros Hk'.
          apply (elem_of_ranges ord es k' H) in Hk'. rewrite Eo in Hk'. by apply elem_of_nil in Hk'. }
        rewrite Zsize_insert, lookup_empty. unfold Zsize. rewrite map_size_empty. lia.
      + assert (is_Some (es !! key)) as [v Hv].
        { apply (elem_of_ranges ord es key H). rewrite Eo. left. }
        rewrite Zsize_insert, Zsize_delete, Hv. case_match; lia.
    - rewrite Zsize_insert. case_match; lia. }
  destruct (entries c !! k) as [e|] eqn:Ee; [|by apply Hfresh].
  case_go; [done|]. apply Hfresh. rewrite Zsize_delete, Ee. lia.
Qed.

Lemma run_dup_size cs c :
  Forall (fun x => ranges (order x)) cs -> 0 < limit c -> Zsize (entries c) <= limit c ->
  Zsize (entries (run cs c).2) <= limit c.
Proof.
  revert c. induction cs as [|x cs IH]; intros c HF Hl Hs; simpl; [done|].
  apply Forall_cons in HF as [Hx HF].
  pose proof (Seen_size (order x) (packet x) (at_time x) c Hx Hl Hs).
  pose proof (Seen_params (order x) (packet x) (at_time x) c) as [_ Hlim].
  destruct (Seen _ _ _ c) as [r c']. simpl in *. specialize (IH c').
  destruct (run cs c'). simpl in *. rewrite Hlim in IH. auto.
Qed.

(** the cache never drops a packet that is not a copy: whatever it
    reports as seen is a transport message whose receiver and counter were
    let through before, less than the window ago; and it holds at most its
    limit of entries. *)
Theorem DuplicateCache_sound lim win cs (H : Forall (fun x => ranges (order x)) cs) :
  let c := NewDuplicateCache lim win in
  (forall j, (run cs c).1 !! j = Some true ->
     exists i x y k, (i < j)%nat /\ cs !! i = Some y /\ cs !! j = Some x /\
       transportKey (packet y) = Some k /\ transportKey (packet x) = Some k /\
       (run cs c).1 !! i = Some false /\ at_time x < at_time y + ttl c) /\
  Zsize (entries (run cs c).2) <= limit c.
Proof.
  intros c. split.
  - intros j (x & k & Hx & Hk & [(e & He & _)|(i & y & ? & ? & ? & ? & ?)])%run_dup_sound; [done|].
    by exists i, x, y, k.
  - apply run_dup_size; [done| |].
    + unfold c, NewDuplicateCache. simpl. case_go; bool_lia.
    + unfold c, NewDuplicateCache. simpl. unfold Zsize. rewrite map_size_empty. case_go; bool_lia.
Qed.
End DuplicateCache.

(** ** Concrete instances *)
Definition wg_packet (counter : byte) : list byte :=
  [x04; x00; x00; x00; x01; x00; x00; x00; counter; x00; x00; x00; x00; x00; x00; x00].

Definition slot_of {A} (b : list byte) (ep : A) : @slot A :=
  {| sl_buf := b ++ replicate (32 - length b) x00; sl_size := length b; sl_ep := ep |}.

Definition example_bind : @FilterBind Z :=
  {| fb_probeHandler := true; fb_controlHandler := None; fb_control := [] |}.

(** A batch of one probe, then a batch of a prime frame between two packets. *)
Lemma wrapReceive_spec_witness :
  exists slots, @receive Z Z Some unit
    [Ok [slot_of (EncodeControlFrame FramePathProbe []) 1];
     Ok [slot_of (wg_packet x01) 1; slot_of (EncodeControlFrame FramePrime []) 2; slot_of (wg_packet x02) 3]]
    example_bind =
    (Some (Ok (2%nat, slots)),
     {| fb_probeHandler := true; fb_controlHandler := None;
        fb_control := [{| cp_Type := FramePrime; cp_Payload := []; cp_From := 2 |}] |},
     [ToProbeHandler FramePathProbe [] 1;
      ToControl {| cp_Type := FramePrime; cp_Payload := []; cp_From := 2 |}]) /\
    content <$> take 2 slots = [(wg_packet x01, 1); (wg_packet x02, 3)].
Proof.
  destruct (@wrapReceive_spec Z Z Some unit 32 [[slot_of (EncodeControlFrame FramePathProbe []) 1]]
    [slot_of (wg_packet x01) 1; slot_of (EncodeControlFrame FramePrime []) 2; slot_of (wg_packet x02) 3]
    [] example_bind) as (slots & Hr & Hc & _).
  - repeat constructor; vm_compute; lia.
  - repeat constructor; vm_compute; lia.
  - vm_compute. discriminate.
  - exists slots. split; [exact Hr|exact Hc].
Defined.

Lemma control_frames_disjoint_witness : isControlFrame (wg_packet x07) = false.
Proof. apply (proj2 control_frames_disjoint). vm_compute. split; discriminate. Defined.

Lemma mtu_probe_roundtrip_witness :
  DecodePathMTUProbe (EncodePathMTUProbe (replicate 12 x2a) 1400) =
    Some {| Nonce := replicate 12 x2a; Target := 1400 |}.
Proof.
  apply (mtu_probe_roundtrip (replicate 12 x2a) 1400); [reflexivity|].
  vm_compute. split; discriminate.
Defined.

(** The second copy within the window is the only one reported. *)
Lemma DuplicateCache_sound_witness :
  exists i, (i < 2)%nat /\
    (DuplicateCache.run
       [{| DuplicateCache.packet := wg_packet x01; DuplicateCache.at_time := 0;
           DuplicateCache.order := map_keys |};
        {| DuplicateCache.packet := wg_packet x02; DuplicateCache.at_time := 1;
           DuplicateCache.order := map_keys |};
        {| DuplicateCache.packet := wg_packet x01; DuplicateCache.at_time := 2;
           DuplicateCache.order := map_keys |}]
       (DuplicateCache.NewDuplicateCache 8 10)).1 !! i = Some false.
Proof.
  destruct (proj1 (DuplicateCache.DuplicateCache_sound 8 10
    [{| DuplicateCache.packet := wg_packet x01; DuplicateCache.at_time := 0;
        DuplicateCache.order := map_keys |};
     {| DuplicateCache.packet := wg_packet x02; DuplicateCache.at_time := 1;
        DuplicateCache.order := map_keys |};
     {| DuplicateCache.packet := wg_packet x01; DuplicateCache.at_time := 2;
        DuplicateCache.order := map_keys |}]
    ltac:(repeat constructor; auto)) 2%nat) as (i & x & y & k & Hi & _ & _ & _ & _ & Hr & _).
  - vm_compute. reflexivity.
  - exists i. split; [exact Hi|exact Hr].
Defined.
