(* ===== verification/UdpSession.v ===== *)
(** [pkg/relay/udpsession.go]: the port allocator and the session table of
    the UDP-relay tier.

    Every method of the table holds its mutex throughout, so each is one
    step.  Sessions are shared by pointer between the table's indexes and the
    forwarders that looked them up: [heap] is what the pointers point to, and
    a session stays there after its release. *)
From S2P Require Import Prelude Bytes Protocol Registry.

(** ** [portAllocator] *)
Module PortAllocator.

(** [conns] maps every pooled port to the local address of its socket; the
    sockets themselves are fixed. *)
Record t := mk {
  conns : gmap Z string;
  free : list Z;
  inUse : gset Z;
}.

Definition newPortAllocator (conns : gmap Z string) : t :=
  mk conns (merge_sort Z.le (map_keys conns)) ∅.

(** The last free port is taken. *)
Definition allocate (p : t) : option (Z * string) * t :=
  match last (free p) with
  | None => (None, p)
  | Some port =>
      (Some (port, default "" (conns p !! port)),
       mk (conns p) (take (length (free p) - 1) (free p)) ({[port]} ∪ inUse p))
  end.

Definition release (port : Z) (p : t) : t :=
  if bool_decide (port ∈ inUse p)
  then mk (conns p) (free p ++ [port]) (inUse p ∖ {[port]})
  else p.

Fixpoint remove_first (port : Z) (l : list Z) : list Z :=
  match l with
  | [] => []
  | x :: l => if x =? port then l else x :: remove_first port l
  end.

Definition disable (port : Z) (p : t) : t :=
  mk (conns p) (remove_first port (free p)) (inUse p ∖ {[port]}).
End PortAllocator.

Section table.
Context {Addr : Type} `{Countable Addr}.

Record counters := mkCounters {
  clientPacketsReceived : Z; clientBytesReceived : Z;
  serverPacketsForwarded : Z; serverBytesForwarded : Z;
  serverPacketsReceived : Z; serverBytesReceived : Z;
  clientPacketsForwarded : Z; clientBytesForwarded : Z;
}.

Definition no_traffic : counters := mkCounters 0 0 0 0 0 0 0 0.

(** [serverConn] is the pooled socket of [serverPort].  [lastActivity] is
    unix nanoseconds, negative once the session is retired. *)
Record udpRelaySession := mkSession {
  us_token : string;
  us_tenant : string;
  us_serverPort : Z;
  us_serverAddr : option Addr;
  us_serverBound : bool;
  us_clientAddr : option Addr;
  us_clientBound : bool;
  us_lastActivity : Z;
  us_counters : counters;
}.

Definition set_server (a : option Addr) (b : bool) (s : udpRelaySession) : udpRelaySession :=
  mkSession (us_token s) (us_tenant s) (us_serverPort s) a b (us_clientAddr s) (us_clientBound s)
    (us_lastActivity s) (us_counters s).
Definition set_client (a : option Addr) (b : bool) (s : udpRelaySession) : udpRelaySession :=
  mkSession (us_token s) (us_tenant s) (us_serverPort s) (us_serverAddr s) (us_serverBound s) a b
    (us_lastActivity s) (us_counters s).
Definition set_activity (z : Z) (s : udpRelaySession) : udpRelaySession :=
  mkSession (us_token s) (us_tenant s) (us_serverPort s) (us_serverAddr s) (us_serverBound s)
    (us_clientAddr s) (us_clientBound s) z (us_counters s).
Definition set_counters (c : counters) (s : udpRelaySession) : udpRelaySession :=
  mkSession (us_token s) (us_tenant s) (us_serverPort s) (us_serverAddr s) (us_serverBound s)
    (us_clientAddr s) (us_clientBound s) (us_lastActivity s) c.

(** The compare-and-swap loop of [touch] ends by storing the clock, or by
    finding the session retired. *)
Definition touch (now : Z) (s : udpRelaySession) : udpRelaySession :=
  if us_lastActivity s <? 0 then s else set_activity now s.

(** The counters are [atomic.Uint64]: additions wrap. *)
Definition clientReceived (n : Z) (s : udpRelaySession) : udpRelaySession :=
  let c := us_counters s in
  set_counters (mkCounters (u64 (clientPacketsReceived c + 1)) (u64 (clientBytesReceived c + n))
    (serverPacketsForwarded c) (serverBytesForwarded c) (serverPacketsReceived c)
    (serverBytesReceived c) (clientPacketsForwarded c) (clientBytesForwarded c)) s.
Definition serverForwarded (n : Z) (s : udpRelaySession) : udpRelaySession :=
  let c := us_counters s in
  set_counters (mkCounters (clientPacketsReceived c) (clientBytesReceived c)
    (u64 (serverPacketsForwarded c + 1)) (u64 (serverBytesForwarded c + n)) (serverPacketsReceived c)
    (serverBytesReceived c) (clientPacketsForwarded c) (clientBytesForwarded c)) s.
Definition serverReceived (n : Z) (s : udpRelaySession) : udpRelaySession :=
  let c := us_counters s in
  set_counters (mkCounters (clientPacketsReceived c) (clientBytesReceived c)
    (serverPacketsForwarded c) (serverBytesForwarded c) (u64 (serverPacketsReceived c + 1))
    (u64 (serverBytesReceived c + n)) (clientPacketsForwarded c) (clientBytesForwarded c)) s.
Definition clientForwarded (n : Z) (s : udpRelaySession) : udpRelaySession :=
  let c := us_counters s in
  set_counters (mkCounters (clientPacketsReceived c) (clientBytesReceived c)
    (serverPacketsForwarded c) (serverBytesForwarded c) (serverPacketsReceived c)
    (serverBytesReceived c) (u64 (clientPacketsForwarded c + 1)) (u64 (clientBytesForwarded c + n))) s.

Record udpSessionTable := mkTable {
  alloc : PortAllocator.t;
  byToken : gmap string Z;
  byPort : gmap Z Z;
  byClient : gmap Addr Z;
  tenantN : gmap string Z;
  max_sessions : Z;
  heap : gmap Z udpRelaySession;
}.

Definition set_heap (h : gmap Z udpRelaySession) (t : udpSessionTable) : udpSessionTable :=
  mkTable (alloc t) (byToken t) (byPort t) (byClient t) (tenantN t) (max_sessions t) h.
Definition update (r : Z) (f : udpRelaySession -> udpRelaySession) (t : udpSessionTable) :
    udpSessionTable := set_heap (alter f r (heap t)) t.

(** Of the limits only [MaxUDPRelaySessionsPerServer] is read. *)
Definition newUDPSessionTable (a : PortAllocator.t) (lim : Limits) : udpSessionTable :=
  mkTable a ∅ ∅ ∅ ∅ (MaxUDPRelaySessionsPerServer lim) ∅.

Inductive alloc_error : Type := ErrUDPRelayTenantAtCapacity | ErrPoolExhausted | ErrToken.

(** [tok] is what [randomConnID] returned, [r] the address of the new
    session. *)
Definition Allocate (now : Z) (tenant : string) (tok : option string) (r : Z)
    (t : udpSessionTable) : result alloc_error (string * string) * udpSessionTable :=
  let n := default 0 (tenantN t !! tenant) in
  if max_sessions t <=? n then (Err ErrUDPRelayTenantAtCapacity, t)
  else
    match PortAllocator.allocate (alloc t) with
    | (None, _) => (Err ErrPoolExhausted, t)
    | (Some (port, addr), a) =>
        match tok with
        | None => (Err ErrToken,
            mkTable (PortAllocator.release port a) (byToken t) (byPort t) (byClient t) (tenantN t)
              (max_sessions t) (heap t))
        | Some tok =>
            let s := touch now (mkSession tok tenant port None false None false 0 no_traffic) in
            (Ok (tok, addr),
             mkTable a (<[tok := r]> (byToken t)) (<[port := r]> (byPort t)) (byClient t)
               (<[tenant := n + 1]> (tenantN t)) (max_sessions t) (<[r := s]> (heap t)))
        end
    end.

Definition BindServer (now : Z) (token : string) (from : Addr) (t : udpSessionTable) :
    option Z * udpSessionTable :=
  match byToken t !! token with
  | None => (None, t)
  | Some r => (Some r, update r (fun s => touch now (set_server (Some from) true s)) t)
  end.

Definition BindClient (now : Z) (token : string) (from : Addr) (t : udpSessionTable) :
    option Z * udpSessionTable :=
  match byToken t !! token with
  | None => (None, t)
  | Some r =>
      match heap t !! r with
      | None => (None, t)
      | Some s =>
          let prev := us_clientAddr s in
          let prevBound := us_clientBound s in
          let h := <[r := touch now (set_client (Some from) true s)]> (heap t) in
          let bc :=
            match prev with
            | Some a =>
                if prevBound && negb (bool_decide (a = from)) && bool_decide (byClient t !! a = Some r)
                then delete a (byClient t) else byClient t
            | None => byClient t
            end in
          (Some r, mkTable (alloc t) (byToken t) (byPort t) (<[from := r]> bc) (tenantN t)
                     (max_sessions t) h)
      end
  end.

Definition knownClientBind (token : string) (from : Addr) (t : udpSessionTable) : bool :=
  match byToken t !! token with
  | None => false
  | Some r =>
      if bool_decide (byClient t !! from = Some r) then
        match heap t !! r with
        | Some s => us_clientBound s && bool_decide (us_clientAddr s = Some from)
        | None => false
        end
      else false
  end.

Definition LookupByClientAddr (a : Addr) (t : udpSessionTable) : option Z := byClient t !! a.
Definition sessionForPort (port : Z) (t : udpSessionTable) : option Z := byPort t !! port.

(** The sessions of a tenant, in the order [range] meets [byToken]. *)
Definition StatsForTenant (ord : gmap string Z -> list string) (tenant : string)
    (t : udpSessionTable) : list (string * counters) :=
  omap (fun tok =>
    match byToken t !! tok ≫= fun r => heap t !! r with
    | Some s => if (us_tenant s =? tenant)%string then Some (us_token s, us_counters s) else None
    | None => None
    end) (ord (byToken t)).

Definition releaseLocked (token : string) (t : udpSessionTable) : udpSessionTable :=
  match byToken t !! token with
  | None => t
  | Some r =>
      match heap t !! r with
      | None => t
      | Some s =>
          let n := default 0 (tenantN t !! us_tenant s) - 1 in
          let tn := if n <=? 0 then delete (us_tenant s) (tenantN t)
                    else <[us_tenant s := n]> (tenantN t) in
          let bc :=
            match us_clientAddr s with
            | Some a =>
                if us_clientBound s && bool_decide (byClient t !! a = Some r)
                then delete a (byClient t) else byClient t
            | None => byClient t
            end in
          let s' := set_server (us_serverAddr s) false
                      (set_client (us_clientAddr s) false (set_activity (-1) s)) in
          mkTable (PortAllocator.release (us_serverPort s) (alloc t)) (delete token (byToken t))
            (delete (us_serverPort s) (byPort t)) bc tn (max_sessions t) (<[r := s']> (heap t))
      end
  end.

Definition Release (token : string) (t : udpSessionTable) : udpSessionTable := releaseLocked token t.

Definition disablePort (port : Z) (t : udpSessionTable) : udpSessionTable :=
  let t := mkTable (PortAllocator.disable port (alloc t)) (byToken t) (byPort t) (byClient t)
             (tenantN t) (max_sessions t) (heap t) in
  match byPort t !! port with
  | Some r => match heap t !! r with Some s => releaseLocked (us_token s) t | None => t end
  | None => t
  end.

(** One session of [sweepOnce].  [touched] is the activity a forwarder may
    store between the load and the compare-and-swap, which then fails. *)
Definition sweep_one (now idleTimeout : Z) (touched : option Z) (token : string)
    (t : udpSessionTable) : udpSessionTable :=
  match byToken t !! token with
  | None => t
  | Some r =>
      match heap t !! r with
      | None => t
      | Some s =>
          let last := us_lastActivity s in
          if (0 <=? last) && (idleTimeout <? time_sub now last) then
            match touched with
            | Some at_ => let t := update r (touch at_) t in
                if at_ =? last then releaseLocked token t else t
            | None => releaseLocked token t
            end
          else t
      end
  end.

Definition sweepOnce (ord : gmap string Z -> list string) (now idleTimeout : Z)
    (touched : string -> option Z) (t : udpSessionTable) : udpSessionTable :=
  foldl (fun t tok => sweep_one now idleTimeout (touched tok) tok t) t (ord (byToken t)).

(** ** The invariant

    The indexes describe one set of live sessions; the pool's free and
    reserved ports divide the pooled ports that have not been disabled. *)
Definition tenant_is (h : gmap Z udpRelaySession) (tn : string) (r : Z) : bool :=
  match h !! r with Some s => (us_tenant s =? tn)%string | None => false end.

Record index_ok (t : udpSessionTable) : Prop := {
  ix_port : forall p r, byPort t !! p = Some r -> exists s,
    heap t !! r = Some s /\ us_serverPort s = p /\ byToken t !! us_token s = Some r;
  ix_token : forall tok r, byToken t !! tok = Some r -> exists s,
    heap t !! r = Some s /\ us_token s = tok /\ byPort t !! us_serverPort s = Some r;
  ix_client : forall a r, byClient t !! a = Some r -> exists s,
    heap t !! r = Some s /\ us_clientAddr s = Some a /\ us_clientBound s = true /\
    byToken t !! us_token s = Some r;
  ix_tenant : forall tn, default 0 (tenantN t !! tn) = countZ (tenant_is (heap t) tn) (byToken t);
  ix_quota : forall tn n, tenantN t !! tn = Some n -> 0 < n <= max_sessions t;
}.

Record pool_ok (a : PortAllocator.t) (bp : gmap Z Z) (disabled : gset Z) : Prop := {
  pl_nodup : NoDup (PortAllocator.free a);
  pl_apart : forall p, p ∈ PortAllocator.free a -> p ∉ PortAllocator.inUse a;
  pl_pool : forall p, p ∈ PortAllocator.free a \/ p ∈ PortAllocator.inUse a <->
    is_Some (PortAllocator.conns a !! p) /\ p ∉ disabled;
  pl_busy : forall p, p ∈ PortAllocator.inUse a <-> is_Some (bp !! p);
}.

Record table_ok (disabled : gset Z) (t : udpSessionTable) : Prop := {
  tb_index : index_ok t;
  tb_pool : pool_ok (alloc t) (byPort t) disabled;
}.

(** *** The pool *)
Lemma pool_new conns : pool_ok (PortAllocator.newPortAllocator conns) ∅ ∅.
Proof.
  assert (merge_sort Z.le (map_keys conns) ≡ₚ map_keys conns) as Hp by apply merge_sort_Permutation.
  constructor; simpl.
  - rewrite Hp. by apply (NoDup_ranges map_keys).
  - set_solver.
  - intros p. rewrite Hp, elem_of_map_keys. set_solver.
  - intros p. rewrite lookup_empty, is_Some_alt. set_solver.
Qed.

Lemma last_split {A} (l : list A) x : last l = Some x -> l = take (length l - 1) l ++ [x].
Proof.
  intros [l' ->]%last_Some. rewrite length_app. simpl.
  by rewrite Nat.add_sub, take_app_length.
Qed.

Lemma pool_allocate a bp D port addr a' r :
  pool_ok a bp D -> PortAllocator.allocate a = (Some (port, addr), a') ->
  bp !! port = None /\ pool_ok a' (<[port := r]> bp) D /\ port ∈ PortAllocator.free a.
Proof.
  intros [Hnd Hap Hpool Hbusy]. unfold PortAllocator.allocate.
  destruct (last (PortAllocator.free a)) as [p|] eqn:El; [|done]. intros [= -> _ <-].
  pose proof (last_split _ _ El) as Hsp. set (fr := take _ _) in *.
  assert (port ∈ PortAllocator.free a) as Hin by (rewrite Hsp; set_solver).
  rewrite Hsp in Hnd. apply NoDup_app in Hnd as (Hnd & Hx & _).
  assert (port ∉ fr) as Hnot by (intros Hc; apply (Hx port Hc); set_solver).
  assert (bp !! port = None) as Hnone.
  { apply eq_None_not_Some. intros Hs%Hbusy. by apply (Hap port). }
  split_and!; [done| |done]. constructor; simpl.
  - done.
  - intros p Hp. assert (p ∈ PortAllocator.free a) by (rewrite Hsp; set_solver).
    specialize (Hap p). set_solver.
  - intros p. rewrite <-Hpool, Hsp. set_solver.
  - intros p. rewrite elem_of_union, elem_of_singleton, Hbusy, lookup_insert. case_decide.
    + split; [by eexists|auto].
    + split; [intros [?|?]; [by subst|done]|auto].
Qed.

Lemma pool_release a bp D port :
  pool_ok a bp D -> is_Some (bp !! port) ->
  pool_ok (PortAllocator.release port a) (delete port bp) D.
Proof.
  intros [Hnd Hap Hpool Hbusy] Hb%Hbusy. unfold PortAllocator.release.
  rewrite bool_decide_true by done. constructor; simpl.
  - apply NoDup_app. split_and!; [done| |by apply NoDup_singleton].
    intros x Hx ->%list_elem_of_singleton. by apply (Hap port).
  - intros p. rewrite elem_of_app, list_elem_of_singleton, elem_of_difference, elem_of_singleton.
    specialize (Hap p). naive_solver.
  - intros p. rewrite <-Hpool, elem_of_app, list_elem_of_singleton, elem_of_difference, elem_of_singleton.
    destruct (decide (p = port)) as [->|]; naive_solver.
  - intros p. rewrite elem_of_difference, elem_of_singleton, Hbusy, lookup_delete_is_Some. naive_solver.
Qed.

Lemma elem_of_remove_first p port l :
  NoDup l -> p ∈ PortAllocator.remove_first port l <-> p ∈ l /\ p <> port.
Proof.
  induction l as [|x l IH]; intros Hnd; simpl; [set_solver|].
  apply NoDup_cons in Hnd as [Hx Hnd]. destruct (x =? port) eqn:E; bool_to_prop.
  - subst. set_solver.
  - rewrite !elem_of_cons, IH by done. naive_solver.
Qed.

Lemma NoDup_remove_first port l : NoDup l -> NoDup (PortAllocator.remove_first port l).
Proof.
  induction l as [|x l IH]; intros Hnd; simpl; [done|].
  pose proof Hnd as Hnd'. apply NoDup_cons in Hnd' as [Hx Hnd']. destruct (x =? port); [done|].
  apply NoDup_cons. split; [|auto]. rewrite elem_of_remove_first by done. naive_solver.
Qed.

(** Disabled first, a port is not given back when its session is released. *)
Lemma pool_disable a bp D port :
  pool_ok a bp D ->
  PortAllocator.release port (PortAllocator.disable port a) = PortAllocator.disable port a /\
  pool_ok (PortAllocator.disable port a) (delete port bp) ({[port]} ∪ D).
Proof.
  intros [Hnd Hap Hpool Hbusy]. split.
  { unfold PortAllocator.release. rewrite bool_decide_false; [done|]. simpl. set_solver. }
  constructor; simpl.
  - by apply NoDup_remove_first.
  - intros p. rewrite elem_of_remove_first by done. specialize (Hap p). set_solver.
  - intros p. rewrite elem_of_remove_first by done. specialize (Hpool p). set_solver.
  - intros p. rewrite elem_of_difference, elem_of_singleton, Hbusy, lookup_delete_is_Some. naive_solver.
Qed.

(** *** The indexes *)

(** An update that keeps a session's identity and client leg. *)
Definition keeps_identity (f : udpRelaySession -> udpRelaySession) : Prop :=
  forall s, us_token (f s) = us_token s /\ us_tenant (f s) = us_tenant s /\
    us_serverPort (f s) = us_serverPort s /\ us_clientAddr (f s) = us_clientAddr s /\
    us_clientBound (f s) = us_clientBound s.

Lemma touch_keeps now : keeps_identity (touch now).
Proof. intros s. unfold touch. by destruct (_ <? 0). Qed.

Lemma set_server_keeps a b : keeps_identity (set_server a b).
Proof. by intros s. Qed.

Lemma counters_keep f : (forall s, exists c, f s = set_counters c s) -> keeps_identity f.
Proof. intros Hf s. by destruct (Hf s) as [c ->]. Qed.

Lemma compose_keeps f g : keeps_identity f -> keeps_identity g -> keeps_identity (fun s => f (g s)).
Proof.
  intros Hf Hg s. destruct (Hf (g s)) as (-> & -> & -> & -> & ->). apply Hg.
Qed.

Lemma lookup_update r f t r' :
  heap (update r f t) !! r' = (if decide (r = r') then f <$> heap t !! r' else heap t !! r').
Proof.
  unfold update, set_heap. simpl. destruct (decide (r = r')) as [->|].
  - by rewrite lookup_alter_eq.
  - by rewrite lookup_alter_ne.
Qed.

Lemma index_ok_update r f t : keeps_identity f -> index_ok t -> index_ok (update r f t).
Proof.
  intros Hf [Hp Htok Hc Htn Hq].
  assert (forall r' s, heap t !! r' = Some s -> exists s', heap (update r f t) !! r' = Some s' /\
    us_token s' = us_token s /\ us_tenant s' = us_tenant s /\ us_serverPort s' = us_serverPort s /\
    us_clientAddr s' = us_clientAddr s /\ us_clientBound s' = us_clientBound s) as Hheap.
  { intros r' s Hs. rewrite lookup_update. case_decide; rewrite Hs; simpl; [|eauto 10].
    exists (f s). split; [done|apply Hf]. }
  constructor; simpl; [| | | |done].
  - intros p r' Hr. destruct (Hp p r' Hr) as (s & Hs & E1 & E2).
    destruct (Hheap r' s Hs) as (s' & ? & E3 & ? & E4 & _). exists s'. rewrite E3, E4. auto.
  - intros tok r' Hr. destruct (Htok tok r' Hr) as (s & Hs & E1 & E2).
    destruct (Hheap r' s Hs) as (s' & ? & E3 & ? & E4 & _). exists s'. rewrite E3, E4. auto.
  - intros a r' Hr. destruct (Hc a r' Hr) as (s & Hs & E1 & E2 & E3).
    destruct (Hheap r' s Hs) as (s' & ? & E4 & ? & ? & E5 & E6). exists s'.
    rewrite E4, E5, E6. auto.
  - intros tn. rewrite Htn. apply countZ_ext. intros tok r' Hr. unfold tenant_is.
    destruct (Htok tok r' Hr) as (s & Hs & _).
    destruct (Hheap r' s Hs) as (s' & Hs' & _ & E & _). simpl in Hs'. by rewrite Hs, Hs', E.
Qed.

(** [tenantN] is a count again after [b2z] more or less for one tenant. *)
Lemma tenant_is_eq h r s tn : h !! r = Some s -> tenant_is h tn r = (us_tenant s =? tn)%string.
Proof. unfold tenant_is. by intros ->. Qed.

Lemma index_ok_allocate t r tok port s :
  index_ok t -> heap t !! r = None -> byToken t !! tok = None -> byPort t !! port = None ->
  us_token s = tok -> us_serverPort s = port ->
  default 0 (tenantN t !! us_tenant s) < max_sessions t ->
  forall a, index_ok (mkTable a (<[tok := r]> (byToken t)) (<[port := r]> (byPort t)) (byClient t)
    (<[us_tenant s := default 0 (tenantN t !! us_tenant s) + 1]> (tenantN t)) (max_sessions t)
    (<[r := s]> (heap t))).
Proof.
  intros [Hp Htok Hc Htn Hq] Hr Ht Hport Hst Hsp Hroom a.
  assert (forall r' s', heap t !! r' = Some s' -> <[r := s]> (heap t) !! r' = Some s') as Hh.
  { intros r' s' Hs'. rewrite lookup_insert_ne; [done|]. intros ->. congruence. }
  constructor; simpl.
  - intros p r'. rewrite lookup_insert. case_decide; [intros [= <-]|intros Hp'].
    + exists s. by rewrite lookup_insert_eq, Hst, lookup_insert_eq, Hsp.
    + destruct (Hp p r' Hp') as (s' & Hs' & E1 & E2). exists s'. split; [by apply Hh|].
      rewrite lookup_insert_ne by congruence. auto.
  - intros tok' r'. rewrite lookup_insert. case_decide; [intros [= <-]|intros Ht'].
    + exists s. by rewrite lookup_insert_eq, Hsp, lookup_insert_eq, Hst.
    + destruct (Htok tok' r' Ht') as (s' & Hs' & E1 & E2). exists s'. split; [by apply Hh|].
      rewrite lookup_insert_ne by congruence. auto.
  - intros c r' Hr'. destruct (Hc c r' Hr') as (s' & Hs' & E1 & E2 & E3). exists s'.
    split; [by apply Hh|]. rewrite lookup_insert_ne by congruence. auto.
  - intros tn. rewrite countZ_fresh by done.
    rewrite (countZ_ext _ (tenant_is (heap t) tn)), <-Htn.
    2:{ intros k v Hv. destruct (Htok k v Hv) as (s' & Hs' & _).
        by rewrite (tenant_is_eq _ v s'), (tenant_is_eq (heap t) v s') by auto. }
    rewrite (tenant_is_eq _ r s) by apply lookup_insert_eq. rewrite lookup_insert.
    case_decide as E.
    + rewrite E, String.eqb_refl. simpl. lia.
    + rewrite (proj2 (String.eqb_neq _ _)) by done. simpl. lia.
  - intros tn n. rewrite lookup_insert. case_decide; [intros [= <-]|by apply Hq].
    destruct (tenantN t !! us_tenant s) as [m|] eqn:Em; simpl in *; [|lia].
    specialize (Hq _ _ Em). lia.
Qed.

Lemma index_ok_release t token :
  index_ok t -> forall a, index_ok (mkTable a (byToken (releaseLocked token t))
    (byPort (releaseLocked token t)) (byClient (releaseLocked token t))
    (tenantN (releaseLocked token t)) (max_sessions t) (heap (releaseLocked token t))).
Proof.
  intros Hok a. unfold releaseLocked. destruct (byToken t !! token) as [r|] eqn:Er; [|by destruct Hok].
  destruct Hok as [Hp Htok Hc Htn Hq]. destruct (Htok token r Er) as (s & Hs & Hst & Hsp).
  rewrite Hs. cbn [byToken byPort byClient tenantN heap].
  set (s' := set_server _ _ _).
  assert (forall tok' r', tok' <> token -> byToken t !! tok' = Some r' -> r' <> r) as Hne.
  { intros tok' r' Hn Hr' ->. destruct (Htok tok' r Hr') as (s2 & Hs2 & E & _). congruence. }
  constructor; simpl.
  - intros p r' [Hpn Hp']%lookup_delete_Some. destruct (Hp p r' Hp') as (s2 & Hs2 & E1 & E2).
    assert (r' <> r) by congruence. exists s2. rewrite lookup_insert_ne by done.
    rewrite lookup_delete_ne by congruence. auto.
  - intros tok' r' [Hn Hr']%lookup_delete_Some.
    destruct (Htok tok' r' Hr') as (s2 & Hs2 & E1 & E2). assert (r' <> r) by eauto.
    exists s2. rewrite lookup_insert_ne by done. rewrite lookup_delete_ne; [auto|].
    intros E. rewrite <-E in E2. congruence.
  - intros c r' Hr'.
    assert (byClient t !! c = Some r' /\ r' <> r) as [Hr2 Hnr].
    { destruct (us_clientAddr s) as [ca|] eqn:Eca.
      - destruct (us_clientBound s && _) eqn:Eb.
        + apply lookup_delete_Some in Hr' as [Hca Hr']. split; [done|]. intros ->.
          destruct (Hc c r Hr') as (s2 & Hs2 & E1 & _). congruence.
        + split; [done|]. intros ->. destruct (Hc c r Hr') as (s2 & Hs2 & E1 & E2 & _).
          assert (s2 = s) as -> by congruence. assert (c = ca) as -> by congruence.
          rewrite E2, bool_decide_true in Eb; done.
      - split; [done|]. intros ->. destruct (Hc c r Hr') as (s2 & Hs2 & E1 & _). congruence. }
    destruct (Hc c r' Hr2) as (s2 & Hs2 & E1 & E2 & E3). exists s2.
    rewrite lookup_insert_ne by done. rewrite lookup_delete_ne; [auto|].
    intros E. rewrite <-E in E3. congruence.
  - intros tn. rewrite (countZ_delete _ _ _ r) by done.
    rewrite (countZ_ext _ (tenant_is (heap t) tn)), <-Htn.
    2:{ intros k v Hv. destruct (Htok k v Hv) as (s2 & Hs2 & _).
        destruct (decide (v = r)) as [->|].
        - rewrite (tenant_is_eq _ r s'), (tenant_is_eq _ r s); [done|done|apply lookup_insert_eq].
        - rewrite (tenant_is_eq _ v s2), (tenant_is_eq _ v s2); [done|done|by rewrite lookup_insert_ne]. }
    rewrite (tenant_is_eq _ r s') by apply lookup_insert_eq. change (us_tenant s') with (us_tenant s).
    destruct (_ <=? 0) eqn:E0; rewrite ?lookup_delete, ?lookup_insert; case_decide as E.
    + subst. rewrite String.eqb_refl. simpl. bool_to_prop.
      rewrite Htn in E0. pose proof (countZ_pos (tenant_is (heap t) (us_tenant s)) _ _ _ Er) as Hpos.
      rewrite (tenant_is_eq _ r s), String.eqb_refl in Hpos by done.
      rewrite Htn. specialize (Hpos eq_refl). lia.
    + rewrite (proj2 (String.eqb_neq _ _)) by done. simpl. lia.
    + subst. rewrite String.eqb_refl. simpl. lia.
    + rewrite (proj2 (String.eqb_neq _ _)) by done. simpl. lia.
  - intros tn n. destruct (_ <=? 0) eqn:E0; rewrite ?lookup_delete, ?lookup_insert; case_decide;
      try done; try (by apply Hq). intros [= <-]. bool_to_prop.
    destruct (tenantN t !! us_tenant s) as [m|] eqn:Em; simpl in *; [|lia].
    specialize (Hq _ _ Em). lia.
Qed.

Lemma index_ok_bind_client now token from t :
  index_ok t -> index_ok (BindClient now token from t).2.
Proof.
  intros Hok. unfold BindClient. destruct (byToken t !! token) as [r|] eqn:Er; [|done].
  destruct (heap t !! r) as [s|] eqn:Hs; [|done].
  destruct Hok as [Hp Htok Hc Htn Hq]. simpl.
  destruct (Htok token r Er) as (s0 & Hs0 & Hst & Hsp). rewrite Hs in Hs0. simplify_eq.
  set (s' := touch now _).
  assert (us_token s' = us_token s0 /\ us_tenant s' = us_tenant s0 /\
    us_serverPort s' = us_serverPort s0 /\ us_clientAddr s' = Some from /\ us_clientBound s' = true)
    as (E1 & E2 & E3 & E4 & E5).
  { unfold s'. destruct (touch_keeps now (set_client (Some from) true s0)) as (-> & -> & -> & -> & ->).
    done. }
  assert (forall r', heap t !! r' = None \/ exists s2 s3, heap t !! r' = Some s2 /\
    <[r := s']> (heap t) !! r' = Some s3 /\ us_token s3 = us_token s2 /\ us_tenant s3 = us_tenant s2 /\
    us_serverPort s3 = us_serverPort s2 /\ (r' <> r -> s3 = s2)) as Hheap.
  { intros r'. destruct (heap t !! r') as [s2|] eqn:E; [right|by left]. exists s2.
    destruct (decide (r' = r)) as [->|].
    - exists s'. rewrite lookup_insert_eq. assert (s2 = s0) as -> by congruence. naive_solver.
    - exists s2. by rewrite lookup_insert_ne. }
  constructor; simpl; [| | | |done].
  - intros p r' Hr'. destruct (Hp p r' Hr') as (s2 & Hs2 & Q1 & Q2).
    destruct (Hheap r') as [|(s2' & s3 & ? & ? & ? & ? & ? & _)]; [congruence|]. simplify_eq.
    exists s3. split_and!; congruence.
  - intros tok r' Hr'. destruct (Htok tok r' Hr') as (s2 & Hs2 & Q1 & Q2).
    destruct (Hheap r') as [|(s2' & s3 & ? & ? & ? & ? & ? & _)]; [congruence|]. simplify_eq.
    exists s3. split_and!; congruence.
  - intros c r'. rewrite lookup_insert. case_decide as Ec.
    + intros [= <-]. subst. exists s'. rewrite lookup_insert_eq, E1, E4, E5. auto.
    + intros Hr'.
      assert (byClient t !! c = Some r' /\ r' <> r) as [Hr2 Hnr].
      { destruct (us_clientAddr s0) as [ca|] eqn:Eca.
        - destruct (us_clientBound s0 && _ && _) eqn:Eb.
          + apply lookup_delete_Some in Hr' as [Hca Hr']. split; [done|]. intros ->.
            destruct (Hc c r Hr') as (s2 & Hs2 & Q1 & _). congruence.
          + split; [done|]. intros ->. destruct (Hc c r Hr') as (s2 & Hs2 & Q1 & Q2 & _).
            assert (s2 = s0) as -> by congruence. assert (c = ca) as -> by congruence.
            rewrite Q2, bool_decide_false, bool_decide_true in Eb; done.
        - split; [done|]. intros ->. destruct (Hc c r Hr') as (s2 & Hs2 & Q1 & _). congruence. }
      destruct (Hc c r' Hr2) as (s2 & Hs2 & Q1 & Q2 & Q3). exists s2.
      rewrite lookup_insert_ne by done. auto.
  - intros tn. rewrite Htn. apply countZ_ext. intros k v Hv.
    destruct (Htok k v Hv) as (s2 & Hs2 & _).
    destruct (Hheap v) as [|(s2' & s3 & ? & ? & ? & E & ? & _)]; [congruence|]. simplify_eq.
    by rewrite (tenant_is_eq (heap t) v s2), (tenant_is_eq _ v s3), E.
Qed.

(** ** Operations in any order *)
Inductive udp_op : Type :=
  | OAllocate (now : Z) (tenant : string) (tok : option string) (r : Z)
  | OBindServer (now : Z) (token : string) (from : Addr)
  | OBindClient (now : Z) (token : string) (from : Addr)
  | ORelease (token : string)
  | ODisable (port : Z)
  | OSweep (ord : gmap string Z -> list string) (now idle : Z) (touched : string -> option Z)
  | OTouch (now r : Z)
  | OCount (f : counters -> counters) (r : Z).

(** [None] only for an address or a token that is not new. *)
Definition udp_step (o : udp_op) (t : udpSessionTable) : option udpSessionTable :=
  match o with
  | OAllocate now tenant tok r =>
      match heap t !! r, tok ≫= fun k => byToken t !! k with
      | None, None => Some (Allocate now tenant tok r t).2
      | _, _ => None
      end
  | OBindServer now token from => Some (BindServer now token from t).2
  | OBindClient now token from => Some (BindClient now token from t).2
  | ORelease token => Some (Release token t)
  | ODisable port => Some (disablePort port t)
  | OSweep ord now idle touched => Some (sweepOnce ord now idle touched t)
  | OTouch now r => Some (update r (touch now) t)
  | OCount f r => Some (update r (fun s => set_counters (f (us_counters s)) s) t)
  end.

Fixpoint udp_run (os : list udp_op) (t : udpSessionTable) : option udpSessionTable :=
  match os with
  | [] => Some t
  | o :: os => match udp_step o t with Some t => udp_run os t | None => None end
  end.

(** The ports whose reader has stopped. *)
Definition disabled_by (os : list udp_op) : gset Z :=
  list_to_set (omap (fun o => match o with ODisable p => Some p | _ => None end) os).

Lemma releaseLocked_alloc t token :
  index_ok t ->
  (byToken t !! token = None /\ releaseLocked token t = t) \/
  exists r s, byToken t !! token = Some r /\ heap t !! r = Some s /\
    is_Some (byPort t !! us_serverPort s) /\
    alloc (releaseLocked token t) = PortAllocator.release (us_serverPort s) (alloc t) /\
    byPort (releaseLocked token t) = delete (us_serverPort s) (byPort t).
Proof.
  intros Hok. unfold releaseLocked. destruct (byToken t !! token) as [r|] eqn:Er; [right|by left].
  destruct (ix_token t Hok token r Er) as (s & Hs & _ & Hp). rewrite Hs. exists r, s.
  split_and!; [done|done|by eexists|done|done].
Qed.

Lemma releaseLocked_max token t : max_sessions (releaseLocked token t) = max_sessions t.
Proof. unfold releaseLocked. by repeat case_match. Qed.

Lemma index_ok_alloc t a : index_ok t ->
  index_ok (mkTable a (byToken t) (byPort t) (byClient t) (tenantN t) (max_sessions t) (heap t)).
Proof. by intros []. Qed.

Lemma index_ok_releaseLocked t token : index_ok t -> index_ok (releaseLocked token t).
Proof.
  intros Hok. pose proof (index_ok_release t token Hok (alloc (releaseLocked token t))) as Hr.
  destruct (releaseLocked token t) eqn:E. pose proof (releaseLocked_max token t) as Hm.
  rewrite E in Hm. simpl in *. by subst.
Qed.

Lemma table_ok_releaseLocked D t token : table_ok D t -> table_ok D (releaseLocked token t).
Proof.
  intros [Hi Hp]. constructor; [by apply index_ok_releaseLocked|].
  destruct (releaseLocked_alloc t token Hi) as [[_ ->]|(r & s & _ & _ & Hs & -> & ->)]; [done|].
  by apply pool_release.
Qed.

Lemma table_ok_update D t r f : keeps_identity f -> table_ok D t -> table_ok D (update r f t).
Proof. intros Hf [Hi Hp]. constructor; [by apply index_ok_update|done]. Qed.

Lemma table_ok_sweep_one D now idle touched tok t :
  table_ok D t -> table_ok D (sweep_one now idle touched tok t).
Proof.
  intros Hok. unfold sweep_one. destruct (byToken t !! tok) as [r|]; [|done].
  destruct (heap t !! r) as [s|]; [|done]. destruct (_ && _); [|done].
  destruct touched as [at_|]; [|by apply table_ok_releaseLocked].
  assert (table_ok D (update r (touch at_) t)) by (apply table_ok_update; [apply touch_keeps|done]).
  destruct (_ =? _); [by apply table_ok_releaseLocked|done].
Qed.

Lemma table_ok_allocate D now tenant tok r t :
  table_ok D t -> heap t !! r = None -> (tok ≫= fun k => byToken t !! k) = None ->
  table_ok D (Allocate now tenant tok r t).2.
Proof.
  intros [Hi Hp] Hr Hk. unfold Allocate. destruct (_ <=? _) eqn:Eq; [done|].
  destruct (PortAllocator.allocate (alloc t)) as [[[port addr]|] a] eqn:Ea; [|done].
  destruct (pool_allocate _ _ _ _ _ _ r Hp Ea) as (Hnone & Hpa & _).
  destruct tok as [tok|]; simpl.
  - set (s := touch now _). assert (us_token s = tok /\ us_tenant s = tenant /\ us_serverPort s = port)
      as (E1 & E2 & E3).
    { unfold s. destruct (touch_keeps now (mkSession tok tenant port None false None false 0 no_traffic))
        as (-> & -> & -> & _). done. }
    bool_to_prop. constructor; simpl; [|done]. rewrite <-E2.
    apply index_ok_allocate; try done.
  - constructor; simpl; [by apply index_ok_alloc|].
    apply (pool_release _ _ _ port) in Hpa; [|by rewrite lookup_insert_eq].
    by rewrite delete_insert_id in Hpa.
Qed.

Lemma table_ok_disable D port t : table_ok D t -> table_ok ({[port]} ∪ D) (disablePort port t).
Proof.
  intros [Hi Hp]. unfold disablePort. simpl.
  destruct (pool_disable _ _ _ port Hp) as [Hrel Hpd].
  set (t1 := mkTable (PortAllocator.disable port (alloc t)) _ _ _ _ _ _).
  assert (index_ok t1) as Hi1 by by apply index_ok_alloc.
  destruct (byPort t !! port) as [r|] eqn:Er.
  - destruct (ix_port t Hi port r Er) as (s & Hs & Hsp & Htok). rewrite Hs.
    constructor; [by apply index_ok_releaseLocked|].
    destruct (releaseLocked_alloc t1 (us_token s) Hi1) as [[Hn _]|(r' & s' & Hr' & Hs' & _ & -> & ->)].
    + simpl in Hn. congruence.
    + simpl in Hr', Hs'. assert (s' = s) as -> by congruence. rewrite Hsp. simpl. by rewrite Hrel.
  - constructor; [done|]. by rewrite delete_id in Hpd.
Qed.

Lemma udp_step_ok D o t t' :
  table_ok D t -> udp_step o t = Some t' -> table_ok (disabled_by [o] ∪ D) t'.
Proof.
  intros Hok Hs. destruct o; simpl in Hs |- *; unfold disabled_by; simpl;
    rewrite ?(left_id_L ∅ (∪)), ?(right_id_L ∅ (∪)).
  - destruct (heap t !! r) eqn:Er; [done|]. destruct (tok ≫= _) eqn:Ek; [done|]. simplify_eq.
    by apply table_ok_allocate.
  - simplify_eq. unfold BindServer. destruct (byToken t !! token); [|done].
    apply table_ok_update; [|done]. apply (compose_keeps (touch now)); [apply touch_keeps|apply set_server_keeps].
  - simplify_eq. destruct Hok as [Hi Hp].
    constructor; [by apply index_ok_bind_client|]. unfold BindClient. by repeat case_match.
  - simplify_eq. by apply table_ok_releaseLocked.
  - simplify_eq. by apply table_ok_disable.
  - simplify_eq. unfold sweepOnce. generalize (ord (byToken t)). intros ks. revert t Hok.
    induction ks as [|k ks IH]; intros t Hok; simpl; [done|]. by apply IH, table_ok_sweep_one.
  - simplify_eq. by apply table_ok_update; [apply touch_keeps|].
  - simplify_eq. apply table_ok_update; [|done]. by intros s.
Qed.

Lemma udp_run_ok D os t t' :
  table_ok D t -> udp_run os t = Some t' -> table_ok (disabled_by os ∪ D) t'.
Proof.
  revert D t. induction os as [|o os IH]; intros D t Hok; simpl.
  { intros [= <-]. unfold disabled_by. simpl. by rewrite (left_id_L ∅ (∪)). }
  destruct (udp_step o t) as [t1|] eqn:E; [|done]. intros Hr.
  specialize (IH _ t1 (udp_step_ok D o t t1 Hok E) Hr).
  enough (disabled_by (o :: os) ∪ D = disabled_by os ∪ (disabled_by [o] ∪ D)) as -> by done.
  unfold disabled_by. destruct o; simpl; set_solver.
Qed.

Lemma sweepOnce_max ord now idle touched t :
  max_sessions (sweepOnce ord now idle touched t) = max_sessions t.
Proof.
  unfold sweepOnce. generalize (ord (byToken t)). intros ks. revert t.
  induction ks as [|k ks IH]; intros t; simpl; [done|]. rewrite IH. unfold sweep_one.
  repeat case_match; rewrite ?releaseLocked_max; done.
Qed.

Lemma udp_step_max o t t' : udp_step o t = Some t' -> max_sessions t' = max_sessions t.
Proof.
  destruct o; simpl; [|intros [= <-]..]; try done.
  - destruct (heap t !! r); [done|]. destruct (tok ≫= _); [done|]. intros [= <-].
    unfold Allocate. by repeat case_match.
  - unfold BindServer. by case_match.
  - unfold BindClient. by repeat case_match.
  - apply releaseLocked_max.
  - unfold disablePort. simpl. repeat case_match; [|done..]. by rewrite releaseLocked_max.
  - apply sweepOnce_max.
Qed.

Lemma udp_run_max os t t' : udp_run os t = Some t' -> max_sessions t' = max_sessions t.
Proof.
  revert t. induction os as [|o os IH]; intros t; simpl; [by intros [= <-]|].
  destruct (udp_step o t) as [t1|] eqn:E; [|done]. intros Hr.
  rewrite (IH t1 Hr). by apply (udp_step_max o).
Qed.

Definition fresh_table (conns : gmap Z string) (lim : Limits) : udpSessionTable :=
  newUDPSessionTable (PortAllocator.newPortAllocator conns) lim.

Lemma fresh_table_ok conns lim : table_ok ∅ (fresh_table conns lim).
Proof. constructor; [by constructor|]. apply pool_new. Qed.

(** A live session, found by its token, with its reserved port. *)
Definition holds_port (t : udpSessionTable) (tok : string) (r p : Z) : Prop :=
  byToken t !! tok = Some r /\ exists s, heap t !! r = Some s /\ us_token s = tok /\ us_serverPort s = p.

(** C22: whatever the order of allocations, binds, releases, idle sweeps,
    racing traffic and failing sockets, every pooled port whose reader still
    runs is either free, once, or reserved by exactly one live session, and
    a port whose reader has stopped is neither, so it is never handed out
    again.  Live sessions are those a token finds: each has its own port,
    under which traffic finds it too. *)
Theorem udp_ports_conserved conns lim os t (Hrun : udp_run os (fresh_table conns lim) = Some t) :
  NoDup (PortAllocator.free (alloc t)) /\
  (forall p, p ∈ PortAllocator.free (alloc t) \/ p ∈ PortAllocator.inUse (alloc t) <->
     is_Some (PortAllocator.conns (alloc t) !! p) /\ p ∉ disabled_by os) /\
  (forall p, p ∈ PortAllocator.free (alloc t) -> p ∉ PortAllocator.inUse (alloc t)) /\
  (forall p, p ∈ PortAllocator.inUse (alloc t) <-> exists tok r, holds_port t tok r p) /\
  (forall tok r, byToken t !! tok = Some r -> exists p, holds_port t tok r p /\ byPort t !! p = Some r) /\
  (forall p tok1 r1 tok2 r2, holds_port t tok1 r1 p -> holds_port t tok2 r2 p -> tok1 = tok2 /\ r1 = r2).
Proof.
  destruct (udp_run_ok ∅ os _ _ (fresh_table_ok conns lim) Hrun) as [Hi [Hnd Hap Hpool Hbusy]].
  rewrite (right_id_L ∅ (∪)) in Hpool. split_and!; [done..| | |].
  - intros p. rewrite Hbusy. split.
    + intros [r Hr]. destruct (ix_port t Hi p r Hr) as (s & Hs & Hp & Htok). exists (us_token s), r. split; [done|]. by exists s.
    + intros (tok & r & Htok & s & Hs & _ & <-). destruct (ix_token t Hi tok r Htok) as (s' & Hs' & _ & Hr).
      rewrite Hs in Hs'. injection Hs' as <-. by eexists.
  - intros tok r Htok. destruct (ix_token t Hi tok r Htok) as (s & Hs & Ht & Hr). exists (us_serverPort s). split; [|done].
    split; [done|]. by exists s.
  - intros p tok1 r1 tok2 r2 (H1 & s1 & Hs1 & Ht1 & Hp1) (H2 & s2 & Hs2 & Ht2 & Hp2).
    destruct (ix_token t Hi _ _ H1) as (x1 & Hx1 & _ & Hr1), (ix_token t Hi _ _ H2) as (x2 & Hx2 & _ & Hr2).
    rewrite Hs1 in Hx1. rewrite Hs2 in Hx2. injection Hx1 as <-. injection Hx2 as <-. rewrite Hp1 in Hr1. rewrite Hp2, Hr1 in Hr2.
    injection Hr2 as <-. rewrite Hs1 in Hs2. injection Hs2 as <-. split; [congruence|done].
Qed.

(** the demultiplexing indexes never point at a stale session: the session
    found for a client address is live and bound to that very address, the
    one found for a port owns that port, and a tenant's count is the number
    of its live sessions and within its limit. *)
Theorem udp_demux conns lim os t (Hrun : udp_run os (fresh_table conns lim) = Some t) :
  (forall a r, LookupByClientAddr a t = Some r -> exists s, heap t !! r = Some s /\
     us_clientAddr s = Some a /\ us_clientBound s = true /\ byToken t !! us_token s = Some r) /\
  (forall p r, sessionForPort p t = Some r -> exists s, heap t !! r = Some s /\
     us_serverPort s = p /\ byToken t !! us_token s = Some r) /\
  (forall tn, default 0 (tenantN t !! tn) = countZ (tenant_is (heap t) tn) (byToken t) /\
     default 0 (tenantN t !! tn) <= Z.max 0 (MaxUDPRelaySessionsPerServer lim)).
Proof.
  destruct (udp_run_ok ∅ os _ _ (fresh_table_ok conns lim) Hrun) as [[Hp _ Hc Ht Hq] _].
  split_and!; [done..|]. intros tn. split; [apply Ht|].
  pose proof (udp_run_max os _ _ Hrun) as Hm. simpl in Hm.
  destruct (tenantN t !! tn) as [n|] eqn:E; simpl; [|lia]. specialize (Hq tn n E). lia.
Qed.

(** ** The idle sweep *)

(** A session the sweep reclaims: idle for longer than the timeout, and not
    touched between the sweep's load and its compare-and-swap. *)
Definition stale (now idle : Z) (touched : option Z) (s : udpRelaySession) : bool :=
  (0 <=? us_lastActivity s) && (idle <? time_sub now (us_lastActivity s)) &&
  match touched with Some a => a =? us_lastActivity s | None => true end.

Lemma releaseLocked_own token t r s :
  byToken t !! token = Some r -> heap t !! r = Some s ->
  byToken (releaseLocked token t) = delete token (byToken t) /\
  forall r', r' <> r -> heap (releaseLocked token t) !! r' = heap t !! r'.
Proof.
  intros Hr Hs. unfold releaseLocked. rewrite Hr, Hs. split; [done|].
  intros r' Hne. simpl. by rewrite lookup_insert_ne.
Qed.

(** One visit decides its own session and leaves the others alone. *)
Lemma sweep_one_spec now idle touched tok t r s :
  byToken t !! tok = Some r -> heap t !! r = Some s ->
  byToken (sweep_one now idle touched tok t) =
    (if stale now idle touched s then delete tok (byToken t) else byToken t) /\
  forall r', r' <> r -> heap (sweep_one now idle touched tok t) !! r' = heap t !! r'.
Proof.
  intros Hr Hs. unfold sweep_one, stale. rewrite Hr, Hs.
  destruct (_ && _); simpl; [|done].
  destruct touched as [a|]; [|by apply (releaseLocked_own _ _ r s)].
  assert (heap (update r (touch a) t) !! r = Some (touch a s)) as Hu
    by (rewrite lookup_update, decide_True by done; by rewrite Hs).
  assert (forall r', r' <> r -> heap (update r (touch a) t) !! r' = heap t !! r') as Ho
    by (intros r' Hne; by rewrite lookup_update, decide_False).
  destruct (a =? _); [|done].
  destruct (releaseLocked_own tok (update r (touch a) t) r (touch a s)) as [-> Hh]; [done..|].
  split; [done|]. intros r' Hne. by rewrite Hh, Ho.
Qed.

Lemma index_ok_sweep_one now idle touched tok t :
  index_ok t -> index_ok (sweep_one now idle touched tok t).
Proof.
  intros Hi. unfold sweep_one. destruct (byToken t !! tok) as [r|]; [|done].
  destruct (heap t !! r) as [s|]; [|done]. destruct (_ && _); [|done].
  destruct touched as [a|]; [|by apply index_ok_releaseLocked].
  assert (index_ok (update r (touch a) t)) by (apply index_ok_update; [apply touch_keeps|done]).
  destruct (_ =? _); [by apply index_ok_releaseLocked|done].
Qed.

(** A token once gone stays gone through the rest of the sweep. *)
Lemma sweep_gone now idle (touched : string -> option Z) ks t k :
  byToken t !! k = None ->
  byToken (foldl (fun t k => sweep_one now idle (touched k) k t) t ks) !! k = None.
Proof.
  revert t. induction ks as [|x ks IH]; intros t Hn; simpl; [done|]. apply IH.
  unfold sweep_one. destruct (byToken t !! x) as [r|] eqn:Ex; [|done].
  destruct (heap t !! r) as [s|]; [|done]. destruct (_ && _); [|done].
  assert (forall t', byToken t' = byToken t -> byToken (releaseLocked x t') !! k = None) as Hrel.
  { intros t' Ht'. unfold releaseLocked. rewrite Ht', Ex.
    destruct (heap t' !! r); simpl; [|by rewrite Ht'].
    rewrite lookup_delete. by case_decide. }
  destruct (touched x); [destruct (_ =? _)|]; [by apply Hrel|done|by apply Hrel].
Qed.

Lemma sweep_fold_spec now idle (touched : string -> option Z) ks t :
  index_ok t -> NoDup ks -> (forall k, k ∈ ks -> is_Some (byToken t !! k)) ->
  forall tok r s, byToken t !! tok = Some r -> heap t !! r = Some s ->
  byToken (foldl (fun t k => sweep_one now idle (touched k) k t) t ks) !! tok =
    if bool_decide (tok ∈ ks) && stale now idle (touched tok) s then None else Some r.
Proof.
  revert t. induction ks as [|k ks IH]; intros t Hi Hnd Hin tok r s Hr Hs; simpl; [done|].
  apply NoDup_cons in Hnd as [Hk Hnd].
  destruct (Hin k) as [rk Hrk]; [left|].
  destruct (ix_token t Hi k rk Hrk) as (sk & Hsk & Hstk & _).
  destruct (sweep_one_spec now idle (touched k) k t rk sk Hrk Hsk) as [Hbt Hh].
  pose proof (index_ok_sweep_one now idle (touched k) k t Hi) as Hi'.
  assert (forall k', k' ∈ ks -> is_Some (byToken (sweep_one now idle (touched k) k t) !! k')) as Hin'.
  { intros k' Hk'. rewrite Hbt. assert (k' <> k) by (by intros ->).
    destruct (stale _ _ _ _); [rewrite lookup_delete_ne by done|]; apply Hin; by right. }
  destruct (decide (tok = k)) as [->|Hne].
  - assert (rk = r) as -> by congruence. assert (sk = s) as -> by congruence.
    rewrite (bool_decide_true (k ∈ k :: ks)) by left. simpl.
    destruct (stale now idle (touched k) s) eqn:Est.
    + apply sweep_gone. rewrite Hbt. apply lookup_delete_eq.
    + assert (exists s', heap (sweep_one now idle (touched k) k t) !! r = Some s') as [s' Hs'].
      { unfold sweep_one. rewrite Hr, Hs. unfold stale in Est.
        destruct ((0 <=? us_lastActivity s) && (idle <? _)); simpl in Est; [|by exists s].
        destruct (touched k); [|done]. rewrite Est.
        rewrite lookup_update, decide_True, Hs by done. by eexists. }
      rewrite (IH _ Hi' Hnd Hin' k r s'); [by rewrite bool_decide_false|by rewrite Hbt|done].
  - assert (r <> rk) as Hnr.
    { intros ->. destruct (ix_token t Hi tok rk Hr) as (s2 & Hs2 & E & _). congruence. }
    rewrite (IH _ Hi' Hnd Hin' tok r s); [| |by rewrite Hh].
    + by rewrite (bool_decide_ext (tok ∈ k :: ks) (tok ∈ ks)) by set_solver.
    + rewrite Hbt. destruct (stale _ _ _ _); [by rewrite lookup_delete_ne|done].
Qed.

(** a sweep reclaims exactly the sessions idle for longer than the timeout
    that no packet touched while it looked, in whatever order it visits
    them; every other session stays. *)
Theorem sweepOnce_reclaims conns lim os t ord now idle touched tok r s
    (Hrun : udp_run os (fresh_table conns lim) = Some t) (Hord : ranges ord)
    (Hr : byToken t !! tok = Some r) (Hs : heap t !! r = Some s) :
  byToken (sweepOnce ord now idle touched t) !! tok =
    if stale now idle (touched tok) s then None else Some r.
Proof.
  destruct (udp_run_ok ∅ os _ _ (fresh_table_ok conns lim) Hrun) as [Hi _].
  unfold sweepOnce. rewrite (sweep_fold_spec now idle touched (ord (byToken t)) t Hi) with (r := r) (s := s);
    [|by apply NoDup_ranges| |done|done].
  - rewrite bool_decide_true; [done|]. rewrite elem_of_ranges by done. by eexists.
  - intros k Hk. by rewrite elem_of_ranges in Hk by done.
Qed.
End table.

(** ** Concrete instances *)
Definition pool2 : gmap Z string := {[4001 := "r:4001"; 4002 := "r:4002"]}.

(** Two sessions; the client of the first moves; the socket of the second
    fails and its port is retired. *)
Definition example_ops : list (@udp_op string) :=
  [OAllocate 10 "site" (Some "tokA") 1; OBindServer 11 "tokA" "10.0.0.1:1";
   OBindClient 12 "tokA" "192.0.2.1:1"; OBindClient 13 "tokA" "192.0.2.1:2";
   OAllocate 14 "site" (Some "tokB") 2; ODisable 4001; OTouch 15 1].

Definition example_table : @udpSessionTable string _ _ :=
  default (fresh_table pool2 toy_lim) (udp_run example_ops (fresh_table pool2 toy_lim)).

Lemma udp_ports_conserved_witness :
  (4001 ∉ PortAllocator.inUse (alloc example_table)) /\
  (4002 ∈ PortAllocator.inUse (alloc example_table)).
Proof.
  destruct (udp_ports_conserved pool2 toy_lim example_ops example_table
    ltac:(vm_compute; reflexivity)) as (_ & Hpool & _ & Hin & _).
  split.
  - intros H. destruct (proj1 (Hpool 4001) (or_intror H)) as [_ Hd]. apply Hd.
    vm_compute. reflexivity.
  - apply Hin. destruct (heap example_table !! 1) as [s|] eqn:Es; [|vm_compute in Es; discriminate].
    exists (us_token s), 1. split; [vm_compute in Es; injection Es as <-; vm_compute; reflexivity|].
    exists s. split; [exact Es|]. vm_compute in Es. injection Es as <-. vm_compute. split; reflexivity.
Defined.

Lemma udp_demux_witness :
  exists s, heap example_table !! 1 = Some s /\ us_clientAddr s = Some "192.0.2.1:2"%string.
Proof.
  destruct (proj1 (udp_demux pool2 toy_lim example_ops example_table
    ltac:(vm_compute; reflexivity)) "192.0.2.1:2"%string 1 ltac:(vm_compute; reflexivity))
    as (s & Hs & Ha & _).
  exists s. split; [exact Hs|exact Ha].
Defined.

(** At time 100 with a timeout of 50 the session, idle since 15, is stale. *)
Lemma sweepOnce_reclaims_witness :
  byToken (sweepOnce map_keys 100 50 (fun _ => None) example_table) !! "tokA"%string = None.
Proof.
  destruct (heap example_table !! 1) as [s|] eqn:Es; [|vm_compute in Es; discriminate].
  rewrite (sweepOnce_reclaims pool2 toy_lim example_ops example_table map_keys 100 50 (fun _ => None)
    "tokA" 1 s ltac:(vm_compute; reflexivity) ranges_map_keys ltac:(vm_compute; reflexivity) Es).
  vm_compute in Es. injection Es as <-. vm_compute. reflexivity.
Defined.
