(* ===== verification/UdpForward.v ===== *)
(** [pkg/relay/udpforward.go], the forwarding engine of the UDP-relay tier, and
    [pkg/relay/reflect.go], the address reflector: what each received datagram
    makes the relay send.

    A handler runs on one datagram at a time; a datagram's handling is one
    step.  A network write is an output; whether it succeeded is an argument. *)
From S2P Require Import Prelude Bytes Protocol AuthLimit Registry Frames UdpSession.

(** [newRateLimiter] of [public.go], shared by every listener of the relay. *)
Definition newRateLimiter (limit : Z) : SourceLimiter.t :=
  SourceLimiter.NewSourceLimiter limit minute 0.

Section forward.
Context {Addr : Type} `{Countable Addr}.
(** [from.Addr().String()], the key of the rate limiter. *)
Variable addr_ip : Addr -> string.

Record datagramRelay := mkRelay {
  dr_sessions : @udpSessionTable Addr _ _;
  dr_rate : SourceLimiter.t;
}.

Definition newDatagramRelay (t : udpSessionTable) (maxNewBindsPerMinute : Z) : datagramRelay :=
  mkRelay t (newRateLimiter maxNewBindsPerMinute).

(** The socket a datagram leaves from: the shared client-facing one, or the
    pooled one of a port. *)
Inductive socket : Type := ClientSocket | ServerSocket (port : Z).

Record output := { o_socket : socket; o_to : Addr; o_bytes : list byte }.

Definition with_sessions (t : udpSessionTable) (d : datagramRelay) : datagramRelay :=
  mkRelay t (dr_rate d).

(** [WriteTo] to the UDP address of a leg. *)
Definition write (sock : socket) (dst : option Addr) (b : list byte) : list output :=
  match dst with Some a => [{| o_socket := sock; o_to := a; o_bytes := b |}] | None => [] end.

Definition forwardFromClient (now : Z) (sent : bool) (b : list byte) (from : Addr)
    (d : datagramRelay) : datagramRelay * list output :=
  let t := dr_sessions d in
  match LookupByClientAddr from t with
  | None => (d, [])
  | Some r =>
      match heap t !! r with
      | None => (d, [])
      | Some s =>
          let t := update r (clientReceived (Zlen b)) t in
          if negb (us_serverBound s) then (with_sessions t d, [])
          else
            let t := update r (touch now) t in
            let t := if sent then update r (serverForwarded (Zlen b)) t else t in
            (with_sessions t d, write (ServerSocket (us_serverPort s)) (us_serverAddr s) b)
      end
  end.

Definition bind_ack : list byte := EncodeControlFrame FrameRelayBindAck [].

Definition handleClientDatagram (ord : gmap string SourceLimiter.sourceState -> list string)
    (now : Z) (sent : bool) (b : list byte) (from : Addr) (d : datagramRelay) :
    datagramRelay * list output :=
  match DecodeControlFrame b with
  | Some (typ, payload) =>
      if Byte.eqb typ FrameRelayBind then
        let known := knownClientBind (str_of payload) from (dr_sessions d) in
        let '(allowed, rate) :=
          if known then (true, dr_rate d)
          else SourceLimiter.Allow ord now (addr_ip from) (dr_rate d) in
        let d := mkRelay (dr_sessions d) rate in
        if negb allowed then (d, [])
        else
          match BindClient now (str_of payload) from (dr_sessions d) with
          | (None, _) => (d, [])
          | (Some _, t) => (with_sessions t d, write ClientSocket (Some from) bind_ack)
          end
      else if Byte.eqb typ FramePathProbe || Byte.eqb typ FramePathAck then
        if ValidPathControl typ payload then forwardFromClient now sent b from d else (d, [])
      else (d, [])
  | None =>
      if negb (ValidRelayDatagram b) then (d, []) else forwardFromClient now sent b from d
  end.

Definition forwardFromServer (now : Z) (sent : bool) (r : Z) (b : list byte) (from : Addr)
    (d : datagramRelay) : datagramRelay * list output :=
  let t := dr_sessions d in
  match heap t !! r with
  | None => (d, [])
  | Some s =>
      if negb (us_serverBound s) || negb (bool_decide (us_serverAddr s = Some from))
         || negb (us_clientBound s)
      then (d, [])
      else
        let t := update r (serverReceived (Zlen b)) t in
        let t := update r (touch now) t in
        let t := if sent then update r (clientForwarded (Zlen b)) t else t in
        (with_sessions t d, write ClientSocket (us_clientAddr s) b)
  end.

Definition handleServerDatagram (now : Z) (sent : bool) (port : Z) (b : list byte) (from : Addr)
    (d : datagramRelay) : datagramRelay * list output :=
  match sessionForPort port (dr_sessions d) with
  | None => (d, [])
  | Some r =>
      match heap (dr_sessions d) !! r with
      | None => (d, [])
      | Some s =>
          match DecodeControlFrame b with
          | Some (typ, payload) =>
              if Byte.eqb typ FrameRelayBind then
                if negb (str_of payload =? us_token s)%string then (d, [])
                else
                  let t := (BindServer now (us_token s) from (dr_sessions d)).2 in
                  (with_sessions t d, write (ServerSocket (us_serverPort s)) (Some from) bind_ack)
              else if Byte.eqb typ FramePathProbe || Byte.eqb typ FramePathAck then
                if ValidPathControl typ payload then forwardFromServer now sent r b from d else (d, [])
              else (d, [])
          | None =>
              if negb (ValidRelayDatagram b) then (d, []) else forwardFromServer now sent r b from d
          end
      end
  end.

(** ** Traffic

    Datagrams on either leg, interleaved with what the control connection and
    the sweeper do to the table. *)
Inductive traffic : Type :=
  | FromClient (ord : gmap string SourceLimiter.sourceState -> list string) (now : Z) (sent : bool)
      (b : list byte) (from : Addr)
  | FromServer (now : Z) (sent : bool) (port : Z) (b : list byte) (from : Addr)
  | Control (o : @udp_op Addr).

(** Binding is only ever done by a datagram. *)
Definition control_op (o : @udp_op Addr) : bool :=
  match o with OBindServer _ _ _ | OBindClient _ _ _ => false | _ => true end.

Definition traffic_step (e : traffic) (d : datagramRelay) : option (datagramRelay * list output) :=
  match e with
  | FromClient ord now sent b from => Some (handleClientDatagram ord now sent b from d)
  | FromServer now sent port b from => Some (handleServerDatagram now sent port b from d)
  | Control o =>
      if control_op o then
        match udp_step o (dr_sessions d) with
        | Some t => Some (with_sessions t d, [])
        | None => None
        end
      else None
  end.

Fixpoint traffic_run (es : list traffic) (d : datagramRelay) : option datagramRelay :=
  match es with
  | [] => Some d
  | e :: es => match traffic_step e d with Some (d, _) => traffic_run es d | None => None end
  end.

(** The address and leg from which a datagram presents a token. *)
Inductive leg : Type := ClientLeg | ServerLeg.

Definition presents (e : traffic) : option (leg * Addr * string) :=
  match e with
  | FromClient _ _ _ b from =>
      match DecodeControlFrame b with
      | Some (typ, payload) =>
          if Byte.eqb typ FrameRelayBind then Some (ClientLeg, from, str_of payload) else None
      | None => None
      end
  | FromServer _ _ _ b from =>
      match DecodeControlFrame b with
      | Some (typ, payload) =>
          if Byte.eqb typ FrameRelayBind then Some (ServerLeg, from, str_of payload) else None
      | None => None
      end
  | Control _ => None
  end.

Definition presented (es : list traffic) (l : leg) (a : Addr) (tok : string) : Prop :=
  exists e, e ∈ es /\ presents e = Some (l, a, tok).

(** Every bound leg was claimed by its address with the session's token. *)
Definition earned (es : list traffic) (t : @udpSessionTable Addr _ _) : Prop :=
  forall r s, heap t !! r = Some s ->
    (us_serverBound s = true -> exists a, us_serverAddr s = Some a /\ presented es ServerLeg a (us_token s)) /\
    (us_clientBound s = true -> exists a, us_clientAddr s = Some a /\ presented es ClientLeg a (us_token s)).

(** ** Legs are only ever bound by a presented token *)

(** Every bound leg of [t'] was bound to the same address in [t]. *)
Definition legs_from (t t' : @udpSessionTable Addr _ _) : Prop :=
  forall r s', heap t' !! r = Some s' ->
    (us_serverBound s' = true -> exists s, heap t !! r = Some s /\ us_serverBound s = true /\
       us_serverAddr s = us_serverAddr s' /\ us_token s = us_token s') /\
    (us_clientBound s' = true -> exists s, heap t !! r = Some s /\ us_clientBound s = true /\
       us_clientAddr s = us_clientAddr s' /\ us_token s = us_token s').

#[local] Instance legs_from_refl : Reflexive legs_from.
Proof. intros t r s Hs. split; intros Hb; exists s; done. Qed.

#[local] Instance legs_from_trans : Transitive legs_from.
Proof.
  intros t1 t2 t3 H12 H23 r s Hs. destruct (H23 r s Hs) as [Hsv Hcl]. split; intros Hb.
  - destruct (Hsv Hb) as (s2 & Hs2 & Hb2 & <- & <-). by apply (H12 r s2 Hs2).
  - destruct (Hcl Hb) as (s2 & Hs2 & Hb2 & <- & <-). by apply (H12 r s2 Hs2).
Qed.

Definition keeps_legs (f : @udpRelaySession Addr -> udpRelaySession) : Prop :=
  forall s, us_token (f s) = us_token s /\
    us_serverAddr (f s) = us_serverAddr s /\ us_serverBound (f s) = us_serverBound s /\
    us_clientAddr (f s) = us_clientAddr s /\ us_clientBound (f s) = us_clientBound s.

Lemma touch_legs now : keeps_legs (touch now).
Proof. intros s. unfold touch. by destruct (_ <? 0). Qed.

Lemma legs_from_update r f t : keeps_legs f -> legs_from t (update r f t).
Proof.
  intros Hf r' s'. rewrite lookup_update. case_decide; [|intros Hs; by apply (legs_from_refl t)].
  subst. intros (s & Hs & ->)%fmap_Some. destruct (Hf s) as (-> & -> & -> & -> & ->).
  by apply (legs_from_refl t).
Qed.

Lemma legs_from_release t token : legs_from t (releaseLocked token t).
Proof.
  unfold releaseLocked. destruct (byToken t !! token) as [r|]; [|done].
  destruct (heap t !! r) as [s|] eqn:Hs; [|done]. intros r' s'. simpl.
  rewrite lookup_insert. case_decide; [by intros [= <-]|]. intros Hs'. by apply (legs_from_refl t).
Qed.

Lemma legs_from_sweep ord now idle touched t : legs_from t (sweepOnce ord now idle touched t).
Proof.
  unfold sweepOnce. generalize (ord (byToken t)). intros ks. revert t.
  induction ks as [|k ks IH]; intros t; simpl; [done|].
  etrans; [|apply IH]. unfold sweep_one. destruct (byToken t !! k) as [r|]; [|done].
  destruct (heap t !! r) as [s|]; [|done]. destruct (_ && _); [|done].
  destruct (touched k) as [a|]; [|apply legs_from_release].
  destruct (_ =? _); [|apply legs_from_update, touch_legs].
  etrans; [apply legs_from_update, touch_legs|apply legs_from_release].
Qed.

Lemma legs_from_control o t t' : control_op o = true -> udp_step o t = Some t' -> legs_from t t'.
Proof.
  intros Hc Hs. destruct o; try done; simpl in Hs.
  - destruct (heap t !! r) eqn:Er; [done|]. destruct (tok ≫= _); [done|]. simplify_eq.
    unfold Allocate. destruct (_ <=? _); [done|].
    destruct (PortAllocator.allocate (alloc t)) as [[[port addr]|] a]; [|done].
    destruct tok; [|apply (legs_from_refl t)]. simpl. intros r' s'. simpl. rewrite lookup_insert.
    case_decide; [intros [= <-]; by destruct (0 <? 0)|]. intros Hs'. by apply (legs_from_refl t).
  - simplify_eq. apply legs_from_release.
  - simplify_eq. unfold disablePort. simpl.
    destruct (byPort t !! port) as [r|]; [|apply (legs_from_refl t)].
    destruct (heap t !! r) as [s|]; [|apply (legs_from_refl t)].
    apply (legs_from_release (mkTable _ _ _ _ _ _ _)).
  - simplify_eq. apply legs_from_sweep.
  - simplify_eq. apply legs_from_update, touch_legs.
  - simplify_eq. apply legs_from_update. by intros s.
Qed.

Lemma presented_snoc es e l a tok : presented es l a tok -> presented (es ++ [e]) l a tok.
Proof. intros (x & Hx & Hp). exists x. split; [|done]. apply elem_of_app. by left. Qed.

Lemma presented_last es e l a tok : presents e = Some (l, a, tok) -> presented (es ++ [e]) l a tok.
Proof. intros Hp. exists e. split; [|done]. set_solver. Qed.

Lemma earned_legs es e t t' : legs_from t t' -> earned es t -> earned (es ++ [e]) t'.
Proof.
  intros Hl He r s Hs. destruct (Hl r s Hs) as [Hsv Hcl]. split; intros Hb.
  - destruct (Hsv Hb) as (s0 & Hs0 & Hb0 & <- & <-). destruct (He r s0 Hs0) as [H1 _].
    destruct (H1 Hb0) as (a & Ha & Hp). exists a. auto using presented_snoc.
  - destruct (Hcl Hb) as (s0 & Hs0 & Hb0 & <- & <-). destruct (He r s0 Hs0) as [_ H1].
    destruct (H1 Hb0) as (a & Ha & Hp). exists a. auto using presented_snoc.
Qed.

(** What a forwarder does to the table, and what it sends. *)
Lemma forwardFromClient_cases D es now sent b from d :
  table_ok D (dr_sessions d) -> earned es (dr_sessions d) ->
  let '(d', out) := forwardFromClient now sent b from d in
  table_ok D (dr_sessions d') /\ legs_from (dr_sessions d) (dr_sessions d') /\
  (out = [] \/ exists r s dst, heap (dr_sessions d) !! r = Some s /\
     byToken (dr_sessions d) !! us_token s = Some r /\
     out = [{| o_socket := ServerSocket (us_serverPort s); o_to := dst; o_bytes := b |}] /\
     presented es ServerLeg dst (us_token s) /\ presented es ClientLeg from (us_token s)).
Proof.
  intros Hok He. unfold forwardFromClient.
  destruct (LookupByClientAddr from (dr_sessions d)) as [r|] eqn:El; [|split_and!; [done|done|by left]].
  destruct (ix_client _ (tb_index _ _ Hok) from r El) as (s & Hs & Ha & Hb & Htok). rewrite Hs.
  assert (table_ok D (update r (clientReceived (Zlen b)) (dr_sessions d)) /\
    legs_from (dr_sessions d) (update r (clientReceived (Zlen b)) (dr_sessions d))) as [Hok1 Hl1].
  { split; [apply table_ok_update; [by intros s0|done]|apply legs_from_update; by intros s0]. }
  destruct (us_serverBound s) eqn:Esb; simpl; [|split_and!; [done|done|by left]].
  set (t2 := update r (touch now) _).
  assert (table_ok D t2 /\ legs_from (dr_sessions d) t2) as [Hok2 Hl2].
  { split; [apply table_ok_update; [apply touch_keeps|done]|].
    etrans; [exact Hl1|apply legs_from_update, touch_legs]. }
  split_and!.
  - destruct sent; [|done]. apply table_ok_update; [by intros s0|done].
  - destruct sent; [|done]. etrans; [exact Hl2|]. apply legs_from_update. by intros s0.
  - right. destruct (He r s Hs) as [Hsv Hcl].
    destruct (Hsv Esb) as (a & Hsa & Hpa), (Hcl Hb) as (c & Hca & Hpc).
    rewrite Hca in Ha. simplify_eq. exists r, s, a. rewrite Hsa. done.
Qed.

Lemma forwardFromServer_cases D es now sent r b from d s :
  table_ok D (dr_sessions d) -> earned es (dr_sessions d) -> heap (dr_sessions d) !! r = Some s ->
  let '(d', out) := forwardFromServer now sent r b from d in
  table_ok D (dr_sessions d') /\ legs_from (dr_sessions d) (dr_sessions d') /\
  (out = [] \/ exists dst,
     out = [{| o_socket := ClientSocket; o_to := dst; o_bytes := b |}] /\
     presented es ClientLeg dst (us_token s) /\ presented es ServerLeg from (us_token s)).
Proof.
  intros Hok He Hs. unfold forwardFromServer. rewrite Hs.
  destruct (_ || _ || _) eqn:Eg; [split_and!; [done|done|by left]|].
  rewrite !orb_false_iff, !negb_false_iff, bool_decide_eq_true in Eg. destruct Eg as [[Esb Esa] Ecb].
  set (t1 := update r (serverReceived _) _). set (t2 := update r (touch now) t1).
  assert (table_ok D t2 /\ legs_from (dr_sessions d) t2) as [Hok2 Hl2].
  { split.
    - apply table_ok_update; [apply touch_keeps|]. apply table_ok_update; [by intros s0|done].
    - etrans; [apply (legs_from_update r (serverReceived (Zlen b))); by intros s0|].
      apply legs_from_update, touch_legs. }
  split_and!.
  - destruct sent; [|done]. apply table_ok_update; [by intros s0|done].
  - destruct sent; [|done]. etrans; [exact Hl2|]. apply legs_from_update. by intros s0.
  - right. destruct (He r s Hs) as [Hsv Hcl].
    destruct (Hsv Esb) as (a & Hsa & Hpa), (Hcl Ecb) as (c & Hca & Hpc).
    rewrite Hsa in Esa. simplify_eq. exists c. rewrite Hca. done.
Qed.

(** What an output is worth: an ack to the sender of a token the relay knows,
    or the datagram itself between the two legs of one session, each of
    which has presented that session's token from its own address. *)
Definition permitted (es : list traffic) (e : traffic) (t : @udpSessionTable Addr _ _) (o : output) : Prop :=
  (exists l from tok, presents e = Some (l, from, tok) /\ is_Some (byToken t !! tok) /\
     o_to o = from /\ o_bytes o = bind_ack) \/
  (exists tok b from, is_Some (byToken t !! tok) /\ o_bytes o = b /\
     ((exists ord now sent, e = FromClient ord now sent b from /\
         presented es ClientLeg from tok /\ presented es ServerLeg (o_to o) tok) \/
      (exists now sent port, e = FromServer now sent port b from /\
         presented es ServerLeg from tok /\ presented es ClientLeg (o_to o) tok))).

Lemma earned_bind es e t t' r tok l from :
  presents e = Some (l, from, tok) -> earned es t ->
  (forall r' s', heap t' !! r' = Some s' -> r' <> r -> heap t !! r' = Some s') ->
  (forall s', heap t' !! r = Some s' -> exists s, heap t !! r = Some s /\ us_token s' = tok /\
     us_token s = tok /\
     match l with
     | ServerLeg => us_serverAddr s' = Some from /\ us_clientAddr s' = us_clientAddr s /\
                    us_clientBound s' = us_clientBound s
     | ClientLeg => us_clientAddr s' = Some from /\ us_serverAddr s' = us_serverAddr s /\
                    us_serverBound s' = us_serverBound s
     end) ->
  earned (es ++ [e]) t'.
Proof.
  intros Hp He Hother Hown r' s' Hs'. destruct (decide (r' = r)) as [->|Hne].
  - destruct (Hown s' Hs') as (s & Hs & E1 & E2 & Hl). destruct (He r s Hs) as [Hsv Hcl].
    rewrite E2 in Hsv, Hcl. rewrite E1.
    destruct l; destruct Hl as (Ea & Eb & Ec); rewrite ?Ea, ?Eb, ?Ec; split; intros Hb;
      try (exists from; split; [done|by apply presented_last]).
    + destruct (Hsv Hb) as (a & ? & ?). exists a. auto using presented_snoc.
    + destruct (Hcl Hb) as (a & ? & ?). exists a. auto using presented_snoc.
  - specialize (Hother r' s' Hs' Hne). destruct (He r' s' Hother) as [Hsv Hcl]. split; intros Hb.
    + destruct (Hsv Hb) as (a & ? & ?). exists a. auto using presented_snoc.
    + destruct (Hcl Hb) as (a & ? & ?). exists a. auto using presented_snoc.
Qed.

(** The state of a step: sound indexes, and legs earned by the events so far. *)
Definition relay_ok (es : list traffic) (d : datagramRelay) : Prop :=
  (exists D, table_ok D (dr_sessions d)) /\ earned es (dr_sessions d).

Definition frame_size (e : traffic) : Z :=
  match e with
  | FromClient _ _ _ b _ | FromServer _ _ _ b _ => Zlen b
  | Control _ => 0
  end.

Definition step_ok (es : list traffic) (e : traffic) (d : datagramRelay)
    (res : datagramRelay * list output) : Prop :=
  relay_ok (es ++ [e]) res.1 /\
  (forall o, o ∈ res.2 -> permitted es e (dr_sessions d) o) /\
  (length res.2 <= 1)%nat /\ sum_Z (Zlen ∘ o_bytes <$> res.2) <= frame_size e.

Lemma step_ok_silent es e d d' :
  relay_ok es d -> dr_sessions d' = dr_sessions d -> step_ok es e d (d', []).
Proof.
  intros [Hok He] Hd. split_and!; simpl; [|set_solver|lia|destruct e; simpl; unfold Zlen; lia].
  unfold relay_ok. rewrite Hd. split; [done|]. by eapply earned_legs.
Qed.

Lemma Zlen_bind_ack_le b typ payload :
  DecodeControlFrame b = Some (typ, payload) -> Zlen bind_ack <= Zlen b.
Proof.
  intros ->%DecodeControlFrame_iff. unfold EncodeControlFrame. rewrite Zlen_app, Zlen_cons.
  change (Zlen bind_ack) with 5. change (Zlen controlMagic) with 4. pose proof (Zlen_nonneg payload). lia.
Qed.

Lemma forwardFromClient_ok es ord now sent b from d d0 :
  relay_ok es d -> dr_sessions d0 = dr_sessions d ->
  step_ok es (FromClient ord now sent b from) d0 (forwardFromClient now sent b from d).
Proof.
  intros [[D Hok] He] Hd. pose proof (forwardFromClient_cases D es now sent b from d Hok He) as Hf.
  destruct (forwardFromClient _ _ _ _ _) as [d' out]. destruct Hf as (Hok' & Hl & Hout).
  split_and!; simpl; [split; [by exists D|by eapply earned_legs]|..];
    destruct Hout as [->|(r & s & dst & Hs & Ht & -> & Hp1 & Hp2)]; simpl;
    try set_solver; try lia; try (unfold Zlen; lia).
  intros o ->%list_elem_of_singleton. unfold permitted. rewrite Hd. right. exists (us_token s), b, from.
  split_and!; [by eexists|done|]. left. by exists ord, now, sent.
Qed.

Lemma handleClientDatagram_ok es ord now sent b from d :
  relay_ok es d ->
  step_ok es (FromClient ord now sent b from) d (handleClientDatagram ord now sent b from d).
Proof.
  intros Hr. unfold handleClientDatagram.
  destruct (DecodeControlFrame b) as [[typ payload]|] eqn:Ed.
  2:{ destruct (negb _); [by apply step_ok_silent|by apply forwardFromClient_ok]. }
  destruct (Byte.eqb typ FrameRelayBind) eqn:Et.
  2:{ destruct (_ || _); [|by apply step_ok_silent].
      destruct (ValidPathControl _ _); [by apply forwardFromClient_ok|by apply step_ok_silent]. }
  destruct (if knownClientBind _ _ _ then _ else _) as [allowed rate].
  destruct (negb allowed); [by apply step_ok_silent|]. simpl.
  assert (presents (FromClient ord now sent b from) = Some (ClientLeg, from, str_of payload)) as Hp.
  { simpl. by rewrite Ed, Et. }
  unfold BindClient. destruct (byToken (dr_sessions d) !! str_of payload) as [r|] eqn:Er;
    [|by apply step_ok_silent].
  destruct Hr as [[D Hok] He]. destruct (ix_token _ (tb_index _ _ Hok) _ r Er) as (s & Hs & Htok & _).
  rewrite Hs. split_and!; simpl.
  - split.
    + exists D. destruct Hok as [Hi Hpl]. pose proof (index_ok_bind_client now (str_of payload) from _ Hi) as Hb.
      unfold BindClient in Hb. rewrite Er, Hs in Hb. by constructor.
    + eapply (earned_bind es _ _ _ r); [done|done| |].
      * intros r' s'. simpl. rewrite lookup_insert. by case_decide.
      * intros s'. simpl. rewrite lookup_insert_eq. intros [= <-]. exists s.
        unfold touch. destruct (_ <? 0); done.
  - intros o ->%list_elem_of_singleton. left. exists ClientLeg, from, (str_of payload).
    split_and!; [done|by eexists|done|done].
  - lia.
  - pose proof (Zlen_bind_ack_le b typ payload Ed). lia.
Qed.

Lemma handleServerDatagram_ok es now sent port b from d :
  relay_ok es d ->
  step_ok es (FromServer now sent port b from) d (handleServerDatagram now sent port b from d).
Proof.
  intros Hr. unfold handleServerDatagram.
  destruct (sessionForPort port (dr_sessions d)) as [r|] eqn:Er; [|by apply step_ok_silent].
  pose proof Hr as [[D Hok] He].
  destruct (ix_port _ (tb_index _ _ Hok) port r Er) as (s & Hs & Hport & Htok). rewrite Hs.
  assert (step_ok es (FromServer now sent port b from) d (forwardFromServer now sent r b from d)) as Hfwd.
  { pose proof (forwardFromServer_cases D es now sent r b from d s Hok He Hs) as Hf.
    destruct (forwardFromServer _ _ _ _ _ _) as [d' out]. destruct Hf as (Hok' & Hl & Hout).
    split_and!; simpl; [split; [by exists D|by eapply earned_legs]|..];
      destruct Hout as [->|(dst & -> & Hp1 & Hp2)]; simpl;
      try set_solver; try lia; try (unfold Zlen; lia).
    intros o ->%list_elem_of_singleton. right. exists (us_token s), b, from.
    split_and!; [by eexists|done|]. right. by exists now, sent, port. }
  destruct (DecodeControlFrame b) as [[typ payload]|] eqn:Ed.
  2:{ destruct (negb _); [by apply step_ok_silent|done]. }
  destruct (Byte.eqb typ FrameRelayBind) eqn:Et.
  2:{ destruct (_ || _); [|by apply step_ok_silent].
      destruct (ValidPathControl _ _); [done|by apply step_ok_silent]. }
  destruct (str_of payload =? us_token s)%string eqn:Ek; simpl; [|by apply step_ok_silent].
  bool_to_prop.
  assert (presents (FromServer now sent port b from) = Some (ServerLeg, from, us_token s)) as Hp.
  { simpl. by rewrite Ed, Et, Ek. }
  unfold BindServer. rewrite Htok. split_and!; simpl.
  - split.
    + exists D. apply table_ok_update; [|done].
      apply (compose_keeps (touch now)); [apply touch_keeps|apply set_server_keeps].
    + eapply (earned_bind es _ _ _ r); [done|done| |].
      * intros r' s' Hs' Hne. simpl in Hs'. by rewrite lookup_alter_ne in Hs'.
      * intros s'. simpl. rewrite lookup_alter_eq, Hs. intros [= <-]. exists s.
        unfold touch. destruct (_ <? 0); done.
  - intros o ->%list_elem_of_singleton. left. exists ServerLeg, from, (us_token s).
    split_and!; [done|by eexists|done|done].
  - lia.
  - pose proof (Zlen_bind_ack_le b typ payload Ed). lia.
Qed.

Lemma traffic_step_ok es e d res : relay_ok es d -> traffic_step e d = Some res -> step_ok es e d res.
Proof.
  intros Hr Hs. destruct e as [ord now sent b from|now sent port b from|o]; simpl in Hs.
  - injection Hs as <-. by apply handleClientDatagram_ok.
  - injection Hs as <-. by apply handleServerDatagram_ok.
  - destruct (control_op o) eqn:Ec; [|done].
    destruct (udp_step o (dr_sessions d)) as [t|] eqn:Eu; [|done]. injection Hs as <-.
    destruct Hr as [[D Hok] He]. split_and!; simpl; [|set_solver|lia|lia].
    split; [eexists; by eapply udp_step_ok|]. eapply earned_legs; [|done].
    by eapply legs_from_control.
Qed.

Lemma traffic_run_ok es es' d d' :
  relay_ok es d -> traffic_run es' d = Some d' -> relay_ok (es ++ es') d'.
Proof.
  revert es d. induction es' as [|e es' IH]; intros es d Hr; simpl.
  { intros [= <-]. by rewrite app_nil_r. }
  destruct (traffic_step e d) as [[d1 out]|] eqn:E; [|done]. intros Hrun.
  pose proof (traffic_step_ok es e d _ Hr E) as [Hr1 _]. simpl in Hr1.
  specialize (IH (es ++ [e]) d1 Hr1 Hrun). by rewrite <-app_assoc in IH.
Qed.

(** C1: the relay is not an open reflector.  Whatever datagrams arrive, in any
    order with allocations, releases, sweeps and socket failures, everything
    it sends is either the acknowledgement to an address that has just
    presented the token of a live session, or the received datagram,
    unchanged, passed between the two legs of one live session, each bound
    by a datagram from its own address that presented that session's token.
    A datagram causes at most one datagram, never longer than itself. *)
Theorem not_an_open_reflector conns lim maxBinds es e d d' out
    (Hrun : traffic_run es (newDatagramRelay (fresh_table conns lim) maxBinds) = Some d)
    (Hstep : traffic_step e d = Some (d', out)) :
  (forall o, o ∈ out -> permitted es e (dr_sessions d) o) /\
  (length out <= 1)%nat /\ sum_Z (Zlen ∘ o_bytes <$> out) <= frame_size e.
Proof.
  assert (relay_ok [] (newDatagramRelay (fresh_table conns lim) maxBinds)) as H0.
  { split; [exists ∅; apply fresh_table_ok|]. by intros r s. }
  pose proof (traffic_run_ok [] es _ _ H0 Hrun) as Hr.
  by destruct (traffic_step_ok es e d _ Hr Hstep) as (_ & ? & ? & ?).
Qed.
End forward.

(** ** [reflect.go] *)
Section reflector.
Context {NetAddr : Type}.
(** The address text when [addr] is a UDP address, and [addr.String()]. *)
Variable udp_ip : NetAddr -> option string.
Variable addr_string : NetAddr -> string.

(** The reflector's only state is its limiter; the reply goes to [addr]. *)
Definition reflect_handle (ord : gmap string SourceLimiter.sourceState -> list string) (now : Z)
    (b : list byte) (addr : NetAddr) (rate : SourceLimiter.t) :
    option (list byte) * SourceLimiter.t :=
  match udp_ip addr with
  | None => (None, rate)
  | Some ip =>
      let '(ok, rate) := SourceLimiter.Allow ord now ip rate in
      if negb ok then (None, rate)
      else
        match DecodeControlFrame b with
        | Some (typ, _) =>
            if Byte.eqb typ FrameReflectRequest
            then (Some (EncodeControlFrame FrameReflectResponse (bytes_of (addr_string addr))), rate)
            else (None, rate)
        | None => (None, rate)
        end
  end.
End reflector.

(** ** Concrete instances *)

(** A session whose two legs are bound, and a datagram from the client. *)
Definition example_traffic : list (@traffic string) :=
  [Control (OAllocate 10 "site" (Some "tokA") 1);
   FromServer 11 true 4002 (EncodeControlFrame FrameRelayBind (bytes_of "tokA")) "10.0.0.1:1";
   FromClient map_keys 12 true (EncodeControlFrame FrameRelayBind (bytes_of "tokA")) "192.0.2.1:1"].

Definition example_datagram : @traffic string :=
  FromClient map_keys 13 true (wg_packet x01) "192.0.2.1:1".

Definition example_relay : @datagramRelay string _ _ :=
  default (newDatagramRelay (fresh_table pool2 toy_lim) 60)
    (traffic_run (fun s => s) example_traffic (newDatagramRelay (fresh_table pool2 toy_lim) 60)).

(** The client's packet reaches the server leg, once. *)
Lemma not_an_open_reflector_witness :
  exists d' out, traffic_step (fun s => s) example_datagram example_relay = Some (d', out) /\
    (length out <= 1)%nat /\ sum_Z (Zlen ∘ o_bytes <$> out) <= 16 /\
    o_to <$> out = ["10.0.0.1:1"%string].
Proof.
  assert (match traffic_step (fun s => s) example_datagram example_relay with
    | Some (_, out) => o_to <$> out = ["10.0.0.1:1"%string]
    | None => False end) as Hout by (vm_compute; reflexivity).
  destruct (traffic_step (fun s => s) example_datagram example_relay) as [[d' out]|] eqn:E;
    [|destruct Hout].
  exists d', out. split; [reflexivity|].
  destruct (not_an_open_reflector (fun s => s) pool2 toy_lim 60 example_traffic example_datagram
    example_relay d' out) as (_ & Hlen & Hsum); [vm_compute; reflexivity|exact E|].
  split; [exact Hlen|]. split; [exact Hsum|exact Hout].
Defined.
