(* ===== verification/NativeWg.v ===== *)
(** [pkg/relay/nativewg.go]: the per-tenant relay of opaque WireGuard packets.
    It routes by the receiver indices visible in the packets; the tables it
    learns them into are bounded rings. *)
From S2P Require Import Prelude Bytes Frames.

Definition nativeWGMaxIndices : Z := 4096.
Definition nativeWGRouteTTL : Z := 3 * minute.

(** The little-endian word at an offset. *)
Definition u32_at (off : nat) (b : list byte) : Z :=
  match drop off b with b0 :: b1 :: b2 :: b3 :: _ => le32 b0 b1 b2 b3 | _ => 0 end.

(** Message type and receiver index; for an initiation the sender's index. *)
Definition validWGPacket (b : list byte) : option (Z * Z) :=
  if Zlen b <? 4 then None
  else
    let typ := u32_at 0 b in
    if typ =? 1 then if negb (Zlen b =? 148) then None else Some (typ, u32_at 4 b)
    else if typ =? 2 then if negb (Zlen b =? 92) then None else Some (typ, u32_at 8 b)
    else if typ =? 3 then if negb (Zlen b =? 64) then None else Some (typ, u32_at 4 b)
    else if typ =? 4 then
      if (Zlen b <? 32) || (MaxRelayDatagram <? Zlen b) then None else Some (typ, u32_at 4 b)
    else None.

(** A bounded first-in-first-out table: the map, the ring of its keys in
    order of arrival, and the ring's next victim. *)
Record ring (A : Type) := mkRing {
  rg_map : gmap Z A;
  rg_order : list Z;
  rg_next : nat;
}.
Arguments mkRing {_} _ _ _.
Arguments rg_map {_} _.
Arguments rg_order {_} _.
Arguments rg_next {_} _.

(** What [handle] does to [indices] and [recordPair] to [pairs]: an existing
    key is refreshed, a new one takes a new slot or the oldest one. *)
Definition ring_put {A} (k : Z) (v : A) (r : ring A) : ring A :=
  match rg_map r !! k with
  | Some _ => mkRing (<[k := v]> (rg_map r)) (rg_order r) (rg_next r)
  | None =>
      if Zlen (rg_order r) =? nativeWGMaxIndices then
        match rg_order r !! rg_next r with
        | Some victim =>
            mkRing (<[k := v]> (delete victim (rg_map r))) (<[rg_next r := k]> (rg_order r))
              ((rg_next r + 1) mod length (rg_order r))
        | None => r
        end
      else mkRing (<[k := v]> (rg_map r)) (rg_order r ++ [k]) (rg_next r)
  end.

Definition ring_empty {A} : ring A := mkRing ∅ [] 0.

Section relay.
Context {Addr : Type} `{EqDecision Addr}.
(** [netip.AddrPort.IsValid]. *)
Variable addr_valid : Addr -> bool.

Record nativeWGRoute := { client : Addr; expires : Z }.

Record nativeWGRelay := mkNative {
  tokens : gmap string string;
  servers : gmap string Addr;
  indices : ring nativeWGRoute;
  pairs : ring Z;
}.

Definition newNativeWGRelay : nativeWGRelay := mkNative ∅ ∅ ring_empty ring_empty.

(** [token] is the fresh random token. *)
Definition issue (tenant token : string) (n : nativeWGRelay) : nativeWGRelay :=
  mkNative (<[token := tenant]> (filter (fun e => e.2 <> tenant) (tokens n)))
    (delete tenant (servers n)) (indices n) (pairs n).

Definition remove (tenant token : string) (n : nativeWGRelay) : nativeWGRelay :=
  if bool_decide (tokens n !! token = Some tenant)
  then mkNative (delete token (tokens n)) (delete tenant (servers n)) (indices n) (pairs n)
  else n.

Definition recordPair (serverIdx clientIdx : Z) (n : nativeWGRelay) : nativeWGRelay :=
  mkNative (tokens n) (servers n) (indices n) (ring_put serverIdx clientIdx (pairs n)).

Definition set_route (k : Z) (r : nativeWGRoute) (n : nativeWGRelay) : nativeWGRelay :=
  mkNative (tokens n) (servers n)
    (mkRing (<[k := r]> (rg_map (indices n))) (rg_order (indices n)) (rg_next (indices n))) (pairs n).

(** Is [from] one of the associated servers? *)
Definition is_server (from : Addr) (n : nativeWGRelay) : bool :=
  existsb (fun e => bool_decide (e.2 = from)) (map_to_list (servers n)).

(** [handle]: the relay afterwards and the packet sent, if any.  [ord] is the
    order in which [range] meets the servers. *)
Definition handle (ord : gmap string Addr -> list string) (now : Z) (b : list byte) (from : Addr)
    (n : nativeWGRelay) : nativeWGRelay * option (Addr * list byte) :=
  match DecodeControlFrame b with
  | Some (typ, payload) =>
      if negb (Byte.eqb typ FrameNativeWireGuardAssociate) || (Zlen payload <? 32) then (n, None)
      else
        match tokens n !! str_of payload with
        | Some tenant =>
            (mkNative (tokens n) (<[tenant := from]> (servers n)) (indices n) (pairs n), None)
        | None => (n, None)
        end
  | None =>
      match validWGPacket b with
      | None => (n, None)
      | Some (typ, receiver) =>
          if is_server from n then
            match rg_map (indices n) !! receiver with
            | Some route =>
                if time_before now (expires route) then
                  let n := if typ =? 2 then recordPair (u32_at 4 b) receiver n else n in
                  (set_route receiver {| client := client route;
                                         expires := time_add now nativeWGRouteTTL |} n,
                   Some (client route, b))
                else (n, None)
            | None => (n, None)
            end
          else
            match match ord (servers n) with t :: _ => servers n !! t | [] => None end with
            | None => (n, None)
            | Some server =>
                if negb (addr_valid server) then (n, None)
                else
                  let fresh := {| client := from; expires := time_add now nativeWGRouteTTL |} in
                  let n :=
                    if typ =? 1 then
                      mkNative (tokens n) (servers n) (ring_put receiver fresh (indices n)) (pairs n)
                    else
                      match rg_map (pairs n) !! receiver with
                      | Some clientIdx =>
                          if (typ =? 4) || (typ =? 3) then
                            match rg_map (indices n) !! clientIdx with
                            | Some _ => set_route clientIdx fresh n
                            | None => n
                            end
                          else n
                      | None => n
                      end in
                  (n, Some (server, b))
            end
      end
  end.

(** ** Events *)
Inductive native_event : Type :=
  | Issued (tenant token : string)
  | RemovedToken (tenant token : string)
  | Packet (ord : gmap string Addr -> list string) (now : Z) (b : list byte) (from : Addr).

(** A token is minted fresh. *)
Definition native_step (e : native_event) (n : nativeWGRelay) :
    option (nativeWGRelay * option (Addr * list byte)) :=
  match e with
  | Issued tenant token =>
      match tokens n !! token with Some _ => None | None => Some (issue tenant token n, None) end
  | RemovedToken tenant token => Some (remove tenant token n, None)
  | Packet ord now b from => Some (handle ord now b from n)
  end.

Fixpoint native_run (es : list native_event) (n : nativeWGRelay) : option nativeWGRelay :=
  match es with
  | [] => Some n
  | e :: es => match native_step e n with Some (n, _) => native_run es n | None => None end
  end.

(** ** The rings *)
Record ring_ok {A} (r : ring A) : Prop := {
  rk_dom : forall k, is_Some (rg_map r !! k) <-> k ∈ rg_order r;
  rk_nodup : NoDup (rg_order r);
  rk_len : Zlen (rg_order r) <= nativeWGMaxIndices;
  rk_next : (rg_next r < length (rg_order r))%nat \/ rg_next r = 0%nat;
}.

Lemma ring_empty_ok {A} : ring_ok (@ring_empty A).
Proof.
  constructor; simpl; [|constructor|done|by right].
  intros k. rewrite lookup_empty, is_Some_alt. set_solver.
Qed.

Lemma ring_refresh_ok {A} (r : ring A) k v :
  ring_ok r -> is_Some (rg_map r !! k) ->
  ring_ok (mkRing (<[k := v]> (rg_map r)) (rg_order r) (rg_next r)).
Proof.
  intros [Hd Hn Hl Hx] Hk. constructor; simpl; try done.
  intros k'. rewrite <-Hd, lookup_insert. case_decide; [subst; split; [done|by eexists]|done].
Qed.

Lemma NoDup_insert_fresh (l : list Z) i k : NoDup l -> k ∉ l -> NoDup (<[i := k]> l).
Proof.
  intros Hn Hk. apply NoDup_alt. intros a b x Ha Hb. rewrite NoDup_alt in Hn.
  rewrite !list_lookup_insert in Ha, Hb.
  repeat case_decide; simplify_eq; try lia; [..|by eauto];
    exfalso; apply Hk; by eapply list_elem_of_lookup_2.
Qed.

Lemma elem_of_insert_fresh (l : list Z) i k v x :
  NoDup l -> l !! i = Some v -> x ∈ <[i := k]> l <-> x = k \/ (x ∈ l /\ x <> v).
Proof.
  intros Hn Hi. split.
  - intros [j Hj]%list_elem_of_lookup_1. rewrite list_lookup_insert in Hj. case_decide; [naive_solver|].
    right. split; [by eapply list_elem_of_lookup_2|]. intros ->.
    rewrite NoDup_alt in Hn. pose proof (Hn i j v Hi Hj).
    apply lookup_lt_Some in Hi. naive_solver.
  - intros [->|[[j Hj]%list_elem_of_lookup_1 Hne]].
    + apply (list_elem_of_lookup_2 _ i). apply list_lookup_insert_eq. by apply lookup_lt_Some in Hi.
    + apply (list_elem_of_lookup_2 _ j). rewrite list_lookup_insert_ne; [done|]. naive_solver.
Qed.

Lemma ring_put_ok {A} k (v : A) r : ring_ok r -> ring_ok (ring_put k v r).
Proof.
  intros Hr. unfold ring_put. destruct (rg_map r !! k) as [v0|] eqn:Ek.
  { apply ring_refresh_ok; [done|by eexists]. }
  destruct Hr as [Hd Hn Hl Hx].
  assert (k ∉ rg_order r) as Hk by (rewrite <-Hd, Ek; by intros [? ?]).
  destruct (Zlen (rg_order r) =? nativeWGMaxIndices) eqn:Ef; bool_to_prop.
  - assert (length (rg_order r) <> 0%nat) as Hpos.
    { unfold Zlen, nativeWGMaxIndices in Ef. lia. }
    assert (rg_next r < length (rg_order r))%nat as Hlt by lia.
    destruct (lookup_lt_is_Some_2 _ _ Hlt) as [victim Hv]. rewrite Hv.
    constructor; simpl.
    + intros k'. rewrite (elem_of_insert_fresh _ _ _ victim) by done.
      rewrite lookup_insert, <-Hd. case_decide; [subst; split; [by left|by eexists]|].
      rewrite lookup_delete. case_decide; [subst|].
      * split; [by intros [? ?]|naive_solver].
      * naive_solver.
    + by apply NoDup_insert_fresh.
    + unfold Zlen in *. by rewrite length_insert.
    + rewrite length_insert. left. by apply Nat.mod_upper_bound.
  - constructor; simpl.
    + intros k'. rewrite lookup_insert, elem_of_app, list_elem_of_singleton, <-Hd.
      case_decide; [subst; split; [by right|by eexists]|naive_solver].
    + apply NoDup_app. split_and!; [done| |by apply NoDup_singleton].
      by intros x Hin ->%list_elem_of_singleton.
    + rewrite Zlen_app. unfold Zlen in *. simpl. lia.
    + rewrite length_app. simpl. lia.
Qed.

(** A new key enters; nothing else does. *)
Lemma ring_put_lookup {A} k (v : A) r k' v' :
  rg_map (ring_put k v r) !! k' = Some v' -> (k' = k /\ v' = v) \/ rg_map r !! k' = Some v'.
Proof.
  unfold ring_put. destruct (rg_map r !! k); [|destruct (_ =? _); [destruct (rg_order r !! _)|]]; simpl.
  - rewrite lookup_insert. case_decide; naive_solver.
  - rewrite lookup_insert. case_decide; [naive_solver|]. rewrite lookup_delete. case_decide; naive_solver.
  - auto.
  - rewrite lookup_insert. case_decide; naive_solver.
Qed.

Lemma is_server_true from n :
  is_server from n = true <-> exists tn, servers n !! tn = Some from.
Proof.
  unfold is_server. rewrite existsb_exists. split.
  - intros ([tn a] & Hin & Ha). apply list_elem_of_In, elem_of_map_to_list in Hin.
    bool_to_prop. simpl in *. subst. eauto.
  - intros [tn Htn]. exists (tn, from). rewrite <-list_elem_of_In, elem_of_map_to_list.
    split; [done|]. by apply bool_decide_eq_true.
Qed.

Definition rings_ok (n : nativeWGRelay) : Prop := ring_ok (indices n) /\ ring_ok (pairs n).

Lemma set_route_ok k r n : rings_ok n -> is_Some (rg_map (indices n) !! k) -> rings_ok (set_route k r n).
Proof. intros [Hi Hp] Hk. split; [|done]. by apply ring_refresh_ok. Qed.

Lemma handle_rings ord now b from n : rings_ok n -> rings_ok (handle ord now b from n).1.
Proof.
  intros Hr. unfold handle. destruct (DecodeControlFrame b) as [[typ payload]|].
  { destruct (_ || _); [done|]. by destruct (tokens n !! _). }
  destruct (validWGPacket b) as [[typ receiver]|]; [|done].
  destruct (is_server from n).
  - destruct (rg_map (indices n) !! receiver) as [route|] eqn:Ei; [|done].
    destruct (time_before _ _); [|done]. simpl.
    assert (rings_ok (if typ =? 2 then recordPair (u32_at 4 b) receiver n else n)) as Hr'.
    { destruct (typ =? 2); [|done]. destruct Hr. split; [done|]. by apply ring_put_ok. }
    apply set_route_ok; [done|]. destruct (typ =? 2); simpl; by rewrite Ei.
  - destruct (match ord (servers n) with t :: _ => _ | [] => _ end) as [server|]; [|done].
    destruct (negb _); [done|]. simpl. destruct (typ =? 1).
    { destruct Hr. split; [|done]. by apply ring_put_ok. }
    destruct (rg_map (pairs n) !! receiver) as [c|]; [|done]. destruct (_ || _); [|done].
    destruct (rg_map (indices n) !! c) as [route|] eqn:Ec; [|done]. apply set_route_ok; [done|by eexists].
Qed.

Lemma native_step_rings e n n' out : rings_ok n -> native_step e n = Some (n', out) -> rings_ok n'.
Proof.
  intros Hr Hs. destruct e as [tenant token|tenant token|ord now b from]; simpl in Hs.
  - destruct (tokens n !! token); [done|]. by simplify_eq.
  - simplify_eq. unfold remove. by case_bool_decide.
  - pose proof (handle_rings ord now b from n Hr) as Hh. injection Hs as Hs. by rewrite Hs in Hh.
Qed.

Lemma native_run_rings es n n' : rings_ok n -> native_run es n = Some n' -> rings_ok n'.
Proof.
  revert n. induction es as [|e es IH]; intros n Hr; simpl; [by intros [= <-]|].
  destruct (native_step e n) as [[n1 out]|] eqn:E; [|done]. apply IH. by eapply native_step_rings.
Qed.

Lemma ring_size {A} (r : ring A) : ring_ok r -> Zsize (rg_map r) = Zlen (rg_order r).
Proof.
  intros [Hd Hn _ _]. unfold Zsize, Zlen. f_equal.
  rewrite <-size_dom, <-(size_list_to_set (C := gset Z)) by done. f_equal.
  apply set_eq. intros k. by rewrite elem_of_dom, elem_of_list_to_set, Hd.
Qed.

(** whatever packets arrive, each of the two routing tables holds at most
    4096 entries, exactly the keys of its ring, each once. *)
Theorem native_tables_bounded es n (Hrun : native_run es newNativeWGRelay = Some n) :
  Zsize (rg_map (indices n)) <= nativeWGMaxIndices /\
  Zsize (rg_map (pairs n)) <= nativeWGMaxIndices /\
  (forall k, is_Some (rg_map (indices n) !! k) <-> k ∈ rg_order (indices n)) /\
  NoDup (rg_order (indices n)) /\
  (forall k, is_Some (rg_map (pairs n) !! k) <-> k ∈ rg_order (pairs n)) /\
  NoDup (rg_order (pairs n)).
Proof.
  destruct (native_run_rings es newNativeWGRelay n) as [Hi Hp]; [|done|].
  { split; apply ring_empty_ok. }
  rewrite !ring_size by done. destruct Hi, Hp. by split_and!.
Qed.

(** ** Routes *)

(** [from] presented [token] in an association frame. *)
Definition associates (e : native_event) (from : Addr) (token : string) : Prop :=
  match e with
  | Packet _ _ b a => a = from /\ exists payload,
      b = EncodeControlFrame FrameNativeWireGuardAssociate payload /\ token = str_of payload
  | _ => False
  end.

(** [from] sent a well-formed WireGuard packet. *)
Definition sends (e : native_event) (from : Addr) : Prop :=
  match e with Packet _ _ b a => a = from /\ is_Some (validWGPacket b) | _ => False end.

(** Servers hold a current token they presented, tenants have one token, and
    clients have sent something. *)
Record routes_ok (es : list native_event) (n : nativeWGRelay) : Prop := {
  rt_server : forall tn a, servers n !! tn = Some a -> exists token,
    tokens n !! token = Some tn /\ exists e, e ∈ es /\ associates e a token;
  rt_token : forall t1 t2 tn, tokens n !! t1 = Some tn -> tokens n !! t2 = Some tn -> t1 = t2;
  rt_client : forall k r, rg_map (indices n) !! k = Some r -> exists e, e ∈ es /\ sends e (client r);
}.

Lemma elem_of_snoc_l {A} (x : A) l y : x ∈ l -> x ∈ l ++ [y].
Proof. rewrite elem_of_app. auto. Qed.

Lemma elem_of_snoc_r {A} (x : A) l : x ∈ l ++ [x].
Proof. rewrite elem_of_app, list_elem_of_singleton. auto. Qed.

#[local] Hint Resolve elem_of_snoc_l elem_of_snoc_r : core.

Lemma routes_ok_snoc es e n : routes_ok es n -> routes_ok (es ++ [e]) n.
Proof.
  intros [Hs Ht Hc]. constructor; [|done|].
  - intros tn a Ha. destruct (Hs tn a Ha) as (tk & ? & x & ? & ?). eauto 10.
  - intros k r Hr. destruct (Hc k r Hr) as (x & ? & ?). eauto.
Qed.

(** The servers and tokens are as before; the routes are old or the sender's. *)
Lemma routes_ok_indices es e n n' from :
  routes_ok es n -> sends e from -> tokens n' = tokens n -> servers n' = servers n ->
  (forall k r, rg_map (indices n') !! k = Some r -> client r = from \/
     exists k' r', rg_map (indices n) !! k' = Some r' /\ client r = client r') ->
  routes_ok (es ++ [e]) n'.
Proof.
  intros [Hs Ht Hc] He Htk Hsv Hi. constructor; rewrite ?Htk, ?Hsv; [|done|].
  - intros tn a Ha. destruct (Hs tn a Ha) as (tk & ? & x & ? & ?). eauto 10.
  - intros k r Hr. destruct (Hi k r Hr) as [->|(k' & r' & Hr' & ->)]; [eauto|].
    destruct (Hc k' r' Hr') as (x & ? & ?). eauto.
Qed.

Lemma issue_routes es tenant token n :
  routes_ok es n -> tokens n !! token = None -> routes_ok (es ++ [Issued tenant token]) (issue tenant token n).
Proof.
  intros [Hs Ht Hc] Hf. constructor; simpl.
  - intros tn a [Hne Ha]%lookup_delete_Some. destruct (Hs tn a Ha) as (tk & Htk & x & ? & ?).
    exists tk. split; [|eauto]. rewrite lookup_insert_ne by congruence.
    apply map_lookup_filter_Some. done.
  - intros t1 t2 tn. rewrite !lookup_insert. repeat case_decide; subst; try done;
      rewrite ?map_lookup_filter_Some; simpl.
    + intros [= <-] [_ ?]. done.
    + intros [_ ?] [= <-]. done.
    + intros [? _] [? _]. eauto.
  - intros k r Hr. destruct (Hc k r Hr) as (x & ? & ?). eauto.
Qed.

Lemma remove_routes es tenant token n :
  routes_ok es n -> routes_ok (es ++ [RemovedToken tenant token]) (remove tenant token n).
Proof.
  intros H. unfold remove. case_bool_decide as Hk; [|by apply routes_ok_snoc].
  destruct H as [Hs Ht Hc]. constructor; simpl.
  - intros tn a [Hne Ha]%lookup_delete_Some. destruct (Hs tn a Ha) as (tk & Htk & x & ? & ?).
    exists tk. split; [|eauto]. rewrite lookup_delete_ne by congruence. done.
  - intros t1 t2 tn [_ ?]%lookup_delete_Some [_ ?]%lookup_delete_Some. eauto.
  - intros k r Hr. destruct (Hc k r Hr) as (x & ? & ?). eauto.
Qed.

Lemma associate_routes es ord now b from payload tenant n :
  routes_ok es n -> b = EncodeControlFrame FrameNativeWireGuardAssociate payload ->
  tokens n !! str_of payload = Some tenant ->
  routes_ok (es ++ [Packet ord now b from])
    (mkNative (tokens n) (<[tenant := from]> (servers n)) (indices n) (pairs n)).
Proof.
  intros [Hs Ht Hc] Hb Htok. constructor; simpl; [|done|].
  - intros tn a. rewrite lookup_insert. case_decide as E; [intros [= <-]; subst tn|].
    + exists (str_of payload). split; [done|]. exists (Packet ord now b from).
      split; [done|]. simpl. eauto.
    + intros Ha. destruct (Hs tn a Ha) as (tk & ? & x & ? & ?). eauto 10.
  - intros k r Hr. destruct (Hc k r Hr) as (x & ? & ?). eauto.
Qed.

Lemma handle_routes es ord now b from n :
  routes_ok es n -> routes_ok (es ++ [Packet ord now b from]) (handle ord now b from n).1.
Proof.
  intros H. pose proof (routes_ok_snoc es (Packet ord now b from) n H) as H'. unfold handle.
  destruct (DecodeControlFrame b) as [[typ payload]|] eqn:Ed.
  { destruct (_ || _) eqn:Eg; [done|]. destruct (tokens n !! str_of payload) as [tenant|] eqn:Et; [|done].
    apply orb_false_iff in Eg as [Eg _]. rewrite negb_false_iff in Eg. apply Byte.byte_dec_bl in Eg.
    apply DecodeControlFrame_iff in Ed. subst. simpl. by eapply associate_routes. }
  destruct (validWGPacket b) as [[typ receiver]|] eqn:Ev; [|done].
  assert (sends (Packet ord now b from) from) as Hsend by (simpl; rewrite Ev; eauto).
  destruct (is_server from n) eqn:Esv.
  - destruct (rg_map (indices n) !! receiver) as [route|] eqn:Ei; [|done].
    destruct (time_before _ _); [|done]. simpl.
    eapply (routes_ok_indices es _ n _ from); [done|done|by destruct (typ =? 2)..|].
    assert (rg_map (indices (if typ =? 2 then recordPair (u32_at 4 b) receiver n else n)) =
      rg_map (indices n)) as E by (by destruct (typ =? 2)).
    intros k r. simpl. rewrite E, lookup_insert. case_decide; [intros [= <-]; simpl|]; eauto.
  - destruct (match ord (servers n) with t :: _ => _ | [] => _ end) as [server|]; [|done].
    destruct (negb _); [done|]. simpl.
    set (fresh := {| client := from; expires := _ |}).
    destruct (typ =? 1).
    { eapply (routes_ok_indices es _ n _ from); [done..|]. intros k r Hr. simpl in Hr.
      apply ring_put_lookup in Hr as [[_ ->]|]; eauto. }
    destruct (rg_map (pairs n) !! receiver) as [c|]; [|done]. destruct (_ || _); [|done].
    destruct (rg_map (indices n) !! c) as [route|] eqn:Ec; [|done].
    eapply (routes_ok_indices es _ n _ from); [done..|].
    intros k r. simpl. rewrite lookup_insert. case_decide; [intros [= <-]; by left|eauto].
Qed.

Lemma native_step_routes es e n n' out :
  routes_ok es n -> native_step e n = Some (n', out) -> routes_ok (es ++ [e]) n'.
Proof.
  intros Hr Hs. destruct e as [tenant token|tenant token|ord now b from]; simpl in Hs.
  - destruct (tokens n !! token) eqn:E; [done|]. simplify_eq. by apply issue_routes.
  - simplify_eq. by apply remove_routes.
  - pose proof (handle_routes es ord now b from n Hr) as Hh. injection Hs as Hs. by rewrite Hs in Hh.
Qed.

Lemma native_run_routes es es' n n' :
  routes_ok es n -> native_run es' n = Some n' -> routes_ok (es ++ es') n'.
Proof.
  revert es n. induction es' as [|e es' IH]; intros es n Hr; simpl.
  { intros [= <-]. by rewrite app_nil_r. }
  destruct (native_step e n) as [[n1 out]|] eqn:E; [|done]. intros Hrun.
  rewrite (cons_middle e es es'). rewrite app_assoc. apply (IH _ n1); [|done].
  by eapply native_step_routes.
Qed.

Lemma routes_ok_new : routes_ok [] newNativeWGRelay.
Proof. by constructor. Qed.

(** C38: a native WireGuard relay is no open relay either: each packet it
    sends is the received one, unchanged; a packet from anyone else goes to
    an address that presented a token still current for its tenant, so an
    old registration's association does not outlive its token, and a packet
    from such a server goes only to an address that has itself sent one. *)
Theorem native_not_an_open_relay es n e n' a b'
    (Hrun : native_run es newNativeWGRelay = Some n)
    (Hstep : native_step e n = Some (n', Some (a, b'))) :
  exists ord now from, e = Packet ord now b' from /\
    (((forall tn, servers n !! tn <> Some from) /\
      exists tn token, tokens n !! token = Some tn /\ exists x, x ∈ es /\ associates x a token) \/
     ((exists tn, servers n !! tn = Some from) /\ exists x, x ∈ es /\ sends x a)).
Proof.
  pose proof (native_run_routes [] es _ _ routes_ok_new Hrun) as [Hs _ Hc]. simpl in *.
  destruct e as [tenant token|tenant token|ord now b from]; simpl in Hstep.
  { by destruct (tokens n !! token). }
  { by simplify_eq. }
  assert ((handle ord now b from n).2 = Some (a, b')) as Hh by (injection Hstep as Hstep; by rewrite Hstep).
  clear Hstep. exists ord, now, from. unfold handle in Hh.
  destruct (DecodeControlFrame b) as [[typ payload]|].
  { destruct (_ || _); [done|]. by destruct (tokens n !! str_of payload). }
  destruct (validWGPacket b) as [[typ receiver]|]; [|done].
  destruct (is_server from n) eqn:Esv.
  - destruct (rg_map (indices n) !! receiver) as [route|] eqn:Ei; [|done].
    destruct (time_before _ _); [|done]. simpl in Hh. simplify_eq.
    split; [done|]. right. split; [by apply is_server_true|eauto].
  - destruct (match ord (servers n) with t :: _ => _ | [] => _ end) as [server|] eqn:Eo; [|done].
    destruct (negb _); [done|]. simpl in Hh. simplify_eq.
    split; [done|]. left. split.
    + intros tn Htn. rewrite (proj2 (is_server_true from n)) in Esv; [done|by exists tn].
    + destruct (ord (servers n)) as [|tn ?]; [done|].
      destruct (Hs tn a Eo) as (token & ? & ?). eauto.
Qed.
End relay.

(** ** Concrete instances *)
Definition initiation : list byte := [x01; x00; x00; x00; x07] ++ replicate 143 x00.
Definition a_token : list byte := replicate 32 x41.

(** A server associates; a client's initiation is passed to it. *)
Definition native_example : list (@native_event string) :=
  [Issued "site" (str_of a_token);
   Packet map_keys 1 (EncodeControlFrame FrameNativeWireGuardAssociate a_token) "srv:1"].

Definition native_state : @nativeWGRelay string :=
  default newNativeWGRelay (native_run (fun _ => true) native_example newNativeWGRelay).

Lemma native_tables_bounded_witness : Zsize (rg_map (indices native_state)) <= 4096.
Proof.
  apply (native_tables_bounded (fun _ => true) native_example native_state).
  vm_compute. reflexivity.
Defined.

Lemma native_not_an_open_relay_witness :
  exists tn token, tokens native_state !! token = Some tn /\
    exists x, x ∈ native_example /\ associates x "srv:1"%string token.
Proof.
  assert ((handle (fun _ => true) map_keys 2 initiation "cli:1"%string native_state).2 =
    Some ("srv:1"%string, initiation)) as Hout by (vm_compute; reflexivity).
  assert (native_step (fun _ => true) (Packet map_keys 2 initiation "cli:1"%string) native_state =
    Some ((handle (fun _ => true) map_keys 2 initiation "cli:1"%string native_state).1,
          Some ("srv:1"%string, initiation))) as E.
  { rewrite <-Hout, <-surjective_pairing. reflexivity. }
  destruct (native_not_an_open_relay (fun _ => true) native_example native_state _ _ _ _
    ltac:(vm_compute; reflexivity) E) as (ord & now & from & Heq & [[_ H]|[[tn Htn] _]]).
  - exact H.
  - injection Heq as _ _ <-. exfalso.
    assert (servers native_state = {["site"%string := "srv:1"%string]}) as Hsv by (vm_compute; reflexivity).
    rewrite Hsv in Htn. apply lookup_singleton_Some in Htn as [_ Htn]. discriminate.
Defined.
