(* ===== verification/Scheduler.v ===== *)
(** [pkg/wstransport/multipath.go], the path scheduler of a multipath peer: the
    transport names, the candidates with their probe windows, and the sticky
    selection.

    Each method is one step: those that lock hold the mutex throughout, and
    [Select]'s commit of the incumbent is taken together with its reading.
    [float64] is IEEE 754 binary64 ([SpecFloat] at precision 53). *)
From S2P Require Import Prelude Bytes Frames.
From Stdlib Require Import SpecFloat.

(** ** [float64] *)
Definition f64_of_int (z : Z) : spec_float := binary_normalize 53 1024 z 0 false.
Definition f64_div : spec_float -> spec_float -> spec_float := SFdiv 53 1024.
Definition f64_mul : spec_float -> spec_float -> spec_float := SFmul 53 1024.

(** Conversion to an integer truncates towards zero. *)
Definition f64_to_int (f : spec_float) : Z :=
  match f with
  | S754_finite s m e =>
      let a := if 0 <=? e then Zpos m * 2 ^ e else Zpos m / 2 ^ (- e) in
      if s then - a else a
  | _ => 0
  end.

(** ** Names *)
Definition PathWSS : string := "wss".
Definition PathUDPRelay : string := "udp-relay".
Definition PathDirect : string := "direct-udp".

Definition NormalizeTransportName (s : string) : string :=
  if existsb (String.eqb s) ["direct"; "udp"; "direct-udp"] then PathDirect
  else if existsb (String.eqb s) ["relay"; "udprelay"; "udp-relay"] then PathUDPRelay
  else if existsb (String.eqb s) ["ws"; "wss"; "websocket"] then PathWSS
  else if existsb (String.eqb s) ["auto"; "none"; ""] then ""
  else s.

(** [Err] is the invalid name. *)
Definition ValidateTransportName (s : string) : result string string :=
  let normalized := NormalizeTransportName s in
  if (normalized =? "")%string || (normalized =? PathDirect)%string
     || (normalized =? PathUDPRelay)%string || (normalized =? PathWSS)%string
  then Ok normalized else Err s.

(** ** Candidates *)
Record PathStatus := mkStatus {
  ps_Name : string;
  ps_Kind : string;
  ps_Healthy : bool;
  ps_RTT : Z;
  ps_Loss : spec_float;
  ps_LastSuccess : Z;
  ps_Primary : bool;
  ps_DatagramMTU : Z;
  ps_Forced : bool;
  ps_DuplicatedBytes : Z;
  ps_DuplicationSuppressedBytes : Z;
}.

(** [probes] is the ring of the last twenty results. *)
Record candidate := mkCandidate {
  c_Name : string;
  c_Kind : string;
  c_Healthy : bool;
  c_RTT : Z;
  c_Loss : spec_float;
  c_LastSuccess : Z;
  c_DatagramMTU : Z;
  c_probes : list bool;
  c_probeNext : nat;
  c_used : nat;
  c_misses : Z;
  c_duplicated : Z;
  c_suppressed : Z;
  c_controlSending : bool;
}.

Definition new_candidate (name kind : string) : candidate :=
  mkCandidate name kind false 0 (S754_zero false) time_zero 1420 (replicate 20 false) 0 0 0 0 0 false.

Definition set_kind (k : string) (c : candidate) : candidate :=
  mkCandidate (c_Name c) k (c_Healthy c) (c_RTT c) (c_Loss c) (c_LastSuccess c) (c_DatagramMTU c)
    (c_probes c) (c_probeNext c) (c_used c) (c_misses c) (c_duplicated c) (c_suppressed c)
    (c_controlSending c).
Definition set_health (h : bool) (last misses : Z) (c : candidate) : candidate :=
  mkCandidate (c_Name c) (c_Kind c) h (c_RTT c) (c_Loss c) last (c_DatagramMTU c)
    (c_probes c) (c_probeNext c) (c_used c) misses (c_duplicated c) (c_suppressed c)
    (c_controlSending c).
Definition set_window (ps : list bool) (next used : nat) (c : candidate) : candidate :=
  mkCandidate (c_Name c) (c_Kind c) (c_Healthy c) (c_RTT c) (c_Loss c) (c_LastSuccess c)
    (c_DatagramMTU c) ps next used (c_misses c) (c_duplicated c) (c_suppressed c)
    (c_controlSending c).
Definition set_rtt (rtt : Z) (c : candidate) : candidate :=
  mkCandidate (c_Name c) (c_Kind c) (c_Healthy c) rtt (c_Loss c) (c_LastSuccess c)
    (c_DatagramMTU c) (c_probes c) (c_probeNext c) (c_used c) (c_misses c) (c_duplicated c)
    (c_suppressed c) (c_controlSending c).
Definition set_loss (l : spec_float) (c : candidate) : candidate :=
  mkCandidate (c_Name c) (c_Kind c) (c_Healthy c) (c_RTT c) l (c_LastSuccess c) (c_DatagramMTU c)
    (c_probes c) (c_probeNext c) (c_used c) (c_misses c) (c_duplicated c) (c_suppressed c)
    (c_controlSending c).
Definition set_mtu (m : Z) (c : candidate) : candidate :=
  mkCandidate (c_Name c) (c_Kind c) (c_Healthy c) (c_RTT c) (c_Loss c) (c_LastSuccess c) m
    (c_probes c) (c_probeNext c) (c_used c) (c_misses c) (c_duplicated c) (c_suppressed c)
    (c_controlSending c).
Definition set_duplication (d s : Z) (c : candidate) : candidate :=
  mkCandidate (c_Name c) (c_Kind c) (c_Healthy c) (c_RTT c) (c_Loss c) (c_LastSuccess c)
    (c_DatagramMTU c) (c_probes c) (c_probeNext c) (c_used c) (c_misses c) d s (c_controlSending c).
Definition set_sending (b : bool) (c : candidate) : candidate :=
  mkCandidate (c_Name c) (c_Kind c) (c_Healthy c) (c_RTT c) (c_Loss c) (c_LastSuccess c)
    (c_DatagramMTU c) (c_probes c) (c_probeNext c) (c_used c) (c_misses c) (c_duplicated c)
    (c_suppressed c) b.

(** How many of a list of results are good. *)
Definition good (l : list bool) : nat := length (filter (fun b => b = true) l).

Definition loss (c : candidate) : spec_float :=
  if (c_used c =? 0)%nat then f64_of_int 1
  else
    let used := Z.of_nat (c_used c) in
    let g := Z.of_nat (good (take (c_used c) (c_probes c))) in
    f64_div (f64_of_int (used - g)) (f64_of_int used).

(** ** The scheduler *)
Record Scheduler := mkSched {
  candidates : gmap string candidate;
  forced : option string;
  primary : option string;
}.

Definition NewScheduler : Scheduler := mkSched ∅ None None.

Definition update_candidate (name : string) (f : candidate -> candidate) (s : Scheduler) : Scheduler :=
  mkSched (alter f name (candidates s)) (forced s) (primary s).

Definition Register (name kind : string) (s : Scheduler) : Scheduler :=
  match candidates s !! name with
  | Some _ => update_candidate name (set_kind kind) s
  | None => mkSched (<[name := new_candidate name kind]> (candidates s)) (forced s) (primary s)
  end.

Definition requiresActiveProbe (name : string) (s : Scheduler) : bool :=
  match candidates s !! name with
  | Some c => negb (c_Kind c =? PathWSS)%string
  | None => false
  end.

Definition ActivateCarrier (name : string) (now : Z) (s : Scheduler) : Scheduler :=
  match candidates s !! name with
  | None => s
  | Some _ =>
      let s := update_candidate name (set_health true now 0) s in
      mkSched (candidates s) (forced s)
        (match primary s with None => Some name | Some p => Some p end)
  end.

(** What [ProbeResult] does to the candidate. *)
Definition probe_result (rtt : Z) (ok : bool) (now : Z) (c : candidate) : candidate :=
  let c := set_window (<[c_probeNext c := ok]> (c_probes c))
             ((c_probeNext c + 1) mod length (c_probes c))
             (if (c_used c <? length (c_probes c))%nat then c_used c + 1 else c_used c)%nat c in
  if negb ok then
    let misses := i64 (c_misses c + 1) in
    let c := set_health (if 3 <=? misses then false else c_Healthy c) (c_LastSuccess c) misses c in
    set_loss (loss c) c
  else
    let c := set_health true now 0 c in
    let c :=
      if 0 <? rtt then
        if c_RTT c =? 0 then set_rtt rtt c
        else set_rtt (go_div (i64 (i64 (c_RTT c * 7) + rtt)) 8) c
      else c in
    set_loss (loss c) c.

Definition ProbeResult (name : string) (rtt : Z) (ok : bool) (now : Z) (s : Scheduler) : Scheduler :=
  update_candidate name (probe_result rtt ok now) s.

Definition CarrierFailure (name : string) (s : Scheduler) : Scheduler :=
  update_candidate name (fun c => set_health false (c_LastSuccess c) 3 c) s.

Definition ReserveControlSend (name : string) (s : Scheduler) : bool * Scheduler :=
  match candidates s !! name with
  | Some c => if c_controlSending c then (false, s)
              else (true, update_candidate name (set_sending true) s)
  | None => (false, s)
  end.

Definition FinishControlSend (name : string) (s : Scheduler) : Scheduler :=
  update_candidate name (set_sending false) s.

Definition RecordDuplication (name : string) (n : Z) (allowed : bool) (s : Scheduler) : Scheduler :=
  update_candidate name
    (fun c => if allowed then set_duplication (u64 (c_duplicated c + u64 n)) (c_suppressed c) c
              else set_duplication (c_duplicated c) (u64 (c_suppressed c + u64 n)) c) s.

Definition ReportDatagramMTU (name : string) (mtu : Z) (s : Scheduler) : Scheduler :=
  if (mtu <? minPathMTUProbe) || (MaxRelayDatagram <? mtu) then s
  else update_candidate name (fun c => if c_DatagramMTU c <? mtu then set_mtu mtu c else c) s.

Definition score (c : candidate) : Z :=
  i64 (c_RTT c + f64_to_int (f64_mul (c_Loss c) (f64_of_int 10000000000))).

Definition SetForced (name : string) (s : Scheduler) : Scheduler :=
  let norm := NormalizeTransportName name in
  mkSched (candidates s) (if (norm =? "")%string then None else Some norm) (primary s).

Definition Forced (s : Scheduler) : string := default ""%string (forced s).

(** The order of [sort.Slice]: by score, then by name. *)
Definition better (a b : candidate) : Prop :=
  score a < score b \/ (score a = score b /\ str_le (c_Name a) (c_Name b)).

#[export] Instance better_dec a b : Decision (better a b).
Proof. unfold better. apply _. Defined.

Definition findCandidate (paths : list candidate) (name : string) : option candidate :=
  if (name =? "")%string then None
  else List.find (fun c => (c_Name c =? name)%string) paths.

Definition values (ord : gmap string candidate -> list string) (m : gmap string candidate) :
    list candidate := omap (fun k => m !! k) (ord m).

Definition selection := (string * string * bool)%type.

Definition selectLocked (ord : gmap string candidate -> list string) (s : Scheduler) :
    selection * Scheduler :=
  let registered := values ord (candidates s) in
  let paths := merge_sort better (filter (fun c => c_Healthy c = true) registered) in
  match paths with
  | [] =>
      match registered with
      | [] => (("", "", false)%string, mkSched (candidates s) (forced s) None)
      | _ =>
          match match primary s with
                | Some cur => List.find (fun p => (c_Name p =? cur)%string) registered
                | None => None
                end with
          | Some p => ((c_Name p, "", false)%string, s)
          | None =>
              match if (Forced s =? "")%string then None
                    else List.find (fun p => (c_Name p =? Forced s)%string
                           && negb (c_LastSuccess p =? time_zero)) registered with
              | Some p => ((c_Name p, "", false)%string, s)
              | None => (("", "", false)%string, s)
              end
          end
      end
  | best :: _ =>
      let curName := default ""%string (primary s) in
      let chosen :=
        match findCandidate paths (Forced s) with
        | Some c => c
        | None => match findCandidate paths curName with Some c => c | None => best end
        end in
      let s' :=
        if negb (c_Name chosen =? curName)%string
        then mkSched (candidates s) (forced s) (Some (c_Name chosen)) else s in
      let alt := List.find (fun c => negb (c_Name c =? c_Name chosen)%string) paths in
      ((match paths, alt with
        | [_], _ => (c_Name chosen, "", false)%string
        | _, Some alt => if 0 <? c_misses chosen then (c_Name chosen, c_Name alt, true)
                         else (c_Name chosen, "", false)%string
        | _, None => (c_Name chosen, "", false)%string
        end), s')
  end.

Definition Select : (gmap string candidate -> list string) -> Scheduler -> selection * Scheduler :=
  selectLocked.

Definition status_of (primary forced : string) (c : candidate) : PathStatus :=
  mkStatus (c_Name c) (c_Kind c) (c_Healthy c) (c_RTT c) (c_Loss c) (c_LastSuccess c)
    (c_Name c =? primary)%string (c_DatagramMTU c) (c_Name c =? forced)%string
    (c_duplicated c) (c_suppressed c).

Definition by_name (a b : PathStatus) : Prop := str_le (ps_Name a) (ps_Name b).

#[export] Instance by_name_dec a b : Decision (by_name a b).
Proof. unfold by_name. apply _. Defined.

(** [Status] commits a change of incumbent, as [Select] does. *)
Definition Status (ord : gmap string candidate -> list string) (s : Scheduler) :
    list PathStatus * Scheduler :=
  let '((primary, _, _), s) := selectLocked ord s in
  (merge_sort by_name (status_of primary (Forced s) <$> values ord (candidates s)), s).

(** ** Selection does not depend on the order of the map *)
#[export] Instance better_trans : Transitive better.
Proof.
  intros a b c. unfold better. intros [|[? H1]] [|[? H2]]; try (left; lia).
  right. split; [lia|]. by etrans.
Qed.

#[export] Instance better_total : Total better.
Proof.
  intros a b. unfold better. destruct (Z.lt_trichotomy (score a) (score b)) as [|[->|]]; [auto| |auto].
  destruct (str_le_total (c_Name a) (c_Name b)); auto.
Qed.

#[export] Instance by_name_trans : Transitive by_name.
Proof. intros a b c. unfold by_name. apply str_le_trans. Qed.

#[export] Instance by_name_total : Total by_name.
Proof. intros a b. apply str_le_total. Qed.

(** Every candidate is filed under its own name. *)
Definition names_ok (m : gmap string candidate) : Prop :=
  forall k c, m !! k = Some c -> c_Name c = k.

Lemma elem_of_values ord m c :
  ranges ord -> c ∈ values ord m <-> exists k, m !! k = Some c.
Proof.
  intros Ho. unfold values. rewrite list_elem_of_omap. split; [naive_solver|].
  intros [k Hk]. exists k. split; [|done]. rewrite elem_of_ranges by done. by eexists.
Qed.

Lemma values_perm ord ord' m : ranges ord -> ranges ord' -> values ord m ≡ₚ values ord' m.
Proof. intros Ho Ho'. unfold values. by rewrite (Ho m), (Ho' m). Qed.

Lemma names_inj m ord c c' :
  names_ok m -> ranges ord -> c ∈ values ord m -> c' ∈ values ord m -> c_Name c = c_Name c' -> c = c'.
Proof.
  intros Hn Ho [k Hk]%elem_of_values [k' Hk']%elem_of_values E; [|done..].
  rewrite (Hn k c Hk), (Hn k' c' Hk') in E. congruence.
Qed.

(** [find] by a test that at most one element passes. *)
Lemma find_unique {A} (f : A -> bool) l x :
  x ∈ l -> f x = true -> (forall y, y ∈ l -> f y = true -> y = x) -> List.find f l = Some x.
Proof.
  intros Hx Hf Hu. destruct (List.find f l) as [y|] eqn:E.
  - apply List.find_some in E as [Hy Hfy]. f_equal. apply Hu; [by apply list_elem_of_In|done].
  - pose proof (List.find_none f l E x) as Hn. rewrite <-list_elem_of_In in Hn.
    rewrite Hn in Hf; done.
Qed.

Lemma find_perm {A} (f : A -> bool) l l' :
  l ≡ₚ l' -> (forall x y, x ∈ l -> y ∈ l -> f x = true -> f y = true -> x = y) ->
  List.find f l = List.find f l'.
Proof.
  intros Hp Hu. destruct (List.find f l) as [x|] eqn:E.
  - apply List.find_some in E as [Hx Hf]. apply list_elem_of_In in Hx. symmetry.
    apply find_unique; [by rewrite <-Hp|done|]. intros y Hy Hfy. rewrite <-Hp in Hy. eauto.
  - symmetry. destruct (List.find f l') as [x|] eqn:E'; [|done].
    apply List.find_some in E' as [Hx Hf]. apply list_elem_of_In in Hx. rewrite <-Hp in Hx.
    pose proof (List.find_none f l E x) as Hn. rewrite <-list_elem_of_In in Hn.
    rewrite Hn in Hf; done.
Qed.

Definition healthy_paths (ord : gmap string candidate -> list string) (m : gmap string candidate) :
    list candidate := merge_sort better (filter (fun c => c_Healthy c = true) (values ord m)).

Lemma elem_of_healthy ord m c :
  ranges ord -> c ∈ healthy_paths ord m <-> (exists k, m !! k = Some c) /\ c_Healthy c = true.
Proof.
  intros Ho. unfold healthy_paths. rewrite merge_sort_Permutation, list_elem_of_filter.
  rewrite elem_of_values by done. naive_solver.
Qed.

Lemma healthy_paths_ord ord ord' m :
  names_ok m -> ranges ord -> ranges ord' -> healthy_paths ord m = healthy_paths ord' m.
Proof.
  intros Hn Ho Ho'. apply (Sorted_unique_strong better).
  - intros x y Hx Hy Hxy Hyx. rewrite elem_of_healthy in Hx, Hy by done.
    destruct Hx as [[k Hk] _], Hy as [[k' Hk'] _].
    assert (c_Name x = c_Name y) as E.
    { destruct Hxy as [|[? H1]], Hyx as [|[? H2]]; try lia. by apply (anti_symm str_le). }
    rewrite (Hn k x Hk), (Hn k' y Hk') in E. congruence.
  - apply Sorted_merge_sort. apply _.
  - apply Sorted_merge_sort. apply _.
  - unfold healthy_paths. rewrite !merge_sort_Permutation. by rewrite (values_perm ord ord').
Qed.

Lemma selectLocked_ord ord ord' s :
  names_ok (candidates s) -> ranges ord -> ranges ord' -> selectLocked ord s = selectLocked ord' s.
Proof.
  intros Hn Ho Ho'. unfold selectLocked. fold (healthy_paths ord (candidates s)).
  fold (healthy_paths ord' (candidates s)). rewrite (healthy_paths_ord ord ord') by done.
  destruct (healthy_paths ord' (candidates s)); [|done].
  pose proof (values_perm ord ord' (candidates s) Ho Ho') as Hp.
  assert (forall f : candidate -> bool, (forall c c', f c = true -> f c' = true -> c_Name c = c_Name c') ->
    List.find f (values ord (candidates s)) = List.find f (values ord' (candidates s))) as Hfind.
  { intros f Hf. apply find_perm; [done|]. intros x y Hx Hy Hfx Hfy.
    apply (names_inj (candidates s) ord); auto. }
  rewrite !(Hfind (fun p => (c_Name p =? Forced s)%string && negb (c_LastSuccess p =? time_zero))).
  2:{ intros c c' H1 H2. bool_to_prop. congruence. }
  assert (match primary s with
    | Some cur => List.find (fun p => (c_Name p =? cur)%string) (values ord (candidates s))
    | None => None end = match primary s with
    | Some cur => List.find (fun p => (c_Name p =? cur)%string) (values ord' (candidates s))
    | None => None end) as ->.
  { destruct (primary s) as [cur|]; [|done]. apply Hfind. intros c c' H1 H2. bool_to_prop. congruence. }
  destruct (values ord (candidates s)) as [|x l] eqn:E1, (values ord' (candidates s)) as [|y l'] eqn:E2;
    try done; [by apply Permutation_nil_l in Hp|by apply Permutation_nil_r in Hp].
Qed.

(** ** Policy *)
Definition healthy (s : Scheduler) (name : string) : Prop :=
  exists c, candidates s !! name = Some c /\ c_Healthy c = true.

#[local] Instance healthy_dec s name : Decision (healthy s name).
Proof.
  unfold healthy. destruct (candidates s !! name) as [c|] eqn:E.
  - destruct (c_Healthy c) eqn:Eh; [left; by exists c|right; intros (? & ? & ?); congruence].
  - right. by intros (? & ? & ?).
Qed.

(** The healthy candidate no other healthy one precedes. *)
Definition is_best (s : Scheduler) (except : option string) (c : candidate) : Prop :=
  (exists k, candidates s !! k = Some c) /\ c_Healthy c = true /\ Some (c_Name c) <> except /\
  forall k c', candidates s !! k = Some c' -> c_Healthy c' = true -> Some (c_Name c') <> except ->
    better c c'.

Lemma healthy_in s ord name :
  names_ok (candidates s) -> ranges ord ->
  healthy s name <-> exists c, c ∈ healthy_paths ord (candidates s) /\ c_Name c = name.
Proof.
  intros Hn Ho. unfold healthy. split.
  - intros (c & Hc & Hh). exists c. rewrite elem_of_healthy by done. split; [eauto|]. by apply Hn.
  - intros (c & Hc & <-). rewrite elem_of_healthy in Hc by done. destruct Hc as [[k Hk] Hh].
    exists c. by rewrite (Hn k c Hk).
Qed.

Lemma findCandidate_some ord s name c :
  names_ok (candidates s) -> ranges ord ->
  findCandidate (healthy_paths ord (candidates s)) name = Some c <->
  name <> ""%string /\ c ∈ healthy_paths ord (candidates s) /\ c_Name c = name.
Proof.
  intros Hn Ho. unfold findCandidate. destruct (name =? "")%string eqn:E; bool_to_prop; [naive_solver|].
  split.
  - intros [Hin Hf]%List.find_some. apply list_elem_of_In in Hin. by bool_to_prop.
  - intros (_ & Hin & Hc). apply find_unique; [done|by apply String.eqb_eq|].
    intros y Hy Hny. bool_to_prop. rewrite elem_of_healthy in Hin, Hy by done.
    destruct Hin as [[k Hk] _], Hy as [[k' Hk'] _].
    pose proof (Hn k c Hk). pose proof (Hn k' y Hk'). congruence.
Qed.

Lemma findCandidate_none ord s name :
  names_ok (candidates s) -> ranges ord ->
  findCandidate (healthy_paths ord (candidates s)) name = None <->
  name = ""%string \/ ~ healthy s name.
Proof.
  intros Hn Ho. destruct (findCandidate _ name) as [c|] eqn:E.
  - apply findCandidate_some in E as (Hne & Hin & Hc); [|done..]. split; [done|].
    intros [?|Hh]; [done|]. exfalso. apply Hh. apply (healthy_in s ord); eauto.
  - split; [|done]. intros _. destruct (decide (name = ""%string)); [by left|right].
    intros (c & Hin & Hc)%(healthy_in s ord); [|done..].
    assert (findCandidate (healthy_paths ord (candidates s)) name = Some c); [|congruence].
    by apply findCandidate_some.
Qed.

Lemma healthy_paths_best ord s c l :
  names_ok (candidates s) -> ranges ord ->
  healthy_paths ord (candidates s) = c :: l -> is_best s None c.
Proof.
  intros Hn Ho E.
  assert (c ∈ healthy_paths ord (candidates s)) as Hin by (rewrite E; left).
  rewrite elem_of_healthy in Hin by done. destruct Hin as [[k Hk] Hh].
  split_and!; [by exists k|done|done|].
  intros k' c' Hk' Hh' _.
  assert (c' ∈ healthy_paths ord (candidates s)) as Hin by (apply elem_of_healthy; eauto).
  pose proof (StronglySorted_merge_sort better
    (filter (fun c => c_Healthy c = true) (values ord (candidates s)))) as Hs.
  fold (healthy_paths ord (candidates s)) in Hs. rewrite E in Hin, Hs.
  apply elem_of_cons in Hin as [->|Hin].
  - unfold better. right. split; [done|reflexivity].
  - inversion Hs as [|? ? _ HF]; subst. rewrite Forall_forall in HF. auto.
Qed.

(** The first of the sorted list that is not the chosen one. *)
Lemma healthy_paths_alt ord s p :
  names_ok (candidates s) -> ranges ord ->
  match List.find (fun c => negb (c_Name c =? p)%string) (healthy_paths ord (candidates s)) with
  | Some c => is_best s (Some p) c
  | None => forall n, healthy s n -> n = p
  end.
Proof.
  intros Hn Ho.
  pose proof (StronglySorted_merge_sort better
    (filter (fun c => c_Healthy c = true) (values ord (candidates s)))) as Hs.
  fold (healthy_paths ord (candidates s)) in Hs.
  destruct (List.find _ _) as [c|] eqn:E.
  - pose proof E as E'. apply List.find_some in E' as [Hin Hf]. apply list_elem_of_In in Hin.
    bool_to_prop. rewrite elem_of_healthy in Hin by done. destruct Hin as [[k Hk] Hh].
    split_and!; [by exists k|done|congruence|].
    intros k' c' Hk' Hh' Hne.
    assert (c' ∈ healthy_paths ord (candidates s)) as Hin by (apply elem_of_healthy; eauto).
    revert Hs E Hin. generalize (healthy_paths ord (candidates s)). intros l. clear -Hne.
    induction l as [|x l IH]; intros Hs E Hin; [done|]. simpl in E.
    inversion Hs as [|? ? Hs' HF]; subst. destruct (c_Name x =? p)%string eqn:Ex; simpl in E.
    + apply elem_of_cons in Hin as [->|Hin]; [|auto]. bool_to_prop. congruence.
    + simplify_eq. apply elem_of_cons in Hin as [->|Hin].
      * unfold better. right. split; [done|reflexivity].
      * rewrite Forall_forall in HF. auto.
  - intros n (c & Hin & <-)%(healthy_in s ord); [|done..].
    pose proof (List.find_none _ _ E c) as Hc. rewrite <-list_elem_of_In in Hc. specialize (Hc Hin).
    by bool_to_prop.
Qed.

(** The choice among healthy candidates. *)
Definition chosen_ok (s : Scheduler) (c : candidate) : Prop :=
  candidates s !! c_Name c = Some c /\ c_Healthy c = true /\
  (Forced s <> ""%string -> healthy s (Forced s) -> c_Name c = Forced s) /\
  (Forced s = ""%string \/ ~ healthy s (Forced s) ->
     (forall cur, primary s = Some cur -> cur <> ""%string -> healthy s cur -> c_Name c = cur) /\
     ((forall cur, primary s = Some cur -> cur = ""%string \/ ~ healthy s cur) -> is_best s None c)).

Lemma chosen_spec ord s best l :
  names_ok (candidates s) -> ranges ord -> healthy_paths ord (candidates s) = best :: l ->
  chosen_ok s (match findCandidate (best :: l) (Forced s) with
    | Some c => c
    | None => match findCandidate (best :: l) (default ""%string (primary s)) with
              | Some c => c | None => best end end).
Proof.
  intros Hn Ho E. rewrite <-E.
  assert (forall c, c ∈ healthy_paths ord (candidates s) ->
    candidates s !! c_Name c = Some c /\ c_Healthy c = true) as Hin.
  { intros c. rewrite elem_of_healthy by done. intros [[k Hk] Hh]. by rewrite (Hn k c Hk). }
  destruct (findCandidate _ (Forced s)) as [c|] eqn:Ef.
  { apply findCandidate_some in Ef as (Hne & Hc & Hname); [|done..].
    destruct (Hin c Hc) as [H1 H2]. split_and!; [done|done|done|]. intros [?|Hh]; [done|].
    exfalso. apply Hh. exists c. by rewrite <-Hname. }
  apply findCandidate_none in Ef; [|done..].
  destruct (findCandidate _ (default _ _)) as [c|] eqn:Ec.
  - apply findCandidate_some in Ec as (Hne & Hc & Hname); [|done..].
    destruct (Hin c Hc) as [H1 H2].
    destruct (primary s) as [cur|] eqn:Ep; simpl in *; [|done].
    split_and!; [done|done|naive_solver|]. intros _. split; [naive_solver|].
    intros Hno. destruct (Hno cur Ep) as [?|Hh]; [done|]. exfalso. apply Hh.
    exists c. by rewrite <-Hname.
  - apply findCandidate_none in Ec; [|done..].
    destruct (Hin best) as [H1 H2]; [rewrite E; left|].
    split_and!; [done|done|naive_solver|]. intros _. split.
    + intros cur Hcur Hne Hh. rewrite Hcur in Ec. simpl in Ec. naive_solver.
    + intros _. by eapply healthy_paths_best.
Qed.

Lemma healthy_paths_nil ord s :
  ranges ord -> names_ok (candidates s) ->
  healthy_paths ord (candidates s) = [] <-> forall n, ~ healthy s n.
Proof.
  intros Ho Hn. split.
  - intros E n (c & Hc & _)%(healthy_in s ord); [|done..]. rewrite E in Hc. by apply elem_of_nil in Hc.
  - intros Hno. destruct (healthy_paths ord (candidates s)) as [|c l] eqn:E; [done|].
    exfalso. apply (Hno (c_Name c)). apply (healthy_in s ord); [done..|]. exists c. rewrite E. split; [left|done].
Qed.

(** The degraded route when nothing is healthy. *)
Lemma select_degraded ord s :
  names_ok (candidates s) -> ranges ord -> healthy_paths ord (candidates s) = [] ->
  exists p, (selectLocked ord s).1 = (p, "", false)%string /\
    (p = ""%string \/ exists c, candidates s !! p = Some c /\
       (primary s = Some p \/ (Forced s = p /\ c_LastSuccess c <> time_zero))) /\
    (forall q, primary s = Some q -> is_Some (candidates s !! q) -> p = q).
Proof.
  intros Hn Ho E. unfold selectLocked. fold (healthy_paths ord (candidates s)). rewrite E.
  assert (forall f c, List.find f (values ord (candidates s)) = Some c ->
    f c = true /\ candidates s !! c_Name c = Some c) as Hfind.
  { intros f c [Hin Hf]%List.find_some. apply list_elem_of_In, elem_of_values in Hin as [k Hk]; [|done].
    by rewrite (Hn k c Hk). }
  assert (forall q, primary s = Some q -> is_Some (candidates s !! q) ->
    exists c, List.find (fun p => (c_Name p =? q)%string) (values ord (candidates s)) = Some c) as Hinc.
  { intros q _ [c Hc]. destruct (List.find _ _) as [c'|] eqn:Ec; [by exists c'|].
    pose proof (List.find_none _ _ Ec c) as H. rewrite <-list_elem_of_In, elem_of_values in H by done.
    specialize (H (ex_intro _ q Hc)). simpl in H. rewrite (Hn q c Hc), String.eqb_refl in H. done. }
  destruct (values ord (candidates s)) as [|x l] eqn:Ev.
  { exists ""%string. split_and!; [done|by left|]. intros q Hq Hr. by destruct (Hinc q Hq Hr). }
  rewrite <-Ev in *. clear Ev x l.
  destruct (match primary s with Some cur => _ | None => _ end) as [p|] eqn:Ep.
  { exists (c_Name p). destruct (primary s) as [cur|]; [|done].
    apply Hfind in Ep as [Hc Hin]. bool_to_prop. split_and!; [done| |congruence].
    right. exists p. split; [done|]. left. by rewrite Hc. }
  assert (forall q, primary s = Some q -> is_Some (candidates s !! q) -> False) as Hno.
  { intros q Hq Hr. destruct (Hinc q Hq Hr) as [c Hc]. rewrite Hq in Ep. congruence. }
  destruct (if (Forced s =? "")%string then _ else _) as [p|] eqn:Ef.
  - exists (c_Name p). split_and!; [done| |naive_solver].
    right. destruct (Forced s =? "")%string; [done|].
    apply Hfind in Ef as [Hc Hin]. apply andb_true_iff in Hc as [Hc1 Hc2]. bool_to_prop.
    exists p. split; [done|]. right. auto.
  - exists ""%string. split_and!; [done|by left|naive_solver].
Qed.

(** The choice when some candidate is healthy. *)
Lemma select_healthy ord s n :
  names_ok (candidates s) -> ranges ord -> healthy s n ->
  exists c, chosen_ok s c /\
     (selectLocked ord s).2 = mkSched (candidates s) (forced s)
       (if (c_Name c =? default "" (primary s))%string then primary s else Some (c_Name c)) /\
     ((selectLocked ord s).1 = (c_Name c, "", false)%string /\
        (c_misses c <= 0 \/ forall n, healthy s n -> n = c_Name c) \/
      exists a, is_best s (Some (c_Name c)) a /\ 0 < c_misses c /\
        (selectLocked ord s).1 = (c_Name c, c_Name a, true)).
Proof.
  intros Hn Ho Hh. unfold selectLocked. fold (healthy_paths ord (candidates s)).
  destruct (healthy_paths ord (candidates s)) as [|best l] eqn:E.
  { exfalso. by apply (proj1 (healthy_paths_nil ord s Ho Hn) E n). }
  pose proof (chosen_spec ord s best l Hn Ho E) as Hc.
  set (c := match findCandidate _ (Forced s) with Some c => c | None => _ end) in *.
  exists c. split; [done|]. split; [simpl; destruct (_ =? _)%string; [by destruct s|done]|].
  pose proof (healthy_paths_alt ord s (c_Name c) Hn Ho) as Halt. rewrite E in Halt.
  destruct (List.find _ (best :: l)) as [a|] eqn:Ea; [|left; destruct l; auto].
  destruct l as [|x l]; simpl.
  - left. split; [done|]. right. exfalso.
    assert (c = best) as ->.
    { destruct Hc as (Hc & Hch & _).
      assert (c ∈ healthy_paths ord (candidates s)) as Hin by (apply elem_of_healthy; eauto).
      rewrite E in Hin. by apply list_elem_of_singleton in Hin. }
    simpl in Ea. by rewrite String.eqb_refl in Ea.
  - destruct (0 <? c_misses c) eqn:Em; bool_to_prop; [right; eauto|left; auto].
Qed.

(** [Select] does not depend on the order in which the candidates are
    ranged over.  A healthy forced path is primary; otherwise a healthy
    incumbent stays; otherwise the best healthy candidate by score and name
    replaces it, and is committed as the incumbent.  An alternate is named
    only while the primary has missed probes, and is then the best other
    healthy path.  With none healthy it falls back on the registered
    incumbent, then on a forced path that once answered, and otherwise
    selects nothing. *)
Theorem Select_policy ord s (Hn : names_ok (candidates s)) (Ho : ranges ord) :
  (forall ord', ranges ord' -> Select ord' s = Select ord s) /\
  ((exists n, healthy s n) -> exists c, chosen_ok s c /\
     (Select ord s).2 = mkSched (candidates s) (forced s)
       (if (c_Name c =? default "" (primary s))%string then primary s else Some (c_Name c)) /\
     ((Select ord s).1 = (c_Name c, "", false)%string /\
        (c_misses c <= 0 \/ forall n, healthy s n -> n = c_Name c) \/
      exists a, is_best s (Some (c_Name c)) a /\ 0 < c_misses c /\
        (Select ord s).1 = (c_Name c, c_Name a, true))) /\
  ((forall n, ~ healthy s n) -> exists p, (Select ord s).1 = (p, "", false)%string /\
     (p = ""%string \/ exists c, candidates s !! p = Some c /\
        (primary s = Some p \/ (Forced s = p /\ c_LastSuccess c <> time_zero))) /\
     (forall q, primary s = Some q -> is_Some (candidates s !! q) -> p = q)).
Proof.
  split_and!.
  - intros ord' Ho'. by apply selectLocked_ord.
  - intros [n Hh]. by apply (select_healthy ord s n).
  - intros Hno%(healthy_paths_nil ord s Ho Hn).
    destruct (select_degraded ord s Hn Ho Hno) as (p & H1 & H2 & H3). by exists p.
Qed.


(** ** The probe window

    What a candidate's health says about the probes it has answered. *)
Record outcome := mkOutcome { o_rtt : Z; o_ok : bool; o_now : Z }.

Definition probe_run (os : list outcome) (c : candidate) : candidate :=
  foldl (fun c o => probe_result (o_rtt o) (o_ok o) (o_now o) c) c os.

(** The last [k] elements. *)
Definition lastn {A} (k : nat) (l : list A) : list A := drop (length l - k) l.

(** Consecutive failures at the end. *)
Fixpoint misses_of (rev_oks : list bool) : nat :=
  match rev_oks with false :: l => S (misses_of l) | _ => 0%nat end.

Lemma lastn_snoc {A} k (l : list A) x :
  (0 < k <= length l)%nat -> lastn k (l ++ [x]) = tail (lastn k l) ++ [x].
Proof.
  intros Hk. unfold lastn. rewrite length_app. simpl.
  replace (length l + 1 - k)%nat with (S (length l - k)) by lia.
  rewrite drop_app_le by lia.
  f_equal. generalize (length l - k)%nat. clear. intros n. revert l.
  by induction n as [|n IH]; intros [|y l]; simpl; rewrite <-?IH.
Qed.

(** Overwriting the oldest slot of a ring and moving on pushes a value at
    the end of its contents. *)
Lemma ring_push {A} (l : list A) i x :
  (i < length l)%nat ->
  let i' := ((i + 1) mod length l)%nat in
  drop i' (<[i:=x]> l) ++ take i' (<[i:=x]> l) = tail (drop i l ++ take i l) ++ [x].
Proof.
  intros Hi i'.
  destruct (lookup_lt_is_Some_2 l i Hi) as [y Hy].
  rewrite (drop_S l y i Hy). simpl.
  destruct (decide (i + 1 = length l)%nat) as [E|E].
  - assert (i' = 0%nat) as -> by (unfold i'; rewrite E; by rewrite Nat.Div0.mod_same).
    rewrite drop_0, take_0, app_nil_r, (drop_ge l (S i)) by lia. simpl.
    rewrite insert_take_drop, (drop_ge l (S i)) by lia. done.
  - assert (i' = S i) as -> by (unfold i'; rewrite Nat.mod_small; lia).
    rewrite drop_insert_lt by lia. rewrite <-app_assoc. f_equal.
    rewrite (take_S_r (<[i:=x]> l) i x) by (by apply list_lookup_insert_eq).
    by rewrite take_insert_ge by lia.
Qed.

Lemma good_app l l' : good (l ++ l') = (good l + good l')%nat.
Proof. unfold good. by rewrite filter_app, length_app. Qed.

Lemma good_replicate n : good (replicate n false) = 0%nat.
Proof. induction n; [done|]. unfold good in *. simpl. by rewrite filter_cons_False. Qed.

Lemma good_le l : (good l <= length l)%nat.
Proof. apply length_filter. Qed.

Definition ring_ok (oks : list bool) (c : candidate) : Prop :=
  length (c_probes c) = 20%nat /\ (c_probeNext c < 20)%nat /\
  c_used c = Nat.min 20 (length oks) /\
  (c_used c < 20 -> c_probeNext c = c_used c)%nat /\
  drop (c_probeNext c) (c_probes c) ++ take (c_probeNext c) (c_probes c)
    = lastn 20 (replicate 20 false ++ oks).

Lemma ring_ok_new name kind : ring_ok [] (new_candidate name kind).
Proof. repeat split; simpl; lia. Qed.

Lemma probe_result_ring rtt ok now c :
  c_probes (probe_result rtt ok now c) = <[c_probeNext c := ok]> (c_probes c) /\
  c_probeNext (probe_result rtt ok now c) = ((c_probeNext c + 1) mod length (c_probes c))%nat /\
  c_used (probe_result rtt ok now c) =
    (if (c_used c <? length (c_probes c))%nat then c_used c + 1 else c_used c)%nat.
Proof.
  unfold probe_result. destruct ok; simpl; [|done].
  destruct (0 <? rtt); [|done]. simpl. by destruct (c_RTT c =? 0).
Qed.

Lemma ring_ok_step oks rtt ok now c :
  ring_ok oks c -> ring_ok (oks ++ [ok]) (probe_result rtt ok now c).
Proof.
  intros (Hl & Hi & Hu & Hui & Hr).
  destruct (probe_result_ring rtt ok now c) as (E1 & E2 & E3). unfold ring_ok.
  rewrite E1, E2, E3, length_insert, length_app, Hl. change (length [ok]) with 1%nat.
  pose proof (Nat.mod_upper_bound (c_probeNext c + 1) 20).
  split_and!; [done|lia| | |].
  - destruct (c_used c <? 20)%nat eqn:E; [apply Nat.ltb_lt in E|apply Nat.ltb_ge in E]; lia.
  - destruct (c_used c <? 20)%nat eqn:E; [apply Nat.ltb_lt in E|apply Nat.ltb_ge in E]; [|lia].
    intros. rewrite Hui by done. rewrite Nat.mod_small; lia.
  - pose proof (ring_push (c_probes c) (c_probeNext c) ok) as Hp. rewrite Hl in Hp.
    cbv zeta in Hp. rewrite Hp by done. rewrite Hr, app_assoc, lastn_snoc; [done|].
    rewrite length_app, length_replicate. lia.
Qed.

(** The slots [loss] counts hold exactly the last twenty results. *)
Lemma ring_ok_good oks c :
  ring_ok oks c ->
  length (lastn 20 oks) = c_used c /\ good (take (c_used c) (c_probes c)) = good (lastn 20 oks).
Proof.
  intros (Hl & Hi & Hu & Hui & Hr). unfold lastn at 1. rewrite length_drop. split; [lia|].
  assert (good (c_probes c) = good (lastn 20 oks)) as Hg.
  { rewrite <-(take_drop (c_probeNext c) (c_probes c)), good_app, Nat.add_comm, <-good_app, Hr.
    unfold lastn. rewrite length_app, length_replicate, drop_app, good_app, length_replicate.
    rewrite drop_replicate, good_replicate. simpl. do 2 f_equal. lia. }
  rewrite <-Hg. destruct (decide (c_used c = 20%nat)) as [E|E].
  { by rewrite E, take_ge by lia. }
  specialize (Hui ltac:(lia)). rewrite Hui in Hr.
  assert (drop (c_used c) (c_probes c) = replicate (20 - length oks) false) as Hd.
  { apply (app_inj_1 _ _ (take (c_used c) (c_probes c)) oks).
    - rewrite length_drop, length_replicate. lia.
    - rewrite Hr. unfold lastn. rewrite length_app, length_replicate, drop_app_le, drop_replicate
        by (rewrite length_replicate; lia). do 2 f_equal. lia. }
  rewrite <-(take_drop (c_used c) (c_probes c)) at 2. rewrite good_app, Hd, good_replicate. lia.
Qed.

(** What the outcomes so far, latest first, say of the candidate. *)
Definition last_success (rev_os : list outcome) : Z :=
  default time_zero (o_now <$> List.find o_ok rev_os).

Definition health_ok (rev_os : list outcome) (c : candidate) : Prop :=
  c_misses c = Z.of_nat (misses_of (o_ok <$> rev_os)) /\
  c_Healthy c = existsb o_ok rev_os && (c_misses c <? 3) /\
  c_LastSuccess c = last_success rev_os.

Lemma misses_of_le l : (misses_of l <= length l)%nat.
Proof. induction l as [|[] l IH]; simpl; lia. Qed.

Lemma health_ok_step rev_os rtt ok now c :
  Zlen rev_os < int64_max -> health_ok rev_os c ->
  health_ok (mkOutcome rtt ok now :: rev_os) (probe_result rtt ok now c).
Proof.
  intros Hlen (Hm & Hh & Hs). unfold health_ok, last_success, probe_result in *.
  destruct ok; simpl.
  - destruct (0 <? rtt); simpl; [|done]. by destruct (c_RTT c =? 0).
  - pose proof (misses_of_le (o_ok <$> rev_os)) as Hle. rewrite length_fmap in Hle.
    unfold Zlen, int64_max in Hlen.
    rewrite i64_id by (unfold in_int64, int64_min, int64_max; lia).
    change (list_fmap _ _ o_ok rev_os) with (o_ok <$> rev_os).
    split_and!; [lia| |done]. rewrite Hh. destruct (existsb o_ok rev_os); simpl.
    + destruct (3 <=? c_misses c + 1) eqn:E; bool_to_prop; symmetry; [apply Z.ltb_ge; lia|].
      rewrite (proj2 (Z.ltb_lt _ _)) by lia. symmetry. apply Z.ltb_lt. lia.
    + by destruct (3 <=? _).
Qed.

Definition loss_of (window : list bool) : spec_float :=
  f64_div (f64_of_int (Zlen window - Z.of_nat (good window))) (f64_of_int (Zlen window)).

(** Every ratio the twenty slots can give, checked. *)
Lemma loss_ratio_bounds bad used :
  (bad <= used)%nat -> (0 < used <= 20)%nat ->
  let l := f64_div (f64_of_int (Z.of_nat bad)) (f64_of_int (Z.of_nat used)) in
  SFleb (f64_of_int 0) l = true /\ SFleb l (f64_of_int 1) = true /\
  (SFeqb l (f64_of_int 0) = true <-> bad = 0%nat).
Proof.
  intros Hb Hu.
  assert (forallb (fun u => forallb (fun b => (u <? b)%nat || (u =? 0)%nat ||
      let l := f64_div (f64_of_int (Z.of_nat b)) (f64_of_int (Z.of_nat u)) in
      SFleb (f64_of_int 0) l && SFleb l (f64_of_int 1) &&
      Bool.eqb (SFeqb l (f64_of_int 0)) (b =? 0)%nat) (seq 0 21)) (seq 0 21) = true) as H
    by (vm_compute; reflexivity).
  rewrite forallb_forall in H. specialize (H used (proj2 (in_seq 21 0 used) ltac:(lia))).
  rewrite forallb_forall in H. specialize (H bad (proj2 (in_seq 21 0 bad) ltac:(lia))).
  rewrite (proj2 (Nat.ltb_ge _ _)), (proj2 (Nat.eqb_neq _ _)) in H by lia.
  cbv zeta in *. simpl orb in H. apply andb_true_iff in H as [[H1 H2]%andb_true_iff H3].
  apply eqb_prop in H3. cbv zeta. split; [exact H1|]. split; [exact H2|].
  change (f64_of_int 0) with (S754_zero false). rewrite H3. apply Nat.eqb_eq.
Qed.

Lemma loss_of_bounds window :
  (0 < length window <= 20)%nat ->
  SFleb (f64_of_int 0) (loss_of window) = true /\ SFleb (loss_of window) (f64_of_int 1) = true /\
  (SFeqb (loss_of window) (f64_of_int 0) = true <-> Forall (fun b => b = true) window).
Proof.
  intros Hw. pose proof (good_le window). unfold loss_of, Zlen.
  rewrite <-Nat2Z.inj_sub by done.
  destruct (loss_ratio_bounds (length window - good window) (length window)) as (H1 & H2 & H3);
    [lia|lia|]. split_and!; [done|done|]. rewrite H3. clear. unfold good.
  induction window as [|[] w IH].
  - split; [constructor|done].
  - rewrite filter_cons_True by done. simpl. rewrite IH, Forall_cons. naive_solver.
  - rewrite filter_cons_False by done. simpl.
    pose proof (length_filter (fun b => b = true) w). split; [lia|].
    intros HF. inversion HF; done.
Qed.

(** The round-trip average stays among the times it has seen. *)
Definition rtt_ok (lo hi : Z) (c : candidate) : Prop := c_RTT c = 0 \/ lo <= c_RTT c <= hi.

Lemma rtt_ok_step lo hi rtt ok now c :
  0 < lo -> hi <= 2 ^ 60 - 1 -> (ok = true -> rtt <= 0 \/ lo <= rtt <= hi) ->
  rtt_ok lo hi c -> rtt_ok lo hi (probe_result rtt ok now c).
Proof.
  intros Hlo Hhi Hr Hc. unfold rtt_ok, probe_result. destruct ok; simpl; [|done].
  specialize (Hr eq_refl). destruct (0 <? rtt) eqn:E; simpl; [|done]. bool_to_prop.
  destruct (c_RTT c =? 0) eqn:E0; simpl; bool_to_prop; [right; lia|].
  right. destruct Hc as [Hc|Hc]; [done|]. destruct Hr as [Hr|Hr]; [lia|].
  rewrite !i64_id by (unfold in_int64, int64_min, int64_max; try rewrite i64_id;
    unfold in_int64, int64_min, int64_max; lia).
  unfold go_div. rewrite Z.quot_div_nonneg by lia. split.
  - apply Z.div_le_lower_bound; lia.
  - apply Z.div_le_upper_bound; lia.
Qed.

Lemma probe_run_snoc os o c :
  probe_run (os ++ [o]) c = probe_result (o_rtt o) (o_ok o) (o_now o) (probe_run os c).
Proof. unfold probe_run. by rewrite foldl_app. Qed.

Lemma probe_run_ring name kind os :
  ring_ok (o_ok <$> os) (probe_run os (new_candidate name kind)).
Proof.
  induction os as [|o os IH] using rev_ind; [apply ring_ok_new|].
  rewrite probe_run_snoc, fmap_app. by apply ring_ok_step.
Qed.

Lemma probe_run_health name kind os :
  Zlen os <= int64_max -> health_ok (reverse os) (probe_run os (new_candidate name kind)).
Proof.
  induction os as [|o os IH] using rev_ind; intros Hlen; [done|].
  rewrite Zlen_app in Hlen. unfold Zlen at 2 in Hlen. simpl in Hlen.
  rewrite probe_run_snoc, reverse_app. simpl. destruct o. apply health_ok_step; [|apply IH; lia].
  unfold Zlen in *. rewrite length_reverse. lia.
Qed.

Lemma probe_run_rtt name kind lo hi os :
  0 < lo -> hi <= 2 ^ 60 - 1 ->
  Forall (fun o => o_ok o = true -> o_rtt o <= 0 \/ lo <= o_rtt o <= hi) os ->
  rtt_ok lo hi (probe_run os (new_candidate name kind)).
Proof.
  intros Hlo Hhi. induction os as [|o os IH] using rev_ind; intros HF; [by left|].
  apply Forall_app in HF as [HF Ho%(proj1 (Forall_singleton _ _))].
  rewrite probe_run_snoc. apply rtt_ok_step; [exact Hlo|exact Hhi|exact Ho|exact (IH HF)].
Qed.

Lemma probe_result_loss rtt ok now c :
  c_Loss (probe_result rtt ok now c) = loss (probe_result rtt ok now c).
Proof.
  unfold probe_result. destruct ok; simpl; [|done].
  destruct (0 <? rtt); [|done]. simpl. by destruct (c_RTT c =? 0).
Qed.

Lemma probe_run_loss name kind os :
  os <> [] ->
  c_Loss (probe_run os (new_candidate name kind)) = loss_of (lastn 20 (o_ok <$> os)).
Proof.
  intros Hne. destruct (ring_ok_good _ _ (probe_run_ring name kind os)) as [Hl Hg].
  destruct os as [|o os _] using rev_ind; [done|].
  rewrite probe_run_snoc in *. rewrite probe_result_loss. unfold loss, loss_of.
  rewrite Hg. unfold Zlen. rewrite Hl.
  destruct (c_used _ =? 0)%nat eqn:E; [|done]. apply Nat.eqb_eq in E. exfalso.
  unfold lastn in Hl. rewrite length_drop, fmap_app, length_app in Hl. simpl in Hl. lia.
Qed.

(** After any sequence of probe results the candidate's statistics are
    those of the results alone.  The misses are the failures since the last
    success; the candidate is healthy exactly when some probe has succeeded
    and fewer than three have failed since, and [LastSuccess] is the time of
    the last success.  The ring holds the last twenty results and the loss
    is their failed fraction, rounded once, in [0, 1], and zero exactly when
    none failed.  The smoothed round trip stays within the times reported. *)
Theorem probe_window name kind os (Hlen : Zlen os <= int64_max) :
  let c := probe_run os (new_candidate name kind) in
  let window := lastn 20 (o_ok <$> os) in
  c_misses c = Z.of_nat (misses_of (o_ok <$> reverse os)) /\
  c_Healthy c = existsb o_ok os && (c_misses c <? 3) /\
  c_LastSuccess c = last_success (reverse os) /\
  c_used c = length window /\ good (take (c_used c) (c_probes c)) = good window /\
  (os <> [] -> c_Loss c = loss_of window /\
     SFleb (f64_of_int 0) (c_Loss c) = true /\ SFleb (c_Loss c) (f64_of_int 1) = true /\
     (SFeqb (c_Loss c) (f64_of_int 0) = true <-> Forall (fun b => b = true) window)) /\
  (forall lo hi, 0 < lo -> hi <= 2 ^ 60 - 1 ->
     Forall (fun o => o_ok o = true -> o_rtt o <= 0 \/ lo <= o_rtt o <= hi) os ->
     c_RTT c = 0 \/ lo <= c_RTT c <= hi).
Proof.
  cbv zeta. destruct (probe_run_health name kind os Hlen) as (Hm & Hh & Hs).
  destruct (ring_ok_good _ _ (probe_run_ring name kind os)) as [Hl Hg].
  assert (existsb o_ok (reverse os) = existsb o_ok os) as He.
  { apply eq_true_iff_eq. rewrite !existsb_exists. setoid_rewrite <-list_elem_of_In.
    by setoid_rewrite elem_of_reverse. }
  split_and!; [done|by rewrite Hh, He|done|done|done| |].
  - intros Hne. rewrite (probe_run_loss name kind os Hne). split; [done|].
    apply loss_of_bounds. unfold lastn. rewrite length_drop, length_fmap.
    destruct os; [done|]. simpl. lia.
  - intros lo hi Hlo Hhi HF. by apply probe_run_rtt.
Qed.

Definition example_outcomes : list outcome :=
  [mkOutcome 40 true 10; mkOutcome 0 false 20; mkOutcome 48 true 30; mkOutcome 0 false 40].

Lemma probe_window_witness :
  c_Healthy (probe_run example_outcomes (new_candidate "wss" "wss")) = true /\
  c_misses (probe_run example_outcomes (new_candidate "wss" "wss")) = 1 /\
  c_RTT (probe_run example_outcomes (new_candidate "wss" "wss")) = 41.
Proof.
  pose proof (probe_window "wss" "wss" example_outcomes ltac:(vm_compute; done)) as (Hm & Hh & _).
  rewrite Hh, Hm. split_and!; vm_compute; reflexivity.
Defined.

(** ** Every history of calls *)
Inductive call :=
  | CRegister (name kind : string)
  | CActivate (name : string) (now : Z)
  | CProbe (name : string) (o : outcome)
  | CFailure (name : string)
  | CReserve (name : string)
  | CFinish (name : string)
  | CDuplication (name : string) (n : Z) (allowed : bool)
  | CDatagramMTU (name : string) (mtu : Z)
  | CForce (name : string)
  | CSelect (ord : gmap string candidate -> list string)
  | CStatus (ord : gmap string candidate -> list string).

Definition exec (a : call) (s : Scheduler) : Scheduler :=
  match a with
  | CRegister name kind => Register name kind s
  | CActivate name now => ActivateCarrier name now s
  | CProbe name o => ProbeResult name (o_rtt o) (o_ok o) (o_now o) s
  | CFailure name => CarrierFailure name s
  | CReserve name => (ReserveControlSend name s).2
  | CFinish name => FinishControlSend name s
  | CDuplication name n allowed => RecordDuplication name n allowed s
  | CDatagramMTU name mtu => ReportDatagramMTU name mtu s
  | CForce name => SetForced name s
  | CSelect ord => (Select ord s).2
  | CStatus ord => (Status ord s).2
  end.

(** Clocks do not show the zero time, and ranges are ranges. *)
Definition call_ok (a : call) : Prop :=
  match a with
  | CActivate _ now => now <> time_zero
  | CProbe _ o => o_now o <> time_zero
  | CSelect ord | CStatus ord => ranges ord
  | _ => True
  end.

Definition exec_all (l : list call) : Scheduler := foldl (fun s a => exec a s) NewScheduler l.

(** A candidate under its name: healthy only with a proof of life and fewer
    than three misses; its MTU only ever grows, up to the relay's limit. *)
Definition cand_ok (k : string) (c : candidate) : Prop :=
  c_Name c = k /\
  (c_Healthy c = true -> c_LastSuccess c <> time_zero /\ 0 <= c_misses c <= 2) /\
  1420 <= c_DatagramMTU c <= MaxRelayDatagram.

Definition sched_ok (s : Scheduler) : Prop :=
  map_Forall cand_ok (candidates s) /\
  (forall p, primary s = Some p ->
     exists c, candidates s !! p = Some c /\ c_LastSuccess c <> time_zero).

Lemma sched_ok_names s : sched_ok s -> names_ok (candidates s).
Proof. intros [Hc _] k c Hk. by destruct (Hc k c Hk). Qed.

(** A change of one candidate that keeps its proof of life. *)
Lemma sched_ok_update name f s :
  (forall c, candidates s !! name = Some c -> cand_ok name c ->
     cand_ok name (f c) /\ (c_LastSuccess c <> time_zero -> c_LastSuccess (f c) <> time_zero)) ->
  sched_ok s -> sched_ok (update_candidate name f s).
Proof.
  intros Hf [Hc Hp]. split; simpl.
  - intros k c. rewrite lookup_alter. case_decide; [subst|apply Hc].
    intros (c0 & Hk & ->)%fmap_Some. apply Hf; [done|]. by apply Hc.
  - intros p Hpp. destruct (Hp p Hpp) as (c & Hk & Hl). rewrite lookup_alter.
    case_decide; [subst|by exists c]. exists (f c). rewrite Hk. split; [done|].
    by apply (proj2 (Hf c Hk (Hc _ _ Hk))).
Qed.

Lemma probe_result_cand_ok name rtt ok now c :
  now <> time_zero -> cand_ok name c ->
  cand_ok name (probe_result rtt ok now c) /\
  (c_LastSuccess c <> time_zero -> c_LastSuccess (probe_result rtt ok now c) <> time_zero).
Proof.
  intros Hnow (Hn & Hh & Hm). unfold cand_ok, probe_result. destruct ok; simpl.
  - destruct (0 <? rtt); simpl; [|split_and!; auto; lia].
    destruct (c_RTT c =? 0); simpl; split_and!; auto; lia.
  - split_and!; try done; try lia. destruct (3 <=? _) eqn:E; [done|]. intros H.
    destruct (Hh H). bool_to_prop. split; [done|].
    rewrite i64_id in * by (unfold in_int64, int64_min, int64_max; lia). lia.
Qed.

Lemma selectLocked_state ord s :
  sched_ok s -> ranges ord -> sched_ok (selectLocked ord s).2.
Proof.
  intros Hs Ho. pose proof (sched_ok_names s Hs) as Hn. destruct Hs as [Hc Hp].
  destruct (decide (exists n, healthy s n)) as [[n Hh]|Hno].
  - unfold selectLocked. fold (healthy_paths ord (candidates s)).
    destruct (healthy_paths ord (candidates s)) as [|best l] eqn:E.
    { exfalso. by apply (proj1 (healthy_paths_nil ord s Ho Hn) E n). }
    destruct (chosen_spec ord s best l Hn Ho E) as (Hk & Hch & _).
    destruct (negb _); simpl; [|done]. split; [done|]. intros p [= <-].
    eexists. split; [exact Hk|]. by apply (Hc _ _ Hk).
  - assert (healthy_paths ord (candidates s) = []) as E.
    { apply healthy_paths_nil; [done..|]. intros n Hh. apply Hno. by exists n. }
    unfold selectLocked. fold (healthy_paths ord (candidates s)). rewrite E.
    destruct (values ord (candidates s)); [by split|].
    destruct (match primary s with Some _ => _ | None => _ end); [by split|].
    destruct (if (Forced s =? "")%string then _ else _); by split.
Qed.

Lemma exec_ok a s : call_ok a -> sched_ok s -> sched_ok (exec a s).
Proof.
  intros Ha Hs. destruct a; simpl in *.
  - unfold Register. destruct (candidates s !! name) as [c|] eqn:E.
    { apply sched_ok_update; [|done]. intros ? ? ?. by split. }
    destruct Hs as [Hc Hp]. split; simpl.
    + apply map_Forall_insert_2; [|done]. by repeat split; try lia.
    + intros p Hpp. destruct (Hp p Hpp) as (c & Hk & Hl). exists c. split; [|done].
      rewrite lookup_insert_ne; [done|]. intros ->. congruence.
  - unfold ActivateCarrier. destruct (candidates s !! name) as [c|] eqn:E; [|done].
    destruct (sched_ok_update name (set_health true now 0) s) as [Hc Hp]; [|done|].
    { intros c' _ (Hn & Hh & Hm). repeat split; simpl; auto; lia. }
    split; [done|]. simpl. intros p Hpp. destruct (primary s) as [q|] eqn:Eq.
    + apply Hp. simpl. by rewrite Eq.
    + simplify_eq. exists (set_health true now 0 c). split; [|done]. by rewrite lookup_alter_eq, E.
  - apply sched_ok_update; [|done]. intros c _ Hc. by apply probe_result_cand_ok.
  - apply sched_ok_update; [|done]. intros c _ (Hn & Hh & Hm). by split_and!.
  - unfold ReserveControlSend. repeat case_match; try done.
    apply sched_ok_update; [|done]. intros ? ? ?. by split.
  - apply sched_ok_update; [|done]. intros ? ? ?. by split.
  - apply sched_ok_update; [|done]. intros ? ? ?. by destruct allowed.
  - unfold ReportDatagramMTU. destruct (_ || _) eqn:E; [done|]. bool_to_prop.
    apply sched_ok_update; [|done]. intros c _ (Hn & Hh & Hm).
    destruct (c_DatagramMTU c <? mtu) eqn:Em; [|by split_and!]. bool_to_prop.
    split; [|done]. split_and!; simpl; auto; lia.
  - done.
  - by apply selectLocked_state.
  - unfold Status. pose proof (selectLocked_state ord s Hs Ha) as H.
    by destruct (selectLocked ord s) as [[[? ?] ?] ?].
Qed.

Lemma exec_all_ok l : Forall call_ok l -> sched_ok (exec_all l).
Proof.
  intros Hl. unfold exec_all. assert (sched_ok NewScheduler) as Hs by done.
  revert Hs. generalize NewScheduler. induction Hl; intros s Hs; [done|]. simpl. auto using exec_ok.
Qed.

(** Asking again changes nothing. *)
Lemma selectLocked_idem ord s :
  names_ok (candidates s) -> ranges ord ->
  selectLocked ord (selectLocked ord s).2 = ((selectLocked ord s).1, (selectLocked ord s).2).
Proof.
  intros Hn Ho. destruct (healthy_paths ord (candidates s)) as [|best l] eqn:E.
  - destruct (values ord (candidates s)) as [|x xs] eqn:Ev.
    { unfold selectLocked. fold (healthy_paths ord (candidates s)). rewrite E, Ev. simpl.
      fold (healthy_paths ord (candidates s)). by rewrite E, Ev. }
    assert ((selectLocked ord s).2 = s) as Hst; [|by rewrite !Hst; destruct (selectLocked ord s) as [? ?]; simpl in *; subst].
    unfold selectLocked. fold (healthy_paths ord (candidates s)). rewrite E, Ev.
    destruct (match primary s with Some _ => _ | None => _ end); [done|].
    by destruct (if (Forced s =? "")%string then _ else _).
  - unfold selectLocked at 2 3 4. fold (healthy_paths ord (candidates s)). rewrite E.
    destruct (findCandidate (best :: l) (Forced s)) as [c|] eqn:Ef.
    + destruct (negb _) eqn:En; simpl; unfold selectLocked; simpl;
        fold (healthy_paths ord (candidates s)); rewrite E.
      * unfold Forced in *. simpl. rewrite Ef. simpl. by rewrite String.eqb_refl.
      * unfold Forced in *. rewrite Ef. rewrite En. done.
    + set (c := match findCandidate (best :: l) (default "" (primary s))%string with
                | Some c => c | None => best end) in *.
      destruct (negb _) eqn:En; simpl; unfold selectLocked; simpl;
        fold (healthy_paths ord (candidates s)); rewrite E.
      * unfold Forced in *. simpl. rewrite Ef.
        assert (c = best) as Hcb.
        { subst c. destruct (findCandidate _ (default _ (primary s))) as [c'|] eqn:Ec; [|done].
          rewrite <-E in Ec. apply findCandidate_some in Ec as (? & ? & Hc'); [|done..].
          bool_to_prop. congruence. }
        assert (match findCandidate (best :: l) (c_Name c) with
          | Some c => c | None => best end = c) as ->.
        { rewrite Hcb. unfold findCandidate. destruct (c_Name best =? "")%string; [done|].
          simpl. by rewrite String.eqb_refl. }
        by rewrite String.eqb_refl.
      * unfold Forced in *. rewrite Ef. fold c. by rewrite En.
Qed.

(** Whatever is called and in whatever order, [Select] sends only where
    something has once been heard: a path it names is registered and has
    succeeded.  It asks for duplication only when the primary is healthy
    with one or two misses and another healthy path exists.  Once a path has
    become primary, some path is always selected: a tunnel never loses its
    escape route.  And asking again gives the same answer. *)
Theorem Select_proven l ord (Hl : Forall call_ok l) (Ho : ranges ord) :
  let s := exec_all l in
  let '(p, alt, dup) := (Select ord s).1 in
  (p <> ""%string -> exists c, candidates s !! p = Some c /\ c_LastSuccess c <> time_zero) /\
  (dup = true -> p <> alt /\ healthy s alt /\
     exists c, candidates s !! p = Some c /\ c_Healthy c = true /\ 1 <= c_misses c <= 2) /\
  (dup = false -> alt = ""%string) /\
  (primary s <> None -> ~ is_Some (candidates s !! ""%string) -> p <> ""%string) /\
  Select ord (Select ord s).2 = ((p, alt, dup), (Select ord s).2).
Proof.
  intros s. pose proof (exec_all_ok l Hl) as Hs. fold s in Hs.
  pose proof (sched_ok_names s Hs) as Hn. destruct Hs as [Hc Hp].
  pose proof (selectLocked_idem ord s Hn Ho) as Hidem. change (selectLocked ord) with (Select ord) in Hidem.
  destruct (decide (exists n, healthy s n)) as [[n Hh]|Hno].
  - destruct (select_healthy ord s n Hn Ho Hh) as (c & Hch & _ & [[E _]|(a & Ha & Hm & E)]);
      change (selectLocked ord s) with (Select ord s) in E; rewrite E in *.
    + destruct Hch as (Hk & Hch & _). split_and!; try done.
      * intros _. exists c. split; [done|]. by apply (Hc _ _ Hk).
      * intros _ Hne E'. rewrite E' in Hk. by destruct Hne.
    + destruct Hch as (Hk & Hch & _). destruct Ha as ((k & Hka) & Hah & Hane & _).
      split_and!; try done.
      * intros _. exists c. split; [done|]. by apply (Hc _ _ Hk).
      * intros _. split_and!; [congruence| |].
        -- exists a. by rewrite (Hn k a Hka).
        -- exists c. destruct (Hc _ _ Hk) as (_ & Hh' & _). destruct (Hh' Hch). split_and!; [done..|lia|lia].
      * intros _ Hne E'. rewrite E' in Hk. by destruct Hne.
  - assert (healthy_paths ord (candidates s) = []) as E.
    { apply healthy_paths_nil; [done..|]. intros n Hh. apply Hno. by exists n. }
    destruct (select_degraded ord s Hn Ho E) as (p & Hsel & Hpp & Hq).
    change (selectLocked ord s) with (Select ord s) in Hsel. rewrite Hsel in *.
    split_and!; try done.
    + intros Hne. destruct Hpp as [?|(c & Hk & [Hpr|[_ Hls]])]; [done| |by exists c].
      by apply Hp.
    + intros Hpr Hne E'. destruct (primary s) as [q|] eqn:Eq; [|done].
      destruct (Hp q eq_refl) as (c & Hk & _).
      rewrite (Hq q eq_refl (ex_intro _ c Hk)) in E'. subst q. apply Hne. by exists c.
Qed.

Definition example_calls : list call :=
  [CRegister PathWSS PathWSS; CActivate PathWSS 5; CRegister PathDirect PathDirect;
   CProbe PathDirect (mkOutcome 40 true 6); CProbe PathWSS (mkOutcome 0 false 7)].

Lemma Select_proven_witness :
  (Select map_keys (exec_all example_calls)).1 = (PathWSS, PathDirect, true) /\
  healthy (exec_all example_calls) PathDirect.
Proof.
  assert (Forall call_ok example_calls) as Hl by (repeat constructor; simpl; discriminate).
  pose proof (Select_proven example_calls map_keys Hl ranges_map_keys) as H. cbv zeta in H.
  assert ((Select map_keys (exec_all example_calls)).1 = (PathWSS, PathDirect, true)) as E
    by (vm_compute; reflexivity).
  rewrite E in H. split; [exact E|]. by apply H.
Defined.

Lemma Select_policy_witness :
  let s := exec_all example_calls in
  (forall ord, ranges ord -> Select ord s = Select map_keys s) /\
  exists c, chosen_ok s c /\ c_Name c = PathWSS.
Proof.
  intros s.
  assert (names_ok (candidates s)) as Hn.
  { apply sched_ok_names, exec_all_ok. repeat constructor; simpl; discriminate. }
  destruct (Select_policy map_keys s Hn ranges_map_keys) as (H1 & H2 & _). split; [exact H1|].
  assert (exists n, healthy s n) as Hh.
  { exists PathWSS. unfold healthy. eexists. split; vm_compute; reflexivity. }
  destruct (H2 Hh) as (c & Hc & _ & [[E _]|(a & _ & _ & E)]); exists c; (split; [exact Hc|]);
    assert ((Select map_keys s).1 = (PathWSS, PathDirect, true)) as E' by (vm_compute; reflexivity);
    rewrite E' in E; congruence.
Defined.
