(* ===== verification/Multipath.v ===== *)
(** [pkg/wstransport/multipath.go] and [multipath_options.go]: the client's
    multipath bind.  It keeps one logical WireGuard endpoint, sends over the
    path the scheduler selects, strips and answers path control frames,
    drops duplicate packets and probes its paths.

    A handler is one step: its short critical sections are taken together.
    The reply goroutines are separate steps.  The carrier's sends are the
    transmissions an operation returns; whether a send succeeds, the random
    nonces, the clock and the range orders are arguments. *)
From S2P Require Import Prelude Bytes Frames Scheduler.
From Stdlib Require Import SpecFloat.

(** ** The byte budget of duplication *)
Definition defaultDuplicateRateBytesPerSec : Z := 262144.

Definition resolveMultipathOptions (rate : Z) : Z :=
  if rate <=? 0 then defaultDuplicateRateBytesPerSec else rate.

Record byteRateLimiter := mkBytes {
  tokens : spec_float;
  maxTokens : spec_float;
  refillRate : spec_float;
  last : Z;
}.

Definition newByteRateLimiter (bytesPerSecond now : Z) : byteRateLimiter :=
  let rate := f64_of_int (resolveMultipathOptions bytesPerSecond) in mkBytes rate rate rate now.

Definition f64_add : spec_float -> spec_float -> spec_float := SFadd 53 1024.
Definition f64_sub : spec_float -> spec_float -> spec_float := SFsub 53 1024.

(** [Duration.Seconds]. *)
Definition seconds (d : Z) : spec_float :=
  f64_add (f64_of_int (go_div d second)) (f64_div (f64_of_int (go_rem d second)) (f64_of_int second)).

Definition limiter_Allow (n now : Z) (l : byteRateLimiter) : bool * byteRateLimiter :=
  let t := f64_add (tokens l) (f64_mul (seconds (time_sub now (last l))) (refillRate l)) in
  let t := if SFltb (maxTokens l) t then maxTokens l else t in
  if SFltb t (f64_of_int n) then (false, mkBytes t (maxTokens l) (refillRate l) now)
  else (true, mkBytes (f64_sub t (f64_of_int n)) (maxTokens l) (refillRate l) now).

Definition probeInterval : Z := second.
Definition probeTimeout : Z := 2 * second.

Section multipath.
Context {Carrier : Type}.
(** The identity string of a carrier's endpoint. *)
Variable carrier_dst : Carrier -> string.

(** [conn.Endpoint]: a carrier's own, or one of the stable logical ones. *)
Inductive Endpoint :=
  | CarrierEndpoint (c : Carrier)
  | multipathEndpoint (id : string)
  | serverMultipathEndpoint (id : string).

Definition DstToString (ep : Endpoint) : string :=
  match ep with
  | CarrierEndpoint c => carrier_dst c
  | multipathEndpoint id => id
  | serverMultipathEndpoint id => id
  end.

(** One call of the carrier's [Send]: a batch and where it goes. *)
Definition transmission : Type := list (list byte) * Endpoint.

Record outstandingProbe := mkProbe { op_nonce : list byte; op_sentAt : Z }.
Record outstandingMTUProbe := mkMTUProbe { om_nonce : list byte; om_target : Z }.

(** A reply goroutine that has not sent yet. *)
Record reply := mkReply { r_name : string; r_frame : list byte; r_ep : Endpoint }.

(** What a multipath bind keeps for one logical peer. *)
Record peer_state := mkPeer {
  scheduler : Scheduler;
  paths : gmap string Endpoint;
  probes : gmap string outstandingProbe;
  mtuProbes : gmap string outstandingMTUProbe;
  mtuDone : gset string;
  pathMTU : bool;
  dupLimiter : byteRateLimiter;
  replies : list reply;
}.

Definition new_peer (mtu : bool) (rate now : Z) : peer_state :=
  mkPeer NewScheduler ∅ ∅ ∅ ∅ mtu (newByteRateLimiter rate now) [].

Definition with_scheduler (s : Scheduler) (p : peer_state) : peer_state :=
  mkPeer s (paths p) (probes p) (mtuProbes p) (mtuDone p) (pathMTU p) (dupLimiter p) (replies p).
Definition with_paths (ps : gmap string Endpoint) (p : peer_state) : peer_state :=
  mkPeer (scheduler p) ps (probes p) (mtuProbes p) (mtuDone p) (pathMTU p) (dupLimiter p) (replies p).
Definition with_probes (ps : gmap string outstandingProbe) (p : peer_state) : peer_state :=
  mkPeer (scheduler p) (paths p) ps (mtuProbes p) (mtuDone p) (pathMTU p) (dupLimiter p) (replies p).
Definition with_mtu (ms : gmap string outstandingMTUProbe) (d : gset string) (p : peer_state) : peer_state :=
  mkPeer (scheduler p) (paths p) (probes p) ms d (pathMTU p) (dupLimiter p) (replies p).
Definition with_limiter (l : byteRateLimiter) (p : peer_state) : peer_state :=
  mkPeer (scheduler p) (paths p) (probes p) (mtuProbes p) (mtuDone p) (pathMTU p) l (replies p).
Definition with_replies (rs : list reply) (p : peer_state) : peer_state :=
  mkPeer (scheduler p) (paths p) (probes p) (mtuProbes p) (mtuDone p) (pathMTU p) (dupLimiter p) rs.

(** What the outside gives one handler: the clock, the bytes [rand.Read]
    gives for a path ([None] when it fails) and the range order of [paths]. *)
Record env := mkEnv {
  now : Z;
  nonce : string -> option (list byte);
  order : gmap string Endpoint -> list string;
}.

Definition sendProbe (e : env) (name : string) (p : peer_state) : peer_state * list transmission :=
  match paths p !! name with
  | None => (p, [])
  | Some ep =>
      match nonce e name with
      | None => (p, [])
      | Some n =>
          (with_probes (<[name := mkProbe n (now e)]> (probes p)) p,
           [([EncodeControlFrame FramePathProbe n], ep)])
      end
  end.

Definition sendMTUProbe (e : env) (name : string) (target : Z) (p : peer_state) :
    peer_state * list transmission :=
  if negb (pathMTU p) || (target =? 0) then (p, [])
  else
    match paths p !! name with
    | None => (p, [])
    | Some ep =>
        match nonce e name with
        | None => (p, [])
        | Some n =>
            if bool_decide (name ∈ mtuDone p) then (p, [])
            else if bool_decide (is_Some (mtuProbes p !! name)) then (p, [])
            else
              (with_mtu (<[name := mkMTUProbe n target]> (mtuProbes p)) (mtuDone p) p,
               [([EncodeControlFrame FramePathMTUProbe (EncodePathMTUProbe n target)], ep)])
        end
    end.

Definition nameForEndpoint (e : env) (ep : Endpoint) (p : peer_state) : option string :=
  List.find (fun name => match paths p !! name with
                         | Some ep' => (DstToString ep' =? DstToString ep)%string
                         | None => false end) (order e (paths p)).

Definition sendControlReply (e : env) (ep : Endpoint) (frame : list byte) (p : peer_state) : peer_state :=
  match nameForEndpoint e ep p with
  | None => p
  | Some name =>
      let '(ok, s) := ReserveControlSend name (scheduler p) in
      if ok then with_replies (replies p ++ [mkReply name frame ep]) (with_scheduler s p) else p
  end.

(** The goroutine at [i] of the pending replies sends and releases its path. *)
Definition reply_step (i : nat) (p : peer_state) : peer_state * list transmission :=
  match replies p !! i with
  | None => (p, [])
  | Some r =>
      (with_replies (delete i (replies p)) (with_scheduler (FinishControlSend (r_name r) (scheduler p)) p),
       [([r_frame r], r_ep r)])
  end.

Definition handle_ack (e : env) (payload : list byte) (ep : Endpoint) (p : peer_state) :
    peer_state * list transmission :=
  match nameForEndpoint e ep p with
  | None => (p, [])
  | Some name =>
      match probes p !! name with
      | Some o =>
          if bool_decide (op_nonce o = payload) then
            let p := with_probes (delete name (probes p)) p in
            let p := with_scheduler
              (ProbeResult name (time_sub (now e) (op_sentAt o)) true (now e) (scheduler p)) p in
            sendMTUProbe e name minPathMTUProbe p
          else (p, [])
      | None => (p, [])
      end
  end.

Definition handle_mtu_ack (e : env) (payload : list byte) (ep : Endpoint) (p : peer_state) :
    peer_state * list transmission :=
  match DecodePathMTUAck payload with
  | None => (p, [])
  | Some ack =>
      match nameForEndpoint e ep p with
      | None => (p, [])
      | Some name =>
          match mtuProbes p !! name with
          | Some o =>
              if (om_target o =? Target ack) && bool_decide (om_nonce o = Nonce ack) then
                let p := with_mtu (delete name (mtuProbes p)) (mtuDone p) p in
                let p := with_scheduler (ReportDatagramMTU name (Target ack) (scheduler p)) p in
                let next := nextPathMTUProbe (Target ack) in
                if next =? 0 then (with_mtu (mtuProbes p) ({[name]} ∪ mtuDone p) p, [])
                else sendMTUProbe e name next p
              else (p, [])
          | None => (p, [])
          end
      end
  end.

Definition handlePathControl (e : env) (typ : byte) (payload : list byte) (ep : Endpoint)
    (p : peer_state) : peer_state * list transmission :=
  if Byte.eqb typ FramePathProbe then
    if ValidPathControl typ payload
    then (sendControlReply e ep (EncodeControlFrame FramePathAck payload) p, []) else (p, [])
  else if Byte.eqb typ FramePathAck then
    if ValidPathControl typ payload then handle_ack e payload ep p else (p, [])
  else if Byte.eqb typ FramePathMTUProbe then
    if pathMTU p then
      match DecodePathMTUProbe payload with
      | None => (p, [])
      | Some probe =>
          (sendControlReply e ep
             (EncodeControlFrame FramePathMTUAck (EncodePathMTUAck (Nonce probe) (Target probe))) p, [])
      end
    else (p, [])
  else if Byte.eqb typ FramePathMTUAck then
    if pathMTU p then handle_mtu_ack e payload ep p else (p, [])
  else (p, []).

Definition probeOne (e : env) (name : string) (p : peer_state) : peer_state * list transmission :=
  match probes p !! name with
  | Some o =>
      if time_sub (now e) (op_sentAt o) <? probeTimeout then (p, [])
      else
        let p := with_probes (delete name (probes p)) p in
        let p := with_scheduler (ProbeResult name 0 false (now e) (scheduler p)) p in
        sendProbe e name p
  | None => sendProbe e name p
  end.

Fixpoint probe_names (e : env) (names : list string) (p : peer_state) : peer_state * list transmission :=
  match names with
  | [] => (p, [])
  | name :: names =>
      let '(p, out) := if requiresActiveProbe name (scheduler p) then probeOne e name p else (p, []) in
      let '(p, out') := probe_names e names p in (p, out ++ out')
  end.

Definition probeAll (e : env) (p : peer_state) : peer_state * list transmission :=
  probe_names e (order e (paths p)) p.

(** *** Sending *)
Inductive send_error := ErrNoHealthyCandidate | ErrNotRegistered | ErrUnknownPeer | ErrCarrier.

Definition batch_bytes (bufs : list (list byte)) : Z := sum_Z (Zlen <$> bufs).

(** What follows once the primary carrier has accepted the batch. *)
Definition duplicate_batch (e : env) (carrier : transmission -> bool) (bufs : list (list byte))
    (alternate : string) (duplicate : bool) (p : peer_state) :
    result send_error unit * peer_state * list transmission :=
  if negb (isWireGuardTransportBatch bufs) then (Ok tt, p, [])
  else if duplicate then
    match paths p !! alternate with
    | None => (Ok tt, p, [])
    | Some second =>
        let n := batch_bytes bufs in
        let '(ok, l) := limiter_Allow n (now e) (dupLimiter p) in
        let p := with_limiter l p in
        let p := with_scheduler (RecordDuplication alternate n ok (scheduler p)) p in
        if ok then (if carrier (bufs, second) then Ok tt else Err ErrCarrier, p, [(bufs, second)])
        else (Ok tt, p, [])
    end
  else (Ok tt, p, []).

(** *** The client's bind *)
Record leg_stats := mkLeg {
  relaySentBytes : Z;
  relaySentPackets : Z;
  relayReceivedBytes : Z;
  relayReceivedPackets : Z;
}.

(** The probe loops of a bind: [running] are those that have not returned, by
    the stop channel each waits on; [stop] is the channel [Close] closes. *)
Record probe_loops := mkLoops {
  stop : nat;
  stopped : bool;
  running : list nat;
}.

Definition start_loops : probe_loops := mkLoops 0 false [0%nat].

Record MultipathBind := mkBind {
  mb_peer : peer_state;
  mb_id : string;
  mb_cache : DuplicateCache.t;
  mb_relayEndpointID : option string;
  mb_leg : leg_stats;
  mb_loops : probe_loops;
}.

Definition NewMultipathBind (id : string) (mtu : bool) (rate now : Z) : MultipathBind :=
  mkBind (new_peer mtu (resolveMultipathOptions rate) now) id
    (DuplicateCache.NewDuplicateCache 4096 (10 * second)) None (mkLeg 0 0 0 0) start_loops.

Definition set_peer (p : peer_state) (m : MultipathBind) : MultipathBind :=
  mkBind p (mb_id m) (mb_cache m) (mb_relayEndpointID m) (mb_leg m) (mb_loops m).
Definition set_leg (l : leg_stats) (m : MultipathBind) : MultipathBind :=
  mkBind (mb_peer m) (mb_id m) (mb_cache m) (mb_relayEndpointID m) l (mb_loops m).
Definition set_cache (c : DuplicateCache.t) (m : MultipathBind) : MultipathBind :=
  mkBind (mb_peer m) (mb_id m) c (mb_relayEndpointID m) (mb_leg m) (mb_loops m).
Definition set_loops (l : probe_loops) (m : MultipathBind) : MultipathBind :=
  mkBind (mb_peer m) (mb_id m) (mb_cache m) (mb_relayEndpointID m) (mb_leg m) l.
Definition set_relay_id (o : option string) (m : MultipathBind) : MultipathBind :=
  mkBind (mb_peer m) (mb_id m) (mb_cache m) o (mb_leg m) (mb_loops m).

Definition RelayLegStats (m : MultipathBind) : Z * Z * Z * Z :=
  (relaySentBytes (mb_leg m), relaySentPackets (mb_leg m),
   relayReceivedBytes (mb_leg m), relayReceivedPackets (mb_leg m)).

Definition ResetRelayLegStats : MultipathBind -> MultipathBind := set_leg (mkLeg 0 0 0 0).

Definition RegisterPath (e : env) (name kind : string) (ep : Endpoint) (m : MultipathBind) :
    MultipathBind * list transmission :=
  let m := set_peer (with_paths (<[name := ep]> (paths (mb_peer m))) (mb_peer m)) m in
  let m := if (name =? PathUDPRelay)%string then set_relay_id (Some (DstToString ep)) m else m in
  let m := set_peer (with_scheduler (Register name kind (scheduler (mb_peer m))) (mb_peer m)) m in
  if negb (kind =? PathWSS)%string then
    let '(p, out) := sendProbe e name (mb_peer m) in (set_peer p m, out)
  else (m, []).

Definition on_sched (f : Scheduler -> Scheduler) (m : MultipathBind) : MultipathBind :=
  set_peer (with_scheduler (f (scheduler (mb_peer m))) (mb_peer m)) m.

Definition count_sent (bufs : list (list byte)) (m : MultipathBind) : MultipathBind :=
  let l := mb_leg m in
  set_leg (mkLeg (u64 (relaySentBytes l + u64 (batch_bytes bufs)))
                 (u64 (relaySentPackets l + u64 (Zlen bufs)))
                 (relayReceivedBytes l) (relayReceivedPackets l)) m.

Definition count_received (b : list byte) (m : MultipathBind) : MultipathBind :=
  let l := mb_leg m in
  set_leg (mkLeg (relaySentBytes l) (relaySentPackets l)
                 (u64 (relayReceivedBytes l + u64 (Zlen b)))
                 (u64 (relayReceivedPackets l + 1))) m.

(** [ord] is the range order of the scheduler's candidates. *)
Definition Send (ord : gmap string candidate -> list string) (e : env) (carrier : transmission -> bool)
    (bufs : list (list byte)) (ep : Endpoint) (m : MultipathBind) :
    result send_error unit * MultipathBind * list transmission :=
  match ep with
  | multipathEndpoint _ =>
      let '((primary, alternate, duplicate), s) := Select ord (scheduler (mb_peer m)) in
      let m := on_sched (fun _ => s) m in
      let log := on_sched (fun s => (Status ord s).2) in
      if (primary =? "")%string then (Err ErrNoHealthyCandidate, log m, [])
      else
        match paths (mb_peer m) !! primary with
        | None => (Err ErrNotRegistered, log m, [])
        | Some first =>
            if negb (carrier (bufs, first)) then
              (Err ErrCarrier, on_sched (CarrierFailure primary) m, [(bufs, first)])
            else
              let m := if (primary =? PathUDPRelay)%string then count_sent bufs m else m in
              let '(r, p, out) := duplicate_batch e carrier bufs alternate duplicate (mb_peer m) in
              (r, set_peer p m, (bufs, first) :: out)
        end
  | _ => (if carrier (bufs, ep) then Ok tt else Err ErrCarrier, m, [(bufs, ep)])
  end.

(** *** Receiving

    A loop over the slots of one read: [handle] looks at the datagram of a
    slot, changes the state, and either drops it or keeps it under an
    endpoint.  Kept datagrams are copied to the front; with [retag] the
    endpoint is written in the source slot too. *)
Section compact.
Context {St : Type} (retag : bool).
(** The number of the read, the slot, and what is in it. *)
Variable handle : nat -> nat -> list byte -> Endpoint -> St -> option Endpoint * St * list transmission.

Definition set_ep (ep : Endpoint) (s : @slot Endpoint) : @slot Endpoint :=
  {| sl_buf := sl_buf s; sl_size := sl_size s; sl_ep := ep |}.

Definition place (i out : nat) (ep : Endpoint) (slots : list (@slot Endpoint)) : list (@slot Endpoint) :=
  let slots := if retag then alter (set_ep ep) i slots else slots in
  let slots := alter (set_ep ep) out slots in
  if (out =? i)%nat then slots
  else match slots !! i, slots !! out with
       | Some src, Some dst => <[out := set_ep ep (move_slot src dst)]> slots
       | _, _ => slots
       end.

Fixpoint compact (r k i out : nat) (slots : list (@slot Endpoint)) (st : St) :
    nat * list (@slot Endpoint) * St * list transmission :=
  match k with
  | O => (out, slots, st, [])
  | S k =>
      match slots !! i with
      | None => (out, slots, st, [])
      | Some s =>
          let '(d, st, tx) := handle r i (datagram s) (sl_ep s) st in
          let '(out, slots) :=
            match d with
            | None => (out, slots)
            | Some ep => (S out, place i out ep slots)
            end in
          let '(out, slots, st, tx') := compact r k (S i) out slots st in
          (out, slots, st, tx ++ tx')
      end
  end.

(** The datagrams looked at one after another. *)
Fixpoint handle_all (r i : nat) (ds : list (list byte * Endpoint)) (st : St) :
    list (list byte * Endpoint) * St * list transmission :=
  match ds with
  | [] => ([], st, [])
  | (b, ep) :: ds =>
      let '(d, st, tx) := handle r i b ep st in
      let '(kept, st, tx') := handle_all r (S i) ds st in
      (match d with None => kept | Some ep' => (b, ep') :: kept end, st, tx ++ tx')
  end.

Fixpoint receive_all {E : Type} (r : nat) (reads : list (result E (list (@slot Endpoint)))) (st : St) :
    option (result E (nat * list (@slot Endpoint))) * St * list transmission :=
  match reads with
  | [] => (None, st, [])
  | Err e :: _ => (Some (Err e), st, [])
  | Ok slots :: reads =>
      let '(out, slots, st, tx) := compact r (length slots) 0 0 slots st in
      if (0 <? out)%nat then (Some (Ok (out, slots)), st, tx)
      else let '(res, st, tx') := receive_all (S r) reads st in (res, st, tx ++ tx')
  end.
End compact.

(** What [wrapReceive] does with the datagram in slot [i]. *)
Definition receive_one (envs : nat -> nat -> env) (cords : nat -> nat -> gmap (list Z) Z -> list (list Z))
    (r i : nat) (b : list byte) (ep : Endpoint) (m : MultipathBind) :
    option Endpoint * MultipathBind * list transmission :=
  match DecodeControlFrame b with
  | Some (typ, payload) =>
      let '(p, tx) := handlePathControl (envs r i) typ payload ep (mb_peer m) in
      (None, set_peer p m, tx)
  | None =>
      let '(seen, c) := DuplicateCache.Seen (cords r i) b (now (envs r i)) (mb_cache m) in
      let m := set_cache c m in
      if seen then (None, m, [])
      else
        let m := match mb_relayEndpointID m with
                 | Some id => if (DstToString ep =? id)%string then count_received b m else m
                 | None => m
                 end in
        (Some (multipathEndpoint (mb_id m)), m, [])
  end.

Definition wrapReceive {E : Type} (envs : nat -> nat -> env) (cords : nat -> nat -> gmap (list Z) Z -> list (list Z))
    (reads : list (result E (list (@slot Endpoint)))) (m : MultipathBind) :=
  receive_all false (receive_one envs cords) 0 reads m.

(** *** Lifecycle *)
Definition restart_loops (l : probe_loops) : probe_loops :=
  if stopped l then mkLoops (S (stop l)) false (running l ++ [S (stop l)]) else l.

Definition restartProbeLoop (m : MultipathBind) : MultipathBind := set_loops (restart_loops (mb_loops m)) m.

(** [Open]'s effect on this bind; [base] and [onOpen] tell whether the
    carrier's [Open] and the callback succeed. *)
Definition Open (base onOpen : bool) (m : MultipathBind) : bool * MultipathBind :=
  let m := restartProbeLoop m in (base && onOpen, m).

Definition close_loops (l : probe_loops) : probe_loops :=
  if stopped l then l else mkLoops (stop l) true (running l).

Definition Close (m : MultipathBind) : MultipathBind := set_loops (close_loops (mb_loops m)) m.

(** The channel a loop waits on is closed. *)
Definition channel_closed (l : probe_loops) (ch : nat) : bool :=
  (ch <? stop l)%nat || ((ch =? stop l)%nat && stopped l).

(** A loop whose channel is closed returns. *)
Definition loop_exit (ch : nat) (l : probe_loops) : probe_loops :=
  if channel_closed l ch then mkLoops (stop l) (stopped l) (filter (fun c => c <> ch) (running l)) else l.

(** A loop's tick; a loop may take the tick even when its channel is closed. *)
Definition loop_tick (e : env) (ch : nat) (m : MultipathBind) : MultipathBind * list transmission :=
  if existsb (Nat.eqb ch) (running (mb_loops m))
  then let '(p, tx) := probeAll e (mb_peer m) in (set_peer p m, tx) else (m, []).

Definition MultipathSentinel : string := "mp:relay".

(** [base] is the carrier's own parser. *)
Definition ParseEndpoint (base : string -> option Endpoint) (s : string) (m : MultipathBind) : option Endpoint :=
  if (s =? MultipathSentinel)%string then Some (multipathEndpoint (mb_id m)) else base s.

(** ** The receive loop *)
Section compact_spec.
Context {St : Type} (retag : bool).
Variable handle : nat -> nat -> list byte -> Endpoint -> St -> option Endpoint * St * list transmission.

Lemma set_ep_content ep (s : @slot Endpoint) : content (set_ep ep s) = (datagram s, ep).
Proof. done. Qed.

(** Placing slot [i] at [out] puts its datagram there, under the endpoint,
    and touches no slot after [i]. *)
Lemma place_spec len i out ep (slots : list (@slot Endpoint)) s :
  uniform len slots -> slots !! i = Some s -> (out <= i)%nat ->
  take (S out) (content <$> place retag i out ep slots) =
    take out (content <$> slots) ++ [(datagram s, ep)] /\
  length (place retag i out ep slots) = length slots /\
  drop (S i) (place retag i out ep slots) = drop (S i) slots /\
  uniform len (place retag i out ep slots).
Proof.
  intros Hu Hs Hle.
  assert (uniform len (alter (set_ep ep) i slots)) as Hu'.
  { unfold uniform in *. apply Forall_alter; [done|]. intros x Hx Hlx. simpl. apply Hlx. }
  set (sl := if retag then alter (set_ep ep) i slots else slots).
  assert (uniform len sl /\ length sl = length slots /\ drop (S i) sl = drop (S i) slots /\
    take out sl = take out slots /\ exists s', sl !! i = Some s' /\ datagram s' = datagram s /\
    length (sl_buf s') = len /\ (sl_size s' <= len)%nat)
    as (Hus & Hls & Hds & Hts & s' & Hs' & Hdg & Hbuf & Hsz).
  { pose proof (proj1 (Forall_lookup _ _) Hu i s Hs) as [? ?]. unfold sl. destruct retag.
    - split_and!; [done|by rewrite length_alter|by rewrite drop_alter_lt by lia|by rewrite take_alter_ge by lia|].
      exists (set_ep ep s). by rewrite list_lookup_alter_eq, Hs.
    - split_and!; try done. exists s. by split_and!. }
  unfold place. fold sl. clearbody sl.
  destruct (Nat.eqb_spec out i) as [->|Hne].
  - split_and!.
    + rewrite <-fmap_take, (take_S_r _ _ (set_ep ep s')), fmap_app.
      * rewrite take_alter_ge, Hts, fmap_take by lia. simpl. by rewrite set_ep_content, Hdg.
      * by rewrite list_lookup_alter_eq, Hs'.
    + by rewrite length_alter.
    + by rewrite drop_alter_lt by lia.
    + apply Forall_alter; [done|]. intros x Hx Hlx. apply Hlx.
  - assert (exists dst, sl !! out = Some dst) as [dst Hdst].
    { apply lookup_lt_is_Some_2. apply lookup_lt_Some in Hs'. lia. }
    rewrite list_lookup_alter_ne, Hs', list_lookup_alter_eq, Hdst by done. simpl.
    pose proof (proj1 (Forall_lookup _ _) Hus out dst Hdst) as [Hbd _].
    destruct (move_slot_content len s' (set_ep ep dst)) as (Hc & Hl' & Hsz'); [done..|].
    assert (out < length sl)%nat by (by eapply lookup_lt_Some).
    split_and!.
    + rewrite <-fmap_take, (take_S_r _ _ (set_ep ep (move_slot s' (set_ep ep dst)))), fmap_app.
      * rewrite take_insert_ge, take_alter_ge, Hts, fmap_take by lia. simpl. rewrite set_ep_content.
        injection Hc as Hc. by rewrite Hc, Hdg.
      * apply list_lookup_insert_eq. by rewrite length_alter.
    + by rewrite length_insert, length_alter.
    + rewrite drop_insert_lt, drop_alter_lt by lia. done.
    + apply Forall_insert; [|by split]. apply Forall_alter; [done|]. intros x Hx Hlx. apply Hlx.
Qed.

Lemma compact_spec len r k i out slots st :
  uniform len slots -> (i + k = length slots)%nat -> (out <= i)%nat ->
  let '(out', slots', st', tx) := compact retag handle r k i out slots st in
  let '(kept, st2, tx2) := handle_all handle r i (content <$> drop i slots) st in
  content <$> take out' slots' = (content <$> take out slots) ++ kept /\
  st' = st2 /\ tx = tx2 /\ uniform len slots' /\ out' = (out + length kept)%nat /\
  (out' <= length slots')%nat.
Proof.
  revert i out slots st. induction k as [|k IH]; intros i out slots st Hu Hik Hout.
  { simpl. rewrite (drop_ge slots) by lia. simpl. rewrite app_nil_r. split_and!; (done || lia). }
  assert (exists s, slots !! i = Some s) as [s Hs] by (apply lookup_lt_is_Some_2; lia).
  rewrite (drop_S slots s i Hs). cbn [compact]. rewrite Hs, fmap_cons.
  change (content s) with (datagram s, sl_ep s). cbn [handle_all].
  destruct (handle r i (datagram s) (sl_ep s) st) as [[[ep|] st1] tx1].
  - destruct (place_spec len i out ep slots s Hu Hs Hout) as (Hp & Hl & Hd & Hup).
    specialize (IH (S i) (S out) (place retag i out ep slots) st1 Hup ltac:(lia) ltac:(lia)).
    rewrite Hd in IH. destruct (compact _ _ _ _ _ _ _ _) as [[[o sl] st2] tx2].
    destruct (handle_all _ _ _ _ _) as [[kept st3] tx3].
    destruct IH as (H1 & -> & -> & H4 & H5 & H6). split_and!; try done.
    + rewrite H1, fmap_take, Hp, <-fmap_take, <-app_assoc. done.
    + simpl. lia.
  - specialize (IH (S i) out slots st1 Hu ltac:(lia) ltac:(lia)).
    destruct (compact _ _ _ _ _ _ _ _) as [[[o sl] st2] tx2].
    destruct (handle_all _ _ _ _ _) as [[kept st3] tx3].
    destruct IH as (H1 & -> & -> & H4 & H5 & H6). by split_and!.
Qed.

(** The datagrams of several reads, one read after another. *)
Fixpoint handle_reads (r : nat) (reads : list (list (@slot Endpoint))) (st : St) :
    list (list byte * Endpoint) * St * list transmission :=
  match reads with
  | [] => ([], st, [])
  | slots :: reads =>
      let '(kept, st, tx) := handle_all handle r 0 (content <$> slots) st in
      let '(kept', st, tx') := handle_reads (S r) reads st in
      (kept ++ kept', st, tx ++ tx')
  end.

(** A receive handles every datagram of the reads up to the first one that
    leaves something, and returns what that one leaves. *)
Lemma receive_all_spec {E : Type} len r reads st :
  Forall (fun rd : result E (list (@slot Endpoint)) =>
    match rd with Ok slots => uniform len slots | Err _ => True end) reads ->
  let '(res, st', tx) := receive_all retag handle r reads st in
  exists pre rest kept,
    reads = (Ok <$> pre) ++ rest /\ handle_reads r pre st = (kept, st', tx) /\
    match res with
    | Some (Ok (out, slots)) => kept <> [] /\ out = length kept /\ content <$> take out slots = kept
    | Some (Err e) => kept = [] /\ exists post, rest = Err e :: post
    | None => kept = [] /\ rest = []
    end.
Proof.
  revert r st. induction reads as [|[slots|e] reads IH]; intros r st HF; cbn [receive_all].
  - by exists [], [], [].
  - apply Forall_cons in HF as [Hu HF]. simpl in Hu.
    pose proof (compact_spec len r (length slots) 0 0 slots st Hu eq_refl (Nat.le_refl 0)) as Hc.
    rewrite drop_0 in Hc. destruct (compact _ _ _ _ _ _ _ _) as [[[o sl] st1] tx1].
    destruct (handle_all handle r 0 (content <$> slots) st) as [[kept st2] tx2] eqn:Eh.
    destruct Hc as (Hk & -> & -> & _ & Ho & _). simpl in Ho.
    destruct (0 <? o)%nat eqn:Eo; [apply Nat.ltb_lt in Eo|apply Nat.ltb_ge in Eo].
    + exists [slots], reads, kept. split; [done|]. split.
      * cbn [handle_reads]. rewrite Eh. by rewrite !app_nil_r.
      * split_and!; [|done|by rewrite Hk]. intros ->. simpl in Ho. lia.
    + destruct kept as [|x kept]; [|simpl in Ho; lia].
      specialize (IH (S r) st2 HF). destruct (receive_all _ _ _ reads st2) as [[res st3] tx3].
      destruct IH as (pre & rest & kept & -> & Hp & Hres).
      exists (slots :: pre), rest, kept. split; [done|]. split; [|done].
      cbn [handle_reads]. by rewrite Eh, Hp.
  - exists [], (Err e :: reads), []. split_and!; try done. by exists reads.
Qed.
End compact_spec.

(** *** The client's receive path, taken apart *)
Section receive_parts.
Variables (envs : nat -> nat -> env) (cords : nat -> nat -> gmap (list Z) Z -> list (list Z)).

(** The packets that are not control frames: the calls they make of the
    duplicate cache, and where each came from. *)
Fixpoint data_packets (r i : nat) (ds : list (list byte * Endpoint)) : list (DuplicateCache.call * Endpoint) :=
  match ds with
  | [] => []
  | (b, ep) :: ds =>
      match DecodeControlFrame b with
      | Some _ => data_packets r (S i) ds
      | None =>
          ({| DuplicateCache.packet := b; DuplicateCache.at_time := now (envs r i);
              DuplicateCache.order := cords r i |}, ep) :: data_packets r (S i) ds
      end
  end.

(** The control frames, handled in order. *)
Fixpoint control_frames (r i : nat) (ds : list (list byte * Endpoint)) (p : peer_state) :
    peer_state * list transmission :=
  match ds with
  | [] => (p, [])
  | (b, ep) :: ds =>
      match DecodeControlFrame b with
      | None => control_frames r (S i) ds p
      | Some (typ, payload) =>
          let '(p, tx) := handlePathControl (envs r i) typ payload ep p in
          let '(p, tx') := control_frames r (S i) ds p in (p, tx ++ tx')
      end
  end.

(** The packets the cache had not seen. *)
Definition unseen {A} (l : list A) (seen : list bool) : list A :=
  (filter (fun x => x.2 = false) (zip l seen)).*1.

Lemma unseen_false {A} (x : A) l seen : unseen (x :: l) (false :: seen) = x :: unseen l seen.
Proof.
  unfold unseen. change (zip (x :: l) (false :: seen)) with ((x, false) :: zip l seen).
  by rewrite filter_cons_True.
Qed.

Lemma unseen_true {A} (x : A) l seen : unseen (x :: l) (true :: seen) = unseen l seen.
Proof.
  unfold unseen. change (zip (x :: l) (true :: seen)) with ((x, true) :: zip l seen).
  by rewrite filter_cons_False.
Qed.

Definition from_relay (o : option string) (d : DuplicateCache.call * Endpoint) : bool :=
  match o with Some rid => (DstToString d.2 =? rid)%string | None => false end.

Definition leg_after (o : option string) (l : leg_stats) (ds : list (DuplicateCache.call * Endpoint)) : leg_stats :=
  foldl (fun l d => if from_relay o d
    then mkLeg (relaySentBytes l) (relaySentPackets l)
           (u64 (relayReceivedBytes l + u64 (Zlen (DuplicateCache.packet d.1))))
           (u64 (relayReceivedPackets l + 1)) else l) l ds.

Lemma handle_all_parts r i ds m :
  let '(kept, m', tx) := handle_all (receive_one envs cords) r i ds m in
  let data := data_packets r i ds in
  let '(seen, c) := DuplicateCache.run (data.*1) (mb_cache m) in
  let '(p, tx') := control_frames r i ds (mb_peer m) in
  kept = (fun d => (DuplicateCache.packet d.1, multipathEndpoint (mb_id m))) <$> unseen data seen /\
  m' = mkBind p (mb_id m) c (mb_relayEndpointID m)
         (leg_after (mb_relayEndpointID m) (mb_leg m) (unseen data seen))
         (mb_loops m) /\
  tx = tx'.
Proof.
  revert i m. induction ds as [|[b ep] ds IH]; intros i m; [by destruct m|].
  cbn [handle_all data_packets control_frames]. unfold receive_one at 1.
  destruct (DecodeControlFrame b) as [[typ payload]|] eqn:Ec.
  - destruct (handlePathControl _ _ _ _ _) as [p tx1].
    specialize (IH (S i) (set_peer p m)). simpl in IH.
    destruct (handle_all _ _ _ _ _) as [[kept m'] tx2].
    destruct (DuplicateCache.run _ _) as [seen c].
    destruct (control_frames r (S i) ds p) as [p' tx']. destruct IH as (-> & -> & ->). done.
  - cbn [fmap list_fmap fst DuplicateCache.run DuplicateCache.packet DuplicateCache.at_time
      DuplicateCache.order].
    change (list_fmap _ _ fst (data_packets r (S i) ds)) with ((data_packets r (S i) ds).*1).
    destruct (DuplicateCache.Seen _ _ _ _) as [[] c1].
    + specialize (IH (S i) (set_cache c1 m)). simpl in IH.
      destruct (handle_all _ _ _ _ _) as [[kept m'] tx2].
      destruct (DuplicateCache.run _ _) as [seen c].
      destruct (control_frames _ _ _ _) as [p' tx']. cbv zeta. by rewrite unseen_true.
    + set (m1 := match mb_relayEndpointID (set_cache c1 m) with Some _ => _ | None => _ end).
      assert (mb_cache m1 = c1 /\ mb_peer m1 = mb_peer m /\ mb_id m1 = mb_id m /\
        mb_relayEndpointID m1 = mb_relayEndpointID m /\ mb_loops m1 = mb_loops m /\
        mb_leg m1 = leg_after (mb_relayEndpointID m) (mb_leg m)
          [({| DuplicateCache.packet := b; DuplicateCache.at_time := now (envs r i);
               DuplicateCache.order := cords r i |}, ep)])
        as (E1 & E2 & E3 & E4 & E5 & E6).
      { unfold m1, leg_after. simpl. destruct (mb_relayEndpointID m) as [rid|] eqn:Er; [|done].
        simpl. destruct (_ =? _)%string; by rewrite ?Er. }
      clearbody m1. specialize (IH (S i) m1).
      cbv zeta in IH. rewrite E1, E2, E3, E4, E5, E6 in IH.
      destruct (handle_all _ _ _ _ _) as [[kept m'] tx2].
      destruct (DuplicateCache.run _ _) as [seen c].
      destruct (control_frames _ _ _ _) as [p' tx']. cbv zeta. rewrite unseen_false.
      destruct IH as (-> & -> & ->). by rewrite E3.
Qed.

Lemma unseen_app {A} (l l' : list A) s s' :
  length l = length s -> unseen (l ++ l') (s ++ s') = unseen l s ++ unseen l' s'.
Proof.
  revert s. induction l as [|x l IH]; intros [|[] s]; try done; intros [= Hl].
  - change ((x :: l) ++ l') with (x :: (l ++ l')). change ((true :: s) ++ s') with (true :: (s ++ s')).
    rewrite !unseen_true. by apply IH.
  - change ((x :: l) ++ l') with (x :: (l ++ l')). change ((false :: s) ++ s') with (false :: (s ++ s')).
    rewrite !unseen_false. simpl. f_equal. by apply IH.
Qed.

Lemma run_app cs cs' c :
  DuplicateCache.run (cs ++ cs') c =
    let '(rs, c1) := DuplicateCache.run cs c in
    let '(rs', c2) := DuplicateCache.run cs' c1 in (rs ++ rs', c2).
Proof.
  revert c. induction cs as [|x cs IH]; intros c; simpl.
  - by destruct (DuplicateCache.run cs' c).
  - destruct (DuplicateCache.Seen _ _ _ c) as [r c1]. rewrite IH.
    destruct (DuplicateCache.run cs c1) as [rs c2]. by destruct (DuplicateCache.run cs' c2).
Qed.

Lemma run_length cs c : length (DuplicateCache.run cs c).1 = length cs.
Proof.
  revert c. induction cs as [|x cs IH]; intros c; simpl; [done|].
  destruct (DuplicateCache.Seen _ _ _ c) as [r c1]. specialize (IH c1).
  destruct (DuplicateCache.run cs c1). simpl in *. by rewrite IH.
Qed.

Lemma leg_after_app o l ds ds' : leg_after o l (ds ++ ds') = leg_after o (leg_after o l ds) ds'.
Proof. apply foldl_app. Qed.

Fixpoint data_reads (r : nat) (reads : list (list (@slot Endpoint))) : list (DuplicateCache.call * Endpoint) :=
  match reads with
  | [] => []
  | slots :: reads => data_packets r 0 (content <$> slots) ++ data_reads (S r) reads
  end.

Fixpoint control_reads (r : nat) (reads : list (list (@slot Endpoint))) (p : peer_state) :
    peer_state * list transmission :=
  match reads with
  | [] => (p, [])
  | slots :: reads =>
      let '(p, tx) := control_frames r 0 (content <$> slots) p in
      let '(p, tx') := control_reads (S r) reads p in (p, tx ++ tx')
  end.

Lemma handle_reads_parts r reads m :
  let '(kept, m', tx) := handle_reads (receive_one envs cords) r reads m in
  let data := data_reads r reads in
  let '(seen, c) := DuplicateCache.run (data.*1) (mb_cache m) in
  let '(p, tx') := control_reads r reads (mb_peer m) in
  kept = (fun d => (DuplicateCache.packet d.1, multipathEndpoint (mb_id m))) <$> unseen data seen /\
  m' = mkBind p (mb_id m) c (mb_relayEndpointID m)
         (leg_after (mb_relayEndpointID m) (mb_leg m) (unseen data seen))
         (mb_loops m) /\
  tx = tx'.
Proof.
  revert r m. induction reads as [|slots reads IH]; intros r m; [by destruct m|].
  cbn [handle_reads data_reads control_reads].
  pose proof (handle_all_parts r 0 (content <$> slots) m) as H1.
  destruct (handle_all _ _ _ _ _) as [[kept m1] tx1]. cbv zeta in *.
  rewrite fmap_app, run_app.
  pose proof (run_length ((data_packets r 0 (content <$> slots)).*1) (mb_cache m)) as Hlen.
  destruct (DuplicateCache.run ((data_packets r 0 (content <$> slots)).*1) (mb_cache m)) as [s1 c1].
  destruct (control_frames r 0 _ _) as [p1 txp1]. destruct H1 as (-> & -> & ->).
  specialize (IH (S r) (mkBind p1 (mb_id m) c1 (mb_relayEndpointID m)
    (leg_after (mb_relayEndpointID m) (mb_leg m) (unseen (data_packets r 0 (content <$> slots)) s1))
    (mb_loops m))).
  destruct (handle_reads _ _ _ _) as [[kept2 m2] tx2]. simpl in IH.
  destruct (DuplicateCache.run _ c1) as [s2 c2]. destruct (control_reads _ _ _) as [p2 txp2].
  destruct IH as (-> & -> & ->). simpl in Hlen. rewrite length_fmap in Hlen.
  by rewrite unseen_app, fmap_app, leg_after_app by done.
Qed.

Lemma u64_accumulate a b c : u64 (u64 (a + u64 b) + c) = u64 (a + (b + c)).
Proof.
  unfold u64. rewrite Zplus_mod_idemp_l. replace (a + b mod uint64_mod + c) with (a + c + b mod uint64_mod) by lia.
  rewrite Zplus_mod_idemp_r. f_equal. lia.
Qed.

Lemma leg_after_counts o l ds :
  let l' := leg_after o l ds in
  let mine := filter (fun d => from_relay o d = true) ds in
  relaySentBytes l' = relaySentBytes l /\ relaySentPackets l' = relaySentPackets l /\
  u64 (relayReceivedBytes l') =
    u64 (relayReceivedBytes l + sum_Z ((fun d => Zlen (DuplicateCache.packet d.1)) <$> mine)) /\
  u64 (relayReceivedPackets l') = u64 (relayReceivedPackets l + Zlen mine).
Proof.
  cbv zeta. revert l. induction ds as [|d ds IH]; intros l.
  { simpl. by rewrite !Z.add_0_r. }
  change (leg_after o l (d :: ds)) with (leg_after o (leg_after o l [d]) ds).
  destruct (IH (leg_after o l [d])) as (-> & -> & -> & ->). unfold leg_after. simpl.
  destruct (from_relay o d) eqn:E.
  - rewrite filter_cons_True by done. rewrite fmap_cons, Zlen_cons. simpl.
    split_and!; [done|done|apply u64_accumulate|].
    change 1 with (u64 1) at 1. apply u64_accumulate.
  - by rewrite filter_cons_False by congruence.
Qed.

(** A receive of the client's bind returns exactly the packets of the
    first read that has a new one: none is a control frame, none is one the
    duplicate cache has seen, they keep their order and carry the logical
    endpoint, each slot keeping its own buffer.  All control frames up to
    there are handled in order, and the relay leg counts the new packets
    that came from the relay's endpoint and nothing else. *)
Theorem wrapReceive_delivers {E : Type} len (reads : list (result E (list (@slot Endpoint)))) m
    (Hu : Forall (fun rd => match rd with Ok slots => uniform len slots | Err _ => True end) reads) :
  let '(res, m', tx) := wrapReceive envs cords reads m in
  exists pre rest, reads = (Ok <$> pre) ++ rest /\
  let data := data_reads 0 pre in
  let '(seen, c) := DuplicateCache.run (data.*1) (mb_cache m) in
  let fresh := unseen data seen in
  let mine := filter (fun d => from_relay (mb_relayEndpointID m) d = true) fresh in
  mb_cache m' = c /\ (mb_peer m', tx) = control_reads 0 pre (mb_peer m) /\
  relaySentBytes (mb_leg m') = relaySentBytes (mb_leg m) /\
  u64 (relayReceivedBytes (mb_leg m')) =
    u64 (relayReceivedBytes (mb_leg m) + sum_Z ((fun d => Zlen (DuplicateCache.packet d.1)) <$> mine)) /\
  u64 (relayReceivedPackets (mb_leg m')) = u64 (relayReceivedPackets (mb_leg m) + Zlen mine) /\
  match res with
  | Some (Ok (out, slots)) => fresh <> [] /\ out = length fresh /\
      content <$> take out slots =
        (fun d => (DuplicateCache.packet d.1, multipathEndpoint (mb_id m))) <$> fresh
  | Some (Err e) => fresh = [] /\ exists post, rest = Err e :: post
  | None => fresh = [] /\ rest = []
  end.
Proof.
  pose proof (receive_all_spec false (receive_one envs cords) len 0 reads m Hu) as H.
  unfold wrapReceive. destruct (receive_all _ _ _ _ _) as [[res m'] tx].
  destruct H as (pre & rest & kept & -> & Hh & Hres). exists pre, rest. split; [done|].
  pose proof (handle_reads_parts 0 pre m) as Hp. rewrite Hh in Hp. cbv zeta in *.
  destruct (DuplicateCache.run _ _) as [seen c]. destruct (control_reads _ _ _) as [p tx'].
  destruct Hp as (-> & -> & ->). simpl.
  destruct (leg_after_counts (mb_relayEndpointID m) (mb_leg m) (unseen (data_reads 0 pre) seen))
    as (-> & _ & -> & ->).
  split_and!; try done. destruct res as [[[out slots]|e]|].
  - destruct Hres as (Hne & -> & Hc). rewrite length_fmap in *. split_and!; [|done|done].
    intros Hn. by rewrite Hn in Hne.
  - destruct Hres as (Hn & Hr). split; [|done]. by apply fmap_nil_inv in Hn.
  - destruct Hres as (Hn & Hr). split; [|done]. by apply fmap_nil_inv in Hn.
Qed.
End receive_parts.

(** ** The probe protocol over every history *)
Inductive event :=
  | EvRegister (e : env) (name kind : string) (ep : Endpoint)
  | EvActivate (name : string) (t : Z)
  | EvFailure (name : string)
  | EvForce (name : string)
  | EvControl (e : env) (typ : byte) (payload : list byte) (ep : Endpoint)
  | EvProbeAll (e : env)
  | EvReply (i : nat)
  | EvSelect (ord : gmap string candidate -> list string)
  | EvDuplicate (e : env) (carrier : transmission -> bool) (bufs : list (list byte)) (alternate : string).

(** [RegisterPath]'s effect on the peer. *)
Definition register_peer (e : env) (name kind : string) (ep : Endpoint) (p : peer_state) :
    peer_state * list transmission :=
  let p := with_paths (<[name := ep]> (paths p)) p in
  let p := with_scheduler (Register name kind (scheduler p)) p in
  if negb (kind =? PathWSS)%string then sendProbe e name p else (p, []).

Definition peer_step (ev : event) (p : peer_state) : peer_state * list transmission :=
  match ev with
  | EvRegister e name kind ep => register_peer e name kind ep p
  | EvActivate name t => (with_scheduler (ActivateCarrier name t (scheduler p)) p, [])
  | EvFailure name => (with_scheduler (CarrierFailure name (scheduler p)) p, [])
  | EvForce name => (with_scheduler (SetForced name (scheduler p)) p, [])
  | EvControl e typ payload ep => handlePathControl e typ payload ep p
  | EvProbeAll e => probeAll e p
  | EvReply i => reply_step i p
  | EvSelect ord => (with_scheduler (Select ord (scheduler p)).2 p, [])
  | EvDuplicate e carrier bufs alternate =>
      let '(_, p, tx) := duplicate_batch e carrier bufs alternate true p in (p, tx)
  end.

(** A history: each event with the state it met and what it sent. *)
Definition entry : Type := event * peer_state * list transmission.

Fixpoint history (evs : list event) (p : peer_state) : list entry * peer_state :=
  match evs with
  | [] => ([], p)
  | ev :: evs =>
      let '(p', tx) := peer_step ev p in
      let '(h, p'') := history evs p' in ((ev, p, tx) :: h, p'')
  end.

Lemma history_app evs evs' p :
  history (evs ++ evs') p =
    let '(h, p1) := history evs p in let '(h', p2) := history evs' p1 in (h ++ h', p2).
Proof.
  revert p. induction evs as [|ev evs IH]; intros p; simpl; [by destruct (history evs' p)|].
  destruct (peer_step ev p) as [p1 tx]. rewrite IH.
  destruct (history evs p1) as [h p2]. by destruct (history evs' p2).
Qed.

(** Induction over a history from its end. *)
Lemma history_ind (P : list entry -> peer_state -> Prop) p0 evs :
  P [] p0 ->
  (forall h p ev, ev ∈ evs -> P h p -> P (h ++ [(ev, p, (peer_step ev p).2)]) (peer_step ev p).1) ->
  P (history evs p0).1 (history evs p0).2.
Proof.
  intros H0 Hstep. induction evs as [|ev evs IH] using rev_ind; [done|].
  rewrite history_app. destruct (history evs p0) as [h p] eqn:E. simpl in *.
  assert (P h p) as Hp.
  { apply IH. intros h' p' ev' Hin. apply Hstep. apply elem_of_app. by left. }
  specialize (Hstep h p ev). destruct (peer_step ev p) as [p1 tx]. simpl in *.
  apply Hstep; [|done]. apply elem_of_app. right. left.
Qed.

(** *** What each operation leaves alone *)
Lemma nameForEndpoint_some e ep p name :
  nameForEndpoint e ep p = Some name ->
  exists ep', paths p !! name = Some ep' /\ DstToString ep' = DstToString ep.
Proof.
  unfold nameForEndpoint. intros [_ Hf]%List.find_some.
  destruct (paths p !! name) as [ep'|]; [|done]. bool_to_prop. by exists ep'.
Qed.

(** A probe with nonce [n] was sent to the endpoint of [name]. *)
Definition probe_sent (h : list entry) (name : string) (n : list byte) : Prop :=
  exists ev p tx ep, (ev, p, tx) ∈ h /\ ([EncodeControlFrame FramePathProbe n], ep) ∈ tx /\
    (paths p !! name = Some ep \/ exists e kind, ev = EvRegister e name kind ep).

(** An ack came over the endpoint then registered for [name] with the nonce
    outstanding there, which had been sent before. *)
Definition ack_received (h : list entry) (name : string) : Prop :=
  exists h1 h2 e n ep p tx ep' o, h = h1 ++ (EvControl e FramePathAck n ep, p, tx) :: h2 /\
    paths p !! name = Some ep' /\ DstToString ep' = DstToString ep /\
    probes p !! name = Some o /\ op_nonce o = n /\ probe_sent h1 name n.

Definition activated (h : list entry) (name : string) : Prop :=
  exists t p tx, (EvActivate name t, p, tx) ∈ h.

Definition succeeded (s : Scheduler) (name : string) : Prop :=
  exists c, candidates s !! name = Some c /\ c_LastSuccess c <> time_zero.

(** No change of the scheduler but those of an ack or an activation makes a
    candidate that never succeeded succeed. *)
Definition no_new_success (s s' : Scheduler) : Prop := forall name, succeeded s' name -> succeeded s name.

Lemma no_new_success_update name f s :
  (forall c, c_LastSuccess (f c) = c_LastSuccess c) -> no_new_success s (update_candidate name f s).
Proof.
  intros Hf n (c & Hc & Hl). simpl in Hc. rewrite lookup_alter in Hc. case_decide; [|by exists c].
  subst. apply fmap_Some in Hc as (c0 & Hc0 & ->). exists c0. by rewrite <-Hf.
Qed.

Lemma probe_miss_keeps_success name t s : no_new_success s (ProbeResult name 0 false t s).
Proof. by apply no_new_success_update. Qed.

(** What a step other than an acknowledgement may do: add outstanding probes
    it sends, to the path's endpoint. *)
Definition quiet (p : peer_state) (r : peer_state * list transmission) : Prop :=
  (forall name o, probes r.1 !! name = Some o -> probes p !! name = Some o \/
     exists ep, paths p !! name = Some ep /\
       ([EncodeControlFrame FramePathProbe (op_nonce o)], ep) ∈ r.2) /\
  no_new_success (scheduler p) (scheduler r.1) /\ paths r.1 = paths p.

Lemma quiet_refl p tx : quiet p (p, tx).
Proof. split_and!; simpl; [by left|by intros ?|done]. Qed.

Lemma quiet_trans p p1 tx1 p2 tx2 :
  quiet p (p1, tx1) -> quiet p1 (p2, tx2) -> quiet p (p2, tx1 ++ tx2).
Proof.
  intros (H1 & H2 & H3) (H4 & H5 & H6). simpl in *. split_and!; simpl; [|by intros n ?; apply H2, H5|congruence].
  intros name o Ho. destruct (H4 name o Ho) as [Ho'|(ep & Hep & Hin)].
  - destruct (H1 name o Ho') as [|(ep & Hep & Hin)]; [by left|right]. exists ep.
    split; [done|]. apply elem_of_app. by left.
  - right. exists ep. rewrite <-H3. split; [done|]. apply elem_of_app. by right.
Qed.

Lemma quiet_scheduler p f : no_new_success (scheduler p) f -> quiet p (with_scheduler f p, []).
Proof. intros Hf. split_and!; simpl; [by left|done|done]. Qed.

Lemma sendProbe_quiet e name p : quiet p (sendProbe e name p).
Proof.
  unfold sendProbe. destruct (paths p !! name) as [ep|] eqn:Ep; [|apply quiet_refl].
  destruct (nonce e name) as [n|]; [|apply quiet_refl]. split_and!; simpl; [|by intros ?|done].
  intros name' o. rewrite lookup_insert. case_decide; [|by left].
  intros [= <-]. subst. right. exists ep. split; [done|]. left.
Qed.

Lemma sendMTUProbe_quiet e name t p : quiet p (sendMTUProbe e name t p).
Proof.
  unfold sendMTUProbe. repeat case_match; try apply quiet_refl.
  split_and!; simpl; [by left|by intros ?|done].
Qed.

Lemma sendControlReply_quiet e ep frame p : quiet p (sendControlReply e ep frame p, []).
Proof.
  unfold sendControlReply. destruct (nameForEndpoint e ep p) as [name|]; [|apply quiet_refl].
  unfold ReserveControlSend. destruct (candidates _ !! name) as [c|]; [|apply quiet_refl].
  destruct (c_controlSending c); [apply quiet_refl|].
  split_and!; simpl; [by left| |done]. by apply no_new_success_update.
Qed.

Lemma forget_probe_quiet name p : quiet p (with_probes (delete name (probes p)) p, []).
Proof.
  split_and!; simpl; [|by intros ?|done]. intros n o [_ ?]%lookup_delete_Some. by left.
Qed.

Lemma probeOne_quiet e name p : quiet p (probeOne e name p).
Proof.
  unfold probeOne. destruct (probes p !! name) as [o|]; [|apply sendProbe_quiet].
  case_match; [apply quiet_refl|].
  set (p1 := with_probes (delete name (probes p)) p).
  pose proof (quiet_trans p p1 [] _ _ (forget_probe_quiet name p)
    (quiet_scheduler p1 _ (probe_miss_keeps_success name (now e) _))) as Hq.
  destruct (sendProbe _ _ _) as [p2 tx] eqn:Es. apply (quiet_trans _ _ _ _ _ Hq).
  rewrite <-Es. apply sendProbe_quiet.
Qed.

Lemma probe_names_quiet e names p : quiet p (probe_names e names p).
Proof.
  revert p. induction names as [|name names IH]; intros p; cbn [probe_names]; [apply quiet_refl|].
  assert (quiet p (if requiresActiveProbe name (scheduler p) then probeOne e name p else (p, []))) as Hq.
  { case_match; [apply probeOne_quiet|apply quiet_refl]. }
  destruct (if requiresActiveProbe _ _ then _ else _) as [p1 tx1].
  specialize (IH p1). destruct (probe_names e names p1) as [p2 tx2]. by eapply quiet_trans.
Qed.

Lemma reply_step_quiet i p : quiet p (reply_step i p).
Proof.
  unfold reply_step. destruct (replies p !! i); [|apply quiet_refl].
  split_and!; simpl; [by left| |done]. by apply no_new_success_update.
Qed.

Lemma duplicate_batch_quiet e carrier bufs alt d p :
  quiet p ((duplicate_batch e carrier bufs alt d p).1.2, (duplicate_batch e carrier bufs alt d p).2).
Proof.
  unfold duplicate_batch. case_match; [apply quiet_refl|]. destruct d; [|apply quiet_refl].
  destruct (paths p !! alt); [|apply quiet_refl].
  destruct (limiter_Allow _ _ _) as [ok l].
  assert (no_new_success (scheduler p) (RecordDuplication alt (batch_bytes bufs) ok (scheduler p))) as Hq.
  { apply no_new_success_update. by destruct ok. }
  destruct ok; (split_and!; simpl; [by left|exact Hq|done]).
Qed.

Lemma handle_mtu_ack_quiet e payload ep p : quiet p (handle_mtu_ack e payload ep p).
Proof.
  unfold handle_mtu_ack. destruct (DecodePathMTUAck payload) as [ack|]; [|apply quiet_refl].
  destruct (nameForEndpoint e ep p) as [name|]; [|apply quiet_refl].
  destruct (mtuProbes p !! name) as [o|]; [|apply quiet_refl].
  destruct (_ && _); [|apply quiet_refl].
  set (p1 := with_scheduler _ _).
  assert (quiet p (p1, [])) as Hq.
  { split_and!; simpl; [by left| |done]. unfold ReportDatagramMTU. case_match; [by intros ?|].
    apply no_new_success_update. intros c. by case_match. }
  case_match.
  - destruct Hq as (H1 & H2 & H3). by split_and!.
  - destruct (sendMTUProbe _ _ _ _) as [p2 tx] eqn:Es. apply (quiet_trans _ _ _ _ _ Hq).
    rewrite <-Es. apply sendMTUProbe_quiet.
Qed.

(** An acknowledgement does nothing new, or it answers the outstanding probe
    of the path it came over and only that path succeeds. *)
Lemma handle_ack_spec e payload ep p :
  quiet p (handle_ack e payload ep p) \/
  exists name o ep', paths p !! name = Some ep' /\ DstToString ep' = DstToString ep /\
    probes p !! name = Some o /\ op_nonce o = payload /\
    probes (handle_ack e payload ep p).1 !! name = None /\
    (forall n o', probes (handle_ack e payload ep p).1 !! n = Some o' -> probes p !! n = Some o') /\
    (forall n, succeeded (scheduler (handle_ack e payload ep p).1) n ->
       n = name \/ succeeded (scheduler p) n).
Proof.
  unfold handle_ack. destruct (nameForEndpoint e ep p) as [name|] eqn:En; [|left; apply quiet_refl].
  destruct (probes p !! name) as [o|] eqn:Eo; [|left; apply quiet_refl].
  case_bool_decide as Hn; [|left; apply quiet_refl]. right.
  apply nameForEndpoint_some in En as (ep' & Hep & Hd). exists name, o, ep'.
  set (p1 := with_scheduler _ _).
  assert (probes (sendMTUProbe e name minPathMTUProbe p1).1 = delete name (probes p) /\
    scheduler (sendMTUProbe e name minPathMTUProbe p1).1 = scheduler p1) as [E1 E2].
  { unfold sendMTUProbe. by repeat case_match. }
  rewrite E1, E2. split_and!; try done.
  - apply lookup_delete_eq.
  - by intros n o' [_ ?]%lookup_delete_Some.
  - intros n (c & Hc & Hl). simpl in Hc. rewrite lookup_alter in Hc. case_decide; [by left|].
    right. by exists c.
Qed.

Lemma handlePathControl_spec e typ payload ep p :
  quiet p (handlePathControl e typ payload ep p) \/
  typ = FramePathAck /\ handlePathControl e typ payload ep p = handle_ack e payload ep p.
Proof.
  unfold handlePathControl. destruct (Byte.eqb typ FramePathProbe).
  { left. destruct (ValidPathControl _ _); [apply sendControlReply_quiet|apply quiet_refl]. }
  destruct (Byte.eqb typ FramePathAck) eqn:Ea.
  { apply Byte.byte_dec_bl in Ea as ->.
    destruct (ValidPathControl _ _); [by right|left; apply quiet_refl]. }
  left. destruct (Byte.eqb typ FramePathMTUProbe).
  { destruct (pathMTU p); [|apply quiet_refl].
    destruct (DecodePathMTUProbe payload); [apply sendControlReply_quiet|apply quiet_refl]. }
  destruct (Byte.eqb typ FramePathMTUAck); [|apply quiet_refl].
  destruct (pathMTU p); [apply handle_mtu_ack_quiet|apply quiet_refl].
Qed.

(** Evidence only grows. *)
Lemma probe_sent_mono h h' name n : h ⊆ h' -> probe_sent h name n -> probe_sent h' name n.
Proof. intros Hsub (ev & p & tx & ep & Hin & H). exists ev, p, tx, ep. split; [by apply Hsub|done]. Qed.

Lemma ack_received_snoc h x name : ack_received h name -> ack_received (h ++ [x]) name.
Proof.
  intros (h1 & h2 & e & n & ep & p & tx & ep' & o & -> & H).
  exists h1, (h2 ++ [x]), e, n, ep, p, tx, ep', o. by rewrite <-app_assoc.
Qed.

Definition proven (h : list entry) (name : string) : Prop := activated h name \/ ack_received h name.

Lemma proven_snoc h x name : proven h name -> proven (h ++ [x]) name.
Proof.
  intros [(t & p & tx & Hin)|Ha]; [left; exists t, p, tx; set_solver|right].
  by apply ack_received_snoc.
Qed.

Definition evidence (h : list entry) (p : peer_state) : Prop :=
  (forall name o, probes p !! name = Some o -> probe_sent h name (op_nonce o)) /\
  (forall name, succeeded (scheduler p) name -> proven h name).

Lemma evidence_quiet h p ev r :
  evidence h p -> quiet p r -> peer_step ev p = r -> evidence (h ++ [(ev, p, r.2)]) r.1.
Proof.
  intros [Hp Hs] (Q1 & Q2 & Q3) Er.
  assert (h ⊆ h ++ [(ev, p, r.2)]) as Hsub by set_solver.
  split.
  - intros name o Ho. destruct (Q1 name o Ho) as [Ho'|(ep & Hep & Hin)].
    + apply (probe_sent_mono h); auto.
    + exists ev, p, r.2, ep. split_and!; [set_solver|done|by left].
  - intros name Hn. apply proven_snoc. auto.
Qed.

Lemma evidence_register h p e name kind ep :
  evidence h p ->
  evidence (h ++ [(EvRegister e name kind ep, p, (register_peer e name kind ep p).2)])
    (register_peer e name kind ep p).1.
Proof.
  intros [Hp Hs].
  set (p1 := with_scheduler (Register name kind (scheduler p)) (with_paths (<[name := ep]> (paths p)) p)).
  assert (no_new_success (scheduler p) (scheduler p1)) as Hns.
  { unfold p1. simpl. unfold Register. destruct (candidates _ !! name) eqn:E.
    - by apply no_new_success_update.
    - intros n (c & Hc & Hl). simpl in Hc. rewrite lookup_insert in Hc. case_decide; [by simplify_eq|].
      by exists c. }
  assert (quiet p1 (if negb (kind =? PathWSS)%string then sendProbe e name p1 else (p1, [])))
    as (Q1 & Q2 & Q3).
  { case_match; [apply sendProbe_quiet|apply quiet_refl]. }
  unfold register_peer. fold p1. destruct (if negb _ then _ else _) as [p2 tx]. simpl in *.
  split.
  - intros n o Ho. destruct (Q1 n o Ho) as [Ho'|(ep' & Hep & Hin)]; [apply (probe_sent_mono h); [set_solver|by apply Hp]|].
    exists (EvRegister e name kind ep), p, tx, ep'. split_and!; [set_solver|done|].
    simpl in Hep. rewrite lookup_insert in Hep. case_decide; [right; simplify_eq; eauto|by left].
  - intros n Hn. apply proven_snoc. by apply Hs, Hns, Q2.
Qed.

Lemma evidence_step h p ev :
  evidence h p -> evidence (h ++ [(ev, p, (peer_step ev p).2)]) (peer_step ev p).1.
Proof.
  intros He.
  assert (forall r, quiet p r -> peer_step ev p = r ->
    evidence (h ++ [(ev, p, (peer_step ev p).2)]) (peer_step ev p).1) as Hq.
  { intros r Hr Er. rewrite Er. by apply evidence_quiet. }
  destruct ev.
  - by apply evidence_register.
  - destruct He as [Hp Hs]. split; simpl.
    + intros n o Ho. apply (probe_sent_mono h); [set_solver|by apply Hp].
    + intros n Hn. assert (n = name \/ succeeded (scheduler p) n) as [->|Hn'].
      { destruct Hn as (c & Hc & Hl). unfold ActivateCarrier in Hc.
        destruct (candidates (scheduler p) !! name) eqn:E; [|right; by exists c].
        simpl in Hc. rewrite lookup_alter in Hc. case_decide; [by left|right; by exists c]. }
      * left. exists t, p, []. set_solver.
      * by apply proven_snoc, Hs.
  - eapply Hq; [|done]. apply quiet_scheduler. by apply no_new_success_update.
  - eapply Hq; [|done]. apply quiet_scheduler. by intros n ?.
  - destruct (handlePathControl_spec e typ payload ep p) as [Hc|[-> Hc]]; [by eapply Hq|].
    destruct (handle_ack_spec e payload ep p) as [Hk|(name & o & ep' & H1 & H2 & H3 & H4 & H5 & H6 & H7)].
    { eapply Hq; [exact Hk|done]. }
    cbn [peer_step]. rewrite Hc. destruct He as [Hp Hs].
    destruct (handle_ack e payload ep p) as [p' tx]. simpl in *.
    set (h' := h ++ _). assert (h ⊆ h') as Hsub by set_solver. split.
    + intros n o' Ho'. apply (probe_sent_mono h); auto.
    + intros n Hn. destruct (H7 n Hn) as [->|Hn']; [|apply proven_snoc; auto].
      right. exists h, [], e, payload, ep, p, tx, ep', o. split_and!; try done.
      rewrite <-H4. auto.
  - eapply Hq; [apply probe_names_quiet|done].
  - eapply Hq; [apply reply_step_quiet|done].
  - eapply Hq; [|done]. apply quiet_scheduler. unfold Select, selectLocked.
    intros n Hn. by repeat case_match.
  - eapply Hq; [apply (duplicate_batch_quiet e carrier bufs alternate true p)|].
    simpl. by destruct (duplicate_batch e carrier bufs alternate true p) as [[? ?] ?].
Qed.

(** *** Path MTU discovery and reply workers *)
Definition env_ok (e : env) : Prop := now e <> time_zero.

Definition event_ok (ev : event) : Prop :=
  match ev with
  | EvRegister e _ _ _ | EvControl e _ _ _ | EvProbeAll e => env_ok e
  | EvActivate _ t => t <> time_zero
  | EvSelect ord => ranges ord
  | _ => True
  end.

(** The scheduler changes that leave the MTUs and the reply flags alone. *)
Definition sched_still (s s' : Scheduler) : Prop := forall name,
  (succeeded s name -> succeeded s' name) /\
  match candidates s !! name, candidates s' !! name with
  | Some c, Some c' => c_DatagramMTU c' = c_DatagramMTU c /\ c_controlSending c' = c_controlSending c
  | None, Some c' => c_DatagramMTU c' = 1420 /\ c_controlSending c' = false
  | None, None => True
  | Some _, None => False
  end.

Lemma sched_still_refl s : sched_still s s.
Proof. intros name. split; [done|]. by destruct (candidates s !! name). Qed.

Lemma sched_still_trans s1 s2 s3 : sched_still s1 s2 -> sched_still s2 s3 -> sched_still s1 s3.
Proof.
  intros H1 H2 name. destruct (H1 name) as [? M1], (H2 name) as [? M2]. split; [auto|].
  destruct (candidates s1 !! name), (candidates s2 !! name), (candidates s3 !! name); naive_solver congruence.
Qed.

Lemma sched_still_update name f s :
  (forall c, candidates s !! name = Some c -> c_DatagramMTU (f c) = c_DatagramMTU c /\ c_controlSending (f c) = c_controlSending c /\
     (c_LastSuccess c <> time_zero -> c_LastSuccess (f c) <> time_zero)) ->
  sched_still s (update_candidate name f s).
Proof.
  intros Hf n. unfold succeeded. simpl. rewrite lookup_alter. case_decide as Hn.
  - subst. destruct (candidates s !! n) as [c|]; [|by split; [intros (? & ? & ?)|]].
    destruct (Hf c eq_refl) as (H1 & H2 & H3). split; [|done].
    intros (c' & [= <-] & Hl). exists (f c). auto.
  - split; [done|]. by destruct (candidates s !! n).
Qed.

Lemma Register_still name kind s : sched_still s (Register name kind s).
Proof.
  unfold Register. destruct (candidates s !! name) eqn:E; [by apply sched_still_update|].
  intros n. unfold succeeded. simpl. rewrite lookup_insert. case_decide as Hn.
  - subst. rewrite E. split; [by intros (? & ? & ?)|done].
  - split; [done|]. by destruct (candidates s !! n).
Qed.

Lemma ProbeResult_still name rtt ok t s : t <> time_zero -> sched_still s (ProbeResult name rtt ok t s).
Proof.
  intros Ht. apply sched_still_update. intros c _. unfold probe_result. destruct ok; simpl; [|done].
  destruct (0 <? rtt); simpl; [|done]. by destruct (c_RTT c =? 0).
Qed.

Lemma ActivateCarrier_still name t s : t <> time_zero -> sched_still s (ActivateCarrier name t s).
Proof.
  intros Ht. unfold ActivateCarrier. destruct (candidates s !! name); [|apply sched_still_refl].
  assert (sched_still s (update_candidate name (set_health true t 0) s)) as H; [|exact H].
  by apply sched_still_update.
Qed.

Lemma Select_still ord s : sched_still s (Select ord s).2.
Proof.
  assert (candidates (Select ord s).2 = candidates s) as E
    by (unfold Select, selectLocked; by repeat case_match).
  intros name. unfold succeeded. rewrite E. split; [done|]. by destruct (candidates s !! name).
Qed.

Definition still (p p' : peer_state) : Prop :=
  mtuProbes p' = mtuProbes p /\ mtuDone p' = mtuDone p /\ pathMTU p' = pathMTU p /\
  replies p' = replies p /\ sched_still (scheduler p) (scheduler p') /\
  (forall name, is_Some (paths p' !! name) ->
     is_Some (paths p !! name) \/ is_Some (candidates (scheduler p') !! name)).

Lemma still_intro p p' :
  mtuProbes p' = mtuProbes p -> mtuDone p' = mtuDone p -> pathMTU p' = pathMTU p ->
  replies p' = replies p -> sched_still (scheduler p) (scheduler p') -> paths p' = paths p -> still p p'.
Proof. intros ? ? ? ? ? E. split_and!; try done. intros name. rewrite E. by left. Qed.

Lemma still_refl p : still p p.
Proof. apply still_intro; try done. apply sched_still_refl. Qed.

Lemma sched_still_mono s s' name :
  sched_still s s' -> is_Some (candidates s !! name) -> is_Some (candidates s' !! name).
Proof.
  intros Hs [c Hc]. destruct (Hs name) as [_ Hm]. rewrite Hc in Hm.
  by destruct (candidates s' !! name).
Qed.

Lemma still_trans p1 p2 p3 : still p1 p2 -> still p2 p3 -> still p1 p3.
Proof.
  intros (? & ? & ? & ? & ? & P1) (? & ? & ? & ? & ? & P2). split_and!; try congruence.
  - by eapply sched_still_trans.
  - intros name [Hp|Hp]%P2; [|by right]. destruct (P1 name Hp) as [|Hc]; [by left|right].
    by eapply sched_still_mono.
Qed.

Lemma still_scheduler p s : sched_still (scheduler p) s -> still p (with_scheduler s p).
Proof. intros. by apply still_intro. Qed.

Lemma sendProbe_still e name p : still p (sendProbe e name p).1.
Proof. unfold sendProbe. repeat case_match; apply still_intro; try done; apply sched_still_refl. Qed.

Lemma probeOne_still e name p : env_ok e -> still p (probeOne e name p).1.
Proof.
  intros He. unfold probeOne. destruct (probes p !! name) as [o|]; [|apply sendProbe_still].
  case_match; [apply still_refl|]. eapply still_trans; [|apply sendProbe_still].
  apply still_intro; try done. by apply ProbeResult_still.
Qed.

Lemma probe_names_still e names p : env_ok e -> still p (probe_names e names p).1.
Proof.
  intros He. revert p. induction names as [|name names IH]; intros p; cbn [probe_names]; [apply still_refl|].
  assert (still p (if requiresActiveProbe name (scheduler p) then probeOne e name p else (p, [])).1) as Hq.
  { case_match; [by apply probeOne_still|apply still_refl]. }
  destruct (if requiresActiveProbe _ _ then _ else _) as [p1 tx1].
  specialize (IH p1). destruct (probe_names e names p1) as [p2 tx2]. by eapply still_trans.
Qed.

Lemma register_peer_still e name kind ep p : still p (register_peer e name kind ep p).1.
Proof.
  unfold register_peer. set (p1 := with_scheduler _ _).
  assert (still p p1) as H.
  { split_and!; try done; [apply Register_still|]. intros n. simpl. rewrite lookup_insert.
    case_decide; [subst|by left]. right. unfold Register.
    destruct (candidates (scheduler p) !! n) eqn:E; unfold update_candidate; simpl;
      [by rewrite lookup_alter_eq, E|by rewrite lookup_insert_eq]. }
  case_match; [|done]. eapply still_trans; [exact H|apply sendProbe_still].
Qed.

Lemma duplicate_batch_still e carrier bufs alt d p : still p (duplicate_batch e carrier bufs alt d p).1.2.
Proof.
  unfold duplicate_batch. case_match; [apply still_refl|]. destruct d; [|apply still_refl].
  destruct (paths p !! alt); [|apply still_refl]. destruct (limiter_Allow _ _ _) as [ok l].
  assert (still p (with_scheduler (RecordDuplication alt (batch_bytes bufs) ok (scheduler p)) (with_limiter l p))) as Hq.
  { apply still_intro; try done. apply sched_still_update. intros c _. by destruct ok. }
  by destruct ok.
Qed.

(** Probing comes after proof of life, once at a time, and the status shows
    1420 until the largest size is confirmed. *)
Definition mtu_ok (p : peer_state) : Prop :=
  (forall name o, mtuProbes p !! name = Some o ->
     pathMTU p = true /\ succeeded (scheduler p) name /\ (name ∉ mtuDone p) /\
     (om_target o = 1200 \/ om_target o = 1400 \/ om_target o = 1500)) /\
  (forall name c, candidates (scheduler p) !! name = Some c ->
     c_DatagramMTU c = if decide (name ∈ mtuDone p) then 1500 else 1420) /\
  (forall name, name ∈ mtuDone p -> succeeded (scheduler p) name) /\
  (forall name, is_Some (paths p !! name) -> is_Some (candidates (scheduler p) !! name)).

Lemma mtu_ok_still p p' : still p p' -> mtu_ok p -> mtu_ok p'.
Proof.
  intros (E1 & E2 & E3 & _ & Hs & Hp) (M1 & M2 & M3 & M4). split_and!.
  - intros name o. rewrite E1, E2, E3. intros Ho. destruct (M1 name o Ho) as (? & ? & ? & ?).
    split_and!; try done. by apply Hs.
  - intros name c' Hc'. rewrite E2. destruct (Hs name) as [_ Hm]. rewrite Hc' in Hm.
    destruct (candidates (scheduler p) !! name) as [c|] eqn:E.
    + destruct Hm as [-> _]. by apply M2.
    + destruct Hm as [-> _]. rewrite decide_False; [done|]. intros (c & Hc & _)%M3. congruence.
  - intros name. rewrite E2. intros Hn. by apply Hs, M3.
  - intros name [Hn|Hn]%Hp; [|done]. by eapply sched_still_mono, M4.
Qed.

Lemma sendMTUProbe_ok e name t p :
  mtu_ok p -> succeeded (scheduler p) name -> t = 1200 \/ t = 1400 \/ t = 1500 ->
  mtu_ok (sendMTUProbe e name t p).1.
Proof.
  intros (M1 & M2 & M3 & M4) Hs Ht. unfold sendMTUProbe. destruct (_ || _) eqn:Ep; [by split_and!|].
  destruct (paths p !! name); [|by split_and!]. destruct (nonce e name); [|by split_and!].
  case_bool_decide as Hd; [by split_and!|]. case_bool_decide; [by split_and!|].
  split_and!; simpl; [|done|done|done]. intros n o. rewrite lookup_insert. case_decide; [|by apply M1].
  subst. intros [= <-]. bool_to_prop. by split_and!.
Qed.


Lemma ProbeResult_succeeds name rtt t s :
  t <> time_zero -> is_Some (candidates s !! name) -> succeeded (ProbeResult name rtt true t s) name.
Proof.
  intros Ht [c Hc]. exists (probe_result rtt true t c).
  split; [simpl; by rewrite lookup_alter_eq, Hc|].
  unfold probe_result. simpl. case_match; simpl; [|exact Ht]. by case_match.
Qed.

Lemma handle_ack_mtu_ok e payload ep p :
  env_ok e -> mtu_ok p -> mtu_ok (handle_ack e payload ep p).1.
Proof.
  intros He Hm. unfold handle_ack. destruct (nameForEndpoint e ep p) as [name|] eqn:En; [|done].
  destruct (probes p !! name) as [o|]; [|done]. case_bool_decide; [|done].
  set (p1 := with_scheduler _ _).
  assert (still p p1) as Hs by (apply still_intro; try done; by apply ProbeResult_still).
  apply sendMTUProbe_ok; [by apply (mtu_ok_still p)| |by left].
  apply ProbeResult_succeeds; [done|]. apply nameForEndpoint_some in En as (ep' & Hep & _).
  simpl. by apply Hm; exists ep'.
Qed.

Lemma handle_mtu_ack_ok e payload ep p :
  mtu_ok p -> mtu_ok (handle_mtu_ack e payload ep p).1.
Proof.
  intros Hm. pose proof Hm as (M1 & M2 & M3 & M4). unfold handle_mtu_ack.
  destruct (DecodePathMTUAck payload) as [ack|]; [|done].
  destruct (nameForEndpoint e ep p) as [name|]; [|done].
  destruct (mtuProbes p !! name) as [o|] eqn:Eo; [|done].
  destruct (_ && _) eqn:Et; [|done]. bool_to_prop.
  destruct (M1 name o Eo) as (Hen & Hsu & Hnd & Ht). rewrite H in Ht.
  destruct Hsu as (c & Hc & Hl). pose proof (M2 name c Hc) as Hmtu. rewrite decide_False in Hmtu by done.
  set (p1 := with_mtu (delete name (mtuProbes p)) (mtuDone p) p).
  assert (mtu_ok p1) as Hm1.
  { split_and!; simpl; try done. by intros n o' [_ ?]%lookup_delete_Some; apply M1. }
  assert (forall t, t = 1200 \/ t = 1400 ->
    mtu_ok (with_scheduler (ReportDatagramMTU name t (scheduler p1)) p1)) as Hsmall.
  { intros t Hsm. apply (mtu_ok_still p1); [|done]. apply still_scheduler.
    unfold ReportDatagramMTU, minPathMTUProbe, MaxRelayDatagram.
    destruct (_ || _); [apply sched_still_refl|]. apply sched_still_update. intros c' Hc'.
    simpl in Hc'. simplify_eq. rewrite (proj2 (Z.ltb_ge _ _)) by lia. done. }
  assert (succeeded (scheduler p1) name) as Hsu1 by (by exists c).
  assert (forall t, t = 1200 \/ t = 1400 -> succeeded (ReportDatagramMTU name t (scheduler p1)) name) as Hsu2.
  { intros t Hsm. unfold ReportDatagramMTU. destruct (_ || _); [done|].
    eexists. split; [simpl; by rewrite lookup_alter_eq, Hc|]. by case_match. }
  destruct Ht as [E|[E|E]]; rewrite E; cbv zeta.
  - change (nextPathMTUProbe 1200 =? 0) with false. apply sendMTUProbe_ok; [auto|apply Hsu2; auto|auto].
  - change (nextPathMTUProbe 1400 =? 0) with false. apply sendMTUProbe_ok; [auto|apply Hsu2; auto|auto].
  - change (nextPathMTUProbe 1500 =? 0) with true. cbv iota.
    change (scheduler p1) with (scheduler p) in *.
    assert (candidates (ReportDatagramMTU name 1500 (scheduler p)) =
      <[name := set_mtu 1500 c]> (candidates (scheduler p))) as Hc'.
    { unfold ReportDatagramMTU, update_candidate. simpl.
      rewrite <-(insert_id (candidates (scheduler p)) name c Hc) at 1.
      rewrite alter_insert_eq, Hmtu. done. }
    set (s' := ReportDatagramMTU name 1500 (scheduler p)) in *.
    assert (forall n, succeeded (scheduler p) n -> succeeded s' n) as Hmono.
    { intros n (c' & Hcn & Hln). unfold succeeded. rewrite Hc', lookup_insert.
      case_decide; [|by exists c']. subst. simplify_eq. by eexists. }
    clearbody s'. split_and!; simpl.
    + intros n o' [Hne Ho']%lookup_delete_Some. destruct (M1 n o' Ho') as (? & ? & ? & ?).
      split_and!; [done|by apply Hmono|set_solver|done].
    + intros n c' Hcn. rewrite Hc', lookup_insert in Hcn. case_decide; [subst; simplify_eq|].
      * by rewrite decide_True by set_solver.
      * rewrite (M2 n c' Hcn). apply decide_ext. set_solver.
    + intros n [->%elem_of_singleton|Hn]%elem_of_union; apply Hmono; [by exists c|by apply M3].
    + intros n Hn. rewrite Hc', lookup_insert. case_decide; [by eexists|by apply M4].
Qed.

(** At most one reply worker runs per path, the one its flag announces. *)
Definition replies_ok (p : peer_state) : Prop :=
  NoDup (r_name <$> replies p) /\
  forall name, (exists c, candidates (scheduler p) !! name = Some c /\ c_controlSending c = true) <->
    name ∈ r_name <$> replies p.

Lemma replies_ok_still p p' : still p p' -> replies_ok p -> replies_ok p'.
Proof.
  intros (_ & _ & _ & E & Hs & _) [R1 R2]. split; rewrite E; [done|]. intros name. rewrite <-R2.
  destruct (Hs name) as [_ Hm]. split; intros (c & Hc & Hf); rewrite Hc in Hm.
  - destruct (candidates (scheduler p) !! name) as [c0|]; [|destruct Hm; congruence].
    exists c0. split; [done|]. destruct Hm. congruence.
  - destruct (candidates (scheduler p') !! name) as [c0|]; [|done].
    exists c0. split; [done|]. destruct Hm. congruence.
Qed.

(** The MTU state does not depend on the reply workers. *)
Lemma mtu_ok_replies p s rs :
  (forall name, option_map c_DatagramMTU (candidates s !! name) =
     option_map c_DatagramMTU (candidates (scheduler p) !! name) /\
     option_map c_LastSuccess (candidates s !! name) =
     option_map c_LastSuccess (candidates (scheduler p) !! name)) ->
  mtu_ok p -> mtu_ok (with_replies rs (with_scheduler s p)).
Proof.
  intros Hs (M1 & M2 & M3 & M4).
  assert (forall n, succeeded (scheduler p) n -> succeeded s n) as Hm.
  { intros n (c & Hc & Hl). destruct (Hs n) as [_ E]. rewrite Hc in E.
    destruct (candidates s !! n) as [c'|] eqn:E'; [|done]. exists c'. simpl in E. split; congruence. }
  split_and!; simpl.
  - intros n o Ho. destruct (M1 n o Ho) as (? & ? & ? & ?). auto.
  - intros n c Hc. destruct (Hs n) as [E _]. rewrite Hc in E.
    destruct (candidates (scheduler p) !! n) as [c'|] eqn:E'; [|done]. simpl in E.
    rewrite <-(M2 n c' E'). congruence.
  - auto.
  - intros n Hn. destruct (M4 n Hn) as [c Hc]. destruct (Hs n) as [E _]. rewrite Hc in E.
    by destruct (candidates s !! n).
Qed.

Lemma set_sending_fields b name s : forall n,
  option_map c_DatagramMTU (candidates (update_candidate name (set_sending b) s) !! n) =
    option_map c_DatagramMTU (candidates s !! n) /\
  option_map c_LastSuccess (candidates (update_candidate name (set_sending b) s) !! n) =
    option_map c_LastSuccess (candidates s !! n).
Proof.
  intros n. simpl. rewrite lookup_alter. case_decide; [subst|done]. by destruct (candidates s !! n).
Qed.

Definition peer_ok (p : peer_state) : Prop := mtu_ok p /\ replies_ok p.

Lemma peer_ok_still p p' : still p p' -> peer_ok p -> peer_ok p'.
Proof. intros Hs [Hm Hr]. split; [by eapply mtu_ok_still|by eapply replies_ok_still]. Qed.

Lemma sendControlReply_ok e ep frame p : peer_ok p -> peer_ok (sendControlReply e ep frame p).
Proof.
  intros [Hm [R1 R2]]. unfold sendControlReply.
  destruct (nameForEndpoint e ep p) as [name|]; [|done]. unfold ReserveControlSend.
  destruct (candidates (scheduler p) !! name) as [c|] eqn:Ec; [|done].
  destruct (c_controlSending c) eqn:Ef; [done|].
  split; [apply mtu_ok_replies; [apply set_sending_fields|done]|].
  assert (name ∉ r_name <$> replies p) as Hn.
  { rewrite <-R2. intros (c' & Hc' & Hf). congruence. }
  split; simpl; rewrite fmap_app.
  - apply NoDup_app. split_and!; [done| |apply NoDup_singleton]. simpl. set_solver.
  - intros n. rewrite lookup_alter, elem_of_app. simpl. rewrite list_elem_of_singleton, <-R2.
    case_decide; [|naive_solver]. subst. rewrite Ec. split; [by right|]. intros _. by eexists.
Qed.

Lemma reply_step_ok i p : peer_ok p -> peer_ok (reply_step i p).1.
Proof.
  intros [Hm [R1 R2]]. unfold reply_step. destruct (replies p !! i) as [r|] eqn:Er; [|done].
  split; [apply mtu_ok_replies; [apply set_sending_fields|done]|].
  pose proof (delete_Permutation (replies p) i r Er) as Hperm.
  assert (r_name <$> replies p ≡ₚ r_name r :: (r_name <$> delete i (replies p))) as Hp
    by (by rewrite Hperm at 1).
  rewrite Hp in R1. apply NoDup_cons in R1 as [Hni Hnd]. split; simpl; [done|].
  intros n. specialize (R2 n). rewrite Hp, elem_of_cons in R2. rewrite lookup_alter.
  case_decide as Hn.
  - subst. split; [|done]. intros (c & Hc & Hf). by apply fmap_Some in Hc as (? & _ & ->).
  - rewrite R2. naive_solver.
Qed.

(** The MTU handlers leave the workers alone. *)
Lemma sendMTUProbe_replies e name t p :
  replies (sendMTUProbe e name t p).1 = replies p /\ scheduler (sendMTUProbe e name t p).1 = scheduler p.
Proof. unfold sendMTUProbe. by repeat case_match. Qed.

Lemma replies_ok_flags p p' :
  replies p' = replies p ->
  (forall n, option_map c_controlSending (candidates (scheduler p') !! n) =
     option_map c_controlSending (candidates (scheduler p) !! n)) ->
  replies_ok p -> replies_ok p'.
Proof.
  intros E Hf [R1 R2]. split; rewrite E; [done|]. intros n. rewrite <-R2. specialize (Hf n).
  split; intros (c & Hc & Hs); rewrite Hc in Hf; simpl in Hf;
    [destruct (candidates (scheduler p) !! n) as [c'|]|destruct (candidates (scheduler p') !! n) as [c'|]];
    try done; exists c'; simpl in Hf; split; congruence.
Qed.

Lemma handle_ack_replies e payload ep p :
  env_ok e -> replies_ok p -> replies_ok (handle_ack e payload ep p).1.
Proof.
  intros He Hr. unfold handle_ack. destruct (nameForEndpoint e ep p) as [name|]; [|done].
  destruct (probes p !! name) as [o|]; [|done]. case_bool_decide; [|done].
  set (p1 := with_scheduler _ _).
  destruct (sendMTUProbe_replies e name minPathMTUProbe p1) as [E1 E2].
  apply (replies_ok_flags p1); [done|by rewrite E2|].
  apply (replies_ok_still p); [|done]. apply still_intro; try done. by apply ProbeResult_still.
Qed.

Lemma handle_mtu_ack_replies e payload ep p :
  replies_ok p -> replies_ok (handle_mtu_ack e payload ep p).1.
Proof.
  intros Hr. unfold handle_mtu_ack. destruct (DecodePathMTUAck payload) as [ack|]; [|done].
  destruct (nameForEndpoint e ep p) as [name|]; [|done].
  destruct (mtuProbes p !! name) as [o|]; [|done]. destruct (_ && _); [|done].
  set (p1 := with_scheduler _ _).
  assert (replies_ok p1) as Hr1.
  { apply (replies_ok_flags p); [done| |done]. intros n. unfold p1, ReportDatagramMTU. simpl.
    case_match; [done|]. simpl. rewrite lookup_alter. case_decide; [subst|done].
    destruct (candidates (scheduler p) !! n); simpl; [|done]. by case_match. }
  case_match; [exact Hr1|].
  destruct (sendMTUProbe_replies e name (nextPathMTUProbe (Target ack)) p1) as [E1 E2].
  apply (replies_ok_flags p1); [done|by rewrite E2|done].
Qed.

Lemma handlePathControl_ok e typ payload ep p :
  env_ok e -> peer_ok p -> peer_ok (handlePathControl e typ payload ep p).1.
Proof.
  intros He Hp. unfold handlePathControl.
  repeat case_match; try exact Hp; try (by apply sendControlReply_ok); destruct Hp as [Hm Hr]; split.
  - by apply handle_ack_mtu_ok.
  - by apply handle_ack_replies.
  - by apply handle_mtu_ack_ok.
  - by apply handle_mtu_ack_replies.
Qed.

Lemma peer_step_ok ev p : event_ok ev -> peer_ok p -> peer_ok (peer_step ev p).1.
Proof.
  intros He Hp. destruct ev; simpl in *.
  - eapply peer_ok_still; [apply register_peer_still|done].
  - eapply peer_ok_still; [apply still_scheduler, (ActivateCarrier_still name t); done|done].
  - eapply peer_ok_still; [apply still_scheduler, sched_still_update; by intros|done].
  - eapply peer_ok_still; [apply still_scheduler|done]. intros n. split; [done|]. simpl.
    by destruct (candidates _ !! n).
  - by apply handlePathControl_ok.
  - eapply peer_ok_still; [by apply probe_names_still|done].
  - by apply reply_step_ok.
  - eapply peer_ok_still; [apply still_scheduler, Select_still|done].
  - pose proof (duplicate_batch_still e carrier bufs alternate true p) as Hs.
    destruct (duplicate_batch _ _ _ _ _ _) as [[? p'] tx]. by eapply peer_ok_still.
Qed.

Lemma new_peer_ok mtu rate t : peer_ok (new_peer mtu rate t).
Proof.
  split; [split_and!|split]; simpl; try done.
  - intros n [? ?]. set_solver.
  - constructor.
  - intros n. split; [intros (? & ? & ?); set_solver|]. by intros ?%elem_of_nil.
Qed.

(** What a reply answers. *)
Definition answers (typ : byte) (payload frame : list byte) : Prop :=
  (typ = FramePathProbe /\ frame = EncodeControlFrame FramePathAck payload /\ length payload = 12%nat) \/
  (typ = FramePathMTUProbe /\ exists pr, DecodePathMTUProbe payload = Some pr /\
     frame = EncodeControlFrame FramePathMTUAck (EncodePathMTUAck (Nonce pr) (Target pr))).

Lemma answers_bounded typ payload frame :
  answers typ payload frame -> Zlen frame <= Zlen (EncodeControlFrame typ payload).
Proof.
  assert (forall t b, Zlen (EncodeControlFrame t b) = 5 + Zlen b) as Hf.
  { intros t b. unfold EncodeControlFrame. rewrite Zlen_app, Zlen_cons. change (Zlen controlMagic) with 4. lia. }
  intros [(_ & -> & _)|(_ & pr & Hd & ->)]; rewrite !Hf; [lia|].
  unfold DecodePathMTUProbe, pathProbeSize in Hd. destruct (Zlen payload <? 12 + 2) eqn:E; [done|].
  case_match; [|done]. simplify_eq. simpl. unfold EncodePathMTUAck. bool_to_prop.
  rewrite Zlen_app. unfold Zlen in *. rewrite length_take. change (length (put_le16 _)) with 2%nat. lia.
Qed.

(** Every worker was started by a frame it answers, received from the
    endpoint it sends to, which was registered under the worker's name. *)
Definition reply_from (h : list entry) (r : reply) : Prop :=
  exists e typ payload p tx ep', (EvControl e typ payload (r_ep r), p, tx) ∈ h /\
    answers typ payload (r_frame r) /\
    paths p !! r_name r = Some ep' /\ DstToString ep' = DstToString (r_ep r).

Lemma sendControlReply_new e ep frame p r :
  r ∈ replies (sendControlReply e ep frame p) ->
  r ∈ replies p \/ (r_ep r = ep /\ r_frame r = frame /\
    exists ep', paths p !! r_name r = Some ep' /\ DstToString ep' = DstToString ep).
Proof.
  unfold sendControlReply. destruct (nameForEndpoint e ep p) as [name|] eqn:En; [|by left].
  destruct (ReserveControlSend _ _) as [[] s]; [|by left]. simpl.
  rewrite elem_of_app, list_elem_of_singleton. intros [?| ->]; [by left|right]. simpl.
  split_and!; [done|done|]. by apply nameForEndpoint_some in En.
Qed.

Lemma handlePathControl_new e typ payload ep p r :
  r ∈ replies (handlePathControl e typ payload ep p).1 ->
  r ∈ replies p \/ (r_ep r = ep /\ answers typ payload (r_frame r) /\
    exists ep', paths p !! r_name r = Some ep' /\ DstToString ep' = DstToString ep).
Proof.
  unfold handlePathControl. destruct (Byte.eqb typ FramePathProbe) eqn:E1.
  { apply Byte.byte_dec_bl in E1 as ->. destruct (ValidPathControl _ _) eqn:Ev; [|by left].
    intros [?|(? & Hf & ?)]%sendControlReply_new; [by left|right]. split_and!; try done. left.
    split_and!; try done. unfold ValidPathControl in Ev. bool_to_prop. unfold Zlen, pathProbeSize in *. lia. }
  destruct (Byte.eqb typ FramePathAck).
  { destruct (ValidPathControl _ _); [|by left]. left. revert H. unfold handle_ack.
    destruct (nameForEndpoint _ _ _) as [name|]; [|done]. destruct (probes p !! name); [|done].
    case_bool_decide; [|done]. by rewrite (proj1 (sendMTUProbe_replies _ _ _ _)). }
  destruct (Byte.eqb typ FramePathMTUProbe) eqn:E3.
  { apply Byte.byte_dec_bl in E3 as ->. destruct (pathMTU p); [|by left].
    destruct (DecodePathMTUProbe payload) as [pr|] eqn:Ed; [|by left].
    intros [?|(? & Hf & ?)]%sendControlReply_new; [by left|right]. split_and!; try done. right. eauto. }
  destruct (Byte.eqb typ FramePathMTUAck); [|by left]. destruct (pathMTU p); [|by left].
  left. revert H. unfold handle_mtu_ack. destruct (DecodePathMTUAck payload) as [ack|]; [|done].
  destruct (nameForEndpoint _ _ _) as [name|]; [|done]. destruct (mtuProbes p !! name); [|done].
  destruct (_ && _); [|done]. case_match; [done|]. by rewrite (proj1 (sendMTUProbe_replies _ _ _ _)).
Qed.

Lemma peer_step_new ev p r :
  event_ok ev -> r ∈ replies (peer_step ev p).1 ->
  r ∈ replies p \/ exists e typ payload, ev = EvControl e typ payload (r_ep r) /\
    answers typ payload (r_frame r) /\
    exists ep', paths p !! r_name r = Some ep' /\ DstToString ep' = DstToString (r_ep r).
Proof.
  intros He. destruct ev; simpl in *; try (by left).
  - rewrite (proj1 (proj2 (proj2 (proj2 (register_peer_still e name kind ep p))))). by left.
  - intros [?|(<- & ? & ?)]%handlePathControl_new; [by left|right]. eauto 10.
  - unfold probeAll. rewrite (proj1 (proj2 (proj2 (proj2 (probe_names_still e (order e (paths p)) p He))))). by left.
  - unfold reply_step. destruct (replies p !! i) as [r0|] eqn:Er; [|by left]. simpl. left.
    by eapply list_elem_of_delete_inv.
  - pose proof (duplicate_batch_still e carrier bufs alternate true p) as (_ & _ & _ & E & _).
    destruct (duplicate_batch _ _ _ _ _ _) as [[? p'] tx]. simpl in *. rewrite E. by left.
Qed.

(** C37: A path succeeds only when the carrier was declared live, or when an
    acknowledgement came back over the very endpoint registered for it with
    the nonce of the probe outstanding there, and that nonce had earlier been
    sent to the path.  No other event, control frame or timeout marks a path
    as working. *)
Theorem probe_authentic mtu rate t0 evs :
  let '(h, p) := history evs (new_peer mtu rate t0) in
  (forall name, succeeded (scheduler p) name -> activated h name \/ ack_received h name) /\
  (forall name o, probes p !! name = Some o -> probe_sent h name (op_nonce o)).
Proof.
  assert (evidence (history evs (new_peer mtu rate t0)).1 (history evs (new_peer mtu rate t0)).2) as [H1 H2].
  { apply history_ind; [|intros; by apply evidence_step].
    split; simpl; [done|]. intros n (c & Hc & _). done. }
  destruct (history evs _) as [h p]. by split.
Qed.

(** At most one reply per path is in flight, however many probes come
    in; each reply answers one received frame, is sent to the endpoint the
    frame came from, which must be a registered path, and is no longer than
    the frame: a probe can neither queue work nor be used to amplify. *)
Theorem replies_bounded mtu rate t0 evs (Hev : Forall event_ok evs) :
  let '(h, p) := history evs (new_peer mtu rate t0) in
  NoDup (r_name <$> replies p) /\
  (forall name, (exists c, candidates (scheduler p) !! name = Some c /\ c_controlSending c = true) <->
     name ∈ r_name <$> replies p) /\
  (forall r, r ∈ replies p -> exists e typ payload pst tx ep',
     (EvControl e typ payload (r_ep r), pst, tx) ∈ h /\
     paths pst !! r_name r = Some ep' /\ DstToString ep' = DstToString (r_ep r) /\
     answers typ payload (r_frame r) /\
     Zlen (r_frame r) <= Zlen (EncodeControlFrame typ payload)).
Proof.
  set (P := fun (h : list entry) p => peer_ok p /\ forall r, r ∈ replies p -> reply_from h r).
  assert (P (history evs (new_peer mtu rate t0)).1 (history evs (new_peer mtu rate t0)).2) as [[_ [R1 R2]] Hf].
  { apply history_ind.
    - split; [apply new_peer_ok|]. by intros r ?%elem_of_nil.
    - intros h p ev Hin [Hp Hr]. rewrite Forall_forall in Hev. specialize (Hev ev Hin).
      split; [by apply peer_step_ok|]. intros r Hr'.
      destruct (peer_step_new ev p r Hev Hr') as [Hold|(e & typ & payload & -> & Ha & ep' & He & Hd)].
      + destruct (Hr r Hold) as (e & typ & payload & q & tx & ep' & Hin' & H).
        exists e, typ, payload, q, tx, ep'. split; [set_solver|done].
      + exists e, typ, payload, p, (peer_step (EvControl e typ payload (r_ep r)) p).2, ep'.
        split; [set_solver|done]. }
  destruct (history evs _) as [h p]. split_and!; [done|done|].
  intros r Hr. destruct (Hf r Hr) as (e & typ & payload & q & tx & ep' & Hin & Ha & He & Hd).
  exists e, typ, payload, q, tx, ep'. split_and!; try done. by apply answers_bounded.
Qed.

(** *** A size probe that stays unanswered *)
Definition unanswered (o : outstandingMTUProbe) (ev : event) : Prop :=
  match ev with
  | EvControl _ typ payload _ => forall ack, typ = FramePathMTUAck -> DecodePathMTUAck payload = Some ack ->
      om_target o = Target ack -> om_nonce o <> Nonce ack
  | _ => True
  end.

Lemma sendMTUProbe_keeps e n t p name o :
  mtuProbes p !! name = Some o -> mtuProbes (sendMTUProbe e n t p).1 !! name = Some o.
Proof.
  intros Ho. unfold sendMTUProbe. repeat case_match; try done. simpl.
  rewrite lookup_insert_ne; [done|]. intros ->.
  match goal with H : bool_decide (is_Some _) = false |- _ => apply bool_decide_eq_false in H; apply H end.
  by exists o.
Qed.

Lemma peer_step_keeps ev p name o :
  event_ok ev -> unanswered o ev -> mtuProbes p !! name = Some o ->
  mtuProbes (peer_step ev p).1 !! name = Some o.
Proof.
  intros He Hu Ho. destruct ev; simpl in *; try done.
  - by rewrite (proj1 (register_peer_still e name0 kind ep p)).
  - unfold handlePathControl. destruct (Byte.eqb typ FramePathProbe).
    { destruct (ValidPathControl _ _); [|done]. simpl. unfold sendControlReply.
      repeat case_match; done. }
    destruct (Byte.eqb typ FramePathAck).
    { destruct (ValidPathControl _ _); [|done]. unfold handle_ack. repeat case_match; try done.
      by apply sendMTUProbe_keeps. }
    destruct (Byte.eqb typ FramePathMTUProbe).
    { destruct (pathMTU p); [|done]. destruct (DecodePathMTUProbe _); [|done]. simpl.
      unfold sendControlReply. repeat case_match; done. }
    destruct (Byte.eqb typ FramePathMTUAck) eqn:E; [|done]. apply Byte.byte_dec_bl in E as ->.
    destruct (pathMTU p); [|done]. unfold handle_mtu_ack.
    destruct (DecodePathMTUAck payload) as [ack|]; [|done].
    destruct (nameForEndpoint _ _ _) as [n|]; [|done].
    destruct (mtuProbes p !! n) as [o'|] eqn:Eo; [|done]. destruct (_ && _) eqn:Em; [|done].
    assert (n <> name) as Hne.
    { intros ->. simplify_eq. bool_to_prop. by apply (Hu ack). }
    case_match; simpl; [by rewrite lookup_delete_ne|].
    apply sendMTUProbe_keeps. simpl. by rewrite lookup_delete_ne.
  - unfold probeAll. by rewrite (proj1 (probe_names_still e (order e (paths p)) p He)).
  - unfold reply_step. by destruct (replies p !! i).
  - pose proof (duplicate_batch_still e carrier bufs alternate true p) as (E & _).
    destruct (duplicate_batch _ _ _ _ _ _) as [[? p'] tx]. simpl in *. by rewrite E.
Qed.

(** Path MTU discovery probes a path one size at a time, only once the
    path has proven itself and never again when it is done; the reported
    [DatagramMTU] is 1500 exactly for the paths that are done and 1420 for
    every other, probed or not.  A size probe whose answer is lost is never
    repeated: until the matching acknowledgement comes the path keeps that
    probe outstanding, sends no other and stays at 1420. *)
Theorem mtu_discovery mtu rate t0 evs (Hev : Forall event_ok evs) :
  let p := (history evs (new_peer mtu rate t0)).2 in
  (forall name o, mtuProbes p !! name = Some o ->
     pathMTU p = true /\ succeeded (scheduler p) name /\ (name ∉ mtuDone p) /\
     (om_target o = 1200 \/ om_target o = 1400 \/ om_target o = 1500)) /\
  (forall name c, candidates (scheduler p) !! name = Some c ->
     c_DatagramMTU c = if decide (name ∈ mtuDone p) then 1500 else 1420) /\
  (forall name o evs', mtuProbes p !! name = Some o -> Forall event_ok evs' -> Forall (unanswered o) evs' ->
     let p' := (history evs' p).2 in
     mtuProbes p' !! name = Some o /\
     (forall e t, (sendMTUProbe e name t p').2 = []) /\
     exists c, candidates (scheduler p') !! name = Some c /\ c_DatagramMTU c = 1420).
Proof.
  assert (forall evs' p0, Forall event_ok evs' -> peer_ok p0 -> peer_ok (history evs' p0).2) as Hall.
  { intros evs' p0 HF Hp0. apply (history_ind (fun _ p => peer_ok p)); [done|].
    intros h q ev Hin Hq. apply peer_step_ok; [|done]. rewrite Forall_forall in HF. auto. }
  intros p. assert (peer_ok p) as Hp by (apply Hall; [done|apply new_peer_ok]).
  pose proof Hp as [(M1 & M2 & M3 & M4) _]. split_and!; [done|done|].
  intros name o evs' Ho HF Hu p'.
  assert (peer_ok p') as [(M1' & M2' & M3' & M4') _] by (by apply Hall).
  assert (mtuProbes p' !! name = Some o) as Ho'.
  { apply (history_ind (fun _ q => mtuProbes q !! name = Some o)); [done|].
    intros h q ev Hin Hq. rewrite Forall_forall in HF, Hu. apply peer_step_keeps; auto. }
  destruct (M1' name o Ho') as (Hen & (c & Hc & _) & Hnd & _). split_and!; [done| |].
  - intros e t. unfold sendMTUProbe. repeat case_match; try done.
    match goal with H : bool_decide (is_Some _) = false |- _ => apply bool_decide_eq_false in H; destruct H end.
    by exists o.
  - exists c. split; [done|]. rewrite (M2' name c Hc). by rewrite decide_False.
Qed.

(** *** Sending *)
Definition sched_run (s s' : Scheduler) : Prop :=
  exists cs, Forall call_ok cs /\ s' = foldl (fun s a => exec a s) s cs.

Lemma sched_run_refl s : sched_run s s.
Proof. by exists []. Qed.

Lemma sched_run_trans s1 s2 s3 : sched_run s1 s2 -> sched_run s2 s3 -> sched_run s1 s3.
Proof.
  intros (c1 & H1 & ->) (c2 & H2 & ->). exists (c1 ++ c2). split; [by apply Forall_app|].
  by rewrite foldl_app.
Qed.

Lemma sched_run_one a s : call_ok a -> sched_run s (exec a s).
Proof. intros Ha. exists [a]. split; [by constructor|done]. Qed.

Lemma sched_run_ok s s' : sched_run s s' -> sched_ok s -> sched_ok s'.
Proof.
  intros (cs & HF & ->). revert s. induction HF as [|a cs Ha HF IH]; intros s Hs; [done|].
  apply IH. by apply exec_ok.
Qed.

Lemma sendProbe_sched e name p : scheduler (sendProbe e name p).1 = scheduler p.
Proof. unfold sendProbe. by repeat case_match. Qed.

Lemma probe_names_sched e names p :
  env_ok e -> sched_run (scheduler p) (scheduler (probe_names e names p).1).
Proof.
  intros He. revert p. induction names as [|name names IH]; intros p; cbn [probe_names]; [apply sched_run_refl|].
  assert (sched_run (scheduler p)
    (scheduler (if requiresActiveProbe name (scheduler p) then probeOne e name p else (p, [])).1)) as Hq.
  { case_match; [|apply sched_run_refl]. unfold probeOne. destruct (probes p !! name) as [o|].
    - case_match; [apply sched_run_refl|]. rewrite sendProbe_sched.
      by apply (sched_run_one (CProbe name (mkOutcome 0 false (now e)))).
    - rewrite sendProbe_sched. apply sched_run_refl. }
  destruct (if requiresActiveProbe _ _ then _ else _) as [p1 tx1].
  specialize (IH p1). destruct (probe_names e names p1) as [p2 tx2]. by eapply sched_run_trans.
Qed.

Lemma handlePathControl_sched e typ payload ep p :
  env_ok e -> sched_run (scheduler p) (scheduler (handlePathControl e typ payload ep p).1).
Proof.
  intros He.
  assert (forall frame, sched_run (scheduler p) (scheduler (sendControlReply e ep frame p))) as Hr.
  { intros frame. unfold sendControlReply. destruct (nameForEndpoint e ep p) as [name|]; [|apply sched_run_refl].
    pose proof (sched_run_one (CReserve name) (scheduler p) I) as H. simpl in H.
    destruct (ReserveControlSend name (scheduler p)) as [[] s]; [exact H|apply sched_run_refl]. }
  unfold handlePathControl. repeat case_match; try apply sched_run_refl; try apply Hr.
  - unfold handle_ack. repeat case_match; try apply sched_run_refl.
    rewrite (proj2 (sendMTUProbe_replies _ _ _ _)).
    match goal with |- sched_run _ (scheduler (with_scheduler (ProbeResult ?n ?r true ?t _) _)) =>
      apply (sched_run_one (CProbe n (mkOutcome r true t))); exact He end.
  - unfold handle_mtu_ack. repeat case_match; try apply sched_run_refl;
      rewrite ?(proj2 (sendMTUProbe_replies _ _ _ _));
      match goal with |- sched_run _ (scheduler ?p') =>
        match p' with context [ReportDatagramMTU ?n ?t _] => by apply (sched_run_one (CDatagramMTU n t)) end end.
Qed.

Lemma peer_step_sched ev p : event_ok ev -> sched_run (scheduler p) (scheduler (peer_step ev p).1).
Proof.
  intros He. destruct ev; simpl in *.
  - unfold register_peer. set (p1 := with_scheduler _ _).
    assert (sched_run (scheduler p) (scheduler p1)) as H by by apply (sched_run_one (CRegister name kind)).
    case_match; [by rewrite sendProbe_sched|done].
  - by apply (sched_run_one (CActivate name t)).
  - by apply (sched_run_one (CFailure name)).
  - by apply (sched_run_one (CForce name)).
  - by apply handlePathControl_sched.
  - by apply probe_names_sched.
  - unfold reply_step. destruct (replies p !! i) as [r|]; [|apply sched_run_refl].
    by apply (sched_run_one (CFinish (r_name r))).
  - by apply (sched_run_one (CSelect ord)).
  - unfold duplicate_batch. repeat case_match; simplify_eq; try apply sched_run_refl;
      match goal with |- sched_run _ (scheduler ?p') =>
        match p' with context [RecordDuplication ?n ?k ?b _] => by apply (sched_run_one (CDuplication n k b)) end end.
Qed.

Lemma history_sched_ok mtu rate t0 evs :
  Forall event_ok evs -> sched_ok (scheduler (history evs (new_peer mtu rate t0)).2).
Proof.
  intros HF. apply (history_ind (fun _ p => sched_ok (scheduler p))); [done|].
  intros h p ev Hin Hp. rewrite Forall_forall in HF.
  eapply sched_run_ok; [apply peer_step_sched; auto|done].
Qed.

(** The primary and the alternate a selection names have both succeeded. *)
Lemma select_succeeded ord s p alt dup :
  sched_ok s -> ranges ord -> (Select ord s).1 = (p, alt, dup) ->
  (p <> ""%string -> succeeded s p) /\ (dup = true -> alt <> p /\ succeeded s alt).
Proof.
  intros Hs Ho E. pose proof (sched_ok_names s Hs) as Hn. destruct Hs as [Hc Hp].
  destruct (decide (exists n, healthy s n)) as [[n Hh]|Hno].
  - destruct (select_healthy ord s n Hn Ho Hh) as (c & (Hk & Hch & _) & _ & [[E' _]|(a & Ha & _ & E')]);
      change (selectLocked ord s) with (Select ord s) in E'; rewrite E in E'; simplify_eq;
      (split; [intros _; exists c; split; [done|by apply (Hc _ _ Hk)]|]); [done|].
    intros _. destruct Ha as ((k & Hka) & Hah & Hane & _). split; [congruence|].
    exists a. pose proof (Hn k a Hka). subst k. split; [done|]. by apply (Hc _ _ Hka).
  - assert (healthy_paths ord (candidates s) = []) as Eh.
    { apply healthy_paths_nil; [done..|]. intros n Hh. apply Hno. by exists n. }
    destruct (select_degraded ord s Hn Ho Eh) as (q & E' & Hq & _).
    change (selectLocked ord s) with (Select ord s) in E'. rewrite E in E'. simplify_eq.
    split; [|done]. intros Hne. destruct Hq as [?|(c & Hk & [Hpr|[_ Hl]])]; [done| |by exists c].
    by apply Hp.
Qed.

(** The second send. *)
Lemma duplicate_batch_spec e carrier bufs alt dup p :
  ((duplicate_batch e carrier bufs alt dup p).2 = [] /\ (duplicate_batch e carrier bufs alt dup p).1.1 = Ok tt) \/
  exists second, (duplicate_batch e carrier bufs alt dup p).2 = [(bufs, second)] /\
    isWireGuardTransportBatch bufs = true /\ dup = true /\ paths p !! alt = Some second /\
    (limiter_Allow (batch_bytes bufs) (now e) (dupLimiter p)).1 = true.
Proof.
  unfold duplicate_batch. destruct (isWireGuardTransportBatch bufs) eqn:Et; simpl; [|by left].
  destruct dup; [|by left]. destruct (paths p !! alt) as [second|]; [|by left].
  destruct (limiter_Allow _ _ _) as [[] l]; [|by left]. right. by exists second.
Qed.

(** Whatever has happened before, a batch for the logical endpoint is
    sent at most twice: first over the path selected, which has proven
    itself, and a second time only if the first send succeeded, the batch is
    WireGuard transport, the scheduler asked for duplication, the byte budget
    allows the whole batch, and the other path has proven itself too.
    Handshakes go over one path only.  A failed first send is returned,
    takes the path out of selection and is not retried. *)
Theorem Send_safe mtu rate t0 evs m ord e carrier bufs id
    (Hev : Forall event_ok evs) (Ho : ranges ord)
    (Hm : mb_peer m = (history evs (new_peer mtu rate t0)).2) :
  let h := (history evs (new_peer mtu rate t0)).1 in
  let '(r, m', tx) := Send ord e carrier bufs (multipathEndpoint id) m in
  (tx = [] /\ (r = Err ErrNoHealthyCandidate \/ r = Err ErrNotRegistered)) \/
  exists name first, paths (mb_peer m) !! name = Some first /\ proven h name /\
    (carrier (bufs, first) = false /\ tx = [(bufs, first)] /\ r = Err ErrCarrier /\
       (~ healthy (scheduler (mb_peer m')) name) \/
     carrier (bufs, first) = true /\ tx = [(bufs, first)] /\ r = Ok tt \/
     carrier (bufs, first) = true /\ isWireGuardTransportBatch bufs = true /\
       exists alt second, alt <> name /\ paths (mb_peer m) !! alt = Some second /\ proven h alt /\
       tx = [(bufs, first); (bufs, second)] /\
       (Select ord (scheduler (mb_peer m))).1 = (name, alt, true) /\
       (limiter_Allow (batch_bytes bufs) (now e) (dupLimiter (mb_peer m))).1 = true).
Proof.
  pose proof (history_sched_ok mtu rate t0 evs Hev) as Hs.
  assert (evidence (history evs (new_peer mtu rate t0)).1 (history evs (new_peer mtu rate t0)).2) as [_ Hp].
  { apply history_ind; [|intros; by apply evidence_step]. split; simpl; [done|]. by intros n (c & Hc & _). }
  rewrite <-Hm in *. clear Hm. intros h. fold h in Hp. unfold Send.
  pose proof (select_succeeded ord (scheduler (mb_peer m))) as Hsel.
  destruct (Select ord (scheduler (mb_peer m))) as [[[primary alternate] dup] s] eqn:Es.
  destruct (Hsel primary alternate dup Hs Ho eq_refl) as [H1 H2]. clear Hsel.
  destruct (primary =? "")%string eqn:Epr; [left; auto|]. bool_to_prop.
  cbn [mb_peer on_sched set_peer with_scheduler paths].
  destruct (paths (mb_peer m) !! primary) as [first|] eqn:Ef; [|left; auto].
  assert (proven h primary) as Hpr by by apply Hp, H1.
  destruct (carrier (bufs, first)) eqn:Ec; cbn [negb].
  2:{ right. exists primary, first. split_and!; try done. left. split_and!; try done.
      intros (c & Hc & Hh). simpl in Hc. rewrite lookup_alter_eq in Hc.
      apply fmap_Some in Hc as (? & _ & ->). done. }
  set (m1 := if (primary =? PathUDPRelay)%string then _ else _).
  assert (paths (mb_peer m1) = paths (mb_peer m) /\ dupLimiter (mb_peer m1) = dupLimiter (mb_peer m)) as [E1 E2].
  { unfold m1. by case_match. }
  destruct (duplicate_batch_spec e carrier bufs alternate dup (mb_peer m1))
    as [(E & Er)|(second & E & Et & -> & Ea & El)].
  - destruct (duplicate_batch _ _ _ _ _ _) as [[r p'] tx]. simpl in E, Er. subst.
    right. exists primary, first. split_and!; try done. right. by left.
  - destruct (duplicate_batch _ _ _ _ _ _) as [[r p'] tx]. simpl in E. subst.
    right. exists primary, first. split_and!; try done. right. right. split_and!; try done.
    destruct (H2 eq_refl) as [Hne Hsu]. rewrite E1 in Ea. rewrite E2 in El.
    exists alternate, second. split_and!; try done. by apply Hp.
Qed.

(** *** Lifecycle *)
Inductive life := LOpen (base onOpen : bool) | LClose | LExit (ch : nat).

Definition life_step (l : life) (m : MultipathBind) : MultipathBind :=
  match l with
  | LOpen base onOpen => (Open base onOpen m).2
  | LClose => Close m
  | LExit ch => set_loops (loop_exit ch (mb_loops m)) m
  end.

(** The running loops that wait on an open channel. *)
Definition live (l : probe_loops) : list nat := filter (fun ch => channel_closed l ch = false) (running l).

Definition loops_ok (l : probe_loops) : Prop :=
  live l = (if stopped l then [] else [stop l]) /\ Forall (fun ch => (ch <= stop l)%nat) (running l).

Lemma filter_live_none l chs :
  Forall (fun ch => channel_closed l ch = true) chs -> filter (fun ch => channel_closed l ch = false) chs = [].
Proof.
  induction 1 as [|ch chs Hc Hl IH]; [done|]. rewrite filter_cons_False; [done|]. congruence.
Qed.

Lemma restart_loops_ok l : loops_ok l -> loops_ok (restart_loops l).
Proof.
  intros [H1 H2]. unfold restart_loops. destruct (stopped l) eqn:Es; [|split; [by rewrite H1, Es|done]].
  split; simpl.
  - unfold live. simpl. rewrite filter_app, filter_live_none; simpl.
    + rewrite filter_cons_True; [done|]. unfold channel_closed. simpl.
      by rewrite Nat.ltb_irrefl, Nat.eqb_refl.
    + eapply Forall_impl; [exact H2|]. intros c Hc. simpl in Hc. unfold channel_closed. simpl.
      rewrite (proj2 (Nat.ltb_lt _ _)) by lia. done.
  - apply Forall_app. split; [|by repeat constructor]. eapply Forall_impl; [exact H2|]. simpl. lia.
Qed.

Lemma close_loops_ok l : loops_ok l -> loops_ok (close_loops l).
Proof.
  intros [H1 H2]. unfold close_loops. destruct (stopped l) eqn:Es; [split; [by rewrite H1, Es|done]|].
  split; [|done]. apply filter_live_none. eapply Forall_impl; [exact H2|].
  intros c Hc. simpl in Hc. unfold channel_closed. simpl.
  destruct (decide (c = stop l)) as [->|]; [by rewrite Nat.eqb_refl, orb_true_r|].
  rewrite (proj2 (Nat.ltb_lt _ _)) by lia. done.
Qed.

Lemma loop_exit_ok ch l : loops_ok l -> loops_ok (loop_exit ch l).
Proof.
  intros [H1 H2]. unfold loop_exit. destruct (channel_closed l ch) eqn:Ec; [|done]. split; simpl.
  - rewrite <-H1. unfold live. clear H1 H2.
    change (filter (fun c => channel_closed l c = false) (filter (fun c => c <> ch) (running l)) =
      filter (fun c => channel_closed l c = false) (running l)).
    induction (running l) as [|c cs IH]; [done|].
    destruct (decide (c = ch)) as [->|Hne].
    + rewrite (filter_cons_False (fun c => c <> ch)) by (intros Hx; by apply Hx).
      rewrite (filter_cons_False _ ch); [|congruence]. exact IH.
    + rewrite (filter_cons_True (fun c => c <> ch)) by done. rewrite !filter_cons. rewrite IH. done.
  - apply Forall_forall. intros c [_ Hin]%list_elem_of_filter. rewrite Forall_forall in H2. auto.
Qed.

Lemma start_loops_ok : loops_ok start_loops.
Proof. split; [done|repeat constructor]. Qed.

(** However often WireGuard closes and reopens the bind, exactly one
    probe loop waits on an open channel while the bind is open and none
    after it is closed: a rebind neither loses the probing nor doubles it. *)
Theorem one_probe_loop id mtu rate t ls :
  let l := mb_loops (foldl (fun m l => life_step l m) (NewMultipathBind id mtu rate t) ls) in
  live l = (if stopped l then [] else [stop l]).
Proof.
  cbv zeta. set (m0 := NewMultipathBind id mtu rate t).
  assert (loops_ok (mb_loops m0)) as H0 by apply start_loops_ok.
  assert (loops_ok (mb_loops (foldl (fun m l => life_step l m) m0 ls))) as [H _]; [|exact H].
  revert H0. generalize m0. clear m0. induction ls as [|l ls IH]; intros m Hm; [done|].
  apply IH. destruct l; simpl;
    [by apply restart_loops_ok|by apply close_loops_ok|by apply loop_exit_ok].
Qed.
End multipath.

(** ** Concrete instances *)
Definition toy_env (t : Z) : @env string := mkEnv t (fun _ => Some (replicate 12 x2a)) map_keys.
Definition toy_dst (s : string) : string := s.

(** A WSS path that is live, a UDP path whose probe is answered, and a probe
    from its far end. *)
Definition toy_events : list (@event string) :=
  [EvRegister (toy_env 1) PathWSS PathWSS (CarrierEndpoint "w"); EvActivate PathWSS 2;
   EvRegister (toy_env 3) PathDirect PathDirect (CarrierEndpoint "u");
   EvControl (toy_env 4) FramePathAck (replicate 12 x2a) (CarrierEndpoint "u");
   EvControl (toy_env 5) FramePathProbe (replicate 12 x07) (CarrierEndpoint "u")].

Lemma toy_events_ok : Forall event_ok toy_events.
Proof. repeat constructor; simpl; unfold env_ok; simpl; discriminate. Qed.

Definition toy_bind : @MultipathBind string :=
  set_peer (history toy_dst toy_events (new_peer true 0 0)).2 (NewMultipathBind MultipathSentinel true 0 0).

Lemma probe_authentic_witness :
  ack_received toy_dst (history toy_dst toy_events (new_peer true 0 0)).1 PathDirect.
Proof.
  pose proof (probe_authentic toy_dst true 0 0 toy_events) as H.
  destruct (history toy_dst toy_events (new_peer true 0 0)) as [h p] eqn:E.
  assert (succeeded (scheduler p) PathDirect) as Hs.
  { replace p with (history toy_dst toy_events (new_peer true 0 0)).2 by (rewrite E; reflexivity).
    eexists. split; [vm_compute; reflexivity|]. vm_compute. discriminate. }
  destruct (proj1 H PathDirect Hs) as [(t & q & tx & Hin)|Ha]; [exfalso|exact Ha].
  assert ((EvActivate PathDirect t, q, tx) ∈ (history toy_dst toy_events (new_peer true 0 0)).1) as Hin'
    by (rewrite E; exact Hin).
  apply (list_elem_of_fmap_2 (fun x : @entry string => x.1.1)) in Hin'.
  change ((fun x : @entry string => x.1.1) <$> (history toy_dst toy_events (new_peer true 0 0)).1)
    with toy_events in Hin'. simpl in Hin'.
  unfold toy_events in Hin'. repeat (apply elem_of_cons in Hin' as [Hin'|Hin']; [discriminate Hin'|]).
  by apply elem_of_nil in Hin'.
Defined.

Lemma replies_bounded_witness :
  exists r typ payload, replies (history toy_dst toy_events (new_peer true 0 0)).2 = [r] /\
    r_name r = PathDirect /\ answers typ payload (r_frame r) /\
    Zlen (r_frame r) <= Zlen (EncodeControlFrame typ payload).
Proof.
  pose proof (replies_bounded toy_dst true 0 0 toy_events toy_events_ok) as H.
  assert (exists r, replies (history toy_dst toy_events (new_peer true 0 0)).2 = [r] /\ r_name r = PathDirect)
    as (r & E & En) by (eexists; split; vm_compute; reflexivity).
  exists r. destruct (history toy_dst toy_events (new_peer true 0 0)) as [h p]. destruct H as (_ & _ & H).
  simpl in E. destruct (H r) as (e & typ & payload & pst & tx & ep' & _ & _ & _ & Ha & Hl).
  { rewrite E. left. }
  exists typ, payload. auto.
Defined.

Lemma mtu_discovery_witness :
  exists o, mtuProbes (history toy_dst toy_events (new_peer true 0 0)).2 !! PathDirect = Some o /\
    om_target o = 1200 /\
    forall evs, Forall event_ok evs -> Forall (unanswered o) evs ->
      mtuProbes (history toy_dst evs (history toy_dst toy_events (new_peer true 0 0)).2).2 !! PathDirect = Some o.
Proof.
  destruct (mtu_discovery toy_dst true 0 0 toy_events toy_events_ok) as (_ & _ & H).
  exists (mkMTUProbe (replicate 12 x2a) 1200). split; [vm_compute; reflexivity|]. split; [reflexivity|].
  intros evs H1 H2. apply (H PathDirect (mkMTUProbe (replicate 12 x2a) 1200) evs); [|exact H1|exact H2].
  vm_compute. reflexivity.
Defined.

(** The incumbent carries the batch, once. *)
Lemma Send_safe_witness :
  (Send map_keys (toy_env 6) (fun _ => true) [wg_packet x01] (multipathEndpoint "mp:relay") toy_bind).2 =
    [([wg_packet x01], CarrierEndpoint "w")] /\
  proven toy_dst (history toy_dst toy_events (new_peer true 0 0)).1 PathWSS.
Proof.
  pose proof (Send_safe toy_dst true 0 0 toy_events toy_bind map_keys (toy_env 6) (fun _ => true)
    [wg_packet x01] "mp:relay" toy_events_ok ranges_map_keys eq_refl) as H. cbv zeta in H.
  assert ((Send map_keys (toy_env 6) (fun _ => true) [wg_packet x01] (multipathEndpoint "mp:relay")
    toy_bind).2 = [([wg_packet x01], CarrierEndpoint "w")]) as E by (vm_compute; reflexivity).
  split; [exact E|]. destruct (Send _ _ _ _ _ _) as [[r m'] tx]. simpl in E. subst tx.
  destruct H as [[Hx _]|(name & first & Hp & Hpr & H)]; [discriminate Hx|].
  assert (first = CarrierEndpoint "w") as ->.
  { destruct H as [(Hc & _)|[(_ & Htx & _)|(_ & _ & alt & second & _ & _ & _ & Htx & _)]];
      [discriminate Hc|injection Htx as <-; reflexivity|discriminate Htx]. }
  change (paths (mb_peer toy_bind)) with
    (<[PathDirect := CarrierEndpoint "u"]> (<[PathWSS := CarrierEndpoint "w"]> (∅ : gmap string (@Endpoint string)))) in Hp.
  apply lookup_insert_Some in Hp as [[_ Hx]|[_ Hp]]; [discriminate Hx|].
  apply lookup_insert_Some in Hp as [[<- _]|[_ Hp]]; [exact Hpr|]. by rewrite lookup_empty in Hp.
Defined.

(** A read of a probe and two copies of a packet leaves the packet once. *)
Definition toy_reads : list (result unit (list (@slot (@Endpoint string)))) :=
  [Ok [slot_of (EncodeControlFrame FramePathProbe (replicate 12 x07)) (CarrierEndpoint "u");
       slot_of (wg_packet x01) (CarrierEndpoint "u"); slot_of (wg_packet x01) (CarrierEndpoint "w")]].

Lemma wrapReceive_delivers_witness :
  exists slots pre rest,
    (wrapReceive toy_dst (fun _ _ => toy_env 6) (fun _ _ => map_keys) toy_reads toy_bind).1.1
      = Some (Ok (1%nat, slots)) /\
    content <$> take 1 slots = [(wg_packet x01, multipathEndpoint MultipathSentinel)] /\
    toy_reads = (Ok <$> pre) ++ rest /\
    content <$> take 1 slots = (fun d => (DuplicateCache.packet d.1, multipathEndpoint MultipathSentinel)) <$>
      unseen (data_reads (fun _ _ => toy_env 6) (fun _ _ => map_keys) 0 pre)
        (DuplicateCache.run ((data_reads (fun _ _ => toy_env 6) (fun _ _ => map_keys) 0 pre).*1)
           (mb_cache toy_bind)).1.
Proof.
  assert (Forall (fun rd => match rd with Ok slots => uniform 32 slots | Err _ => True end) toy_reads) as Hu
    by (repeat constructor; vm_compute; lia).
  pose proof (wrapReceive_delivers toy_dst (fun _ _ => toy_env 6) (fun _ _ => map_keys) 32 toy_reads toy_bind Hu) as H.
  assert (exists slots, (wrapReceive toy_dst (fun _ _ => toy_env 6) (fun _ _ => map_keys) toy_reads toy_bind).1.1
    = Some (Ok (1%nat, slots)) /\ content <$> take 1 slots = [(wg_packet x01, multipathEndpoint MultipathSentinel)])
    as (slots & E & Ec) by (eexists; split; vm_compute; reflexivity).
  exists slots. destruct (wrapReceive _ _ _ _ _) as [[res m'] tx]. simpl in E. subst res.
  destruct H as (pre & rest & Hr & H). exists pre, rest.
  split; [reflexivity|]. split; [exact Ec|]. split; [exact Hr|]. cbv zeta in H.
  destruct (DuplicateCache.run _ _) as [seen c]. destruct H as (_ & _ & _ & _ & _ & _ & _ & H). exact H.
Defined.
