(* ===== verification/ServerMultipath.v ===== *)
(** [pkg/wstransport/server_multipath.go]: the server's multipath bind.  It
    keeps one logical endpoint and one set of paths per authenticated peer,
    and tells from a datagram's source which peer it belongs to.

    Peers are objects shared by two maps: they live in a heap, and [peers]
    and [bySource] hold references.  A handler is one step, as in
    [Multipath]; the endpoints a carrier reports are never nil. *)
From S2P Require Import Prelude Bytes Frames Scheduler Multipath.

Section server.
Context {Carrier : Type}.
Variable carrier_dst : Carrier -> string.

Notation Endpoint := (@Endpoint Carrier).
Notation peer_state := (@peer_state Carrier).
Notation transmission := (@transmission Carrier).
Notation env := (@env Carrier).
Notation DstToString := (DstToString carrier_dst).

(** A peer object: its id and the state it shares with the client's bind. *)
Record serverMultipathPeer := mkServerPeer {
  sp_id : string;
  sp_state : peer_state;
}.

Definition sp_endpoint (p : serverMultipathPeer) : Endpoint := serverMultipathEndpoint (sp_id p).

Record ServerMultipathBind := mkServer {
  sm_heap : gmap nat serverMultipathPeer;
  sm_next : nat;
  sm_peers : gmap string nat;
  sm_bySource : gmap string nat;
  sm_cache : DuplicateCache.t;
  sm_rate : Z;
  sm_forced : string;
  sm_reserved : gset string;
  sm_loops : probe_loops;
}.

Definition NewServerMultipathBind (rate : Z) : ServerMultipathBind :=
  mkServer ∅ 0 ∅ ∅ (DuplicateCache.NewDuplicateCache 4096 (10 * second)) (resolveMultipathOptions rate)
    "" ∅ start_loops.

Definition set_heap (h : gmap nat serverMultipathPeer) (m : ServerMultipathBind) : ServerMultipathBind :=
  mkServer h (sm_next m) (sm_peers m) (sm_bySource m) (sm_cache m) (sm_rate m) (sm_forced m)
    (sm_reserved m) (sm_loops m).
Definition set_sources (b : gmap string nat) (m : ServerMultipathBind) : ServerMultipathBind :=
  mkServer (sm_heap m) (sm_next m) (sm_peers m) b (sm_cache m) (sm_rate m) (sm_forced m)
    (sm_reserved m) (sm_loops m).
Definition set_server_cache (c : DuplicateCache.t) (m : ServerMultipathBind) : ServerMultipathBind :=
  mkServer (sm_heap m) (sm_next m) (sm_peers m) (sm_bySource m) c (sm_rate m) (sm_forced m)
    (sm_reserved m) (sm_loops m).
Definition set_server_loops (l : probe_loops) (m : ServerMultipathBind) : ServerMultipathBind :=
  mkServer (sm_heap m) (sm_next m) (sm_peers m) (sm_bySource m) (sm_cache m) (sm_rate m) (sm_forced m)
    (sm_reserved m) l.

(** A change of the state of the object at [r]. *)
Definition on_peer (r : nat) (f : peer_state -> peer_state) (m : ServerMultipathBind) : ServerMultipathBind :=
  set_heap (alter (fun p => mkServerPeer (sp_id p) (f (sp_state p))) r (sm_heap m)) m.

Definition deref (m : ServerMultipathBind) (r : nat) : option serverMultipathPeer := sm_heap m !! r.

(** Runs a peer operation that may send. *)
Definition run_peer (r : nat) (f : peer_state -> peer_state * list transmission) (m : ServerMultipathBind) :
    ServerMultipathBind * list transmission :=
  match deref m r with
  | None => (m, [])
  | Some p => let '(st, tx) := f (sp_state p) in (on_peer r (fun _ => st) m, tx)
  end.

(** [now] is when the new peer's byte budget starts. *)
Definition peer (id : string) (now : Z) (m : ServerMultipathBind) : nat * ServerMultipathBind :=
  match sm_peers m !! id with
  | Some r => (r, m)
  | None =>
      (sm_next m,
       mkServer (<[sm_next m := mkServerPeer id (new_peer false (sm_rate m) now)]> (sm_heap m)) (S (sm_next m))
         (<[id := sm_next m]> (sm_peers m)) (sm_bySource m) (sm_cache m) (sm_rate m) (sm_forced m)
         (sm_reserved m) (sm_loops m))
  end.

Definition owner_id (m : ServerMultipathBind) (src : string) : option string :=
  match sm_bySource m !! src with
  | Some r => sp_id <$> deref m r
  | None => None
  end.

(** Another of the peer's paths has this source. *)
Definition shared_source (name src : string) (st : peer_state) : bool :=
  existsb (fun '(n, ep) => negb (n =? name)%string && (DstToString ep =? src)%string)
    (map_to_list (paths st)).

(** Forgets what concerned the endpoint a path had before. *)
Definition forget_path (name : string) (st : peer_state) : peer_state :=
  with_mtu (delete name (mtuProbes st)) (mtuDone st ∖ {[name]}) (with_probes (delete name (probes st)) st).

Definition set_path (name : string) (ep : Endpoint) (mtu : bool) (st : peer_state) : peer_state :=
  mkPeer (scheduler st) (<[name := ep]> (paths st)) (probes st) (mtuProbes st) (mtuDone st) mtu
    (dupLimiter st) (replies st).

(** The section of [RegisterPath] under both locks, on the peer at [r]. *)
Definition register_locked (r : nat) (name : string) (ep : Endpoint) (pathMTU : bool)
    (m : ServerMultipathBind) : ServerMultipathBind :=
  match deref m r with
  | None => m
  | Some p =>
      let m :=
        match paths (sp_state p) !! name with
        | Some old =>
            if negb (DstToString old =? DstToString ep)%string then
              let m :=
                if negb (shared_source name (DstToString old) (sp_state p))
                   && bool_decide (sm_bySource m !! DstToString old = Some r)
                then set_sources (delete (DstToString old) (sm_bySource m)) m else m in
              on_peer r (forget_path name) m
            else m
        | None => m
        end in
      let m := on_peer r (set_path name ep pathMTU) m in
      set_sources (<[DstToString ep := r]> (sm_bySource m)) m
  end.

Definition refused (peerID kind : string) (ep : Endpoint) (m : ServerMultipathBind) : bool :=
  negb (kind =? PathWSS)%string &&
  (bool_decide (DstToString ep ∈ sm_reserved m) ||
   match owner_id m (DstToString ep) with Some o => negb (o =? peerID)%string | None => false end).

Definition RegisterPath (e : env) (peerID name kind : string) (ep : Endpoint) (pathMTU : bool)
    (m : ServerMultipathBind) : ServerMultipathBind * list transmission :=
  if refused peerID kind ep m then (m, [])
  else
    let '(r, m) := peer peerID (now e) m in
    let m := register_locked r name ep pathMTU m in
    let m := on_peer r (fun st => with_scheduler (SetForced (sm_forced m) (scheduler st)) st) m in
    let m := on_peer r (fun st => with_scheduler (Register name kind (scheduler st)) st) m in
    if negb (kind =? PathWSS)%string then run_peer r (sendProbe e name) m else (m, []).

Definition ActivatePath (peerID name : string) (now : Z) (m : ServerMultipathBind) : ServerMultipathBind :=
  match sm_peers m !! peerID with
  | Some r => on_peer r (fun st => with_scheduler (ActivateCarrier name now (scheduler st)) st) m
  | None => m
  end.

Definition DeactivatePath (peerID name : string) (m : ServerMultipathBind) : ServerMultipathBind :=
  match sm_peers m !! peerID with
  | Some r => on_peer r (fun st => with_scheduler (CarrierFailure name (scheduler st)) st) m
  | None => m
  end.

Definition server_SetForced (ord : gmap string nat -> list string) (name : string) (m : ServerMultipathBind) :
    ServerMultipathBind :=
  let normalized := NormalizeTransportName name in
  let m := mkServer (sm_heap m) (sm_next m) (sm_peers m) (sm_bySource m) (sm_cache m) (sm_rate m)
             normalized (sm_reserved m) (sm_loops m) in
  foldl (fun m id => match sm_peers m !! id with
                     | Some r => on_peer r (fun st => with_scheduler (SetForced normalized (scheduler st)) st) m
                     | None => m
                     end) m (ord (sm_peers m)).

Definition ReserveSources (addrs : list string) (m : ServerMultipathBind) : ServerMultipathBind :=
  mkServer (sm_heap m) (sm_next m) (sm_peers m) (sm_bySource m) (sm_cache m) (sm_rate m) (sm_forced m)
    (list_to_set addrs) (sm_loops m).

(** The sources whose peer has another id. *)
Definition other_sources (id : string) (m : ServerMultipathBind) : gmap string nat :=
  filter (fun kr => sp_id <$> deref m kr.2 <> Some id) (sm_bySource m).

Definition RemovePeer (id : string) (m : ServerMultipathBind) : ServerMultipathBind :=
  mkServer (sm_heap m) (sm_next m) (delete id (sm_peers m)) (other_sources id m) (sm_cache m) (sm_rate m)
    (sm_forced m) (sm_reserved m) (sm_loops m).

(** *** Control frames

    A peer's part of the protocol is the client's: the two files have the
    same text but for the locks. *)
Definition dispatchControl (e : env) (r : nat) (typ : byte) (payload : list byte) (ep : Endpoint)
    (m : ServerMultipathBind) : ServerMultipathBind * list transmission :=
  run_peer r (handlePathControl carrier_dst e typ payload ep) m.

Definition HandlePathControl (e : env) (typ : byte) (payload : list byte) (ep : Endpoint)
    (m : ServerMultipathBind) : ServerMultipathBind * list transmission :=
  match sm_bySource m !! DstToString ep with
  | None => (m, [])
  | Some r => dispatchControl e r typ payload ep m
  end.

(** A reply goroutine of the peer at [r] sends. *)
Definition server_reply_step (r i : nat) (m : ServerMultipathBind) : ServerMultipathBind * list transmission :=
  run_peer r (reply_step i) m.

(** *** Receiving *)
Definition wrap_one (envs : nat -> nat -> env) (cords : nat -> nat -> gmap (list Z) Z -> list (list Z))
    (rd i : nat) (b : list byte) (ep : Endpoint) (m : ServerMultipathBind) :
    option Endpoint * ServerMultipathBind * list transmission :=
  if (length b =? 0)%nat then (None, m, [])
  else
    match DecodeControlFrame b with
    | Some (typ, payload) =>
        match sm_bySource m !! DstToString ep with
        | Some r => let '(m, tx) := dispatchControl (envs rd i) r typ payload ep m in (None, m, tx)
        | None => (None, m, [])
        end
    | None =>
        let p := sm_bySource m !! DstToString ep in
        let m :=
          match p with
          | Some r =>
              if isWireGuardTransport b then
                on_peer r (fun st =>
                  match nameForEndpoint carrier_dst (envs rd i) ep st with
                  | Some name => with_scheduler (ProbeResult name 0 true (now (envs rd i)) (scheduler st)) st
                  | None => st
                  end) m
              else m
          | None => m
          end in
        let '(seen, c) := DuplicateCache.Seen (cords rd i) b (now (envs rd i)) (sm_cache m) in
        let m := set_server_cache c m in
        if seen then (None, m, [])
        else
          (Some match p with
                | Some r => match deref m r with Some p => sp_endpoint p | None => ep end
                | None => ep
                end, m, [])
    end.

Definition wrap {E : Type} (envs : nat -> nat -> env) (cords : nat -> nat -> gmap (list Z) Z -> list (list Z))
    (reads : list (result E (list (@slot Endpoint)))) (m : ServerMultipathBind) :=
  receive_all true (wrap_one envs cords) 0 reads m.

(** *** Probing and sending *)
Fixpoint probe_peers (e : env) (rs : list nat) (m : ServerMultipathBind) : ServerMultipathBind * list transmission :=
  match rs with
  | [] => (m, [])
  | r :: rs =>
      let '(m, tx) := run_peer r (probeAll e) m in
      let '(m, tx') := probe_peers e rs m in (m, tx ++ tx')
  end.

Definition server_probeAll (e : env) (ord : gmap string nat -> list string) (m : ServerMultipathBind) :
    ServerMultipathBind * list transmission :=
  probe_peers e (omap (fun id => sm_peers m !! id) (ord (sm_peers m))) m.

Definition server_ParseEndpoint (base : string -> option Endpoint) (s : string) (m : ServerMultipathBind) :
    option Endpoint :=
  match sm_peers m !! s with
  | None => base s
  | Some r => match deref m r with Some p => Some (sp_endpoint p) | None => base s end
  end.

Definition server_Send (ord : gmap string candidate -> list string) (e : env) (carrier : transmission -> bool)
    (bufs : list (list byte)) (ep : Endpoint) (m : ServerMultipathBind) :
    result send_error unit * ServerMultipathBind * list transmission :=
  match ep with
  | serverMultipathEndpoint id =>
      match sm_peers m !! id with
      | None => (Err ErrUnknownPeer, m, [])
      | Some r =>
          match deref m r with
          | None => (Err ErrUnknownPeer, m, [])
          | Some p =>
              let '((primary, alternate, duplicate), s) := Select ord (scheduler (sp_state p)) in
              let st := with_scheduler s (sp_state p) in
              match paths st !! primary with
              | None =>
                  (Err ErrNoHealthyCandidate,
                   on_peer r (fun _ => with_scheduler (Status ord s).2 st) m, [])
              | Some first =>
                  if negb (carrier (bufs, first)) then
                    (Err ErrCarrier, on_peer r (fun _ => with_scheduler (CarrierFailure primary s) st) m,
                     [(bufs, first)])
                  else
                    let '(res, st, out) := duplicate_batch e carrier bufs alternate duplicate st in
                    (res, on_peer r (fun _ => st) m, (bufs, first) :: out)
              end
          end
      end
  | _ => (if carrier (bufs, ep) then Ok tt else Err ErrCarrier, m, [(bufs, ep)])
  end.

(** *** Lifecycle *)
Definition server_Close (m : ServerMultipathBind) : ServerMultipathBind :=
  set_server_loops (close_loops (sm_loops m)) m.

Definition server_restartProbeLoop (m : ServerMultipathBind) : ServerMultipathBind :=
  set_server_loops (restart_loops (sm_loops m)) m.

(** [base] tells whether the carrier's [Open] succeeds. *)
Definition server_Open (base : bool) (m : ServerMultipathBind) : bool * ServerMultipathBind :=
  (base, server_restartProbeLoop m).

(** ** Whose source is it

    Every operation, as one step. *)
Inductive server_event :=
  | SRegister (e : env) (peerID name kind : string) (ep : Endpoint) (pathMTU : bool)
  | SActivate (peerID name : string) (now : Z)
  | SDeactivate (peerID name : string)
  | SSetForced (ord : gmap string nat -> list string) (name : string)
  | SReserve (addrs : list string)
  | SRemove (id : string)
  | SControl (e : env) (typ : byte) (payload : list byte) (ep : Endpoint)
  | SReply (r i : nat)
  | SPacket (e : env) (cord : gmap (list Z) Z -> list (list Z)) (b : list byte) (ep : Endpoint)
  | SProbeAll (e : env) (ord : gmap string nat -> list string)
  | SSend (ord : gmap string candidate -> list string) (e : env) (carrier : transmission -> bool)
      (bufs : list (list byte)) (ep : Endpoint)
  | SOpen (base : bool)
  | SClose.

Definition server_step (ev : server_event) (m : ServerMultipathBind) : ServerMultipathBind :=
  match ev with
  | SRegister e peerID name kind ep mtu => (RegisterPath e peerID name kind ep mtu m).1
  | SActivate peerID name now => ActivatePath peerID name now m
  | SDeactivate peerID name => DeactivatePath peerID name m
  | SSetForced ord name => server_SetForced ord name m
  | SReserve addrs => ReserveSources addrs m
  | SRemove id => RemovePeer id m
  | SControl e typ payload ep => (HandlePathControl e typ payload ep m).1
  | SReply r i => (server_reply_step r i m).1
  | SPacket e cord b ep => (wrap_one (fun _ _ => e) (fun _ _ => cord) 0 0 b ep m).1.2
  | SProbeAll e ord => (server_probeAll e ord m).1
  | SSend ord e carrier bufs ep => (server_Send ord e carrier bufs ep m).1.2
  | SOpen base => (server_Open base m).2
  | SClose => server_Close m
  end.

Definition server_run (rate : Z) (evs : list server_event) : ServerMultipathBind :=
  foldl (fun m ev => server_step ev m) (NewServerMultipathBind rate) evs.

(** Same objects, same ids, same paths, same maps. *)
Definition same_paths (m m' : ServerMultipathBind) : Prop :=
  sm_peers m' = sm_peers m /\ sm_bySource m' = sm_bySource m /\ sm_next m' = sm_next m /\
  forall r, match deref m r, deref m' r with
            | Some p, Some p' => sp_id p' = sp_id p /\ paths (sp_state p') = paths (sp_state p)
            | None, None => True
            | _, _ => False
            end.

Lemma same_paths_refl m : same_paths m m.
Proof. split_and!; try done. intros r. by destruct (deref m r). Qed.

Lemma same_paths_maps m m' :
  sm_peers m' = sm_peers m -> sm_bySource m' = sm_bySource m -> sm_next m' = sm_next m ->
  sm_heap m' = sm_heap m -> same_paths m m'.
Proof.
  intros ? ? ? E. split_and!; try done. intros r. unfold deref. rewrite E. by destruct (sm_heap m !! r).
Qed.

Lemma same_paths_trans m1 m2 m3 : same_paths m1 m2 -> same_paths m2 m3 -> same_paths m1 m3.
Proof.
  intros (? & ? & ? & S1) (? & ? & ? & S2). split_and!; try congruence.
  intros r. specialize (S1 r). specialize (S2 r).
  destruct (deref m1 r), (deref m2 r), (deref m3 r); naive_solver congruence.
Qed.

Lemma on_peer_same r f m :
  (forall p, deref m r = Some p -> paths (f (sp_state p)) = paths (sp_state p)) -> same_paths m (on_peer r f m).
Proof.
  intros Hf. split_and!; try done. intros r'. unfold on_peer, deref in *. simpl. rewrite lookup_alter.
  case_decide as Hr; [subst|by destruct (sm_heap m !! r')].
  destruct (sm_heap m !! r') as [p|]; [|done]. simpl. split; [done|]. by apply Hf.
Qed.

Lemma run_peer_same r f m :
  (forall st, paths (f st).1 = paths st) -> same_paths m (run_peer r f m).1.
Proof.
  intros Hf. unfold run_peer. destruct (deref m r) as [p|] eqn:E; [|apply same_paths_refl].
  specialize (Hf (sp_state p)). destruct (f (sp_state p)) as [st tx]. simpl in *.
  apply on_peer_same. intros p' Hp'. congruence.
Qed.

Lemma handle_paths e typ payload ep st : paths (handlePathControl carrier_dst e typ payload ep st).1 = paths st.
Proof.
  destruct (handlePathControl_spec carrier_dst e typ payload ep st) as [(_ & _ & H)|[_ ->]]; [exact H|].
  destruct (handle_ack_spec carrier_dst e payload ep st) as [(_ & _ & H)|_]; [exact H|].
  unfold handle_ack. destruct (nameForEndpoint _ _ _ _) as [name|]; [|done].
  destruct (probes st !! name); [|done]. case_bool_decide; [|done].
  unfold sendMTUProbe. by repeat case_match.
Qed.

Lemma probe_peers_same e rs m : same_paths m (probe_peers e rs m).1.
Proof.
  revert m. induction rs as [|r rs IH]; intros m; cbn [probe_peers]; [apply same_paths_refl|].
  pose proof (run_peer_same r (probeAll e) m) as H.
  destruct (run_peer r (probeAll e) m) as [m1 tx1]. specialize (IH m1).
  destruct (probe_peers e rs m1) as [m2 tx2]. eapply same_paths_trans; [|exact IH].
  apply H. intros st. apply (probe_names_quiet e _ st).
Qed.

Lemma set_forced_same n ids m :
  same_paths m (foldl (fun m id => match sm_peers m !! id with
    | Some r => on_peer r (fun st => with_scheduler (SetForced n (scheduler st)) st) m
    | None => m end) m ids).
Proof.
  revert m. induction ids as [|id ids IH]; intros m; [apply same_paths_refl|]. simpl.
  eapply same_paths_trans; [|apply IH]. destruct (sm_peers m !! id); [|apply same_paths_refl].
  by apply on_peer_same.
Qed.

Lemma wrap_one_same envs cords rd i b ep m : same_paths m (wrap_one envs cords rd i b ep m).1.2.
Proof.
  unfold wrap_one. destruct (length b =? 0)%nat; [apply same_paths_refl|].
  destruct (DecodeControlFrame b) as [[typ payload]|].
  - destruct (sm_bySource m !! DstToString ep) as [r|]; [|apply same_paths_refl].
    pose proof (run_peer_same r (handlePathControl carrier_dst (envs rd i) typ payload ep) m
      (handle_paths (envs rd i) typ payload ep)) as H.
    unfold dispatchControl. by destruct (run_peer _ _ _).
  - set (m1 := match sm_bySource m !! DstToString ep with Some _ => _ | None => m end).
    assert (same_paths m m1) as H.
    { unfold m1. destruct (sm_bySource m !! _); [|apply same_paths_refl].
      destruct (isWireGuardTransport b); [|apply same_paths_refl].
      apply on_peer_same. intros p _. by destruct (nameForEndpoint _ _ _ _). }
    clearbody m1. destruct (DuplicateCache.Seen _ _ _ _) as [[] c]; exact H.
Qed.

Lemma server_Send_same ord e carrier bufs ep m : same_paths m (server_Send ord e carrier bufs ep m).1.2.
Proof.
  unfold server_Send. destruct ep as [c|id|id]; try apply same_paths_refl.
  destruct (sm_peers m !! id) as [r|]; [|apply same_paths_refl].
  destruct (deref m r) as [p|] eqn:Ep; [|apply same_paths_refl].
  destruct (Select ord _) as [[[primary alternate] dup] s].
  destruct (paths (with_scheduler s (sp_state p)) !! primary) as [first|].
  - destruct (negb _).
    + apply on_peer_same. intros p' Hp'. simpl. congruence.
    + destruct (duplicate_batch_quiet e carrier bufs alternate dup (with_scheduler s (sp_state p)))
        as (_ & _ & H).
      destruct (duplicate_batch _ _ _ _ _ _) as [[res st] out]. simpl in *.
      apply on_peer_same. intros p' Hp'. rewrite H. congruence.
  - apply on_peer_same. intros p' Hp'. simpl. congruence.
Qed.

(** Every step but a registration and a removal. *)
Lemma server_step_same ev m :
  match ev with SRegister _ _ _ _ _ _ | SRemove _ => True | _ => same_paths m (server_step ev m) end.
Proof.
  destruct ev; simpl; try done.
  - unfold ActivatePath. destruct (sm_peers m !! peerID); [|apply same_paths_refl]. by apply on_peer_same.
  - unfold DeactivatePath. destruct (sm_peers m !! peerID); [|apply same_paths_refl]. by apply on_peer_same.
  - unfold server_SetForced. eapply same_paths_trans; [|apply set_forced_same]. by apply same_paths_maps.
  - by apply same_paths_maps.
  - unfold HandlePathControl, dispatchControl. destruct (sm_bySource m !! _); [|apply same_paths_refl].
    apply run_peer_same, handle_paths.
  - apply run_peer_same. intros st. unfold reply_step. by destruct (replies st !! i).
  - apply wrap_one_same.
  - apply probe_peers_same.
  - apply server_Send_same.
  - by apply same_paths_maps.
  - by apply same_paths_maps.
Qed.

(** The registry: [peers] names live objects by their own id, and a source is
    only ever listed for a live peer that has a path with it. *)
Definition server_ok (m : ServerMultipathBind) : Prop :=
  (forall id r, sm_peers m !! id = Some r -> exists p, deref m r = Some p /\ sp_id p = id) /\
  (forall r, is_Some (deref m r) -> (r < sm_next m)%nat) /\
  (forall src r, sm_bySource m !! src = Some r -> exists p name ep,
     deref m r = Some p /\ sm_peers m !! sp_id p = Some r /\
     paths (sp_state p) !! name = Some ep /\ DstToString ep = src).

Lemma same_paths_ok m m' : same_paths m m' -> server_ok m -> server_ok m'.
Proof.
  intros (E1 & E2 & E3 & Hh) (O1 & O2 & O3). split_and!.
  - intros id r. rewrite E1. intros Hr. destruct (O1 id r Hr) as (p & Hp & Hid).
    specialize (Hh r). rewrite Hp in Hh. destruct (deref m' r) as [p'|]; [|done].
    exists p'. split; [done|]. destruct Hh. congruence.
  - intros r Hr. rewrite E3. apply O2. specialize (Hh r).
    destruct (deref m r); [done|]. destruct (deref m' r); [done|]. by destruct Hr.
  - intros src r. rewrite E1, E2. intros Hr. destruct (O3 src r Hr) as (p & name & ep & Hp & Hid & Hep & Hd).
    specialize (Hh r). rewrite Hp in Hh. destruct (deref m' r) as [p'|]; [|done].
    destruct Hh as [Ei Epa]. exists p', name, ep. rewrite Ei, Epa. done.
Qed.

Lemma same_paths_owner m m' src : same_paths m m' -> owner_id m' src = owner_id m src.
Proof.
  intros (_ & E2 & _ & Hh). unfold owner_id. rewrite E2. destruct (sm_bySource m !! src) as [r|]; [|done].
  specialize (Hh r). destruct (deref m r), (deref m' r); try done. simpl. destruct Hh. congruence.
Qed.

Lemma peer_spec id t m :
  server_ok m ->
  let '(r, m1) := peer id t m in
  server_ok m1 /\ sm_peers m1 !! id = Some r /\ sm_bySource m1 = sm_bySource m /\
  (forall src, owner_id m1 src = owner_id m src) /\
  exists p, deref m1 r = Some p /\ sp_id p = id.
Proof.
  intros (O1 & O2 & O3). unfold peer. destruct (sm_peers m !! id) as [r|] eqn:Er.
  { destruct (O1 id r Er) as (p & Hp & Hid). split_and!; try done. by exists p. }
  set (m1 := mkServer _ _ _ _ _ _ _ _ _).
  assert (forall r p, deref m r = Some p -> deref m1 r = Some p) as Hd.
  { intros r p Hp. unfold deref, m1 in *. simpl. rewrite lookup_insert_ne; [done|].
    intros <-. specialize (O2 (sm_next m) (ex_intro _ p Hp)). lia. }
  assert (deref m1 (sm_next m) = Some (mkServerPeer id (new_peer false (sm_rate m) t))) as Hnew
    by (unfold deref; simpl; apply lookup_insert_eq).
  split_and!; [split_and!| |done| |].
  - intros i r. unfold m1. simpl. rewrite lookup_insert. case_decide; [intros [= <-]; subst; eauto|].
    intros Hr. destruct (O1 i r Hr) as (p & Hp & Hid). eauto.
  - intros r. unfold deref, m1. simpl. rewrite lookup_insert. case_decide; [lia|].
    intros Hr. specialize (O2 r Hr). lia.
  - intros src r Hr. destruct (O3 src r Hr) as (p & name & ep & Hp & Hid & Hep & Hdst).
    exists p, name, ep. split_and!; auto. unfold m1. simpl. rewrite lookup_insert_ne; [done|congruence].
  - unfold m1. simpl. apply lookup_insert_eq.
  - intros src. unfold owner_id. change (sm_bySource m1) with (sm_bySource m).
    destruct (sm_bySource m !! src) as [r|] eqn:E; [|done].
    destruct (O3 src r E) as (p & _ & _ & Hp & _). by rewrite Hp, (Hd r p Hp).
  - by eexists.
Qed.

(** The sources the replaced endpoint leaves behind. *)
Definition drops (r : nat) (name src : string) (ep : Endpoint) (m : ServerMultipathBind) : Prop :=
  exists p old, deref m r = Some p /\ paths (sp_state p) !! name = Some old /\
    DstToString old = src /\ src <> DstToString ep /\ sm_bySource m !! src = Some r /\
    shared_source name src (sp_state p) = false.

#[local] Instance drops_dec r name src ep m : Decision (drops r name src ep m).
Proof.
  unfold drops. destruct (deref m r) as [p|]; [|right; by intros (? & ? & ? & _)].
  destruct (paths (sp_state p) !! name) as [old|] eqn:Eo; [|right; intros (? & ? & ? & ? & _); congruence].
  destruct (decide (DstToString old = src /\ src <> DstToString ep /\ sm_bySource m !! src = Some r /\
    shared_source name src (sp_state p) = false)) as [H|H].
  - left. by exists p, old.
  - right. intros (p' & old' & Hp & Ho & Hr). simplify_eq. tauto.
Defined.

Lemma shared_source_true name src st :
  shared_source name src st = true <->
  exists n ep, n <> name /\ paths st !! n = Some ep /\ DstToString ep = src.
Proof.
  unfold shared_source. rewrite existsb_exists. split.
  - intros ([n ep] & Hin & Hf). apply list_elem_of_In, elem_of_map_to_list in Hin. bool_to_prop. eauto.
  - intros (n & ep & Hne & Hp & Hd). exists (n, ep). split.
    + by apply list_elem_of_In, elem_of_map_to_list.
    + rewrite Hd, String.eqb_refl. apply String.eqb_neq in Hne. by rewrite Hne.
Qed.

Lemma register_locked_spec r name ep mtu m p :
  deref m r = Some p ->
  let m' := register_locked r name ep mtu m in
  sm_peers m' = sm_peers m /\ sm_next m' = sm_next m /\
  (exists st, deref m' r = Some (mkServerPeer (sp_id p) st) /\
     paths st = <[name := ep]> (paths (sp_state p))) /\
  (forall r', r' <> r -> deref m' r' = deref m r') /\
  sm_bySource m' !! DstToString ep = Some r /\
  (forall src r', src <> DstToString ep ->
     (sm_bySource m' !! src = Some r' <-> sm_bySource m !! src = Some r' /\ ~ drops r name src ep m)).
Proof.
  intros Hp. unfold register_locked. rewrite Hp.
  set (m1 := match paths (sp_state p) !! name with Some _ => _ | None => m end).
  assert (sm_peers m1 = sm_peers m /\ sm_next m1 = sm_next m /\
    (exists st, deref m1 r = Some (mkServerPeer (sp_id p) st) /\ paths st = paths (sp_state p)) /\
    (forall r', r' <> r -> deref m1 r' = deref m r') /\
    (forall src r', src <> DstToString ep ->
       (sm_bySource m1 !! src = Some r' <-> sm_bySource m !! src = Some r' /\ ~ drops r name src ep m)))
    as (E1 & E2 & (st & Hst & Epa) & Hoth & Hsrc).
  { unfold m1. clear m1. destruct (paths (sp_state p) !! name) as [old|] eqn:Eo.
    2:{ split_and!; try done; [exists (sp_state p); by destruct p|].
        intros src r' _. split; [|tauto]. intros Hs. split; [done|].
        intros (p' & old & Hp' & Ho & _). congruence. }
    destruct (DstToString old =? DstToString ep)%string eqn:Ed; simpl; bool_to_prop.
    { split_and!; try done; [exists (sp_state p); by destruct p|].
      intros src r' Hne. split; [|tauto]. intros Hs. split; [done|].
      intros (p' & old' & Hp' & Ho & Hd & _). congruence. }
    set (m2 := if _ && _ then _ else m).
    assert (sm_peers m2 = sm_peers m /\ sm_next m2 = sm_next m /\ sm_heap m2 = sm_heap m) as (F1 & F2 & F3)
      by (unfold m2; by case_match).
    split_and!; [done|done| | |].
    - exists (forget_path name (sp_state p)). split; [|done].
      unfold deref, on_peer in *. simpl. by rewrite F3, lookup_alter_eq, Hp.
    - intros r' Hr'. unfold deref, on_peer. simpl. by rewrite F3, lookup_alter_ne by done.
    - intros src r' Hne. simpl. unfold m2. destruct (_ && _) eqn:Eb; bool_to_prop; simpl.
      + rewrite lookup_delete_Some. split.
        * intros [Hs1 Hs2]. split; [done|]. intros (p' & old' & Hp' & Ho & Hd & _). congruence.
        * intros [Hs Hnd]. split; [|done]. intros Hx. apply Hnd. exists p, old. split_and!; try done; congruence.
      + split; [|tauto]. intros Hs. split; [done|].
        intros (p' & old' & Hp' & Ho & Hd & Hne' & Hb & Hsh). rewrite Hp in Hp'. simplify_eq.
        rewrite Hsh in Eb. rewrite bool_decide_eq_true_2 in Eb by done. by destruct Eb. }
  clearbody m1. split_and!; try done.
  - exists (set_path name ep mtu st). unfold deref, on_peer in *. simpl.
    rewrite lookup_alter_eq, Hst. simpl. by rewrite Epa.
  - intros r' Hr'. unfold deref, on_peer in *. simpl. rewrite lookup_alter_ne by done. by apply Hoth.
  - simpl. by rewrite lookup_insert_eq.
  - intros src r' Hne. simpl. rewrite lookup_insert_ne by done. by apply Hsrc.
Qed.

Lemma register_locked_ok r name ep mtu m :
  server_ok m -> (exists p, deref m r = Some p /\ sm_peers m !! sp_id p = Some r) ->
  server_ok (register_locked r name ep mtu m).
Proof.
  intros (O1 & O2 & O3) (p & Hp & Hpid).
  destruct (register_locked_spec r name ep mtu m p Hp) as (E1 & E2 & (st & Hst & Epa) & Hoth & Hnew & Hsrc).
  set (m' := register_locked r name ep mtu m) in *. clearbody m'. split_and!.
  - intros id r'. rewrite E1. intros Hr. destruct (O1 id r' Hr) as (p' & Hp' & Hid).
    destruct (decide (r' = r)) as [->|Hne].
    + exists (mkServerPeer (sp_id p) st). split; [done|]. simpl. congruence.
    + exists p'. by rewrite (Hoth r' Hne).
  - intros r' Hr'. rewrite E2. apply O2. destruct (decide (r' = r)) as [->|Hne]; [by eexists|].
    by rewrite (Hoth r' Hne) in Hr'.
  - intros src r' Hs. destruct (decide (src = DstToString ep)) as [->|Hne].
    { rewrite Hnew in Hs. simplify_eq. exists (mkServerPeer (sp_id p) st), name, ep.
      rewrite E1. simpl. split_and!; try done. by rewrite Epa, lookup_insert_eq. }
    apply Hsrc in Hs as [Hs Hnd]; [|done].
    destruct (O3 src r' Hs) as (p0 & n0 & ep0 & Hp0 & Hid0 & Hep0 & Hd0).
    destruct (decide (r' = r)) as [->|Hr'].
    2:{ exists p0, n0, ep0. by rewrite (Hoth r' Hr'), E1. }
    rewrite Hp in Hp0. simplify_eq. rewrite E1. exists (mkServerPeer (sp_id p0) st).
    destruct (decide (n0 = name)) as [->|Hn].
    2:{ exists n0, ep0. split_and!; try done. simpl. by rewrite Epa, lookup_insert_ne by done. }
    destruct (shared_source name (DstToString ep0) (sp_state p0)) eqn:Esh.
    + apply shared_source_true in Esh as (n & ep' & Hn & Hep & Hd).
      exists n, ep'. split_and!; try done. simpl. by rewrite Epa, lookup_insert_ne by done.
    + exfalso. apply Hnd. exists p0, ep0. by split_and!.
Qed.

Lemma RegisterPath_decomp e peerID name kind ep mtu m :
  server_ok m -> refused peerID kind ep m = false ->
  let '(r, m1) := peer peerID (now e) m in
  same_paths (register_locked r name ep mtu m1) (RegisterPath e peerID name kind ep mtu m).1.
Proof.
  intros _ Hr. unfold RegisterPath. rewrite Hr. destruct (peer peerID (now e) m) as [r m1].
  set (m2 := register_locked r name ep mtu m1).
  set (m3 := on_peer r _ m2). set (m4 := on_peer r _ m3).
  assert (same_paths m2 m4) as Hs by (eapply same_paths_trans; by apply on_peer_same).
  case_match; [|exact Hs]. eapply same_paths_trans; [exact Hs|].
  apply run_peer_same. intros st. unfold sendProbe. by repeat case_match.
Qed.

Lemma server_step_ok ev m : server_ok m -> server_ok (server_step ev m).
Proof.
  intros Hm. pose proof (server_step_same ev m) as Hs.
  destruct ev; try (by eapply same_paths_ok); simpl.
  - destruct (refused peerID kind ep m) eqn:Er; [unfold RegisterPath; by rewrite Er|].
    pose proof (RegisterPath_decomp e peerID name kind ep pathMTU m Hm Er) as Hd.
    pose proof (peer_spec peerID (now e) m Hm) as Hp.
    destruct (peer peerID (now e) m) as [r m1]. destruct Hp as (Hm1 & Hpe & _ & _ & p & Hp & Hid).
    eapply same_paths_ok; [exact Hd|]. apply register_locked_ok; [done|].
    exists p. split; [done|]. by rewrite Hid.
  - destruct Hm as (O1 & O2 & O3). split_and!; simpl.
    + intros i r [_ Hr]%lookup_delete_Some. by apply O1.
    + exact O2.
    + intros src r [Hr Hne]%map_lookup_filter_Some. simpl in Hne.
      destruct (O3 src r Hr) as (p & name & ep & Hp & Hid & Hep & Hd). rewrite Hp in Hne.
      exists p, name, ep. split_and!; try done. rewrite lookup_delete_ne; [done|].
      intros ->. by apply Hne.
Qed.

Lemma server_run_ok rate evs : server_ok (server_run rate evs).
Proof.
  unfold server_run. assert (server_ok (NewServerMultipathBind rate)) as H0.
  { split_and!; simpl; try done. intros r [? ?]. unfold deref in *. set_solver. }
  revert H0. generalize (NewServerMultipathBind rate).
  induction evs as [|ev evs IH]; intros m Hm; [done|]. apply IH. by apply server_step_ok.
Qed.

(** C23: A datagram source belongs to at most one peer, a live one with a
    path registered under it.  Once owned it stays with its owner until that
    peer is removed or replaces the path (no other of its paths sharing the
    source), or a WebSocket path registers the same source.  A datagram path
    is refused whole when its source is reserved or another peer's. *)
Theorem source_ownership rate evs ev src id :
  let m := server_run rate evs in
  owner_id m src = Some id ->
  (exists r p name ep, sm_bySource m !! src = Some r /\ deref m r = Some p /\ sp_id p = id /\
     sm_peers m !! id = Some r /\ paths (sp_state p) !! name = Some ep /\ DstToString ep = src) /\
  (owner_id (server_step ev m) src = Some id \/
   ev = SRemove id \/
   (exists e name kind ep mtu r, ev = SRegister e id name kind ep mtu /\ drops r name src ep m) \/
   (exists e peerID name ep mtu, ev = SRegister e peerID name PathWSS ep mtu /\ DstToString ep = src)) /\
  (forall e peerID name kind ep mtu, kind <> PathWSS ->
     (DstToString ep ∈ sm_reserved m \/ (DstToString ep = src /\ peerID <> id)) ->
     RegisterPath e peerID name kind ep mtu m = (m, [])).
Proof.
  intros m Ho. pose proof (server_run_ok rate evs) as Hm. fold m in Hm.
  pose proof Hm as (O1 & O2 & O3). unfold owner_id in Ho.
  destruct (sm_bySource m !! src) as [r|] eqn:Es; [|done].
  destruct (O3 src r Es) as (p & n0 & ep0 & Hp & Hid & Hep & Hd). rewrite Hp in Ho. simpl in Ho.
  injection Ho as Ho. subst id.
  assert (owner_id m src = Some (sp_id p)) as Ho by (unfold owner_id; by rewrite Es, Hp).
  split_and!.
  - by exists r, p, n0, ep0.
  - pose proof (server_step_same ev m) as Hs.
    destruct ev; try (left; by rewrite (same_paths_owner _ _ _ Hs)).
    + simpl. destruct (refused peerID kind ep m) eqn:Er; [left; unfold RegisterPath; by rewrite Er|].
      pose proof (RegisterPath_decomp e peerID name kind ep pathMTU m Hm Er) as Hdec.
      pose proof (peer_spec peerID (now e) m Hm) as Hps.
      destruct (peer peerID (now e) m) as [r1 m1] eqn:Epeer.
      destruct Hps as (Hm1 & Hpe & Eb & Hown & p1 & Hp1 & Hid1).
      destruct (register_locked_spec r1 name ep pathMTU m1 p1 Hp1) as (F1 & F2 & (st & Hst & _) & Hoth & Hnew & Hsrc).
      rewrite (same_paths_owner _ _ _ Hdec).
      destruct (decide (src = DstToString ep)) as [Heq|Hne].
      * destruct (decide (peerID = sp_id p)) as [Hpp|Hpp].
        -- left. unfold owner_id. rewrite Heq, Hnew, Hst. simpl. congruence.
        -- right. right. right. unfold refused in Er. rewrite <-Heq, Ho in Er.
           destruct (kind =? PathWSS)%string eqn:Ek; [bool_to_prop; subst kind; eauto 10|].
           simpl in Er. bool_to_prop. congruence.
      * destruct (decide (drops r1 name src ep m1)) as [Hdr|Hnd].
        -- right. right. left.
           assert (r1 = r /\ m1 = m /\ peerID = sp_id p) as (-> & -> & ->).
           { destruct Hdr as (_ & _ & _ & _ & _ & _ & Hb & _). rewrite Eb, Es in Hb. simplify_eq.
             assert (sp_id p1 = sp_id p) as Hpp.
             { rewrite <-Hown in Ho. unfold owner_id in Ho. rewrite Eb, Es, Hp1 in Ho. by simplify_eq/=. }
             split_and!; [done| |done]. unfold peer in Epeer. rewrite Hpp, Hid in Epeer. by simplify_eq. }
           exists e, name, kind, ep, pathMTU, r. done.
        -- left. unfold owner_id. rewrite (proj2 (Hsrc src r Hne)) by (rewrite Eb; done).
           rewrite <-Hown in Ho. unfold owner_id in Ho. rewrite Eb, Es in Ho.
           destruct (decide (r = r1)) as [->|Hr]; [rewrite Hst; by rewrite Hp1 in Ho|by rewrite (Hoth r Hr)].
    + simpl. destruct (decide (id = sp_id p)) as [->|Hne]; [by right; left|left].
      unfold owner_id. simpl.
      assert (other_sources id m !! src = Some r) as Hx; [|rewrite Hx; unfold deref in *; simpl; by rewrite Hp].
      apply map_lookup_filter_Some. split; [done|]. simpl. rewrite Hp. simpl. congruence.
  - intros e peerID name kind ep mtu Hk Hr. unfold RegisterPath.
    assert (refused peerID kind ep m = true) as ->; [|done].
    unfold refused. apply String.eqb_neq in Hk. rewrite Hk. simpl. apply orb_true_iff.
    destruct Hr as [Hr|[<- Hne]]; [left; by apply bool_decide_eq_true|right].
    rewrite Ho. apply negb_true_iff, String.eqb_neq. congruence.
Qed.

(** ** Receiving: whose packet is it *)
Definition tag (m : ServerMultipathBind) (ep : Endpoint) : Endpoint :=
  match owner_id m (DstToString ep) with Some id => serverMultipathEndpoint id | None => ep end.

Section server_receive.
Variables (envs : nat -> nat -> env) (cords : nat -> nat -> gmap (list Z) Z -> list (list Z)).

(** The packets that are neither empty nor control frames. *)
Fixpoint server_data (rd i : nat) (ds : list (list byte * Endpoint)) : list (DuplicateCache.call * Endpoint) :=
  match ds with
  | [] => []
  | (b, ep) :: ds =>
      if (length b =? 0)%nat || match DecodeControlFrame b with Some _ => true | None => false end
      then server_data rd (S i) ds
      else ({| DuplicateCache.packet := b; DuplicateCache.at_time := now (envs rd i);
               DuplicateCache.order := cords rd i |}, ep) :: server_data rd (S i) ds
  end.

Definition not_owner (m : ServerMultipathBind) (r : nat) (ds : list (list byte * Endpoint)) : Prop :=
  forall b ep, (b, ep) ∈ ds -> sm_bySource m !! DstToString ep <> Some r.

Lemma on_peer_other r r' f m : r' <> r -> deref (on_peer r f m) r' = deref m r'.
Proof. intros Hr. unfold deref, on_peer. simpl. by rewrite lookup_alter_ne. Qed.

Lemma run_peer_other r r' f m : r' <> r -> deref (run_peer r f m).1 r' = deref m r'.
Proof.
  intros Hr. unfold run_peer. destruct (deref m r) as [p|]; [|done].
  destruct (f (sp_state p)). by apply on_peer_other.
Qed.

Lemma run_peer_cache r f m : sm_cache (run_peer r f m).1 = sm_cache m.
Proof. unfold run_peer. destruct (deref m r) as [p|]; [|done]. by destruct (f (sp_state p)). Qed.

(** One datagram. *)
Lemma wrap_one_spec rd i b ep m :
  let '(d, m', tx) := wrap_one envs cords rd i b ep m in
  same_paths m m' /\
  (forall r, sm_bySource m !! DstToString ep <> Some r -> deref m' r = deref m r) /\
  if (length b =? 0)%nat || match DecodeControlFrame b with Some _ => true | None => false end
  then d = None /\ sm_cache m' = sm_cache m
  else let '(seen, c) := DuplicateCache.Seen (cords rd i) b (now (envs rd i)) (sm_cache m) in
       sm_cache m' = c /\ d = if seen then None else Some (tag m ep).
Proof.
  pose proof (wrap_one_same envs cords rd i b ep m) as Hs. unfold wrap_one in *.
  destruct (length b =? 0)%nat; [by split_and!|]. cbn [orb].
  destruct (DecodeControlFrame b) as [[typ payload]|].
  - destruct (sm_bySource m !! DstToString ep) as [r|] eqn:Eb; [|by split_and!].
    unfold dispatchControl in *.
    pose proof (fun r' => run_peer_other r r' (handlePathControl carrier_dst (envs rd i) typ payload ep) m) as Ho.
    pose proof (run_peer_cache r (handlePathControl carrier_dst (envs rd i) typ payload ep) m) as Hc.
    destruct (run_peer _ _ _) as [m' tx]. split_and!; try done.
    intros r' Hr'. apply Ho. congruence.
  - set (m1 := match sm_bySource m !! DstToString ep with Some _ => _ | None => m end) in *.
    assert (sm_cache m1 = sm_cache m /\ same_paths m m1 /\
      forall r, sm_bySource m !! DstToString ep <> Some r -> deref m1 r = deref m r) as (Ec & Hs1 & Ho).
    { unfold m1. destruct (sm_bySource m !! DstToString ep) as [r|]; [|by split_and!; [|apply same_paths_refl|]].
      destruct (isWireGuardTransport b); [|by split_and!; [|apply same_paths_refl|]].
      split_and!; [done| |].
      - apply on_peer_same. intros p _. by destruct (nameForEndpoint _ _ _ _).
      - intros r' Hr'. apply on_peer_other. congruence. }
    clearbody m1. rewrite Ec in *.
    destruct (DuplicateCache.Seen _ _ _ _) as [seen c].
    assert (match sm_bySource m !! DstToString ep with
      | Some r => match deref (set_server_cache c m1) r with Some p => sp_endpoint p | None => ep end
      | None => ep end = tag m ep) as Et.
    { unfold tag, owner_id. destruct (sm_bySource m !! DstToString ep) as [r|]; [|done].
      destruct Hs1 as (_ & _ & _ & Hh). specialize (Hh r).
      change (deref (set_server_cache c m1) r) with (deref m1 r).
      destruct (deref m r), (deref m1 r); try done. simpl. unfold sp_endpoint. destruct Hh. congruence. }
    rewrite Et. by destruct seen.
Qed.

Lemma tag_same m m' ep : same_paths m m' -> tag m' ep = tag m ep.
Proof. intros Hs. unfold tag. by rewrite (same_paths_owner _ _ _ Hs). Qed.

Lemma not_owner_same m m' r ds : same_paths m m' -> not_owner m r ds -> not_owner m' r ds.
Proof. intros (_ & E & _) Hn b ep Hin. rewrite E. by eapply Hn. Qed.

Definition retagged (m : ServerMultipathBind) (d : DuplicateCache.call * Endpoint) : list byte * Endpoint :=
  (DuplicateCache.packet d.1, tag m d.2).

Lemma retagged_same m m' (l : list (DuplicateCache.call * Endpoint)) : same_paths m m' -> retagged m' <$> l = retagged m <$> l.
Proof. intros Hs. apply list_fmap_ext. intros _ d _. unfold retagged. by rewrite (tag_same m m'). Qed.

Lemma server_handle_all rd i ds m :
  let '(kept, m', tx) := handle_all (wrap_one envs cords) rd i ds m in
  let data := server_data rd i ds in
  let '(seen, c) := DuplicateCache.run (data.*1) (sm_cache m) in
  kept = retagged m <$> unseen data seen /\ sm_cache m' = c /\ same_paths m m' /\
  (forall r, not_owner m r ds -> deref m' r = deref m r).
Proof.
  revert i m. induction ds as [|[b ep] ds IH]; intros i m; cbn [handle_all server_data].
  { cbn. split_and!; try done. apply same_paths_refl. }
  pose proof (wrap_one_spec rd i b ep m) as H1.
  destruct (wrap_one envs cords rd i b ep m) as [[d m1] tx1]. destruct H1 as (Hs1 & Ho1 & H1).
  specialize (IH (S i) m1). destruct (handle_all _ _ _ _ m1) as [[kept m2] tx2]. cbv zeta in *.
  assert (forall r, not_owner m r ((b, ep) :: ds) ->
    sm_bySource m !! DstToString ep <> Some r /\ not_owner m1 r ds) as Hno.
  { intros r Hr. split; [apply (Hr b); left|]. eapply not_owner_same; [exact Hs1|].
    intros b' ep' Hin. eapply Hr. right. exact Hin. }
  destruct (_ || _).
  - destruct H1 as [-> Ec]. rewrite Ec in IH. destruct (DuplicateCache.run _ _) as [seen c].
    destruct IH as (-> & Hc & Hs2 & Ho2). split_and!; [by apply retagged_same|done|by eapply same_paths_trans|].
    intros r [Hr1 Hr2]%Hno. rewrite (Ho2 r Hr2). by apply Ho1.
  - rewrite fmap_cons. cbn [fst DuplicateCache.run DuplicateCache.packet DuplicateCache.at_time DuplicateCache.order].
    destruct (DuplicateCache.Seen _ _ _ _) as [sn c1]. destruct H1 as [Ec ->]. rewrite Ec in IH.
    destruct (DuplicateCache.run _ c1) as [seen c]. destruct IH as (-> & Hc & Hs2 & Ho2).
    split_and!; [|done|by eapply same_paths_trans|].
    + rewrite (retagged_same m m1) by done. destruct sn; [by rewrite unseen_true|by rewrite unseen_false].
    + intros r [Hr1 Hr2]%Hno. rewrite (Ho2 r Hr2). by apply Ho1.
Qed.

Fixpoint server_reads (rd : nat) (reads : list (list (@slot Endpoint))) : list (DuplicateCache.call * Endpoint) :=
  match reads with
  | [] => []
  | slots :: reads => server_data rd 0 (content <$> slots) ++ server_reads (S rd) reads
  end.

Lemma server_handle_reads rd reads m :
  let '(kept, m', tx) := handle_reads (wrap_one envs cords) rd reads m in
  let data := server_reads rd reads in
  let '(seen, c) := DuplicateCache.run (data.*1) (sm_cache m) in
  kept = retagged m <$> unseen data seen /\ sm_cache m' = c /\ same_paths m m' /\
  (forall r, not_owner m r (content <$> concat reads) -> deref m' r = deref m r).
Proof.
  revert rd m. induction reads as [|slots reads IH]; intros rd m; cbn [handle_reads server_reads].
  { cbn. split_and!; try done. apply same_paths_refl. }
  pose proof (server_handle_all rd 0 (content <$> slots) m) as H1.
  destruct (handle_all _ _ _ _ _) as [[kept1 m1] tx1]. cbv zeta in *.
  rewrite fmap_app, run_app.
  pose proof (run_length ((server_data rd 0 (content <$> slots)).*1) (sm_cache m)) as Hlen.
  destruct (DuplicateCache.run ((server_data rd 0 (content <$> slots)).*1) (sm_cache m)) as [s1 c1].
  destruct H1 as (-> & Ec & Hs1 & Ho1). specialize (IH (S rd) m1).
  destruct (handle_reads _ _ _ m1) as [[kept2 m2] tx2]. rewrite Ec in IH.
  destruct (DuplicateCache.run _ c1) as [s2 c2]. destruct IH as (-> & Hc2 & Hs2 & Ho2).
  simpl in Hlen. rewrite length_fmap in Hlen.
  split_and!; [|done|by eapply same_paths_trans|].
  - by rewrite unseen_app, fmap_app, (retagged_same m m1) by done.
  - intros r Hr. simpl in Hr. rewrite fmap_app in Hr. rewrite Ho2, Ho1; [done| |].
    + intros b ep Hin. apply (Hr b). apply elem_of_app. by left.
    + eapply not_owner_same; [exact Hs1|]. intros b ep Hin. apply (Hr b). apply elem_of_app. by right.
Qed.

(** A receive of the server's bind returns exactly the new packets of
    the first read that has any, in order, each under the logical endpoint
    of the peer that owns its source, or under its own endpoint when no peer
    does; control frames, empty datagrams and packets already seen are never
    returned.  It changes no path, and not the state of any peer that owns
    none of the sources. *)
Theorem wrap_retags {E : Type} len (reads : list (result E (list (@slot Endpoint)))) m
    (Hu : Forall (fun rd => match rd with Ok slots => uniform len slots | Err _ => True end) reads) :
  let '(res, m', tx) := wrap envs cords reads m in
  exists pre rest, reads = (Ok <$> pre) ++ rest /\
  let data := server_reads 0 pre in
  let '(seen, c) := DuplicateCache.run (data.*1) (sm_cache m) in
  let fresh := unseen data seen in
  sm_cache m' = c /\ same_paths m m' /\
  (forall r, not_owner m r (content <$> concat pre) -> deref m' r = deref m r) /\
  match res with
  | Some (Ok (out, slots)) => fresh <> [] /\ out = length fresh /\
      content <$> take out slots = retagged m <$> fresh
  | Some (Err e) => fresh = [] /\ exists post, rest = Err e :: post
  | None => fresh = [] /\ rest = []
  end.
Proof.
  pose proof (receive_all_spec true (wrap_one envs cords) len 0 reads m Hu) as H.
  unfold wrap. destruct (receive_all _ _ _ _ _) as [[res m'] tx].
  destruct H as (pre & rest & kept & -> & Hh & Hres). exists pre, rest. split; [done|].
  pose proof (server_handle_reads 0 pre m) as Hp. rewrite Hh in Hp. cbv zeta in *.
  destruct (DuplicateCache.run _ _) as [seen c]. destruct Hp as (-> & Hc & Hs & Ho).
  split_and!; try done. destruct res as [[[out slots]|e]|].
  - destruct Hres as (Hne & -> & Hct). rewrite length_fmap in *. split_and!; [|done|done].
    intros Hn. by rewrite Hn in Hne.
  - destruct Hres as (Hn & Hr). split; [|done]. by apply fmap_nil_inv in Hn.
  - destruct Hres as (Hn & Hr). split; [|done]. by apply fmap_nil_inv in Hn.
Qed.
End server_receive.

(** Any datagram that looks like WireGuard transport (four bytes are
    enough) and comes from the source of one of a peer's paths makes that
    path healthy, clears its misses and counts as its last success, whatever
    the kind of the path and whether or not a probe was ever answered; other
    packets do not touch the scheduler. *)
Theorem transport_proves_path envs cords rd i b ep m r p name c
    (Hr : sm_bySource m !! DstToString ep = Some r) (Hp : deref m r = Some p)
    (Hn : nameForEndpoint carrier_dst (envs rd i) ep (sp_state p) = Some name)
    (Hc : candidates (scheduler (sp_state p)) !! name = Some c) :
  exists p', deref (wrap_one envs cords rd i b ep m).1.2 r = Some p' /\
    (isWireGuardTransport b = true -> exists c', candidates (scheduler (sp_state p')) !! name = Some c' /\
       c_Healthy c' = true /\ c_misses c' = 0 /\ c_LastSuccess c' = now (envs rd i)) /\
    (isWireGuardTransport b = false -> DecodeControlFrame b = None -> sp_state p' = sp_state p).
Proof.
  assert (isWireGuardTransport b = true -> DecodeControlFrame b = None /\ (length b =? 0)%nat = false) as Hwg.
  { intros Hb. destruct b as [|b0 [|b1 [|b2 [|b3 b]]]]; try done. simpl. split; [|done].
    unfold DecodeControlFrame, isControlFrame. destruct b as [|b4 b]; [done|]. simpl.
    destruct (Byte.eqb b0 x00) eqn:E0; [|done]. destruct (Byte.eqb b1 x4e) eqn:E1; [|done].
    apply Byte.byte_dec_bl in E0 as ->. apply Byte.byte_dec_bl in E1 as ->.
    exfalso. unfold isWireGuardTransport in Hb. apply Z.eqb_eq in Hb. rewrite le32_eq in Hb.
    pose proof (byte_val_range b2). pose proof (byte_val_range b3).
    change (byte_val x00) with 0 in Hb. change (byte_val x4e) with 78 in Hb. lia. }
  unfold wrap_one. destruct (length b =? 0)%nat eqn:El.
  { exists p. split; [done|]. split; [|done]. intros Hb. by destruct (Hwg Hb). }
  destruct (DecodeControlFrame b) as [[typ payload]|] eqn:Ed.
  { rewrite Hr. unfold dispatchControl, run_peer. rewrite Hp.
    destruct (handlePathControl _ _ _ _ _ _) as [st tx]. simpl.
    eexists. split; [unfold deref, on_peer in *; simpl; by rewrite lookup_alter_eq, Hp|].
    split; [|done]. intros Hb. by destruct (Hwg Hb). }
  rewrite Hr. set (m1 := if isWireGuardTransport b then _ else m).
  assert (exists p', deref m1 r = Some p' /\
    (isWireGuardTransport b = true -> exists c', candidates (scheduler (sp_state p')) !! name = Some c' /\
       c_Healthy c' = true /\ c_misses c' = 0 /\ c_LastSuccess c' = now (envs rd i)) /\
    (isWireGuardTransport b = false -> sp_state p' = sp_state p)) as (p' & Hp' & H1 & H2).
  { unfold m1. destruct (isWireGuardTransport b).
    - eexists. split; [unfold deref, on_peer in *; simpl; by rewrite lookup_alter_eq, Hp|].
      split; [|done]. intros _. simpl. rewrite Hn. simpl. rewrite lookup_alter_eq, Hc.
      eexists. split; [done|]. by unfold probe_result.
    - by exists p. }
  exists p'. clearbody m1. destruct (DuplicateCache.Seen _ _ _ _) as [[] c1];
    (split; [exact Hp'|]; split; [exact H1|]; intros Hb _; by apply H2).
Qed.

(** Sending for one peer cannot reach another: an unknown peer is an
    error and nothing is sent; otherwise the batch goes, unchanged and at
    most twice, to endpoints registered as paths of that peer, and no other
    peer's state moves. *)
Theorem server_Send_isolated rate evs ord e carrier bufs id :
  let m := server_run rate evs in
  let '(res, m', tx) := server_Send ord e carrier bufs (serverMultipathEndpoint id) m in
  (sm_peers m !! id = None -> res = Err ErrUnknownPeer /\ tx = [] /\ m' = m) /\
  (forall bufs' ep, (bufs', ep) ∈ tx -> bufs' = bufs /\ exists r p name,
     sm_peers m !! id = Some r /\ deref m r = Some p /\ sp_id p = id /\
     paths (sp_state p) !! name = Some ep) /\
  (length tx <= 2)%nat /\ same_paths m m' /\
  (forall r, sm_peers m !! id <> Some r -> deref m' r = deref m r).
Proof.
  intros m. destruct (server_run_ok rate evs) as (O1 & _). fold m in O1.
  pose proof (server_Send_same ord e carrier bufs (serverMultipathEndpoint id) m) as Hs.
  unfold server_Send in *. destruct (sm_peers m !! id) as [r|] eqn:Er.
  2:{ split_and!; try done; [|simpl; lia]. by intros ? ? ?%elem_of_nil. }
  destruct (O1 id r Er) as (p & Hp & Hid). rewrite Hp in *.
  destruct (Select ord _) as [[[primary alternate] dup] s].
  set (st := with_scheduler s (sp_state p)) in *.
  assert (forall f r', Some r <> Some r' -> deref (on_peer r f m) r' = deref m r') as Ho.
  { intros f r' Hr'. apply on_peer_other. congruence. }
  destruct (paths st !! primary) as [first|] eqn:Ef.
  2:{ split_and!; try done; [|simpl; lia|by intros r'; apply Ho]. by intros ? ? ?%elem_of_nil. }
  destruct (negb _).
  { split_and!; try done; [|simpl; lia|by intros r'; apply Ho].
    intros b' ep' [= -> ->]%list_elem_of_singleton. eauto 10. }
  destruct (duplicate_batch_spec e carrier bufs alternate dup st) as [[E _]|(second & E & _ & _ & Ea & _)];
    destruct (duplicate_batch _ _ _ _ _ _) as [[res st'] out]; simpl in E; subst out.
  - split_and!; try done; [|simpl; lia|by intros r'; apply Ho].
    intros b' ep' [= -> ->]%list_elem_of_singleton. eauto 10.
  - split_and!; try done; [|by intros r'; apply Ho].
    intros b' ep' Hin. apply elem_of_cons in Hin as [[= -> ->]|[= -> ->]%list_elem_of_singleton]; eauto 10.
Qed.
End server.

(** ** Concrete instances *)
Definition toy_server_events : list (@server_event string) :=
  [SRegister (toy_env 1) "alice" PathWSS PathWSS (CarrierEndpoint "w1") true; SActivate "alice" PathWSS 2;
   SRegister (toy_env 3) "alice" PathDirect PathDirect (CarrierEndpoint "u1") true;
   SRegister (toy_env 4) "bob" PathWSS PathWSS (CarrierEndpoint "w2") true].

Definition toy_server : @ServerMultipathBind string := server_run toy_dst 0 toy_server_events.

(** Bob's WebSocket path registers Alice's datagram source: the source moves. *)
Lemma source_ownership_witness :
  owner_id toy_server "u1" = Some "alice"%string /\
  (exists r p name ep, sm_bySource toy_server !! "u1"%string = Some r /\ deref toy_server r = Some p /\
     sp_id p = "alice"%string /\ paths (sp_state p) !! name = Some ep /\ DstToString toy_dst ep = "u1"%string) /\
  owner_id (server_step toy_dst
    (SRegister (toy_env 5) "bob" PathWSS PathWSS (CarrierEndpoint "u1") true) toy_server) "u1" = Some "bob"%string /\
  RegisterPath toy_dst (toy_env 5) "bob" PathDirect PathDirect (CarrierEndpoint "u1") true toy_server =
    (toy_server, []).
Proof.
  pose proof (source_ownership toy_dst 0 toy_server_events
    (SRegister (toy_env 5) "bob" PathWSS PathWSS (CarrierEndpoint "u1") true) "u1" "alice" eq_refl)
    as ((r & p & name & ep & H1 & H2 & H3 & _ & H4 & H5) & _ & H6).
  split; [vm_compute; reflexivity|]. split; [exists r, p, name, ep; auto|].
  split; [vm_compute; reflexivity|]. apply H6; [discriminate|]. right. split; [reflexivity|discriminate].
Defined.

(** Four bytes from Alice's unproven datagram source. *)
Lemma transport_proves_path_witness :
  exists p', deref (wrap_one toy_dst (fun _ _ => toy_env 9) (fun _ _ => map_keys) 0 0 [x04; x00; x00; x00]
      (CarrierEndpoint "u1") toy_server).1.2 0 = Some p' /\
    exists c', candidates (scheduler (sp_state p')) !! PathDirect = Some c' /\ c_Healthy c' = true.
Proof.
  destruct (deref toy_server 0) as [p|] eqn:Ep; [|vm_compute in Ep; discriminate Ep].
  assert (exists c, candidates (scheduler (sp_state p)) !! PathDirect = Some c /\ c_LastSuccess c = time_zero)
    as (c & Hc & _).
  { vm_compute in Ep. injection Ep as <-. eexists. split; vm_compute; reflexivity. }
  destruct (transport_proves_path toy_dst (fun _ _ => toy_env 9) (fun _ _ => map_keys) 0 0 [x04; x00; x00; x00]
    (CarrierEndpoint "u1") toy_server 0 p PathDirect c) as (p' & Hp' & H & _).
  - vm_compute. reflexivity.
  - exact Ep.
  - vm_compute in Ep. injection Ep as <-. vm_compute. reflexivity.
  - exact Hc.
  - exists p'. split; [exact Hp'|]. destruct (H eq_refl) as (c' & H1 & H2 & _). exists c'. auto.
Defined.

Definition toy_server_reads : list (result unit (list (@slot (@Endpoint string)))) :=
  [Ok [slot_of (wg_packet x01) (CarrierEndpoint "u1"); slot_of (wg_packet x02) (CarrierEndpoint "x")]].

(** Alice's packet is hers; a stranger's keeps its endpoint. *)
Lemma wrap_retags_witness :
  exists slots pre rest,
    (wrap toy_dst (fun _ _ => toy_env 6) (fun _ _ => map_keys) toy_server_reads toy_server).1.1
      = Some (Ok (2%nat, slots)) /\
    content <$> take 2 slots = [(wg_packet x01, serverMultipathEndpoint "alice"); (wg_packet x02, CarrierEndpoint "x")] /\
    toy_server_reads = (Ok <$> pre) ++ rest /\
    content <$> take 2 slots = retagged toy_dst toy_server <$>
      unseen (server_reads (fun _ _ => toy_env 6) (fun _ _ => map_keys) 0 pre)
        (DuplicateCache.run ((server_reads (fun _ _ => toy_env 6) (fun _ _ => map_keys) 0 pre).*1)
           (sm_cache toy_server)).1.
Proof.
  assert (Forall (fun rd => match rd with Ok slots => uniform 32 slots | Err _ => True end) toy_server_reads) as Hu
    by (repeat constructor; vm_compute; lia).
  pose proof (wrap_retags toy_dst (fun _ _ => toy_env 6) (fun _ _ => map_keys) 32 toy_server_reads toy_server Hu) as H.
  assert (exists slots, (wrap toy_dst (fun _ _ => toy_env 6) (fun _ _ => map_keys) toy_server_reads toy_server).1.1
    = Some (Ok (2%nat, slots)) /\ content <$> take 2 slots =
      [(wg_packet x01, serverMultipathEndpoint "alice"); (wg_packet x02, CarrierEndpoint "x")])
    as (slots & E & Ec) by (eexists; split; vm_compute; reflexivity).
  exists slots. destruct (wrap _ _ _ _ _) as [[res m'] tx]. simpl in E. subst res.
  destruct H as (pre & rest & Hr & H). exists pre, rest.
  split; [reflexivity|]. split; [exact Ec|]. split; [exact Hr|]. cbv zeta in H.
  destruct (DuplicateCache.run _ _) as [seen c]. destruct H as (_ & _ & _ & _ & _ & H). exact H.
Defined.
