(* ===== verification/Egress.v ===== *)
(** Destination control: [pkg/socks/filter.go] (the filters of a SOCKS
    tunnel), [pkg/socks/asn.go] (the IPv4-to-ASN index) and
    [pkg/server/policy.go] (the destination policies every egress path
    passes).  The grammar of CIDR strings ([netip.ParsePrefix]) and the
    Unicode case tables are arguments. *)
From S2P Require Import Prelude Bytes Netip.

(** ** pkg/socks/filter.go *)
Record FilterConfig := mkConfig {
  OnlyLocal : bool;
  CIDRs : list string;
  DomainSuffixes : list string;
  ASNs : list Z;
  Invert : bool;
  AllowAll : bool;
  AllowLocalEgress : bool;
}.

Definition deniedByDefault (ip : Addr) : bool :=
  let ip := Unmap ip in
  negb (addr_IsValid ip) || IsLoopback ip || IsUnspecified ip || IsLinkLocalUnicast ip ||
  IsLinkLocalMulticast ip || IsInterfaceLocalMulticast ip.

(** The built-in prefixes, parsed. *)
Definition localCIDRs : list Prefix :=
  [{| p_addr := v4 10 0 0 0; p_bits := 8 |};
   {| p_addr := v4 172 16 0 0; p_bits := 12 |};
   {| p_addr := v4 192 168 0 0; p_bits := 16 |};
   {| p_addr := v6_high 0xfc00 0; p_bits := 7 |}].

(** [ASNLookup.Lookup]. *)
Definition ASNLookup : Type := Addr -> option Z.

Record Filter := mkFilter {
  f_allowLocal : bool;
  f_onlyLocal : bool;
  f_cidrs : list Prefix;
  f_domains : list string;
  f_asns : gset Z;
  f_invert : bool;
  f_allowAll : bool;
  f_hasFilters : bool;
  f_asnLookup : option ASNLookup;
}.

Fixpoint parse_all {E : Type} (ParsePrefix : string -> result E Prefix) (l : list string) :
    result E (list Prefix) :=
  match l with
  | [] => Ok []
  | c :: l =>
      let? p := ParsePrefix c in
      let? ps := parse_all ParsePrefix l in
      Ok (p :: ps)
  end.

Definition nonempty {A} (l : list A) : bool := match l with [] => false | _ => true end.

Definition NewFilter {E : Type} (ParsePrefix : string -> result E Prefix) (cfg : FilterConfig)
    (asnLookup : option ASNLookup) : result E Filter :=
  let? cidrs := parse_all ParsePrefix (CIDRs cfg) in
  let asns : gset Z := list_to_set (ASNs cfg) in
  Ok (mkFilter (AllowLocalEgress cfg) (OnlyLocal cfg) cidrs (DomainSuffixes cfg) asns (Invert cfg)
        (AllowAll cfg)
        (nonempty cidrs || nonempty (DomainSuffixes cfg) || negb (bool_decide (asns = ∅)) ||
         Invert cfg)
        asnLookup).

Definition matchesAnyCIDR (ip : Addr) (prefixes : list Prefix) : bool :=
  if negb (addr_IsValid ip) then false
  else
    let ip := Unmap ip in
    existsb (fun p => if negb (Bool.eqb (Is4 (p_addr p)) (Is4 ip)) then false else Contains p ip) prefixes.

Definition matchesDomainSuffix (hostname : string) (suffixes : list string) : bool :=
  if (hostname =? "")%string then false
  else existsb (fun suf => negb (suf =? "")%string && has_suffix (bytes_of hostname) (bytes_of suf))
         suffixes.

Definition Allowed (f : Filter) (hostname : string) (ip : Addr) : bool :=
  if negb (f_allowLocal f) && deniedByDefault ip then false
  else if f_onlyLocal f then matchesAnyCIDR ip localCIDRs
  else if negb (f_hasFilters f) then f_allowAll f
  else
    let cidrMatch := matchesAnyCIDR ip (f_cidrs f) in
    let asnMatch :=
      if negb cidrMatch && negb (bool_decide (f_asns f = ∅)) then
        match f_asnLookup f with
        | Some Lookup => match Lookup ip with
                         | Some asn => bool_decide (asn ∈ f_asns f)
                         | None => false
                         end
        | None => false
        end
      else false in
    let netMatch := cidrMatch || asnMatch in
    let match_ :=
      if negb (nonempty (f_domains f)) then netMatch
      else if nonempty (f_cidrs f) && negb netMatch then false
      else matchesDomainSuffix hostname (f_domains f) in
    if f_invert f then negb match_ else match_.

(** ** pkg/socks/asn.go *)
Record asnIndexEntry := mkEntry { ASN : Z; Start : Z; End_ : Z }.

Record ASNIndex := mkIndex { entries : list asnIndexEntry; loadedAt : Z }.

Definition NewASNIndex : ASNIndex := mkIndex [] time_zero.

(** [sort.Search]: binary search of the first index of [0, n) at which the
    predicate holds; every pass halves the interval, so [n] is enough fuel. *)
Fixpoint search_loop (fuel : nat) (f : Z -> bool) (i j : Z) : option Z :=
  if i <? j then
    match fuel with
    | O => None
    | S fuel =>
        let h := Z.shiftr (i + j) 1 in
        if negb (f h) then search_loop fuel f (h + 1) j else search_loop fuel f i h
    end
  else Some i.

Definition sort_Search (n : Z) (f : Z -> bool) : option Z := search_loop (Z.to_nat n) f 0 n.

(** [entries[i]]: [None] is the panic of an index out of range. *)
Definition entry_at (l : list asnIndexEntry) (i : Z) : option asnIndexEntry :=
  if i <? 0 then None else l !! Z.to_nat i.

(** [Lookup]: [None] is a panic or a search that never ends, [Some None] the
    answer [0, false]. *)
Definition Lookup_run (a : ASNIndex) (ip : Addr) : option (option Z) :=
  match Unmap ip with
  | Addr4 n =>
      let es := entries a in
      match sort_Search (Zlen es)
              (fun i => match entry_at es i with Some e => n <? Start e | None => false end) with
      | None => None
      | Some i =>
          if i =? 0 then Some None
          else match entry_at es (i - 1) with
               | None => None
               | Some e => Some (if (Start e <=? n) && (n <=? End_ e) then Some (ASN e) else None)
               end
      end
  | _ => Some None
  end.

Definition Lookup (a : ASNIndex) : ASNLookup := fun ip => default None (Lookup_run a ip).

Definition Loaded (a : ASNIndex) : bool * Z := (0 <? Zlen (entries a), loadedAt a).

Definition by_start (x y : asnIndexEntry) : Prop := Start x <= Start y.

#[export] Instance by_start_dec x y : Decision (by_start x y).
Proof. unfold by_start. apply _. Defined.

(** [sort.Slice] leaves the order of equal elements open: any function that
    returns a sorted permutation. *)
Definition sorts_slice (sort : list asnIndexEntry -> list asnIndexEntry) : Prop :=
  forall l, sort l ≡ₚ l /\ Sorted by_start (sort l).

(** [Update]: the download and its decoding, when they succeed, give [raw]. *)
Definition Update (sort : list asnIndexEntry -> list asnIndexEntry) (now : Z)
    (raw : option (list asnIndexEntry)) (a : ASNIndex) : bool * ASNIndex :=
  match raw with
  | None => (false, a)
  | Some raw => (true, mkIndex (sort raw) now)
  end.

(** [Refresh]: one update at once and one at each tick until the stop. *)
Definition Refresh (sort : list asnIndexEntry -> list asnIndexEntry)
    (loads : list (Z * option (list asnIndexEntry))) (a : ASNIndex) : ASNIndex :=
  foldl (fun a '(now, raw) => (Update sort now raw a).2) a loads.

(** ** pkg/server/policy.go *)
Record DestinationPolicy := mkPolicy {
  dp_Filters : list string;
  dp_DomainFilters : list string;
  dp_ASNFilters : list Z;
  dp_OnlyLocal : bool;
  dp_ReverseFilters : bool;
  dp_AllowAll : bool;
  dp_Protocols : list string;
  dp_Ports : list Z;
}.

Record DataPlanePrincipal := mkPrincipal {
  pr_Method : string;
  pr_Identity : string;
  pr_TunnelIP : Addr;
  pr_Tunnels : gset string;
  pr_Policy : string;
}.

Record DestinationContext := mkContext {
  dc_Principal : DataPlanePrincipal;
  dc_Tunnel : string;
  dc_Hostname : string;
  dc_Protocol : string;
  dc_IP : Addr;
  dc_Port : Z;
  dc_ASN : Z;
}.

Inductive Reason := ProtocolDenied | PortDenied | DestinationDenied | PolicyAllowed.

Record DestinationDecision := mkDecision { dd_Allowed : bool; dd_Reason : Reason }.

Record compiledPolicy := mkCompiled {
  cp_filter : Filter;
  cp_protocols : gset (list byte);
  cp_ports : gset Z;
}.

Inductive policy_error (E : Type) := BadPrefix (e : E) | UnsupportedProtocol (v : list byte) | PortZero.
Arguments BadPrefix {_} _.
Arguments UnsupportedProtocol {_} _.
Arguments PortZero {_}.

Definition tcp : list byte := bytes_of "tcp".
Definition udp : list byte := bytes_of "udp".

Section policy.
Context {E : Type} (ParsePrefix : string -> result E Prefix).
Context (unicode_lower : list byte -> list byte).

Fixpoint compile_protocols (l : list string) (acc : gset (list byte)) :
    result (policy_error E) (gset (list byte)) :=
  match l with
  | [] => Ok acc
  | v :: l =>
      let v := to_lower unicode_lower (trim_space (bytes_of v)) in
      if negb (bool_decide (v = tcp)) && negb (bool_decide (v = udp)) then Err (UnsupportedProtocol v)
      else compile_protocols l ({[v]} ∪ acc)
  end.

Fixpoint compile_ports (l : list Z) (acc : gset Z) : result (policy_error E) (gset Z) :=
  match l with
  | [] => Ok acc
  | v :: l => if v =? 0 then Err PortZero else compile_ports l ({[v]} ∪ acc)
  end.

Definition policy_filter_config (p : DestinationPolicy) : FilterConfig :=
  mkConfig (dp_OnlyLocal p) (dp_Filters p) (dp_DomainFilters p) (dp_ASNFilters p)
    (dp_ReverseFilters p) (dp_AllowAll p) false.

Definition compilePolicy (p : DestinationPolicy) (asn : option ASNLookup) :
    result (policy_error E) compiledPolicy :=
  match NewFilter ParsePrefix (policy_filter_config p) asn with
  | Err e => Err (BadPrefix e)
  | Ok f =>
      let? protocols := compile_protocols (dp_Protocols p) ∅ in
      let? ports := compile_ports (dp_Ports p) ∅ in
      Ok (mkCompiled f protocols ports)
  end.

Definition decide_ (c : compiledPolicy) (ctx : DestinationContext) : DestinationDecision :=
  if negb (bool_decide (cp_protocols c = ∅)) &&
     negb (bool_decide (to_lower unicode_lower (bytes_of (dc_Protocol ctx)) ∈ cp_protocols c))
  then mkDecision false ProtocolDenied
  else if negb (bool_decide (cp_ports c = ∅)) && negb (bool_decide (dc_Port ctx ∈ cp_ports c))
  then mkDecision false PortDenied
  else if negb (Allowed (cp_filter c) (dc_Hostname ctx) (dc_IP ctx))
  then mkDecision false DestinationDenied
  else mkDecision true PolicyAllowed.

(** The loop over the two policy names.  The table is read once per name,
    under the server's lock, so a reload can come between the two readings:
    each name carries the table it meets. *)
Fixpoint policies_allow (names : list (string * gmap string compiledPolicy))
    (ctx : DestinationContext) : bool :=
  match names with
  | [] => true
  | (name, policies) :: names =>
      if (name =? "")%string then policies_allow names ctx
      else match policies !! name with
           | None => false
           | Some p => if negb (dd_Allowed (decide_ p ctx)) then false else policies_allow names ctx
           end
  end.

Definition destinationAllowed (policies policies' : gmap string compiledPolicy)
    (principal : DataPlanePrincipal) (tunnel tunnel_policy hostname : string) (ip : Addr) (port : Z)
    (protocol : string) : bool :=
  policies_allow [(pr_Policy principal, policies); (tunnel_policy, policies')]
    (mkContext principal tunnel hostname protocol ip port 0).
End policy.

(** ** The floor as ranges of addresses *)

(** The destinations no filter reaches by default: the zero address, IPv4
    0.0.0.0, 127/8, 169.254/16 and 224.0.0/24, IPv6 ::, ::1, fe80::/10, ff?1
    and ff?2, and the IPv4 ones written as IPv6. *)
Definition in_floor (ip : Addr) : Prop :=
  match Unmap ip with
  | AddrNone => True
  | Addr4 a =>
      a = 0 \/ 127 * 2 ^ 24 <= a < 128 * 2 ^ 24 \/
      (169 * 256 + 254) * 2 ^ 16 <= a < (169 * 256 + 254 + 1) * 2 ^ 16 \/
      224 * 2 ^ 24 <= a < 224 * 2 ^ 24 + 256
  | Addr6 a z =>
      a = 1 \/ (a = 0 /\ z = ""%string) \/ 0xfe80 * 2 ^ 112 <= a < 0xfec0 * 2 ^ 112 \/
      multicast_scope (a / 2 ^ 112) 1 = true \/ multicast_scope (a / 2 ^ 112) 2 = true
  end.

Lemma deniedByDefault_spec ip : addr_wf ip = true -> deniedByDefault ip = true <-> in_floor ip.
Proof.
  intros Hwf%Unmap_wf. unfold deniedByDefault, in_floor. pose proof (Unmap_unmapped ip) as Hm.
  destruct (Unmap ip) as [|a|a z].
  - done.
  - cbn [addr_IsValid negb orb IsInterfaceLocalMulticast IsUnspecified].
    rewrite orb_false_r, !orb_true_iff, IsLoopback_4, Z.eqb_eq, IsLinkLocalUnicast_4,
      IsLinkLocalMulticast_4. tauto.
  - assert (Ha : 0 <= a < 2 ^ 128).
    { unfold addr_wf in Hwf. rewrite andb_true_iff, Z.leb_le, Z.ltb_lt in Hwf. done. }
    cbn [addr_IsValid negb orb IsUnspecified].
    rewrite !orb_true_iff, IsLoopback_6, IsLinkLocalUnicast_6 by done.
    rewrite IsLinkLocalMulticast_6, IsInterfaceLocalMulticast_6 by done.
    rewrite andb_true_iff, Z.eqb_eq, String.eqb_eq. tauto.
Qed.

(** ** Prefix lists *)
Definition in_prefix (p : Prefix) (ip : Addr) : Prop :=
  let x := Unmap ip in
  Is4 (p_addr p) = Is4 x /\ addr_IsValid x = true /\ zone_free x = true /\
  addr_int x / 2 ^ (width x - p_bits p) = addr_int (p_addr p) / 2 ^ (width x - p_bits p).

Lemma matchesAnyCIDR_spec ip ps :
  addr_wf ip = true -> Forall (fun p => prefix_wf p = true) ps ->
  matchesAnyCIDR ip ps = true <-> exists p, p ∈ ps /\ in_prefix p ip.
Proof.
  intros Hwf Hps. rewrite Forall_forall in Hps. unfold matchesAnyCIDR.
  rewrite <-(Unmap_valid ip). destruct (addr_IsValid (Unmap ip)) eqn:Hv; simpl.
  - rewrite existsb_exists. split.
    + intros (p & Hin & Hc). apply list_elem_of_In in Hin. exists p. split; [done|].
      destruct (Bool.eqb _ _); [|done]. simpl in Hc.
      apply Contains_spec in Hc; auto using Unmap_wf.
    + intros (p & Hin & Hp). exists p. split; [by apply list_elem_of_In|].
      assert (Heq : Is4 (p_addr p) = Is4 (Unmap ip)) by apply Hp.
      rewrite Heq, eqb_reflx. simpl. apply Contains_spec; auto using Unmap_wf.
  - split; [done|]. intros (p & _ & _ & Hv' & _). congruence.
Qed.

(** The private ranges of [only_local]: 10/8, 172.16/12, 192.168/16, fc00::/7. *)
Definition private (ip : Addr) : Prop :=
  match Unmap ip with
  | AddrNone => False
  | Addr4 a =>
      10 * 2 ^ 24 <= a < 11 * 2 ^ 24 \/
      (172 * 256 + 16) * 2 ^ 16 <= a < (172 * 256 + 32) * 2 ^ 16 \/
      (192 * 256 + 168) * 2 ^ 16 <= a < (192 * 256 + 169) * 2 ^ 16
  | Addr6 a z => z = ""%string /\ 0xfc00 * 2 ^ 112 <= a < 0xfe00 * 2 ^ 112
  end.

Lemma localCIDRs_wf : Forall (fun p => prefix_wf p = true) localCIDRs.
Proof. repeat constructor. Qed.

(** Membership in a literal IPv4 block is a range of integers. *)
Lemma in_block a b n lo hi :
  0 <= n -> lo = b / 2 ^ n * 2 ^ n -> hi = lo + 2 ^ n -> a / 2 ^ n = b / 2 ^ n <-> lo <= a < hi.
Proof. intros Hn -> ->. by apply block_range. Qed.

Lemma matches_local ip : addr_wf ip = true -> matchesAnyCIDR ip localCIDRs = true <-> private ip.
Proof.
  intros Hwf. rewrite matchesAnyCIDR_spec by auto using localCIDRs_wf.
  unfold localCIDRs, in_prefix, private.
  setoid_rewrite elem_of_cons. setoid_rewrite elem_of_cons. setoid_rewrite elem_of_cons.
  setoid_rewrite list_elem_of_singleton.
  destruct (Unmap ip) as [|a|a z].
  - split; [|done]. by intros (p & _ & _ & ? & _).
  - rewrite <-(in_block a (10 * 2 ^ 24) 24 (10 * 2 ^ 24) (11 * 2 ^ 24)) by done.
    rewrite <-(in_block a ((172 * 256 + 16) * 2 ^ 16) 20 ((172 * 256 + 16) * 2 ^ 16)
                 ((172 * 256 + 32) * 2 ^ 16)) by done.
    rewrite <-(in_block a ((192 * 256 + 168) * 2 ^ 16) 16 ((192 * 256 + 168) * 2 ^ 16)
                 ((192 * 256 + 169) * 2 ^ 16)) by done.
    split.
    + intros (p & [->|[->|[->| ->]]] & H4 & _ & _ & Hb); [by left|by right; left|by right; right|done].
    + intros [Hb|[Hb|Hb]];
        [exists {| p_addr := v4 10 0 0 0; p_bits := 8 |}
        |exists {| p_addr := v4 172 16 0 0; p_bits := 12 |}
        |exists {| p_addr := v4 192 168 0 0; p_bits := 16 |}];
        (split; [naive_solver|]); repeat split; exact Hb.
  - rewrite <-(in_block a (0xfc00 * 2 ^ 112) 121 (0xfc00 * 2 ^ 112) (0xfe00 * 2 ^ 112)) by done.
    split.
    + intros (p & [->|[->|[->| ->]]] & H4 & _ & Hz & Hb); [done|done|done|].
      split; [by apply String.eqb_eq|exact Hb].
    + intros [-> Hb]. eexists. split; [by right; right; right|]. repeat split. exact Hb.
Qed.

(** ** The filter *)
Lemma parse_all_spec {E} (P : string -> result E Prefix) l ps :
  parse_all P l = Ok ps -> Forall2 (fun c p => P c = Ok p) l ps.
Proof.
  revert ps. induction l as [|c l IH]; simpl; intros ps Hps.
  - injection Hps as <-. constructor.
  - apply res_bind_ok in Hps as (p & Hp & Hps). apply res_bind_ok in Hps as (ps' & Hl & Hps).
    injection Hps as <-. constructor; auto.
Qed.

Lemma parse_all_elem {E} (P : string -> result E Prefix) l ps p :
  parse_all P l = Ok ps -> p ∈ ps <-> exists c, c ∈ l /\ P c = Ok p.
Proof.
  intros Hps%parse_all_spec. induction Hps as [|c p' l ps Hc _ IH].
  - split; [by intros ?%not_elem_of_nil|by intros (? & ?%not_elem_of_nil & _)].
  - rewrite elem_of_cons, IH. setoid_rewrite elem_of_cons. naive_solver congruence.
Qed.

Lemma parse_all_nonempty {E} (P : string -> result E Prefix) l ps :
  parse_all P l = Ok ps -> nonempty ps = nonempty l.
Proof. by intros [| ]%parse_all_spec. Qed.

Lemma parse_all_wf {E} (P : string -> result E Prefix) l ps :
  (forall c p, P c = Ok p -> prefix_wf p = true) ->
  parse_all P l = Ok ps -> Forall (fun p => prefix_wf p = true) ps.
Proof.
  intros HP Hps. apply Forall_forall. intros p Hp.
  apply (parse_all_elem _ _ _ _ Hps) in Hp as (c & _ & Hc). eauto.
Qed.

Lemma matchesDomainSuffix_spec host l :
  matchesDomainSuffix host l = true <->
  host <> ""%string /\ exists suf, suf ∈ l /\ suf <> ""%string /\ bytes_of suf `suffix_of` bytes_of host.
Proof.
  unfold matchesDomainSuffix. destruct (host =? "")%string eqn:Hh; bool_to_prop.
  - split; [done|]. intros [? _]. congruence.
  - rewrite existsb_exists. split.
    + intros (suf & Hin%list_elem_of_In & Hsuf). split; [done|]. exists suf. split; [done|].
      apply andb_true_iff in Hsuf as [Hn Hs]. bool_to_prop. split; [done|]. by apply has_suffix_spec.
    + intros [_ (suf & Hin & Hn & Hs)]. exists suf. split; [by apply list_elem_of_In|].
      apply andb_true_iff. split; [by apply negb_true_iff, String.eqb_neq|by apply has_suffix_spec].
Qed.

Lemma list_to_set_empty (l : list Z) : bool_decide ((list_to_set l : gset Z) = ∅) = negb (nonempty l).
Proof.
  destruct l as [|a l]; simpl; [by rewrite bool_decide_eq_true|].
  rewrite bool_decide_eq_false. set_solver.
Qed.

(** What a configuration means, in terms of its strings. *)
Section meaning.
Context {E : Type} (P : string -> result E Prefix) (lookup : option ASNLookup) (cfg : FilterConfig).

Definition cidr_hit (ip : Addr) : Prop :=
  exists c p, c ∈ CIDRs cfg /\ P c = Ok p /\ in_prefix p ip.

Definition asn_hit (ip : Addr) : Prop :=
  exists L asn, lookup = Some L /\ L ip = Some asn /\ asn ∈ ASNs cfg.

Definition domain_hit (host : string) : Prop :=
  host <> ""%string /\
  exists suf, suf ∈ DomainSuffixes cfg /\ suf <> ""%string /\ bytes_of suf `suffix_of` bytes_of host.

(** The destinations the lists select: without domain suffixes the CIDR and
    ASN lists, with them the suffixes, and the lists too when there is a CIDR. *)
Definition selected (host : string) (ip : Addr) : Prop :=
  match DomainSuffixes cfg with
  | [] => cidr_hit ip \/ asn_hit ip
  | _ => domain_hit host /\ (CIDRs cfg = [] \/ cidr_hit ip \/ asn_hit ip)
  end.

Definition unfiltered : Prop :=
  CIDRs cfg = [] /\ DomainSuffixes cfg = [] /\ ASNs cfg = [] /\ Invert cfg = false.

Context (HP : forall c p, P c = Ok p -> prefix_wf p = true).
Context (f : Filter) (Hf : NewFilter P cfg lookup = Ok f).

Lemma NewFilter_inv :
  exists cidrs, parse_all P (CIDRs cfg) = Ok cidrs /\
  f = mkFilter (AllowLocalEgress cfg) (OnlyLocal cfg) cidrs (DomainSuffixes cfg)
        (list_to_set (ASNs cfg)) (Invert cfg) (AllowAll cfg)
        (nonempty cidrs || nonempty (DomainSuffixes cfg) ||
         negb (bool_decide ((list_to_set (ASNs cfg) : gset Z) = ∅)) || Invert cfg) lookup.
Proof.
  unfold NewFilter in Hf. apply res_bind_ok in Hf as (cidrs & Hc & Hf').
  injection Hf' as <-. by exists cidrs.
Qed.

Lemma hasFilters_spec : f_hasFilters f = false <-> unfiltered.
Proof.
  destruct NewFilter_inv as (cidrs & Hc & ->). simpl.
  rewrite list_to_set_empty, negb_involutive, (parse_all_nonempty _ _ _ Hc), !orb_false_iff. unfold unfiltered.
  destruct (CIDRs cfg), (DomainSuffixes cfg), (ASNs cfg); simpl; naive_solver.
Qed.

Lemma cidrs_spec ip : addr_wf ip = true -> matchesAnyCIDR ip (f_cidrs f) = true <-> cidr_hit ip.
Proof.
  intros Hip. destruct NewFilter_inv as (cidrs & Hc & ->). simpl.
  rewrite matchesAnyCIDR_spec by eauto using parse_all_wf.
  unfold cidr_hit. split.
  - intros (p & Hp & Hin). apply (parse_all_elem _ _ _ _ Hc) in Hp as (c & ? & ?). eauto.
  - intros (c & p & ? & ? & Hin). exists p. split; [|done]. apply (parse_all_elem _ _ _ _ Hc). eauto.
Qed.

(** The ASN part of [Allowed], consulted on a CIDR miss. *)
Lemma asn_part ip :
  (if negb (bool_decide (f_asns f = ∅)) then
     match f_asnLookup f with
     | Some Lookup => match Lookup ip with
                      | Some asn => bool_decide (asn ∈ f_asns f)
                      | None => false
                      end
     | None => false
     end
   else false) = true <-> asn_hit ip.
Proof.
  destruct NewFilter_inv as (cidrs & Hc & ->). cbn [f_asns f_asnLookup].
  rewrite list_to_set_empty, negb_involutive. unfold asn_hit. split.
  - destruct (nonempty (ASNs cfg)); [|done]. destruct lookup as [L|]; [|done].
    destruct (L ip) as [asn|] eqn:HL; [|done].
    intros Hin%bool_decide_eq_true%elem_of_list_to_set. by exists L, asn.
  - intros (L & asn & -> & -> & Hin). destruct (ASNs cfg) eqn:Ha; [by apply not_elem_of_nil in Hin|].
    by apply bool_decide_eq_true, elem_of_list_to_set.
Qed.

(** The value [match] of [Allowed]. *)
Lemma selected_spec host ip :
  addr_wf ip = true ->
  let net := matchesAnyCIDR ip (f_cidrs f) ||
    (if negb (matchesAnyCIDR ip (f_cidrs f)) && negb (bool_decide (f_asns f = ∅)) then
       match f_asnLookup f with
       | Some Lookup => match Lookup ip with
                        | Some asn => bool_decide (asn ∈ f_asns f)
                        | None => false
                        end
       | None => false
       end
     else false) in
  (if negb (nonempty (f_domains f)) then net
   else if nonempty (f_cidrs f) && negb net then false
   else matchesDomainSuffix host (f_domains f)) = true <-> selected host ip.
Proof.
  intros Hip net.
  assert (Hnet : net = true <-> cidr_hit ip \/ asn_hit ip).
  { unfold net. rewrite orb_true_iff, <-(cidrs_spec ip), <-(asn_part ip) by done.
    destruct (matchesAnyCIDR ip (f_cidrs f)); simpl; [tauto|]. tauto. }
  clearbody net.
  assert (Hd : f_domains f = DomainSuffixes cfg /\ nonempty (f_cidrs f) = nonempty (CIDRs cfg)).
  { destruct NewFilter_inv as (cidrs & Hc & ->). split; [done|]. simpl. eauto using parse_all_nonempty. }
  destruct Hd as [-> ->]. unfold selected. pose proof (matchesDomainSuffix_spec host (DomainSuffixes cfg)) as Hm.
  fold (domain_hit host) in Hm. unfold domain_hit in *.
  destruct (DomainSuffixes cfg) as [|d ds]; [exact Hnet|]. cbn [nonempty negb].
  destruct (CIDRs cfg) as [|c cs]; cbn [nonempty andb]; [rewrite Hm; tauto|].
  destruct net; cbn [negb]; [rewrite Hm; tauto|].
  split; [done|]. intros [_ [?|?%Hnet]]; done.
Qed.
End meaning.

(** What a compiled filter lets through. *)
Definition permits {E} (P : string -> result E Prefix) (lookup : option ASNLookup)
    (cfg : FilterConfig) (host : string) (ip : Addr) : Prop :=
  (AllowLocalEgress cfg = true \/ ~ in_floor ip) /\
  if OnlyLocal cfg then private ip
  else (unfiltered cfg /\ AllowAll cfg = true) \/
       (~ unfiltered cfg /\
        if Invert cfg then ~ selected P lookup cfg host ip else selected P lookup cfg host ip).

Lemma Allowed_permits {E} (P : string -> result E Prefix) lookup cfg f host ip :
  (forall c p, P c = Ok p -> prefix_wf p = true) ->
  NewFilter P cfg lookup = Ok f -> addr_wf ip = true ->
  Allowed f host ip = true <-> permits P lookup cfg host ip.
Proof.
  intros HP Hf Hip. unfold Allowed, permits. cbv zeta.
  pose proof (selected_spec P lookup cfg HP f Hf host ip Hip) as Hsel. cbv zeta in Hsel.
  pose proof (hasFilters_spec P lookup cfg f Hf) as Hun.
  destruct (NewFilter_inv P lookup cfg f Hf) as (cidrs & _ & Hfe).
  assert (f_allowLocal f = AllowLocalEgress cfg /\ f_onlyLocal f = OnlyLocal cfg /\
          f_allowAll f = AllowAll cfg /\ f_invert f = Invert cfg) as (-> & -> & -> & ->) by (by subst f).
  pose proof (deniedByDefault_spec ip Hip) as Hfl.
  assert (Hfloor : negb (AllowLocalEgress cfg) && deniedByDefault ip = false <->
                   (AllowLocalEgress cfg = true \/ ~ in_floor ip)).
  { rewrite <-Hfl, andb_false_iff, negb_false_iff, not_true_iff_false. tauto. }
  destruct (negb (AllowLocalEgress cfg) && deniedByDefault ip) eqn:Hd.
  { split; [done|]. intros [Hx _]. apply Hfloor in Hx. congruence. }
  destruct (OnlyLocal cfg); [rewrite (matches_local ip Hip); tauto|].
  destruct (f_hasFilters f); cbn [negb].
  - assert (Hn : ~ unfiltered cfg) by (intros ?%Hun; congruence).
    destruct (Invert cfg); [rewrite negb_true_iff, <-not_true_iff_false|]; rewrite Hsel; tauto.
  - assert (unfiltered cfg) by (by apply Hun). tauto.
Qed.

(** A compiled filter lets a destination through exactly when the
    configuration means it: never below the floor (loopback, link-local,
    unspecified, and their IPv4-mapped forms) unless [AllowLocalEgress] is
    set; only private ranges under [OnlyLocal]; nothing when no filter is
    configured, unless [AllowAll]; otherwise the destinations the lists
    select, or under [Invert] the others. *)
Theorem Allowed_spec {E} (P : string -> result E Prefix) lookup cfg f host ip :
  (forall c p, P c = Ok p -> prefix_wf p = true) ->
  NewFilter P cfg lookup = Ok f -> addr_wf ip = true ->
  Allowed f host ip = true <-> permits P lookup cfg host ip.
Proof. apply Allowed_permits. Qed.

Definition toy_parse (s : string) : result unit Prefix :=
  if (s =? "198.51.100.0/24")%string then Ok {| p_addr := v4 198 51 100 0; p_bits := 24 |}
  else Err ().

Lemma toy_parse_wf c p : toy_parse c = Ok p -> prefix_wf p = true.
Proof. unfold toy_parse. case_go; [|done]. intros [= <-]. reflexivity. Qed.

Definition toy_filter : FilterConfig :=
  mkConfig false ["198.51.100.0/24"] [".example.com"] [] false false false.

(** The list, the suffix and the floor at work: both lists must match, and
    the IPv4-mapped form of a listed address counts. *)
Lemma Allowed_spec_witness :
  match NewFilter toy_parse toy_filter None with
  | Err _ => False
  | Ok f =>
      permits toy_parse None toy_filter "a.example.com" (v4 198 51 100 7) /\
      permits toy_parse None toy_filter "a.example.com" (Addr6 (0xffffc6336407) "") /\
      ~ permits toy_parse None toy_filter "example.org" (v4 198 51 100 7) /\
      ~ permits toy_parse None toy_filter "a.example.com" (v4 127 0 0 1)
  end.
Proof.
  destruct (NewFilter toy_parse toy_filter None) as [f|] eqn:Hf; [|vm_compute in Hf; discriminate].
  assert (Hall : forall host ip b, addr_wf ip = true ->
            Allowed f host ip = b -> if b then permits toy_parse None toy_filter host ip
                                     else ~ permits toy_parse None toy_filter host ip).
  { intros host ip [] Hip Hb.
    - by apply (Allowed_spec toy_parse None toy_filter f host ip toy_parse_wf Hf Hip).
    - intros Hp. apply (Allowed_spec toy_parse None toy_filter f host ip toy_parse_wf Hf Hip) in Hp.
      congruence. }
  assert (Hf' : f = match NewFilter toy_parse toy_filter None with Ok f => f | Err _ => f end)
    by (by rewrite Hf).
  rewrite Hf' in Hall.
  split; [|split; [|split]].
  - apply (Hall "a.example.com"%string (v4 198 51 100 7) true); vm_compute; reflexivity.
  - apply (Hall "a.example.com"%string (Addr6 (0xffffc6336407) "") true); vm_compute; reflexivity.
  - apply (Hall "example.org"%string (v4 198 51 100 7) false); vm_compute; reflexivity.
  - apply (Hall "a.example.com"%string (v4 127 0 0 1) false); vm_compute; reflexivity.
Defined.

(** ** The ASN index *)

(** Binary search ends, and for a monotone predicate it finds the boundary. *)
Lemma search_loop_spec f n fuel i j :
  (forall k k', 0 <= k <= k' -> k' < n -> f k = true -> f k' = true) ->
  0 <= i <= j -> j <= n -> j - i <= Z.of_nat fuel ->
  (forall k, 0 <= k < i -> f k = false) -> (forall k, j <= k < n -> f k = true) ->
  exists r, search_loop fuel f i j = Some r /\ 0 <= r <= n /\
    (forall k, 0 <= k < r -> f k = false) /\ (forall k, r <= k < n -> f k = true).
Proof.
  intros Hmono. revert i j. induction fuel as [|fuel IH]; intros i j Hij Hjn Hfuel Hlo Hhi.
  - simpl. destruct (i <? j) eqn:E; [bool_lia|]. bool_to_prop. exists i.
    split; [done|]. split; [lia|]. split; [done|]. intros k Hk. apply Hhi. lia.
  - simpl. destruct (i <? j) eqn:E; bool_to_prop.
    + assert (Hh : i <= Z.shiftr (i + j) 1 < j).
      { rewrite Z.shiftr_div_pow2 by lia. change (2 ^ 1) with 2.
        Z.to_euclidean_division_equations. lia. }
      set (h := Z.shiftr (i + j) 1) in *. clearbody h.
      destruct (f h) eqn:Hfh; simpl; apply IH; try lia; try done.
      * intros k Hk. destruct (Z.lt_ge_cases k j); [|apply Hhi; lia]. apply (Hmono h); lia || done.
      * intros k Hk. destruct (Z.lt_ge_cases k i); [apply Hlo; lia|].
        destruct (f k) eqn:Hfk; [|done]. assert (f h = true) by (apply (Hmono k); lia || done). congruence.
    + exists i. split; [done|]. split; [lia|]. split; [done|]. intros k Hk. apply Hhi. lia.
Qed.

Lemma sort_Search_spec n f :
  0 <= n -> (forall k k', 0 <= k <= k' -> k' < n -> f k = true -> f k' = true) ->
  exists r, sort_Search n f = Some r /\ 0 <= r <= n /\
    (forall k, 0 <= k < r -> f k = false) /\ (forall k, r <= k < n -> f k = true).
Proof. intros Hn Hmono. unfold sort_Search. apply search_loop_spec; try lia; done. Qed.

Definition covers (n : Z) (e : asnIndexEntry) : bool := (Start e <=? n) && (n <=? End_ e).

(** Ranges that announce an address at most once. *)
Definition apart (x y : asnIndexEntry) : Prop := End_ x < Start y \/ End_ y < Start x.
Definition disjoint_ranges (l : list asnIndexEntry) : Prop :=
  Forall (fun e => Start e <= End_ e) l /\ ForallOrdPairs apart l.

(** The linear reference: the first range of the download that has the address. *)
Definition lookup_reference (raw : list asnIndexEntry) : ASNLookup := fun ip =>
  match Unmap ip with
  | Addr4 n => ASN <$> List.find (covers n) raw
  | _ => None
  end.

Lemma entry_at_lookup l i e : entry_at l i = Some e <-> 0 <= i /\ l !! Z.to_nat i = Some e.
Proof. unfold entry_at. case_go; bool_to_prop; naive_solver lia. Qed.

Lemma entry_at_lt l i : 0 <= i < Zlen l -> is_Some (entry_at l i).
Proof.
  intros Hi. unfold entry_at. destruct (i <? 0) eqn:E; [bool_lia|].
  apply lookup_lt_is_Some. unfold Zlen in Hi. lia.
Qed.

Lemma apart_sym x y : apart x y -> apart y x.
Proof. unfold apart. tauto. Qed.

Lemma apart_pairs_perm l l' : l ≡ₚ l' -> ForallOrdPairs apart l -> ForallOrdPairs apart l'.
Proof.
  induction 1 as [|x l l' Hp IH|x y l|l l' l'' _ IH1 _ IH2]; auto.
  - inversion 1; subst. constructor; [by rewrite <-Hp|auto].
  - intros H. inversion H as [|? ? Hy H']; subst. inversion H' as [|? ? Hx H'']; subst.
    apply Forall_cons in Hy as [Hyx Hy]. constructor; [constructor; auto using apart_sym|].
    by constructor.
Qed.

Lemma disjoint_perm l l' : l ≡ₚ l' -> disjoint_ranges l -> disjoint_ranges l'.
Proof. intros Hp [H1 H2]. split; [by rewrite <-Hp|by eapply apart_pairs_perm]. Qed.

(** In disjoint ranges the entry that has an address is unique. *)
Lemma covers_unique l n x y :
  disjoint_ranges l -> x ∈ l -> y ∈ l -> covers n x = true -> covers n y = true -> x = y.
Proof.
  intros [_ Hd] Hx Hy Hcx Hcy. apply list_elem_of_In in Hx, Hy.
  destruct (ForallOrdPairs_In Hd x y Hx Hy) as [?|[Ha|Ha]]; [done| |];
    unfold apart, covers in *; bool_to_prop; lia.
Qed.

Lemma find_covers l n e :
  disjoint_ranges l -> List.find (covers n) l = Some e <-> e ∈ l /\ covers n e = true.
Proof.
  intros Hd. split.
  - intros [Hin Hc]%find_some. by rewrite list_elem_of_In.
  - intros [Hin Hc]. destruct (List.find (covers n) l) as [e'|] eqn:Hf.
    + apply find_some in Hf as [Hin' Hc']. apply list_elem_of_In in Hin'.
      f_equal. by apply (covers_unique l n).
    + apply list_elem_of_In in Hin. pose proof (find_none _ _ Hf e Hin). congruence.
Qed.

Lemma sorted_starts l i j x y :
  Sorted by_start l -> (i <= j)%nat -> l !! i = Some x -> l !! j = Some y -> Start x <= Start y.
Proof.
  intros Hs Hij Hx Hy. assert (Ht : Transitive by_start) by (intros ? ? ?; unfold by_start; lia).
  apply Sorted_StronglySorted in Hs; [|done].
  revert i j Hij Hx Hy. induction Hs as [|e l _ IH Hall]; intros [|i] [|j] Hij Hx Hy; simplify_eq/=; try lia.
  - rewrite Forall_forall in Hall. apply (Hall y). eapply list_elem_of_lookup_2; eauto.
  - eapply (IH i j); eauto. lia.
Qed.

(** The search finds the entry that has the address. *)
Lemma Lookup_sorted l t ip :
  Sorted by_start l -> disjoint_ranges l ->
  Lookup_run (mkIndex l t) ip = Some (lookup_reference l ip).
Proof.
  intros Hs Hd. unfold Lookup_run, lookup_reference. destruct (Unmap ip) as [|n|]; [done| |done].
  cbn [entries]. set (f := fun i => match entry_at l i with Some e => n <? Start e | None => false end).
  destruct (sort_Search_spec (Zlen l) f) as (r & -> & Hr & Hlo & Hhi); [apply Zlen_nonneg| |].
  { intros k k' Hk Hk'. unfold f.
    destruct (entry_at_lt l k) as [x Hx]; [lia|]. destruct (entry_at_lt l k') as [y Hy]; [lia|].
    rewrite Hx, Hy. apply entry_at_lookup in Hx as [_ Hx], Hy as [_ Hy]. intros Hlt.
    pose proof (sorted_starts l (Z.to_nat k) (Z.to_nat k') x y Hs ltac:(lia) Hx Hy). bool_to_prop.
    apply Z.ltb_lt. lia. }
  assert (Hafter : forall i e, l !! i = Some e -> covers n e = true -> Z.of_nat i < r).
  { intros i e Hi Hc. destruct (Z.lt_ge_cases (Z.of_nat i) r); [done|].
    pose proof (lookup_lt_Some _ _ _ Hi). pose proof (Hhi (Z.of_nat i)) as Hh.
    unfold f, entry_at, Zlen in Hh. destruct (_ <? 0) eqn:E in Hh; [bool_lia|].
    rewrite Nat2Z.id, Hi in Hh. specialize (Hh ltac:(lia)). unfold covers in Hc. bool_lia. }
  destruct (r =? 0) eqn:Hr0; bool_to_prop.
  - f_equal. destruct (List.find (covers n) l) as [e|] eqn:Hf; [|done].
    apply (find_covers _ _ _ Hd) in Hf as [[i Hi]%list_elem_of_lookup Hc].
    pose proof (Hafter i e Hi Hc). lia.
  - destruct (entry_at_lt l (r - 1)) as [e He]; [lia|]. rewrite He. f_equal.
    pose proof (Hlo (r - 1) ltac:(lia)) as Hle. unfold f in Hle. rewrite He in Hle.
    apply entry_at_lookup in He as [_ He]. fold (covers n e).
    destruct (covers n e) eqn:Hc.
    + rewrite (proj2 (find_covers l n e Hd)); [done|]. split; [by apply list_elem_of_lookup; eauto|done].
    + destruct (List.find (covers n) l) as [e'|] eqn:Hf; [|done]. exfalso.
      apply (find_covers _ _ _ Hd) in Hf as [[i Hi]%list_elem_of_lookup Hc'].
      pose proof (Hafter i e' Hi Hc') as Hi'.
      pose proof (sorted_starts l i (Z.to_nat (r - 1)) e' e Hs ltac:(lia) Hi He) as Hle'.
      assert (e <> e') by congruence. destruct Hd as [Hw Hd].
      rewrite Forall_forall in Hw. assert (Hin : e ∈ l) by (apply list_elem_of_lookup; eauto).
      assert (Hin' : e' ∈ l) by (apply list_elem_of_lookup; eauto).
      pose proof (Hw e Hin) as Hwe.
      apply list_elem_of_In in Hin, Hin'. unfold covers in *.
      destruct (ForallOrdPairs_In Hd e e' Hin Hin') as [?|[Ha|Ha]]; [done| |];
        unfold apart in *; bool_to_prop; try lia.
      all: destruct Hc as [Hc|Hc]; bool_to_prop; lia.
Qed.

Lemma Refresh_failed sort loads a :
  Forall (fun x : Z * option (list asnIndexEntry) => x.2 = None) loads -> Refresh sort loads a = a.
Proof. induction 1 as [|[now raw] loads Hx _ IH]; [done|]. simpl in Hx. by subst. Qed.

Lemma Refresh_last sort l1 now raw l2 a :
  Forall (fun x : Z * option (list asnIndexEntry) => x.2 = None) l2 ->
  Refresh sort (l1 ++ (now, Some raw) :: l2) a = mkIndex (sort raw) now.
Proof. intros Hf. unfold Refresh. rewrite foldl_app. simpl. by apply Refresh_failed. Qed.

(** C39: Whatever the downloads before it and however [sort.Slice] orders
    equal entries, after a load of disjoint ranges, and through any number of
    failed downloads, the binary search of [Lookup] ends, indexes inside the
    slice, and answers as a linear scan of the download does: the ASN of the
    range that holds the (unmapped) IPv4 address, and nothing for IPv6. *)
Theorem Lookup_refines_scan sort loads now raw failed a ip :
  sorts_slice sort -> disjoint_ranges raw ->
  Forall (fun x : Z * option (list asnIndexEntry) => x.2 = None) failed ->
  Lookup_run (Refresh sort (loads ++ (now, Some raw) :: failed) a) ip = Some (lookup_reference raw ip).
Proof.
  intros Hsort Hd Hf. rewrite Refresh_last by done. destruct (Hsort raw) as [Hp Hs].
  rewrite Lookup_sorted by eauto using disjoint_perm, Permutation_sym.
  f_equal. unfold lookup_reference. destruct (Unmap ip) as [|n|]; [done| |done]. f_equal.
  pose proof (disjoint_perm raw (sort raw) ltac:(by rewrite Hp) Hd) as Hd'.
  apply option_eq. intros e. by rewrite !find_covers, Hp.
Qed.

Lemma merge_sort_sorts : sorts_slice (merge_sort by_start).
Proof.
  intros l. split; [apply merge_sort_Permutation|]. apply Sorted_merge_sort.
  intros x y. unfold by_start. lia.
Qed.

Lemma Lookup_refines_scan_witness :
  let raw := [mkEntry 64501 (20 * 2 ^ 24) (20 * 2 ^ 24 + 255); mkEntry 64500 (10 * 2 ^ 24) (11 * 2 ^ 24 - 1)] in
  Lookup_run (Refresh (merge_sort by_start) [(5, None); (7, Some raw); (9, None)] NewASNIndex)
    (Addr6 (0xffff0a000001) "") = Some (Some 64500).
Proof.
  intros raw. rewrite (Lookup_refines_scan (merge_sort by_start) [(5, None)] 7 raw [(9, None)]).
  - vm_compute. reflexivity.
  - exact merge_sort_sorts.
  - split; [repeat constructor; vm_compute; discriminate|].
    constructor; [constructor; [right; vm_compute; reflexivity|constructor]|].
    constructor; [constructor|constructor].
  - repeat constructor.
Defined.

(** ** Policies *)
Section policy_meaning.
Context {E : Type} (P : string -> result E Prefix) (lower : list byte -> list byte).
Context (asn : option ASNLookup) (HP : forall c p, P c = Ok p -> prefix_wf p = true).
Notation normal v := (to_lower lower (trim_space (bytes_of v))).

Lemma compile_protocols_spec l acc s :
  compile_protocols lower l acc = (Ok s : result (policy_error E) _) ->
  s = list_to_set (map (fun v => normal v) l) ∪ acc /\
  Forall (fun v => normal v = tcp \/ normal v = udp) l.
Proof.
  revert acc. induction l as [|v l IH]; simpl; intros acc Hs.
  - injection Hs as <-. split; [set_solver|constructor].
  - case_go; [done|]. apply IH in Hs as [-> Hall]. split; [set_solver|]. constructor; [|done].
    bool_to_prop. destruct Heqb as [?|?]; bool_to_prop; auto.
Qed.

Lemma compile_ports_spec l acc s :
  compile_ports l acc = (Ok s : result (policy_error E) _) ->
  s = list_to_set l ∪ acc /\ Forall (fun v => v <> 0) l.
Proof.
  revert acc. induction l as [|v l IH]; simpl; intros acc Hs.
  - injection Hs as <-. split; [set_solver|constructor].
  - case_go; [done|]. apply IH in Hs as [-> Hall]. bool_to_prop. split; [set_solver|by constructor].
Qed.

(** What a policy of the configuration approves. *)
Definition approves (p : DestinationPolicy) (ctx : DestinationContext) : Prop :=
  (dp_Protocols p = [] \/
   exists v, v ∈ dp_Protocols p /\ normal v = to_lower lower (bytes_of (dc_Protocol ctx))) /\
  (dp_Ports p = [] \/ dc_Port ctx ∈ dp_Ports p) /\
  permits P asn (policy_filter_config p) (dc_Hostname ctx) (dc_IP ctx).

Lemma set_gate {A : Type} `{Countable A} (l : list A) (x : A) :
  negb (bool_decide ((list_to_set l ∪ ∅ : gset A) = ∅)) && negb (bool_decide (x ∈ (list_to_set l ∪ ∅ : gset A)))
  = false <-> l = [] \/ x ∈ l.
Proof.
  rewrite andb_false_iff, !negb_false_iff, !bool_decide_eq_true, !(right_id_L ∅ (∪)), elem_of_list_to_set.
  destruct l; [naive_solver|]. split; [|naive_solver]. intros [He|?]; [|by right]. set_solver.
Qed.

Lemma decide_spec p c ctx :
  compilePolicy P lower p asn = Ok c -> addr_wf (dc_IP ctx) = true ->
  dd_Allowed (decide_ lower c ctx) = true <-> approves p ctx.
Proof.
  intros Hc Hip. unfold compilePolicy in Hc. destruct (NewFilter _ _ _) as [f|] eqn:Hf; [|done].
  apply res_bind_ok in Hc as (prots & Hpr & Hc). apply res_bind_ok in Hc as (ports & Hpo & Hc).
  injection Hc as <-. apply compile_protocols_spec in Hpr as [-> _]. apply compile_ports_spec in Hpo as [-> _].
  unfold decide_, approves. cbn [cp_protocols cp_ports cp_filter].
  pose proof (set_gate (map (fun v => normal v) (dp_Protocols p))
                (to_lower lower (bytes_of (dc_Protocol ctx)))) as Hg1.
  pose proof (set_gate (dp_Ports p) (dc_Port ctx)) as Hg2.
  pose proof (Allowed_permits P asn _ f (dc_Hostname ctx) (dc_IP ctx) HP Hf Hip) as Ha.
  assert (Hm : (map (fun v => normal v) (dp_Protocols p) = [] \/
                to_lower lower (bytes_of (dc_Protocol ctx)) ∈ map (fun v => normal v) (dp_Protocols p)) <->
               (dp_Protocols p = [] \/ exists v, v ∈ dp_Protocols p /\
                 normal v = to_lower lower (bytes_of (dc_Protocol ctx)))).
  { rewrite list_elem_of_In, in_map_iff. setoid_rewrite list_elem_of_In.
    destruct (dp_Protocols p); simpl; naive_solver. }
  rewrite <-Hm, <-Hg1, <-Hg2, <-Ha. clear.
  destruct (_ && _); [naive_solver|]. destruct (_ && _); [naive_solver|].
  destruct (Allowed _ _ _); naive_solver.
Qed.

(** The server's table: the configured policies, compiled. *)
Definition compiled_table (configs : gmap string DestinationPolicy)
    (policies : gmap string compiledPolicy) : Prop :=
  forall name, match configs !! name with
               | Some p => exists c, policies !! name = Some c /\ compilePolicy P lower p asn = Ok c
               | None => policies !! name = None
               end.

Definition named_approves (configs : gmap string DestinationPolicy) (ctx : DestinationContext)
    (name : string) : Prop :=
  name = ""%string \/ exists p, configs !! name = Some p /\ approves p ctx.

Lemma policies_allow_cons configs policies name names ctx :
  compiled_table configs policies -> addr_wf (dc_IP ctx) = true ->
  policies_allow lower ((name, policies) :: names) ctx = true <->
  named_approves configs ctx name /\ policies_allow lower names ctx = true.
Proof.
  intros Ht Hip. unfold named_approves. simpl. destruct (name =? "")%string eqn:Hn; bool_to_prop; [tauto|].
  specialize (Ht name). destruct (configs !! name) as [p|] eqn:Hp.
  - destruct Ht as (c & -> & Hc). pose proof (decide_spec p c ctx Hc Hip) as Hd.
    destruct (dd_Allowed (decide_ lower c ctx)); simpl; naive_solver congruence.
  - rewrite Ht. naive_solver.
Qed.
End policy_meaning.

(** A destination is allowed exactly when both the principal's policy
    and the tunnel's, where they are named, exist in the table read for them
    and approve it: protocol, port and filter as the configuration has them.
    A name without a policy denies, and since compiled policies never set
    [AllowLocalEgress], a named policy always keeps the floor. *)
Theorem destinationAllowed_spec {E} (P : string -> result E Prefix) lower asn configs configs'
    policies policies' principal tunnel tunnel_policy hostname ip port protocol :
  (forall c p, P c = Ok p -> prefix_wf p = true) -> addr_wf ip = true ->
  compiled_table P lower asn configs policies -> compiled_table P lower asn configs' policies' ->
  let ctx := mkContext principal tunnel hostname protocol ip port 0 in
  destinationAllowed lower policies policies' principal tunnel tunnel_policy hostname ip port protocol = true
  <-> named_approves P lower asn configs ctx (pr_Policy principal) /\
      named_approves P lower asn configs' ctx tunnel_policy.
Proof.
  intros HP Hip Ht Ht' ctx. unfold destinationAllowed. fold ctx.
  rewrite (policies_allow_cons P lower asn HP configs policies) by done.
  rewrite (policies_allow_cons P lower asn HP configs' policies') by done. simpl. tauto.
Qed.

Definition toy_policy : DestinationPolicy :=
  mkPolicy ["198.51.100.0/24"] [] [] false false false [" TCP "] [443].

Lemma destinationAllowed_spec_witness :
  let principal := mkPrincipal "ssh" "fp" (v4 10 7 0 2) {["db"]} "" in
  let ctx ip := mkContext principal "db" "" "tcp" ip 443 0 in
  named_approves toy_parse id None {["web" := toy_policy]} (ctx (v4 198 51 100 7)) "web" /\
  ~ named_approves toy_parse id None {["web" := toy_policy]} (ctx (v4 127 0 0 1)) "web".
Proof.
  intros principal ctx.
  destruct (compilePolicy toy_parse id toy_policy None) as [c|] eqn:Hc;
    [|vm_compute in Hc; discriminate].
  assert (Ht : compiled_table toy_parse id None {["web" := toy_policy]} {["web" := c]}).
  { intros name. destruct (decide (name = "web"%string)) as [->|Hn].
    - rewrite lookup_singleton_eq. exists c. by rewrite lookup_singleton_eq.
    - by rewrite !lookup_singleton_ne by congruence. }
  assert (Hd : forall ip, destinationAllowed id {["web" := c]} {["web" := c]} principal "db" "web" "" ip 443 "tcp"
               = dd_Allowed (decide_ id c (ctx ip))).
  { intros ip. unfold destinationAllowed. simpl. rewrite lookup_singleton_eq.
    change (mkContext principal "db" "" "tcp" ip 443 0) with (ctx ip).
    by destruct (dd_Allowed (decide_ id c (ctx ip))). }
  assert (Hc' : c = match compilePolicy toy_parse id toy_policy None with Ok c => c | Err _ => c end)
    by (by rewrite Hc).
  split.
  - apply (destinationAllowed_spec toy_parse id None {["web" := toy_policy]} {["web" := toy_policy]}
             {["web" := c]} {["web" := c]} principal "db" "web" "" (v4 198 51 100 7) 443 "tcp"
             toy_parse_wf eq_refl Ht Ht).
    rewrite Hd, Hc'. vm_compute. reflexivity.
  - intros Hn.
    assert (destinationAllowed id {["web" := c]} {["web" := c]} principal "db" "web" "" (v4 127 0 0 1) 443 "tcp" = true)
      as Hx.
    { apply (destinationAllowed_spec toy_parse id None {["web" := toy_policy]} {["web" := toy_policy]}
               {["web" := c]} {["web" := c]} principal "db" "web" "" (v4 127 0 0 1) 443 "tcp"
               toy_parse_wf eq_refl Ht Ht).
      split; [by left|exact Hn]. }
    rewrite Hd, Hc' in Hx. vm_compute in Hx. discriminate.
Defined.
