(* ===== verification/SocksServer.v ===== *)
(** The SOCKS4/SOCKS5 server of a tunnel ([pkg/socks/socks.go], [socks4.go],
    [socks5.go]) and the SOCKS UDP framing and flow table of
    [pkg/server/dataplane.go].  A connection is the bytes still to be read
    from it; serving one gives the list of the effects it has, in order:
    replies, lookups, dials, listeners and the relays it starts.  The
    resolver, the dialler, the listener and the host's callbacks are
    arguments that answer once per connection; the clock is not modelled, a
    timeout is an answer of the dialler or the listener. *)
From S2P Require Import Prelude Bytes Netip Egress.

(** ** Configuration *)
Record UDPAssociation := { ua_Addr : Addr; ua_Port : Z }.

(** Where a dial goes: an address, or a name an upstream proxy resolves. *)
Inductive target :=
  | TargetAddr (a : Addr) (port : Z)
  | TargetHost (hostname : string) (port : Z).

(** A network operation gives a connection, of which only the end's address
    is used ([None] when it is not a TCP address), or an error that may be a
    timeout. *)
Definition net_result : Type := result bool (option AddrPort).

Record Config := mkSocksConfig {
  sc_Filter : FilterConfig;
  sc_ASNLookup : option ASNLookup;
  sc_Authorize : option (string -> Addr -> Z -> list byte -> bool);
  sc_DNSTimeout : Z;
  sc_DialTimeout : Z;
  sc_BindTimeout : Z;
  sc_AllowBind : bool;
  sc_DialRemoteHostname : bool;
  sc_UDPAssociate : option (string -> Addr -> Z -> option UDPAssociation);
}.

Record Server := mkServer {
  sv_filter : Filter;
  sv_dnsTimeout : Z;
  sv_dialTimeout : Z;
  sv_bindTimeout : Z;
  sv_allowBind : bool;
  sv_dialRemoteHostname : bool;
  sv_udpAssociate : option (string -> Addr -> Z -> option UDPAssociation);
  sv_authorize : option (string -> Addr -> Z -> list byte -> bool);
}.

Definition New {E} (ParsePrefix : string -> result E Prefix) (cfg : Config) : result E Server :=
  let? f := NewFilter ParsePrefix (sc_Filter cfg) (sc_ASNLookup cfg) in
  Ok (mkServer f
        (if sc_DNSTimeout cfg <=? 0 then 10 * second else sc_DNSTimeout cfg)
        (if sc_DialTimeout cfg <=? 0 then 10 * second else sc_DialTimeout cfg)
        (if sc_BindTimeout cfg <=? 0 then 2 * minute else sc_BindTimeout cfg)
        (sc_AllowBind cfg) (sc_DialRemoteHostname cfg) (sc_UDPAssociate cfg) (sc_Authorize cfg)).

(** What the network answers during one connection. *)
Record net := mkNet {
  LookupNetIP : string -> option (list Addr);
  dial : target -> net_result;
  listen : option (option AddrPort);
  accept : net_result;
  method_write_ok : bool;
}.

Inductive outcome :=
  | outcomeGranted
  | outcomeGeneralFailure
  | outcomeNotAllowed
  | outcomeHostUnreachable
  | outcomeConnRefused
  | outcomeTTLExpired
  | outcomeCommandNotSupported
  | outcomeAddressTypeNotSupported.

Inductive event :=
  | Wrote (b : list byte)
  | Dialed (t : target)
  | Listened
  | Accepted
  | Associated (a : UDPAssociation)
  | Disassociated
  | Relayed (rest : list byte)
  | Discarded (rest : list byte)
  | Panicked.

(** ** socks.go *)
Section serve.
Context (s : Server) (n : net).

Definition filterDestinationProtocol (hostname : string) (ip : Addr) (port : Z)
    (protocol : list byte) : Addr * outcome :=
  match (if addr_IsValid ip then Some ip
         else match LookupNetIP n hostname with
              | Some (a :: _) => Some a
              | _ => None
              end) with
  | None => (AddrNone, outcomeHostUnreachable)
  | Some resolved =>
      let allowed := Allowed (sv_filter s) hostname resolved in
      let allowed :=
        match sv_authorize s with
        | Some authorize => if allowed then authorize hostname resolved port protocol else allowed
        | None => allowed
        end in
      if negb allowed then (resolved, outcomeNotAllowed) else (resolved, outcomeGranted)
  end.

Definition filterDestination (hostname : string) (ip : Addr) (port : Z) : Addr * outcome :=
  filterDestinationProtocol hostname ip port tcp.

Definition AuthorizeUDP (hostname : string) (ip : Addr) (port : Z) : Addr * bool :=
  let '(resolved, o) := filterDestinationProtocol hostname ip port udp in
  (resolved, match o with outcomeGranted => true | _ => false end).

(** [connect]: the outcome, the local end of a granted connection, and the
    dial. *)
Definition connect (hostname : string) (ip : Addr) (port : Z) :
    outcome * option AddrPort * list event :=
  let '(resolved, o) := filterDestination hostname ip port in
  match o with
  | outcomeGranted =>
      let t :=
        if sv_dialRemoteHostname s && negb (hostname =? "")%string then TargetHost hostname port
        else TargetAddr (Unmap resolved) port in
      match dial n t with
      | Err true => (outcomeTTLExpired, None, [Dialed t])
      | Err false => (outcomeGeneralFailure, None, [Dialed t])
      | Ok local => (outcomeGranted, local, [Dialed t])
      end
  | o => (o, None, [])
  end.

(** [startBind]: a listener whose address is not a TCP address is closed. *)
Definition startBind : outcome * AddrPort :=
  match listen n with
  | Some (Some (a, port)) => (outcomeGranted, (Unmap a, port))
  | _ => (outcomeGeneralFailure, (AddrNone, 0))
  end.

Definition acceptBind : outcome * option AddrPort :=
  match accept n with
  | Ok remote => (outcomeGranted, remote)
  | Err true => (outcomeTTLExpired, None)
  | Err false => (outcomeGeneralFailure, None)
  end.

Definition IPv4Unspecified : Addr := Addr4 0.

(** [remoteAddrParts] and [localAddrParts]. *)
Definition addr_parts (a : option AddrPort) : AddrPort :=
  match a with Some (ip, port) => (Unmap ip, port) | None => (IPv4Unspecified, 0) end.

(** ** Readers *)
Definition ReadByte (l : list byte) : option (byte * list byte) :=
  match l with [] => None | b :: l => Some (b, l) end.

Definition ReadFull (k : nat) (l : list byte) : option (list byte * list byte) :=
  if (k <=? length l)%nat then Some (take k l, drop k l) else None.

Fixpoint skipCString (l : list byte) : option (list byte) :=
  match l with
  | [] => None
  | b :: l => if Byte.eqb b x00 then Some l else skipCString l
  end.

(** ** socks4.go *)
Definition socks4Version : byte := x04.
Definition socks4CmdConnect : byte := x01.
Definition socks4CmdBind : byte := x02.
Definition socks4Granted : byte := x5a.
Definition socks4Rejected : byte := x5b.

Definition reply4 (code : byte) (port : Z) (ip : list byte) : list byte :=
  [x00; code; byte_of (Z.shiftr port 8); byte_of port] ++ ip.

Definition writeSocks4Reply (code : byte) (port : Z) (ip : list byte) : event :=
  Wrote (reply4 code port ip).

Definition four (a : Addr) : list byte :=
  match a with Addr4 z => put_be 4 z | _ => put_be 4 0 end.

Definition doSocks4Bind (dstIP : Addr) (dstPort : Z) (reqIP rest : list byte) : list event :=
  match filterDestination "" dstIP dstPort with
  | (_, outcomeGranted) =>
      match startBind with
      | (outcomeGranted, (addr, port)) =>
          [Listened; writeSocks4Reply socks4Granted port (four addr)] ++
          match acceptBind with
          | (outcomeGranted, peer) =>
              let '(peerAddr, peerPort) := addr_parts peer in
              [Accepted; writeSocks4Reply socks4Granted peerPort (four peerAddr); Relayed rest]
          | _ => [writeSocks4Reply socks4Rejected dstPort reqIP]
          end
      | _ => [writeSocks4Reply socks4Rejected dstPort reqIP]
      end
  | _ => [writeSocks4Reply socks4Rejected dstPort reqIP]
  end.

Definition serveSocks4 (l : list byte) : list event :=
  match ReadByte l with
  | None => []
  | Some (cmd, l) =>
      match ReadFull 2 l with
      | Some ([p0; p1], l) =>
          let port := be16 p0 p1 in
          match ReadFull 4 l with
          | None => []
          | Some (ipBuf, l) =>
              match skipCString l with
              | None => []
              | Some rest =>
                  let ip := AddrFrom4 ipBuf in
                  if Byte.eqb cmd socks4CmdConnect then
                    let '(o, _, evs) := connect "" ip port in
                    evs ++ match o with
                           | outcomeGranted => [writeSocks4Reply socks4Granted port ipBuf; Relayed rest]
                           | _ => [writeSocks4Reply socks4Rejected port ipBuf]
                           end
                  else if Byte.eqb cmd socks4CmdBind then
                    if negb (sv_allowBind s) then [writeSocks4Reply socks4Rejected port ipBuf]
                    else doSocks4Bind ip port ipBuf rest
                  else [writeSocks4Reply socks4Rejected port ipBuf]
              end
          end
      | _ => []
      end
  end.

(** ** socks5.go *)
Definition socks5Version : byte := x05.
Definition socks5NoAuth : byte := x00.
Definition socks5NoAcceptableMethods : byte := xff.
Definition socks5CmdConnect : byte := x01.
Definition socks5CmdBind : byte := x02.
Definition socks5CmdUDP : byte := x03.
Definition socks5AtypIPv4 : byte := x01.
Definition socks5AtypDomain : byte := x03.
Definition socks5AtypIPv6 : byte := x04.
Definition socks5RepSucceeded : byte := x00.
Definition socks5RepGeneralFailure : byte := x01.
Definition socks5RepNotAllowed : byte := x02.
Definition socks5RepHostUnreachable : byte := x04.
Definition socks5RepConnRefused : byte := x05.
Definition socks5RepTTLExpired : byte := x06.
Definition socks5RepCmdNotSupported : byte := x07.
Definition socks5RepAtypNotSupported : byte := x08.

Definition socks5ReplyCode (o : outcome) : byte :=
  match o with
  | outcomeNotAllowed => socks5RepNotAllowed
  | outcomeHostUnreachable => socks5RepHostUnreachable
  | outcomeConnRefused => socks5RepConnRefused
  | outcomeTTLExpired => socks5RepTTLExpired
  | outcomeCommandNotSupported => socks5RepCmdNotSupported
  | outcomeAddressTypeNotSupported => socks5RepAtypNotSupported
  | _ => socks5RepGeneralFailure
  end.

(** [None]: [As4] panics on the zero address. *)
Definition reply5 (rep : byte) (addr : Addr) (port : Z) : option (list byte) :=
  if Is6 addr then Some ([socks5Version; rep; x00; socks5AtypIPv6] ++ As16 addr ++ put_be16 port)
  else match As4 addr with
       | Some a => Some ([socks5Version; rep; x00; socks5AtypIPv4] ++ a ++ put_be16 port)
       | None => None
       end.

Definition writeSocks5Reply (rep : byte) (addr : Addr) (port : Z) : event :=
  match reply5 rep addr port with Some b => Wrote b | None => Panicked end.

Definition refuse5 (rep : byte) : list event := [writeSocks5Reply rep IPv4Unspecified 0].

Definition doSocks5Bind (hostname : string) (dstIP : Addr) (dstPort : Z) (rest : list byte) :
    list event :=
  match filterDestination hostname dstIP dstPort with
  | (_, outcomeGranted) =>
      match startBind with
      | (outcomeGranted, (addr, port)) =>
          [Listened; writeSocks5Reply socks5RepSucceeded addr port] ++
          match acceptBind with
          | (outcomeGranted, peer) =>
              let '(peerAddr, peerPort) := addr_parts peer in
              [Accepted; writeSocks5Reply socks5RepSucceeded peerAddr peerPort; Relayed rest]
          | (o, _) => refuse5 (socks5ReplyCode o)
          end
      | (o, _) => refuse5 (socks5ReplyCode o)
      end
  | (_, o) => refuse5 (socks5ReplyCode o)
  end.

(** The destination of a request: its name, its address, and what follows. *)
Definition read_destination (atyp : byte) (l : list byte) :
    option (result unit (string * Addr * list byte)) :=
  if Byte.eqb atyp socks5AtypIPv4 then
    match ReadFull 4 l with
    | None => None
    | Some (b, l) => Some (Ok (""%string, AddrFrom4 b, l))
    end
  else if Byte.eqb atyp socks5AtypIPv6 then
    match ReadFull 16 l with
    | None => None
    | Some (b, l) => Some (Ok (""%string, AddrFrom16 b, l))
    end
  else if Byte.eqb atyp socks5AtypDomain then
    match ReadByte l with
    | None => None
    | Some (len, l) =>
        match ReadFull (Z.to_nat (byte_val len)) l with
        | None => None
        | Some (b, l) => Some (Ok (str_of b, AddrNone, l))
        end
    end
  else Some (Err ()).

Definition socks5_command (cmd : byte) (hostname : string) (ip : Addr) (port : Z)
    (rest : list byte) : list event :=
  if Byte.eqb cmd socks5CmdConnect then
    let '(o, local, evs) := connect hostname ip port in
    evs ++ match o with
           | outcomeGranted =>
               let '(bindAddr, bindPort) := addr_parts local in
               [writeSocks5Reply socks5RepSucceeded bindAddr bindPort; Relayed rest]
           | _ => refuse5 (socks5ReplyCode o)
           end
  else if Byte.eqb cmd socks5CmdBind then
    if negb (sv_allowBind s) then refuse5 socks5RepCmdNotSupported
    else doSocks5Bind hostname ip port rest
  else if Byte.eqb cmd socks5CmdUDP then
    match sv_udpAssociate s with
    | None => refuse5 socks5RepCmdNotSupported
    | Some associate =>
        match associate hostname ip port with
        | None => refuse5 socks5RepNotAllowed
        | Some a =>
            [Associated a; writeSocks5Reply socks5RepSucceeded (ua_Addr a) (ua_Port a);
             Discarded rest; Disassociated]
        end
    end
  else refuse5 socks5RepCmdNotSupported.

Definition socks5_request (l : list byte) : list event :=
  match ReadFull 4 l with
  | Some ([ver; cmd; _; atyp], l) =>
      if negb (Byte.eqb ver socks5Version) then []
      else
        match read_destination atyp l with
        | None => []
        | Some (Err _) => refuse5 socks5RepAtypNotSupported
        | Some (Ok (hostname, ip, l)) =>
            match ReadFull 2 l with
            | Some ([p0; p1], rest) => socks5_command cmd hostname ip (be16 p0 p1) rest
            | _ => []
            end
        end
  | _ => []
  end.

Definition serveSocks5 (l : list byte) : list event :=
  match ReadByte l with
  | None => []
  | Some (nmethods, l) =>
      match ReadFull (Z.to_nat (byte_val nmethods)) l with
      | None => []
      | Some (methods, l) =>
          if negb (existsb (fun m => Byte.eqb m socks5NoAuth) methods) then
            [Wrote [socks5Version; socks5NoAcceptableMethods]]
          else
            Wrote [socks5Version; socks5NoAuth] ::
            (if method_write_ok n then socks5_request l else [])
      end
  end.

Definition ServeConn (l : list byte) : list event :=
  match ReadByte l with
  | None => []
  | Some (ver, l) =>
      if Byte.eqb ver socks4Version then serveSocks4 l
      else if Byte.eqb ver socks5Version then serveSocks5 l
      else []
  end.
End serve.

(** ** Requests as clients encode them *)
Inductive destination := DAddr (a : Addr) | DName (name : list byte).

Definition encode_destination (d : destination) : option (byte * list byte) :=
  match d with
  | DAddr (Addr4 a) => Some (socks5AtypIPv4, put_be 4 a)
  | DAddr (Addr6 a z) => if (z =? "")%string then Some (socks5AtypIPv6, put_be 16 a) else None
  | DAddr AddrNone => None
  | DName b => if Zlen b <? 256 then Some (socks5AtypDomain, byte_of (Zlen b) :: b) else None
  end.

Definition destination_wf (d : destination) : bool :=
  match d with DAddr a => addr_wf a | DName _ => true end.

Definition destination_parts (d : destination) : string * Addr :=
  match d with DAddr a => (""%string, a) | DName b => (str_of b, AddrNone) end.

(** A SOCKS5 conversation: the method offer, the request, and what the client
    sends after it. *)
Definition encode5 (methods : list byte) (cmd rsv : byte) (d : destination) (port : Z)
    (rest : list byte) : option (list byte) :=
  match encode_destination d with
  | Some (atyp, b) =>
      Some ([socks5Version; byte_of (Zlen methods)] ++ methods ++
            [socks5Version; cmd; rsv; atyp] ++ b ++ put_be16 port ++ rest)
  | None => None
  end.

(** A SOCKS4 request: the user name is closed by the first zero byte. *)
Definition encode4 (cmd : byte) (port a : Z) (user rest : list byte) : list byte :=
  [socks4Version; cmd] ++ put_be16 port ++ put_be 4 a ++ user ++ x00 :: rest.

(** What the bytes of a connection ask for: the command, the destination's
    name and address, its port, and what the client sends behind. *)
Inductive asks : list byte -> byte -> string -> Addr -> Z -> list byte -> Prop :=
  | asks4 cmd port a user rest :
      0 <= port < 65536 -> addr_wf (Addr4 a) = true -> x00 ∉ user ->
      asks (encode4 cmd port a user rest) cmd "" (Addr4 a) port rest
  | asks5 methods cmd rsv d port rest l :
      Zlen methods < 256 -> 0 <= port < 65536 -> destination_wf d = true ->
      encode5 methods cmd rsv d port rest = Some l ->
      asks l cmd (destination_parts d).1 (destination_parts d).2 port rest.

(** ** What a connection can make the server do *)
Section egress.
Context (s : Server) (n : net).
(** The request the connection makes. *)
Context (R : byte -> string -> Addr -> Z -> list byte -> Prop).

(** The address a request's destination stands for: its literal, or the
    first answer of the resolver. *)
Definition chosen (hostname : string) (ip : Addr) : option Addr :=
  if addr_IsValid ip then Some ip
  else match LookupNetIP n hostname with Some (a :: _) => Some a | _ => None end.

Definition vetted (hostname : string) (resolved : Addr) (port : Z) (protocol : list byte) : bool :=
  Allowed (sv_filter s) hostname resolved &&
  match sv_authorize s with
  | Some authorize => authorize hostname resolved port protocol
  | None => true
  end.

Lemma filterDestinationProtocol_eq hostname ip port protocol :
  filterDestinationProtocol s n hostname ip port protocol =
  match chosen hostname ip with
  | None => (AddrNone, outcomeHostUnreachable)
  | Some r => if vetted hostname r port protocol then (r, outcomeGranted) else (r, outcomeNotAllowed)
  end.
Proof.
  unfold filterDestinationProtocol, chosen, vetted.
  destruct (if addr_IsValid ip then _ else _) as [r|]; [|done].
  destruct (Allowed _ _ _), (sv_authorize s) as [f|]; simpl; try done. by destruct (f _ _ _ _).
Qed.

Definition dial_target (hostname : string) (resolved : Addr) (port : Z) : target :=
  if sv_dialRemoteHostname s && negb (hostname =? "")%string then TargetHost hostname port
  else TargetAddr (Unmap resolved) port.

(** The destination of the client's request was resolved and passed the
    filter and the host's policy. *)
Definition approved (cmd : byte) (t : target) : Prop :=
  exists hostname ip port rest resolved,
    R cmd hostname ip port rest /\
    chosen hostname ip = Some resolved /\ vetted hostname resolved port tcp = true /\
    (addr_IsValid ip = true -> addr_wf ip = true) /\ t = dial_target hostname resolved port.

Definition net_ok : Prop :=
  (forall a p, listen n = Some (Some (a, p)) -> addr_IsValid a = true) /\
  (forall a p, accept n = Ok (Some (a, p)) -> addr_IsValid a = true) /\
  (forall t a p, dial n t = Ok (Some (a, p)) -> addr_IsValid a = true) /\
  (forall f h ip p a, sv_udpAssociate s = Some f -> f h ip p = Some a -> addr_IsValid (ua_Addr a) = true).

(** The effects the server may have. *)
Definition event_ok (e : event) : Prop :=
  match e with
  | Dialed t => approved socks5CmdConnect t
  | Listened | Accepted => sv_allowBind s = true /\ exists t, approved socks5CmdBind t
  | Relayed rest => exists cmd hostname ip port, R cmd hostname ip port rest
  | Panicked => ~ net_ok
  | _ => True
  end.

(** Client bytes reach only a dialled peer or the one peer of a listener. *)
Definition relay_ok (evs : list event) : Prop :=
  forall rest, Relayed rest ∈ evs ->
    (exists t a, Dialed t ∈ evs /\ dial n t = Ok a) \/ (Listened ∈ evs /\ Accepted ∈ evs).

(** One network operation at most. *)
Definition is_operation (e : event) : bool :=
  match e with Dialed _ | Listened | Associated _ => true | _ => false end.
Definition operations (evs : list event) : nat := length (filter (fun e => is_operation e = true) evs).

Definition trace_ok (evs : list event) : Prop :=
  Forall event_ok evs /\ relay_ok evs /\ (operations evs <= 1)%nat.

Lemma reply5_ok rep addr port : addr_IsValid addr = true -> is_Some (reply5 rep addr port).
Proof.
  intros Hv. unfold reply5, As4. destruct addr as [|a|a z]; [done|..]; simpl; eauto.
Qed.

Lemma write5_ok rep addr port :
  (net_ok -> addr_IsValid addr = true) -> event_ok (writeSocks5Reply rep addr port).
Proof.
  intros Hv. unfold writeSocks5Reply. destruct (reply5 _ _ _) eqn:Hr; [done|].
  intros Hn. destruct (reply5_ok rep addr port (Hv Hn)) as [b Hb]. congruence.
Qed.

Lemma write5_kind rep addr port :
  writeSocks5Reply rep addr port = Panicked \/ exists b, writeSocks5Reply rep addr port = Wrote b.
Proof. unfold writeSocks5Reply. destruct (reply5 _ _ _); eauto. Qed.

Lemma addr_parts_valid a :
  (forall x p, a = Some (x, p) -> addr_IsValid x = true) -> addr_IsValid (addr_parts a).1 = true.
Proof.
  intros Ha. destruct a as [[x p]|]; [|done]. unfold addr_parts. simpl. rewrite Unmap_valid. eauto.
Qed.

(** A trace that only writes, listens, dials … as listed. *)
Lemma trace_ok_nil : trace_ok [].
Proof. split; [constructor|]. split; [|unfold operations; simpl; lia]. intros rest ?%not_elem_of_nil. done. Qed.

Definition inert (e : event) : Prop :=
  match e with Wrote _ | Discarded _ | Disassociated | Panicked => True | _ => False end.

Lemma trace_ok_inert e evs : inert e -> event_ok e -> trace_ok evs -> trace_ok (e :: evs).
Proof.
  intros Hi He (Hf & Hr & Ho). split; [by constructor|]. split.
  - intros rest Hin. apply elem_of_cons in Hin as [<-|Hin]; [done|].
    destruct (Hr rest Hin) as [(t & a & ? & ?)|[? ?]]; [left; exists t, a|right]; set_solver.
  - unfold operations in *. rewrite filter_cons. by destruct e.
Qed.

Lemma trace_ok_write b evs : trace_ok evs -> trace_ok (Wrote b :: evs).
Proof. by apply trace_ok_inert. Qed.

Lemma trace_ok_write5 rep addr port evs :
  (net_ok -> addr_IsValid addr = true) -> trace_ok evs -> trace_ok (writeSocks5Reply rep addr port :: evs).
Proof.
  intros Hv He. apply trace_ok_inert; [|by apply write5_ok|done].
  destruct (write5_kind rep addr port) as [->|[b ->]]; done.
Qed.

Lemma trace_ok_refuse5 rep : trace_ok (refuse5 rep).
Proof. apply trace_ok_write5; [done|apply trace_ok_nil]. Qed.

(** Events that neither operate nor relay before the relay. *)
Lemma trace_ok_relay evs cmd hostname ip port rest :
  R cmd hostname ip port rest -> Forall event_ok evs -> (operations evs <= 1)%nat ->
  (exists t a, Dialed t ∈ evs /\ dial n t = Ok a) \/ (Listened ∈ evs /\ Accepted ∈ evs) ->
  trace_ok (evs ++ [Relayed rest]).
Proof.
  intros HR Hf Ho Hr. split; [|split].
  - apply Forall_app. split; [done|]. constructor; [by exists cmd, hostname, ip, port|constructor].
  - intros rest' _. destruct Hr as [(t & a & ? & ?)|[? ?]]; [left; exists t, a|right]; set_solver.
  - unfold operations in *. rewrite filter_app, length_app. simpl. lia.
Qed.

Lemma event_operations_inert e evs : inert e -> operations (e :: evs) = operations evs.
Proof. intros Hi. unfold operations. rewrite filter_cons. by destruct e. Qed.

(** *** The operations *)
Definition literal_wf (ip : Addr) : Prop := addr_IsValid ip = true -> addr_wf ip = true.

Lemma filterDestination_granted hostname ip port r :
  filterDestination s n hostname ip port = (r, outcomeGranted) ->
  chosen hostname ip = Some r /\ vetted hostname r port tcp = true.
Proof.
  unfold filterDestination. rewrite filterDestinationProtocol_eq.
  destruct (chosen hostname ip) as [r'|]; [|done].
  destruct (vetted hostname r' port tcp) eqn:Hv; naive_solver.
Qed.

Lemma connect_cases hostname ip port rest o local evs :
  R socks5CmdConnect hostname ip port rest ->
  literal_wf ip -> connect s n hostname ip port = (o, local, evs) ->
  (evs = [] /\ o <> outcomeGranted) \/
  exists t, evs = [Dialed t] /\ approved socks5CmdConnect t /\ (o = outcomeGranted -> dial n t = Ok local).
Proof.
  intros HR Hip. unfold connect. destruct (filterDestination s n hostname ip port) as [r o'] eqn:Hf.
  destruct o'; try (intros [= <- <- <-]; by left).
  apply filterDestination_granted in Hf as [Hc Hv].
  fold (dial_target hostname r port).
  assert (Ha : approved socks5CmdConnect (dial_target hostname r port))
    by (by exists hostname, ip, port, rest, r).
  destruct (dial n (dial_target hostname r port)) as [l|[]] eqn:Hd;
    intros [= <- <- <-]; right; eexists; (split; [reflexivity|split; [exact Ha|]]); done.
Qed.

Lemma bind_approved hostname ip port rest r :
  R socks5CmdBind hostname ip port rest -> literal_wf ip ->
  filterDestination s n hostname ip port = (r, outcomeGranted) -> exists t, approved socks5CmdBind t.
Proof.
  intros HR Hip [Hc Hv]%filterDestination_granted. exists (dial_target hostname r port).
  by exists hostname, ip, port, rest, r.
Qed.

Lemma doSocks4Bind_ok ip port req rest :
  R socks4CmdBind "" ip port rest ->
  literal_wf ip -> sv_allowBind s = true -> trace_ok (doSocks4Bind s n ip port req rest).
Proof.
  intros HR Hip Hb. unfold doSocks4Bind.
  assert (Hrej : trace_ok [writeSocks4Reply socks4Rejected port req])
    by (apply trace_ok_write, trace_ok_nil).
  destruct (filterDestination s n "" ip port) as [r []] eqn:Hf; try done.
  eapply bind_approved in Hf; [|done|done].
  unfold startBind. destruct (listen n) as [[[a p]|]|] eqn:Hl; try done.
  assert (Hlist : event_ok Listened) by done.
  unfold acceptBind. destruct (accept n) as [peer|[]] eqn:Hacc.
  - destruct (addr_parts peer) as [pa pp].
    apply (trace_ok_relay [Listened; writeSocks4Reply socks4Granted p (four (Unmap a)); Accepted;
             writeSocks4Reply socks4Granted pp (four pa)] _ _ _ _ _ HR).
    + by repeat constructor.
    + unfold operations. simpl. lia.
    + right. set_solver.
  - split; [by repeat constructor|]. split; [|unfold operations; simpl; lia]. intros ?. set_solver.
  - split; [by repeat constructor|]. split; [|unfold operations; simpl; lia]. intros ?. set_solver.
Qed.

Lemma listened_then rep addr port evs :
  event_ok Listened -> (net_ok -> addr_IsValid addr = true) ->
  Forall event_ok evs -> Forall inert evs ->
  trace_ok ([Listened; writeSocks5Reply rep addr port] ++ evs).
Proof.
  intros Hl Hv He Hi. split; [|split].
  - repeat constructor; [apply Hl..| |done]. by apply write5_ok.
  - intros rest Hin. exfalso. rewrite Forall_forall in Hi.
    apply elem_of_app in Hin as [Hin|Hin]; [|by apply Hi in Hin].
    destruct (write5_kind rep addr port) as [Hw|[b Hw]]; rewrite Hw in Hin; set_solver.
  - unfold operations. rewrite filter_app, length_app.
    assert (filter (fun e => is_operation e = true) evs = []) as ->.
    { induction Hi as [|e evs Hi _ IH]; [done|]. inversion He; subst. rewrite filter_cons. destruct e; try done; by apply IH. }
    destruct (write5_kind rep addr port) as [->|[b ->]]; simpl; lia.
Qed.

Lemma doSocks5Bind_ok hostname ip port rest :
  R socks5CmdBind hostname ip port rest ->
  literal_wf ip -> sv_allowBind s = true -> trace_ok (doSocks5Bind s n hostname ip port rest).
Proof.
  intros HR Hip Hb. unfold doSocks5Bind.
  destruct (filterDestination s n hostname ip port) as [r []] eqn:Hf; try apply trace_ok_refuse5.
  eapply bind_approved in Hf; [|done|done].
  unfold startBind. destruct (listen n) as [[[a p]|]|] eqn:Hl; try apply trace_ok_refuse5.
  assert (Hlist : event_ok Listened) by done.
  assert (Hva : net_ok -> addr_IsValid (Unmap a) = true).
  { intros (Hl' & _). rewrite Unmap_valid. eauto. }
  assert (Href : forall rep, Forall event_ok (refuse5 rep) /\ Forall inert (refuse5 rep)).
  { intros rep. by repeat constructor. }
  unfold acceptBind. destruct (accept n) as [peer|[]] eqn:Hacc; try (apply listened_then; naive_solver).
  destruct (addr_parts peer) as [pa pp] eqn:Hpp.
  assert (Hvp : net_ok -> addr_IsValid pa = true).
  { intros (_ & Hac & _). replace pa with (addr_parts peer).1 by (by rewrite Hpp).
    apply addr_parts_valid. intros x q ->. eauto. }
  apply (trace_ok_relay [Listened; writeSocks5Reply socks5RepSucceeded (Unmap a) p; Accepted;
           writeSocks5Reply socks5RepSucceeded pa pp] _ _ _ _ _ HR).
  - repeat constructor; try done; by apply write5_ok.
  - destruct (write5_kind socks5RepSucceeded (Unmap a) p) as [->|[? ->]],
             (write5_kind socks5RepSucceeded pa pp) as [->|[? ->]]; unfold operations; simpl; lia.
  - right. set_solver.
Qed.

(** A granted or refused CONNECT. *)
Lemma connect_trace hostname ip port o local evs ok_reply no_reply rest :
  R socks5CmdConnect hostname ip port rest -> literal_wf ip -> connect s n hostname ip port = (o, local, evs) ->
  inert ok_reply -> inert no_reply -> event_ok no_reply ->
  (forall t, o = outcomeGranted -> dial n t = Ok local -> event_ok ok_reply) ->
  trace_ok (evs ++ match o with outcomeGranted => [ok_reply; Relayed rest] | _ => [no_reply] end).
Proof.
  intros HR Hip Hc Hi1 Hi2 Hno Hok. destruct (connect_cases _ _ _ _ _ _ _ HR Hip Hc) as [[-> Ho]|(t & -> & Ha & Hd)].
  - destruct o; try done; simpl; apply trace_ok_inert; auto using trace_ok_nil.
  - assert (Hrefused : trace_ok [Dialed t; no_reply]).
    { split; [by repeat constructor|]. split.
      - intros rest' Hin. set_unfold in Hin. by destruct Hin as [?|[<-|?]].
      - unfold operations. rewrite !filter_cons. destruct no_reply; done || (simpl; lia). }
    destruct o; simpl; try exact Hrefused.
    apply (trace_ok_relay [Dialed t; ok_reply] _ _ _ _ _ HR).
    + repeat constructor; eauto.
    + unfold operations. rewrite !filter_cons. destruct ok_reply; done || (simpl; lia).
    + left. exists t, local. split; [set_solver|auto].
Qed.

Lemma skipCString_spec l rest :
  skipCString l = Some rest -> exists user, l = user ++ x00 :: rest /\ x00 ∉ user.
Proof.
  induction l as [|b l IH]; [done|]. simpl. destruct (Byte.eqb b x00) eqn:Hb.
  - intros [= ->]. apply Byte.byte_dec_bl in Hb as ->. exists []. split; [done|apply not_elem_of_nil].
  - intros (user & -> & Hu)%IH. exists (b :: user). split; [done|].
    apply not_elem_of_cons. split; [|done]. intros <-. by rewrite (Byte.byte_dec_lb eq_refl) in Hb.
Qed.

Lemma byte_list_two (l : list byte) p0 p1 : l = [p0; p1] -> l = put_be16 (be16 p0 p1).
Proof.
  intros ->. unfold put_be16. pose proof (byte_val_range p0). pose proof (byte_val_range p1).
  f_equal; [|f_equal]; apply byte_val_inj; rewrite byte_val_of, be16_eq.
  - rewrite Z.shiftr_div_pow2 by lia. change (2 ^ 8) with 256.
    rewrite Z.div_add_l, (Z.div_small (byte_val p1)) by lia. rewrite Z.add_0_r, Z.mod_small; lia.
  - rewrite Z.add_comm, Z_mod_plus_full, Z.mod_small; lia.
Qed.

Lemma ReadFull_spec k l b rest : ReadFull k l = Some (b, rest) -> l = b ++ rest /\ length b = k.
Proof.
  unfold ReadFull. case_go; [|done]. intros [= <- <-]. apply Nat.leb_le in Heqb0.
  split; [by rewrite take_drop|]. rewrite length_take. lia.
Qed.

Lemma encode4_read cmd p0 p1 ipb user rest :
  length ipb = 4%nat ->
  encode4 cmd (be16 p0 p1) (be_val ipb) user rest =
  socks4Version :: cmd :: [p0; p1] ++ ipb ++ user ++ x00 :: rest.
Proof.
  intros Hl. unfold encode4. rewrite <-(byte_list_two [p0; p1] p0 p1 eq_refl).
  pose proof (put_be_val ipb) as Hp. rewrite Hl in Hp. by rewrite Hp.
Qed.

Lemma serveSocks4_ok l :
  (forall cmd hostname ip port rest, asks (socks4Version :: l) cmd hostname ip port rest ->
     R cmd hostname ip port rest) ->
  trace_ok (serveSocks4 s n l).
Proof.
  intros HR. unfold serveSocks4. destruct (ReadByte l) as [[cmd l1]|] eqn:H1; [|apply trace_ok_nil].
  destruct (ReadFull 2 l1) as [[[|p0 [|p1 [|]]] l2]|] eqn:H2; try apply trace_ok_nil.
  destruct (ReadFull 4 l2) as [[ipb l3]|] eqn:H4; [|apply trace_ok_nil].
  apply ReadFull_spec in H2 as [-> _]. apply ReadFull_spec in H4 as [-> Hlen].
  destruct (skipCString l3) as [rest|] eqn:Hs; [|apply trace_ok_nil].
  apply skipCString_spec in Hs as (user & -> & Hu).
  assert (Hask : R cmd "" (AddrFrom4 ipb) (be16 p0 p1) rest).
  { destruct l as [|c l]; [done|]. injection H1 as -> ->. apply HR.
    pose proof (encode4_read cmd p0 p1 ipb user rest Hlen) as He. cbn [app] in He |- *. rewrite <-He.
    apply asks4; [apply be16_range|by apply AddrFrom4_wf|done]. }
  clear HR H1.
  assert (Hip : literal_wf (AddrFrom4 ipb)) by (intros _; by apply AddrFrom4_wf).
  destruct (Byte.eqb cmd socks4CmdConnect) eqn:Hcmd.
  - apply Byte.byte_dec_bl in Hcmd as ->.
    destruct (connect s n "" (AddrFrom4 ipb) (be16 p0 p1)) as [[o local] evs] eqn:Hc.
    eapply connect_trace; eauto; done.
  - destruct (Byte.eqb cmd socks4CmdBind) eqn:Hcmd'; [|apply trace_ok_write, trace_ok_nil].
    apply Byte.byte_dec_bl in Hcmd' as ->.
    destruct (sv_allowBind s) eqn:Hb; simpl; [by apply doSocks4Bind_ok|apply trace_ok_write, trace_ok_nil].
Qed.

Lemma socks5_command_ok cmd hostname ip port rest :
  R cmd hostname ip port rest ->
  literal_wf ip -> trace_ok (socks5_command s n cmd hostname ip port rest).
Proof.
  intros HR Hip. unfold socks5_command. destruct (Byte.eqb cmd socks5CmdConnect) eqn:Hcmd.
  { apply Byte.byte_dec_bl in Hcmd as ->. destruct (connect s n hostname ip port) as [[o local] evs] eqn:Hc.
    destruct (addr_parts local) as [ba bp] eqn:Hp.
    replace (match o with
             | outcomeGranted => [writeSocks5Reply socks5RepSucceeded ba bp; Relayed rest]
             | _ => refuse5 (socks5ReplyCode o) end)
      with (match o with
            | outcomeGranted => [writeSocks5Reply socks5RepSucceeded ba bp; Relayed rest]
            | _ => [writeSocks5Reply (socks5ReplyCode o) IPv4Unspecified 0] end) by (by destruct o).
    eapply connect_trace; eauto.
    - by destruct (write5_kind socks5RepSucceeded ba bp) as [->|[? ->]].
    - by destruct (write5_kind (socks5ReplyCode o) IPv4Unspecified 0) as [->|[? ->]].
    - by apply write5_ok.
    - intros t -> Hd. apply write5_ok. intros (_ & _ & Hdial & _).
      replace ba with (addr_parts local).1 by (by rewrite Hp).
      apply addr_parts_valid. intros x q ->. eauto. }
  destruct (Byte.eqb cmd socks5CmdBind) eqn:Hcmd'.
  { apply Byte.byte_dec_bl in Hcmd' as ->. destruct (sv_allowBind s) eqn:Hb; simpl; [by apply doSocks5Bind_ok|apply trace_ok_refuse5]. }
  destruct (Byte.eqb cmd socks5CmdUDP); [|apply trace_ok_refuse5].
  destruct (sv_udpAssociate s) as [associate|] eqn:Hu; [|apply trace_ok_refuse5].
  destruct (associate hostname ip port) as [a|] eqn:Ha; [|apply trace_ok_refuse5].
  assert (Hw : event_ok (writeSocks5Reply socks5RepSucceeded (ua_Addr a) (ua_Port a))).
  { apply write5_ok. intros (_ & _ & _ & Hv). eauto. }
  split; [by repeat constructor|].
  destruct (write5_kind socks5RepSucceeded (ua_Addr a) (ua_Port a)) as [->|[b ->]];
    (split; [intros ?; set_solver|unfold operations; simpl; lia]).
Qed.

Lemma read_destination_spec atyp l hostname ip rest :
  read_destination atyp l = Some (Ok (hostname, ip, rest)) ->
  exists d b, encode_destination d = Some (atyp, b) /\ destination_wf d = true /\
    destination_parts d = (hostname, ip) /\ l = b ++ rest.
Proof.
  unfold read_destination. destruct (Byte.eqb atyp socks5AtypIPv4) eqn:H4.
  { apply Byte.byte_dec_bl in H4 as ->.
    destruct (ReadFull 4 l) as [[b l']|] eqn:Hr; [|done]. intros [= <- <- <-].
    apply ReadFull_spec in Hr as [-> Hl]. exists (DAddr (AddrFrom4 b)), b.
    pose proof (put_be_val b) as Hp. rewrite Hl in Hp. unfold AddrFrom4, encode_destination. rewrite Hp.
    split_and!; [done|by apply AddrFrom4_wf|done..]. }
  destruct (Byte.eqb atyp socks5AtypIPv6) eqn:H6.
  { apply Byte.byte_dec_bl in H6 as ->.
    destruct (ReadFull 16 l) as [[b l']|] eqn:Hr; [|done]. intros [= <- <- <-].
    apply ReadFull_spec in Hr as [-> Hl]. exists (DAddr (AddrFrom16 b)), b.
    pose proof (put_be_val b) as Hp. rewrite Hl in Hp. unfold AddrFrom16, encode_destination. rewrite Hp.
    split_and!; [done|by apply AddrFrom16_wf|done..]. }
  destruct (Byte.eqb atyp socks5AtypDomain) eqn:Hd; [|done]. apply Byte.byte_dec_bl in Hd as ->.
  destruct l as [|len l']; [done|]. cbn [ReadByte].
  destruct (ReadFull _ l') as [[b l'']|] eqn:Hr; [|done]. intros [= <- <- <-].
  apply ReadFull_spec in Hr as [-> Hl]. pose proof (byte_val_range len).
  assert (Hz : Zlen b = byte_val len) by (unfold Zlen; lia).
  exists (DName b), (len :: b). simpl. rewrite Hz. replace (byte_val len <? 256) with true by bool_lia.
  by rewrite byte_of_val.
Qed.

Lemma destination_literal d : destination_wf d = true -> literal_wf (destination_parts d).2.
Proof. destruct d; [by intros ? ?|done]. Qed.

Lemma socks5_request_ok methods l :
  Zlen methods < 256 ->
  (forall cmd hostname ip port rest,
     asks ([socks5Version; byte_of (Zlen methods)] ++ methods ++ l) cmd hostname ip port rest ->
     R cmd hostname ip port rest) ->
  trace_ok (socks5_request s n l).
Proof.
  intros Hm HR. unfold socks5_request.
  destruct (ReadFull 4 l) as [[[|ver [|cmd [|rsv [|atyp [|]]]]] l1]|] eqn:H4; try apply trace_ok_nil.
  destruct (Byte.eqb ver socks5Version) eqn:Hver; simpl; [|apply trace_ok_nil].
  apply Byte.byte_dec_bl in Hver as ->.
  destruct (read_destination atyp l1) as [[[[hostname ip] l2]|[]]|] eqn:Hd;
    [|apply trace_ok_refuse5|apply trace_ok_nil].
  destruct (ReadFull 2 l2) as [[[|p0 [|p1 [|]]] rest]|] eqn:H2; try apply trace_ok_nil.
  apply ReadFull_spec in H4 as [-> _]. apply ReadFull_spec in H2 as [-> _].
  apply read_destination_spec in Hd as (d & b & He & Hwf & Hp & ->).
  apply socks5_command_ok.
  - apply HR. replace hostname with (destination_parts d).1 by (by rewrite Hp).
    replace ip with (destination_parts d).2 by (by rewrite Hp).
    apply (asks5 methods cmd rsv); [done|apply be16_range|done|]. unfold encode5. rewrite He.
    by rewrite <-(byte_list_two [p0; p1] p0 p1 eq_refl).
  - pose proof (destination_literal d Hwf) as Hl. by rewrite Hp in Hl.
Qed.

Lemma ServeConn_ok l :
  (forall cmd hostname ip port rest, asks l cmd hostname ip port rest -> R cmd hostname ip port rest) ->
  trace_ok (ServeConn s n l).
Proof.
  intros HR. unfold ServeConn. destruct l as [|ver l1]; [apply trace_ok_nil|]. cbn [ReadByte].
  destruct (Byte.eqb ver socks4Version) eqn:H4.
  { apply Byte.byte_dec_bl in H4 as ->. by apply serveSocks4_ok. }
  destruct (Byte.eqb ver socks5Version) eqn:H5; [|apply trace_ok_nil]. apply Byte.byte_dec_bl in H5 as ->.
  unfold serveSocks5. destruct l1 as [|nm l2]; [apply trace_ok_nil|]. cbn [ReadByte].
  destruct (ReadFull _ l2) as [[ms l3]|] eqn:Hr; [|apply trace_ok_nil].
  apply ReadFull_spec in Hr as [-> Hl]. pose proof (byte_val_range nm).
  assert (Hz : Zlen ms = byte_val nm) by (unfold Zlen; lia).
  destruct (existsb _ ms); simpl; [|apply trace_ok_write, trace_ok_nil].
  apply trace_ok_write. destruct (method_write_ok n); [|apply trace_ok_nil].
  apply (socks5_request_ok ms); [lia|]. by rewrite Hz, byte_of_val.
Qed.
End egress.

Lemma ReadFull_app k b rest : length b = k -> ReadFull k (b ++ rest) = Some (b, rest).
Proof.
  intros <-. unfold ReadFull. rewrite length_app.
  destruct (_ <=? _)%nat eqn:E; [|apply Nat.leb_gt in E; lia].
  by rewrite take_app_length, drop_app_length.
Qed.

Lemma byte_val_small z : 0 <= z < 256 -> byte_val (byte_of z) = z.
Proof. intros. rewrite byte_val_of. by apply Z.mod_small. Qed.

Lemma read_encoded d atyp b rest :
  encode_destination d = Some (atyp, b) -> destination_wf d = true ->
  read_destination atyp (b ++ rest) = Some (Ok (destination_parts d, rest)).
Proof.
  destruct d as [[|a|a z]|name]; simpl; try done.
  - intros [= <- <-] Hwf. apply andb_true_iff in Hwf as [? ?]. bool_to_prop.
    change (read_destination socks5AtypIPv4 (put_be 4 a ++ rest) = Some (Ok (""%string, Addr4 a, rest))).
    unfold read_destination. cbn [Byte.eqb]. change (Byte.eqb socks5AtypIPv4 socks5AtypIPv4) with true.
    rewrite ReadFull_app by apply length_put_be. by rewrite AddrFrom4_put by lia.
  - destruct (z =? "")%string eqn:Hz; [|done]. intros [= <- <-] Hwf. bool_to_prop. subst z.
    change (read_destination socks5AtypIPv6 (put_be 16 a ++ rest) = Some (Ok (""%string, Addr6 a "", rest))).
    unfold read_destination. change (Byte.eqb socks5AtypIPv6 socks5AtypIPv4) with false.
    change (Byte.eqb socks5AtypIPv6 socks5AtypIPv6) with true. cbv iota.
    rewrite ReadFull_app by apply length_put_be. by rewrite AddrFrom16_put by lia.
  - destruct (Zlen name <? 256) eqn:Hl; [|done]. bool_to_prop. intros [= <- <-] _.
    unfold read_destination. change (Byte.eqb socks5AtypDomain socks5AtypIPv4) with false.
    change (Byte.eqb socks5AtypDomain socks5AtypIPv6) with false.
    change (Byte.eqb socks5AtypDomain socks5AtypDomain) with true. cbv iota. cbn [app ReadByte].
    rewrite ReadFull_app; [done|]. pose proof (Zlen_nonneg name).
    rewrite byte_val_small by lia. unfold Zlen. lia.
Qed.

(** An encoded conversation is executed as its parts say. *)
Lemma serve_encoded s n methods cmd rsv d port rest l :
  encode5 methods cmd rsv d port rest = Some l -> destination_wf d = true ->
  Zlen methods < 256 -> socks5NoAuth ∈ methods -> 0 <= port < 65536 -> method_write_ok n = true ->
  ServeConn s n l =
  Wrote [socks5Version; socks5NoAuth] ::
  (let '(hostname, ip) := destination_parts d in socks5_command s n cmd hostname ip port rest).
Proof.
  intros He Hd Hm Hin Hp Hw. unfold encode5 in He.
  destruct (encode_destination d) as [[atyp b]|] eqn:Hed; [|done]. injection He as <-.
  cbn [app]. unfold ServeConn. cbn [ReadByte].
  change (Byte.eqb socks5Version socks4Version) with false.
  change (Byte.eqb socks5Version socks5Version) with true. cbv iota.
  unfold serveSocks5. cbn [ReadByte].
  pose proof (Zlen_nonneg methods). rewrite byte_val_small by lia. unfold Zlen. rewrite Nat2Z.id.
  rewrite ReadFull_app by done.
  assert (existsb (fun m => Byte.eqb m socks5NoAuth) methods = true) as ->.
  { apply existsb_exists. exists socks5NoAuth. split; [by apply list_elem_of_In|done]. }
  simpl negb. cbv iota. rewrite Hw. f_equal. unfold socks5_request.
  change (ReadFull 4 _) with
    (ReadFull 4 ([socks5Version; cmd; rsv; atyp] ++ b ++ put_be16 port ++ rest)).
  rewrite ReadFull_app by done.
  cbv beta iota. change (negb (Byte.eqb socks5Version socks5Version)) with false. cbv iota.
  rewrite (read_encoded d atyp b _ Hed Hd). destruct (destination_parts d) as [hostname ip].
  rewrite (ReadFull_app 2 (put_be16 port) rest) by done. unfold put_be16.
  by rewrite be16_put.
Qed.

(** The bytes of a connection ask for at most one thing. *)
Definition first_request (l : list byte) : option (byte * string * Addr * Z * list byte) :=
  match l with
  | x04 :: cmd :: p0 :: p1 :: l =>
      '(b, l) ← ReadFull 4 l; rest ← skipCString l;
      Some (cmd, ""%string, AddrFrom4 b, be16 p0 p1, rest)
  | x05 :: nm :: l =>
      '(_, l) ← ReadFull (Z.to_nat (byte_val nm)) l;
      match l with
      | _ :: cmd :: _ :: atyp :: l =>
          match read_destination atyp l with
          | Some (Ok (hostname, ip, p0 :: p1 :: rest)) => Some (cmd, hostname, ip, be16 p0 p1, rest)
          | _ => None
          end
      | _ => None
      end
  | _ => None
  end.

Lemma skipCString_app user rest : x00 ∉ user -> skipCString (user ++ x00 :: rest) = Some rest.
Proof.
  induction user as [|b user IH]; [done|]. intros [Hb Hu]%not_elem_of_cons. simpl.
  destruct (Byte.eqb b x00) eqn:E; [|by apply IH]. by apply Byte.byte_dec_bl in E.
Qed.

Lemma asks_first l cmd hostname ip port rest :
  asks l cmd hostname ip port rest -> first_request l = Some (cmd, hostname, ip, port, rest).
Proof.
  destruct 1 as [cmd port a user rest Hp Ha Hu|methods cmd rsv d port rest l Hm Hp Hd He].
  - unfold addr_wf in Ha. apply andb_true_iff in Ha as [? ?]. bool_to_prop.
    change (first_request (encode4 cmd port a user rest)) with
      ('(b, l) ← ReadFull 4 (put_be 4 a ++ user ++ x00 :: rest); rest ← skipCString l;
       Some (cmd, ""%string, AddrFrom4 b, be16 (byte_of (Z.shiftr port 8)) (byte_of port), rest)).
    rewrite ReadFull_app by apply length_put_be. cbn [mbind option_bind].
    rewrite skipCString_app by done. cbn [mbind option_bind].
    by rewrite be16_put, AddrFrom4_put by lia.
  - unfold encode5 in He. destruct (encode_destination d) as [[atyp b]|] eqn:Hed; [|done].
    injection He as <-. pose proof (Zlen_nonneg methods). cbn [app first_request].
    change socks5Version with x05. cbn [first_request].
    rewrite byte_val_small by lia. unfold Zlen. rewrite Nat2Z.id.
    rewrite ReadFull_app by done. cbn [mbind option_bind app]. rewrite (read_encoded d atyp b _ Hed Hd).
    destruct (destination_parts d) as [hostname ip]. cbn [put_be16 app]. by rewrite be16_put.
Qed.

Lemma asks_unique l cmd hostname ip port rest cmd' hostname' ip' port' rest' :
  asks l cmd hostname ip port rest -> asks l cmd' hostname' ip' port' rest' ->
  cmd = cmd' /\ hostname = hostname' /\ ip = ip' /\ port = port' /\ rest = rest'.
Proof. intros H1%asks_first H2%asks_first. rewrite H1 in H2. by injection H2. Qed.

(** ** SOCKS UDP frames (pkg/server/dataplane.go) *)
Inductive udp_parse :=
  | Rejected
  | Parsed (host : string) (ip : Addr) (port : Z) (payload : list byte)
  | OutOfRange.

(** [uint16(b[i])<<8 | uint16(b[i+1])] and [b[i+2:]]. *)
Definition udp_tail (host : string) (ip : Addr) (b : list byte) (i : nat) : udp_parse :=
  match b !! i, b !! S i with
  | Some p0, Some p1 => Parsed host ip (be16 p0 p1) (drop (i + 2) b)
  | _, _ => OutOfRange
  end.

Definition parseSocksUDP (b : list byte) : udp_parse :=
  match b with
  | b0 :: b1 :: b2 :: b3 :: _ =>
      if negb (Byte.eqb b0 x00 && Byte.eqb b1 x00 && Byte.eqb b2 x00) then Rejected
      else if Byte.eqb b3 x01 then
        if Zlen b <? 4 + 4 + 2 then Rejected
        else udp_tail "" (AddrFrom4 (take 4 (drop 4 b))) b 8
      else if Byte.eqb b3 x04 then
        if Zlen b <? 4 + 16 + 2 then Rejected
        else udp_tail "" (AddrFrom16 (take 16 (drop 4 b))) b 20
      else if Byte.eqb b3 x03 then
        if Zlen b <? 4 + 1 then Rejected
        else
          match b !! 4%nat with
          | None => OutOfRange
          | Some len =>
              let l := byte_val len in
              if (Zlen b <? 5 + l + 2) || (l =? 0) then Rejected
              else udp_tail (str_of (take (Z.to_nat l) (drop 5 b))) AddrNone b (5 + Z.to_nat l)
          end
      else Rejected
  | _ => Rejected
  end.

Definition socksUDPFrame (a : Addr) (port : Z) (p : list byte) : list byte :=
  let ip := Unmap a in
  match ip with
  | Addr4 z => [x00; x00; x00; x01] ++ put_be 4 z ++ put_be16 port ++ p
  | _ => [x00; x00; x00; x04] ++ As16 ip ++ put_be16 port ++ p
  end.

Lemma udp_tail_app host ip pre port p :
  0 <= port < 65536 -> udp_tail host ip (pre ++ put_be16 port ++ p) (length pre) = Parsed host ip port p.
Proof.
  intros Hp. unfold udp_tail.
  rewrite (lookup_app_r pre _ (length pre)), (lookup_app_r pre _ (S (length pre))) by lia.
  replace (length pre - length pre)%nat with 0%nat by lia.
  replace (S (length pre) - length pre)%nat with 1%nat by lia.
  rewrite drop_app_ge by lia. replace (length pre + 2 - length pre)%nat with 2%nat by lia.
  transitivity (Parsed host ip (be16 (byte_of (Z.shiftr port 8)) (byte_of port)) p); [reflexivity|].
  by rewrite be16_put.
Qed.

(** A request as the client frames it. *)
Definition encode_udp (d : destination) (port : Z) (p : list byte) : option (list byte) :=
  match encode_destination d with
  | Some (atyp, b) => Some ([x00; x00; x00; atyp] ++ b ++ put_be16 port ++ p)
  | None => None
  end.

Lemma Zlen_frame (pre b : list byte) port p :
  Zlen (pre ++ b ++ put_be16 port ++ p) = Zlen pre + Zlen b + 2 + Zlen p.
Proof. rewrite !Zlen_app. change (Zlen (put_be16 port)) with 2. lia. Qed.

Lemma take_frame (b : list byte) port p : take (length b) (b ++ put_be16 port ++ p) = b.
Proof. apply take_app_length. Qed.

Lemma parse_4 b port p :
  length b = 4%nat -> 0 <= port < 65536 ->
  parseSocksUDP ([x00; x00; x00; x01] ++ b ++ put_be16 port ++ p) = Parsed "" (AddrFrom4 b) port p.
Proof.
  intros Hl Hp. pose proof (udp_tail_app "" (AddrFrom4 b) ([x00; x00; x00; x01] ++ b) port p Hp) as Ht.
  rewrite length_app, Hl, <-app_assoc in Ht. rewrite <-Ht. clear Ht.
  pose proof (Zlen_frame [x00; x00; x00; x01] b port p) as Hz.
  pose proof (take_frame b port p) as Htk. rewrite Hl in Htk. pose proof (Zlen_nonneg p).
  change (Zlen [x00; x00; x00; x01]) with 4 in Hz.
  unfold parseSocksUDP. cbn [app]. change (Byte.eqb x00 x00) with true.
  change (Byte.eqb x01 x01) with true. cbn [negb andb drop].
  destruct (_ <? 4 + 4 + 2) eqn:E.
  { apply Z.ltb_lt in E. cbn [app] in Hz. rewrite Hz in E. unfold Zlen in E. lia. }
  exact (f_equal (fun q => udp_tail "" (AddrFrom4 q) ([x00; x00; x00; x01] ++ b ++ put_be16 port ++ p) 8) Htk).
Qed.

Lemma parse_16 b port p :
  length b = 16%nat -> 0 <= port < 65536 ->
  parseSocksUDP ([x00; x00; x00; x04] ++ b ++ put_be16 port ++ p) = Parsed "" (AddrFrom16 b) port p.
Proof.
  intros Hl Hp. pose proof (udp_tail_app "" (AddrFrom16 b) ([x00; x00; x00; x04] ++ b) port p Hp) as Ht.
  rewrite length_app, Hl, <-app_assoc in Ht. rewrite <-Ht. clear Ht.
  pose proof (Zlen_frame [x00; x00; x00; x04] b port p) as Hz.
  pose proof (take_frame b port p) as Htk. rewrite Hl in Htk. pose proof (Zlen_nonneg p).
  change (Zlen [x00; x00; x00; x04]) with 4 in Hz.
  unfold parseSocksUDP. cbn [app]. change (Byte.eqb x00 x00) with true.
  change (Byte.eqb x04 x01) with false. change (Byte.eqb x04 x04) with true. cbn [negb andb drop].
  destruct (_ <? 4 + 16 + 2) eqn:E.
  { apply Z.ltb_lt in E. cbn [app] in Hz. rewrite Hz in E. unfold Zlen in E. lia. }
  exact (f_equal (fun q => udp_tail "" (AddrFrom16 q) ([x00; x00; x00; x04] ++ b ++ put_be16 port ++ p) 20) Htk).
Qed.

Lemma parse_name name port p :
  0 < Zlen name < 256 -> 0 <= port < 65536 ->
  parseSocksUDP ([x00; x00; x00; x03; byte_of (Zlen name)] ++ name ++ put_be16 port ++ p) =
  Parsed (str_of name) AddrNone port p.
Proof.
  intros Hn Hp. set (len := byte_of (Zlen name)).
  assert (Hlen : byte_val len = Zlen name) by (apply byte_val_small; lia). clearbody len.
  pose proof (udp_tail_app (str_of name) AddrNone ([x00; x00; x00; x03; len] ++ name) port p Hp) as Ht.
  rewrite length_app, <-app_assoc in Ht. rewrite <-Ht. clear Ht.
  pose proof (Zlen_frame [x00; x00; x00; x03; len] name port p) as Hz.
  pose proof (take_frame name port p) as Htk. pose proof (Zlen_nonneg p).
  change (Zlen [x00; x00; x00; x03; len]) with 5 in Hz. cbn [app] in Hz.
  unfold parseSocksUDP. cbn [app]. change (Byte.eqb x00 x00) with true.
  change (Byte.eqb x03 x01) with false. change (Byte.eqb x03 x04) with false.
  change (Byte.eqb x03 x03) with true. cbn [negb andb drop].
  destruct (_ <? 4 + 1) eqn:E; [apply Z.ltb_lt in E; rewrite Hz in E; lia|].
  cbn [lookup list_lookup]. rewrite Hlen, Hz.
  destruct (_ || _) eqn:E2.
  { apply orb_true_iff in E2 as [E2|E2]; [apply Z.ltb_lt in E2|apply Z.eqb_eq in E2]; lia. }
  replace (Z.to_nat (Zlen name)) with (length name) by (unfold Zlen; lia).
  exact (f_equal (fun q => udp_tail (str_of q) AddrNone
           ([x00; x00; x00; x03; len] ++ name ++ put_be16 port ++ p) (5 + length name)) Htk).
Qed.

Lemma parse_encode_udp d port p b :
  encode_udp d port p = Some b -> destination_wf d = true -> 0 <= port < 65536 -> d <> DName [] ->
  parseSocksUDP b = let '(host, ip) := destination_parts d in Parsed host ip port p.
Proof.
  intros He Hd Hp Hne. unfold encode_udp, encode_destination in He.
  destruct d as [[|a|a z]|name]; try done.
  - apply (inj Some) in He as <-. unfold destination_wf, addr_wf in Hd. apply andb_true_iff in Hd as [? ?].
    bool_to_prop. unfold destination_parts. rewrite <-(AddrFrom4_put a) by lia.
    apply parse_4; [apply length_put_be|done].
  - destruct (z =? "")%string eqn:Hz; [|done]. apply (inj Some) in He as <-. apply String.eqb_eq in Hz as ->.
    unfold destination_wf, addr_wf in Hd. apply andb_true_iff in Hd as [? ?].
    bool_to_prop. unfold destination_parts. rewrite <-(AddrFrom16_put a) by lia.
    apply parse_16; [apply length_put_be|done].
  - destruct (Zlen name <? 256) eqn:Hn; [|done]. apply (inj Some) in He as <-. bool_to_prop.
    unfold destination_parts.
    change ([x00; x00; x00; socks5AtypDomain] ++ (byte_of (Zlen name) :: name) ++ put_be16 port ++ p)
      with ([x00; x00; x00; x03; byte_of (Zlen name)] ++ name ++ put_be16 port ++ p).
    apply parse_name; [|done]. destruct name; [done|]. rewrite Zlen_cons in *.
    pose proof (Zlen_nonneg name). lia.
Qed.

Lemma parseSocksUDP_in_range b : parseSocksUDP b <> OutOfRange.
Proof.
  assert (Ht : forall host ip i, Z.of_nat i + 2 <= Zlen b -> udp_tail host ip b i <> OutOfRange).
  { intros host ip i Hi. unfold udp_tail, Zlen in *.
    destruct (lookup_lt_is_Some_2 b i) as [p0 ->]; [lia|].
    destruct (lookup_lt_is_Some_2 b (S i)) as [p1 ->]; [lia|done]. }
  destruct b as [|b0 [|b1 [|b2 [|b3 r]]]]; try done. unfold parseSocksUDP.
  set (b := b0 :: b1 :: b2 :: b3 :: r) in *. clearbody b.
  destruct (negb _); [done|]. destruct (Byte.eqb b3 x01).
  { destruct (_ <? _) eqn:E; [done|]. apply Ht. bool_lia. }
  destruct (Byte.eqb b3 x04).
  { destruct (_ <? _) eqn:E; [done|]. apply Ht. bool_lia. }
  destruct (Byte.eqb b3 x03); [|done]. destruct (Zlen b <? 4 + 1) eqn:E; [done|]. bool_to_prop.
  destruct (lookup_lt_is_Some_2 b 4) as [len ->]; [unfold Zlen in *; lia|].
  destruct (_ || _) eqn:E2; [done|]. bool_to_prop. pose proof (byte_val_range len). apply Ht. lia.
Qed.

(** An address without its zone. *)
Definition without_zone (x : Addr) : Addr := match x with Addr6 a _ => Addr6 a "" | _ => x end.

Lemma parse_frame a port p :
  addr_wf a = true -> addr_IsValid a = true -> 0 <= port < 65536 ->
  parseSocksUDP (socksUDPFrame a port p) = Parsed "" (without_zone (Unmap a)) port p.
Proof.
  intros Hwf%Unmap_wf Hv Hp. rewrite <-Unmap_valid in Hv. unfold socksUDPFrame.
  destruct (Unmap a) as [|z|z zn]; [done| |]; unfold addr_wf in Hwf;
    apply andb_true_iff in Hwf as [? ?]; bool_to_prop; unfold without_zone, As16.
  - rewrite <-(AddrFrom4_put z) by lia. apply parse_4; [apply length_put_be|done].
  - rewrite <-(AddrFrom16_put z) by lia. apply parse_16; [apply length_put_be|done].
Qed.

(** SOCKS UDP framing round-trips: a client's request for any address or
    non-empty name parses back to its destination, port and payload, a frame
    the server sends parses back to the (unmapped) source, and no datagram at
    all makes the parser index out of range. *)
Theorem socks_udp_roundtrip :
  (forall d port p b, encode_udp d port p = Some b -> destination_wf d = true ->
     0 <= port < 65536 -> d <> DName [] ->
     parseSocksUDP b = let '(host, ip) := destination_parts d in Parsed host ip port p) /\
  (forall a port p, addr_wf a = true -> addr_IsValid a = true -> 0 <= port < 65536 ->
     parseSocksUDP (socksUDPFrame a port p) = Parsed "" (without_zone (Unmap a)) port p) /\
  (forall b, parseSocksUDP b <> OutOfRange).
Proof.
  split; [|split].
  - intros d port p b. apply parse_encode_udp.
  - apply parse_frame.
  - apply parseSocksUDP_in_range.
Qed.

Lemma socks_udp_roundtrip_witness :
  parseSocksUDP [x00; x00; x00; x03; x01; x61; x00; x35; x2a] = Parsed "a" AddrNone 53 [x2a].
Proof.
  destruct socks_udp_roundtrip as [H _].
  apply (H (DName [x61]) 53 [x2a]); [reflexivity|reflexivity|lia|discriminate].
Defined.

(** ** The server's promises *)

(** C36: Whatever bytes a client sends, a SOCKS server built from a
    configuration dials only for a CONNECT request those bytes spell (as
    SOCKS4 and SOCKS5 encode it) and only where the configuration permits: the
    one address the request's literal or the first lookup answer for its name
    gives, permitted by the filter and approved by the host's policy for the
    request's port, that very address and port and not the name again.
    The exception is a server set up to have names dialled by its upstream
    proxy: there the request's name and port are what is dialled, after the
    first address it resolves to here was permitted and approved. The server
    listens only for a BIND request whose destination passed the same checks,
    and only when BIND is enabled; it starts at most one network operation,
    passes on just the bytes behind the request and only to a connection that
    was made, and does not panic while addresses of live sockets are valid. *)
Theorem socks_egress {E} (P : string -> result E Prefix) cfg s n l :
  (forall c p, P c = Ok p -> prefix_wf p = true) ->
  (forall h addrs a, LookupNetIP n h = Some addrs -> a ∈ addrs -> addr_wf a = true) ->
  New P cfg = Ok s ->
  let evs := ServeConn s n l in
  let passes cmd t :=
    exists hostname ip port rest resolved,
      asks l cmd hostname ip port rest /\
      (ip = resolved /\ addr_IsValid ip = true \/
       addr_IsValid ip = false /\ exists more, LookupNetIP n hostname = Some (resolved :: more)) /\
      permits P (sc_ASNLookup cfg) (sc_Filter cfg) hostname resolved /\
      (forall f, sc_Authorize cfg = Some f -> f hostname resolved port tcp = true) /\
      t = (if sc_DialRemoteHostname cfg && negb (hostname =? "")%string
           then TargetHost hostname port else TargetAddr (Unmap resolved) port) in
  (forall t, Dialed t ∈ evs -> passes socks5CmdConnect t) /\
  (Listened ∈ evs -> sc_AllowBind cfg = true /\ exists t, passes socks5CmdBind t) /\
  (forall rest, Relayed rest ∈ evs -> exists cmd hostname ip port, asks l cmd hostname ip port rest) /\
  relay_ok n evs /\ (operations evs <= 1)%nat /\
  (net_ok s n -> Panicked ∉ evs).
Proof.
  intros HP Hdns Hs evs passes. unfold New in Hs. apply res_bind_ok in Hs as (f & Hf & Hs).
  destruct (ServeConn_ok s n (asks l) l (fun _ _ _ _ _ H => H)) as (Hev & Hrel & Hops).
  fold evs in Hev, Hrel, Hops. rewrite Forall_forall in Hev.
  assert (sv_filter s = f /\ sv_authorize s = sc_Authorize cfg /\ sv_allowBind s = sc_AllowBind cfg /\
          sv_dialRemoteHostname s = sc_DialRemoteHostname cfg) as (Hsf & Hsa & Hsb & Hsd)
    by (by injection Hs as <-).
  assert (Hpass : forall cmd t, approved s n (asks l) cmd t -> passes cmd t).
  { intros cmd t (hostname & ip & port & rest & r & Hask & Hc & Hv & Hwf & ->).
    exists hostname, ip, port, rest, r. unfold vetted in Hv. apply andb_true_iff in Hv as [Ha Hauth].
    rewrite Hsf in Ha. rewrite Hsa in Hauth.
    assert (Hr : ip = r /\ addr_IsValid ip = true \/
                 addr_IsValid ip = false /\ exists more, LookupNetIP n hostname = Some (r :: more)).
    { unfold chosen in Hc. destruct (addr_IsValid ip); [left; naive_solver|right; split; [done|]].
      destruct (LookupNetIP n hostname) as [[|a addrs]|]; [done| |done]. injection Hc as <-. eauto. }
    assert (Hrwf : addr_wf r = true).
    { destruct Hr as [[-> Hi]|[_ [more Hl]]]; [by apply Hwf|]. eapply Hdns; [exact Hl|by left]. }
    split; [done|]. split; [done|]. split; [by apply (Allowed_permits P _ _ f hostname r HP Hf Hrwf)|].
    split; [|by rewrite <-Hsd]. intros g Hg. by rewrite Hg in Hauth. }
  split_and!.
  - intros t Ht. apply Hpass, (Hev _ Ht).
  - intros Hl. destruct (Hev _ Hl) as (Hb & t & Ht). rewrite <-Hsb. eauto.
  - intros rest Hr. exact (Hev _ Hr).
  - done.
  - done.
  - intros Hn Hpan. by apply (Hev _ Hpan).
Qed.

Definition toy_socks : Config :=
  mkSocksConfig toy_filter None None 0 0 0 false false None.

Definition toy_net : net :=
  mkNet (fun h => if (h =? "db.example.com")%string then Some [Addr6 (0xffffc6336407) ""] else None)
    (fun _ => Ok (Some (v4 10 0 0 9, 40000))) None (Err false) true.

(** A CONNECT by name to 198.51.100.7:443 followed by two bytes. *)
Definition toy_conversation : list byte :=
  default [] (encode5 [x00] socks5CmdConnect x00 (DName (bytes_of "db.example.com")) 443 [x2a; x2b]).

Lemma socks_egress_witness :
  match New toy_parse toy_socks with
  | Err _ => False
  | Ok s =>
      Dialed (TargetAddr (v4 198 51 100 7) 443) ∈ ServeConn s toy_net toy_conversation /\
      exists hostname ip rest resolved,
        asks toy_conversation socks5CmdConnect hostname ip 443 rest /\
        permits toy_parse None toy_filter hostname resolved /\ Unmap resolved = v4 198 51 100 7
  end.
Proof.
  destruct (New toy_parse toy_socks) as [s|] eqn:Hs; [|vm_compute in Hs; discriminate].
  assert (Hd : Dialed (TargetAddr (v4 198 51 100 7) 443) ∈ ServeConn s toy_net toy_conversation).
  { replace s with (match New toy_parse toy_socks with Ok s => s | Err _ => s end) by (by rewrite Hs).
    vm_compute. right. left. }
  split; [done|].
  assert (Hdns : forall h addrs a, LookupNetIP toy_net h = Some addrs -> a ∈ addrs -> addr_wf a = true).
  { intros h addrs a. cbn [toy_net LookupNetIP]. destruct (_ =? _)%string; [|done].
    intros [= <-] Ha. apply list_elem_of_singleton in Ha as ->. reflexivity. }
  destruct (socks_egress toy_parse toy_socks s toy_net toy_conversation toy_parse_wf Hdns Hs) as [Hall _].
  destruct (Hall _ Hd) as (hostname & ip & port & rest & r & Hask & _ & Hp & _ & Ht).
  change (sc_DialRemoteHostname toy_socks) with false in Ht. simpl in Ht. injection Ht as -> <-.
  by exists hostname, ip, rest, r.
Defined.

Definition failure5 (rep : byte) : event :=
  Wrote [socks5Version; rep; x00; socks5AtypIPv4; x00; x00; x00; x00; x00; x00].

(** An encoded SOCKS5 CONNECT is answered as its destination deserves:
    host unreachable when its name does not resolve, not allowed when the
    filter or the policy refuses, TTL expired or general failure when the
    dial times out or fails, and otherwise a success reply with the local
    address, after which exactly the bytes behind the request are relayed. *)
Theorem socks5_connect_answered s n methods rsv d port rest l :
  encode5 methods socks5CmdConnect rsv d port rest = Some l -> destination_wf d = true ->
  Zlen methods < 256 -> socks5NoAuth ∈ methods -> 0 <= port < 65536 -> method_write_ok n = true ->
  let '(hostname, ip) := destination_parts d in
  ServeConn s n l =
  Wrote [socks5Version; socks5NoAuth] ::
  match chosen n hostname ip with
  | None => [failure5 x04]
  | Some resolved =>
      if vetted s hostname resolved port tcp then
        let t := dial_target s hostname resolved port in
        Dialed t ::
        match dial n t with
        | Err true => [failure5 x06]
        | Err false => [failure5 x01]
        | Ok local =>
            let '(addr, p) := addr_parts local in
            [writeSocks5Reply x00 addr p; Relayed rest]
        end
      else [failure5 x02]
  end.
Proof.
  intros He Hd Hm Hin Hp Hw.
  pose proof (serve_encoded s n methods socks5CmdConnect rsv d port rest l He Hd Hm Hin Hp Hw) as Hs.
  destruct (destination_parts d) as [hostname ip]. rewrite Hs. f_equal.
  unfold socks5_command. change (Byte.eqb socks5CmdConnect socks5CmdConnect) with true. cbv iota.
  unfold connect, filterDestination. rewrite filterDestinationProtocol_eq.
  destruct (chosen n hostname ip) as [r|]; [|reflexivity].
  destruct (vetted s hostname r port tcp); [|reflexivity].
  fold (dial_target s hostname r port). cbv zeta.
  destruct (dial n (dial_target s hostname r port)) as [local|[]]; [|reflexivity|reflexivity].
  destruct (addr_parts local) as [addr p]. reflexivity.
Qed.

Lemma socks5_connect_answered_witness :
  match New toy_parse toy_socks with
  | Err _ => False
  | Ok s => ServeConn s toy_net toy_conversation =
      [Wrote [x05; x00]; Dialed (TargetAddr (v4 198 51 100 7) 443);
       Wrote [x05; x00; x00; x01; x0a; x00; x00; x09; x9c; x40]; Relayed [x2a; x2b]]
  end.
Proof.
  destruct (New toy_parse toy_socks) as [s|] eqn:Hs; [|vm_compute in Hs; discriminate].
  pose proof (socks5_connect_answered s toy_net [x00] x00 (DName (bytes_of "db.example.com")) 443
                [x2a; x2b] toy_conversation) as H.
  cbn [destination_parts] in H. rewrite H; [|vm_compute; reflexivity|reflexivity|reflexivity|by left|lia|reflexivity].
  replace s with (match New toy_parse toy_socks with Ok s => s | Err _ => s end) by (by rewrite Hs).
  vm_compute. reflexivity.
Defined.
