(* ===== verification/WgKeys.v ===== *)
(** WireGuard keys as text: standard base64 as [encoding/base64] has it, and
    [decodeKey] and [CanonicalPublicKey] of [pkg/wgnet/wgnet.go].  One key has
    many spellings (line breaks and unused trailing bits are accepted), one
    canonical one. *)
From S2P Require Import Prelude Bytes.

(** ** encoding/base64 (StdEncoding) *)
Definition alphabet : list byte :=
  bytes_of "ABCDEFGHIJKLMNOPQRSTUVWXYZabcdefghijklmnopqrstuvwxyz0123456789+/".

Definition char_of (s : Z) : byte := nth (Z.to_nat s) alphabet x00.

Definition sextet_of (c : byte) : option Z :=
  (fun e : nat * byte => Z.of_nat e.1) <$> list_find (fun x => x = c) alphabet.

Definition pad : byte := x3d.

Fixpoint EncodeToString (l : list byte) : list byte :=
  match l with
  | b0 :: b1 :: b2 :: l =>
      let v := byte_val b0 * 65536 + byte_val b1 * 256 + byte_val b2 in
      char_of (v / 262144) :: char_of (v / 4096 mod 64) :: char_of (v / 64 mod 64) ::
      char_of (v mod 64) :: EncodeToString l
  | [b0; b1] =>
      let v := byte_val b0 * 65536 + byte_val b1 * 256 in
      [char_of (v / 262144); char_of (v / 4096 mod 64); char_of (v / 64 mod 64); pad]
  | [b0] =>
      let v := byte_val b0 * 65536 in
      [char_of (v / 262144); char_of (v / 4096 mod 64); pad; pad]
  | [] => []
  end.

(** Carriage returns and line feeds are skipped wherever they stand. *)
Definition strip_newlines (l : list byte) : list byte :=
  filter (fun c => c <> x0a /\ c <> x0d) l.

(** Quanta of four; padding only in the last one; trailing bits are not
    checked.  [None] is [CorruptInputError]. *)
Fixpoint decode_quanta (l : list byte) : option (list byte) :=
  match l with
  | [] => Some []
  | c0 :: c1 :: c2 :: c3 :: l =>
      match sextet_of c0, sextet_of c1, sextet_of c2, sextet_of c3 with
      | Some s0, Some s1, Some s2, Some s3 =>
          let v := s0 * 262144 + s1 * 4096 + s2 * 64 + s3 in
          match decode_quanta l with
          | Some r => Some (byte_of (v / 65536) :: byte_of (v / 256) :: byte_of v :: r)
          | None => None
          end
      | Some s0, Some s1, Some s2, None =>
          let v := s0 * 262144 + s1 * 4096 + s2 * 64 in
          if Byte.eqb c3 pad && match l with [] => true | _ => false end
          then Some [byte_of (v / 65536); byte_of (v / 256)] else None
      | Some s0, Some s1, None, _ =>
          let v := s0 * 262144 + s1 * 4096 in
          if Byte.eqb c2 pad && Byte.eqb c3 pad && match l with [] => true | _ => false end
          then Some [byte_of (v / 65536)] else None
      | _, _, _, _ => None
      end
  | _ => None
  end.

Definition DecodeString (s : string) : option (list byte) :=
  decode_quanta (strip_newlines (bytes_of s)).

(** ** pkg/wgnet/wgnet.go *)
Definition decodeKey (encoded : string) : option (list byte) :=
  match DecodeString encoded with
  | Some key => if Zlen key =? 32 then Some key else None
  | None => None
  end.

Definition CanonicalPublicKey (key : string) : option string :=
  match decodeKey key with
  | Some raw => Some (str_of (EncodeToString raw))
  | None => None
  end.

(** ** Round trips *)
Lemma sextet_char s : 0 <= s < 64 -> sextet_of (char_of s) = Some s.
Proof.
  intros Hs.
  assert (H : Forall (fun s => sextet_of (char_of s) = Some s) (seqZ 0 64)).
  { apply (bool_decide_unpack _). vm_compute. exact I. }
  rewrite Forall_forall in H. apply H, elem_of_seqZ. lia.
Qed.

Lemma char_newline s : 0 <= s < 64 -> char_of s <> x0a /\ char_of s <> x0d /\ char_of s <> pad.
Proof.
  intros Hs.
  assert (H : Forall (fun s => char_of s <> x0a /\ char_of s <> x0d /\ char_of s <> pad) (seqZ 0 64)).
  { apply (bool_decide_unpack _). vm_compute. exact I. }
  rewrite Forall_forall in H. apply H, elem_of_seqZ. lia.
Qed.

Lemma sextet_pad : sextet_of pad = None.
Proof. reflexivity. Qed.

(** The four sextets of three bytes. *)
Lemma sextets v : 0 <= v < 16777216 ->
  0 <= v / 262144 < 64 /\ 0 <= v / 4096 mod 64 < 64 /\ 0 <= v / 64 mod 64 < 64 /\ 0 <= v mod 64 < 64 /\
  v / 262144 * 262144 + v / 4096 mod 64 * 4096 + v / 64 mod 64 * 64 + v mod 64 = v.
Proof. intros Hv. Z.to_euclidean_division_equations. lia. Qed.

Lemma byte_of_eq z b : z mod 256 = byte_val b -> byte_of z = b.
Proof. intros H. apply byte_val_inj. by rewrite byte_val_of. Qed.

Lemma list_ind3 {A} (P : list A -> Prop) :
  P [] -> (forall a, P [a]) -> (forall a b, P [a; b]) ->
  (forall a b c l, P l -> P (a :: b :: c :: l)) -> forall l, P l.
Proof.
  intros H0 H1 H2 H3. fix IH 1. intros [|a [|b [|c l]]]; [done|apply H1|apply H2|].
  apply H3, IH.
Qed.

Lemma decode_encode l : decode_quanta (EncodeToString l) = Some l.
Proof.
  induction l as [|a|a b|a b c l IH] using list_ind3; [done|..];
    cbn [EncodeToString decode_quanta]; pose proof (byte_val_range a) as Ha.
  - destruct (sextets (byte_val a * 65536)) as (H0 & H1 & H2 & H3 & Hv); [lia|].
    rewrite !sextet_char, sextet_pad by done. change (Byte.eqb pad pad && Byte.eqb pad pad && true) with true.
    cbv iota. do 2 f_equal. apply byte_of_eq. Z.to_euclidean_division_equations. lia.
  - pose proof (byte_val_range b) as Hb.
    destruct (sextets (byte_val a * 65536 + byte_val b * 256)) as (H0 & H1 & H2 & H3 & Hv); [lia|].
    rewrite !sextet_char, sextet_pad by done. change (Byte.eqb pad pad && true) with true. cbv iota.
    assert ((byte_val a * 65536 + byte_val b * 256) mod 64 = 0) as Hz
      by (Z.to_euclidean_division_equations; lia).
    rewrite Hz, Z.add_0_r in Hv. rewrite Hv.
    f_equal. f_equal; [|f_equal]; apply byte_of_eq; Z.to_euclidean_division_equations; lia.
  - pose proof (byte_val_range b) as Hb. pose proof (byte_val_range c) as Hc.
    destruct (sextets (byte_val a * 65536 + byte_val b * 256 + byte_val c)) as (H0 & H1 & H2 & H3 & Hv); [lia|].
    rewrite !sextet_char by done. rewrite Hv, IH.
    f_equal. f_equal; [|f_equal; [|f_equal]]; apply byte_of_eq; Z.to_euclidean_division_equations; lia.
Qed.

Lemma strip_encode l : strip_newlines (EncodeToString l) = EncodeToString l.
Proof.
  assert (Hc : forall s r, 0 <= s < 64 -> strip_newlines (char_of s :: r) = char_of s :: strip_newlines r).
  { intros s r Hs. unfold strip_newlines. rewrite filter_cons_True; [done|].
    destruct (char_newline s Hs) as (? & ? & ?). done. }
  assert (Hp : forall r, strip_newlines (pad :: r) = pad :: strip_newlines r) by done.
  induction l as [|a|a b|a b c l IH] using list_ind3; [done|..];
    cbn [EncodeToString]; pose proof (byte_val_range a) as Ha.
  - destruct (sextets (byte_val a * 65536)) as (H0 & H1 & H2 & H3 & Hv); [lia|].
    by rewrite !Hc, !Hp by done.
  - pose proof (byte_val_range b) as Hb.
    destruct (sextets (byte_val a * 65536 + byte_val b * 256)) as (H0 & H1 & H2 & H3 & Hv); [lia|].
    by rewrite !Hc, !Hp by done.
  - pose proof (byte_val_range b) as Hb. pose proof (byte_val_range c) as Hc'.
    destruct (sextets (byte_val a * 65536 + byte_val b * 256 + byte_val c)) as (H0 & H1 & H2 & H3 & Hv); [lia|].
    by rewrite !Hc, IH by done.
Qed.

Lemma DecodeString_Encode l : DecodeString (str_of (EncodeToString l)) = Some l.
Proof. unfold DecodeString. by rewrite bytes_of_str_of, strip_encode, decode_encode. Qed.

(** Two spellings have one canonical form exactly when they name one key. *)
Lemma CanonicalPublicKey_eq k k' c :
  CanonicalPublicKey k = Some c ->
  CanonicalPublicKey k' = Some c <-> decodeKey k' = decodeKey k.
Proof.
  unfold CanonicalPublicKey. destruct (decodeKey k) as [r|]; [|done]. intros [= <-].
  destruct (decodeKey k') as [r'|]; [|done]. split; [|naive_solver].
  intros [= H]. f_equal. apply (f_equal (DecodeString)) in H.
  rewrite !DecodeString_Encode in H. by injection H.
Qed.

Lemma CanonicalPublicKey_idemp k c : CanonicalPublicKey k = Some c -> CanonicalPublicKey c = Some c.
Proof.
  unfold CanonicalPublicKey. destruct (decodeKey k) as [r|] eqn:Hk; [|done]. intros [= <-].
  unfold decodeKey in *. destruct (DecodeString k) as [r'|]; [|done].
  rewrite DecodeString_Encode. destruct (Zlen r' =? 32) eqn:Hl; [|done]. injection Hk as ->. by rewrite Hl.
Qed.

Lemma CanonicalPublicKey_nonempty k c : CanonicalPublicKey k = Some c -> c <> ""%string.
Proof. intros H%CanonicalPublicKey_idemp ->. by vm_compute in H. Qed.
