(* ===== verification/Sessions.v ===== *)
(** [pkg/server/session.go]: the table of control-plane sessions.  Each
    method holds the table's mutex throughout, so it is one step; [now] is
    its reading of the clock, [ord] the order its [range] loop meets the map
    in, and random tokens are arguments. *)
From S2P Require Import Prelude Bytes Protocol WgKeys.

Record Session := mkSession {
  ss_ID : string;
  ss_Token : string;
  ss_Method : string;
  ss_Identity : string;
  ss_Fingerprint : string;
  ss_WireGuardPublicKey : string;
  ss_TunnelIP : string;
  ss_Issuer : string;
  ss_Groups : list string;
  ss_Tunnels : list Tunnel;
  ss_LatencyMillis : Z;
  ss_Reconnections : Z;
  ss_Multipath : bool;
  ss_PathMTU : bool;
  ss_ClientInfo : ClientInfo;
  ss_Expires : Z;
}.

Record CreateParams := mkParams {
  p_Method : string;
  p_Identity : string;
  p_Fingerprint : string;
  p_Issuer : string;
  p_Groups : list string;
  p_WireGuardPublicKey : string;
  p_TunnelIP : string;
  p_Tunnels : list Tunnel;
  p_LatencyMillis : Z;
  p_Reconnections : Z;
  p_Multipath : bool;
  p_PathMTU : bool;
  p_ClientInfo : ClientInfo;
  p_TTL : Z;
}.

(** [byToken]. *)
Notation Sessions := (gmap string Session).

Definition NewSessions : Sessions := ∅.

Definition range_order : Type := Sessions -> list string.

Definition canonical_or (k : string) : string :=
  match CanonicalPublicKey k with Some c => c | None => k end.

Definition Create (id token : string) (now : Z) (p : CreateParams) (s : Sessions) :
    Session * Sessions :=
  let v := mkSession id token (p_Method p) (p_Identity p) (p_Fingerprint p)
    (canonical_or (p_WireGuardPublicKey p)) (p_TunnelIP p) (p_Issuer p) (p_Groups p) (p_Tunnels p)
    (p_LatencyMillis p) (p_Reconnections p) (p_Multipath p) (p_PathMTU p) (p_ClientInfo p)
    (time_add now (p_TTL p)) in
  (v, <[token := v]> s).

(** [now.After(v.Expires)] *)
Definition expired (now : Z) (v : Session) : bool := time_after now (ss_Expires v).

(** The first session a range loop meets that is live and satisfies [f]. *)
Definition find_live (ord : range_order) (now : Z) (f : Session -> bool) (s : Sessions) :
    option Session :=
  List.find (fun v => negb (expired now v) && f v) (omap (fun t => s !! t) (ord s)).

Definition FindWireGuardPublicKey (ord : range_order) (now : Z) (key : string) (s : Sessions) :
    option Session :=
  let key := canonical_or key in
  find_live ord now
    (fun v => negb (key =? "")%string && (canonical_or (ss_WireGuardPublicKey v) =? key)%string) s.

Definition Get (now : Z) (t : string) (s : Sessions) : option Session :=
  match s !! t with
  | Some v => if expired now v then None else Some v
  | None => None
  end.

Definition FindID (ord : range_order) (now : Z) (id : string) (s : Sessions) : option Session :=
  find_live ord now (fun v => (ss_ID v =? id)%string) s.

Definition Delete (t : string) (s : Sessions) : Sessions := delete t s.

Definition DeleteByID (ord : range_order) (now : Z) (id : string) (s : Sessions) :
    option Session * Sessions :=
  match FindID ord now id s with
  | Some v => (Some v, delete (ss_Token v) s)
  | None => (None, s)
  end.

Definition of_identity (method identity : string) (v : Session) : bool :=
  (ss_Method v =? method)%string && (ss_Identity v =? identity)%string.

Definition CountIdentity (now : Z) (method identity : string) (s : Sessions) : Z :=
  countZ (fun v => negb (expired now v) && of_identity method identity v) s.

(** [Reap]: the loop deletes as it goes and returns what it deleted. *)
Definition reap_step (now : Z) (acc : Sessions * list Session) (t : string) :
    Sessions * list Session :=
  match acc.1 !! t with
  | Some v => if expired now v then (delete t acc.1, acc.2 ++ [v]) else acc
  | None => acc
  end.

Definition Reap (ord : range_order) (now : Z) (s : Sessions) : list Session * Sessions :=
  let '(s', dead) := foldl (reap_step now) (s, []) (ord s) in (dead, s').

Definition All (ord : range_order) (s : Sessions) : list Session := omap (fun t => s !! t) (ord s).

(** ** The table's own invariant: sessions are filed under their tokens. *)
Definition filed (s : Sessions) : Prop := forall t v, s !! t = Some v -> ss_Token v = t.

Lemma filed_empty : filed NewSessions.
Proof. intros t v Hv. exfalso. exact (lookup_empty_Some (M := gmap string) t v Hv). Qed.

Lemma filed_Create id token now p s : filed s -> filed (Create id token now p s).2.
Proof. intros Hf t v Hv. simpl in Hv. apply lookup_insert_Some in Hv as [[<- <-]|[_ Hv]]; [done|eauto]. Qed.

Lemma filed_delete t s : filed s -> filed (delete t s).
Proof. intros Hf t' v [_ Hv]%lookup_delete_Some. eauto. Qed.

Lemma elem_of_All ord s v : ranges ord -> v ∈ All ord s <-> exists t, s !! t = Some v.
Proof.
  intros Hord. unfold All. rewrite list_elem_of_omap. split.
  - intros (t & _ & Hv). eauto.
  - intros (t & Hv). exists t. split; [|done]. apply (elem_of_ranges ord s t Hord). eauto.
Qed.

Lemma find_live_Some ord now f s v :
  ranges ord -> find_live ord now f s = Some v ->
  (exists t, s !! t = Some v) /\ expired now v = false /\ f v = true.
Proof.
  intros Hord Hf. unfold find_live in Hf. apply find_some in Hf as [Hin Hv].
  apply list_elem_of_In in Hin. fold (All ord s) in Hin. apply elem_of_All in Hin; [|done].
  apply andb_true_iff in Hv as [He Hv]. by apply negb_true_iff in He.
Qed.

Lemma find_live_None ord now f s t v :
  ranges ord -> find_live ord now f s = None -> s !! t = Some v -> expired now v = false -> f v = false.
Proof.
  intros Hord Hf Hv He. unfold find_live in Hf.
  assert (Hin : v ∈ All ord s) by (apply elem_of_All; eauto). apply list_elem_of_In in Hin.
  pose proof (find_none _ _ Hf v Hin) as Hn. simpl in Hn. by rewrite He in Hn.
Qed.

(** [Reap] removes exactly the expired sessions and returns each once. *)
Lemma omap_delete (s : Sessions) t (l : list string) :
  t ∉ l -> omap (fun t' => delete t s !! t') l = omap (fun t' => s !! t') l.
Proof.
  induction l as [|t' l IH]; intros Hnt; [done|]. apply not_elem_of_cons in Hnt as [Hne Hnt].
  simpl. rewrite lookup_delete_ne by done. specialize (IH Hnt).
  destruct (s !! t'); [f_equal|]; exact IH.
Qed.

Definition reaped (now : Z) (s : Sessions) : Sessions := filter (fun e => expired now e.2 = false) s.

Lemma lookup_reaped now s t v : reaped now s !! t = Some v <-> s !! t = Some v /\ expired now v = false.
Proof. unfold reaped. by rewrite map_lookup_filter_Some. Qed.

Lemma reap_loop now (l : list string) (s : Sessions) dead :
  NoDup l ->
  (foldl (reap_step now) (s, dead) l).2 = dead ++ List.filter (expired now) (omap (fun t => s !! t) l) /\
  forall t v, (foldl (reap_step now) (s, dead) l).1 !! t = Some v <->
              s !! t = Some v /\ (t ∈ l -> expired now v = false).
Proof.
  revert s dead. induction l as [|t l IH]; intros s dead Hnd.
  { simpl. rewrite app_nil_r. split; [done|]. set_solver. }
  apply NoDup_cons in Hnd as [Hnt Hnd]. simpl.
  destruct (s !! t) as [v|] eqn:Ht; [destruct (expired now v) eqn:He|];
    assert (reap_step now (s, dead) t =
            match s !! t with
            | Some v => if expired now v then (delete t s, dead ++ [v]) else (s, dead)
            | None => (s, dead) end) as -> by done; rewrite Ht; rewrite ?He.
  - destruct (IH (delete t s) (dead ++ [v]) Hnd) as [-> Hl]. split.
    + rewrite <-app_assoc. simpl. rewrite He. by rewrite omap_delete.
    + intros t' v'. rewrite Hl, lookup_delete_Some, elem_of_cons. split; [naive_solver|].
      intros [Hs Hx]. assert (t <> t') by (intros <-; naive_solver congruence). naive_solver.
  - destruct (IH s dead Hnd) as [-> Hl]. split; [simpl; by rewrite He|].
    intros t' v'. rewrite Hl, elem_of_cons. naive_solver congruence.
  - destruct (IH s dead Hnd) as [-> Hl]. split; [done|].
    intros t' v'. rewrite Hl, elem_of_cons. naive_solver congruence.
Qed.

Lemma Reap_spec ord now s :
  ranges ord -> Reap ord now s = (List.filter (expired now) (All ord s), reaped now s).
Proof.
  intros Hord. unfold Reap, All.
  destruct (reap_loop now (ord s) s [] (NoDup_ranges ord s Hord)) as [Hd Hl].
  destruct (foldl _ _ _) as [s' dead]. simpl in Hd, Hl. rewrite Hd. f_equal.
  apply map_eq. intros t. apply option_eq. intros v. rewrite Hl, lookup_reaped.
  split; intros [Hs Hx]; (split; [done|]); [|done].
  apply Hx, (elem_of_ranges ord s t Hord). eauto.
Qed.

Lemma elem_of_dead ord now s v :
  ranges ord -> v ∈ (Reap ord now s).1 <-> (exists t, s !! t = Some v) /\ expired now v = true.
Proof.
  intros Hord. rewrite Reap_spec by done. simpl.
  rewrite list_elem_of_In, filter_In, <-list_elem_of_In, elem_of_All by done. done.
Qed.

(** ** Time and counts *)
Lemma expired_mono now now' v : now <= now' -> expired now v = true -> expired now' v = true.
Proof. unfold expired, time_after. intros. bool_to_prop. apply Z.ltb_lt. lia. Qed.

Lemma unexpired_mono now now' v : now <= now' -> expired now' v = false -> expired now v = false.
Proof.
  intros Hle He. destruct (expired now v) eqn:E; [|done].
  apply (expired_mono _ now') in E; [congruence|done].
Qed.

(** As time passes sessions only expire. *)
Lemma CountIdentity_mono now now' method identity s :
  now <= now' -> CountIdentity now' method identity s <= CountIdentity now method identity s.
Proof.
  intros Hle. apply countZ_le. intros t v Hv [He Hi]%andb_true_iff. split; [done|].
  apply andb_true_iff. split; [|done]. apply negb_true_iff in He. apply negb_true_iff. by eapply unexpired_mono.
Qed.

(** ... and a table with fewer sessions counts fewer. *)
Lemma CountIdentity_sub now method identity s s' :
  (forall t v, s !! t = Some v -> s' !! t = Some v) ->
  CountIdentity now method identity s <= CountIdentity now method identity s'.
Proof. intros Hsub. apply countZ_le. eauto. Qed.

Lemma CountIdentity_delete now method identity t s :
  CountIdentity now method identity (delete t s) <= CountIdentity now method identity s.
Proof. apply CountIdentity_sub. by intros t' v [_ Hv]%lookup_delete_Some. Qed.

Lemma CountIdentity_reaped now now' method identity s :
  CountIdentity now method identity (reaped now' s) <= CountIdentity now method identity s.
Proof. apply CountIdentity_sub. by intros t' v [Hv _]%lookup_reaped. Qed.

Lemma CountIdentity_insert now method identity t v s :
  s !! t = None ->
  CountIdentity now method identity (<[t := v]> s) =
  Z.b2z (negb (expired now v) && of_identity method identity v) + CountIdentity now method identity s.
Proof. intros Hn. unfold CountIdentity. by rewrite countZ_fresh. Qed.

(** A live session of the identity that leaves makes room. *)
Lemma CountIdentity_delete_live now method identity t v s :
  s !! t = Some v -> expired now v = false -> of_identity method identity v = true ->
  CountIdentity now method identity (delete t s) = CountIdentity now method identity s - 1.
Proof. intros Hv He Hi. unfold CountIdentity. rewrite (countZ_delete _ _ _ _ Hv). by rewrite He, Hi. Qed.
