(* ===== verification/IpPool.v ===== *)
(** The scan of [allocateIP] ([pkg/server/dataplane.go]): the next free
    address of the tunnel prefix after the last one handed out. *)
From S2P Require Import Prelude Bytes Netip.

(** The IPv4 broadcast address: the prefix with its host bits set. *)
Definition broadcast (p : Prefix) : option Addr :=
  match p_addr p with
  | Addr4 a => Some (Addr4 (Z.lor a (Z.ones (32 - p_bits p))))
  | _ => None
  end.

(** The addresses no session gets: network, first host, server, broadcast. *)
Definition reserved (p : Prefix) (serverIP : Addr) : gset Addr :=
  {[p_addr p; Next (p_addr p); serverIP]} ∪
  match broadcast p with Some a => {[a]} | None => ∅ end.

(** One candidate per pass; [nextIP] is where the next scan starts. *)
Fixpoint scan (tries : nat) (p : Prefix) (used : gset Addr) (nextIP : Addr) : option Addr * Addr :=
  match tries with
  | O => (None, nextIP)
  | S tries =>
      let ip := if negb (addr_IsValid nextIP) || negb (Contains p nextIP) then p_addr p else nextIP in
      let nextIP := Next ip in
      if bool_decide (ip ∈ used) then scan tries p used nextIP else (Some ip, nextIP)
  end.

(** [for tries := 0; tries <= len(used); tries++] *)
Definition scan_all (p : Prefix) (used : gset Addr) (nextIP : Addr) : option Addr * Addr :=
  scan (S (size used)) p used nextIP.

(** ** The addresses of a prefix as offsets from its base *)
Section offsets.
Context (p : Prefix) (Hwf : prefix_wf p = true) (Hmask : Masked p = p).

Definition pool_size : Z := 2 ^ (width (p_addr p) - p_bits p).

Definition addr_at (k : Z) : Addr :=
  match p_addr p with
  | AddrNone => AddrNone
  | Addr4 b => Addr4 (b + k)
  | Addr6 b z => Addr6 (b + k) z
  end.

Lemma pool_size_pos : 0 < pool_size.
Proof using Hwf.
  unfold pool_size. apply Z.pow_pos_nonneg; [lia|].
  unfold prefix_wf, prefix_IsValid in Hwf.
  destruct (p_addr p); simpl in *; [done|..]; repeat (apply andb_true_iff in Hwf as [Hwf ?]; bool_to_prop); bool_to_prop; lia.
Qed.

(** The base is the start of its block, and the block fits the family. *)
Lemma base_block :
  addr_int (p_addr p) = addr_int (p_addr p) / pool_size * pool_size /\
  0 <= addr_int (p_addr p) /\ addr_int (p_addr p) + pool_size <= 2 ^ width (p_addr p).
Proof using Hwf Hmask.
  pose proof (Masked_addr p Hwf) as Hm. rewrite Hmask in Hm. fold pool_size in Hm.
  pose proof pool_size_pos as Hpos.
  assert (Hr : 0 <= addr_int (p_addr p) < 2 ^ width (p_addr p) /\ 0 <= p_bits p <= width (p_addr p)).
  { unfold prefix_wf, prefix_IsValid, addr_wf in Hwf.
    destruct (p_addr p); cbn [addr_int width] in *; [done|..]; bool_to_prop; lia. }
  split; [done|]. split; [lia|]. destruct Hr as [Hr Hb].
  assert (Hdiv : 2 ^ width (p_addr p) = 2 ^ p_bits p * pool_size).
  { unfold pool_size. rewrite <-Z.pow_add_r by lia. f_equal. lia. }
  set (q := addr_int (p_addr p) / pool_size) in *. clearbody q.
  assert (q < 2 ^ p_bits p) by nia. nia.
Qed.

Lemma base_not_none : p_addr p <> AddrNone.
Proof using Hwf. intros Hn. unfold prefix_wf, prefix_IsValid in Hwf. by rewrite Hn in Hwf. Qed.

Lemma base_zone_free : zone_free (p_addr p) = true.
Proof using Hwf.
  unfold prefix_wf, prefix_IsValid in Hwf. destruct (p_addr p); simpl in *; [done..|]. bool_to_prop.
  by apply String.eqb_eq.
Qed.

Lemma addr_at_int k : addr_int (addr_at k) = addr_int (p_addr p) + k.
Proof using Hwf. pose proof base_not_none. unfold addr_at. destruct (p_addr p); done. Qed.

Lemma addr_at_valid k : addr_IsValid (addr_at k) = true.
Proof using Hwf. pose proof base_not_none. unfold addr_at. by destruct (p_addr p). Qed.

Lemma addr_at_wf k : 0 <= k < pool_size -> addr_wf (addr_at k) = true.
Proof using Hwf Hmask.
  intros Hk. pose proof base_block as (_ & H0 & H1). unfold addr_at, addr_wf.
  destruct (p_addr p); cbn [addr_int width] in *; [done|..];
    apply andb_true_iff; rewrite Z.leb_le, Z.ltb_lt; lia.
Qed.

Lemma addr_at_inj k k' : addr_at k = addr_at k' -> k = k'.
Proof using Hwf. intros H%(f_equal addr_int). rewrite !addr_at_int in H. lia. Qed.

(** The prefix contains exactly the addresses at the offsets of its size. *)
Lemma Contains_at x :
  addr_wf x = true -> Contains p x = true <-> exists k, 0 <= k < pool_size /\ x = addr_at k.
Proof using Hwf Hmask.
  intros Hx. rewrite Contains_spec by done. pose proof base_block as (Hb & H0 & H1).
  pose proof pool_size_pos as Hpos. split.
  - intros (H4 & Hv & Hz & Hblk). exists (addr_int x - addr_int (p_addr p)).
    assert (Hw : width x = width (p_addr p)).
    { pose proof base_not_none. destruct (p_addr p), x; simpl in *; done. }
    rewrite Hw in Hblk. fold pool_size in Hblk. unfold pool_size in Hblk, Hpos.
    apply block_range in Hblk; [|unfold prefix_wf, prefix_IsValid in Hwf;
      destruct (p_addr p); cbn [width] in *; [done|..]; bool_to_prop; lia].
    fold pool_size in Hblk, Hpos. split; [lia|].
    pose proof base_zone_free as Hzb. unfold addr_at.
    destruct (p_addr p), x; simpl in *; try done; [f_equal; lia|].
    apply String.eqb_eq in Hz, Hzb. subst. f_equal. lia.
  - intros (k & Hk & ->). pose proof base_zone_free as Hzb. pose proof base_not_none as Hnn.
    rewrite addr_at_int, addr_at_valid.
    assert (Hw : width (addr_at k) = width (p_addr p) /\ Is4 (addr_at k) = Is4 (p_addr p) /\
                 zone_free (addr_at k) = zone_free (p_addr p)).
    { unfold addr_at. destruct (p_addr p); done. }
    destruct Hw as (-> & -> & ->). split; [done|]. split; [done|]. split; [done|].
    fold pool_size. rewrite Hb. rewrite Z.div_mul by lia.
    rewrite Z.div_add_l by lia. rewrite (Z.div_small k) by lia. lia.
Qed.

Lemma Next_addr_at k :
  Next (addr_at k) =
  if addr_int (p_addr p) + k + 1 =? 2 ^ width (p_addr p) then AddrNone else addr_at (k + 1).
Proof using Hwf.
  pose proof base_not_none as Hnn. unfold addr_at, Next.
  destruct (p_addr p); cbn [addr_int width]; [done|..];
    rewrite <-Z.add_assoc; destruct (_ =? _); done.
Qed.

(** The scan's next candidate: the next offset, from the last one back to 0. *)
Lemma candidate_after k :
  0 <= k < pool_size ->
  (let nextIP := Next (addr_at k) in
   if negb (addr_IsValid nextIP) || negb (Contains p nextIP) then p_addr p else nextIP) =
  addr_at ((k + 1) mod pool_size).
Proof using Hwf Hmask.
  intros Hk. pose proof base_block as (Hb & H0 & H1). pose proof pool_size_pos as Hpos.
  assert (Hbase : p_addr p = addr_at 0).
  { pose proof base_not_none. unfold addr_at. destruct (p_addr p); [done|..]; f_equal; lia. }
  cbv zeta. rewrite Next_addr_at. destruct (Z.eq_dec (k + 1) pool_size) as [He|Hne].
  - rewrite He, Z.mod_same by lia. destruct (_ =? _) eqn:E; [done|]. bool_to_prop.
    rewrite addr_at_valid. simpl. rewrite <-He.
    destruct (Contains p (addr_at (k + 1))) eqn:Hc; [|done]. exfalso.
    apply Contains_at in Hc as (k' & Hk' & Hkk%addr_at_inj); [lia|].
    unfold addr_at, addr_wf. destruct (p_addr p); cbn [addr_int width] in *; [done|..];
      apply andb_true_iff; rewrite Z.leb_le, Z.ltb_lt; lia.
  - rewrite Z.mod_small by lia. destruct (_ =? _) eqn:E; bool_to_prop; [lia|].
    rewrite addr_at_valid. simpl.
    assert (Contains p (addr_at (k + 1)) = true) as ->; [|done].
    apply Contains_at; [apply addr_at_wf; lia|]. exists (k + 1). split; [lia|done].
Qed.

(** ** The scan *)
Definition candidate (nextIP : Addr) : Addr :=
  if negb (addr_IsValid nextIP) || negb (Contains p nextIP) then p_addr p else nextIP.

Lemma candidate_at nextIP :
  addr_wf nextIP = true -> exists k, 0 <= k < pool_size /\ candidate nextIP = addr_at k.
Proof using Hwf Hmask.
  intros Hn. unfold candidate. destruct (negb _ || negb _) eqn:E.
  - exists 0. pose proof pool_size_pos. split; [lia|]. pose proof base_not_none.
    unfold addr_at. destruct (p_addr p); [done|..]; f_equal; lia.
  - apply orb_false_iff in E as [_ E]. apply negb_false_iff in E. by apply Contains_at.
Qed.

Lemma addr_at_next_wf k : 0 <= k < pool_size -> addr_wf (Next (addr_at k)) = true.
Proof using Hwf Hmask.
  intros Hk. rewrite Next_addr_at. destruct (_ =? _) eqn:E; [done|]. bool_to_prop.
  pose proof base_block as (Hb & H0 & H1). unfold addr_at, addr_wf.
  destruct (p_addr p); cbn [addr_int width] in *; [done|..]; apply andb_true_iff; rewrite Z.leb_le, Z.ltb_lt; lia.
Qed.

Context (used : gset Addr).

Lemma scan_loop tries nextIP k :
  0 <= k < pool_size -> candidate nextIP = addr_at k -> addr_wf nextIP = true ->
  match scan tries p used nextIP with
  | (Some a, nextIP') => Contains p a = true /\ (a ∉ used) /\ addr_wf a = true /\ addr_wf nextIP' = true
  | (None, nextIP') =>
      addr_wf nextIP' = true /\
      (forall i, 0 <= i < Z.of_nat tries -> addr_at ((k + i) mod pool_size) ∈ used)
  end.
Proof using Hwf Hmask.
  revert nextIP k. induction tries as [|tries IH]; intros nextIP k Hk Hc Hn.
  { simpl. split; [done|]. lia. }
  cbn [scan]. fold (candidate nextIP). rewrite Hc. pose proof pool_size_pos as Hpos.
  case_bool_decide as Hin.
  - assert (Hk' : 0 <= (k + 1) mod pool_size < pool_size) by (apply Z.mod_pos_bound; lia).
    specialize (IH (Next (addr_at k)) ((k + 1) mod pool_size) Hk' (candidate_after k Hk)
                  (addr_at_next_wf k Hk)).
    destruct (scan tries p used (Next (addr_at k))) as [[a|] nx]; [done|].
    destruct IH as [Hwn Hall]. split; [done|]. intros i Hi. destruct (Z.eq_dec i 0) as [->|].
    + by rewrite Z.add_0_r, Z.mod_small.
    + specialize (Hall (i - 1) ltac:(lia)). rewrite Zplus_mod_idemp_l in Hall.
      by replace (k + 1 + (i - 1)) with (k + i) in Hall by lia.
  - split; [|split; [done|split; [by apply addr_at_wf|by apply addr_at_next_wf]]].
    apply Contains_at; [by apply addr_at_wf|]. eauto.
Qed.

(** Addresses at fewer offsets than the pool has are distinct, so they cannot
    all be used when there are more of them than used addresses. *)
Lemma offsets_distinct k n :
  Z.of_nat n <= pool_size -> NoDup ((fun i => addr_at ((k + i) mod pool_size)) <$> seqZ 0 (Z.of_nat n)).
Proof using Hwf.
  intros Hn. apply NoDup_fmap_2_strong; [|apply NoDup_seqZ].
  intros i j Hi%elem_of_seqZ Hj%elem_of_seqZ Heq%addr_at_inj. pose proof pool_size_pos as Hpos.
  pose proof (Z.div_mod (k + i) pool_size ltac:(lia)) as Hdi.
  pose proof (Z.div_mod (k + j) pool_size ltac:(lia)) as Hdj. rewrite Heq in Hdi.
  set (q1 := (k + i) / pool_size) in *. set (q2 := (k + j) / pool_size) in *. clearbody q1 q2.
  generalize dependent ((k + j) mod pool_size). intros r _ Hdi Hdj.
  clear Hwf Hmask used. generalize dependent pool_size. intros N Hn Hpos Hdi Hdj.
  assert (Hd : i - j = N * (q1 - q2)) by (rewrite Z.mul_sub_distr_l, <-(Z.add_simpl_r (N * q1) r), <-Hdi; lia).
  destruct (Z.lt_trichotomy q1 q2) as [Hq|[->|Hq]].
  - assert (N * (q1 - q2) <= N * -1) by (apply Z.mul_le_mono_nonneg_l; lia). lia.
  - lia.
  - assert (N * 1 <= N * (q1 - q2)) by (apply Z.mul_le_mono_nonneg_l; lia). lia.
Qed.

Lemma scan_all_spec nextIP :
  addr_wf nextIP = true ->
  match scan_all p used nextIP with
  | (Some a, nextIP') => Contains p a = true /\ (a ∉ used) /\ addr_wf a = true /\ addr_wf nextIP' = true
  | (None, nextIP') => addr_wf nextIP' = true /\ forall a, addr_wf a = true -> Contains p a = true -> a ∈ used
  end.
Proof using Hwf Hmask.
  intros Hn. unfold scan_all. destruct (candidate_at nextIP Hn) as (k & Hk & Hc).
  pose proof (scan_loop (S (size used)) nextIP k Hk Hc Hn) as Hs.
  destruct (scan _ p used nextIP) as [[a|] nx]; [done|]. destruct Hs as [Hwn Hall]. split; [done|].
  intros a Ha (o & Ho & ->)%Contains_at; [|done]. pose proof pool_size_pos as Hpos.
  destruct (Z.le_gt_cases pool_size (Z.of_nat (S (size used)))) as [Hle|Hgt].
  - specialize (Hall ((o - k) mod pool_size)). rewrite Zplus_mod_idemp_r in Hall.
    replace (k + (o - k)) with o in Hall by lia. rewrite (Z.mod_small o) in Hall by lia.
    apply Hall. destruct (Z.mod_pos_bound (o - k) pool_size Hpos) as [Hm0 Hm1].
    split; [exact Hm0|]. exact (Z.lt_le_trans _ _ _ Hm1 Hle).
  - exfalso. set (l := (fun i => addr_at ((k + i) mod pool_size)) <$> seqZ 0 (Z.of_nat (S (size used)))).
    assert (Hnd : NoDup l) by (apply offsets_distinct; lia).
    assert (Hsub : (list_to_set l : gset Addr) ⊆ used).
    { intros x. rewrite elem_of_list_to_set. unfold l. rewrite list_elem_of_fmap.
      intros (i & -> & Hi%elem_of_seqZ). apply Hall. lia. }
    apply subseteq_size in Hsub. rewrite size_list_to_set in Hsub by done.
    unfold l in Hsub. rewrite length_fmap, length_seqZ, Nat2Z.id in Hsub. lia.
Qed.
End offsets.
