(* ===== verification/ServerAuth.v ===== *)
(** The control plane of the server: authentication, authorization, session
    establishment, renewal, revocation and reload of [pkg/server/server.go],
    the authorizer hook of [authorizer.go], tunnel addresses and peer
    ownership of [dataplane.go].  Operations hold [operationMu], so each is
    one step on the server's state; every reading of the clock, range order,
    random token and answer from outside (directory, hook, device, resolver)
    is a field of the step's environment. *)
From S2P Require Import Prelude Bytes Netip Protocol AuthLimit WgKeys Sessions IpPool Egress.

(** What the server uses of package [sshkey] and of [time.Parse]. *)
Class KeyOps : Type := {
  PublicKey : Type;
  ParsePublicString : string -> option PublicKey;
  ParsePublic : list byte -> option (PublicKey * string);
  Fingerprint : PublicKey -> string;
  Digest : PublicKey -> string;
  Verify : PublicKey -> list byte -> string -> bool;
  ParseTimestamp : string -> option Z;
}.

(** The text forms of package [net/netip] and [net.SplitHostPort]: what is
    printed parses back, and what parses is an address. *)
Class AddrText : Type := {
  addr_String : Addr -> string;
  ParseAddr : string -> option Addr;
  ParsePrefix : string -> option Prefix;
  SplitHostPort : string -> option (string * string);
  ParseAddr_String : forall a, addr_wf a = true -> addr_IsValid a = true -> ParseAddr (addr_String a) = Some a;
  ParseAddr_wf : forall s a, ParseAddr s = Some a -> addr_wf a = true /\ addr_IsValid a = true;
  ParsePrefix_wf : forall s p, ParsePrefix s = Some p -> prefix_wf p = true;
}.

Definition ErrorRateLimited : string := "rate_limited".
Definition ErrorNotAllowed : string := "not_allowed".
Definition ErrorMaxSessions : string := "max_sessions".
Definition ErrorOIDCInvalidToken : string := "oidc_invalid_token".
Definition ErrorNoCapacity : string := "no_capacity".
Definition ErrorInvalidWireGuardKey : string := "invalid_wireguard_key".

(** ** Configuration *)
Record TunnelConfig := mkTunnel {
  tc_Name : string;
  tc_Target : string;
  tc_Description : string;
  tc_VirtualPort : Z;
  tc_Protocol : string;
  tc_UDPIdleTimeout : Z;
  tc_LocalPort : Z;
  tc_LocalHost : string;
  tc_Allow : list string;
  tc_DestinationPolicy : string;
  tc_Instructions : string;
  tc_DocsURL : string;
}.

Record NativeWireGuardPeer := mkNativePeer {
  np_Name : string;
  np_PublicKey : string;
  np_TunnelIP : string;
  np_Tunnels : list string;
  np_DestinationPolicy : string;
}.

Record OIDCIssuer := mkIssuer {
  oi_Name : string;
  oi_Issuer : string;
  oi_ClientID : string;
  oi_Scopes : list string;
  oi_GroupsClaim : string;
  oi_RequireVerifiedEmail : option bool;
}.

#[export] Instance issuer_eq_dec : EqDecision OIDCIssuer.
Proof. solve_decision. Defined.

#[export] Instance native_peer_eq_dec : EqDecision NativeWireGuardPeer.
Proof. solve_decision. Defined.

Record Config := mkServerConfig {
  cf_MaxSessionsPerKey : Z;
  cf_SessionTTL : Z;
  cf_Tunnels : list TunnelConfig;
  cf_NativeEnabled : bool;
  cf_NativePeers : list NativeWireGuardPeer;
  cf_TunnelCIDR : string;
  cf_Issuers : list OIDCIssuer;
  cf_WebhookURL : string;
  cf_Exec : string;
  cf_MultipathEnabled : bool;
  cf_PortalEnabled : bool;
  cf_WebUIToken : string;
  cf_ListenName : string;
}.

(** The data plane: its address, where the next address scan starts, and the
    allowed IP of each peer as the commands to the device leave it ([AddPeer]
    replaces a key's, [RemovePeer] forgets the key). *)
Record dataPlane := mkData {
  serverIP : Addr;
  nextIP : Addr;
  peers : gmap (list byte) string;
  serverPublicKey : string;
  has_multipath : bool;
}.

Record Server := mkServer {
  config : Config;
  sessions : Sessions;
  nonces : NonceCache.t;
  rates : SourceLimiter.t;
  data : option dataPlane;
  has_oidc : bool;
  udpr : bool;
}.

Definition with_sessions (f : Sessions -> Sessions) (s : Server) : Server :=
  mkServer (config s) (f (sessions s)) (nonces s) (rates s) (data s) (has_oidc s) (udpr s).
Definition with_nonces (n : NonceCache.t) (s : Server) : Server :=
  mkServer (config s) (sessions s) n (rates s) (data s) (has_oidc s) (udpr s).
Definition with_rates (r : SourceLimiter.t) (s : Server) : Server :=
  mkServer (config s) (sessions s) (nonces s) r (data s) (has_oidc s) (udpr s).
Definition with_data (f : dataPlane -> dataPlane) (s : Server) : Server :=
  mkServer (config s) (sessions s) (nonces s) (rates s) (f <$> data s) (has_oidc s) (udpr s).

Definition set_peers (f : gmap (list byte) string -> gmap (list byte) string) (d : dataPlane) :=
  mkData (serverIP d) (nextIP d) (f (peers d)) (serverPublicKey d) (has_multipath d).
Definition set_nextIP (a : Addr) (d : dataPlane) :=
  mkData (serverIP d) a (peers d) (serverPublicKey d) (has_multipath d).

(** What dropping a session asks of the other components. *)
Inductive effect :=
  | RelayRelease (key : string)
  | StatsDelete (ip name : string)
  | MultipathRemovePeer (key : string)
  | WebSocketClose (key : string).

(** ** The authorizer hook (authorizer.go) *)
Inductive allowed_tunnels := ATString (s : string) | ATList (l : list (option string)) | ATOther.

Record AuthorizationResult := mkAuthz {
  az_Allow : bool;
  az_AllowedTunnels : allowed_tunnels;
  az_TTLSeconds : Z;
}.

(** [hook]: the decoded answer of the webhook or program, [None] on any
    error. *)
Definition Authorize (c : Config) (hook : option AuthorizationResult) : option AuthorizationResult :=
  if (cf_WebhookURL c =? "")%string && (cf_Exec c =? "")%string
  then Some (mkAuthz true (ATString "*") 0) else hook.

(** ** Grants *)
Record grantSubject := mkSubject {
  gs_Method : string;
  gs_Fingerprint : string;
  gs_Comment : string;
  gs_Email : string;
  gs_Domain : string;
  gs_Groups : list string;
}.

Definition cut_group (entry : string) : option string :=
  str_of <$> strip_prefix (bytes_of "group:") (bytes_of entry).

Definition matchesAllow (sub : grantSubject) (entry : string) : bool :=
  (entry =? "*")%string ||
  (if (gs_Method sub =? "ssh")%string then
     (entry =? gs_Fingerprint sub)%string ||
     (negb (gs_Comment sub =? "")%string && (entry =? gs_Comment sub)%string)
   else if (gs_Method sub =? "oidc")%string then
     (entry =? gs_Email sub)%string ||
     (negb (gs_Domain sub =? "")%string && (entry =? gs_Domain sub)%string) ||
     match cut_group entry with
     | Some group => existsb (fun g => (g =? group)%string) (gs_Groups sub)
     | None => false
     end
   else false).

Definition grants (c : Config) (sub : grantSubject) : list TunnelConfig :=
  List.filter (fun t => existsb (matchesAllow sub) (tc_Allow t)) (cf_Tunnels c).

(** [emailDomain]: from the last at-sign on. *)
Fixpoint last_at (l : list byte) : option (list byte) :=
  match l with
  | [] => None
  | b :: l' => match last_at l' with
               | Some d => Some d
               | None => if Byte.eqb b x40 then Some l else None
               end
  end.
Definition emailDomain (email : string) : string :=
  match last_at (bytes_of email) with Some d => str_of d | None => "" end.

(** The tunnels the hook leaves, and the lifetime of the session. *)
Definition authorize (c : Config) (hook : option AuthorizationResult) (gs : list TunnelConfig) :
    option (list TunnelConfig * Z) :=
  match Authorize c hook with
  | None => None
  | Some result =>
      if negb (az_Allow result) then None
      else
        let kept :=
          match az_AllowedTunnels result with
          | ATString s =>
              if (s =? "*")%string then gs else []
          | ATList l => List.filter (fun g => existsb (fun x => bool_decide (x = Some (tc_Name g))) l) gs
          | ATOther => []
          end in
        let secs := i64 (az_TTLSeconds result * second) in
        let ttl := if (0 <? az_TTLSeconds result) && (secs <? cf_SessionTTL c)
                   then secs else cf_SessionTTL c in
        Some (kept, ttl)
  end.

Definition tunnel_of (t : TunnelConfig) : Tunnel :=
  {| tn_Name := tc_Name t; tn_Description := tc_Description t; tn_VirtualPort := tc_VirtualPort t;
     tn_Protocol := tc_Protocol t; tn_UDPIdleTimeout := tc_UDPIdleTimeout t;
     tn_LocalPort := tc_LocalPort t; tn_LocalHost := tc_LocalHost t; tn_TargetHint := tc_Target t;
     tn_Instructions := tc_Instructions t; tn_DocsURL := tc_DocsURL t |}.

(** ** Answers *)

(** [AuthResponse]; [rs_TTL] is the lifetime whose seconds the answer carries. *)
Record AuthResponse := mkResponse {
  rs_SessionID : string;
  rs_Token : string;
  rs_TunnelIP : string;
  rs_ServerTunnelIP : string;
  rs_ServerPublicKey : string;
  rs_TTL : Z;
  rs_Tunnels : list Tunnel;
  rs_UDP : string;
  rs_WebSocket : string;
  rs_Identity : string;
  rs_Method : string;
  rs_ServerName : string;
  rs_PortalEnabled : bool;
  rs_Multipath : bool;
  rs_TransportCapabilities : list string;
}.

Inductive response :=
  | Failed (status : Z) (code : string)
  | Answered (r : AuthResponse)
  | NoContent
  | NotFound.

(** ** The environment of a step *)
Record dir_entry := mkEntry { de_IsDir : bool; de_Content : option (list byte) }.

Record clock := mkClock {
  t_rate : Z;    (* the source limiter *)
  t_since : Z;   (* time.Since of the timestamp *)
  t_until : Z;   (* time.Until of the timestamp *)
  t_nonce : Z;
  t_first : Z;   (* the first look at the sessions *)
  t_reap : Z;
  t_find : Z;
  t_reap2 : Z;
  t_create : Z;
}.

Record env := mkEnv {
  clk : clock;
  session_order : range_order;
  nonce_order : gmap string Z -> list string;
  rate_order : gmap string SourceLimiter.sourceState -> list string;
  extra_order : list string;
  keys_dir : option (list dir_entry);
  hook_answer : option AuthorizationResult;
  device_ok : string -> bool;
  new_id : string;
  new_token : string;
  alternate : bool;
  alternate2 : bool;
  udp_endpoint : string;
  ws_url : string;
}.

Section server.
Context {keys : KeyOps} {text : AddrText}.

(** ** Native peers of a configuration (config.go) *)
Inductive peer_error :=
  | PeersNotEnabled
  | PeerIncomplete
  | DuplicatePeerName
  | PeerKeyInvalid
  | DuplicatePeerKey
  | PeerOutsidePrefix
  | PeerIsServer
  | DuplicatePeerIP
  | PeerPolicyUnknown
  | PeerTunnelUnknown.

(** The loop over [native_wireguard.peers]; the peers come back with their key
    and address normalized. *)
Fixpoint validate_peers (prefix : Prefix) (policies tunnels : gset string)
    (seenPeerNames seenPeerKeys seenPeerIPs : gset string) (l : list NativeWireGuardPeer) :
    result peer_error (list NativeWireGuardPeer) :=
  match l with
  | [] => Ok []
  | peer :: l =>
      if (np_Name peer =? "")%string || (np_PublicKey peer =? "")%string || (np_TunnelIP peer =? "")%string
      then Err PeerIncomplete
      else if bool_decide (np_Name peer ∈ seenPeerNames) then Err DuplicatePeerName
      else
        match CanonicalPublicKey (np_PublicKey peer) with
        | None => Err PeerKeyInvalid
        | Some canonical =>
            if bool_decide (canonical ∈ seenPeerKeys) then Err DuplicatePeerKey
            else
              match decodeKey canonical, ParseAddr (np_TunnelIP peer) with
              | None, _ => Err PeerKeyInvalid
              | _, None => Err PeerOutsidePrefix
              | Some _, Some ip =>
                  if negb (Contains prefix ip) then Err PeerOutsidePrefix
                  else if bool_decide (ip = Next (p_addr prefix)) then Err PeerIsServer
                  else if bool_decide (addr_String ip ∈ seenPeerIPs) then Err DuplicatePeerIP
                  else if negb (np_DestinationPolicy peer =? "")%string &&
                          negb (bool_decide (np_DestinationPolicy peer ∈ policies)) then Err PeerPolicyUnknown
                  else if negb (forallb (fun t => bool_decide (t ∈ tunnels)) (np_Tunnels peer))
                  then Err PeerTunnelUnknown
                  else
                    let? rest := validate_peers prefix policies tunnels ({[np_Name peer]} ∪ seenPeerNames)
                                   ({[canonical]} ∪ seenPeerKeys) ({[addr_String ip]} ∪ seenPeerIPs) l in
                    Ok (mkNativePeer (np_Name peer) canonical (addr_String ip) (np_Tunnels peer)
                          (np_DestinationPolicy peer) :: rest)
              end
        end
  end.

Definition validate_native (enabled : bool) (prefix : Prefix) (policies tunnels : gset string)
    (l : list NativeWireGuardPeer) : result peer_error (list NativeWireGuardPeer) :=
  if negb enabled && (0 <? Zlen l) then Err PeersNotEnabled
  else validate_peers prefix policies tunnels ∅ ∅ ∅ l.

(** ** Peers (dataplane.go) *)

(** [addPeer]: nothing without a data plane; otherwise the address must parse,
    the key decode and the device accept. *)
Definition addPeer (e : env) (key ip : string) (s : Server) : bool * Server :=
  match data s with
  | None => (true, s)
  | Some d =>
      match ParseAddr ip, decodeKey key with
      | Some _, Some raw =>
          if device_ok e key then (true, with_data (set_peers (insert raw ip)) s) else (false, s)
      | _, _ => (false, s)
      end
  end.

Definition removePeer (key : string) (s : Server) : Server :=
  match decodeKey key with
  | Some raw => with_data (set_peers (delete raw)) s
  | None => s
  end.

Definition drop_effects (v : Session) (s : Server) : list effect :=
  let key := ss_WireGuardPublicKey v in
  let keyed := negb (key =? "")%string in
  (if udpr s && keyed then [RelayRelease key] else []) ++
  map (fun t => StatsDelete (ss_TunnelIP v) (tn_Name t)) (ss_Tunnels v) ++
  (match data s with
   | Some d => if has_multipath d && keyed then [MultipathRemovePeer key] else []
   | None => []
   end) ++
  (match data s with Some _ => if keyed then [WebSocketClose key] else [] | None => [] end).

Definition dropSession (v : Session) (s : Server) : Server * list effect :=
  ((match data s with
    | Some _ => if negb (ss_WireGuardPublicKey v =? "")%string
                then removePeer (ss_WireGuardPublicKey v) s else s
    | None => s
    end), drop_effects v s).

Fixpoint dropSessions (vs : list Session) (s : Server) : Server * list effect :=
  match vs with
  | [] => (s, [])
  | v :: vs =>
      let '(s, ev) := dropSession v s in
      let '(s, evs) := dropSessions vs s in
      (s, ev ++ evs)
  end.

Definition reapSessionsLocked (e : env) (now : Z) (s : Server) : Server * list effect :=
  let '(dead, kept) := Reap (session_order e) now (sessions s) in
  dropSessions dead (with_sessions (fun _ => kept) s).

(** ** Tunnel addresses (dataplane.go) *)
Definition native_addrs (c : Config) : gset Addr :=
  list_to_set (Unmap <$> omap (fun peer => ParseAddr (np_TunnelIP peer)) (cf_NativePeers c)).

Definition session_addrs (e : env) (s : Server) : gset Addr :=
  list_to_set (Unmap <$> omap (fun v => ParseAddr (ss_TunnelIP v)) (All (session_order e) (sessions s))).

Definition used_addrs (e : env) (p : Prefix) (d : dataPlane) (s : Server) : gset Addr :=
  reserved p (serverIP d) ∪ native_addrs (config s) ∪ session_addrs e s.

Definition allocateIP (e : env) (d : dataPlane) (s : Server) : option string * Server :=
  match ParsePrefix (cf_TunnelCIDR (config s)) with
  | None => (None, s)
  | Some p =>
      let p := Masked p in
      let '(ip, next) := scan_all p (used_addrs e p d s) (nextIP d) in
      (addr_String <$> ip, with_data (set_nextIP next) s)
  end.

(** ** Capabilities *)
Definition transportCapabilitiesAvailable (alternate : bool) (s : Server) : list string :=
  if cf_MultipathEnabled (config s) &&
     match data s with Some d => has_multipath d | None => false end && alternate
  then [CapabilityMultipathV3; CapabilityPathMTUV1] else [].

Definition transportCapabilities (multipath pathMTU : bool) : list string :=
  if negb multipath then []
  else if pathMTU then [CapabilityMultipathV3; CapabilityPathMTUV1]
  else [CapabilityMultipathV3].

(** ** Establishing a session *)
Record sessionRequest := mkRequest {
  sr_Method : string;
  sr_Identity : string;
  sr_Fingerprint : string;
  sr_Issuer : string;
  sr_Groups : list string;
  sr_WireGuardPublicKey : string;
  sr_Info : ClientInfo;
  sr_TransportCapabilities : list string;
  sr_QueryOnly : bool;
}.

Definition is_native (c : Config) (canonical : string) : bool :=
  cf_NativeEnabled c &&
  existsb (fun peer => (default "" (CanonicalPublicKey (np_PublicKey peer)) =? canonical)%string)
    (cf_NativePeers c).

(** The data-plane part: the canonical key and the tunnel address of the new
    session, its peer installed.  A live session of the same principal and
    key is replaced and its address kept. *)
Definition attach (e : env) (req : sessionRequest) (d : dataPlane) (s : Server) :
    result response (string * string) * Server * list effect :=
  if (sr_WireGuardPublicKey req =? "")%string then (Err (Failed 400 ErrorInvalidRequest), s, [])
  else
    match CanonicalPublicKey (sr_WireGuardPublicKey req) with
    | None => (Err (Failed 400 ErrorInvalidWireGuardKey), s, [])
    | Some canonical =>
        if is_native (config s) canonical then (Err (Failed 403 ErrorNotAllowed), s, [])
        else
          let finish (ip : string) (s : Server) (evs : list effect) :=
            match addPeer e canonical ip s with
            | (false, s) => (Err (Failed 400 ErrorInvalidWireGuardKey), s, evs)
            | (true, s) => (Ok (canonical, ip), s, evs)
            end in
          match FindWireGuardPublicKey (session_order e) (t_find (clk e)) canonical (sessions s) with
          | Some old =>
              if negb (ss_Method old =? sr_Method req)%string ||
                 negb (ss_Identity old =? sr_Identity req)%string ||
                 negb (ss_Issuer old =? sr_Issuer req)%string
              then (Err (Failed 403 ErrorNotAllowed), s, [])
              else finish (ss_TunnelIP old) (with_sessions (delete (ss_Token old)) s) []
          | None =>
              let '(s, evs) := reapSessionsLocked e (t_reap2 (clk e)) s in
              match allocateIP e d s with
              | (None, s) => (Err (Failed 503 ErrorNoCapacity), s, evs)
              | (Some ip, s) => finish ip s evs
              end
          end
    end.

Definition establishSession (e : env) (req : sessionRequest) (gs : list TunnelConfig) (s : Server) :
    response * Server * list effect :=
  let c := config s in
  if negb (sr_QueryOnly req) && (0 <? cf_MaxSessionsPerKey c) &&
     (cf_MaxSessionsPerKey c <=?
        CountIdentity (t_first (clk e)) (sr_Method req) (sr_Identity req) (sessions s))
  then (Failed 429 ErrorMaxSessions, s, [])
  else
    match authorize c (hook_answer e) gs with
    | None => (Failed 403 ErrorNotAllowed, s, [])
    | Some (gs, ttl) =>
        let v := map tunnel_of gs in
        if sr_QueryOnly req then
          (Answered (mkResponse "" "" "" "" "" 0 v "" "" (sr_Identity req) (sr_Method req) ""
             (cf_PortalEnabled c) false []), s, [])
        else
          let '(s, evs) := reapSessionsLocked e (t_reap (clk e)) s in
          let '(attached, s, evs') :=
            match data s with
            | None => (Ok (sr_WireGuardPublicKey req, ""%string), s, [])
            | Some d => attach e req d s
            end in
          match attached with
          | Err r => (r, s, evs ++ evs')
          | Ok (key, tunnelIP) =>
              let available := transportCapabilitiesAvailable (alternate2 e) s in
              let negotiated := IntersectCapabilities (sr_TransportCapabilities req) available in
              let multipath := HasCapability negotiated CapabilityMultipathV3 in
              let pathMTU := multipath && HasCapability negotiated CapabilityPathMTUV1 in
              let '(session, table) :=
                Create (new_id e) (new_token e) (t_create (clk e))
                  (mkParams (sr_Method req) (sr_Identity req) (sr_Fingerprint req) (sr_Issuer req)
                     (sr_Groups req) key tunnelIP v (ci_LatencyMillis (sr_Info req))
                     (ci_Reconnections (sr_Info req)) multipath pathMTU (sr_Info req) ttl)
                  (sessions s) in
              let '(serverTunnelIP, serverKey) :=
                match data s with
                | Some d => (addr_String (serverIP d), serverPublicKey d)
                | None => (""%string, ""%string)
                end in
              (Answered (mkResponse (ss_ID session) (ss_Token session) tunnelIP serverTunnelIP
                 serverKey ttl v (udp_endpoint e) (ws_url e) (ss_Identity session)
                 (ss_Method session) (cf_ListenName c) (cf_PortalEnabled c) multipath
                 (transportCapabilities multipath pathMTU)),
               with_sessions (fun _ => table) s, evs ++ evs')
          end
    end.

(** ** Authentication *)
Definition allowSource (e : env) (remote : string) (s : Server) : bool * Server :=
  let host := match SplitHostPort remote with Some (h, _) => h | None => "" end in
  let host := if (host =? "")%string then remote else host in
  let '(ok, r) := SourceLimiter.Allow (rate_order e) (t_rate (clk e)) host (rates s) in
  (ok, with_rates r s).

(** [scanAuthorizedKeys]: the comment of the first entry that matches. *)
Fixpoint scan_entries (matches : PublicKey -> bool) (l : list dir_entry) (acc : option string) :
    option string :=
  match l with
  | [] => acc
  | en :: l =>
      scan_entries matches l
        (if de_IsDir en then acc
         else match de_Content en with
              | None => acc
              | Some b =>
                  match ParsePublic b with
                  | None => acc
                  | Some (p, c) =>
                      match acc with
                      | Some _ => acc
                      | None => if matches p then Some c else None
                      end
                  end
              end)
  end.

Definition scanAuthorizedKeys (e : env) (matches : PublicKey -> bool) : option string :=
  match keys_dir e with None => None | Some l => scan_entries matches l None end.

Definition authorizedEntry (e : env) (k : PublicKey) : option string :=
  scanAuthorizedKeys e (fun p => (Digest k =? Digest p)%string).

Definition authorizedFingerprintEntry (e : env) (fp : string) : option string :=
  scanAuthorizedKeys e (fun p => (fp =? Fingerprint p)%string).

Definition skewed (e : env) (timestamp : string) : bool :=
  match ParseTimestamp timestamp with
  | None => true
  | Some at_ => (2 * minute <? time_sub (t_since (clk e)) at_) || (2 * minute <? time_sub at_ (t_until (clk e)))
  end.

(** [auth]; [body] is the decoded request. *)
Definition auth (e : env) (remote : string) (body : option AuthRequest) (s : Server) :
    response * Server * list effect :=
  let '(ok, s) := allowSource e remote s in
  if negb ok then (Failed 429 ErrorRateLimited, s, [])
  else
    match body with
    | None => (Failed 400 ErrorInvalidRequest, s, [])
    | Some a =>
        if negb (ar_Version a =? Version) then (Failed 400 ErrorInvalidRequest, s, [])
        else
          match ValidateRequiredCapabilities (transportCapabilitiesAvailable (alternate e) s)
                  (ar_RequiredTransportCapabilities a) with
          | Err _ => (Failed 400 ErrorUnsupportedCapability, s, [])
          | Ok _ =>
              if skewed e (ar_Timestamp a) then (Failed 401 ErrorClockSkew, s, [])
              else
                match ParsePublicString (ar_PublicKey a) with
                | None => (Failed 401 ErrorUnknownKey, s, [])
                | Some key =>
                    match authorizedEntry e key with
                    | None => (Failed 401 ErrorUnknownKey, s, [])
                    | Some comment =>
                        let verified :=
                          match SigningPayload (extra_order e) a with
                          | Err _ => false
                          | Ok p => Verify key p (ar_Signature a)
                          end in
                        if negb verified then (Failed 401 ErrorBadSignature, s, [])
                        else
                          let '(fresh, n) := NonceCache.Use (nonce_order e) (t_nonce (clk e)) (ar_Nonce a) (nonces s) in
                          let s := with_nonces n s in
                          if negb fresh then (Failed 401 ErrorReplayedNonce, s, [])
                          else
                            let fp := Fingerprint key in
                            establishSession e
                              (mkRequest "ssh" fp fp "" [] (ar_WireGuardPublicKey a) (ar_Info a)
                                 (ar_TransportCapabilities a) (ar_QueryOnly a))
                              (grants (config s) (mkSubject "ssh" fp comment "" "" [])) s
                    end
                end
          end
    end.

Record OIDCAuthRequest := mkOIDC {
  oa_Version : Z;
  oa_IssuerName : string;
  oa_IDToken : string;
  oa_WireGuardPublicKey : string;
  oa_Timestamp : string;
  oa_Info : ClientInfo;
  oa_TransportCapabilities : list string;
  oa_RequiredTransportCapabilities : list string;
  oa_QueryOnly : bool;
}.

(** A verified ID token. *)
Record Identity := mkIdentity {
  id_IssuerName : string;
  id_Email : string;
  id_Domain : string;
  id_Groups : list string;
}.

(** [verified]: what the verifiers answer for the issuer's token. *)
Definition authOIDC (e : env) (verified : string -> string -> option Identity) (remote : string)
    (body : option OIDCAuthRequest) (s : Server) : response * Server * list effect :=
  let '(ok, s) := allowSource e remote s in
  if negb ok then (Failed 429 ErrorRateLimited, s, [])
  else
    match body with
    | None => (Failed 400 ErrorInvalidRequest, s, [])
    | Some a =>
        if negb (oa_Version a =? Version) then (Failed 400 ErrorInvalidRequest, s, [])
        else
          match ValidateRequiredCapabilities (transportCapabilitiesAvailable (alternate e) s)
                  (oa_RequiredTransportCapabilities a) with
          | Err _ => (Failed 400 ErrorUnsupportedCapability, s, [])
          | Ok _ =>
              if skewed e (oa_Timestamp a) then (Failed 401 ErrorClockSkew, s, [])
              else if negb (has_oidc s) then (Failed 400 ErrorInvalidRequest, s, [])
              else
                match verified (oa_IssuerName a) (oa_IDToken a) with
                | None => (Failed 401 ErrorOIDCInvalidToken, s, [])
                | Some id =>
                    establishSession e
                      (mkRequest "oidc" (id_Email id) "" (id_IssuerName id) (id_Groups id)
                         (oa_WireGuardPublicKey a) (oa_Info a) (oa_TransportCapabilities a)
                         (oa_QueryOnly a))
                      (grants (config s)
                         (mkSubject "oidc" "" "" (id_Email id) (id_Domain id) (id_Groups id))) s
                end
          end
    end.

(** ** Renewal and the end of a session *)
Definition config_named (c : Config) (name : string) : list TunnelConfig :=
  List.filter (fun t => (tc_Name t =? name)%string) (cf_Tunnels c).

(** [renew]; [token] is the Authorization header without its Bearer prefix,
    [body] the decoded client information.  The token is looked
    up twice, before the body is read and under the operation lock. *)
Definition renew (e : env) (token : string) (body : option ClientInfo) (s : Server) :
    response * Server * list effect :=
  match Get (t_since (clk e)) token (sessions s) with
  | None => (Failed 401 ErrorInvalidRequest, s, [])
  | Some _ =>
      match body with
      | None => (Failed 400 ErrorInvalidRequest, s, [])
      | Some info =>
          match Get (t_first (clk e)) token (sessions s) with
          | None => (Failed 401 ErrorInvalidRequest, s, [])
          | Some old =>
              let gs := ss_Tunnels old ≫= (fun p => config_named (config s) (tn_Name p)) in
              match authorize (config s) (hook_answer e) gs with
              | None =>
                  let '(s, evs) := dropSession old (with_sessions (delete token) s) in
                  (Failed 403 ErrorNotAllowed, s, evs)
              | Some (gs, ttl) =>
                  let v := map tunnel_of gs in
                  let s := with_sessions (delete token) s in
                  let '(n, table) :=
                    Create (new_id e) (new_token e) (t_create (clk e))
                      (mkParams (ss_Method old) (ss_Identity old) (ss_Fingerprint old) (ss_Issuer old)
                         (ss_Groups old) (ss_WireGuardPublicKey old) (ss_TunnelIP old) v
                         (ci_LatencyMillis info) (ci_Reconnections info) (ss_Multipath old)
                         (ss_PathMTU old) info ttl) (sessions s) in
                  let s := with_sessions (fun _ => table) s in
                  let s := if negb (ss_WireGuardPublicKey old =? "")%string
                           then (addPeer e (ss_WireGuardPublicKey old) (ss_TunnelIP old) s).2 else s in
                  (Answered (mkResponse (ss_ID n) (ss_Token n) "" "" "" ttl v
                     (udp_endpoint e) "" (ss_Identity n) (ss_Method n) (cf_ListenName (config s))
                     (cf_PortalEnabled (config s)) (ss_Multipath n)
                     (transportCapabilities (ss_Multipath n) (ss_PathMTU n))), s, [])
              end
          end
      end
  end.

Definition disconnect (e : env) (token : string) (s : Server) : response * Server * list effect :=
  match Get (t_first (clk e)) token (sessions s) with
  | None => (Failed 401 ErrorInvalidRequest, s, [])
  | Some old =>
      let '(s, evs) := dropSession old (with_sessions (delete token) s) in
      (NoContent, s, evs)
  end.

(** ** The operator's revocation by session id (metrics.go) *)
Definition matchesAdminToken (presented configured : string) : bool :=
  negb (configured =? "")%string && (presented =? configured)%string.

Definition trim_bearer (header : string) : string :=
  match strip_prefix (bytes_of "Bearer ") (bytes_of header) with Some r => str_of r | None => header end.

Definition dashboardHeaderAllowed (header : string) (s : Server) : bool :=
  matchesAdminToken (trim_bearer header) (cf_WebUIToken (config s)).

Definition revokeSession (e : env) (header id : string) (s : Server) : response * Server * list effect :=
  if negb (dashboardHeaderAllowed header s) then (NotFound, s, [])
  else match DeleteByID (session_order e) (t_first (clk e)) id (sessions s) with
  | (None, _) => (NotFound, s, [])
  | (Some old, table) =>
      let '(s, evs) := dropSession old (with_sessions (fun _ => table) s) in
      (NoContent, s, evs)
  end.

Definition reapSessions (e : env) (s : Server) : Server * list effect :=
  reapSessionsLocked e (t_reap (clk e)) s.

(** ** Starting *)
Definition nonceTTL : Z := 5 * minute.
Definition maxAuthAttemptsPerMinute : Z := 20.

Definition New (c : Config) (relay : bool) : Server :=
  mkServer c NewSessions (NonceCache.NewNonceCache nonceTTL 0)
    (SourceLimiter.NewSourceLimiter maxAuthAttemptsPerMinute minute 0) None
    (0 <? Zlen (cf_Issuers c)) relay.

(** [installNativePeers]: the first peer the device refuses ends it. *)
Fixpoint install_peers (e : env) (l : list NativeWireGuardPeer) (s : Server) : option Server :=
  match l with
  | [] => Some s
  | peer :: l =>
      match decodeKey (np_PublicKey peer), ParseAddr (np_TunnelIP peer) with
      | Some raw, Some ip =>
          if device_ok e (np_PublicKey peer)
          then install_peers e l (with_data (set_peers (insert raw (addr_String ip))) s) else None
      | _, _ => None
      end
  end.

Definition installNativePeers (e : env) (s : Server) : option Server :=
  match data s with
  | None => Some s
  | Some _ => if cf_NativeEnabled (config s) then install_peers e (cf_NativePeers (config s)) s else Some s
  end.

(** [StartDataPlane], up to the listeners: the WireGuard stack comes up with
    [key] and no peers. *)
Definition StartDataPlane (e : env) (key : string) (multipath : bool) (s : Server) : option Server :=
  match ParsePrefix (cf_TunnelCIDR (config s)) with
  | None => None
  | Some prefix =>
      let serverIP := Next (p_addr (Masked prefix)) in
      installNativePeers e
        (mkServer (config s) (sessions s) (nonces s) (rates s)
           (Some (mkData serverIP AddrNone ∅ key multipath)) (has_oidc s) (udpr s))
  end.

(** ** Reload *)

(** A session that a native peer of the new configuration displaces. *)
Definition conflicts (peers : list NativeWireGuardPeer) (v : Session) : bool :=
  existsb (fun peer =>
    let key := default "" (CanonicalPublicKey (np_PublicKey peer)) in
    let sessionKey := default "" (CanonicalPublicKey (ss_WireGuardPublicKey v)) in
    let ip := default AddrNone (ParseAddr (np_TunnelIP peer)) in
    let sessionIP := default AddrNone (ParseAddr (ss_TunnelIP v)) in
    (negb (key =? "")%string && (key =? sessionKey)%string) ||
    (addr_IsValid ip && bool_decide (Unmap ip = Unmap sessionIP))) peers.

(** [reconcileTunnels]: whether the session loses a tunnel. *)
Definition loses_tunnel (allowed : list TunnelConfig) (v : Session) : bool :=
  let kept := List.filter (fun t => existsb (fun g => (tc_Name g =? tn_Name t)%string) allowed)
                (ss_Tunnels v) in
  negb (Zlen kept =? Zlen (ss_Tunnels v)).

(** The loop body over the sessions after a reload: whether one is dropped. *)
Definition revoked (e : env) (c : Config) (v : Session) : bool :=
  if (ss_Method v =? "oidc")%string then
    if negb (existsb (fun i => (oi_Name i =? ss_Issuer v)%string) (cf_Issuers c)) then true
    else loses_tunnel (grants c (mkSubject "oidc" "" "" (ss_Identity v) (emailDomain (ss_Identity v))
                                   (ss_Groups v))) v
  else
    match authorizedFingerprintEntry e (ss_Fingerprint v) with
    | None => true
    | Some comment => loses_tunnel (grants c (mkSubject "ssh" (ss_Fingerprint v) comment "" "" [])) v
    end.

(** One range loop of [Reload]: the sessions met, each dropped when [f]. *)
Fixpoint drop_loop (f : Session -> bool) (vs : list Session) (s : Server) : Server * list effect :=
  match vs with
  | [] => (s, [])
  | v :: vs =>
      if f v then
        let '(s, ev) := dropSession v (with_sessions (delete (ss_Token v)) s) in
        let '(s, evs) := drop_loop f vs s in
        (s, ev ++ evs)
      else drop_loop f vs s
  end.

(** [reconcileNativePeers]: a peer whose address does not parse is refused by
    the device. *)
Definition add_native (e : env) (peer : NativeWireGuardPeer) (s : Server) : Server :=
  match decodeKey (np_PublicKey peer), ParseAddr (np_TunnelIP peer) with
  | Some raw, Some ip =>
      if device_ok e (np_PublicKey peer) then with_data (set_peers (insert raw (addr_String ip))) s else s
  | _, _ => s
  end.

Definition reconcileNativePeers (e : env) (old next : list NativeWireGuardPeer) (s : Server) : Server :=
  match data s with
  | None => s
  | Some _ =>
      foldl (fun s peer => add_native e peer s)
        (foldl (fun s peer => removePeer (np_PublicKey peer) s) s old) next
  end.

(** [Reload]: the tunnel prefix is kept. *)
Definition Reload (e : env) (c : Config) (s : Server) : Server * list effect :=
  let c := mkServerConfig (cf_MaxSessionsPerKey c) (cf_SessionTTL c) (cf_Tunnels c)
    (cf_NativeEnabled c) (cf_NativePeers c) (cf_TunnelCIDR (config s)) (cf_Issuers c)
    (cf_WebhookURL c) (cf_Exec c) (cf_MultipathEnabled c) (cf_PortalEnabled c) (cf_WebUIToken c)
    (cf_ListenName (config s)) in
  let oldEnabled := cf_NativeEnabled (config s) in
  let oldNative := cf_NativePeers (config s) in
  let s := mkServer c (sessions s) (nonces s) (rates s) (data s)
             (has_oidc s || negb (bool_decide (cf_Issuers (config s) = cf_Issuers c))) (udpr s) in
  let '(s, evs) :=
    if cf_NativeEnabled c
    then drop_loop (conflicts (cf_NativePeers c)) (All (session_order e) (sessions s)) s else (s, []) in
  let s :=
    if negb (Bool.eqb oldEnabled (cf_NativeEnabled c)) || negb (bool_decide (oldNative = cf_NativePeers c))
    then reconcileNativePeers e (if oldEnabled then oldNative else [])
           (if cf_NativeEnabled c then cf_NativePeers c else []) s
    else s in
  let '(s, evs') := drop_loop (revoked e c) (All (session_order e) (sessions s)) s in
  (s, evs ++ evs').

(** ** Who is behind a tunnel address (dataplane.go) *)
Definition principal_of_session (ip : string) (v : Session) : DataPlanePrincipal :=
  mkPrincipal (ss_Method v) (ss_Identity v) (default AddrNone (ParseAddr ip))
    (list_to_set (map tn_Name (ss_Tunnels v))) "".

Definition principal_of_peer (ip : string) (peer : NativeWireGuardPeer) : DataPlanePrincipal :=
  mkPrincipal "native-wireguard" (np_Name peer) (default AddrNone (ParseAddr ip))
    (list_to_set (np_Tunnels peer)) (np_DestinationPolicy peer).

Definition principalForIP (e : env) (ip : string) (s : Server) : option DataPlanePrincipal :=
  match List.find (fun v => time_before (t_first (clk e)) (ss_Expires v) && (ss_TunnelIP v =? ip)%string)
          (All (session_order e) (sessions s)) with
  | Some v => Some (principal_of_session ip v)
  | None =>
      principal_of_peer ip <$> List.find (fun peer => (np_TunnelIP peer =? ip)%string) (cf_NativePeers (config s))
  end.

Definition allowedIP (e : env) (ip tunnel : string) (s : Server) : bool :=
  match principalForIP e ip s with
  | Some p => bool_decide (tunnel ∈ pr_Tunnels p)
  | None => false
  end.
End server.
