(* ===== verification/ServerTable.v ===== *)
(** The session table, the tunnel addresses and the WireGuard peers of the
    server ([ServerAuth]) kept in step: what every operation does to them, the
    invariant that isolates sessions from one another, and that the peers of
    the device are exactly those of the sessions and of the native peers. *)
From S2P Require Import Prelude Bytes Netip Protocol AuthLimit WgKeys Sessions IpPool Egress ServerAuth.

Section table.
Context {keys : KeyOps} {text : AddrText}.

(** ** What dropping sessions does *)

(** [dropped D s s']: [s'] is [s] without the sessions that satisfy [D] and
    without the peers of their keys. *)
Record dropped (D : Session -> bool) (s s' : Server) : Prop := mkDropped {
  dr_config : config s' = config s;
  dr_sessions : forall t v, sessions s' !! t = Some v <-> sessions s !! t = Some v /\ D v = false;
  dr_data : forall d, data s = Some d -> exists P, data s' = Some (set_peers (fun _ => P) d) /\
    forall raw ip, P !! raw = Some ip <->
      peers d !! raw = Some ip /\
      forall t v, sessions s !! t = Some v -> D v = true -> decodeKey (ss_WireGuardPublicKey v) <> Some raw;
}.

Definition remove_key (v : Session) (P : gmap (list byte) string) : gmap (list byte) string :=
  match decodeKey (ss_WireGuardPublicKey v) with Some raw => delete raw P | None => P end.

Definition remove_keys (vs : list Session) (P : gmap (list byte) string) : gmap (list byte) string :=
  foldl (fun P v => remove_key v P) P vs.

Lemma lookup_remove_key v P raw ip :
  remove_key v P !! raw = Some ip <-> P !! raw = Some ip /\ decodeKey (ss_WireGuardPublicKey v) <> Some raw.
Proof.
  unfold remove_key. destruct (decodeKey _) as [r|]; [|naive_solver].
  rewrite lookup_delete_Some. naive_solver congruence.
Qed.

Lemma lookup_remove_keys vs P raw ip :
  remove_keys vs P !! raw = Some ip <->
  P !! raw = Some ip /\ forall v, v ∈ vs -> decodeKey (ss_WireGuardPublicKey v) <> Some raw.
Proof.
  revert P. induction vs as [|v vs IH]; intros P; simpl; [set_solver|].
  rewrite IH, lookup_remove_key. setoid_rewrite elem_of_cons. naive_solver.
Qed.

Lemma with_data_compose f g s : with_data f (with_data g s) = with_data (fun d => f (g d)) s.
Proof. unfold with_data. simpl. by destruct (data s). Qed.

Lemma with_data_id s : with_data (fun d => d) s = s.
Proof. destruct s as [c T n r [d|] o u]; done. Qed.

Lemma dropSession_state v s : (dropSession v s).1 = with_data (set_peers (remove_key v)) s.
Proof.
  unfold dropSession, removePeer, remove_key. simpl. destruct s as [c T n r [d|] o u]; [|done]. simpl.
  destruct (ss_WireGuardPublicKey v =? "")%string eqn:E; simpl.
  - apply String.eqb_eq in E as ->. by destruct d.
  - destruct (decodeKey _); [done|]. by destruct d.
Qed.

Lemma dropSessions_state vs s : (dropSessions vs s).1 = with_data (set_peers (remove_keys vs)) s.
Proof.
  revert s. induction vs as [|v vs IH]; intros s.
  { destruct s as [c T n r [d|] o u]; [|done]. by destruct d. }
  assert ((dropSessions (v :: vs) s).1 = (dropSessions vs (dropSession v s).1).1) as ->.
  { cbn [dropSessions]. destruct (dropSession v s) as [s1 ev]. cbn [fst]. by destruct (dropSessions vs s1). }
  rewrite IH, dropSession_state. destruct s as [c T n r [d|] o u]; done.
Qed.

Lemma drop_loop_state f vs s :
  (drop_loop f vs s).1 =
  with_data (set_peers (remove_keys (List.filter f vs)))
    (with_sessions (fun T => foldl (fun T v => delete (ss_Token v) T) T (List.filter f vs)) s).
Proof.
  revert s. induction vs as [|v vs IH]; intros s.
  { destruct s as [c T n r [d|] o u]; [|done]. by destruct d. }
  cbn [drop_loop List.filter]. destruct (f v); [|apply IH].
  destruct (dropSession v (with_sessions (delete (ss_Token v)) s)) as [s1 ev] eqn:Hd.
  assert ((let '(s, evs) := drop_loop f vs s1 in (s, ev ++ evs)).1 = (drop_loop f vs s1).1) as ->
    by (by destruct (drop_loop f vs s1)).
  apply (f_equal fst) in Hd. rewrite dropSession_state in Hd. simpl in Hd. rewrite IH, <-Hd.
  destruct s as [c T n r [d|] o u]; done.
Qed.

Lemma lookup_delete_tokens (vs : list Session) (T : Sessions) t v :
  foldl (fun T v => delete (ss_Token v) T) T vs !! t = Some v <->
  T !! t = Some v /\ forall w, w ∈ vs -> ss_Token w <> t.
Proof.
  revert T. induction vs as [|w vs IH]; intros T; simpl; [set_solver|].
  rewrite IH, lookup_delete_Some. setoid_rewrite elem_of_cons. naive_solver.
Qed.

(** Sessions dropped by a list that holds exactly those satisfying [D]. *)
Lemma dropped_by (D : Session -> bool) vs f s :
  (forall v, v ∈ vs <-> (exists t, sessions s !! t = Some v) /\ D v = true) ->
  (forall t v, f (sessions s) !! t = Some v <-> sessions s !! t = Some v /\ D v = false) ->
  dropped D s (with_data (set_peers (remove_keys vs)) (with_sessions f s)).
Proof.
  intros Hvs Hf. split; [done|exact Hf|]. intros d Hd. exists (remove_keys vs (peers d)).
  split; [simpl; by rewrite Hd|]. intros raw ip. rewrite lookup_remove_keys.
  setoid_rewrite Hvs. naive_solver.
Qed.

Lemma dropped_reap e now s :
  ranges (session_order e) -> dropped (expired now) s (reapSessionsLocked e now s).1.
Proof.
  intros Hord. unfold reapSessionsLocked. pose proof (elem_of_dead (session_order e) now (sessions s)) as Hdead.
  pose proof (Reap_spec (session_order e) now (sessions s) Hord) as Hreap.
  destruct (Reap _ _ _) as [dead kept]. simpl in Hdead. injection Hreap as _ ->.
  rewrite dropSessions_state. apply dropped_by; [intros v; by rewrite Hdead|]. intros t v.
  by rewrite lookup_reaped.
Qed.

Lemma dropped_loop ord f s :
  ranges ord -> filed (sessions s) -> dropped f s (drop_loop f (All ord (sessions s)) s).1.
Proof.
  intros Hord Hfiled. rewrite drop_loop_state.
  assert (Hin : forall v, v ∈ List.filter f (All ord (sessions s)) <->
                          (exists t, sessions s !! t = Some v) /\ f v = true).
  { intros v. by rewrite list_elem_of_In, filter_In, <-list_elem_of_In, elem_of_All. }
  apply dropped_by; [exact Hin|]. intros t v. rewrite lookup_delete_tokens. setoid_rewrite Hin. split.
  - intros [Hv Hall]. split; [done|]. destruct (f v) eqn:E; [|done].
    exfalso. eapply Hall; [split; [eauto|done]|]. eauto.
  - intros [Hv Hf]. split; [done|]. intros w [[t' Hw] Hfw] Ht.
    rewrite (Hfiled _ _ Hw) in Ht. subst t'. congruence.
Qed.

(** The session of one token dropped. *)
Definition has_token (t : string) (v : Session) : bool := (ss_Token v =? t)%string.

Lemma dropped_one t old s :
  filed (sessions s) -> sessions s !! t = Some old ->
  dropped (has_token t) s (dropSession old (with_sessions (delete t) s)).1.
Proof.
  intros Hfiled Hold. rewrite dropSession_state.
  change (remove_key old) with (remove_keys [old]). unfold has_token.
  apply (dropped_by (has_token t)).
  - intros v. rewrite list_elem_of_singleton. unfold has_token. rewrite String.eqb_eq. split.
    + intros ->. split; [eauto|]. eauto.
    + intros [[t' Hv] Ht]. rewrite (Hfiled _ _ Hv) in Ht. congruence.
  - intros t' v. unfold has_token. rewrite lookup_delete_Some, String.eqb_neq. split.
    + intros [Hne Hv]. split; [done|]. rewrite (Hfiled _ _ Hv). congruence.
    + intros [Hv Hne]. split; [|done]. rewrite (Hfiled _ _ Hv) in Hne. congruence.
Qed.

(** ** The invariant *)

(** The tunnel prefix of a configuration, no address of which is an
    IPv4-mapped one, and its native peers. *)
Definition tunnel_prefix (c : Config) (p : Prefix) : Prop :=
  (exists p0, ParsePrefix (cf_TunnelCIDR c) = Some p0 /\ p = Masked p0) /\
  forall a, addr_wf a = true -> Contains p a = true -> Is4In6 a = false.

Definition natives (c : Config) : list NativeWireGuardPeer :=
  if cf_NativeEnabled c then cf_NativePeers c else [].

(** An address a session may hold. *)
Definition session_addr (p : Prefix) (d : dataPlane) (ip : string) (a : Addr) : Prop :=
  ip = addr_String a /\ addr_wf a = true /\ Contains p a = true /\ (a ∉ reserved p (serverIP d)).

Record session_ok (p : Prefix) (d : dataPlane) (v : Session) : Prop := mkSessionOk {
  so_key : CanonicalPublicKey (ss_WireGuardPublicKey v) = Some (ss_WireGuardPublicKey v);
  so_addr : exists a, session_addr p d (ss_TunnelIP v) a;
  so_peer : exists raw, decodeKey (ss_WireGuardPublicKey v) = Some raw /\
                        peers d !! raw = Some (ss_TunnelIP v);
}.

(** Sessions are filed under their tokens; each holds a valid canonical key,
    an address of the tunnel prefix that is neither reserved nor a native
    peer's, and the device routes that address to that key; no two sessions
    share an id, a key or an address. *)
Record table_ok (p : Prefix) (N : list NativeWireGuardPeer) (T : Sessions) (d : dataPlane) : Prop :=
  mkTableOk {
  tb_filed : filed T;
  tb_sessions : forall t v, T !! t = Some v -> session_ok p d v;
  tb_ids : forall t t' v v', T !! t = Some v -> T !! t' = Some v' -> ss_ID v = ss_ID v' -> t = t';
  tb_keys : forall t t' v v', T !! t = Some v -> T !! t' = Some v' ->
    ss_WireGuardPublicKey v = ss_WireGuardPublicKey v' -> t = t';
  tb_addrs : forall t t' v v', T !! t = Some v -> T !! t' = Some v' ->
    ss_TunnelIP v = ss_TunnelIP v' -> t = t';
  tb_native : forall t v, T !! t = Some v -> conflicts N v = false;
  tb_next : addr_wf (nextIP d) = true;
}.

(** The peers of the device are those of the sessions and of [N]. *)
Definition session_peer (T : Sessions) (raw : list byte) (ip : string) : Prop :=
  exists t v, T !! t = Some v /\ decodeKey (ss_WireGuardPublicKey v) = Some raw /\ ss_TunnelIP v = ip.

Definition native_peer (N : list NativeWireGuardPeer) (raw : list byte) (ip : string) : Prop :=
  exists peer a, (peer ∈ N) /\ decodeKey (np_PublicKey peer) = Some raw /\
    ParseAddr (np_TunnelIP peer) = Some a /\ ip = addr_String a.

Definition exact (N : list NativeWireGuardPeer) (T : Sessions) (P : gmap (list byte) string) : Prop :=
  forall raw ip, P !! raw = Some ip <-> session_peer T raw ip \/ native_peer N raw ip.

(** [ex] asks for the exactness of the peers, which needs a device that
    accepts every command. *)
Definition inv (ex : bool) (p : Prefix) (N : list NativeWireGuardPeer) (s : Server) : Prop :=
  exists d, data s = Some d /\ table_ok p N (sessions s) d /\
            (ex = true -> exact N (sessions s) (peers d)).

Definition server_inv (ex : bool) (s : Server) : Prop :=
  exists p, tunnel_prefix (config s) p /\ inv ex p (natives (config s)) s.

Lemma canonical_raw k k' raw :
  CanonicalPublicKey k = Some k -> CanonicalPublicKey k' = Some k' ->
  decodeKey k = Some raw -> decodeKey k' = Some raw -> k = k'.
Proof.
  intros Hk Hk' Hd Hd'. apply (CanonicalPublicKey_eq k k' k) in Hk as [_ Hk].
  rewrite Hk' in Hk. by assert (Some k' = Some k) as [= ->] by (apply Hk; congruence).
Qed.

(** A session apart from the native peers has none of their keys. *)
Lemma conflicts_raw N v peer raw :
  conflicts N v = false -> peer ∈ N ->
  CanonicalPublicKey (ss_WireGuardPublicKey v) = Some (ss_WireGuardPublicKey v) ->
  decodeKey (ss_WireGuardPublicKey v) = Some raw -> decodeKey (np_PublicKey peer) <> Some raw.
Proof.
  intros Hc Hin Hk Hraw Hp. unfold conflicts in Hc. apply not_true_iff_false in Hc. apply Hc.
  apply existsb_exists. exists peer. split; [by apply list_elem_of_In|].
  pose proof (CanonicalPublicKey_eq (ss_WireGuardPublicKey v) (np_PublicKey peer) _ Hk) as [_ Hkk].
  rewrite Hkk by congruence. rewrite Hk. simpl. apply orb_true_iff. left.
  rewrite String.eqb_refl. pose proof (CanonicalPublicKey_nonempty _ _ Hk) as Hne.
  destruct (String.eqb_spec (ss_WireGuardPublicKey v) ""); done.
Qed.

Lemma native_not_session p N T d raw ip t v :
  table_ok p N T d -> native_peer N raw ip -> T !! t = Some v ->
  decodeKey (ss_WireGuardPublicKey v) <> Some raw.
Proof.
  intros Hok (peer & a & Hin & Hraw & _) Hv Hvr.
  pose proof (tb_native _ _ _ _ Hok t v Hv) as Hc. pose proof (tb_sessions _ _ _ _ Hok t v Hv) as Hs.
  eapply conflicts_raw; [done|done|apply Hs|done|done].
Qed.

(** *** Dropping sessions keeps the invariant *)
Lemma dropped_ok ex p N D s s' : dropped D s s' -> inv ex p N s -> inv ex p N s'.
Proof.
  intros [Hc HT Hd] (d & Hd0 & Hok & Hex). destruct (Hd d Hd0) as (P & HdP & HP).
  exists (set_peers (fun _ => P) d). split; [done|].
  assert (Hsub : forall t v, sessions s' !! t = Some v -> sessions s !! t = Some v) by (intros t v Hv; by apply HT).
  assert (Hother : forall t v raw, sessions s' !! t = Some v -> decodeKey (ss_WireGuardPublicKey v) = Some raw ->
            forall t' w, sessions s !! t' = Some w -> D w = true -> decodeKey (ss_WireGuardPublicKey w) <> Some raw).
  { intros t v raw [Hv HDv]%HT Hraw t' w Hw HDw Hrw. assert (t = t') as <-; [|congruence].
    eapply (tb_keys _ _ _ _ Hok); [done..|].
    eapply canonical_raw; [apply (tb_sessions _ _ _ _ Hok t v Hv)|apply (tb_sessions _ _ _ _ Hok t' w Hw)|done..]. }
  split.
  - pose proof Hok as [Hfiled Hs Hids Hkeys Hips Hnat Hnext]. split; simpl; eauto.
    + intros t v Hv. eauto.
    + intros t v Hv. destruct (Hs t v (Hsub t v Hv)) as [Hkey Haddr (raw & Hraw & Hpeer)].
      split; [done|done|]. exists raw. split; [done|]. simpl. apply HP. eauto.
  - intros He. specialize (Hex He). intros raw ip. simpl. rewrite HP, (Hex raw ip). split.
    + intros [[(t & v & Hv & Hraw & Hip)|Hn] Hno]; [left|by right]. exists t, v. split; [|done].
      apply HT. split; [done|]. destruct (D v) eqn:E; [|done]. by destruct (Hno t v Hv E).
    + intros [(t & v & Hv & Hraw & Hip)|Hn]; (split; [|]).
      * left. exists t, v. eauto.
      * eauto.
      * by right.
      * intros t v Hv _. by eapply native_not_session.
Qed.

(** ** Filling a free slot *)

(** A key and an address no session of the table has. *)
Definition slot_free (T : Sessions) (k ip : string) : Prop :=
  forall t v, T !! t = Some v -> ss_WireGuardPublicKey v <> k /\ ss_TunnelIP v <> ip.

Lemma fill_ok p N T d k ip raw v :
  table_ok p N T d -> slot_free T k ip ->
  CanonicalPublicKey k = Some k -> decodeKey k = Some raw ->
  (exists a, session_addr p d ip a) ->
  ss_WireGuardPublicKey v = k -> ss_TunnelIP v = ip ->
  T !! ss_Token v = None -> (forall t w, T !! t = Some w -> ss_ID w <> ss_ID v) ->
  conflicts N v = false ->
  table_ok p N (<[ss_Token v := v]> T) (set_peers (insert raw ip) d).
Proof.
  intros Hok Hfree Hk Hraw Haddr Hvk Hvip Hfresh Hid Hconf.
  destruct Hok as [Hfiled Hsess Hids Hkeys Hips Hnat Hnext].
  assert (Hcases : forall t w, <[ss_Token v := v]> T !! t = Some w ->
            (t = ss_Token v /\ w = v) \/ (t <> ss_Token v /\ T !! t = Some w)).
  { intros t w [[<- <-]|[Hne Hw]]%lookup_insert_Some; auto. }
  split; simpl; [..|done].
  - intros t w [[-> ->]|[_ Hw]]%Hcases; eauto.
  - intros t w [[-> ->]|[_ Hw]]%Hcases.
    + split; [by rewrite Hvk|by rewrite Hvip|]. exists raw. rewrite Hvk, Hvip. split; [done|]. simpl.
      apply lookup_insert_eq.
    + destruct (Hsess t w Hw) as [Hwk Hwa (raw' & Hraw' & Hpeer)]. split; [done|done|].
      exists raw'. split; [done|]. simpl. rewrite lookup_insert_ne; [done|]. intros <-.
      apply (proj1 (Hfree t w Hw)). by eapply canonical_raw.
  - intros t t' w w' [[-> ->]|[Ht Hw]]%Hcases [[-> ->]|[Ht' Hw']]%Hcases Heq; [done|..|eauto].
    + by destruct (Hid t' w' Hw').
    + by destruct (Hid t w Hw).
  - intros t t' w w' [[-> ->]|[Ht Hw]]%Hcases [[-> ->]|[Ht' Hw']]%Hcases Heq; [done|..|eauto].
    + destruct (Hfree t' w' Hw'). congruence.
    + destruct (Hfree t w Hw). congruence.
  - intros t t' w w' [[-> ->]|[Ht Hw]]%Hcases [[-> ->]|[Ht' Hw']]%Hcases Heq; [done|..|eauto].
    + destruct (Hfree t' w' Hw'). congruence.
    + destruct (Hfree t w Hw). congruence.
  - intros t w [[-> ->]|[_ Hw]]%Hcases; eauto.
Qed.

Lemma fill_exact N T P k raw v :
  exact N T P -> slot_free T k (ss_TunnelIP v) -> CanonicalPublicKey k = Some k -> decodeKey k = Some raw ->
  ss_WireGuardPublicKey v = k -> T !! ss_Token v = None -> conflicts N v = false ->
  (forall t w, T !! t = Some w -> CanonicalPublicKey (ss_WireGuardPublicKey w) = Some (ss_WireGuardPublicKey w)) ->
  exact N (<[ss_Token v := v]> T) (<[raw := ss_TunnelIP v]> P).
Proof.
  intros Hex Hfree Hk Hraw Hvk Hfresh Hconf Hs raw' ip. rewrite lookup_insert_Some, (Hex raw' ip).
  unfold session_peer. setoid_rewrite lookup_insert_Some. split.
  - intros [[<- <-]|[Hne [(t & w & Hw & Hr & Hip)|Hn]]]; [left|left|by right].
    + exists (ss_Token v), v. rewrite Hvk. eauto.
    + exists t, w. split; [right; split; [congruence|done]|done].
  - intros [(t & w & [[<- <-]|[Ht Hw]] & Hr & Hip)|Hn].
    + left. rewrite Hvk in Hr. split; [congruence|done].
    + right. split; [|left; eauto]. intros <-. apply (proj1 (Hfree t w Hw)).
      eapply canonical_raw; [exact (Hs t w Hw)|done..].
    + right. split; [|by right]. intros <-. destruct Hn as (peer & a & Hin & Hpr & _).
      eapply (conflicts_raw N v peer raw); [done|done|by rewrite Hvk|by rewrite Hvk|done].
Qed.

(** ** Allocating an address *)
Lemma parse_printed a : addr_wf a = true -> addr_IsValid a = true -> ParseAddr (addr_String a) = Some a.
Proof. apply ParseAddr_String. Qed.

Lemma Contains_valid p a : prefix_wf p = true -> addr_wf a = true -> Contains p a = true -> addr_IsValid a = true.
Proof. intros Hp Ha Hc. by apply Contains_spec in Hc as (_ & Hv & _). Qed.

Lemma tunnel_prefix_wf c p : tunnel_prefix c p -> prefix_wf p = true /\ Masked p = p.
Proof.
  intros [(p0 & Hp0 & ->) _]. split; [|apply Masked_idemp]. apply Masked_wf. by eapply ParsePrefix_wf.
Qed.

Lemma session_addr_parse c p d ip a :
  tunnel_prefix c p -> session_addr p d ip a -> ParseAddr ip = Some a /\ Unmap a = a.
Proof.
  intros Hp (-> & Hwf & Hc & _). destruct (tunnel_prefix_wf c p Hp) as [Hpw _]. split.
  - apply parse_printed; [done|]. by eapply Contains_valid.
  - apply Unmap_id. by apply Hp.
Qed.

(** What the scan avoids. *)
Definition occupied (c : Config) (p : Prefix) (d : dataPlane) (T : Sessions) (a : Addr) : Prop :=
  (a ∈ reserved p (serverIP d)) \/
  (exists peer x, (peer ∈ cf_NativePeers c) /\ ParseAddr (np_TunnelIP peer) = Some x /\ a = Unmap x) \/
  (exists t v x, T !! t = Some v /\ ParseAddr (ss_TunnelIP v) = Some x /\ a = Unmap x).

Lemma elem_of_used e p d s a :
  ranges (session_order e) -> a ∈ used_addrs e p d s <-> occupied (config s) p d (sessions s) a.
Proof.
  intros Hord. unfold used_addrs, occupied, native_addrs, session_addrs.
  rewrite !elem_of_union, !elem_of_list_to_set, !list_elem_of_fmap.
  setoid_rewrite list_elem_of_omap. setoid_rewrite elem_of_All; [|done]. naive_solver.
Qed.

(** [allocateIP] finds an address of the prefix that nothing occupies exactly
    when there is one. *)
Lemma allocateIP_spec e d s p :
  ranges (session_order e) -> tunnel_prefix (config s) p -> addr_wf (nextIP d) = true ->
  exists next, addr_wf next = true /\
  match allocateIP e d s with
  | (Some ip, s') =>
      s' = with_data (set_nextIP next) s /\
      exists a, session_addr p d ip a /\ ~ occupied (config s) p d (sessions s) a
  | (None, s') =>
      s' = with_data (set_nextIP next) s /\
      forall a, addr_wf a = true -> Contains p a = true -> occupied (config s) p d (sessions s) a
  end.
Proof.
  intros Hord Hp Hnext. destruct (tunnel_prefix_wf _ _ Hp) as [Hpw Hpm].
  destruct Hp as [(p0 & Hp0 & Hpp) Hplain]. unfold allocateIP. rewrite Hp0, <-Hpp.
  pose proof (scan_all_spec p Hpw Hpm (used_addrs e p d s) (nextIP d) Hnext) as Hs.
  destruct (scan_all _ _ _) as [[a|] next]; exists next; simpl.
  - destruct Hs as (Hc & Hn & Ha & Hw). rewrite elem_of_used in Hn by done. split; [done|].
    split; [done|]. exists a. split; [|done]. split; [done|]. split; [done|]. split; [done|].
    intros Hr. apply Hn. by left.
  - destruct Hs as [Hw Hall]. split; [done|]. split; [done|]. intros a Ha Hc.
    apply (elem_of_used e); [done|]. by apply Hall.
Qed.

(** An unoccupied address conflicts with no native peer and no session. *)
Lemma unoccupied_conflicts c p d T k a v :
  tunnel_prefix c p -> addr_wf a = true -> Contains p a = true -> ~ occupied c p d T a ->
  CanonicalPublicKey k = Some k -> is_native c k = false ->
  ss_WireGuardPublicKey v = k -> ss_TunnelIP v = addr_String a -> conflicts (natives c) v = false.
Proof.
  intros Hp Ha Hc Hocc Hk Hnat Hvk Hvip. destruct (tunnel_prefix_wf _ _ Hp) as [Hpw _].
  pose proof (Contains_valid p a Hpw Ha Hc) as Hvalid.
  assert (Hun : Unmap a = a) by (apply Unmap_id; by apply Hp).
  apply not_true_iff_false. intros (peer & Hin%list_elem_of_In & Hx)%existsb_exists.
  unfold natives in Hin. destruct (cf_NativeEnabled c) eqn:He; [|by apply not_elem_of_nil in Hin].
  rewrite Hvk, Hvip, Hk, parse_printed in Hx by done. simpl in Hx. apply orb_true_iff in Hx as [Hx|Hx].
  - apply andb_true_iff in Hx as [_ Hx%String.eqb_eq]. apply not_true_iff_false in Hnat. apply Hnat.
    unfold is_native. rewrite He. simpl. apply existsb_exists. exists peer.
    split; [by apply list_elem_of_In|]. by apply String.eqb_eq.
  - apply andb_true_iff in Hx as [Hv Hx%bool_decide_eq_true]. apply Hocc. right. left. exists peer.
    destruct (ParseAddr (np_TunnelIP peer)) as [x|]; [|done]. simpl in Hx. exists x. by rewrite Hx, Hun.
Qed.

Lemma unoccupied_free c p N T d k a :
  tunnel_prefix c p -> table_ok p N T d -> addr_wf a = true -> Contains p a = true ->
  ~ occupied c p d T a -> (forall t v, T !! t = Some v -> ss_WireGuardPublicKey v <> k) ->
  slot_free T k (addr_String a).
Proof.
  intros Hp Hok Ha Hc Hocc Hk t v Hv. split; [by eapply Hk|]. intros Heq. apply Hocc. right. right.
  destruct (so_addr _ _ _ (tb_sessions _ _ _ _ Hok t v Hv)) as [x Hx].
  destruct (session_addr_parse c p d _ _ Hp Hx) as [Hparse Hun]. rewrite Heq in Hparse.
  rewrite parse_printed in Hparse; [|done|]; [|destruct (tunnel_prefix_wf _ _ Hp); by eapply Contains_valid].
  injection Hparse as <-. exists t, v, a. rewrite Heq. split; [done|]. split; [|done].
  destruct (tunnel_prefix_wf _ _ Hp). apply parse_printed; [done|]. by eapply Contains_valid.
Qed.

(** ** The environment of an operation *)

(** Range loops list each session once, tokens and ids are fresh, the clock
    does not run backwards between the look-up of a key and the reap behind
    it; [ex]: the device accepts every command. *)
Record env_ok (ex : bool) (e : env) (s : Server) : Prop := mkEnvOk {
  eo_order : ranges (session_order e);
  eo_times : t_find (clk e) <= t_reap2 (clk e);
  eo_token : sessions s !! new_token e = None;
  eo_id : forall t v, sessions s !! t = Some v -> ss_ID v <> new_id e;
  eo_device : ex = true -> forall k, device_ok e k = true;
}.

Lemma env_ok_sub ex e s s' :
  env_ok ex e s -> (forall t v, sessions s' !! t = Some v -> sessions s !! t = Some v) -> env_ok ex e s'.
Proof.
  intros [Ho Ht Htok Hid Hdev] Hsub. split; [done|done| |naive_solver|done].
  destruct (sessions s' !! new_token e) as [v|] eqn:E; [|done]. apply Hsub in E. congruence.
Qed.

Lemma dropped_sub D s s' t v : dropped D s s' -> sessions s' !! t = Some v -> sessions s !! t = Some v.
Proof. intros Hd Hv. by apply (dr_sessions _ _ _ Hd) in Hv as [Hv _]. Qed.

(** ** Attaching to the data plane *)

(** The peer of a session about to be created is in place. *)
Definition pending (ex : bool) (p : Prefix) (N : list NativeWireGuardPeer) (k ip : string) (s : Server) : Prop :=
  exists d raw, data s = Some (set_peers (insert raw ip) d) /\
    table_ok p N (sessions s) d /\ (ex = true -> exact N (sessions s) (peers d)) /\
    slot_free (sessions s) k ip /\
    CanonicalPublicKey k = Some k /\ decodeKey k = Some raw /\
    (exists a, session_addr p d ip a) /\
    (forall v, ss_WireGuardPublicKey v = k -> ss_TunnelIP v = ip -> conflicts N v = false).

Lemma Create_fills ex p N e now q s :
  env_ok ex e s -> pending ex p N (p_WireGuardPublicKey q) (p_TunnelIP q) s ->
  inv ex p N (with_sessions (fun _ => (Create (new_id e) (new_token e) now q (sessions s)).2) s).
Proof.
  intros Henv (d & raw & Hd & Hok & Hex & Hfree & Hk & Hraw & Haddr & Hconf).
  assert (Hcan : canonical_or (p_WireGuardPublicKey q) = p_WireGuardPublicKey q)
    by (unfold canonical_or; by rewrite Hk).
  exists (set_peers (insert raw (p_TunnelIP q)) d). simpl. split; [done|].
  set (v := mkSession _ _ _ _ _ _ _ _ _ _ _ _ _ _ _ _). split.
  - apply (fill_ok p N (sessions s) d (p_WireGuardPublicKey q) (p_TunnelIP q) raw v); try done.
    + apply Henv.
    + intros t w Hw. by eapply eo_id.
    + by apply Hconf.
  - intros He. specialize (Hex He). simpl.
    apply (fill_exact N (sessions s) (peers d) (p_WireGuardPublicKey q) raw v); try done.
    + apply Henv.
    + by apply Hconf.
    + intros t w Hw. apply (tb_sessions _ _ _ _ Hok t w Hw).
Qed.

Lemma addPeer_spec ex p N e k ip raw s d :
  data s = Some d -> (exists a, session_addr p d ip a /\ ParseAddr ip = Some a) -> decodeKey k = Some raw ->
  (ex = true -> forall key, device_ok e key = true) ->
  table_ok p N (sessions s) d -> (ex = true -> exact N (sessions s) (peers d)) ->
  slot_free (sessions s) k ip -> CanonicalPublicKey k = Some k ->
  (forall v, ss_WireGuardPublicKey v = k -> ss_TunnelIP v = ip -> conflicts N v = false) ->
  match addPeer e k ip s with
  | (true, s') => pending ex p N k ip s' /\ config s' = config s /\ sessions s' = sessions s
  | (false, s') => s' = s /\ ex = false
  end.
Proof.
  intros Hd (a & Ha & Hparse) Hraw Hdev Hok Hex Hfree Hk Hconf. unfold addPeer. rewrite Hd, Hparse, Hraw.
  destruct (device_ok e k) eqn:Ek.
  - split; [|done]. exists d, raw. simpl. rewrite Hd. split; [done|]. repeat (split; [done|]). eauto.
  - split; [done|]. destruct ex; [|done]. by rewrite Hdev in Ek.
Qed.

Lemma table_next p N T d a : addr_wf a = true -> table_ok p N T d -> table_ok p N T (set_nextIP a d).
Proof.
  intros Ha [Hf Hs Hi Hk Hip Hn _]. split; try done. intros t v Hv.
  destruct (Hs t v Hv) as [Hkey Haddr Hpeer]. by split.
Qed.

Lemma inv_next ex p N a s :
  addr_wf a = true -> inv ex p N s -> inv ex p N (with_data (set_nextIP a) s).
Proof.
  intros Ha (d & Hd & Hok & Hex). exists (set_nextIP a d). simpl. rewrite Hd.
  split; [done|]. split; [by apply table_next|done].
Qed.

Lemma table_delete p N T d t : table_ok p N T d -> table_ok p N (delete t T) d.
Proof.
  intros [Hf Hs Hi Hk Hip Hn Hx].
  assert (Hsub : forall t' v, delete t T !! t' = Some v -> T !! t' = Some v) by (by intros t' v [_ Hv]%lookup_delete_Some).
  split; try done; eauto. intros t' v Hv. eauto.
Qed.

Lemma find_key_Some ord now k p N s old :
  ranges ord -> inv false p N s -> CanonicalPublicKey k = Some k ->
  FindWireGuardPublicKey ord now k (sessions s) = Some old ->
  sessions s !! ss_Token old = Some old /\ ss_WireGuardPublicKey old = k.
Proof.
  intros Hord (d & Hd & Hok & _) Hk Hfind. unfold FindWireGuardPublicKey in Hfind.
  apply find_live_Some in Hfind as ([t Hold] & _ & Hm); [|done].
  apply andb_true_iff in Hm as [_ Hm%String.eqb_eq]. pose proof (tb_filed _ _ _ _ Hok t old Hold) as <-.
  split; [done|]. pose proof (so_key _ _ _ (tb_sessions _ _ _ _ Hok _ _ Hold)) as Hc.
  unfold canonical_or in Hm. by rewrite Hk, Hc in Hm.
Qed.

Lemma find_key_None ord now k p N s t v :
  ranges ord -> inv false p N s -> CanonicalPublicKey k = Some k ->
  FindWireGuardPublicKey ord now k (sessions s) = None ->
  sessions s !! t = Some v -> expired now v = false -> ss_WireGuardPublicKey v <> k.
Proof.
  intros Hord (d & Hd & Hok & _) Hk Hfind Hv Hlive Heq. unfold FindWireGuardPublicKey in Hfind.
  pose proof (find_live_None _ _ _ _ _ _ Hord Hfind Hv Hlive) as Hm. simpl in Hm.
  unfold canonical_or in Hm. rewrite Heq, Hk, String.eqb_refl, andb_true_r in Hm.
  apply negb_false_iff, String.eqb_eq in Hm. by eapply CanonicalPublicKey_nonempty.
Qed.

Lemma inv_weaken ex p N s : inv ex p N s -> inv false p N s.
Proof. intros (d & Hd & Hok & _). by exists d. Qed.

(** A live session of the key hands its address on to the next one. *)
Lemma replace_spec ex e p s k old :
  tunnel_prefix (config s) p -> inv ex p (natives (config s)) s -> env_ok ex e s ->
  sessions s !! ss_Token old = Some old -> ss_WireGuardPublicKey old = k ->
  match addPeer e k (ss_TunnelIP old) (with_sessions (delete (ss_Token old)) s) with
  | (true, s') => pending ex p (natives (config s)) k (ss_TunnelIP old) s' /\ config s' = config s /\
      sessions s' = delete (ss_Token old) (sessions s)
  | (false, s') => inv ex p (natives (config s)) s' /\ config s' = config s /\
      sessions s' = delete (ss_Token old) (sessions s)
  end.
Proof.
  intros Hp Hinv Henv Hold Hkey. pose proof Hinv as (d & Hd & Hok & Hex).
  pose proof (tb_sessions _ _ _ _ Hok _ _ Hold) as [Hk [a Ha] (raw & Hraw & Hpeer)]. rewrite Hkey in Hk, Hraw.
  destruct (session_addr_parse _ _ _ _ _ Hp Ha) as [Hparse _].
  pose proof (dropped_one _ _ s (tb_filed _ _ _ _ Hok) Hold) as Hdrop.
  pose proof (dropped_ok ex _ _ _ _ _ Hdrop Hinv) as (dx & Hdx & Hokx & Hexx).
  rewrite dropSession_state in Hdx, Hokx, Hexx. simpl in Hdx, Hokx, Hexx. rewrite Hd in Hdx. simpl in Hdx.
  unfold remove_key in Hdx. rewrite Hkey, Hraw in Hdx. injection Hdx as <-.
  unfold addPeer. cbn [data with_sessions]. rewrite Hd, Hparse, Hraw.
  destruct (device_ok e k) eqn:Ek.
  - split; [|done]. exists (set_peers (delete raw) d), raw. simpl. rewrite Hd. simpl.
    split; [unfold set_peers; simpl; by rewrite insert_delete_eq|]. split; [done|]. split; [done|]. split; [|split; [done|split; [done|split; [by exists a|]]]].
    + intros t v [Hne Hv]%lookup_delete_Some. split; intros Heq; apply Hne.
      * eapply (tb_keys _ _ _ _ Hok); [done..|congruence].
      * eapply (tb_addrs _ _ _ _ Hok); [done..|congruence].
    + intros v Hvk Hvip. rewrite <-(tb_native _ _ _ _ Hok _ _ Hold). unfold conflicts.
      by rewrite Hvk, Hvip, Hkey.
  - split; [|done]. exists d. simpl. split; [done|]. split; [by apply table_delete|].
    intros ->. by rewrite (eo_device _ _ _ Henv) in Ek.
Qed.

(** A key of no live session gets the next unoccupied address. *)
Lemma fresh_spec ex e p s s1 s2 k ip d :
  tunnel_prefix (config s) p -> inv ex p (natives (config s)) s -> env_ok ex e s -> data s = Some d ->
  CanonicalPublicKey k = Some k -> is_native (config s) k = false ->
  FindWireGuardPublicKey (session_order e) (t_find (clk e)) k (sessions s) = None ->
  s1 = (reapSessionsLocked e (t_reap2 (clk e)) s).1 ->
  allocateIP e d s1 = (Some ip, s2) ->
  match addPeer e k ip s2 with
  | (true, s') => pending ex p (natives (config s)) k ip s' /\ config s' = config s /\ sessions s' = sessions s1
  | (false, s') => inv ex p (natives (config s)) s' /\ config s' = config s /\ sessions s' = sessions s1
  end.
Proof.
  intros Hp Hinv Henv Hd Hk Hnat Hfind Hs1 Halloc.
  pose proof (dropped_reap e (t_reap2 (clk e)) s (eo_order _ _ _ Henv)) as Hdrop. rewrite <-Hs1 in Hdrop.
  pose proof (dropped_ok ex _ _ _ _ _ Hdrop Hinv) as Hinv1. pose proof Hinv1 as (d1 & Hd1 & Hok1 & Hex1).
  destruct (dr_data _ _ _ Hdrop d Hd) as (P & HdP & _). rewrite Hd1 in HdP. injection HdP as ->.
  pose proof (dr_config _ _ _ Hdrop) as Hc1. rewrite <-Hc1 in Hp.
  destruct (allocateIP_spec e d s1 p (eo_order _ _ _ Henv) Hp) as (next & Hnext & Hall);
    [by apply Hok1|]. rewrite Halloc in Hall. destruct Hall as (-> & a & Ha & Hocc).
  pose proof Ha as (Hip & Hwf & Hcont & _).
  assert (Hkfree : forall t v, sessions s1 !! t = Some v -> ss_WireGuardPublicKey v <> k).
  { intros t v Hv. pose proof Hv as [Hv0 Hlive]%(dr_sessions _ _ _ Hdrop).
    apply (find_key_None _ _ k p _ s t v (eo_order _ _ _ Henv) (inv_weaken _ _ _ _ Hinv) Hk Hfind Hv0).
    eapply unexpired_mono; [apply Henv|done]. }
  pose proof (addPeer_spec ex p (natives (config s)) e k ip) as Hadd.
  destruct (decodeKey k) as [raw|] eqn:Hraw; [|unfold CanonicalPublicKey in Hk; by rewrite Hraw in Hk].
  specialize (Hadd raw (with_data (set_nextIP next) s1) (set_nextIP next (set_peers (fun _ => P) d))).
  simpl in Hadd. rewrite Hd1 in Hadd.
  pose proof (session_addr_parse _ _ d _ _ Hp Ha) as [Hparse _].
  specialize (Hadd eq_refl (ex_intro _ a (conj Ha Hparse)) eq_refl (eo_device _ _ _ Henv)
    (table_next _ _ _ _ _ Hnext Hok1) Hex1).
  destruct (addPeer e k ip (with_data (set_nextIP next) s1)) as [[] s'].
  - destruct Hadd as (Hpend & Hc' & Hs'); [..|by rewrite Hc', Hc1].
    + subst ip. by eapply unoccupied_free.
    + done.
    + intros v Hvk Hvip. rewrite <-Hc1. eapply unoccupied_conflicts; try done; [by rewrite Hc1|congruence].
  - destruct Hadd as (-> & ->); [..|split; [|done]].
    + subst ip. by eapply unoccupied_free.
    + done.
    + intros v Hvk Hvip. rewrite <-Hc1. eapply unoccupied_conflicts; try done; [by rewrite Hc1|congruence].
    + apply inv_next; [done|]. by rewrite <-Hc1; rewrite Hc1.
Qed.

Definition sub_sessions (s' s : Server) : Prop :=
  forall t v, sessions s' !! t = Some v -> sessions s !! t = Some v.

Lemma attach_spec ex e p req d s :
  tunnel_prefix (config s) p -> inv ex p (natives (config s)) s -> env_ok ex e s -> data s = Some d ->
  match attach e req d s with
  | (Ok (k, ip), s', _) => pending ex p (natives (config s)) k ip s' /\ config s' = config s /\ sub_sessions s' s
  | (Err _, s', _) => inv ex p (natives (config s)) s' /\ config s' = config s /\ sub_sessions s' s
  end.
Proof.
  intros Hp Hinv Henv Hd. unfold attach, sub_sessions.
  destruct (sr_WireGuardPublicKey req =? "")%string; [done|].
  destruct (CanonicalPublicKey (sr_WireGuardPublicKey req)) as [k|] eqn:Hkey; [|done].
  apply CanonicalPublicKey_idemp in Hkey. destruct (is_native (config s) k) eqn:Hnat; [done|].
  destruct (FindWireGuardPublicKey _ _ _ _) as [old|] eqn:Hfind.
  - destruct (negb (ss_Method old =? _)%string || _ || _); [done|].
    pose proof (find_key_Some _ _ _ _ _ _ _ (eo_order _ _ _ Henv) (inv_weaken _ _ _ _ Hinv) Hkey Hfind)
      as [Hold Holdk].
    pose proof (replace_spec ex e p s k old Hp Hinv Henv Hold Holdk) as Hrep.
    destruct (addPeer _ _ _ _) as [[] s']; destruct Hrep as (H1 & H2 & H3); (split; [done|]; split; [done|]);
      rewrite H3; by intros t v [_ Hv]%lookup_delete_Some.
  - destruct (reapSessionsLocked e (t_reap2 (clk e)) s) as [s1 evs] eqn:Hreap.
    pose proof (dropped_reap e (t_reap2 (clk e)) s (eo_order _ _ _ Henv)) as Hdrop. rewrite Hreap in Hdrop.
    pose proof (dropped_ok ex _ _ _ _ _ Hdrop Hinv) as Hinv1. pose proof (dr_config _ _ _ Hdrop) as Hc1.
    assert (Hsub : forall t v, sessions s1 !! t = Some v -> sessions s !! t = Some v)
      by (intros t v; by eapply dropped_sub).
    destruct (allocateIP e d s1) as [[ip|] s2] eqn:Halloc.
    + pose proof (fresh_spec ex e p s s1 s2 k ip d Hp Hinv Henv Hd Hkey Hnat Hfind) as Hf.
      rewrite Hreap in Hf. specialize (Hf eq_refl Halloc).
      destruct (addPeer e k ip s2) as [[] s']; destruct Hf as (H1 & H2 & H3); by rewrite H3.
    + simpl in Hc1. rewrite <-Hc1 in Hp.
      destruct Hinv as (d0 & Hd0 & Hok & _). assert (d0 = d) as -> by congruence.
      destruct (allocateIP_spec e d s1 p (eo_order _ _ _ Henv) Hp (tb_next _ _ _ _ Hok)) as (next & Hnext & Hall).
      rewrite Halloc in Hall. destruct Hall as [-> _]. simpl. split; [by apply inv_next|done].
Qed.

Lemma establishSession_inv ex e p req gs s :
  tunnel_prefix (config s) p -> inv ex p (natives (config s)) s -> env_ok ex e s ->
  inv ex p (natives (config s)) (establishSession e req gs s).1.2 /\
  config (establishSession e req gs s).1.2 = config s.
Proof.
  intros Hp Hinv Henv. unfold establishSession. destruct (_ && _ && _); [done|].
  destruct (authorize _ _ _) as [[gs' ttl]|]; [|done]. destruct (sr_QueryOnly req); [done|].
  destruct (reapSessionsLocked e (t_reap (clk e)) s) as [s1 evs] eqn:Hreap.
  pose proof (dropped_reap e (t_reap (clk e)) s (eo_order _ _ _ Henv)) as Hdrop. rewrite Hreap in Hdrop.
  pose proof (dropped_ok ex _ _ _ _ _ Hdrop Hinv) as Hinv1. pose proof (dr_config _ _ _ Hdrop) as Hc1.
  simpl in Hinv1, Hc1, Hdrop. clear Hreap.
  assert (Henv1 : env_ok ex e s1) by (eapply env_ok_sub; [done|]; intros t v; by eapply dropped_sub).
  rewrite <-Hc1 in Hp, Hinv1 |- *. pose proof Hinv1 as (d & Hd & _). rewrite Hd.
  pose proof (attach_spec ex e p req d s1 Hp Hinv1 Henv1 Hd) as Hatt.
  destruct (attach e req d s1) as [[[[k ip]|r] s2] evs']; destruct Hatt as (H1 & H2 & H3); cbv beta iota zeta.
  - match goal with |- context [Create _ _ _ ?q _] =>
      pose proof (Create_fills ex p _ e (t_create (clk e)) q s2 (env_ok_sub _ _ _ _ Henv1 H3) H1) as Hinv2 end.
    destruct (Create _ _ _ _ _) as [v T]. simpl in Hinv2. rewrite <-H2 in Hinv2 |- *.
    by destruct (data s2).
  - simpl. by rewrite H2.
Qed.

(** ** Native peers *)

(** What [validate_native] has checked of the peers it returns. *)
Definition native_wf (N : list NativeWireGuardPeer) : Prop :=
  NoDup (map np_PublicKey N) /\ NoDup (map np_TunnelIP N) /\
  forall peer, peer ∈ N ->
    CanonicalPublicKey (np_PublicKey peer) = Some (np_PublicKey peer) /\
    exists a, ParseAddr (np_TunnelIP peer) = Some a /\ np_TunnelIP peer = addr_String a.

Lemma validate_peers_wf prefix policies tunnels names ks ips l N :
  validate_peers prefix policies tunnels names ks ips l = Ok N ->
  native_wf N /\ forall peer, peer ∈ N -> (np_PublicKey peer ∉ ks) /\ (np_TunnelIP peer ∉ ips).
Proof.
  revert names ks ips N. induction l as [|peer l IH]; intros names ks ips N Hv; simpl in Hv.
  { injection Hv as <-. split; [split; [constructor|split; [constructor|]]|]; by intros peer Hin%elem_of_nil. }
  destruct (_ || _ || _); [done|]. destruct (bool_decide (np_Name peer ∈ names)); [done|].
  destruct (CanonicalPublicKey (np_PublicKey peer)) as [k|] eqn:Hk; [|done].
  destruct (bool_decide (k ∈ ks)) eqn:Hks; [done|]. destruct (decodeKey k); [|done].
  destruct (ParseAddr (np_TunnelIP peer)) as [a|] eqn:Ha; [|done].
  destruct (negb (Contains prefix a)); [done|]. destruct (bool_decide (a = _)); [done|].
  destruct (bool_decide (addr_String a ∈ ips)) eqn:Hips; [done|]. destruct (_ && _); [done|].
  destruct (negb _); [done|]. apply res_bind_ok in Hv as (rest & Hrest & Hv). injection Hv as <-.
  destruct (IH _ _ _ _ Hrest) as [(Hnd & Hndip & Hwf) Hnew]. bool_to_prop.
  split; [split; [simpl|split; [simpl|]]|].
  - constructor; [|done]. intros (x & Heq & Hin)%list_elem_of_In%in_map_iff. apply list_elem_of_In in Hin.
    apply (proj1 (Hnew x Hin)). rewrite Heq. set_solver.
  - constructor; [|done]. intros (x & Heq & Hin)%list_elem_of_In%in_map_iff. apply list_elem_of_In in Hin.
    apply (proj2 (Hnew x Hin)). rewrite Heq. set_solver.
  - intros x [->|Hin]%elem_of_cons; [|by apply Hwf]. simpl. split; [by eapply CanonicalPublicKey_idemp|].
    exists a. split; [|done]. apply ParseAddr_wf in Ha as [Ha1 Ha2]. by apply parse_printed.
  - intros x [->|Hin]%elem_of_cons; [by split|]. specialize (Hnew x Hin). set_solver.
Qed.

Lemma validate_native_wf enabled prefix policies tunnels l N :
  validate_native enabled prefix policies tunnels l = Ok N -> native_wf N /\ (enabled = false -> N = []).
Proof.
  unfold validate_native. destruct enabled; simpl.
  - intros Hv. split; [by eapply validate_peers_wf|done].
  - destruct l as [|peer l]; [|done]. simpl. intros [= <-]. split; [|done]. split; [constructor|split; [constructor|]].
    by intros peer Hin%elem_of_nil.
Qed.

Definition forget (peer : NativeWireGuardPeer) (P : gmap (list byte) string) : gmap (list byte) string :=
  match decodeKey (np_PublicKey peer) with Some raw => delete raw P | None => P end.

Definition install (e : env) (peer : NativeWireGuardPeer) (P : gmap (list byte) string) :
    gmap (list byte) string :=
  match decodeKey (np_PublicKey peer), ParseAddr (np_TunnelIP peer) with
  | Some raw, Some ip => if device_ok e (np_PublicKey peer) then <[raw := addr_String ip]> P else P
  | _, _ => P
  end.

Lemma reconcile_state e old next s :
  reconcileNativePeers e old next s =
  with_data (set_peers (fun P => foldl (fun P peer => install e peer P) (foldl (fun P peer => forget peer P) P old) next)) s.
Proof.
  unfold reconcileNativePeers. destruct (data s) as [d|] eqn:Hd; [|unfold with_data; rewrite Hd; by destruct s; simpl in *; subst].
  assert (Hid : forall s', data s' <> None -> s' = with_data (set_peers (fun P => P)) s').
  { intros s' _. destruct s' as [c T n r [d'|] o u]; [|done]. by destruct d'. }
  assert (Hrem : forall l s', data s' <> None ->
            foldl (fun s peer => removePeer (np_PublicKey peer) s) s' l =
            with_data (set_peers (fun P => foldl (fun P peer => forget peer P) P l)) s').
  { induction l as [|peer l IH]; intros s' Hs'; [by apply Hid|]. simpl.
    assert (removePeer (np_PublicKey peer) s' = with_data (set_peers (forget peer)) s') as ->.
    { unfold removePeer, forget. destruct (decodeKey _); [done|]. by apply Hid. }
    rewrite IH; [|destruct s' as [????[?|]??]; done]. destruct s' as [c T n r [d'|] o u]; done. }
  assert (Hadd : forall l s', data s' <> None ->
            foldl (fun s peer => add_native e peer s) s' l =
            with_data (set_peers (fun P => foldl (fun P peer => install e peer P) P l)) s').
  { induction l as [|peer l IH]; intros s' Hs'; [by apply Hid|]. simpl.
    assert (add_native e peer s' = with_data (set_peers (install e peer)) s') as ->.
    { unfold add_native, install. destruct (decodeKey _); [|by apply Hid].
      destruct (ParseAddr _); [|by apply Hid]. destruct (device_ok _ _); [done|by apply Hid]. }
    rewrite IH; [|destruct s' as [????[?|]??]; done]. destruct s' as [c T n r [d'|] o u]; done. }
  rewrite Hrem, Hadd by (destruct s as [????[?|]??]; done).
  destruct s as [c T n r [d'|] o u]; done.
Qed.

Lemma lookup_forget (l : list NativeWireGuardPeer) (P : gmap (list byte) string) raw ip :
  foldl (fun P peer => forget peer P) P l !! raw = Some ip <->
  P !! raw = Some ip /\ forall peer, peer ∈ l -> decodeKey (np_PublicKey peer) <> Some raw.
Proof.
  revert P. induction l as [|peer l IH]; intros P; simpl; [set_solver|].
  rewrite IH. setoid_rewrite elem_of_cons. unfold forget.
  destruct (decodeKey (np_PublicKey peer)) as [r|] eqn:E; [rewrite lookup_delete_Some|];
    naive_solver congruence.
Qed.

Lemma lookup_install_other (e : env) (l : list NativeWireGuardPeer) (P : gmap (list byte) string) raw :
  (forall peer, peer ∈ l -> decodeKey (np_PublicKey peer) <> Some raw) ->
  foldl (fun P peer => install e peer P) P l !! raw = P !! raw.
Proof.
  revert P. induction l as [|peer l IH]; intros P Hl; simpl; [done|].
  rewrite IH by (intros; apply Hl; by right). unfold install. specialize (Hl peer ltac:(by left)).
  destruct (decodeKey _); [|done]. destruct (ParseAddr _); [|done]. destruct (device_ok _ _); [|done].
  rewrite lookup_insert_ne; [done|congruence].
Qed.

Lemma native_raw_inj N peer peer' raw :
  native_wf N -> peer ∈ N -> peer' ∈ N -> decodeKey (np_PublicKey peer) = Some raw ->
  decodeKey (np_PublicKey peer') = Some raw -> np_PublicKey peer = np_PublicKey peer'.
Proof.
  intros (_ & _ & Hwf) Hin Hin' Hr Hr'. eapply canonical_raw; [by apply Hwf|by apply Hwf|done..].
Qed.

Lemma lookup_install (e : env) (N : list NativeWireGuardPeer) (P : gmap (list byte) string) peer raw a :
  (forall k, device_ok e k = true) -> native_wf N -> peer ∈ N ->
  decodeKey (np_PublicKey peer) = Some raw -> ParseAddr (np_TunnelIP peer) = Some a ->
  foldl (fun P peer => install e peer P) P N !! raw = Some (addr_String a).
Proof.
  intros Hdev. revert P. induction N as [|x N IH]; intros P (Hnd & Hndip & Hwf) Hin Hraw Ha; [by apply elem_of_nil in Hin|].
  simpl in Hnd, Hndip. apply NoDup_cons in Hnd as [Hnx Hnd]. apply NoDup_cons in Hndip as [_ Hndip]. simpl.
  apply elem_of_cons in Hin as [<-|Hin].
  - rewrite lookup_install_other.
    + unfold install. rewrite Hraw, Ha, Hdev. apply lookup_insert_eq.
    + intros x Hx Hr. apply Hnx. apply list_elem_of_In, in_map_iff. exists x.
      split; [|by apply list_elem_of_In]. eapply canonical_raw; [apply Hwf; by right|apply Hwf; by left|done..].
  - apply IH; [|done..]. split; [done|]. split; [done|]. intros y Hy. apply Hwf. by right.
Qed.

Lemma reconcile_ok ex p N N' e s :
  inv ex p N s -> (forall t v, sessions s !! t = Some v -> conflicts N' v = false) ->
  (ex = true -> native_wf N' /\ forall k, device_ok e k = true) ->
  inv ex p N' (reconcileNativePeers e N N' s).
Proof.
  intros (d & Hd & Hok & Hex) Hconf Hdev. rewrite reconcile_state.
  set (P' := foldl (fun P peer => install e peer P) (foldl (fun P peer => forget peer P) (peers d) N) N').
  exists (set_peers (fun _ => P') d). simpl. rewrite Hd. split; [done|].
  assert (Hsess : forall t v raw ip, sessions s !! t = Some v -> decodeKey (ss_WireGuardPublicKey v) = Some raw ->
            P' !! raw = Some ip <-> peers d !! raw = Some ip).
  { intros t v raw ip Hv Hraw. pose proof (so_key _ _ _ (tb_sessions _ _ _ _ Hok t v Hv)) as Hk. unfold P'.
    rewrite lookup_install_other by (intros peer Hin; by eapply conflicts_raw; eauto).
    rewrite lookup_forget. split; [tauto|]. intros Hp. split; [done|]. intros peer Hin.
    eapply conflicts_raw; [by eapply tb_native|done|done|done]. }
  split.
  - pose proof Hok as [Hf Hs Hi Hk Hip Hn Hx]. split; try done. intros t v Hv.
    destruct (Hs t v Hv) as [Hkey Haddr (raw & Hraw & Hpeer)]. split; [done|done|]. exists raw.
    split; [done|]. simpl. by rewrite (Hsess t v).
  - intros He. specialize (Hex He). destruct (Hdev He) as [Hwf Hd'].
    intros raw ip. simpl. split.
    + intros HP. destruct (decide (Exists (fun peer => decodeKey (np_PublicKey peer) = Some raw) N')) as [Hin|Hno].
      * apply Exists_exists in Hin as (peer & Hin & Hraw). right.
        destruct (proj2 (proj2 Hwf) peer Hin) as (_ & a & Ha & _). unfold P' in HP.
        rewrite (lookup_install e N' _ peer raw a) in HP by done. exists peer, a. naive_solver.
      * assert (Hnr : forall peer, peer ∈ N' -> decodeKey (np_PublicKey peer) <> Some raw).
        { intros peer Hin Hr. apply Hno. apply Exists_exists. eauto. }
        unfold P' in HP. rewrite lookup_install_other in HP by done. apply lookup_forget in HP as [HP Hno0].
        apply Hex in HP as [Hp|(peer & a & Hin & Hraw & _)]; [by left|]. by destruct (Hno0 peer Hin).
    + intros [(t & v & Hv & Hraw & Hip)|(peer & a & Hin & Hraw & Ha & ->)].
      * apply (Hsess t v raw ip Hv Hraw). apply Hex. left. exists t, v. eauto.
      * by eapply lookup_install.
Qed.

(** ** Every operation keeps the invariant *)
Lemma inv_ext ex p N s s' :
  sessions s' = sessions s -> data s' = data s -> inv ex p N s -> inv ex p N s'.
Proof. intros HT Hd (d & Hd0 & Hok & Hex). exists d. by rewrite Hd, HT. Qed.

Lemma env_ok_ext ex e s s' : sessions s' = sessions s -> env_ok ex e s -> env_ok ex e s'.
Proof. intros HT Henv. eapply env_ok_sub; [done|]. by rewrite HT. Qed.

Lemma allowSource_state e remote s :
  let s' := (allowSource e remote s).2 in
  sessions s' = sessions s /\ data s' = data s /\ config s' = config s /\ nonces s' = nonces s.
Proof. unfold allowSource. by destruct (SourceLimiter.Allow _ _ _ _). Qed.

Definition keeps (ex : bool) (s s' : Server) : Prop := server_inv ex s' /\ config s' = config s.

Lemma keeps_refl ex s : server_inv ex s -> keeps ex s s.
Proof. done. Qed.

Lemma keeps_ext ex s s' :
  server_inv ex s -> sessions s' = sessions s -> data s' = data s -> config s' = config s -> keeps ex s s'.
Proof.
  intros (p & Hp & Hinv) HT Hd Hc. split; [|done]. exists p. rewrite Hc. split; [done|]. by eapply inv_ext.
Qed.

Lemma establishSession_keeps ex e req gs s :
  server_inv ex s -> env_ok ex e s -> keeps ex s (establishSession e req gs s).1.2.
Proof.
  intros (p & Hp & Hinv) Henv. destruct (establishSession_inv ex e p req gs s Hp Hinv Henv) as [Hinv' Hc].
  split; [|done]. exists p. by rewrite Hc.
Qed.

Lemma dropped_keeps ex D s s' : dropped D s s' -> server_inv ex s -> keeps ex s s'.
Proof.
  intros Hd (p & Hp & Hinv). pose proof (dr_config _ _ _ Hd) as Hc. split; [|done]. exists p. rewrite Hc.
  split; [done|]. by eapply dropped_ok.
Qed.

Lemma keeps_trans ex s s' s'' : keeps ex s s' -> keeps ex s' s'' -> keeps ex s s''.
Proof. intros [_ Hc] [Hi Hc']. split; [done|congruence]. Qed.

Lemma auth_keeps ex e remote body s :
  server_inv ex s -> env_ok ex e s -> keeps ex s (auth e remote body s).1.2.
Proof.
  intros Hinv Henv. unfold auth. pose proof (allowSource_state e remote s) as (HT & Hd & Hc & _).
  destruct (allowSource e remote s) as [ok s1]. simpl in HT, Hd, Hc.
  pose proof (keeps_ext ex s s1 Hinv HT Hd Hc) as Hk. pose proof (env_ok_ext _ _ _ _ HT Henv) as Henv1.
  destruct (negb ok); [done|]. destruct body as [a|]; [|done]. destruct (negb _); [done|].
  destruct (ValidateRequiredCapabilities _ _); [|done]. destruct (skewed _ _); [done|].
  destruct (ParsePublicString _) as [key|]; [|done]. destruct (authorizedEntry _ _) as [comment|]; [|done].
  destruct (negb _); [done|]. destruct (NonceCache.Use _ _ _ _) as [fresh n].
  pose proof (keeps_ext ex s1 (with_nonces n s1) (proj1 Hk) eq_refl eq_refl eq_refl) as Hk2.
  destruct (negb fresh); [by eapply keeps_trans|]. eapply keeps_trans; [exact Hk|].
  eapply keeps_trans; [exact Hk2|]. apply establishSession_keeps; [apply Hk2|].
  by eapply env_ok_ext.
Qed.

Lemma authOIDC_keeps ex e verified remote body s :
  server_inv ex s -> env_ok ex e s -> keeps ex s (authOIDC e verified remote body s).1.2.
Proof.
  intros Hinv Henv. unfold authOIDC. pose proof (allowSource_state e remote s) as (HT & Hd & Hc & _).
  destruct (allowSource e remote s) as [ok s1]. simpl in HT, Hd, Hc.
  pose proof (keeps_ext ex s s1 Hinv HT Hd Hc) as Hk. pose proof (env_ok_ext _ _ _ _ HT Henv) as Henv1.
  destruct (negb ok); [done|]. destruct body as [a|]; [|done]. destruct (negb _); [done|].
  destruct (ValidateRequiredCapabilities _ _); [|done]. destruct (skewed _ _); [done|].
  destruct (negb (has_oidc s1)); [done|]. destruct (verified _ _) as [id|]; [|done].
  eapply keeps_trans; [exact Hk|]. apply establishSession_keeps; [apply Hk|done].
Qed.

Lemma Get_Some now t T v : Get now t T = Some v -> T !! t = Some v /\ expired now v = false.
Proof. unfold Get. destruct (T !! t) as [w|]; [|done]. destruct (expired now w) eqn:E; [done|]. by intros [= <-]. Qed.

Lemma filed_of ex s : server_inv ex s -> filed (sessions s).
Proof. intros (p & _ & d & _ & Hok & _). apply Hok. Qed.

Lemma drop_token_keeps ex s t old :
  server_inv ex s -> sessions s !! t = Some old -> keeps ex s (dropSession old (with_sessions (delete t) s)).1.
Proof.
  intros Hinv Hold. eapply dropped_keeps; [|done]. apply dropped_one; [by eapply filed_of|done].
Qed.

Lemma disconnect_keeps ex e token s : server_inv ex s -> keeps ex s (disconnect e token s).1.2.
Proof.
  intros Hinv. unfold disconnect. destruct (Get _ _ _) as [old|] eqn:Hg; [|done]. apply Get_Some in Hg as [Hold _].
  pose proof (drop_token_keeps ex s token old Hinv Hold) as Hk.
  by destruct (dropSession old _).
Qed.

Lemma revoke_keeps ex e header id s :
  server_inv ex s -> ranges (session_order e) -> keeps ex s (revokeSession e header id s).1.2.
Proof.
  intros Hinv Hord. unfold revokeSession. destruct (negb _); [done|]. unfold DeleteByID, FindID. destruct (find_live _ _ _ _) as [old|] eqn:Hf; [|done].
  apply find_live_Some in Hf as ([t Hold] & _ & _); [|done].
  rewrite <-(filed_of _ _ Hinv _ _ Hold) in Hold. pose proof (drop_token_keeps ex s _ old Hinv Hold) as Hk.
  change (with_sessions (fun _ => delete (ss_Token old) (sessions s)) s)
    with (with_sessions (delete (ss_Token old)) s). by destruct (dropSession old _).
Qed.

Lemma reapSessions_keeps ex e s :
  server_inv ex s -> ranges (session_order e) -> keeps ex s (reapSessions e s).1.
Proof. intros Hinv Hord. eapply dropped_keeps; [|done]. by apply dropped_reap. Qed.

(** Taking a session out of the table leaves its peer pending for the
    session that follows it. *)
Lemma removed_pending ex p s old :
  tunnel_prefix (config s) p -> inv ex p (natives (config s)) s ->
  sessions s !! ss_Token old = Some old ->
  pending ex p (natives (config s)) (ss_WireGuardPublicKey old) (ss_TunnelIP old)
    (with_sessions (delete (ss_Token old)) s).
Proof.
  intros Hp Hinv Hold. pose proof Hinv as (d & Hd & Hok & Hex).
  pose proof (tb_sessions _ _ _ _ Hok _ _ Hold) as [Hk Ha (raw & Hraw & Hpeer)].
  pose proof (dropped_one _ _ s (tb_filed _ _ _ _ Hok) Hold) as Hdrop.
  pose proof (dropped_ok ex _ _ _ _ _ Hdrop Hinv) as (dx & Hdx & Hokx & Hexx).
  rewrite dropSession_state in Hdx, Hokx, Hexx. simpl in Hdx, Hokx, Hexx. rewrite Hd in Hdx. simpl in Hdx.
  unfold remove_key in Hdx. rewrite Hraw in Hdx. injection Hdx as <-.
  exists (set_peers (delete raw) d), raw. simpl. rewrite Hd. split.
  { unfold set_peers. simpl. rewrite insert_delete_eq, insert_id by done. by destruct d. }
  split; [done|]. split; [done|]. split; [|split; [done|split; [done|split; [done|]]]].
  - intros t v [Hne Hv]%lookup_delete_Some. split; intros Heq; apply Hne.
    + eapply (tb_keys _ _ _ _ Hok); [done..|congruence].
    + eapply (tb_addrs _ _ _ _ Hok); [done..|congruence].
  - intros v Hvk Hvip. rewrite <-(tb_native _ _ _ _ Hok _ _ Hold). unfold conflicts. by rewrite Hvk, Hvip.
Qed.

Lemma addPeer_same e k ip s d raw :
  data s = Some d -> decodeKey k = Some raw -> peers d !! raw = Some ip ->
  let s' := (addPeer e k ip s).2 in
  sessions s' = sessions s /\ data s' = data s /\ config s' = config s.
Proof.
  intros Hd Hraw Hpeer. unfold addPeer. rewrite Hd, Hraw. destruct (ParseAddr ip); [|done].
  destruct (device_ok e k); [|done]. simpl. rewrite Hd. simpl. unfold set_peers.
  rewrite insert_id by done. by destruct d.
Qed.

Lemma renew_keeps ex e token body s :
  server_inv ex s -> env_ok ex e s -> keeps ex s (renew e token body s).1.2.
Proof.
  intros Hinv Henv. unfold renew. destruct (Get (t_since _) _ _); [|done]. destruct body as [info|]; [|done].
  destruct (Get (t_first _) _ _) as [old|] eqn:Hg; [|done]. apply Get_Some in Hg as [Hold _].
  destruct (authorize _ _ _) as [[gs ttl]|].
  2: { pose proof (drop_token_keeps ex s token old Hinv Hold) as Hk. by destruct (dropSession old _). }
  pose proof (filed_of _ _ Hinv _ _ Hold) as Htok. subst token. destruct Hinv as (p & Hp & Hinv).
  pose proof (removed_pending ex p s old Hp Hinv Hold) as Hpend.
  assert (Henv1 : env_ok ex e (with_sessions (delete (ss_Token old)) s)).
  { eapply env_ok_sub; [done|]. simpl. by intros t v [_ Hv]%lookup_delete_Some. }
  match goal with |- context [Create _ _ _ ?q _] =>
    pose proof (Create_fills ex p _ e (t_create (clk e)) q _ Henv1 Hpend) as Hinv2;
    destruct (Create (new_id e) (new_token e) (t_create (clk e)) q _) as [n table] end.
  cbn [snd] in Hinv2.
  assert (Hsame : let s2 := with_sessions (fun _ => table) (with_sessions (delete (ss_Token old)) s) in
            let s' := (addPeer e (ss_WireGuardPublicKey old) (ss_TunnelIP old) s2).2 in
            sessions s' = sessions s2 /\ data s' = data s2 /\ config s' = config s2).
  { destruct Hinv as (d & Hd & Hok & _). destruct (tb_sessions _ _ _ _ Hok _ _ Hold) as [_ _ (raw & Hraw & Hpeer)].
    by apply (addPeer_same e _ _ _ d raw). }
  cbv zeta in Hsame. destruct Hsame as (HT & Hd & Hc).
  assert (Hk2 : keeps ex s (with_sessions (fun _ => table) (with_sessions (delete (ss_Token old)) s))).
  { split; [|done]. exists p. done. }
  cbv zeta. destruct (negb _); [|exact Hk2]. eapply keeps_trans; [exact Hk2|]. by apply keeps_ext; [apply Hk2|..].
Qed.

(** *** Reload *)

(** What a configuration has passed before [Reload]. *)
Definition config_valid (c : Config) : Prop :=
  exists prefix policies tunnels l,
    validate_native (cf_NativeEnabled c) prefix policies tunnels l = Ok (cf_NativePeers c).

Lemma config_valid_natives c : config_valid c -> natives c = cf_NativePeers c /\ native_wf (cf_NativePeers c).
Proof.
  intros (prefix & policies & tunnels & l & Hv). apply validate_native_wf in Hv as [Hwf Hdis].
  split; [|done]. unfold natives. destruct (cf_NativeEnabled c); [done|]. by rewrite Hdis.
Qed.

(** The configuration a reload leaves. *)
Definition reloaded (c : Config) (s : Server) : Config :=
  mkServerConfig (cf_MaxSessionsPerKey c) (cf_SessionTTL c) (cf_Tunnels c)
    (cf_NativeEnabled c) (cf_NativePeers c) (cf_TunnelCIDR (config s)) (cf_Issuers c)
    (cf_WebhookURL c) (cf_Exec c) (cf_MultipathEnabled c) (cf_PortalEnabled c) (cf_WebUIToken c)
    (cf_ListenName (config s)).

Lemma Reload_inv ex e c s :
  server_inv ex s -> env_ok ex e s -> config_valid c ->
  server_inv ex (Reload e c s).1 /\ config (Reload e c s).1 = reloaded c s.
Proof.
  intros (p & Hp & Hinv) Henv Hvalid. unfold Reload. fold (reloaded c s).
  destruct (config_valid_natives c Hvalid) as [Hnat Hwf].
  match goal with |- context [drop_loop (conflicts _) _ ?s0] => set (s0' := s0) end.
  assert (Hinv0 : inv ex p (natives (config s)) s0') by (by eapply inv_ext; [..|exact Hinv]).
  assert (Hp' : tunnel_prefix (reloaded c s) p) by (by destruct Hp).
  destruct (if cf_NativeEnabled (reloaded c s) then _ else _) as [s1 evs] eqn:H1.
  assert (Hs1 : inv ex p (natives (config s)) s1 /\ config s1 = reloaded c s /\
                forall t v, sessions s1 !! t = Some v -> conflicts (natives c) v = false).
  { simpl in H1. unfold natives at 2. destruct (cf_NativeEnabled c).
    - apply (f_equal fst) in H1. simpl in H1.
      assert (Hf : filed (sessions s0')) by (destruct Hinv as (d & _ & Hok & _); apply Hok).
      pose proof (dropped_loop (session_order e) (conflicts (cf_NativePeers c)) s0' (eo_order _ _ _ Henv) Hf) as Hdrop.
      change (sessions s0') with (sessions s) in Hdrop. rewrite H1 in Hdrop.
      split; [by eapply dropped_ok|]. split; [apply Hdrop|].
      intros t v Hv. by apply (dr_sessions _ _ _ Hdrop) in Hv as [_ Hv].
    - injection H1 as <- <-. split; [done|]. split; [done|]. by intros t v _. }
  destruct Hs1 as (Hinv1 & Hc1 & Hconf).
  match goal with |- context [drop_loop (revoked _ _) _ ?s2] => set (s2' := s2) end.
  assert (Hs2 : inv ex p (natives c) s2' /\ config s2' = reloaded c s).
  { unfold s2'. simpl. clear s2'.
    destruct (negb (Bool.eqb _ _) || negb _) eqn:Hch.
    - change (if cf_NativeEnabled (config s) then cf_NativePeers (config s) else []) with (natives (config s)).
      change (if cf_NativeEnabled c then cf_NativePeers c else []) with (natives c).
      split; [|by rewrite reconcile_state]. apply reconcile_ok; [done|done|].
      intros He. rewrite Hnat. split; [done|]. by apply (eo_device _ _ _ Henv).
    - apply orb_false_iff in Hch as [He Hl]. apply negb_false_iff in He, Hl.
      apply Bool.eqb_prop in He. apply bool_decide_eq_true in Hl.
      assert (natives (config s) = natives c) as <- by (unfold natives; by rewrite He, Hl). done. }
  destruct Hs2 as [Hinv2 Hc2].
  assert (Hf2 : filed (sessions s2')) by (destruct Hinv2 as (d & _ & Hok & _); apply Hok).
  pose proof (dropped_loop (session_order e) (revoked e (reloaded c s)) s2' (eo_order _ _ _ Henv) Hf2) as Hdrop.
  destruct (drop_loop _ _ s2') as [s3 evs']. simpl in Hdrop |- *. rewrite (dr_config _ _ _ Hdrop), Hc2.
  split; [|done]. exists p. rewrite (dr_config _ _ _ Hdrop), Hc2. split; [done|]. by eapply dropped_ok.
Qed.
End table.
