(* ===== verification/ServerToy.v ===== *)
(** A concrete instance of what the server takes from outside, and one run of
    it: two users of a prefix of eight addresses, one native peer, a renewal,
    a reload and a disconnect.  The theorems of [ServerSteps] and
    [ServerOps] are evaluated on it. *)
From S2P Require Import Prelude Bytes Netip Protocol AuthLimit WgKeys Sessions IpPool Egress ServerAuth ServerTable.

(** ** Keys and addresses *)

(** A key signs anything with its own text; every key file says the comment
    is "alice" but that of "bob". *)
#[export] Instance toy_keys : KeyOps := {|
  PublicKey := string;
  ParsePublicString s := if (s =? "")%string then None else Some s;
  ParsePublic b := Some (str_of b, if (str_of b =? "bob")%string then "bob"%string else "alice"%string);
  Fingerprint k := ("SHA256:" ++ k)%string;
  Digest k := k;
  Verify k _ sig := (sig =? k)%string;
  ParseTimestamp s :=
    if (s =? "t0")%string then Some 0 else if (s =? "t9")%string then Some (9 * minute) else None;
|}.

(** Addresses print as a family byte and their bytes. *)
Definition toy_String (a : Addr) : string :=
  match a with
  | AddrNone => ""
  | Addr4 x => str_of (x34 :: put_be 4 x)
  | Addr6 x z => str_of (x36 :: put_be 16 x ++ bytes_of z)
  end.

Definition toy_ParseAddr (s : string) : option Addr :=
  match bytes_of s with
  | x34 :: l => if (length l =? 4)%nat then Some (Addr4 (be_val l)) else None
  | x36 :: l =>
      if (16 <=? length l)%nat then Some (Addr6 (be_val (firstn 16 l)) (str_of (skipn 16 l))) else None
  | _ => None
  end.

Definition toy_ParsePrefix (s : string) : option Prefix :=
  match bytes_of s with
  | [x34; a; b; c; d; n] =>
      let p := {| p_addr := Addr4 (be_val [a; b; c; d]); p_bits := byte_val n |} in
      if prefix_wf p then Some p else None
  | _ => None
  end.

Lemma toy_ParseAddr_String a : addr_wf a = true -> addr_IsValid a = true -> toy_ParseAddr (toy_String a) = Some a.
Proof.
  intros Ha Hv. unfold toy_ParseAddr, toy_String. destruct a as [|x|x z]; [done|..];
    rewrite bytes_of_str_of; unfold addr_wf in Ha; bool_to_prop.
  - rewrite length_put_be. simpl Nat.eqb. cbv iota. rewrite be_val_put; [done|]. lia.
  - rewrite length_app, length_put_be. destruct (Nat.leb_spec 16 (16 + length (bytes_of z))); [|lia].
    rewrite firstn_app, skipn_app, length_put_be, Nat.sub_diag.
    rewrite (firstn_all2 (put_be 16 x)), (skipn_all2 (put_be 16 x)) by (rewrite length_put_be; lia).
    simpl firstn. simpl skipn. rewrite app_nil_r. simpl app.
    rewrite be_val_put by lia.
    by rewrite drop_0, str_of_bytes_of.
Qed.

Lemma toy_ParseAddr_wf s a : toy_ParseAddr s = Some a -> addr_wf a = true /\ addr_IsValid a = true.
Proof.
  unfold toy_ParseAddr. destruct (bytes_of s) as [|b l]; [done|]. destruct b; try done.
  - destruct (Nat.eqb_spec (length l) 4) as [Hl|]; [|done]. intros [= <-]. split; [|done].
    by apply (AddrFrom4_wf l).
  - destruct (Nat.leb_spec 16 (length l)) as [Hl|]; [|done]. intros [= <-]. split; [|done].
    unfold addr_wf. pose proof (be_val_range (firstn 16 l)) as Hr. unfold Zlen in Hr.
    rewrite length_firstn, Nat.min_l in Hr by done. apply andb_true_iff. rewrite Z.leb_le, Z.ltb_lt.
    change (256 ^ Z.of_nat 16) with (2 ^ 128) in Hr. lia.
Qed.

Lemma toy_ParsePrefix_wf s p : toy_ParsePrefix s = Some p -> prefix_wf p = true.
Proof.
  unfold toy_ParsePrefix. repeat (case_match; try done). by intros [= <-].
Qed.

(** Text with one colon. *)
Definition toy_split (s : string) : option (string * string) :=
  match String.index 0 ":" s with
  | Some i => Some (String.substring 0 i s, String.substring (S i) (String.length s) s)
  | None => None
  end.

#[export] Instance toy_text : AddrText := {|
  addr_String := toy_String;
  ParseAddr := toy_ParseAddr;
  ParsePrefix := toy_ParsePrefix;
  SplitHostPort _ := None;
  ParseAddr_String := toy_ParseAddr_String;
  ParseAddr_wf := toy_ParseAddr_wf;
  ParsePrefix_wf := toy_ParsePrefix_wf;
|}.

(** ** A configuration and its users *)
Definition wg_key (b : byte) : string := str_of (EncodeToString (replicate 32 b)).

Definition toy_tunnel (name : string) (allow : list string) : TunnelConfig :=
  mkTunnel name "10.0.0.1:80" "" 80 "tcp" 0 0 "" allow "" "" "".

(** A prefix of eight addresses; one of them is a native peer's. *)
Definition toy_config (allow : list string) : Config :=
  mkServerConfig 2 (15 * minute) [toy_tunnel "web" allow; toy_tunnel "ssh" ["*"]] true
    [mkNativePeer "printer" (wg_key x09) (toy_String (v4 100 64 0 6)) ["web"] ""]
    (str_of [x34; x64; x40; x00; x00; x1d]) [] "" "" true false "" "".

Definition toy_prefix : Prefix := {| p_addr := v4 100 64 0 0; p_bits := 29 |}.

Definition toy_info : ClientInfo :=
  {| ci_OS := ""; ci_Arch := ""; ci_Hostname := ""; ci_Username := ""; ci_ClientVersion := "";
     ci_LatencyMillis := 0; ci_Reconnections := 0; ci_Extra := ∅; ci_PortalCapabilities := [] |}.

Definition toy_request (user : string) (key : byte) (nonce ts : string) : AuthRequest :=
  {| ar_Version := Version; ar_PublicKey := user; ar_WireGuardPublicKey := wg_key key;
     ar_Timestamp := ts; ar_Nonce := nonce; ar_Info := toy_info; ar_Signature := user;
     ar_TransportCapabilities := []; ar_RequiredTransportCapabilities := []; ar_QueryOnly := false |}.

Definition toy_env (t : Z) (id token : string) : env :=
  mkEnv (mkClock t t t t t t t t t) map_keys map_keys map_keys []
    (Some [mkEntry false (Some (bytes_of "alice")); mkEntry false (Some (bytes_of "bob"))])
    None (fun _ => true) id token false false "" "".

Definition fresh_in (id token : string) (T : Sessions) : bool :=
  bool_decide (T !! token = None) && forallb (fun v => negb (ss_ID v =? id)%string) (map snd (map_to_list T)).

Lemma toy_env_ok ex t id token s : fresh_in id token (sessions s) = true -> env_ok ex (toy_env t id token) s.
Proof.
  intros [Ht Hid]%andb_true_iff. split; simpl; [apply ranges_map_keys|lia| |..|done].
  - by apply bool_decide_eq_true in Ht.
  - intros k v Hv Heq. rewrite forallb_forall in Hid. specialize (Hid v).
    rewrite Heq, String.eqb_refl in Hid. simpl in Hid. discriminate Hid.
    apply in_map_iff. exists (k, v). split; [done|]. apply list_elem_of_In. by apply elem_of_map_to_list.
Qed.

Lemma toy_tunnel_prefix allow : tunnel_prefix (toy_config allow) toy_prefix.
Proof.
  split; [exists toy_prefix; split; vm_compute; reflexivity|]. intros [|a|a z] _ Hc; done.
Qed.

Lemma toy_valid allow : config_valid (toy_config allow).
Proof.
  exists toy_prefix, ∅, {["web"%string]}, (cf_NativePeers (toy_config allow)). vm_compute. reflexivity.
Qed.
