(* ===== verification/ServerSteps.v ===== *)
(** Sequences of the server's operations: what holds after any of them of
    the sessions, their tunnel addresses and WireGuard peers, the cap on
    sessions and the use of nonces; and what each operation answers. *)
From S2P Require Import Prelude Bytes Netip Protocol AuthLimit WgKeys Sessions IpPool Egress ServerAuth ServerTable ServerToy.

Section steps.
Context {keys : KeyOps} {text : AddrText}.

(** ** Operations and their sequences *)
Inductive op :=
  | OpAuth (remote : string) (body : option AuthRequest)
  | OpAuthOIDC (verified : string -> string -> option Identity) (remote : string) (body : option OIDCAuthRequest)
  | OpRenew (token : string) (body : option ClientInfo)
  | OpDisconnect (token : string)
  | OpRevoke (header id : string)
  | OpReap
  | OpReload (c : Config).

Definition step (e : env) (o : op) (s : Server) : response * Server * list effect :=
  match o with
  | OpAuth remote body => auth e remote body s
  | OpAuthOIDC verified remote body => authOIDC e verified remote body s
  | OpRenew token body => renew e token body s
  | OpDisconnect token => disconnect e token s
  | OpRevoke header id => revokeSession e header id s
  | OpReap => let '(s, evs) := reapSessions e s in (NoContent, s, evs)
  | OpReload c => let '(s, evs) := Reload e c s in (NoContent, s, evs)
  end.

Fixpoint after (ops : list (env * op)) (s : Server) : Server :=
  match ops with [] => s | (e, o) :: ops => after ops (step e o s).1.2 end.

(** A condition on each operation and the state it meets. *)
Fixpoint all_steps (Q : env -> op -> Server -> Prop) (ops : list (env * op)) (s : Server) : Prop :=
  match ops with
  | [] => True
  | (e, o) :: ops => Q e o s /\ all_steps Q ops (step e o s).1.2
  end.

Definition op_ok (ex : bool) (e : env) (o : op) (s : Server) : Prop :=
  env_ok ex e s /\ match o with OpReload c => config_valid c | _ => True end.

Lemma step_inv ex e o s : server_inv ex s -> op_ok ex e o s -> server_inv ex (step e o s).1.2.
Proof.
  intros Hinv [Henv Hc]. pose proof (eo_order _ _ _ Henv) as Hord. destruct o; simpl.
  - by apply auth_keeps.
  - by apply authOIDC_keeps.
  - by apply renew_keeps.
  - by apply disconnect_keeps.
  - by apply revoke_keeps.
  - pose proof (reapSessions_keeps ex e s Hinv Hord) as [Hk _]. by destruct (reapSessions e s).
  - destruct (Reload_inv ex e c s Hinv Henv Hc) as [Hk _]. by destruct (Reload e c s).
Qed.

Lemma after_inv ex ops s : server_inv ex s -> all_steps (op_ok ex) ops s -> server_inv ex (after ops s).
Proof.
  revert s. induction ops as [|[e o] ops IH]; intros s Hinv Hall; [done|]. destruct Hall as [Ho Hall].
  simpl. apply IH; [|done]. by apply step_inv.
Qed.

(** ** The server as it starts *)
Lemma install_peers_state e l s s' :
  install_peers e l s = Some s' ->
  s' = with_data (set_peers (fun P => foldl (fun P peer => install e peer P) P l)) s.
Proof.
  revert s. induction l as [|peer l IH]; intros s; simpl.
  { intros [= <-]. destruct s as [c T n r [d|] o u]; [|done]. by destruct d. }
  unfold install at 2. destruct (decodeKey _) as [raw|]; [|done]. destruct (ParseAddr _) as [ip|]; [|done].
  destruct (device_ok _ _); [|done]. intros Hs. apply IH in Hs as ->.
  destruct s as [c T n r [d|] o u]; done.
Qed.

(** A server that has come up on a valid configuration. *)
Definition started (s : Server) : Prop :=
  exists e c relay key multipath p,
    StartDataPlane e key multipath (New c relay) = Some s /\ tunnel_prefix c p /\ config_valid c /\
    (forall k, device_ok e k = true).

Lemma started_inv ex s : started s -> server_inv ex s.
Proof.
  intros (e & c & relay & key & mp & p & Hs & Hp & Hvalid & Hdev).
  assert (HnoP : forall raw ip, (∅ : gmap (list byte) string) !! raw = Some ip -> False)
    by (intros raw ip Hl; by apply lookup_empty_Some in Hl).
  assert (HnoT : forall t v, NewSessions !! t = Some v -> False)
    by (intros t v Hl; exact (lookup_empty_Some (M := gmap string) t v Hl)).
  destruct (config_valid_natives c Hvalid) as [Hnat Hwf].
  unfold StartDataPlane in Hs. simpl in Hs. pose proof Hp as [(p0 & Hp0 & Hpp) _]. rewrite Hp0, <-Hpp in Hs.
  assert (exists P, s = with_data (set_peers (fun _ => P)) (mkServer c NewSessions (NonceCache.NewNonceCache nonceTTL 0)
            (SourceLimiter.NewSourceLimiter maxAuthAttemptsPerMinute minute 0)
            (Some (mkData (Next (p_addr p)) AddrNone ∅ key mp)) (0 <? Zlen (cf_Issuers c)) relay) /\
            exact (natives c) NewSessions P) as (P & -> & Hex).
  { unfold installNativePeers in Hs. simpl in Hs. unfold natives. destruct (cf_NativeEnabled c).
    - apply install_peers_state in Hs. eexists. split; [exact Hs|].
      intros raw ip. split.
      + intros Hl. right. destruct (decide (Exists (fun peer => decodeKey (np_PublicKey peer) = Some raw) (cf_NativePeers c))) as [Hin|Hno].
        * apply Exists_exists in Hin as (peer & Hin & Hraw). destruct (proj2 (proj2 Hwf) peer Hin) as (_ & a & Ha & _).
          rewrite (lookup_install e _ _ peer raw a) in Hl by done. exists peer, a. naive_solver.
        * rewrite lookup_install_other in Hl; [by destruct (HnoP raw ip)|].
          intros peer Hin Hr. apply Hno. apply Exists_exists. eauto.
      + intros [(t & v & Hv & _)|(peer & a & Hin & Hraw & Ha & ->)]; [|by eapply lookup_install].
        by destruct (HnoT t v).
    - injection Hs as <-. exists ∅. split; [done|]. intros raw ip. split.
      + intros Hl. by destruct (HnoP raw ip).
      + intros [(t & v & Hv & _)|(peer & a & Hin & _)]; [by destruct (HnoT t v)|].
        by apply elem_of_nil in Hin. }
  exists p. split; [done|]. eexists. split; [done|]. split; [|done].
  split; try (intros t v Hv; by destruct (HnoT t v)); try (intros t t' v v' Hv; by destruct (HnoT t v)). done.
Qed.

(** A valid configuration stays in force. *)
Lemma step_config ex e o s :
  server_inv ex s -> op_ok ex e o s -> config_valid (config s) -> config_valid (config (step e o s).1.2).
Proof.
  intros Hinv [Henv Hc] Hvalid. pose proof (eo_order _ _ _ Henv) as Hord. destruct o; simpl.
  - destruct (auth_keeps ex e remote body s Hinv Henv) as [_ ->]. done.
  - destruct (authOIDC_keeps ex e verified remote body s Hinv Henv) as [_ ->]. done.
  - destruct (renew_keeps ex e token body s Hinv Henv) as [_ ->]. done.
  - destruct (disconnect_keeps ex e token s Hinv) as [_ ->]. done.
  - destruct (revoke_keeps ex e header id s Hinv Hord) as [_ ->]. done.
  - pose proof (reapSessions_keeps ex e s Hinv Hord) as [_ Hk]. destruct (reapSessions e s). simpl in *. by rewrite Hk.
  - destruct (Reload_inv ex e c s Hinv Henv Hc) as [_ Hk]. destruct (Reload e c s). simpl in *. by rewrite Hk.
Qed.

Lemma reachable_inv ex s0 ops :
  started s0 -> all_steps (op_ok ex) ops s0 ->
  server_inv ex (after ops s0) /\ config_valid (config (after ops s0)).
Proof.
  intros Hs Hall. assert (Hc : config_valid (config s0)).
  { destruct Hs as (e & c & relay & key & mp & p & Hs & Hp & Hvalid & _).
    unfold StartDataPlane in Hs. destruct (ParsePrefix _); [|done]. unfold installNativePeers in Hs. simpl in Hs.
    destruct (cf_NativeEnabled c); [apply install_peers_state in Hs as ->; done|by injection Hs as <-]. }
  pose proof (started_inv ex s0 Hs) as Hinv. clear Hs. revert s0 Hall Hc Hinv.
  induction ops as [|[e o] ops IH]; intros s0 Hall Hc Hinv; [done|]. destruct Hall as [Ho Hall]. simpl.
  apply IH; [done|by eapply step_config|by apply step_inv].
Qed.

(** ** Sessions are isolated from one another *)

(** The address of a session is none of the native peers'. *)
Lemma conflicts_addr N v peer x a :
  conflicts N v = false -> peer ∈ N -> ParseAddr (np_TunnelIP peer) = Some x ->
  ParseAddr (ss_TunnelIP v) = Some a -> Unmap x <> Unmap a.
Proof.
  intros Hc Hin Hx Ha Heq. apply not_true_iff_false in Hc. apply Hc. apply existsb_exists. exists peer.
  split; [by apply list_elem_of_In|]. rewrite Hx, Ha. simpl. apply orb_true_iff. right.
  apply andb_true_iff. split; [by apply ParseAddr_wf in Hx as [_ Hx]|]. by apply bool_decide_eq_true.
Qed.

(** C4: Sessions never share an id, a WireGuard key or a tunnel address, hold
    only addresses of the tunnel prefix that are not reserved and not a
    native peer's, and the device routes each address to its session's key:
    after any authentications, renewals, disconnects, revocations, expiries
    and reloads, whatever the device answers. *)
Theorem sessions_isolated s0 ops (Hs : started s0) (H : all_steps (op_ok false) ops s0) :
  let s := after ops s0 in
  exists p d, tunnel_prefix (config s) p /\ data s = Some d /\
  (forall t v, sessions s !! t = Some v -> exists raw a,
     decodeKey (ss_WireGuardPublicKey v) = Some raw /\ ParseAddr (ss_TunnelIP v) = Some a /\
     Contains p a = true /\ (a ∉ reserved p (serverIP d)) /\ peers d !! raw = Some (ss_TunnelIP v) /\
     forall peer, peer ∈ natives (config s) -> decodeKey (np_PublicKey peer) <> Some raw /\
       forall x, ParseAddr (np_TunnelIP peer) = Some x -> Unmap x <> a) /\
  (forall t t' v v', sessions s !! t = Some v -> sessions s !! t' = Some v' -> t <> t' ->
     ss_ID v <> ss_ID v' /\ decodeKey (ss_WireGuardPublicKey v) <> decodeKey (ss_WireGuardPublicKey v') /\
     ParseAddr (ss_TunnelIP v) <> ParseAddr (ss_TunnelIP v')).
Proof.
  intros s. destruct (reachable_inv false s0 ops Hs H) as [(p & Hp & d & Hd & Hok & _) _]. fold s in Hp, Hd, Hok.
  exists p, d. split; [done|]. split; [done|].
  pose proof (fun t v Hv => tb_sessions _ _ _ _ Hok t v Hv) as Hsess. split.
  - intros t v Hv. destruct (Hsess t v Hv) as [Hk [a Ha] (raw & Hraw & Hpeer)].
    destruct (session_addr_parse _ _ _ _ _ Hp Ha) as [Hparse Hun]. pose proof (tb_native _ _ _ _ Hok t v Hv) as Hc.
    exists raw, a. destruct Ha as (_ & _ & Hcont & Hres). repeat (split; [done|]). intros peer Hin. split.
    + by eapply conflicts_raw.
    + intros x Hx. rewrite <-Hun. by eapply conflicts_addr.
  - intros t t' v v' Hv Hv' Hne. destruct (Hsess t v Hv) as [Hk [a Ha] (raw & Hraw & _)].
    destruct (Hsess t' v' Hv') as [Hk' [a' Ha'] (raw' & Hraw' & _)].
    destruct (session_addr_parse _ _ _ _ _ Hp Ha) as [Hpa _].
    destruct (session_addr_parse _ _ _ _ _ Hp Ha') as [Hpa' _]. split; [|split]; intros Heq; apply Hne.
    + by eapply tb_ids.
    + eapply tb_keys; [done..|]. eapply canonical_raw; [done|done|exact Hraw|congruence].
    + eapply tb_addrs; [done..|]. rewrite Hpa, Hpa' in Heq. injection Heq as ->.
      destruct Ha as [-> _], Ha' as [-> _]. done.
Qed.

(** C3: When the device accepts every command, its peers are exactly those of the
    sessions and of the native peers: what ends a session (disconnect,
    revocation, expiry, refused renewal, reload) takes its peer with it in
    the same step, and no step leaves or removes any other. *)
Theorem peers_authorized s0 ops (Hs : started s0) (H : all_steps (op_ok true) ops s0) :
  let s := after ops s0 in
  exists d, data s = Some d /\ forall raw ip,
    peers d !! raw = Some ip <->
    (exists t v, sessions s !! t = Some v /\ decodeKey (ss_WireGuardPublicKey v) = Some raw /\ ss_TunnelIP v = ip) \/
    (exists peer a, (peer ∈ natives (config s)) /\ decodeKey (np_PublicKey peer) = Some raw /\
       ParseAddr (np_TunnelIP peer) = Some a /\ ip = addr_String a).
Proof.
  intros s. destruct (reachable_inv true s0 ops Hs H) as [(p & Hp & d & Hd & Hok & Hex) _].
  exists d. split; [done|]. exact (Hex eq_refl).
Qed.

(** ** Who is behind a tunnel address *)
Lemma map_inj_in {A B} (f : A -> B) (l : list A) x y :
  NoDup (map f l) -> x ∈ l -> y ∈ l -> f x = f y -> x = y.
Proof.
  induction l as [|z l IH]; intros Hnd Hx Hy Heq; [by apply elem_of_nil in Hx|].
  simpl in Hnd. apply NoDup_cons in Hnd as [Hz Hnd].
  assert (Hno : forall w, w ∈ l -> f w <> f z).
  { intros w Hw Hf. apply Hz. rewrite <-Hf. apply list_elem_of_In, in_map, list_elem_of_In. done. }
  apply elem_of_cons in Hx as [->|Hx], Hy as [->|Hy]; [done|..|eauto].
  - by destruct (Hno y Hy).
  - by destruct (Hno x Hx).
Qed.

Lemma find_Some_iff {A} (f : A -> bool) (l : list A) x :
  (forall y z, y ∈ l -> z ∈ l -> f y = true -> f z = true -> y = z) ->
  List.find f l = Some x <-> x ∈ l /\ f x = true.
Proof.
  intros Huniq. split; [intros [Hin Hf]%find_some; split; [by apply list_elem_of_In|done]|].
  intros [Hin Hf]. destruct (List.find f l) as [y|] eqn:E.
  - apply find_some in E as [Hy Hfy]. f_equal. apply Huniq; [by apply list_elem_of_In|done..].
  - apply list_elem_of_In in Hin. pose proof (find_none _ _ E x Hin). congruence.
Qed.

(** The principal behind a tunnel address is the one unexpired session that
    holds the address, with exactly its tunnels, or else the native peer
    configured for it: never another's, whatever order the tables are walked
    in. *)
Theorem principalForIP_exact s0 ops e ip pr (Hs : started s0) (H : all_steps (op_ok false) ops s0)
    (Hord : ranges (session_order e)) :
  let s := after ops s0 in
  principalForIP e ip s = Some pr <->
  (exists t v, sessions s !! t = Some v /\ t_first (clk e) < ss_Expires v /\ ss_TunnelIP v = ip /\
     pr = principal_of_session ip v) \/
  (exists peer, (peer ∈ cf_NativePeers (config s)) /\ np_TunnelIP peer = ip /\ pr = principal_of_peer ip peer).
Proof.
  intros s. destruct (reachable_inv false s0 ops Hs H) as [(p & Hp & d & Hd & Hok & _) Hvalid].
  fold s in Hp, Hd, Hok, Hvalid. destruct (config_valid_natives _ Hvalid) as [Hnat (_ & Hndip & Hwf)].
  set (live := fun v => time_before (t_first (clk e)) (ss_Expires v) && (ss_TunnelIP v =? ip)%string).
  assert (Hlive : forall v, List.find live (All (session_order e) (sessions s)) = Some v <->
            exists t, sessions s !! t = Some v /\ t_first (clk e) < ss_Expires v /\ ss_TunnelIP v = ip).
  { intros v. rewrite find_Some_iff.
    - unfold live, time_before. rewrite elem_of_All by done. rewrite andb_true_iff, Z.ltb_lt, String.eqb_eq.
      naive_solver.
    - intros y z [t Hy]%elem_of_All [t' Hz]%elem_of_All [_ Hfy]%andb_true_iff [_ Hfz]%andb_true_iff; [|done..].
      apply String.eqb_eq in Hfy, Hfz. assert (t = t') as <- by (eapply tb_addrs; [done..|congruence]).
      congruence. }
  unfold principalForIP. fold live.
  assert (Hpeer : forall peer, List.find (fun peer => (np_TunnelIP peer =? ip)%string) (cf_NativePeers (config s)) = Some peer <->
            peer ∈ cf_NativePeers (config s) /\ np_TunnelIP peer = ip).
  { intros peer. rewrite find_Some_iff; [by rewrite String.eqb_eq|].
    intros y z Hy Hz Hfy%String.eqb_eq Hfz%String.eqb_eq. eapply map_inj_in; [done..|congruence]. }
  destruct (List.find live _) as [v|] eqn:E.
  - destruct (proj1 (Hlive v) eq_refl) as (t & Hv & Hexp & Hip). split; [intros [= <-]; left; by exists t, v|].
    intros [(t' & v' & Hv' & _ & Hip' & ->)|(peer & Hin & Hpip & _)].
    + assert (t = t') as <- by (eapply tb_addrs; [done..|congruence]). congruence.
    + exfalso. destruct (Hwf peer Hin) as (_ & x & Hx & _).
      destruct (tb_sessions _ _ _ _ Hok t v Hv) as [_ [a Ha] _].
      destruct (session_addr_parse _ _ _ _ _ Hp Ha) as [Hpa Hun].
      assert (x = a) as -> by congruence.
      eapply (conflicts_addr (natives (config s)) v peer a a); [by eapply tb_native|by rewrite Hnat|done..].
  - assert (Hno : forall t v, sessions s !! t = Some v -> t_first (clk e) < ss_Expires v -> ss_TunnelIP v <> ip).
    { intros t v Hv Hexp Hip. pose proof (proj2 (Hlive v) (ex_intro _ t (conj Hv (conj Hexp Hip)))). congruence. }
    destruct (List.find _ (cf_NativePeers _)) as [peer|] eqn:Ep; simpl.
    + destruct (proj1 (Hpeer peer) eq_refl) as [Hin Hpip]. split; [intros [= <-]; right; by exists peer|].
      intros [(t & v & Hv & Hexp & Hip & _)|(peer' & Hin' & Hpip' & ->)]; [by destruct (Hno t v)|].
      do 2 f_equal. eapply map_inj_in; [done..|congruence].
    + split; [done|]. intros [(t & v & Hv & Hexp & Hip & _)|(peer & Hin & Hpip & _)]; [by destruct (Hno t v)|].
      pose proof (proj2 (Hpeer peer) (conj Hin Hpip)). congruence.
Qed.

(** ** What establishing a session does, whatever the state *)
Lemma reap_rest e now s :
  let s' := (reapSessionsLocked e now s).1 in config s' = config s /\ nonces s' = nonces s.
Proof.
  unfold reapSessionsLocked. destruct (Reap _ _ _) as [dead kept]. by rewrite dropSessions_state.
Qed.

Lemma addPeer_rest e k ip s :
  let s' := (addPeer e k ip s).2 in
  config s' = config s /\ nonces s' = nonces s /\ sessions s' = sessions s.
Proof.
  unfold addPeer. destruct (data s) as [d|]; [|done]. destruct (ParseAddr ip); [|done].
  destruct (decodeKey k); [|done]. by destruct (device_ok e k).
Qed.

Lemma allocateIP_rest e d s :
  let s' := (allocateIP e d s).2 in
  config s' = config s /\ nonces s' = nonces s /\ sessions s' = sessions s.
Proof.
  unfold allocateIP. destruct (ParsePrefix _) as [p|]; [|done]. by destruct (scan_all _ _ _).
Qed.

Lemma sub_refl s : sub_sessions s s.
Proof. by intros t v. Qed.
#[local] Hint Resolve sub_refl : core.

Lemma attach_rest e req d s :
  ranges (session_order e) ->
  let s' := (attach e req d s).1.2 in
  config s' = config s /\ nonces s' = nonces s /\ sub_sessions s' s.
Proof.
  intros Hord. unfold attach. destruct (_ =? "")%string; [done|].
  destruct (CanonicalPublicKey _) as [k|]; [|done]. destruct (is_native _ _); [done|].
  destruct (FindWireGuardPublicKey _ _ _ _) as [old|].
  - destruct (_ || _); [done|].
    pose proof (addPeer_rest e k (ss_TunnelIP old) (with_sessions (delete (ss_Token old)) s)) as (Hc & Hn & HT).
    destruct (addPeer _ _ _ _) as [[] s']; simpl in *; (split; [done|split; [done|]]);
      intros t v; rewrite HT; by intros [_ Hv]%lookup_delete_Some.
  - pose proof (reap_rest e (t_reap2 (clk e)) s) as [Hc Hn].
    pose proof (dropped_reap e (t_reap2 (clk e)) s Hord) as Hdrop.
    destruct (reapSessionsLocked _ _ s) as [s1 evs]. simpl in *.
    pose proof (allocateIP_rest e d s1) as (Hc1 & Hn1 & HT1).
    destruct (allocateIP e d s1) as [[ip|] s2]; simpl in *.
    + pose proof (addPeer_rest e k ip s2) as (Hc2 & Hn2 & HT2).
      destruct (addPeer e k ip s2) as [[] s']; simpl in *; (split; [congruence|split; [congruence|]]);
        intros t v; rewrite HT2, HT1; by eapply dropped_sub.
    + split; [congruence|split; [congruence|]]. intros t v. rewrite HT1. by eapply dropped_sub.
Qed.

(** The session [establishSession] creates. *)
Definition session_of (e : env) (req : sessionRequest) (v : Session) : Prop :=
  ss_Token v = new_token e /\ ss_ID v = new_id e /\ ss_Method v = sr_Method req /\
  ss_Identity v = sr_Identity req /\ ss_Fingerprint v = sr_Fingerprint req /\ ss_Issuer v = sr_Issuer req /\
  ss_Groups v = sr_Groups req.

Definition answered (r : response) : Prop := exists a, r = Answered a.

Lemma establishSession_cases e req gs s (Hord : ranges (session_order e)) :
  let out := establishSession e req gs s in
  let s' := out.1.2 in
  config s' = config s /\ nonces s' = nonces s /\
  ((~ answered out.1.1 /\ sub_sessions s' s) \/
   exists a kept ttl, out.1.1 = Answered a /\ authorize (config s) (hook_answer e) gs = Some (kept, ttl) /\
     rs_Tunnels a = map tunnel_of kept /\
     ((sr_QueryOnly req = true /\ s' = s) \/
      exists v T, sr_QueryOnly req = false /\ sessions s' = <[new_token e := v]> T /\
        (forall t w, T !! t = Some w -> sessions s !! t = Some w) /\
        session_of e req v /\ ss_Tunnels v = map tunnel_of kept /\ rs_Token a = new_token e /\
        (0 < cf_MaxSessionsPerKey (config s) ->
         CountIdentity (t_first (clk e)) (sr_Method req) (sr_Identity req) (sessions s) <
         cf_MaxSessionsPerKey (config s)))).
Proof.
  unfold establishSession. destruct (_ && _ && _) eqn:Hcap.
  { split; [done|split; [done|left]]. split; [by intros [a Ha]|done]. }
  destruct (authorize _ _ _) as [[kept ttl]|].
  2: { split; [done|split; [done|left]]. split; [by intros [a Ha]|done]. }
  destruct (sr_QueryOnly req) eqn:Hq.
  { split; [done|split; [done|right]]. eexists _, kept, ttl. repeat (split; [done|]). by left. }
  pose proof (reap_rest e (t_reap (clk e)) s) as [Hc Hn].
  pose proof (dropped_reap e (t_reap (clk e)) s Hord) as Hdrop.
  destruct (reapSessionsLocked _ _ s) as [s1 evs]. cbn [fst snd] in *.
  assert (Hatt : let out := match data s1 with
                            | Some d => attach e req d s1
                            | None => (Ok (sr_WireGuardPublicKey req, ""%string), s1, []) end in
            config out.1.2 = config s /\ nonces out.1.2 = nonces s /\ sub_sessions out.1.2 s).
  { destruct (data s1) as [d|]; cbv zeta.
    - pose proof (attach_rest e req d s1 Hord) as (Hc1 & Hn1 & HT1). cbv zeta in *.
      split; [congruence|split; [congruence|]]. intros t v Hv. eapply dropped_sub; [exact Hdrop|]. by apply HT1.
    - split; [done|split; [done|]]. intros t v. by eapply dropped_sub. }
  cbv zeta in Hatt |- *. destruct (match data s1 with Some d => _ | None => _ end) as [[[[k ip]|r] s2] evs'] eqn:Ha.
  - destruct Hatt as (Hc2 & Hn2 & HT2). cbn [fst snd] in *.
    destruct (match data s2 with Some _ => _ | None => _ end) as [sip skey]. simpl.
    split; [done|split; [done|right]]. eexists _, kept, ttl. split; [done|]. split; [done|]. split; [done|]. right.
    eexists _, (sessions s2). split; [done|]. split; [done|]. split; [done|]. split; [done|].
    split; [done|]. split; [done|]. intros Hpos. apply andb_false_iff in Hcap as [Hcap|Hcap]; bool_lia.
  - destruct Hatt as (Hc2 & Hn2 & HT2). cbn [fst snd] in *. split; [done|split; [done|left]].
    split; [|done]. intros [a ->]. clear -Ha. destruct (data s1) as [d|]; [|done].
    unfold attach in Ha. repeat case_match; simplify_eq.
Qed.

(** ** Authentication *)

(** The checks a request passes before its nonce is looked at: version,
    capabilities, a timestamp within two minutes of the clock, a key of the
    directory, whose comment counts, and a signature over the payload. *)
Record authentic (e : env) (s : Server) (rq : AuthRequest) (key : PublicKey) (comment : string) : Prop :=
  mkAuthentic {
  au_version : ar_Version rq = Version;
  au_caps : exists u, ValidateRequiredCapabilities (transportCapabilitiesAvailable (alternate e) s)
                        (ar_RequiredTransportCapabilities rq) = Ok u;
  au_time : exists ts, ParseTimestamp (ar_Timestamp rq) = Some ts /\
              t_since (clk e) - ts <= 2 * minute /\ ts - t_until (clk e) <= 2 * minute;
  au_key : ParsePublicString (ar_PublicKey rq) = Some key;
  au_entry : exists l en b k, keys_dir e = Some l /\ (en ∈ l) /\ de_IsDir en = false /\
               de_Content en = Some b /\ ParsePublic b = Some (k, comment) /\ Digest key = Digest k;
  au_signature : exists p, SigningPayload (extra_order e) rq = Ok p /\ Verify key p (ar_Signature rq) = true;
}.

Lemma scan_entries_Some matches l acc c :
  scan_entries matches l acc = Some c ->
  acc = Some c \/ exists en b k, (en ∈ l) /\ de_IsDir en = false /\ de_Content en = Some b /\
    ParsePublic b = Some (k, c) /\ matches k = true.
Proof.
  revert acc. induction l as [|en l IH]; intros acc; simpl; [by left|]. intros Hs.
  destruct (IH _ Hs) as [Hacc|(en' & b & k & Hin & Hr)]; [|right; exists en', b, k; set_solver].
  destruct (de_IsDir en) eqn:Hd; [by left|]. destruct (de_Content en) as [b|] eqn:Hb; [|by left].
  destruct (ParsePublic b) as [[k c']|] eqn:Hk; [|by left]. destruct acc as [a|]; [by left|].
  destruct (matches k) eqn:Hm; [|done]. injection Hacc as ->. right. exists en, b, k. set_solver.
Qed.

Lemma skewed_false e ts :
  skewed e ts = false -> exists t, ParseTimestamp ts = Some t /\
    t_since (clk e) - t <= 2 * minute /\ t - t_until (clk e) <= 2 * minute.
Proof.
  unfold skewed. destruct (ParseTimestamp ts) as [t|]; [|done]. intros Hs. bool_to_prop. exists t.
  split; [done|]. split; apply time_sub_le; try done; by vm_compute.
Qed.

Lemma matchesAllow_ssh fp comment email domain gs entry :
  matchesAllow (mkSubject "ssh" fp comment email domain gs) entry = true <->
  entry = "*"%string \/ entry = fp \/ (comment <> ""%string /\ entry = comment).
Proof.
  unfold matchesAllow. simpl. rewrite !orb_true_iff, andb_true_iff, negb_true_iff, String.eqb_neq, !String.eqb_eq.
  done.
Qed.

Lemma elem_of_grants c sub t :
  t ∈ grants c sub <-> (t ∈ cf_Tunnels c) /\ exists entry, (entry ∈ tc_Allow t) /\ matchesAllow sub entry = true.
Proof.
  unfold grants. rewrite list_elem_of_In, filter_In, <-list_elem_of_In, existsb_exists.
  by setoid_rewrite <-list_elem_of_In.
Qed.

(** The hook only removes grants, and never lengthens a session. *)
Lemma authorize_Some c hook gs kept ttl :
  authorize c hook gs = Some (kept, ttl) ->
  exists r, Authorize c hook = Some r /\ az_Allow r = true /\ ttl <= cf_SessionTTL c /\
    forall t, t ∈ kept <-> (t ∈ gs) /\
      match az_AllowedTunnels r with
      | ATString x => x = "*"%string
      | ATList l => Some (tc_Name t) ∈ l
      | ATOther => False
      end.
Proof.
  unfold authorize. destruct (Authorize c hook) as [r|]; [|done]. destruct (az_Allow r) eqn:Ha; [|done]. simpl.
  intros [= <- <-]. exists r. split; [done|]. split; [done|]. split.
  { destruct (_ && _) eqn:E; [bool_lia|lia]. }
  intros t. destruct (az_AllowedTunnels r) as [x|l|].
  - destruct (String.eqb_spec x "*") as [->|Hne]; [tauto|]. split; [by intros Hin%elem_of_nil|tauto].
  - rewrite list_elem_of_In, filter_In, existsb_exists, <-list_elem_of_In. apply and_iff_compat_l.
    setoid_rewrite <-list_elem_of_In. setoid_rewrite bool_decide_eq_true. naive_solver.
  - split; [by intros Hin%elem_of_nil|tauto].
Qed.

Lemma not_answered status code : ~ answered (Failed status code).
Proof. by intros [a Ha]. Qed.

(** A refusal before the nonce. *)
#[local] Ltac refused := left; eexists; split; [reflexivity|split; [reflexivity|apply not_answered]].

Lemma auth_cases e remote body s :
  let out := auth e remote body s in
  (exists r, out.1.2 = with_rates r s /\ out.2 = [] /\ ~ answered out.1.1) \/
  exists r rq key comment, body = Some rq /\ authentic e s rq key comment /\
    let '(fresh, n) := NonceCache.Use (nonce_order e) (t_nonce (clk e)) (ar_Nonce rq) (nonces s) in
    let s1 := with_nonces n (with_rates r s) in
    out = if fresh then
            establishSession e
              (mkRequest "ssh" (Fingerprint key) (Fingerprint key) "" [] (ar_WireGuardPublicKey rq) (ar_Info rq)
                 (ar_TransportCapabilities rq) (ar_QueryOnly rq))
              (grants (config s) (mkSubject "ssh" (Fingerprint key) comment "" "" [])) s1
          else (Failed 401 ErrorReplayedNonce, s1, []).
Proof.
  unfold auth, allowSource. destruct (SourceLimiter.Allow _ _ _ _) as [ok r].
  destruct ok; [|refused]. cbn [negb]. destruct body as [rq|]; [|refused].
  destruct (ar_Version rq =? Version) eqn:Hv; [|refused]. cbn [negb].
  destruct (ValidateRequiredCapabilities _ _) as [u|] eqn:Hcap; [|refused].
  destruct (skewed e _) eqn:Hskew; [refused|].
  destruct (ParsePublicString _) as [key|] eqn:Hkey; [|refused].
  destruct (authorizedEntry e key) as [comment|] eqn:Hentry; [|refused].
  destruct (SigningPayload _ _) as [p|] eqn:Hp; [|refused].
  destruct (Verify _ _ _) eqn:Hver; [|refused]. cbn [negb].
  right. exists r, rq, key, comment. split; [done|]. split.
  - split.
    + by apply Z.eqb_eq.
    + by exists u.
    + by apply skewed_false.
    + done.
    + unfold authorizedEntry, scanAuthorizedKeys in Hentry. destruct (keys_dir e) as [l|]; [|done].
      apply scan_entries_Some in Hentry as [|(en & b & k & Hin & Hd & Hb & Hk & Hm)]; [done|].
      exists l, en, b, k. apply String.eqb_eq in Hm. done.
    + by exists p.
  - simpl. destruct (NonceCache.Use _ _ _ _) as [fresh n]. by destruct fresh.
Qed.

(** C5: A request that fails a check before its nonce changes the rate limiter
    and nothing else.  One that is answered carries a valid signature of a
    key in the directory within the clock window and a nonce the cache had
    not seen, and the tunnels it gets are tunnels of the configuration
    granted to everyone, to the key or to the comment the server's own file
    records for it, and left by the hook. *)
Theorem auth_sound e remote body s (Hord : ranges (session_order e)) :
  let out := auth e remote body s in
  (~ (exists rq key comment, body = Some rq /\ authentic e s rq key comment) ->
     (exists r, out.1.2 = with_rates r s) /\ out.2 = [] /\ ~ answered out.1.1) /\
  forall a, out.1.1 = Answered a ->
    exists rq key comment, body = Some rq /\ authentic e s rq key comment /\
      (NonceCache.Use (nonce_order e) (t_nonce (clk e)) (ar_Nonce rq) (nonces s)).1 = true /\
      exists r, Authorize (config s) (hook_answer e) = Some r /\ az_Allow r = true /\
      forall tn, tn ∈ rs_Tunnels a -> exists t entry, tn = tunnel_of t /\ (t ∈ cf_Tunnels (config s)) /\
        (entry ∈ tc_Allow t) /\
        (entry = "*"%string \/ entry = Fingerprint key \/ (comment <> ""%string /\ entry = comment)) /\
        match az_AllowedTunnels r with
        | ATString x => x = "*"%string
        | ATList l => Some (tc_Name t) ∈ l
        | ATOther => False
        end.
Proof.
  intros out. destruct (auth_cases e remote body s) as [(r & Hs & Hev & Hno)|(r & rq & key & comment & Hb & Hau & Hout)].
  { split; [intros _; split; [by exists r|done]|]. intros a Ha. destruct Hno. by exists a. }
  split; [intros Hn; destruct Hn; eauto|]. intros a Ha. exists rq, key, comment. split; [done|]. split; [done|].
  destruct (NonceCache.Use _ _ _ _) as [[] n]; cbv zeta iota beta in Hout; fold out in Hout; [|by rewrite Hout in Ha].
  split; [done|].
  match type of Hout with _ = establishSession ?e ?req ?gs ?s1 =>
    destruct (establishSession_cases e req gs s1 Hord) as (_ & _ & [[Hn _]|(a' & kept & ttl & Ha' & Hauth & Htun & _)]) end.
  { rewrite <-Hout in Hn. destruct Hn. by exists a. }
  rewrite <-Hout, Ha in Ha'. injection Ha' as <-. simpl in Hauth.
  apply authorize_Some in Hauth as (az & Haz & Hallow & _ & Hkept). exists az. split; [done|]. split; [done|].
  intros tn Hin. rewrite Htun in Hin. apply list_elem_of_In, in_map_iff in Hin as (t & <- & Hin).
  apply list_elem_of_In, Hkept in Hin as [Hin Hhook]. apply elem_of_grants in Hin as (Hin & entry & Hentry & Hm).
  apply matchesAllow_ssh in Hm. exists t, entry. done.
Qed.

(** ** How an operation changes the table *)
Lemma dropSession_rest v s :
  let s' := (dropSession v s).1 in config s' = config s /\ nonces s' = nonces s /\ sessions s' = sessions s.
Proof. cbv zeta. by rewrite dropSession_state. Qed.

Lemma drop_loop_rest f vs s :
  let s' := (drop_loop f vs s).1 in config s' = config s /\ nonces s' = nonces s /\ sub_sessions s' s.
Proof.
  cbv zeta. rewrite drop_loop_state. split; [done|split; [done|]]. intros t v. simpl.
  rewrite lookup_delete_tokens. by intros [Hv _].
Qed.

Lemma Reload_rest e c s :
  let s' := (Reload e c s).1 in config s' = reloaded c s /\ nonces s' = nonces s /\ sub_sessions s' s.
Proof.
  unfold Reload. fold (reloaded c s).
  set (s0 := mkServer (reloaded c s) (sessions s) (nonces s) (rates s) (data s) _ (udpr s)).
  assert (H1 : let s1 := (if cf_NativeEnabled (reloaded c s)
             then drop_loop (conflicts (cf_NativePeers (reloaded c s))) (All (session_order e) (sessions s0)) s0
             else (s0, [])).1 in config s1 = reloaded c s /\ nonces s1 = nonces s /\ sub_sessions s1 s).
  { destruct (cf_NativeEnabled _); [exact (drop_loop_rest _ _ s0)|]. split; [done|split; [done|by intros t v]]. }
  destruct (if cf_NativeEnabled _ then _ else _) as [s1 evs]. simpl in H1. destruct H1 as (Hc & Hn & HT).
  match goal with |- context [drop_loop (revoked _ _) _ ?s2] => set (s2' := s2) end.
  assert (H2 : config s2' = reloaded c s /\ nonces s2' = nonces s /\ sub_sessions s2' s).
  { unfold s2'. clear s2'. destruct (negb (Bool.eqb _ _) || _); [rewrite reconcile_state|]; exact (conj Hc (conj Hn HT)). }
  pose proof (drop_loop_rest (revoked e (reloaded c s)) (All (session_order e) (sessions s2')) s2') as H3.
  destruct (drop_loop _ _ s2') as [s3 evs']. simpl in H3 |- *. destruct H2 as (Hc2 & Hn2 & HT2), H3 as (Hc3 & Hn3 & HT3).
  split; [congruence|split; [congruence|]]. intros t v Hv. by apply HT2, HT3.
Qed.

(** The session a renewal puts in the place of [old]. *)
Definition renewed (e : env) (old : Session) (v : Session) : Prop :=
  ss_Token v = new_token e /\ ss_ID v = new_id e /\
  ss_Method v = ss_Method old /\ ss_Identity v = ss_Identity old /\ ss_Fingerprint v = ss_Fingerprint old /\
  ss_Issuer v = ss_Issuer old /\ ss_Groups v = ss_Groups old /\
  ss_WireGuardPublicKey v = canonical_or (ss_WireGuardPublicKey old) /\ ss_TunnelIP v = ss_TunnelIP old /\
  ss_Multipath v = ss_Multipath old /\ ss_PathMTU v = ss_PathMTU old.

Lemma renew_cases e token body s :
  let out := renew e token body s in
  let s' := out.1.2 in
  config s' = config s /\ nonces s' = nonces s /\
  ((~ answered out.1.1 /\ sub_sessions s' s) \/
   exists a old info kept ttl v, out.1.1 = Answered a /\ body = Some info /\
     sessions s !! token = Some old /\ expired (t_first (clk e)) old = false /\
     authorize (config s) (hook_answer e)
       (ss_Tunnels old ≫= (fun p => config_named (config s) (tn_Name p))) = Some (kept, ttl) /\
     sessions s' = <[new_token e := v]> (delete token (sessions s)) /\
     renewed e old v /\ ss_Tunnels v = map tunnel_of kept /\ rs_Tunnels a = ss_Tunnels v /\
     rs_Token a = new_token e /\ ss_Expires v = t_create (clk e) + ttl).
Proof.
  unfold renew. destruct (Get (t_since _) _ _).
  2: { split; [done|split; [done|left]]. split; [apply not_answered|done]. }
  destruct body as [info|].
  2: { split; [done|split; [done|left]]. split; [apply not_answered|done]. }
  destruct (Get (t_first _) _ _) as [old|] eqn:Hg.
  2: { split; [done|split; [done|left]]. split; [apply not_answered|done]. }
  apply Get_Some in Hg as [Hold Hlive]. cbv zeta. destruct (authorize _ _ _) as [[kept ttl]|] eqn:Hauth.
  - match goal with |- context [Create ?i ?t ?now ?q ?T] => set (q0 := q) end. simpl.
    match goal with |- context [if negb _ then _ else ?s2] => set (s2' := s2) end.
    pose proof (addPeer_rest e (ss_WireGuardPublicKey old) (ss_TunnelIP old) s2') as (Hc & Hn & HT).
    assert (H : let s' := (if negb (ss_WireGuardPublicKey old =? "")%string
               then (addPeer e (ss_WireGuardPublicKey old) (ss_TunnelIP old) s2').2 else s2') in
              config s' = config s /\ nonces s' = nonces s /\ sessions s' = sessions s2')
      by (destruct (negb _); done).
    destruct H as (Hc' & Hn' & HT'). split; [done|split; [done|right]]. rewrite HT'.
    eexists _, old, info, kept, ttl, _. split; [done|]. split; [done|]. split; [done|]. split; [done|].
    split; [exact Hauth|]. split; [done|]. done.
  - pose proof (dropSession_rest old (with_sessions (delete token) s)) as (Hc & Hn & HT).
    destruct (dropSession old _) as [s1 evs]. simpl in *. split; [done|split; [done|left]].
    split; [apply not_answered|]. intros t v. simpl. rewrite HT. by intros [_ Hv]%lookup_delete_Some.
Qed.

(** ** The cap on the sessions of one identity *)
Definition counted (M t : Z) (T : Sessions) : Prop :=
  forall now method identity, t <= now -> CountIdentity now method identity T <= M.

Lemma of_identity_iff method identity v :
  of_identity method identity v = true <-> ss_Method v = method /\ ss_Identity v = identity.
Proof. unfold of_identity. by rewrite andb_true_iff, !String.eqb_eq. Qed.

Lemma counted_insert M t t' T v tok :
  T !! tok = None -> t <= t' -> counted M t T ->
  CountIdentity t (ss_Method v) (ss_Identity v) T <= M - 1 -> counted M t' (<[tok := v]> T).
Proof.
  intros Hn Ht HT Hroom now method identity Hnow. rewrite CountIdentity_insert by done.
  destruct (negb (expired now v) && of_identity method identity v) eqn:E; simpl.
  - apply andb_true_iff in E as [_ [<- <-]%of_identity_iff].
    pose proof (CountIdentity_mono t now (ss_Method v) (ss_Identity v) T ltac:(lia)). lia.
  - pose proof (HT now method identity ltac:(lia)). lia.
Qed.

Lemma counted_sub M t t' T T' :
  t <= t' -> counted M t T -> (forall k v, T' !! k = Some v -> T !! k = Some v) -> counted M t' T'.
Proof.
  intros Ht HT Hsub now method identity Hnow.
  pose proof (CountIdentity_sub now method identity T' T Hsub). pose proof (HT now method identity ltac:(lia)). lia.
Qed.

(** The cap of a configuration: some, at most [M]. *)
Definition capped (M : Z) (c : Config) : Prop := 0 < cf_MaxSessionsPerKey c <= M.

Lemma establishSession_counted M t e req gs s :
  ranges (session_order e) -> sessions s !! new_token e = None -> capped M (config s) ->
  counted M t (sessions s) -> t <= t_first (clk e) <= t_create (clk e) ->
  counted M (t_create (clk e)) (sessions (establishSession e req gs s).1.2).
Proof.
  intros Hord Hfresh [Hpos HM] HT Ht.
  destruct (establishSession_cases e req gs s Hord) as (_ & _ & [[_ Hsub]|(a & kept & ttl & _ & _ & _ & Hres)]).
  { eapply counted_sub; [|done|exact Hsub]. lia. }
  destruct Hres as [[_ ->]|(v & T & _ & HT' & Hsub & (_ & _ & Hm & Hi & _) & _ & _ & Hroom)].
  { eapply counted_sub; [|done|done]. lia. }
  rewrite HT'. eapply (counted_insert M (t_first (clk e))); [|lia| |].
  - destruct (T !! new_token e) as [w|] eqn:E; [|done]. apply Hsub in E. congruence.
  - eapply counted_sub; [|done|exact Hsub]. lia.
  - rewrite Hm, Hi. pose proof (CountIdentity_sub (t_first (clk e)) (sr_Method req) (sr_Identity req) T (sessions s) Hsub).
    specialize (Hroom Hpos). lia.
Qed.

Definition cap_ok (M : Z) (e : env) (o : op) (s : Server) : Prop :=
  ranges (session_order e) /\ sessions s !! new_token e = None /\
  match o with OpReload c => capped M c | _ => True end.

Lemma step_counted M t e o s :
  cap_ok M e o s -> capped M (config s) -> counted M t (sessions s) ->
  t <= t_first (clk e) <= t_create (clk e) ->
  counted M (t_create (clk e)) (sessions (step e o s).1.2) /\ capped M (config (step e o s).1.2).
Proof.
  intros (Hord & Hfresh & Hcap') Hcap HT Ht.
  assert (Hsub : forall s', config s' = config s ->
            (forall k v, sessions s' !! k = Some v -> sessions s !! k = Some v) ->
            counted M (t_create (clk e)) (sessions s') /\ capped M (config s')).
  { intros s' -> Hsub. split; [|done]. eapply counted_sub; [|done|exact Hsub]. lia. }
  destruct o; simpl.
  - pose proof (auth_cases e remote body s) as [(r & -> & _)|(r & rq & key & comment & _ & _ & Hout)];
      [by apply Hsub|]. cbv zeta in Hout. destruct (NonceCache.Use _ _ _ _) as [[] n]; rewrite Hout; [|by apply Hsub].
    match goal with |- context [establishSession ?e ?req ?gs ?s1] =>
      pose proof (establishSession_cases e req gs s1 Hord) as (Hc & _);
      pose proof (establishSession_counted M t e req gs s1 Hord Hfresh Hcap HT Ht) as Hx end.
    by rewrite Hc.
  - unfold authOIDC. pose proof (allowSource_state e remote s) as (HTs & _ & Hcs & _).
    destruct (allowSource e remote s) as [ok s1]. simpl in HTs, Hcs.
    assert (Hs1 : counted M (t_create (clk e)) (sessions s1) /\ capped M (config s1)).
    { apply Hsub; [done|]. by rewrite HTs. }
    repeat (case_match; try exact Hs1). rewrite <-Hcs in Hcap. rewrite <-HTs in HT, Hfresh.
    match goal with |- context [establishSession ?e ?req ?gs s1] =>
      pose proof (establishSession_cases e req gs s1 Hord) as (Hc & _);
      pose proof (establishSession_counted M t e req gs s1 Hord Hfresh Hcap HT Ht) as Hx end.
    by rewrite Hc.
  - destruct (renew_cases e token body s) as (Hc & _ & [[_ Hs]|(a & old & info & kept & ttl & v & Hren)]);
      [by apply Hsub|]. destruct Hren as (_ & _ & Hold & Hlive & _ & -> & (_ & _ & Hm & Hi & _) & _).
    rewrite Hc. split; [|done]. eapply (counted_insert M (t_first (clk e))); [|lia| |].
    + apply lookup_delete_None. by right.
    + eapply counted_sub; [|done|by intros k w [_ Hw]%lookup_delete_Some]. lia.
    + rewrite Hm, Hi. rewrite (CountIdentity_delete_live _ _ _ _ old) by (done || by apply of_identity_iff).
      pose proof (HT (t_first (clk e)) (ss_Method old) (ss_Identity old)). lia.
  - unfold disconnect. destruct (Get _ _ _) as [old|]; [|by apply Hsub].
    pose proof (dropSession_rest old (with_sessions (delete token) s)) as (Hc & _ & HTd).
    destruct (dropSession old _) as [s1 evs]. simpl in *. apply Hsub; [done|]. intros k w. rewrite HTd.
    by intros [_ Hw]%lookup_delete_Some.
  - unfold revokeSession. destruct (negb _); [by apply Hsub|]. unfold DeleteByID. destruct (FindID _ _ _ _) as [old|]; [|by apply Hsub].
    match goal with |- context [dropSession old ?s0] =>
      pose proof (dropSession_rest old s0) as (Hc & _ & HTd); destruct (dropSession old s0) as [s1 evs] end.
    simpl in *. apply Hsub; [done|]. intros k w. rewrite HTd. by intros [_ Hw]%lookup_delete_Some.
  - pose proof (reap_rest e (t_reap (clk e)) s) as [Hc _]. pose proof (dropped_reap e (t_reap (clk e)) s Hord) as Hd.
    unfold reapSessions. destruct (reapSessionsLocked _ _ s) as [s1 evs]. simpl in *. apply Hsub; [done|].
    intros k w. by eapply dropped_sub.
  - pose proof (Reload_rest e c s) as (Hc & _ & Hs). destruct (Reload e c s) as [s1 evs]. simpl in *.
    rewrite Hc. split; [|exact Hcap']. eapply counted_sub; [|done|exact Hs]. lia.
Qed.

(** The clock runs forward from [t] over the operations to [now]. *)
Fixpoint timed (t : Z) (ops : list (env * op)) (now : Z) : Prop :=
  match ops with
  | [] => t <= now
  | (e, _) :: ops => t <= t_first (clk e) <= t_create (clk e) /\ timed (t_create (clk e)) ops now
  end.

(** C7: No identity ever has more unexpired sessions than the cap allows, over
    any authentications, reconnections, renewals, deletions and reloads, as
    long as no configuration lifts it above [M]. *)
Theorem session_cap M s0 ops t now method identity (Hs : started s0) (Hc : capped M (config s0))
    (H : all_steps (cap_ok M) ops s0) (Ht : timed t ops now) :
  CountIdentity now method identity (sessions (after ops s0)) <= M.
Proof.
  assert (HT : counted M t (sessions s0)).
  { destruct (started_inv false s0 Hs) as (p & _ & d & _ & _). destruct Hs as (e & c & relay & key & mp & q & Hs & _).
    assert (sessions s0 = NewSessions) as ->.
    { unfold StartDataPlane in Hs. destruct (ParsePrefix _); [|done]. unfold installNativePeers in Hs. simpl in Hs.
      destruct (cf_NativeEnabled c); [apply install_peers_state in Hs as ->; done|by injection Hs as <-]. }
    intros now' m i _. unfold CountIdentity, NewSessions. rewrite countZ_empty. destruct Hc. lia. }
  clear Hs. revert s0 t Hc H Ht HT. induction ops as [|[e o] ops IH]; intros s0 t Hc H Ht HT.
  { simpl in *. by apply HT. }
  destruct H as [Ho H], Ht as [Ht Hts]. destruct (step_counted M t e o s0 Ho Hc HT Ht) as [HT' Hc'].
  simpl. by eapply IH.
Qed.

(** ** Replay *)
Lemma step_nonces e o s :
  ranges (session_order e) ->
  nonces (step e o s).1.2 = nonces s \/
  exists remote rq, o = OpAuth remote (Some rq) /\
    nonces (step e o s).1.2 = (NonceCache.Use (nonce_order e) (t_nonce (clk e)) (ar_Nonce rq) (nonces s)).2.
Proof.
  intros Hord. destruct o; simpl.
  - pose proof (auth_cases e remote body s) as [(r & -> & _)|(r & rq & key & comment & -> & _ & Hout)]; [by left|].
    right. exists remote, rq. split; [done|]. destruct (NonceCache.Use _ _ _ _) as [[] n]; cbv zeta in Hout; rewrite Hout; [|done].
    match goal with |- context [establishSession ?e ?req ?gs ?s1] =>
      pose proof (establishSession_cases e req gs s1 Hord) as (_ & Hn & _) end. by rewrite Hn.
  - left. unfold authOIDC. pose proof (allowSource_state e remote s) as (_ & _ & _ & Hn).
    destruct (allowSource e remote s) as [ok s1]. simpl in Hn. repeat (case_match; try exact Hn).
    match goal with |- context [establishSession ?e ?req ?gs ?s1] =>
      pose proof (establishSession_cases e req gs s1 Hord) as (_ & Hn' & _) end. by rewrite Hn'.
  - left. by destruct (renew_cases e token body s) as (_ & Hn & _).
  - left. unfold disconnect. destruct (Get _ _ _) as [old|]; [|done].
    pose proof (dropSession_rest old (with_sessions (delete token) s)) as (_ & Hn & _). by destruct (dropSession old _).
  - left. unfold revokeSession. destruct (negb _); [done|]. unfold DeleteByID. destruct (FindID _ _ _ _) as [old|]; [|done].
    match goal with |- context [dropSession old ?s0] =>
      pose proof (dropSession_rest old s0) as (_ & Hn & _); destruct (dropSession old s0) end. done.
  - left. pose proof (reap_rest e (t_reap (clk e)) s) as [_ Hn]. unfold reapSessions. by destruct (reapSessionsLocked _ _ s).
  - left. pose proof (Reload_rest e c s) as (_ & Hn & _). by destruct (Reload e c s).
Qed.

Lemma answered_fresh e remote rq s :
  answered (step e (OpAuth remote (Some rq)) s).1.1 ->
  (NonceCache.Use (nonce_order e) (t_nonce (clk e)) (ar_Nonce rq) (nonces s)).1 = true /\
  exists ts, ParseTimestamp (ar_Timestamp rq) = Some ts /\
    t_since (clk e) - ts <= 2 * minute /\ ts - t_until (clk e) <= 2 * minute.
Proof.
  intros Ha. simpl in Ha.
  destruct (auth_cases e remote (Some rq) s) as [(r & _ & _ & Hno)|(r & rq' & key & comment & [= <-] & Hau & Hout)]; [done|].
  split; [|by apply Hau]. destruct (NonceCache.Use _ _ _ _) as [[] n]; [done|]. cbv zeta in Hout. rewrite Hout in Ha.
  by apply not_answered in Ha.
Qed.

(** Operation [i] is an SSH authentication that is answered. *)
Definition answered_at (ops : list (env * op)) (s : Server) (i : nat) (e : env) (rq : AuthRequest) : Prop :=
  exists remote, ops !! i = Some (e, OpAuth remote (Some rq)) /\
    answered (step e (OpAuth remote (Some rq)) (after (take i ops) s)).1.1.

(** Operation [i] is an SSH authentication, in date and signed by the key of
    a user on file. *)
Definition signed_at (ops : list (env * op)) (s : Server) (i : nat) (e : env) (rq : AuthRequest) : Prop :=
  exists remote key comment, ops !! i = Some (e, OpAuth remote (Some rq)) /\
    authentic e (after (take i ops) s) rq key comment.

(** Operation [m] is an authentication before which, within five minutes,
    users on file signed requests with as many different nonces as the cache
    holds. *)
Definition crowded (ops : list (env * op)) (s : Server) (m : nat) : Prop :=
  exists e remote body ks, ops !! m = Some (e, OpAuth remote body) /\
    NoDup ks /\ DefaultMaxNonces <= Zlen ks /\
    forall k, k ∈ ks -> exists i e' rq, (i < m)%nat /\
      t_nonce (clk e) - 5 * minute <= t_nonce (clk e') <= t_nonce (clk e) /\
      ar_Nonce rq = k /\ signed_at ops s i e' rq.

(** The clock of the nonce cache does not run backward, and a request is
    decided within a minute of the look at its timestamp. *)
Fixpoint nonces_timed (t : Z) (ops : list (env * op)) : Prop :=
  match ops with
  | [] => True
  | (e, _) :: ops =>
      ranges (session_order e) /\ ranges (nonce_order e) /\ t <= t_nonce (clk e) /\
      t_since (clk e) <= t_until (clk e) <= t_nonce (clk e) /\ t_nonce (clk e) <= t_since (clk e) + minute /\
      nonces_timed (t_nonce (clk e)) ops
  end.

Lemma nonces_timed_at t ops i j e e' o o' :
  nonces_timed t ops -> (i <= j)%nat -> ops !! i = Some (e, o) -> ops !! j = Some (e', o') ->
  t <= t_nonce (clk e) <= t_nonce (clk e') /\ ranges (session_order e) /\ ranges (nonce_order e) /\
  t_since (clk e) <= t_until (clk e) <= t_nonce (clk e) /\ t_nonce (clk e) <= t_since (clk e) + minute.
Proof.
  revert t i j. induction ops as [|[e1 o1] ops IH]; intros t i j Ht Hij Hi Hj; [done|].
  assert (Hlow : forall t1 k e0 o0, nonces_timed t1 ops -> ops !! k = Some (e0, o0) -> t1 <= t_nonce (clk e0)).
  { clear. induction ops as [|[e1 o1] ops IH]; intros t1 k e0 o0 Ht Hk; [done|]. destruct Ht as (_ & _ & ? & ? & _ & Ht).
    destruct k as [|k]; simpl in Hk; [injection Hk as -> _; done|]. pose proof (IH _ _ _ _ Ht Hk). lia. }
  destruct Ht as (H1 & H2 & H3 & H4 & H5 & Ht). destruct i as [|i].
  - injection Hi as -> ->. split_and!; try done; try lia.
    destruct j as [|j]; [injection Hj as -> _; lia|]. exact (Hlow _ _ _ _ Ht Hj).
  - destruct j as [|j]; [lia|]. destruct (IH _ i j Ht) as [? ?]; [lia|done|done|]. split; [lia|done].
Qed.

Lemma after_snoc ops s i e o :
  ops !! i = Some (e, o) -> after (take (S i) ops) s = (step e o (after (take i ops) s)).1.2.
Proof.
  revert s i. induction ops as [|[e1 o1] ops IH]; intros s i Hi; [done|]. destruct i as [|i]; simpl in *.
  - by injection Hi as -> ->.
  - by apply IH.
Qed.

(** Only a signed authentication touches the cache, and only to use its nonce. *)
Lemma step_nonces_signed e o s :
  ranges (session_order e) ->
  nonces (step e o s).1.2 = nonces s \/
  exists remote rq key comment, o = OpAuth remote (Some rq) /\ authentic e s rq key comment /\
    nonces (step e o s).1.2 = (NonceCache.Use (nonce_order e) (t_nonce (clk e)) (ar_Nonce rq) (nonces s)).2.
Proof.
  intros Hord. destruct (step_nonces e o s Hord) as [|(remote & rq & -> & Hn)]; [by left|].
  destruct (auth_cases e remote (Some rq) s) as [(r & Hs & _)|(r & rq1 & key & comment & [= <-] & Ha & _)].
  - left. cbn [step]. by rewrite Hs.
  - right. by exists remote, rq, key, comment.
Qed.

Definition cache_ok (s : Server) : Prop :=
  NonceCache.ttl (nonces s) = nonceTTL /\ NonceCache.max (nonces s) = DefaultMaxNonces.

Lemma started_cache s : started s -> cache_ok s /\ NonceCache.seen (nonces s) = ∅.
Proof.
  intros (e0 & c & relay & key & mp & q & Hs & _).
  unfold StartDataPlane in Hs. destruct (ParsePrefix _); [|done]. unfold installNativePeers in Hs. simpl in Hs.
  destruct (cf_NativeEnabled c); [apply install_peers_state in Hs as ->; done|by injection Hs as <-].
Qed.

Section replay.
Context (t : Z) (ops : list (env * op)) (s : Server).
Context (Htimed : nonces_timed t ops) (Hok : cache_ok s) (Hempty : NonceCache.seen (nonces s) = ∅).

Lemma after_cache m :
  (m <= length ops)%nat -> cache_ok (after (take m ops) s) /\
  forall k tau, NonceCache.seen (nonces (after (take m ops) s)) !! k = Some tau ->
    exists i e rq, (i < m)%nat /\ t_nonce (clk e) = tau /\ ar_Nonce rq = k /\ signed_at ops s i e rq.
Proof.
  induction m as [|m IH]; intros Hm.
  { split; [done|]. intros k tau Hk. simpl in Hk. by rewrite Hempty in Hk. }
  destruct (lookup_lt_is_Some_2 ops m ltac:(lia)) as [[e o] He]. rewrite (after_snoc _ _ _ _ _ He).
  destruct (IH ltac:(lia)) as [[Ht Hx] Hs].
  destruct (nonces_timed_at _ _ m m _ _ _ _ Htimed (le_n _) He He) as (_ & Hord & Hnord & _).
  unfold cache_ok. destruct (step_nonces_signed e o (after (take m ops) s) Hord) as [->|(remote & rq & key & comment & -> & Ha & ->)].
  { split; [done|]. intros k tau (i & ? & ? & ? & ?)%Hs. do 3 eexists. split; [|done]. lia. }
  destruct (NonceCache.Use_const (nonce_order e) (t_nonce (clk e)) (ar_Nonce rq) (nonces (after (take m ops) s)) Hnord) as [-> ->].
  split; [done|]. intros k tau [(i & ? & ? & ? & ?)%Hs|[-> ->]]%NonceCache.Use_adds; [| |done].
  - do 3 eexists. split; [|done]. lia.
  - exists m, e, rq. split; [lia|]. do 2 (split; [done|]). by exists remote, key, comment.
Qed.

Lemma server_full_crowded m e remote body :
  ops !! m = Some (e, OpAuth remote body) ->
  NonceCache.max (nonces (after (take m ops) s)) <= Zlen (NonceCache.crowd (t_nonce (clk e)) (nonces (after (take m ops) s))) ->
  crowded ops s m.
Proof.
  intros He Hfull. pose proof (lookup_lt_Some _ _ _ He).
  destruct (after_cache m ltac:(lia)) as [[Ht Hx] Hs]. rewrite Hx in Hfull.
  exists e, remote, body, (NonceCache.crowd (t_nonce (clk e)) (nonces (after (take m ops) s))).
  split; [done|]. split; [apply NonceCache.crowd_NoDup|]. split; [done|].
  intros k (tau & Hk & Hlive)%NonceCache.elem_of_crowd. destruct (Hs k tau Hk) as (i & e' & rq & Hi & <- & Hn & Hsig).
  exists i, e', rq. split; [done|]. rewrite Ht in Hlive.
  apply time_sub_le in Hlive; [|vm_compute; intuition done|done].
  pose proof Hsig as (remote' & _ & _ & He' & _).
  destruct (nonces_timed_at _ _ i m _ _ _ _ Htimed ltac:(lia) He' He) as [? _].
  change (5 * minute) with nonceTTL. split; [lia|done].
Qed.

(** An answered request left its nonce in the cache, where it stays for its
    lifetime unless a crowd comes. *)
Lemma answered_files e remote rq s0 :
  ranges (session_order e) -> answered (step e (OpAuth remote (Some rq)) s0).1.1 ->
  NonceCache.seen (nonces (step e (OpAuth remote (Some rq)) s0).1.2) !! ar_Nonce rq = Some (t_nonce (clk e)).
Proof.
  intros Hord Ha. pose proof (answered_fresh _ _ _ _ Ha) as [Hf _].
  destruct (auth_cases e remote (Some rq) s0) as [(r & _ & _ & Hno)|(r & rq1 & key & comment & [= <-] & _ & Hout)]; [done|].
  cbn [step] in *. pose proof (NonceCache.Use_files _ _ _ _ Hf) as Hput.
  destruct (NonceCache.Use _ _ _ _) as [[] nn] eqn:Hu; [|done]. cbv zeta in Hout. rewrite Hout.
  match goal with |- context [establishSession ?e ?req ?gs ?s1] =>
    pose proof (establishSession_cases e req gs s1 Hord) as (_ & Hn' & _) end. by rewrite Hn'.
Qed.

Lemma server_nonce_kept i e rq m :
  answered_at ops s i e rq -> (i < m <= length ops)%nat ->
  (forall m' e' o', (m' < m)%nat -> ops !! m' = Some (e', o') ->
     time_sub (t_nonce (clk e')) (t_nonce (clk e)) <= nonceTTL) ->
  NonceCache.seen (nonces (after (take m ops) s)) !! ar_Nonce rq = Some (t_nonce (clk e)) \/
  exists m', (i < m' < m)%nat /\ crowded ops s m'.
Proof.
  intros Ha [Him Hm] Hlive. induction m as [|m IH]; [lia|].
  destruct (lookup_lt_is_Some_2 ops m ltac:(lia)) as [[e1 o1] He]. rewrite (after_snoc _ _ _ _ _ He).
  destruct (nonces_timed_at _ _ m m _ _ _ _ Htimed (le_n _) He He) as (_ & Hord & Hnord & _).
  destruct (decide (m = i)) as [->|Hne].
  { left. destruct Ha as (remote & He' & Ha). rewrite He in He'. injection He' as -> ->. by apply answered_files. }
  assert (Hlive' : forall m' e' o', (m' < m)%nat -> ops !! m' = Some (e', o') ->
     time_sub (t_nonce (clk e')) (t_nonce (clk e)) <= nonceTTL) by (intros ???? Hq; eapply Hlive; [|exact Hq]; lia).
  destruct (IH ltac:(lia) ltac:(lia) Hlive') as [Hk|(m' & ? & ?)]; [|right; exists m'; split; [lia|done]].
  destruct (step_nonces_signed e1 o1 (after (take m ops) s) Hord) as [->|(remote & rq' & key & comment & -> & _ & ->)]; [by left|].
  destruct (after_cache m ltac:(lia)) as [[Ht _] _].
  destruct (NonceCache.Use_keeps_or_crowd (nonce_order e1) (t_nonce (clk e1)) (ar_Nonce rq') _ _ _ Hnord Hk) as [Hk'|Hfull].
  { rewrite Ht. eapply Hlive; [|exact He]. lia. }
  - by left.
  - right. exists m. split; [lia|]. by eapply server_full_crowded.
Qed.

Lemma answered_spaced i j e e' rq rq' :
  (i < j)%nat -> answered_at ops s i e rq -> answered_at ops s j e' rq' -> ar_Nonce rq = ar_Nonce rq' ->
  nonceTTL < t_nonce (clk e') - t_nonce (clk e) \/ exists m, (i < m < j)%nat /\ crowded ops s m.
Proof.
  intros Hij Hi (remote & He & Ha) Hn. pose proof (lookup_lt_Some _ _ _ He).
  destruct (Z.lt_ge_cases nonceTTL (t_nonce (clk e') - t_nonce (clk e))) as [|Hle]; [by left|right].
  assert (Hlive : time_sub (t_nonce (clk e')) (t_nonce (clk e)) <= nonceTTL)
    by (apply time_sub_le; [vm_compute; intuition done|done|done]).
  destruct (server_nonce_kept i e rq j Hi) as [Hk|Hc]; [lia| | |done].
  { intros m' e1 o1 Hm' Hq. destruct (nonces_timed_at _ _ m' j _ _ _ _ Htimed ltac:(lia) Hq He) as [? _].
    pose proof (time_sub_mono (t_nonce (clk e1)) (t_nonce (clk e')) (t_nonce (clk e)) ltac:(lia)). lia. }
  apply answered_fresh in Ha as [Hf _]. destruct (after_cache j ltac:(lia)) as [[Ht _] _].
  rewrite (NonceCache.Use_live _ _ _ _ (t_nonce (clk e))) in Hf; [done|by rewrite <-Hn|by rewrite Ht].
Qed.

(** A crowd takes as many operations. *)
Lemma server_crowded_long m : crowded ops s m -> DefaultMaxNonces <= Z.of_nat m.
Proof.
  intros (e & remote & body & ks & _ & Hnd & Hlen & Hks).
  set (nonce_of := fun x : env * op => match x.2 with OpAuth _ (Some q) => Some (ar_Nonce q) | _ => None end).
  assert (Hsub : ks ⊆+ omap nonce_of (take m ops)).
  { apply NoDup_submseteq; [done|]. intros k (i & e' & rq & Hi & _ & <- & remote' & _ & _ & He & _)%Hks.
    apply list_elem_of_omap. exists (e', OpAuth remote' (Some rq)). split; [|done].
    apply (list_elem_of_lookup_2 _ i). by rewrite lookup_take_lt. }
  apply submseteq_length in Hsub.
  assert (forall l, length (omap nonce_of l) <= length l)%nat as Hom.
  { induction l as [|x l IH]; [done|]. cbn [omap list_omap]. destruct (nonce_of x); simpl in *; lia. }
  specialize (Hom (take m ops)). rewrite length_take in Hom. unfold Zlen in Hlen. lia.
Qed.
End replay.

(** C6: A signed request is answered a second time only if, between the two,
    the nonce cache overflowed with signed requests: of two SSH
    authentications that are answered with one nonce, however far apart and
    whatever happens between them, the timestamps differ, unless some
    authentication between them was preceded, within five minutes, by
    requests that users on file had signed with as many different nonces as
    the cache holds (4096).  The clock window of a request and the lifetime of
    its nonce overlap when a request is decided within a minute. *)
Theorem auth_answers_once s0 ops t i j e e' rq rq' (Hs : started s0) (H : nonces_timed t ops) (Hij : (i < j)%nat)
    (Hi : answered_at ops s0 i e rq) (Hj : answered_at ops s0 j e' rq') :
  ar_Nonce rq = ar_Nonce rq' ->
  ar_Timestamp rq <> ar_Timestamp rq' \/ exists m, (i < m < j)%nat /\ crowded ops s0 m.
Proof.
  intros Hn. destruct (started_cache s0 Hs) as [Hok Hempty].
  destruct (answered_spaced t ops s0 H Hok Hempty i j e e' rq rq' Hij Hi Hj Hn) as [Hfar|Hc]; [left|by right].
  intros Heq. destruct Hi as (r & He & (_ & ts & Hp & ? & ?)%answered_fresh), Hj as (r' & He' & (_ & ts' & Hp' & ? & ?)%answered_fresh).
  destruct (nonces_timed_at _ _ i j _ _ _ _ H ltac:(lia) He He') as (? & _ & _ & ? & ?).
  destruct (nonces_timed_at _ _ j j _ _ _ _ H (le_n _) He' He') as (? & _ & _ & ? & ?).
  rewrite Heq, Hp' in Hp. injection Hp as ->. unfold nonceTTL, minute, second in *. lia.
Qed.
End steps.

(** ** A concrete run *)
Definition toy_start : Server :=
  default (New (toy_config ["alice"%string]) false)
    (StartDataPlane (toy_env 0 "" "") "server" false (New (toy_config ["alice"%string]) false)).

Lemma toy_started : started toy_start.
Proof.
  exists (toy_env 0 "" ""), (toy_config ["alice"%string]), false, "server"%string, false, toy_prefix.
  split; [vm_compute; reflexivity|]. split; [apply toy_tunnel_prefix|]. split; [apply toy_valid|done].
Qed.

(** Two users come, the first renews and reconnects; a reload then takes the
    grant of the first away. *)
Definition toy_ops : list (env * op) :=
  [(toy_env 0 "i1" "k1", OpAuth "r" (Some (toy_request "alice" x01 "n1" "t0")));
   (toy_env second "i2" "k2", OpAuth "r" (Some (toy_request "bob" x02 "n2" "t0")));
   (toy_env minute "i3" "k3", OpRenew "k1" (Some toy_info));
   (toy_env minute "i4" "k4", OpAuth "r" (Some (toy_request "alice" x01 "n3" "t0")))].

Definition toy_reload : list (env * op) :=
  toy_ops ++ [(toy_env (2 * minute) "i5" "k5", OpReload (toy_config []))].

#[local] Ltac toy_step :=
  split; [split; [apply toy_env_ok; vm_compute; reflexivity|first [exact I|apply toy_valid]]|].

Lemma toy_ops_ok ex : all_steps (op_ok ex) toy_reload toy_start.
Proof. unfold toy_reload, toy_ops. cbn [app]. do 5 toy_step. exact I. Qed.

Lemma toy_two_ok ex : all_steps (op_ok ex) toy_ops toy_start.
Proof. unfold toy_ops. do 4 toy_step. exact I. Qed.

(** The two users have different addresses. *)
Lemma sessions_isolated_witness :
  exists v v', sessions (after toy_ops toy_start) !! "k4"%string = Some v /\
    sessions (after toy_ops toy_start) !! "k2"%string = Some v' /\
    ParseAddr (ss_TunnelIP v) <> ParseAddr (ss_TunnelIP v').
Proof.
  destruct (sessions_isolated toy_start toy_ops toy_started (toy_two_ok false)) as (p & d & _ & _ & _ & Hd).
  assert (H1 : exists v, sessions (after toy_ops toy_start) !! "k4"%string = Some v)
    by (eexists; vm_compute; reflexivity).
  assert (H2 : exists v, sessions (after toy_ops toy_start) !! "k2"%string = Some v)
    by (eexists; vm_compute; reflexivity).
  destruct H1 as [v Hv], H2 as [v' Hv']. exists v, v'. split; [exact Hv|]. split; [exact Hv'|].
  assert (Hne : "k4"%string <> "k2"%string) by discriminate.
  apply (Hd _ _ v v' Hv Hv' Hne).
Defined.

(** After the reload only the second user's peer and the native one are left. *)
Lemma peers_authorized_witness :
  exists d, data (after toy_reload toy_start) = Some d /\
    peers d !! replicate 32 x01 = None /\ peers d !! replicate 32 x02 <> None /\
    forall ip, peers d !! replicate 32 x01 = Some ip ->
      (exists t v, sessions (after toy_reload toy_start) !! t = Some v /\
         decodeKey (ss_WireGuardPublicKey v) = Some (replicate 32 x01) /\ ss_TunnelIP v = ip) \/
      native_peer (natives (config (after toy_reload toy_start))) (replicate 32 x01) ip.
Proof.
  destruct (peers_authorized toy_start toy_reload toy_started (toy_ops_ok true)) as (d & Hd & Hp).
  assert (Hd' : exists d', data (after toy_reload toy_start) = Some d' /\
            peers d' !! replicate 32 x01 = None /\ peers d' !! replicate 32 x02 <> None).
  { eexists. split; [vm_compute; reflexivity|]. split; vm_compute; [reflexivity|discriminate]. }
  exists d. split; [exact Hd|]. destruct Hd' as (d' & Hd' & H1 & H2). rewrite Hd in Hd'. injection Hd' as ->.
  split; [exact H1|]. split; [exact H2|]. intros ip Hip. exact (proj1 (Hp _ ip) Hip).
Defined.

Lemma principalForIP_exact_witness :
  exists v pr, sessions (after toy_ops toy_start) !! "k2"%string = Some v /\
    principalForIP (toy_env (2 * minute) "" "") (ss_TunnelIP v) (after toy_ops toy_start) = Some pr /\
    pr = principal_of_session (ss_TunnelIP v) v.
Proof.
  assert (H2 : exists v, sessions (after toy_ops toy_start) !! "k2"%string = Some v /\ (2 * minute <? ss_Expires v) = true)
    by (eexists; split; vm_compute; reflexivity).
  destruct H2 as (v & Hv & Hexp). exists v, (principal_of_session (ss_TunnelIP v) v). split; [exact Hv|].
  split; [|reflexivity].
  apply (proj2 (principalForIP_exact toy_start toy_ops (toy_env (2 * minute) "" "") (ss_TunnelIP v) _
    toy_started (toy_two_ok false) ranges_map_keys)).
  left. exists "k2"%string, v. split; [exact Hv|]. split; [by apply Z.ltb_lt|]. split; reflexivity.
Defined.

(** The first user's request is answered, with tunnels its key's comment is
    granted. *)
Lemma auth_sound_witness :
  exists a, (auth (toy_env 0 "i1" "k1") "r" (Some (toy_request "alice" x01 "n1" "t0")) toy_start).1.1 = Answered a /\
    map tn_Name (rs_Tunnels a) = ["web"; "ssh"]%string /\
    exists rq key comment, Some (toy_request "alice" x01 "n1" "t0") = Some rq /\
      authentic (toy_env 0 "i1" "k1") toy_start rq key comment.
Proof.
  destruct (auth_sound (toy_env 0 "i1" "k1") "r" (Some (toy_request "alice" x01 "n1" "t0")) toy_start
    ranges_map_keys) as [_ Hs].
  assert (H : exists a, (auth (toy_env 0 "i1" "k1") "r" (Some (toy_request "alice" x01 "n1" "t0")) toy_start).1.1
            = Answered a /\ map tn_Name (rs_Tunnels a) = ["web"; "ssh"]%string)
    by (eexists; split; vm_compute; reflexivity).
  destruct H as (a & Ha & Ht). exists a. split; [exact Ha|]. split; [exact Ht|].
  destruct (Hs a Ha) as (rq & key & comment & Hb & Hau & _). exists rq, key, comment. split; [exact Hb|exact Hau].
Defined.

(** The first user tries for a third session beside two. *)
Definition toy_greedy : list (env * op) :=
  [(toy_env 0 "i1" "k1", OpAuth "r" (Some (toy_request "alice" x01 "n1" "t0")));
   (toy_env 1 "i2" "k2", OpAuth "r" (Some (toy_request "alice" x02 "n2" "t0")));
   (toy_env 2 "i3" "k3", OpAuth "r" (Some (toy_request "alice" x03 "n3" "t0")))].

Lemma session_cap_witness :
  CountIdentity 3 "ssh" "SHA256:alice" (sessions (after toy_greedy toy_start)) = 2 /\
  CountIdentity 3 "ssh" "SHA256:alice" (sessions (after toy_greedy toy_start)) <= 2.
Proof.
  split; [vm_compute; reflexivity|].
  apply (session_cap 2 toy_start toy_greedy 0 3 "ssh" "SHA256:alice" toy_started).
  - split; vm_compute; [reflexivity|discriminate].
  - unfold toy_greedy. do 3 (split; [split; [apply ranges_map_keys|split; [vm_compute; reflexivity|exact I]]|]). exact I.
  - simpl. lia.
Defined.

(** A replay at once is refused; the same nonce is answered again nine
    minutes later, under another timestamp. *)
Definition toy_replay : list (env * op) :=
  [(toy_env 0 "i1" "k1", OpAuth "r" (Some (toy_request "alice" x01 "n1" "t0")));
   (toy_env 1 "i2" "k2", OpAuth "r" (Some (toy_request "alice" x01 "n1" "t0")));
   (toy_env (9 * minute) "i3" "k3", OpAuth "r" (Some (toy_request "alice" x01 "n1" "t9")))].

Lemma auth_answers_once_witness : "t0"%string <> "t9"%string.
Proof.
  destruct (auth_answers_once toy_start toy_replay 0 0 2 (toy_env 0 "i1" "k1") (toy_env (9 * minute) "i3" "k3")
    (toy_request "alice" x01 "n1" "t0") (toy_request "alice" x01 "n1" "t9") toy_started) as [Hts|(m & Hm & Hc)];
    [..|exact Hts|apply server_crowded_long in Hc; unfold DefaultMaxNonces in Hc; lia].
  - unfold toy_replay. unfold minute, second.
    do 3 (split; [apply ranges_map_keys|]; split; [apply ranges_map_keys|]; split; [simpl; lia|];
          split; [simpl; lia|]; split; [simpl; unfold minute, second; lia|]). exact I.
  - lia.
  - exists "r"%string. split; [reflexivity|]. eexists. vm_compute. reflexivity.
  - exists "r"%string. split; [reflexivity|]. eexists. vm_compute. reflexivity.
  - reflexivity.
Defined.
