(* ===== verification/ServerOps.v ===== *)
(** What single operations of the server promise: who may take a WireGuard
    key over, when an address is found, what a reload keeps and what a
    renewal changes. *)
From S2P Require Import Prelude Bytes Netip Protocol AuthLimit WgKeys Sessions IpPool Egress ServerAuth ServerTable ServerToy ServerSteps.

Section ops.
Context {keys : KeyOps} {text : AddrText}.

(** ** Reconnecting *)

(** While a session of a WireGuard key lives, an authentication with that key
    is answered only for the session's own principal (method, identity and
    issuer); it keeps the tunnel address and replaces the session. *)
Theorem key_stays_owned s0 ops e req gs a old raw (Hs : started s0) (H : all_steps (op_ok false) ops s0)
    (He : env_ok false e (after ops s0)) (Ht : t_reap (clk e) <= t_find (clk e))
    (Hold : sessions (after ops s0) !! ss_Token old = Some old) (Hlive : expired (t_find (clk e)) old = false)
    (Hraw : decodeKey (ss_WireGuardPublicKey old) = Some raw)
    (Hreq : decodeKey (sr_WireGuardPublicKey req) = Some raw) (Hq : sr_QueryOnly req = false)
    (Ha : (establishSession e req gs (after ops s0)).1.1 = Answered a) :
  ss_Method old = sr_Method req /\ ss_Identity old = sr_Identity req /\ ss_Issuer old = sr_Issuer req /\
  rs_TunnelIP a = ss_TunnelIP old /\
  sessions (establishSession e req gs (after ops s0)).1.2 !! ss_Token old = None.
Proof.
  destruct (reachable_inv false s0 ops Hs H) as [(p & Hp & Hinv) _]. set (s := after ops s0) in *.
  unfold establishSession in *. destruct (_ && _ && _); [done|].
  destruct (authorize _ _ _) as [[kept ttl]|]; [|done]. rewrite Hq in *.
  pose proof (dropped_reap e (t_reap (clk e)) s (eo_order _ _ _ He)) as Hdrop.
  pose proof (dropped_ok false _ _ _ _ _ Hdrop Hinv) as Hinv1.
  destruct (reapSessionsLocked e (t_reap (clk e)) s) as [s1 evs]. cbn [fst snd] in *.
  assert (Hold1 : sessions s1 !! ss_Token old = Some old).
  { apply (dr_sessions _ _ _ Hdrop). split; [done|]. by eapply unexpired_mono. }
  pose proof Hinv1 as (d & Hd & Hok & _). rewrite Hd in *. unfold attach in *.
  destruct (sr_WireGuardPublicKey req =? "")%string; [done|].
  pose proof (so_key _ _ _ (tb_sessions _ _ _ _ Hok _ _ Hold1)) as Hk.
  assert (Hck : CanonicalPublicKey (sr_WireGuardPublicKey req) = Some (ss_WireGuardPublicKey old)).
  { eapply CanonicalPublicKey_eq; [done|congruence]. }
  rewrite Hck in *. destruct (is_native _ _); [done|].
  destruct (FindWireGuardPublicKey _ _ _ _) as [w|] eqn:Hfind.
  2: { by destruct (find_key_None _ _ _ p _ _ _ _ (eo_order _ _ _ He) Hinv1 Hk Hfind Hold1 Hlive). }
  destruct (find_key_Some _ _ _ _ _ _ _ (eo_order _ _ _ He) Hinv1 Hk Hfind) as [Hw Hwk].
  pose proof (tb_keys _ _ _ _ Hok _ _ _ _ Hw Hold1 Hwk) as Htok.
  rewrite Htok, Hold1 in Hw. injection Hw as <-. clear Htok Hwk.
  destruct (negb (ss_Method old =? sr_Method req)%string || _ || _) eqn:Hown; [done|].
  apply orb_false_iff in Hown as [[Hm Hi]%orb_false_iff Hiss].
  apply negb_false_iff, String.eqb_eq in Hm, Hi, Hiss.
  pose proof (addPeer_rest e (ss_WireGuardPublicKey old) (ss_TunnelIP old)
    (with_sessions (delete (ss_Token old)) s1)) as (_ & _ & HT).
  destruct (addPeer _ _ _ _) as [[] s2]; [|done]. cbn [fst snd] in *.
  destruct (match data s2 with Some _ => _ | None => _ end) as [sip skey]. simpl in *. injection Ha as <-. simpl.
  split; [done|split; [done|split; [done|split; [done|]]]].
  rewrite lookup_insert_ne; [|intros Heq; pose proof (eo_token _ _ _ He); congruence].
  rewrite HT. simpl. apply lookup_delete_eq.
Qed.

(** ** Addresses *)

(** An address handed out belongs to the tunnel prefix and to nobody: it is
    not the network, server or broadcast address, no native peer's and no
    session's.  None is handed out only when every address of the prefix is
    taken. *)
Theorem allocateIP_complete s0 ops e d p (Hs : started s0) (H : all_steps (op_ok false) ops s0)
    (Hord : ranges (session_order e)) (Hd : data (after ops s0) = Some d)
    (Hp : tunnel_prefix (config (after ops s0)) p) :
  let s := after ops s0 in
  let free a := addr_wf a = true /\ Contains p a = true /\ ~ occupied (config s) p d (sessions s) a in
  match (allocateIP e d s).1 with
  | Some ip => exists a, ip = addr_String a /\ free a
  | None => forall a, ~ free a
  end.
Proof.
  intros s free. destruct (reachable_inv false s0 ops Hs H) as [(p' & Hp' & d' & Hd' & Hok & _) _].
  fold s in Hd, Hp, Hd', Hok. assert (d' = d) as -> by congruence.
  destruct (allocateIP_spec e d s p Hord Hp (tb_next _ _ _ _ Hok)) as (next & _ & Hall).
  destruct (allocateIP e d s) as [[ip|] s']; simpl.
  - destruct Hall as (_ & a & (-> & Hwf & Hc & _) & Hocc). exists a. by unfold free.
  - destruct Hall as [_ Hall]. intros a (Hwf & Hc & Hocc). apply Hocc. by apply Hall.
Qed.

(** ** Reload *)
Lemma matchesAllow_oidc fp comment email domain gs entry :
  matchesAllow (mkSubject "oidc" fp comment email domain gs) entry = true <->
  entry = "*"%string \/ entry = email \/ (domain <> ""%string /\ entry = domain) \/
  exists g, (g ∈ gs) /\ bytes_of entry = bytes_of "group:" ++ bytes_of g.
Proof.
  assert (Hgroup : match cut_group entry with
                   | Some group => existsb (fun g => (g =? group)%string) gs
                   | None => false
                   end = true <-> exists g, (g ∈ gs) /\ bytes_of entry = bytes_of "group:" ++ bytes_of g).
  { unfold cut_group. destruct (strip_prefix _ _) as [g|] eqn:E; simpl.
    - apply strip_prefix_spec in E. rewrite existsb_exists. setoid_rewrite <-list_elem_of_In. split.
      + intros (x & Hin & Hx%String.eqb_eq). subst x. exists (str_of g). by rewrite bytes_of_str_of.
      + intros (x & Hin & Hx). exists x. split; [done|]. apply String.eqb_eq. rewrite E in Hx.
        apply (app_inv_head (bytes_of "group:")) in Hx. by rewrite Hx, str_of_bytes_of.
    - split; [done|]. intros (g & _ & Hg). apply (strip_prefix_spec (bytes_of "group:")) in Hg. congruence. }
  unfold matchesAllow. simpl. rewrite !orb_true_iff, andb_true_iff, negb_true_iff, String.eqb_neq, !String.eqb_eq.
  rewrite Hgroup. tauto.
Qed.

Lemma length_filter_all {A} (f : A -> bool) (l : list A) :
  Zlen (List.filter f l) = Zlen l <-> forall x, x ∈ l -> f x = true.
Proof.
  assert (Hle : forall k : list A, Zlen (List.filter f k) <= Zlen k).
  { intros k. induction k as [|x k IH]; simpl; [lia|]. destruct (f x); rewrite !Zlen_cons; lia. }
  induction l as [|x l' IH]; simpl.
  { split; [|done]. intros _ x Hx. by apply elem_of_nil in Hx. }
  rewrite Zlen_cons. setoid_rewrite elem_of_cons. destruct (f x) eqn:E.
  - rewrite Zlen_cons, Z.add_cancel_l, IH. naive_solver.
  - split; [|naive_solver congruence]. specialize (Hle l'). lia.
Qed.

Lemma loses_tunnel_false allowed v :
  loses_tunnel allowed v = false <->
  forall tn, tn ∈ ss_Tunnels v -> exists t, (t ∈ allowed) /\ tc_Name t = tn_Name tn.
Proof.
  unfold loses_tunnel. rewrite negb_false_iff, Z.eqb_eq, length_filter_all.
  setoid_rewrite existsb_exists. setoid_rewrite <-list_elem_of_In. by setoid_rewrite String.eqb_eq.
Qed.

(** What a session needs of a configuration to live on: its issuer, or its
    key in the directory, and a grant for each of its tunnels. *)
Definition still_granted (e : env) (c : Config) (v : Session) : Prop :=
  let granted entry_ok :=
    forall tn, tn ∈ ss_Tunnels v -> exists t entry, (t ∈ cf_Tunnels c) /\ tc_Name t = tn_Name tn /\
      (entry ∈ tc_Allow t) /\ entry_ok entry in
  if (ss_Method v =? "oidc")%string then
    (exists i, (i ∈ cf_Issuers c) /\ oi_Name i = ss_Issuer v) /\
    granted (fun entry => entry = "*"%string \/ entry = ss_Identity v \/
      (emailDomain (ss_Identity v) <> ""%string /\ entry = emailDomain (ss_Identity v)) \/
      exists g, (g ∈ ss_Groups v) /\ bytes_of entry = bytes_of "group:" ++ bytes_of g)
  else
    exists comment, authorizedFingerprintEntry e (ss_Fingerprint v) = Some comment /\
    granted (fun entry => entry = "*"%string \/ entry = ss_Fingerprint v \/
      (comment <> ""%string /\ entry = comment)).

Lemma revoked_spec e c v : revoked e c v = false <-> still_granted e c v.
Proof.
  unfold revoked, still_granted. cbv zeta. destruct (ss_Method v =? "oidc")%string.
  - destruct (existsb _ (cf_Issuers c)) eqn:E; simpl.
    + apply existsb_exists in E as (i & Hi%list_elem_of_In & Hn%String.eqb_eq).
      rewrite loses_tunnel_false. setoid_rewrite elem_of_grants. setoid_rewrite matchesAllow_oidc.
      split; [intros Hall; split; [by exists i|]|intros [_ Hall]]; intros tn Htn;
        specialize (Hall tn Htn); naive_solver.
    + split; [done|]. intros [(i & Hi & Hn) _]. apply not_true_iff_false in E. destruct E.
      apply existsb_exists. exists i. split; [by apply list_elem_of_In|by apply String.eqb_eq].
  - destruct (authorizedFingerprintEntry _ _) as [comment|].
    + rewrite loses_tunnel_false. setoid_rewrite elem_of_grants. setoid_rewrite matchesAllow_ssh. split.
      * intros Hall. exists comment. split; [done|]. intros tn Htn. specialize (Hall tn Htn). naive_solver.
      * intros (c' & [= <-] & Hall) tn Htn. specialize (Hall tn Htn). naive_solver.
    + split; [done|]. by intros (c' & Hc & _).
Qed.

(** C24: A reload keeps exactly the sessions that no native peer of the new
    configuration displaces and whose principal is still known and still
    granted every tunnel it has; it creates and alters none. *)
Theorem Reload_keeps_granted s0 ops e c t v (Hs : started s0) (H : all_steps (op_ok false) ops s0)
    (Hord : ranges (session_order e)) :
  let s := after ops s0 in
  sessions (Reload e c s).1 !! t = Some v <->
  sessions s !! t = Some v /\
  (cf_NativeEnabled c = true -> conflicts (cf_NativePeers c) v = false) /\ still_granted e (reloaded c s) v.
Proof.
  intros s. assert (Hfiled : filed (sessions s)).
  { destruct (reachable_inv false s0 ops Hs H) as [Hinv _]. by eapply filed_of. }
  rewrite <-revoked_spec. unfold Reload. fold (reloaded c s).
  match goal with |- context [drop_loop (conflicts _) _ ?s0] => set (s0' := s0) end.
  destruct (if cf_NativeEnabled (reloaded c s) then _ else _) as [s1 evs] eqn:H1.
  assert (Hs1 : filed (sessions s1) /\ forall v, sessions s1 !! t = Some v <->
            sessions s !! t = Some v /\ (cf_NativeEnabled c = true -> conflicts (cf_NativePeers c) v = false)).
  { simpl in H1. destruct (cf_NativeEnabled c).
    - apply (f_equal fst) in H1. simpl in H1.
      pose proof (dropped_loop (session_order e) (conflicts (cf_NativePeers c)) s0' Hord Hfiled) as Hdrop.
      change (sessions s0') with (sessions s) in Hdrop. rewrite H1 in Hdrop. split.
      + intros k w Hw. apply (dr_sessions _ _ _ Hdrop) in Hw as [Hw _]. by apply Hfiled.
      + intros w. rewrite (dr_sessions _ _ _ Hdrop). change (sessions s0') with (sessions s). naive_solver.
    - injection H1 as <- <-. split; [done|]. intros w. change (sessions s0') with (sessions s). naive_solver. }
  destruct Hs1 as [Hf1 HT1].
  match goal with |- context [drop_loop (revoked _ _) _ ?s2] => set (s2' := s2) end.
  assert (HT2 : sessions s2' = sessions s1).
  { unfold s2'. clear s2'. destruct (negb (Bool.eqb _ _) || _); [by rewrite reconcile_state|done]. }
  rewrite <-HT2 in Hf1.
  pose proof (dropped_loop (session_order e) (revoked e (reloaded c s)) s2' Hord Hf1) as Hdrop.
  destruct (drop_loop _ _ s2') as [s3 evs']. simpl in Hdrop |- *.
  rewrite (dr_sessions _ _ _ Hdrop), HT2, HT1. tauto.
Qed.

(** ** Renewal *)

(** A renewal replaces the session by one of the same principal, key and
    address under a new token; its tunnels carry names the old session had,
    as the configuration now has them and the hook allows, and it lives no
    longer than the configured time.  When the hook refuses, the session and
    its token are gone. *)
Theorem renew_never_widens e token body s :
  let out := renew e token body s in
  (forall a, out.1.1 = Answered a -> exists old v,
     sessions s !! token = Some old /\ expired (t_first (clk e)) old = false /\ renewed e old v /\
     sessions out.1.2 = <[new_token e := v]> (delete token (sessions s)) /\
     rs_Token a = new_token e /\ rs_Tunnels a = ss_Tunnels v /\
     ss_Expires v <= t_create (clk e) + cf_SessionTTL (config s) /\
     exists r, Authorize (config s) (hook_answer e) = Some r /\ az_Allow r = true /\
     forall tn, tn ∈ ss_Tunnels v -> exists o t, (o ∈ ss_Tunnels old) /\ (t ∈ cf_Tunnels (config s)) /\
       tc_Name t = tn_Name o /\ tn = tunnel_of t /\
       match az_AllowedTunnels r with
       | ATString x => x = "*"%string
       | ATList l => Some (tc_Name t) ∈ l
       | ATOther => False
       end) /\
  (forall old info, Get (t_since (clk e)) token (sessions s) <> None -> body = Some info ->
     Get (t_first (clk e)) token (sessions s) = Some old ->
     authorize (config s) (hook_answer e)
       (ss_Tunnels old ≫= (fun p => config_named (config s) (tn_Name p))) = None ->
     out.1.1 = Failed 403 ErrorNotAllowed /\ sessions out.1.2 = delete token (sessions s)).
Proof.
  intros out. split.
  - intros a Ha. destruct (renew_cases e token body s) as (_ & _ & [[Hno _]|(a' & old & info & kept & ttl & v & Hren)]).
    { destruct Hno. by exists a. }
    destruct Hren as (Ha' & _ & Hold & Hlive & Hauth & HT & Hv & Htun & Hrs & Htok & Hexp).
    fold out in Ha'. rewrite Ha in Ha'. injection Ha' as <-. exists old, v.
    repeat (split; [done|]). apply authorize_Some in Hauth as (r & Hr & Hallow & Httl & Hkept).
    split; [rewrite Hexp; lia|]. exists r. split; [done|]. split; [done|]. intros tn Hin. rewrite Htun in Hin.
    apply list_elem_of_In, in_map_iff in Hin as (t & <- & Hin%list_elem_of_In).
    apply Hkept in Hin as [Hin Hhook]. apply list_elem_of_bind in Hin as (o & Hin & Ho).
    apply list_elem_of_In, filter_In in Hin as [Hin Hname%String.eqb_eq]. apply list_elem_of_In in Hin.
    exists o, t. done.
  - intros old info Hg0 -> Hg Hauth. unfold out, renew. destruct (Get (t_since _) _ _); [|done].
    rewrite Hg, Hauth. pose proof (dropSession_rest old (with_sessions (delete token) s)) as (_ & _ & HT).
    by destruct (dropSession old _).
Qed.
End ops.

(** ** The concrete run *)
Definition toy_reconnect : sessionRequest :=
  mkRequest "ssh" "SHA256:bob" "SHA256:bob" "" [] (wg_key x02) toy_info [] false.

(** The second user reconnects and keeps its address. *)
Lemma key_stays_owned_witness :
  exists old a, sessions (after toy_ops toy_start) !! ss_Token old = Some old /\
    (establishSession (toy_env (2 * minute) "i5" "k5") toy_reconnect [] (after toy_ops toy_start)).1.1 = Answered a /\
    ss_Identity old = "SHA256:bob"%string /\ rs_TunnelIP a = ss_TunnelIP old.
Proof.
  assert (H1 : exists old, sessions (after toy_ops toy_start) !! ss_Token old = Some old /\
            expired (2 * minute) old = false /\ decodeKey (ss_WireGuardPublicKey old) = Some (replicate 32 x02)).
  { assert (H : exists old, sessions (after toy_ops toy_start) !! "k2"%string = Some old)
      by (eexists; vm_compute; reflexivity).
    destruct H as [old Hold]. exists old.
    assert (H : exists v, sessions (after toy_ops toy_start) !! "k2"%string = Some v /\ ss_Token v = "k2"%string /\
      expired (2 * minute) v = false /\ decodeKey (ss_WireGuardPublicKey v) = Some (replicate 32 x02))
      by (eexists; split; [vm_compute; reflexivity|split; [|split]; vm_compute; reflexivity]).
    destruct H as (v & Hv & Ht & He & Hk). rewrite Hold in Hv. injection Hv as <-. rewrite Ht. auto. }
  assert (H2 : exists a, (establishSession (toy_env (2 * minute) "i5" "k5") toy_reconnect []
            (after toy_ops toy_start)).1.1 = Answered a) by (eexists; vm_compute; reflexivity).
  destruct H1 as (old & Hold & Hlive & Hraw), H2 as [a Ha]. exists old, a. split; [exact Hold|]. split; [exact Ha|].
  assert (Henv : env_ok false (toy_env (2 * minute) "i5" "k5") (after toy_ops toy_start))
    by (apply toy_env_ok; vm_compute; reflexivity).
  assert (Hdec : decodeKey (sr_WireGuardPublicKey toy_reconnect) = Some (replicate 32 x02)) by (vm_compute; reflexivity).
  assert (Ht : t_reap (clk (toy_env (2 * minute) "i5" "k5")) <= t_find (clk (toy_env (2 * minute) "i5" "k5")))
    by (simpl; lia).
  destruct (key_stays_owned toy_start toy_ops _ toy_reconnect [] a old _ toy_started (toy_two_ok false) Henv Ht
    Hold Hlive Hraw Hdec eq_refl Ha) as (_ & Hi & _ & Hip & _).
  split; [exact Hi|exact Hip].
Defined.

(** Four of the eight addresses can be handed out; with two taken a third
    user still gets one. *)
Lemma allocateIP_complete_witness :
  exists d ip a, (allocateIP (toy_env (2 * minute) "" "") d (after toy_ops toy_start)).1 = Some ip /\
    ip = addr_String a /\ ~ occupied (config (after toy_ops toy_start)) toy_prefix d (sessions (after toy_ops toy_start)) a.
Proof.
  assert (H1 : exists d ip, data (after toy_ops toy_start) = Some d /\
            (allocateIP (toy_env (2 * minute) "" "") d (after toy_ops toy_start)).1 = Some ip)
    by (eexists _, _; split; [vm_compute; reflexivity|vm_compute; reflexivity]).
  destruct H1 as (d & ip & Hd & Hip).
  assert (Hp : tunnel_prefix (config (after toy_ops toy_start)) toy_prefix).
  { assert (config (after toy_ops toy_start) = toy_config ["alice"%string]) as -> by (vm_compute; reflexivity).
    apply toy_tunnel_prefix. }
  pose proof (allocateIP_complete toy_start toy_ops (toy_env (2 * minute) "" "") d toy_prefix toy_started
    (toy_two_ok false) ranges_map_keys Hd Hp) as Hall.
  cbv zeta in Hall. rewrite Hip in Hall. destruct Hall as (a & -> & _ & _ & Hocc).
  exists d, (addr_String a), a. split; [exact Hip|]. split; [reflexivity|exact Hocc].
Defined.

(** The reload that takes the first user's grant keeps the second user's
    session. *)
Lemma Reload_keeps_granted_witness :
  exists v, sessions (Reload (toy_env (2 * minute) "i5" "k5") (toy_config []) (after toy_ops toy_start)).1 !! "k2"%string = Some v /\
    still_granted (toy_env (2 * minute) "i5" "k5") (reloaded (toy_config []) (after toy_ops toy_start)) v.
Proof.
  assert (H : exists v, sessions (Reload (toy_env (2 * minute) "i5" "k5") (toy_config []) (after toy_ops toy_start)).1
            !! "k2"%string = Some v) by (eexists; vm_compute; reflexivity).
  destruct H as [v Hv]. exists v. split; [exact Hv|].
  exact (proj2 (proj2 (proj1 (Reload_keeps_granted toy_start toy_ops (toy_env (2 * minute) "i5" "k5") (toy_config [])
    "k2"%string v toy_started (toy_two_ok false) ranges_map_keys) Hv))).
Defined.

Lemma renew_never_widens_witness :
  exists a old v, (renew (toy_env minute "i5" "k5") "k4" (Some toy_info) (after toy_ops toy_start)).1.1 = Answered a /\
    sessions (after toy_ops toy_start) !! "k4"%string = Some old /\ renewed (toy_env minute "i5" "k5") old v /\
    rs_Tunnels a = ss_Tunnels v.
Proof.
  assert (H : exists a, (renew (toy_env minute "i5" "k5") "k4" (Some toy_info) (after toy_ops toy_start)).1.1 = Answered a)
    by (eexists; vm_compute; reflexivity).
  destruct H as [a Ha].
  destruct (proj1 (renew_never_widens (toy_env minute "i5" "k5") "k4" (Some toy_info) (after toy_ops toy_start)) a Ha)
    as (old & v & Hold & _ & Hv & _ & _ & Ht & _).
  exists a, old, v. split; [exact Ha|]. split; [exact Hold|]. split; [exact Hv|exact Ht].
Defined.
