(* ===== verification/RelayPool.v ===== *)
(** [pkg/server/relaypool.go]: the pool that keeps a server registered with
    several relays, prefers one of them, and publishes its choice through
    callbacks.

    [update] and [Close] are calls of several steps: a critical section under
    [mu], the wait for [callbacksMu], a second look under [mu], and the
    callbacks one by one.  Calls of different members interleave at every
    step.  A callback that is nil is never called. *)
From S2P Require Import Prelude Bytes Protocol Scheduler.
From Stdlib Require Import SpecFloat.

Definition f64_add : spec_float -> spec_float -> spec_float := SFadd 53 1024.

(** ** Members *)

(** The agent of a member is its index: each member has its own. *)
Record relayPoolMember := mkMember {
  registered : bool;
  response : RelayRegisterResponse;
}.

Record NativeAssociation := mkNative { na_Addr : string; na_Token : string }.

#[export] Instance NativeAssociation_eq_dec : EqDecision NativeAssociation.
Proof. solve_decision. Defined.

(** The allocations of a member's agent that succeeded and that failed. *)
Record AllocationStats := { as_success : Z; as_failure : Z }.

Definition score (m : relayPoolMember) (st : AllocationStats) : spec_float :=
  let sc := S754_zero false in
  let sc := if (rp_UDPRelayAddr (response m) =? "")%string then f64_add sc (f64_of_int 1) else sc in
  let total := u64 (as_success st + as_failure st) in
  if 0 <? total then f64_add sc (f64_div (f64_of_int (as_failure st)) (f64_of_int total)) else sc.

(** ** The pool *)
Record RelayPool := mkPool {
  members : list relayPoolMember;
  revision : Z;
  preferredPending : bool;
  nativeSetPending : bool;
  closed : bool;
  domain : string;
  preferred : option nat;
}.

Definition empty_response : RelayRegisterResponse := {|
  rp_Version := 0; rp_Name := ""; rp_Domain := ""; rp_Error := ""; rp_Code := "";
  rp_ReflectAddr := ""; rp_UDPRelayAddr := ""; rp_NativeWireGuardAddr := "";
  rp_NativeWireGuardToken := ""; rp_RelayVersion := ""; rp_Capabilities := [];
  rp_RequiredCapabilities := [] |}.

(** A pool of [n] relays ([NewRelayPool]: one for each endpoint). *)
Definition NewRelayPool (n : nat) : RelayPool :=
  mkPool (replicate n (mkMember false empty_response)) 0 false false false "" None.

Definition native_of (m : relayPoolMember) : list NativeAssociation :=
  let r := response m in
  if registered m && negb (rp_NativeWireGuardAddr r =? "")%string
     && negb (rp_NativeWireGuardToken r =? "")%string
  then [mkNative (rp_NativeWireGuardAddr r) (rp_NativeWireGuardToken r)] else [].

Definition nativeSet (ms : list relayPoolMember) : list NativeAssociation := ms ≫= native_of.

(** The loop of [choosePreferred] over the members from index [i] on. *)
Fixpoint choose_loop (stats : nat -> AllocationStats) (i : nat) (ms : list relayPoolMember)
    (best : option (nat * spec_float)) : option (nat * spec_float) :=
  match ms with
  | [] => best
  | m :: ms =>
      let best :=
        if registered m then
          let sc := score m (stats i) in
          match best with
          | None => Some (i, sc)
          | Some (_, b) => if SFltb sc b then Some (i, sc) else best
          end
        else best in
      choose_loop stats (S i) ms best
  end.

Definition is_registered (ms : list relayPoolMember) (i : nat) : bool :=
  match ms !! i with Some m => registered m | None => false end.

Definition choosePreferred (stats : nat -> AllocationStats) (ms : list relayPoolMember)
    (current : option nat) : option nat :=
  match current with
  | Some i => if is_registered ms i then current else fst <$> choose_loop stats 0 ms None
  | None => fst <$> choose_loop stats 0 ms None
  end.

(** What the callbacks tell of the preferred member. *)
Record preferred_view := mkPreferred {
  pv_agent : option nat;
  pv_reflect : string;
  pv_udp : string;
  pv_native : NativeAssociation;
}.

Definition no_preferred : preferred_view := mkPreferred None "" "" (mkNative "" "").

Definition view_of (ms : list relayPoolMember) (pref : option nat) : preferred_view :=
  match pref with
  | None => no_preferred
  | Some i =>
      let r := match ms !! i with Some m => response m | None => empty_response end in
      mkPreferred (Some i) (rp_ReflectAddr r) (rp_UDPRelayAddr r)
        (mkNative (rp_NativeWireGuardAddr r) (rp_NativeWireGuardToken r))
  end.

(** What [update] keeps in its locals from the first critical section. *)
Record snapshot := mkSnap {
  sn_revision : Z;
  sn_view : preferred_view;
  sn_set : list NativeAssociation;
}.

Definition same_addrs (r r' : RelayRegisterResponse) : bool :=
  (rp_ReflectAddr r =? rp_ReflectAddr r')%string
  && (rp_UDPRelayAddr r =? rp_UDPRelayAddr r')%string
  && (rp_NativeWireGuardAddr r =? rp_NativeWireGuardAddr r')%string
  && (rp_NativeWireGuardToken r =? rp_NativeWireGuardToken r')%string.

(** A member whose relay serves another domain is not taken. *)
Definition admitted (p : RelayPool) (reg : bool) (resp : RelayRegisterResponse) : bool :=
  reg && negb (negb (rp_Domain resp =? "")%string && negb (domain p =? "")%string
               && negb (rp_Domain resp =? domain p)%string).

(** The first critical section of [update]; [None]: it returns there. *)
Definition update_begin (stats : nat -> AllocationStats) (i : nat) (reg : bool)
    (resp : RelayRegisterResponse) (p : RelayPool) : option snapshot * RelayPool :=
  if closed p then (None, p) else
  match members p !! i with
  | None => (None, p)
  | Some m =>
      let reg := admitted p reg resp in
      let dom := if reg && negb (rp_Domain resp =? "")%string && (domain p =? "")%string
                 then rp_Domain resp else domain p in
      let ms := <[i := mkMember reg resp]> (members p) in
      let pref := choosePreferred stats ms (preferred p) in
      let setChanged := negb (bool_decide (nativeSet (members p) = nativeSet ms)) in
      let changed := negb (bool_decide (preferred p = pref))
                     || (bool_decide (pref = Some i) && reg && negb (same_addrs (response m) resp)) in
      let rev := if changed || setChanged then u64 (revision p + 1) else revision p in
      (if changed || setChanged then Some (mkSnap rev (view_of ms pref) (nativeSet ms)) else None,
       mkPool ms rev (preferredPending p || changed) (nativeSetPending p || setChanged)
         false dom pref)
  end.

(** The second one: [Some] tells which callbacks are due. *)
Definition update_check (sn : snapshot) (p : RelayPool) : option (bool * bool) * RelayPool :=
  if negb (closed p) && (revision p =? sn_revision sn)
  then (Some (preferredPending p, nativeSetPending p),
        mkPool (members p) (revision p) false false (closed p) (domain p) (preferred p))
  else (None, p).

Definition close_locked (p : RelayPool) : bool * RelayPool :=
  if closed p then (false, p)
  else (true, mkPool ((fun m => mkMember false (response m)) <$> members p) (revision p)
                (preferredPending p) (nativeSetPending p) true (domain p) None).

Definition Healthy (p : RelayPool) : bool := existsb registered (members p).

(** ** Callbacks *)
Record hooks := mkHooks { hk_reflect : bool; hk_udp : bool; hk_native : bool; hk_set : bool }.

Inductive callback : Type :=
  | OnReflectAddr (addr : string)
  | OnUDPRelayAddr (agent : option nat) (addr : string)
  | OnNativeWireGuard (a : NativeAssociation)
  | OnNativeWireGuardSet (s : list NativeAssociation).

Definition preferred_callbacks (h : hooks) (v : preferred_view) : list callback :=
  (if hk_reflect h then [OnReflectAddr (pv_reflect v)] else [])
  ++ (if hk_udp h then [OnUDPRelayAddr (pv_agent v) (pv_udp v)] else [])
  ++ (if hk_native h then [OnNativeWireGuard (pv_native v)] else []).

Definition set_callbacks (h : hooks) (s : list NativeAssociation) : list callback :=
  if hk_set h then [OnNativeWireGuardSet s] else [].

Definition update_callbacks (h : hooks) (sn : snapshot) (due : bool * bool) : list callback :=
  (if due.1 then preferred_callbacks h (sn_view sn) else [])
  ++ (if due.2 then set_callbacks h (sn_set sn) else []).

Definition close_callbacks (h : hooks) : list callback :=
  set_callbacks h [] ++ preferred_callbacks h no_preferred.

(** What the receivers were last told; before any call, that there is no
    relay. *)
Record told := mkTold {
  t_reflect : string;
  t_udp : option nat * string;
  t_native : NativeAssociation;
  t_set : list NativeAssociation;
}.

Definition untold : told := mkTold "" (None, "") (mkNative "" "") [].

Definition hear (t : told) (c : callback) : told :=
  match c with
  | OnReflectAddr a => mkTold a (t_udp t) (t_native t) (t_set t)
  | OnUDPRelayAddr g a => mkTold (t_reflect t) (g, a) (t_native t) (t_set t)
  | OnNativeWireGuard a => mkTold (t_reflect t) (t_udp t) a (t_set t)
  | OnNativeWireGuardSet s => mkTold (t_reflect t) (t_udp t) (t_native t) s
  end.

Definition hear_all (t : told) (cs : list callback) : told := foldl hear t cs.

(** ** Calls in flight *)
Inductive phase : Type :=
  | Updating (sn : snapshot)
  | Closing
  | Checking (sn : snapshot)
  | CloseChecking
  | Calling (cs : list callback).

Record sys := mkSys {
  pool : RelayPool;
  calls : gmap nat phase;
  holder : option nat;
  receivers : told;
}.

Inductive label : Type :=
  | LUpdate (t : nat) (stats : nat -> AllocationStats) (i : nat) (reg : bool)
      (resp : RelayRegisterResponse)
  | LClose (t : nat)
  | LLock (t : nat)
  | LCheck (t : nat)
  | LCall (t : nat)
  | LUnlock (t : nat).

Definition set_call (t : nat) (ph : phase) (s : sys) : sys :=
  mkSys (pool s) (<[t := ph]> (calls s)) (holder s) (receivers s).
Definition with_pool (p : RelayPool) (s : sys) : sys :=
  mkSys p (calls s) (holder s) (receivers s).
Definition with_holder (h : option nat) (s : sys) : sys :=
  mkSys (pool s) (calls s) h (receivers s).

Definition step (h : hooks) (l : label) (s : sys) : option sys :=
  match l with
  | LUpdate t stats i reg resp =>
      match calls s !! t with
      | Some _ => None
      | None =>
          match update_begin stats i reg resp (pool s) with
          | (Some sn, p) => Some (set_call t (Updating sn) (with_pool p s))
          | (None, p) => Some (with_pool p s)
          end
      end
  | LClose t => match calls s !! t with Some _ => None | None => Some (set_call t Closing s) end
  | LLock t =>
      match calls s !! t, holder s with
      | Some (Updating sn), None => Some (set_call t (Checking sn) (with_holder (Some t) s))
      | Some Closing, None => Some (set_call t CloseChecking (with_holder (Some t) s))
      | _, _ => None
      end
  | LCheck t =>
      match calls s !! t with
      | Some (Checking sn) =>
          let '(due, p) := update_check sn (pool s) in
          Some (set_call t (Calling (match due with
                                     | Some d => update_callbacks h sn d
                                     | None => [] end)) (with_pool p s))
      | Some CloseChecking =>
          let '(first, p) := close_locked (pool s) in
          Some (set_call t (Calling (if first : bool then close_callbacks h else []))
                  (with_pool p s))
      | _ => None
      end
  | LCall t =>
      match calls s !! t with
      | Some (Calling (c :: cs)) =>
          Some (mkSys (pool s) (<[t := Calling cs]> (calls s)) (holder s) (hear (receivers s) c))
      | _ => None
      end
  | LUnlock t =>
      match calls s !! t with
      | Some (Calling []) => Some (mkSys (pool s) (delete t (calls s)) None (receivers s))
      | _ => None
      end
  end.

Fixpoint run (h : hooks) (ls : list label) (s : sys) : option sys :=
  match ls with
  | [] => Some s
  | l :: ls => match step h l s with Some s' => run h ls s' | None => None end
  end.

Definition start (n : nat) : sys := mkSys (NewRelayPool n) ∅ None untold.

(** ** The choice *)

Lemma f64_ltb_trans a b c : SFltb a b = true -> SFltb b c = true -> SFltb a c = true.
Proof.
  unfold SFltb, SFcompare.
  destruct a as [[]|[]| |[] ? ?], b as [[]|[]| |[] ? ?], c as [[]|[]| |[] ? ?]; try done;
  repeat match goal with |- context [Z.compare ?x ?y] => destruct (Z.compare_spec x y) end;
  subst; try done; try lia;
  rewrite ?Pos.compare_cont_spec;
  repeat match goal with |- context [Pos.compare ?x ?y] => destruct (Pos.compare_spec x y) end;
  subst; simpl; try done; lia.
Qed.

Lemma f64_ltb_irrefl a : SFltb a a = false.
Proof.
  unfold SFltb, SFcompare. destruct a as [[]|[]| |[] ? ?]; try done;
    by rewrite Z.compare_refl, Pos.compare_cont_refl.
Qed.

Definition best_of (stats : nat -> AllocationStats) (i : nat) (ms : list relayPoolMember)
    (k : nat) (b : spec_float) : Prop :=
  exists j m, ms !! j = Some m /\ registered m = true /\ k = (i + j)%nat /\ b = score m (stats k).

Lemma best_of_cons stats i m ms k b : best_of stats (S i) ms k b -> best_of stats i (m :: ms) k b.
Proof.
  intros (j & m' & Hj & Hr & Hk & Hb). exists (S j), m'. repeat split; try done. lia.
Qed.

Lemma choose_loop_some stats i ms k0 b0 :
  exists k b, choose_loop stats i ms (Some (k0, b0)) = Some (k, b)
    /\ ((k, b) = (k0, b0) \/ best_of stats i ms k b)
    /\ (forall x, SFltb x b0 = false -> SFltb x b = false)
    /\ (forall j m, ms !! j = Some m -> registered m = true ->
          SFltb (score m (stats (i + j)%nat)) b = false).
Proof.
  revert i k0 b0. induction ms as [|m ms IH]; intros i k0 b0; cbn.
  { exists k0, b0. split; [done|]. split; [by left|]. by split. }
  set (best := if SFltb (score m (stats i)) b0 then (i, score m (stats i)) else (k0, b0)).
  assert (Hb : registered m = true -> (if registered m then
      if SFltb (score m (stats i)) b0 then Some (i, score m (stats i)) else Some (k0, b0)
      else Some (k0, b0)) = Some best) by (intros ->; unfold best; by destruct (SFltb _ _)).
  destruct (registered m) eqn:Er.
  - rewrite (Hb eq_refl). destruct best as [k1 b1] eqn:Eb.
    destruct (IH (S i) k1 b1) as (k & b & Hl & Hin & Hle & Hall).
    assert (Hle1 : forall x, SFltb x b0 = false -> SFltb x b1 = false).
    { intros x Hx. unfold best in Eb. destruct (SFltb (score m (stats i)) b0) eqn:E.
      - injection Eb as _ <-. destruct (SFltb x (score m (stats i))) eqn:E'; [|done].
        by rewrite (f64_ltb_trans _ _ _ E' E) in Hx.
      - by injection Eb as _ <-. }
    exists k, b. split; [done|]. split; [|split].
    + destruct Hin as [Hin|Hin]; [|right; by apply best_of_cons].
      injection Hin as -> ->. unfold best in Eb.
      destruct (SFltb _ b0); injection Eb as <- <-; [right|by left].
      exists 0%nat, m. repeat split; first [done | lia].
    + intros x Hx. apply Hle, Hle1, Hx.
    + intros [|j] m' Hj Hr; [|rewrite <-(Hall j m' Hj Hr); do 3 f_equal; lia].
      injection Hj as <-. rewrite Nat.add_0_r. apply Hle. unfold best in Eb.
      destruct (SFltb (score m (stats i)) b0) eqn:E; injection Eb as _ <-;
        [apply f64_ltb_irrefl|done].
  - destruct (IH (S i) k0 b0) as (k & b & Hl & Hin & Hle & Hall).
    exists k, b. split; [done|]. split; [|split; [done|]].
    + destruct Hin as [Hin|Hin]; [by left|right; by apply best_of_cons].
    + intros [|j] m' Hj Hr; [injection Hj as <-; congruence|].
      rewrite <-(Hall j m' Hj Hr). do 3 f_equal. lia.
Qed.

Lemma choose_loop_none stats i ms :
  match choose_loop stats i ms None with
  | None => Forall (fun m => registered m = false) ms
  | Some (k, b) => best_of stats i ms k b
      /\ (forall j m, ms !! j = Some m -> registered m = true ->
            SFltb (score m (stats (i + j)%nat)) b = false)
  end.
Proof.
  revert i. induction ms as [|m ms IH]; intros i; cbn; [by constructor|].
  destruct (registered m) eqn:Er.
  - destruct (choose_loop_some stats (S i) ms i (score m (stats i)))
      as (k & b & -> & Hin & Hle & Hall). split.
    + destruct Hin as [[= -> ->]|Hin]; [|by apply best_of_cons].
      exists 0%nat, m. repeat split; first [done | lia].
    + intros [|j] m' Hj Hr; [injection Hj as <-; rewrite Nat.add_0_r; apply Hle, f64_ltb_irrefl|].
      rewrite <-(Hall j m' Hj Hr). do 3 f_equal. lia.
  - specialize (IH (S i)). destruct (choose_loop stats (S i) ms None) as [[k b]|].
    + destruct IH as [Hin Hall]. split; [by apply best_of_cons|].
      intros [|j] m' Hj Hr; [injection Hj as <-; congruence|].
      rewrite <-(Hall j m' Hj Hr). do 3 f_equal. lia.
    + by constructor.
Qed.

Lemma is_registered_spec ms i :
  is_registered ms i = true <-> exists m, ms !! i = Some m /\ registered m = true.
Proof. unfold is_registered. destruct (ms !! i); naive_solver. Qed.

Lemma choosePreferred_registered stats ms cur i :
  choosePreferred stats ms cur = Some i -> is_registered ms i = true.
Proof.
  assert (Hloop : fst <$> choose_loop stats 0 ms None = Some i -> is_registered ms i = true).
  { pose proof (choose_loop_none stats 0 ms) as H.
    destruct (choose_loop stats 0 ms None) as [[k b]|]; [|done]. intros [= <-].
    destruct H as [(j & m & Hj & Hr & -> & _) _]. apply is_registered_spec. eauto. }
  unfold choosePreferred. destruct cur as [k|]; [|done].
  destruct (is_registered ms k) eqn:E; [by intros [= <-]|done].
Qed.

(** the preferred relay is sticky and otherwise the best: as long as the current
    one stays registered it is kept, whatever the others score; when it is
    gone, the choice is a registered member that no registered member beats
    (the score prefers relays with a UDP tier, then fewer failed
    allocations), and there is no choice only when nobody is registered. *)
Theorem choosePreferred_spec (stats : nat -> AllocationStats) ms cur :
  (forall i, cur = Some i -> is_registered ms i = true -> choosePreferred stats ms cur = cur)
  /\ ((forall i, cur = Some i -> is_registered ms i = false) ->
      match choosePreferred stats ms cur with
      | None => Forall (fun m => registered m = false) ms
      | Some i => exists m, ms !! i = Some m /\ registered m = true
          /\ forall j m', ms !! j = Some m' -> registered m' = true ->
                SFltb (score m' (stats j)) (score m (stats i)) = false
      end).
Proof.
  split; [intros i -> Hi; unfold choosePreferred; by rewrite Hi|]. intros Hcur.
  assert (Hl : choosePreferred stats ms cur = fst <$> choose_loop stats 0 ms None).
  { unfold choosePreferred. destruct cur as [i|]; [|done]. by rewrite (Hcur i eq_refl). }
  rewrite Hl. pose proof (choose_loop_none stats 0 ms) as H.
  destruct (choose_loop stats 0 ms None) as [[k b]|]; [|done].
  destruct H as [(j & m & Hj & Hr & -> & ->) Hall]. exists m. by repeat split.
Qed.

(** ** What the first critical section changes *)

Definition current_view (p : RelayPool) : preferred_view := view_of (members p) (preferred p).
Definition current_set (p : RelayPool) : list NativeAssociation := nativeSet (members p).

(** The preferred member is registered; registered members that name a
    client domain name the pool's. *)
Definition pool_ok (p : RelayPool) : Prop :=
  (forall i, preferred p = Some i -> is_registered (members p) i = true)
  /\ (forall i m, members p !! i = Some m -> registered m = true ->
        rp_Domain (response m) <> ""%string -> rp_Domain (response m) = domain p).

Lemma same_addrs_spec r r' :
  same_addrs r r' = true -> rp_ReflectAddr r = rp_ReflectAddr r' /\ rp_UDPRelayAddr r = rp_UDPRelayAddr r'
    /\ rp_NativeWireGuardAddr r = rp_NativeWireGuardAddr r'
    /\ rp_NativeWireGuardToken r = rp_NativeWireGuardToken r'.
Proof. unfold same_addrs. intros H. bool_to_prop. naive_solver. Qed.

Lemma view_same ms i m reg resp pref :
  ms !! i = Some m ->
  (forall k, pref = Some k -> is_registered (<[i := mkMember reg resp]> ms) k = true) ->
  bool_decide (pref = Some i) && reg && negb (same_addrs (response m) resp) = false ->
  view_of (<[i := mkMember reg resp]> ms) pref = view_of ms pref.
Proof.
  intros Hi Hreg Hc. unfold view_of. destruct pref as [k|]; [|done].
  destruct (decide (k = i)) as [->|Hne]; [|by rewrite list_lookup_insert_ne].
  specialize (Hreg i eq_refl). apply is_registered_spec in Hreg as (m' & Hm' & Hr).
  assert (Hlt : (i < length ms)%nat) by (eapply lookup_lt_Some; eauto).
  rewrite list_lookup_insert_eq in Hm' by done. injection Hm' as <-. simpl in Hr. subst reg.
  rewrite list_lookup_insert_eq, Hi by done. simpl.
  rewrite bool_decide_true in Hc by done. simpl in Hc. apply negb_false_iff, same_addrs_spec in Hc.
  destruct Hc as (-> & -> & -> & ->). done.
Qed.

Lemma admitted_domain p reg resp :
  admitted p reg resp = true -> rp_Domain resp <> ""%string -> domain p <> ""%string ->
  rp_Domain resp = domain p.
Proof.
  unfold admitted. intros [_ H]%andb_true_iff H1%String.eqb_neq H2%String.eqb_neq.
  rewrite H1, H2 in H. simpl in H. by apply negb_true_iff, negb_false_iff, String.eqb_eq in H.
Qed.

Lemma update_begin_ok stats i reg resp p o p' :
  pool_ok p -> closed p = false -> update_begin stats i reg resp p = (o, p') ->
  pool_ok p' /\ closed p' = false
  /\ match o with
     | None => revision p' = revision p /\ preferredPending p' = preferredPending p
         /\ nativeSetPending p' = nativeSetPending p /\ current_view p' = current_view p
         /\ current_set p' = current_set p
     | Some sn => revision p' = u64 (revision p + 1)
         /\ sn = mkSnap (revision p') (current_view p') (current_set p')
         /\ (preferredPending p' = false ->
               preferredPending p = false /\ current_view p' = current_view p)
         /\ (nativeSetPending p' = false ->
               nativeSetPending p = false /\ current_set p' = current_set p)
     end.
Proof.
  intros [Hpref Hdom] Hcl. unfold update_begin. rewrite Hcl.
  destruct (members p !! i) as [m|] eqn:Hi; [|intros [= <- <-]; by repeat split].
  set (reg' := admitted p reg resp). set (ms := <[i := mkMember reg' resp]> (members p)).
  set (pref := choosePreferred stats ms (preferred p)).
  assert (Hp' : forall k, pref = Some k -> is_registered ms k = true)
    by (intros k; apply choosePreferred_registered).
  set (ch2 := bool_decide (pref = Some i) && reg' && negb (same_addrs (response m) resp)).
  assert (Hview : bool_decide (preferred p = pref) = true -> ch2 = false ->
      view_of ms pref = view_of (members p) (preferred p)).
  { intros E Hc. apply bool_decide_eq_true in E. rewrite E. by apply (view_same _ _ m). }
  intros [= <- <-]. split; [|split; [done|]].
  - split; [done|]. simpl. intros k m' Hk Hr Hne.
    assert (Hlt : (i < length (members p))%nat) by (eapply lookup_lt_Some; eauto).
    destruct (decide (k = i)) as [->|Hki].
    + unfold ms in Hk. rewrite list_lookup_insert_eq in Hk by done. injection Hk as <-.
      simpl in *. rewrite Hr, (proj2 (String.eqb_neq _ _) Hne). simpl.
      destruct (domain p =? "")%string eqn:E; [done|]. apply String.eqb_neq in E.
      by eapply admitted_domain.
    + unfold ms in Hk. rewrite list_lookup_insert_ne in Hk by done.
      rewrite (Hdom _ _ Hk Hr Hne).
      destruct (domain p =? "")%string eqn:E; [|by rewrite andb_false_r].
      apply String.eqb_eq in E. rewrite <-(Hdom _ _ Hk Hr Hne) in E. done.
  - unfold current_view, current_set. simpl.
    destruct (negb (bool_decide (preferred p = pref)) || ch2) eqn:Ec; simpl.
    + split; [done|]. split; [done|]. rewrite orb_true_r. split; [done|].
      intros Hs. apply orb_false_iff in Hs as [-> Hs]. apply negb_false_iff, bool_decide_eq_true in Hs.
      done.
    + apply orb_false_iff in Ec as [E1%negb_false_iff E2]. specialize (Hview E1 E2).
      destruct (bool_decide (nativeSet (members p) = nativeSet ms)) eqn:Es; simpl.
      * rewrite !orb_false_r. apply bool_decide_eq_true in Es. done.
      * split; [done|]. split; [done|]. rewrite !orb_false_r, orb_true_r. done.
Qed.

(** ** What the receivers hear *)

(** A receiver whose callback is nil hears nothing. *)
Definition mask (h : hooks) (t : told) : told :=
  mkTold (if hk_reflect h then t_reflect t else "") (if hk_udp h then t_udp t else (None, ""%string))
    (if hk_native h then t_native t else mkNative "" "") (if hk_set h then t_set t else []).

(** What there is to tell of a pool. *)
Definition told_of (v : preferred_view) (s : list NativeAssociation) : told :=
  mkTold (pv_reflect v) (pv_agent v, pv_udp v) (pv_native v) s.

Definition pref_part (t : told) : string * (option nat * string) * NativeAssociation :=
  (t_reflect t, t_udp t, t_native t).

Lemma told_parts t t' : pref_part t = pref_part t' -> t_set t = t_set t' -> t = t'.
Proof. destruct t, t'. unfold pref_part. simpl. congruence. Qed.

Lemma hear_update h t sn due :
  mask h t = t ->
  let t' := hear_all t (update_callbacks h sn due) in
  mask h t' = t'
  /\ pref_part t' = (if due.1 then pref_part (mask h (told_of (sn_view sn) (sn_set sn))) else pref_part t)
  /\ t_set t' = (if due.2 then t_set (mask h (told_of (sn_view sn) (sn_set sn))) else t_set t).
Proof.
  intros <-. destruct h as [[] [] [] []], due as [[] []]; by cbn.
Qed.

Lemma hear_close h t : mask h t = t -> hear_all t (close_callbacks h) = untold.
Proof. intros <-. destruct h as [[] [] [] []]; by cbn. Qed.

(** ** The invariant of calls in flight *)
Definition holds (ph : phase) : bool :=
  match ph with Updating _ | Closing => false | _ => true end.
Definition snap_of (ph : phase) : option snapshot :=
  match ph with Updating sn | Checking sn => Some sn | _ => None end.

Definition remaining (s : sys) : list callback :=
  match holder s with
  | Some t => match calls s !! t with Some (Calling cs) => cs | _ => [] end
  | None => []
  end.

(** What the receivers know once the call that holds [callbacksMu] is over. *)
Definition settled (s : sys) : told := hear_all (receivers s) (remaining s).

Record inv (h : hooks) (n : Z) (s : sys) : Prop := mkInv {
  iv_ok : pool_ok (pool s);
  iv_holder : forall t ph, calls s !! t = Some ph -> (holds ph = true <-> holder s = Some t);
  iv_live : forall t, holder s = Some t -> is_Some (calls s !! t);
  iv_rev : 0 <= revision (pool s) <= n;
  iv_mask : mask h (settled s) = settled s;
  iv_closed : closed (pool s) = true -> settled s = untold;
  iv_pref : closed (pool s) = false -> preferredPending (pool s) = false ->
    pref_part (settled s) = pref_part (mask h (told_of (current_view (pool s)) (current_set (pool s))));
  iv_set : closed (pool s) = false -> nativeSetPending (pool s) = false ->
    t_set (settled s) = t_set (mask h (told_of (current_view (pool s)) (current_set (pool s))));
  iv_snap : forall t ph sn, calls s !! t = Some ph -> snap_of ph = Some sn ->
    sn_revision sn <= revision (pool s)
    /\ (closed (pool s) = false -> sn_revision sn = revision (pool s) ->
          sn_view sn = current_view (pool s) /\ sn_set sn = current_set (pool s));
  iv_due : closed (pool s) = false -> preferredPending (pool s) || nativeSetPending (pool s) = true ->
    exists t ph sn, calls s !! t = Some ph /\ snap_of ph = Some sn
      /\ sn_revision sn = revision (pool s);
}.

Lemma inv_mono h n n' s : n <= n' -> inv h n s -> inv h n' s.
Proof. intros Hn []. constructor; try done. lia. Qed.

(** Steps that leave the pool alone: a call moves between phases. *)
Lemma pool_inv_move h n s t ph0 ph hd r :
  inv h n s -> calls s !! t = Some ph0 -> snap_of ph = snap_of ph0 ->
  (holds ph = true <-> hd = Some t) ->
  (forall t', t' <> t -> hd = Some t' <-> holder s = Some t') ->
  let s' := mkSys (pool s) (<[t := ph]> (calls s)) hd r in
  settled s' = settled s -> inv h n s'.
Proof.
  intros [] Ht Hsn Hhd Hother s' Hset. constructor; try (by rewrite ?Hset); simpl.
  - intros t' ph'. destruct (decide (t' = t)) as [->|Hne].
    + rewrite lookup_insert_eq. by intros [= <-].
    + rewrite lookup_insert_ne by done. intros H. rewrite Hother by done. by eapply iv_holder0.
  - intros t' H. destruct (decide (t' = t)) as [->|Hne]; [rewrite lookup_insert_eq; eauto|].
    rewrite lookup_insert_ne by done. apply iv_live0. by apply Hother.
  - intros t' ph' sn. destruct (decide (t' = t)) as [->|Hne].
    + rewrite lookup_insert_eq. intros [= <-]. rewrite Hsn. by eapply iv_snap0.
    + rewrite lookup_insert_ne by done. eapply iv_snap0.
  - intros Hc Hd. destruct (iv_due0 Hc Hd) as (t' & ph' & sn & H1 & H2 & H3).
    destruct (decide (t' = t)) as [->|Hne].
    + exists t, ph, sn. rewrite lookup_insert_eq. split; [done|]. split; [|done]. congruence.
    + exists t', ph', sn. by rewrite lookup_insert_ne.
Qed.

Lemma settled_insert s p t ph :
  calls s !! t = None -> holder s <> Some t ->
  settled (mkSys p (<[t := ph]> (calls s)) (holder s) (receivers s)) = settled s.
Proof.
  intros Ht Hh. unfold settled, remaining. simpl. destruct (holder s) as [t'|]; [|done].
  by rewrite lookup_insert_ne by congruence.
Qed.

Lemma inv_update h n s stats i reg resp t s' :
  inv h n s -> n < uint64_mod - 1 -> step h (LUpdate t stats i reg resp) s = Some s' -> inv h (n + 1) s'.
Proof.
  intros Hinv Hn. cbn [step]. destruct (calls s !! t) as [|] eqn:Ht; [done|].
  destruct (update_begin stats i reg resp (pool s)) as [o p'] eqn:Hb.
  assert (Hht : holder s <> Some t) by (intros H; destruct (iv_live _ _ _ Hinv t H); congruence).
  destruct (closed (pool s)) eqn:Hcl.
  { assert (o = None /\ p' = pool s) as [-> ->].
    { unfold update_begin in Hb. rewrite Hcl in Hb. by injection Hb as <- <-. }
    intros [= <-]. unfold with_pool. destruct s. eapply inv_mono; [|done]. lia. }
  destruct (update_begin_ok _ _ _ _ _ _ _ (iv_ok _ _ _ Hinv) Hcl Hb) as (Hok & Hcl' & Hspec).
  destruct Hinv. destruct o as [sn|]; intros [= <-].
  - destruct Hspec as (Hrev & Hsn & Hpp & Hnp).
    rewrite u64_id in Hrev by (unfold uint64_mod in *; lia).
    constructor; unfold set_call, with_pool; simpl; rewrite ?settled_insert by done; try done.
    + intros t' ph'. destruct (decide (t' = t)) as [->|Hne]; [rewrite lookup_insert_eq|].
      * by intros [= <-].
      * rewrite lookup_insert_ne by done. apply iv_holder0.
    + intros t' H. rewrite lookup_insert_ne by congruence. by apply iv_live0.
    + lia.
    + intros; congruence.
    + intros _ H. destruct (Hpp H) as [Hpp' Hv]. rewrite iv_pref0 by done. by rewrite Hv.
    + intros _ H. destruct (Hnp H) as [Hnp' Hv]. rewrite iv_set0 by done.
      unfold mask, told_of. simpl. by rewrite Hv.
    + intros t' ph' sn'. destruct (decide (t' = t)) as [->|Hne]; [rewrite lookup_insert_eq|].
      * intros [= <-] [= <-]. rewrite Hsn. simpl. split; [lia|]. by intros.
      * rewrite lookup_insert_ne by done. intros H1 H2. destruct (iv_snap0 _ _ _ H1 H2). lia.
    + intros _ _. exists t, (Updating sn), sn. rewrite lookup_insert_eq. rewrite Hsn. done.
  - destruct Hspec as (Hrev & Hpp & Hnp & Hv & Hs).
    constructor; unfold with_pool; simpl; rewrite ?Hrev, ?Hpp, ?Hnp, ?Hv, ?Hs, ?Hcl', ?Hcl in *;
      try done. lia.
Qed.

Lemma pool_inv_close h n s t s' : inv h n s -> step h (LClose t) s = Some s' -> inv h n s'.
Proof.
  intros Hinv. cbn [step]. destruct (calls s !! t) as [|] eqn:Ht; [done|]. intros [= <-].
  assert (Hht : holder s <> Some t) by (intros H; destruct (iv_live _ _ _ Hinv t H); congruence).
  destruct Hinv. constructor; unfold set_call; simpl; rewrite ?settled_insert by done; try done.
  - intros t' ph'. destruct (decide (t' = t)) as [->|Hne]; [rewrite lookup_insert_eq|].
    + by intros [= <-].
    + rewrite lookup_insert_ne by done. apply iv_holder0.
  - intros t' H. rewrite lookup_insert_ne by congruence. by apply iv_live0.
  - intros t' ph' sn. destruct (decide (t' = t)) as [->|Hne]; [rewrite lookup_insert_eq|].
    + by intros [= <-].
    + rewrite lookup_insert_ne by done. apply iv_snap0.
  - intros Hc Hd. destruct (iv_due0 Hc Hd) as (t' & ph' & sn & H1 & H2 & H3).
    exists t', ph', sn. rewrite lookup_insert_ne by congruence. done.
Qed.

Lemma inv_lock h n s t s' : inv h n s -> step h (LLock t) s = Some s' -> inv h n s'.
Proof.
  intros Hinv. cbn [step]. destruct (calls s !! t) as [ph|] eqn:Ht; [|done].
  assert (Hmove : forall ph', snap_of ph' = snap_of ph -> holds ph' = true -> remaining
      (set_call t ph' (with_holder (Some t) s)) = [] -> holder s = None ->
      inv h n (set_call t ph' (with_holder (Some t) s))).
  { intros ph' Hsn Hh Hrem Hn. apply (pool_inv_move h n s t ph); try done.
    - intros t' Hne. rewrite Hn. split; [|done]. by intros [= ->].
    - unfold settled. unfold set_call, with_holder in Hrem. simpl in *. rewrite Hrem.
      unfold remaining. by rewrite Hn. }
  destruct ph as [sn| | | |], (holder s) eqn:Hh; try done; intros [= <-]; apply Hmove; try done;
    unfold remaining, set_call, with_holder; simpl; by rewrite lookup_insert_eq.
Qed.

Lemma inv_call h n s t s' : inv h n s -> step h (LCall t) s = Some s' -> inv h n s'.
Proof.
  intros Hinv. cbn [step]. destruct (calls s !! t) as [[| | | |[|c cs]]|] eqn:Ht; try done.
  intros [= <-].
  assert (Hh : holder s = Some t) by (by apply (iv_holder _ _ _ Hinv _ _ Ht)).
  apply (pool_inv_move h n s t _ _ _ _ Hinv Ht); try done.
  unfold settled, remaining. simpl. by rewrite Hh, lookup_insert_eq, Ht.
Qed.

Lemma inv_unlock h n s t s' : inv h n s -> step h (LUnlock t) s = Some s' -> inv h n s'.
Proof.
  intros Hinv. cbn [step]. destruct (calls s !! t) as [[| | | |[|]]|] eqn:Ht; try done.
  intros [= <-].
  assert (Hh : holder s = Some t) by (by apply (iv_holder _ _ _ Hinv _ _ Ht)).
  assert (Hset : settled (mkSys (pool s) (delete t (calls s)) None (receivers s)) = settled s).
  { unfold settled, remaining. simpl. by rewrite Hh, Ht. }
  destruct Hinv. constructor; rewrite ?Hset; simpl; try done.
  - intros t' ph' [Hne H]%lookup_delete_Some. rewrite (iv_holder0 _ _ H), Hh. split; congruence.
  - intros t' ph' sn [Hne H]%lookup_delete_Some. by eapply iv_snap0.
  - intros Hc Hd. destruct (iv_due0 Hc Hd) as (t' & ph' & sn & H1 & H2 & H3).
    exists t', ph', sn. rewrite lookup_delete_ne; [done|]. intros ->. rewrite Ht in H1. by injection H1 as <-.
Qed.

(** A call that has looked at the pool moves on to its callbacks. *)
Lemma inv_checked h n s t ph cs p :
  inv h n s -> calls s !! t = Some ph -> holds ph = true -> remaining s = [] ->
  pool_ok p -> revision p = revision (pool s) ->
  let r := hear_all (receivers s) cs in
  mask h r = r ->
  (closed p = true -> r = untold) ->
  (closed p = false -> closed (pool s) = false /\ current_view p = current_view (pool s)
    /\ current_set p = current_set (pool s)) ->
  (closed p = false -> preferredPending p = false ->
    pref_part r = pref_part (mask h (told_of (current_view p) (current_set p)))) ->
  (closed p = false -> nativeSetPending p = false ->
    t_set r = t_set (mask h (told_of (current_view p) (current_set p)))) ->
  (closed p = false -> preferredPending p || nativeSetPending p = true ->
    preferredPending (pool s) || nativeSetPending (pool s) = true
    /\ forall sn, snap_of ph = Some sn -> sn_revision sn <> revision p) ->
  inv h n (set_call t (Calling cs) (with_pool p s)).
Proof.
  intros Hinv Ht Hph Hrem Hok Hrev r Hm Hcl Hop Hpp Hnp Hdue.
  assert (Hh : holder s = Some t) by (by apply (iv_holder _ _ _ Hinv _ _ Ht)).
  assert (Hset : settled (set_call t (Calling cs) (with_pool p s)) = r).
  { unfold settled, remaining. simpl. by rewrite Hh, lookup_insert_eq. }
  destruct Hinv. constructor; rewrite ?Hset; simpl; try done.
  - intros t' ph'. destruct (decide (t' = t)) as [->|Hne]; [rewrite lookup_insert_eq|].
    + by intros [= <-].
    + rewrite lookup_insert_ne by done. apply iv_holder0.
  - intros t' H. destruct (decide (t' = t)) as [->|Hne]; [rewrite lookup_insert_eq; eauto|].
    rewrite lookup_insert_ne by done. by apply iv_live0.
  - by rewrite Hrev.
  - intros t' ph' sn. destruct (decide (t' = t)) as [->|Hne]; [by rewrite lookup_insert_eq; intros [= <-]|].
    rewrite lookup_insert_ne by done. intros H1 H2. destruct (iv_snap0 _ _ _ H1 H2) as [H3 H4].
    rewrite Hrev. split; [done|]. intros Hc. destruct (Hop Hc) as (Hc' & -> & ->). auto.
  - intros Hc Hd. destruct (Hdue Hc Hd) as [Hd' Hne]. destruct (Hop Hc) as (Hc' & _ & _).
    destruct (iv_due0 Hc' Hd') as (t' & ph' & sn & H1 & H2 & H3).
    exists t', ph', sn. rewrite lookup_insert_ne, Hrev; [done|]. intros <-.
    rewrite Ht in H1. injection H1 as <-. by apply (Hne sn H2); rewrite Hrev.
Qed.

Lemma settled_idle s t ph :
  calls s !! t = Some ph -> holder s = Some t -> (forall cs, ph <> Calling cs) ->
  remaining s = [] /\ settled s = receivers s.
Proof.
  intros Ht Hh Hph. unfold settled, remaining. rewrite Hh, Ht.
  destruct ph; try done. by destruct (Hph cs).
Qed.

Lemma inv_check_update h n s t sn :
  inv h n s -> calls s !! t = Some (Checking sn) ->
  inv h n (let '(due, p) := update_check sn (pool s) in
           set_call t (Calling (match due with Some d => update_callbacks h sn d | None => [] end))
             (with_pool p s)).
Proof.
  intros Hinv Ht. pose proof (proj1 (iv_holder _ _ _ Hinv _ _ Ht) eq_refl) as Hh.
  destruct (settled_idle s t _ Ht Hh) as [Hrem Hset]; [done|]. pose proof Hinv as [].
  rewrite Hset in *. unfold update_check.
  destruct (negb (closed (pool s)) && (revision (pool s) =? sn_revision sn)) eqn:E.
  - apply andb_true_iff in E as [Hc Hr]. apply negb_true_iff in Hc. apply Z.eqb_eq in Hr.
    destruct (iv_snap0 _ _ _ Ht eq_refl) as [_ Hsn]. destruct (Hsn Hc (eq_sym Hr)) as [Hv Hl].
    destruct (hear_update h (receivers s) sn (preferredPending (pool s), nativeSetPending (pool s)))
      as (Hm & Hp & Hs); [done|].
    cbn [fst snd] in Hp, Hs. rewrite Hv, Hl in Hp, Hs.
    eapply inv_checked; try done; simpl; rewrite ?Hc; try done; unfold current_view, current_set in *; simpl.
    + intros _ _. rewrite Hp. destruct (preferredPending (pool s)); [done|]. by apply iv_pref0.
    + intros _ _. rewrite Hs. destruct (nativeSetPending (pool s)); [done|]. by apply iv_set0.
  - eapply inv_checked; try done. intros Hc Hd. split; [done|].
    intros sn' [= <-]. rewrite Hc in E. simpl in E. apply Z.eqb_neq in E. congruence.
Qed.

Lemma inv_check_close h n s t :
  inv h n s -> calls s !! t = Some CloseChecking ->
  inv h n (let '(first, p) := close_locked (pool s) in
           set_call t (Calling (if first : bool then close_callbacks h else [])) (with_pool p s)).
Proof.
  intros Hinv Ht. pose proof (proj1 (iv_holder _ _ _ Hinv _ _ Ht) eq_refl) as Hh.
  destruct (settled_idle s t _ Ht Hh) as [Hrem Hset]; [done|]. pose proof Hinv as [].
  rewrite Hset in *. unfold close_locked. destruct (closed (pool s)) eqn:Hc.
  - eapply inv_checked; try done; try congruence. intros _. by apply iv_closed0.
  - eapply inv_checked; try done; simpl; try done.
    + split; simpl; [done|]. intros i m (m' & -> & Hm)%list_lookup_fmap_Some. done.
    + by rewrite hear_close by done; destruct h as [[] [] [] []].
    + intros _. by apply hear_close.
Qed.

(** Steps that only carry on with calls made before. *)
Definition internal (l : label) : bool :=
  match l with LUpdate _ _ _ _ _ | LClose _ => false | _ => true end.

Lemma internal_inv h n l s s' : inv h n s -> internal l = true -> step h l s = Some s' -> inv h n s'.
Proof.
  intros Hinv Hl Hs. destruct l; try done.
  - by eapply inv_lock.
  - cbn [step] in Hs. destruct (calls s !! t) as [[| |sn| |]|] eqn:Ht; try done.
    + pose proof (inv_check_update h n s t sn Hinv Ht) as H.
      destruct (update_check sn (pool s)). by injection Hs as <-.
    + pose proof (inv_check_close h n s t Hinv Ht) as H.
      destruct (close_locked (pool s)). by injection Hs as <-.
  - by eapply inv_call.
  - by eapply inv_unlock.
Qed.

Lemma pool_inv_step h n l s s' :
  inv h n s -> n < uint64_mod - 1 -> step h l s = Some s' -> inv h (n + 1) s'.
Proof.
  intros Hinv Hn Hs. assert (Hle : n <= n + 1) by lia.
  destruct (internal l) eqn:Hl; [eapply inv_mono; [done|]; by eapply internal_inv|].
  destruct l; try done; [by eapply inv_update|]. eapply inv_mono; [done|]. by eapply pool_inv_close.
Qed.

Lemma pool_inv_run h ls n s s' :
  inv h n s -> n + Zlen ls < uint64_mod -> run h ls s = Some s' -> inv h (n + Zlen ls) s'.
Proof.
  revert n s. induction ls as [|l ls IH]; intros n s Hinv Hn; cbn [run].
  - intros [= <-]. eapply inv_mono; [|done]. unfold Zlen. simpl. lia.
  - rewrite Zlen_cons in *. destruct (step h l s) as [s1|] eqn:Hs; [|done]. intros Hrun.
    replace (n + (1 + Zlen ls)) with (n + 1 + Zlen ls) by lia.
    eapply IH; [|lia|done]. eapply pool_inv_step; try done. pose proof (Zlen_nonneg ls). lia.
Qed.

Lemma pool_inv_start h k : inv h 0 (start k).
Proof.
  constructor; simpl; try done.
  - split; simpl; [done|]. intros i m Hm%lookup_replicate Hr. by destruct Hm as [-> _].
  - by destruct h as [[] [] [] []].
  - intros _ _. by destruct h as [[] [] [] []].
  - intros _ _. assert (current_set (NewRelayPool k) = []) as ->.
    { unfold current_set, nativeSet. simpl. by induction k. }
    by destruct h as [[] [] [] []].
Qed.

Lemma pool_reached h k ls s :
  Zlen ls < uint64_mod -> run h ls (start k) = Some s -> inv h (Zlen ls) s.
Proof. intros Hn Hr. by apply (pool_inv_run h ls 0 (start k) s (pool_inv_start h k)). Qed.

(** At rest the receivers know what the pool holds. *)
Lemma published h k ls s :
  Zlen ls < uint64_mod -> run h ls (start k) = Some s -> calls s = ∅ ->
  receivers s = if closed (pool s) then untold
                else mask h (told_of (current_view (pool s)) (current_set (pool s))).
Proof.
  intros Hlen Hrun Hidle. pose proof (pool_reached _ _ _ _ Hlen Hrun) as [].
  assert (Hset : settled s = receivers s).
  { unfold settled, remaining. destruct (holder s); [|done]. by rewrite Hidle, lookup_empty. }
  rewrite Hset in *. destruct (closed (pool s)) eqn:Hc; [by apply iv_closed0|].
  destruct (preferredPending (pool s) || nativeSetPending (pool s)) eqn:Hd.
  { destruct (iv_due0 eq_refl eq_refl) as (t & ph & sn & H & _). by rewrite Hidle in H. }
  apply orb_false_iff in Hd as [Hp Hn]. apply told_parts; auto.
Qed.

(** ** What the relays reported *)

(** The last report of member [i]: whether its agent is registered, and the
    relay's answer. *)
Fixpoint last_report (i : nat) (ls : list label) : option (bool * RelayRegisterResponse) :=
  match ls with
  | [] => None
  | l :: ls =>
      match last_report i ls with
      | Some r => Some r
      | None =>
          match l with
          | LUpdate _ _ j reg resp => if decide (j = i) then Some (reg, resp) else None
          | _ => None
          end
      end
  end.

(** The first client domain a relay of the pool registered for. *)
Fixpoint first_domain (k : nat) (ls : list label) : string :=
  match ls with
  | [] => ""
  | LUpdate _ _ i true resp :: ls =>
      if decide ((i < k)%nat /\ rp_Domain resp <> ""%string) then rp_Domain resp else first_domain k ls
  | _ :: ls => first_domain k ls
  end.

(** Relay [i] of [k] is registered now, with this answer: so it reported last,
    and for no other client domain than the pool's. *)
Definition live (k : nat) (ls : list label) (i : nat) (resp : RelayRegisterResponse) : Prop :=
  (i < k)%nat /\ last_report i ls = Some (true, resp)
  /\ (rp_Domain resp = ""%string \/ rp_Domain resp = first_domain k ls).

Definition offers_native (resp : RelayRegisterResponse) : Prop :=
  rp_NativeWireGuardAddr resp <> ""%string /\ rp_NativeWireGuardToken resp <> ""%string.

(** The associations of the live relays that offer one, in the pool's order. *)
Definition native_listing (k : nat) (ls : list label) (set : list NativeAssociation) : Prop :=
  exists js, StronglySorted lt js
    /\ (forall i, i ∈ js <-> exists resp, live k ls i resp /\ offers_native resp)
    /\ Forall2 (fun i a => exists resp, live k ls i resp
         /\ a = mkNative (rp_NativeWireGuardAddr resp) (rp_NativeWireGuardToken resp)) js set.

Definition closes (l : label) : bool := match l with LClose _ => true | _ => false end.

Lemma last_report_snoc i ls l :
  last_report i (ls ++ [l])
  = match l with
    | LUpdate _ _ j reg resp => if decide (j = i) then Some (reg, resp) else last_report i ls
    | _ => last_report i ls
    end.
Proof.
  induction ls as [|l' ls IH]; simpl; [by destruct l|]. rewrite IH.
  destruct l; try done. by destruct (decide _).
Qed.

Lemma first_domain_snoc k ls l :
  first_domain k (ls ++ [l])
  = if decide (first_domain k ls = ""%string) then first_domain k [l] else first_domain k ls.
Proof.
  induction ls as [|l' ls IH]; [done|]. cbn [app first_domain]. destruct l' as [? ? i [] resp| | | | |]; try done.
  destruct (decide (_ /\ _)) as [[_ Hd]|_]; [|done]. by rewrite decide_False.
Qed.

Lemma first_domain_empty k ls i resp :
  first_domain k ls = ""%string -> (i < k)%nat -> last_report i ls = Some (true, resp) -> rp_Domain resp = ""%string.
Proof.
  intros Hf Hi. induction ls as [|l ls IH] using rev_ind; [done|].
  rewrite last_report_snoc. rewrite first_domain_snoc in Hf.
  destruct (decide (first_domain k ls = ""%string)) as [H0|H0]; [|done].
  destruct l as [? ? j reg r| | | | |]; try by apply IH. destruct (decide (j = i)) as [->|Hne]; [|by apply IH].
  intros [= -> ->]. cbn [first_domain] in Hf. destruct (decide (_ /\ _)) as [[_ Hd]|Hn]; [done|].
  destruct (decide (rp_Domain resp = ""%string)); [done|]. by destruct Hn.
Qed.

(** The members of an open pool are as last reported. *)
Definition as_reported (k : nat) (ls : list label) (p : RelayPool) : Prop :=
  length (members p) = k /\ domain p = first_domain k ls
  /\ forall i m, members p !! i = Some m ->
       match last_report i ls with
       | None => registered m = false
       | Some (reg, resp) => response m = resp
           /\ (registered m = true <-> reg = true /\ (rp_Domain resp = ""%string \/ rp_Domain resp = domain p))
       end.

Lemma admitted_spec p reg resp :
  admitted p reg resp = true
  <-> reg = true /\ (rp_Domain resp = ""%string \/ domain p = ""%string \/ rp_Domain resp = domain p).
Proof.
  unfold admitted.
  destruct (String.eqb_spec (rp_Domain resp) ""), (String.eqb_spec (domain p) ""),
    (String.eqb_spec (rp_Domain resp) (domain p)), reg; cbn; naive_solver.
Qed.

Lemma update_reported k ls t stats i reg resp p :
  closed p = false -> as_reported k ls p ->
  as_reported k (ls ++ [LUpdate t stats i reg resp]) (update_begin stats i reg resp p).2.
Proof.
  intros Hc (Hk & Hd & Hm). unfold update_begin, as_reported. rewrite Hc, first_domain_snoc, <-Hd.
  destruct (members p !! i) as [m|] eqn:Hi.
  2:{ assert (Hge : ~ (i < k)%nat) by (rewrite <-Hk; by apply Nat.nlt_ge, lookup_ge_None).
      cbn [snd]. split; [done|]. split.
      - destruct (decide (domain p = ""%string)) as [->|]; [|done]. cbn [first_domain].
        destruct reg; [|done]. by rewrite decide_False by naive_solver.
      - intros j m Hj. rewrite last_report_snoc, decide_False by congruence. by apply Hm. }
  assert (Hlt : (i < k)%nat) by (rewrite <-Hk; by eapply lookup_lt_Some).
  assert (Hnew : (if admitted p reg resp && negb (rp_Domain resp =? "")%string && (domain p =? "")%string
      then rp_Domain resp else domain p)
      = (if decide (domain p = ""%string) then first_domain k [LUpdate t stats i reg resp] else domain p)).
  { destruct (decide (domain p = ""%string)) as [E|E].
    - destruct reg; [|cbn; by rewrite E]. rewrite (proj2 (admitted_spec p true resp)) by auto.
      rewrite E. cbn. destruct (String.eqb_spec (rp_Domain resp) ""); [by rewrite decide_False by naive_solver|].
      by rewrite decide_True by done.
    - apply String.eqb_neq in E. by rewrite E, andb_false_r. }
  cbn [snd members domain]. rewrite length_insert, Hnew. split; [done|]. split; [done|].
  intros j m' Hj. rewrite last_report_snoc. destruct (decide (i = j)) as [<-|Hne].
  - rewrite list_lookup_insert_eq in Hj by lia. injection Hj as <-. cbn [response registered].
    split; [done|]. rewrite admitted_spec. destruct (decide (domain p = ""%string)) as [E|E].
    + cbn [first_domain]. destruct reg; [|naive_solver].
      destruct (decide (_ /\ _)) as [_|Hn]; [naive_solver|].
      destruct (decide (rp_Domain resp = ""%string)); naive_solver.
    + naive_solver.
  - rewrite list_lookup_insert_ne in Hj by done. specialize (Hm j m' Hj).
    destruct (last_report j ls) as [[reg' resp']|] eqn:Hl; [|done]. destruct Hm as [Hr Hm]. split; [done|].
    rewrite Hm. destruct (decide (domain p = ""%string)) as [E|E]; [|done].
    destruct reg'; [|naive_solver].
    assert (He : rp_Domain resp' = ""%string).
    { apply (first_domain_empty k ls j); [congruence| |done]. rewrite <-Hk. by eapply lookup_lt_Some. }
    naive_solver.
Qed.

(** A pool with a registered member prefers one. *)
Definition prefers (p : RelayPool) : Prop := preferred p = None -> forall i, is_registered (members p) i = false.

Lemma update_prefers stats i reg resp p :
  closed p = false -> prefers p -> prefers (update_begin stats i reg resp p).2.
Proof.
  intros Hc Hp. unfold update_begin. rewrite Hc. destruct (members p !! i) as [m|]; [|done].
  unfold prefers. cbn [snd preferred members]. intros Hn j.
  set (ms := <[i := _]> (members p)) in *.
  destruct (choosePreferred_spec stats ms (preferred p)) as [H1 H2].
  assert (Hcur : forall k, preferred p = Some k -> is_registered ms k = false).
  { intros k Hk. destruct (is_registered ms k) eqn:E; [|done]. rewrite (H1 k Hk E) in Hn. congruence. }
  specialize (H2 Hcur). rewrite Hn in H2. unfold is_registered. destruct (ms !! j) as [m'|] eqn:Hj; [|done].
  by apply (proj1 (Forall_lookup _ _) H2 j m').
Qed.

(** A call of [Close] that has yet to close the pool. *)
Definition is_closing (ph : phase) : bool := match ph with Closing | CloseChecking => true | _ => false end.

(** The pool's members and its closing follow the calls made so far. *)
Record tracks (k : nat) (ls : list label) (s : sys) : Prop := mkTracks {
  tr_members : closed (pool s) = false -> as_reported k ls (pool s) /\ prefers (pool s);
  tr_closed : closed (pool s) = true -> existsb closes ls = true;
  tr_closing : existsb closes ls = true ->
    closed (pool s) = true \/ exists t ph, calls s !! t = Some ph /\ is_closing ph = true;
  tr_from : forall t ph, calls s !! t = Some ph -> is_closing ph = true -> existsb closes ls = true;
}.

Lemma as_reported_other k ls l p :
  (forall t stats i reg resp, l <> LUpdate t stats i reg resp) -> as_reported k ls p -> as_reported k (ls ++ [l]) p.
Proof.
  intros Hl (Hk & Hd & Hm). split; [done|]. split.
  - rewrite first_domain_snoc, <-Hd. destruct (decide _) as [->|]; [|done]. by destruct l; try destruct (Hl _ _ _ _ _ eq_refl).
  - intros i m Hi. specialize (Hm i m Hi). rewrite last_report_snoc. by destruct l; try destruct (Hl _ _ _ _ _ eq_refl).
Qed.

Lemma closes_snoc ls l : existsb closes (ls ++ [l]) = existsb closes ls || closes l.
Proof. rewrite existsb_app. simpl. by rewrite orb_false_r. Qed.

(** A call moves on, or begins one that is not a closing. *)
Lemma tracks_move k ls s l t ph p hd r :
  tracks k ls s -> closes l = false -> closed p = closed (pool s) ->
  is_closing ph = (match calls s !! t with Some ph0 => is_closing ph0 | None => false end) ->
  (closed (pool s) = false -> as_reported k (ls ++ [l]) p /\ prefers p) ->
  tracks k (ls ++ [l]) (mkSys p (<[t := ph]> (calls s)) hd r).
Proof.
  intros [] Hl Hc Hph Hm. constructor; rewrite ?closes_snoc, ?Hl, ?orb_false_r; cbn [pool calls]; rewrite ?Hc; try done.
  - intros H. destruct (tr_closing0 H) as [?|(t' & ph' & Ht & Hcl)]; [by left|right].
    destruct (decide (t' = t)) as [->|Hne]; [|exists t', ph'; by rewrite lookup_insert_ne by done].
    exists t, ph. rewrite lookup_insert_eq, Hph, Ht. done.
  - intros t' ph' [[<- <-]|[_ H]]%lookup_insert_Some Hcl; [|by eapply tr_from0].
    rewrite Hph in Hcl. destruct (calls s !! t) as [ph0|] eqn:Ht; [by eapply tr_from0|done].
Qed.

Lemma tracks_step h k ls l s s' : tracks k ls s -> step h l s = Some s' -> tracks k (ls ++ [l]) s'.
Proof.
  intros Htr Hs. pose proof Htr as [].
  assert (Hsame : forall p, (forall t stats i reg resp, l <> LUpdate t stats i reg resp) ->
      members p = members (pool s) -> domain p = domain (pool s) -> preferred p = preferred (pool s) ->
      closed (pool s) = false -> as_reported k (ls ++ [l]) p /\ prefers p).
  { intros p Hl Hmm Hdd Hpp Hc. destruct (tr_members0 Hc) as [Hr Hp].
    split; [apply as_reported_other; [done|]; unfold as_reported|unfold prefers]; by rewrite Hmm, ?Hdd, ?Hpp. }
  destruct l as [t stats i reg resp|t|t|t|t|t]; cbn [step] in Hs.
  - destruct (calls s !! t) as [|] eqn:Ht; [done|].
    pose proof (fun Hc => conj (update_reported k ls t stats i reg resp (pool s) Hc (proj1 (tr_members0 Hc)))
                               (update_prefers stats i reg resp (pool s) Hc (proj2 (tr_members0 Hc)))) as Hm.
    assert (Hc : closed (update_begin stats i reg resp (pool s)).2 = closed (pool s)).
    { unfold update_begin. destruct (closed (pool s)) eqn:E; [done|]. by destruct (members (pool s) !! i). }
    destruct (update_begin stats i reg resp (pool s)) as [[sn|] p]; injection Hs as <-; cbn [snd] in *.
    + apply (tracks_move k ls s _ t (Updating sn) p (holder s) (receivers s)); try done. by rewrite Ht.
    + constructor; rewrite ?closes_snoc; cbn [closes]; rewrite ?orb_false_r; cbn [pool calls with_pool]; rewrite ?Hc; done.
  - destruct (calls s !! t) as [|] eqn:Ht; [done|]. injection Hs as <-.
    constructor; rewrite ?closes_snoc; cbn [closes]; rewrite ?orb_true_r; cbn [pool calls set_call]; try done.
    + by apply Hsame.
    + intros _. right. exists t, Closing. by rewrite lookup_insert_eq.
  - destruct (calls s !! t) as [[]|] eqn:Ht, (holder s); try done; injection Hs as <-;
      (apply (tracks_move k ls s _ t _ (pool s)); [done..|by rewrite Ht|by apply Hsame]).
  - destruct (calls s !! t) as [[| |sn| |]|] eqn:Ht; try done.
    + unfold update_check in Hs. destruct (_ && _); injection Hs as <-;
        (apply (tracks_move k ls s); [done..|by rewrite Ht|by apply Hsame]).
    + unfold close_locked in Hs. assert (Hcl := tr_from0 t _ Ht eq_refl).
      destruct (closed (pool s)) eqn:Hc; injection Hs as <-;
        constructor; rewrite ?closes_snoc, ?Hcl; cbn [pool calls set_call with_pool closed]; auto; congruence.
  - destruct (calls s !! t) as [[| | | |[|c cs]]|] eqn:Ht; try done. injection Hs as <-.
    apply (tracks_move k ls s); [done..|by rewrite Ht|by apply Hsame].
  - destruct (calls s !! t) as [[| | | |[|]]|] eqn:Ht; try done. injection Hs as <-.
    constructor; rewrite ?closes_snoc; cbn [closes]; rewrite ?orb_false_r; cbn [pool calls]; try done.
    + by apply Hsame.
    + intros H. destruct (tr_closing0 H) as [?|(t' & ph' & Ht' & Hp)]; [by left|right].
      exists t', ph'. split; [|done]. rewrite lookup_delete_ne; [done|]. intros <-. rewrite Ht in Ht'.
      injection Ht' as <-. done.
    + intros t' ph' [_ H]%lookup_delete_Some. by eapply tr_from0.
Qed.

Lemma run_snoc h ls l s s' : run h (ls ++ [l]) s = Some s' -> exists s1, run h ls s = Some s1 /\ step h l s1 = Some s'.
Proof.
  induction ls as [|l' ls IH] in s |- *; simpl.
  - destruct (step h l s) as [s1|] eqn:E; [|done]. intros [= <-]. eauto.
  - destruct (step h l' s) as [s1|]; [|done]. apply IH.
Qed.

Lemma tracked h k ls s : run h ls (start k) = Some s -> tracks k ls s.
Proof.
  induction ls as [|l ls IH] in s |- * using rev_ind.
  - intros [= <-]. constructor; simpl; try done. intros _. split.
    + unfold as_reported. cbn. split; [by rewrite length_replicate|]. split; [done|].
      intros i m [-> _]%lookup_replicate. done.
    + intros _ i. unfold is_registered. cbn. destruct (_ !! i) as [m|] eqn:Hi; [|done].
      by apply lookup_replicate in Hi as [-> _].
  - intros (s1 & H1 & H2)%run_snoc. eapply tracks_step; eauto.
Qed.

(** Live is what the pool holds registered. *)
Lemma live_member k ls p i resp :
  as_reported k ls p ->
  live k ls i resp <-> exists m, members p !! i = Some m /\ registered m = true /\ response m = resp.
Proof.
  intros (Hk & Hd & Hm). unfold live. rewrite <-Hd. split.
  - intros (Hi & Hl & Hr). rewrite <-Hk in Hi. apply lookup_lt_is_Some in Hi as [m Hi]. exists m. split; [done|].
    specialize (Hm i m Hi). rewrite Hl in Hm. destruct Hm as [-> Hm]. rewrite Hm. done.
  - intros (m & Hi & Hr & Hresp). assert (Hlt : (i < k)%nat) by (rewrite <-Hk; by eapply lookup_lt_Some).
    specialize (Hm i m Hi). destruct (last_report i ls) as [[reg r]|]; [|congruence].
    destruct Hm as [Hm1 Hm2]. apply Hm2 in Hr as [-> Hr]. by subst.
Qed.

Lemma sorted_shift js : StronglySorted lt js -> StronglySorted lt (S <$> js).
Proof.
  induction 1 as [|j js Hs IH Hf]; cbn; constructor; [done|].
  apply Forall_fmap. eapply Forall_impl; [done|]. cbn. lia.
Qed.

Lemma nativeSet_listed ms :
  exists js, StronglySorted lt js
    /\ (forall i, i ∈ js <-> exists m, ms !! i = Some m /\ registered m = true /\ offers_native (response m))
    /\ Forall2 (fun i a => exists m, ms !! i = Some m /\ registered m = true
         /\ a = mkNative (rp_NativeWireGuardAddr (response m)) (rp_NativeWireGuardToken (response m))) js (nativeSet ms).
Proof.
  induction ms as [|m ms (js & Hs & Hin & Hf)].
  { exists []. split; [constructor|]. split; [|constructor]. intros i. split; [by intros ?%not_elem_of_nil|naive_solver]. }
  assert (Hf' : Forall2 (fun i a => exists m', (m :: ms) !! i = Some m' /\ registered m' = true
         /\ a = mkNative (rp_NativeWireGuardAddr (response m')) (rp_NativeWireGuardToken (response m'))) (S <$> js) (nativeSet ms))
    by (apply Forall2_fmap_l; exact Hf).
  assert (Hin' : forall i, i ∈ S <$> js <->
      exists j m', i = S j /\ ms !! j = Some m' /\ registered m' = true /\ offers_native (response m')).
  { intros i. rewrite list_elem_of_fmap. split.
    - intros (j & -> & (m' & H)%Hin). eauto.
    - intros (j & m' & -> & H). exists j. split; [done|]. apply Hin. eauto. }
  cbn [nativeSet mbind list_bind]. fold (nativeSet ms). unfold native_of.
  destruct (_ && _) eqn:E.
  - apply andb_true_iff in E as [[Er Ea%negb_true_iff%String.eqb_neq]%andb_true_iff Et%negb_true_iff%String.eqb_neq].
    exists (0%nat :: (S <$> js)). split; [|split].
    + constructor; [by apply sorted_shift|]. apply Forall_fmap, Forall_forall. intros j _. cbn. lia.
    + intros i. rewrite elem_of_cons, Hin'. split.
      * intros [->|(j & m' & -> & H)]; [exists m|exists m']; done.
      * intros (m' & Hi & H). destruct i as [|j]; [by left|right]. exists j, m'. done.
    + constructor; [|done]. exists m. done.
  - exists (S <$> js). split; [by apply sorted_shift|]. split; [|done].
    intros i. rewrite Hin'. split; [intros (j & m' & -> & H); by exists m'|].
    intros (m' & Hi & Hr & Ha & Ht). destruct i as [|j]; [|by exists j, m']. injection Hi as <-.
    apply String.eqb_neq in Ha, Ht. by rewrite Hr, Ha, Ht in E.
Qed.

Lemma nativeSet_listing k ls p : as_reported k ls p -> native_listing k ls (nativeSet (members p)).
Proof.
  intros Hp. destruct (nativeSet_listed (members p)) as (js & Hs & Hin & Hf). exists js. split; [done|]. split.
  - intros i. rewrite Hin. split.
    + intros (m & H1 & H2 & H3). exists (response m). split; [|done]. apply (live_member k ls p i _ Hp). eauto.
    + intros (resp & (m & H1 & H2 & <-)%(live_member k ls p i _ Hp) & H3). eauto.
  - eapply Forall2_impl; [exact Hf|]. intros i a (m & H1 & H2 & ->). exists (response m). split; [|done].
    apply (live_member k ls p i _ Hp). eauto.
Qed.

(** What a receiver knows that was told nothing of a part it has no callback
    for. *)
Definition told_preferred (h : hooks) (t : told) (agent : option nat) (r : RelayRegisterResponse) : Prop :=
  (hk_reflect h = true -> t_reflect t = rp_ReflectAddr r)
  /\ (hk_udp h = true -> t_udp t = (agent, rp_UDPRelayAddr r))
  /\ (hk_native h = true -> t_native t = mkNative (rp_NativeWireGuardAddr r) (rp_NativeWireGuardToken r)).

Lemma mask_told h p :
  told_preferred h (mask h (told_of (current_view p) (current_set p))) (preferred p)
    (match preferred p with
     | Some i => match members p !! i with Some m => response m | None => empty_response end
     | None => empty_response
     end).
Proof. unfold told_preferred, current_view, view_of. destruct h as [[] [] [] []], (preferred p); done. Qed.


(** C31: publication is exact when it comes to rest: after any interleaving of
    registrations, disconnects and closes, once no call is in flight and the
    pool was not closed, the receivers were last told the native associations
    of the relays that are registered now and offer one, one each and in the
    pool's order, and the addresses and the agent of one relay that is
    registered now, or that there is none when no relay is.  A relay is
    registered now if its agent's last report says so and it serves the pool's
    client domain, the first one that was reported.  After a close the
    receivers were last told that there is no relay. *)
Theorem RelayPool_publishes h k ls s
    (Hlen : Zlen ls < uint64_mod) (Hrun : run h ls (start k) = Some s) (Hidle : calls s = ∅) :
  if existsb closes ls then receivers s = untold
  else (hk_set h = true -> native_listing k ls (t_set (receivers s)))
    /\ match preferred (pool s) with
       | Some i => exists resp, live k ls i resp /\ told_preferred h (receivers s) (Some i) resp
       | None => (forall i resp, ~ live k ls i resp) /\ told_preferred h (receivers s) None empty_response
       end.
Proof.
  destruct (tracked _ _ _ _ Hrun) as [Hm Hc1 Hc2 _]. pose proof (published _ _ _ _ Hlen Hrun Hidle) as Hp.
  destruct (existsb closes ls).
  { destruct (Hc2 eq_refl) as [Hc|(t & ph & Ht & _)]; [by rewrite Hc in Hp|by rewrite Hidle in Ht]. }
  destruct (closed (pool s)); [by specialize (Hc1 eq_refl)|]. destruct (Hm eq_refl) as [Hr Hpr]. rewrite Hp. split.
  - intros Hh. unfold mask. cbn [t_set]. rewrite Hh. by apply nativeSet_listing.
  - pose proof (mask_told h (pool s)) as Ht. destruct (preferred (pool s)) as [i|] eqn:Hi.
    + destruct (iv_ok _ _ _ (pool_reached _ _ _ _ Hlen Hrun)) as [Hreg _].
      destruct (proj1 (is_registered_spec _ _) (Hreg i Hi)) as (m & Him & Hrm). rewrite Him in Ht.
      exists (response m). split; [|done]. apply (live_member k ls (pool s) i _ Hr). eauto.
    + split; [|done]. intros i resp (m & H1 & H2 & _)%(live_member k ls (pool s) i _ Hr).
      pose proof (Hpr Hi i) as Hf. unfold is_registered in Hf. rewrite H1 in Hf. congruence.
Qed.

(** one pool serves one client domain: whatever its relays report, in
    whatever order, registered members that name a domain name the same one,
    and the preferred member is a registered one. *)
Theorem RelayPool_one_domain h k ls s
    (Hlen : Zlen ls < uint64_mod) (Hrun : run h ls (start k) = Some s) :
  (forall i j m m', members (pool s) !! i = Some m -> members (pool s) !! j = Some m' ->
    registered m = true -> registered m' = true ->
    rp_Domain (response m) <> ""%string -> rp_Domain (response m') <> ""%string ->
    rp_Domain (response m) = rp_Domain (response m'))
  /\ (forall i, preferred (pool s) = Some i -> is_registered (members (pool s)) i = true).
Proof.
  destruct (iv_ok _ _ _ (pool_reached _ _ _ _ Hlen Hrun)) as [Hp Hd]. split; [|done].
  intros i j m m' Hi Hj Hr Hr' Hn Hn'. by rewrite (Hd i m), (Hd j m').
Qed.

(** ** Calls come to their end *)

(** The steps a call still has to make. *)
Definition work (ph : phase) : nat :=
  match ph with
  | Updating _ | Closing => 7
  | Checking _ | CloseChecking => 6
  | Calling cs => S (length cs)
  end.

Definition total_work (m : gmap nat phase) : nat := weigh work m.

Lemma length_callbacks h sn due : (length (update_callbacks h sn due) <= 4)%nat.
Proof. destruct h as [[] [] [] []], due as [[] []]; simpl; lia. Qed.

Lemma length_close_callbacks h : (length (close_callbacks h) <= 4)%nat.
Proof. destruct h as [[] [] [] []]; simpl; lia. Qed.

Lemma internal_decreases h l s s' :
  internal l = true -> step h l s = Some s' -> (total_work (calls s') < total_work (calls s))%nat.
Proof.
  intros Hl. assert (Hins : forall t ph ph', calls s !! t = Some ph -> (work ph' < work ph)%nat ->
      (total_work (<[t := ph']> (calls s)) < total_work (calls s))%nat).
  { intros t ph ph'. apply weigh_lower. }
  destruct l; try done; cbn [step].
  - destruct (calls s !! t) as [[]|] eqn:Ht, (holder s); try done; intros [= <-];
      (eapply Hins; [exact Ht|simpl; lia]).
  - destruct (calls s !! t) as [[| |sn| |]|] eqn:Ht; try done.
    + destruct (update_check sn (pool s)) as [[due|] p]; intros [= <-]; (eapply Hins; [done|]);
        cbn [work length]; [pose proof (length_callbacks h sn due)|]; lia.
    + destruct (close_locked (pool s)) as [[] p]; intros [= <-]; (eapply Hins; [done|]);
        cbn [work length]; [pose proof (length_close_callbacks h)|]; lia.
  - destruct (calls s !! t) as [[| | | |[|c cs]]|] eqn:Ht; try done. intros [= <-].
    eapply Hins; [done|]. simpl. lia.
  - destruct (calls s !! t) as [[| | | |[|]]|] eqn:Ht; try done. intros [= <-]. simpl.
    unfold total_work. rewrite (weigh_delete _ _ _ _ Ht). simpl. lia.
Qed.

Lemma pool_internal_enabled h n s :
  inv h n s -> calls s <> ∅ -> exists l s', internal l = true /\ step h l s = Some s'.
Proof.
  intros [] Hne. destruct (holder s) as [t|] eqn:Hh.
  - destruct (iv_live0 t eq_refl) as [ph Ht].
    pose proof (proj2 (iv_holder0 _ _ Ht) eq_refl) as Hph.
    destruct ph as [| |sn| |[|c cs]]; try done.
    + exists (LCheck t). cbn [step]. rewrite Ht. destruct (update_check _ _). eauto.
    + exists (LCheck t). cbn [step]. rewrite Ht. destruct (close_locked _). eauto.
    + exists (LUnlock t). cbn [step]. rewrite Ht. eauto.
    + exists (LCall t). cbn [step]. rewrite Ht. eauto.
  - apply map_choose in Hne as (t & ph & Ht). exists (LLock t). cbn [step]. rewrite Ht, Hh.
    destruct ph; eauto; pose proof (proj1 (iv_holder0 _ _ Ht) eq_refl); done.
Qed.

Lemma drain h n s :
  inv h n s -> exists ls s', forallb internal ls = true /\ run h ls s = Some s' /\ calls s' = ∅.
Proof.
  remember (total_work (calls s)) as w eqn:Hw. revert s Hw.
  induction w as [w IH] using lt_wf_ind. intros s -> Hinv.
  destruct (decide (calls s = ∅)) as [He|He]; [by exists [], s|].
  destruct (pool_internal_enabled h n s Hinv He) as (l & s1 & Hl & Hs1).
  destruct (IH _ (internal_decreases h l s s1 Hl Hs1) s1 eq_refl) as (ls & s' & H1 & H2 & H3).
  { by eapply internal_inv. }
  exists (l :: ls), s'. cbn [forallb run]. by rewrite Hl, Hs1, H1.
Qed.

(** no call of the pool waits for ever: in every reachable state with calls
    in flight some call can go on, every step it makes leaves less to do,
    and so the calls made so far all end; the pool cannot deadlock on its
    two mutexes. *)
Theorem RelayPool_progress h k ls s
    (Hlen : Zlen ls < uint64_mod) (Hrun : run h ls (start k) = Some s) :
  (calls s <> ∅ -> exists l s', internal l = true /\ step h l s = Some s')
  /\ (forall l s', internal l = true -> step h l s = Some s' ->
        (total_work (calls s') < total_work (calls s))%nat)
  /\ exists more s', forallb internal more = true /\ run h more s = Some s' /\ calls s' = ∅.
Proof.
  pose proof (pool_reached _ _ _ _ Hlen Hrun) as Hinv. split; [|split].
  - by eapply pool_internal_enabled.
  - intros l s'. apply internal_decreases.
  - by eapply drain.
Qed.

(** ** Two relays of one pool *)
Definition all_hooks : hooks := mkHooks true true true true.

Definition relay_a : RelayRegisterResponse := {|
  rp_Version := 1; rp_Name := "t"; rp_Domain := "relay.example"; rp_Error := ""; rp_Code := "";
  rp_ReflectAddr := "192.0.2.1:7"; rp_UDPRelayAddr := ""; rp_NativeWireGuardAddr := "192.0.2.1:9";
  rp_NativeWireGuardToken := "ta"; rp_RelayVersion := ""; rp_Capabilities := [];
  rp_RequiredCapabilities := [] |}.

Definition relay_b : RelayRegisterResponse := {|
  rp_Version := 1; rp_Name := "t"; rp_Domain := "relay.example"; rp_Error := ""; rp_Code := "";
  rp_ReflectAddr := "192.0.2.2:7"; rp_UDPRelayAddr := "192.0.2.2:8"; rp_NativeWireGuardAddr := "192.0.2.2:9";
  rp_NativeWireGuardToken := "tb"; rp_RelayVersion := ""; rp_Capabilities := [];
  rp_RequiredCapabilities := [] |}.

Definition no_stats : nat -> AllocationStats := fun _ => {| as_success := 0; as_failure := 0 |}.

(** Member 0 registers and is preferred; before its callbacks run, member 1
    registers and member 0 is lost: the first two calls are superseded, and
    the third publishes for all of them. *)
Definition two_relays : list label :=
  [LUpdate 0 no_stats 0 true relay_a; LUpdate 1 no_stats 1 true relay_b;
   LUpdate 2 no_stats 0 false empty_response;
   LLock 0; LCheck 0; LUnlock 0; LLock 2; LCheck 2; LCall 2; LCall 2; LCall 2; LCall 2; LUnlock 2;
   LLock 1; LCheck 1; LUnlock 1].

Definition two_state : sys := default (start 2) (run all_hooks two_relays (start 2)).

Lemma two_run : run all_hooks two_relays (start 2) = Some two_state /\ calls two_state = ∅.
Proof. split; vm_compute; reflexivity. Qed.

Lemma RelayPool_publishes_witness :
  receivers two_state = mkTold "192.0.2.2:7" (Some 1%nat, "192.0.2.2:8"%string)
    (mkNative "192.0.2.2:9" "tb") [mkNative "192.0.2.2:9" "tb"]
  /\ native_listing 2 two_relays (t_set (receivers two_state)) /\ ~ live 2 two_relays 0 empty_response.
Proof.
  split; [vm_compute; reflexivity|]. split.
  - pose proof (RelayPool_publishes all_hooks 2 two_relays two_state eq_refl (proj1 two_run) (proj2 two_run)) as H.
    assert (Hc : existsb closes two_relays = false) by reflexivity. rewrite Hc in H. exact (proj1 H eq_refl).
  - intros (_ & H & _). discriminate H.
Defined.

Lemma RelayPool_one_domain_witness : is_registered (members (pool two_state)) 1 = true.
Proof.
  apply (proj2 (RelayPool_one_domain all_hooks 2 two_relays two_state eq_refl (proj1 two_run))).
  vm_compute. reflexivity.
Defined.

Definition half_way : sys := default (start 2) (run all_hooks (take 8 two_relays) (start 2)).

Lemma RelayPool_progress_witness :
  calls half_way <> ∅ /\
  exists more s', forallb internal more = true /\ run all_hooks more half_way = Some s' /\ calls s' = ∅.
Proof.
  assert (Hrun : run all_hooks (take 8 two_relays) (start 2) = Some half_way) by (vm_compute; reflexivity).
  split; [intros H; by vm_compute in H|].
  apply (RelayPool_progress all_hooks 2 (take 8 two_relays) half_way eq_refl Hrun).
Defined.
