(* ===== verification/UdpRelay.v ===== *)
(** [pkg/server/udprelay.go]: the server's side of relay-mediated UDP, one
    [udpRelay] with its calls in flight.

    A step is one critical section of [udpRelay.mu], one operation on a
    channel, one answer of the relay or one call to the outside.  A session
    is shared with its keepalive goroutine only in the fields that never
    change (token, address, stop channel), so the map holds it by value.
    Channels are numbered. *)
From S2P Require Import Prelude Bytes Protocol.

(** ** Protocol structures *)
Record ClientUDPRelayStats := {
  cs_BytesSent : Z;
  cs_PacketsSent : Z;
  cs_BytesReceived : Z;
  cs_PacketsReceived : Z;
}.

Record UDPRelayHopStats := {
  hs_ClientPacketsReceived : Z;
  hs_ClientBytesReceived : Z;
  hs_ServerPacketsForwarded : Z;
  hs_ServerBytesForwarded : Z;
  hs_ServerPacketsReceived : Z;
  hs_ServerBytesReceived : Z;
  hs_ClientPacketsForwarded : Z;
  hs_ClientBytesForwarded : Z;
  hs_ClientObserved : option ClientUDPRelayStats;
}.

Record UDPRelayResponse := mkResp {
  rs_RelayAddr : string;
  rs_Token : string;
  rs_Error : string;
  rs_Code : string;
  rs_Stats : option UDPRelayHopStats;
}.

Definition no_response : UDPRelayResponse := mkResp "" "" "" "" None.

(** ** State *)

(** [time.Since] less than this: reports may predate the allocation. *)
Definition reportGrace : Z := 90 * second.

Record udpRelaySessionState := mkSession {
  se_token : string;
  se_serverAddr : string;
  se_stop : nat;
  se_stats : option RelayUDPStats;
  se_clientStats : option ClientUDPRelayStats;
  se_allocatedAt : Z;
  se_missingReports : Z;
}.

Record udpRelayAllocation := mkAlloc {
  al_done : bool;
  al_cancelled : bool;
  al_response : UDPRelayResponse;
}.

(** [sessions] is nil once [stopAll] has run; [allocs] are the allocations
    the pending map and the calls refer to. *)
Record udpRelay := mkRelay {
  relayAddr : string;
  multipath : bool;
  pending : gmap string nat;
  allocs : gmap nat udpRelayAllocation;
  sessions : option (gmap string udpRelaySessionState);
}.

Definition set_pending (m : gmap string nat) (u : udpRelay) : udpRelay :=
  mkRelay (relayAddr u) (multipath u) m (allocs u) (sessions u).
Definition set_allocs (m : gmap nat udpRelayAllocation) (u : udpRelay) : udpRelay :=
  mkRelay (relayAddr u) (multipath u) (pending u) m (sessions u).
Definition set_sessions (m : option (gmap string udpRelaySessionState)) (u : udpRelay) : udpRelay :=
  mkRelay (relayAddr u) (multipath u) (pending u) (allocs u) m.

Definition session_map (u : udpRelay) : gmap string udpRelaySessionState := default ∅ (sessions u).

Definition newUdpRelay (addr : string) (mp : bool) : udpRelay := mkRelay addr mp ∅ ∅ (Some ∅).

(** ** Telemetry *)
Definition relayUDPStatsSummaryFrom (s : RelayUDPStats) : UDPRelayHopStats := {|
  hs_ClientPacketsReceived := us_ClientPacketsReceived s;
  hs_ClientBytesReceived := us_ClientBytesReceived s;
  hs_ServerPacketsForwarded := us_ServerPacketsForwarded s;
  hs_ServerBytesForwarded := us_ServerBytesForwarded s;
  hs_ServerPacketsReceived := us_ServerPacketsReceived s;
  hs_ServerBytesReceived := us_ServerBytesReceived s;
  hs_ClientPacketsForwarded := us_ClientPacketsForwarded s;
  hs_ClientBytesForwarded := us_ClientBytesForwarded s;
  hs_ClientObserved := None |}.

Definition observed (c : option ClientUDPRelayStats) (h : UDPRelayHopStats) : UDPRelayHopStats := {|
  hs_ClientPacketsReceived := hs_ClientPacketsReceived h;
  hs_ClientBytesReceived := hs_ClientBytesReceived h;
  hs_ServerPacketsForwarded := hs_ServerPacketsForwarded h;
  hs_ServerBytesForwarded := hs_ServerBytesForwarded h;
  hs_ServerPacketsReceived := hs_ServerPacketsReceived h;
  hs_ServerBytesReceived := hs_ServerBytesReceived h;
  hs_ClientPacketsForwarded := hs_ClientPacketsForwarded h;
  hs_ClientBytesForwarded := hs_ClientBytesForwarded h;
  hs_ClientObserved := c |}.

(** [st.stats] starts as the zero struct, whose token is empty. *)
Definition statsFor (key : string) (u : udpRelay) : option UDPRelayHopStats :=
  match session_map u !! key with
  | None => None
  | Some st =>
      match se_stats st with
      | Some x => if (us_Token x =? "")%string then None
                  else Some (observed (se_clientStats st) (relayUDPStatsSummaryFrom x))
      | None => None
      end
  end.

Definition with_clientStats (c : ClientUDPRelayStats) (st : udpRelaySessionState) : udpRelaySessionState :=
  mkSession (se_token st) (se_serverAddr st) (se_stop st) (se_stats st) (Some c)
    (se_allocatedAt st) (se_missingReports st).
Definition with_stats (x : RelayUDPStats) (st : udpRelaySessionState) : udpRelaySessionState :=
  mkSession (se_token st) (se_serverAddr st) (se_stop st) (Some x) (se_clientStats st)
    (se_allocatedAt st) 0.
Definition with_missing (n : Z) (st : udpRelaySessionState) : udpRelaySessionState :=
  mkSession (se_token st) (se_serverAddr st) (se_stop st) (se_stats st) (se_clientStats st)
    (se_allocatedAt st) n.

Definition recordClientStats (key : string) (stats : option ClientUDPRelayStats) (u : udpRelay) : udpRelay :=
  match stats with
  | None => u
  | Some c => set_sessions (alter (with_clientStats c) key <$> sessions u) u
  end.

(** One sample goes to the first session of the range order with its token. *)
Definition has_token (m : gmap string udpRelaySessionState) (tok k : string) : bool :=
  match m !! k with Some st => (se_token st =? tok)%string | None => false end.

Definition record_sample (ord : gmap string udpRelaySessionState -> list string)
    (m : gmap string udpRelaySessionState) (x : RelayUDPStats) : gmap string udpRelaySessionState :=
  match filter (fun k => has_token m (us_Token x) k = true) (ord m) with
  | k :: _ => alter (with_stats x) k m
  | [] => m
  end.

(** The second loop, for one session: [None] drops it. *)
Definition age_session (now : Z) (seen : list string) (st : udpRelaySessionState) :
    option udpRelaySessionState :=
  if existsb (String.eqb (se_token st)) seen || (se_allocatedAt st =? time_zero)
     || (time_sub now (se_allocatedAt st) <? reportGrace)
  then Some st
  else let n := se_missingReports st + 1 in
       if 2 <=? n then None else Some (with_missing n st).

(** Removing the key it visits does not disturb Go's range, so the loop is
    one [omap]; [time.Since] is read once for all sessions. *)
Definition recordStats (ord : gmap string udpRelaySessionState -> list string) (now : Z)
    (report : list RelayUDPStats) (u : udpRelay) : udpRelay :=
  let seen := us_Token <$> report in
  set_sessions ((fun m => omap (age_session now seen) (foldl (record_sample ord) m report))
                <$> sessions u) u.

(** ** Sessions by what never changes in them *)
Record core := mkCore { co_token : string; co_serverAddr : string; co_stop : nat }.

Definition core_of (st : udpRelaySessionState) : core :=
  mkCore (se_token st) (se_serverAddr st) (se_stop st).

Definition cores (u : udpRelay) : gmap string core := core_of <$> session_map u.

(** The sessions [u] has and [u'] has not. *)
Definition forgotten (u u' : udpRelay) : list core := (map_to_list (cores u ∖ cores u')).*2.

(** ** Calls in flight *)
Record request := mkReq {
  rq_key : string;
  rq_multipath : bool;
  rq_stats : option ClientUDPRelayStats;
}.

Inductive phase : Type :=
  | Entered
  | Live (token : string)
  | Waiting (p : nat)
  | Allocating (p : nat)
  | Allocated (p : nat) (token addr : string) (ok : bool)
  | Refused (p : nat) (token : string)
  | Published (p : nat) (c : core)
  | Leaving (p : nat) (resp : UDPRelayResponse)
  | Done (resp : UDPRelayResponse).

Inductive call : Type :=
  | SessionFor (rq : request) (ph : phase)
  | RlClosing (c : core)
  | RlReleasing (token : string)
  | Ended.

(** [handed] and [released] are the tokens the relay gave and was given back;
    [dropped] those of sessions forgotten without telling it.  [closing] are
    the stop channels [stopAll] still has to close, [stops] the closed ones
    and [made] all of them; [routed] is the address each peer was last
    pointed at, [sent] the bind frames. *)
Record sys := mkSys {
  relay : udpRelay;
  calls : gmap nat call;
  handed : list string;
  released : list string;
  dropped : list string;
  routed : gmap string (bool * string);
  made : gset nat;
  stops : gset nat;
  closing : list nat;
  loops : gmap nat (string * string);
  sent : list (string * string);
  panicked : bool;
}.

Definition start (addr : string) (mp : bool) : sys :=
  mkSys (newUdpRelay addr mp) ∅ [] [] [] ∅ ∅ ∅ [] ∅ [] false.

Inductive label : Type :=
  | LEnter (t : nat) (rq : request)
  | LLook (t : nat) (over : bool) (fresh : nat)
  | LStats (t : nat)
  | LWake (t : nat)
  | LGiveUp (t : nat)
  | LAllocated (t : nat) (token addr : string) (ok : bool)
  | LPublish (t : nat) (expired routes : bool) (now : Z) (stop : nat)
  | LRefuse (t : nat)
  | LBind (t : nat)
  | LLeave (t : nat)
  | LRelease (t : nat) (key : string)
  | LRlClose (t : nat)
  | LRlRelease (t : nat)
  | LStopAll
  | LClose (i : nat)
  | LReport (ord : gmap string udpRelaySessionState -> list string) (now : Z)
      (report : list RelayUDPStats)
  | LTick (stop : nat)
  | LQuit (stop : nat).

Definition set_relay (u : udpRelay) (s : sys) : sys :=
  mkSys u (calls s) (handed s) (released s) (dropped s) (routed s) (made s) (stops s) (closing s)
    (loops s) (sent s) (panicked s).
Definition set_call (t : nat) (c : call) (s : sys) : sys :=
  mkSys (relay s) (<[t := c]> (calls s)) (handed s) (released s) (dropped s) (routed s) (made s)
    (stops s) (closing s) (loops s) (sent s) (panicked s).
Definition hand (token : string) (s : sys) : sys :=
  mkSys (relay s) (calls s) (if (token =? "")%string then handed s else token :: handed s)
    (released s) (dropped s) (routed s) (made s) (stops s) (closing s) (loops s) (sent s) (panicked s).
Definition give_back (token : string) (s : sys) : sys :=
  mkSys (relay s) (calls s) (handed s) (token :: released s) (dropped s) (routed s) (made s)
    (stops s) (closing s) (loops s) (sent s) (panicked s).
Definition drop_cores (cs : list core) (s : sys) : sys :=
  mkSys (relay s) (calls s) (handed s) (released s) ((co_token <$> cs) ++ dropped s) (routed s)
    (made s) (stops s) (closing s) (loops s) (sent s) (panicked s).
Definition route (key : string) (addr : bool * string) (s : sys) : sys :=
  mkSys (relay s) (calls s) (handed s) (released s) (dropped s) (<[key := addr]> (routed s)) (made s)
    (stops s) (closing s) (loops s) (sent s) (panicked s).
Definition make_stop (c : nat) (s : sys) : sys :=
  mkSys (relay s) (calls s) (handed s) (released s) (dropped s) (routed s) ({[c]} ∪ made s)
    (stops s) (closing s) (loops s) (sent s) (panicked s).
Definition set_closing (l : list nat) (s : sys) : sys :=
  mkSys (relay s) (calls s) (handed s) (released s) (dropped s) (routed s) (made s)
    (stops s) l (loops s) (sent s) (panicked s).
Definition send_bind (token addr : string) (s : sys) : sys :=
  mkSys (relay s) (calls s) (handed s) (released s) (dropped s) (routed s) (made s)
    (stops s) (closing s) (loops s) ((token, addr) :: sent s) (panicked s).
Definition set_loops (m : gmap nat (string * string)) (s : sys) : sys :=
  mkSys (relay s) (calls s) (handed s) (released s) (dropped s) (routed s) (made s)
    (stops s) (closing s) m (sent s) (panicked s).
Definition panic_if (b : bool) (s : sys) : sys :=
  mkSys (relay s) (calls s) (handed s) (released s) (dropped s) (routed s) (made s)
    (stops s) (closing s) (loops s) (sent s) (panicked s || b).

(** [close(st.stop)]: closing a closed channel panics. *)
Definition close_stop (c : nat) (s : sys) : sys :=
  panic_if (bool_decide (c ∈ stops s))
    (mkSys (relay s) (calls s) (handed s) (released s) (dropped s) (routed s) (made s)
       ({[c]} ∪ stops s) (closing s) (loops s) (sent s) (panicked s)).

Definition close_stops (cs : list nat) (s : sys) : sys := foldr close_stop s cs.

(** ** Steps *)
Definition alter_alloc (p : nat) (f : udpRelayAllocation -> udpRelayAllocation) (u : udpRelay) : udpRelay :=
  set_allocs (alter f p (allocs u)) u.
Definition cancel_alloc (a : udpRelayAllocation) : udpRelayAllocation :=
  mkAlloc (al_done a) true (al_response a).
Definition respond (r : UDPRelayResponse) (a : udpRelayAllocation) : udpRelayAllocation :=
  mkAlloc (al_done a) (al_cancelled a) r.
Definition finish_alloc (a : udpRelayAllocation) : udpRelayAllocation :=
  mkAlloc true (al_cancelled a) (al_response a).

Definition is_done (p : nat) (u : udpRelay) : bool :=
  match allocs u !! p with Some a => al_done a | None => false end.
Definition is_cancelled (p : nat) (u : udpRelay) : bool :=
  match allocs u !! p with Some a => al_cancelled a | None => false end.

(** [sessionFor] from its first critical section on. *)
Definition look (key : string) (over : bool) (fresh : nat) (u : udpRelay) : phase * udpRelay :=
  match session_map u !! key with
  | Some st => (Live (se_token st), u)
  | None =>
      if bool_decide (sessions u = None) || over then (Done no_response, u)
      else match pending u !! key with
           | Some p => (Waiting p, u)
           | None => (Allocating fresh,
               set_pending (<[key := fresh]> (pending u))
                 (set_allocs (<[fresh := mkAlloc false false no_response]> (allocs u)) u))
           end
  end.

(** May the answer still be published? *)
Definition publishable (key : string) (p : nat) (token addr : string) (ok expired : bool)
    (u : udpRelay) : bool :=
  ok && negb (token =? "")%string && negb (addr =? "")%string
  && negb (expired || is_cancelled p u)
  && negb (bool_decide (sessions u = None)) && bool_decide (pending u !! key = Some p).

Definition new_session (rq : request) (token addr : string) (now : Z) (stop : nat) : udpRelaySessionState :=
  mkSession token addr stop None (rq_stats rq) now 0.

(** The deferred clean-up of an allocating call. *)
Definition leave (key : string) (p : nat) (u : udpRelay) : udpRelay :=
  let u := if bool_decide (pending u !! key = Some p) then set_pending (delete key (pending u)) u else u in
  alter_alloc p finish_alloc u.

(** The locked part of [release]. *)
Definition release (key : string) (u : udpRelay) : option udpRelaySessionState * udpRelay :=
  let u := match pending u !! key with
           | Some p => set_pending (delete key (pending u)) (alter_alloc p cancel_alloc u)
           | None => u
           end in
  (session_map u !! key, set_sessions (delete key <$> sessions u) u).

(** The locked part of [stopAll]. *)
Definition cancel_pending (u : udpRelay) : gmap nat udpRelayAllocation :=
  map_imap (fun p a => Some (if bool_decide (p ∈ (map_to_list (pending u)).*2)
                             then cancel_alloc a else a)) (allocs u).
Definition stopAll (u : udpRelay) : udpRelay :=
  set_sessions None (set_pending ∅ (set_allocs (cancel_pending u) u)).

Definition phase_of (t : nat) (s : sys) : option (request * phase) :=
  match calls s !! t with Some (SessionFor rq ph) => Some (rq, ph) | _ => None end.

Definition step_session (l : label) (s : sys) : option sys :=
  let u := relay s in
  match l with
  | LEnter t rq =>
      match calls s !! t with
      | Some _ => None
      | None => Some (set_call t (SessionFor rq Entered)
                        (set_relay (recordClientStats (rq_key rq) (rq_stats rq) u) s))
      end
  | LLook t over fresh =>
      match phase_of t s with
      | Some (rq, Entered) =>
          if bool_decide (allocs u !! fresh = None) then
            let '(ph, u') := look (rq_key rq) over fresh u in
            Some (set_call t (SessionFor rq ph) (set_relay u' s))
          else None
      | _ => None
      end
  | LStats t =>
      match phase_of t s with
      | Some (rq, Live token) =>
          Some (set_call t (SessionFor rq (Done (mkResp (relayAddr u) token "" "" (statsFor (rq_key rq) u)))) s)
      | _ => None
      end
  | LWake t =>
      match phase_of t s with
      | Some (rq, Waiting p) =>
          match allocs u !! p with
          | Some a => if al_done a then Some (set_call t (SessionFor rq (Done (al_response a))) s) else None
          | None => None
          end
      | _ => None
      end
  | LGiveUp t =>
      match phase_of t s with
      | Some (rq, Waiting _) => Some (set_call t (SessionFor rq (Done no_response)) s)
      | _ => None
      end
  | LAllocated t token addr ok =>
      match phase_of t s with
      (* the relay mints its tokens at random: a new one *)
      | Some (rq, Allocating p) =>
          if bool_decide (token = ""%string \/ token ∉ handed s)
          then Some (set_call t (SessionFor rq (Allocated p token addr ok)) (hand token s))
          else None
      | _ => None
      end
  | LPublish t expired routes now stop =>
      match phase_of t s with
      | Some (rq, Allocated p token addr ok) =>
          if publishable (rq_key rq) p token addr ok expired u then
            if routes then
              if bool_decide (stop ∈ made s) then None
              else
                let st := new_session rq token addr now stop in
                let resp := mkResp (relayAddr u) token "" "" None in
                Some (set_call t (SessionFor rq (Published p (core_of st)))
                  (route (rq_key rq) (rq_multipath rq && multipath u, addr) (make_stop stop
                    (set_relay (alter_alloc p (respond resp)
                       (set_sessions (insert (rq_key rq) st <$> sessions u) u)) s))))
            else Some (set_call t (SessionFor rq (Refused p token)) s)
          else Some (set_call t (SessionFor rq (if (token =? "")%string then Leaving p no_response
                                                else Refused p token)) s)
      | _ => None
      end
  | LRefuse t =>
      match phase_of t s with
      | Some (rq, Refused p token) =>
          Some (set_call t (SessionFor rq (Leaving p no_response)) (give_back token s))
      | _ => None
      end
  | LBind t =>
      match phase_of t s with
      | Some (rq, Published p c) =>
          Some (set_call t (SessionFor rq (Leaving p (mkResp (relayAddr u) (co_token c) "" "" None)))
            (set_loops (<[co_stop c := (co_token c, co_serverAddr c)]> (loops s))
               (send_bind (co_token c) (co_serverAddr c) s)))
      | _ => None
      end
  | LLeave t =>
      match phase_of t s with
      | Some (rq, Leaving p resp) =>
          Some (set_call t (SessionFor rq (Done resp))
                  (panic_if (is_done p u) (set_relay (leave (rq_key rq) p u) s)))
      | _ => None
      end
  | _ => None
  end.

Definition step_release (l : label) (s : sys) : option sys :=
  match l with
  | LRelease t key =>
      match calls s !! t with
      | Some _ => None
      | None =>
          let '(st, u) := release key (relay s) in
          Some (set_call t (match st with Some st => RlClosing (core_of st) | None => Ended end)
                  (set_relay u s))
      end
  | LRlClose t =>
      match calls s !! t with
      | Some (RlClosing c) => Some (set_call t (RlReleasing (co_token c)) (close_stop (co_stop c) s))
      | _ => None
      end
  | LRlRelease t =>
      match calls s !! t with
      | Some (RlReleasing token) => Some (set_call t Ended (give_back token s))
      | _ => None
      end
  | LStopAll =>
      let u' := stopAll (relay s) in
      let gone := forgotten (relay s) u' in
      Some (set_closing ((co_stop <$> gone) ++ closing s) (drop_cores gone (set_relay u' s)))
  | LClose i =>
      match closing s !! i with
      | Some c => Some (close_stop c (set_closing (delete i (closing s)) s))
      | None => None
      end
  | LReport ord now report =>
      let u' := recordStats ord now report (relay s) in
      let gone := forgotten (relay s) u' in
      Some (close_stops (co_stop <$> gone) (drop_cores gone (set_relay u' s)))
  (* [select] may take the tick although the channel is closed *)
  | LTick c =>
      match loops s !! c with
      | Some (token, addr) => Some (send_bind token addr s)
      | None => None
      end
  | LQuit c =>
      if bool_decide (c ∈ stops s) && bool_decide (is_Some (loops s !! c))
      then Some (set_loops (delete c (loops s)) s) else None
  | _ => None
  end.

Definition step (l : label) (s : sys) : option sys :=
  match l with
  | LRelease _ _ | LRlClose _ | LRlRelease _ | LStopAll | LClose _ | LReport _ _ _ | LTick _ | LQuit _ =>
      step_release l s
  | _ => step_session l s
  end.

Definition run (ls : list label) (s : sys) : option sys :=
  foldl (fun r l => r ≫= step l) (Some s) ls.
