(* ===== verification/UdpRelaySteps.v ===== *)
(** What every sequence of [UdpRelay]'s steps keeps: where each token of the
    relay is, which call finishes an allocation, which stop channels are
    open and which keepalive goroutines run; and that calls come to an end. *)
From S2P Require Import Prelude Bytes Protocol UdpRelay.

(** ** Sessions under the operations *)
Lemma cores_lookup u k : cores u !! k = core_of <$> session_map u !! k.
Proof. unfold cores. apply lookup_fmap. Qed.

Lemma cores_eq u u' :
  (forall k, core_of <$> session_map u' !! k = core_of <$> session_map u !! k) -> cores u' = cores u.
Proof. intros H. apply map_eq. intros k. by rewrite !cores_lookup. Qed.

Lemma cores_recordClientStats k c u : cores (recordClientStats k c u) = cores u.
Proof.
  unfold recordClientStats. destruct c as [c|]; [|done]. apply cores_eq. intros k'.
  unfold session_map. simpl. destruct (sessions u) as [m|]; simpl; [|done].
  destruct (decide (k' = k)) as [->|Hne]; [|by rewrite lookup_alter_ne].
  rewrite lookup_alter_eq. by destruct (m !! k).
Qed.

Lemma look_cores key over fresh u ph u' : look key over fresh u = (ph, u') -> cores u' = cores u.
Proof. unfold look. repeat case_match; by intros [= <- <-]. Qed.

Lemma cores_leave key p u : cores (leave key p u) = cores u.
Proof. unfold leave. by destruct (bool_decide _). Qed.

Lemma cores_insert key st p f u :
  sessions u <> None ->
  cores (alter_alloc p f (set_sessions (insert key st <$> sessions u) u))
  = <[key := core_of st]> (cores u).
Proof.
  intros Hs. unfold cores, session_map. simpl. destruct (sessions u) as [m|]; [|done].
  simpl. by rewrite fmap_insert.
Qed.

Lemma release_spec key u st u' :
  release key u = (st, u') -> core_of <$> st = cores u !! key /\ cores u' = delete key (cores u).
Proof.
  unfold release. destruct (pending u !! key) as [p|]; intros [= <- <-]; split;
    try (by rewrite cores_lookup); unfold cores, session_map; simpl;
    destruct (sessions u); simpl; by rewrite ?fmap_delete, ?fmap_empty, ?delete_empty.
Qed.

Lemma cores_stopAll u : cores (stopAll u) = ∅.
Proof. unfold cores, session_map. simpl. apply fmap_empty. Qed.

Lemma record_sample_core ord m x k :
  core_of <$> record_sample ord m x !! k = core_of <$> m !! k.
Proof.
  unfold record_sample. destruct (filter _ (ord m)) as [|k' l]; [done|].
  destruct (decide (k = k')) as [->|Hne]; [|by rewrite lookup_alter_ne].
  rewrite lookup_alter_eq. by destruct (m !! k').
Qed.

Lemma record_samples_core ord m xs k :
  core_of <$> foldl (record_sample ord) m xs !! k = core_of <$> m !! k.
Proof.
  revert m. induction xs as [|x xs IH]; intros m; [done|]. simpl. rewrite IH. apply record_sample_core.
Qed.

Lemma age_session_core now seen st st' : age_session now seen st = Some st' -> core_of st' = core_of st.
Proof. unfold age_session. repeat case_match; by intros [= <-]. Qed.

Lemma cores_recordStats ord now report u : cores (recordStats ord now report u) ⊆ cores u.
Proof.
  apply map_subseteq_spec. intros k c. rewrite !cores_lookup. unfold recordStats, session_map.
  simpl. destruct (sessions u) as [m|]; simpl; [|done]. rewrite lookup_omap.
  pose proof (record_samples_core ord m report k) as Hk.
  destruct (foldl (record_sample ord) m report !! k) as [st|]; simpl; [|done].
  destruct (age_session now (us_Token <$> report) st) as [st'|] eqn:E; simpl; [|done].
  intros [= <-]. rewrite (age_session_core _ _ _ _ E). by symmetry.
Qed.

(** ** Where tokens and stop channels are *)
Definition holds_token (token : string) (c : call) : bool :=
  match c with
  | SessionFor _ (Allocated _ tk _ _) | SessionFor _ (Refused _ tk) => (tk =? token)%string
  | RlClosing co => (co_token co =? token)%string
  | RlReleasing tk => (tk =? token)%string
  | _ => false
  end.

Definition core_token (token : string) (c : core) : bool := (co_token c =? token)%string.
Definition core_stop (c : nat) (x : core) : bool := bool_decide (co_stop x = c).

Definition tokens_at (token : string) (s : sys) : Z :=
  countZ (holds_token token) (calls s) + countZ (core_token token) (cores (relay s))
  + occ token (released s) + occ token (dropped s).

Definition holds_stop (c : nat) (x : call) : bool :=
  match x with RlClosing co => core_stop c co | _ => false end.

Definition stops_at (c : nat) (s : sys) : Z :=
  countZ (holds_stop c) (calls s) + countZ (core_stop c) (cores (relay s))
  + occ c (closing s) + Z.b2z (bool_decide (c ∈ stops s)).

Lemma forgotten_token u u' token :
  cores u' ⊆ cores u ->
  countZ (core_token token) (cores u)
  = countZ (core_token token) (cores u') + occ token (co_token <$> forgotten u u').
Proof.
  intros Hsub. rewrite (countZ_difference _ _ _ Hsub), (countZ_list _ (cores u ∖ cores u')).
  unfold forgotten. rewrite occ_fmap. do 3 f_equal. apply list_filter_iff. intros c.
  unfold core_token. apply String.eqb_eq.
Qed.

Lemma forgotten_stop u u' c :
  cores u' ⊆ cores u ->
  countZ (core_stop c) (cores u)
  = countZ (core_stop c) (cores u') + occ c (co_stop <$> forgotten u u').
Proof.
  intros Hsub. rewrite (countZ_difference _ _ _ Hsub), (countZ_list _ (cores u ∖ cores u')).
  unfold forgotten. rewrite occ_fmap. do 3 f_equal. apply list_filter_iff. intros x.
  unfold core_stop. apply bool_decide_eq_true.
Qed.

(** ** The invariant *)
Definition owns (ph : phase) : option nat :=
  match ph with
  | Allocating p | Allocated p _ _ _ | Refused p _ | Published p _ | Leaving p _ => Some p
  | _ => None
  end.
Definition unpublished (ph : phase) : bool :=
  match ph with Allocating _ | Allocated _ _ _ _ => true | _ => false end.

(** A pending allocation has exactly one call that will finish it; while it
    is pending and unpublished its client has no session; an allocation
    that is neither cancelled nor published is pending. *)
Record allocs_ok (s : sys) : Prop := mkAllocsOk {
  ao_pending : forall key p, pending (relay s) !! key = Some p ->
    exists t rq ph, phase_of t s = Some (rq, ph) /\ owns ph = Some p /\ rq_key rq = key;
  ao_owner : forall t rq ph p, phase_of t s = Some (rq, ph) -> owns ph = Some p ->
    exists a, allocs (relay s) !! p = Some a /\ al_done a = false;
  ao_unique : forall t t' rq rq' ph ph' p, phase_of t s = Some (rq, ph) -> owns ph = Some p ->
    phase_of t' s = Some (rq', ph') -> owns ph' = Some p -> t = t';
  ao_undone : forall p a, allocs (relay s) !! p = Some a -> al_done a = false ->
    exists t rq ph, phase_of t s = Some (rq, ph) /\ owns ph = Some p;
  ao_free : forall t rq ph p, phase_of t s = Some (rq, ph) -> owns ph = Some p ->
    unpublished ph = true -> pending (relay s) !! rq_key rq = Some p ->
    cores (relay s) !! rq_key rq = None;
  ao_current : forall t rq ph p, phase_of t s = Some (rq, ph) -> owns ph = Some p ->
    unpublished ph = true -> is_cancelled p (relay s) = false ->
    pending (relay s) !! rq_key rq = Some p;
  ao_waiting : forall t rq p, phase_of t s = Some (rq, Waiting p) -> is_Some (allocs (relay s) !! p);
}.

(** What a call's step may do without touching the allocations. *)
Definition same_owner (o o' : option (request * phase)) : Prop :=
  match o, o' with
  | Some (rq, ph), Some (rq', ph') => rq' = rq /\ owns ph' = owns ph
      /\ (unpublished ph' = true -> unpublished ph = true)
  | None, Some (_, ph') => owns ph' = None
  | None, None => True
  | Some (_, ph), None => owns ph = None
  end.

Lemma phase_of_set t c s t' :
  phase_of t' (set_call t c s) =
  if decide (t' = t) then match c with SessionFor rq ph => Some (rq, ph) | _ => None end
  else phase_of t' s.
Proof.
  unfold phase_of. simpl. destruct (decide (t' = t)) as [->|Hne];
    [by rewrite lookup_insert_eq|by rewrite lookup_insert_ne].
Qed.

Lemma allocs_ok_same s s' t :
  allocs_ok s ->
  (forall t', t' <> t -> phase_of t' s' = phase_of t' s) ->
  same_owner (phase_of t s) (phase_of t s') ->
  (forall rq p, phase_of t s' = Some (rq, Waiting p) -> is_Some (allocs (relay s) !! p)) ->
  pending (relay s') = pending (relay s) ->
  (forall p, al_done <$> allocs (relay s') !! p = al_done <$> allocs (relay s) !! p) ->
  (forall p, al_cancelled <$> allocs (relay s') !! p = al_cancelled <$> allocs (relay s) !! p) ->
  (forall k, cores (relay s) !! k = None ->
     cores (relay s') !! k = None
     \/ exists p rq ph, phase_of t s' = Some (rq, ph) /\ owns ph = Some p /\ rq_key rq = k
          /\ pending (relay s) !! k = Some p /\ unpublished ph = false) ->
  allocs_ok s'.
Proof.
  intros [] Hoth Ht Hw Hp Hd Hc Hco.
  assert (Hback : forall t' rq ph p, phase_of t' s' = Some (rq, ph) -> owns ph = Some p ->
    exists ph0, phase_of t' s = Some (rq, ph0) /\ owns ph0 = Some p
      /\ (unpublished ph = true -> unpublished ph0 = true)).
  { intros t' rq ph p H1 H2. destruct (decide (t' = t)) as [->|Hne]; [|rewrite Hoth in H1 by done; eauto].
    rewrite H1 in Ht. destruct (phase_of t s) as [[rq0 ph0]|]; simpl in Ht; [|congruence].
    destruct Ht as (-> & Ho & Hu). exists ph0. by rewrite <-Ho. }
  assert (Hfwd : forall t' rq ph p, phase_of t' s = Some (rq, ph) -> owns ph = Some p ->
    exists ph', phase_of t' s' = Some (rq, ph') /\ owns ph' = Some p).
  { intros t' rq ph p H1 H2. destruct (decide (t' = t)) as [->|Hne]; [|rewrite <-Hoth in H1 by done; eauto].
    rewrite H1 in Ht. destruct (phase_of t s') as [[rq0 ph0]|]; simpl in Ht; [|congruence].
    destruct Ht as (-> & Ho & Hu). exists ph0. by rewrite Ho. }
  constructor.
  - intros key p. rewrite Hp. intros H. destruct (ao_pending0 _ _ H) as (t' & rq & ph & H1 & H2 & H3).
    destruct (Hfwd _ _ _ _ H1 H2) as (ph' & ? & ?). eauto 6.
  - intros t' rq ph p H1 H2. destruct (Hback _ _ _ _ H1 H2) as (ph0 & H3 & H4 & _).
    destruct (ao_owner0 _ _ _ _ H3 H4) as (a & Ha & Hda). specialize (Hd p). rewrite Ha in Hd.
    destruct (allocs (relay s') !! p) as [a'|]; [|done]. simpl in Hd. exists a'. split; [done|congruence].
  - intros t1 t2 rq1 rq2 ph1 ph2 p H1 H2 H3 H4.
    destruct (Hback _ _ _ _ H1 H2) as (? & ? & ? & _), (Hback _ _ _ _ H3 H4) as (? & ? & ? & _). eauto.
  - intros p a Ha Hda. specialize (Hd p). rewrite Ha in Hd.
    destruct (allocs (relay s) !! p) as [a0|] eqn:E; [|done]. simpl in Hd.
    destruct (ao_undone0 p a0 E) as (t' & rq & ph & H1 & H2); [congruence|].
    destruct (Hfwd _ _ _ _ H1 H2) as (ph' & ? & ?). eauto.
  - intros t' rq ph p H1 H2 H3 H4. destruct (Hback _ _ _ _ H1 H2) as (ph0 & H5 & H6 & H7).
    rewrite Hp in H4. destruct (Hco (rq_key rq)) as [|(p' & rq' & ph' & G1 & G2 & G3 & G4 & G5)]; [by eauto|done|].
    assert (p' = p) as -> by congruence.
    destruct (Hback _ _ _ _ G1 G2) as (? & ? & ? & _).
    assert (t = t') as -> by eauto. congruence.
  - intros t' rq ph p H1 H2 H3 H4. destruct (Hback _ _ _ _ H1 H2) as (ph0 & H5 & H6 & H7).
    rewrite Hp. eapply ao_current0; eauto. unfold is_cancelled in *. specialize (Hc p).
    destruct (allocs (relay s') !! p), (allocs (relay s) !! p); simpl in Hc; congruence.
  - intros t' rq p H. specialize (Hd p).
    assert (is_Some (allocs (relay s) !! p)) as [a Ha].
    { destruct (decide (t' = t)) as [->|Hne]; [by eauto|]. rewrite Hoth in H by done. eauto. }
    rewrite Ha in Hd. destruct (allocs (relay s') !! p); eauto. done.
Qed.

Lemma allocs_ok_view s s' :
  allocs_ok s -> (forall t, phase_of t s' = phase_of t s) -> pending (relay s') = pending (relay s) ->
  allocs (relay s') = allocs (relay s) ->
  (forall k, cores (relay s) !! k = None -> cores (relay s') !! k = None) -> allocs_ok s'.
Proof.
  intros H Hph Hp Ha Hc. apply (allocs_ok_same s s' 0); rewrite ?Ha; auto.
  - rewrite Hph. unfold same_owner. destruct (phase_of 0 s) as [[]|]; auto.
  - intros rq p. rewrite Hph. apply (ao_waiting _ H).
Qed.

Lemma allocs_ok_move s t c u :
  allocs_ok s ->
  same_owner (phase_of t s) (match c with SessionFor rq ph => Some (rq, ph) | _ => None end) ->
  (forall rq p, c = SessionFor rq (Waiting p) -> is_Some (allocs (relay s) !! p)) ->
  pending u = pending (relay s) -> allocs u = allocs (relay s) -> cores u = cores (relay s) ->
  forall s', (forall t', phase_of t' s' = phase_of t' (set_call t c s)) -> relay s' = u -> allocs_ok s'.
Proof.
  intros H Hs Hw Hp Ha Hc s' Hph Hu. subst u.
  apply (allocs_ok_same s s' t); rewrite ?Ha; auto.
  - intros t' Hne. rewrite Hph, phase_of_set. by destruct (decide (t' = t)).
  - by rewrite Hph, phase_of_set, decide_True.
  - intros rq p. rewrite Hph, phase_of_set, decide_True by done.
    destruct c as [rq' ph'| | |]; try done. intros [= -> ->]. eauto.
  - intros k Hk. left. by rewrite Hc.
Qed.

Lemma recordClientStats_allocs k c u :
  pending (recordClientStats k c u) = pending u /\ allocs (recordClientStats k c u) = allocs u.
Proof. by destruct c. Qed.

Lemma phase_lookup t s rq ph :
  phase_of t s = Some (rq, ph) <-> calls s !! t = Some (SessionFor rq ph).
Proof.
  unfold phase_of. destruct (calls s !! t) as [[rq0 ph0| | |]|] eqn:E; split; congruence.
Qed.

(** A new allocation. *)
Lemma allocs_ok_allocate s t rq p :
  allocs_ok s -> phase_of t s = Some (rq, Entered) -> allocs (relay s) !! p = None ->
  pending (relay s) !! rq_key rq = None -> session_map (relay s) !! rq_key rq = None ->
  allocs_ok (set_call t (SessionFor rq (Allocating p))
    (set_relay (set_pending (<[rq_key rq := p]> (pending (relay s)))
       (set_allocs (<[p := mkAlloc false false no_response]> (allocs (relay s))) (relay s))) s)).
Proof.
  intros [] Ht Hp Hpend Hsess.
  assert (Hph : forall t' c s0, phase_of t' (set_call t c (set_relay s0 s)) =
    if decide (t' = t) then match c with SessionFor rq ph => Some (rq, ph) | _ => None end
    else phase_of t' s) by (intros; by rewrite phase_of_set).
  assert (Hno : forall t' rq' ph', phase_of t' s = Some (rq', ph') -> owns ph' = Some p -> False).
  { intros t' rq' ph' H1 H2. destruct (ao_owner0 _ _ _ _ H1 H2) as (a & Ha & _). congruence. }
  constructor; simpl.
  - intros key p'. destruct (decide (key = rq_key rq)) as [->|Hne].
    + rewrite lookup_insert_eq. intros [= <-]. exists t, rq, (Allocating p).
      by rewrite Hph, decide_True.
    + rewrite lookup_insert_ne by done. intros H.
      destruct (ao_pending0 _ _ H) as (t' & rq' & ph' & H1 & H2 & H3).
      exists t', rq', ph'. rewrite Hph, decide_False; [done|]. intros ->.
      rewrite Ht in H1. by injection H1 as <- <-.
  - intros t' rq' ph' p'. rewrite Hph. destruct (decide (t' = t)) as [->|Hne].
    + intros [= <- <-] [= <-]. rewrite lookup_insert_eq. eauto.
    + intros H1 H2. rewrite lookup_insert_ne; [eauto|]. intros <-. eauto.
  - intros t1 t2 rq1 rq2 ph1 ph2 p'. rewrite !Hph. destruct (decide (t1 = t)), (decide (t2 = t)); try congruence.
    + intros [= <- <-] [= <-] H3 H4. by destruct (Hno _ _ _ H3 H4).
    + intros H3 H4 [= <- <-] [= <-]. by destruct (Hno _ _ _ H3 H4).
    + eauto.
  - intros p' a. destruct (decide (p' = p)) as [->|Hne].
    + rewrite lookup_insert_eq. intros _ _. exists t, rq, (Allocating p). by rewrite Hph, decide_True.
    + rewrite lookup_insert_ne by done. intros Ha Hd. destruct (ao_undone0 _ _ Ha Hd) as (t' & rq' & ph' & H1 & H2).
      exists t', rq', ph'. rewrite Hph, decide_False; [done|]. intros ->.
      rewrite Ht in H1. by injection H1 as <- <-.
  - intros t' rq' ph' p'. rewrite Hph. destruct (decide (t' = t)) as [->|Hne].
    + intros [= <- <-] _ _ _. rewrite cores_lookup. unfold session_map in *. simpl. by rewrite Hsess.
    + intros H1 H2 H3 H4. destruct (decide (rq_key rq' = rq_key rq)) as [E|E].
      * rewrite E, lookup_insert_eq in H4. injection H4 as <-. by destruct (Hno _ _ _ H1 H2).
      * rewrite lookup_insert_ne in H4 by done. change (cores (relay s) !! rq_key rq' = None). eauto.
  - intros t' rq' ph' p'. rewrite Hph. destruct (decide (t' = t)) as [->|Hne].
    + intros [= <- <-] [= <-] _ _. by rewrite lookup_insert_eq.
    + intros H1 H2 H3 H4. assert (p' <> p) by (intros ->; eauto).
      unfold is_cancelled in H4. simpl in H4. rewrite lookup_insert_ne in H4 by done.
      pose proof (ao_current0 _ _ _ _ H1 H2 H3 H4) as H5.
      rewrite lookup_insert_ne; [done|]. congruence.
  - intros t' rq' p'. rewrite Hph. destruct (decide (t' = t)) as [->|Hne]; [done|].
    intros H. destruct (ao_waiting0 _ _ _ H) as [a Ha]. destruct (decide (p' = p)) as [->|];
      [rewrite lookup_insert_eq; eauto|rewrite lookup_insert_ne; eauto].
Qed.

(** The deferred clean-up. *)
Lemma leave_alloc key p u q :
  allocs (leave key p u) !! q = if decide (q = p) then finish_alloc <$> allocs u !! p else allocs u !! q.
Proof.
  unfold leave, alter_alloc. destruct (decide (q = p)) as [->|Hne]; destruct (bool_decide _); simpl;
    by rewrite ?lookup_alter_eq, ?lookup_alter_ne.
Qed.

Lemma leave_pending key p u k q :
  pending (leave key p u) !! k = Some q <-> pending u !! k = Some q /\ ~ (k = key /\ q = p).
Proof.
  unfold leave. destruct (bool_decide_reflect (pending u !! key = Some p)) as [H|H]; simpl.
  - rewrite lookup_delete_Some. naive_solver.
  - naive_solver.
Qed.

Lemma allocs_ok_leave s t rq p resp :
  allocs_ok s -> phase_of t s = Some (rq, Leaving p resp) ->
  is_done p (relay s) = false /\
  allocs_ok (set_call t (SessionFor rq (Done resp))
    (panic_if (is_done p (relay s)) (set_relay (leave (rq_key rq) p (relay s)) s))).
Proof.
  intros [] Ht. destruct (ao_owner0 _ _ _ _ Ht eq_refl) as (a & Ha & Hda).
  assert (Hd : is_done p (relay s) = false) by (unfold is_done; by rewrite Ha).
  split; [done|]. rewrite Hd.
  assert (Hph : forall t', phase_of t' (set_call t (SessionFor rq (Done resp))
      (panic_if false (set_relay (leave (rq_key rq) p (relay s)) s))) =
    if decide (t' = t) then Some (rq, Done resp) else phase_of t' s) by (intros; by rewrite phase_of_set).
  assert (Hne : forall t' rq' ph' q, t' <> t -> phase_of t' s = Some (rq', ph') -> owns ph' = Some q -> q <> p).
  { intros t' rq' ph' q Hn H1 H2 ->. apply Hn. eauto. }
  constructor; cbn [relay set_call panic_if set_relay].
  - intros key q [H Hk]%leave_pending. destruct (ao_pending0 _ _ H) as (t' & rq' & ph' & H1 & H2 & H3).
    exists t', rq', ph'. rewrite Hph, decide_False; [done|]. intros ->.
    rewrite Ht in H1. injection H1 as <- <-. injection H2 as <-. by apply Hk.
  - intros t' rq' ph' q. rewrite Hph. destruct (decide (t' = t)) as [->|Hn]; [by intros [= <- <-]|].
    intros H1 H2. rewrite leave_alloc, decide_False; eauto.
  - intros t1 t2 rq1 rq2 ph1 ph2 q. rewrite !Hph.
    destruct (decide (t1 = t)), (decide (t2 = t)); try congruence.
    + by intros [= <- <-].
    + by intros _ _ [= <- <-].
    + eauto.
  - intros q b. rewrite leave_alloc. destruct (decide (q = p)) as [->|Hn].
    + rewrite Ha. by intros [= <-].
    + intros H1 H2. destruct (ao_undone0 _ _ H1 H2) as (t' & rq' & ph' & H3 & H4).
      exists t', rq', ph'. rewrite Hph, decide_False; [done|]. intros ->.
      rewrite Ht in H3. injection H3 as <- <-. by injection H4 as <-.
  - intros t' rq' ph' q. rewrite Hph, cores_leave. destruct (decide (t' = t)) as [->|Hn]; [by intros [= <- <-]|].
    intros H1 H2 H3 [H4 _]%leave_pending. eauto.
  - intros t' rq' ph' q. rewrite Hph. destruct (decide (t' = t)) as [->|Hn]; [by intros [= <- <-]|].
    intros H1 H2 H3 H4. apply leave_pending. split.
    + eapply ao_current0; eauto. unfold is_cancelled in *. rewrite leave_alloc, decide_False in H4; eauto.
    + intros [_ ->]. by eapply Hne.
  - intros t' rq' q. rewrite Hph. destruct (decide (t' = t)) as [->|Hn]; [done|].
    intros H. destruct (ao_waiting0 _ _ _ H) as [b Hb]. rewrite leave_alloc.
    destruct (decide (q = p)) as [->|]; [rewrite Hb|]; eauto.
Qed.

(** Operations that cancel what they remove from the pending map. *)
Lemma allocs_ok_cancel s s' :
  allocs_ok s -> (forall t, phase_of t s' = phase_of t s) ->
  (forall k p, pending (relay s') !! k = Some p -> pending (relay s) !! k = Some p) ->
  (forall p, al_done <$> allocs (relay s') !! p = al_done <$> allocs (relay s) !! p) ->
  (forall p k, is_Some (allocs (relay s) !! p) -> is_cancelled p (relay s') = false ->
     is_cancelled p (relay s) = false
     /\ (pending (relay s) !! k = Some p -> pending (relay s') !! k = Some p)) ->
  (forall k, cores (relay s) !! k = None -> cores (relay s') !! k = None) -> allocs_ok s'.
Proof.
  intros [] Hph Hp Hd Hc Hco.
  constructor.
  - intros key p H. destruct (ao_pending0 _ _ (Hp _ _ H)) as (t & rq & ph & ? & ? & ?).
    exists t, rq, ph. by rewrite Hph.
  - intros t rq ph p. rewrite Hph. intros H1 H2. destruct (ao_owner0 _ _ _ _ H1 H2) as (a & Ha & Hda).
    specialize (Hd p). rewrite Ha in Hd. destruct (allocs (relay s') !! p) as [b|]; [|done].
    simpl in Hd. exists b. split; [done|congruence].
  - intros t1 t2 rq1 rq2 ph1 ph2 p. rewrite !Hph. eauto.
  - intros p a Ha Hda. specialize (Hd p). rewrite Ha in Hd.
    destruct (allocs (relay s) !! p) as [b|] eqn:E; [|done]. simpl in Hd.
    destruct (ao_undone0 _ _ E) as (t & rq & ph & ? & ?); [congruence|]. exists t, rq, ph. by rewrite Hph.
  - intros t rq ph p. rewrite Hph. intros H1 H2 H3 H4. apply Hco. eauto.
  - intros t rq ph p. rewrite Hph. intros H1 H2 H3 H4.
    destruct (ao_owner0 _ _ _ _ H1 H2) as (a & Ha & _).
    destruct (Hc p (rq_key rq)) as [H5 H6]; [eauto|done|]. eauto.
  - intros t rq p. rewrite Hph. intros H. destruct (ao_waiting0 _ _ _ H) as [a Ha].
    specialize (Hd p). rewrite Ha in Hd. destruct (allocs (relay s') !! p); [eauto|done].
Qed.

Lemma release_allocs key u :
  let u' := (release key u).2 in
  pending u' = delete key (pending u)
  /\ forall p, allocs u' !! p = (if bool_decide (pending u !! key = Some p) then cancel_alloc <$> allocs u !! p
                                 else allocs u !! p).
Proof.
  unfold release, alter_alloc. destruct (pending u !! key) as [q|] eqn:E; simpl.
  - split; [done|]. intros p. destruct (decide (p = q)) as [->|Hne].
    + by rewrite lookup_alter_eq, bool_decide_true.
    + rewrite lookup_alter_ne, bool_decide_false; [done|congruence|done].
  - by split; [rewrite delete_id|].
Qed.

Lemma stopAll_allocs u p :
  allocs (stopAll u) !! p = (if bool_decide (p ∈ (map_to_list (pending u)).*2) then cancel_alloc <$> allocs u !! p
                             else allocs u !! p).
Proof.
  unfold stopAll, cancel_pending. simpl. rewrite map_lookup_imap.
  by destruct (bool_decide (p ∈ (map_to_list (pending u)).*2)), (allocs u !! p).
Qed.

Lemma pending_listed u k p : pending u !! k = Some p -> p ∈ (map_to_list (pending u)).*2.
Proof.
  intros H. apply list_elem_of_fmap. exists (k, p). split; [done|]. by apply elem_of_map_to_list.
Qed.

Lemma cancel_if_done (b : bool) (o : option udpRelayAllocation) :
  al_done <$> (if b then cancel_alloc <$> o else o) = al_done <$> o.
Proof. by destruct b, o. Qed.

Lemma allocs_ok_release s t key c st u' :
  allocs_ok s -> calls s !! t = None -> release key (relay s) = (st, u') ->
  (match c with SessionFor _ _ => False | _ => True end) ->
  allocs_ok (set_call t c (set_relay u' s)).
Proof.
  intros Hok Ht Hr Hc. destruct (release_allocs key (relay s)) as [Hp Ha]. rewrite Hr in Hp, Ha.
  cbn [snd] in Hp, Ha. destruct (release_spec _ _ _ _ Hr) as [_ Hco].
  apply (allocs_ok_cancel s); cbn [relay set_call set_relay]; try done.
  - intros t'. rewrite phase_of_set. destruct (decide (t' = t)) as [->|]; [|done].
    unfold phase_of. rewrite Ht. by destruct c.
  - intros k p. rewrite Hp. by intros [_ H]%lookup_delete_Some.
  - intros p. rewrite Ha. apply cancel_if_done.
  - intros p k [a E]. unfold is_cancelled. rewrite Ha, E, Hp.
    destruct (bool_decide_reflect (pending (relay s) !! key = Some p)) as [H|H]; simpl; [done|].
    intros Hca. split; [done|]. intros Hk. rewrite lookup_delete_ne; [done|]. congruence.
  - intros k Hk. rewrite Hco. destruct (decide (key = k)) as [->|]; [by rewrite lookup_delete_eq|].
    by rewrite lookup_delete_ne.
Qed.

Lemma allocs_ok_stopAll s s' :
  allocs_ok s -> (forall t, phase_of t s' = phase_of t s) -> relay s' = stopAll (relay s) -> allocs_ok s'.
Proof.
  intros Hok Hph Hu. apply (allocs_ok_cancel s); rewrite ?Hu; try done.
  - intros p. rewrite stopAll_allocs. apply cancel_if_done.
  - intros p k [a E]. unfold is_cancelled. rewrite stopAll_allocs, E.
    destruct (bool_decide_reflect (p ∈ (map_to_list (pending (relay s))).*2)) as [H|H]; simpl; [done|].
    intros Hca. split; [done|]. intros Hk. by apply pending_listed in Hk.
Qed.

Lemma allocs_ok_start addr mp : allocs_ok (start addr mp).
Proof. by constructor. Qed.

Lemma look_allocs s t rq over fresh ph u :
  allocs_ok s -> phase_of t s = Some (rq, Entered) -> allocs (relay s) !! fresh = None ->
  look (rq_key rq) over fresh (relay s) = (ph, u) ->
  allocs_ok (set_call t (SessionFor rq ph) (set_relay u s)).
Proof.
  intros Hok Ht Hf. unfold look.
  assert (Hmove : forall ph', owns ph' = None ->
    (forall p, ph' = Waiting p -> is_Some (allocs (relay s) !! p)) ->
    allocs_ok (set_call t (SessionFor rq ph') (set_relay (relay s) s))).
  { intros ph' Ho Hw. eapply (allocs_ok_move s t (SessionFor rq ph') (relay s)); try done.
    - rewrite Ht. simpl. repeat split; try done. intros H. by destruct ph'.
    - intros rq' p [= -> ->]. eauto.
  }
  destruct (session_map (relay s) !! rq_key rq) as [st|] eqn:Es.
  { intros [= <- <-]. by apply Hmove. }
  destruct (bool_decide (sessions (relay s) = None) || over); [intros [= <- <-]; by apply Hmove|].
  destruct (pending (relay s) !! rq_key rq) as [p|] eqn:Ep; intros [= <- <-].
  - apply Hmove; [done|]. intros p' [= <-].
    destruct (ao_pending _ Hok _ _ Ep) as (t' & rq' & ph' & H1 & H2 & _).
    destruct (ao_owner _ Hok _ _ _ _ H1 H2) as (a & Ha & _). eauto.
  - by apply allocs_ok_allocate.
Qed.

Lemma tokens_set token t c s :
  tokens_at token (set_call t c s)
  = tokens_at token s + Z.b2z (holds_token token c)
    - match calls s !! t with Some c0 => Z.b2z (holds_token token c0) | None => 0 end.
Proof. unfold tokens_at, set_call. cbn [calls relay released dropped]. rewrite countZ_set. lia. Qed.

Lemma stops_set c t x s :
  stops_at c (set_call t x s)
  = stops_at c s + Z.b2z (holds_stop c x)
    - match calls s !! t with Some c0 => Z.b2z (holds_stop c c0) | None => 0 end.
Proof. unfold stops_at, set_call. cbn [calls relay closing stops]. rewrite countZ_set. lia. Qed.

Lemma tokens_relay token u s :
  tokens_at token (set_relay u s)
  = tokens_at token s + countZ (core_token token) (cores u) - countZ (core_token token) (cores (relay s)).
Proof. unfold tokens_at, set_relay. cbn [calls relay released dropped]. lia. Qed.

Lemma stops_relay c u s :
  stops_at c (set_relay u s)
  = stops_at c s + countZ (core_stop c) (cores u) - countZ (core_stop c) (cores (relay s)).
Proof. unfold stops_at, set_relay. cbn [calls relay closing stops]. lia. Qed.

Lemma tokens_give token tk s :
  tokens_at token (give_back tk s) = tokens_at token s + Z.b2z (tk =? token)%string.
Proof.
  unfold tokens_at, give_back. cbn [calls relay released dropped]. rewrite occ_cons.
  destruct (String.eqb_spec tk token); [rewrite bool_decide_true by done|rewrite bool_decide_false by done]; simpl; lia.
Qed.

Lemma tokens_drop token cs s :
  tokens_at token (drop_cores cs s) = tokens_at token s + occ token (co_token <$> cs).
Proof. unfold tokens_at, drop_cores. cbn [calls relay released dropped]. rewrite occ_app. lia. Qed.

Lemma stops_closing c l s : stops_at c (set_closing l s) = stops_at c s + occ c l - occ c (closing s).
Proof. unfold stops_at, set_closing. cbn [calls relay closing stops]. lia. Qed.

(** Closing a channel that is not closed. *)
Lemma stops_close c k s :
  k ∉ stops s -> stops_at c (close_stop k s) = stops_at c s + Z.b2z (bool_decide (k = c))
  /\ panicked (close_stop k s) = panicked s.
Proof.
  intros Hk. unfold stops_at, close_stop, panic_if. cbn [calls relay closing stops panicked].
  rewrite (bool_decide_false (k ∈ stops s)) by done. rewrite orb_false_r. split; [|done].
  destruct (decide (k = c)) as [->|Hne].
  - rewrite (bool_decide_true (c = c)), (bool_decide_false (c ∈ stops s)), bool_decide_true by set_solver.
    simpl. lia.
  - rewrite (bool_decide_false (k = c)) by done.
    rewrite (bool_decide_ext (c ∈ {[k]} ∪ stops s) (c ∈ stops s)) by set_solver. simpl. lia.
Qed.

Lemma close_stop_tokens token k s : tokens_at token (close_stop k s) = tokens_at token s.
Proof. done. Qed.

Lemma close_stops_tokens token ks s : tokens_at token (close_stops ks s) = tokens_at token s.
Proof. induction ks as [|k ks IH]; [done|]. simpl. by rewrite close_stop_tokens. Qed.

(** What [close_stop] leaves alone. *)
Lemma close_stops_frame ks s :
  relay (close_stops ks s) = relay s /\ calls (close_stops ks s) = calls s
  /\ handed (close_stops ks s) = handed s /\ routed (close_stops ks s) = routed s
  /\ made (close_stops ks s) = made s /\ loops (close_stops ks s) = loops s
  /\ closing (close_stops ks s) = closing s
  /\ (forall c, c ∈ stops (close_stops ks s) <-> c ∈ ks \/ c ∈ stops s).
Proof.
  induction ks as [|k ks IH]; [simpl; repeat split; try done; set_solver|].
  destruct IH as (? & ? & ? & ? & ? & ? & ? & Hs). simpl. repeat split; try done.
  - unfold close_stop, panic_if. simpl. rewrite elem_of_union, Hs. set_solver.
  - unfold close_stop, panic_if. simpl. rewrite elem_of_union, Hs. set_solver.
Qed.

Lemma close_stops_count ks s :
  (forall c, occ c ks + Z.b2z (bool_decide (c ∈ stops s)) <= 1) ->
  (forall c, stops_at c (close_stops ks s) = stops_at c s + occ c ks)
  /\ panicked (close_stops ks s) = panicked s.
Proof.
  induction ks as [|k ks IH]; intros H.
  - split; [|done]. intros c. rewrite occ_nil. simpl. lia.
  - destruct IH as [IH Hp].
    { intros c. specialize (H c). rewrite occ_cons in H. destruct (bool_decide (k = c)); simpl in H; lia. }
    assert (Hk : k ∉ stops (close_stops ks s)).
    { destruct (close_stops_frame ks s) as (_ & _ & _ & _ & _ & _ & _ & Hs). rewrite Hs.
      specialize (H k). rewrite occ_cons, bool_decide_true in H by done. simpl in H.
      intros [Hin|Hin]; [apply occ_pos in Hin|].
      - destruct (bool_decide (k ∈ stops s)); simpl in H; lia.
      - rewrite (bool_decide_true _ Hin) in H. simpl in H. pose proof (occ_nonneg k ks). lia. }
    split; [|change (panicked (close_stop k (close_stops ks s)) = panicked s)];
      [intros c; change (stops_at c (close_stop k (close_stops ks s)) = stops_at c s + occ c (k :: ks))|];
      destruct (stops_close k k _ Hk) as [_ Hpk].
    + destruct (stops_close c k _ Hk) as [-> _]. rewrite IH, occ_cons. lia.
    + by rewrite Hpk.
Qed.

(** A session that a call, the map or a keepalive goroutine knows. *)
Definition known (s : sys) (c : core) : Prop :=
  (exists key, cores (relay s) !! key = Some c)
  \/ (exists t rq p, phase_of t s = Some (rq, Published p c))
  \/ loops s !! co_stop c = Some (co_token c, co_serverAddr c).

Record inv (s : sys) : Prop := mkInv {
  iv_allocs : allocs_ok s;
  iv_handed : NoDup (handed s);
  iv_tokens : forall token, token <> ""%string -> tokens_at token s = occ token (handed s);
  iv_nonempty : forall key c, cores (relay s) !! key = Some c -> co_token c <> ""%string;
  iv_stops : forall c, stops_at c s = Z.b2z (bool_decide (c ∈ made s));
  iv_panic : panicked s = false;
  iv_routed : forall key c, cores (relay s) !! key = Some c ->
    exists b, routed s !! key = Some (b, co_serverAddr c);
  iv_known : forall c, known s c -> co_stop c ∈ made s;
  iv_same : forall c c', known s c -> known s c' -> co_stop c = co_stop c' -> c = c';
  iv_loops : forall c, c ∈ made s -> is_Some (loops s !! c) \/ c ∈ stops s
    \/ exists t rq p co, phase_of t s = Some (rq, Published p co) /\ co_stop co = c;
}.

(** Steps that may forget sessions but keep the goroutines. *)
Lemma inv_shrink s s' :
  inv s -> allocs_ok s' ->
  handed s' = handed s -> (forall token, token <> ""%string -> tokens_at token s' = tokens_at token s) ->
  cores (relay s') ⊆ cores (relay s) -> (forall c, stops_at c s' = stops_at c s) ->
  panicked s' = panicked s -> routed s' = routed s -> made s' = made s -> loops s' = loops s ->
  (forall c, c ∈ stops s -> c ∈ stops s') ->
  (forall t rq p co, phase_of t s' = Some (rq, Published p co) <-> phase_of t s = Some (rq, Published p co)) ->
  inv s'.
Proof.
  intros [] Hal Hh Ht Hc Hs Hp Hr Hm Hl Hst Hpub. rewrite map_subseteq_spec in Hc.
  assert (Hkn : forall c, known s' c -> known s c).
  { intros c. unfold known. rewrite Hl. intros [[key H]|[(t & rq & p & H)|?]].
    - left. eauto.
    - right. left. exists t, rq, p. by apply Hpub.
    - by right; right. }
  constructor; rewrite ?Hh, ?Hp, ?Hr, ?Hm, ?Hl; try done; eauto.
  - intros token Htk. rewrite Ht by done. auto.
  - intros c. by rewrite Hs.
  - intros c H. destruct (iv_loops0 c H) as [|[|(t & rq & p & co & H1 & H2)]]; auto.
    right. right. exists t, rq, p, co. by rewrite Hpub.
Qed.

(** Steps that keep the sessions, the channels and the goroutines. *)
Lemma inv_frame s s' :
  inv s -> allocs_ok s' ->
  handed s' = handed s -> (forall token, token <> ""%string -> tokens_at token s' = tokens_at token s) ->
  cores (relay s') = cores (relay s) -> (forall c, stops_at c s' = stops_at c s) ->
  panicked s' = panicked s -> routed s' = routed s -> made s' = made s -> loops s' = loops s ->
  stops s' = stops s ->
  (forall t rq p co, phase_of t s' = Some (rq, Published p co) <-> phase_of t s = Some (rq, Published p co)) ->
  inv s'.
Proof.
  intros Hinv Hal Hh Ht Hc Hs Hp Hr Hm Hl Hst Hpub. apply (inv_shrink s); try done.
  - by rewrite Hc.
  - by rewrite Hst.
Qed.

(** ... of which most move one call of [sessionFor] on. *)
Lemma inv_move s t rq ph ph0 u s' :
  inv s -> allocs_ok s' -> (calls s !! t = None \/ phase_of t s = Some (rq, ph0)) ->
  (forall p c, ph <> Published p c) -> (phase_of t s = Some (rq, ph0) -> forall p c, ph0 <> Published p c) ->
  cores u = cores (relay s) ->
  s' = set_call t (SessionFor rq ph) (set_relay u s) ->
  (forall token, token <> ""%string -> Z.b2z (holds_token token (SessionFor rq ph)) =
     match calls s !! t with Some c0 => Z.b2z (holds_token token c0) | None => 0 end) -> inv s'.
Proof.
  intros Hinv Hal Ht Hp1 Hp2 Hc -> Htok.
  apply (inv_frame s); try done.
  - intros token Hne. rewrite tokens_set, tokens_relay, Hc. cbn [calls set_relay]. rewrite Htok by done. lia.
  - intros c. rewrite stops_set, stops_relay, Hc. cbn [calls set_relay holds_stop].
    destruct Ht as [->|Ht%phase_lookup]; [|rewrite Ht]; simpl; lia.
  - intros t' rq' p co. rewrite phase_of_set. destruct (decide (t' = t)) as [->|]; [|done].
    split; [intros [= _ ->]; by destruct (Hp1 p co)|].
    destruct Ht as [Ht|Ht]; [unfold phase_of; by rewrite Ht|]. rewrite Ht. intros [= _ ->].
    by destruct (Hp2 Ht p co).
Qed.

Ltac known_phase H :=
  match type of H with phase_of ?t ?s = Some (?rq, ?ph) =>
    pose proof (proj1 (phase_lookup t s rq ph) H) as Hcall end.

Lemma inv_enter s t rq s' : inv s -> step (LEnter t rq) s = Some s' -> inv s'.
Proof.
  intros Hinv. cbn [step step_session]. destruct (calls s !! t) as [|] eqn:Ht; [done|]. intros [= <-].
  destruct (recordClientStats_allocs (rq_key rq) (rq_stats rq) (relay s)) as [Hp Ha].
  assert (Hph : phase_of t s = None) by (unfold phase_of; by rewrite Ht).
  eapply (inv_move s t rq Entered Entered (recordClientStats (rq_key rq) (rq_stats rq) (relay s))); try done; [| |apply cores_recordClientStats|by rewrite Ht].
  - eapply (allocs_ok_move s t (SessionFor rq Entered)); try done; [apply Hinv| |].
    + by rewrite Hph.
    + apply cores_recordClientStats.
  - by left.
Qed.

Lemma inv_look s t over fresh s' : inv s -> step (LLook t over fresh) s = Some s' -> inv s'.
Proof.
  intros Hinv. cbn [step step_session]. destruct (phase_of t s) as [[rq []]|] eqn:Ht; try done.
  case_bool_decide as Hf; [|done]. destruct (look _ _ _ _) as [ph u] eqn:Hl. intros [= <-].
  known_phase Ht.
  assert (Hpub : forall p c, ph <> Published p c).
  { intros p c. unfold look in Hl. repeat case_match; by injection Hl as <- _. }
  eapply (inv_move s t rq ph Entered u); try done.
  - eapply look_allocs; try done. apply Hinv.
  - by right.
  - by eapply look_cores.
  - intros token _. rewrite Hcall. unfold look in Hl. repeat case_match; by injection Hl as <- _.
Qed.

(** A call that only reads: it does not own an allocation. *)
Lemma inv_answer s t rq ph resp :
  inv s -> phase_of t s = Some (rq, ph) -> owns ph = None -> (forall tk, holds_token tk (SessionFor rq ph) = false) ->
  inv (set_call t (SessionFor rq (Done resp)) s).
Proof.
  intros Hinv Ht Ho Hh. known_phase Ht.
  replace (set_call t (SessionFor rq (Done resp)) s)
    with (set_call t (SessionFor rq (Done resp)) (set_relay (relay s) s)) by by destruct s.
  eapply (inv_move s t rq (Done resp) ph (relay s)); try done.
  - eapply (allocs_ok_move s t (SessionFor rq (Done resp)) (relay s)); try done; [apply Hinv|].
    rewrite Ht. simpl. by rewrite Ho.
  - by right.
  - intros _ p c ->. done.
  - intros token _. rewrite Hcall, Hh. done.
Qed.

Lemma inv_stats s t s' : inv s -> step (LStats t) s = Some s' -> inv s'.
Proof.
  intros Hinv. cbn [step step_session]. destruct (phase_of t s) as [[rq []]|] eqn:Ht; try done.
  intros [= <-]. by eapply inv_answer.
Qed.

Lemma inv_wake s t s' : inv s -> step (LWake t) s = Some s' -> inv s'.
Proof.
  intros Hinv. cbn [step step_session]. destruct (phase_of t s) as [[rq []]|] eqn:Ht; try done.
  destruct (allocs (relay s) !! p) as [a|]; [|done]. destruct (al_done a); [|done].
  intros [= <-]. by eapply inv_answer.
Qed.

Lemma inv_giveup s t s' : inv s -> step (LGiveUp t) s = Some s' -> inv s'.
Proof.
  intros Hinv. cbn [step step_session]. destruct (phase_of t s) as [[rq []]|] eqn:Ht; try done.
  intros [= <-]. by eapply inv_answer.
Qed.

Lemma holds_nonempty token tk : token <> ""%string -> (tk =? "")%string = true -> (tk =? token)%string = false.
Proof. intros Hne ->%String.eqb_eq. apply String.eqb_neq. congruence. Qed.

Lemma inv_allocated s t token addr ok s' :
  inv s -> step (LAllocated t token addr ok) s = Some s' -> inv s'.
Proof.
  intros Hinv. cbn [step step_session]. destruct (phase_of t s) as [[rq []]|] eqn:Ht; try done.
  case_bool_decide as Hf; [|done]. intros [= <-]. known_phase Ht.
  set (s1 := set_call t (SessionFor rq (Allocated p token addr ok)) s).
  assert (Hal : allocs_ok s1).
  { eapply (allocs_ok_move s t (SessionFor rq (Allocated p token addr ok)) (relay s)); try done;
      [apply Hinv|by rewrite Ht]. }
  change (set_call t (SessionFor rq (Allocated p token addr ok)) (hand token s)) with (hand token s1).
  assert (Htok : forall tk, tk <> ""%string ->
    tokens_at tk s1 = tokens_at tk s + Z.b2z (token =? tk)%string).
  { intros tk _. unfold s1. rewrite tokens_set, Hcall. simpl. lia. }
  assert (Hst : forall c, stops_at c s1 = stops_at c s).
  { intros c. unfold s1. rewrite stops_set, Hcall. simpl. lia. }
  assert (Hpub : forall t' rq' q co, phase_of t' s1 = Some (rq', Published q co)
      <-> phase_of t' s = Some (rq', Published q co)).
  { intros t' rq' q co. unfold s1. rewrite phase_of_set. destruct (decide (t' = t)) as [->|]; [|done].
    rewrite Ht. split; congruence. }
  destruct Hinv as [Ha Hh Htk Hne Hs Hp Hr Hk Hsm Hlp].
  assert (Hkn : forall c, known (hand token s1) c -> known s c).
  { intros c [?|[(t' & rq' & q & H)|?]]; [by left| |by right; right].
    right. left. exists t', rq', q. by apply Hpub. }
  constructor; try done.
  - by destruct Hal; constructor.
  - unfold hand. simpl. destruct (String.eqb_spec token "") as [->|Hnt]; [done|].
    constructor; [|done]. by destruct Hf.
  - intros tk Htk'. change (tokens_at tk (hand token s1)) with (tokens_at tk s1).
    rewrite Htok, Htk by done. unfold hand. simpl.
    destruct (String.eqb_spec token "") as [->|Hnt].
    + destruct (String.eqb_spec "" tk); [congruence|]. simpl. lia.
    + rewrite occ_cons. destruct (String.eqb_spec token tk);
        [rewrite bool_decide_true by done|rewrite bool_decide_false by done]; lia.
  - intros c. change (stops_at c (hand token s1)) with (stops_at c s1). by rewrite Hst.
  - auto.
  - auto.
  - intros c H. destruct (Hlp c H) as [|[|(t' & rq' & q & co & H1 & H2)]]; auto.
    right. right. exists t', rq', q, co. split; [by apply Hpub|done].
Qed.

Lemma inv_refused s t rq p token addr ok ph :
  inv s -> phase_of t s = Some (rq, Allocated p token addr ok) ->
  owns ph = Some p -> unpublished ph = false -> (forall q c, ph <> Published q c) ->
  (forall tk, tk <> ""%string -> holds_token tk (SessionFor rq ph) = (token =? tk)%string) ->
  inv (set_call t (SessionFor rq ph) s).
Proof.
  intros Hinv Ht Ho Hu Hp Hh. known_phase Ht.
  replace (set_call t (SessionFor rq ph) s)
    with (set_call t (SessionFor rq ph) (set_relay (relay s) s)) by by destruct s.
  eapply (inv_move s t rq ph (Allocated p token addr ok) (relay s)); try done.
  - eapply (allocs_ok_move s t (SessionFor rq ph) (relay s)); try done; [apply Hinv| |].
    + rewrite Ht. simpl. rewrite Ho, Hu. done.
    + intros rq' q [= -> ->]. done.
  - by right.
  - intros tk Hne. rewrite Hcall, Hh by done. done.
Qed.

Lemma inv_leave s t s' : inv s -> step (LLeave t) s = Some s' -> inv s'.
Proof.
  intros Hinv. cbn [step step_session]. destruct (phase_of t s) as [[rq []]|] eqn:Ht; try done.
  intros [= <-]. known_phase Ht.
  destruct (allocs_ok_leave s t rq p resp (iv_allocs _ Hinv) Ht) as [Hd Hal]. rewrite Hd in *.
  apply (inv_frame s); try done.
  - intros token _. rewrite tokens_set. cbn [calls panic_if set_relay]. rewrite Hcall.
    unfold tokens_at. cbn [calls relay released dropped panic_if set_relay]. rewrite cores_leave. simpl. lia.
  - cbn [relay set_call panic_if set_relay]. apply cores_leave.
  - intros c. rewrite stops_set. cbn [calls panic_if set_relay]. rewrite Hcall.
    unfold stops_at. cbn [calls relay closing stops panic_if set_relay]. rewrite cores_leave. simpl. lia.
  - cbn [panicked set_call panic_if set_relay]. by rewrite orb_false_r.
  - intros t' rq' q co. rewrite phase_of_set. destruct (decide (t' = t)) as [->|]; [|done].
    rewrite Ht. split; congruence.
Qed.

Lemma inv_refuse s t s' : inv s -> step (LRefuse t) s = Some s' -> inv s'.
Proof.
  intros Hinv. cbn [step step_session]. destruct (phase_of t s) as [[rq []]|] eqn:Ht; try done.
  intros [= <-]. known_phase Ht.
  apply (inv_frame s); try done.
  - eapply (allocs_ok_move s t (SessionFor rq (Leaving p no_response)) (relay s)); try done;
      [apply Hinv|by rewrite Ht].
  - intros tk Hne. rewrite tokens_set, tokens_give. cbn [calls give_back]. rewrite Hcall. simpl. lia.
  - intros c. rewrite stops_set. cbn [calls give_back]. rewrite Hcall.
    change (stops_at c (give_back token s)) with (stops_at c s). simpl. lia.
  - intros t' rq' q co. rewrite phase_of_set. destruct (decide (t' = t)) as [->|]; [|done].
    rewrite Ht. split; congruence.
Qed.

Lemma publishable_spec key p token addr ok expired u :
  publishable key p token addr ok expired u = true ->
  token <> ""%string /\ is_cancelled p u = false /\ sessions u <> None /\ pending u !! key = Some p.
Proof.
  unfold publishable. intros H. bool_to_prop.
  repeat match goal with H : (_ || _) = false |- _ => apply orb_false_iff in H as [? ?] end. done.
Qed.

Lemma respond_allocs p r u q :
  al_done <$> allocs (alter_alloc p (respond r) u) !! q = al_done <$> allocs u !! q
  /\ al_cancelled <$> allocs (alter_alloc p (respond r) u) !! q = al_cancelled <$> allocs u !! q.
Proof.
  unfold alter_alloc. simpl. destruct (decide (q = p)) as [->|Hne].
  - rewrite lookup_alter_eq. by destruct (allocs u !! p).
  - by rewrite lookup_alter_ne.
Qed.

(** The state after a publication. *)
Definition published (t : nat) (rq : request) (p : nat) (st : udpRelaySessionState) (s : sys) : sys :=
  let u := relay s in
  set_call t (SessionFor rq (Published p (core_of st)))
    (route (rq_key rq) (rq_multipath rq && multipath u, se_serverAddr st) (make_stop (se_stop st)
      (set_relay (alter_alloc p (respond (mkResp (relayAddr u) (se_token st) "" "" None))
         (set_sessions (insert (rq_key rq) st <$> sessions u) u)) s))).

Lemma published_phase t rq p st s t' :
  phase_of t' (published t rq p st s) =
  if decide (t' = t) then Some (rq, Published p (core_of st)) else phase_of t' s.
Proof. unfold published. by rewrite phase_of_set. Qed.

Lemma published_cores t rq p st s :
  sessions (relay s) <> None ->
  cores (relay (published t rq p st s)) = <[rq_key rq := core_of st]> (cores (relay s)).
Proof. intros H. unfold published. cbn [relay set_call route make_stop set_relay]. by apply cores_insert. Qed.

Lemma allocs_ok_published s t rq p token addr ok st :
  allocs_ok s -> phase_of t s = Some (rq, Allocated p token addr ok) ->
  sessions (relay s) <> None -> pending (relay s) !! rq_key rq = Some p ->
  allocs_ok (published t rq p st s).
Proof.
  intros Hok Ht Hs Hp. apply (allocs_ok_same s _ t); try done.
  - intros t' Hne. by rewrite published_phase, decide_False.
  - by rewrite published_phase, decide_True, Ht.
  - intros rq' q. by rewrite published_phase, decide_True.
  - intros q. apply (respond_allocs p _ (set_sessions _ (relay s)) q).
  - intros q. apply (respond_allocs p _ (set_sessions _ (relay s)) q).
  - intros k Hk. rewrite published_cores by done. destruct (decide (k = rq_key rq)) as [->|Hne].
    + right. exists p, rq, (Published p (core_of st)). by rewrite published_phase, decide_True.
    + left. by rewrite lookup_insert_ne.
Qed.

Lemma known_published t rq p st s c :
  phase_of t s <> None -> sessions (relay s) <> None ->
  known (published t rq p st s) c -> c = core_of st \/ known s c.
Proof.
  intros Ht Hs [[key H]|[(t' & rq' & q & H)|H]].
  - rewrite published_cores in H by done. apply lookup_insert_Some in H as [[_ <-]|[_ H]]; [by left|].
    right. left. eauto.
  - rewrite published_phase in H. destruct (decide (t' = t)).
    + injection H as _ _ <-. by left.
    + right. right. left. eauto.
  - right. right. by right.
Qed.

Lemma inv_published s t rq p token addr ok now stop :
  inv s -> phase_of t s = Some (rq, Allocated p token addr ok) -> token <> ""%string ->
  sessions (relay s) <> None -> pending (relay s) !! rq_key rq = Some p ->
  is_cancelled p (relay s) = false -> stop ∉ made s ->
  inv (published t rq p (new_session rq token addr now stop) s).
Proof.
  intros Hinv Ht Htk Hs Hp Hca Hst. known_phase Ht. set (st := new_session rq token addr now stop).
  pose proof (published_cores t rq p st s Hs) as Hco.
  pose proof (ao_free _ (iv_allocs _ Hinv) _ _ _ _ Ht eq_refl eq_refl Hp) as Hfree.
  pose proof (allocs_ok_published s t rq p token addr ok st (iv_allocs _ Hinv) Ht Hs Hp) as Hal.
  destruct Hinv as [Ha Hh Htok Hne Hss Hpa Hr Hk Hsm Hlp].
  assert (Hkn : forall c, known (published t rq p st s) c -> c = core_of st \/ known s c).
  { intros c. apply known_published; [|done]. by rewrite Ht. }
  constructor; try done; rewrite ?Hco.
  - intros tk Hn. change (handed (published t rq p st s)) with (handed s).
    rewrite <-(Htok tk Hn). unfold published. rewrite tokens_set.
    cbn [calls route make_stop set_relay]. rewrite Hcall. unfold tokens_at.
    cbn [calls relay released dropped route make_stop set_relay]. rewrite cores_insert by done.
    rewrite countZ_fresh by done. unfold core_token. simpl. lia.
  - intros key c [[_ <-]|[_ H]]%lookup_insert_Some; eauto.
  - intros c. unfold published. rewrite stops_set. cbn [calls route make_stop set_relay]. rewrite Hcall.
    specialize (Hss c). unfold stops_at in *.
    cbn [calls relay closing stops made route make_stop set_call set_relay holds_stop].
    rewrite cores_insert, countZ_fresh by done.
    change (core_stop c (core_of st)) with (bool_decide (stop = c)).
    destruct (decide (stop = c)) as [->|Hn].
    + rewrite (bool_decide_false (c ∈ made s)) in Hss by done.
      rewrite (bool_decide_true (c = c)), (bool_decide_true (c ∈ {[c]} ∪ made s)) by set_solver. simpl in *. lia.
    + rewrite (bool_decide_false (stop = c)) by done.
      rewrite (bool_decide_ext (c ∈ {[stop]} ∪ made s) (c ∈ made s)) by set_solver. simpl. lia.
  - intros key c. unfold published. cbn [routed route set_call].
    intros [[<- <-]|[Hn H]]%lookup_insert_Some; [rewrite lookup_insert_eq; by eexists|].
    rewrite lookup_insert_ne by done. eauto.
  - intros c H. change (co_stop c ∈ {[stop]} ∪ made s).
    destruct (Hkn c H) as [->|H']; [simpl; set_solver|]. apply Hk in H'. set_solver.
  - intros c c' H H' Heq. destruct (Hkn c H) as [->|H1], (Hkn c' H') as [->|H2]; auto.
    + apply Hk in H2. rewrite <-Heq in H2. done.
    + apply Hk in H1. rewrite Heq in H1. done.
  - intros c. change (c ∈ {[stop]} ∪ made s -> is_Some (loops s !! c) \/ c ∈ stops s
      \/ exists t' rq' q co, phase_of t' (published t rq p st s) = Some (rq', Published q co) /\ co_stop co = c).
    intros [->%elem_of_singleton|H]%elem_of_union.
    + right. right. exists t, rq, p, (core_of st). by rewrite published_phase, decide_True.
    + destruct (Hlp c H) as [|[|(t' & rq' & q & co & H1 & H2)]]; auto.
      right. right. exists t', rq', q, co. rewrite published_phase, decide_False; [done|]. intros ->. congruence.
Qed.

Lemma inv_publish s t expired routes now stop s' :
  inv s -> step (LPublish t expired routes now stop) s = Some s' -> inv s'.
Proof.
  intros Hinv. cbn [step step_session]. destruct (phase_of t s) as [[rq []]|] eqn:Ht; try done.
  assert (Hrefuse : inv (set_call t (SessionFor rq (Refused p token)) s)).
  { eapply inv_refused; try done. }
  destruct (publishable _ _ _ _ _ _ _) eqn:Hpub.
  - destruct routes; [|by intros [= <-]]. case_bool_decide as Hst; [done|]. intros [= <-].
    apply publishable_spec in Hpub as (Htk & Hca & Hs & Hp). by eapply inv_published.
  - intros [= <-]. destruct (token =? "")%string eqn:E; [|done].
    eapply inv_refused; try done. intros tk Hne. simpl. by rewrite (holds_nonempty tk token).
Qed.

Lemma inv_bind s t s' : inv s -> step (LBind t) s = Some s' -> inv s'.
Proof.
  intros Hinv. cbn [step step_session]. destruct (phase_of t s) as [[rq []]|] eqn:Ht; try done.
  intros [= <-]. known_phase Ht.
  match goal with |- inv ?x => set (s' := x) end.
  assert (Hph : forall t', phase_of t' s' = if decide (t' = t)
    then Some (rq, Leaving p (mkResp (relayAddr (relay s)) (co_token c) "" "" None)) else phase_of t' s).
  { intros t'. unfold s'. by rewrite phase_of_set. }
  assert (Hkc : known s c) by (right; left; eauto).
  assert (Hal : allocs_ok s').
  { eapply (allocs_ok_move s t (SessionFor rq (Leaving p (mkResp (relayAddr (relay s)) (co_token c) "" "" None)))
      (relay s)); try done; [apply Hinv|by rewrite Ht]. }
  destruct Hinv as [Ha Hh Htok Hne Hss Hpa Hr Hk Hsm Hlp].
  assert (Hkn : forall c', known s' c' -> known s c').
  { intros c' [?|[(t' & rq' & q & H)|H]]; [by left| |].
    - rewrite Hph in H. destruct (decide (t' = t)); [done|]. right. left. eauto.
    - unfold s' in H. cbn [loops set_call set_loops send_bind] in H.
      apply lookup_insert_Some in H as [[Hc [= H1 H2]]|[_ H]]; [|by right; right].
      assert (c' = c) as -> by (destruct c, c'; simpl in *; congruence). done. }
  constructor; try done.
  - intros tk Hn. unfold s'. rewrite tokens_set. cbn [calls set_loops send_bind]. rewrite Hcall.
    change (tokens_at tk (set_loops _ _)) with (tokens_at tk s). rewrite Htok by done. simpl. lia.
  - intros k. unfold s'. rewrite stops_set. cbn [calls set_loops send_bind]. rewrite Hcall.
    change (stops_at k (set_loops _ _)) with (stops_at k s). rewrite Hss. simpl. lia.
  - auto.
  - auto.
  - intros k H. unfold s' at 1. cbn [loops set_call set_loops send_bind].
    destruct (decide (co_stop c = k)) as [<-|Hn]; [rewrite lookup_insert_eq; eauto|].
    rewrite lookup_insert_ne by done.
    destruct (Hlp k H) as [|[|(t' & rq' & q & co & H1 & H2)]]; auto.
    right. right. exists t', rq', q, co. rewrite Hph, decide_False; [done|]. intros ->. congruence.
Qed.

Lemma stops_at_most s c : inv s -> stops_at c s <= 1.
Proof. intros Hinv. rewrite (iv_stops _ Hinv). by destruct (bool_decide _). Qed.

Lemma stops_at_parts s c :
  0 <= countZ (holds_stop c) (calls s) /\ 0 <= countZ (core_stop c) (cores (relay s))
  /\ 0 <= occ c (closing s).
Proof. repeat split; [apply countZ_nonneg|apply countZ_nonneg|apply occ_nonneg]. Qed.

(** Who holds a stop channel finds it open. *)
Lemma stop_open s c :
  inv s -> 0 < countZ (holds_stop c) (calls s) + countZ (core_stop c) (cores (relay s)) + occ c (closing s) ->
  c ∉ stops s.
Proof.
  intros Hinv H Hin. pose proof (stops_at_most s c Hinv) as Hle. unfold stops_at in Hle.
  rewrite bool_decide_true in Hle by done. simpl in Hle. lia.
Qed.

Lemma phase_none s t : calls s !! t = None -> phase_of t s = None.
Proof. unfold phase_of. by intros ->. Qed.

Lemma phase_release t c s t' :
  (forall rq ph, calls s !! t <> Some (SessionFor rq ph)) ->
  (forall rq ph, c <> SessionFor rq ph) -> phase_of t' (set_call t c s) = phase_of t' s.
Proof.
  intros Ht Hc. rewrite phase_of_set. destruct (decide (t' = t)) as [->|]; [|done].
  unfold phase_of. destruct c as [rq ph| | |]; [by destruct (Hc rq ph)|..];
    (destruct (calls s !! t) as [[rq ph| | |]|]; try done; by destruct (Ht rq ph)).
Qed.

Lemma inv_release s t key s' : inv s -> step (LRelease t key) s = Some s' -> inv s'.
Proof.
  intros Hinv. cbn [step step_release]. destruct (calls s !! t) as [|] eqn:Ht; [done|].
  destruct (release key (relay s)) as [st u] eqn:Hr. intros [= <-].
  destruct (release_spec _ _ _ _ Hr) as [Hst Hco].
  set (c := match st with Some st => RlClosing (core_of st) | None => Ended end).
  assert (Hcount : forall f, countZ f (cores u)
    = countZ f (cores (relay s)) - match st with Some st => Z.b2z (f (core_of st)) | None => 0 end).
  { intros f. rewrite Hco. destruct st as [st|]; simpl in Hst.
    - by rewrite (countZ_delete f _ _ (core_of st)).
    - rewrite delete_id by done. lia. }
  apply (inv_shrink s); try done.
  - eapply allocs_ok_release; try done; [apply Hinv|]. by destruct st.
  - intros tk _. rewrite tokens_set, tokens_relay, Hcount. cbn [calls set_relay]. rewrite Ht.
    unfold c, core_token. destruct st; simpl; lia.
  - cbn [relay set_call set_relay]. rewrite Hco. apply delete_subseteq.
  - intros k. rewrite stops_set, stops_relay, Hcount. cbn [calls set_relay]. rewrite Ht.
    unfold c. destruct st; simpl; lia.
  - intros t' rq p co. rewrite phase_release; [done| |].
    + intros. cbn [calls set_relay]. by rewrite Ht.
    + intros. unfold c. by destruct st.
Qed.

Lemma inv_rlclose s t s' : inv s -> step (LRlClose t) s = Some s' -> inv s'.
Proof.
  intros Hinv. cbn [step step_release]. destruct (calls s !! t) as [[|c| |]|] eqn:Ht; try done. intros [= <-].
  assert (Hopen : co_stop c ∉ stops s).
  { apply (stop_open s _ Hinv). destruct (stops_at_parts s (co_stop c)) as (_ & ? & ?).
    pose proof (countZ_pos (holds_stop (co_stop c)) (calls s) t _ Ht) as Hpos. unfold holds_stop in Hpos.
    unfold core_stop in Hpos. rewrite bool_decide_true in Hpos by done. specialize (Hpos eq_refl).
    change (0 < countZ (holds_stop (co_stop c)) (calls s)) in Hpos. lia. }
  apply (inv_shrink s); try done.
  - apply (allocs_ok_view s); try done; [apply Hinv|]. intros t'. rewrite phase_release; try done.
    intros rq ph. change (calls s !! t <> Some (SessionFor rq ph)). by rewrite Ht.
  - intros tk _. rewrite tokens_set, close_stop_tokens.
    change (calls (close_stop (co_stop c) s)) with (calls s). rewrite Ht. simpl. lia.
  - intros k. rewrite stops_set. change (calls (close_stop (co_stop c) s)) with (calls s). rewrite Ht.
    destruct (stops_close k (co_stop c) s Hopen) as [-> _]. simpl. unfold core_stop. lia.
  - change (panicked (close_stop (co_stop c) s) = panicked s). by apply (stops_close 0).
  - intros k Hk. change (k ∈ {[co_stop c]} ∪ stops s). set_solver.
  - intros t' rq p co. rewrite phase_release; try done.
    intros rq' ph. change (calls s !! t <> Some (SessionFor rq' ph)). by rewrite Ht.
Qed.

Lemma inv_rlrelease s t s' : inv s -> step (LRlRelease t) s = Some s' -> inv s'.
Proof.
  intros Hinv. cbn [step step_release]. destruct (calls s !! t) as [[|c|tk|]|] eqn:Ht; try done. intros [= <-].
  assert (Hph : forall t', phase_of t' (set_call t Ended (give_back tk s)) = phase_of t' s).
  { intros t'. rewrite phase_release; try done. intros rq ph.
    change (calls s !! t <> Some (SessionFor rq ph)). by rewrite Ht. }
  apply (inv_frame s); try done.
  - apply (allocs_ok_view s); try done. apply Hinv.
  - intros k _. rewrite tokens_set, tokens_give. cbn [calls give_back]. rewrite Ht. simpl. lia.
  - intros k. rewrite stops_set. cbn [calls give_back]. rewrite Ht.
    change (stops_at k (give_back tk s)) with (stops_at k s). simpl. lia.
  - intros t' rq p co. by rewrite Hph.
Qed.

Lemma inv_stopAll s s' : inv s -> step LStopAll s = Some s' -> inv s'.
Proof.
  intros Hinv. cbn [step step_release]. intros [= <-].
  assert (Hsub : cores (stopAll (relay s)) ⊆ cores (relay s))
    by (rewrite cores_stopAll; apply map_empty_subseteq).
  apply (inv_shrink s); try done.
  - apply (allocs_ok_stopAll s); try done. apply Hinv.
  - intros tk _. change (tokens_at tk (set_closing ?l ?x)) with (tokens_at tk x).
    rewrite tokens_drop, tokens_relay, (forgotten_token _ _ tk Hsub). lia.
  - intros c. rewrite stops_closing, occ_app. cbn [closing drop_cores set_relay].
    change (stops_at c (drop_cores ?l ?x)) with (stops_at c x).
    rewrite stops_relay, (forgotten_stop _ _ c Hsub). lia.
Qed.

Lemma inv_report s ord now report s' : inv s -> step (LReport ord now report) s = Some s' -> inv s'.
Proof.
  intros Hinv. cbn [step step_release]. set (u := recordStats ord now report (relay s)).
  set (gone := forgotten (relay s) u). intros [= <-].
  pose proof (cores_recordStats ord now report (relay s)) as Hsub. fold u in Hsub.
  set (s1 := drop_cores gone (set_relay u s)).
  destruct (close_stops_frame (co_stop <$> gone) s1) as (E1 & E2 & E3 & E4 & E5 & E6 & E7 & E8).
  assert (Hcnt : forall c, occ c (co_stop <$> gone) + Z.b2z (bool_decide (c ∈ stops s1)) <= 1).
  { intros c. pose proof (stops_at_most s c Hinv) as Hle. unfold stops_at in Hle.
    rewrite (forgotten_stop _ _ c Hsub) in Hle. destruct (stops_at_parts s c) as (? & _ & ?).
    pose proof (countZ_nonneg (core_stop c) (cores u)). fold gone in Hle. change (stops s1) with (stops s). lia. }
  destruct (close_stops_count _ s1 Hcnt) as [Hst Hpa].
  assert (Hph : forall t, phase_of t (close_stops (co_stop <$> gone) s1) = phase_of t s).
  { intros t. unfold phase_of. by rewrite E2. }
  apply (inv_shrink s); rewrite ?E1, ?E3, ?E4, ?E5, ?E6, ?Hpa; try done.
  - apply (allocs_ok_view s); rewrite ?E1; try done; [apply Hinv|].
    intros k Hk. change (cores u !! k = None). destruct (cores u !! k) as [c|] eqn:E; [|done].
    eapply lookup_weaken in E; [|done]. congruence.
  - intros tk _. rewrite close_stops_tokens. unfold s1.
    rewrite tokens_drop, tokens_relay, (forgotten_token _ _ tk Hsub). fold gone. lia.
  - intros c. rewrite Hst. unfold s1. change (stops_at c (drop_cores ?l ?x)) with (stops_at c x).
    rewrite stops_relay, (forgotten_stop _ _ c Hsub). fold gone. lia.
  - intros c Hc. apply E8. by right.
  - intros t rq p co. by rewrite Hph.
Qed.

Lemma inv_close s i s' : inv s -> step (LClose i) s = Some s' -> inv s'.
Proof.
  intros Hinv. cbn [step step_release]. destruct (closing s !! i) as [c|] eqn:Hi; [|done]. intros [= <-].
  assert (Hocc : forall k, occ k (closing s) = Z.b2z (bool_decide (c = k)) + occ k (delete i (closing s))).
  { intros k. rewrite <-occ_cons. apply occ_perm. by apply delete_Permutation. }
  assert (Hopen : c ∉ stops s).
  { apply (stop_open s c Hinv). destruct (stops_at_parts s c) as (? & ? & _).
    rewrite Hocc, bool_decide_true by done. pose proof (occ_nonneg c (delete i (closing s))). simpl. lia. }
  destruct (stops_close 0 c (set_closing (delete i (closing s)) s) Hopen) as [_ Hp].
  apply (inv_shrink s); try done.
  - apply (allocs_ok_view s); try done. apply Hinv.
  - intros k. destruct (stops_close k c (set_closing (delete i (closing s)) s) Hopen) as [-> _].
    rewrite stops_closing, Hocc. lia.
  - intros k Hk. change (k ∈ {[c]} ∪ stops s). set_solver.
Qed.

Lemma inv_tick s c s' : inv s -> step (LTick c) s = Some s' -> inv s'.
Proof.
  intros Hinv. cbn [step step_release]. destruct (loops s !! c) as [[tk a]|]; [|done]. intros [= <-].
  apply (inv_frame s); try done. apply (allocs_ok_view s); try done. apply Hinv.
Qed.

Lemma inv_quit s c s' : inv s -> step (LQuit c) s = Some s' -> inv s'.
Proof.
  intros Hinv. cbn [step step_release].
  destruct (bool_decide_reflect (c ∈ stops s)) as [Hc|]; [|done]. case_bool_decide; [|done]. intros [= <-].
  assert (Hkn : forall x, known (set_loops (delete c (loops s)) s) x -> known s x).
  { intros x [?|[?|H']]; [by left|by right; left|]. cbn [loops set_loops] in H'.
    apply lookup_delete_Some in H' as [_ H']. by right; right. }
  assert (Hal : allocs_ok (set_loops (delete c (loops s)) s)).
  { apply (allocs_ok_view s); try done. apply Hinv. }
  destruct Hinv. constructor; try done; auto.
  intros k Hk. destruct (decide (k = c)) as [->|Hne]; [right; by left|].
  destruct (iv_loops0 k Hk) as [Hl|[|]]; [left|by right; left|by right; right].
  cbn [loops set_loops]. by rewrite lookup_delete_ne.
Qed.

Lemma inv_step l s s' : inv s -> step l s = Some s' -> inv s'.
Proof.
  intros Hinv. destruct l.
  - by apply inv_enter.
  - by apply inv_look.
  - by apply inv_stats.
  - by apply inv_wake.
  - by apply inv_giveup.
  - by apply inv_allocated.
  - by apply inv_publish.
  - by apply inv_refuse.
  - by apply inv_bind.
  - by apply inv_leave.
  - by apply inv_release.
  - by apply inv_rlclose.
  - by apply inv_rlrelease.
  - by apply inv_stopAll.
  - by apply inv_close.
  - by apply inv_report.
  - by apply inv_tick.
  - by apply inv_quit.
Qed.

Lemma inv_start addr mp : inv (start addr mp).
Proof.
  constructor; try done.
  - constructor.
  - intros c [[key H]|[(t & rq & p & H)|H]]; done.
  - intros c c' [[key H]|[(t & rq & p & H)|H]]; done.
Qed.

Lemma run_cons l ls s : run (l :: ls) s = step l s ≫= run ls.
Proof.
  unfold run. simpl. destruct (step l s) as [s1|]; simpl; [done|]. by induction ls.
Qed.

Lemma inv_run ls s s' : inv s -> run ls s = Some s' -> inv s'.
Proof.
  revert s. induction ls as [|l ls IH]; intros s Hinv; [by intros [= <-]|].
  rewrite run_cons. destruct (step l s) as [s1|] eqn:E; [|done]. simpl. apply IH. by eapply inv_step.
Qed.

Lemma udp_reached addr mp ls s : run ls (start addr mp) = Some s -> inv s.
Proof. apply inv_run, inv_start. Qed.

(** ** What every reachable state satisfies *)

Definition finished (c : call) : bool :=
  match c with SessionFor _ (Done _) | Ended => true | _ => false end.

Definition idle (s : sys) : Prop := forall t c, calls s !! t = Some c -> finished c = true.

(** A live session of the token. *)
Definition live (s : sys) (key token : string) : Prop :=
  exists st, session_map (relay s) !! key = Some st /\ se_token st = token.

Lemma live_core s key token :
  live s key token <-> exists c, cores (relay s) !! key = Some c /\ co_token c = token.
Proof.
  unfold live. rewrite cores_lookup. destruct (session_map (relay s) !! key) as [st|]; simpl; naive_solver.
Qed.

Lemma live_counted s key token : live s key token -> 0 < countZ (core_token token) (cores (relay s)).
Proof.
  intros (c & Hc & Ht)%live_core. eapply countZ_pos; [done|]. unfold core_token. by apply String.eqb_eq.
Qed.

Lemma tokens_at_most s token : inv s -> token <> ""%string -> tokens_at token s <= 1.
Proof.
  intros Hinv Hne. rewrite (iv_tokens _ Hinv) by done. pose proof (iv_handed _ Hinv) as Hnd.
  induction (handed s) as [|x l IH]; [by rewrite occ_nil|]. apply NoDup_cons in Hnd as [Hx Hnd].
  rewrite occ_cons. destruct (decide (x = token)) as [->|Hn].
  - rewrite bool_decide_true by done. destruct (decide (0 < occ token l)) as [H%occ_pos|]; [done|].
    pose proof (occ_nonneg token l). simpl. lia.
  - rewrite bool_decide_false by done. simpl. specialize (IH Hnd). lia.
Qed.

Lemma live_unique s key key' token :
  inv s -> token <> ""%string -> live s key token -> live s key' token -> key = key'.
Proof.
  intros Hinv Hne (c & Hc & Ht)%live_core (c' & Hc' & Ht')%live_core.
  destruct (decide (key = key')) as [|Hk]; [done|]. exfalso.
  pose proof (tokens_at_most s token Hinv Hne) as Hle. unfold tokens_at in Hle.
  pose proof (countZ_delete (core_token token) _ _ _ Hc) as Hd.
  assert (Hpos : 0 < countZ (core_token token) (delete key (cores (relay s)))).
  { eapply (countZ_pos _ _ key' c'); [by rewrite lookup_delete_ne|]. unfold core_token. by apply String.eqb_eq. }
  unfold core_token in Hd at 3. rewrite Ht, String.eqb_refl in Hd. simpl in Hd.
  pose proof (countZ_nonneg (holds_token token) (calls s)). pose proof (occ_nonneg token (released s)).
  pose proof (occ_nonneg token (dropped s)). lia.
Qed.

(** C25: no relay allocation leaks and none is lost twice: whatever the
    interleaving of calls, releases, reports and a shutdown, a token of the
    relay is never both in use and given back, is given back at most once
    and belongs to at most one client; and when no call is in flight, every
    token ever handed out is a live session's, or has been given back, or
    was dropped with a relay that forgot it or is gone. *)
Theorem udp_relay_tokens addr mp ls s
    (Hrun : run ls (start addr mp) = Some s) (token : string) (Hne : token <> ""%string) :
  (forall key, live s key token -> token ∉ released s /\ token ∉ dropped s)
  /\ (forall key key', live s key token -> live s key' token -> key = key')
  /\ occ token (released s) + occ token (dropped s) <= 1
  /\ (idle s -> token ∈ handed s ->
        (exists key, live s key token) \/ token ∈ released s \/ token ∈ dropped s).
Proof.
  pose proof (udp_reached _ _ _ _ Hrun) as Hinv. pose proof (tokens_at_most s token Hinv Hne) as Hle.
  unfold tokens_at in Hle. pose proof (countZ_nonneg (holds_token token) (calls s)).
  pose proof (occ_nonneg token (released s)). pose proof (occ_nonneg token (dropped s)).
  pose proof (countZ_nonneg (core_token token) (cores (relay s))).
  split; [|split; [|split; [lia|]]].
  - intros key Hl%live_counted. rewrite <-!occ_pos. lia.
  - intros key key'. by apply live_unique.
  - intros Hidle Hin. pose proof (iv_tokens _ Hinv token Hne) as Heq. apply occ_pos in Hin.
    unfold tokens_at in Heq. rewrite (countZ_zero (holds_token token) (calls s)) in Heq.
    2: { intros t c Hc. specialize (Hidle t c Hc). by destruct c as [? []| | |]. }
    rewrite <-!occ_pos.
    destruct (decide (0 < occ token (released s))); [by right; left|].
    destruct (decide (0 < occ token (dropped s))); [by right; right|]. left.
    assert (Hpos : 0 < countZ (core_token token) (cores (relay s))) by lia.
    apply countZ_pos_inv in Hpos as (key & c & Hc & Htk). exists key. apply live_core. exists c.
    split; [done|]. by apply String.eqb_eq in Htk.
Qed.

(** A call that may still publish a session for the key. *)
Definition allocating (s : sys) (t : nat) (key : string) : Prop :=
  exists rq ph p, phase_of t s = Some (rq, ph) /\ owns ph = Some p /\ unpublished ph = true
    /\ is_cancelled p (relay s) = false /\ rq_key rq = key.

(** one client never costs two relay ports: at most one call at a time may
    still publish an allocation for a client, and none while the client has
    a live session. *)
Theorem udp_relay_one_per_client addr mp ls s (Hrun : run ls (start addr mp) = Some s) :
  (forall t t' key, allocating s t key -> allocating s t' key -> t = t')
  /\ (forall t key token, live s key token -> ~ allocating s t key).
Proof.
  destruct (iv_allocs _ (udp_reached _ _ _ _ Hrun)). split.
  - intros t t' key (rq & ph & p & H1 & H2 & H3 & H4 & <-) (rq' & ph' & p' & G1 & G2 & G3 & G4 & Hk).
    pose proof (ao_current0 _ _ _ _ H1 H2 H3 H4). pose proof (ao_current0 _ _ _ _ G1 G2 G3 G4).
    assert (p' = p) as -> by congruence. eauto.
  - intros t key token (c & Hc & _)%live_core (rq & ph & p & H1 & H2 & H3 & H4 & <-).
    pose proof (ao_current0 _ _ _ _ H1 H2 H3 H4) as H5. rewrite (ao_free0 _ _ _ _ H1 H2 H3 H5) in Hc. done.
Qed.

(** a late answer of the relay never redirects a peer: the address a
    client's WireGuard peer was last pointed at is that of its live session. *)
Theorem udp_relay_endpoint addr mp ls s (Hrun : run ls (start addr mp) = Some s) key st
    (Hlive : session_map (relay s) !! key = Some st) :
  exists b, routed s !! key = Some (b, se_serverAddr st).
Proof.
  apply (iv_routed _ (udp_reached _ _ _ _ Hrun) key (core_of st)). by rewrite cores_lookup, Hlive.
Qed.

(** stop channels are closed once and keepalives follow the sessions: no
    interleaving closes a channel twice (which would crash the server), and
    at rest each live session has its own running keepalive goroutine, with
    its token and address, that nothing has told to stop, while every other
    goroutine has been told. *)
Theorem udp_relay_keepalives addr mp ls s (Hrun : run ls (start addr mp) = Some s) :
  panicked s = false
  /\ (idle s -> closing s = [] ->
      (forall key st, session_map (relay s) !! key = Some st ->
         loops s !! se_stop st = Some (se_token st, se_serverAddr st) /\ se_stop st ∉ stops s)
      /\ (forall c x, loops s !! c = Some x -> c ∉ stops s ->
            exists key st, session_map (relay s) !! key = Some st /\ se_stop st = c)).
Proof.
  pose proof (udp_reached _ _ _ _ Hrun) as Hinv. split; [apply Hinv|]. intros Hidle Hcl.
  assert (Hnopub : forall t rq p co, phase_of t s <> Some (rq, Published p co)).
  { intros t rq p co Ht%phase_lookup. by apply Hidle in Ht. }
  assert (Hlive : forall key c, cores (relay s) !! key = Some c -> co_stop c ∉ stops s).
  { intros key c Hc. apply (stop_open s _ Hinv). destruct (stops_at_parts s (co_stop c)) as (? & _ & ?).
    pose proof (countZ_pos (core_stop (co_stop c)) _ _ _ Hc) as Hpos. unfold core_stop in Hpos at 1.
    rewrite bool_decide_true in Hpos by done. specialize (Hpos eq_refl). lia. }
  split.
  - intros key st Hst. assert (Hc : cores (relay s) !! key = Some (core_of st)) by (by rewrite cores_lookup, Hst).
    pose proof (Hlive _ _ Hc) as Ho. simpl in Ho. split; [|done].
    assert (Hk : known s (core_of st)) by (left; eauto).
    destruct (iv_loops _ Hinv _ (iv_known _ Hinv _ Hk)) as [[[tk a] Hl]|[|(t & rq & p & co & H & _)]];
      [|done|by apply Hnopub in H].
    assert (Hk' : known s (mkCore tk a (co_stop (core_of st)))) by (right; by right).
    pose proof (iv_same _ Hinv _ _ Hk Hk' eq_refl) as Heq. simpl in Hl. rewrite Hl. by injection Heq as <- <-.
  - intros c [tk a] Hl Hns. assert (Hk : known s (mkCore tk a c)) by (right; by right).
    pose proof (iv_known _ Hinv _ Hk) as Hm. pose proof (iv_stops _ Hinv c) as Heq. simpl in Hm.
    unfold stops_at in Heq. rewrite Hcl, occ_nil, (bool_decide_false (c ∈ stops s)), bool_decide_true in Heq by done.
    rewrite (countZ_zero (holds_stop c) (calls s)) in Heq.
    2: { intros t x Hx. specialize (Hidle t x Hx). by destruct x as [? []| | |]. }
    assert (Hpos : 0 < countZ (core_stop c) (cores (relay s))) by (simpl in Heq; lia).
    apply countZ_pos_inv in Hpos as (key & co & Hco & Hs).
    rewrite cores_lookup in Hco. destruct (session_map (relay s) !! key) as [st|] eqn:E; [|done].
    injection Hco as <-. exists key, st. split; [done|]. by apply bool_decide_eq_true in Hs.
Qed.

(** ** Reports *)

(** The last sample of a report for a token. *)
Definition last_sample (token : string) (report : list RelayUDPStats) : option RelayUDPStats :=
  foldl (fun acc x => if (us_Token x =? token)%string then Some x else acc) None report.

Definition distinct_tokens (m : gmap string udpRelaySessionState) : Prop :=
  forall k k' st st', m !! k = Some st -> m !! k' = Some st' -> se_token st = se_token st' -> k = k'.

Lemma record_sample_lookup ord m x k :
  ranges ord -> distinct_tokens m ->
  record_sample ord m x !! k
  = (fun st => if (se_token st =? us_Token x)%string then with_stats x st else st) <$> m !! k.
Proof.
  intros Hord Hd. unfold record_sample.
  destruct (filter (fun k => has_token m (us_Token x) k = true) (ord m)) as [|k0 l] eqn:E.
  - destruct (m !! k) as [st|] eqn:Hk; [|done]. simpl.
    destruct (se_token st =? us_Token x)%string eqn:Et; [|done].
    assert (Hin : k ∈ filter (fun k => has_token m (us_Token x) k = true) (ord m)).
    { apply list_elem_of_filter. unfold has_token. rewrite Hk. split; [done|].
      apply elem_of_ranges; [done|]. by rewrite Hk. }
    rewrite E in Hin. by apply not_elem_of_nil in Hin.
  - assert (Hin : k0 ∈ filter (fun k => has_token m (us_Token x) k = true) (ord m)) by (rewrite E; by left).
    apply list_elem_of_filter in Hin as [Ht _]. unfold has_token in Ht.
    destruct (m !! k0) as [st0|] eqn:Hk0; [|done].
    destruct (decide (k = k0)) as [->|Hne].
    + rewrite lookup_alter_eq, Hk0. simpl. by rewrite Ht.
    + rewrite lookup_alter_ne by done. destruct (m !! k) as [st|] eqn:Hk; [|done]. simpl.
      destruct (se_token st =? us_Token x)%string eqn:Et; [|done].
      apply String.eqb_eq in Et, Ht. destruct Hne. apply (Hd k k0 st st0); congruence.
Qed.

Lemma record_samples_lookup ord m report k :
  ranges ord -> distinct_tokens m ->
  foldl (record_sample ord) m report !! k
  = (fun st => match last_sample (se_token st) report with
               | Some x => with_stats x st | None => st end) <$> m !! k.
Proof.
  intros Hord. induction report as [|x report IH] using rev_ind; intros Hd.
  - simpl. by destruct (m !! k).
  - rewrite foldl_app. simpl. rewrite record_sample_lookup; [rewrite IH by done|done|].
    + unfold last_sample. destruct (m !! k) as [st|]; [|done]. simpl. rewrite foldl_app. simpl.
      destruct (foldl _ None report) as [y|]; simpl; rewrite (String.eqb_sym (us_Token x));
        by destruct (se_token st =? us_Token x)%string.
    + intros k1 k2 st1 st2 H1 H2 Heq.
      pose proof (record_samples_core ord m report k1) as C1. rewrite H1 in C1.
      pose proof (record_samples_core ord m report k2) as C2. rewrite H2 in C2.
      destruct (m !! k1) as [s1|] eqn:E1, (m !! k2) as [s2|] eqn:E2; try done.
      injection C1 as C1 _ _. injection C2 as C2 _ _. apply (Hd k1 k2 s1 s2); congruence.
Qed.

Lemma last_sample_seen token report :
  existsb (String.eqb token) (us_Token <$> report)
  = match last_sample token report with Some _ => true | None => false end.
Proof.
  unfold last_sample. induction report as [|x report IH] using rev_ind; [done|].
  rewrite fmap_app, existsb_app, foldl_app, IH. simpl. rewrite orb_false_r, String.eqb_sym.
  destruct (us_Token x =? token)%string; simpl; [by rewrite orb_true_r|by rewrite orb_false_r].
Qed.

(** a relay report is telemetry only: for each session, a sample under its
    token is stored (the last one) and clears its missed reports; a session
    younger than ninety seconds is left alone; any other unreported session
    counts one miss and is forgotten at the second in a row; samples with
    other tokens change nothing and no session ever appears. *)
Theorem recordStats_spec ord now report u (m : gmap string udpRelaySessionState)
    (Hord : ranges ord) (Hs : sessions u = Some m) (Hd : distinct_tokens m) :
  exists m', sessions (recordStats ord now report u) = Some m'
  /\ forall key, m' !! key =
       match m !! key with
       | None => None
       | Some st =>
           match last_sample (se_token st) report with
           | Some x => Some (with_stats x st)
           | None =>
               if (se_allocatedAt st =? time_zero) || (time_sub now (se_allocatedAt st) <? reportGrace)
               then Some st
               else if se_missingReports st <? 1 then Some (with_missing (se_missingReports st + 1) st)
               else None
           end
       end.
Proof.
  unfold recordStats. rewrite Hs. simpl. eexists. split; [done|]. intros key. rewrite lookup_omap.
  rewrite record_samples_lookup by done. destruct (m !! key) as [st|]; [|done]. simpl.
  unfold age_session. destruct (last_sample (se_token st) report) as [x|] eqn:E; simpl.
  - by rewrite last_sample_seen, E.
  - rewrite last_sample_seen, E. simpl. destruct (_ || _); [done|].
    destruct (Z.leb_spec 2 (se_missingReports st + 1)), (Z.ltb_spec (se_missingReports st) 1); done || lia.
Qed.

Lemma reached_distinct addr mp ls s m :
  run ls (start addr mp) = Some s -> sessions (relay s) = Some m -> distinct_tokens m.
Proof.
  intros Hrun Hm k k' st st' Hk Hk' Heq. pose proof (udp_reached _ _ _ _ Hrun) as Hinv.
  assert (Hsm : session_map (relay s) = m) by (unfold session_map; by rewrite Hm).
  apply (live_unique s k k' (se_token st) Hinv).
  - apply (iv_nonempty _ Hinv k (core_of st)). by rewrite cores_lookup, Hsm, Hk.
  - exists st. by rewrite Hsm.
  - exists st'. by rewrite Hsm.
Qed.

(** ** Calls come to their end *)
Definition rank (c : call) : nat :=
  match c with
  | SessionFor _ Entered => 6
  | SessionFor _ (Allocating _) => 5
  | SessionFor _ (Allocated _ _ _ _) => 4
  | SessionFor _ (Refused _ _) | SessionFor _ (Published _ _) => 3
  | SessionFor _ (Leaving _ _) => 2
  | SessionFor _ (Live _) | SessionFor _ (Waiting _) => 1
  | SessionFor _ (Done _) | Ended => 0
  | RlClosing _ => 2
  | RlReleasing _ => 1
  end.

Definition left_to_do (s : sys) : nat := (weigh rank (calls s) + length (closing s))%nat.

(** Steps of calls made before, answers of the relay among them. *)
Definition internal (l : label) : bool :=
  match l with
  | LEnter _ _ | LRelease _ _ | LStopAll | LReport _ _ _ | LTick _ | LQuit _ => false
  | _ => true
  end.

Lemma internal_lowers l s s' :
  internal l = true -> step l s = Some s' -> (left_to_do s' < left_to_do s)%nat.
Proof.
  intros Hl. unfold left_to_do.
  assert (Hset : forall t rq ph c, phase_of t s = Some (rq, ph) -> (rank c < rank (SessionFor rq ph))%nat ->
      (weigh rank (<[t := c]> (calls s)) + length (closing s) < weigh rank (calls s) + length (closing s))%nat).
  { intros t rq ph c Ht%phase_lookup Hr. pose proof (weigh_lower rank _ _ _ c Ht Hr). lia. }
  destruct l; try done; cbn [step step_session step_release].
  - destruct (phase_of t s) as [[rq []]|] eqn:Ht; try done. case_bool_decide; [|done].
    destruct (look _ _ _ _) as [ph u] eqn:E. intros [= <-]. eapply Hset; [exact Ht|].
    unfold look in E. repeat case_match; injection E as <- _; simpl; lia.
  - destruct (phase_of t s) as [[rq []]|] eqn:Ht; try done. intros [= <-]. eapply Hset; [exact Ht|simpl; lia].
  - destruct (phase_of t s) as [[rq []]|] eqn:Ht; try done.
    destruct (allocs (relay s) !! p) as [a|]; [|done]. destruct (al_done a); [|done].
    intros [= <-]. eapply Hset; [exact Ht|simpl; lia].
  - destruct (phase_of t s) as [[rq []]|] eqn:Ht; try done. intros [= <-]. eapply Hset; [exact Ht|simpl; lia].
  - destruct (phase_of t s) as [[rq []]|] eqn:Ht; try done. case_bool_decide; [|done].
    intros [= <-]. eapply Hset; [exact Ht|simpl; lia].
  - destruct (phase_of t s) as [[rq []]|] eqn:Ht; try done. destruct (publishable _ _ _ _ _ _ _).
    + destruct routes; [case_bool_decide; [done|]|]; intros [= <-]; (eapply Hset; [exact Ht|simpl; lia]).
    + intros [= <-]. eapply Hset; [exact Ht|]. destruct (token =? "")%string; simpl; lia.
  - destruct (phase_of t s) as [[rq []]|] eqn:Ht; try done. intros [= <-]. eapply Hset; [exact Ht|simpl; lia].
  - destruct (phase_of t s) as [[rq []]|] eqn:Ht; try done. intros [= <-]. eapply Hset; [exact Ht|simpl; lia].
  - destruct (phase_of t s) as [[rq []]|] eqn:Ht; try done. intros [= <-]. eapply Hset; [exact Ht|simpl; lia].
  - destruct (calls s !! t) as [[|c| |]|] eqn:Ht; try done. intros [= <-].
    pose proof (weigh_lower rank _ _ _ (RlReleasing (co_token c)) Ht). simpl in *. lia.
  - destruct (calls s !! t) as [[|c|tk|]|] eqn:Ht; try done. intros [= <-].
    pose proof (weigh_lower rank _ _ _ Ended Ht). simpl in *. lia.
  - destruct (closing s !! i) as [c|] eqn:Hi; [|done]. intros [= <-].
    change (weigh rank (calls s) + length (delete i (closing s)) < weigh rank (calls s) + length (closing s))%nat.
    apply lookup_lt_Some in Hi as Hlt. rewrite length_delete by eauto. lia.
Qed.

Lemma owner_enabled s t rq ph p :
  phase_of t s = Some (rq, ph) -> owns ph = Some p -> exists l s', internal l = true /\ step l s = Some s'.
Proof.
  intros Ht Ho. destruct ph; try done.
  - exists (LAllocated t "" "" false). cbn [step step_session]. rewrite Ht.
    rewrite bool_decide_true by (by left). eauto.
  - exists (LPublish t true false 0 0). cbn [step step_session]. rewrite Ht.
    destruct (publishable _ _ _ _ _ _ _); eauto.
  - exists (LRefuse t). cbn [step step_session]. rewrite Ht. eauto.
  - exists (LBind t). cbn [step step_session]. rewrite Ht. eauto.
  - exists (LLeave t). cbn [step step_session]. rewrite Ht. eauto.
Qed.

Lemma internal_enabled s :
  inv s -> (0 < left_to_do s)%nat -> exists l s', internal l = true /\ step l s = Some s'.
Proof.
  intros Hinv Hw. unfold left_to_do in Hw. destruct (closing s) as [|c cl] eqn:Hcl.
  - destruct (weigh_pos rank (calls s)) as (t & c & Hc & Hr); [simpl in Hw; lia|].
    destruct c as [rq ph|c|tk|]; [|..|simpl in Hr; lia].
    + assert (Ht : phase_of t s = Some (rq, ph)) by by apply phase_lookup.
      destruct (owns ph) as [p|] eqn:Ho; [by eapply owner_enabled|].
      destruct ph as [|tk|p| | | | | |]; try done; [| | |simpl in Hr; lia].
      * set (f := fresh (dom (allocs (relay s)))).
        exists (LLook t true f). cbn [step step_session]. rewrite Ht.
        rewrite bool_decide_true by (apply not_elem_of_dom, is_fresh).
        destruct (look _ _ _ _) as [ph u]. eauto.
      * exists (LStats t). cbn [step step_session]. rewrite Ht. eauto.
      * destruct (ao_waiting _ (iv_allocs _ Hinv) _ _ _ Ht) as [a Ha]. destruct (al_done a) eqn:Hd.
        -- exists (LWake t). cbn [step step_session]. rewrite Ht, Ha, Hd. eauto.
        -- destruct (ao_undone _ (iv_allocs _ Hinv) _ _ Ha Hd) as (t' & rq' & ph' & H1 & H2).
           by eapply owner_enabled.
    + exists (LRlClose t). cbn [step step_release]. rewrite Hc. eauto.
    + exists (LRlRelease t). cbn [step step_release]. rewrite Hc. eauto.
  - exists (LClose 0). cbn [step step_release]. rewrite Hcl. simpl. eauto.
Qed.

Lemma rank_finished c : rank c = 0%nat <-> finished c = true.
Proof. by destruct c as [? []| | |]. Qed.

Lemma all_done s : left_to_do s = 0%nat -> idle s /\ closing s = [].
Proof.
  unfold left_to_do. intros Hw. split; [|destruct (closing s); [done|simpl in Hw; lia]].
  intros t c Hc. apply rank_finished. pose proof (weigh_delete rank _ _ _ Hc). lia.
Qed.

(** every call of the UDP relay ends: in every reachable state with
    unfinished work some call can go on (one that waits for another's
    allocation can, or that other can), each such step leaves less to do,
    and the work can be completed; a call that waits is never forgotten. *)
Theorem udp_relay_progress addr mp ls s (Hrun : run ls (start addr mp) = Some s) :
  ((0 < left_to_do s)%nat -> exists l s', internal l = true /\ step l s = Some s')
  /\ (forall l s', internal l = true -> step l s = Some s' -> (left_to_do s' < left_to_do s)%nat)
  /\ exists more s', forallb internal more = true /\ run more s = Some s' /\ idle s' /\ closing s' = [].
Proof.
  pose proof (udp_reached _ _ _ _ Hrun) as Hinv. split; [by apply internal_enabled|].
  split; [intros l s'; apply internal_lowers|]. clear Hrun.
  remember (left_to_do s) as w eqn:Hw. revert s Hw Hinv. induction w as [w IH] using lt_wf_ind.
  intros s -> Hinv. destruct (decide (left_to_do s = 0%nat)) as [H0|H0].
  - exists [], s. destruct (all_done s H0). done.
  - destruct (internal_enabled s Hinv) as (l & s1 & Hl & Hs1); [lia|].
    destruct (IH _ (internal_lowers l s s1 Hl Hs1) s1 eq_refl (inv_step _ _ _ Hinv Hs1))
      as (more & s' & H1 & H2 & H3). exists (l :: more), s'. rewrite run_cons, Hs1. simpl. by rewrite Hl, H1.
Qed.

(** ** Two clients, a release under way and a report *)
Definition ask (key : string) : request := mkReq key false None.

(** Client "a" gets a session; "b"'s allocation is released before the relay
    answers, and its token goes back. *)
Definition sample_run : list label :=
  [LEnter 0 (ask "a"); LLook 0 false 10; LEnter 1 (ask "b"); LLook 1 false 11;
   LEnter 2 (ask "a"); LLook 2 false 12;
   LAllocated 0 "ta" "192.0.2.1:40000" true; LPublish 0 false true 5 20; LBind 0;
   LRelease 3 "b"; LAllocated 1 "tb" "192.0.2.1:40001" true].
Definition sample_rest : list label :=
  [LPublish 1 false true 6 21; LRefuse 1; LLeave 1; LLeave 0; LWake 2].

Definition sample_mid : sys := default (start "" false) (run sample_run (start "192.0.2.1:4000" false)).
Definition sample_end : sys := default (start "" false) (run sample_rest sample_mid).

Lemma sample_mid_run : run sample_run (start "192.0.2.1:4000" false) = Some sample_mid.
Proof. vm_compute. reflexivity. Qed.

Lemma sample_end_run : run (sample_run ++ sample_rest) (start "192.0.2.1:4000" false) = Some sample_end.
Proof. vm_compute. reflexivity. Qed.

Lemma sample_idle : idle sample_end.
Proof.
  assert (H : forallb (fun e => finished e.2) (map_to_list (calls sample_end)) = true) by (vm_compute; reflexivity).
  intros t c Hc%elem_of_map_to_list. rewrite forallb_forall in H. apply (H (t, c)). by apply list_elem_of_In.
Qed.

Lemma udp_relay_tokens_witness :
  (exists key, live sample_end key "ta") \/ "ta"%string ∈ released sample_end \/ "ta"%string ∈ dropped sample_end.
Proof.
  destruct (udp_relay_tokens _ _ _ _ sample_end_run "ta") as (_ & _ & _ & H); [done|].
  apply H; [apply sample_idle|]. vm_compute. right. left.
Defined.

Lemma udp_relay_one_per_client_witness : live sample_mid "a" "ta" /\ ~ allocating sample_mid 0 "a".
Proof.
  assert (Hl : live sample_mid "a" "ta") by (eexists; split; [vm_compute; reflexivity|reflexivity]).
  split; [exact Hl|]. apply (proj2 (udp_relay_one_per_client _ _ _ _ sample_mid_run) 0%nat "a"%string "ta"%string Hl).
Defined.

Definition sample_session : udpRelaySessionState := mkSession "ta" "192.0.2.1:40000" 20 None None 5 0.

Lemma udp_relay_endpoint_witness : exists b, routed sample_end !! "a"%string = Some (b, "192.0.2.1:40000"%string).
Proof.
  apply (udp_relay_endpoint _ _ _ _ sample_end_run "a" sample_session). vm_compute. reflexivity.
Defined.

Lemma udp_relay_keepalives_witness :
  loops sample_end !! 20%nat = Some ("ta"%string, "192.0.2.1:40000"%string).
Proof.
  destruct (udp_relay_keepalives _ _ _ _ sample_end_run) as [_ H].
  destruct (H sample_idle) as [H1 _]; [vm_compute; reflexivity|].
  apply (H1 "a"%string sample_session). vm_compute. reflexivity.
Defined.

Definition silent (t : string) : RelayUDPStats := {|
  us_Token := t; us_ClientPacketsReceived := 0; us_ClientBytesReceived := 0;
  us_ServerPacketsForwarded := 0; us_ServerBytesForwarded := 0; us_ServerPacketsReceived := 0;
  us_ServerBytesReceived := 0; us_ClientPacketsForwarded := 0; us_ClientBytesForwarded := 0 |}.

Lemma recordStats_spec_witness :
  exists m', sessions (recordStats map_keys (200 * second) [silent "tz"] (relay sample_end)) = Some m'
    /\ m' !! "a"%string = Some (with_missing 1 sample_session).
Proof.
  destruct (recordStats_spec map_keys (200 * second) [silent "tz"] (relay sample_end)
    {["a"%string := sample_session]}) as (m' & H1 & H2).
  - apply ranges_map_keys.
  - vm_compute. reflexivity.
  - intros k k' st st' [<- _]%lookup_singleton_Some [<- _]%lookup_singleton_Some _. done.
  - exists m'. split; [exact H1|]. rewrite H2. vm_compute. reflexivity.
Defined.

Lemma udp_relay_progress_witness :
  left_to_do sample_mid <> 0%nat
  /\ exists more s', forallb internal more = true /\ run more sample_mid = Some s' /\ idle s' /\ closing s' = [].
Proof.
  split; [by vm_compute|]. apply (udp_relay_progress _ _ _ _ sample_mid_run).
Defined.
