(* ===== verification/Dns.v ===== *)
(** [pkg/server/dns.go]: the in-tunnel DNS server.  It answers for ntwire's
    own names from the tunnels granted to the peer that asks, and forwards
    other questions when the configuration says so.

    The message codec is [golang.org/x/net/dns/dnsmessage]: its types are
    records here, packing and unpacking are parameters, and [MustNewName],
    which panics on a name its package refuses, is an option.  Names are
    byte strings; Unicode case tables are a parameter. *)
From stdpp Require Import pretty.
From S2P Require Import Prelude Bytes Netip Protocol AuthLimit WgKeys Sessions IpPool Egress ServerAuth ServerTable ServerToy.

(** ** Messages of package dnsmessage *)
Definition TypeA : Z := 1.
Definition TypeNS : Z := 2.
Definition TypeCNAME : Z := 5.
Definition TypeSOA : Z := 6.
Definition TypePTR : Z := 12.
Definition TypeTXT : Z := 16.
Definition TypeAAAA : Z := 28.
Definition TypeSRV : Z := 33.
Definition typeANY : Z := 255.
Definition ClassINET : Z := 1.

Definition RCodeSuccess : Z := 0.
Definition RCodeServerFailure : Z := 2.
Definition RCodeNameError : Z := 3.
Definition RCodeRefused : Z := 5.

Record Question := mkQuestion { q_Name : list byte; q_Type : Z; q_Class : Z }.

Inductive ResourceBody : Type :=
  | AResource (a : list byte)
  | AAAAResource (a : list byte)
  | PTRResource (n : list byte)
  | TXTResource (txt : list (list byte))
  | SRVResource (priority weight port : Z) (target : list byte)
  | SOAResource (ns mbox : list byte) (serial refresh retry expire minttl : Z)
  | NSResource (n : list byte)
  | CNAMEResource (n : list byte).

Record Resource := mkResource {
  r_Name : list byte;
  r_Type : Z;
  r_Class : Z;
  r_TTL : Z;
  r_Body : ResourceBody;
}.

Record Message := mkMessage {
  m_ID : Z;
  m_Response : bool;
  m_OpCode : Z;
  m_Authoritative : bool;
  m_Truncated : bool;
  m_RecursionDesired : bool;
  m_RecursionAvailable : bool;
  m_RCode : Z;
  m_Questions : list Question;
  m_Answers : list Resource;
  m_Additionals : list Resource;
}.

(** The codec; [NewName] documents names of up to 255 bytes. *)
Class DnsCodec : Type := {
  Unpack : list byte -> option Message;
  Pack : Message -> option (list byte);
  NewName : list byte -> option (list byte);
  NewName_short : forall s, Zlen s <= 255 -> NewName s = Some s;
  NewName_same : forall s n, NewName s = Some n -> n = s;
}.

Record DNSForwardingConfig := mkForwarding { fw_Enabled : bool; fw_Upstreams : list string }.
Record DNSConfig := mkDNS { dns_Domain : string; dns_Forwarding : DNSForwardingConfig }.

(** ** Strings *)
Definition dot : byte := x2e.
Definition dash : byte := x2d.
Definition b (s : string) : list byte := bytes_of s.
#[global] Arguments b : simpl never.

(** [strconv.Itoa] and [%d]. *)
Definition itoa (z : Z) : list byte := bytes_of (pretty z).

Definition hex_digit (z : Z) : byte := if z <? 10 then byte_of (48 + z) else byte_of (87 + z).

(** [strings.TrimPrefix] *)
Definition trim_prefix (l p : list byte) : list byte :=
  match strip_prefix p l with Some r => r | None => l end.

(** [strings.Trim] with a set of one byte. *)
Fixpoint trim_left_byte (c : byte) (l : list byte) : list byte :=
  match l with
  | x :: l' => if bool_decide (x = c) then trim_left_byte c l' else l
  | [] => []
  end.
Definition trim_byte (c : byte) (l : list byte) : list byte :=
  reverse (trim_left_byte c (reverse (trim_left_byte c l))).

(** [strings.Join] *)
Definition join (sep : list byte) (l : list (list byte)) : list byte :=
  match l with [] => [] | x :: l => x ++ (l ≫= fun y => sep ++ y) end.

Section dns.
Context {codec : DnsCodec} (unicode_lower : list byte -> list byte).

Definition lower (l : list byte) : list byte := to_lower unicode_lower l.

(** ** Names *)
Definition EffectiveDomain (d : DNSConfig) : list byte :=
  if (dns_Domain d =? "")%string then b "ntwire"
  else trim_suffix (lower (trim_space (b (dns_Domain d)))) [dot].

Definition matchDomainPrefix (qName domain : list byte) : option (list byte * list byte) :=
  let try (d : list byte) (rest : option (list byte * list byte)) :=
    if bool_decide (d = []) then rest
    else if bool_decide (qName = d) then Some ([], d)
    else if has_suffix qName (dot :: d) then Some (trim_suffix qName (dot :: d), d)
    else rest in
  foldr try (if bool_decide (dot ∈ qName) then None else Some (qName, domain))
    [domain; b "ntwire"; b "tunnel"; b "ntwire.internal"].

Definition is_reverse_zone (name : list byte) : bool :=
  has_suffix name (b ".in-addr.arpa") || has_suffix name (b ".ip6.arpa").

Definition isLocalDNSName (name domain : list byte) : bool :=
  if is_reverse_zone name then true
  else match matchDomainPrefix name domain with Some _ => true | None => false end.

(** The name a question is matched by. *)
Definition question_name (q : Question) : list byte := trim_suffix (lower (q_Name q)) [dot].

Definition allExternalDNSQuestions (qs : list Question) (domain : list byte) : bool :=
  negb (bool_decide (qs = [])) && forallb (fun q => negb (isLocalDNSName (question_name q) domain)) qs.

Definition As4 (x : Addr) : list byte := match x with Addr4 a => put_be 4 a | _ => [] end.
Definition As16 (x : Addr) : list byte := match x with Addr6 a _ => put_be 16 a | _ => [] end.

Definition nibbles (x : byte) : list byte :=
  [hex_digit (Z.land (byte_val x) 15); dot; hex_digit (Z.shiftr (byte_val x) 4); dot].

Definition reverseARPAName (ip : Addr) : list byte :=
  match ip with
  | Addr4 _ => (reverse (As4 ip) ≫= fun x => itoa (byte_val x) ++ [dot]) ++ b "in-addr.arpa"
  | Addr6 _ _ => (reverse (As16 ip) ≫= nibbles) ++ b "ip6.arpa"
  | AddrNone => []
  end.

(** [strings.EqualFold]: the letters of a reverse name fold only to their
    own two cases. *)
Definition isReverseOf (arpaName : list byte) (ip : Addr) : bool :=
  bool_decide (lower_byte <$> trim_suffix arpaName [dot]
               = lower_byte <$> trim_suffix (reverseARPAName ip) [dot]).

(** The loop over the runes: the ones it keeps are single bytes, and no byte
    of a longer rune is one of them. *)
Definition label_byte (x : byte) : list byte :=
  let z := byte_val x in
  if ((97 <=? z) && (z <=? 122)) || ((48 <=? z) && (z <=? 57)) || bool_decide (x = dash) then [x]
  else if bool_decide (x = x40) || bool_decide (x = dot) || bool_decide (x = x5f) then [dash]
  else [].

Definition sanitizeLabel (s : list byte) : list byte :=
  let res := trim_byte dash (lower (trim_space s) ≫= label_byte) in
  if bool_decide (res = []) then b "client"
  else if 63 <? Zlen res then take 63 res else res.

(** ** Records *)
Definition dnsARecord (name : list byte) (ip : Addr) : Resource :=
  mkResource name TypeA ClassINET 10 (AResource (As4 ip)).
Definition dnsAAAARecord (name : list byte) (ip : Addr) : Resource :=
  mkResource name TypeAAAA ClassINET 10 (AAAAResource (As16 ip)).

Definition dnsSOARecord (name domain : list byte) : option Resource :=
  ns ← NewName (b "server." ++ domain ++ [dot]);
  mbox ← NewName (b "hostmaster." ++ domain ++ [dot]);
  Some (mkResource name TypeSOA ClassINET 10 (SOAResource ns mbox 1 300 60 86400 10)).

Definition IsSocks (t : TunnelConfig) : bool := (tc_Target t =? "socks")%string.

Definition dnsTunnelTXTRecord (name : list byte) (t : TunnelConfig) : Resource :=
  mkResource name TypeTXT ClassINET 10 (TXTResource (
    [b "port=" ++ itoa (tc_VirtualPort t); b "target=" ++ b (tc_Target t)]
    ++ (if (tc_Description t =? "")%string then [] else [b "desc=" ++ b (tc_Description t)])
    ++ (if (tc_DocsURL t =? "")%string then [] else [b "docs=" ++ b (tc_DocsURL t)])
    ++ [if IsSocks t then b "type=socks" else b "type=tcp"])).

Definition port16 (t : TunnelConfig) : Z := tc_VirtualPort t mod 65536.

Definition srvRecord (name : list byte) (t : TunnelConfig) (target : list byte) : Resource :=
  mkResource name TypeSRV ClassINET 10 (SRVResource 0 0 (port16 t) target).

(** The address record of the server that goes with an SRV target. *)
Definition glue (name : list byte) (serverIP : Addr) : list Resource :=
  if Is4 serverIP then [dnsARecord name serverIP]
  else if Is6 serverIP then [dnsAAAARecord name serverIP] else [].

(** ** One question *)

(** What a question adds to the response: answers, additional records, and
    the response code when it sets it. *)
Record reply := mkReply { ry_answers : list Resource; ry_more : list Resource; ry_code : option Z }.

Definition answers (l : list Resource) : reply := mkReply l [] None.
Definition nothing : reply := mkReply [] [] None.
Definition name_error : reply := mkReply [] [] (Some RCodeNameError).

Definition address_answers (q : Question) (serverIP : Addr) : reply :=
  if q_Type q =? TypeA then answers (if Is4 serverIP then [dnsARecord (q_Name q) serverIP] else [])
  else answers (if Is6 serverIP then [dnsAAAARecord (q_Name q) serverIP] else []).

Definition is_address_type (t : Z) : bool := (t =? TypeA) || (t =? TypeAAAA).

Definition ptr_answer (q : Question) (target : list byte) : option reply :=
  n ← NewName target;
  Some (answers [mkResource (q_Name q) TypePTR ClassINET 10 (PTRResource n)]).

Definition resolve_reverse (q : Question) (qName : list byte) (serverIP : Addr)
    (principal : DataPlanePrincipal) (domain : list byte) : option reply :=
  if (q_Type q =? TypePTR) || (q_Type q =? typeANY) then
    if isReverseOf qName serverIP then ptr_answer q (b "server." ++ domain ++ [dot])
    else if isReverseOf qName (pr_TunnelIP principal)
    then ptr_answer q (sanitizeLabel (b (pr_Identity principal)) ++ [dot] ++ domain ++ [dot])
    else Some name_error
  else Some name_error.

Definition resolve_gateway (q : Question) (serverIP : Addr) (matchedDomain : list byte)
    (tunnels : list TunnelConfig) : option reply :=
  if is_address_type (q_Type q) then Some (address_answers q serverIP)
  else if q_Type q =? TypeTXT then
    Some (answers [mkResource (q_Name q) TypeTXT ClassINET 10 (TXTResource
      [b "ntwire"; b "version=1"; b "tunnels=" ++ join (b ",") ((fun t => b (tc_Name t)) <$> tunnels)])])
  else if q_Type q =? TypeSOA then
    soa ← dnsSOARecord (q_Name q) matchedDomain; Some (answers [soa])
  else if q_Type q =? TypeNS then
    ns ← NewName (b "server." ++ matchedDomain ++ [dot]);
    Some (answers [mkResource (q_Name q) TypeNS ClassINET 10 (NSResource ns)])
  else Some nothing.

Definition lower_name (t : TunnelConfig) : list byte := lower (b (tc_Name t)).

Fixpoint discovery_srv (q : Question) (serverIP : Addr) (matchedDomain : list byte)
    (tunnels : list TunnelConfig) : option reply :=
  match tunnels with
  | [] => Some nothing
  | t :: tunnels =>
      target ← NewName (lower_name t ++ [dot] ++ matchedDomain ++ [dot]);
      rest ← discovery_srv q serverIP matchedDomain tunnels;
      Some (mkReply (srvRecord (q_Name q) t target :: ry_answers rest)
              (glue target serverIP ++ ry_more rest) None)
  end.

Fixpoint discovery_ptr (q : Question) (matchedDomain : list byte) (tunnels : list TunnelConfig) :
    option reply :=
  match tunnels with
  | [] => Some nothing
  | t :: tunnels =>
      n ← NewName ([x5f] ++ lower_name t ++ b "._tcp." ++ matchedDomain ++ [dot]);
      rest ← discovery_ptr q matchedDomain tunnels;
      Some (answers (mkResource (q_Name q) TypePTR ClassINET 10 (PTRResource n) :: ry_answers rest))
  end.

Definition discovery_txt (q : Question) (tunnels : list TunnelConfig) : reply :=
  answers ((fun t => mkResource (q_Name q) TypeTXT ClassINET 10 (TXTResource
    [b "name=" ++ b (tc_Name t) ++ b " port=" ++ itoa (tc_VirtualPort t)
     ++ b " target=" ++ b (tc_Target t) ++ b " desc=" ++ b (tc_Description t)])) <$> tunnels).

Definition resolve_discovery (q : Question) (serverIP : Addr) (matchedDomain : list byte)
    (tunnels : list TunnelConfig) : option reply :=
  if (q_Type q =? TypeSRV) || (q_Type q =? typeANY) then discovery_srv q serverIP matchedDomain tunnels
  else if q_Type q =? TypeTXT then Some (discovery_txt q tunnels)
  else if q_Type q =? TypePTR then discovery_ptr q matchedDomain tunnels
  else if q_Type q =? TypeSOA then
    soa ← dnsSOARecord (q_Name q) matchedDomain; Some (answers [soa])
  else Some nothing.

(** [allowedMap]: of two names with one lower-case form the later stays. *)
Definition allowed_map (tunnels : list TunnelConfig) : gmap (list byte) TunnelConfig :=
  foldl (fun m t => <[lower_name t := t]> m) ∅ tunnels.

Definition resolve_service (q : Question) (serverIP : Addr) (prefix matchedDomain : list byte)
    (allowed : gmap (list byte) TunnelConfig) : option reply :=
  let tName := trim_prefix (trim_suffix prefix (b "._tcp")) [x5f] in
  match allowed !! tName with
  | None => Some name_error
  | Some t =>
      if (q_Type q =? TypeSRV) || (q_Type q =? typeANY) then
        target ← NewName (tName ++ [dot] ++ matchedDomain ++ [dot]);
        Some (mkReply [srvRecord (q_Name q) t target] (glue target serverIP) None)
      else if q_Type q =? TypeTXT then Some (answers [dnsTunnelTXTRecord (q_Name q) t])
      else if is_address_type (q_Type q) then Some (address_answers q serverIP)
      else Some nothing
  end.

Definition resolve_tunnel (q : Question) (serverIP : Addr) (matchedDomain : list byte)
    (t : TunnelConfig) : option reply :=
  if is_address_type (q_Type q) then Some (address_answers q serverIP)
  else if q_Type q =? TypeSRV then
    Some (mkReply [srvRecord (q_Name q) t (q_Name q)] (glue (q_Name q) serverIP) None)
  else if q_Type q =? TypeTXT then Some (answers [dnsTunnelTXTRecord (q_Name q) t])
  else if q_Type q =? TypeCNAME then
    n ← NewName (b "server." ++ matchedDomain ++ [dot]);
    Some (answers [mkResource (q_Name q) TypeCNAME ClassINET 10 (CNAMEResource n)])
  else if q_Type q =? TypeSOA then
    soa ← dnsSOARecord (q_Name q) matchedDomain; Some (answers [soa])
  else Some nothing.

Definition gateway_names : list (list byte) := [[]; b "server"; b "gateway"].
Definition discovery_names : list (list byte) :=
  [b "_ntwire._tcp"; b "_ntwire"; b "_services._dns-sd._udp"; b "_services._tcp"].

Definition resolveDNSQuestion (q : Question) (serverIP : Addr) (principal : DataPlanePrincipal)
    (domain : list byte) (tunnels : list TunnelConfig) (allowed : gmap (list byte) TunnelConfig) :
    option reply :=
  let qName := question_name q in
  if is_reverse_zone qName then resolve_reverse q qName serverIP principal domain
  else match matchDomainPrefix qName domain with
       | None => Some name_error
       | Some (prefix, matchedDomain) =>
           if bool_decide (prefix ∈ gateway_names) then resolve_gateway q serverIP matchedDomain tunnels
           else if bool_decide (prefix ∈ discovery_names)
           then resolve_discovery q serverIP matchedDomain tunnels
           else if has_prefix prefix [x5f] then resolve_service q serverIP prefix matchedDomain allowed
           else match allowed !! prefix with
                | None => Some name_error
                | Some t => resolve_tunnel q serverIP matchedDomain t
                end
       end.

(** ** One packet *)
Definition add_reply (r : reply) (m : Message) : Message :=
  mkMessage (m_ID m) (m_Response m) (m_OpCode m) (m_Authoritative m) (m_Truncated m)
    (m_RecursionDesired m) (m_RecursionAvailable m) (default (m_RCode m) (ry_code r)) (m_Questions m)
    (m_Answers m ++ ry_answers r) (m_Additionals m ++ ry_more r).

Fixpoint resolve_all (qs : list Question) (serverIP : Addr) (principal : DataPlanePrincipal)
    (domain : list byte) (tunnels : list TunnelConfig) (allowed : gmap (list byte) TunnelConfig)
    (m : Message) : option Message :=
  match qs with
  | [] => Some m
  | q :: qs =>
      r ← resolveDNSQuestion q serverIP principal domain tunnels allowed;
      resolve_all qs serverIP principal domain tunnels allowed (add_reply r m)
  end.

Definition empty_reply (req : Message) : Message :=
  mkMessage (m_ID req) true (m_OpCode req) true false (m_RecursionDesired req) false RCodeSuccess
    (m_Questions req) [] [].

Definition with_code (c : Z) (m : Message) : Message :=
  mkMessage (m_ID m) (m_Response m) (m_OpCode m) (m_Authoritative m) (m_Truncated m)
    (m_RecursionDesired m) (m_RecursionAvailable m) c (m_Questions m) (m_Answers m) (m_Additionals m).

Definition forward_failure (m : Message) : Message :=
  mkMessage (m_ID m) (m_Response m) (m_OpCode m) false (m_Truncated m)
    (m_RecursionDesired m) true RCodeServerFailure (m_Questions m) (m_Answers m) (m_Additionals m).

Definition allowedTunnels (principal : DataPlanePrincipal) (tunnels : list TunnelConfig) : list TunnelConfig :=
  filter (fun t => tc_Name t ∈ pr_Tunnels principal) tunnels.

(** What a packet makes the server do, in order. *)
Inductive effect : Type :=
  | Upstream (query : list byte) (upstreams : list string)
  | Answer (packet : list byte)
  | Panic.

Definition write_response (m : Message) : list effect :=
  match Pack m with Some out => [Answer out] | None => [] end.

(** [slot]: a forwarding slot is free; [fwd] is what the upstream exchange
    returns. *)
Definition handleDNS (who : option DataPlanePrincipal) (serverIP : Addr) (cfg : DNSConfig)
    (tunnels : list TunnelConfig) (slot : bool) (fwd : option (list byte)) (reqBytes : list byte) :
    list effect :=
  match Unpack reqBytes with
  | None => []
  | Some req =>
      let resp := empty_reply req in
      match who with
      | None => write_response (with_code RCodeRefused resp)
      | Some principal =>
          let domain := EffectiveDomain cfg in
          if fw_Enabled (dns_Forwarding cfg) && allExternalDNSQuestions (m_Questions req) domain then
            if slot then
              Upstream reqBytes (fw_Upstreams (dns_Forwarding cfg)) ::
              match fwd with
              | Some out => [Answer out]
              | None => write_response (forward_failure resp)
              end
            else write_response (forward_failure resp)
          else
            let allowed := allowedTunnels principal tunnels in
            match resolve_all (m_Questions req) serverIP principal domain allowed (allowed_map allowed) resp with
            | Some m => write_response m
            | None => [Panic]
            end
      end
  end.

(** ** Local names stay local *)

(** A name outside every namespace the server owns. *)
Definition external (name domain : list byte) : Prop :=
  dot ∈ name
  /\ ~ (b ".in-addr.arpa" `suffix_of` name) /\ ~ (b ".ip6.arpa" `suffix_of` name)
  /\ forall d, d ∈ [domain; b "ntwire"; b "tunnel"; b "ntwire.internal"] -> d <> [] ->
       name <> d /\ ~ ((dot :: d) `suffix_of` name).

Lemma has_suffix_false l p : has_suffix l p = false <-> ~ (p `suffix_of` l).
Proof. rewrite <-has_suffix_spec. by destruct (has_suffix l p). Qed.

Lemma matchDomainPrefix_none name domain :
  matchDomainPrefix name domain = None <->
  dot ∈ name /\ forall d, d ∈ [domain; b "ntwire"; b "tunnel"; b "ntwire.internal"] -> d <> [] ->
       name <> d /\ ~ ((dot :: d) `suffix_of` name).
Proof.
  unfold matchDomainPrefix. generalize [domain; b "ntwire"; b "tunnel"; b "ntwire.internal"] as ds.
  induction ds as [|d ds IH]; cbn [foldr].
  - case_bool_decide; split; try done; [|by intros [? _]]. intros _. split; [done|].
    intros d Hd. by apply not_elem_of_nil in Hd.
  - destruct (bool_decide_reflect (d = [])) as [->|Hd].
    { rewrite IH. split; intros [? H]; split; try done; intros d Hin Hne; apply H; try done.
      - by apply elem_of_cons in Hin as [->|].
      - by right. }
    destruct (bool_decide_reflect (name = d)) as [->|Hn].
    { split; [done|]. intros [_ H]. destruct (H d) as [? _]; [by left|done|done]. }
    destruct (has_suffix name (dot :: d)) eqn:E.
    { split; [done|]. intros [_ H]. apply has_suffix_spec in E. by destruct (H d) as [_ ?]; [left| |]. }
    apply has_suffix_false in E. rewrite IH. split; intros [? H]; split; try done.
    + intros d' [->|Hin]%elem_of_cons Hne; [done|auto].
    + intros d' Hin Hne. apply H; [by right|done].
Qed.

Lemma external_spec name domain : isLocalDNSName name domain = false <-> external name domain.
Proof.
  unfold isLocalDNSName, is_reverse_zone, external.
  destruct (has_suffix name (b ".in-addr.arpa")) eqn:E1; simpl.
  { apply has_suffix_spec in E1. naive_solver. }
  destruct (has_suffix name (b ".ip6.arpa")) eqn:E2; simpl.
  { apply has_suffix_spec in E2. naive_solver. }
  apply has_suffix_false in E1, E2.
  transitivity (matchDomainPrefix name domain = None).
  { by destruct (matchDomainPrefix name domain). }
  rewrite matchDomainPrefix_none. naive_solver.
Qed.

Lemma write_response_answers m x : x ∈ write_response m -> exists out, x = Answer out.
Proof.
  unfold write_response. destruct (Pack m); intros H; [|by apply not_elem_of_nil in H].
  apply list_elem_of_singleton in H. eauto.
Qed.

(** local names never leave: the server sends a query upstream only for a
    known peer, only with forwarding on, to the configured upstreams and
    unchanged, and only when every question in it is outside all of
    ntwire's namespaces (qualified, not a reverse name, not under the
    configured domain or a built-in one). *)
Theorem dns_local_names_stay who serverIP cfg tunnels slot fwd req query ups
    (Hup : Upstream query ups ∈ handleDNS who serverIP cfg tunnels slot fwd req) :
  query = req /\ ups = fw_Upstreams (dns_Forwarding cfg) /\ fw_Enabled (dns_Forwarding cfg) = true
  /\ slot = true /\ is_Some who
  /\ exists m, Unpack req = Some m /\ m_Questions m <> []
      /\ forall q, q ∈ m_Questions m -> external (question_name q) (EffectiveDomain cfg).
Proof.
  unfold handleDNS in Hup. destruct (Unpack req) as [m|]; [|by apply not_elem_of_nil in Hup].
  assert (Hno : forall x, ~ Upstream query ups ∈ write_response x)
    by (intros x [out Heq]%write_response_answers; done).
  destruct who as [p|]; [|by apply Hno in Hup].
  destruct (fw_Enabled (dns_Forwarding cfg)) eqn:Ef; simpl in Hup.
  2: { destruct (resolve_all _ _ _ _ _ _ _); [by apply Hno in Hup|].
       by apply list_elem_of_singleton in Hup. }
  destruct (allExternalDNSQuestions _ _) eqn:Ee.
  2: { destruct (resolve_all _ _ _ _ _ _ _); [by apply Hno in Hup|].
       by apply list_elem_of_singleton in Hup. }
  destruct slot; [|by apply Hno in Hup].
  apply elem_of_cons in Hup as [[= -> ->]|Hup].
  2: { destruct fwd as [out|]; [by apply list_elem_of_singleton in Hup|by apply Hno in Hup]. }
  repeat split; eauto. exists m. split; [done|]. unfold allExternalDNSQuestions in Ee.
  apply andb_true_iff in Ee as [Hne%negb_true_iff%bool_decide_eq_false Hall]. split; [done|].
  intros q Hq. rewrite forallb_forall in Hall. apply list_elem_of_In in Hq.
  apply external_spec. specialize (Hall q Hq). by apply negb_true_iff in Hall.
Qed.

(** ** What an answer may say *)

(** Each record has the type of its body, and addresses are the server's. *)
Definition record_ok (serverIP : Addr) (r : Resource) : Prop :=
  r_Class r = ClassINET /\ r_TTL r = 10
  /\ match r_Body r with
     | AResource a => r_Type r = TypeA /\ Is4 serverIP = true /\ a = As4 serverIP
     | AAAAResource a => r_Type r = TypeAAAA /\ Is6 serverIP = true /\ a = As16 serverIP
     | PTRResource _ => r_Type r = TypePTR
     | TXTResource _ => r_Type r = TypeTXT
     | SRVResource p w port _ => r_Type r = TypeSRV /\ p = 0 /\ w = 0 /\ 0 <= port < 65536
     | SOAResource _ _ _ _ _ _ _ => r_Type r = TypeSOA
     | NSResource _ => r_Type r = TypeNS
     | CNAMEResource _ => r_Type r = TypeCNAME
     end.

Definition reply_ok (serverIP : Addr) (r : reply) : Prop :=
  Forall (record_ok serverIP) (ry_answers r) /\ Forall (record_ok serverIP) (ry_more r).

Lemma nothing_ok ip : reply_ok ip nothing.
Proof. by split. Qed.
Lemma name_error_ok ip : reply_ok ip name_error.
Proof. by split. Qed.
Lemma answers_ok ip l : Forall (record_ok ip) l -> reply_ok ip (answers l).
Proof. by split. Qed.

Lemma glue_ok ip n : Forall (record_ok ip) (glue n ip).
Proof. by destruct ip; repeat constructor. Qed.

Lemma address_answers_ok q ip : reply_ok ip (address_answers q ip).
Proof. unfold address_answers. destruct (_ =? _); apply answers_ok; by destruct ip; repeat constructor. Qed.

Lemma srv_ok ip n t target : record_ok ip (srvRecord n t target).
Proof. repeat split; simpl; try done; unfold port16; apply Z.mod_pos_bound; done. Qed.

(** Splits a reply on its tests and looks every name up. *)
Ltac reply_cases :=
  repeat match goal with
  | |- context [if ?c then _ else _] => destruct c
  | |- context [mbind _ ?x] => let E := fresh "E" in destruct x eqn:E; cbn [mbind option_bind]
  end.

Lemma soa_ok ip n d r : dnsSOARecord n d = Some r -> record_ok ip r.
Proof.
  unfold dnsSOARecord. reply_cases; by intros [= <-].
Qed.

Lemma srv_reply_ok ip n t x g : reply_ok ip (mkReply [srvRecord n t x] (glue g ip) None).
Proof. split; [constructor; [apply srv_ok|constructor]|apply glue_ok]. Qed.

#[local] Hint Resolve srv_reply_ok nothing_ok name_error_ok address_answers_ok srv_ok glue_ok : core.

Lemma ptr_answer_ok ip q target r : ptr_answer q target = Some r -> reply_ok ip r.
Proof. unfold ptr_answer. reply_cases; intros [= <-]. by repeat constructor. Qed.

Lemma discovery_srv_ok q ip dom ts r : discovery_srv q ip dom ts = Some r -> reply_ok ip r.
Proof.
  revert r. induction ts as [|t ts IH]; intros r; simpl; [by intros [= <-]|].
  destruct (NewName _) as [n|]; cbn [mbind option_bind]; [|done].
  destruct (discovery_srv q ip dom ts) as [r'|]; cbn [mbind option_bind]; [|done]. intros [= <-].
  destruct (IH r' eq_refl). split; simpl; [constructor; auto|apply Forall_app; auto].
Qed.

Lemma discovery_ptr_ok ip q dom ts r : discovery_ptr q dom ts = Some r -> reply_ok ip r.
Proof.
  revert r. induction ts as [|t ts IH]; intros r; simpl; [by intros [= <-]|].
  destruct (NewName _) as [n|]; cbn [mbind option_bind]; [|done].
  destruct (discovery_ptr q dom ts) as [r'|]; cbn [mbind option_bind]; [|done]. intros [= <-].
  destruct (IH r' eq_refl). by apply answers_ok; constructor.
Qed.

Lemma resolve_ok q ip principal domain ts allowed r :
  resolveDNSQuestion q ip principal domain ts allowed = Some r -> reply_ok ip r.
Proof.
  unfold resolveDNSQuestion. destruct (is_reverse_zone _).
  { unfold resolve_reverse. reply_cases; eauto using ptr_answer_ok; intros [= <-]; auto. }
  destruct (matchDomainPrefix _ _) as [[prefix dom]|]; [|intros [= <-]; auto].
  destruct (bool_decide _).
  { unfold resolve_gateway. reply_cases; intros [= <-]; auto;
      apply answers_ok; repeat constructor; try done; by eapply soa_ok. }
  destruct (bool_decide _).
  { unfold resolve_discovery. reply_cases; eauto using discovery_srv_ok, discovery_ptr_ok;
      intros [= <-]; auto; apply answers_ok.
    - induction ts; simpl; repeat constructor; done.
    - repeat constructor; by eapply soa_ok. }
  destruct (has_prefix _ _).
  { unfold resolve_service. destruct (allowed !! _) as [t|]; [|intros [= <-]; auto].
    reply_cases; intros [= <-]; auto.
    by apply answers_ok; repeat constructor. }
  destruct (allowed !! _) as [t|]; [|intros [= <-]; auto].
  unfold resolve_tunnel. reply_cases; intros [= <-]; auto; apply answers_ok; repeat constructor; try done; by eapply soa_ok.
Qed.

Lemma resolve_all_ok qs ip principal domain ts allowed m m' :
  resolve_all qs ip principal domain ts allowed m = Some m' ->
  Forall (record_ok ip) (m_Answers m) -> Forall (record_ok ip) (m_Additionals m) ->
  Forall (record_ok ip) (m_Answers m') /\ Forall (record_ok ip) (m_Additionals m')
  /\ m_ID m' = m_ID m /\ m_Response m' = m_Response m /\ m_Questions m' = m_Questions m
  /\ m_Authoritative m' = m_Authoritative m.
Proof.
  revert m. induction qs as [|q qs IH]; intros m; simpl; [by intros [= <-]|].
  destruct (resolveDNSQuestion q ip principal domain ts allowed) as [r|] eqn:E; simpl; [|done].
  intros H Ha Hm. destruct (resolve_ok _ _ _ _ _ _ _ E) as [H1 H2].
  apply IH in H; simpl; [done|apply Forall_app; done..].
Qed.

(** C33: what an in-tunnel DNS packet can say: an answer the server makes itself
    carries the request's id and questions, every record has the class,
    lifetime and type of its body, and every address in it is the server's
    own tunnel address; anything else is an upstream's answer to a query
    this packet sent. A source that is no peer gets no record at all. *)
Theorem dns_answer_typed who serverIP cfg tunnels slot fwd req out
    (Hout : Answer out ∈ handleDNS who serverIP cfg tunnels slot fwd req) :
  (fwd = Some out /\ Upstream req (fw_Upstreams (dns_Forwarding cfg))
                      ∈ handleDNS who serverIP cfg tunnels slot fwd req)
  \/ exists rq m, Unpack req = Some rq /\ Pack m = Some out
       /\ m_ID m = m_ID rq /\ m_Response m = true /\ m_Questions m = m_Questions rq
       /\ Forall (record_ok serverIP) (m_Answers m ++ m_Additionals m)
       /\ (who = None -> m_RCode m = RCodeRefused /\ m_Answers m ++ m_Additionals m = []).
Proof.
  unfold handleDNS in *. destruct (Unpack req) as [rq|]; [|by apply not_elem_of_nil in Hout].
  assert (Hw : forall m, Answer out ∈ write_response m -> Pack m = Some out).
  { intros m. unfold write_response. destruct (Pack m); intros H; [|by apply not_elem_of_nil in H].
    apply list_elem_of_singleton in H. congruence. }
  destruct who as [p|].
  2: { right. eexists rq, _. split; [done|]. split; [by apply Hw|]. by repeat split. }
  assert (Hown : Answer out ∈ match resolve_all (m_Questions rq) serverIP p (EffectiveDomain cfg)
      (allowedTunnels p tunnels) (allowed_map (allowedTunnels p tunnels)) (empty_reply rq) with
      | Some m => write_response m | None => [Panic] end -> exists rq' m, Some rq = Some rq' /\ Pack m = Some out
       /\ m_ID m = m_ID rq' /\ m_Response m = true /\ m_Questions m = m_Questions rq'
       /\ Forall (record_ok serverIP) (m_Answers m ++ m_Additionals m)
       /\ (Some p = None -> m_RCode m = RCodeRefused /\ m_Answers m ++ m_Additionals m = [])).
  { destruct (resolve_all _ _ _ _ _ _ _) as [m|] eqn:E; intros H;
      [|by apply list_elem_of_singleton in H].
    apply resolve_all_ok in E as (Ha & Hm & Hid & Hr & Hq & _); [|by constructor..].
    exists rq, m. split; [done|]. split; [by apply Hw|]. repeat split; try done. by apply Forall_app. }
  destruct (fw_Enabled (dns_Forwarding cfg)); simpl in *; [|by right; apply Hown].
  destruct (allExternalDNSQuestions _ _); [|by right; apply Hown].
  destruct slot.
  2: { right. eexists rq, _. split; [done|]. split; [by apply Hw|]. by repeat split. }
  apply elem_of_cons in Hout as [|Hout]; [done|]. destruct fwd as [o|].
  - left. apply list_elem_of_singleton in Hout. split; [congruence|]. by left.
  - right. eexists rq, _. split; [done|]. split; [by apply Hw|]. by repeat split.
Qed.

(** ** No name is too long *)

Definition short_names (domain : list byte) (ts : list TunnelConfig) : Prop :=
  Zlen domain <= 180 /\ Forall (fun t => Zlen (lower_name t) <= 60) ts.

Lemma Zlen_take_le {A} n (l : list A) : Zlen (take n l) <= Z.of_nat n.
Proof. unfold Zlen. rewrite length_take. lia. Qed.

Lemma sanitizeLabel_length s : Zlen (sanitizeLabel s) <= 63.
Proof.
  unfold sanitizeLabel. set (res := trim_byte _ _). case_bool_decide; [by vm_compute|].
  destruct (Z.ltb_spec 63 (Zlen res)); [apply (Zlen_take_le 63)|done].
Qed.

Lemma foldr_try (P : list byte * list byte -> Prop) (qName : list byte) ds last x :
  (forall y, last = Some y -> P y) -> (forall d pre, d ∈ ds -> P (pre, d)) ->
  foldr (fun d rest => if bool_decide (d = []) then rest
         else if bool_decide (qName = d) then Some ([], d)
         else if has_suffix qName (dot :: d) then Some (trim_suffix qName (dot :: d), d) else rest) last ds
    = Some x -> P x.
Proof.
  intros Hl. induction ds as [|d ds IH]; intros Hd; simpl; [auto|].
  destruct (bool_decide (d = [])); [apply IH; intros; apply Hd; by right|].
  destruct (bool_decide (qName = d)); [intros [= <-]; apply Hd; by left|].
  destruct (has_suffix _ _); [intros [= <-]; apply Hd; by left|]. apply IH. intros. apply Hd. by right.
Qed.

Lemma matched_short qName domain prefix dom :
  Zlen domain <= 180 -> matchDomainPrefix qName domain = Some (prefix, dom) -> Zlen dom <= 180.
Proof.
  intros Hd H. apply (foldr_try (fun x => Zlen x.2 <= 180)) in H; [done| |].
  - intros [p d]. case_bool_decide; [done|]. by intros [= <- <-].
  - intros d pre Hin. simpl. rewrite !elem_of_cons in Hin.
    destruct Hin as [->|[->|[->|[->|Hin]]]]; [done|by vm_compute..|by apply not_elem_of_nil in Hin].
Qed.

Lemma allowed_map_in ts k t : allowed_map ts !! k = Some t -> t ∈ ts /\ k = lower_name t.
Proof.
  unfold allowed_map. induction ts as [|x ts IH] using rev_ind; simpl; [done|].
  rewrite foldl_app. simpl. intros [[<- <-]|[_ H]]%lookup_insert_Some.
  - split; [|done]. apply elem_of_app. right. by left.
  - destruct (IH H). split; [|done]. apply elem_of_app. by left.
Qed.

Lemma Zlen_nil {A} : Zlen (@nil A) = 0.
Proof. done. Qed.

(** Lengths of names put together from parts of known length. *)
Lemma Zlen_b s : Zlen (b s) = str_len s.
Proof. done. Qed.

Ltac lengths :=
  rewrite ?Zlen_app, ?Zlen_cons, ?Zlen_nil, ?Zlen_b;
  repeat match goal with |- context [str_len ?s] =>
    let n := eval vm_compute in (str_len s) in change (str_len s) with n end.

Lemma NewName_some s : Zlen s <= 255 -> exists n, NewName s = Some n.
Proof. intros H. exists s. by apply NewName_short. Qed.

(** Looks a name up that is short enough. *)
Ltac name_short :=
  match goal with |- context [NewName ?s] =>
    let n := fresh "n" in let E := fresh "E" in
    destruct (NewName_some s) as [n E]; [lengths; lia|]; rewrite E; cbn [mbind option_bind] end.

Lemma soa_some n dom : Zlen dom <= 180 -> is_Some (dnsSOARecord n dom).
Proof.
  intros Hd. unfold dnsSOARecord.
  name_short. name_short. by eexists.
Qed.

Lemma discovery_srv_some q ip dom ts :
  Zlen dom <= 180 -> Forall (fun t => Zlen (lower_name t) <= 60) ts -> is_Some (discovery_srv q ip dom ts).
Proof.
  intros Hd. induction 1 as [|t ts Ht _ [r IH]]; [by eexists|]. cbn [discovery_srv discovery_ptr]. name_short. rewrite IH. by eexists.
Qed.

Lemma discovery_ptr_some q dom ts :
  Zlen dom <= 180 -> Forall (fun t => Zlen (lower_name t) <= 60) ts -> is_Some (discovery_ptr q dom ts).
Proof.
  intros Hd. induction 1 as [|t ts Ht _ [r IH]]; [by eexists|]. cbn [discovery_srv discovery_ptr]. name_short. rewrite IH. by eexists.
Qed.

Lemma ptr_answer_some q n : Zlen n <= 255 -> is_Some (ptr_answer q n).
Proof. intros H. unfold ptr_answer. name_short. by eexists. Qed.

(** A branch of [resolveDNSQuestion]: tests, then the record that is named. *)
Ltac some_reply :=
  repeat match goal with |- context [if ?c then _ else _] => destruct c end; try by eexists.

Lemma resolve_some q ip principal domain ts :
  short_names domain ts -> is_Some (resolveDNSQuestion q ip principal domain ts (allowed_map ts)).
Proof.
  intros [Hd Hts]. unfold resolveDNSQuestion. pose proof (sanitizeLabel_length (b (pr_Identity principal))) as Hid.
  destruct (is_reverse_zone _).
  { unfold resolve_reverse. some_reply; apply ptr_answer_some; lengths; lia. }
  destruct (matchDomainPrefix _ _) as [[prefix dom]|] eqn:Em; [|by eexists].
  pose proof (matched_short _ _ _ _ Hd Em) as Hdom. destruct (soa_some (q_Name q) dom Hdom) as [soa Hsoa].
  destruct (bool_decide _).
  { unfold resolve_gateway. rewrite Hsoa. some_reply. name_short. by eexists. }
  destruct (bool_decide _).
  { unfold resolve_discovery. rewrite Hsoa.
    some_reply; (by apply discovery_srv_some) || (by apply discovery_ptr_some). }
  assert (Hall : forall k t, allowed_map ts !! k = Some t -> Zlen k <= 60).
  { intros k t [Hin ->]%allowed_map_in. rewrite Forall_forall in Hts. by apply Hts. }
  destruct (has_prefix _ _).
  { unfold resolve_service. destruct (allowed_map ts !! _) as [t|] eqn:E; [|by eexists].
    apply Hall in E. destruct ((q_Type q =? TypeSRV) || (q_Type q =? typeANY)); [|some_reply].
    name_short. by eexists. }
  destruct (allowed_map ts !! prefix) as [t|]; [|by eexists].
  unfold resolve_tunnel. rewrite Hsoa. some_reply. name_short. by eexists.
Qed.

Lemma resolve_all_some qs ip principal domain ts m :
  short_names domain ts -> is_Some (resolve_all qs ip principal domain ts (allowed_map ts) m).
Proof.
  intros Hs. revert m. induction qs as [|q qs IH]; intros m; [by eexists|]. simpl.
  destruct (resolve_some q ip principal domain ts Hs) as [r ->]. apply IH.
Qed.

(** C34: no packet crashes the server while its names fit: with a domain of at
    most 180 bytes and lower-cased names of at most 60 bytes for the tunnels
    granted to the peer, no DNS packet makes it panic, whatever it asks. *)
Theorem dns_never_panics who serverIP cfg tunnels slot fwd req
    (Hshort : forall p, who = Some p -> short_names (EffectiveDomain cfg) (allowedTunnels p tunnels)) :
  Panic ∉ handleDNS who serverIP cfg tunnels slot fwd req.
Proof.
  unfold handleDNS. destruct (Unpack req) as [m|]; [|apply not_elem_of_nil].
  assert (Hno : forall x, Panic ∉ write_response x) by (intros x [out Heq]%write_response_answers; done).
  destruct who as [p|]; [|apply Hno]. specialize (Hshort p eq_refl).
  destruct (resolve_all_some (m_Questions m) serverIP p (EffectiveDomain cfg)
    (allowedTunnels p tunnels) (empty_reply m) Hshort) as [m' ->].
  destruct (_ && _); [|apply Hno]. destruct slot; [|apply Hno].
  intros [|H]%elem_of_cons; [done|]. destruct fwd; [by apply list_elem_of_singleton in H|by apply Hno in H].
Qed.

(** ** Labels made of identities *)

Definition label_char (x : byte) : Prop :=
  (97 <= byte_val x <= 122 \/ 48 <= byte_val x <= 57) \/ x = dash.

Lemma label_byte_char x y : y ∈ label_byte x -> label_char y.
Proof.
  unfold label_byte. destruct (_ || _ || _) eqn:E.
  - intros ->%list_elem_of_singleton. apply orb_true_iff in E as [E|E]; [left|right].
    + apply orb_true_iff in E as [E|E]; bool_to_prop; lia.
    + by apply bool_decide_eq_true in E.
  - destruct (bool_decide (x = x40) || bool_decide (x = dot) || bool_decide (x = x5f)).
    + intros ->%list_elem_of_singleton. by right.
    + by intros ?%not_elem_of_nil.
Qed.

Lemma trim_left_byte_spec c l :
  exists k, l = replicate k c ++ trim_left_byte c l
    /\ match trim_left_byte c l with [] => True | x :: _ => x <> c end.
Proof.
  induction l as [|x l (k & Hk & Hh)]; [by exists 0%nat|]. simpl. case_bool_decide as Hx.
  - exists (S k). simpl. split; [congruence|done].
  - by exists 0%nat.
Qed.

(** Trimming on the right keeps the first byte. *)
Lemma trim_byte_spec c l :
  trim_byte c l `sublist_of` l /\ match trim_byte c l with [] => True | x :: _ => x <> c end.
Proof.
  unfold trim_byte. destruct (trim_left_byte_spec c l) as (k & Hl & Hh).
  set (l1 := trim_left_byte c l) in *.
  destruct (trim_left_byte_spec c (reverse l1)) as (k' & Hl' & _).
  set (l2 := trim_left_byte c (reverse l1)) in *.
  apply (f_equal reverse) in Hl'. rewrite reverse_involutive, reverse_app, reverse_replicate in Hl'.
  split.
  - rewrite Hl, Hl'. apply sublist_inserts_l, sublist_inserts_r. done.
  - destruct (reverse l2) as [|x r]; [done|]. by rewrite Hl' in Hh.
Qed.

(** what stands for an identity in a reverse answer is a host label: one
    to sixty-three bytes, letters, digits and hyphens only, not starting
    with a hyphen, for every identity string. *)
Theorem sanitizeLabel_valid (s : list byte) :
  1 <= Zlen (sanitizeLabel s) <= 63 /\ Forall label_char (sanitizeLabel s)
  /\ head (sanitizeLabel s) <> Some dash.
Proof.
  pose proof (sanitizeLabel_length s) as Hlen. unfold sanitizeLabel in *.
  set (chars := lower (trim_space s) ≫= label_byte) in *.
  assert (Hc : Forall label_char chars).
  { unfold chars. apply Forall_forall. intros y (x & Hy & _)%list_elem_of_bind. by eapply label_byte_char. }
  destruct (trim_byte_spec dash chars) as [Hsub Hhd].
  assert (Hr : Forall label_char (trim_byte dash chars)).
  { rewrite Forall_forall in Hc |- *. intros y Hy. apply Hc.
    by eapply elem_of_submseteq, sublist_submseteq. }
  destruct (trim_byte dash chars) as [|x res]; simpl in *.
  { split; [by vm_compute|]. split; [|done]. change (b "client") with [x63; x6c; x69; x65; x6e; x74].
    repeat (apply Forall_cons; split; [left; left; vm_compute; split; discriminate|]). constructor. }
  destruct (63 <? Zlen (x :: res)).
  - split; [split; [unfold Zlen; simpl; lia|done]|].
    split; [|simpl; congruence]. by apply (Forall_take _ 63 (x :: res)).
  - split; [split; [unfold Zlen; simpl; lia|done]|]. split; [done|]. simpl. congruence.
Qed.

(** ** Reverse names *)

Lemma hex_digit_inj x y : 0 <= x < 16 -> 0 <= y < 16 -> hex_digit x = hex_digit y -> x = y.
Proof.
  intros Hx Hy H. apply (f_equal byte_val) in H. unfold hex_digit in H.
  destruct (Z.ltb_spec x 10), (Z.ltb_spec y 10); rewrite !byte_val_of in H; rewrite !Z.mod_small in H; lia.
Qed.

Lemma nibbles_inj x y l l' : nibbles x ++ l = nibbles y ++ l' -> x = y /\ l = l'.
Proof.
  unfold nibbles. simpl. intros [= H1 H2 H3]. split; [|done].
  pose proof (byte_val_range x). pose proof (byte_val_range y).
  rewrite !(Z.land_ones _ 4) in H1 by lia. rewrite !Z.shiftr_div_pow2 in H2 by lia.
  change (2 ^ 4) with 16 in *.
  apply hex_digit_inj in H1; [|apply Z.mod_pos_bound; lia..].
  apply hex_digit_inj in H2; [|split; [apply Z.div_pos|apply Z.div_lt_upper_bound]; lia..].
  apply byte_val_inj. rewrite (Z.div_mod (byte_val x) 16), (Z.div_mod (byte_val y) 16) by lia. lia.
Qed.

(** Two blocks put before the same kind of rest, one after the other. *)
Lemma blocks_inj {A} (f : A -> list byte) (tl : list byte) l l' :
  (forall x y r r', f x ++ r = f y ++ r' -> x = y /\ r = r') ->
  length l = length l' -> (l ≫= f) ++ tl = (l' ≫= f) ++ tl -> l = l'.
Proof.
  intros Hf. revert l'. induction l as [|x l IH]; intros [|y l'] Hlen; try done.
  simpl. rewrite <-!app_assoc. intros [-> H]%Hf. f_equal. apply IH; [by injection Hlen|done].
Qed.

(** The decimal form of a byte ends before the first dot. *)
Definition octet (x : byte) : list byte := itoa (byte_val x) ++ [dot].

Definition all_bytes : list byte := byte_of <$> (Z.of_nat <$> seq 0 256).

Lemma in_all_bytes x : x ∈ all_bytes.
Proof.
  unfold all_bytes. apply list_elem_of_fmap. exists (byte_val x). split; [by rewrite byte_of_val|].
  apply list_elem_of_fmap. pose proof (byte_val_range x). exists (Z.to_nat (byte_val x)). split; [lia|].
  apply elem_of_seq. lia.
Qed.

Lemma itoa_bytes x :
  forallb (fun c => negb (bool_decide (c = dot))) (itoa (byte_val x)) = true.
Proof.
  assert (H : forallb (fun x => forallb (fun c => negb (bool_decide (c = dot))) (itoa (byte_val x))) all_bytes = true)
    by (vm_compute; reflexivity).
  rewrite forallb_forall in H. apply H. apply list_elem_of_In, in_all_bytes.
Qed.

Lemma dot_split (p q r r' : list byte) :
  dot ∉ p -> dot ∉ q -> p ++ dot :: r = q ++ dot :: r' -> p = q /\ r = r'.
Proof.
  revert q. induction p as [|x p IH]; intros [|y q] Hp Hq; simpl; intros H.
  - by injection H.
  - injection H as <- _. destruct Hq. by left.
  - injection H as -> _. destruct Hp. by left.
  - injection H as -> H. destruct (IH q) as [-> ->]; try done.
    + intros Hin. apply Hp. by right.
    + intros Hin. apply Hq. by right.
Qed.

Lemma no_dot x : dot ∉ itoa (byte_val x).
Proof.
  intros Hin%list_elem_of_In. pose proof (itoa_bytes x) as H. rewrite forallb_forall in H.
  specialize (H _ Hin). by rewrite bool_decide_true in H.
Qed.

Lemma octet_inj x y r r' : octet x ++ r = octet y ++ r' -> x = y /\ r = r'.
Proof.
  unfold octet. rewrite <-!app_assoc. simpl. intros H.
  apply dot_split in H as [H ->]; [|apply no_dot..]. split; [|done].
  apply byte_val_inj. unfold itoa in H. apply bytes_of_inj in H. by apply (inj pretty).
Qed.

Lemma put_be_inj n a a' :
  0 <= a < 256 ^ Z.of_nat n -> 0 <= a' < 256 ^ Z.of_nat n -> put_be n a = put_be n a' -> a = a'.
Proof. intros Ha Ha' H. by rewrite <-(be_val_put n a), H, be_val_put. Qed.

(** An address without its zone. *)
Definition WithoutZone (x : Addr) : Addr := match x with Addr6 a _ => Addr6 a "" | _ => x end.

(** a reverse name stands for one address: two valid addresses with the
    same [in-addr.arpa] or [ip6.arpa] name are equal up to the zone, so the
    server's own name and a peer's identity are given for that address only. *)
Theorem reverseARPAName_injective x y
    (Hx : addr_wf x = true) (Hy : addr_wf y = true) (Hvx : addr_IsValid x = true) (Hvy : addr_IsValid y = true)
    (Heq : reverseARPAName x = reverseARPAName y) : WithoutZone x = WithoutZone y.
Proof.
  assert (Hlast : forall a z a', reverseARPAName (Addr6 a z) <> reverseARPAName (Addr4 a')).
  { intros a z a' H. apply (f_equal reverse) in H. unfold reverseARPAName in H.
    rewrite !reverse_app in H. discriminate H. }
  destruct x as [|a|a z], y as [|a'|a' z']; try done.
  - unfold addr_wf in *. bool_to_prop. unfold reverseARPAName in Heq.
    apply (blocks_inj octet) in Heq; [|apply octet_inj|by rewrite !length_reverse; unfold As4, As16; rewrite !length_put_be].
    apply (inj reverse) in Heq. apply put_be_inj in Heq; [by subst|change (256 ^ Z.of_nat 4) with (2 ^ 32); lia..].
  - symmetry in Heq. by apply Hlast in Heq.
  - by apply Hlast in Heq.
  - unfold addr_wf in *. bool_to_prop. unfold reverseARPAName in Heq.
    apply (blocks_inj nibbles) in Heq; [|apply nibbles_inj|by rewrite !length_reverse; unfold As4, As16; rewrite !length_put_be].
    apply (inj reverse) in Heq. apply put_be_inj in Heq; [by subst|change (256 ^ Z.of_nat 16) with (2 ^ 128); lia..].
Qed.
End dns.

(** ** Packets at the server *)
Section packets.
Context {codec : DnsCodec} {keys : KeyOps} {text : AddrText} (unicode_lower : list byte -> list byte).

(** The host part of a sender's address. *)
Definition clientHost (from : string) : string :=
  match SplitHostPort from with Some (h, _) => h | None => from end.

(** [forwardDNS] with what each upstream answers to the query over UDP and,
    when that answer is truncated, over TCP. *)
Definition dnsResponseMatches (raw : list byte) (id : Z) : bool :=
  match Unpack raw with Some m => m_Response m && (m_ID m =? id) | None => false end.

Definition truncated (raw : list byte) : bool := match Unpack raw with Some m => m_Truncated m | None => false end.

Fixpoint forwardDNS (udp tcp : string -> option (list byte)) (id : Z) (upstreams : list string) : option (list byte) :=
  match upstreams with
  | [] => None
  | u :: us =>
      match match udp u with
            | Some out => if dnsResponseMatches out id then if truncated out then tcp u else Some out else None
            | None => None
            end with
      | Some out => if dnsResponseMatches out id then Some out else forwardDNS udp tcp id us
      | None => forwardDNS udp tcp id us
      end
  end.

Definition handle_packet (e : env) (s : Server) (d : dataPlane) (cfg : DNSConfig) (slot : bool)
    (udp tcp : string -> option (list byte)) (from : string) (req : list byte) : list effect :=
  let fwd := rq ← Unpack req; forwardDNS udp tcp (m_ID rq) (fw_Upstreams (dns_Forwarding cfg)) in
  handleDNS unicode_lower (principalForIP e (clientHost from) s) (serverIP d) cfg
    (cf_Tunnels (config s)) slot fwd req.

(** C35: DNS tells a peer nothing of tunnels it was not granted: two servers that
    know the same sessions and native peers, and in whose configurations the
    tunnels with a name granted to the sender are the same, answer each of its
    packets alike, whatever other tunnels they serve and however those are
    described. *)
Theorem dns_reveals_only_granted e s s' d cfg slot udp tcp from req
    (Hsess : sessions s' = sessions s)
    (Hpeers : cf_NativePeers (config s') = cf_NativePeers (config s))
    (Hgranted : forall p, principalForIP e (clientHost from) s = Some p ->
       filter (fun t => tc_Name t ∈ pr_Tunnels p) (cf_Tunnels (config s'))
       = filter (fun t => tc_Name t ∈ pr_Tunnels p) (cf_Tunnels (config s))) :
  handle_packet e s' d cfg slot udp tcp from req = handle_packet e s d cfg slot udp tcp from req.
Proof.
  unfold handle_packet. assert (Hp : principalForIP e (clientHost from) s' = principalForIP e (clientHost from) s)
    by (unfold principalForIP; by rewrite Hsess, Hpeers).
  rewrite Hp. destruct (principalForIP e (clientHost from) s) as [p|]; [|done].
  unfold handleDNS, allowedTunnels. by rewrite (Hgranted p eq_refl).
Qed.
End packets.

(** ** One query *)

(** A codec that knows one message. *)
Definition one_message (m : Message) : DnsCodec.
Proof.
  refine {| Unpack := fun _ => Some m; Pack := fun _ => Some [];
            NewName := fun s => if Zlen s <=? 255 then Some s else None |}.
  - intros s H. by destruct (Z.leb_spec (Zlen s) 255); [|lia].
  - intros s n. destruct (Zlen s <=? 255); congruence.
Defined.

Definition ask_for (name : string) (t : Z) : Message :=
  mkMessage 7 false 0 false false true false 0 [mkQuestion (bytes_of name) t ClassINET] [] [].

Definition dns_peer : DataPlanePrincipal := mkPrincipal "ssh" "Alice@Example" (Addr4 1681915906) {["web"%string]} "".
Definition dns_cfg (fwd : bool) : DNSConfig := mkDNS "" (mkForwarding fwd ["9.9.9.9:53"%string]).
Definition dns_tunnel (name : string) : TunnelConfig :=
  mkTunnel name "10.0.0.1:80" "" 80 "tcp" 0 0 "" [] "" "" "".
Definition same (l : list byte) : list byte := l.

Lemma dns_local_names_stay_witness :
  Upstream [] ["9.9.9.9:53"%string]
    ∈ handleDNS (codec := one_message (ask_for "example.org." TypeA)) same (Some dns_peer) (Addr4 1681915905)
        (dns_cfg true) [] true None []
  /\ external (question_name same (mkQuestion (bytes_of "example.org.") TypeA ClassINET)) (EffectiveDomain same (dns_cfg true)).
Proof.
  assert (H : Upstream [] ["9.9.9.9:53"%string]
    ∈ handleDNS (codec := one_message (ask_for "example.org." TypeA)) same (Some dns_peer) (Addr4 1681915905)
        (dns_cfg true) [] true None []) by (vm_compute; left).
  split; [exact H|].
  destruct (@dns_local_names_stay (one_message (ask_for "example.org." TypeA)) same (Some dns_peer)
    (Addr4 1681915905) (dns_cfg true) [] true None [] [] ["9.9.9.9:53"%string] H) as (_ & _ & _ & _ & _ & m & Hm & _ & Hq).
  apply Hq. injection Hm as <-. left.
Defined.

Lemma dns_answer_typed_witness :
  exists rq m, @Unpack (one_message (ask_for "web.ntwire." TypeA)) [] = Some rq
    /\ @Pack (one_message (ask_for "web.ntwire." TypeA)) m = Some [] /\ m_ID m = m_ID rq
    /\ Forall (record_ok (Addr4 1681915905)) (m_Answers m ++ m_Additionals m).
Proof.
  destruct (@dns_answer_typed (one_message (ask_for "web.ntwire." TypeA)) same (Some dns_peer)
    (Addr4 1681915905) (dns_cfg false) [dns_tunnel "web"] true None [] []) as [[H _]|H].
  - vm_compute. left.
  - discriminate H.
  - destruct H as (rq & m & H1 & H2 & H3 & _ & _ & H4 & _). by exists rq, m.
Defined.

Lemma dns_never_panics_witness :
  Panic ∉ handleDNS (codec := one_message (ask_for "_ntwire._tcp.ntwire." TypeSRV)) same (Some dns_peer)
    (Addr4 1681915905) (dns_cfg false) [dns_tunnel "web"] true None [].
Proof.
  apply dns_never_panics. intros p [= <-]. split; [vm_compute; discriminate|].
  vm_compute. repeat constructor. discriminate.
Defined.

(** A tunnel name of 250 letters, which the configuration allows, ends the
    process of a server one of whose peers asks for its services. *)
Example dns_long_name_panics :
  let long := str_of (replicate 250 x61) in
  handleDNS (codec := one_message (ask_for "_ntwire._tcp.ntwire." TypeSRV)) same
    (Some (mkPrincipal "ssh" "a" (Addr4 1681915906) {[long]} "")) (Addr4 1681915905) (dns_cfg false)
    [dns_tunnel long] true None [] = [Panic].
Proof. vm_compute. reflexivity. Qed.

Lemma reverseARPAName_injective_witness :
  str_of (reverseARPAName (Addr4 1681915905)) = "1.0.64.100.in-addr.arpa"%string
  /\ WithoutZone (Addr6 1 "eth0") = WithoutZone (Addr6 1 "").
Proof.
  split; [vm_compute; reflexivity|]. apply reverseARPAName_injective; vm_compute; reflexivity.
Defined.

Definition with_tunnels (ts : list TunnelConfig) (c : Config) : Config :=
  mkServerConfig (cf_MaxSessionsPerKey c) (cf_SessionTTL c) ts (cf_NativeEnabled c) (cf_NativePeers c)
    (cf_TunnelCIDR c) (cf_Issuers c) (cf_WebhookURL c) (cf_Exec c) (cf_MultipathEnabled c)
    (cf_PortalEnabled c) (cf_WebUIToken c) (cf_ListenName c).

(** The native peer is granted "web" only: with and without "ssh" it hears
    the same. *)
Lemma dns_reveals_only_granted_witness :
  let c := toy_config ["alice"%string] in
  let d := mkData (v4 100 64 0 1) (v4 100 64 0 2) ∅ "" false in
  let from := toy_String (v4 100 64 0 6) in
  let ask s := handle_packet (codec := one_message (ask_for "ntwire." TypeTXT)) same (toy_env 0 "" "") s d
                 (dns_cfg false) true (fun _ => None) (fun _ => None) from [] in
  is_Some (principalForIP (toy_env 0 "" "") (clientHost from) (New c false))
  /\ ask (New (with_tunnels [toy_tunnel "web" ["alice"%string]] c) false) = ask (New c false).
Proof.
  cbv zeta. split; [vm_compute; by eexists|].
  apply dns_reveals_only_granted; [reflexivity|reflexivity|]. intros p.
  set (x := principalForIP _ _ _). vm_compute in x. intros [= <-]. vm_compute. reflexivity.
Defined.
