(* ===== verification/RelayPublic.v ===== *)
(** [pkg/relay/public.go]: the relay's public listener.  It peeks the server
    name of a TLS connection, opens a connection to the tenant or discovered
    service it names, and passes the bytes through.

    [OpenSNI]'s steps are those of [RegistrySteps]; here its outcome is an
    argument, as are the accept results and whether a write succeeds.  A
    connection is the list of bytes it delivers before its deadline. *)
From S2P Require Import Prelude Bytes AuthLimit Sni Protocol Registry.

Definition millisecond : Z := 1000000.

(** ** Accepting *)
Inductive accepted (conn : Type) : Type :=
  | Conn (c : conn)
  | AcceptError
  | ListenerClosed.
Arguments Conn {_} _.
Arguments AcceptError {_}.
Arguments ListenerClosed {_}.

Inductive serving (conn : Type) : Type :=
  | Handle (c : conn)
  | Sleep (d : Z).
Arguments Handle {_} _.
Arguments Sleep {_} _.

Definition next_delay (delay : Z) : Z :=
  let d := if delay =? 0 then 5 * millisecond else i64 (delay * 2) in
  if second <? d then second else d.

(** [serve] and [serveTenant]: what the loop does with a run of accepts. *)
Fixpoint serve {conn} (delay : Z) (l : list (accepted conn)) : list (serving conn) :=
  match l with
  | [] | ListenerClosed :: _ => []
  | AcceptError :: l => let d := next_delay delay in Sleep d :: serve d l
  | Conn c :: l => Handle c :: serve 0 l
  end.

(** The accepts before the listener is closed. *)
Fixpoint before_close {conn} (l : list (accepted conn)) : list (accepted conn) :=
  match l with
  | [] | ListenerClosed :: _ => []
  | x :: l => x :: before_close l
  end.

Definition conns_of {conn} (l : list (accepted conn)) : list conn :=
  omap (fun x => match x with Conn c => Some c | _ => None end) l.

Definition handled {conn} (l : list (serving conn)) : list conn :=
  omap (fun x => match x with Handle c => Some c | _ => None end) l.

(** The delay after the [n]th failure in a row. *)
Definition backoff (n : nat) : Z := Z.min second (5 * millisecond * 2 ^ Z.of_nat n).

Lemma next_delay_backoff n : next_delay (backoff n) = backoff (S n).
Proof.
  unfold next_delay, backoff. rewrite Nat2Z.inj_succ, Z.pow_succ_r by lia.
  assert (0 < 2 ^ Z.of_nat n) by (apply Z.pow_pos_nonneg; lia). unfold second, millisecond.
  destruct (Z.eqb_spec (Z.min 1000000000 (5 * 1000000 * 2 ^ Z.of_nat n)) 0) as [E|E]; [lia|].
  rewrite i64_id by (unfold in_int64, int64_min, int64_max; lia).
  destruct (Z.ltb_spec 1000000000 (Z.min 1000000000 (5 * 1000000 * 2 ^ Z.of_nat n) * 2)); lia.
Qed.

(** the accept loop never gives up: until the listener is closed every
    accepted connection is handled, in order, whatever errors come between;
    and the [n]th error in a row waits 5 ms doubled [n] times, at most a
    second, starting over after an accept. *)
Theorem serve_backoff {conn} (l : list (accepted conn)) :
  handled (serve 0 l) = conns_of (before_close l)
  /\ (forall n rest, l = replicate n AcceptError ++ rest ->
        take n (serve 0 l) = Sleep ∘ backoff <$> seq 0 n)
  /\ (forall d, Sleep d ∈ serve 0 l -> 5 * millisecond <= d <= second).
Proof.
  assert (Hok : forall d, d = 0 \/ 5 * millisecond <= d <= second ->
      5 * millisecond <= next_delay d <= second).
  { unfold next_delay, second, millisecond. intros d Hd.
    destruct (Z.eqb_spec d 0); [simpl; lia|].
    rewrite i64_id by (unfold in_int64, int64_min, int64_max; lia).
    destruct (Z.ltb_spec 1000000000 (d * 2)); lia. }
  split; [|split].
  - generalize 0. induction l as [|[c| |] l IH]; intros d; simpl; [done| |apply IH|done].
    by rewrite IH.
  - intros n rest ->. destruct n as [|n]; [done|]. simpl. change (next_delay 0) with (backoff 0).
    f_equal. generalize 0%nat. induction n as [|n IH]; intros k; [done|]. simpl.
    rewrite next_delay_backoff. f_equal. apply IH.
  - enough (Haux : forall d0, d0 = 0 \/ 5 * millisecond <= d0 <= second ->
      forall d, Sleep d ∈ serve d0 l -> 5 * millisecond <= d <= second) by (apply Haux; by left).
    clear -Hok. induction l as [|[c| |] l IH]; intros d0 Hd0 d; simpl;
      [by intros ?%not_elem_of_nil| | |by intros ?%not_elem_of_nil].
    + intros [|Hin]%elem_of_cons; [done|]. apply (IH 0); [by left|done].
    + intros [[= ->]|Hin]%elem_of_cons; [by apply Hok|]. apply (IH (next_delay d0)); [|done]. right. by apply Hok.
Qed.

(** ** Which tenant a name stands for *)
Definition label_char (x : byte) : bool :=
  let z := byte_val x in
  ((97 <=? z) && (z <=? 122)) || ((48 <=? z) && (z <=? 57)) || bool_decide (x = x2d).

(** The loop over the runes: a byte of a longer rune is no label character. *)
Definition validLabel (s : list byte) : bool := forallb label_char s.

Definition resolveTenant (sni domain : list byte) : option (list byte) :=
  if bool_decide (sni = []) || bool_decide (domain = []) then None
  else
    let suffix := x2e :: domain in
    if negb (has_suffix sni suffix) then None
    else
      let label := trim_suffix sni suffix in
      if bool_decide (label = []) || negb (validLabel label) then None else Some label.

Lemma trim_suffix_app l p : trim_suffix (l ++ p) p = l.
Proof.
  unfold trim_suffix. rewrite reverse_app.
  assert (E : strip_prefix (reverse p) (reverse p ++ reverse l) = Some (reverse l)) by by apply strip_prefix_spec.
  by rewrite E, reverse_involutive.
Qed.

(** a server name stands for a tenant exactly when it is one label directly
    under the relay's domain: a name resolves to [label] if and only if it
    is [label.domain] with a non-empty label of lower-case letters, digits
    and hyphens; nested names, the bare domain and the empty name do not. *)
Theorem resolveTenant_spec (sni domain label : list byte) :
  resolveTenant sni domain = Some label <->
  domain <> [] /\ sni = label ++ x2e :: domain /\ label <> [] /\ Forall (fun x => label_char x = true) label.
Proof.
  unfold resolveTenant, validLabel. split.
  - destruct (bool_decide_reflect (sni = [])) as [|Hs]; [done|].
    destruct (bool_decide_reflect (domain = [])) as [|Hd]; [done|]. simpl.
    destruct (has_suffix sni (x2e :: domain)) eqn:E; [|done]. simpl.
    apply has_suffix_spec in E as [l ->]. rewrite trim_suffix_app.
    destruct (bool_decide_reflect (l = [])) as [|Hl]; [done|]. simpl.
    destruct (forallb label_char l) eqn:Ef; [|done]. intros [= <-].
    repeat split; try done. apply Forall_forall. intros x Hx. rewrite forallb_forall in Ef.
    apply Ef. by apply list_elem_of_In.
  - intros (Hd & -> & Hl & Hc). rewrite (bool_decide_false (domain = [])) by done.
    rewrite bool_decide_false by (by destruct label). simpl.
    assert (E : has_suffix (label ++ x2e :: domain) (x2e :: domain) = true)
      by (apply has_suffix_spec; by exists label).
    rewrite E, trim_suffix_app. simpl. rewrite bool_decide_false by done.
    assert (Ef : forallb label_char label = true).
    { apply forallb_forall. intros x Hx%list_elem_of_In. by rewrite Forall_forall in Hc; apply Hc. }
    by rewrite Ef.
Qed.

(** ** One connection *)
Section handle.
Context {ssh : SSH} (unicode_lower : list byte -> list byte).

Inductive effect : Type :=
  | EvOpen (name sni : string)
  | EvWrite (raw : list byte)
  | EvSplice (rest : list byte)
  | EvCloseBack
  | EvRelease (route : string)
  | EvCloseClient.

(** [opened]: the route [OpenSNI] reports; [None]: it fails. *)
Definition dispatch (name sni : string) (raw rest : list byte) (opened : option string)
    (write_ok : bool) : list effect :=
  EvOpen name sni ::
  match opened with
  | None => []
  | Some route =>
      EvWrite raw :: (if write_ok then [EvSplice rest] else []) ++ [EvCloseBack; EvRelease route]
  end.

(** What a connection meets: the limiter's clock and range order, the
    registry at the look-up, and the outcomes of the calls. *)
Record conn_env := {
  ce_order : gmap string SourceLimiter.sourceState -> list string;
  ce_now : Z;
  ce_registry : Registry;
  ce_opened : option string;
  ce_write : bool;
}.

Definition handle (e : conn_env) (domain : list byte) (host : string) (stream : list byte)
    (rate : SourceLimiter.t) : list effect * SourceLimiter.t :=
  let '(ok, rate) := SourceLimiter.Allow (ce_order e) (ce_now e) host rate in
  (match ok with
   | false => []
   | true =>
       match peekClientHello unicode_lower stream with
       | Err _ => []
       | Ok (sni, raw, rest) =>
           match resolveTenant sni domain, Lookup (str_of sni) (ce_registry e) with
           | None, None => []
           | name, _ => dispatch (str_of (default [] name)) (str_of sni) raw rest (ce_opened e) (ce_write e)
           end
       end
   end ++ [EvCloseClient], rate).

Definition handleTenant (e : conn_env) (tenant : string) (host : string) (stream : list byte)
    (rate : SourceLimiter.t) : list effect * SourceLimiter.t :=
  let '(ok, rate) := SourceLimiter.Allow (ce_order e) (ce_now e) host rate in
  (match ok with
   | false => []
   | true =>
       match peekClientHello unicode_lower stream with
       | Err _ => []
       | Ok (sni, raw, rest) => dispatch tenant (str_of sni) raw rest (ce_opened e) (ce_write e)
       end
   end ++ [EvCloseClient], rate).

Lemma dispatch_open name sni raw rest opened ok name' sni' :
  EvOpen name' sni' ∈ dispatch name sni raw rest opened ok -> name' = name /\ sni' = sni.
Proof.
  unfold dispatch. destruct opened, ok; simpl; rewrite !elem_of_cons; naive_solver set_solver.
Qed.

Definition is_open (x : effect) : bool := match x with EvOpen _ _ => true | _ => false end.
Definition is_release (x : effect) : bool := match x with EvRelease _ => true | _ => false end.
Definition count (f : effect -> bool) (l : list effect) : nat := length (filter (fun x => f x = true) l).

(** The connection's own outcome: what it opened and how the bytes went. *)
Lemma handle_cases e domain host stream rate :
  let evs := (handle e domain host stream rate).1 in
  evs = [EvCloseClient] \/
  exists sni raw rest name,
    (SourceLimiter.Allow (ce_order e) (ce_now e) host rate).1 = true
    /\ peekClientHello unicode_lower stream = Ok (sni, raw, rest)
    /\ evs = dispatch name (str_of sni) raw rest (ce_opened e) (ce_write e) ++ [EvCloseClient]
    /\ (resolveTenant sni domain = Some (bytes_of name)
        \/ resolveTenant sni domain = None /\ name = ""%string
           /\ Lookup (str_of sni) (ce_registry e) <> None).
Proof.
  unfold handle. destruct (SourceLimiter.Allow _ _ _ _) as [[] l]; simpl; [|by left].
  destruct (peekClientHello _ stream) as [[[sni raw] rest]|]; [|by left].
  destruct (resolveTenant sni domain) as [label|] eqn:Er.
  - right. exists sni, raw, rest, (str_of label). split; [done|]. split; [done|].
    destruct (Lookup _ _); (split; [done|]); left; by rewrite bytes_of_str_of.
  - destruct (Lookup (str_of sni) (ce_registry e)) as [ep|] eqn:El; [|by left].
    right. exists sni, raw, rest, ""%string. split; [done|]. split; [done|]. split; [done|]. right. split; [done|]. split; [done|]. by rewrite El.
Qed.

(** the relay is transparent and opens nothing unasked: a public connection
    makes it open at most one inner connection, only within the source's
    rate, only for the server name of the connection's own ClientHello, and
    only if that is a tenant's name under the domain or a discovered
    hostname; the inner connection receives exactly the client's bytes, the
    peeked ones first; it is released once, after it is closed, and the
    client's connection is closed in every case. *)
Theorem handle_transparent e domain host stream rate :
  let evs := (handle e domain host stream rate).1 in
  last evs = Some EvCloseClient
  /\ (count is_open evs <= 1)%nat
  /\ count is_release evs = match ce_opened e with Some _ => count is_open evs | None => 0%nat end
  /\ (forall name sni, EvOpen name sni ∈ evs ->
        (SourceLimiter.Allow (ce_order e) (ce_now e) host rate).1 = true
        /\ exists raw rest, peekClientHello unicode_lower stream = Ok (bytes_of sni, raw, rest)
        /\ (resolveTenant (bytes_of sni) domain = Some (bytes_of name)
            \/ name = ""%string /\ Lookup sni (ce_registry e) <> None))
  /\ (forall raw rest, EvWrite raw ∈ evs -> EvSplice rest ∈ evs -> raw ++ rest = stream)
  /\ (forall route, EvRelease route ∈ evs -> ce_opened e = Some route
        /\ exists pre, evs = pre ++ [EvCloseBack; EvRelease route; EvCloseClient]).
Proof.
  cbv zeta. destruct (handle_cases e domain host stream rate) as [->|(sni & raw & rest & name & Ha & Hp & -> & Hn)].
  { split; [done|]. split; [vm_compute; lia|]. split; [by destruct (ce_opened e)|].
    split; [by intros ? ? ?%list_elem_of_singleton|]. split; [by intros ? ? ?%list_elem_of_singleton|].
    by intros ? ?%list_elem_of_singleton. }
  assert (Hraw : stream = raw ++ rest).
  { apply peek_loop_consumed in Hp as (c & Hc & -> & _). by rewrite Hc. }
  split; [by rewrite last_snoc|].
  split; [unfold dispatch; destruct (ce_opened e), (ce_write e); vm_compute; lia|].
  split; [unfold dispatch; destruct (ce_opened e), (ce_write e); by vm_compute|].
  split; [|split].
  - intros name' sni' Hin. apply elem_of_app in Hin as [Hin|Hin]; [|by apply list_elem_of_singleton in Hin].
    apply dispatch_open in Hin as [-> ->]. split; [done|]. exists raw, rest. rewrite bytes_of_str_of.
    split; [done|]. destruct Hn as [|(_ & -> & ?)]; [by left|by right].
  - unfold dispatch. destruct (ce_opened e) as [r|], (ce_write e); simpl; intros raw' rest';
      rewrite !elem_of_cons; naive_solver set_solver.
  - unfold dispatch. destruct (ce_opened e) as [r|]; intros route; simpl.
    + intros Hin. assert (route = r) as -> by (destruct (ce_write e); simpl in Hin; set_solver).
      split; [done|]. destruct (ce_write e); simpl.
      * by exists [EvOpen name (str_of sni); EvWrite raw; EvSplice rest].
      * by exists [EvOpen name (str_of sni); EvWrite raw].
    + intros Hin. set_solver.
Qed.

(** a name never routes to somebody else's tenant: what [OpenSNI] decides
    for an opened connection is the tenant whose name under the domain the
    ClientHello carries, or the service discovered for exactly that
    hostname, whatever happened to the registry since the look-up. *)
Theorem public_routes e domain host stream rate name sni (r : Registry)
    (Hopen : EvOpen name sni ∈ (handle e domain host stream rate).1) :
  match opensni_route name sni r with
  | RouteTenant tenant => bytes_of sni = bytes_of tenant ++ x2e :: domain
  | RouteKubernetes ep => kubernetes r !! sni = Some ep
  | RouteUnknown => True
  end.
Proof.
  destruct (handle_cases e domain host stream rate) as [Heq|(sni' & raw & rest & name' & _ & _ & Heq & Hn)];
    rewrite Heq in Hopen; [by apply list_elem_of_singleton in Hopen|].
  apply elem_of_app in Hopen as [Hopen|Hopen]; [|by apply list_elem_of_singleton in Hopen].
  apply dispatch_open in Hopen as [-> ->].
  assert (Ht : name' <> ""%string -> bytes_of (str_of sni') = bytes_of name' ++ x2e :: domain).
  { intros Hne. rewrite bytes_of_str_of. destruct Hn as [(_ & Hn & _)%resolveTenant_spec|(_ & -> & _)]; done. }
  unfold opensni_route. destruct (String.eqb_spec name' "") as [->|Hne]; simpl.
  - by destruct (kubernetes r !! str_of sni').
  - destruct (match tenants r !! name' with Some _ => _ | None => _ end); [by apply Ht|].
    destruct (kubernetes r !! str_of sni'); [done|by apply Ht].
Qed.
End handle.

(** ** A hello for one tenant *)
Definition hello_stream : list byte := records_bytes (example_init ++ [example_last]) ++ [x17].

Definition hello_env : @conn_env toy_ssh :=
  {| ce_order := map_keys; ce_now := 0; ce_registry := @NewRegistry toy_ssh [] toy_lim;
     ce_opened := Some "a"%string; ce_write := true |}.

Lemma public_routes_witness :
  EvOpen "a" "a.example" ∈ (@handle toy_ssh id hello_env (bytes_of "example") "192.0.2.7" hello_stream
      (SourceLimiter.NewSourceLimiter 60 minute 0)).1
  /\ bytes_of "a.example" = bytes_of "a" ++ x2e :: bytes_of "example".
Proof.
  assert (H : EvOpen "a" "a.example" ∈ (@handle toy_ssh id hello_env (bytes_of "example") "192.0.2.7" hello_stream
      (SourceLimiter.NewSourceLimiter 60 minute 0)).1) by (vm_compute; left).
  split; [exact H|].
  apply (@public_routes toy_ssh id hello_env (bytes_of "example") "192.0.2.7" hello_stream
    (SourceLimiter.NewSourceLimiter 60 minute 0) "a" "a.example" (@NewRegistry toy_ssh [] toy_lim) H).
Defined.
