(* ===== verification/RelayAgent.v ===== *)
(** [pkg/server/relay.go]: how a server's relay agent matches the relay's
    allocation replies to the calls that wait for them.

    A step is one critical section of [pendingMu] or [wsMu], one operation on
    a channel, one message read or one network write.  Channels and the
    readers of successive control connections are numbered; request ids are
    16 random bytes, so a new one is unused.  [ch_sent] remembers that a
    channel has carried its one value. *)
From S2P Require Import Prelude Bytes Protocol.

Record RelayUDPAllocateResponse := mkReply {
  ua_RequestID : string;
  ua_Token : string;
  ua_ServerAddr : string;
  ua_Error : string;
  ua_Code : string;
}.

(** A channel with one buffer slot. *)
Record chan := mkChan {
  ch_request : string;
  ch_buf : option RelayUDPAllocateResponse;
  ch_closed : bool;
  ch_sent : bool;
}.

Inductive alloc_error : Type := NoError | Canceled | OtherError.

(** What a call of [AllocateUDPSession] returns. *)
Record outcome := mkOutcome { oc_token : string; oc_addr : string; oc_err : alloc_error }.

Definition unavailable : outcome := mkOutcome "" "" NoError.

Inductive phase : Type :=
  | HasConn
  | Registered (id : string) (ch : nat)
  | Written (id : string) (ch : nat)
  | Leaving (id : string) (o : outcome)
  | Done (id : option string) (o : outcome).

Record agent := mkAgent {
  ws : bool;
  pendingAllocs : gmap string nat;
  allocSuccess : Z;
  allocFailure : Z;
}.

(** [sends] are the channel sends readers are about to make, [closing] the
    channels [failPendingAllocs] still closes, [ids] and [replies] the
    request ids used and the replies read so far. *)
Record sys := mkSys {
  ag : agent;
  chans : gmap nat chan;
  calls : gmap nat phase;
  sends : gmap nat (nat * RelayUDPAllocateResponse);
  closing : list nat;
  ids : list string;
  replies : list RelayUDPAllocateResponse;
  panicked : bool;
}.

Definition start : sys := mkSys (mkAgent false ∅ 0 0) ∅ ∅ ∅ [] [] [] false.

(** The deferred count of [AllocateUDPSession]. *)
Definition count_outcome (o : outcome) (a : agent) : agent :=
  if negb (oc_token o =? "")%string && negb (oc_addr o =? "")%string
  then mkAgent (ws a) (pendingAllocs a) (u64 (allocSuccess a + 1)) (allocFailure a)
  else match oc_err o with
       | Canceled => a
       | _ => mkAgent (ws a) (pendingAllocs a) (allocSuccess a) (u64 (allocFailure a + 1))
       end.

Definition set_pending (m : gmap string nat) (a : agent) : agent :=
  mkAgent (ws a) m (allocSuccess a) (allocFailure a).

Definition reply_outcome (r : RelayUDPAllocateResponse) : outcome :=
  if negb (ua_Error r =? "")%string then unavailable
  else mkOutcome (ua_Token r) (ua_ServerAddr r) NoError.

Definition set_agent (a : agent) (s : sys) : sys :=
  mkSys a (chans s) (calls s) (sends s) (closing s) (ids s) (replies s) (panicked s).
Definition set_chan (c : nat) (x : chan) (s : sys) : sys :=
  mkSys (ag s) (<[c := x]> (chans s)) (calls s) (sends s) (closing s) (ids s) (replies s) (panicked s).
Definition set_call (t : nat) (ph : phase) (s : sys) : sys :=
  mkSys (ag s) (chans s) (<[t := ph]> (calls s)) (sends s) (closing s) (ids s) (replies s) (panicked s).
Definition set_sends (m : gmap nat (nat * RelayUDPAllocateResponse)) (s : sys) : sys :=
  mkSys (ag s) (chans s) (calls s) m (closing s) (ids s) (replies s) (panicked s).
Definition set_closing (l : list nat) (s : sys) : sys :=
  mkSys (ag s) (chans s) (calls s) (sends s) l (ids s) (replies s) (panicked s).
Definition use_id (id : string) (s : sys) : sys :=
  mkSys (ag s) (chans s) (calls s) (sends s) (closing s) (id :: ids s) (replies s) (panicked s).
Definition log_reply (r : RelayUDPAllocateResponse) (s : sys) : sys :=
  mkSys (ag s) (chans s) (calls s) (sends s) (closing s) (ids s) (r :: replies s) (panicked s).
Definition panic (s : sys) : sys :=
  mkSys (ag s) (chans s) (calls s) (sends s) (closing s) (ids s) (replies s) true.

(** The reader [r] of a control connection takes a reply's channel out of the
    map; a reply nobody waits for is dropped. *)
Definition take_reply (r : nat) (resp : RelayUDPAllocateResponse) (s : sys) : sys :=
  let s1 := log_reply resp
    (set_agent (set_pending (delete (ua_RequestID resp) (pendingAllocs (ag s))) (ag s)) s) in
  match pendingAllocs (ag s) !! ua_RequestID resp with
  | Some c => set_sends (<[r := (c, resp)]> (sends s)) s1
  | None => s1
  end.

Definition fail_pending (s : sys) : sys :=
  set_closing ((map_to_list (pendingAllocs (ag s))).*2 ++ closing s) (set_agent (set_pending ∅ (ag s)) s).

Inductive label : Type :=
  | LConn (up : bool)
  | LCall (t : nat)
  | LNoRandom (t : nat)
  | LRegister (t : nat) (id : string) (c : nat)
  | LWrite (t : nat) (ok : bool)
  | LReceive (t : nat)
  | LExpire (t : nat) (canceled : bool)
  | LLeave (t : nat)
  | LRead (r : nat) (resp : RelayUDPAllocateResponse)
  | LSend (r : nat)
  | LFail
  | LClose (i : nat).

Definition step (l : label) (s : sys) : option sys :=
  match l with
  | LConn up => Some (set_agent (mkAgent up (pendingAllocs (ag s)) (allocSuccess (ag s)) (allocFailure (ag s))) s)
  | LCall t =>
      match calls s !! t with
      | Some _ => None
      | None =>
          if ws (ag s) then Some (set_call t HasConn s)
          else Some (set_call t (Done None unavailable) (set_agent (count_outcome unavailable (ag s)) s))
      end
  | LNoRandom t =>
      match calls s !! t with
      | Some HasConn =>
          let o := mkOutcome "" "" OtherError in
          Some (set_call t (Done None o) (set_agent (count_outcome o (ag s)) s))
      | _ => None
      end
  | LRegister t id c =>
      match calls s !! t with
      | Some HasConn =>
          if bool_decide (id ∈ ids s) || bool_decide (is_Some (chans s !! c)) then None
          else Some (set_call t (Registered id c) (set_chan c (mkChan id None false false)
                 (use_id id (set_agent (set_pending (<[id := c]> (pendingAllocs (ag s))) (ag s)) s))))
      | _ => None
      end
  | LWrite t ok =>
      match calls s !! t with
      | Some (Registered id c) =>
          Some (set_call t (if ok then Written id c else Leaving id unavailable) s)
      | _ => None
      end
  (* a buffered value comes before the closing of its channel *)
  | LReceive t =>
      match calls s !! t with
      | Some (Written id c) =>
          match chans s !! c with
          | Some (mkChan rq (Some r) cl sent) =>
              Some (set_call t (Leaving id (reply_outcome r)) (set_chan c (mkChan rq None cl sent) s))
          | Some (mkChan _ None true _) => Some (set_call t (Leaving id unavailable) s)
          | _ => None
          end
      | _ => None
      end
  | LExpire t canceled =>
      match calls s !! t with
      | Some (Written id c) =>
          Some (set_call t (Leaving id (mkOutcome "" "" (if canceled then Canceled else OtherError))) s)
      | _ => None
      end
  | LLeave t =>
      match calls s !! t with
      | Some (Leaving id o) =>
          Some (set_call t (Done (Some id) o)
                  (set_agent (count_outcome o (set_pending (delete id (pendingAllocs (ag s))) (ag s))) s))
      | _ => None
      end
  (* [handleControlMessage] on an allocation reply *)
  | LRead r resp =>
      match sends s !! r with Some _ => None | None => Some (take_reply r resp s) end
  | LSend r =>
      match sends s !! r with
      | Some (c, resp) =>
          match chans s !! c with
          | Some (mkChan rq buf cl sent) =>
              if cl then Some (panic s)
              else match buf with
                   | Some _ => None
                   | None => Some (set_chan c (mkChan rq (Some resp) cl true) (set_sends (delete r (sends s)) s))
                   end
          | None => None
          end
      | None => None
      end
  (* [failPendingAllocs] *)
  | LFail => Some (fail_pending s)
  | LClose i =>
      match closing s !! i with
      | Some c =>
          match chans s !! c with
          | Some (mkChan rq buf cl sent) =>
              let s := set_closing (delete i (closing s)) s in
              Some (if cl then panic s else set_chan c (mkChan rq buf true sent) s)
          | None => None
          end
      | None => None
      end
  end.

Fixpoint run (ls : list label) (s : sys) : option sys :=
  match ls with
  | [] => Some s
  | l :: ls => match step l s with Some s' => run ls s' | None => None end
  end.

(** ** Who will use a channel *)
Definition is_chan (c : nat) (x : nat) : bool := bool_decide (x = c).
Definition sends_to (c : nat) (x : nat * RelayUDPAllocateResponse) : bool := bool_decide (x.1 = c).

Definition used (s : sys) (c : nat) : bool :=
  match chans s !! c with Some x => ch_closed x || ch_sent x | None => false end.

(** The map's entry for it, a reader about to send, a close to come, or a
    use that has been made. *)
Definition users (c : nat) (s : sys) : Z :=
  countZ (is_chan c) (pendingAllocs (ag s)) + countZ (sends_to c) (sends s) + occ c (closing s)
  + Z.b2z (used s c).

Definition request_of (ph : phase) : option (string * nat) :=
  match ph with Registered id c | Written id c => Some (id, c) | _ => None end.

(** The token and address an outcome carries come from this reply. *)
Definition answers (id : string) (o : outcome) (r : RelayUDPAllocateResponse) : Prop :=
  ua_RequestID r = id /\ ua_Error r = ""%string /\ ua_Token r = oc_token o /\ ua_ServerAddr r = oc_addr o.

Definition outcome_ok (s : sys) (id : option string) (o : outcome) : Prop :=
  oc_token o = ""%string /\ oc_addr o = ""%string
  \/ exists i r, id = Some i /\ r ∈ replies s /\ answers i o r.

Record inv (s : sys) : Prop := mkInv {
  iv_users : forall c, users c s <= 1;
  iv_pending : forall id c, pendingAllocs (ag s) !! id = Some c ->
    exists x, chans s !! c = Some x /\ ch_request x = id;
  iv_sends : forall r c resp, sends s !! r = Some (c, resp) ->
    exists x, chans s !! c = Some x /\ ch_request x = ua_RequestID resp /\ resp ∈ replies s;
  iv_closing : forall c, c ∈ closing s -> is_Some (chans s !! c);
  iv_buf : forall c x resp, chans s !! c = Some x -> ch_buf x = Some resp ->
    ch_sent x = true /\ ch_request x = ua_RequestID resp /\ resp ∈ replies s;
  iv_calls : forall t ph id c, calls s !! t = Some ph -> request_of ph = Some (id, c) ->
    exists x, chans s !! c = Some x /\ ch_request x = id;
  iv_leaving : forall t id o, calls s !! t = Some (Leaving id o) -> outcome_ok s (Some id) o;
  iv_done : forall t id o, calls s !! t = Some (Done id o) -> outcome_ok s id o;
  iv_panic : panicked s = false;
}.

Lemma outcome_ok_mono s s' id o :
  (forall r, r ∈ replies s -> r ∈ replies s') -> outcome_ok s id o -> outcome_ok s' id o.
Proof. intros Hr [H|(i & r & ? & ? & ?)]; [by left|]. right. exists i, r. auto. Qed.

Lemma unavailable_ok s id : outcome_ok s id unavailable.
Proof. by left. Qed.

(** Steps of one call, which leave channels and their users alone. *)
Lemma inv_calls s t ph a :
  inv s -> pendingAllocs a = pendingAllocs (ag s) \/ (exists id, pendingAllocs a = delete id (pendingAllocs (ag s))) ->
  (forall id c, request_of ph = Some (id, c) -> exists x, chans s !! c = Some x /\ ch_request x = id) ->
  (forall id o, ph = Leaving id o -> outcome_ok s (Some id) o) ->
  (forall id o, ph = Done id o -> outcome_ok s id o) ->
  inv (set_call t ph (set_agent a s)).
Proof.
  intros [] Ha Hrq Hlv Hdn.
  assert (Hle : forall id c, pendingAllocs a !! id = Some c -> pendingAllocs (ag s) !! id = Some c).
  { destruct Ha as [->|[id ->]]; [done|]. by intros id' c [_ H]%lookup_delete_Some. }
  constructor; cbn [ag chans calls sends closing replies panicked set_call set_agent]; try done.
  - intros c. unfold users, used. cbn [ag chans sends closing set_call set_agent].
    specialize (iv_users0 c). unfold users, used in iv_users0.
    assert (countZ (is_chan c) (pendingAllocs a) <= countZ (is_chan c) (pendingAllocs (ag s))).
    { apply countZ_le. intros k v H. by apply Hle in H. }
    lia.
  - intros id c H. apply iv_pending0. by apply Hle.
  - intros t' ph' id c [[<- <-]|[_ H]]%lookup_insert_Some; eauto.
  - intros t' id o [[_ H]|[_ H]]%lookup_insert_Some; [by apply Hlv|eauto].
  - intros t' id o [[_ H]|[_ H]]%lookup_insert_Some; [by apply Hdn|eauto].
Qed.

Lemma inv_register s t id c :
  inv s -> chans s !! c = None ->
  inv (set_call t (Registered id c) (set_chan c (mkChan id None false false)
        (use_id id (set_agent (set_pending (<[id := c]> (pendingAllocs (ag s))) (ag s)) s)))).
Proof.
  intros [] Hc.
  assert (Hold : forall c' x, chans s !! c' = Some x -> <[c := mkChan id None false false]> (chans s) !! c' = Some x).
  { intros c' x H. rewrite lookup_insert_ne; [done|]. congruence. }
  assert (Hz : countZ (is_chan c) (pendingAllocs (ag s)) = 0).
  { apply countZ_zero. intros k v H. apply bool_decide_eq_false. intros ->.
    destruct (iv_pending0 _ _ H) as (x & ? & _). congruence. }
  constructor; cbn [ag chans calls sends closing replies panicked set_call set_agent set_chan use_id
      pendingAllocs set_pending]; try done.
  - intros c'. unfold users. cbn [ag sends closing set_call set_agent set_chan use_id pendingAllocs set_pending].
    specialize (iv_users0 c'). unfold users, used in *. cbn [chans set_call set_chan].
    rewrite countZ_set. destruct (decide (c' = c)) as [->|Hne].
    + rewrite lookup_insert_eq. unfold is_chan at 2. rewrite bool_decide_true by done.
      assert (Hs : countZ (sends_to c) (sends s) = 0).
      { apply countZ_zero. intros k [v r] H. apply bool_decide_eq_false. simpl. intros ->.
        destruct (iv_sends0 _ _ _ H) as (x & ? & _). congruence. }
      assert (Ho : occ c (closing s) = 0).
      { pose proof (occ_nonneg c (closing s)). destruct (decide (0 < occ c (closing s))) as [Hp%occ_pos|]; [|lia].
        apply iv_closing0 in Hp as [x Hx]. congruence. }
      rewrite Hz, Hs, Ho. simpl. destruct (pendingAllocs (ag s) !! id); simpl; [destruct (is_chan _ _); simpl|]; lia.
    + rewrite lookup_insert_ne by done. unfold is_chan at 2. rewrite bool_decide_false by done. simpl.
      destruct (pendingAllocs (ag s) !! id); [destruct (is_chan _ _); simpl|]; lia.
  - intros id' c' [[<- <-]|[_ H]]%lookup_insert_Some; [rewrite lookup_insert_eq; eauto|].
    destruct (iv_pending0 _ _ H) as (x & ? & ?). eauto.
  - intros r c' resp H. destruct (iv_sends0 _ _ _ H) as (x & ? & ? & ?). eauto.
  - intros c' H. destruct (iv_closing0 _ H) as [x ?]. eauto.
  - intros c' x resp [[_ <-]|[_ H]]%lookup_insert_Some; [done|eauto].
  - intros t' ph id' c' [[_ <-]|[_ H]]%lookup_insert_Some.
    + intros [= <- <-]. rewrite lookup_insert_eq. eauto.
    + intros Hr. destruct (iv_calls0 _ _ _ _ H Hr) as (x & ? & ?). eauto.
  - intros t' id' o [[_ H]|[_ H]]%lookup_insert_Some; [done|eauto].
  - intros t' id' o [[_ H]|[_ H]]%lookup_insert_Some; [done|eauto].
Qed.

(** A channel changes without a new user. *)
Lemma inv_chan s c x y l m :
  inv s -> chans s !! c = Some x -> ch_request y = ch_request x ->
  (forall resp, ch_buf y = Some resp -> ch_sent y = true /\ ch_request y = ua_RequestID resp /\ resp ∈ replies s) ->
  (forall c', c' ∈ l -> c' ∈ closing s) -> (forall r v, m !! r = Some v -> sends s !! r = Some v) ->
  (forall c', users c' (set_chan c y (set_closing l (set_sends m s))) <= 1) ->
  inv (set_chan c y (set_closing l (set_sends m s))).
Proof.
  intros [] Hc Hrq Hbuf Hl Hm Hu.
  assert (Hold : forall c' z, chans s !! c' = Some z -> exists z', <[c := y]> (chans s) !! c' = Some z'
      /\ ch_request z' = ch_request z).
  { intros c' z H. destruct (decide (c' = c)) as [->|]; [rewrite lookup_insert_eq|rewrite lookup_insert_ne; eauto].
    exists y. split; [done|]. congruence. }
  constructor; try done; cbn [ag chans calls sends closing replies panicked set_chan set_closing set_sends].
  - intros id c' H. destruct (iv_pending0 _ _ H) as (z & Hz & <-). eauto.
  - intros r c' resp H. destruct (iv_sends0 _ _ _ (Hm _ _ H)) as (z & Hz & H1 & H2).
    destruct (Hold _ _ Hz) as (z' & ? & ?). exists z'. split; [done|]. split; [congruence|done].
  - intros c' H. destruct (iv_closing0 _ (Hl _ H)) as [z Hz]. destruct (Hold _ _ Hz) as (z' & ? & _). eauto.
  - intros c' z resp [[_ <-]|[_ H]]%lookup_insert_Some; [apply Hbuf|eauto].
  - intros t ph id c' H Hr. destruct (iv_calls0 _ _ _ _ H Hr) as (z & Hz & <-). eauto.
Qed.

Lemma used_set c y s c' :
  used (set_chan c y s) c' = if decide (c' = c) then ch_closed y || ch_sent y else used s c'.
Proof.
  unfold used, set_chan. cbn [chans]. destruct (decide (c' = c)) as [->|];
    [by rewrite lookup_insert_eq|by rewrite lookup_insert_ne].
Qed.

(** A sender or closer finds the channel unused. *)
Lemma user_alone s c :
  inv s -> 0 < countZ (is_chan c) (pendingAllocs (ag s)) + countZ (sends_to c) (sends s) + occ c (closing s) ->
  used s c = false.
Proof.
  intros Hinv H. pose proof (iv_users _ Hinv c) as Hu. unfold users in Hu.
  destruct (used s c); [simpl in Hu; lia|done].
Qed.

Lemma sender_pos s r c resp : sends s !! r = Some (c, resp) -> 0 < countZ (sends_to c) (sends s).
Proof. intros H. eapply countZ_pos; [done|]. by apply bool_decide_eq_true. Qed.

Lemma inv_send s r s' : inv s -> step (LSend r) s = Some s' -> inv s'.
Proof.
  intros Hinv. cbn [step]. destruct (sends s !! r) as [[c resp]|] eqn:Hr; [|done].
  destruct (iv_sends _ Hinv _ _ _ Hr) as (x & Hx & Hrq & Hin). rewrite Hx.
  assert (Hu : used s c = false).
  { apply (user_alone s c Hinv). pose proof (sender_pos _ _ _ _ Hr).
    pose proof (countZ_nonneg (is_chan c) (pendingAllocs (ag s))). pose proof (occ_nonneg c (closing s)). lia. }
  destruct x as [rq buf cl sent]. unfold used in Hu. rewrite Hx in Hu. simpl in Hu.
  apply orb_false_iff in Hu as [-> ->]. destruct buf; [done|]. intros [= <-].
  replace (set_sends (delete r (sends s)) s)
    with (set_closing (closing s) (set_sends (delete r (sends s)) s)) by done.
  eapply (inv_chan s c (mkChan rq None false false)); try done.
  - intros resp' [= <-]. done.
  - by intros r' v [_ H]%lookup_delete_Some.
  - intros c'. pose proof (iv_users _ Hinv c') as Hle. unfold users in *. rewrite used_set.
    cbn [ag sends closing set_chan set_closing set_sends]. rewrite (countZ_delete _ _ _ _ Hr).
    change (used (set_closing (closing s) (set_sends (delete r (sends s)) s)) c') with (used s c').
    destruct (decide (c' = c)) as [->|Hne].
    + unfold sends_to at 2. simpl. rewrite bool_decide_true by done. unfold used in Hle. rewrite Hx in Hle.
      simpl in *. lia.
    + unfold sends_to at 2. simpl. rewrite bool_decide_false by done. simpl. lia.
Qed.

Lemma inv_closechan s i s' : inv s -> step (LClose i) s = Some s' -> inv s'.
Proof.
  intros Hinv. cbn [step]. destruct (closing s !! i) as [c|] eqn:Hi; [|done].
  assert (Hocc : forall k, occ k (closing s) = Z.b2z (bool_decide (c = k)) + occ k (delete i (closing s))).
  { intros k. rewrite <-occ_cons. apply occ_perm. by apply delete_Permutation. }
  assert (Hu : used s c = false).
  { apply (user_alone s c Hinv). pose proof (countZ_nonneg (is_chan c) (pendingAllocs (ag s))).
    pose proof (countZ_nonneg (sends_to c) (sends s)). rewrite Hocc, bool_decide_true by done.
    pose proof (occ_nonneg c (delete i (closing s))). simpl. lia. }
  destruct (chans s !! c) as [[rq buf cl sent]|] eqn:Hx; [|done].
  unfold used in Hu. rewrite Hx in Hu. simpl in Hu. apply orb_false_iff in Hu as [-> ->]. intros [= <-].
  replace (set_closing (delete i (closing s)) s)
    with (set_closing (delete i (closing s)) (set_sends (sends s) s)) by done.
  eapply (inv_chan s c (mkChan rq buf false false)); try done.
  - simpl. intros resp ->. by destruct (iv_buf _ Hinv _ _ _ Hx eq_refl).
  - intros c' Hin. apply delete_Permutation in Hi. rewrite Hi. by right.
  - intros c'. pose proof (iv_users _ Hinv c') as Hle. unfold users in *. rewrite used_set.
    cbn [ag sends closing set_chan set_closing set_sends]. rewrite Hocc in Hle.
    change (used (set_closing (delete i (closing s)) (set_sends (sends s) s)) c') with (used s c').
    destruct (decide (c' = c)) as [->|Hne].
    + rewrite bool_decide_true in Hle by done. unfold used in Hle. rewrite Hx in Hle. simpl in *. lia.
    + rewrite bool_decide_false in Hle by congruence. simpl in *. lia.
Qed.


Lemma agent_read s r resp s' : inv s -> step (LRead r resp) s = Some s' -> inv s'.
Proof.
  intros Hinv. cbn [step]. destruct (sends s !! r) eqn:Hr; [done|]. unfold take_reply. cbv zeta.
  set (a := set_pending (delete (ua_RequestID resp) (pendingAllocs (ag s))) (ag s)).
  assert (Hlog : forall x, x ∈ replies s -> x ∈ resp :: replies s) by (intros; by right).
  destruct Hinv.
  assert (Hout : forall s2 id o, replies s2 = resp :: replies s -> outcome_ok s id o -> outcome_ok s2 id o).
  { intros s2 id o H2. apply outcome_ok_mono. intros x Hx. rewrite H2. auto. }
  destruct (pendingAllocs (ag s) !! ua_RequestID resp) as [c|] eqn:Hp; intros [= <-].
  - constructor; cbn [ag chans calls sends closing replies panicked set_sends log_reply set_agent a pendingAllocs set_pending]; try done; eauto.
    + intros c'. specialize (iv_users0 c'). unfold users, used in *.
      cbn [ag chans sends closing set_sends log_reply set_agent a pendingAllocs set_pending].
      rewrite (countZ_delete _ _ _ _ Hp), countZ_set, Hr. unfold sends_to at 2. cbn [fst].
      unfold is_chan at 2. lia.
    + intros id c' [_ H]%lookup_delete_Some. eauto.
    + intros r' c' resp' [[_ [= <- <-]]|[_ H]]%lookup_insert_Some.
      * destruct (iv_pending0 _ _ Hp) as (x & ? & ?). exists x. repeat split; [done|done|by left].
      * destruct (iv_sends0 _ _ _ H) as (x & ? & ? & ?). eauto.
    + intros c' x resp' H1 H2. destruct (iv_buf0 _ _ _ H1 H2) as (? & ? & ?). eauto.
  - constructor; cbn [ag chans calls sends closing replies panicked log_reply set_agent a pendingAllocs set_pending]; try done; eauto.
    + intros c'. specialize (iv_users0 c'). unfold users, used in *.
      cbn [ag chans sends closing log_reply set_agent a pendingAllocs set_pending].
      rewrite delete_id by done. done.
    + intros id c' [_ H]%lookup_delete_Some. eauto.
    + intros r' c' resp' H. destruct (iv_sends0 _ _ _ H) as (x & ? & ? & ?). eauto.
    + intros c' x resp' H1 H2. destruct (iv_buf0 _ _ _ H1 H2) as (? & ? & ?). eauto.
Qed.

(** The channels a map of them holds, as a list. *)
Lemma occ_snd c (m : gmap string nat) : occ c ((map_to_list m).*2) = countZ (is_chan c) m.
Proof.
  rewrite countZ_list. unfold occ. f_equal. apply list_filter_iff. intros x. unfold is_chan.
  by rewrite bool_decide_eq_true.
Qed.

Lemma agent_fail s s' : inv s -> step LFail s = Some s' -> inv s'.
Proof.
  intros Hinv. cbn [step]. unfold fail_pending. intros [= <-]. destruct Hinv.
  constructor; cbn [ag chans calls sends closing replies panicked set_closing set_agent pendingAllocs set_pending];
    try done; eauto.
  - intros c'. specialize (iv_users0 c'). unfold users, used in *.
    cbn [ag chans sends closing set_closing set_agent pendingAllocs set_pending].
    rewrite occ_app, occ_snd. rewrite countZ_empty. lia.
  - intros c' [([id c] & -> & H%elem_of_map_to_list)%list_elem_of_fmap|]%elem_of_app; [|eauto].
    destruct (iv_pending0 _ _ H) as (x & ? & _). eauto.
Qed.

Lemma inv_agent s a : inv s -> pendingAllocs a = pendingAllocs (ag s) -> inv (set_agent a s).
Proof.
  intros [] Ha. constructor; cbn [ag chans calls sends closing replies panicked set_agent]; rewrite ?Ha; try done.
  intros c. specialize (iv_users0 c). unfold users, used in *. cbn [ag chans sends closing set_agent]. by rewrite Ha.
Qed.

Lemma inv_drain s c x : inv s -> chans s !! c = Some x -> inv (set_chan c (mkChan (ch_request x) None (ch_closed x) (ch_sent x)) s).
Proof.
  intros Hinv Hc.
  replace s with (set_closing (closing s) (set_sends (sends s) s)) at 1 by by destruct s.
  apply (inv_chan s c x); try done; eauto.
  intros c'. pose proof (iv_users _ Hinv c') as Hle. unfold users in *. rewrite used_set.
  cbn [ag sends closing set_chan set_closing set_sends].
  change (used (set_closing (closing s) (set_sends (sends s) s)) c') with (used s c').
  destruct (decide (c' = c)) as [->|]; [|done]. unfold used in Hle. by rewrite Hc in Hle.
Qed.

(** A call's own step that keeps its channel. *)
Lemma inv_phase s t ph ph' :
  inv s -> calls s !! t = Some ph -> request_of ph' = None \/ request_of ph' = request_of ph ->
  (forall id o, ph' = Leaving id o -> outcome_ok s (Some id) o) ->
  (forall id o, ph' = Done id o -> outcome_ok s id o) -> inv (set_call t ph' s).
Proof.
  intros Hinv Hc Hr Hl Hd. replace s with (set_agent (ag s) s) at 1 by by destruct s.
  apply inv_calls; [done|by left| |done|done].
  intros id c H. destruct Hr as [Hr|Hr]; [congruence|]. eapply (iv_calls _ Hinv); [done|congruence].
Qed.

(** Leaving a call counts its outcome, with or without a request to forget. *)
Lemma agent_finish s t id o a :
  inv s -> outcome_ok s id o ->
  pendingAllocs a = pendingAllocs (ag s) \/ (exists i, pendingAllocs a = delete i (pendingAllocs (ag s))) ->
  inv (set_call t (Done id o) (set_agent (count_outcome o a) s)).
Proof.
  intros Hinv Ho Ha. apply inv_calls; [done| |done|done|].
  - unfold count_outcome. by destruct (_ && _), (oc_err o).
  - by intros id' o' [= <- <-].
Qed.

Lemma agent_receive s t s' : inv s -> step (LReceive t) s = Some s' -> inv s'.
Proof.
  intros Hinv. cbn [step]. destruct (calls s !! t) as [[|?|id c|?|?]|] eqn:Ht; try done.
  destruct (iv_calls _ Hinv _ _ _ _ Ht eq_refl) as (x & Hx & Hrq). rewrite Hx.
  destruct x as [rq [r|] cl sent]; [|destruct cl; [|done]]; intros [= <-].
  - destruct (iv_buf _ Hinv _ _ r Hx eq_refl) as (_ & Hid & Hin). cbn [ch_request] in *.
    eapply (inv_phase _ t (Written id c)); [exact (inv_drain _ _ _ Hinv Hx)|done|by left| |done].
    intros id' o [= <- <-]. unfold reply_outcome. destruct (ua_Error r =? "")%string eqn:He; cbn [negb]; [|by left].
    right. exists id, r. repeat split; [done|congruence|by apply String.eqb_eq].
  - eapply inv_phase; [done|done|by left| |done]. intros id' o [= <- <-]. apply unavailable_ok.
Qed.

Lemma agent_leave s t s' : inv s -> step (LLeave t) s = Some s' -> inv s'.
Proof.
  intros Hinv. cbn [step]. destruct (calls s !! t) as [[|?|?|id o|?]|] eqn:Ht; try done.
  intros [= <-]. apply agent_finish; [done|eauto using iv_leaving|].
  right. by exists id.
Qed.

Lemma agent_step s l s' : inv s -> step l s = Some s' -> inv s'.
Proof.
  intros Hinv. destruct l; intros Hs; 
    try first [by apply agent_receive in Hs|by apply agent_leave in Hs|by apply agent_read in Hs|by apply inv_send in Hs
      |by apply agent_fail in Hs|by apply inv_closechan in Hs].
  all: cbn [step] in Hs.
  - simplify_eq. by apply inv_agent.
  - destruct (calls s !! t) eqn:Ht; [done|]. destruct (ws (ag s)); simplify_eq.
    + replace s with (set_agent (ag s) s) at 1 by by destruct s. apply inv_calls; try done. by left.
    + apply agent_finish; [done|by left|by left].
  - destruct (calls s !! t) as [[]|] eqn:Ht; simplify_eq. apply agent_finish; [done|by left|by left].
  - destruct (calls s !! t) as [[]|] eqn:Ht; try done.
    destruct (_ || _) eqn:Hf; [done|]. simplify_eq.
    apply orb_false_iff in Hf as [_ Hf%bool_decide_eq_false%eq_None_not_Some]. by apply inv_register.
  - destruct (calls s !! t) as [[|id c|?|?|?]|] eqn:Ht; simplify_eq.
    destruct ok; eapply inv_phase; try done; eauto using unavailable_ok.
    + intros id' o [= <- <-]. apply unavailable_ok.
  - destruct (calls s !! t) as [[|?|id c|?|?]|] eqn:Ht; simplify_eq.
    eapply inv_phase; try done; eauto. intros id' o [= <- <-]. by left.
Qed.

Lemma agent_start : inv start.
Proof. constructor; try done. by intros c ?%not_elem_of_nil. Qed.

Lemma agent_run ls s s' : inv s -> run ls s = Some s' -> inv s'.
Proof.
  revert s. induction ls as [|l ls IH]; intros s Hinv; cbn [run]; [by intros [= <-]|].
  destruct (step l s) as [s1|] eqn:Hs; [|done]. eauto using agent_step.
Qed.

Lemma agent_reach ls s : run ls start = Some s -> inv s.
Proof. apply agent_run, agent_start. Qed.

(** ** What the agent guarantees *)

(** C32: whatever replies the relay sends (unasked, repeated, late), however
    reconnections overlap and calls expire, the agent never sends on or closes
    a closed channel, and the control connection's reader never blocks
    delivering a reply to a call that has given up. *)
Theorem agent_delivery_safe ls s :
  run ls start = Some s ->
  panicked s = false
  /\ (forall r v, sends s !! r = Some v -> exists s', step (LSend r) s = Some s' /\ panicked s' = false)
  /\ (forall i c, closing s !! i = Some c -> exists s', step (LClose i) s = Some s' /\ panicked s' = false).
Proof.
  intros Hinv%agent_reach. split; [by apply iv_panic|split].
  - intros r [c resp] Hr. destruct (iv_sends _ Hinv _ _ _ Hr) as ([rq buf cl sent] & Hx & _ & _).
    assert (Hu : used s c = false).
    { apply (user_alone s c Hinv). pose proof (sender_pos _ _ _ _ Hr).
      pose proof (countZ_nonneg (is_chan c) (pendingAllocs (ag s))). pose proof (occ_nonneg c (closing s)). lia. }
    unfold used in Hu. rewrite Hx in Hu. apply orb_false_iff in Hu as [? ?]. simpl in *. subst.
    destruct buf as [b|]; [by destruct (iv_buf _ Hinv _ _ b Hx eq_refl)|].
    cbn [step]. rewrite Hr, Hx. eexists. split; [done|]. apply (iv_panic _ Hinv).
  - intros i c Hi. assert (Hin : c ∈ closing s) by by eapply list_elem_of_lookup_2.
    destruct (iv_closing _ Hinv _ Hin) as [[rq buf cl sent] Hx].
    assert (Hu : used s c = false).
    { apply (user_alone s c Hinv). apply occ_pos in Hin.
      pose proof (countZ_nonneg (is_chan c) (pendingAllocs (ag s))).
      pose proof (countZ_nonneg (sends_to c) (sends s)). lia. }
    unfold used in Hu. rewrite Hx in Hu. apply orb_false_iff in Hu as [? ?]. simpl in *. subst.
    cbn [step]. rewrite Hi, Hx. eexists. split; [done|]. apply (iv_panic _ Hinv).
Qed.

(** a call that returns a token or an address returns those of an
    error-free reply the relay sent to that call's own request id: replies to
    other calls, to expired requests or with an error never reach it. *)
Theorem agent_reply_matched ls s t id o :
  run ls start = Some s -> calls s !! t = Some (Done id o) -> ~ (oc_token o = "" /\ oc_addr o = "")%string ->
  exists i r, id = Some i /\ r ∈ replies s /\ ua_RequestID r = i /\ ua_Error r = ""%string
    /\ ua_Token r = oc_token o /\ ua_ServerAddr r = oc_addr o.
Proof.
  intros Hinv%agent_reach Hc Hn. destruct (iv_done _ Hinv _ _ _ Hc) as [H|(i & r & ? & ? & ? & ? & ? & ?)].
  - by destruct Hn.
  - by exists i, r.
Qed.

Definition toyReply (id : string) : RelayUDPAllocateResponse := mkReply id "token" "198.51.100.7:40000" "" "".

Definition toyRun : list label :=
  [LConn true; LCall 1; LCall 2; LRegister 1 "a" 10; LRegister 2 "b" 20; LWrite 1 true; LWrite 2 true;
   LRead 0 (toyReply "b"); LRead 1 (toyReply "b"); LExpire 2 true; LSend 0; LFail; LClose 0; LReceive 1; LLeave 1; LLeave 2].

Lemma agent_delivery_safe_witness :
  exists s, run (take 10 toyRun) start = Some s /\ sends s !! 0%nat = Some (20%nat, toyReply "b")
    /\ exists s', step (LSend 0) s = Some s' /\ panicked s' = false.
Proof.
  eexists. split; [vm_compute; reflexivity|]. split; [vm_compute; reflexivity|].
  eapply (agent_delivery_safe (take 10 toyRun)); vm_compute; reflexivity.
Defined.

Definition toyAnswered : list label :=
  [LConn true; LCall 1; LRegister 1 "a" 10; LWrite 1 true; LRead 0 (toyReply "a"); LSend 0; LReceive 1; LLeave 1].

Lemma agent_reply_matched_witness :
  exists s, run toyAnswered start = Some s
    /\ exists i r, Some "a"%string = Some i /\ r ∈ replies s /\ ua_RequestID r = i /\ ua_Error r = ""%string
      /\ ua_Token r = "token"%string /\ ua_ServerAddr r = "198.51.100.7:40000"%string.
Proof.
  eexists. split; [vm_compute; reflexivity|].
  eapply (agent_reply_matched toyAnswered _ 1 (Some "a"%string) (mkOutcome "token" "198.51.100.7:40000" NoError));
    [vm_compute; reflexivity|vm_compute; reflexivity|]. intros H. by destruct H as [? _].
Defined.

(** A reply that arrives after its request has expired is dropped; nothing
    gives its token back to the relay. *)
Example late_reply_lost :
  let s := run [LConn true; LCall 1; LRegister 1 "a" 10; LWrite 1 true; LExpire 1 false; LLeave 1;
                LRead 0 (toyReply "a")] start in
  match s with
  | Some s => calls s !! 1%nat = Some (Done (Some "a"%string) (mkOutcome "" "" OtherError)) /\ sends s = ∅
              /\ pendingAllocs (ag s) = ∅ /\ replies s = [toyReply "a"]
  | None => False
  end.
Proof. vm_compute. repeat split. Qed.
