(* ===== verification/ClientTransport.v ===== *)
(** The client's choice of transport and of local addresses
    ([pkg/client/client.go], [reconnect.go], [transportstate.go]): which carrier
    a session starts on, the route it reports, and where tunnels may listen.
    The functions are pure; building the WireGuard device and opening sockets
    are arguments. *)
From stdpp Require Import pretty.
From S2P Require Import Prelude Bytes Netip Protocol ServerAuth ServerToy Scheduler.

(** ** Reported routes *)
Inductive connectionTransport : Type :=
  | transportUnknown
  | transportUDPDirect
  | transportWSSFallback
  | transportWSSRelay
  | transportUDPRelay
  | transportUDPRelayReflector.

Definition transport_String (t : connectionTransport) : string :=
  match t with
  | transportUDPDirect => "UDP direct"
  | transportWSSFallback => "WSS fallback"
  | transportWSSRelay => "WSS"
  | transportUDPRelay => "UDP via relay"
  | transportUDPRelayReflector => "UDP direct via relay reflector"
  | transportUnknown => "unknown"
  end.

Definition mode (t : connectionTransport) : string :=
  match t with
  | transportUDPDirect => "udp_direct"
  | transportWSSFallback => "websocket_fallback"
  | transportWSSRelay => "websocket_relay"
  | transportUDPRelay => "udp_relay"
  | transportUDPRelayReflector => "udp_relay_reflector"
  | transportUnknown => "unknown"
  end.

Definition initialTransport (useWS : bool) (udp : string) : connectionTransport :=
  if negb useWS then transportUDPDirect
  else if (udp =? "")%string then transportWSSRelay else transportWSSFallback.

Inductive transportState : Type :=
  | transportStateStopped
  | transportStateDirect
  | transportStateDirectViaRelayReflector
  | transportStateWSSFallback
  | transportStateWSSRelay
  | transportStateUDPRelay.

#[export] Instance transportState_eq_dec : EqDecision transportState.
Proof. solve_decision. Defined.

Inductive transportTransition : Type :=
  | transportUDPRelayEstablished
  | transportDirectEstablished
  | transportUDPRelayLost
  | transportDirectLost
  | transportControlReconnected
  | transportShutdown.

Definition initialTransportState (useWS : bool) (udp : string) : transportState :=
  if negb useWS then transportStateDirect
  else if negb (udp =? "")%string then transportStateWSSFallback else transportStateWSSRelay.

Definition nextTransportState (current : transportState) (event : transportTransition)
    (relayAvailable : bool) : transportState :=
  match event with
  | transportShutdown => transportStateStopped
  | transportControlReconnected => current
  | transportUDPRelayEstablished =>
      if bool_decide (current = transportStateWSSRelay) then transportStateUDPRelay else current
  | transportDirectEstablished =>
      if bool_decide (current = transportStateWSSRelay) || bool_decide (current = transportStateUDPRelay)
      then transportStateDirectViaRelayReflector else current
  | transportUDPRelayLost =>
      if bool_decide (current = transportStateUDPRelay) then transportStateWSSRelay else current
  | transportDirectLost =>
      if bool_decide (current = transportStateDirect)
         || bool_decide (current = transportStateDirectViaRelayReflector)
      then if relayAvailable then transportStateUDPRelay else transportStateWSSRelay
      else current
  end.

Definition state_transport (s : transportState) : connectionTransport :=
  match s with
  | transportStateDirect => transportUDPDirect
  | transportStateDirectViaRelayReflector => transportUDPRelayReflector
  | transportStateWSSFallback => transportWSSFallback
  | transportStateWSSRelay => transportWSSRelay
  | transportStateUDPRelay => transportUDPRelay
  | transportStateStopped => transportUnknown
  end.

Definition transportStateFromConnection (t : connectionTransport) : transportState :=
  match t with
  | transportUDPDirect => transportStateDirect
  | transportUDPRelayReflector => transportStateDirectViaRelayReflector
  | transportWSSFallback => transportStateWSSFallback
  | transportWSSRelay => transportStateWSSRelay
  | transportUDPRelay => transportStateUDPRelay
  | transportUnknown => transportStateStopped
  end.

(** [preserveTransportOnReconnect]: the route after a renewal that had to
    retry. *)
Definition preserveTransportOnReconnect (t : connectionTransport) : connectionTransport :=
  let current := transportStateFromConnection t in
  state_transport (nextTransportState current transportControlReconnected
                     (bool_decide (current = transportStateUDPRelay))).

(** ** Which carrier a session starts on *)
Inductive transport_error : Type :=
  | BadTransport (name : string)
  | WebSocketConflict (name : string)
  | NoWebSocket
  | NoWireGuardEndpoint
  | NoMultipath
  | BadTunnelIP
  | BadServerTunnelIP (s : string)
  | NoServerTunnelIP
  | DeviceFailed.

Definition hasTransportCapability (caps : list string) (want : string) : bool :=
  existsb (fun got => (got =? want)%string) caps.

Definition selectTransport (explicit : bool) (transport : string) (multipath : bool)
    (udp websocket : string) : result transport_error bool :=
  if (transport =? PathWSS)%string then
    if (websocket =? "")%string then Err NoWebSocket else Ok true
  else if (transport =? PathDirect)%string then
    if (udp =? "")%string then Err NoWireGuardEndpoint else Ok false
  else if (transport =? PathUDPRelay)%string then
    if (websocket =? "")%string then Err NoWebSocket
    else if negb multipath then Err NoMultipath else Ok true
  else
    let useWS := explicit || ((udp =? "")%string && negb (websocket =? "")%string)
      || ((transport =? "")%string && multipath && negb (udp =? "")%string
          && negb (websocket =? "")%string) in
    if useWS && (websocket =? "")%string then Err NoWebSocket
    else if negb useWS && (udp =? "")%string then Err NoWireGuardEndpoint
    else Ok useWS.

Definition shouldBootstrapDirectMultipath (multipathV3 : bool) (udpEndpoint : string)
    (websocketForced : bool) : bool :=
  multipathV3 && negb (udpEndpoint =? "")%string && negb websocketForced.

Definition normalizeTransportPreference (websocket : bool) (transport : string) :
    result transport_error string :=
  match ValidateTransportName transport with
  | Err s => Err (BadTransport s)
  | Ok normalized =>
      if websocket && negb (normalized =? "")%string && negb (normalized =? PathWSS)%string
      then Err (WebSocketConflict normalized)
      else if websocket then Ok PathWSS else Ok normalized
  end.

Section addresses.
Context {text : AddrText}.

Definition matchesIPVersion (hostport ipVersion : string) : bool :=
  if (ipVersion =? "")%string then true
  else match SplitHostPort hostport with
       | None => false
       | Some (host, _) =>
           match ParseAddr host with
           | None => false
           | Some addr => if (ipVersion =? "6")%string then Is6 (Unmap addr) else Is4 (Unmap addr)
           end
       end.

Definition resolveServerTunnelIP (serverTunnelIP : string) (clientIP : Addr) : result transport_error Addr :=
  if negb (serverTunnelIP =? "")%string then
    match ParseAddr serverTunnelIP with
    | None => Err (BadServerTunnelIP serverTunnelIP)
    | Some addr => Ok addr
    end
  else match clientIP with
       | Addr4 a => Ok (Addr4 (Z.lor (Z.shiftl (Z.shiftr a 8) 8) 1))
       | _ => Err NoServerTunnelIP
       end.

Definition allowedIPsForFamily (clientIP : Addr) : string :=
  if Is6 clientIP then "::/0" else "0.0.0.0/0".

(** ** One generation of the data plane *)
Record Options := mkOptions {
  op_UseWebSocket : bool;
  op_Transport : string;
  op_IPVersion : string;
  op_Hosts : gmap string string;
  op_Ports : gmap string Z;
  op_BindAddress : string;
  op_NoDirectUpgrade : bool;
}.

Definition MultipathSentinel : string := "mp:relay".
Definition WSSentinel : string := "ws:relay".

(** The bind under the WireGuard device. *)
Inductive carrier : Type :=
  | RawUDP
  | HybridBind
  | Multipath (pathMTU : bool).

Record connectionNetwork := mkNetwork {
  cn_clientIP : Addr;
  cn_serverIP : Addr;
  cn_udpEndpoint : string;
  cn_mismatch : string;
  cn_transport : string;
  cn_useWS : bool;
  cn_multipathV3 : bool;
  cn_carrier : carrier;
  cn_allowedIPs : string;
  cn_endpoint : string;
  cn_forced : option string;
  cn_response : AuthResponse;
}.

Definition use_udp (r : AuthResponse) (o : Options) : string * string :=
  if negb (rs_UDP r =? "")%string && negb (matchesIPVersion (rs_UDP r) (op_IPVersion o))
  then ("", ("server's direct UDP endpoint (" ++ rs_UDP r ++ ") is not IPv" ++ op_IPVersion o)%string)
  else (rs_UDP r, "")%string.

(** [device]: the WireGuard device starts and takes the peer. *)
Definition newConnectionNetwork (r : AuthResponse) (o : Options) (device : bool) :
    result transport_error connectionNetwork :=
  match ParseAddr (rs_TunnelIP r) with
  | None => Err BadTunnelIP
  | Some clientIP =>
      let '(udpEndpoint, mismatch) := use_udp r o in
      res_bind (normalizeTransportPreference (op_UseWebSocket o) (op_Transport o)) (fun transport =>
      let multipathV3 := rs_Multipath r
        && hasTransportCapability (rs_TransportCapabilities r) CapabilityMultipathV3 in
      let pathMTU := multipathV3
        && hasTransportCapability (rs_TransportCapabilities r) CapabilityPathMTUV1 in
      res_bind (selectTransport (op_UseWebSocket o) transport multipathV3 udpEndpoint (rs_WebSocket r)) (fun useWS =>
      res_bind (resolveServerTunnelIP (rs_ServerTunnelIP r) clientIP) (fun serverIP =>
      if negb device then Err DeviceFailed
      else Ok {|
        cn_clientIP := clientIP; cn_serverIP := serverIP;
        cn_udpEndpoint := udpEndpoint; cn_mismatch := mismatch;
        cn_transport := transport; cn_useWS := useWS; cn_multipathV3 := multipathV3;
        cn_carrier := if useWS then if multipathV3 then Multipath pathMTU else HybridBind else RawUDP;
        cn_allowedIPs := allowedIPsForFamily clientIP;
        cn_endpoint := if useWS then if multipathV3 then MultipathSentinel else WSSentinel else rs_UDP r;
        cn_forced := if useWS && multipathV3 && negb (transport =? "")%string then Some transport else None;
        cn_response := r;
      |})))
  end.

Definition is_multipath (n : connectionNetwork) : bool :=
  match cn_carrier n with Multipath _ => true | _ => false end.

(** What [startTransportWorkers] starts. *)
Definition bootstraps (o : Options) (n : connectionNetwork) : bool :=
  is_multipath n
  && shouldBootstrapDirectMultipath (cn_multipathV3 n) (cn_udpEndpoint n) (op_UseWebSocket o).

Definition upgrades (o : Options) (n : connectionNetwork) : bool :=
  cn_useWS n && (cn_udpEndpoint n =? "")%string && negb (op_NoDirectUpgrade o)
  && negb (cn_transport n =? PathWSS)%string.

(** [matches]: the data plane of [old] serves the session [r]. *)
Definition matches (old r : AuthResponse) : bool :=
  (rs_TunnelIP old =? rs_TunnelIP r)%string
  && (rs_ServerTunnelIP old =? rs_ServerTunnelIP r)%string
  && (rs_ServerPublicKey old =? rs_ServerPublicKey r)%string
  && (rs_UDP old =? rs_UDP r)%string
  && (rs_WebSocket old =? rs_WebSocket r)%string
  && Bool.eqb (rs_Multipath old) (rs_Multipath r)
  && Bool.eqb (hasTransportCapability (rs_TransportCapabilities old) CapabilityMultipathV3)
         (hasTransportCapability (rs_TransportCapabilities r) CapabilityMultipathV3)
  && Bool.eqb (hasTransportCapability (rs_TransportCapabilities old) CapabilityPathMTUV1)
         (hasTransportCapability (rs_TransportCapabilities r) CapabilityPathMTUV1).

(** ** Local listeners *)
Definition resolveBindAddress (addr : string) : option string :=
  if (addr =? "")%string then Some "127.0.0.1"%string
  else match ParseAddr addr with None => None | Some ip => Some (addr_String ip) end.

(** Host, whether it may fall back, and the server's host when it was refused. *)
Definition resolveTunnelHost (name serverLocalHost : string) (hosts : gmap string string)
    (explicitBind : bool) (bindAddr : string) : string * bool * string :=
  match hosts !! name with
  | Some h => (h, true, "")
  | None =>
      if explicitBind then (bindAddr, false, "")
      else if negb (serverLocalHost =? "")%string then
        match ParseAddr serverLocalHost with
        | Some ip => if IsLoopback ip then (serverLocalHost, true, "") else (bindAddr, true, serverLocalHost)
        | None => (bindAddr, true, serverLocalHost)
        end
      else (bindAddr, true, "")
  end%string.

Definition localhost : string := "127.0.0.1".

(** [listenLocal] and [listenLocalUDP], by the way they bind an address.  The
    second error is the first attempt's. *)
Definition listen_steps {L E} (listen : string -> Z -> result E L) (host : string) (port : Z)
    (softHost softPort : bool) : result E L * option E :=
  match listen host port with
  | Ok l => (Ok l, None)
  | Err firstErr =>
      let first_failure := (Err firstErr, Some firstErr) in
      let on_localhost :=
        if softHost && negb (host =? localhost)%string then
          match listen localhost port with
          | Ok l => (Ok l, Some firstErr)
          | Err _ =>
              if softPort && negb (port =? 0) then
                match listen localhost 0 with Ok l => (Ok l, Some firstErr) | Err _ => first_failure end
              else first_failure
          end
        else first_failure in
      if softPort && negb (port =? 0) then
        match listen host 0 with Ok l => (Ok l, Some firstErr) | Err _ => on_localhost end
      else on_localhost
  end.

(** [net.JoinHostPort], with the port in decimal. *)
Definition JoinHostPort (host : string) (port : Z) : string :=
  if bool_decide (x3a ∈ bytes_of host) then ("[" ++ host ++ "]:" ++ pretty port)%string
  else (host ++ ":" ++ pretty port)%string.

Definition listenLocal {L E} (listen : string -> result E L) :=
  listen_steps (fun host port => listen (JoinHostPort host port)).

(** [net.ParseIP]: an address without a zone; [None] is [nil], on which a
    datagram socket listens on every interface. *)
Definition ParseIP (s : string) : option Addr :=
  match ParseAddr s with
  | Some (Addr6 a z) => if (z =? "")%string then Some (Addr6 a z) else None
  | x => x
  end.

Definition listenLocalUDP {L E} (listenUDP : option Addr -> Z -> result E L) :=
  listen_steps (fun host port => listenUDP (ParseIP host) port).

(** A grant's listener as [ConnectWithOptions] opens it, on the address it
    reads from the options. *)
Definition tunnel_port (o : Options) (t : Tunnel) : Z * bool :=
  match op_Ports o !! tn_Name t with Some p => (p, true) | None => (tn_LocalPort t, false) end.

Definition open_tunnel {L E} (bad_bind bad_port : E) (listenTCP : string -> result E L)
    (listenUDP : option Addr -> Z -> result E L) (o : Options) (t : Tunnel) : result E L :=
  match resolveBindAddress (op_BindAddress o) with
  | None => Err bad_bind
  | Some bindAddr =>
      let '(p, explicitPort) := tunnel_port o t in
      if (p <? 0) || (65535 <? p) then Err bad_port
      else
        let '(host, softHost, _) := resolveTunnelHost (tn_Name t) (tn_LocalHost t) (op_Hosts o)
          (negb (op_BindAddress o =? "")%string) bindAddr in
        if (tn_Protocol t =? "udp")%string
        then (listenLocalUDP listenUDP host p softHost (negb explicitPort)).1
        else (listenLocal listenTCP host p softHost (negb explicitPort)).1
  end.

(** ** Fallback order *)







(** ** Theorems *)





(** A carrier that satisfies a request: [true] the WebSocket, [false] UDP. *)
Definition compatible (explicit : bool) (transport : string) (multipath : bool) (udp websocket : string)
    (useWS : bool) : bool :=
  if useWS then negb (websocket =? "")%string && negb (transport =? PathDirect)%string
                && (multipath || negb (transport =? PathUDPRelay)%string)
  else negb (udp =? "")%string && negb (explicit && negb (transport =? PathDirect)%string)
       && ((transport =? "")%string || (transport =? PathDirect)%string).

Lemma selectTransport_complete explicit transport multipath udp websocket :
  In transport [""; PathWSS; PathUDPRelay; PathDirect]%string ->
  match selectTransport explicit transport multipath udp websocket with
  | Ok useWS => compatible explicit transport multipath udp websocket useWS = true
      /\ (compatible explicit transport multipath udp websocket (negb useWS) = true -> useWS = multipath)
  | Err _ => forall useWS, compatible explicit transport multipath udp websocket useWS = false
  end.
Proof.
  intros [<-|[<-|[<-|[<-|[]]]]]; unfold selectTransport, compatible; simpl;
    destruct (udp =? "")%string, (websocket =? "")%string, multipath, explicit; simpl;
    try (by split); try (by intros []).
Qed.

Lemma normalize_names websocket transport t :
  normalizeTransportPreference websocket transport = Ok t ->
  In t [""; PathWSS; PathUDPRelay; PathDirect]%string /\ (websocket = true -> t = PathWSS).
Proof.
  unfold normalizeTransportPreference, ValidateTransportName.
  destruct (_ || _ || _ || _) eqn:Hv; [|done]. set (n := NormalizeTransportName transport) in *.
  rewrite !orb_true_iff, !String.eqb_eq in Hv.
  assert (Hn : In n [""; PathWSS; PathUDPRelay; PathDirect]%string) by (simpl; naive_solver).
  destruct websocket; simpl; [|intros [= <-]; split; [done|done]].
  destruct (_ && _); [done|]. intros [= <-]. split; [simpl; auto|done].
Qed.

Definition carrier_failure (e : transport_error) : Prop :=
  e = NoWebSocket \/ e = NoWireGuardEndpoint \/ e = NoMultipath.

(** the session starts on a carrier that was asked for and is there: a
    connection that comes up uses a carrier the server advertises and the
    options allow (--websocket and a chosen transport are honoured, a UDP
    endpoint has the requested address family), takes the WebSocket before
    UDP only to bring both up under multipath, and points the WireGuard peer
    at that carrier; the direct upgrade and the multipath bootstrap never
    both run.  It fails for want of a carrier only when none is compatible
    with the options. *)
Theorem connection_carrier r o device :
  match newConnectionNetwork r o device with
  | Ok n =>
      compatible (op_UseWebSocket o) (cn_transport n) (cn_multipathV3 n) (cn_udpEndpoint n)
        (rs_WebSocket r) (cn_useWS n) = true
      /\ (compatible (op_UseWebSocket o) (cn_transport n) (cn_multipathV3 n) (cn_udpEndpoint n)
            (rs_WebSocket r) (negb (cn_useWS n)) = true -> cn_useWS n = cn_multipathV3 n)
      /\ (op_UseWebSocket o = true -> cn_useWS n = true /\ cn_transport n = PathWSS)
      /\ cn_endpoint n = (if cn_useWS n then if cn_multipathV3 n then MultipathSentinel else WSSentinel
                          else rs_UDP r)
      /\ (cn_useWS n = false -> matchesIPVersion (rs_UDP r) (op_IPVersion o) = true
            /\ cn_carrier n = RawUDP)
      /\ upgrades o n && bootstraps o n = false
  | Err e => carrier_failure e -> forall transport useWS,
      normalizeTransportPreference (op_UseWebSocket o) (op_Transport o) = Ok transport ->
      compatible (op_UseWebSocket o) transport
        (rs_Multipath r && hasTransportCapability (rs_TransportCapabilities r) CapabilityMultipathV3)
        (use_udp r o).1 (rs_WebSocket r) useWS = false
  end.
Proof.
  unfold newConnectionNetwork.
  destruct (ParseAddr (rs_TunnelIP r)); [|by intros [?|[?|?]]].
  destruct (use_udp r o) as [udp mismatch] eqn:Hudp. simpl fst.
  destruct (normalizeTransportPreference _ _) as [t|e] eqn:Hn; simpl; [|by intros _ ? ?].
  apply normalize_names in Hn as [Hin Hws].
  set (mp := rs_Multipath r && _) in *.
  pose proof (selectTransport_complete (op_UseWebSocket o) t mp udp (rs_WebSocket r) Hin) as Hc.
  destruct (selectTransport _ _ _ _ _) as [u|e] eqn:Hsel; simpl.
  2: { intros _ t' u [= <-]. apply Hc. }
  destruct (resolveServerTunnelIP _ _) as [serverIP|e] eqn:Hs; simpl.
  2: { unfold resolveServerTunnelIP in Hs. intros He. exfalso.
       destruct (rs_ServerTunnelIP r =? "")%string; simpl in Hs; [destruct a|destruct (ParseAddr _)];
         simplify_eq; by destruct He as [?|[?|?]]. }
  destruct device; simpl; [|by intros [?|[?|?]]].
  destruct Hc as [Hc1 Hc2]. unfold upgrades, bootstraps, is_multipath, shouldBootstrapDirectMultipath. simpl.
  split; [done|]. split; [done|]. split; [|split; [done|split]].
  - intros Hx. rewrite (Hws Hx) in *. split; [|done]. destruct u; [done|]. unfold compatible in Hc1.
    rewrite Hx in Hc1. simpl in Hc1. by rewrite andb_false_r in Hc1.
  - intros ->. split; [|done]. unfold compatible in Hc1. apply andb_true_iff in Hc1 as [[Hne _]%andb_true_iff _].
    unfold use_udp in Hudp. destruct (matchesIPVersion _ _); [done|]. rewrite andb_true_r in Hudp.
    destruct (rs_UDP r =? "")%string eqn:E; simpl in Hudp; simplify_eq. by rewrite E in Hne.
  - destruct u, mp, (udp =? "")%string; simpl; by rewrite ?andb_false_r.
Qed.
End addresses.

(** ** Examples *)
Lemma route_codes s : transportStateFromConnection (state_transport s) = s.
Proof. by destruct s. Qed.

Lemma preserve_route t : preserveTransportOnReconnect t = t.
Proof. by destruct t. Qed.

Definition toy_grant (proto host : string) (port : Z) : Tunnel := {|
  tn_Name := "web"; tn_Description := ""; tn_VirtualPort := 8080; tn_Protocol := proto;
  tn_UDPIdleTimeout := 0; tn_LocalPort := port; tn_LocalHost := host; tn_TargetHint := "";
  tn_Instructions := ""; tn_DocsURL := "";
|}.

Definition toy_options : Options := mkOptions false "" "" ∅ ∅ "" false.



(** A server that suggests the loopback with a zone gets a datagram listener
    on every interface: the zone passes the loopback test, but not
    [net.ParseIP]. *)
Example zone_exposes_listener :
  let loopback_zone := toy_String (Addr6 1 "z") in
  resolveTunnelHost "web" loopback_zone ∅ false "127.0.0.1" = (loopback_zone, true, ""%string)
  /\ open_tunnel ""%string ""%string (fun _ => Err ""%string) (fun ip port => Ok (ip, port)) toy_options
       (toy_grant "udp" loopback_zone 53) = Ok (None, 53).
Proof. vm_compute. split; reflexivity. Qed.

(** The user's override for a UDP tunnel by a name, as
    [--port web=localhost:53] sets it, binds every interface too. *)
Example hostname_override_exposes :
  let o := mkOptions false "" "" {["web"%string := "localhost"%string]} {["web"%string := 53]} "" false in
  open_tunnel ""%string ""%string (fun _ => Err ""%string) (fun ip port => Ok (ip, port)) o (toy_grant "udp" "" 0) = Ok (None, 53).
Proof. vm_compute. split; reflexivity. Qed.
