(* ===== verification/ClientUpgrade.v ===== *)
(** [pkg/client/directupgrade.go]: the upgrade ladder of a client that started
    on the WebSocket.  Its loop climbs to UDP over the relay and to direct UDP,
    checks the rung it stands on, and steps down.

    A tick of the loop is one step; it holds [transportMu], so the data plane
    is not replaced under it.  The answers of a tick's calls are in its
    environment, each call being made at most once.  Between ticks the
    WireGuard device may move the peer's endpoint itself, keepalive goroutines
    send, and a renewal rewrites the reported route.  A connection is
    multipath ([mp]) or roams one endpoint, for the life of its data plane. *)
From S2P Require Import Prelude Bytes Netip Protocol Frames Scheduler ServerAuth ClientTransport.
From S2P Require UdpRelay.

(** ** Pacing *)
Record directUpgradeTiming := mkTiming {
  initialDelay : Z;
  retryInterval : Z;
  healthCheckInterval : Z;
  reflectTimeout : Z;
  probeTimeout : Z;
  relayBindKeepalive : Z;
}.

Definition defaultDirectUpgradeTiming : directUpgradeTiming := {|
  initialDelay := 3 * second;
  retryInterval := 2 * minute;
  healthCheckInterval := 20 * second;
  reflectTimeout := 3 * second;
  probeTimeout := 3 * second;
  relayBindKeepalive := 15 * second;
|}.

(** The option overrides what it sets to more than zero. *)
Definition resolveDirectUpgradeTiming (o : option directUpgradeTiming) : directUpgradeTiming :=
  let t := defaultDirectUpgradeTiming in
  match o with
  | None => t
  | Some o =>
      let pick (f : directUpgradeTiming -> Z) := if 0 <? f o then f o else f t in
      mkTiming (pick initialDelay) (pick retryInterval) (pick healthCheckInterval)
        (pick reflectTimeout) (pick probeTimeout) (pick relayBindKeepalive)
  end.

(** ** Waiting for answers *)

(** A wake-up of [waitForMultipathPath], and a receive of [selfReflect]. *)
Inductive wake : Type := Ticked | Deadline | Stopped.

Inductive control : Type :=
  | Frame (typ : byte) (payload : list byte)
  | TimedOut.

(** The path's health at each look, and what ends the wait after it. *)
Fixpoint waitForMultipathPath (polls : list (bool * wake)) : bool :=
  match polls with
  | [] => false
  | (healthy, w) :: polls =>
      if healthy then true
      else match w with Ticked => waitForMultipathPath polls | Deadline | Stopped => false end
  end.

(** [sent]: the request left; the frames come after the queue was drained. *)
Fixpoint await_reflection (frames : list control) : option (list byte) :=
  match frames with
  | [] | TimedOut :: _ => None
  | Frame typ payload :: frames =>
      if bool_decide (typ = FrameReflectResponse) then Some payload else await_reflection frames
  end.

Definition selfReflect (sent : bool) (frames : list control) : option (list byte) :=
  if sent then await_reflection frames else None.

Record DirectCandidate := mkDirect { dc_ServerAddr : string; dc_RelayReflectAddr : string }.

Record PunchResponse := mkPunch {
  pn_ServerAddr : string;
  pn_RelayReflectAddr : string;
  pn_Candidates : list DirectCandidate;
}.

(** Reflector and server address. *)
Definition directCandidateForReflector (resp : PunchResponse) (reflector : string) : string * string :=
  match List.find (fun c => (reflector =? "")%string || (dc_RelayReflectAddr c =? reflector)%string)
          (pn_Candidates resp) with
  | Some c => (dc_RelayReflectAddr c, dc_ServerAddr c)
  | None => (pn_RelayReflectAddr resp, pn_ServerAddr resp)
  end.

(** ** The peer's endpoint *)

(** What an attempt sends. *)
Inductive effect : Type :=
  | SendReflect (addr : string)
  | SendPrime (addr : string)
  | SendBind (token addr : string)
  | Punch (clientAddr : list byte)
  | RegisterPath (name addr : string)
  | ResetRelayLegStats
  | UpdateEndpoint (addr : string) (ok : bool).

(** [aimed] is the address the loop itself last gave the peer, and [astray]
    says that it could not take a failed candidate back, or that the
    connection was closed when it stepped down. *)
Record wg := mkWg {
  peer : option string;
  lastRelayUDPToken : string;
  aimed : string;
  astray : bool;
}.

Definition update_endpoint (addr : string) (ok : bool) (w : wg) : wg :=
  if ok then mkWg (Some addr) (lastRelayUDPToken w) addr false else w.

(** Taking a candidate back, whose outcome the source ignores. *)
Definition take_back (addr : string) (ok : bool) (w : wg) : wg :=
  if ok then update_endpoint addr true w
  else mkWg (peer w) (lastRelayUDPToken w) (aimed w) true.

(** While a probe runs a packet may move the peer. *)
Definition roam (to : option string) (w : wg) : wg :=
  match to with
  | Some addr => mkWg (Some addr) (lastRelayUDPToken w) (aimed w) (astray w)
  | None => w
  end.

Definition with_token (tok : string) (w : wg) : wg := mkWg (peer w) tok (aimed w) (astray w).

(** ** Attempts *)
Record relay_env := mkRelayEnv {
  ru_resp : option UdpRelay.UDPRelayResponse;
  ru_send : bool;
  ru_open : bool;
  ru_parse : bool;
  ru_polls : list (bool * wake);
  ru_seed : bool;
  ru_probe : bool;
  ru_roam : option string;
  ru_found : bool;
  ru_back : bool;
}.

Inductive attempt : Type :=
  | Established (addr token : string)
  | Unavailable
  | NotNow.

(** After the probe: the peer must be where the attempt put it. *)
Definition holds_endpoint (addr : string) (w : wg) : bool := bool_decide (peer w = Some addr).

Definition tryUDPRelayUpgrade (mp : bool) (e : relay_env) (w : wg) : attempt * wg * list effect :=
  match ru_resp e with
  | None => (NotNow, w, [])
  | Some resp =>
      let addr := UdpRelay.rs_RelayAddr resp in
      let token := UdpRelay.rs_Token resp in
      if (addr =? "")%string || (token =? "")%string then (Unavailable, w, [])
      else
        let fresh := negb (token =? lastRelayUDPToken w)%string in
        let w := if fresh then with_token token w else w in
        let out := (if fresh && mp then [ResetRelayLegStats] else []) ++ [SendBind token addr] in
        if negb (ru_send e) || negb (ru_open e) then (NotNow, w, out)
        else if mp then
          if negb (ru_parse e) then (NotNow, w, out)
          else if waitForMultipathPath (ru_polls e)
          then (Established addr token, w, out ++ [RegisterPath "udp-relay" addr])
          else (NotNow, w, out ++ [RegisterPath "udp-relay" addr])
        else
          let out := out ++ [UpdateEndpoint addr (ru_seed e)] in
          if negb (ru_seed e) then (NotNow, w, out)
          else
            let w := roam (ru_roam e) (update_endpoint addr true w) in
            if ru_probe e && ru_found e && holds_endpoint addr w then (Established addr token, w, out)
            else (NotNow, take_back WSSentinel (ru_back e) w, out ++ [UpdateEndpoint WSSentinel (ru_back e)])
  end.

Record direct_env := mkDirectEnv {
  du_first : option PunchResponse;
  du_sent : bool;
  du_frames : list control;
  du_second : option PunchResponse;
  du_open : bool;
  du_primes : nat;
  du_parse : bool;
  du_polls : list (bool * wake);
  du_seed : bool;
  du_probe : bool;
  du_roam : option string;
  du_found : bool;
  du_back : bool;
}.

(** [primeAddr]: up to four pings, as many as leave; [n] is that number. *)
Definition primeAddr (n : nat) (addr : string) : list effect := replicate (min n 4) (SendPrime addr).

Definition tryDirectUpgrade (mp : bool) (e : direct_env) (fallback : string) (w : wg) :
    option string * wg * list effect :=
  match du_first e with
  | None => (None, w, [Punch []])
  | Some first =>
      let reflectAddr := (directCandidateForReflector first "").1 in
      if (reflectAddr =? "")%string then (None, w, [Punch []])
      else
        let out := [Punch []; SendReflect reflectAddr] in
        match selfReflect (du_sent e) (du_frames e) with
        | None => (None, w, out)
        | Some selfAddr =>
            let out := out ++ [Punch selfAddr] in
            match du_second e with
            | None => (None, w, out)
            | Some second =>
                let serverAddr := (directCandidateForReflector second reflectAddr).2 in
                if (serverAddr =? "")%string || negb (du_open e) then (None, w, out)
                else
                  let out := out ++ primeAddr (du_primes e) serverAddr in
                  if mp then
                    if negb (du_parse e) then (None, w, out)
                    else
                      let out := out ++ [RegisterPath "direct-udp" serverAddr] in
                      if waitForMultipathPath (du_polls e) then (Some serverAddr, w, out) else (None, w, out)
                  else
                    let out := out ++ [UpdateEndpoint serverAddr (du_seed e)] in
                    if negb (du_seed e) then (None, w, out)
                    else
                      let w := roam (du_roam e) (update_endpoint serverAddr true w) in
                      if du_probe e && du_found e && holds_endpoint serverAddr w then (Some serverAddr, w, out)
                      else (None, take_back fallback (du_back e) w,
                            out ++ [UpdateEndpoint fallback (du_back e)])
            end
        end
  end.

(** ** The ladder *)
Record ladder := mkLadder {
  state : transportState;
  relayCandidate : string;
  directCandidate : string;
  relayStop : option nat;
  nextDirectAttempt : Z;
  wait : Z;
}.

(** [running] are the keepalive goroutines by their stop channel, with token
    and address; [made] counts the channels; [reported] is the connection's
    published route. *)
Record sys := mkSys {
  ld : ladder;
  net : wg;
  reported : connectionTransport;
  running : gmap nat (string * string);
  made : nat;
  over : bool;
  pending_report : option connectionTransport;
  clock : Z;
  punches : list (Z * bool);
  out : list effect;
}.

(** What a tick reads.  [e_path] is the scheduler's view of a path's health,
    [e_found] and [e_probe] the answers of the device about the endpoint. *)
Record env := mkEnv {
  e_now : Z;
  e_relay : relay_env;
  e_direct : direct_env;
  e_path : string -> bool;
  e_open : bool;
  e_found : bool;
  e_probe : bool;
  e_set_open : bool;
  e_set : bool;
}.

Definition pathHealthy (mp : bool) (e : env) (candidate multipathName : string) (w : wg) : bool :=
  if mp then e_path e multipathName
  else e_open e && e_found e && holds_endpoint candidate w && e_probe e.

(** [setEndpoint]: a closed connection reports success and changes nothing. *)
Definition setEndpoint (e : env) (addr : string) (w : wg) : bool * wg :=
  if negb (e_set_open e) then (true, mkWg (peer w) (lastRelayUDPToken w) (aimed w) true)
  else (e_set e, update_endpoint addr (e_set e) w).

Section tick.
Context (t : directUpgradeTiming) (mp : bool).

Definition with_state (st : transportState) (l : ladder) : ladder :=
  mkLadder st (relayCandidate l) (directCandidate l) (relayStop l) (nextDirectAttempt l) (wait l).
Definition with_wait (d : Z) (l : ladder) : ladder :=
  mkLadder (state l) (relayCandidate l) (directCandidate l) (relayStop l) (nextDirectAttempt l) d.
Definition with_relay (addr : string) (l : ladder) : ladder :=
  mkLadder (state l) addr (directCandidate l) (relayStop l) (nextDirectAttempt l) (wait l).
Definition with_direct (addr : string) (l : ladder) : ladder :=
  mkLadder (state l) (relayCandidate l) addr (relayStop l) (nextDirectAttempt l) (wait l).
Definition with_stop (c : option nat) (l : ladder) : ladder :=
  mkLadder (state l) (relayCandidate l) (directCandidate l) c (nextDirectAttempt l) (wait l).
Definition with_next (at_ : Z) (l : ladder) : ladder :=
  mkLadder (state l) (relayCandidate l) (directCandidate l) (relayStop l) at_ (wait l).

Definition set_ladder (l : ladder) (s : sys) : sys :=
  mkSys l (net s) (reported s) (running s) (made s) (over s) (pending_report s) (clock s) (punches s) (out s).
Definition set_net (w : wg) (effs : list effect) (s : sys) : sys :=
  mkSys (ld s) w (reported s) (running s) (made s) (over s) (pending_report s) (clock s) (punches s) (out s ++ effs).
Definition set_running (m : gmap nat (string * string)) (s : sys) : sys :=
  mkSys (ld s) (net s) (reported s) m (made s) (over s) (pending_report s) (clock s) (punches s) (out s).
Definition log_punch (p : Z * bool) (s : sys) : sys :=
  mkSys (ld s) (net s) (reported s) (running s) (made s) (over s) (pending_report s) (clock s) (p :: punches s) (out s).

(** [state = next] and [transitionTransportCandidate]. *)
Definition transition (st : transportState) (s : sys) : sys :=
  mkSys (with_state st (ld s)) (net s) (state_transport st) (running s) (made s) (over s)
    (pending_report s) (clock s) (punches s) (out s).

Definition stopRelayKeepalive (s : sys) : sys :=
  match relayStop (ld s) with
  | Some c => set_ladder (with_stop None (ld s)) (set_running (delete c (running s)) s)
  | None => s
  end.

(** [relayStop = make(...)] and the keepalive goroutine. *)
Definition startRelayKeepalive (token addr : string) (s : sys) : sys :=
  mkSys (with_stop (Some (made s)) (ld s)) (net s) (reported s)
    (<[made s := (token, addr)]> (running s)) (S (made s)) (over s) (pending_report s) (clock s)
    (punches s) (out s).

Definition on_ladder (f : ladder -> ladder) (s : sys) : sys := set_ladder (f (ld s)) s.

(** One direct attempt, from the rung whose address is [fallback]. *)
Definition attempt_direct (e : env) (fallback : string) (s : sys) : option string * sys :=
  let '(r, w, effs) := tryDirectUpgrade mp (e_direct e) fallback (net s) in
  let direct := default ""%string r in
  (r, on_ladder (with_direct direct)
        (log_punch (e_now e, match r with Some _ => true | None => false end) (set_net w effs s))).

Definition tick_wss (e : env) (s : sys) : sys :=
  let '(r, w, effs) := tryUDPRelayUpgrade mp (e_relay e) (net s) in
  let s := set_net w effs s in
  match r with
  | Established addr token =>
      let s := startRelayKeepalive token addr (on_ladder (with_relay addr) s) in
      on_ladder (fun l => with_wait (healthCheckInterval t) (with_next time_zero l))
        (transition (nextTransportState (state (ld s)) transportUDPRelayEstablished false) s)
  | NotNow => on_ladder (fun l => with_wait (retryInterval t) (with_relay "" l)) s
  | Unavailable =>
      match attempt_direct e WSSentinel (on_ladder (with_relay "") s) with
      | (Some _, s) =>
          on_ladder (with_wait (healthCheckInterval t))
            (transition (nextTransportState (state (ld s)) transportDirectEstablished false) s)
      | (None, s) => on_ladder (with_wait (retryInterval t)) s
      end
  end.

(** The relay rung's step down, once the endpoint is back. *)
Definition leave_relay (s : sys) : sys :=
  on_ladder (fun l => with_wait (retryInterval t) (with_relay "" l))
    (stopRelayKeepalive
      (transition (nextTransportState (state (ld s)) transportUDPRelayLost false) s)).

Definition tick_relay (e : env) (s : sys) : sys :=
  if negb (pathHealthy mp e (relayCandidate (ld s)) PathUDPRelay (net s)) then
    if mp then leave_relay s
    else
      let '(ok, w) := setEndpoint e WSSentinel (net s) in
      let s := set_net w [UpdateEndpoint WSSentinel ok] s in
      if ok then leave_relay s else on_ladder (with_wait (healthCheckInterval t)) s
  else if time_after (nextDirectAttempt (ld s)) (e_now e) then
    on_ladder (with_wait (healthCheckInterval t)) s
  else
    let s := on_ladder (with_next (time_add (e_now e) (retryInterval t))) s in
    let '(r, s) := attempt_direct e (relayCandidate (ld s)) s in
    let s := match r with
             | Some _ => transition (nextTransportState (state (ld s)) transportDirectEstablished true) s
             | None => s
             end in
    on_ladder (with_wait (healthCheckInterval t)) s.

(** The direct rung's step down to [st]. *)
Definition leave_direct (e : env) (st : transportState) (s : sys) : sys :=
  on_ladder (fun l => with_wait (healthCheckInterval t)
      (with_next (time_add (e_now e) (retryInterval t)) (with_direct "" l)))
    (transition st s).

Definition tick_direct (e : env) (s : sys) : sys :=
  let l := ld s in
  if pathHealthy mp e (directCandidate l) PathDirect (net s) then
    on_ladder (with_wait (healthCheckInterval t)) s
  else if mp then
    let relayHealthy := negb (relayCandidate l =? "")%string && e_path e PathUDPRelay in
    leave_direct e (nextTransportState (state l) transportDirectLost relayHealthy) s
  else
    let nextState := nextTransportState (state l) transportDirectLost (negb (relayCandidate l =? "")%string) in
    let fallback := if bool_decide (nextState = transportStateUDPRelay) then relayCandidate l else WSSentinel in
    let '(ok, w) := setEndpoint e fallback (net s) in
    let s := set_net w [UpdateEndpoint fallback ok] s in
    if ok then leave_direct e nextState s else on_ladder (with_wait (healthCheckInterval t)) s.

Definition tick (e : env) (s : sys) : sys :=
  match state (ld s) with
  | transportStateWSSRelay => tick_wss e s
  | transportStateUDPRelay => tick_relay e s
  | transportStateDirect | transportStateDirectViaRelayReflector => tick_direct e s
  | _ => s
  end.

(** ** Everything that happens beside it *)
Inductive label : Type :=
  | LTick (e : env)
  | LEnd
  | LRoam (addr : option string)
  | LKeepalive (c : nat)
  | LRenewLoad
  | LRenewStore.

Definition set_clock (now : Z) (s : sys) : sys :=
  mkSys (ld s) (net s) (reported s) (running s) (made s) (over s) (pending_report s) now (punches s) (out s).

(** A tick comes no sooner than its wait after the previous one.  A renewal
    loads the route and later stores what it makes of it. *)
Definition step (l : label) (s : sys) : option sys :=
  match l with
  | LTick e =>
      if over s || (e_now e <? clock s + wait (ld s)) then None else Some (set_clock (e_now e) (tick e s))
  | LEnd =>
      if over s then None
      else let s := stopRelayKeepalive s in
           Some (mkSys (ld s) (net s) (reported s) (running s) (made s) true (pending_report s) (clock s)
                   (punches s) (out s))
  | LRoam addr =>
      let w := net s in
      Some (set_net (mkWg addr (lastRelayUDPToken w) (aimed w) (astray w)) [] s)
  | LKeepalive c =>
      match running s !! c with
      | Some (token, addr) => Some (set_net (net s) [SendBind token addr] s)
      | None => None
      end
  | LRenewLoad =>
      match pending_report s with
      | Some _ => None
      | None => Some (mkSys (ld s) (net s) (reported s) (running s) (made s) (over s)
                        (Some (preserveTransportOnReconnect (reported s))) (clock s) (punches s) (out s))
      end
  | LRenewStore =>
      match pending_report s with
      | Some r => Some (mkSys (ld s) (net s) r (running s) (made s) (over s) None (clock s) (punches s) (out s))
      | None => None
      end
  end.

Fixpoint run (ls : list label) (s : sys) : option sys :=
  match ls with
  | [] => Some s
  | l :: ls => match step l s with Some s' => run ls s' | None => None end
  end.

(** The loop at its start, [now], for a server that advertised [udp]. *)
Definition start (now : Z) (udp : string) : sys := {|
  ld := mkLadder transportStateWSSRelay "" "" None time_zero (initialDelay t);
  net := mkWg (Some WSSentinel) "" WSSentinel false;
  reported := initialTransport true udp;
  running := ∅; made := 0; over := false; pending_report := None; clock := now;
  punches := []; out := [];
|}.

(** ** Invariant *)

(** A keepalive goroutine runs for the candidate, and the loop can stop it. *)
Definition kept_alive (s : sys) (addr : string) : Prop :=
  exists c token, relayStop (ld s) = Some c /\ running s !! c = Some (token, addr).

(** The address a rung stands on. *)
Definition rung_address (l : ladder) : string :=
  match state l with
  | transportStateUDPRelay => relayCandidate l
  | transportStateDirectViaRelayReflector => directCandidate l
  | _ => WSSentinel
  end.

Definition on_rung (l : ladder) : Prop :=
  match state l with
  | transportStateWSSRelay => True
  | transportStateUDPRelay => relayCandidate l <> ""%string
  | transportStateDirectViaRelayReflector => directCandidate l <> ""%string
  | _ => False
  end.

Record inv (s : sys) : Prop := mkInv {
  iv_rung : on_rung (ld s);
  iv_fresh : forall c v, running s !! c = Some v -> (c < made s)%nat;
  iv_warm : over s = false -> relayCandidate (ld s) <> ""%string -> kept_alive s (relayCandidate (ld s));
  iv_stop : forall c, relayStop (ld s) = Some c -> is_Some (running s !! c);
  iv_one : mp = false -> forall c, is_Some (running s !! c) ->
    relayStop (ld s) = Some c /\ relayCandidate (ld s) <> ""%string /\ state (ld s) <> transportStateWSSRelay;
  iv_over : over s = true -> relayStop (ld s) = None;
  iv_aim : mp = false -> astray (net s) = false -> aimed (net s) = rung_address (ld s);
  iv_astray : astray (net s) = true -> mp = false /\ state (ld s) <> transportStateDirectViaRelayReflector;
}.

(** What an attempt that fails may do to the endpoint. *)
Definition came_back (target : string) (w w' : wg) : Prop :=
  aimed w' = aimed w /\ astray w' = astray w
  \/ mp = false /\ (aimed w' = target /\ astray w' = false \/ astray w' = true).

(** What one that succeeds has seen. *)
Definition proven (addr : string) (polls : list (bool * wake)) (probe : bool) (w w' : wg) : Prop :=
  if mp then waitForMultipathPath polls = true /\ aimed w' = aimed w /\ astray w' = astray w
  else probe = true /\ peer w' = Some addr /\ aimed w' = addr /\ astray w' = false.

Lemma relay_attempt e w r w' effs :
  tryUDPRelayUpgrade mp e w = (r, w', effs) ->
  match r with
  | Established addr token =>
      (exists resp, ru_resp e = Some resp /\ UdpRelay.rs_RelayAddr resp = addr /\ UdpRelay.rs_Token resp = token)
      /\ addr <> ""%string /\ token <> ""%string /\ ru_send e = true
      /\ proven addr (ru_polls e) (ru_probe e) w w'
  | Unavailable => w' = w
  | NotNow => came_back WSSentinel w w'
  end.
Proof.
  unfold tryUDPRelayUpgrade, came_back, proven. destruct (ru_resp e) as [resp|]; [|intros [= <- <- <-]; auto].
  destruct (String.eqb_spec (UdpRelay.rs_RelayAddr resp) "") as [|Ha]; [by intros [= <- <- <-]|].
  destruct (String.eqb_spec (UdpRelay.rs_Token resp) "") as [|Hk]; [by intros [= <- <- <-]|]. simpl.
  set (w1 := if negb _ then _ else _).
  assert (Hw1 : aimed w1 = aimed w /\ astray w1 = astray w) by (unfold w1; by destruct (negb _)).
  destruct (ru_send e); simpl; [|intros [= <- <- <-]; auto].
  destruct (ru_open e); simpl; [|intros [= <- <- <-]; auto].
  destruct mp.
  - destruct (ru_parse e); simpl; [|intros [= <- <- <-]; auto].
    destruct (waitForMultipathPath _) eqn:Hp; intros [= <- <- <-]; [|auto]. eauto 10.
  - destruct (ru_seed e); simpl; [|intros [= <- <- <-]; auto].
    destruct (ru_probe e && ru_found e && holds_endpoint _ _) eqn:Hh; intros [= <- <- <-].
    + apply andb_true_iff in Hh as [[Hp _]%andb_true_iff Hh]. apply bool_decide_eq_true in Hh.
      repeat split; eauto; by destruct (ru_roam e).
    + right. split; [done|]. destruct (ru_back e); simpl; auto.
Qed.

Lemma direct_attempt e fallback w r w' effs :
  tryDirectUpgrade mp e fallback w = (r, w', effs) ->
  match r with
  | Some addr => addr <> ""%string /\ proven addr (du_polls e) (du_probe e) w w'
  | None => came_back fallback w w'
  end.
Proof.
  unfold tryDirectUpgrade, came_back, proven. destruct (du_first e) as [first|]; [|intros [= <- <- <-]; auto].
  destruct (_ =? "")%string; [intros [= <- <- <-]; auto|].
  destruct (selfReflect _ _); [|intros [= <- <- <-]; auto].
  destruct (du_second e) as [second|]; [|intros [= <- <- <-]; auto].
  destruct (String.eqb_spec (directCandidateForReflector second (directCandidateForReflector first "").1).2 "") as [|Ha];
    [intros [= <- <- <-]; auto|]. simpl.
  destruct (du_open e); simpl; [|intros [= <- <- <-]; auto].
  destruct mp.
  - destruct (du_parse e); simpl; [|intros [= <- <- <-]; auto].
    destruct (waitForMultipathPath _) eqn:Hp; intros [= <- <- <-]; auto.
  - destruct (du_seed e); simpl; [|intros [= <- <- <-]; auto].
    destruct (du_probe e && du_found e && holds_endpoint _ _) eqn:Hh; intros [= <- <- <-].
    + apply andb_true_iff in Hh as [[Hp _]%andb_true_iff Hh]. apply bool_decide_eq_true in Hh.
      repeat split; eauto; by destruct (du_roam e).
    + right. split; [done|]. destruct (du_back e); simpl; auto.
Qed.

(** ** The invariant is kept *)

(** Changes of the network alone. *)
Lemma ladder_net s w effs :
  inv s -> came_back (rung_address (ld s)) (net s) w ->
  (astray w = true -> state (ld s) <> transportStateDirectViaRelayReflector) -> inv (set_net w effs s).
Proof.
  intros [] Hc Hd. constructor; cbn [set_net ld net running made over]; try done.
  - intros Hmp Ha. destruct Hc as [[-> Hs]|[_ [[-> _]|Hs]]]; [|done|congruence]. apply iv_aim0; congruence.
  - intros Ha. split; [|auto]. destruct Hc as [[_ Hs]|[? _]]; [|done].
    by destruct (iv_astray0 (eq_trans (eq_sym Hs) Ha)).
Qed.

Lemma on_ladder_comp f g s : on_ladder (fun l => f (g l)) s = on_ladder f (on_ladder g s).
Proof. done. Qed.

(** The loop's own variables that matter little to it. *)
Lemma ladder_wait s d : inv s -> inv (on_ladder (with_wait d) s).
Proof. by intros []. Qed.
Lemma ladder_next s d : inv s -> inv (on_ladder (with_next d) s).
Proof. by intros []. Qed.
Lemma ladder_log s p : inv s -> inv (log_punch p s).
Proof. by intros []. Qed.
Lemma ladder_clock s now : inv s -> inv (set_clock now s).
Proof. by intros []. Qed.

Lemma ladder_forget_relay s : state (ld s) = transportStateWSSRelay -> inv s -> inv (on_ladder (with_relay "") s).
Proof.
  intros Hst []. constructor; simpl; try done.
  - unfold on_rung in *. simpl. by rewrite Hst in *.
  - intros Hmp c Hc. by destruct (iv_one0 Hmp c Hc) as (_ & _ & ?).
  - unfold rung_address in *. simpl. by rewrite Hst in *.
Qed.

Lemma ladder_direct s addr :
  state (ld s) <> transportStateDirectViaRelayReflector -> inv s -> inv (on_ladder (with_direct addr) s).
Proof.
  intros Hst []. constructor; simpl; try done; unfold on_rung, rung_address in *; simpl.
  - by destruct (state (ld s)).
  - by destruct (state (ld s)).
Qed.

(** Climbing to the relay. *)
Lemma ladder_to_relay s w effs addr token :
  state (ld s) = transportStateWSSRelay -> inv s -> over s = false -> addr <> ""%string ->
  (mp = false -> aimed w = addr /\ astray w = false) -> (mp = true -> astray w = astray (net s)) ->
  inv (transition transportStateUDPRelay
         (startRelayKeepalive token addr (on_ladder (with_relay addr) (set_net w effs s)))).
Proof.
  intros Hst [] Hov Ha Hl Hm. constructor; simpl; try done.
  - intros c v [[<- _]|[_ H]]%lookup_insert_Some; [lia|]. apply iv_fresh0 in H. lia.
  - intros _ _. exists (made s), token. simpl. by rewrite lookup_insert_eq.
  - intros c [= <-]. rewrite lookup_insert_eq. eauto.
  - intros Hmp c [v [[<- _]|[_ H]]%lookup_insert_Some]; [done|].
    destruct (iv_one0 Hmp c (ex_intro _ v H)) as (_ & _ & ?). done.
  - congruence.
  - intros Hmp _. by destruct (Hl Hmp).
  - intros Hs. exfalso. destruct mp; [|by destruct (Hl eq_refl) as [_ ?]; congruence].
    rewrite Hm in Hs by done. by destruct (iv_astray0 Hs).
Qed.

(** Climbing to the direct path. *)
Lemma ladder_to_direct s w effs addr :
  state (ld s) <> transportStateDirectViaRelayReflector -> inv s -> addr <> ""%string ->
  (mp = false -> aimed w = addr /\ astray w = false) -> (mp = true -> astray w = astray (net s)) ->
  inv (transition transportStateDirectViaRelayReflector (on_ladder (with_direct addr) (set_net w effs s))).
Proof.
  intros Hst [] Ha Hl Hm. constructor; simpl; try done.
  - intros Hmp c Hc. destruct (iv_one0 Hmp c Hc) as (? & ? & _). done.
  - intros Hmp _. by destruct (Hl Hmp).
  - intros Hs. exfalso. destruct mp; [|by destruct (Hl eq_refl) as [_ ?]; congruence].
    rewrite Hm in Hs by done. by destruct (iv_astray0 Hs).
Qed.

Lemma set_net_id s : set_net (net s) [] s = s.
Proof. destruct s. unfold set_net. simpl. by rewrite app_nil_r. Qed.

(** Stepping down from the relay, the endpoint being taken back first. *)
Lemma ladder_leave_relay s w effs :
  state (ld s) = transportStateUDPRelay -> inv s ->
  (mp = false -> astray w = false -> aimed w = WSSentinel) -> (astray w = true -> mp = false) ->
  inv (leave_relay (set_net w effs s)).
Proof.
  intros Hst [] Ha Hw. unfold leave_relay, stopRelayKeepalive. simpl. rewrite Hst.
  destruct (relayStop (ld s)) as [c|] eqn:Hc; constructor; simpl; try done.
  - intros c' v [_ H]%lookup_delete_Some. eauto.
  - intros Hmp c' [v [Hne H]%lookup_delete_Some].
    destruct (iv_one0 Hmp c' (ex_intro _ v H)) as (? & _). congruence.
  - intros Hs. by split; [apply Hw|].
  - intros c'. by rewrite Hc.
  - intros Hmp c' H. destruct (iv_one0 Hmp c' H) as (? & _). congruence.
  - intros Hs. by split; [apply Hw|].
Qed.

(** Stepping down from the direct path. *)
Lemma ladder_leave_direct e s w effs st :
  st = transportStateUDPRelay /\ relayCandidate (ld s) <> ""%string
    \/ st = transportStateWSSRelay /\ (mp = false -> relayCandidate (ld s) = ""%string) ->
  inv s ->
  (mp = false -> astray w = false -> aimed w = rung_address (with_state st (ld s))) ->
  (astray w = true -> mp = false) -> inv (leave_direct e st (set_net w effs s)).
Proof.
  intros Hst [] Ha Hw. unfold leave_direct. constructor; simpl; try done.
  - unfold on_rung. simpl. destruct Hst as [[-> ?]|[-> _]]; done.
  - intros Hmp c Hc. destruct (iv_one0 Hmp c Hc) as (? & ? & _). repeat split; try done.
    destruct Hst as [[-> ?]|[-> He]]; [done|]. by rewrite He in *.
  - intros Hmp Hs. rewrite (Ha Hmp Hs). unfold rung_address. simpl.
    by destruct Hst as [[-> ?]|[-> _]].
  - intros Hs. split; [by apply Hw|]. by destruct Hst as [[-> ?]|[-> _]].
Qed.

Lemma came_back_mp target w w' : came_back target w w' -> mp = true -> astray w' = astray w.
Proof. by intros [[_ ?]|[? _]] ?; [|congruence]. Qed.

Lemma proven_legacy addr polls probe w w' :
  proven addr polls probe w w' -> mp = false -> aimed w' = addr /\ astray w' = false.
Proof. unfold proven. intros H Hmp. rewrite Hmp in H. by destruct H as (_ & _ & ? & ?). Qed.

Lemma proven_mp addr polls probe w w' :
  proven addr polls probe w w' -> mp = true -> astray w' = astray w.
Proof. unfold proven. intros H Hmp. rewrite Hmp in H. by destruct H as (_ & _ & ?). Qed.

(** A direct attempt that fails leaves the invariant; one that succeeds is
    followed by the climb. *)
Lemma ladder_attempt_direct e s r s' :
  state (ld s) <> transportStateDirectViaRelayReflector -> inv s ->
  attempt_direct e (rung_address (ld s)) s = (r, s') ->
  match r with
  | Some _ => inv (transition transportStateDirectViaRelayReflector s')
  | None => inv s'
  end /\ state (ld s') = state (ld s).
Proof.
  intros Hst Hinv. unfold attempt_direct.
  destruct (tryDirectUpgrade _ _ _ _) as [[r' w] effs] eqn:Ht. intros [= <- <-].
  apply direct_attempt in Ht. split; [|done]. destruct r' as [addr|]; cbn [default].
  - destruct Ht as [Ha Hp].
    change (inv (log_punch (e_now e, true)
      (transition transportStateDirectViaRelayReflector (on_ladder (with_direct addr) (set_net w effs s))))).
    apply ladder_log, ladder_to_direct; eauto using proven_legacy, proven_mp.
  - change (inv (log_punch (e_now e, false) (on_ladder (with_direct "") (set_net w effs s)))).
    apply ladder_log, ladder_direct; [done|]. apply ladder_net; auto.
Qed.

Lemma ladder_tick_wss e s : state (ld s) = transportStateWSSRelay -> over s = false -> inv s -> inv (tick_wss e s).
Proof.
  intros Hst Hov Hinv. unfold tick_wss.
  destruct (tryUDPRelayUpgrade _ _ _) as [[r w] effs] eqn:Ht. apply relay_attempt in Ht.
  assert (Hrung : rung_address (ld s) = WSSentinel) by (unfold rung_address; by rewrite Hst).
  destruct r as [addr token| |].
  - destruct Ht as (_ & Ha & _ & _ & Hp). simpl state. rewrite Hst.
    rewrite (on_ladder_comp (with_wait (healthCheckInterval t)) (with_next time_zero)).
    apply ladder_wait, ladder_next, ladder_to_relay; eauto using proven_legacy, proven_mp.
  - subst w. assert (Hs : inv (on_ladder (with_relay "") (set_net (net s) effs s))).
    { apply ladder_forget_relay; [done|]. apply ladder_net; [done|by left|].
      intros ?. by rewrite Hst. }
    set (s1 := on_ladder _ _) in *.
    assert (Hr1 : rung_address (ld s1) = WSSentinel) by (unfold rung_address; simpl; by rewrite Hst).
    rewrite <-Hr1. destruct (attempt_direct e (rung_address (ld s1)) s1) as [r s'] eqn:Hd.
    apply ladder_attempt_direct in Hd as [Hi Hs']; [|simpl; by rewrite Hst|done].
    destruct r as [addr|]; [|by apply ladder_wait].
    apply ladder_wait. rewrite Hs'. simpl. by rewrite Hst.
  - rewrite (on_ladder_comp (with_wait (retryInterval t)) (with_relay "")).
    apply ladder_wait, ladder_forget_relay; [done|].
    apply ladder_net; [done| |intros _; by rewrite Hst]. by rewrite Hrung.
Qed.

Lemma set_endpoint_spec e addr w ok w' :
  setEndpoint e addr w = (ok, w') -> if ok then astray w' = false -> aimed w' = addr else w' = w.
Proof.
  unfold setEndpoint. destruct (e_set_open e); simpl; [|by intros [= <- <-]].
  destruct (e_set e); by intros [= <- <-].
Qed.

(** A step down that failed leaves the endpoint. *)
Lemma ladder_stay s w addr : inv s -> w = net s -> inv (on_ladder (with_wait (healthCheckInterval t))
  (set_net w [UpdateEndpoint addr false] s)).
Proof.
  intros Hinv ->. apply ladder_wait, ladder_net; [done|by left|].
  intros H. by destruct (iv_astray _ Hinv H).
Qed.

Lemma ladder_tick_relay e s : state (ld s) = transportStateUDPRelay -> inv s -> inv (tick_relay e s).
Proof.
  intros Hst Hinv. unfold tick_relay.
  assert (Hrung : rung_address (ld s) = relayCandidate (ld s)) by (unfold rung_address; by rewrite Hst).
  destruct (pathHealthy _ _ _ _ _); simpl negb; cbv iota.
  - destruct (time_after _ _); [by apply ladder_wait|].
    set (s1 := on_ladder (with_next _) s).
    assert (Hi1 : inv s1) by by apply ladder_next.
    change (relayCandidate (ld s)) with (relayCandidate (ld s1)).
    assert (Hr1 : rung_address (ld s1) = relayCandidate (ld s1)) by (unfold rung_address; simpl; by rewrite Hst).
    rewrite <-Hr1. destruct (attempt_direct e (rung_address (ld s1)) s1) as [r s'] eqn:Hd.
    apply ladder_attempt_direct in Hd as [Hi Hs']; [|simpl; by rewrite Hst|done].
    apply ladder_wait. destruct r as [addr|]; [|done]. rewrite Hs'. simpl. by rewrite Hst.
  - destruct mp eqn:Hmp; [rewrite <-(set_net_id s); apply ladder_leave_relay; [done|done|congruence|]
      |destruct (setEndpoint _ _ _) as [ok w] eqn:Hs; apply set_endpoint_spec in Hs; destruct ok].
    + intros H. by destruct (iv_astray _ Hinv H).
    + by apply ladder_leave_relay.
    + by apply ladder_stay.
Qed.

Lemma ladder_tick_direct e s :
  state (ld s) = transportStateDirectViaRelayReflector -> inv s -> inv (tick_direct e s).
Proof.
  intros Hst Hinv. unfold tick_direct. destruct (pathHealthy _ _ _ _ _); [by apply ladder_wait|].
  destruct mp eqn:Hmp.
  - set (st := nextTransportState _ _ _). rewrite <-(set_net_id s).
    apply ladder_leave_direct; [|done|congruence|].
    + unfold st. rewrite Hst. simpl. destruct (String.eqb_spec (relayCandidate (ld s)) "") as [He|He]; simpl; [by right|].
      destruct (e_path e PathUDPRelay); [left|right]; split; congruence.
    + intros H. by destruct (iv_astray _ Hinv H).
  - rewrite Hst. simpl. set (st := if negb (relayCandidate (ld s) =? "")%string then _ else _).
    set (fallback := if bool_decide _ then _ else _).
    destruct (setEndpoint _ _ _) as [ok w] eqn:Hs. apply set_endpoint_spec in Hs.
    destruct ok; [|by apply ladder_stay].
    assert (Hf : fallback = rung_address (with_state st (ld s))).
    { unfold fallback, rung_address, st. simpl. by destruct (negb _). }
    apply ladder_leave_direct; [|done| |done].
    + unfold st. destruct (String.eqb_spec (relayCandidate (ld s)) "") as [He|He]; simpl; [right|left]; done.
    + intros _ Ha. by rewrite <-Hf, Hs.
Qed.

Lemma ladder_tick e s : over s = false -> inv s -> inv (tick e s).
Proof.
  intros Hov Hinv. pose proof (iv_rung _ Hinv) as Hr. unfold tick, on_rung in *.
  destruct (state (ld s)) eqn:Hst; try done;
    [by apply ladder_tick_direct|by apply ladder_tick_wss|by apply ladder_tick_relay].
Qed.

Lemma ladder_step l s s' : inv s -> step l s = Some s' -> inv s'.
Proof.
  intros Hinv. destruct l as [e| |addr|c| |]; cbn [step].
  - destruct (over s) eqn:Hov; simpl; [done|]. destruct (_ <? _); [done|]. intros [= <-].
    by apply ladder_clock, ladder_tick.
  - destruct (over s) eqn:Hov; [done|]. intros [= <-]. destruct Hinv. unfold stopRelayKeepalive.
    destruct (relayStop (ld s)) as [c|] eqn:Hc; constructor; simpl; try done.
    + intros c' v [_ H]%lookup_delete_Some. eauto.
    + intros Hmp c' [v [Hne H]%lookup_delete_Some].
      destruct (iv_one0 Hmp c' (ex_intro _ v H)) as (? & _). congruence.
    + intros c'. by rewrite Hc.
    + intros Hmp c' H. destruct (iv_one0 Hmp c' H) as (? & _). congruence.
  - intros [= <-]. destruct Hinv. by constructor.
  - destruct (running s !! c) as [[token addr]|]; [|done]. intros [= <-]. destruct Hinv. by constructor.
  - destruct (pending_report s); [done|]. intros [= <-]. destruct Hinv. by constructor.
  - destruct (pending_report s); [|done]. intros [= <-]. destruct Hinv. by constructor.
Qed.

Lemma ladder_start now udp : inv (start now udp).
Proof.
  constructor; simpl; try done; try (intros; set_solver).
  intros _ c [v H]. by rewrite lookup_empty in H.
Qed.

Lemma ladder_run ls s s' : inv s -> run ls s = Some s' -> inv s'.
Proof.
  induction ls as [|l ls IH] in s |- *; simpl; [by intros ? [= <-]|].
  intros Hs. destruct (step l s) as [s1|] eqn:Hl; [|done]. apply IH. by eapply ladder_step.
Qed.

(** ** The published route *)
Definition renewal (l : label) : Prop := l = LRenewLoad \/ l = LRenewStore.

Definition published (udp : string) (s : sys) : Prop :=
  reported s = state_transport (state (ld s))
  \/ state (ld s) = transportStateWSSRelay /\ reported s = initialTransport true udp.

Lemma attempt_direct_frame e f s r s' :
  attempt_direct e f s = (r, s') ->
  state (ld s') = state (ld s) /\ reported s' = reported s /\ over s' = over s /\ clock s' = clock s
  /\ nextDirectAttempt (ld s') = nextDirectAttempt (ld s)
  /\ punches s' = (e_now e, match r with Some _ => true | None => false end) :: punches s.
Proof.
  unfold attempt_direct. destruct (tryDirectUpgrade _ _ _ _) as [[r' w] effs]. by intros [= <- <-].
Qed.

Lemma stop_frame s :
  state (ld (stopRelayKeepalive s)) = state (ld s) /\ reported (stopRelayKeepalive s) = reported s
  /\ punches (stopRelayKeepalive s) = punches s /\ clock (stopRelayKeepalive s) = clock s
  /\ nextDirectAttempt (ld (stopRelayKeepalive s)) = nextDirectAttempt (ld s)
  /\ wait (ld (stopRelayKeepalive s)) = wait (ld s).
Proof. unfold stopRelayKeepalive. by destruct (relayStop _). Qed.

Lemma leave_relay_frame s :
  state (ld s) = transportStateUDPRelay ->
  state (ld (leave_relay s)) = transportStateWSSRelay /\ reported (leave_relay s) = transportWSSRelay
  /\ punches (leave_relay s) = punches s /\ wait (ld (leave_relay s)) = retryInterval t.
Proof.
  intros Hst. unfold leave_relay.
  destruct (stop_frame (transition (nextTransportState (state (ld s)) transportUDPRelayLost false) s))
    as (H1 & H2 & H3 & _).
  cbn [on_ladder set_ladder ld with_wait with_relay state reported punches wait].
  rewrite H1, H2, H3. simpl. by rewrite Hst.
Qed.

(** ** What a tick can do *)

(** The health check of the rung failed, and the endpoint, where there is one
    to move, is back at [addr] or the connection is closed. *)
Definition gave_up (e : env) (candidate name addr : string) (s : sys) : Prop :=
  pathHealthy mp e candidate name (net s) = false /\ (mp = false -> fst (setEndpoint e addr (net s)) = true).

(** What justifies standing on the direct rung, and on the relay's. *)
Definition direct_evidence (e : env) (s s' : sys) : Prop :=
  directCandidate (ld s') <> ""%string
  /\ proven (directCandidate (ld s')) (du_polls (e_direct e)) (du_probe (e_direct e)) (net s) (net s').

Definition relay_evidence (e : env) (s s' : sys) : Prop :=
  relayCandidate (ld s') <> ""%string
  /\ proven (relayCandidate (ld s')) (ru_polls (e_relay e)) (ru_probe (e_relay e)) (net s) (net s').

Inductive moves (e : env) (s s' : sys) : Prop :=
  | Climbs : state (ld s) = transportStateWSSRelay -> state (ld s') = transportStateUDPRelay ->
      relay_evidence e s s' -> reported s' = transportUDPRelay -> punches s' = punches s ->
      wait (ld s') = healthCheckInterval t -> moves e s s'
  | Rests : state (ld s') = state (ld s) -> reported s' = reported s -> punches s' = punches s ->
      nextDirectAttempt (ld s') = nextDirectAttempt (ld s) ->
      wait (ld s') = retryInterval t \/ wait (ld s') = healthCheckInterval t -> moves e s s'
  | Tries (ok : bool) : state (ld s) <> transportStateDirectViaRelayReflector ->
      (state (ld s) = transportStateUDPRelay -> nextDirectAttempt (ld s) <= e_now e
         /\ nextDirectAttempt (ld s') = e_now e + retryInterval t) ->
      punches s' = (e_now e, ok) :: punches s ->
      (if ok then state (ld s') = transportStateDirectViaRelayReflector
                  /\ reported s' = transportUDPRelayReflector /\ direct_evidence e s s'
                  /\ wait (ld s') = healthCheckInterval t
       else state (ld s') = state (ld s) /\ reported s' = reported s /\
            (state (ld s) = transportStateWSSRelay -> wait (ld s') = retryInterval t)
            /\ (state (ld s) = transportStateUDPRelay -> wait (ld s') = healthCheckInterval t)) -> moves e s s'
  | Falls : state (ld s) = transportStateUDPRelay -> state (ld s') = transportStateWSSRelay ->
      gave_up e (relayCandidate (ld s)) PathUDPRelay WSSentinel s ->
      reported s' = transportWSSRelay -> punches s' = punches s ->
      wait (ld s') = retryInterval t -> moves e s s'
  | Drops st : state (ld s) = transportStateDirectViaRelayReflector -> state (ld s') = st ->
      gave_up e (directCandidate (ld s)) PathDirect
        (if bool_decide (st = transportStateUDPRelay) then relayCandidate (ld s) else WSSentinel) s ->
      (st = transportStateUDPRelay /\ relayCandidate (ld s) <> ""%string
         /\ (mp = true -> e_path e PathUDPRelay = true)
       \/ st = transportStateWSSRelay
         /\ (relayCandidate (ld s) = ""%string \/ mp = true /\ e_path e PathUDPRelay = false)) ->
      reported s' = state_transport st -> punches s' = punches s ->
      wait (ld s') = healthCheckInterval t -> moves e s s'.

Lemma attempt_direct_evidence e f s addr s' :
  attempt_direct e f s = (Some addr, s') ->
  directCandidate (ld s') = addr /\ addr <> ""%string
  /\ proven addr (du_polls (e_direct e)) (du_probe (e_direct e)) (net s) (net s').
Proof.
  unfold attempt_direct. destruct (tryDirectUpgrade _ _ _ _) as [[r' w] effs] eqn:Ht.
  apply direct_attempt in Ht. intros [= -> <-]. by destruct Ht.
Qed.

(** An attempt from the WebSocket or the relay, and the wait after it. *)
Lemma moves_attempt e f s s1 r s2 d :
  attempt_direct e f s1 = (r, s2) ->
  (state (ld s) = transportStateWSSRelay \/ state (ld s) = transportStateUDPRelay) ->
  state (ld s1) = state (ld s) -> reported s1 = reported s -> punches s1 = punches s -> net s1 = net s ->
  (state (ld s) = transportStateUDPRelay -> nextDirectAttempt (ld s) <= e_now e
     /\ nextDirectAttempt (ld s1) = e_now e + retryInterval t) ->
  d = match r with
      | None => if bool_decide (state (ld s) = transportStateWSSRelay) then retryInterval t else healthCheckInterval t
      | Some _ => healthCheckInterval t
      end ->
  moves e s (on_ladder (with_wait d)
    (match r with Some _ => transition transportStateDirectViaRelayReflector s2 | None => s2 end)).
Proof.
  intros Ha Hst H1 H2 H3 H4 Hn ->.
  pose proof (attempt_direct_frame _ _ _ _ _ Ha) as (F1 & F2 & _ & _ & F5 & F6).
  apply (Tries _ _ _ (match r with Some _ => true | None => false end)).
  - destruct Hst; congruence.
  - intros H. apply Hn in H as [? ?]. destruct r; simpl; split; try done; congruence.
  - destruct r; simpl; congruence.
  - destruct r as [addr|].
    + apply attempt_direct_evidence in Ha as (He & Hne & Hp). unfold direct_evidence. simpl.
      rewrite He, <-H4. auto.
    + simpl. split_and!; try congruence; intros ->; done.
Qed.

Lemma moves_wss e s : state (ld s) = transportStateWSSRelay -> moves e s (tick_wss e s).
Proof.
  intros Hst. unfold tick_wss.
  destruct (tryUDPRelayUpgrade _ _ _) as [[r w] effs] eqn:Ht. apply relay_attempt in Ht.
  destruct r as [addr token| |].
  - destruct Ht as (_ & Ha & _ & _ & Hp).
    apply Climbs; simpl; try done; rewrite ?Hst; try done.
  - subst w. destruct (attempt_direct _ _ _) as [r s2] eqn:Hd.
    pose proof (attempt_direct_frame _ _ _ _ _ Hd) as (F1 & _).
    assert (Hm := moves_attempt e WSSentinel s _ r s2
      (match r with Some _ => healthCheckInterval t | None => retryInterval t end) Hd (or_introl Hst)).
    cbn [on_ladder set_ladder set_net ld state reported punches net with_relay] in Hm.
    destruct r as [addr|].
    + rewrite F1. simpl. rewrite Hst. simpl. apply Hm; try done. by rewrite Hst.
    + apply Hm; try done; by rewrite ?Hst.
  - apply Rests; simpl; auto.
Qed.

Lemma moves_relay e s : state (ld s) = transportStateUDPRelay -> moves e s (tick_relay e s).
Proof.
  intros Hst. unfold tick_relay. destruct (pathHealthy _ _ _ _ _) eqn:Hh; simpl negb; cbv iota.
  - destruct (time_after _ _) eqn:Hn; [apply Rests; simpl; auto|].
    unfold time_after in Hn. apply Z.ltb_ge in Hn. cbn [on_ladder set_ladder ld with_next relayCandidate].
    destruct (attempt_direct _ _ _) as [r s2] eqn:Hd.
    pose proof (attempt_direct_frame _ _ _ _ _ Hd) as (F1 & _).
    assert (Hm := moves_attempt e _ s _ r s2 (healthCheckInterval t) Hd (or_intror Hst)).
    destruct r as [addr|]; [rewrite F1; simpl; rewrite Hst; simpl|]; apply Hm; simpl; try done; by rewrite ?Hst.
  - destruct mp eqn:Hmp.
    + destruct (leave_relay_frame s Hst) as (? & ? & ? & ?). apply Falls; try done.
      split; [by rewrite ?Hmp|intros; congruence].
    + destruct (setEndpoint _ _ _) as [ok w] eqn:Hs. destruct ok; [|apply Rests; simpl; auto].
      destruct (leave_relay_frame (set_net w [UpdateEndpoint WSSentinel true] s) Hst) as (? & ? & ? & ?).
      apply Falls; try done. split; [by rewrite ?Hmp|intros _; by rewrite Hs].
Qed.

Lemma moves_direct e s :
  state (ld s) = transportStateDirectViaRelayReflector -> moves e s (tick_direct e s).
Proof.
  intros Hst. unfold tick_direct. destruct (pathHealthy _ _ _ _ _) eqn:Hh; [apply Rests; simpl; auto|].
  destruct mp eqn:Hmp; rewrite Hst; simpl nextTransportState.
  - destruct (String.eqb_spec (relayCandidate (ld s)) "") as [He|He]; simpl.
    + eapply (Drops _ _ _ transportStateWSSRelay); simpl; auto. split; [by rewrite ?Hmp|congruence].
    + destruct (e_path e PathUDPRelay) eqn:Hp.
      * eapply (Drops _ _ _ transportStateUDPRelay); simpl; auto. split; [by rewrite ?Hmp|congruence].
      * eapply (Drops _ _ _ transportStateWSSRelay); simpl; auto. split; [by rewrite ?Hmp|congruence].
  - destruct (String.eqb_spec (relayCandidate (ld s)) "") as [He|He]; simpl;
      (destruct (setEndpoint _ _ _) as [ok w] eqn:Hs; destruct ok; [|apply Rests; simpl; auto]).
    + eapply (Drops _ _ _ transportStateWSSRelay); simpl; auto. split; [by rewrite ?Hmp|intros _; simpl; by rewrite Hs].
    + eapply (Drops _ _ _ transportStateUDPRelay); simpl; auto; [|left; split_and!; auto; congruence].
      split; [by rewrite ?Hmp|intros _; simpl; by rewrite Hs].
Qed.

Lemma tick_moves e s : on_rung (ld s) -> moves e s (tick e s).
Proof.
  unfold on_rung, tick. destruct (state (ld s)) eqn:Hst; try done; auto using moves_wss, moves_relay, moves_direct.
Qed.

Lemma published_tick udp e s : on_rung (ld s) -> published udp s -> published udp (tick e s).
Proof.
  unfold published. intros Hr Hp.
  pose proof (tick_moves e s Hr) as [_ -> _ -> _ _| -> -> _ _ _|ok _ _ _ H|_ -> _ -> _ _|st _ -> _ _ -> _ _]; auto.
  destruct ok; destruct H as (-> & -> & _); auto.
Qed.

Lemma published_run udp ls s s' :
  Forall (fun l => l <> LRenewStore) ls -> inv s -> published udp s -> run ls s = Some s' -> published udp s'.
Proof.
  induction ls as [|l ls IH] in s |- *; cbn [run]; [by intros _ _ ? [= <-]|].
  intros [Hl Hls]%Forall_cons Hinv Hp. destruct (step l s) as [s1|] eqn:Hs; [|done].
  apply (IH s1 Hls); [by eapply ladder_step|].
  destruct l as [e| |addr|c| |]; cbn [step] in Hs; try done.
  - destruct (over s || _); [done|]. injection Hs as <-. apply (published_tick udp e s), Hp. apply Hinv.
  - destruct (over s); [done|]. injection Hs as <-. unfold published. cbn [reported ld].
    destruct (stop_frame s) as (-> & -> & _). done.
  - by injection Hs as <-.
  - destruct (running s !! c) as [[??]|]; by simplify_eq.
  - destruct (pending_report s); by simplify_eq.
Qed.

(** ** Pacing *)

(** How soon the next direct attempt may come. *)
Definition spacing (p : Z * bool) : Z :=
  if p.2 then Z.min (retryInterval t) (healthCheckInterval t) else retryInterval t.

Fixpoint paced (ps : list (Z * bool)) : Prop :=
  match ps with
  | p :: (q :: _) as ps => q.1 + spacing q <= p.1 /\ paced ps
  | _ => True
  end.

(** The next tick, or the pace of the relay rung, is late enough. *)
Definition held (s : sys) : Prop :=
  match punches s with
  | [] => True
  | p :: _ => p.1 <= clock s /\
      (p.1 + spacing p <= clock s + wait (ld s)
       \/ state (ld s) = transportStateUDPRelay /\ p.1 + spacing p <= nextDirectAttempt (ld s))
  end.

Lemma held_tick e s :
  0 < retryInterval t -> 0 < healthCheckInterval t -> 0 <= wait (ld s) -> on_rung (ld s) -> clock s + wait (ld s) <= e_now e ->
  held s -> paced (punches s) ->
  held (set_clock (e_now e) (tick e s)) /\ paced (punches (tick e s)) /\ 0 <= wait (ld (tick e s)).
Proof.
  intros Hr Hh Hw Hon Hnow Hheld Hpaced. unfold held in *. cbn [set_clock punches clock ld].
  assert (Hle : forall p, spacing p <= retryInterval t) by (intros []; unfold spacing; destruct (_.2); lia).
  pose proof (tick_moves e s Hon) as [Hs Hs' _ _ -> ->|Hs _ -> -> Hd|ok Hs Hn -> H|Hs Hs' _ _ -> ->|st Hs Hs' _ _ _ -> ->].
  - split_and!; auto; [|lia]. destruct (punches s) as [|p ps]; [done|].
    destruct Hheld as [? [?|[? _]]]; [|congruence]. split; lia.
  - split_and!; auto; [|lia]. destruct (punches s) as [|p ps]; [done|].
    destruct Hheld as [? [?|[? ?]]]; (split; [lia|]); [left; lia|right; split; [congruence|done]].
  - assert (Hgo : paced ((e_now e, ok) :: punches s)).
    { destruct (punches s) as [|p ps]; [done|]. split; [|done]. simpl.
      destruct Hheld as [? [?|[Hu ?]]]; [lia|]. destruct (Hn Hu). lia. }
    destruct ok; [destruct H as (_ & _ & _ & ->)|destruct H as (Hs' & _ & Hw1 & Hw2)].
    + split; [|split; [done|lia]]. unfold spacing. simpl. lia.
    + unfold on_rung in Hon. destruct (state (ld s)) eqn:Hst; try done;
        [rewrite Hw1 by done|rewrite Hw2 by done]; (split; [|split; [done|lia]]); unfold spacing; simpl; [lia|].
      destruct (Hn eq_refl). split; [lia|]. right. split; [done|lia].
  - split_and!; auto; [|lia]. destruct (punches s) as [|p ps]; [done|].
    specialize (Hle p). destruct Hheld as [? ?]. split; [lia|left; lia].
  - split_and!; auto; [|lia]. destruct (punches s) as [|p ps]; [done|].
    destruct Hheld as [? [?|[? _]]]; [|congruence]. split; lia.
Qed.

Lemma paced_run ls s s' :
  0 < retryInterval t -> 0 < healthCheckInterval t -> inv s -> 0 <= wait (ld s) -> held s -> paced (punches s) ->
  run ls s = Some s' -> paced (punches s').
Proof.
  intros Hr Hh. induction ls as [|l ls IH] in s |- *; cbn [run]; [by intros _ _ _ ? [= <-]|].
  intros Hinv Hw Hheld Hp. destruct (step l s) as [s1|] eqn:Hs; [|done].
  cut (0 <= wait (ld s1) /\ held s1 /\ paced (punches s1));
    [intros (? & ? & ?); apply IH; try done; by eapply ladder_step|].
  destruct l as [e| |addr|c| |]; cbn [step] in Hs.
  - destruct (over s) eqn:Hov; [done|]. cbn [orb] in Hs. destruct (Z.ltb_spec (e_now e) (clock s + wait (ld s))); [done|].
    injection Hs as <-. destruct (held_tick e s) as (? & ? & ?); try done. apply Hinv.
  - destruct (over s); [done|]. injection Hs as <-. unfold held in *. cbn [punches clock ld].
    by destruct (stop_frame s) as (-> & _ & -> & -> & -> & ->).
  - by injection Hs as <-.
  - destruct (running s !! c) as [[??]|]; by simplify_eq.
  - destruct (pending_report s); by simplify_eq.
  - destruct (pending_report s); by simplify_eq.
Qed.
End tick.

Lemma resolved_positive o :
  0 < retryInterval (resolveDirectUpgradeTiming o) /\ 0 < healthCheckInterval (resolveDirectUpgradeTiming o)
  /\ 0 < initialDelay (resolveDirectUpgradeTiming o) /\ 0 < reflectTimeout (resolveDirectUpgradeTiming o)
  /\ 0 < probeTimeout (resolveDirectUpgradeTiming o) /\ 0 < relayBindKeepalive (resolveDirectUpgradeTiming o).
Proof.
  destruct o as [o|]; [|by vm_compute].
  split_and!; simpl; (match goal with |- context [if 0 <? ?x then _ else _] => destruct (Z.ltb_spec 0 x) end);
    done.
Qed.

Lemma paced_nth t ps i p q :
  paced t ps -> ps !! i = Some p -> ps !! S i = Some q -> q.1 + spacing t q <= p.1.
Proof.
  induction ps as [|x [|y ps] IH] in i |- *; try done.
  intros [Hx Hp]. destruct i as [|i]; simpl; [by intros [= <-] [= <-]|]. by apply IH.
Qed.

Lemma ladder_inv o mp now udp ls s :
  run (resolveDirectUpgradeTiming o) mp ls (start (resolveDirectUpgradeTiming o) now udp) = Some s -> inv mp s.
Proof. apply ladder_run, ladder_start. Qed.

(** ** Endpoint updates *)
Definition touches_endpoint (f : effect) : bool :=
  match f with UpdateEndpoint _ _ => true | _ => false end.

Definition quiet (fs : list effect) : Prop := Forall (fun f => touches_endpoint f = false) fs.

Lemma quiet_app fs gs : quiet fs -> quiet gs -> quiet (fs ++ gs).
Proof. apply Forall_app_2. Qed.

(** An attempt's effects, one case of its answers after the other. *)
Ltac quiet_cases :=
  repeat case_match; simplify_eq/=; repeat first [apply quiet_app | by apply Forall_replicate | constructor]; done.

Lemma quiet_relay e w : quiet (tryUDPRelayUpgrade true e w).2.
Proof. unfold tryUDPRelayUpgrade. quiet_cases. Qed.

Lemma quiet_direct e f w : quiet (tryDirectUpgrade true e f w).2.
Proof. unfold tryDirectUpgrade, primeAddr. quiet_cases. Qed.

Lemma out_stop s : out (stopRelayKeepalive s) = out s.
Proof. unfold stopRelayKeepalive. by destruct (relayStop _). Qed.

Lemma quiet_attempt e f s r s' : attempt_direct true e f s = (r, s') -> quiet (out s) -> quiet (out s').
Proof.
  unfold attempt_direct. pose proof (quiet_direct (e_direct e) f (net s)) as Hq.
  destruct (tryDirectUpgrade _ _ _ _) as [[r' w] effs]. intros [= <- <-] ?. by apply quiet_app.
Qed.

Lemma quiet_tick t e s : quiet (out s) -> quiet (out (tick t true e s)).
Proof.
  intros Hs. unfold tick. destruct (state (ld s)); try done.
  - unfold tick_direct. by destruct (pathHealthy _ _ _ _ _).
  - unfold tick_direct. by destruct (pathHealthy _ _ _ _ _).
  - unfold tick_wss. pose proof (quiet_relay (e_relay e) (net s)) as Hq.
    destruct (tryUDPRelayUpgrade _ _ _) as [[r w] effs]. destruct r; simpl; try by apply quiet_app.
    destruct (attempt_direct _ _ _ _) as [r s'] eqn:Hd. apply quiet_attempt in Hd; [|by apply quiet_app]. by destruct r.
  - unfold tick_relay. destruct (pathHealthy _ _ _ _ _); simpl.
    + destruct (time_after _ _); [done|]. destruct (attempt_direct _ _ _ _) as [r s'] eqn:Hd.
      apply quiet_attempt in Hd; [|done]. by destruct r.
    + unfold leave_relay. cbn [on_ladder set_ladder out]. by rewrite out_stop.
Qed.

Lemma quiet_run t ls s s' : quiet (out s) -> run t true ls s = Some s' -> quiet (out s').
Proof.
  induction ls as [|l ls IH] in s |- *; cbn [run]; [by intros ? [= <-]|].
  intros Hq. destruct (step t true l s) as [s1|] eqn:Hs; [|done]. apply IH.
  destruct l as [e| |addr|c| |]; cbn [step] in Hs.
  - destruct (over s || _); [done|]. injection Hs as <-. by apply (quiet_tick t e s).
  - destruct (over s); [done|]. injection Hs as <-. cbn [out]. by rewrite out_stop.
  - injection Hs as <-. apply quiet_app; [done|by constructor].
  - destruct (running s !! c) as [[??]|]; simplify_eq. apply quiet_app; [done|by repeat constructor].
  - destruct (pending_report s); by simplify_eq.
  - destruct (pending_report s); by simplify_eq.
Qed.

(** ** Properties *)

(** C26: Whatever the upgrade loop and the events beside it do, the loop stands
    on one of its three rungs and on a candidate where the rung has one; while
    it runs, the keepalive of its relay candidate runs and is the one it can
    stop; on a connection that roams an endpoint no other keepalive goroutine
    exists, and none is left once the loop has ended; and unless a renewal
    writes it, the published route is the rung's. *)
Theorem ladder_coherent o mp now udp ls s :
  let t := resolveDirectUpgradeTiming o in
  run t mp ls (start t now udp) = Some s ->
  on_rung (ld s)
  /\ (over s = false -> relayCandidate (ld s) <> ""%string -> kept_alive s (relayCandidate (ld s)))
  /\ (mp = false -> forall c, is_Some (running s !! c) -> relayStop (ld s) = Some c)
  /\ (mp = false -> over s = true -> running s = ∅)
  /\ (Forall (fun l => l <> LRenewStore) ls -> published udp s).
Proof.
  intros t Hr. pose proof (ladder_inv _ _ _ _ _ _ Hr) as Hinv. split_and!.
  - apply Hinv.
  - apply Hinv.
  - intros Hmp c Hc. by apply (iv_one _ _ Hinv Hmp).
  - intros Hmp Ho. apply map_empty. intros c. destruct (running s !! c) eqn:Hc; [|done].
    destruct (iv_one _ _ Hinv Hmp c) as (Hs & _); [by eexists|]. by rewrite (iv_over _ _ Hinv Ho) in Hs.
  - intros Hls. eapply published_run; [exact Hls|apply ladder_start| |exact Hr].
    right. done.
Qed.

(** On a connection that roams one endpoint, the last address the loop
    gave the peer is the address of its rung, unless it could not take a
    failed candidate back, which never happens to it on the direct rung.  On a
    multipath connection it never touches the endpoint. *)
Theorem endpoint_follows_ladder o mp now udp ls s :
  let t := resolveDirectUpgradeTiming o in
  run t mp ls (start t now udp) = Some s ->
  (mp = false -> astray (net s) = false -> aimed (net s) = rung_address (ld s))
  /\ (astray (net s) = true -> mp = false /\ state (ld s) <> transportStateDirectViaRelayReflector)
  /\ (mp = true -> Forall (fun f => touches_endpoint f = false) (out s)).
Proof.
  intros t Hr. pose proof (ladder_inv _ _ _ _ _ _ Hr) as Hinv. split_and!; [apply Hinv..|].
  intros ->. by eapply quiet_run; [|exact Hr]; constructor.
Qed.

(** Direct-path attempts are paced: after one that failed the next comes
    no sooner than the retry interval, after one that succeeded no sooner than
    the smaller of that and the health-check interval, whatever the options,
    and both are positive. *)
Theorem attempts_paced o mp now udp ls s i (p q : Z * bool) :
  let t := resolveDirectUpgradeTiming o in
  run t mp ls (start t now udp) = Some s -> punches s !! i = Some p -> punches s !! S i = Some q ->
  q.1 + (if q.2 then Z.min (retryInterval t) (healthCheckInterval t) else retryInterval t) <= p.1
  /\ 0 < retryInterval t /\ 0 < healthCheckInterval t.
Proof.
  intros t Hr Hp Hq. destruct (resolved_positive o) as (H1 & H2 & H3 & _). split; [|done].
  apply (paced_nth t (punches s) i p q); [|done|done].
  apply (paced_run t mp ls (start t now udp) s); try done; [apply ladder_start|cbn [start ld wait]; unfold t; lia].
Qed.

Definition rank (st : transportState) : nat :=
  match st with
  | transportStateUDPRelay => 1
  | transportStateDirectViaRelayReflector => 2
  | _ => 0
  end.

(** The name the path scheduler has for a rung's path. *)
Definition rung_path (st : transportState) : string :=
  match st with transportStateUDPRelay => PathUDPRelay | _ => PathDirect end.

(** The answers of the attempt that reaches a rung. *)
Definition rung_polls (e : env) (st : transportState) : list (bool * wake) :=
  match st with transportStateUDPRelay => ru_polls (e_relay e) | _ => du_polls (e_direct e) end.
Definition rung_probe (e : env) (st : transportState) : bool :=
  match st with transportStateUDPRelay => ru_probe (e_relay e) | _ => du_probe (e_direct e) end.

Lemma leave_rank t s : state (ld s) = transportStateUDPRelay -> rank (state (ld (leave_relay t s))) = 0%nat.
Proof. intros Hst. by destruct (leave_relay_frame t s Hst) as (-> & _). Qed.

(** Unhealthy paths are left, unless the endpoint cannot be moved. *)
Lemma unhealthy_leaves t mp e s :
  on_rung (ld s) -> (0 < rank (state (ld s)))%nat ->
  pathHealthy mp e (rung_address (ld s)) (rung_path (state (ld s))) (net s) = false ->
  (rank (state (ld (tick t mp e s))) < rank (state (ld s)))%nat
  \/ mp = false /\ e_set_open e = true /\ e_set e = false /\ state (ld (tick t mp e s)) = state (ld s).
Proof.
  unfold on_rung, tick, rung_address, setEndpoint.
  destruct (state (ld s)) eqn:Hst; try done; simpl rank; cbn [rung_path]; intros _ Hr Hh; [|lia|].
  - unfold tick_direct. rewrite Hh, Hst. destruct mp; [left; simpl; destruct (_ && _); simpl; lia|].
    unfold setEndpoint.
    destruct (e_set_open e), (e_set e) eqn:He; simpl; try (left; destruct (negb _); simpl; lia). by right.
  - unfold tick_relay. rewrite Hh. simpl. destruct mp; [left; by rewrite (leave_rank t s Hst)|].
    unfold setEndpoint.
    destruct (e_set_open e), (e_set e) eqn:He; cbn [negb]; try (left; rewrite leave_rank by done; lia). by right.
Qed.

(** One tick of the ladder.  It climbs only onto a candidate that has just
    proved itself: its named path turned healthy within the wait, or, on a
    roaming endpoint, the probe was answered and the peer is still where the
    attempt put it.  It steps down only after its rung's health check failed,
    to the relay only while that has a candidate, and it does step down then,
    unless the peer's endpoint cannot be moved, when it stays to retry. *)
Theorem climbs_on_evidence t mp e s :
  on_rung (ld s) ->
  let s' := tick t mp e s in
  let r := rank (state (ld s)) in let r' := rank (state (ld s')) in
  ((r < r')%nat ->
     rung_address (ld s') <> ""%string /\
     (if mp then waitForMultipathPath (rung_polls e (state (ld s'))) = true
      else rung_probe e (state (ld s')) = true /\ peer (net s') = Some (rung_address (ld s'))))
  /\ ((r' < r)%nat ->
     pathHealthy mp e (rung_address (ld s)) (rung_path (state (ld s))) (net s) = false
     /\ (state (ld s') = transportStateUDPRelay -> relayCandidate (ld s) <> ""%string))
  /\ ((0 < r)%nat -> pathHealthy mp e (rung_address (ld s)) (rung_path (state (ld s))) (net s) = false ->
     (r' < r)%nat \/ mp = false /\ e_set_open e = true /\ e_set e = false /\ state (ld s') = state (ld s)).
Proof.
  intros Hr. cbv zeta.
  split; [|split; [|intros; by apply unhealthy_leaves]].
  - pose proof (tick_moves t mp e s Hr) as [H H' He _ _ _|H _ _ _ _|ok H _ _ He|H H' _ _ _ _|st H H' _ Hd _ _ _].
    + intros _. rewrite H'. unfold rung_address. rewrite H'. destruct He as [? Hp]. split; [done|].
      revert Hp. unfold proven. destruct mp; tauto.
    + rewrite H. lia.
    + destruct ok; destruct He as (He & Hv); [|rewrite He; lia]. intros _. rewrite He. unfold rung_address. rewrite He.
      destruct Hv as (_ & [? Hp] & _). split; [done|]. revert Hp. unfold proven. destruct mp; tauto.
    + rewrite H, H'. simpl. lia.
    + rewrite H, H'. destruct Hd as [[-> _]|[-> _]]; simpl; lia.
  - pose proof (tick_moves t mp e s Hr) as [H H' _ _ _ _|H _ _ _ _|ok H _ _ He|H H' He _ _ _|st H H' He Hd _ _ _].
    + rewrite H, H'. simpl. lia.
    + rewrite H. lia.
    + destruct ok; destruct He as (He & _); rewrite He; [|lia]. destruct (state (ld s)); simpl; lia.
    + intros _. unfold rung_address. rewrite H, H'. by destruct He.
    + intros _. unfold rung_address. rewrite H, H'. destruct He. split; [done|].
      destruct Hd as [(-> & ? & _)|[-> _]]; done.
Qed.

(** ** Concrete runs *)

(** A relay at [10.0.0.1:7000] and a server whose direct address is
    [192.0.2.7:4433]; the named paths of [up] are healthy. *)
Definition toy_relay (ok : bool) : relay_env :=
  mkRelayEnv (Some (UdpRelay.mkResp "10.0.0.1:7000" "tok" "" "" None)) true true true
    [(ok, Deadline)] true ok None true true.

Definition toy_direct (ok back : bool) : direct_env :=
  let p := mkPunch "192.0.2.7:4433" "10.0.0.1:7001" [] in
  mkDirectEnv (Some p) true [Frame FrameReflectResponse []] (Some p) true 4 true
    [(ok, Deadline)] true ok None true back.

Definition toy_tick (now : Z) (relay : relay_env) (direct : direct_env) (up : list string) (legacy : bool) : label :=
  LTick (mkEnv (now * second) relay direct (fun name => bool_decide (name ∈ up)) true true legacy true true).

Definition toy_t : directUpgradeTiming := resolveDirectUpgradeTiming None.

(** Up both rungs and down again. *)
Definition toy_ladder : list label :=
  [toy_tick 3 (toy_relay true) (toy_direct false true) [] true;
   toy_tick 23 (toy_relay true) (toy_direct true true) [] true;
   toy_tick 43 (toy_relay true) (toy_direct true true) [] true;
   toy_tick 63 (toy_relay true) (toy_direct true true) [] false].

Definition toy_view (mp : bool) (ls : list label) : option (transportState * string * list (Z * bool) * list nat) :=
  s ← run toy_t mp ls (start toy_t 0 "192.0.2.7:4433");
  Some (state (ld s), aimed (net s), punches s, (map_to_list (running s)).*1).

Example toy_climb : toy_view false (take 3 toy_ladder) =
  Some (transportStateDirectViaRelayReflector, "192.0.2.7:4433"%string, [(23 * second, true)], [0%nat]).
Proof. by vm_compute. Qed.
Example toy_fall : toy_view false toy_ladder =
  Some (transportStateUDPRelay, "10.0.0.1:7000"%string, [(23 * second, true)], [0%nat]).
Proof. by vm_compute. Qed.

(** A multipath connection whose direct and relay paths die together leaves
    the relay's keepalive goroutine behind when it climbs again: channel [0]
    is no longer the one the loop can close. *)
Definition toy_leak : list label :=
  [toy_tick 3 (toy_relay true) (toy_direct false true) [] true;
   toy_tick 23 (toy_relay true) (toy_direct true true) [PathUDPRelay] true;
   toy_tick 43 (toy_relay true) (toy_direct true true) [] true;
   toy_tick 63 (toy_relay true) (toy_direct true true) [] true; LEnd].

Example keepalive_leaks :
  (s ← run toy_t true toy_leak (start toy_t 0 "192.0.2.7:4433");
   Some (over s, relayStop (ld s), (map_to_list (running s)).*1)) = Some (true, None, [0%nat]).
Proof. by vm_compute. Qed.

(** Taking a failed candidate back can fail unnoticed: the ladder is on the
    WebSocket rung, where it sleeps for the whole retry interval, and the peer
    is still aimed at the dead candidate. *)
Example take_back_fails :
  let failing := mkRelayEnv (Some (UdpRelay.mkResp "10.0.0.1:7000" "tok" "" "" None)) true true true
    [] true false None true false in
  (s ← run toy_t false [toy_tick 3 failing (toy_direct false true) [] true] (start toy_t 0 "192.0.2.7:4433");
   Some (state (ld s), aimed (net s), peer (net s), wait (ld s)))
  = Some (transportStateWSSRelay, "10.0.0.1:7000"%string, Some "10.0.0.1:7000"%string, 2 * minute).
Proof. by vm_compute. Qed.

(** A renewal that straddles a tick publishes the route of before it. *)
Example stale_route :
  (s ← run toy_t false [LRenewLoad; toy_tick 3 (toy_relay true) (toy_direct false true) [] true; LRenewStore]
     (start toy_t 0 "192.0.2.7:4433");
   Some (state (ld s), reported s)) = Some (transportStateUDPRelay, transportWSSFallback).
Proof. by vm_compute. Qed.

(** From the WebSocket rung the next direct attempt does not ask when one is
    due: here it comes one health check after the direct path was lost,
    although the loop had noted a due time a whole retry interval away. *)
Example early_retry :
  let none := mkRelayEnv (Some (UdpRelay.mkResp "" "" "" "" None)) true true true [] true true None true true in
  let ls := [toy_tick 3 none (toy_direct true true) [] true; toy_tick 23 none (toy_direct true true) [] false] in
  (s ← run toy_t false ls (start toy_t 0 "192.0.2.7:4433"); Some (state (ld s), nextDirectAttempt (ld s)))
    = Some (transportStateWSSRelay, 143 * second)
  /\ (s ← run toy_t false (ls ++ [toy_tick 43 none (toy_direct true true) [] true]) (start toy_t 0 "192.0.2.7:4433");
     Some (map fst (punches s))) = Some [43 * second; 3 * second].
Proof. split; by vm_compute. Qed.

Definition toy_end (mp : bool) (ls : list label) : sys :=
  default (start toy_t 0 "") (run toy_t mp ls (start toy_t 0 "192.0.2.7:4433")).

Lemma ladder_coherent_witness :
  run toy_t false toy_ladder (start toy_t 0 "192.0.2.7:4433") = Some (toy_end false toy_ladder)
  /\ kept_alive (toy_end false toy_ladder) "10.0.0.1:7000"
  /\ reported (toy_end false toy_ladder) = transportUDPRelay.
Proof.
  assert (Hr : run toy_t false toy_ladder (start toy_t 0 "192.0.2.7:4433") = Some (toy_end false toy_ladder))
    by (vm_compute; reflexivity).
  split; [exact Hr|]. destruct (ladder_coherent None false 0 "192.0.2.7:4433" toy_ladder _ Hr) as (_ & Hk & _ & _ & Hp).
  split; [apply Hk; by vm_compute|].
  destruct Hp as [Hp|[Hp _]]; [by repeat constructor|exact Hp|].
  assert (Hs : state (ld (toy_end false toy_ladder)) = transportStateUDPRelay) by (vm_compute; reflexivity).
  rewrite Hs in Hp. discriminate.
Defined.

Lemma endpoint_follows_ladder_witness :
  run toy_t false toy_ladder (start toy_t 0 "192.0.2.7:4433") = Some (toy_end false toy_ladder)
  /\ aimed (net (toy_end false toy_ladder)) = "10.0.0.1:7000"%string.
Proof.
  assert (Hr : run toy_t false toy_ladder (start toy_t 0 "192.0.2.7:4433") = Some (toy_end false toy_ladder))
    by (vm_compute; reflexivity).
  split; [exact Hr|]. destruct (endpoint_follows_ladder None false 0 "192.0.2.7:4433" toy_ladder _ Hr) as (Ha & _).
  rewrite Ha; [vm_compute; reflexivity|reflexivity|vm_compute; reflexivity].
Defined.

(** Two attempts, the first failing. *)
Definition toy_attempts : list label :=
  [toy_tick 3 (toy_relay true) (toy_direct false true) [PathUDPRelay] true;
   toy_tick 23 (toy_relay true) (toy_direct false true) [PathUDPRelay] true;
   toy_tick 143 (toy_relay true) (toy_direct true true) [PathUDPRelay] true].

Lemma attempts_paced_witness :
  run toy_t true toy_attempts (start toy_t 0 "192.0.2.7:4433") = Some (toy_end true toy_attempts)
  /\ punches (toy_end true toy_attempts) = [(143 * second, true); (23 * second, false)]
  /\ 23 * second + 2 * minute <= 143 * second.
Proof.
  assert (Hr : run toy_t true toy_attempts (start toy_t 0 "192.0.2.7:4433") = Some (toy_end true toy_attempts))
    by (vm_compute; reflexivity).
  split; [exact Hr|]. split; [vm_compute; reflexivity|].
  apply (attempts_paced None true 0 "192.0.2.7:4433" toy_attempts _ 0 (143 * second, true) (23 * second, false) Hr);
    vm_compute; reflexivity.
Defined.

Lemma climbs_on_evidence_witness :
  let s := start toy_t 0 "192.0.2.7:4433" in
  let e := mkEnv 0 (toy_relay true) (toy_direct true true) (fun _ => false) true true true true true in
  on_rung (ld s) /\ peer (net (tick toy_t false e s)) = Some "10.0.0.1:7000"%string.
Proof.
  intros s e. split; [exact I|].
  destruct (climbs_on_evidence toy_t false e s I) as (Hc & _).
  destruct Hc as (_ & _ & Hp); [vm_compute; lia|exact Hp].
Defined.
