(* ===== verification/WsBind.v ===== *)
(** [pkg/wstransport/bind.go]: the bind that carries WireGuard datagrams over
    WebSockets.

    A step is one critical section of [mu], one callback, one operation on a
    channel, a read, a write or the end of a dial.  [callbacksMu] is held from
    the section that changes a peer to the end of the callback about it; its
    holder is [cb].  Peers are numbered, as are the goroutines that serve,
    send and redial.  [Open] holds both mutexes while it dials, so it is one
    step.  The WebSocket library is the environment: it says what is read and
    whether a dial or a write succeeds. *)
From S2P Require Import Prelude Bytes Netip Frames.

Definition peerQueueDepth : Z := 256.
Definition overflowFailureThreshold : Z := 64.
Definition IdealBatchSize : Z := 128.
Definition redialMinDefault : Z := second.
Definition redialMaxDefault : Z := 30 * second.
Definition millisecond : Z := 1000000.

(** [Add] of an [atomic.Int32]. *)
Definition add32 (x d : Z) : Z := (x + d + 2 ^ 31) mod 2 ^ 32 - 2 ^ 31.

(** ** State *)
Definition batch : Type := list (list byte).

(** The reader goroutine of a peer: not yet started, in its loop, in its
    deferred function before and after that holds [callbacksMu], and done. *)
Inductive reader : Type :=
  | Idle
  | Reading
  | Exiting
  | Unlocked (removed : bool)
  | Ended.

(** [p_taken] and [p_wrote] are the batches its queue accepted and its writer
    wrote, [p_reports] the calls of [reportWriteFailure] still to end. *)
Record peer := mkPeer {
  p_id : string;
  p_alive : bool;
  p_reader : reader;
  p_writing : bool;
  p_done : bool;
  p_out : list batch;
  p_overflow : Z;
  p_once : bool;
  p_reports : nat;
  p_taken : list batch;
  p_wrote : list batch;
}.

Definition newPeer (id : string) : peer := mkPeer id true Idle false false [] 0 false 0 [] [].

Inductive event : Type :=
  | Connected (id : string) (p : nat)
  | Disconnected (id : string) (p : nat)
  | WriteFailure (id : string) (p : nat).

(** Who holds [callbacksMu], with the callback it is about to make. *)
Inductive holder : Type :=
  | Announcing (p : nat)
  | Departing (p : nat) (removed : bool)
  | Reporting (p : nat).

#[global] Instance holder_eq : EqDecision holder.
Proof. solve_decision. Defined.

(** [redial]: [g] is the [done] channel it captured. *)
Inductive redial : Type :=
  | RStarting
  | RTrying (g : nat) (backoff : Z)
  | RWaiting (g : nat) (backoff : Z)
  | RDialed (g : nat).

(** [gen] numbers the [done] channels, of which the current one is open
    exactly while the bind is.  [closing] are the WebSockets someone is about
    to close, [dropped] the peers [CloseSession] or [Close] took out. *)
Record bind := mkBind {
  open : bool;
  gen : nat;
  packets : list (list byte * nat);
  peers : gmap string nat;
  all : gmap nat peer;
  cb : option holder;
  events : list event;
  accepting : gmap nat string;
  sends : gmap nat (nat * batch);
  redials : gmap nat redial;
  closing : gset nat;
  dropped : gset nat;
  noRedial : bool;
  redialMin : Z;
  redialMax : Z;
  Dropped : Z;
}.

Definition start : bind := mkBind false 0 [] ∅ ∅ None [] ∅ ∅ ∅ ∅ ∅ false redialMinDefault redialMaxDefault 0.

(** ** Updates *)
Definition set_reader (r : reader) (P : peer) : peer :=
  mkPeer (p_id P) (p_alive P) r (p_writing P) (p_done P) (p_out P) (p_overflow P) (p_once P) (p_reports P) (p_taken P) (p_wrote P).
Definition set_alive (a : bool) (P : peer) : peer :=
  mkPeer (p_id P) a (p_reader P) (p_writing P) (p_done P) (p_out P) (p_overflow P) (p_once P) (p_reports P) (p_taken P) (p_wrote P).
Definition set_writing (w : bool) (P : peer) : peer :=
  mkPeer (p_id P) (p_alive P) (p_reader P) w (p_done P) (p_out P) (p_overflow P) (p_once P) (p_reports P) (p_taken P) (p_wrote P).
Definition set_done (P : peer) : peer :=
  mkPeer (p_id P) (p_alive P) (p_reader P) (p_writing P) true (p_out P) (p_overflow P) (p_once P) (p_reports P) (p_taken P) (p_wrote P).
Definition set_once (P : peer) : peer :=
  mkPeer (p_id P) (p_alive P) (p_reader P) (p_writing P) (p_done P) (p_out P) (p_overflow P) true (p_reports P) (p_taken P) (p_wrote P).
Definition set_reports (n : nat) (P : peer) : peer :=
  mkPeer (p_id P) (p_alive P) (p_reader P) (p_writing P) (p_done P) (p_out P) (p_overflow P) (p_once P) n (p_taken P) (p_wrote P).
Definition set_overflow (o : Z) (P : peer) : peer :=
  mkPeer (p_id P) (p_alive P) (p_reader P) (p_writing P) (p_done P) (p_out P) o (p_once P) (p_reports P) (p_taken P) (p_wrote P).
Definition set_queue (out taken wrote : list batch) (P : peer) : peer :=
  mkPeer (p_id P) (p_alive P) (p_reader P) (p_writing P) (p_done P) out (p_overflow P) (p_once P) (p_reports P) taken wrote.

Definition set_all (m : gmap nat peer) (s : bind) : bind :=
  mkBind (open s) (gen s) (packets s) (peers s) m (cb s) (events s) (accepting s) (sends s) (redials s)
    (closing s) (dropped s) (noRedial s) (redialMin s) (redialMax s) (Dropped s).
Definition set_peers (m : gmap string nat) (s : bind) : bind :=
  mkBind (open s) (gen s) (packets s) m (all s) (cb s) (events s) (accepting s) (sends s) (redials s)
    (closing s) (dropped s) (noRedial s) (redialMin s) (redialMax s) (Dropped s).
Definition set_cb (h : option holder) (s : bind) : bind :=
  mkBind (open s) (gen s) (packets s) (peers s) (all s) h (events s) (accepting s) (sends s) (redials s)
    (closing s) (dropped s) (noRedial s) (redialMin s) (redialMax s) (Dropped s).
Definition emit (e : event) (s : bind) : bind :=
  mkBind (open s) (gen s) (packets s) (peers s) (all s) (cb s) (e :: events s) (accepting s) (sends s) (redials s)
    (closing s) (dropped s) (noRedial s) (redialMin s) (redialMax s) (Dropped s).
Definition set_open (o : bool) (g : nat) (s : bind) : bind :=
  mkBind o g (packets s) (peers s) (all s) (cb s) (events s) (accepting s) (sends s) (redials s)
    (closing s) (dropped s) (noRedial s) (redialMin s) (redialMax s) (Dropped s).
Definition set_packets (l : list (list byte * nat)) (s : bind) : bind :=
  mkBind (open s) (gen s) l (peers s) (all s) (cb s) (events s) (accepting s) (sends s) (redials s)
    (closing s) (dropped s) (noRedial s) (redialMin s) (redialMax s) (Dropped s).
Definition set_accepting (m : gmap nat string) (s : bind) : bind :=
  mkBind (open s) (gen s) (packets s) (peers s) (all s) (cb s) (events s) m (sends s) (redials s)
    (closing s) (dropped s) (noRedial s) (redialMin s) (redialMax s) (Dropped s).
Definition set_sends (m : gmap nat (nat * batch)) (s : bind) : bind :=
  mkBind (open s) (gen s) (packets s) (peers s) (all s) (cb s) (events s) (accepting s) m (redials s)
    (closing s) (dropped s) (noRedial s) (redialMin s) (redialMax s) (Dropped s).
Definition set_redials (m : gmap nat redial) (s : bind) : bind :=
  mkBind (open s) (gen s) (packets s) (peers s) (all s) (cb s) (events s) (accepting s) (sends s) m
    (closing s) (dropped s) (noRedial s) (redialMin s) (redialMax s) (Dropped s).
Definition set_closing (c d : gset nat) (s : bind) : bind :=
  mkBind (open s) (gen s) (packets s) (peers s) (all s) (cb s) (events s) (accepting s) (sends s) (redials s)
    c d (noRedial s) (redialMin s) (redialMax s) (Dropped s).
Definition set_config (nr : bool) (lo hi : Z) (s : bind) : bind :=
  mkBind (open s) (gen s) (packets s) (peers s) (all s) (cb s) (events s) (accepting s) (sends s) (redials s)
    (closing s) (dropped s) nr lo hi (Dropped s).
Definition count_drop (s : bind) : bind :=
  mkBind (open s) (gen s) (packets s) (peers s) (all s) (cb s) (events s) (accepting s) (sends s) (redials s)
    (closing s) (dropped s) (noRedial s) (redialMin s) (redialMax s) (Dropped s + 1).

Definition put_peer (p : nat) (P : peer) (s : bind) : bind := set_all (<[p := P]> (all s)) s.

Section bind.
Context (url : string).

Definition is_client : bool := negb (url =? "")%string.

(** The channel [done] of generation [g] is closed. *)
Definition closed (g : nat) (s : bind) : bool := negb (open s && bool_decide (gen s = g)).

(** A peer becomes the one of its id; the announcement follows. *)
Definition install (id : string) (p : nat) (s : bind) : bind :=
  set_cb (Some (Announcing p)) (set_peers (<[id := p]> (peers s)) (put_peer p (newPeer id) s)).

(** Mutexes and channels that are not free make a step impossible. *)
Definition unlocked (s : bind) : bool := match cb s with None => true | _ => false end.

(** [Open]; [dial] is the answer of the client's dial, [p] the new peer. *)
Definition open_ (p : nat) (dial : bool) (s : bind) : bool * bind :=
  if open s then (false, s)
  else
    let s := set_open true (S (gen s)) (set_packets [] (set_peers ∅ s)) in
    if is_client
    then if dial then (true, install "remote" p s) else (false, set_open false (gen s) s)
    else (true, s).

(** [ServeHTTP] up to the upgrade, and from its critical section on. *)
Definition serve (k : nat) (id : string) (s : bind) : bind :=
  if open s then set_accepting (<[k := id]> (accepting s)) s else s.

Definition close_ws (p : nat) (s : bind) : bind :=
  match all s !! p with Some P => put_peer p (set_alive false P) s | None => s end.

Definition attach (k p : nat) (id : string) (s : bind) : bind :=
  let s := set_accepting (delete k (accepting s)) s in
  if negb (open s) then s
  else
    let s := match peers s !! id with Some old => close_ws old s | None => s end in
    install id p s.

(** The connected callback, after which the reader and the writer start. *)
Definition announce (p : nat) (P : peer) (s : bind) : bind :=
  set_cb None (emit (Connected (p_id P) p) (put_peer p (set_writing true (set_reader Reading P)) s)).

(** [read]: what one message becomes; [None] while the queue is full. *)
Definition deliver (p : nat) (binary : bool) (data : list byte) (s : bind) : option bind :=
  match (if binary then Accept data else None) with
  | None => Some s
  | Some data => if Zlen (packets s) <? IdealBatchSize then Some (set_packets (packets s ++ [(data, p)]) s) else None
  end.

(** [remove], which is asked under [callbacksMu]. *)
Definition remove (p : nat) (P : peer) (s : bind) : bool * bind :=
  if bool_decide (peers s !! p_id P = Some p) then (true, set_peers (delete (p_id P) (peers s)) s) else (false, s).

Definition depart (p : nat) (P : peer) (s : bind) : bind :=
  let '(removed, s) := remove p P s in set_cb (Some (Departing p removed)) s.

(** The disconnected callback and the end of [callbacksMu]. *)
Definition departed (p : nat) (P : peer) (removed : bool) (s : bind) : bind :=
  set_cb None (put_peer p (set_reader (Unlocked removed) P)
    (if removed then emit (Disconnected (p_id P) p) s else s)).

(** [close(p.done)] and, on a client that lost its peer, [go b.redial()]. *)
Definition finish (p r : nat) (P : peer) (removed : bool) (s : bind) : bind :=
  let s := put_peer p (set_reader Ended (set_done P)) s in
  if removed && is_client && negb (noRedial s) then set_redials (<[r := RStarting]> (redials s)) s else s.

(** [redial]: the wait before the next attempt is below [wait_bound], and the
    backoff then doubles up to the maximum, in int64. *)
Definition wait_bound (backoff : Z) : Z := if backoff <=? 0 then millisecond else backoff.
Definition next_backoff (backoff hi : Z) : Z := Z.min (i64 (wait_bound backoff * 2)) hi.

Definition redial_start (r : nat) (s : bind) : bind :=
  set_redials (<[r := RTrying (gen s) (redialMin s)]> (redials s)) s.

Definition redial_dial (r g : nat) (backoff : Z) (ok : bool) (s : bind) : bind :=
  if closed g s then set_redials (delete r (redials s)) s
  else set_redials (<[r := if ok then RDialed g else RWaiting g backoff]> (redials s)) s.

Definition redial_wait (r g : nat) (backoff w : Z) (s : bind) : option bind :=
  if (0 <=? w) && (w <? wait_bound backoff)
  then Some (set_redials (<[r := RTrying g (next_backoff backoff (redialMax s))]> (redials s)) s)
  else None.

Definition redial_attach (r g p : nat) (s : bind) : bind :=
  let s := set_redials (delete r (redials s)) s in
  if closed g s then s else install "remote" p s.

(** [reportWriteFailure], which runs once for a peer, and its callback. *)
Definition reported (p : nat) (P : peer) (s : bind) : bind :=
  put_peer p (set_alive false (set_reports (pred (p_reports P)) P)) s.

Definition report (p : nat) (P : peer) (s : bind) : bind :=
  if p_once P then reported p P s
  else
    let P := set_once P in
    if bool_decide (peers s !! p_id P = Some p) then set_cb (Some (Reporting p)) (put_peer p P s)
    else reported p P s.

(** [Send] finds the peer and copies the valid datagrams; [None] is its error. *)
Definition send (k : nat) (id : string) (bufs : batch) (s : bind) : option bind :=
  match peers s !! id with
  | None => None
  | Some p =>
      let b := List.filter ValidDatagram bufs in
      if bool_decide (b = []) then Some s else Some (set_sends (<[k := (p, b)]> (sends s)) s)
  end.

(** Its end never waits: the peer is gone, takes the batch, or drops it.
    [done_first] is the choice of [select] between a closed [done] and a queue
    with room. *)
Definition enqueue (k p : nat) (b : batch) (done_first : bool) (P : peer) (s : bind) : bind :=
  let s := set_sends (delete k (sends s)) s in
  let room := Zlen (p_out P) <? peerQueueDepth in
  if p_done P && (done_first || negb room) then s
  else if room then
    put_peer p (set_overflow 0 (set_queue (p_out P ++ [b]) (p_taken P ++ [b]) (p_wrote P) P)) s
  else
    let n := add32 (p_overflow P) 1 in
    let P := set_overflow n P in
    count_drop (put_peer p (if n =? overflowFailureThreshold then set_reports (S (p_reports P)) P else P) s).

(** One round of [writeLoop]. *)
Definition write (p : nat) (ok : bool) (b : batch) (rest : list batch) (P : peer) (s : bind) : bind :=
  let P := set_queue rest (p_taken P) (if ok then p_wrote P ++ [b] else p_wrote P) P in
  put_peer p (if ok then P else set_writing false (set_reports (S (p_reports P)) P)) s.

(** [receive] with room for [n] datagrams. *)
Definition receive (n : nat) (s : bind) : list (list byte * nat) * bind :=
  (take n (packets s), set_packets (drop n (packets s)) s).

Definition CloseSession (id : string) (s : bind) : bind :=
  match peers s !! id with
  | Some p => set_closing ({[p]} ∪ closing s) ({[p]} ∪ dropped s) (set_peers (delete id (peers s)) s)
  | None => s
  end.

Definition peer_set (m : gmap string nat) : gset nat := list_to_set ((map_to_list m).*2).

Definition Close (s : bind) : bind :=
  if open s
  then set_closing (peer_set (peers s) ∪ closing s) (peer_set (peers s) ∪ dropped s)
         (set_peers ∅ (set_open false (gen s) s))
  else s.

Definition ParseEndpoint (s : bind) : option string :=
  if is_client && negb (bool_decide (is_Some (peers s !! "remote"%string))) then None else Some "remote"%string.

(** ** Steps *)
Inductive label : Type :=
  | LOpen (p : nat) (dial : bool)
  | LServe (k : nat) (id : string)
  | LAttach (k p : nat)
  | LAnnounce
  | LDeliver (p : nat) (binary : bool) (data : list byte)
  | LReadEnd (p : nat)
  | LDepart (p : nat)
  | LDeparted
  | LFinish (p r : nat)
  | LRedialStart (r : nat)
  | LRedialDial (r : nat) (ok : bool)
  | LRedialWait (r : nat) (w : Z)
  | LRedialStop (r : nat)
  | LRedialAttach (r p : nat)
  | LReport (p : nat)
  | LReported
  | LSend (k : nat) (id : string) (bufs : batch)
  | LEnqueue (k : nat) (done_first : bool)
  | LWrite (p : nat) (ok : bool)
  | LWriterStop (p : nat)
  | LReceive (n : nat)
  | LCloseSession (id : string)
  | LClose
  | LWsClosed (p : nat)
  | LDies (p : nat)
  | LConfig (nr : bool) (lo hi : Z).

Definition fresh {A} (m : gmap nat A) (k : nat) : bool := match m !! k with None => true | _ => false end.

Definition guard_ (b : bool) (s : bind) : option bind := if b then Some s else None.

Definition on_peer (p : nat) (s : bind) (f : peer -> option bind) : option bind :=
  match all s !! p with Some P => f P | None => None end.

Definition step (l : label) (s : bind) : option bind :=
  match l with
  | LOpen p dial => guard_ (unlocked s && fresh (all s) p) (open_ p dial s).2
  | LServe k id => guard_ (negb is_client && fresh (accepting s) k) (serve k id s)
  | LAttach k p =>
      match accepting s !! k with
      | Some id => guard_ (unlocked s && fresh (all s) p) (attach k p id s)
      | None => None
      end
  | LAnnounce =>
      match cb s with
      | Some (Announcing p) => on_peer p s (fun P => Some (announce p P s))
      | _ => None
      end
  | LDeliver p binary data =>
      on_peer p s (fun P =>
        match p_reader P with Reading => if p_alive P then deliver p binary data s else None | _ => None end)
  | LReadEnd p =>
      on_peer p s (fun P =>
        match p_reader P with Reading => Some (put_peer p (set_reader Exiting P) s) | _ => None end)
  | LDepart p =>
      on_peer p s (fun P =>
        match p_reader P with Exiting => guard_ (unlocked s) (depart p P s) | _ => None end)
  | LDeparted =>
      match cb s with
      | Some (Departing p removed) => on_peer p s (fun P => Some (departed p P removed s))
      | _ => None
      end
  | LFinish p r =>
      on_peer p s (fun P =>
        match p_reader P with
        | Unlocked removed => guard_ (fresh (redials s) r) (finish p r P removed s)
        | _ => None
        end)
  | LRedialStart r => match redials s !! r with Some RStarting => Some (redial_start r s) | _ => None end
  | LRedialDial r ok =>
      match redials s !! r with Some (RTrying g b) => Some (redial_dial r g b ok s) | _ => None end
  | LRedialWait r w =>
      match redials s !! r with Some (RWaiting g b) => redial_wait r g b w s | _ => None end
  | LRedialStop r =>
      match redials s !! r with
      | Some (RWaiting g _) => guard_ (closed g s) (set_redials (delete r (redials s)) s)
      | _ => None
      end
  | LRedialAttach r p =>
      match redials s !! r with
      | Some (RDialed g) => guard_ (unlocked s && fresh (all s) p) (redial_attach r g p s)
      | _ => None
      end
  | LReport p =>
      on_peer p s (fun P =>
        match p_reports P with
        | S _ => guard_ (if p_once P then negb (bool_decide (cb s = Some (Reporting p))) else unlocked s) (report p P s)
        | O => None
        end)
  | LReported =>
      match cb s with
      | Some (Reporting p) =>
          on_peer p s (fun P => Some (set_cb None (emit (WriteFailure (p_id P) p) (reported p P s))))
      | _ => None
      end
  | LSend k id bufs => if fresh (sends s) k then send k id bufs s else None
  | LEnqueue k done_first =>
      match sends s !! k with
      | Some (p, b) => on_peer p s (fun P => Some (enqueue k p b done_first P s))
      | None => None
      end
  | LWrite p ok =>
      on_peer p s (fun P =>
        match p_out P with
        | b :: rest => guard_ (p_writing P && (p_alive P || negb ok)) (write p ok b rest P s)
        | [] => None
        end)
  | LWriterStop p =>
      on_peer p s (fun P => guard_ (p_writing P && p_done P) (put_peer p (set_writing false P) s))
  | LReceive n => guard_ (bool_decide (packets s <> []) && bool_decide (0 < n)%nat) (receive n s).2
  | LCloseSession id => Some (CloseSession id s)
  | LClose => Some (Close s)
  | LWsClosed p => guard_ (bool_decide (p ∈ closing s)) (close_ws p (set_closing (closing s ∖ {[p]}) (dropped s) s))
  | LDies p => on_peer p s (fun P => Some (put_peer p (set_alive false P) s))
  | LConfig nr lo hi => Some (set_config nr lo hi s)
  end.

Fixpoint run (ls : list label) (s : bind) : option bind :=
  match ls with
  | [] => Some s
  | l :: ls => match step l s with Some s' => run ls s' | None => None end
  end.

(** ** What the consumer of the callbacks believes *)

(** The peer it last heard connected under an id and not disconnected. *)
Fixpoint believed (id : string) (es : list event) : option nat :=
  match es with
  | [] => None
  | Connected i p :: es => if (i =? id)%string then Some p else believed id es
  | Disconnected i _ :: es => if (i =? id)%string then None else believed id es
  | WriteFailure _ _ :: es => believed id es
  end.

(** A peer is announced once, only a believed one is reported disconnected or
    failing, and failing once. *)
Fixpoint ordered (es : list event) : Prop :=
  match es with
  | [] => True
  | Connected _ p :: es => (forall i, Connected i p ∉ es) /\ ordered es
  | Disconnected i p :: es => believed i es = Some p /\ ordered es
  | WriteFailure i p :: es => believed i es = Some p /\ (WriteFailure i p ∉ es) /\ ordered es
  end.

Lemma believed_connected id es p : believed id es = Some p -> Connected id p ∈ es.
Proof.
  induction es as [|[i q|i q|i q] es IH]; simpl; [done| | |].
  - destruct (String.eqb_spec i id) as [->|]; [intros [= ->]; by left|intros; right; auto].
  - destruct (i =? id)%string; [done|intros; right; auto].
  - intros; right; auto.
Qed.

(** ** Invariant of the callbacks *)
Definition face (P : peer) : string * reader * bool := (p_id P, p_reader P, p_once P).
Definition faces (s : bind) : gmap nat (string * reader * bool) := face <$> all s.

Record inv (s : bind) : Prop := mkInv {
  iv_shut : open s = false -> peers s = ∅;
  iv_peer : forall id p, peers s !! id = Some p -> exists r o, faces s !! p = Some (id, r, o)
    /\ (cb s = Some (Announcing p) \/ believed id (events s) = Some p);
  iv_ann : forall p, cb s = Some (Announcing p) -> exists id o, faces s !! p = Some (id, Idle, o)
    /\ (peers s !! id = Some p \/ p ∈ dropped s /\ peers s !! id = None);
  iv_dep : forall p rm, cb s = Some (Departing p rm) -> exists id o, faces s !! p = Some (id, Exiting, o)
    /\ (rm = true -> believed id (events s) = Some p /\ peers s !! id = None);
  iv_rep : forall p, cb s = Some (Reporting p) -> exists id r, faces s !! p = Some (id, r, true)
    /\ believed id (events s) = Some p /\ WriteFailure id p ∉ events s;
  iv_ordered : ordered (events s);
  iv_conn : forall id p, Connected id p ∈ events s -> exists r o, faces s !! p = Some (id, r, o) /\ r <> Idle;
  iv_fail : forall id p, WriteFailure id p ∈ events s -> exists r, faces s !! p = Some (id, r, true);
  iv_back : forall id p, believed id (events s) = Some p -> peers s !! id = Some p \/ p ∈ dropped s
    \/ cb s = Some (Departing p true) \/ exists q o, cb s = Some (Announcing q) /\ faces s !! q = Some (id, Idle, o);
}.

Lemma faces_put p P s : faces (put_peer p P s) = <[p := face P]> (faces s).
Proof. unfold faces, put_peer. simpl. by rewrite fmap_insert. Qed.

Lemma faces_same p P P' s : all s !! p = Some P -> face P' = face P -> faces (put_peer p P' s) = faces s.
Proof.
  intros Hp Hf. rewrite faces_put, Hf. apply insert_id. unfold faces. by rewrite lookup_fmap, Hp.
Qed.

Lemma faces_lookup s p P : all s !! p = Some P -> faces s !! p = Some (p_id P, p_reader P, p_once P).
Proof. intros H. unfold faces. by rewrite lookup_fmap, H. Qed.

(** Steps the consumer does not see. *)
Lemma bind_inv_frame s s' :
  open s' = open s -> faces s' = faces s -> peers s' = peers s -> cb s' = cb s -> events s' = events s ->
  dropped s ⊆ dropped s' -> inv s -> inv s'.
Proof.
  intros Ho Hf Hp Hc He Hd []. constructor; rewrite ?Ho, ?Hf, ?Hp, ?Hc, ?He; try done.
  - intros p H. destruct (iv_ann0 p H) as (id & o & ? & [?|[? ?]]); exists id, o; auto.
  - intros id p H. destruct (iv_back0 id p H) as [?|[?|?]]; auto.
Qed.

(** A peer that is only taken out. *)
Lemma bind_inv_forget s o m c d :
  (o = false -> m = ∅) ->
  (forall id p, m !! id = Some p -> peers s !! id = Some p) ->
  (forall id p, peers s !! id = Some p -> m !! id = Some p \/ p ∈ d) -> dropped s ⊆ d ->
  inv s -> inv (set_closing c d (set_peers m (set_open o (gen s) s))).
Proof.
  intros Ho Hm Hd Hs []. constructor; cbn [peers all cb events dropped set_closing set_peers set_open open]; try done.
  - intros id p H. apply iv_peer0. by apply Hm.
  - intros p H. destruct (iv_ann0 p H) as (id & x & ? & [Hp|[? Hn]]); exists id, x; (split; [done|]).
    + destruct (m !! id) as [q|] eqn:Hq; [apply Hm in Hq; left; congruence|].
      right. split; [|done]. destruct (Hd id p Hp); [congruence|done].
    + right. split; [auto|]. destruct (m !! id) as [q|] eqn:Hq; [apply Hm in Hq; congruence|done].
  - intros p rm H. destruct (iv_dep0 p rm H) as (id & x & ? & Hn). exists id, x. split; [done|]. intros Hrm.
    destruct (Hn Hrm) as [? Hp]. split; [done|]. destruct (m !! id) as [q|] eqn:Hq; [apply Hm in Hq; congruence|done].
  - intros id p H. destruct (iv_back0 id p H) as [Hp|[?|?]]; [|auto..].
    destruct (Hd id p Hp); auto.
Qed.

Lemma bind_inv_install s id p :
  inv s -> open s = true -> cb s = None -> all s !! p = None -> inv (install id p s).
Proof.
  intros [] Hopen Hc Hp. unfold install.
  assert (Hn : faces s !! p = None) by (unfold faces; by rewrite lookup_fmap, Hp).
  assert (Hother : forall q x, faces s !! q = Some x -> <[p := (id, Idle, false)]> (faces s) !! q = Some x).
  { intros q x H. rewrite lookup_insert_ne; [done|congruence]. }
  constructor; cbn [peers cb events dropped set_cb set_peers put_peer set_all]; rewrite ?faces_put;
    change (faces (set_cb _ (set_peers _ (put_peer p (newPeer id) s)))) with (faces (put_peer p (newPeer id) s));
    rewrite ?faces_put; change (face (newPeer id)) with (id, Idle, false); try done.
  - intros H. change (open s = false) in H. congruence.
  - intros i q [[<- <-]|[_ H]]%lookup_insert_Some.
    + exists Idle, false. rewrite lookup_insert_eq. auto.
    + destruct (iv_peer0 i q H) as (r & o & Hf & [?|?]); [congruence|]. exists r, o. auto.
  - intros q [= <-]. exists id, false. rewrite !lookup_insert_eq. auto.
  - intros i q H. destruct (iv_conn0 i q H) as (r & o & ? & ?). exists r, o. auto.
  - intros i q H. destruct (iv_fail0 i q H) as (r & ?). exists r. auto.
  - intros i q H. destruct (decide (i = id)) as [->|Hne].
    + do 3 right. exists p, false. by rewrite lookup_insert_eq.
    + destruct (iv_back0 i q H) as [Hq|[?|[?|(q' & o & ? & _)]]]; [left|auto|congruence..].
      by rewrite lookup_insert_ne.
Qed.

(** Steps of a peer that keep its id and let its reader start at most by an
    announcement. *)
Lemma bind_inv_reader s p P r :
  inv s -> all s !! p = Some P -> r <> Idle -> p_reader P <> Idle -> p_reader P <> Exiting ->
  inv (put_peer p (set_reader r P) s).
Proof.
  intros [] Hp Hr Hi Hd. assert (Hf := faces_lookup s p P Hp).
  assert (Hmove : forall q i x o, faces s !! q = Some (i, x, o) -> exists x', faces (put_peer p (set_reader r P) s) !! q
      = Some (i, x', o) /\ (q = p \/ x' = x) /\ (x <> Idle -> x' <> Idle)).
  { intros q i x o H. rewrite faces_put. destruct (decide (q = p)) as [->|Hne].
    - rewrite lookup_insert_eq. simplify_eq. exists r. auto.
    - rewrite lookup_insert_ne by done. eauto. }
  assert (Hidle : forall q i o, faces s !! q = Some (i, Idle, o) ->
      faces (put_peer p (set_reader r P) s) !! q = Some (i, Idle, o)).
  { intros q i o H. rewrite faces_put, lookup_insert_ne; [done|]. intros <-. congruence. }
  constructor; cbn [peers cb events dropped put_peer set_all]; try done.
  - intros i q H. destruct (iv_peer0 i q H) as (x & o & H1 & H2).
    destruct (Hmove _ _ _ _ H1) as (x' & ? & _). eauto.
  - intros q H. destruct (iv_ann0 q H) as (i & o & ? & ?). eauto.
  - intros q rm H. destruct (iv_dep0 q rm H) as (i & o & H1 & H2).
    destruct (Hmove _ _ _ _ H1) as (x' & ? & [-> | ->] & _); [congruence|]. eauto.
  - intros q H. destruct (iv_rep0 q H) as (i & x & H1 & H2). destruct (Hmove _ _ _ _ H1) as (x' & ? & _). eauto.
  - intros i q H. destruct (iv_conn0 i q H) as (x & o & H1 & H2).
    destruct (Hmove _ _ _ _ H1) as (x' & ? & _ & ?). eauto 6.
  - intros i q H. destruct (iv_fail0 i q H) as (x & H1). destruct (Hmove _ _ _ _ H1) as (x' & ? & _). eauto.
  - intros i q H. destruct (iv_back0 i q H) as [?|[?|[?|(q' & o & ? & ?)]]]; eauto 10.
Qed.

Lemma bind_inv_announce s p P : inv s -> cb s = Some (Announcing p) -> all s !! p = Some P -> inv (announce p P s).
Proof.
  intros [] Hc Hp. assert (Hf := faces_lookup s p P Hp).
  destruct (iv_ann0 p Hc) as (id & o & Hid & Hcur). rewrite Hf in Hid. injection Hid as Hid Hr Ho.
  unfold announce.
  assert (Hfs : forall h e, faces (set_cb h (emit e (put_peer p (set_writing true (set_reader Reading P)) s)))
    = <[p := (p_id P, Reading, p_once P)]> (faces s)) by (intros; apply (faces_put p)).
  assert (Hmove : forall q i x o, faces s !! q = Some (i, x, o) -> exists x',
      <[p := (p_id P, Reading, p_once P)]> (faces s) !! q = Some (i, x', o) /\ (x <> Idle -> x' <> Idle)).
  { intros q i x o' H. destruct (decide (q = p)) as [->|Hne].
    - rewrite lookup_insert_eq. simplify_eq. eauto.
    - rewrite lookup_insert_ne by done. eauto. }
  constructor; rewrite ?Hfs; cbn [peers cb events dropped set_cb emit put_peer set_all]; try done.
  - intros i q H. destruct (iv_peer0 i q H) as (x & o' & H1 & H2).
    destruct (Hmove _ _ _ _ H1) as (x' & ? & _). exists x', o'. split; [done|]. right. simpl.
    destruct (String.eqb_spec (p_id P) i) as [Hi|Hi].
    + destruct Hcur as [?|[_ ?]]; congruence.
    + destruct H2; [congruence|done].
  - simpl. split; [|done]. intros i H. destruct (iv_conn0 i p H) as (x & o' & ? & ?). congruence.
  - intros i q H. apply elem_of_cons in H as [[= -> ->]|H].
    + exists Reading, (p_once P). by rewrite lookup_insert_eq.
    + destruct (iv_conn0 i q H) as (x & o' & H1 & H2). destruct (Hmove _ _ _ _ H1) as (x' & ? & ?). eauto 6.
  - intros i q H. apply elem_of_cons in H as [|H]; [done|]. destruct (iv_fail0 i q H) as (x & H1).
    destruct (Hmove _ _ _ _ H1) as (x' & ? & _). eauto.
  - intros i q. simpl. destruct (String.eqb_spec (p_id P) i) as [Hi|Hi].
    + intros [= <-]. destruct Hcur as [?|[? _]]; [left; congruence|auto].
    + intros H. destruct (iv_back0 i q H) as [?|[?|[?|(q' & o' & Hq & Hq')]]]; [auto..| |]; [congruence|].
      by simplify_eq.
Qed.

Lemma bind_inv_depart s p P :
  inv s -> cb s = None -> all s !! p = Some P -> p_reader P = Exiting -> inv (depart p P s).
Proof.
  intros [] Hc Hp Hr. assert (Hf := faces_lookup s p P Hp). rewrite Hr in Hf. unfold depart, remove.
  destruct (bool_decide_reflect (peers s !! p_id P = Some p)) as [Hcur|Hcur];
    (constructor; cbn [peers cb events dropped set_cb set_peers]; try done).
  - intros H. rewrite (iv_shut0 H). apply delete_empty.
  - intros i q [Hne H]%lookup_delete_Some. destruct (iv_peer0 i q H) as (x & o & ? & [?|?]); [congruence|]. eauto.
  - intros q rm [= <- <-]. exists (p_id P), (p_once P). split; [done|]. intros _. rewrite lookup_delete_eq. split; [|done].
    destruct (iv_peer0 _ _ Hcur) as (x & o & _ & [?|?]); [congruence|done].
  - intros i q H. destruct (iv_back0 i q H) as [Hq|[?|[?|(q' & o' & ? & _)]]]; [|auto|congruence..].
    destruct (decide (i = p_id P)) as [->|Hne]; [|left; by rewrite lookup_delete_ne].
    do 2 right. left. congruence.
  - intros i q H. destruct (iv_peer0 i q H) as (x & o & ? & [?|?]); [congruence|]. eauto.
  - intros q rm [= <- <-]. exists (p_id P), (p_once P). split; [exact Hf|done].
  - intros i q H. destruct (iv_back0 i q H) as [?|[?|[?|(q' & o' & ? & _)]]]; auto; congruence.
Qed.

Lemma bind_inv_departed s p P rm :
  inv s -> cb s = Some (Departing p rm) -> all s !! p = Some P -> inv (departed p P rm s).
Proof.
  intros [] Hc Hp. assert (Hf := faces_lookup s p P Hp).
  destruct (iv_dep0 p rm Hc) as (id & o & Hid & Hrm). rewrite Hf in Hid. injection Hid as Hid Hr Ho.
  unfold departed.
  set (s1 := if rm then _ else s).
  assert (Hs1 : faces s1 = faces s /\ peers s1 = peers s /\ dropped s1 = dropped s /\ open s1 = open s)
    by (unfold s1; by destruct rm).
  destruct Hs1 as (Hf1 & Hp1 & Hd1 & Ho1).
  assert (Hfs : forall h, faces (set_cb h (put_peer p (set_reader (Unlocked rm) P) s1))
    = <[p := (p_id P, Unlocked rm, p_once P)]> (faces s)) by (intros; rewrite <-Hf1; apply (faces_put p)).
  assert (Hmove : forall q i x o, faces s !! q = Some (i, x, o) -> exists x',
      <[p := (p_id P, Unlocked rm, p_once P)]> (faces s) !! q = Some (i, x', o) /\ (x <> Idle -> x' <> Idle)).
  { intros q i x o' H. destruct (decide (q = p)) as [->|Hne].
    - rewrite lookup_insert_eq. simplify_eq. eauto.
    - rewrite lookup_insert_ne by done. eauto. }
  assert (Hbel : forall i, believed i (events s1) = if rm && (p_id P =? i)%string then None else believed i (events s))
    by (intros i; unfold s1; by destruct rm).
  assert (Hin : forall e, (forall i q, e <> Disconnected i q) -> e ∈ events s1 -> e ∈ events s).
  { unfold s1. destruct rm; [|done]. intros e He H. apply elem_of_cons in H as [->|?]; [by destruct (He (p_id P) p)|done]. }
  constructor; rewrite ?Hfs; cbn [peers cb events dropped set_cb put_peer set_all]; rewrite ?Hp1, ?Hd1; try done.
  - intros H. apply iv_shut0. by rewrite <-Ho1.
  - intros i q H. destruct (iv_peer0 i q H) as (x & o' & H1 & H2).
    destruct (Hmove _ _ _ _ H1) as (x' & ? & _). exists x', o'. split; [done|]. right. rewrite Hbel.
    destruct H2 as [|H2]; [congruence|]. destruct rm; [|done]. simpl.
    destruct (String.eqb_spec (p_id P) i) as [Hi|Hi]; [|done].
    destruct (Hrm eq_refl). congruence.
  - unfold s1. destruct rm; [|done]. simpl. rewrite <-Hid in *. split; [by apply Hrm|done].
  - intros i q H. apply Hin in H; [|done]. destruct (iv_conn0 i q H) as (x & o' & H1 & H2).
    destruct (Hmove _ _ _ _ H1) as (x' & ? & ?). eauto 6.
  - intros i q H. apply Hin in H; [|done]. destruct (iv_fail0 i q H) as (x & H1).
    destruct (Hmove _ _ _ _ H1) as (x' & ? & _). eauto.
  - intros i q. rewrite Hbel. destruct (rm && _) eqn:E; [done|]. intros H.
    destruct (iv_back0 i q H) as [?|[?|[?|(q' & o' & Hq & Hq')]]]; [auto..| |]; [|congruence].
    simplify_eq. apply believed_connected, iv_conn0 in H as (x & o & Hq & _).
    simpl in E. apply String.eqb_neq in E. congruence.
Qed.

Lemma bind_inv_once s p P : inv s -> all s !! p = Some P -> inv (put_peer p (set_once P) s).
Proof.
  intros [] Hp. assert (Hf := faces_lookup s p P Hp).
  assert (Hmove : forall q i x o, faces s !! q = Some (i, x, o) -> exists o',
      faces (put_peer p (set_once P) s) !! q = Some (i, x, o') /\ (o = true -> o' = true)).
  { intros q i x o' H. rewrite faces_put. destruct (decide (q = p)) as [->|Hne].
    - rewrite lookup_insert_eq. simplify_eq. eauto.
    - rewrite lookup_insert_ne by done. eauto. }
  constructor; cbn [peers cb events dropped put_peer set_all]; try done.
  - intros i q H. destruct (iv_peer0 i q H) as (x & o & H1 & H2). destruct (Hmove _ _ _ _ H1) as (o' & ? & _). eauto.
  - intros q H. destruct (iv_ann0 q H) as (i & o & H1 & H2). destruct (Hmove _ _ _ _ H1) as (o' & ? & _). eauto.
  - intros q rm H. destruct (iv_dep0 q rm H) as (i & o & H1 & H2). destruct (Hmove _ _ _ _ H1) as (o' & ? & _). eauto.
  - intros q H. destruct (iv_rep0 q H) as (i & x & H1 & H2). destruct (Hmove _ _ _ _ H1) as (o' & H3 & Ho).
    rewrite Ho in H3 by done. eauto.
  - intros i q H. destruct (iv_conn0 i q H) as (x & o & H1 & H2). destruct (Hmove _ _ _ _ H1) as (o' & ? & _). eauto.
  - intros i q H. destruct (iv_fail0 i q H) as (x & H1). destruct (Hmove _ _ _ _ H1) as (o' & H3 & Ho).
    rewrite Ho in H3 by done. eauto.
  - intros i q H. destruct (iv_back0 i q H) as [?|[?|[?|(q' & o & Hc & H1)]]]; [auto..|].
    destruct (Hmove _ _ _ _ H1) as (o' & ? & _). eauto 10.
Qed.

Lemma bind_inv_reported s p P : inv s -> all s !! p = Some P -> inv (reported p P s).
Proof. intros Hi Hp. apply (bind_inv_frame s); try done. by apply (faces_same p P). Qed.

(** The report of a failed write. *)
Lemma bind_inv_report s p P :
  inv s -> all s !! p = Some P -> (p_once P = false -> cb s = None) -> inv (report p P s).
Proof.
  intros Hi Hp Hc. assert (Hf := faces_lookup s p P Hp). unfold report.
  destruct (p_once P) eqn:E; [by apply bind_inv_reported|]. specialize (Hc eq_refl).
  assert (Ho := bind_inv_once _ _ _ Hi Hp).
  destruct (bool_decide_reflect (peers s !! p_id (set_once P) = Some p)) as [Hcur|Hcur].
  - destruct Ho. cbn [peers cb events dropped put_peer set_all] in *.
    constructor; cbn [peers cb events dropped set_cb]; try done.
    + intros i q H. destruct (iv_peer0 i q H) as (x & o & H1 & [?|?]); [congruence|eauto].
    + intros q [= <-]. exists (p_id P), (p_reader P).
      split; [change (faces (put_peer p (set_once P) s) !! p = Some (p_id P, p_reader P, true)); by rewrite faces_put, lookup_insert_eq|].
      split; [destruct (iv_peer0 _ _ Hcur) as (x & o & _ & [?|?]); [congruence|done]|].
      intros H. destruct (iv_fail _ Hi _ _ H) as (x & Hx). congruence.
    + intros i q H. destruct (iv_back0 i q H) as [?|[?|[?|(q' & o & ? & _)]]]; auto; congruence.
  - replace (reported p (set_once P) s) with (reported p (set_once P) (put_peer p (set_once P) s)).
    + apply bind_inv_reported; [done|]. simpl. by rewrite lookup_insert_eq.
    + unfold reported, put_peer, set_all. simpl. by rewrite insert_insert_eq.
Qed.

Lemma bind_inv_failed s p P :
  inv s -> all s !! p = Some P -> cb s = Some (Reporting p) ->
  inv (set_cb None (emit (WriteFailure (p_id P) p) (reported p P s))).
Proof.
  intros Hi Hp Hc. assert (Hf := faces_lookup s p P Hp).
  assert (Hfs : faces (set_cb None (emit (WriteFailure (p_id P) p) (reported p P s))) = faces s) by by apply (faces_same p P).
  destruct Hi. destruct (iv_rep0 p Hc) as (id & r & Hid & Hb & Hn). rewrite Hf in Hid. injection Hid as Hid Hr Ho.
  constructor; rewrite ?Hfs; cbn [peers cb events dropped set_cb emit reported put_peer set_all believed]; try done.
  - intros i q H. destruct (iv_peer0 i q H) as (x & o & H1 & [?|?]); [congruence|eauto].
  - simpl. rewrite Hid. auto.
  - intros i q H. apply elem_of_cons in H as [?|?]; [done|eauto].
  - intros i q H. apply elem_of_cons in H as [[= -> ->]|?]; [|eauto]. exists (p_reader P). congruence.
  - intros i q H. destruct (iv_back0 i q H) as [?|[?|[?|(q' & o & ? & _)]]]; auto; congruence.
Qed.

Lemma bind_inv_gen s g l : inv s -> open s = false -> inv (set_open true g (set_packets l (set_peers ∅ s))).
Proof.
  intros [] Ho. rewrite <-(iv_shut0 Ho). by constructor.
Qed.

Lemma bind_inv_open s p dial : inv s -> cb s = None -> all s !! p = None -> inv (open_ p dial s).2.
Proof.
  intros Hi Hc Hp. unfold open_. destruct (open s) eqn:Ho; [done|].
  assert (Hi' := bind_inv_gen s (S (gen s)) [] Hi Ho).
  destruct is_client; [|done]. destruct dial; [by apply bind_inv_install|]. destruct Hi'. by constructor.
Qed.

Lemma guard_inv b s s' : guard_ b s = Some s' -> b = true /\ s' = s.
Proof. unfold guard_. destruct b; [|done]. by intros [= <-]. Qed.

Lemma on_peer_inv p s f s' : on_peer p s f = Some s' -> exists P, all s !! p = Some P /\ f P = Some s'.
Proof. unfold on_peer. destruct (all s !! p) as [P|]; [eauto|done]. Qed.

Lemma unlocked_cb s : unlocked s = true -> cb s = None.
Proof. unfold unlocked. by destruct (cb s). Qed.

Lemma fresh_none {A} (m : gmap nat A) k : fresh m k = true -> m !! k = None.
Proof. unfold fresh. by destruct (m !! k). Qed.

(** Peels a step down to the operation it makes. *)
Ltac step_inv H :=
  repeat match type of H with
  | guard_ _ _ = Some _ => apply guard_inv in H as [? ->]
  | on_peer _ _ _ = Some _ => let P := fresh "P" in apply on_peer_inv in H as (P & ? & H)
  | match ?x with _ => _ end = Some _ => destruct x eqn:?; try discriminate H
  | Some _ = Some _ => injection H as <-
  | None = Some _ => discriminate H
  end;
  repeat match goal with
  | H : _ && _ = true |- _ => apply andb_true_iff in H as [? ?]
  | H : unlocked _ = true |- _ => apply unlocked_cb in H
  | H : fresh _ _ = true |- _ => apply fresh_none in H
  end.

Lemma bind_inv_face s p P P' : inv s -> all s !! p = Some P -> face P' = face P -> inv (put_peer p P' s).
Proof. intros Hi Hp Hf. apply (bind_inv_frame s); try done. by apply (faces_same p P). Qed.

Lemma peer_set_spec m id p : m !! id = Some p -> p ∈ peer_set m.
Proof.
  intros H. unfold peer_set. apply elem_of_list_to_set, list_elem_of_fmap. exists (id, p). split; [done|].
  by apply elem_of_map_to_list.
Qed.

Lemma close_ws_frame p s : open (close_ws p s) = open s /\ faces (close_ws p s) = faces s
  /\ peers (close_ws p s) = peers s /\ cb (close_ws p s) = cb s /\ events (close_ws p s) = events s
  /\ dropped (close_ws p s) = dropped s.
Proof.
  unfold close_ws. destruct (all s !! p) as [P|] eqn:Hp; [|done]. repeat split. by apply (faces_same p P).
Qed.

Lemma bind_inv_attach s k p id : inv s -> cb s = None -> all s !! p = None -> inv (attach k p id s).
Proof.
  intros Hi Hc Hp. unfold attach. cbn [open set_accepting peers].
  destruct (open s) eqn:Ho; simpl negb; cbv iota; [|by apply (bind_inv_frame s)].
  assert (Hi' : inv (set_accepting (delete k (accepting s)) s)) by by apply (bind_inv_frame s).
  destruct (peers s !! id) as [old|] eqn:Hold; [|by apply bind_inv_install].
  unfold close_ws. cbn [all set_accepting]. destruct (all s !! old) as [P|] eqn:HP; [|by apply bind_inv_install].
  apply bind_inv_install; try done; [by apply (bind_inv_face _ old P)|].
  simpl. rewrite lookup_insert_ne; [done|congruence].
Qed.

Lemma inv_CloseSession id s : inv s -> inv (CloseSession id s).
Proof.
  intros Hi. unfold CloseSession. destruct (peers s !! id) as [p|] eqn:Hp; [|done].
  apply (bind_inv_frame (set_closing ({[p]} ∪ closing s) ({[p]} ∪ dropped s)
    (set_peers (delete id (peers s)) (set_open (open s) (gen s) s)))); try done.
  apply bind_inv_forget; [| |intros i q Hq|set_solver|done].
  - intros Ho. rewrite (iv_shut _ Hi Ho). apply delete_empty.
  - by intros i q [_ ?]%lookup_delete_Some.
  - destruct (decide (i = id)) as [->|Hne]; [right; set_solver|left; by rewrite lookup_delete_ne].
Qed.

Lemma inv_Close s : inv s -> inv (Close s).
Proof.
  intros Hi. unfold Close. destruct (open s); [|done].
  apply bind_inv_forget; [done|intros; set_solver| |set_solver|done].
  intros i q Hq. right. apply elem_of_union_l. by eapply peer_set_spec.
Qed.

Lemma bind_inv_step l s s' : inv s -> step l s = Some s' -> inv s'.
Proof.
  intros Hi Hs. destruct l; cbn [step] in Hs; unfold deliver, redial_wait, send, receive in Hs; step_inv Hs; try done;
    try by (apply (bind_inv_frame s)).
  - by apply bind_inv_open.
  - unfold serve. destruct (open s) eqn:?; [by apply (bind_inv_frame s)|done].
  - by apply bind_inv_attach.
  - by apply bind_inv_announce.
  - apply bind_inv_reader; congruence.
  - by apply bind_inv_depart.
  - by apply bind_inv_departed.
  - unfold finish. assert (Hr : inv (put_peer p (set_reader Ended (set_done P)) s)).
    { apply (bind_inv_frame (put_peer p (set_reader Ended P) s)); try done; [|apply bind_inv_reader; congruence].
      by rewrite !faces_put. }
    destruct (_ && _); [by apply (bind_inv_frame (put_peer p (set_reader Ended (set_done P)) s))|done].
  - unfold redial_dial. by destruct (closed _ _); apply (bind_inv_frame s).
  - unfold redial_attach. destruct (closed g _) eqn:Hg; [by apply (bind_inv_frame s)|].
    apply bind_inv_install; try done; [by apply (bind_inv_frame s)|].
    unfold closed in Hg. apply negb_false_iff, andb_true_iff in Hg as [Hg _]. exact Hg.
  - apply bind_inv_report; [done|done|]. intros Ho. rewrite Ho in *. by apply unlocked_cb.
  - by apply bind_inv_failed.
  - unfold enqueue. cbn [all set_sends]. destruct (_ && _); [by apply (bind_inv_frame s)|].
    assert (Hi' : inv (set_sends (delete k (sends s)) s)) by by apply (bind_inv_frame s).
    destruct (_ <? _); [by apply (bind_inv_face _ n P)|].
    match goal with |- inv (count_drop (put_peer n ?P' ?s1)) => apply (bind_inv_frame (put_peer n P' s1)); try done end.
    apply (bind_inv_face _ n P); [done|done|]. by destruct (_ =? _).
  - unfold write. apply (bind_inv_face _ p P); [done|done|]. by destruct ok.
  - by apply (bind_inv_face _ p P).
  - by apply inv_CloseSession.
  - by apply inv_Close.
  - apply (bind_inv_frame (set_closing (closing s ∖ {[p]}) (dropped s) s)); try apply close_ws_frame; [|by apply (bind_inv_frame s)].
    destruct (close_ws_frame p (set_closing (closing s ∖ {[p]}) (dropped s) s)) as (_ & _ & _ & _ & _ & ->). done.
  - by apply (bind_inv_face _ p P).
Qed.

Lemma bind_inv_start : inv start.
Proof. constructor; simpl; try done; intros; set_solver. Qed.

Lemma bind_inv_run ls s s' : inv s -> run ls s = Some s' -> inv s'.
Proof.
  induction ls as [|l ls IH] in s |- *; simpl; [by intros ? [= <-]|].
  intros Hs. destruct (step l s) as [s1|] eqn:Hl; [|done]. apply IH. by eapply bind_inv_step.
Qed.

(** ** Queues *)

(** At most one batch, the one whose write failed, is missing between what
    was written and what still waits; a carrier that overflows is being torn
    down. *)
Record peer_ok (P : peer) : Prop := mkOk {
  po_len : Zlen (p_out P) <= peerQueueDepth;
  po_valid : Forall (fun b => b <> [] /\ Forall (fun d => ValidDatagram d = true) b) (p_taken P);
  po_order : exists lost, p_taken P = p_wrote P ++ lost ++ p_out P /\ (length lost <= 1)%nat
    /\ (p_writing P = true \/ p_reader P = Idle -> lost = []);
  po_start : p_writing P = true -> p_reader P <> Idle;
  po_int32 : - 2 ^ 31 <= p_overflow P < 2 ^ 31;
  po_overflow : overflowFailureThreshold <= p_overflow P -> (0 < p_reports P)%nat \/ p_alive P = false;
}.

Record queues_ok (s : bind) : Prop := mkQ {
  qo_peers : forall p P, all s !! p = Some P -> peer_ok P;
  qo_known : forall id p, peers s !! id = Some p -> is_Some (all s !! p);
  qo_packets : Zlen (packets s) <= IdealBatchSize;
  qo_datagrams : Forall (fun x => ValidDatagram x.1 = true) (packets s);
  qo_sends : forall k p b, sends s !! k = Some (p, b) ->
    is_Some (all s !! p) /\ b <> [] /\ Forall (fun d => ValidDatagram d = true) b;
}.

Lemma newPeer_ok id : peer_ok (newPeer id).
Proof. constructor; simpl; try done. exists []. auto. Qed.

(** What changes nothing that the queues depend on. *)
Lemma peer_ok_same P P' :
  p_out P' = p_out P -> p_taken P' = p_taken P -> p_wrote P' = p_wrote P ->
  (p_writing P' = true \/ p_reader P' = Idle -> p_writing P = true \/ p_reader P = Idle) ->
  ((p_writing P = true -> p_reader P <> Idle) -> p_writing P' = true -> p_reader P' <> Idle) ->
  p_overflow P' = p_overflow P ->
  ((0 < p_reports P)%nat \/ p_alive P = false -> (0 < p_reports P')%nat \/ p_alive P' = false) ->
  peer_ok P -> peer_ok P'.
Proof.
  intros Ho Ht Hw Hs Hi Hv Hr []. constructor; rewrite ?Ho, ?Ht, ?Hw, ?Hv; auto.
  destruct po_order0 as (lost & ? & ? & ?). exists lost. auto.
Qed.

Lemma q_put s p P P' : queues_ok s -> all s !! p = Some P -> (peer_ok P -> peer_ok P') -> queues_ok (put_peer p P' s).
Proof.
  intros [] Hp Hok. constructor; cbn [all peers packets sends put_peer set_all]; try done.
  - intros q Q [[<- <-]|[_ H]]%lookup_insert_Some; eauto.
  - intros id q H. destruct (qo_known0 id q H) as [Q HQ]. rewrite lookup_insert_is_Some'. right. eauto.
  - intros k q b H. destruct (qo_sends0 k q b H) as ([Q HQ] & ? & ?). split; [|done].
    rewrite lookup_insert_is_Some'. right. eauto.
Qed.

Lemma q_frame s s' :
  all s' = all s -> (forall id p, peers s' !! id = Some p -> peers s !! id = Some p) -> packets s' = packets s ->
  (forall k x, sends s' !! k = Some x -> sends s !! k = Some x) -> queues_ok s -> queues_ok s'.
Proof. intros Ha Hp Hk Hs []. constructor; rewrite ?Ha, ?Hk; eauto. Qed.

Lemma q_install s id p : queues_ok s -> all s !! p = None -> queues_ok (install id p s).
Proof.
  intros [] Hp. constructor; cbn [all peers packets sends install put_peer set_all set_peers set_cb]; try done.
  - intros q Q [[<- <-]|[_ H]]%lookup_insert_Some; [apply newPeer_ok|eauto].
  - intros i q H. rewrite lookup_insert_is_Some'. apply lookup_insert_Some in H as [[_ ->]|[_ H]]; eauto.
  - intros k q b H. destruct (qo_sends0 k q b H) as ([Q HQ] & ? & ?). split; [|done].
    rewrite lookup_insert_is_Some'. right. eauto.
Qed.

Lemma q_close_ws s p : queues_ok s -> queues_ok (close_ws p s).
Proof.
  intros Hq. unfold close_ws. destruct (all s !! p) as [P|] eqn:Hp; [|done].
  apply (q_put _ _ P); [done|done|]. apply peer_ok_same; simpl; auto.
Qed.

Lemma add32_step x : - 2 ^ 31 <= x < 2 ^ 31 ->
  - 2 ^ 31 <= add32 x 1 < 2 ^ 31 /\ (overflowFailureThreshold < add32 x 1 -> overflowFailureThreshold <= x).
Proof.
  unfold add32, overflowFailureThreshold. change (2 ^ 31) with 2147483648. change (2 ^ 32) with 4294967296.
  intros Hx. destruct (Z.eqb_spec x 2147483647) as [->|]; [vm_compute; intuition congruence|].
  rewrite Z.mod_small by lia. lia.
Qed.

Lemma q_enqueue k p b d P s :
  queues_ok s -> all s !! p = Some P -> sends s !! k = Some (p, b) -> queues_ok (enqueue k p b d P s).
Proof.
  intros Hq Hp Hk. unfold enqueue.
  assert (Hq' : queues_ok (set_sends (delete k (sends s)) s)).
  { apply (q_frame s); try done. simpl. by intros i x [_ ?]%lookup_delete_Some. }
  destruct (qo_sends _ Hq _ _ _ Hk) as (_ & Hne & Hv).
  destruct (p_done P && _); [done|]. destruct (Z.ltb_spec (Zlen (p_out P)) peerQueueDepth) as [Hroom|Hfull].
  - apply (q_put _ _ P); [done|done|]. intros []. constructor; simpl; try done.
    + rewrite Zlen_app. change (Zlen [b]) with 1. lia.
    + apply Forall_app. split; [done|]. by repeat constructor.
    + destruct po_order0 as (lost & -> & ? & ?). exists lost. split; [by rewrite !(assoc_L app)|auto].
  - apply (q_frame (put_peer p (if add32 (p_overflow P) 1 =? overflowFailureThreshold
        then set_reports (S (p_reports P)) (set_overflow (add32 (p_overflow P) 1) P)
        else set_overflow (add32 (p_overflow P) 1) P) (set_sends (delete k (sends s)) s))); try done.
    apply (q_put _ _ P); [done|done|]. intros []. destruct (add32_step _ po_int33) as [Hr Ht].
    destruct (Z.eqb_spec (add32 (p_overflow P) 1) overflowFailureThreshold) as [He|He];
      constructor; simpl; try done.
    + intros _. left. lia.
    + intros Hge. apply po_overflow0. apply Ht. lia.
Qed.

Lemma q_write p ok b rest P s :
  queues_ok s -> all s !! p = Some P -> p_out P = b :: rest -> p_writing P = true ->
  queues_ok (write p ok b rest P s).
Proof.
  intros Hq Hp Ho Hw. unfold write. apply (q_put _ _ P); [done|done|]. intros [].
  assert (Hl : Zlen rest <= peerQueueDepth) by (rewrite Ho, Zlen_cons in po_len0; lia).
  destruct po_order0 as (lost & Ht & _ & Hlost). rewrite Hlost in Ht by auto. rewrite Ho in Ht. simpl in Ht.
  destruct ok; constructor; simpl; try done.
  - exists []. rewrite Ht, <-(assoc_L app). auto.
  - exists [b]. split; [done|]. split; [simpl; lia|]. intros [?|Hr]; [done|]. by destruct po_start0.
  - intros _. left. lia.
Qed.

Lemma q_drop n s : queues_ok s -> queues_ok (set_packets (drop n (packets s)) s).
Proof.
  intros []. constructor; cbn [all peers packets sends set_packets]; try done.
  - unfold Zlen in *. rewrite length_drop. lia.
  - by apply Forall_drop.
Qed.

Lemma q_deliver p binary data s s' : queues_ok s -> deliver p binary data s = Some s' -> queues_ok s'.
Proof.
  intros Hq. unfold deliver. destruct (if binary then _ else _) as [d|] eqn:Hd; [|by intros [= <-]].
  destruct binary; [|done]. unfold Accept in Hd. destruct (ValidDatagram data) eqn:Hv; simplify_eq.
  destruct (Z.ltb_spec (Zlen (packets s)) IdealBatchSize); [|done]. intros [= <-].
  destruct Hq. constructor; cbn [all peers packets sends set_packets]; try done.
  - rewrite Zlen_app. change (Zlen [(d, p)]) with 1. lia.
  - apply Forall_app. split; [done|]. by repeat constructor.
Qed.

Lemma q_open p dial s : queues_ok s -> all s !! p = None -> queues_ok (open_ p dial s).2.
Proof.
  intros Hq Hp. unfold open_. destruct (open s); [done|].
  assert (Hd : queues_ok (set_open true (S (gen s)) (set_packets [] (set_peers ∅ s)))).
  { rewrite <-(drop_all (packets s)). apply (q_frame (set_packets (drop (length (packets s)) (packets s)) s)); try done.
    by apply q_drop. }
  destruct is_client; [|done]. destruct dial; [by apply q_install|].
  by eapply q_frame; [..|exact Hd].
Qed.

Lemma q_attach s k p id : queues_ok s -> all s !! p = None -> queues_ok (attach k p id s).
Proof.
  intros Hq Hp. unfold attach. cbn [open set_accepting peers].
  assert (Hq' : queues_ok (set_accepting (delete k (accepting s)) s)) by by apply (q_frame s).
  destruct (open s); [|done]. simpl. destruct (peers s !! id) as [old|] eqn:Ho; [|by apply q_install].
  apply q_install; [by apply q_close_ws|]. unfold close_ws. cbn [all set_accepting].
  destruct (all s !! old) eqn:HP; [|done]. simpl. rewrite lookup_insert_ne; [done|congruence].
Qed.

Lemma q_send k n bufs s :
  queues_ok s -> is_Some (all s !! n) -> List.filter ValidDatagram bufs <> [] ->
  queues_ok (set_sends (<[k := (n, List.filter ValidDatagram bufs)]> (sends s)) s).
Proof.
  intros [] Hn Hb. constructor; cbn [all peers packets sends set_sends]; try done.
  intros j p b [[_ [= <- <-]]|[_ H]]%lookup_insert_Some; [|eauto]. split; [done|]. split; [done|].
  apply Forall_forall. intros d Hd%list_elem_of_In. apply filter_In in Hd as [_ Hd]. exact Hd.
Qed.

(** A peer changes in what the queues do not depend on. *)
Ltac q_peer P := apply (q_put _ _ P); [assumption|assumption|apply peer_ok_same; simpl; auto].

Lemma q_reported p P s : queues_ok s -> all s !! p = Some P -> queues_ok (reported p P s).
Proof. intros. unfold reported. q_peer P. Qed.

Lemma q_report p P s : queues_ok s -> all s !! p = Some P -> queues_ok (report p P s).
Proof.
  intros Hq Hp. unfold report. destruct (p_once P); [by apply q_reported|].
  destruct (bool_decide _); [|unfold reported; q_peer P].
  apply (q_frame (put_peer p (set_once P) s)); try done. q_peer P.
Qed.

Lemma q_step l s s' : inv s -> queues_ok s -> step l s = Some s' -> queues_ok s'.
Proof.
  intros Hi Hq Hs. destruct l; cbn [step] in Hs; unfold redial_wait, send, receive in Hs; step_inv Hs; try done;
    try by (apply (q_frame s)).
  - by apply q_open.
  - unfold serve. destruct (open s); [by apply (q_frame s)|done].
  - by apply q_attach.
  - apply (q_frame (put_peer p (set_writing true (set_reader Reading P)) s)); try done.
    assert (p_reader P = Idle).
    { destruct (iv_ann _ Hi _ Heqo) as (id & o & Hf & _). rewrite (faces_lookup s p P) in Hf by done. congruence. }
    q_peer P.
  - by eapply q_deliver.
  - q_peer P; intuition congruence.
  - unfold depart, remove. destruct (bool_decide _); apply (q_frame s); try done.
    simpl. by intros i q [_ ?]%lookup_delete_Some.
  - unfold departed. apply (q_frame (put_peer p (set_reader (Unlocked removed) P) s)); try (by destruct removed).
    q_peer P; intuition congruence.
  - unfold finish. assert (Hf : queues_ok (put_peer p (set_reader Ended (set_done P)) s)) by (q_peer P; intuition congruence).
    destruct (_ && _); [by eapply q_frame; [..|exact Hf]|done].
  - unfold redial_dial. by destruct (closed _ _); apply (q_frame s).
  - unfold redial_attach. destruct (closed _ _); [by apply (q_frame s)|]. apply q_install; [by apply (q_frame s)|done].
  - by apply q_report.
  - assert (Hr := q_reported p P s Hq ltac:(done)). by eapply q_frame; [..|exact Hr].
  - apply q_send; [done|by eapply qo_known|]. by eapply bool_decide_eq_false_1.
  - by apply q_enqueue.
  - by apply q_write.
  - q_peer P; intuition congruence.
  - by apply q_drop.
  - unfold CloseSession. destruct (peers s !! id); [|done]. apply (q_frame s); try done.
    simpl. by intros i q [_ ?]%lookup_delete_Some.
  - unfold Close. destruct (open s); [|done]. by apply (q_frame s).
  - apply q_close_ws. by apply (q_frame s).
  - q_peer P.
Qed.

(** ** The client's one carrier *)
Definition readers (s : bind) : gmap nat reader := p_reader <$> all s.

(** Who holds [callbacksMu], writers' reports aside. *)
Definition turn (s : bind) : option holder :=
  match cb s with Some (Reporting _) => None | h => h end.

Definition others_ended (p : nat) (s : bind) : Prop := forall q r, readers s !! q = Some r -> q <> p -> r = Ended.

Definition captured (x : redial) : option nat :=
  match x with RStarting => None | RTrying g _ | RWaiting g _ | RDialed g => Some g end.

(** A client's bind holds a peer that is being announced, read or about to be
    removed, or a removed one whose reader is about to redial, or one redial
    loop; never two of them. *)
Inductive stage (s : bind) : Prop :=
  | Carrying (p : nat) : peers s = {["remote"%string := p]} ->
      (readers s !! p = Some Idle /\ turn s = Some (Announcing p)
       \/ (readers s !! p = Some Reading \/ readers s !! p = Some Exiting) /\ turn s = None) ->
      others_ended p s -> redials s = ∅ -> stage s
  | Leaving (p : nat) : peers s = ∅ ->
      (readers s !! p = Some Exiting /\ turn s = Some (Departing p true)
       \/ readers s !! p = Some (Unlocked true) /\ turn s = None) ->
      others_ended p s -> redials s = ∅ -> stage s
  | Redialing (r : nat) (x : redial) : peers s = ∅ -> turn s = None ->
      (forall q rd, readers s !! q = Some rd -> rd = Ended) -> redials s = {[r := x]} ->
      (forall g, captured x = Some g -> g = gen s) -> stage s.

(** A closed bind whose goroutines are done: no peer is announced or about to
    be removed, no reader runs and no redial loop.  So is a new bind, and a
    closed one after the ends of its readers and loops. *)
Definition settled (s : bind) : Prop :=
  open s = false /\ turn s = None /\ redials s = ∅ /\ forall q rd, readers s !! q = Some rd -> rd = Ended.

(** The client's life from a settled state until a [Close]. *)
Record single (s : bind) : Prop := mkSingle {
  si_shut : open s = false -> settled s;
  si_stage : open s = true -> stage s;
  si_redial : noRedial s = false;
  si_accepting : accepting s = ∅;
}.

(** What a client does not do here: turn redialing off, which only tests do,
    close a session, which only servers do, or close the bind. *)
Definition keeps_redialing (l : label) : Prop :=
  match l with LConfig nr _ _ => nr = false | LCloseSession _ | LClose => False | _ => True end.

Lemma stage_frame s s' :
  peers s' = peers s -> readers s' = readers s -> turn s' = turn s -> redials s' = redials s -> gen s' = gen s ->
  stage s -> stage s'.
Proof.
  intros Hp Hr Ht Hd Hg [p H1 H2 H3 H4|p H1 H2 H3 H4|r x H1 H2 H3 H4 H5].
  - apply (Carrying _ p); rewrite ?Hp, ?Ht, ?Hd, ?Hr; try done. unfold others_ended. by rewrite Hr.
  - apply (Leaving _ p); rewrite ?Hp, ?Ht, ?Hd, ?Hr; try done. unfold others_ended. by rewrite Hr.
  - apply (Redialing _ r x); rewrite ?Hp, ?Ht, ?Hd, ?Hr, ?Hg; done.
Qed.

Lemma readers_put p P s : readers (put_peer p P s) = <[p := p_reader P]> (readers s).
Proof. unfold readers, put_peer. simpl. by rewrite fmap_insert. Qed.

Lemma readers_same p P P' s : all s !! p = Some P -> p_reader P' = p_reader P -> readers (put_peer p P' s) = readers s.
Proof. intros Hp Hr. rewrite readers_put, Hr. apply insert_id. unfold readers. by rewrite lookup_fmap, Hp. Qed.

Lemma readers_lookup s p P : all s !! p = Some P -> readers s !! p = Some (p_reader P).
Proof. intros H. unfold readers. by rewrite lookup_fmap, H. Qed.

(** Steps the carrier's life does not depend on. *)
Lemma single_frame s s' :
  gen s' = gen s -> open s' = open s -> noRedial s' = noRedial s -> accepting s' = accepting s ->
  redials s' = redials s -> peers s' = peers s -> readers s' = readers s -> turn s' = turn s -> single s -> single s'.
Proof.
  intros Hg Ho Hn Ha Hr Hp Hrd Ht []. constructor; unfold settled in *; rewrite ?Ho, ?Hn, ?Ha, ?Hr, ?Hrd, ?Ht; try done.
  intros. apply (stage_frame s); auto.
Qed.

Lemma single_install s p :
  (forall q rd, readers s !! q = Some rd -> rd = Ended) -> peers s = ∅ -> redials s = ∅ -> open s = true ->
  noRedial s = false -> accepting s = ∅ -> single (install "remote" p s).
Proof.
  intros He Hps Hr Ho Hn Ha. constructor; cbn [open noRedial accepting install set_cb set_peers put_peer set_all]; try done.
  - congruence.
  - intros _. apply (Carrying _ p); try done.
    + simpl. by rewrite Hps.
    + left. split; [|done]. change (readers (put_peer p (newPeer "remote") s) !! p = Some Idle).
      by rewrite readers_put, lookup_insert_eq.
    + intros q r. change (readers (put_peer p (newPeer "remote") s) !! q = Some r -> q <> p -> r = Ended).
      rewrite readers_put. intros [[-> _]|[_ H]]%lookup_insert_Some ?; [done|eauto].
Qed.

(** A step while the bind is open: only the stage has to be shown. *)
Lemma single_next s s' :
  single s -> noRedial s' = noRedial s -> accepting s' = accepting s -> open s' = open s ->
  open s = true -> (stage s -> stage s') -> single s'.
Proof.
  intros [] Hn Ha Ho H1 Hs. constructor; rewrite ?Hn, ?Ha, ?Ho, ?H1; auto. congruence.
Qed.

(** A reader, a loop or a callback at work shows the bind open. *)
Lemma reader_open s p P : single s -> all s !! p = Some P -> p_reader P <> Ended -> open s = true.
Proof.
  intros Hs Hp Hr. destruct (open s) eqn:Ho; [done|]. destruct (si_shut s Hs Ho) as (_ & _ & _ & He).
  by destruct Hr, (He _ _ (readers_lookup s p P Hp)).
Qed.

Lemma redial_open s r x : single s -> redials s !! r = Some x -> open s = true.
Proof.
  intros Hs Hr. destruct (open s) eqn:Ho; [done|]. destruct (si_shut s Hs Ho) as (_ & _ & He & _). by rewrite He in Hr.
Qed.

Lemma turn_open s h : single s -> turn s = Some h -> open s = true.
Proof.
  intros Hs Hr. destruct (open s) eqn:Ho; [done|]. destruct (si_shut s Hs Ho) as (_ & He & _). congruence.
Qed.

Lemma stage_announce s p P : cb s = Some (Announcing p) -> all s !! p = Some P -> stage s -> stage (announce p P s).
Proof.
  intros Hc Hp Hs. assert (Ht : turn s = Some (Announcing p)) by (unfold turn; by rewrite Hc).
  destruct Hs as [q H1 [[H2 H3]|[_ H3]] H4 H5|q H1 [[_ H3]|[_ H3]] H4 H5|r x H1 H2 H3 H4 H5]; try congruence.
  assert (q = p) as -> by congruence. apply (Carrying _ p); try done.
  - right. split; [left|done]. change (readers (put_peer p (set_writing true (set_reader Reading P)) s) !! p = Some Reading).
    by rewrite readers_put, lookup_insert_eq.
  - intros q r. change (readers (put_peer p (set_writing true (set_reader Reading P)) s) !! q = Some r -> q <> p -> r = Ended).
    rewrite readers_put. intros [[-> _]|[_ H]]%lookup_insert_Some ?; [done|eauto].
Qed.

(** The reader of a peer that is neither idle nor ended is the stage's. *)
Lemma stage_read_end s p P :
  all s !! p = Some P -> p_reader P = Reading -> stage s -> stage (put_peer p (set_reader Exiting P) s).
Proof.
  intros Hp Hr Hs. assert (Hl := readers_lookup s p P Hp). rewrite Hr in Hl.
  destruct Hs as [q H1 H2 H4 H5|q H1 H2 H4 H5|r x H1 H2 H3 H4 H5].
  - destruct (decide (p = q)) as [->|Hne]; [|by specialize (H4 _ _ Hl Hne)].
    apply (Carrying _ q); try done.
    + right. rewrite readers_put, lookup_insert_eq. split; [by right|]. destruct H2 as [[? _]|[_ ?]]; [congruence|done].
    + intros q' r'. rewrite readers_put. intros [[-> _]|[_ H]]%lookup_insert_Some ?; [done|eauto].
  - destruct (decide (p = q)) as [->|Hne]; [|by specialize (H4 _ _ Hl Hne)]. destruct H2 as [[? _]|[? _]]; congruence.
  - by specialize (H3 _ _ Hl).
Qed.

Lemma stage_depart s p P :
  inv s -> all s !! p = Some P -> p_reader P = Exiting -> cb s = None -> stage s -> stage (depart p P s).
Proof.
  intros Hi Hp Hr Hc Hs. assert (Hl := readers_lookup s p P Hp). rewrite Hr in Hl.
  assert (Ht : turn s = None) by (unfold turn; by rewrite Hc).
  destruct Hs as [q H1 H2 H4 H5|q H1 [[_ ?]|[H2 _]] H4 H5|r x H1 H2 H3 H4 H5]; [| | |by specialize (H3 _ _ Hl)].
  - destruct (decide (p = q)) as [->|Hne]; [|by specialize (H4 _ _ Hl Hne)].
    assert (Hid : p_id P = "remote"%string).
    { destruct (iv_peer _ Hi "remote"%string q) as (r & o & Hf & _); [by rewrite H1, lookup_singleton_eq|].
      rewrite (faces_lookup s q P Hp) in Hf. congruence. }
    unfold depart, remove. rewrite Hid, H1, lookup_singleton_eq, bool_decide_true by done.
    apply (Leaving _ q); try done; first [by left | simpl; by rewrite delete_singleton_eq].
  - congruence.
  - destruct (decide (p = q)) as [->|Hne]; [congruence|by specialize (H4 _ _ Hl Hne)].
Qed.

Lemma stage_departed s p P rm :
  all s !! p = Some P -> cb s = Some (Departing p rm) -> stage s -> stage (departed p P rm s).
Proof.
  intros Hp Hc Hs. assert (Ht : turn s = Some (Departing p rm)) by (unfold turn; by rewrite Hc).
  destruct Hs as [q H1 [[_ ?]|[_ ?]] H4 H5|q H1 [[_ H2]|[_ H2]] H4 H5|r x H1 H2 H3 H4 H5]; try congruence.
  rewrite Ht in H2. injection H2 as -> ->. unfold departed. apply (Leaving _ q); try done.
  - right. split; [|done]. change (readers (put_peer q (set_reader (Unlocked true) P) s) !! q = Some (Unlocked true)).
    by rewrite readers_put, lookup_insert_eq.
  - intros q' r'. change (readers (put_peer q (set_reader (Unlocked true) P) s) !! q' = Some r' -> q' <> q -> r' = Ended).
    rewrite readers_put. intros [[-> _]|[_ H]]%lookup_insert_Some ?; [done|eauto].
Qed.

Lemma stage_finish s p r P rm :
  is_client = true -> noRedial s = false -> all s !! p = Some P -> p_reader P = Unlocked rm -> stage s ->
  stage (finish p r P rm s).
Proof.
  intros Hcl Hn Hp Hr Hs. assert (Hl := readers_lookup s p P Hp). rewrite Hr in Hl.
  assert (Hq : forall q, readers s !! q = Some Exiting \/ readers s !! q = Some (Unlocked true) ->
      others_ended q s -> p = q).
  { intros q _ Ho. destruct (decide (p = q)) as [->|Hne]; [done|by specialize (Ho _ _ Hl Hne)]. }
  destruct Hs as [q H1 H2 H4 H5|q H1 H2 H4 H5|x y H1 H2 H3 H4 H5].
  - destruct (decide (p = q)) as [->|Hne]; [|by specialize (H4 _ _ Hl Hne)].
    destruct H2 as [[? _]|[[?|?] _]]; congruence.
  - destruct (decide (p = q)) as [->|Hne]; [|by specialize (H4 _ _ Hl Hne)].
    destruct H2 as [[? _]|[H2 Ht]]; [congruence|]. rewrite Hl in H2. injection H2 as ->.
    unfold finish. rewrite Hcl. cbn [noRedial put_peer set_all]. rewrite Hn. simpl.
    apply (Redialing _ r RStarting); try done; [|simpl; by rewrite H5].
    intros q' rd. change (readers (put_peer q (set_reader Ended (set_done P)) s) !! q' = Some rd -> rd = Ended).
    rewrite readers_put. intros [[_ <-]|[Hne H]]%lookup_insert_Some; [done|eauto].
  - by specialize (H3 _ _ Hl).
Qed.

(** A step of the redial loop. *)
Lemma stage_redial s r x y :
  redials s !! r = Some x -> (forall g, captured y = Some g -> captured x = Some g \/ g = gen s) ->
  stage s -> stage (set_redials (<[r := y]> (redials s)) s).
Proof.
  intros Hr Hy [q H1 H2 H4 H5|q H1 H2 H4 H5|r' x' H1 H2 H3 H4 H5]; [by rewrite H5 in Hr|by rewrite H5 in Hr|].
  rewrite H4 in Hr. apply lookup_singleton_Some in Hr as [-> ->].
  apply (Redialing _ r y); try done; [simpl; by rewrite H4, insert_singleton_eq|].
  intros g Hg. destruct (Hy g Hg); auto.
Qed.

Lemma stage_open_loop s r x g :
  stage s -> redials s !! r = Some x -> captured x = Some g -> open s = true -> closed g s = false.
Proof.
  intros [q H1 H2 H4 H5|q H1 H2 H4 H5|r' x' H1 H2 H3 H4 H5] Hr Hg Ho; [by rewrite H5 in Hr|by rewrite H5 in Hr|].
  rewrite H4 in Hr. apply lookup_singleton_Some in Hr as [-> ->]. unfold closed.
  rewrite Ho, (H5 g Hg), bool_decide_true by done. done.
Qed.

Lemma single_attach s r g p :
  single s -> redials s !! r = Some (RDialed g) -> single (redial_attach r g p s).
Proof.
  intros Hs Hr. assert (Ho := redial_open s r _ Hs Hr). assert (Hst := si_stage s Hs Ho).
  assert (Hf := stage_open_loop s r _ g Hst Hr eq_refl Ho). unfold redial_attach.
  change (closed g (set_redials (delete r (redials s)) s)) with (closed g s). rewrite Hf.
  destruct Hst as [q H2 H3 H4 H5|q H2 H3 H4 H5|r' x' H2 H3 H4 H5 H6];
    [by rewrite H5 in Hr|by rewrite H5 in Hr|]. rewrite H5 in Hr. apply lookup_singleton_Some in Hr as [-> ->].
  destruct Hs. apply single_install; try done. simpl. by rewrite H5, delete_singleton_eq.
Qed.

Lemma single_put s p P P' :
  single s -> all s !! p = Some P -> p_reader P' = p_reader P -> single (put_peer p P' s).
Proof.
  intros Hs Hp Hr. apply (single_frame s); try done. by apply (readers_same p P).
Qed.

Lemma single_step l s s' :
  is_client = true -> keeps_redialing l -> inv s -> single s -> step l s = Some s' -> single s'.
Proof.
  intros Hcl Hk Hi Hsi Hs. destruct l; cbn [step] in Hs; unfold redial_wait, send, deliver, receive in Hs; step_inv Hs; try done;
    try by apply (single_frame s).
  - unfold open_. destruct (open s) eqn:Ho; [done|]. rewrite Hcl. destruct (si_shut s Hsi Ho) as (_ & Ht & Hr & He).
    destruct Hsi. destruct dial; [by apply single_install|by constructor].
  - by rewrite Hcl in *.
  - destruct Hsi. rewrite si_accepting0 in *. by rewrite lookup_empty in *.
  - apply (single_next s); try done; [eapply turn_open; [done|by unfold turn; rewrite Heqo]|]. by apply stage_announce.
  - apply (single_next s); try done; [eapply reader_open; [done..|congruence]|]. by apply stage_read_end.
  - assert (Ho : open s = true) by (eapply reader_open; [done..|congruence]).
    apply (single_next s); try done; try (unfold depart, remove; by destruct (bool_decide _)). by apply stage_depart.
  - assert (Ho : open s = true) by (eapply turn_open; [done|by unfold turn; rewrite Heqo]).
    apply (single_next s); try done; try (unfold departed; by destruct removed). by apply stage_departed.
  - assert (Hn := si_redial s Hsi).
    assert (Ho : open s = true) by (eapply reader_open; [done..|congruence]).
    apply (single_next s); try done; try (unfold finish; by destruct (_ && _)). by apply stage_finish.
  - apply (single_next s); try done; [by eapply redial_open|]. eapply stage_redial; [done|].
    intros g [= <-]. by right.
  - assert (Ho : open s = true) by by eapply redial_open.
    unfold redial_dial. apply (single_next s); try done; try (by destruct (closed _ _)).
    intros Hst. rewrite (stage_open_loop s r _ g Hst Heqo eq_refl Ho). eapply stage_redial; [done| |done].
    intros g' Hg'. left. by destruct ok.
  - apply (single_next s); try done; [by eapply redial_open|]. eapply stage_redial; [done|]. auto.
  - assert (Ho : open s = true) by by eapply redial_open.
    assert (Hf := stage_open_loop s r _ g (si_stage s Hsi Ho) Heqo eq_refl Ho). congruence.
  - by apply single_attach.
  - unfold report. destruct (p_once P) eqn:Ho; [by apply (single_put s p P)|].
    destruct (bool_decide _).
    + apply (single_frame (put_peer p (set_once P) s)); try done; [|by apply (single_put s p P)].
      unfold turn. cbn [cb set_cb put_peer set_all]. match goal with H : unlocked s = true |- _ => apply unlocked_cb in H; by rewrite H end.
    + by apply (single_put s p P).
  - apply (single_frame (put_peer p (set_alive false (set_reports (pred (p_reports P)) P)) s)); try done.
    + unfold turn. cbn. by rewrite Heqo.
    + by apply (single_put s p P).
  - assert (Hss : single (set_sends (delete k (sends s)) s)) by by apply (single_frame s).
    unfold enqueue. destruct (_ && _); [done|]. destruct (_ <? _); [by apply (single_put _ n P)|].
    match goal with |- single (count_drop (put_peer n ?P' ?s1)) => apply (single_frame (put_peer n P' s1)); try done end.
    apply (single_put _ n P); [done|done|]. by destruct (_ =? _).
  - apply (single_put s p P); try done. by destruct ok.
  - by apply (single_put s p P).
  - unfold close_ws. cbn [all set_closing].
    assert (Hss : single (set_closing (closing s ∖ {[p]}) (dropped s) s)) by by apply (single_frame s).
    destruct (all s !! p) as [P|] eqn:Hp; [|done]. by apply (single_put _ p P).
  - by apply (single_put s p P).
  - simpl in Hk. subst nr. destruct Hsi. constructor; cbn; try done. intros Ho. by apply (stage_frame s), si_stage0.
Qed.

(** Nobody connects to a client. *)
Lemma client_accepts_none ls s s' :
  is_client = true -> run ls s = Some s' -> accepting s = ∅ -> accepting s' = ∅.
Proof.
  intros Hcl. induction ls as [|l ls IH] in s |- *; simpl; [by intros [= <-]|].
  destruct (step l s) as [s1|] eqn:Hs; [|done]. intros Hr Ha. apply (IH s1 Hr). clear IH Hr.
  destruct l; cbn [step] in Hs; unfold redial_wait, send, deliver, receive in Hs; step_inv Hs; try done.
  all: try by rewrite Hcl in *.
  - unfold open_. rewrite Hcl. by destruct (open s), dial.
  - by rewrite Ha in *.
  - unfold depart, remove. by destruct (bool_decide _).
  - unfold departed. by destruct removed.
  - unfold finish. by destruct (_ && _).
  - unfold redial_dial. by destruct (closed _ _).
  - unfold redial_attach. by destruct (closed _ _).
  - unfold report. by destruct (p_once P), (bool_decide _).
  - unfold enqueue. destruct (_ && _); [done|]. by destruct (_ <? _).
  - unfold CloseSession. by destruct (peers s !! id).
  - unfold Close. by destruct (open s).
  - unfold close_ws. simpl. by destruct (all s !! p).
Qed.

Lemma settled_single s : settled s -> noRedial s = false -> accepting s = ∅ -> single s.
Proof. intros Hs Hn Ha. constructor; try done. destruct Hs. congruence. Qed.

Lemma single_run ls s s' :
  is_client = true -> Forall keeps_redialing ls -> inv s -> single s -> run ls s = Some s' -> single s'.
Proof.
  intros Hcl. induction ls as [|l ls IH] in s |- *; simpl; [by intros _ _ ? [= <-]|].
  intros [Hl Hls]%Forall_cons Hi Hs. destruct (step l s) as [s1|] eqn:E; [|done].
  apply IH; [done|by eapply bind_inv_step|by eapply single_step].
Qed.

Lemma q_start : queues_ok start.
Proof. constructor; simpl; try done; try by constructor. Qed.

Lemma q_run ls s s' : inv s -> queues_ok s -> run ls s = Some s' -> queues_ok s'.
Proof.
  induction ls as [|l ls IH] in s |- *; simpl; [by intros _ ? [= <-]|].
  intros Hi Hq. destruct (step l s) as [s1|] eqn:E; [|done]. apply IH; [by eapply bind_inv_step|by eapply q_step].
Qed.


Lemma bind_run_app ls ks s s1 : run ls s = Some s1 -> run (ls ++ ks) s = run ks s1.
Proof.
  induction ls as [|l ls IH] in s |- *; simpl; [by intros [= <-]|]. destruct (step l s); [apply IH|done].
Qed.

(** Steps of the bind's own goroutines. *)
Definition own (l : label) : Prop :=
  match l with
  | LAnnounce | LDeparted | LFinish _ _ | LRedialStart _ | LRedialDial _ _ | LRedialWait _ _ | LRedialAttach _ _
  | LReported => True
  | _ => False
  end.

Definition recovers (s : bind) : Prop :=
  exists ls s', Forall own ls /\ run ls s = Some s' /\ is_Some (peers s' !! "remote"%string).

Lemma recovers_step l s s1 : own l -> step l s = Some s1 -> recovers s1 -> recovers s.
Proof.
  intros Hl Hs (ls & s' & Hls & Hr & Hp). exists (l :: ls), s'. split; [by constructor|]. split; [|done]. simpl. by rewrite Hs.
Qed.

Lemma wait_bound_pos b : 0 < wait_bound b.
Proof. unfold wait_bound. destruct (Z.leb_spec b 0); unfold millisecond; lia. Qed.

Lemma fresh_ok {A} (m : gmap nat A) : fresh m (base.fresh (dom m)) = true.
Proof. unfold fresh. by rewrite (not_elem_of_dom_1 m _ (is_fresh (dom m))). Qed.

Lemma recovers_dialed s r g :
  redials s !! r = Some (RDialed g) -> closed g s = false -> cb s = None -> recovers s.
Proof.
  intros Hr Hc Hcb. exists [LRedialAttach r (base.fresh (dom (all s)))]. eexists. split; [by repeat constructor|].
  cbn [run step]. rewrite Hr. unfold unlocked. rewrite Hcb, fresh_ok. cbn [andb guard_]. split; [done|].
  unfold redial_attach. change (closed g (set_redials (delete r (redials s)) s)) with (closed g s). rewrite Hc. simpl.
  rewrite lookup_insert_eq. by eexists.
Qed.

Lemma recovers_trying s r g b :
  redials s !! r = Some (RTrying g b) -> closed g s = false -> cb s = None -> recovers s.
Proof.
  intros Hr Hc Hcb. eapply (recovers_step (LRedialDial r true)); [done|cbn [step]; by rewrite Hr|].
  unfold redial_dial. rewrite Hc. apply (recovers_dialed _ r g); try done. simpl. by rewrite lookup_insert_eq.
Qed.

Lemma recovers_redial s r x :
  redials s !! r = Some x -> open s = true -> (forall g, captured x = Some g -> g = gen s) -> cb s = None -> recovers s.
Proof.
  intros Hr Ho Hg Hcb.
  assert (Hc : closed (gen s) s = false) by (unfold closed; by rewrite Ho, bool_decide_true by done).
  destruct x as [|g b|g b|g]; try (rewrite (Hg g eq_refl) in Hr).
  - eapply (recovers_step (LRedialStart r)); [done|cbn [step]; by rewrite Hr|].
    apply (recovers_trying _ r (gen s) (redialMin s)); try done. simpl. by rewrite lookup_insert_eq.
  - by eapply recovers_trying.
  - eapply (recovers_step (LRedialWait r 0)); [done|cbn [step]; rewrite Hr; unfold redial_wait|].
    { pose proof (wait_bound_pos b). rewrite (proj2 (Z.ltb_lt 0 (wait_bound b))) by done. done. }
    apply (recovers_trying _ r (gen s) (next_backoff b (redialMax s))); try done. simpl. by rewrite lookup_insert_eq.
  - by eapply recovers_dialed.
Qed.

(** A report in progress ends first. *)
Lemma recovers_report s :
  inv s -> stage s -> turn s = None ->
  (forall s1, cb s1 = None -> open s1 = open s -> noRedial s1 = noRedial s -> stage s1 -> recovers s1) -> recovers s.
Proof.
  intros Hi Hst Ht Hk. unfold turn in Ht. destruct (cb s) as [[p|p rm|p]|] eqn:Hc; try done; [|by apply Hk].
  destruct (iv_rep _ Hi p Hc) as (id & r & Hf & _). unfold faces in Hf. rewrite lookup_fmap in Hf.
  destruct (all s !! p) as [P|] eqn:Hp; [|done].
  eapply (recovers_step LReported); [done|cbn [step]; rewrite Hc; unfold on_peer; by rewrite Hp|].
  apply Hk; try done. apply (stage_frame s); try done; [|unfold turn; by rewrite Hc].
  apply (readers_same p P); done.
Qed.

Lemma recovers_stage s :
  is_client = true -> inv s -> stage s -> open s = true -> noRedial s = false -> recovers s.
Proof.
  intros Hcl Hi Hst Ho Hn.
  assert (Hred : forall s1, cb s1 = None -> open s1 = true -> noRedial s1 = false -> stage s1 -> recovers s1).
  { intros s1 Hc1 Ho1 Hn1 Hs1. destruct Hs1 as [p H1 H2 H3 H4|p H1 [[_ H2]|[H2 _]] H3 H4|r x H1 H2 H3 H4 H5].
    - exists [], s1. split; [done|]. split; [done|]. rewrite H1, lookup_singleton_eq. by eexists.
    - unfold turn in H2. by rewrite Hc1 in H2.
    - unfold readers in H2. rewrite lookup_fmap in H2. destruct (all s1 !! p) as [P|] eqn:Hp; [|done]. injection H2 as Hr.
      eapply (recovers_step (LFinish p 0)); [done|cbn [step]; unfold on_peer; rewrite Hp, Hr, H4; done|].
      unfold finish. rewrite Hcl. cbn [noRedial put_peer set_all]. rewrite Hn1. simpl.
      apply (recovers_redial _ 0 RStarting); try done. simpl. by rewrite lookup_insert_eq.
    - apply (recovers_redial _ r x); try done. by rewrite H4, lookup_singleton_eq. }
  destruct (turn s) as [h|] eqn:Ht; [|by apply recovers_report; auto; intros; apply Hred; congruence].
  unfold turn in Ht. destruct Hst as [p H1 H2 H3 H4|p H1 [[H2 H5]|[_ H2]] H3 H4|r x H1 H2 H3 H4 H5]; unfold turn in *; try congruence.
  - exists [], s. split; [done|]. split; [done|]. rewrite H1, lookup_singleton_eq. by eexists.
  - assert (Hc : cb s = Some (Departing p true)) by (destruct (cb s) as [[]|]; congruence).
    unfold readers in H2. rewrite lookup_fmap in H2. destruct (all s !! p) as [P|] eqn:Hp; [|done].
    eapply (recovers_step LDeparted); [done|cbn [step]; rewrite Hc; unfold on_peer; by rewrite Hp|].
    apply Hred; try done. apply stage_departed; try done. apply (Leaving _ p); try done. left. split; [|by unfold turn; rewrite Hc].
    unfold readers. rewrite lookup_fmap, Hp. done.
Qed.
End bind.

(** ** Properties *)

(** In every interleaving of connections, replacements, failing reads and
    writes, closings and reopenings, the callbacks tell one consistent story:
    a peer is announced once, only the peer last announced under an id is
    reported disconnected or failing, the latter once, so that a stale reader
    never reports its replacement; and whenever no callback is under way the
    consumer believes in every current peer, and in no other than those a
    closing took out without telling. *)
Theorem lifecycle_serialized url ls s :
  run url ls start = Some s ->
  ordered (events s)
  /\ (cb s = None -> forall id p, peers s !! id = Some p -> believed id (events s) = Some p)
  /\ (cb s = None -> forall id p, believed id (events s) = Some p -> peers s !! id = Some p \/ p ∈ dropped s).
Proof.
  intros Hr. assert (Hi := bind_inv_run url ls start s bind_inv_start Hr). split; [apply Hi|]. split; intros Hc id p H.
  - destruct (iv_peer _ Hi id p H) as (r & o & _ & [?|?]); [congruence|done].
  - destruct (iv_back _ Hi id p H) as [?|[?|[?|(q & o & ? & _)]]]; auto; congruence.
Qed.

(** C30: Whenever a client's bind is opened from a settled state, new or closed
    with its readers and redial loops ended, it never loses its carrier for
    good and never has two until it is closed: there is one peer that is being
    announced, read or about to be removed, or one whose reader will redial,
    or one redial loop, and its own goroutines can always bring a current peer
    back once a dial succeeds.  Redialing is not turned off, which only tests
    do.  A [Close] is the boundary: [reopen_doubles_carrier] opens a bind whose
    last reader has yet to end and gets two carriers. *)
Theorem client_keeps_carrier url before s0 ls s :
  is_client url = true -> run url before start = Some s0 -> settled s0 -> noRedial s0 = false ->
  Forall keeps_redialing ls -> run url ls s0 = Some s -> open s = true ->
  stage s /\ recovers url s.
Proof.
  intros Hcl Hb Hset Hn Hls Hr Ho. assert (Hi0 := bind_inv_run url before start s0 bind_inv_start Hb).
  assert (Ha := client_accepts_none url before start s0 Hcl Hb eq_refl).
  assert (Hi := bind_inv_run url ls s0 s Hi0 Hr).
  assert (Hs := single_run url ls s0 s Hcl Hls Hi0 (settled_single s0 Hset Hn Ha) Hr).
  assert (Hst := si_stage s Hs Ho). split; [done|]. apply recovers_stage; try done. by apply Hs.
Qed.

(** A carrier's queue holds at most 256 batches of valid datagrams and the
    receive queue at most 128; batches are written in the order they were
    accepted, at most the one whose write failed missing; a queue that
    overflowed 64 times in a row has its carrier torn down; and [Send] never
    waits: whatever the queue, its last step is possible. *)
Theorem send_queues url ls s :
  run url ls start = Some s ->
  (forall p P, all s !! p = Some P -> peer_ok P)
  /\ Zlen (packets s) <= IdealBatchSize /\ Forall (fun x => ValidDatagram x.1 = true) (packets s)
  /\ (forall k p b d, sends s !! k = Some (p, b) -> is_Some (step url (LEnqueue k d) s)).
Proof.
  intros Hr. assert (Hq := q_run url ls start s bind_inv_start q_start Hr). split_and!; try apply Hq.
  intros k p b d Hk. destruct (qo_sends _ Hq k p b Hk) as ([P HP] & _).
  cbn [step]. rewrite Hk. unfold on_peer. rewrite HP. by eexists.
Qed.

(** ** Concrete runs *)

(** A client replaces its connection before the server noticed the loss of the
    old one, whose reader then ends unheard. *)
Definition toy_server : list label :=
  [LOpen 9 false; LServe 0 "key"; LAttach 0 0; LAnnounce; LServe 1 "key"; LAttach 1 1; LAnnounce;
   LReadEnd 0; LDepart 0; LDeparted].

Example toy_story : (fun s => (events s, peers s !! "key"%string)) <$> run "" toy_server start
  = Some ([Connected "key" 1; Connected "key" 0], Some 1%nat).
Proof. by vm_compute. Qed.

Definition toy_state (url : string) (ls : list label) : bind := default start (run url ls start).

Lemma lifecycle_serialized_witness :
  run "" toy_server start = Some (toy_state "" toy_server)
  /\ believed "key" (events (toy_state "" toy_server)) = Some 1%nat.
Proof.
  assert (Hr : run "" toy_server start = Some (toy_state "" toy_server)) by (vm_compute; reflexivity).
  split; [exact Hr|]. apply (lifecycle_serialized "" toy_server _ Hr); vm_compute; reflexivity.
Defined.

Definition toy_url : string := "wss://example.org/v1/wg".

(** A bind is opened, closed and, its reader done, opened again after a dial
    that failed; the new carrier is lost and one redial fails. *)
Definition toy_before : list label := [LOpen 0 true; LAnnounce; LClose; LWsClosed 0; LReadEnd 0; LDepart 0; LDeparted; LFinish 0 0].
Definition toy_loss : list label :=
  [LOpen 1 false; LOpen 1 true; LAnnounce; LReadEnd 1; LDepart 1; LDeparted; LFinish 1 0; LRedialStart 0; LRedialDial 0 false].
Definition toy_after : bind := default start (run toy_url toy_loss (toy_state toy_url toy_before)).

Lemma client_keeps_carrier_witness :
  run toy_url toy_loss (toy_state toy_url toy_before) = Some toy_after
  /\ gen toy_after = 3%nat /\ peers toy_after = ∅ /\ recovers toy_url toy_after.
Proof.
  assert (Hb : run toy_url toy_before start = Some (toy_state toy_url toy_before)) by (vm_compute; reflexivity).
  assert (Hr : run toy_url toy_loss (toy_state toy_url toy_before) = Some toy_after) by (vm_compute; reflexivity).
  split; [exact Hr|]. split; [vm_compute; reflexivity|]. split; [vm_compute; reflexivity|].
  apply (client_keeps_carrier toy_url toy_before (toy_state toy_url toy_before) toy_loss toy_after);
    [vm_compute; reflexivity|exact Hb| |vm_compute; reflexivity| |exact Hr|vm_compute; reflexivity].
  - split; [vm_compute; reflexivity|]. split; [vm_compute; reflexivity|]. split; [vm_compute; reflexivity|].
    intros q rd H. assert (E : readers (toy_state toy_url toy_before) = {[0%nat := Ended]}) by (vm_compute; reflexivity).
    rewrite E in H. apply lookup_singleton_Some in H as [_ H]. symmetry. exact H.
  - unfold toy_loss. repeat (apply Forall_cons; split; [exact I|]). apply Forall_nil. exact I.
Defined.

(** Two batches, one written. *)
Definition toy_packet : list byte := replicate 32 x01.
Definition toy_sends : list label :=
  [LOpen 0 true; LAnnounce; LSend 0 "remote" [toy_packet; []]; LEnqueue 0 false; LSend 1 "remote" [toy_packet];
   LWrite 0 true].

Lemma send_queues_witness :
  run toy_url toy_sends start = Some (toy_state toy_url toy_sends)
  /\ is_Some (step toy_url (LEnqueue 1 true) (toy_state toy_url toy_sends)).
Proof.
  assert (Hr : run toy_url toy_sends start = Some (toy_state toy_url toy_sends)) by (vm_compute; reflexivity).
  split; [exact Hr|].
  apply (send_queues toy_url toy_sends _ Hr) with (p := 0%nat) (b := [toy_packet]). vm_compute. reflexivity.
Defined.

(** A bind that is closed and opened again between the removal of its peer and
    the start of the redial it causes has two carriers: the redial captures the
    new [done] channel and replaces a peer that is still being read. *)
Example reopen_doubles_carrier :
  (fun s => (peers s !! "remote"%string, (fun P => (p_reader P, p_alive P)) <$> all s !! 1%nat, closing s)) <$>
    run toy_url [LOpen 0 true; LAnnounce; LReadEnd 0; LDepart 0; LDeparted; LClose; LOpen 1 true; LAnnounce;
                 LFinish 0 0; LRedialStart 0; LRedialDial 0 true; LRedialAttach 0 2; LAnnounce] start
  = Some (Some 2%nat, Some (Reading, true), ∅).
Proof. by vm_compute. Qed.
