(* ===== verification/ClientSession.v ===== *)
(** [pkg/client/client.go] and [reconnect.go]: the life of a client's session
    once it is connected: renewals, reconnections that keep or replace the
    data plane, listeners that move, and closing.

    A step is one critical section of [mu], one listener opened, one exchange
    with the server, or the closing of what an operation dropped.  [networkMu]
    is held by [ReplaceListener] and [reconnect] from end to end; what its
    holder is doing is [netop].  [Close] takes neither it nor [transportMu],
    so it can come between any two steps of both.  Tunnels live in a heap and
    are shared by reference; sockets and WireGuard devices are numbered.
    HTTP exchanges, sockets and the device answer through the step's label. *)
From stdpp Require Import pretty.
From S2P Require Import Prelude Bytes Netip Protocol Scheduler ServerAuth ServerToy ClientTransport.

(** ** How a client authenticates *)
Record OIDCIssuerInfo := mkIssuer { is_Name : string }.

Record InfoResponse := mkInfo { in_OIDCIssuers : list OIDCIssuerInfo }.

Record auth_options := mkAuthOptions { ao_SSO : bool; ao_Provider : string }.

Definition selectIssuer (info : InfoResponse) (name : string) : option string :=
  match in_OIDCIssuers info with
  | [] => None
  | i :: rest =>
      if negb (name =? "")%string then
        is_Name <$> List.find (fun i => (is_Name i =? name)%string) (i :: rest)
      else match rest with [] => Some (is_Name i) | _ => None end
  end.

(** Method and issuer, or no answer. *)
Definition decideMethod (o : auth_options) (keyPath : string) (info : InfoResponse) : option (string * string) :=
  if ao_SSO o then iss ← selectIssuer info (ao_Provider o); Some ("oidc"%string, iss)
  else if negb (keyPath =? "")%string then Some ("ssh", "")%string
  else match in_OIDCIssuers info with
       | [] => None
       | _ => iss ← selectIssuer info (ao_Provider o); Some ("oidc"%string, iss)
       end.

(** The method and issuer [authenticateAny] uses; [info] is the server's
    description when it can be fetched. *)
Definition authenticateAny (o : auth_options) (keyPath : string) (info : option InfoResponse)
    (pinnedMethod pinnedIssuer : string) : option (string * string) :=
  if (pinnedMethod =? "ssh")%string then Some ("ssh", "")%string
  else
    info ← info;
    '(m, i) ← (if (pinnedMethod =? "")%string then decideMethod o keyPath info else Some (pinnedMethod, pinnedIssuer));
    if (m =? "ssh")%string then Some ("ssh", "")%string
    else if (m =? "oidc")%string then (fun i => ("oidc"%string, i)) <$> selectIssuer info i
    else None.

(** ** Renewal *)

(** [renew]: an empty field of the answer keeps the session's value; an empty
    list does not appear on the wire. *)
Definition keep_string (old new : string) : string := if (new =? "")%string then old else new.
Definition keep_list (old new : list string) : list string := match new with [] => old | _ => new end.

Definition renew_response (old out : AuthResponse) : AuthResponse := {|
  rs_SessionID := rs_SessionID out;
  rs_Token := rs_Token out;
  rs_TunnelIP := keep_string (rs_TunnelIP old) (rs_TunnelIP out);
  rs_ServerTunnelIP := keep_string (rs_ServerTunnelIP old) (rs_ServerTunnelIP out);
  rs_ServerPublicKey := keep_string (rs_ServerPublicKey old) (rs_ServerPublicKey out);
  rs_TTL := rs_TTL out;
  rs_Tunnels := rs_Tunnels out;
  rs_UDP := rs_UDP out;
  rs_WebSocket := keep_string (rs_WebSocket old) (rs_WebSocket out);
  rs_Identity := rs_Identity out;
  rs_Method := rs_Method out;
  rs_ServerName := rs_ServerName out;
  rs_PortalEnabled := rs_PortalEnabled out;
  rs_Multipath := rs_Multipath out;
  rs_TransportCapabilities := keep_list (rs_TransportCapabilities old) (rs_TransportCapabilities out);
|}.

(** ** State *)
Record localTunnel := mkTunnel {
  lt_name : string;
  lt_udp : bool;
  lt_sock : nat;
  lt_addr : string;
  lt_virtualPort : Z;
  lt_socks : bool;
  lt_target : string;
  lt_idle : Z;
}.

Record authResult := mkAuth { au_response : AuthResponse; au_method : string; au_issuer : string }.

(** What the holder of [networkMu] is doing: [ReplaceListener] found its
    tunnel, has bound the new listener, or still has to close the old one;
    [reconnect] authenticates, opens the tunnels of the answer, undoes them,
    or still has to close what the committed session dropped and to start
    its workers. *)
Inductive netop : Type :=
  | RLooked (ref : nat) (host : string) (port : Z)
  | RBound (ref sock : nat) (addr : string)
  | RClosing (sock : nat)
  | CAuth
  | COpening (a : authResult) (next : connectionNetwork * nat) (replaced : bool) (byName : gmap string nat)
      (todo : list Tunnel) (acc opened : list nat)
  | CFailing (opened : list nat) (dev : option nat)
  | CCommitted (old : list nat) (dev : option nat) (stop : option nat).

(** [closeop] is what [Close] took and has not yet closed; [stops] counts the
    [dataStop] channels; [workers] are the upgrade ladders started, by the
    channel that stops them. *)
Record Connection := mkConn {
  heap : gmap nat localTunnel;
  tunnels : list nat;
  LocalAddresses : list string;
  Response : AuthResponse;
  method : string;
  issuer : string;
  Stack : option nat;
  network : connectionNetwork * nat;
  forced : string;
  transport : connectionTransport;
  dataStop : option nat;
  closed : bool;
  sockets : gset nat;
  devices : gset nat;
  running : option netop;
  closeop : option (list nat * option nat);
  stops : nat;
  workers : list nat;
  panicked : bool;
}.

Definition set_op (op : option netop) (c : Connection) : Connection :=
  mkConn (heap c) (tunnels c) (LocalAddresses c) (Response c) (method c) (issuer c) (Stack c) (network c) (forced c)
    (transport c) (dataStop c) (closed c) (sockets c) (devices c) op (closeop c) (stops c) (workers c) (panicked c).
Definition set_sockets (x : gset nat) (c : Connection) : Connection :=
  mkConn (heap c) (tunnels c) (LocalAddresses c) (Response c) (method c) (issuer c) (Stack c) (network c) (forced c)
    (transport c) (dataStop c) (closed c) x (devices c) (running c) (closeop c) (stops c) (workers c) (panicked c).
Definition set_devices (x : gset nat) (c : Connection) : Connection :=
  mkConn (heap c) (tunnels c) (LocalAddresses c) (Response c) (method c) (issuer c) (Stack c) (network c) (forced c)
    (transport c) (dataStop c) (closed c) (sockets c) x (running c) (closeop c) (stops c) (workers c) (panicked c).
Definition set_heap (h : gmap nat localTunnel) (c : Connection) : Connection :=
  mkConn h (tunnels c) (LocalAddresses c) (Response c) (method c) (issuer c) (Stack c) (network c) (forced c)
    (transport c) (dataStop c) (closed c) (sockets c) (devices c) (running c) (closeop c) (stops c) (workers c) (panicked c).
Definition set_addresses (l : list string) (p : bool) (c : Connection) : Connection :=
  mkConn (heap c) (tunnels c) l (Response c) (method c) (issuer c) (Stack c) (network c) (forced c)
    (transport c) (dataStop c) (closed c) (sockets c) (devices c) (running c) (closeop c) (stops c) (workers c) p.
Definition set_response (r : AuthResponse) (c : Connection) : Connection :=
  mkConn (heap c) (tunnels c) (LocalAddresses c) r (method c) (issuer c) (Stack c) (network c) (forced c)
    (transport c) (dataStop c) (closed c) (sockets c) (devices c) (running c) (closeop c) (stops c) (workers c) (panicked c).

Definition sock_of (h : gmap nat localTunnel) (r : nat) : list nat :=
  match h !! r with Some t => [lt_sock t] | None => [] end.
Definition socks_of (h : gmap nat localTunnel) (rs : list nat) : list nat := rs ≫= sock_of h.

(** [closeLocalTunnel] of each, and the close of a device. *)
Definition close_tunnels (rs : list nat) (c : Connection) : Connection :=
  set_sockets (sockets c ∖ list_to_set (socks_of (heap c) rs)) c.
Definition close_device (d : option nat) (c : Connection) : Connection :=
  set_devices (devices c ∖ list_to_set (option_list d)) c.

Section session.
Context {text : AddrText} (o : Options) (bindAddr : string).

(** ** ReplaceListener *)
Definition find_tunnel (name : string) (c : Connection) : option nat :=
  List.find (fun r => match heap c !! r with Some t => (lt_name t =? name)%string | None => false end) (tunnels c).

(** What the call decides before it binds: an error, the address it has
    already, or a tunnel with the host and port to bind. *)
Inductive lookup : Type :=
  | Refused
  | Unchanged (addr : string)
  | Bind (ref : nat) (host : string) (port : Z).

Definition replace_lookup (name host : string) (port : Z) (c : Connection) : lookup :=
  if (name =? "")%string || (port <? 1) || (65535 <? port) then Refused
  else
    match (if (host =? "")%string then Some ""%string else addr_String <$> ParseAddr host) with
    | None => Refused
    | Some host =>
        match find_tunnel name c, Stack c with
        | Some r, Some _ =>
            match heap c !! r with
            | None => Refused
            | Some t =>
                let split := SplitHostPort (lt_addr t) in
                let host :=
                  if (host =? "")%string then
                    match split with
                    | Some (h, _) => h
                    | None => if (bindAddr =? "")%string then localhost else bindAddr
                    end
                  else host in
                match split with
                | Some (h, p) => if (h =? host)%string && (p =? pretty port)%string then Unchanged (lt_addr t)
                                 else Bind r host port
                | None => Bind r host port
                end
            end
        | _, _ => Refused
        end
    end.

Definition with_sock (sock : nat) (addr : string) (t : localTunnel) : localTunnel :=
  mkTunnel (lt_name t) (lt_udp t) sock addr (lt_virtualPort t) (lt_socks t) (lt_target t) (lt_idle t).

Fixpoint index_of (r : nat) (rs : list nat) : option nat :=
  match rs with
  | [] => None
  | x :: rs => if bool_decide (x = r) then Some 0%nat else S <$> index_of r rs
  end.

(** The new listener is published, or closed again. *)
Definition replace_commit (r sock : nat) (addr : string) (c : Connection) : Connection :=
  let refuse := set_op None (set_sockets (sockets c ∖ {[sock]}) c) in
  match Stack c, index_of r (tunnels c), heap c !! r with
  | Some _, Some i, Some t =>
      set_op (Some (RClosing (lt_sock t)))
        (set_addresses (<[i := addr]> (LocalAddresses c)) (panicked c || bool_decide (length (LocalAddresses c) <= i)%nat)
           (set_heap (<[r := with_sock sock addr t]> (heap c)) c))
  | _, _, _ => refuse
  end.

(** ** Reconnection *)

(** [strconv.Atoi]. *)
Fixpoint decimal (s : string) (acc : Z) : option Z :=
  match s with
  | EmptyString => Some acc
  | String a s =>
      let d := Z.of_N (Ascii.N_of_ascii a) - 48 in
      if (0 <=? d) && (d <=? 9) then decimal s (acc * 10 + d) else None
  end.

Definition Atoi (s : string) : option Z :=
  let number s := if (s =? "")%string then None else decimal s 0 in
  n ← match s with
      | String a r =>
          if Ascii.eqb a (Ascii.ascii_of_N 45) then Z.opp <$> number r
          else if Ascii.eqb a (Ascii.ascii_of_N 43) then number r
          else number s
      | EmptyString => None
      end;
  if (int64_min <=? n) && (n <=? int64_max) then Some n else None.

(** A grant's listener; the tunnel it replaces fixes host and port. *)
Definition openReconnectedTunnel {L E} (bad : E) (listenTCP : string -> result E L)
    (listenUDP : option Addr -> Z -> result E L) (grant : Tunnel) (old : option localTunnel) : result E L :=
  let '(port, explicitPort) := tunnel_port o grant in
  if (port <? 0) || (65535 <? port) then Err bad
  else
    let '(host, softHost, _) := resolveTunnelHost (tn_Name grant) (tn_LocalHost grant) (op_Hosts o)
      (negb (op_BindAddress o =? "")%string) bindAddr in
    let listen host port softHost softPort :=
      if (tn_Protocol grant =? "udp")%string
      then (listenLocalUDP listenUDP host port softHost softPort).1
      else (listenLocal listenTCP host port softHost softPort).1 in
    match old with
    | None => listen host port softHost (negb explicitPort)
    | Some t =>
        match SplitHostPort (lt_addr t) with
        | None => Err bad
        | Some (oldHost, oldPort) =>
            match Atoi oldPort with
            | None => Err bad
            | Some port => listen oldHost port false false
            end
        end
    end.

Definition is_udp (grant : Tunnel) : bool := (tn_Protocol grant =? "udp")%string.

Definition opened_tunnel (grant : Tunnel) (sock : nat) (addr : string) : localTunnel :=
  mkTunnel (tn_Name grant) (is_udp grant) sock addr 0 false "" 0.

Definition add_name (h : gmap nat localTunnel) (m : gmap string nat) (r : nat) : gmap string nat :=
  match h !! r with Some t => <[lt_name t := r]> m | None => m end.

Definition by_name (h : gmap nat localTunnel) (rs : list nat) : gmap string nat := foldl (add_name h) ∅ rs.

(** [applyReconnectedSession] up to its loop; [dev] is the device
    [newConnectionNetwork] makes, if it can. *)
Definition apply_begin (a : authResult) (dev : option nat) (c : Connection) : Connection :=
  if closed c then set_op None c
  else
    let names := by_name (heap c) (tunnels c) in
    if matches (cn_response (network c).1) (au_response a)
    then set_op (Some (COpening a (network c) false names (rs_Tunnels (au_response a)) [] [])) c
    else
      match newConnectionNetwork (au_response a) o (match dev with Some _ => true | None => false end), dev with
      | Ok n, Some d =>
          set_op (Some (COpening a (n, d) true names (rs_Tunnels (au_response a)) [] []))
            (set_devices ({[d]} ∪ devices c) c)
      | _, _ => set_op None c
      end.

(** One grant of the answer. [listened] is the new listener, [ref] the new
    tunnel. *)
Definition dev_of (replaced : bool) (next : connectionNetwork * nat) : option nat :=
  if replaced then Some next.2 else None.

Definition keeps (h : gmap nat localTunnel) (byName : gmap string nat) (grant : Tunnel) : option nat :=
  match byName !! tn_Name grant with
  | Some r => match h !! r with
              | Some t => if Bool.eqb (lt_udp t) (is_udp grant) then Some r else None
              | None => None
              end
  | None => None
  end.

(** The forced path of a multipath bind. *)
Definition next_forced (replaced : bool) (n : connectionNetwork) (old : string) : string :=
  if negb replaced then old
  else if is_multipath n then if negb (old =? "")%string then old else default ""%string (cn_forced n)
  else ""%string.

Definition granted (serverIP : Addr) (g : Tunnel) (t : localTunnel) : localTunnel :=
  mkTunnel (lt_name t) (lt_udp t) (lt_sock t) (lt_addr t) (tn_VirtualPort g) (IsBrowserSocksTarget (tn_TargetHint g))
    (JoinHostPort (addr_String serverIP) (tn_VirtualPort g)) (tn_UDPIdleTimeout g).

(** The commit's loop over the tunnels and their grants. *)
Fixpoint grant_all (serverIP : Addr) (rs : list nat) (gs : list Tunnel) (h : gmap nat localTunnel) :
    gmap nat localTunnel :=
  match rs, gs with
  | r :: rs, g :: gs => grant_all serverIP rs gs (match h !! r with Some t => <[r := granted serverIP g t]> h | None => h end)
  | _, _ => h
  end.

Definition addr_of (h : gmap nat localTunnel) (r : nat) : string :=
  match h !! r with Some t => lt_addr t | None => "" end.

(** The critical section that publishes the new session. *)
Definition apply_commit (a : authResult) (next : connectionNetwork * nat) (replaced : bool) (byName : gmap string nat)
    (acc opened : list nat) (c : Connection) : Connection :=
  if closed c then set_op (Some (CFailing opened (dev_of replaced next))) c
  else
    let h := grant_all (cn_serverIP next.1) acc (rs_Tunnels (au_response a)) (heap c) in
    mkConn h acc (addr_of h <$> acc) (au_response a) (au_method a) (au_issuer a)
      (if replaced then Some next.2 else Stack c)
      (if replaced then next else network c)
      (next_forced replaced next.1 (forced c))
      (if replaced then initialTransport (cn_useWS next.1) (rs_UDP (au_response a)) else transport c)
      (if replaced then Some (stops c) else dataStop c)
      (closed c) (sockets c) (devices c)
      (Some (CCommitted ((map_to_list byName).*2) (if replaced then Stack c else None)
               (if replaced && upgrades o next.1 then Some (stops c) else None)))
      (closeop c)
      (if replaced then S (stops c) else stops c)
      (workers c) (panicked c).

(** What follows the commit: closing what was dropped, and the upgrade ladder
    of a new data plane. *)
Definition set_workers (l : list nat) (c : Connection) : Connection :=
  mkConn (heap c) (tunnels c) (LocalAddresses c) (Response c) (method c) (issuer c) (Stack c) (network c) (forced c)
    (transport c) (dataStop c) (closed c) (sockets c) (devices c) (running c) (closeop c) (stops c) l (panicked c).

Definition apply_end (old : list nat) (dev : option nat) (stop : option nat) (c : Connection) : Connection :=
  set_op None (set_workers (option_list stop ++ workers c) (close_device dev (close_tunnels old c))).

(** ** Close *)
Definition close_begin (c : Connection) : Connection :=
  if closed c then c
  else
    mkConn (heap c) [] (LocalAddresses c) (Response c) (method c) (issuer c) None (network c) (forced c)
      (state_transport (nextTransportState transportStateStopped transportShutdown false)) None true
      (sockets c) (devices c) (running c) (Some (tunnels c, Stack c)) (stops c) (workers c) (panicked c).

Definition close_end (refs : list nat) (dev : option nat) (c : Connection) : Connection :=
  let c := close_device dev (close_tunnels refs c) in
  mkConn (heap c) (tunnels c) (LocalAddresses c) (Response c) (method c) (issuer c) (Stack c) (network c) (forced c)
    (transport c) (dataStop c) (closed c) (sockets c) (devices c) (running c) None (stops c) (workers c) (panicked c).

Definition renew (out : AuthResponse) (c : Connection) : Connection :=
  if closed c then c else set_response (renew_response (Response c) out) c.

(** ** Steps *)
Inductive label : Type :=
  | LReplace (name host : string) (port : Z)
  | LReplaceBound (sock : nat) (addr : string)
  | LReplaceFailed
  | LReplaceCommit
  | LReplaceEnd
  | LReconnect
  | LAuthFailed
  | LAuth (a : authResult) (dev : option nat)
  | LGrant (ref : nat) (listenTCP : string -> result unit (nat * string))
      (listenUDP : option Addr -> Z -> result unit (nat * string))
  | LCommit
  | LFailed
  | LCommitEnd
  | LClose
  | LCloseEnd
  | LRenew (out : AuthResponse).

Definition idle (c : Connection) : bool := match running c with None => true | _ => false end.

(** [None]: the step cannot be taken, [networkMu] being held or a number not
    being new. *)
Definition step (l : label) (c : Connection) : option Connection :=
  match l, running c with
  | LReplace name host port, None =>
      Some (match replace_lookup name host port c with
            | Bind r h p => set_op (Some (RLooked r h p)) c
            | _ => c
            end)
  | LReplaceBound sock addr, Some (RLooked r _ _) =>
      if bool_decide (sock ∈ sockets c) then None
      else Some (set_op (Some (RBound r sock addr)) (set_sockets ({[sock]} ∪ sockets c) c))
  | LReplaceFailed, Some (RLooked _ _ _) => Some (set_op None c)
  | LReplaceCommit, Some (RBound r sock addr) => Some (replace_commit r sock addr c)
  | LReplaceEnd, Some (RClosing sock) => Some (set_op None (set_sockets (sockets c ∖ {[sock]}) c))
  | LReconnect, None => Some (if closed c then c else set_op (Some CAuth) c)
  | LAuthFailed, Some CAuth => Some (set_op None c)
  | LAuth a dev, Some CAuth =>
      if bool_decide (list_to_set (option_list dev) ## devices c) then Some (apply_begin a dev c) else None
  | LGrant ref tcp udp, Some (COpening a next replaced byName (g :: todo) acc opened) =>
      match keeps (heap c) byName g with
      | Some r => Some (set_op (Some (COpening a next replaced (delete (tn_Name g) byName) todo (acc ++ [r]) opened)) c)
      | None =>
          match openReconnectedTunnel tt tcp udp g (r ← byName !! tn_Name g; heap c !! r) with
          | Err _ => Some (set_op (Some (CFailing opened (dev_of replaced next))) c)
          | Ok (sock, addr) =>
              if bool_decide (sock ∈ sockets c) || bool_decide (is_Some (heap c !! ref)) then None
              else Some (set_op (Some (COpening a next replaced byName todo (acc ++ [ref]) (opened ++ [ref])))
                     (set_sockets ({[sock]} ∪ sockets c) (set_heap (<[ref := opened_tunnel g sock addr]> (heap c)) c)))
          end
      end
  | LCommit, Some (COpening a next replaced byName [] acc opened) =>
      Some (apply_commit a next replaced byName acc opened c)
  | LFailed, Some (CFailing opened dev) => Some (set_op None (close_device dev (close_tunnels opened c)))
  | LCommitEnd, Some (CCommitted old dev stop) => Some (apply_end old dev stop c)
  | LClose, _ => Some (close_begin c)
  | LCloseEnd, _ =>
      match closeop c with Some (refs, dev) => Some (close_end refs dev c) | None => None end
  | LRenew out, _ => Some (renew out c)
  | _, _ => None
  end.

Fixpoint run (ls : list label) (c : Connection) : option Connection :=
  match ls with
  | [] => Some c
  | l :: ls => match step l c with Some c' => run ls c' | None => None end
  end.

(** A connection as [ConnectWithOptions] hands it out, each grant having its
    listener. *)
Definition connect_tunnel (serverIP : Addr) (g : Tunnel) (l : nat * string) : localTunnel :=
  mkTunnel (tn_Name g) (is_udp g) l.1 l.2 (tn_VirtualPort g) (negb (is_udp g) && IsBrowserSocksTarget (tn_TargetHint g))
    (JoinHostPort (addr_String serverIP) (tn_VirtualPort g)) (if is_udp g then tn_UDPIdleTimeout g else 0).

Definition connected (a : authResult) (n : connectionNetwork) (dev : nat) (listeners : list (nat * string)) : Connection :=
  let gs := rs_Tunnels (au_response a) in
  let ts := zip_with (connect_tunnel (cn_serverIP n)) gs listeners in
  let refs := seq 0 (length ts) in
  mkConn (map_seq 0 ts) refs (lt_addr <$> ts) (au_response a) (au_method a) (au_issuer a) (Some dev)
    (n, dev) (default ""%string (cn_forced n))
    (state_transport (initialTransportState (cn_useWS n) (rs_UDP (au_response a)))) (Some 0%nat) false
    (list_to_set listeners.*1) {[dev]} None None 1 (if upgrades o n then [0%nat] else []) false.

(** ** Ownership *)

(** A set of numbers and the list of those who own one each. *)
Definition owned (x : gset nat) (l : list nat) : Prop := NoDup l /\ forall n, n ∈ x <-> n ∈ l.

Lemma owned_perm x l k : l ≡ₚ k -> owned x l -> owned x k.
Proof. intros Hp [Hn Hx]. split; [by rewrite <-Hp|]. intros n. by rewrite Hx, Hp. Qed.

Lemma owned_open x l n : n ∉ x -> owned x l -> owned ({[n]} ∪ x) (n :: l).
Proof. intros Hn [Hl Hx]. split; [constructor; [by rewrite <-Hx|done]|]. intros m. set_solver. Qed.

Lemma owned_close x l k : owned x (l ++ k) -> owned (x ∖ list_to_set l) k.
Proof.
  intros [(Hl & Hd & Hk)%NoDup_app Hx]. split; [done|]. intros n.
  rewrite elem_of_difference, elem_of_list_to_set, Hx, elem_of_app. split; [intuition|]. intros Hn. split; [by right|].
  intros H. by apply (Hd n H).
Qed.

Lemma owned_close1 x n k : owned x (n :: k) -> owned (x ∖ {[n]}) k.
Proof. intros H. replace {[n]} with (list_to_set [n] : gset nat) by set_solver. by apply owned_close. Qed.

(** What a tunnel is to its owner. *)
Definition name_of (h : gmap nat localTunnel) (r : nat) : string :=
  match h !! r with Some t => lt_name t | None => "" end.

Definition op_refs (op : option netop) : list nat :=
  match op with
  | Some (COpening _ _ _ _ _ _ opened) | Some (CFailing opened _) => opened
  | Some (CCommitted old _ _) => old
  | _ => []
  end.
Definition op_socks (op : option netop) : list nat :=
  match op with Some (RBound _ sock _) | Some (RClosing sock) => [sock] | _ => [] end.
Definition op_devs (op : option netop) : list nat :=
  match op with
  | Some (COpening _ next replaced _ _ _ _) => option_list (dev_of replaced next)
  | Some (CFailing _ dev) | Some (CCommitted _ dev _) => option_list dev
  | _ => []
  end.
Definition op_stops (op : option netop) : list nat :=
  match op with Some (CCommitted _ _ stop) => option_list stop | _ => [] end.
Definition close_refs (c : Connection) : list nat := match closeop c with Some (rs, _) => rs | None => [] end.
Definition close_devs (c : Connection) : list nat :=
  match closeop c with Some (_, d) => option_list d | None => [] end.

Definition refs (c : Connection) : list nat := op_refs (running c) ++ close_refs c ++ tunnels c.
Definition sock_owners (c : Connection) : list nat := op_socks (running c) ++ socks_of (heap c) (refs c).
Definition dev_owners (c : Connection) : list nat := op_devs (running c) ++ close_devs c ++ option_list (Stack c).

(** An answer's tunnels have different names. *)
Definition distinct (a : authResult) : Prop := NoDup (tn_Name <$> rs_Tunnels (au_response a)).

(** A tunnel for a grant. *)
Definition serves (h : gmap nat localTunnel) (r : nat) (g : Tunnel) : Prop :=
  exists t, h !! r = Some t /\ lt_name t = tn_Name g /\ lt_udp t = is_udp g.

(** A session under way: which tunnels it keeps, that its names differ, and
    that the tunnels left over serve none of the grants [dn] it has done. *)
Definition plane_of (c : Connection) (a : authResult) (next : connectionNetwork * nat) (replaced : bool) : Prop :=
  replaced = negb (matches (cn_response (network c).1) (au_response a))
  /\ if replaced then newConnectionNetwork (au_response a) o true = Ok next.1 else next = network c.

Definition opening_ok (c : Connection) (a : authResult) (next : connectionNetwork * nat) (replaced : bool) (byName : gmap string nat) (todo : list Tunnel)
    (acc opened : list nat) : Prop :=
  (exists kept, acc ≡ₚ kept ++ opened /\ (closed c = false -> tunnels c ≡ₚ kept ++ (map_to_list byName).*2))
  /\ (forall n r, byName !! n = Some r -> is_Some (heap c !! r) /\ name_of (heap c) r = n)
  /\ (forall r, r ∈ acc -> is_Some (heap c !! r))
  /\ distinct a
  /\ (closed c = false -> plane_of c a next replaced)
  /\ exists dn, rs_Tunnels (au_response a) = dn ++ todo /\ Forall2 (serves (heap c)) acc dn
     /\ forall n r g, byName !! n = Some r -> g ∈ dn -> tn_Name g = n -> ~ serves (heap c) r g.

Record inv (c : Connection) : Prop := mkInv {
  iv_socks : owned (sockets c) (sock_owners c);
  iv_devs : owned (devices c) (dev_owners c);
  iv_refs : forall r, r ∈ refs c -> is_Some (heap c !! r);
  iv_names : NoDup (name_of (heap c) <$> tunnels c);
  iv_addrs : closed c = false -> LocalAddresses c = addr_of (heap c) <$> tunnels c;
  iv_closed : if closed c then tunnels c = [] /\ Stack c = None /\ dataStop c = None
              else closeop c = None /\ Stack c = Some (network c).2;
  iv_opening : forall a next replaced byName todo acc opened,
    running c = Some (COpening a next replaced byName todo acc opened) -> opening_ok c a next replaced byName todo acc opened;
  iv_stops : NoDup (op_stops (running c) ++ workers c)
    /\ forall g, g ∈ op_stops (running c) ++ workers c \/ dataStop c = Some g -> (g < stops c)%nat;
  iv_panic : panicked c = false;
}.

(** Heaps that agree on a tunnel's name, socket and address. *)
Definition face (t : localTunnel) : string * nat * string * bool := (lt_name t, lt_sock t, lt_addr t, lt_udp t).

Definition same_face (rs : list nat) (h h' : gmap nat localTunnel) : Prop :=
  forall r, r ∈ rs -> face <$> h' !! r = face <$> h !! r.

Lemma same_face_at h h' r : face <$> h' !! r = face <$> h !! r ->
  sock_of h' r = sock_of h r /\ name_of h' r = name_of h r /\ addr_of h' r = addr_of h r
  /\ (is_Some (h' !! r) <-> is_Some (h !! r)).
Proof.
  unfold sock_of, name_of, addr_of, face. destruct (h' !! r), (h !! r); simpl; intros H; simplify_eq; try done.
  split_and!; try congruence. split; intros; by eexists.
Qed.

Lemma socks_same rs h h' : same_face rs h h' -> socks_of h' rs = socks_of h rs.
Proof.
  intros Hf. unfold socks_of. induction rs as [|r rs IH]; [done|]. rewrite !bind_cons.
  destruct (same_face_at h h' r) as (-> & _); [apply Hf; set_solver|]. f_equal. apply IH. intros x Hx. apply Hf. set_solver.
Qed.

Lemma names_same rs h h' : same_face rs h h' -> name_of h' <$> rs = name_of h <$> rs.
Proof. intros Hf. apply list_fmap_ext. intros i r Hr%list_elem_of_lookup_2. by apply same_face_at, Hf. Qed.

Lemma addrs_same rs h h' : same_face rs h h' -> addr_of h' <$> rs = addr_of h <$> rs.
Proof. intros Hf. apply list_fmap_ext. intros i r Hr%list_elem_of_lookup_2. by apply same_face_at, Hf. Qed.

Lemma same_face_insert rs h r t : h !! r = None -> (forall x, x ∈ rs -> is_Some (h !! x)) -> same_face rs h (<[r := t]> h).
Proof. intros Hn Hs x Hx. rewrite lookup_insert_ne; [done|]. intros ->. apply Hs in Hx as [? ?]. congruence. Qed.

Lemma serves_face h h' r g : face <$> h' !! r = face <$> h !! r -> serves h' r g <-> serves h r g.
Proof.
  unfold serves, face. destruct (h' !! r), (h !! r); simpl; intros H; simplify_eq; [|done].
  split; intros (t & [= <-] & ? & ?); eexists; split_and!; try done; congruence.
Qed.

Lemma all_serve h acc dn : Forall2 (serves h) acc dn -> name_of h <$> acc = tn_Name <$> dn.
Proof.
  induction 1 as [|r g acc dn (t & Ht & Hn & _) _ IH]; [done|]. rewrite !fmap_cons, IH. f_equal. unfold name_of. by rewrite Ht.
Qed.

Lemma serve_mono h h' acc dn :
  Forall2 (serves h) acc dn -> (forall r g, r ∈ acc -> serves h r g -> serves h' r g) -> Forall2 (serves h') acc dn.
Proof. induction 1; intros Hs; constructor; [apply Hs; [set_solver|done]|]. apply IHForall2. intros. apply Hs; [set_solver|done]. Qed.

Lemma grant_all_face ip rs gs h r : face <$> grant_all ip rs gs h !! r = face <$> h !! r.
Proof.
  revert gs h. induction rs as [|x rs IH]; intros [|g gs] h; simpl; try done. rewrite IH.
  destruct (h !! x) as [t|] eqn:Hx; [|done]. destruct (decide (x = r)) as [->|Hne].
  - by rewrite lookup_insert_eq, Hx.
  - by rewrite lookup_insert_ne.
Qed.

Lemma socks_app h l k : socks_of h (l ++ k) = socks_of h l ++ socks_of h k.
Proof. unfold socks_of. by rewrite bind_app. Qed.

Lemma socks_cons h r l : socks_of h (r :: l) = sock_of h r ++ socks_of h l.
Proof. done. Qed.

#[global] Instance socks_perm h : Proper ((≡ₚ) ==> (≡ₚ)) (socks_of h).
Proof. intros l k H. unfold socks_of. by rewrite H. Qed.

(** The holder of [networkMu] goes on to [op]. *)
Lemma session_inv_set_op c op x y :
  inv c ->
  owned x (op_socks op ++ socks_of (heap c) (op_refs op ++ close_refs c ++ tunnels c)) ->
  owned y (op_devs op ++ close_devs c ++ option_list (Stack c)) ->
  (forall r, r ∈ op_refs op -> is_Some (heap c !! r)) ->
  (forall a next replaced byName todo acc opened,
     op = Some (COpening a next replaced byName todo acc opened) -> opening_ok c a next replaced byName todo acc opened) ->
  op_stops op = [] ->
  inv (set_op op (set_sockets x (set_devices y c))).
Proof.
  intros [] Hx Hy Hr Ho Hs. constructor; cbn [heap tunnels LocalAddresses Stack network dataStop closed sockets devices
    running closeop stops workers panicked set_op set_sockets set_devices]; try done.
  - intros r [H|H]%elem_of_app; [auto|]. apply iv_refs0. unfold refs. set_solver.
  - rewrite Hs. destruct iv_stops0 as [Hn Hg]. split; [by apply NoDup_app in Hn as (_ & _ & ?)|].
    intros g [H|H]; apply Hg; [left; set_solver|by right].
Qed.

Lemma set_sockets_id c : set_sockets (sockets c) c = c.
Proof. by destruct c. Qed.
Lemma set_devices_id c : set_devices (devices c) c = c.
Proof. by destruct c. Qed.

(** Without an operation, or with one that owns nothing. *)
Lemma owned_drop_op c op x y :
  owned x (sock_owners c) -> owned y (dev_owners c) -> op_socks op = [] -> op_refs op = [] -> op_devs op = [] ->
  op_socks (running c) = [] -> op_refs (running c) = [] -> op_devs (running c) = [] ->
  owned x (op_socks op ++ socks_of (heap c) (op_refs op ++ close_refs c ++ tunnels c))
  /\ owned y (op_devs op ++ close_devs c ++ option_list (Stack c)).
Proof. unfold sock_owners, dev_owners, refs. intros Hx Hy -> -> -> H1 H2 H3. rewrite H1, H2 in Hx. rewrite H3 in Hy. done. Qed.

Lemma session_inv_no_owner c op :
  inv c -> op_socks op = [] -> op_refs op = [] -> op_devs op = [] -> op_stops op = [] ->
  (forall a n rp b t ac opn, op <> Some (COpening a n rp b t ac opn)) ->
  op_socks (running c) = [] -> op_refs (running c) = [] -> op_devs (running c) = [] -> inv (set_op op c).
Proof.
  intros Hi H1 H2 H3 H4 H5 H6 H7 H8. rewrite <-(set_sockets_id c), <-(set_devices_id c) at 1.
  destruct (owned_drop_op c op _ _ (iv_socks c Hi) (iv_devs c Hi) H1 H2 H3 H6 H7 H8) as [Hx Hy].
  change (inv (set_op op (set_sockets (sockets c) (set_devices (devices c) c)))).
  apply session_inv_set_op; try done; [rewrite H2; set_solver|]. intros. by destruct (H5 a next replaced byName todo acc opened).
Qed.

(** Closing what the operation owns ends it. *)
Lemma session_inv_finish c dev :
  inv c -> op_socks (running c) = [] -> op_devs (running c) = option_list dev ->
  inv (set_op None (close_device dev (close_tunnels (op_refs (running c)) c))).
Proof.
  intros Hi Hs Hd. unfold close_device, close_tunnels.
  change (inv (set_op None (set_sockets (sockets c ∖ list_to_set (socks_of (heap c) (op_refs (running c))))
    (set_devices (devices c ∖ list_to_set (option_list dev)) c)))).
  pose proof (iv_socks c Hi) as Hsk. pose proof (iv_devs c Hi) as Hdv. apply session_inv_set_op; try done; [| |set_solver].
  - simpl. apply owned_close. unfold sock_owners, refs in Hsk. rewrite Hs in Hsk. simpl in Hsk. by rewrite <-socks_app.
  - simpl. apply owned_close. unfold dev_owners in Hdv. by rewrite Hd in Hdv.
Qed.

Lemma session_inv_close_begin c : inv c -> inv (close_begin c).
Proof.
  intros Hi. unfold close_begin. destruct (closed c) eqn:Hc; [done|]. destruct Hi. rewrite Hc in iv_closed0.
  destruct iv_closed0 as [Hcl Hst].
  assert (Hrefs : refs c = op_refs (running c) ++ tunnels c) by (unfold refs, close_refs; by rewrite Hcl).
  constructor; cbn [heap tunnels LocalAddresses Stack network dataStop closed sockets devices
    running closeop stops workers panicked]; try done.
  - eapply owned_perm; [|exact iv_socks0]. unfold sock_owners. cbn. rewrite Hrefs. unfold refs. cbn. by rewrite app_nil_r.
  - eapply owned_perm; [|exact iv_devs0]. unfold dev_owners, close_devs. cbn. rewrite Hcl. cbn. by rewrite app_nil_r.
  - intros r H. apply iv_refs0. rewrite Hrefs. unfold refs, close_refs in H. cbn in H. by rewrite app_nil_r in H.
  - constructor.
  - intros a n rp b t ac opn H. destruct (iv_opening0 _ _ _ _ _ _ _ H) as ((kept & Hk & _) & H3 & H4 & H5 & Hm & H6).
    split; [|by split_and!]. exists kept. by split.
  - destruct iv_stops0 as [Hn Hg]. split; [done|]. intros g [H|H]; [auto|done].
Qed.

Lemma session_inv_close_end c rs dev : inv c -> closeop c = Some (rs, dev) -> inv (close_end rs dev c).
Proof.
  intros Hi Ho. destruct Hi. unfold close_end, close_device, close_tunnels.
  assert (Hr : refs c ≡ₚ rs ++ op_refs (running c) ++ tunnels c).
  { unfold refs, close_refs. rewrite Ho. rewrite !(assoc_L (++)). by rewrite (comm _ rs). }
  constructor; cbn [heap tunnels LocalAddresses Stack network dataStop closed sockets devices
    running closeop stops workers panicked set_sockets set_devices]; try done.
  - apply owned_close. eapply owned_perm; [|exact iv_socks0]. unfold sock_owners, refs, close_refs. cbn.
    rewrite Ho, !socks_app. solve_Permutation.
  - apply owned_close. eapply owned_perm; [|exact iv_devs0]. unfold dev_owners, close_devs. cbn.
    rewrite Ho. solve_Permutation.
  - intros r H. apply iv_refs0. rewrite Hr. unfold refs, close_refs in H. cbn in H. set_solver.
  - destruct (closed c); [done|]. destruct iv_closed0. congruence.
Qed.

Lemma index_of_lookup r rs i : index_of r rs = Some i -> rs !! i = Some r.
Proof.
  induction rs as [|x rs IH] in i |- *; simpl; [done|]. destruct (bool_decide_reflect (x = r)) as [->|]; [by intros [= <-]|].
  destruct (index_of r rs) as [j|]; [|done]. intros [= <-]. simpl. by apply IH.
Qed.

Lemma refs_NoDup h rs : NoDup (socks_of h rs) -> (forall r, r ∈ rs -> is_Some (h !! r)) -> NoDup rs.
Proof.
  induction rs as [|r rs IH]; [constructor|]. unfold socks_of. rewrite bind_cons. intros (_ & Hd & Hn)%NoDup_app Hs.
  constructor; [|apply IH; [done|set_solver]]. intros Hin. destruct (Hs r) as [t Ht]; [set_solver|].
  unfold sock_of in Hd. rewrite Ht in Hd. apply (Hd (lt_sock t)); [set_solver|].
  apply list_elem_of_bind. exists r. unfold sock_of. rewrite Ht. set_solver.
Qed.

(** Moving a tunnel to another socket. *)
Lemma socks_move h rs r t t' :
  NoDup rs -> r ∈ rs -> h !! r = Some t ->
  lt_sock t' :: socks_of h rs ≡ₚ lt_sock t :: socks_of (<[r := t']> h) rs.
Proof.
  intros Hn Hr Ht. apply list_elem_of_split in Hr as (l1 & l2 & ->).
  apply NoDup_app in Hn as (_ & H1 & [H2 _]%NoDup_cons).
  assert (Hsame : forall l, r ∉ l -> socks_of (<[r := t']> h) l = socks_of h l).
  { intros l Hl. apply socks_same. intros x Hx. rewrite lookup_insert_ne; [done|]. set_solver. }
  rewrite !socks_app, !socks_cons, !Hsame; [|done|intros Hx; by apply (H1 r Hx); left].
  unfold sock_of. rewrite Ht, lookup_insert_eq. simpl. solve_Permutation.
Qed.

Lemma session_inv_replace_commit c r sock addr :
  inv c -> running c = Some (RBound r sock addr) -> inv (replace_commit r sock addr c).
Proof.
  intros Hi Hr.
  assert (Hrefuse : inv (set_op None (set_sockets (sockets c ∖ {[sock]}) c))).
  { rewrite <-(set_devices_id c) at 2. apply session_inv_set_op; try done; [| |set_solver].
    - apply owned_close1. pose proof (iv_socks c Hi) as H. unfold sock_owners, refs in H. by rewrite Hr in H.
    - pose proof (iv_devs c Hi) as H. unfold dev_owners in H. by rewrite Hr in H. }
  unfold replace_commit. destruct (Stack c) as [d|] eqn:Hst; [|done].
  destruct (index_of r (tunnels c)) as [i|] eqn:Hix; [|done]. destruct (heap c !! r) as [t|] eqn:Ht; [|done].
  apply index_of_lookup in Hix. destruct Hi. assert (Hc : closed c = false).
  { destruct (closed c); [|done]. destruct iv_closed0 as (_ & ? & _). congruence. }
  rewrite Hc in iv_closed0. destruct iv_closed0 as [Hcl Hs].
  unfold sock_owners, refs, close_refs in iv_socks0. rewrite Hr, Hcl in iv_socks0. cbn in iv_socks0.
  unfold refs, close_refs in iv_refs0. rewrite Hr, Hcl in iv_refs0. cbn in iv_refs0.
  assert (Hnd : NoDup (tunnels c)).
  { destruct iv_socks0 as [[_ Hn]%NoDup_cons _]. by eapply refs_NoDup. }
  assert (Hin : r ∈ tunnels c) by by eapply list_elem_of_lookup_2.
  constructor; cbn [heap tunnels LocalAddresses Stack network dataStop closed sockets devices
    running closeop stops workers panicked set_op set_addresses set_heap]; try done.
  - unfold sock_owners, refs, close_refs. cbn. rewrite Hcl. cbn. eapply owned_perm; [|exact iv_socks0].
    apply (socks_move _ _ _ _ (with_sock sock addr t)); done.
  - unfold dev_owners in *. rewrite Hr in iv_devs0. exact iv_devs0.
  - unfold refs, close_refs. cbn. rewrite Hcl. cbn. intros x Hx. rewrite lookup_insert_is_Some'. right. auto.
  - erewrite list_fmap_ext; [exact iv_names0|]. intros j x Hx. unfold name_of.
    destruct (decide (r = x)) as [<-|Hne]; [by rewrite lookup_insert_eq, Ht|by rewrite lookup_insert_ne].
  - intros _. rewrite iv_addrs0 by done. apply list_eq. intros j. rewrite !list_lookup_fmap.
    destruct (decide (j = i)) as [->|Hne].
    + rewrite list_lookup_insert_eq by (rewrite length_fmap; by eapply lookup_lt_Some). rewrite Hix. simpl.
      unfold addr_of. by rewrite lookup_insert_eq.
    + rewrite list_lookup_insert_ne, list_lookup_fmap by done. destruct (tunnels c !! j) as [x|] eqn:Hx; [|done]. simpl.
      unfold addr_of. rewrite lookup_insert_ne; [done|]. intros <-. destruct Hne. by eapply NoDup_lookup.
  - rewrite Hc. done.
  - rewrite Hr in iv_stops0. exact iv_stops0.
  - rewrite iv_panic0, (iv_addrs0 Hc), length_fmap. simpl. apply bool_decide_eq_false. apply lookup_lt_Some in Hix. lia.
Qed.

Lemma session_inv_renew c out : inv c -> inv (renew out c).
Proof. intros Hi. unfold renew. destruct (closed c) eqn:Hc; [done|]. destruct Hi. by constructor. Qed.

(** The table of the tunnels by name. *)
Lemma by_name_acc h rs m :
  (forall r, r ∈ rs -> is_Some (h !! r)) -> NoDup (name_of h <$> rs) ->
  (forall r, r ∈ rs -> m !! name_of h r = None) ->
  (map_to_list (foldl (add_name h) m rs)).*2 ≡ₚ (map_to_list m).*2 ++ rs
  /\ forall n r, foldl (add_name h) m rs !! n = Some r -> m !! n = Some r \/ r ∈ rs /\ name_of h r = n.
Proof.
  induction rs as [|r rs IH] in m |- *; intros Hs Hn Hm; simpl; [split; [by rewrite app_nil_r|auto]|].
  rewrite fmap_cons in Hn. apply NoDup_cons in Hn as [Hr Hn].
  destruct (Hs r) as [t Ht]; [set_solver|]. unfold add_name at 2 4. rewrite Ht.
  assert (Hname : lt_name t = name_of h r) by (unfold name_of; by rewrite Ht). rewrite Hname.
  destruct (IH (<[name_of h r := r]> m)) as [H1 H2]; [set_solver|done| |].
  { intros x Hx. rewrite lookup_insert_ne; [apply Hm; set_solver|]. intros He. apply Hr. rewrite He.
    by apply list_elem_of_fmap_2. }
  split.
  - rewrite H1, map_to_list_insert by (apply Hm; set_solver). simpl. by rewrite Permutation_middle.
  - intros n x Hx. destruct (H2 n x Hx) as [[[<- <-]|[_ ?]]%lookup_insert_Some|[? ?]]; [|auto|].
    + right. split; [set_solver|done].
    + right. split; [set_solver|done].
Qed.

Lemma by_name_spec h rs :
  (forall r, r ∈ rs -> is_Some (h !! r)) -> NoDup (name_of h <$> rs) ->
  (map_to_list (by_name h rs)).*2 ≡ₚ rs
  /\ forall n r, by_name h rs !! n = Some r -> r ∈ rs /\ name_of h r = n.
Proof.
  intros Hs Hn. destruct (by_name_acc h rs ∅ Hs Hn) as [H1 H2]; [intros; apply lookup_empty|].
  split; [by rewrite map_to_list_empty in H1|]. intros n r H. destruct (H2 n r H) as [H3|]; [|done].
  by rewrite lookup_empty in H3.
Qed.

Lemma opening_begin c a next rp :
  inv c -> distinct a -> plane_of c a next rp ->
  opening_ok c a next rp (by_name (heap c) (tunnels c))
    (rs_Tunnels (au_response a)) [] [].
Proof.
  intros Hi Hd Hp. destruct (by_name_spec (heap c) (tunnels c)) as [H1 H2]; [|apply Hi|].
  { intros r Hr. apply (iv_refs c Hi). unfold refs. set_solver. }
  split; [|split; [|split]].
  - exists []. split; [done|]. intros _. by rewrite H1.
  - intros n r H. destruct (H2 n r H). split; [|done]. apply (iv_refs c Hi). unfold refs. set_solver.
  - set_solver.
  - split; [done|]. split; [done|]. exists []. split; [done|]. split; [constructor|]. set_solver.
Qed.

Lemma session_inv_apply_begin c a dev :
  inv c -> distinct a -> running c = Some CAuth -> list_to_set (option_list dev) ## devices c ->
  inv (apply_begin a dev c).
Proof.
  intros Hi Hd Hr Hdev. unfold apply_begin.
  assert (Hnone : inv (set_op None c)) by (apply session_inv_no_owner; try done; by rewrite Hr).
  pose proof (iv_socks c Hi) as Hs. unfold sock_owners, refs in Hs. rewrite Hr in Hs.
  pose proof (iv_devs c Hi) as Hv. unfold dev_owners in Hv. rewrite Hr in Hv.
  assert (Hop : forall n rp y, plane_of c a n rp -> owned y (op_devs (Some (COpening a n rp (by_name (heap c) (tunnels c))
        (rs_Tunnels (au_response a)) [] [])) ++ close_devs c ++ option_list (Stack c)) ->
      inv (set_op (Some (COpening a n rp (by_name (heap c) (tunnels c)) (rs_Tunnels (au_response a)) [] []))
        (set_devices y c))).
  { intros n rp y Hrp Hy.
    match goal with |- inv (set_op ?op _) =>
      change (inv (set_op op (set_sockets (sockets c) (set_devices y c)))); apply session_inv_set_op; try done end.
    - simpl. set_solver.
    - intros a' n' rp' b t ac opn [= <- <- <- <- <- <- <-]. by apply opening_begin. }
  destruct (closed c); [done|]. destruct (matches _ _) eqn:Hm.
  - specialize (Hop (network c) false (devices c)). unfold plane_of in Hop. rewrite Hm in Hop. specialize (Hop (conj eq_refl eq_refl) Hv). by rewrite set_devices_id in Hop.
  - destruct dev as [d|]; [|by destruct (newConnectionNetwork _ _ _)].
    destruct (newConnectionNetwork _ _ _) as [n|e] eqn:Hn; [|done].
    apply Hop; [split; [by rewrite Hm|done]|]. simpl. apply owned_open; [set_solver|done].
Qed.

Lemma keeps_some h byName g r :
  keeps h byName g = Some r -> byName !! tn_Name g = Some r /\ exists t, h !! r = Some t /\ lt_udp t = is_udp g.
Proof.
  unfold keeps. destruct (byName !! tn_Name g) as [x|]; [|done]. destruct (h !! x) as [t|] eqn:Ht; [|done].
  destruct (Bool.eqb _ _) eqn:He; [|done]. intros [= ->]. split; [done|]. exists t. split; [done|]. by apply eqb_prop.
Qed.

Lemma keeps_none h byName g r : keeps h byName g = None -> byName !! tn_Name g = Some r -> ~ serves h r g.
Proof.
  unfold keeps. intros Hk Hb (t & Ht & _ & Hu). rewrite Hb, Ht, Hu, eqb_reflx in Hk. done.
Qed.

(** The next tunnel of the answer is one the session has. *)
Lemma session_inv_keep c a next rp byName g todo acc opened r :
  inv c -> running c = Some (COpening a next rp byName (g :: todo) acc opened) -> keeps (heap c) byName g = Some r ->
  inv (set_op (Some (COpening a next rp (delete (tn_Name g) byName) todo (acc ++ [r]) opened)) c).
Proof.
  intros Hi Hr Hk. apply keeps_some in Hk as [Hb Hk].
  pose proof (iv_socks c Hi) as Hs. unfold sock_owners, refs in Hs. rewrite Hr in Hs.
  pose proof (iv_devs c Hi) as Hv. unfold dev_owners in Hv. rewrite Hr in Hv.
  match goal with |- inv (set_op ?op _) =>
    rewrite <-(set_sockets_id c), <-(set_devices_id c);
    change (inv (set_op op (set_sockets (sockets c) (set_devices (devices c) c)))); apply session_inv_set_op; try done end.
  - intros x Hx. apply (iv_refs c Hi). unfold refs. rewrite Hr. simpl in *. set_solver.
  - intros a' n' rp' b t ac opn [= <- <- <- <- <- <- <-].
    destruct (iv_opening c Hi _ _ _ _ _ _ _ Hr) as ((kept & H1 & H2) & H3 & H4 & H5 & Hm & dn & Hdn & Hf & Hno).
    destruct (H3 _ _ Hb) as [Hin Hname]. split; [|split; [|split; [|split; [done|split; [done|]]]]].
    + exists (kept ++ [r]). split; [rewrite H1; solve_Permutation|]. intros Hc. rewrite (H2 Hc).
      rewrite <-(map_to_list_delete byName _ _ Hb). simpl. solve_Permutation.
    + intros n x [_ ?]%lookup_delete_Some. auto.
    + intros x [?|Hx]%elem_of_app; [auto|]. apply list_elem_of_singleton in Hx as ->. done.
    + exists (dn ++ [g]). split; [by rewrite <-(assoc_L (++))|]. split.
      * apply Forall2_app; [done|]. constructor; [|done]. destruct Hk as (t & Ht & Hu). exists t.
        unfold name_of in Hname. rewrite Ht in Hname. done.
      * intros n x g' [Hne Hx]%lookup_delete_Some [Hg|Hg]%elem_of_app Hn; [by eapply Hno|].
        apply list_elem_of_singleton in Hg as ->. done.
Qed.

(** It is opened, or the session is undone. *)
Lemma session_inv_grant c a next rp byName g todo acc opened ref sock addr :
  inv c -> running c = Some (COpening a next rp byName (g :: todo) acc opened) -> keeps (heap c) byName g = None ->
  sock ∉ sockets c -> heap c !! ref = None ->
  inv (set_op (Some (COpening a next rp byName todo (acc ++ [ref]) (opened ++ [ref])))
         (set_sockets ({[sock]} ∪ sockets c) (set_heap (<[ref := opened_tunnel g sock addr]> (heap c)) c))).
Proof.
  intros Hi Hr Hk Hsk Href. set (h := <[ref := opened_tunnel g sock addr]> (heap c)).
  assert (Hface : forall rs, (forall x, x ∈ rs -> is_Some (heap c !! x)) -> same_face rs (heap c) h)
    by (intros; by apply same_face_insert).
  assert (Hsome : forall x, is_Some (heap c !! x) -> is_Some (h !! x)).
  { intros x Hx. unfold h. rewrite lookup_insert_is_Some'. by right. }
  destruct Hi. unfold refs in iv_refs0. rewrite Hr in iv_refs0. cbn [op_refs] in iv_refs0.
  assert (Ht : forall x, x ∈ tunnels c -> is_Some (heap c !! x)) by set_solver.
  unfold sock_owners, refs in iv_socks0. rewrite Hr in iv_socks0. cbn [op_socks op_refs] in iv_socks0.
  unfold dev_owners in iv_devs0. rewrite Hr in iv_devs0.
  constructor; cbn [heap tunnels LocalAddresses Stack network dataStop closed sockets devices
    running closeop stops workers panicked set_op set_sockets set_heap]; try done.
  - unfold sock_owners, refs. cbn [heap tunnels running close_refs closeop set_op set_sockets set_heap op_socks op_refs].
    change (close_refs _) with (close_refs c).
    eapply owned_perm; [|apply owned_open; [exact Hsk|exact iv_socks0]]. simpl.
    rewrite <-(assoc_L (++)), !socks_app, !socks_cons. unfold sock_of, h. rewrite lookup_insert_eq. fold h. simpl.
    rewrite !(socks_same _ (heap c) h) by (apply Hface; set_solver). solve_Permutation.
  - unfold refs. cbn. change (close_refs _) with (close_refs c). intros x Hx.
    rewrite <-(assoc_L (++)), !elem_of_app in Hx.
    destruct Hx as [Hx|[Hx|[Hx|Hx]]]; [apply Hsome; set_solver| |apply Hsome; set_solver..].
    apply list_elem_of_singleton in Hx as ->. unfold h. rewrite lookup_insert_eq. by eexists.
  - rewrite (names_same _ (heap c) h); [done|by apply Hface].
  - intros Hc. rewrite iv_addrs0, (addrs_same _ (heap c) h); [done|by apply Hface|done].
  - intros a' n' rp' b t ac opn [= <- <- <- <- <- <- <-].
    destruct (iv_opening0 _ _ _ _ _ _ _ Hr) as ((kept & H1 & H2) & H3 & H4 & H5 & Hm & dn & Hdn & Hf & Hno).
    assert (Hserve : forall x g', is_Some (heap c !! x) -> serves h x g' <-> serves (heap c) x g').
    { intros x g' Hx. apply serves_face, (Hface [x]); set_solver. }
    split; [|split; [|split; [|split; [done|split; [done|]]]]].
    + exists kept. split; [rewrite H1; solve_Permutation|done].
    + intros n x Hx. destruct (H3 n x Hx) as [Hin Hn]. split; [by apply Hsome|].
      cbn [heap set_op set_sockets set_heap]. rewrite <-Hn. apply same_face_at, (Hface [x]); set_solver.
    + intros x [Hx|Hx]%elem_of_app; [apply Hsome; auto|]. apply list_elem_of_singleton in Hx as ->.
      cbn. unfold h. rewrite lookup_insert_eq. by eexists.
    + cbn [heap set_op set_sockets set_heap]. exists (dn ++ [g]). split; [by rewrite <-(assoc_L (++))|]. split.
      * apply Forall2_app; [|constructor; [|done]].
        -- eapply serve_mono; [exact Hf|]. intros x y Hx Hy. apply Hserve; auto.
        -- exists (opened_tunnel g sock addr). unfold h. by rewrite lookup_insert_eq.
      * intros n x g' Hx Hg Hn. rewrite Hserve by (by eapply H3). apply elem_of_app in Hg as [Hg|Hg]; [by eapply Hno|].
        apply list_elem_of_singleton in Hg as ->. subst n. by eapply keeps_none.
  - rewrite Hr in iv_stops0. exact iv_stops0.
Qed.

Lemma session_inv_undo c a next rp byName todo acc opened :
  inv c -> running c = Some (COpening a next rp byName todo acc opened) ->
  inv (set_op (Some (CFailing opened (dev_of rp next))) c).
Proof.
  intros Hi Hr. pose proof (iv_socks c Hi) as Hs. unfold sock_owners, refs in Hs. rewrite Hr in Hs.
  pose proof (iv_devs c Hi) as Hv. unfold dev_owners in Hv. rewrite Hr in Hv.
  match goal with |- inv (set_op ?op _) =>
    rewrite <-(set_sockets_id c), <-(set_devices_id c);
    change (inv (set_op op (set_sockets (sockets c) (set_devices (devices c) c)))); apply session_inv_set_op; try done end.
  intros x Hx. apply (iv_refs c Hi). unfold refs. rewrite Hr. simpl in *. set_solver.
Qed.

Lemma session_inv_commit c a next rp byName acc opened :
  inv c -> running c = Some (COpening a next rp byName [] acc opened) -> inv (apply_commit a next rp byName acc opened c).
Proof.
  intros Hi Hr. unfold apply_commit. destruct (closed c) eqn:Hc; [by eapply session_inv_undo|].
  set (h := grant_all _ _ _ _).
  assert (Hface : forall rs, same_face rs (heap c) h) by (intros rs x _; apply grant_all_face).
  destruct Hi. rewrite Hc in iv_closed0. destruct iv_closed0 as [Hcl Hst].
  destruct (iv_opening0 _ _ _ _ _ _ _ Hr) as ((kept & H1 & H2) & H3 & H4 & H5 & Hm & dn & Hdn & Hf & Hno). specialize (H2 Hc).
  unfold refs, close_refs in iv_refs0. rewrite Hr, Hcl in iv_refs0. cbn [op_refs] in iv_refs0.
  unfold sock_owners, refs, close_refs in iv_socks0. rewrite Hr, Hcl in iv_socks0. cbn [op_socks op_refs] in iv_socks0.
  unfold dev_owners, close_devs in iv_devs0. rewrite Hr, Hcl in iv_devs0. cbn [op_devs] in iv_devs0.
  rewrite Hr in iv_stops0. cbn [op_stops] in iv_stops0.
  constructor; cbn [heap tunnels LocalAddresses Stack network dataStop closed sockets devices running closeop stops
    workers panicked]; try done.
  - unfold sock_owners, refs, close_refs. cbn [heap tunnels running closeop op_socks op_refs]. rewrite Hcl.
    rewrite (socks_same _ (heap c) h) by apply Hface. eapply owned_perm; [|exact iv_socks0].
    simpl. rewrite !socks_app. rewrite H1, H2, !socks_app. solve_Permutation.
  - unfold dev_owners, close_devs. cbn [running closeop Stack op_devs]. rewrite Hcl, Hst in *.
    eapply owned_perm; [|exact iv_devs0]. destruct rp; simpl; solve_Permutation.
  - unfold refs, close_refs. cbn [heap running closeop tunnels op_refs]. rewrite Hcl. intros x Hx.
    apply (same_face_at (heap c) h x); [apply grant_all_face|]. simpl in Hx. apply elem_of_app in Hx as [Hx|Hx]; [|auto].
    apply list_elem_of_fmap in Hx as ([n y] & -> & Hy%elem_of_map_to_list). by apply (H3 n y).
  - rewrite (names_same acc (heap c) h), (all_serve _ _ _ Hf) by apply Hface. unfold distinct in H5.
    by rewrite Hdn, app_nil_r in H5.
  - split; [done|]. by destruct rp.
  - destruct iv_stops0 as [Hn Hg]. cbn [op_stops]. split.
    + destruct (rp && _); [|done]. simpl. constructor; [|done]. intros H. assert (stops c < stops c)%nat by (apply Hg; by left). lia.
    + intros g H. destruct rp; simpl in H.
      * destruct H as [H|[= <-]]; [|lia]. apply elem_of_app in H as [H|H]; [|assert (g < stops c)%nat by (apply Hg; by left); lia].
        destruct (upgrades o next.1); simpl in H; [|set_solver]. apply list_elem_of_singleton in H as ->. lia.
      * apply Hg. set_solver.
Qed.

Lemma session_inv_apply_end c old dev stop :
  inv c -> running c = Some (CCommitted old dev stop) -> inv (apply_end old dev stop c).
Proof.
  intros Hi Hr.
  assert (Hf := session_inv_finish c dev Hi). rewrite Hr in Hf. specialize (Hf eq_refl eq_refl). cbn [op_refs] in Hf.
  pose proof (iv_stops c Hi) as [Hn Hg]. rewrite Hr in Hn, Hg. cbn [op_stops] in Hn, Hg.
  unfold apply_end. destruct Hf. constructor; try done.
Qed.

Lemma session_inv_step l c c' :
  (forall a dev, l = LAuth a dev -> distinct a) -> inv c -> step l c = Some c' -> inv c'.
Proof.
  intros Hd Hi Hs. destruct l; cbn [step] in Hs.
  - destruct (running c) eqn:Hr; [done|]. injection Hs as <-. destruct (replace_lookup _ _ _ _); try done.
    apply session_inv_no_owner; try done; by rewrite Hr.
  - destruct (running c) as [[]|] eqn:Hr; try done. destruct (bool_decide_reflect (sock ∈ sockets c)) as [|Hsk]; [done|].
    injection Hs as <-. pose proof (iv_socks c Hi) as H1. unfold sock_owners, refs in H1. rewrite Hr in H1.
    pose proof (iv_devs c Hi) as H2. unfold dev_owners in H2. rewrite Hr in H2.
    rewrite <-(set_devices_id c) at 2. apply session_inv_set_op; try done; [|set_solver]. by apply owned_open.
  - destruct (running c) as [[]|] eqn:Hr; try done. injection Hs as <-. apply session_inv_no_owner; try done; by rewrite Hr.
  - destruct (running c) as [[]|] eqn:Hr; try done. injection Hs as <-. by apply session_inv_replace_commit.
  - destruct (running c) as [[]|] eqn:Hr; try done. injection Hs as <-.
    pose proof (iv_socks c Hi) as H1. unfold sock_owners, refs in H1. rewrite Hr in H1.
    pose proof (iv_devs c Hi) as H2. unfold dev_owners in H2. rewrite Hr in H2.
    rewrite <-(set_devices_id c) at 2. apply session_inv_set_op; try done; [|set_solver]. by apply owned_close1.
  - destruct (running c) eqn:Hr; [done|]. injection Hs as <-. destruct (closed c); [done|].
    apply session_inv_no_owner; try done; by rewrite Hr.
  - destruct (running c) as [[]|] eqn:Hr; try done. injection Hs as <-. apply session_inv_no_owner; try done; by rewrite Hr.
  - destruct (running c) as [[]|] eqn:Hr; try done.
    destruct (bool_decide_reflect (list_to_set (option_list dev) ## devices c)); [|done]. injection Hs as <-.
    apply session_inv_apply_begin; eauto.
  - destruct (running c) as [[]|] eqn:Hr; try done. destruct todo as [|g todo]; [done|].
    destruct (keeps _ _ _) as [r|] eqn:Hk; [injection Hs as <-; by eapply session_inv_keep|].
    destruct (openReconnectedTunnel _ _ _ _ _) as [[sock addr]|]; [|injection Hs as <-; by eapply session_inv_undo].
    destruct (bool_decide_reflect (sock ∈ sockets c)); [done|].
    destruct (bool_decide_reflect (is_Some (heap c !! ref))) as [|Hh]; [done|]. injection Hs as <-.
    eapply session_inv_grant; try done. by apply eq_None_not_Some.
  - destruct (running c) as [[]|] eqn:Hr; try done. destruct todo; [|done]. injection Hs as <-. by apply session_inv_commit.
  - destruct (running c) as [[]|] eqn:Hr; try done. injection Hs as <-.
    assert (Hf := session_inv_finish c dev Hi). rewrite Hr in Hf. by apply Hf.
  - destruct (running c) as [[]|] eqn:Hr; try done. injection Hs as <-. by apply session_inv_apply_end.
  - injection Hs as <-. by apply session_inv_close_begin.
  - destruct (closeop c) as [[rs dev]|] eqn:Ho; [|done]. injection Hs as <-. by apply session_inv_close_end.
  - injection Hs as <-. by apply session_inv_renew.
Qed.

(** Answers with different names only. *)
Definition fair (l : label) : Prop := match l with LAuth a _ => distinct a | _ => True end.

Lemma session_inv_run ls c c' : Forall fair ls -> inv c -> run ls c = Some c' -> inv c'.
Proof.
  induction ls as [|l ls IH] in c |- *; simpl; [by intros _ ? [= <-]|].
  intros [Hl Hls]%Forall_cons Hi. destruct (step l c) as [c1|] eqn:Hs; [|done]. apply IH; [done|].
  eapply session_inv_step; [|done..]. intros a dev ->. exact Hl.
Qed.

(** ** A new connection *)
Lemma seq_lookups h ts k :
  (forall i t, ts !! i = Some t -> h !! (k + i)%nat = Some t) ->
  socks_of h (seq k (length ts)) = lt_sock <$> ts /\ name_of h <$> seq k (length ts) = lt_name <$> ts
  /\ addr_of h <$> seq k (length ts) = lt_addr <$> ts.
Proof.
  induction ts as [|t ts IH] in k |- *; intros Hh; [done|]. simpl seq. rewrite socks_cons, !fmap_cons.
  destruct (IH (S k)) as (-> & -> & ->).
  { intros i x Hx. specialize (Hh (S i) x Hx). by replace (k + S i)%nat with (S k + i)%nat in Hh by lia. }
  specialize (Hh 0%nat t eq_refl). rewrite Nat.add_0_r in Hh. unfold sock_of, name_of, addr_of. by rewrite Hh.
Qed.

Lemma session_inv_connected a n dev ls :
  distinct a -> NoDup ls.*1 -> length ls = length (rs_Tunnels (au_response a)) -> inv (connected a n dev ls).
Proof.
  intros Hd Hn Hl. unfold connected. set (ts := zip_with _ _ ls).
  assert (Hs : lt_sock <$> ts = ls.*1 /\ lt_name <$> ts = tn_Name <$> rs_Tunnels (au_response a)).
  { unfold ts. revert Hl. generalize (rs_Tunnels (au_response a)). clear. induction ls as [|l ls IH]; intros [|g gs] Hl; try done.
    destruct (IH gs) as [H1 H2]; [simpl in Hl; lia|]. cbn [zip_with]. by rewrite !fmap_cons, H1, H2. }
  destruct Hs as [H1 H2]. destruct (seq_lookups (map_seq 0 ts) ts 0) as (S1 & S2 & S3).
  { intros i t Ht. by rewrite lookup_map_seq_0. }
  constructor; cbn [heap tunnels LocalAddresses Stack network dataStop closed sockets devices running closeop stops
    workers panicked]; try done.
  - unfold sock_owners, refs, close_refs. cbn [heap tunnels running closeop op_socks op_refs app].
    rewrite S1, H1. split; [done|]. set_solver.
  - unfold dev_owners, close_devs. cbn. split; [apply NoDup_singleton|set_solver].
  - unfold refs, close_refs. cbn. intros r Hr%elem_of_seq. rewrite lookup_map_seq_0. apply lookup_lt_is_Some. lia.
  - by rewrite S2, H2.
  - split; [destruct (upgrades o n); simpl; [apply NoDup_singleton|constructor]|].
    intros g [Hg|[= <-]]; [|lia]. destruct (upgrades o n); simpl in Hg; set_solver by lia.
Qed.
End session.

(** ** Properties *)
Section properties.
Context {text : AddrText}.

(** Nothing is under way. *)
Definition quiet (c : Connection) : Prop := running c = None /\ closeop c = None.

(** The ladders whose stop channel is still open. *)
Definition live_ladders (c : Connection) : list nat := List.filter (fun g => bool_decide (dataStop c = Some g)) (workers c).

(** C28: As long as each of the server's answers names every tunnel once,
    whatever order the calls of one connection come in, however they fail
    and whenever it is closed between two of their steps, no listener and no
    WireGuard device is lost, shared or closed twice: with nothing under way
    exactly one socket of each tunnel and the current device are open, every
    published address is its tunnel's, and after a close nothing is; never
    does more than one upgrade ladder run, nor an index go wrong.  An answer
    with two tunnels of one name loses a socket ([namesake_is_lost]). *)
Theorem client_owns o bindAddr a n dev ls ops c :
  distinct a -> NoDup ls.*1 -> length ls = length (rs_Tunnels (au_response a)) -> Forall fair ops ->
  run o bindAddr ops (connected o a n dev ls) = Some c ->
  (quiet c -> owned (sockets c) (socks_of (heap c) (tunnels c)) /\ owned (devices c) (option_list (Stack c)))
  /\ (quiet c -> closed c = true -> sockets c = ∅ /\ devices c = ∅)
  /\ (closed c = false -> LocalAddresses c = addr_of (heap c) <$> tunnels c)
  /\ (length (live_ladders c) <= 1)%nat /\ panicked c = false.
Proof.
  intros Hd Hn Hl Hf Hr. assert (Hi : inv o c) by (eapply session_inv_run; [done|by apply session_inv_connected|done]).
  assert (Hq : quiet c -> owned (sockets c) (socks_of (heap c) (tunnels c)) /\ owned (devices c) (option_list (Stack c))).
  { intros [H1 H2]. pose proof (iv_socks o c Hi) as Hs. pose proof (iv_devs o c Hi) as Hv.
    unfold sock_owners, refs, close_refs in Hs. unfold dev_owners, close_devs in Hv. by rewrite H1, H2 in *. }
  split; [done|]. split; [|split; [apply Hi|split; [|apply Hi]]].
  - intros Hqc Hc. destruct (Hq Hqc) as [[_ Hs] [_ Hv]]. pose proof (iv_closed o c Hi) as H. rewrite Hc in H.
    destruct H as (Ht & Hst & _). rewrite Ht in Hs. rewrite Hst in Hv. split; set_solver.
  - pose proof (iv_stops o c Hi) as [Hns _]. apply NoDup_app in Hns as (_ & _ & Hns). unfold live_ladders.
    revert Hns. generalize (workers c). induction l as [|g l IH]; [simpl; lia|]. intros [Hg Hns]%NoDup_cons. simpl.
    destruct (bool_decide_reflect (dataStop c = Some g)) as [Hs|]; [|by apply IH]. simpl.
    replace (List.filter _ l) with (@nil nat); [simpl; lia|]. symmetry. apply elem_of_nil_inv. intros x Hx.
    apply list_elem_of_In, filter_In in Hx as [Hx%list_elem_of_In Hb]. apply bool_decide_eq_true in Hb. congruence.
Qed.

(** What a reader of the status sees of a connection. *)
Definition cells (c : Connection) : list (option localTunnel) := (fun r => heap c !! r) <$> tunnels c.

Definition view (c : Connection) :=
  (tunnels c, cells c, LocalAddresses c, Response c, (method c, issuer c), (Stack c, network c),
   (forced c, transport c, dataStop c, closed c)).

(** A tunnel that serves a grant under the server's address [ip]. *)
Definition published (ip : Addr) (h : gmap nat localTunnel) (r : nat) (g : Tunnel) : Prop :=
  exists t, h !! r = Some t /\ lt_name t = tn_Name g /\ lt_udp t = is_udp g /\ lt_virtualPort t = tn_VirtualPort g
    /\ lt_target t = JoinHostPort (addr_String ip) (tn_VirtualPort g) /\ lt_idle t = tn_UDPIdleTimeout g
    /\ lt_socks t = IsBrowserSocksTarget (tn_TargetHint g).

Lemma grant_all_other ip rs gs h r : r ∉ rs -> grant_all ip rs gs h !! r = h !! r.
Proof.
  revert gs h. induction rs as [|x rs IH]; intros [|g gs] h Hr; simpl; try done. rewrite IH by set_solver.
  destruct (h !! x); [|done]. apply lookup_insert_ne. set_solver.
Qed.

Lemma grant_all_published ip rs gs h :
  NoDup rs -> Forall2 (serves h) rs gs -> Forall2 (published ip (grant_all ip rs gs h)) rs gs.
Proof.
  revert gs h. induction rs as [|r rs IH]; intros gs h Hn Hf; [by apply Forall2_nil_inv_l in Hf as ->|].
  apply Forall2_cons_inv_l in Hf as (g & gs' & (t & Ht & Hnm & Hu) & Hf & ->).
  apply NoDup_cons in Hn as [Hr Hn]. simpl. rewrite Ht. constructor.
  - exists (granted ip g t). rewrite grant_all_other, lookup_insert_eq by done. by split_and!.
  - apply IH; [done|]. eapply serve_mono; [done|]. intros x k Hx. apply serves_face. rewrite lookup_insert_ne; [done|].
    set_solver.
Qed.

Definition publishes (l : label) : Prop :=
  match l with LReplaceCommit | LCommit | LClose | LRenew _ => True | _ => False end.

(** Steps that only move the operations along. *)
Lemma view_step o bindAddr l c c' : inv o c -> step o bindAddr l c = Some c' -> ~ publishes l -> view c' = view c.
Proof.
  intros Hi Hs Hl. destruct l; try (by exfalso; apply Hl); cbn [step] in Hs; repeat (case_match; simplify_eq; try done).
  - unfold apply_begin. repeat (case_match; try done).
  - unfold view, cells. cbn. do 6 f_equal. apply list_fmap_ext. intros i r Hr. apply lookup_insert_ne. intros ->.
    match goal with H : bool_decide _ || bool_decide _ = false |- _ => apply orb_false_iff in H as [_ Hb] end.
    apply bool_decide_eq_false in Hb. apply Hb, (iv_refs o c Hi), elem_of_app. right. apply elem_of_app. right.
    by eapply list_elem_of_lookup_2.
Qed.

(** A session is published at once or not at all.  Of the steps of every
    operation only four change what a reader sees: the commit of a moved
    listener, the commit of a new session, a renewal and a close; what fails
    before its commit leaves no trace.  A committed session that the data
    plane serves keeps device, carrier and stop channel; otherwise all are
    the new one's.  Its tunnels are the answer's grants, in their order and
    with their ports and targets, and a tunnel that some grant still serves
    keeps its socket and its address. *)
Theorem session_published_at_once o bindAddr a n dev ls ops c l c' :
  distinct a -> NoDup ls.*1 -> length ls = length (rs_Tunnels (au_response a)) -> Forall fair ops ->
  run o bindAddr ops (connected o a n dev ls) = Some c -> step o bindAddr l c = Some c' ->
  (~ publishes l -> view c' = view c)
  /\ forall b next replaced byName todo acc opened,
     l = LCommit -> running c = Some (COpening b next replaced byName todo acc opened) ->
     if closed c then view c' = view c
     else
       (if matches (cn_response (network c).1) (au_response b)
        then (Stack c', network c', dataStop c', forced c', transport c')
             = (Stack c, network c, dataStop c, forced c, transport c)
        else newConnectionNetwork (au_response b) o true = Ok (network c').1 /\ Stack c' = Some (network c').2
             /\ dataStop c' <> dataStop c)
       /\ (Response c', method c', issuer c') = (au_response b, au_method b, au_issuer b)
       /\ Forall2 (published (cn_serverIP (network c').1) (heap c')) (tunnels c') (rs_Tunnels (au_response b))
       /\ forall r g, r ∈ tunnels c -> g ∈ rs_Tunnels (au_response b) -> serves (heap c) r g ->
            r ∈ tunnels c' /\ face <$> heap c' !! r = face <$> heap c !! r.
Proof.
  intros Hd Hn Hl Hf Hr Hs. assert (Hi : inv o c) by (eapply session_inv_run; [done|by apply session_inv_connected|done]).
  split; [by eapply view_step|]. intros b next rp byName todo acc opened -> Hrun. cbn [step] in Hs. rewrite Hrun in Hs.
  destruct todo; [|done]. injection Hs as <-. unfold apply_commit. destruct (closed c) eqn:Hc; [by unfold view, cells; cbn; rewrite Hc|].
  destruct (iv_opening o c Hi _ _ _ _ _ _ _ Hrun) as ((kept & Hk1 & Hk2) & Hby & _ & Hdis & Hm & dn & Hdn & Hsv & Hno).
  specialize (Hk2 Hc). specialize (Hm Hc). rewrite app_nil_r in Hdn. rewrite <-Hdn in *.
  destruct Hm as [Hrp Hnext].
  assert (Hnd : NoDup acc).
  { apply (NoDup_fmap_1 (name_of (heap c))). by rewrite (all_serve _ _ _ Hsv). }
  cbn [Stack network dataStop forced transport Response method issuer heap tunnels]. split_and!; [|done| |].
  - destruct (matches _ _); subst rp; [|split_and!; try done]; simpl; [by rewrite Hnext|].
    intros Heq. pose proof (iv_stops o c Hi) as [_ Hst]. assert (stops c < stops c)%nat by (apply Hst; auto). lia.
  - replace (if rp then next else network c) with next by (by destruct rp). by apply grant_all_published.
  - intros r g Hin Hg Hsr. split; [|apply grant_all_face]. rewrite Hk2 in Hin. apply elem_of_app in Hin as [Hin|Hin].
    + rewrite Hk1. apply elem_of_app. by left.
    + apply list_elem_of_fmap in Hin as ([nm x] & -> & Hx%elem_of_map_to_list). exfalso.
      destruct (Hby _ _ Hx) as [_ Hnm]. apply (Hno nm x g Hx Hg); [|done]. destruct Hsr as (t & Ht & Htn & _).
      unfold name_of in Hnm. simpl in Ht. rewrite Ht in Hnm. congruence.
Qed.
End properties.

(** ** A run of the toy system *)
Definition named (name proto : string) : Tunnel := {|
  tn_Name := name; tn_Description := ""; tn_VirtualPort := 8080; tn_Protocol := proto; tn_UDPIdleTimeout := 0;
  tn_LocalPort := 0; tn_LocalHost := ""; tn_TargetHint := ""; tn_Instructions := ""; tn_DocsURL := "";
|}.

Definition toy_auth (host : Z) (grants : list Tunnel) : authResult :=
  mkAuth (mkResponse "i" "k" (toy_String (v4 100 64 0 host)) (toy_String (v4 100 64 0 1)) "" (15 * minute) grants "" "wss://x" "" ""
    "" false false []) "ssh" "".

Definition toy_network (a : authResult) : connectionNetwork :=
  match newConnectionNetwork (au_response a) toy_options true with
  | Ok n => n
  | Err _ => mkNetwork AddrNone AddrNone "" "" "" false false RawUDP "" "" None (au_response a)
  end.

Definition toy_first : authResult := toy_auth 2 [named "web" "tcp"; named "db" "tcp"].

Definition toy_connection : Connection :=
  connected toy_options toy_first (toy_network toy_first) 0 [(10, "a"); (11, "b")]%nat.

(** A listener moves, the server restarts and gives another address, keeping
    one tunnel and replacing the other by a new one. *)
Definition toy_session : list label :=
  let second := toy_auth 3 [named "dns" "udp"; named "web" "tcp"] in
  [LReplace "web" "" 8080; LReplaceBound 12 "c"; LReplaceCommit; LReplaceEnd;
   LReconnect; LAuth second (Some 1%nat);
   LGrant 7 (fun _ => Err tt) (fun _ _ => Ok (13%nat, "d"%string)); LGrant 8 (fun _ => Err tt) (fun _ _ => Err tt);
   LCommit; LCommitEnd; LRenew (au_response second); LClose; LCloseEnd].

Lemma toy_fair : Forall fair toy_session.
Proof.
  unfold toy_session. repeat (apply Forall_cons; split); try exact I; [|constructor].
  apply (bool_decide_unpack _). vm_compute. exact I.
Qed.

(** The state after the first [k] steps. *)
Definition toy_after (k : nat) : Connection :=
  default toy_connection (run toy_options "127.0.0.1" (firstn k toy_session) toy_connection).

Lemma client_owns_witness :
  sockets (toy_after 13) = ∅ /\ devices (toy_after 13) = ∅
  /\ tunnels (toy_after 10) = [7; 0]%nat /\ LocalAddresses (toy_after 10) = ["d"; "c"]%string
  /\ elements (sockets (toy_after 10)) = [12; 13]%nat.
Proof.
  assert (Hr : run toy_options "127.0.0.1" toy_session toy_connection = Some (toy_after 13)) by (vm_compute; reflexivity).
  destruct (client_owns toy_options "127.0.0.1" toy_first (toy_network toy_first) 0 [(10, "a"); (11, "b")]%nat toy_session
    (toy_after 13)) as (_ & H & _).
  - apply (bool_decide_unpack _). vm_compute. exact I.
  - apply (bool_decide_unpack _). vm_compute. exact I.
  - reflexivity.
  - exact toy_fair.
  - exact Hr.
  - destruct H as [H1 H2]; [split; vm_compute; reflexivity|vm_compute; reflexivity|].
    split; [exact H1|]. split; [exact H2|]. vm_compute. split; [reflexivity|split; reflexivity].
Defined.

Lemma session_published_at_once_witness :
  Response (toy_after 9) = au_response (toy_auth 3 [named "dns" "udp"; named "web" "tcp"])
  /\ face <$> heap (toy_after 9) !! 0%nat = face <$> heap (toy_after 8) !! 0%nat.
Proof.
  destruct (session_published_at_once toy_options "127.0.0.1" toy_first (toy_network toy_first) 0
    [(10, "a"); (11, "b")]%nat (firstn 8 toy_session) (toy_after 8) LCommit (toy_after 9)) as [_ H].
  - apply (bool_decide_unpack _). vm_compute. exact I.
  - apply (bool_decide_unpack _). vm_compute. exact I.
  - reflexivity.
  - apply Forall_take, toy_fair.
  - vm_compute. reflexivity.
  - vm_compute. reflexivity.
  - assert (Ho : exists next byName, running (toy_after 8)
      = Some (COpening (toy_auth 3 [named "dns" "udp"; named "web" "tcp"]) next true byName [] [7; 0]%nat [7]%nat))
      by (eexists _, _; vm_compute; reflexivity).
    destruct Ho as (next & byName & Ho). specialize (H _ next true byName [] _ _ eq_refl Ho).
    assert (Hc : closed (toy_after 8) = false) by (vm_compute; reflexivity). rewrite Hc in H.
    destruct H as (_ & H & _ & Hk). split; [exact (f_equal (fun x => x.1.1) H)|].
    apply (Hk 0%nat (named "web" "tcp")).
    + vm_compute. by left.
    + vm_compute. by right; left.
    + eexists. vm_compute. split; [reflexivity|split; reflexivity].
Defined.

(** An answer with two tunnels of one name: [byName] keeps the last one, so
    that the commit of the next answer drops the first without closing it. *)
Example namesake_is_lost :
  let twice := toy_auth 2 [named "web" "tcp"; named "web" "tcp"] in
  let c := connected toy_options twice (toy_network twice) 0 [(10, "a"); (11, "b")]%nat in
  let next := toy_auth 2 [named "web" "tcp"] in
  exists c', run toy_options "127.0.0.1" [LReconnect; LAuth next None; LGrant 8 (fun _ => Err tt) (fun _ _ => Err tt);
                 LCommit; LCommitEnd; LClose; LCloseEnd] c = Some c'
    /\ closed c' = true /\ elements (sockets c') = [10%nat].
Proof. eexists. split; [vm_compute; reflexivity|]. vm_compute. split; reflexivity. Qed.
