(* ===== verification/ClientRenewal.v ===== *)
(** [pkg/client/client.go], [renewLoop] and [renew], against the server's
    [renew]: how often a client renews, what it reports, and that a session
    renewed in time is never lost and keeps its data plane. *)
From S2P Require Import Prelude Bytes Netip Protocol Sessions ServerAuth ServerTable ServerSteps ServerToy ClientTransport ClientSession.

(** ** The loop *)

(** The wait before a renewal; [ttl] is in seconds. *)
Definition renew_wait (ttl : Z) : Z :=
  let ttl := if ttl <=? 0 then 60 else ttl in
  let d := Z.min (go_div (i64 (i64 (ttl * second) * 2)) 3) (15 * second) in
  if d <? second then second else d.

Definition next_delay (delay : Z) : Z := Z.min (i64 (delay * 2)) minute.

Inductive Event : Type :=
  | EventReconnecting (retryIn : Z)
  | EventReconnectFailed (retryIn : Z)
  | EventReconnected
  | EventRenewed.

(** The attempts after one wait: each is a renewal, then a reconnection, and
    [attempts] says which of them works; [None] when they all fail and the
    loop still retries.  The events fired and the delays waited, in order. *)
Fixpoint renew_attempts (delay : Z) (attempts : list bool) : option (list Event * list Z) :=
  match attempts with
  | [] => None
  | true :: _ => Some ((if second <? delay then [EventReconnected] else []) ++ [EventRenewed], [])
  | false :: rest =>
      '(events, waits) ← renew_attempts (next_delay delay) rest;
      Some ((if delay =? second then EventReconnecting delay else EventReconnectFailed delay) :: events, delay :: waits)
  end.

(** The delay after [n] failures. *)
Definition backoff (n : nat) : Z := Z.min (2 ^ Z.of_nat n * second) minute.

Lemma backoff_range n : second <= backoff n <= minute.
Proof. unfold backoff, minute, second. assert (0 < 2 ^ Z.of_nat n) by (apply Z.pow_pos_nonneg; lia). lia. Qed.

Lemma next_backoff n : next_delay (backoff n) = backoff (S n).
Proof.
  pose proof (backoff_range n) as Hr. unfold next_delay. rewrite i64_id.
  - unfold backoff, minute, second in *. rewrite Nat2Z.inj_succ, Z.pow_succ_r by lia. lia.
  - unfold in_int64, int64_min, int64_max, minute, second in *. lia.
Qed.

Lemma later_attempts k n rest :
  renew_attempts (backoff (S k)) (replicate n false ++ true :: rest)
  = Some ((EventReconnectFailed <$> (backoff <$> seq (S k) n)) ++ [EventReconnected; EventRenewed], backoff <$> seq (S k) n).
Proof.
  assert (Hlt : second < backoff (S k)).
  { unfold backoff, minute, second. rewrite Nat2Z.inj_succ, Z.pow_succ_r by lia.
    assert (0 < 2 ^ Z.of_nat k) by (apply Z.pow_pos_nonneg; lia). lia. }
  induction n as [|n IH] in k, Hlt |- *; simpl.
  - by rewrite (proj2 (Z.ltb_lt _ _) Hlt).
  - rewrite next_backoff, IH.
    2: { pose proof (next_backoff (S k)) as <-. unfold next_delay. pose proof (backoff_range (S k)).
         rewrite i64_id; unfold in_int64, int64_min, int64_max, minute, second in *; lia. }
    simpl. destruct (Z.eqb_spec (backoff (S k)) second); [lia|]. done.
Qed.

(** The lifetime of an answer in whole seconds, and when the client renews
    it at the latest, a third of the lifetime being left for the exchange. *)
Definition ttl_seconds (a : AuthResponse) : Z := go_div (rs_TTL a) second.

Definition due (created : Z) (a : AuthResponse) : Z := created + renew_wait (ttl_seconds a) + go_div (rs_TTL a) 3.

Lemma renew_wait_range ttl : second <= renew_wait ttl <= 15 * second.
Proof. unfold renew_wait. destruct (_ <? second) eqn:H; bool_to_prop; unfold second in *; lia. Qed.

(** At most two thirds of the lifetime, when a second is. *)
Lemma renew_wait_thirds ttl : in_int64 ttl -> 2 <= ttl -> 3 * renew_wait ttl <= Z.max (2 * (ttl * second)) (3 * second).
Proof.
  intros Hr Ht. destruct (Z.le_gt_cases ttl 100) as [Hs|Hb].
  - unfold renew_wait. destruct (Z.leb_spec ttl 0); [lia|]. unfold second, in_int64, int64_min, int64_max in *.
    rewrite !i64_id by (unfold in_int64, int64_min, int64_max; rewrite ?i64_id; unfold in_int64, int64_min, int64_max; lia).
    unfold go_div. pose proof (Z.mul_quot_le (ttl * 1000000000 * 2) 3). destruct (_ <? _); lia.
  - pose proof (renew_wait_range ttl). unfold second in *. lia.
Qed.

Lemma due_in_time created a :
  3 * second <= rs_TTL a <= int64_max -> created < due created a <= created + rs_TTL a.
Proof.
  intros H. unfold due. pose proof (renew_wait_range (ttl_seconds a)) as Hw.
  assert (Hs : 3 <= ttl_seconds a /\ ttl_seconds a * second <= rs_TTL a).
  { unfold ttl_seconds, go_div, second in *. rewrite Z.quot_div_nonneg by lia. split.
    - apply Z.div_le_lower_bound; lia.
    - rewrite Z.mul_comm. apply Z.mul_div_le. lia. }
  pose proof (renew_wait_thirds (ttl_seconds a)) as Ht. unfold go_div.
  pose proof (Z.mul_quot_le (rs_TTL a) 3). unfold in_int64, second, int64_max, int64_min in *. lia.
Qed.

(** Renewals are paced: whatever 64-bit lifetime the server answers, the
    client waits between one and fifteen seconds, and less than a lifetime of
    two seconds or more; the next renewal comes in time for a lifetime of
    three seconds or more even if the exchange takes up to a third of it.
    After [n] failures it has waited 1, 2, 4, ... seconds, at most a minute
    each, has reported the loss once, each further failure, and reports the
    recovery once. *)
Theorem renewal_paced ttl created a n rest :
  in_int64 ttl -> 3 * second <= rs_TTL a <= int64_max ->
  second <= renew_wait ttl <= 15 * second
  /\ (2 <= ttl -> renew_wait ttl < ttl * second)
  /\ created < due created a <= created + rs_TTL a
  /\ renew_attempts second (replicate n false ++ true :: rest)
     = Some (match n with
             | O => [EventRenewed]
             | S m => EventReconnecting second :: (EventReconnectFailed <$> (backoff <$> seq 1 m))
                      ++ [EventReconnected; EventRenewed]
             end, backoff <$> seq 0 n)
  /\ forall k, second <= backoff k <= minute.
Proof.
  intros Hr Ha. split; [apply renew_wait_range|]. split; [|split; [by apply due_in_time|split; [|apply backoff_range]]].
  - intros Ht. pose proof (renew_wait_thirds ttl Hr Ht). unfold second in *. lia.
  - destruct n as [|n]; [done|]. simpl. change (next_delay second) with (backoff 1). rewrite later_attempts. done.
Qed.

Lemma renewal_paced_witness :
  renew_wait 900 = 15 * second
  /\ renew_attempts second [false; false; true]
     = Some ([EventReconnecting second; EventReconnectFailed (2 * second); EventReconnected; EventRenewed],
             [second; 2 * second]).
Proof.
  split; [reflexivity|].
  destruct (renewal_paced 900 0 (au_response toy_first) 2 []) as (_ & _ & _ & H & _); [| |exact H].
  - unfold in_int64, int64_min, int64_max. lia.
  - vm_compute. split; discriminate.
Defined.

(** ** Renewals against the server *)
Section exchanges.
Context {keys : KeyOps} {text : AddrText}.

(** One exchange: the client sends its token, the server answers at the times
    and with the hook of the environment, the client takes the answer. *)
Definition exchange (x : env * ClientInfo) (p : Connection * Server) : option (Connection * Server) :=
  match ServerAuth.renew x.1 (rs_Token (Response p.1)) (Some x.2) p.2 with
  | (Answered out, s, _) => Some (ClientSession.renew out p.1, s)
  | _ => None
  end.

(** The server between two renewals: other requests bring it to any state. *)
Inductive turn : Type :=
  | Renewal (e : env) (info : ClientInfo)
  | Others (s : Server).

Definition take_turn (x : turn) (p : Connection * Server) : option (Connection * Server) :=
  match x with Renewal e info => exchange (e, info) p | Others s => Some (p.1, s) end.

Fixpoint exchanges (xs : list turn) (p : Connection * Server) : option (Connection * Server) :=
  match xs with
  | [] => Some p
  | x :: xs => p ← take_turn x p; exchanges xs p
  end.

(** The server holds the client's session, since [created], under its token
    and with its address. *)
Definition linked (created : Z) (p : Connection * Server) : Prop :=
  exists v, sessions p.2 !! rs_Token (Response p.1) = Some v
    /\ ss_TunnelIP v = rs_TunnelIP (Response p.1) /\ ss_Expires v = created + rs_TTL (Response p.1).

(** The hook lets the session be. *)
Definition allowed (e : env) (s : Server) : Prop :=
  exists r, Authorize (config s) (hook_answer e) = Some r /\ az_Allow r = true.

(** Each exchange comes when it is due and while the session is allowed; what
    the server does in between leaves this session in its table. *)
Fixpoint prompt (created : Z) (xs : list turn) (p : Connection * Server) : Prop :=
  match xs with
  | [] => True
  | Renewal e info :: xs =>
      3 * second <= rs_TTL (Response p.1) <= int64_max
      /\ t_since (clk e) <= due created (Response p.1) /\ t_first (clk e) <= due created (Response p.1)
      /\ allowed e p.2
      /\ forall q, exchange (e, info) p = Some q -> prompt (t_create (clk e)) xs q
  | Others s :: xs =>
      sessions s !! rs_Token (Response p.1) = sessions p.2 !! rs_Token (Response p.1) /\ prompt created xs (p.1, s)
  end.

Lemma Get_live now t s v : s !! t = Some v -> now <= ss_Expires v -> Get now t s = Some v.
Proof. intros Hv He. unfold Get, expired, time_after. rewrite Hv. by rewrite (proj2 (Z.ltb_ge _ _)). Qed.

Lemma allowed_authorize e s gs : allowed e s -> authorize (config s) (hook_answer e) gs <> None.
Proof. intros (r & Hr & Ha). unfold authorize. rewrite Hr, Ha. done. Qed.

Lemma addPeer_sessions e k ip s : sessions (addPeer e k ip s).2 = sessions s /\ config (addPeer e k ip s).2 = config s.
Proof. by destruct (addPeer_rest e k ip s) as (? & _ & ?). Qed.

(** What the answer to a renewal leaves out, and the session it names. *)
Lemma renew_answers e token info s old :
  sessions s !! token = Some old -> t_since (clk e) <= ss_Expires old -> t_first (clk e) <= ss_Expires old -> allowed e s ->
  exists a s' evs v, ServerAuth.renew e token (Some info) s = (Answered a, s', evs)
    /\ rs_TunnelIP a = "" /\ rs_ServerTunnelIP a = "" /\ rs_ServerPublicKey a = "" /\ rs_WebSocket a = ""
    /\ sessions s' !! rs_Token a = Some v /\ ss_TunnelIP v = ss_TunnelIP old
    /\ ss_Expires v = t_create (clk e) + rs_TTL a.
Proof.
  intros Hold H1 H2 Hal. unfold ServerAuth.renew. rewrite !(Get_live _ _ _ _ Hold) by done. cbv zeta.
  pose proof (allowed_authorize e s (ss_Tunnels old ≫= (fun p => config_named (config s) (tn_Name p))) Hal) as Ha.
  destruct (authorize _ _ _) as [[kept ttl]|]; [|done]. clear Ha.
  match goal with |- context [Create ?i ?t ?now ?q ?T] => set (q0 := q) end. simpl.
  eexists _, _, _, _. split; [reflexivity|]. simpl. do 4 (split; [done|]). split; [|split; [|]].
  { match goal with |- context [if negb _ then _ else ?s2] => set (s2' := s2) end.
  assert (H : sessions (if negb (ss_WireGuardPublicKey old =? "")%string
             then (addPeer e (ss_WireGuardPublicKey old) (ss_TunnelIP old) s2').2 else s2') = sessions s2')
    by (destruct (negb _); [apply addPeer_sessions|done]).
  rewrite H. apply lookup_insert_eq. }
  all: done.
Qed.

Lemma exchange_linked created x c s :
  closed c = false -> linked created (c, s) ->
  3 * second <= rs_TTL (Response c) <= int64_max ->
  t_since (clk x.1) <= due created (Response c) -> t_first (clk x.1) <= due created (Response c) -> allowed x.1 s ->
  exists out s', exchange x (c, s) = Some (ClientSession.renew out c, s')
    /\ rs_TunnelIP out = "" /\ rs_ServerTunnelIP out = "" /\ rs_ServerPublicKey out = "" /\ rs_WebSocket out = ""
    /\ linked (t_create (clk x.1)) (ClientSession.renew out c, s').
Proof.
  intros Hc (v & Hv & Hip & He) Ht H1 H2 Ha. pose proof (due_in_time created (Response c) Ht) as [_ Hd]. simpl in *.
  destruct (renew_answers x.1 _ x.2 s v Hv) as (a & s' & evs & w & Hr & Ea & Eb & Ec & Ed & Hw & Hwip & Hwe); [lia..|done|].
  exists a, s'. unfold exchange. simpl. rewrite Hr. split; [done|]. split_and!; try done.
  exists w. unfold ClientSession.renew. rewrite Hc. simpl. unfold keep_string. rewrite Ea. simpl. split_and!; [done|congruence|done].
Qed.

(** C29: A session that is renewed when it is due is not lost.  As long as
    every answer's lifetime is three seconds or more, the hook allows the
    session at each renewal, and nothing else ends or changes it in between
    (no revocation, disconnection, reload, reaping or cap touches it in the
    server's table, whatever happens to the others), any number of renewals,
    each at most a third of the lifetime late, is answered; the token the
    client then holds names a live session with the client's tunnel address
    and the lifetime of the last answer; and the client still has the
    addresses, the server's key and the WebSocket of its first answer, which
    the answers to renewals leave out. *)
Theorem renewals_keep_session created xs c s :
  closed c = false -> linked created (c, s) -> prompt created xs (c, s) ->
  exists c' s', exchanges xs (c, s) = Some (c', s')
    /\ (exists created', linked created' (c', s'))
    /\ rs_TunnelIP (Response c') = rs_TunnelIP (Response c)
    /\ rs_ServerTunnelIP (Response c') = rs_ServerTunnelIP (Response c)
    /\ rs_ServerPublicKey (Response c') = rs_ServerPublicKey (Response c)
    /\ rs_WebSocket (Response c') = rs_WebSocket (Response c).
Proof.
  induction xs as [|x xs IH] in created, c, s |- *; intros Hc Hl Hp.
  { exists c, s. split_and!; try done. by exists created. }
  destruct x as [e info|s'].
  2: { destruct Hp as [Hsame Hp]. apply (IH created); [done| |done]. destruct Hl as (v & Hv & Hrest). exists v. by rewrite <-Hsame in Hv. }
  destruct Hp as (Ht & H1 & H2 & Ha & Hp). simpl fst in *. simpl snd in *.
  destruct (exchange_linked created (e, info) c s Hc Hl Ht H1 H2 Ha) as (out & s' & Hx & Ea & Eb & Ec & Ed & Hl').
  specialize (Hp _ Hx). assert (Hren : ClientSession.renew out c = set_response (renew_response (Response c) out) c).
  { unfold ClientSession.renew. by rewrite Hc. }
  rewrite Hren in *. cbn [exchanges take_turn]. rewrite Hx. cbn [mbind option_bind].
  destruct (IH (t_create (clk e)) (set_response (renew_response (Response c) out) c) s' Hc Hl' Hp) as (c' & s'' & Hxs & Hlk & F1 & F2 & F3 & F4).
  exists c', s''. split; [done|]. split; [done|].
  rewrite F1, F2, F3, F4. simpl. unfold keep_string. rewrite Ea, Eb, Ec, Ed. done.
Qed.
End exchanges.

(** The toy server's first user renews twice; the second user's session ends
    in between. *)
Definition toy_client : Connection :=
  set_response (mkResponse "i4" "k4" (toy_String (v4 100 64 0 2)) "" "" (15 * minute) [] "" "wss://x" "" "" "" false false [])
    toy_connection.

Definition toy_begin : Connection * Server := (toy_client, after toy_ops toy_start).

Definition toy_renewal (k : Z) (id token : string) : turn := Renewal (toy_env (minute + k * 15 * second) id token) toy_info.

Definition toy_first_renewed : Connection * Server := default toy_begin (take_turn (toy_renewal 1 "i5" "k5") toy_begin).

Definition toy_others : Server := with_sessions (delete "k2"%string) toy_first_renewed.2.

Definition toy_turns : list turn := [toy_renewal 1 "i5" "k5"; Others toy_others; toy_renewal 2 "i6" "k6"].

Lemma renewals_keep_session_witness :
  exists c' s', exchanges toy_turns toy_begin = Some (c', s') /\ rs_TunnelIP (Response c') = rs_TunnelIP (Response toy_client).
Proof.
  assert (Hl : linked minute toy_begin).
  { unfold linked. eexists. vm_compute. split; [reflexivity|]. split; reflexivity. }
  destruct (renewals_keep_session minute toy_turns toy_client (after toy_ops toy_start)) as (c' & s' & H1 & _ & H2 & _).
  - reflexivity.
  - exact Hl.
  - split; [vm_compute; split; discriminate|]. split; [vm_compute; discriminate|]. split; [vm_compute; discriminate|].
    split; [eexists; vm_compute; split; reflexivity|]. intros q Hq.
    assert (q = toy_first_renewed) as ->.
    { unfold toy_first_renewed, toy_renewal, take_turn. fold toy_begin in Hq. by rewrite Hq. }
    split; [vm_compute; reflexivity|].
    split; [vm_compute; split; discriminate|]. split; [vm_compute; discriminate|]. split; [vm_compute; discriminate|].
    split; [eexists; vm_compute; split; reflexivity|]. intros q' _. exact I.
  - exists c', s'. split; [exact H1|exact H2].
Defined.
