(* ===== verification/TunnelPlane.v ===== *)
(** [pkg/server/dataplane.go]: the listeners of the tunnels inside the
    WireGuard network and how a reload reconciles them.

    The listener set changes under [operationMu], so [listenTunnel],
    [reloadTunnels] and [Close] are functions.  The network stack answers
    each listen through an argument, the range over a map has its order from
    one.  What goes through the listeners is the matter of [Forwarding]. *)
From S2P Require Import Prelude Bytes Netip Sessions Egress SocksServer ServerAuth ServerTable ServerSteps ServerToy.

(** ** Configuration *)
Record SocksConfig := mkSocks {
  so_Transparent : bool;
  so_OnlyLocal : bool;
  so_Filters : list string;
  so_DomainFilters : list string;
  so_ASNFilters : list Z;
  so_ASNUpdates : option bool;
  so_ASNURL : string;
  so_ReverseFilters : bool;
  so_DNSTimeout : Z;
  so_AllowAll : bool;
  so_AllowBind : bool;
  so_AllowLocalEgress : bool;
  so_Upstream : string;
  so_UDPIdleTimeout : Z;
  so_NonNil : bool * bool * bool;  (* of the three filter slices, which are not nil *)
}.

#[export] Instance socks_config_eq : EqDecision SocksConfig.
Proof. solve_decision. Defined.

(** A tunnel with its [socks] block. *)
Record tunnel := mkT { t_config : TunnelConfig; t_Socks : option SocksConfig }.

Definition t_name (t : tunnel) : string := tc_Name (t_config t).
Definition socksTarget : string := "socks".
Definition IsSocks (t : tunnel) : bool := (tc_Target (t_config t) =? socksTarget)%string.
Definition is_udp (t : tunnel) : bool := (tc_Protocol (t_config t) =? "udp")%string.

(** Where a tunnel listens on the server's address. *)
Definition slot (t : tunnel) : bool * Z := (is_udp t, tc_VirtualPort (t_config t)).

Definition WantsASNUpdates (c : SocksConfig) : bool :=
  match so_ASNUpdates c with Some b => b | None => negb (bool_decide (so_ASNFilters c = [])) end.

Definition deniesAllByDefault (c : SocksConfig) : bool :=
  negb (so_OnlyLocal c) && negb (so_AllowAll c)
  && bool_decide (so_Filters c = []) && bool_decide (so_DomainFilters c = []) && bool_decide (so_ASNFilters c = [])
  && negb (so_ReverseFilters c).

(** [socksConfigChanged] compares pointers when one is nil, and otherwise with
    [reflect.DeepEqual], which tells an empty slice from a nil one. *)
Definition socksConfigChanged (a b : option SocksConfig) : bool := negb (bool_decide (a = b)).

(** ** Listeners *)
Record tunnelListener := mkListener { tl_sock : nat; tl_config : tunnel; tl_socks : option Filter }.

(** [bound] are the sockets open on the server's tunnel address. *)
Record plane := mkPlane { bound : gmap nat (bool * Z); listeners : gmap string tunnelListener }.

Section listeners.
Context {E : Type} (ParsePrefix : string -> result E Prefix) (asn : option ASNLookup) (upstream_ok : string -> bool).

Definition socks_filter (c : SocksConfig) : FilterConfig :=
  mkConfig (so_OnlyLocal c) (so_Filters c) (so_DomainFilters c) (so_ASNFilters c) (so_ReverseFilters c)
    (so_AllowAll c) (so_AllowLocalEgress c).

Definition newSocksRuntime (t : tunnel) : option Filter :=
  match t_Socks t with
  | None => None
  | Some c =>
      if so_Transparent c then None
      else if negb (so_Upstream c =? "")%string && negb (upstream_ok (so_Upstream c)) then None
      else match NewFilter ParsePrefix (socks_filter c) asn with Ok f => Some f | Err _ => None end
  end.

(** The stack refuses a port that is taken; [ok] is its answer otherwise. *)
Definition taken (k : bool * Z) (m : gmap nat (bool * Z)) : bool := existsb (fun x => bool_decide (x.2 = k)) (map_to_list m).

Definition listenTunnel (t : tunnel) (sock : nat) (ok : bool) (p : plane) : option plane :=
  if negb ok || taken (slot t) (bound p) then None
  else
    let tl := mkListener sock t (if negb (is_udp t) && IsSocks t then newSocksRuntime t else None) in
    Some (mkPlane (<[sock := slot t]> (bound p)) (<[t_name t := tl]> (listeners p))).

Definition closeTunnelListener (tl : tunnelListener) (p : plane) : plane :=
  mkPlane (delete (tl_sock tl) (bound p)) (listeners p).

(** [reloadTunnels]: the configuration by name, the listeners that no longer
    fit it, and the tunnels left without one. *)
Definition wanted_of (newTunnels : list tunnel) : gmap string tunnel :=
  foldl (fun m t => <[t_name t := t]> m) ∅ newTunnels.

Definition changed (nt : tunnel) (tl : tunnelListener) : bool :=
  let n := t_config nt in
  let o := t_config (tl_config tl) in
  negb (tc_DestinationPolicy n =? tc_DestinationPolicy o)%string
  || negb (tc_VirtualPort n =? tc_VirtualPort o) || negb (tc_Target n =? tc_Target o)%string
  || negb (tc_Protocol n =? tc_Protocol o)%string || negb (tc_UDPIdleTimeout n =? tc_UDPIdleTimeout o)
  || socksConfigChanged (t_Socks nt) (t_Socks (tl_config tl)).

Definition stale (wanted : gmap string tunnel) (name : string) (tl : tunnelListener) : bool :=
  match wanted !! name with Some nt => changed nt tl | None => true end.

Definition toClose (wanted : gmap string tunnel) (p : plane) : list tunnelListener :=
  (filter (fun x => stale wanted x.1 x.2 = true) (map_to_list (listeners p))).*2.

Definition drop_stale (wanted : gmap string tunnel) (p : plane) : plane :=
  mkPlane (bound p) (filter (fun x => stale wanted x.1 x.2 = false) (listeners p)).

(** [order] is the order of the range over [wanted]; [answers] are what the
    stack says to each listen in turn. *)
Definition toOpen (order : gmap string tunnel -> list string) (wanted : gmap string tunnel) (p : plane) : list tunnel :=
  filter (fun t => listeners p !! t_name t = None) (omap (fun n => wanted !! n) (order wanted)).

Fixpoint open_all (ts : list tunnel) (answers : list (nat * bool)) (p : plane) : plane :=
  match ts, answers with
  | t :: ts, (sock, ok) :: answers => open_all ts answers (default p (listenTunnel t sock ok p))
  | _, _ => p
  end.

Definition reloadTunnels (order : gmap string tunnel -> list string) (answers : list (nat * bool))
    (newTunnels : list tunnel) (p : plane) : plane :=
  let wanted := wanted_of newTunnels in
  let closing := toClose wanted p in
  let p := drop_stale wanted p in
  let opening := toOpen order wanted p in
  open_all opening answers (foldr closeTunnelListener p closing).

(** [StartDataPlane] opens all or fails; [Close] closes all. *)
Fixpoint listen_all (ts : list tunnel) (answers : list (nat * bool)) (p : plane) : option plane :=
  match ts, answers with
  | t :: ts, (sock, ok) :: answers => p ← listenTunnel t sock ok p; listen_all ts answers p
  | [], _ => Some p
  | _, [] => None
  end.

Definition close_all (p : plane) : plane :=
  mkPlane (bound (foldr closeTunnelListener p (map_to_list (listeners p)).*2)) (listeners p).
End listeners.

(** ** The listener set *)

(** Every listener has its own open socket, on its tunnel's port; what else is
    open are [others], such as the DNS server's; no port is open twice. *)
Record plane_ok (others : gmap nat (bool * Z)) (p : plane) : Prop := mkPlaneOk {
  po_listener : forall name tl, listeners p !! name = Some tl ->
    t_name (tl_config tl) = name /\ bound p !! tl_sock tl = Some (slot (tl_config tl)) /\ others !! tl_sock tl = None;
  po_own : forall n m tl tm, listeners p !! n = Some tl -> listeners p !! m = Some tm -> tl_sock tl = tl_sock tm -> n = m;
  po_bound : forall s k, bound p !! s = Some k ->
    others !! s = Some k \/ exists name tl, listeners p !! name = Some tl /\ tl_sock tl = s;
  po_others : forall s k, others !! s = Some k -> bound p !! s = Some k;
  po_ports : forall s r k, bound p !! s = Some k -> bound p !! r = Some k -> s = r;
}.

Lemma taken_true k m : taken k m = true <-> exists s, m !! s = Some k.
Proof.
  unfold taken. rewrite existsb_exists. split.
  - intros ([s k'] & Hin%list_elem_of_In%elem_of_map_to_list & Hk%bool_decide_eq_true). simpl in Hk. subst. by exists s.
  - intros [s Hs]. exists (s, k). split; [by apply list_elem_of_In, elem_of_map_to_list|by apply bool_decide_eq_true].
Qed.

Section reconcile.
Context {E : Type} (ParsePrefix : string -> result E Prefix) (asn : option ASNLookup) (upstream_ok : string -> bool).
Context (others : gmap nat (bool * Z)).

Lemma listenTunnel_some t sock ok p p' :
  listenTunnel ParsePrefix asn upstream_ok t sock ok p = Some p' ->
  exists tl, tl_sock tl = sock /\ tl_config tl = t /\ listeners p' = <[t_name t := tl]> (listeners p)
    /\ bound p' = <[sock := slot t]> (bound p) /\ forall s, bound p !! s <> Some (slot t).
Proof.
  unfold listenTunnel. destruct (negb ok || taken (slot t) (bound p)) eqn:H; [done|]. intros [= <-].
  apply orb_false_iff in H as [_ Ht]. eexists. split_and!; [| |done|done|]; [done|done|].
  intros s Hs. by rewrite (proj2 (taken_true _ _)) in Ht by eauto.
Qed.

Lemma listenTunnel_ok t sock ok p p' :
  plane_ok others p -> bound p !! sock = None -> listeners p !! t_name t = None ->
  listenTunnel ParsePrefix asn upstream_ok t sock ok p = Some p' -> plane_ok others p'.
Proof.
  intros [] Hs Hn (tl & Htl & Htc & Hl & Hb & Hfree)%listenTunnel_some.
  assert (Hno : others !! sock = None).
  { destruct (others !! sock) eqn:Ho; [|done]. apply po_others0 in Ho. congruence. }
  constructor; rewrite ?Hl, ?Hb.
  - intros name x [[<- <-]|[Hne Hx]]%lookup_insert_Some.
    + rewrite Htl, Htc, lookup_insert_eq. done.
    + destruct (po_listener0 _ _ Hx) as (H1 & H2 & H3). split_and!; [done| |done].
      rewrite lookup_insert_ne; [done|]. congruence.
  - intros n m x y [[<- <-]|[Hne Hx]]%lookup_insert_Some [[<- <-]|[Hne' Hy]]%lookup_insert_Some; intros Heq; try done.
    + destruct (po_listener0 _ _ Hy) as (_ & H2 & _). congruence.
    + destruct (po_listener0 _ _ Hx) as (_ & H2 & _). congruence.
    + eauto.
  - intros s k [[<- <-]|[Hne Hk]]%lookup_insert_Some.
    + right. exists (t_name t), tl. by rewrite lookup_insert_eq.
    + destruct (po_bound0 _ _ Hk) as [H|(n & x & Hx & <-)]; [by left|]. right. exists n, x.
      rewrite lookup_insert_ne; [done|]. congruence.
  - intros s k Hk. rewrite lookup_insert_ne; [eauto|]. congruence.
  - intros s r k [[<- <-]|[Hne Hk]]%lookup_insert_Some [[<- He]|[Hne' Hr]]%lookup_insert_Some; try done.
    + by apply Hfree in Hr.
    + subst. by apply Hfree in Hk.
    + eauto.
Qed.

Lemma close_bound closing p s :
  bound (foldr closeTunnelListener p closing) !! s = if bool_decide (s ∈ tl_sock <$> closing) then None else bound p !! s.
Proof.
  induction closing as [|tl l IH]; [done|]. simpl. destruct (decide (tl_sock tl = s)) as [->|Hne].
  - rewrite lookup_delete_eq. by rewrite bool_decide_eq_true_2 by set_solver.
  - rewrite lookup_delete_ne by done. rewrite IH.
    assert (Hiff : s ∈ tl_sock <$> l <-> s ∈ tl_sock tl :: (tl_sock <$> l)) by (rewrite elem_of_cons; naive_solver).
    by rewrite (bool_decide_ext _ _ Hiff).
Qed.

Lemma close_listeners closing p : listeners (foldr closeTunnelListener p closing) = listeners p.
Proof. by induction closing. Qed.

Lemma elem_of_toClose wanted p tl :
  tl ∈ toClose wanted p <-> exists n, listeners p !! n = Some tl /\ stale wanted n tl = true.
Proof.
  unfold toClose. rewrite list_elem_of_fmap. split.
  - intros ([n x] & -> & [Hs Hin%elem_of_map_to_list]%list_elem_of_filter). by exists n.
  - intros (n & Hn & Hs). exists (n, tl). split; [done|]. apply list_elem_of_filter. by rewrite elem_of_map_to_list.
Qed.

(** The plane between the closes and the opens. *)
Definition kept (wanted : gmap string tunnel) (p : plane) : plane :=
  foldr closeTunnelListener (drop_stale wanted p) (toClose wanted p).

Lemma kept_listeners wanted p n tl :
  listeners (kept wanted p) !! n = Some tl <-> listeners p !! n = Some tl /\ stale wanted n tl = false.
Proof. unfold kept. rewrite close_listeners. simpl. by rewrite map_lookup_filter_Some. Qed.

Lemma kept_ok wanted p : plane_ok others p -> plane_ok others (kept wanted p).
Proof.
  intros Hok. assert (Hb : forall s k, bound (kept wanted p) !! s = Some k <->
      bound p !! s = Some k /\ forall n tl, listeners p !! n = Some tl -> tl_sock tl = s -> stale wanted n tl = false).
  { intros s k. unfold kept. rewrite close_bound. simpl.
    destruct (bool_decide_reflect (s ∈ tl_sock <$> toClose wanted p)) as [Hin|Hin].
    - apply list_elem_of_fmap in Hin as (tl & -> & (n & Hn & Hs)%elem_of_toClose). split; [done|].
      intros [_ H]. by rewrite (H n tl Hn eq_refl) in Hs.
    - split; [|by intros [? _]]. intros Hk. split; [done|]. intros n tl Hn <-.
      destruct (stale wanted n tl) eqn:Hs; [|done]. exfalso. apply Hin, list_elem_of_fmap. exists tl. split; [done|].
      apply elem_of_toClose. eauto. }
  destruct Hok. constructor.
  - intros n tl [Hn Hs]%kept_listeners. destruct (po_listener0 _ _ Hn) as (H1 & H2 & H3). split_and!; try done.
    apply Hb. split; [done|]. intros m tm Hm Heq. assert (m = n) as -> by eauto. congruence.
  - intros n m tl tm [Hn _]%kept_listeners [Hm _]%kept_listeners. eauto.
  - intros s k [Hk Hst]%Hb. destruct (po_bound0 _ _ Hk) as [H|(n & tl & Hn & <-)]; [by left|]. right. exists n, tl.
    split; [|done]. apply kept_listeners. eauto.
  - intros s k Hk. apply Hb. split; [eauto|]. intros n tl Hn <-. destruct (po_listener0 _ _ Hn) as (_ & _ & H). congruence.
  - intros s r k [Hs _]%Hb [Hr _]%Hb. eauto.
Qed.

Lemma wanted_acc l (m : gmap string tunnel) n t :
  foldl (fun m t => <[t_name t := t]> m) m l !! n = Some t -> (t ∈ l /\ t_name t = n) \/ m !! n = Some t.
Proof.
  induction l as [|x l IH] in m |- *; simpl; [by right|]. intros [[Hin Hn]|H]%IH; [left; set_solver|].
  apply lookup_insert_Some in H as [[<- <-]|[_ H]]; [left; set_solver|by right].
Qed.

Lemma wanted_name l n t : wanted_of l !! n = Some t -> t ∈ l /\ t_name t = n.
Proof. intros [H|H]%wanted_acc; [done|]. by rewrite lookup_empty in H. Qed.

Lemma wanted_is l t (m : gmap string tunnel) :
  NoDup (t_name <$> l) -> t ∈ l -> foldl (fun m t => <[t_name t := t]> m) m l !! t_name t = Some t.
Proof.
  induction l as [|x l IH] in m |- *; [set_solver|]. rewrite fmap_cons. intros [Hx Hn]%NoDup_cons Hin. simpl.
  apply elem_of_cons in Hin as [->|Hin]; [|by apply IH].
  assert (Hk : forall m : gmap string tunnel, m !! t_name x = Some x -> foldl (fun m t => <[t_name t := t]> m) m l !! t_name x = Some x).
  { clear -Hx. induction l as [|y l IH]; intros m Hm; [done|]. simpl. apply IH; [set_solver|].
    rewrite lookup_insert_ne; [done|]. intros Heq. apply Hx. rewrite <-Heq. apply list_elem_of_fmap. exists y. set_solver. }
  apply Hk, lookup_insert_eq.
Qed.

(** A range over a map visits every key once. *)
Definition visits (order : gmap string tunnel -> list string) : Prop :=
  forall m, NoDup (order m) /\ forall n, n ∈ order m <-> is_Some (m !! n).

Lemma elem_of_toOpen order wanted p t :
  visits order -> (forall n t, wanted !! n = Some t -> t_name t = n) ->
  t ∈ toOpen order wanted p <-> wanted !! t_name t = Some t /\ listeners p !! t_name t = None.
Proof.
  intros Hv Hw. unfold toOpen. rewrite list_elem_of_filter, list_elem_of_omap. split.
  - intros [Hl (n & _ & Hn)]. by rewrite <-(Hw n t Hn) in Hn.
  - intros [Hw' Hl]. split; [done|]. exists (t_name t). split; [|done]. apply Hv. eauto.
Qed.

Lemma toOpen_NoDup order wanted p :
  visits order -> (forall n t, wanted !! n = Some t -> t_name t = n) -> NoDup (t_name <$> toOpen order wanted p).
Proof.
  intros Hv Hw. unfold toOpen.
  assert (Hs : forall l, NoDup l -> NoDup (t_name <$> omap (fun n => wanted !! n) l)
             /\ forall n, n ∈ (t_name <$> omap (fun n => wanted !! n) l) -> n ∈ l).
  { induction l as [|n l IH]; [by split; [constructor|]|]. intros [Hn Hl]%NoDup_cons. destruct (IH Hl) as [H1 H2].
    simpl. destruct (wanted !! n) as [t|] eqn:Ht; [|split; [done|]; intros m Hm; right; eauto].
    rewrite fmap_cons, (Hw n t Ht). split; [constructor; [by intros H%H2|done]|]. intros m [->|Hm]%elem_of_cons; [by left|].
    right. eauto. }
  destruct (Hv wanted) as [Hn _]. destruct (Hs _ Hn) as [H _]. eapply sublist_NoDup; [exact H|].
  apply fmap_sublist, sublist_filter.
Qed.

Lemma fmap_inj {A B} (f : A -> B) l x y : NoDup (f <$> l) -> x ∈ l -> y ∈ l -> f x = f y -> x = y.
Proof.
  intros Hn [i Hi]%list_elem_of_lookup [j Hj]%list_elem_of_lookup Heq.
  assert (i = j) as ->; [|congruence]. eapply NoDup_lookup; [exact Hn|..]; rewrite list_lookup_fmap.
  - by rewrite Hi.
  - rewrite Hj. simpl. by rewrite Heq.
Qed.

(** The listens of a reload: what was there stays, what comes is asked for. *)
Lemma open_all_ok ts answers p :
  plane_ok others p -> NoDup answers.*1 -> (forall s, s ∈ answers.*1 -> bound p !! s = None) ->
  NoDup (t_name <$> ts) -> (forall t, t ∈ ts -> listeners p !! t_name t = None) ->
  let p' := open_all ParsePrefix asn upstream_ok ts answers p in
  plane_ok others p'
  /\ (forall n tl, listeners p' !! n = Some tl -> listeners p !! n = Some tl \/ tl_config tl ∈ ts)
  /\ (forall n tl, listeners p !! n = Some tl -> listeners p' !! n = Some tl)
  /\ ((length ts <= length answers)%nat -> Forall (fun a => a.2 = true) answers -> NoDup (slot <$> ts) ->
      (forall t s, t ∈ ts -> bound p !! s <> Some (slot t)) -> forall t, t ∈ ts -> is_Some (listeners p' !! t_name t)).
Proof.
  induction ts as [|t ts IH] in answers, p |- *; intros Hok Hna Hfresh Hnt Hnew.
  { simpl. split_and!; try done; auto; set_solver. }
  destruct answers as [|[sock ok] answers].
  { simpl. split_and!; try done; auto. simpl. lia. }
  cbn [open_all]. rewrite fmap_cons in Hna. rewrite fmap_cons in Hnt. apply NoDup_cons in Hna as [Hs Hna]. apply NoDup_cons in Hnt as [Ht Hnt].
  destruct (listenTunnel _ _ _ t sock ok p) as [p1|] eqn:Hl; cbn [default].
  - pose proof (listenTunnel_ok t sock ok p p1 Hok (Hfresh sock ltac:(by left)) (Hnew t ltac:(by left)) Hl) as Hok1.
    apply listenTunnel_some in Hl as (tl & Htl & Htc & Hls & Hb & Hfree).
    destruct (IH answers p1) as (H1 & H2 & H3 & H4); try done.
    { intros s Hin. rewrite Hb, lookup_insert_ne; [apply Hfresh; by right|]. intros ->. done. }
    { intros x Hx. rewrite Hls, lookup_insert_ne; [apply Hnew; by right|]. intros Heq. apply Ht. rewrite Heq.
      apply list_elem_of_fmap. by exists x. }
    split_and!; [done| | |].
    + intros n x [Hx|Hx]%H2; [|right; by right]. rewrite Hls in Hx. apply lookup_insert_Some in Hx as [[<- <-]|[_ Hx]].
      * right. rewrite Htc. by left.
      * by left.
    + intros n x Hx. apply H3. rewrite Hls, lookup_insert_ne; [done|]. intros <-. rewrite Hnew in Hx by (by left). done.
    + intros Hlen [Ha Hall]%Forall_cons Hslots Hports x Hx. rewrite fmap_cons in Hslots. apply NoDup_cons in Hslots as [Hsl Hslots].
      apply elem_of_cons in Hx as [->|Hx].
      * exists tl. apply H3. by rewrite Hls, lookup_insert_eq.
      * apply H4; [simpl in Hlen; lia|done|done| |done]. intros y s Hy. rewrite Hb. intros [[<- He]|[_ Hk]]%lookup_insert_Some.
        -- apply Hsl. rewrite He. apply list_elem_of_fmap. by exists y.
        -- eapply Hports; [|exact Hk]. by right.
  - destruct (IH answers p) as (H1 & H2 & H3 & H4); try done.
    { intros s Hin. apply Hfresh. by right. }
    { intros x Hx. apply Hnew. by right. }
    split_and!; [done| |done|].
    + intros n x [Hx|Hx]%H2; [by left|right; by right].
    + intros _ [Ha _]%Forall_cons _ Hports. exfalso. simpl in Ha. subst ok. unfold listenTunnel in Hl. simpl in Hl.
      destruct (taken (slot t) (bound p)) eqn:Hk; [|done]. apply taken_true in Hk as [s Hk].
      eapply Hports; [|exact Hk]. by left.
Qed.

(** A tunnel whose listener stays keeps its port. *)
Lemma unchanged_slot t tl : changed t tl = false -> slot t = slot (tl_config tl).
Proof.
  unfold changed. rewrite !orb_false_iff. intros [[[[[_ Hp] _] Hpr] _] _].
  apply negb_false_iff in Hp, Hpr. apply Z.eqb_eq in Hp. apply String.eqb_eq in Hpr.
  unfold slot, is_udp. by rewrite Hp, Hpr.
Qed.

(** The listener runs with everything of the tunnel a connection reads. *)
Definition serves (t : tunnel) (tl : tunnelListener) : Prop :=
  let n := t_config t in
  let o := t_config (tl_config tl) in
  tc_VirtualPort o = tc_VirtualPort n /\ tc_Protocol o = tc_Protocol n /\ tc_Target o = tc_Target n
  /\ tc_DestinationPolicy o = tc_DestinationPolicy n /\ tc_UDPIdleTimeout o = tc_UDPIdleTimeout n
  /\ t_Socks (tl_config tl) = t_Socks t.

Lemma changed_serves t tl : changed t tl = false <-> serves t tl.
Proof.
  unfold changed, serves, socksConfigChanged. rewrite !orb_false_iff, !negb_false_iff, !String.eqb_eq, !Z.eqb_eq, bool_decide_eq_true.
  naive_solver.
Qed.

Lemma not_changed tl : changed (tl_config tl) tl = false.
Proof.
  unfold changed, socksConfigChanged. rewrite !String.eqb_refl, !Z.eqb_refl. simpl. by rewrite bool_decide_eq_true_2.
Qed.
End reconcile.

(** C10: A reload leaves exactly the listeners the configuration asks for.
    From any consistent listener set it ends in one, whatever the stack
    answers and in whatever order the map is ranged over: every socket on
    the tunnel address is a listener's or not a tunnel's at all, what listens
    runs with the port, protocol, target, policy, idle time and SOCKS block of
    a tunnel in the new configuration, and a tunnel of which none of these
    changed keeps its very listener.  When the stack has no
    objections of its own and the tunnels' ports are distinct and not taken by
    other services, each has its listener afterwards, also when two tunnels
    swap their ports. *)
Theorem reload_reconciles {E} (ParsePrefix : string -> result E Prefix) asn upstream_ok others order answers newTunnels p
    (Hok : plane_ok others p) (Hv : visits order) (Hids : NoDup answers.*1)
    (Hfresh : forall s, s ∈ answers.*1 -> bound p !! s = None) (Hnames : NoDup (t_name <$> newTunnels)) :
  let p' := reloadTunnels ParsePrefix asn upstream_ok order answers newTunnels p in
  plane_ok others p'
  /\ (forall n tl, listeners p' !! n = Some tl ->
        exists t, t ∈ newTunnels /\ t_name t = n /\ serves t tl)
  /\ (forall t tl, t ∈ newTunnels -> listeners p !! t_name t = Some tl -> serves t tl ->
        listeners p' !! t_name t = Some tl)
  /\ ((length newTunnels <= length answers)%nat -> Forall (fun a => a.2 = true) answers ->
      NoDup (slot <$> newTunnels) -> (forall t s, t ∈ newTunnels -> others !! s <> Some (slot t)) ->
      forall t, t ∈ newTunnels -> is_Some (listeners p' !! t_name t)).
Proof.
  intros p'. set (wanted := wanted_of newTunnels).
  assert (Hw : forall n t, wanted !! n = Some t -> t_name t = n) by (by intros n t [_ ?]%wanted_name).
  pose proof (kept_ok others wanted p Hok) as Hk.
  set (ts := toOpen order wanted (drop_stale wanted p)).
  assert (Hts : forall t, t ∈ ts <-> wanted !! t_name t = Some t /\ listeners (kept wanted p) !! t_name t = None).
  { intros t. unfold ts. rewrite elem_of_toOpen by done. unfold kept. by rewrite close_listeners. }
  assert (Hsub : forall x, x ∈ ts -> x ∈ newTunnels) by (intros x [Hx _]%Hts; by apply wanted_name in Hx as [? _]).
  assert (Hnd : NoDup (t_name <$> ts)) by (by apply toOpen_NoDup).
  destruct (open_all_ok ParsePrefix asn upstream_ok others ts answers (kept wanted p)) as (H1 & H2 & H3 & H4); try done.
  { intros s Hs. destruct (bound (kept wanted p) !! s) eqn:Hb; [|done]. unfold kept in Hb. rewrite close_bound in Hb.
    destruct (bool_decide _); [done|]. simpl in Hb. by rewrite Hfresh in Hb. }
  { intros t Ht. by apply Hts. }
  change (open_all ParsePrefix asn upstream_ok ts answers (kept wanted p)) with p' in *. split_and!; [done| | |].
  - intros n tl Hn. destruct (po_listener _ _ H1 _ _ Hn) as [Hname _].
    apply H2 in Hn as [[Hn Hs]%kept_listeners|Hin].
    + unfold stale in Hs. destruct (wanted !! n) as [t|] eqn:Ht; [|done]. apply wanted_name in Ht as [? ?].
      exists t. split_and!; [done|done|by apply changed_serves].
    + exists (tl_config tl). split_and!; [auto|done|apply changed_serves, not_changed].
  - intros t tl Hin Hl Hc%changed_serves. apply H3, kept_listeners. split; [done|]. unfold stale, wanted, wanted_of. by rewrite wanted_is.
  - intros Hlen Hans Hslots Hoth t Hin.
    assert (Hwt : wanted !! t_name t = Some t) by (unfold wanted, wanted_of; by rewrite wanted_is).
    destruct (listeners (kept wanted p) !! t_name t) as [tl|] eqn:Hl; [exists tl; by apply H3|].
    assert (Hinj : forall x y, x ∈ newTunnels -> y ∈ newTunnels -> slot x = slot y -> x = y)
      by (intros x y; by apply fmap_inj).
    apply H4; [|done| | |by apply Hts].
    + etrans; [|exact Hlen]. apply submseteq_length, NoDup_submseteq; [by eapply NoDup_fmap_1|done].
    + apply NoDup_fmap_2_strong; [by auto|by eapply NoDup_fmap_1].
    + intros x s Hx Hb. destruct (po_bound _ _ Hk _ _ Hb) as [Ho|(n & tl & Hn & Htl)]; [by eapply Hoth; [apply Hsub|]|].
      destruct (po_listener _ _ Hk _ _ Hn) as (Hname & Hb' & _). rewrite Htl, Hb in Hb'. assert (Hsx : slot x = slot (tl_config tl)) by congruence. clear Hb'.
      pose proof Hn as Hkn. apply kept_listeners in Hn as [Hn Hs]. unfold stale in Hs.
      destruct (wanted !! n) as [y|] eqn:Hy; [|done]. apply wanted_name in Hy as [Hyin Hyn].
      apply unchanged_slot in Hs. assert (y = x) as -> by (apply Hinj; auto; congruence).
      apply Hts in Hx as [_ Hx]. congruence.
Qed.

(** Two tunnels swap their ports, a third goes and a fourth comes. *)
Definition toy_t (name target : string) (port : Z) : tunnel :=
  mkT (ServerAuth.mkTunnel name target "" port "tcp" 0 0 "" ["*"] "" "" "") None.

Definition toy_dns : gmap nat (bool * Z) := {[0%nat := (true, 53)]}.

Definition toy_plane : plane :=
  default (mkPlane ∅ ∅)
    (listen_all toy_parse None (fun _ => true) [toy_t "a" "10.0.0.1:1" 8001; toy_t "b" "10.0.0.1:2" 8002; toy_t "c" "10.0.0.1:3" 8003]
       [(1, true); (2, true); (3, true)]%nat (mkPlane toy_dns ∅)).

Definition toy_reloaded_tunnels : list tunnel :=
  [toy_t "a" "10.0.0.1:1" 8002; toy_t "b" "10.0.0.1:2" 8001; toy_t "d" "10.0.0.1:4" 8004].

Definition toy_order (m : gmap string tunnel) : list string := (map_to_list m).*1.

Lemma toy_visits : visits toy_order.
Proof.
  intros m. split; [apply NoDup_fst_map_to_list|]. intros n. unfold toy_order. rewrite list_elem_of_fmap. split.
  - intros ([k t] & -> & H%elem_of_map_to_list). eauto.
  - intros [t Ht]. exists (n, t). split; [done|]. by apply elem_of_map_to_list.
Qed.

Lemma empty_plane_ok others :
  (forall s r k, others !! s = Some k -> others !! r = Some k -> s = r) -> plane_ok others (mkPlane others ∅).
Proof.
  intros Ho. constructor; simpl; try (intros *; rewrite lookup_empty; done); eauto.
Qed.

(** Start-up ends in a consistent set, and a close leaves the others. *)
Lemma listen_all_ok {E} (P : string -> result E Prefix) asn up others ts answers p p' :
  plane_ok others p -> NoDup answers.*1 -> (forall s, s ∈ answers.*1 -> bound p !! s = None) ->
  NoDup (t_name <$> ts) -> (forall t, t ∈ ts -> listeners p !! t_name t = None) ->
  listen_all P asn up ts answers p = Some p' -> plane_ok others p'.
Proof.
  induction ts as [|t ts IH] in answers, p |- *; intros Hok Hna Hfresh Hnt Hnew.
  { simpl. destruct answers; by intros [= <-]. }
  destruct answers as [|[sock ok] answers]; [done|].
  cbn [listen_all]. rewrite fmap_cons in Hna. rewrite fmap_cons in Hnt. apply NoDup_cons in Hna as [Hs Hna].
  apply NoDup_cons in Hnt as [Ht Hnt]. destruct (listenTunnel _ _ _ t sock ok p) as [p1|] eqn:Hl; [|done]. cbn [mbind option_bind].
  pose proof (listenTunnel_ok P asn up others t sock ok p p1 Hok (Hfresh sock ltac:(by left)) (Hnew t ltac:(by left)) Hl) as Hok1.
  apply listenTunnel_some in Hl as (tl & _ & _ & Hls & Hb & _). apply IH; try done.
  - intros s Hin. rewrite Hb, lookup_insert_ne; [apply Hfresh; by right|]. intros ->. done.
  - intros x Hx. rewrite Hls, lookup_insert_ne; [apply Hnew; by right|]. intros Heq. apply Ht. rewrite Heq.
    apply list_elem_of_fmap. by exists x.
Qed.

Lemma close_all_bound others p : plane_ok others p -> bound (close_all p) = others.
Proof.
  intros Hok. apply map_eq. intros s. unfold close_all. simpl. rewrite close_bound.
  destruct (bool_decide_reflect (s ∈ tl_sock <$> (map_to_list (listeners p)).*2)) as [Hin|Hin].
  - apply list_elem_of_fmap in Hin as (tl & -> & ([n x] & -> & Hx%elem_of_map_to_list)%list_elem_of_fmap).
    destruct (po_listener _ _ Hok _ _ Hx) as (_ & _ & Ho). simpl. by rewrite Ho.
  - destruct (bound p !! s) as [k|] eqn:Hb.
    + destruct (po_bound _ _ Hok _ _ Hb) as [Ho|(n & tl & Hn & <-)]; [done|]. exfalso. apply Hin, list_elem_of_fmap.
      exists tl. split; [done|]. apply list_elem_of_fmap. exists (n, tl). split; [done|]. by apply elem_of_map_to_list.
    + destruct (others !! s) as [k|] eqn:Ho; [|done]. apply (po_others _ _ Hok) in Ho. congruence.
Qed.

Lemma toy_plane_ok : plane_ok toy_dns toy_plane.
Proof.
  assert (Hl : listen_all toy_parse None (fun _ => true)
      [toy_t "a" "10.0.0.1:1" 8001; toy_t "b" "10.0.0.1:2" 8002; toy_t "c" "10.0.0.1:3" 8003]
      [(1, true); (2, true); (3, true)]%nat (mkPlane toy_dns ∅) = Some toy_plane) by (vm_compute; reflexivity).
  eapply listen_all_ok; [| | | | |exact Hl].
  - apply empty_plane_ok. unfold toy_dns. intros s r k [<- _]%lookup_singleton_Some [<- _]%lookup_singleton_Some. done.
  - apply (bool_decide_unpack _). vm_compute. exact I.
  - intros s Hs. apply lookup_singleton_None. intros <-. simpl in Hs. set_solver by lia.
  - apply (bool_decide_unpack _). vm_compute. exact I.
  - intros t _. apply lookup_empty.
Qed.

Lemma reload_reconciles_witness :
  let p' := reloadTunnels toy_parse None (fun _ => true) toy_order [(4, true); (5, true); (6, true)]%nat
              toy_reloaded_tunnels toy_plane in
  plane_ok toy_dns p' /\ is_Some (listeners p' !! "a"%string) /\ is_Some (listeners p' !! "d"%string).
Proof.
  destruct (reload_reconciles toy_parse None (fun _ => true) toy_dns toy_order [(4, true); (5, true); (6, true)]%nat
    toy_reloaded_tunnels toy_plane) as (H1 & _ & _ & H2).
  - exact toy_plane_ok.
  - exact toy_visits.
  - apply (bool_decide_unpack _). vm_compute. exact I.
  - intros s Hs. assert (Hc : s = 4%nat \/ s = 5%nat \/ s = 6%nat) by (simpl in Hs; set_solver).
    destruct Hc as [->|[->| ->]]; vm_compute; reflexivity.
  - apply (bool_decide_unpack _). vm_compute. exact I.
  - split; [exact H1|]. assert (H : forall t, t ∈ toy_reloaded_tunnels ->
      is_Some (listeners (reloadTunnels toy_parse None (fun _ => true) toy_order [(4, true); (5, true); (6, true)]%nat
              toy_reloaded_tunnels toy_plane) !! t_name t)).
    + apply H2; [simpl; lia|by repeat constructor|apply (bool_decide_unpack _); vm_compute; exact I|].
      intros t s Ht Hs. unfold toy_dns in Hs. apply lookup_singleton_Some in Hs as [_ Hs].
      unfold toy_reloaded_tunnels in Ht. rewrite !elem_of_cons in Ht.
      destruct Ht as [->|[->|[->|Ht]]]; [done..|by apply not_elem_of_nil in Ht].
    + split; [apply (H (toy_t "a" "10.0.0.1:1" 8002)); by left|
        apply (H (toy_t "d" "10.0.0.1:4" 8004)); right; right; by left].
Defined.

(** Two tunnels may be configured on one port; then only one of them is
    served, and which one the range over the map decides. *)
Example shared_port_unserved :
  let ts := [toy_t "a" "10.0.0.1:1" 8001; toy_t "b" "10.0.0.1:2" 8001] in
  let after order := reloadTunnels toy_parse None (fun _ => true) order [(1, true); (2, true)]%nat ts (mkPlane ∅ ∅) in
  (map_to_list (listeners (after (fun _ => ["a"; "b"]%string)))).*1 = ["a"%string]
  /\ (map_to_list (listeners (after (fun _ => ["b"; "a"]%string)))).*1 = ["b"%string].
Proof. vm_compute. split; reflexivity. Qed.
