(* ===== verification/Forwarding.v ===== *)
(** [pkg/server/dataplane.go]: what goes through the tunnels' listeners.

    A connection is accepted, its principal is looked up, its target is
    resolved, each address is put before the destination policies, and the
    first that passes is dialed: [proxy], [dialTargetContext],
    [proxyTransparentSocks].  A UDP tunnel keeps one connected socket for each
    source ([proxyUDP], [dialFixedUDP]), a SOCKS association one for each
    destination ([proxySocksUDP], [dialSocksUDP]).  Between any two steps the
    control plane may change sessions, peers, policies and listeners, and the
    policy table is read anew for each name, as the code does.  Bytes spliced
    once a target is dialed, counters and log lines are not modelled. *)
From stdpp Require Import pretty.
From S2P Require Import Prelude Bytes Netip Protocol Sessions Egress SocksServer ServerAuth ServerTable ServerSteps ServerToy.
From S2P Require Import ClientTransport TunnelPlane.

(** ** State *)

(** An outbound dial under way: the addresses left, and the policies, each
    with the host name it is told, still to be asked about the first. *)
Record call := mkCall {
  c_who : DataPlanePrincipal;
  c_tunnel : tunnel;
  c_udp : bool;
  c_port : Z;
  c_checks : list (string * string);
  c_names : list (string * string);
  c_todo : list Addr;
}.

(** A TCP connection on a tunnel: accepted; entered, its target not resolved
    yet; dialing; spliced to its target; or served by the SOCKS proxy. *)
Inductive tcp_conn : Type :=
  | Accepted (tl : tunnelListener) (host : string)
  | Entered (who : DataPlanePrincipal) (t : tunnel) (target : string)
  | Dialing (c : call)
  | Spliced (who : DataPlanePrincipal) (t : tunnel) (ip : Addr) (port : Z)
  | Serving (who : DataPlanePrincipal) (t : tunnel) (f : Filter).

Inductive stage : Type :=
  | Resolving (who : DataPlanePrincipal)
  | Calling (c : call).

(** The datagram a UDP loop is busy with. *)
Record pending := mkPending { q_src : string; q_key : string; q_data : list byte; q_stage : stage }.

(** [proxyUDP] of a listener, or [proxySocksUDP] of an association with its
    principal and filter. *)
Record loop := mkLoop {
  l_tunnel : tunnel;
  l_assoc : option (DataPlanePrincipal * Filter);
  l_closed : bool;
  l_flows : gmap string nat;
  l_pending : option pending;
}.

Definition is_assoc (l : loop) : bool := match l_assoc l with Some _ => true | None => false end.

(** A connected upstream socket with the source its answers go to: a
    [udpFlow], or the [flow] of a SOCKS association. *)
Record flow := mkFlow {
  fl_loop : nat;
  fl_key : string;
  fl_src : string;
  fl_who : DataPlanePrincipal;
  fl_ip : Addr;
  fl_port : Z;
  fl_socks : bool;
  fl_open : bool;
}.

Record sys := mkSys {
  srv : Server;
  policies : gmap string compiledPolicy;
  tunnels : list tunnel;
  plane_ : plane;
  conns : gmap nat tcp_conn;
  loops : gmap nat loop;
  flows : gmap nat flow;
}.

Inductive event : Type :=
  | EDial (who : DataPlanePrincipal) (t : tunnel) (udp : bool) (ip : Addr) (port : Z)
  | ESend (n f : nat) (src : string) (data : list byte)
  | EReply (n f : nat) (dst : string) (data : list byte).

Definition set_conns (m : gmap nat tcp_conn) (s : sys) : sys :=
  mkSys (srv s) (policies s) (tunnels s) (plane_ s) m (loops s) (flows s).
Definition set_loops (m : gmap nat loop) (s : sys) : sys :=
  mkSys (srv s) (policies s) (tunnels s) (plane_ s) (conns s) m (flows s).
Definition set_flows (m : gmap nat flow) (s : sys) : sys :=
  mkSys (srv s) (policies s) (tunnels s) (plane_ s) (conns s) (loops s) m.
Definition with_pending (q : option pending) (l : loop) : loop :=
  mkLoop (l_tunnel l) (l_assoc l) (l_closed l) (l_flows l) q.
Definition with_flows (m : gmap string nat) (l : loop) : loop :=
  mkLoop (l_tunnel l) (l_assoc l) (l_closed l) m (l_pending l).
Definition close_flow (fl : flow) : flow :=
  mkFlow (fl_loop fl) (fl_key fl) (fl_src fl) (fl_who fl) (fl_ip fl) (fl_port fl) (fl_socks fl) false.

Section forwarding.
Context {keys : KeyOps} {text : AddrText} (unicode_lower : list byte -> list byte).
Context (LookupPort : string -> string -> option Z) (url_Host : string -> option string).
Context {E : Type} (ParsePrefix : string -> result E Prefix) (asn : option ASNLookup) (upstream_ok : string -> bool).

Definition network (udp : bool) : string := if udp then "udp" else "tcp".

(** ** Dialing *)

(** One policy of [destinationAllowed]. *)
Definition approves (P : gmap string compiledPolicy) (who : DataPlanePrincipal) (t : tunnel) (udp : bool) (port : Z) (ip : Addr)
    (x : string * string) : bool :=
  (x.1 =? "")%string
  || match P !! x.1 with
     | None => false
     | Some c => dd_Allowed (decide_ unicode_lower c (mkContext who (t_name t) x.2 (network udp) ip port 0))
     end.

Definition next_address (c : call) : call :=
  mkCall (c_who c) (c_tunnel c) (c_udp c) (c_port c) (c_checks c) (c_checks c) (tl (c_todo c)).

Definition check (P : gmap string compiledPolicy) (c : call) : option call :=
  match c_todo c, c_names c with
  | ip :: _, x :: names =>
      Some (if approves P (c_who c) (c_tunnel c) (c_udp c) (c_port c) ip x
            then mkCall (c_who c) (c_tunnel c) (c_udp c) (c_port c) (c_checks c) names (c_todo c)
            else next_address c)
  | _, _ => None
  end.

(** The address that every policy has passed. *)
Definition ready (c : call) : option Addr :=
  match c_todo c, c_names c with ip :: _, [] => Some ip | _, _ => None end.

Definition checks_of (who : DataPlanePrincipal) (t : tunnel) (host : string) : list (string * string) :=
  [(pr_Policy who, host); (tc_DestinationPolicy (t_config t), host)].

(** [dialTargetContext] and [dialFixedUDP] up to the loop over the addresses.
    A literal address has no host name for the policies of a TCP dial. *)
Definition target_call (udp : bool) (who : DataPlanePrincipal) (t : tunnel) (target : string)
    (resolved : option (list Addr)) : option call :=
  '(host, portText) ← SplitHostPort target;
  port64 ← LookupPort (network udp) portText;
  let port := port64 mod 65536 in
  let start host ips := Some (mkCall who t udp port (checks_of who t host) (checks_of who t host) ips) in
  match ParseAddr host with
  | Some ip => start (if udp then host else "") [ip]
  | None => ips ← resolved; start host ips
  end.

(** ** TCP *)

(** [proxy] up to the dial; [None]: the connection is closed. *)
Definition enter (e : env) (tl : tunnelListener) (host : string) (s : sys) : option tcp_conn :=
  let t := tl_config tl in
  who ← principalForIP e host (srv s);
  if negb (bool_decide (t_name t ∈ pr_Tunnels who)) then None
  else if negb (IsSocks t) then Some (Entered who t (tc_Target (t_config t)))
  else
    so ← t_Socks t;
    if so_Transparent so then Entered who t <$> url_Host (so_Upstream so)
    else Serving who t <$> tl_socks tl.

Definition put_conn (k : nat) (c : option tcp_conn) (s : sys) : sys :=
  set_conns (match c with Some c => <[k := c]> (conns s) | None => delete k (conns s) end) s.

(** ** UDP *)

(** A datagram of a fixed tunnel before it has a flow. *)
Definition enter_udp (e : env) (t : tunnel) (src : string) (s : sys) : option DataPlanePrincipal :=
  '(host, _) ← SplitHostPort src;
  who ← principalForIP e host (srv s);
  if bool_decide (t_name t ∈ pr_Tunnels who) then Some who else None.

Definition tunnelConfig (name : string) (s : sys) : option tunnel :=
  List.find (fun t => (t_name t =? name)%string) (tunnels s).

(** [AuthorizeUDP] up to the policies, then [dialSocksUDP]: the tunnel as it
    is configured now, and as it was when the association began.  The
    [Authorize] callback wants the principal of its context. *)
Definition socks_call (ctx : option DataPlanePrincipal) (who : DataPlanePrincipal) (t : tunnel) (f : Filter) (hostname : string) (ip : Addr) (port : Z)
    (answer : option (list Addr)) (s : sys) : option call :=
  resolved ← (if addr_IsValid ip then Some ip else match answer with Some (a :: _) => Some a | _ => None end);
  if negb (Allowed f hostname resolved) then None
  else
    principal ← ctx;
    current ← tunnelConfig (t_name t) s;
    if negb (IsSocks current) then None
    else
      let checks := [(pr_Policy principal, hostname); (tc_DestinationPolicy (t_config current), hostname);
                     (pr_Policy who, ""%string); (tc_DestinationPolicy (t_config t), ""%string)] in
      Some (mkCall who t true port checks checks [resolved]).

(** [context.Background()], with which [proxySocksUDP] asks. *)
Definition Background : option DataPlanePrincipal := None.

Definition socks_key (hostname : string) (ip : Addr) (port : Z) : string :=
  if negb (hostname =? "")%string then (hostname ++ ":" ++ pretty port)%string
  else JoinHostPort (addr_String ip) port.

(** A loop takes datagram [data] from [src] under [key]: to its flow, or to a
    dial that begins at [st], if one may begin. *)
Definition take_datagram (n : nat) (l : loop) (src key : string) (data : list byte) (st : option stage) (s : sys) :
    list event * sys :=
  match l_flows l !! key with
  | Some f => ([ESend n f src data], s)
  | None =>
      match st with
      | None => ([], s)
      | Some st => ([], set_loops (<[n := with_pending (Some (mkPending src key data st)) l]> (loops s)) s)
      end
  end.

(** A loop whose dial of [ip] succeeded has a new flow, and sends. *)
Definition open_flow (n f : nat) (l : loop) (q : pending) (c : call) (ip : Addr) (s : sys) : list event * sys :=
  let fl := mkFlow n (q_key q) (q_src q) (c_who c) (Unmap ip) (c_port c) (is_assoc l) true in
  ([EDial (c_who c) (c_tunnel c) true (Unmap ip) (c_port c); ESend n f (q_src q) (q_data q)],
   set_flows (<[f := fl]> (flows s))
     (set_loops (<[n := with_pending None (with_flows (<[q_key q := f]> (l_flows l)) l)]> (loops s)) s)).

Definition put_stage (n : nat) (l : loop) (q : pending) (c : option call) (s : sys) : sys :=
  set_loops (<[n := with_pending
    (match c with Some c => Some (mkPending (q_src q) (q_key q) (q_data q) (Calling c)) | None => None end) l]> (loops s)) s.

(** A UDP listener of the plane has its loop. *)
Definition start_loop (tl : tunnelListener) (m : gmap nat loop) : gmap nat loop :=
  if is_udp (tl_config tl) && match m !! tl_sock tl with None => true | _ => false end
  then <[tl_sock tl := mkLoop (tl_config tl) None false ∅ None]> m else m.

Definition start_loops (p : plane) (m : gmap nat loop) : gmap nat loop := foldr start_loop m (map_to_list (listeners p)).*2.

(** ** Steps *)
Inductive label : Type :=
  | LControl (srv' : Server) (P : gmap string compiledPolicy) (ts : list tunnel)
  | LReload (order : gmap string tunnel -> list string) (answers : list (nat * bool)) (ts : list tunnel)
  | LAccept (k : nat) (name remote : string)
  | LEnter (k : nat) (e : env)
  | LResolve (k : nat) (answer : option (list Addr))
  | LCheck (k : nat)
  | LDial (k : nat) (ok : bool)
  | LGone (k : nat)
  | LAssociate (k n : nat)
  | LDatagram (n : nat) (e : env) (src : string) (data : list byte)
  | LResolveUDP (n : nat) (answer : option (list Addr))
  | LSocksDatagram (n : nat) (src : string) (data : list byte) (answer : option (list Addr))
  | LCheckUDP (n : nat)
  | LDialUDP (n f : nat) (ok : bool)
  | LReply (f : nat) (data : list byte)
  | LFlowEnd (f : nat)
  | LCloseAssociation (n : nat)
  | LLoopEnd (n : nat).

Definition free {A} (m : gmap nat A) (k : nat) : bool := match m !! k with None => true | _ => false end.

(** The loop may still read: its socket is open. *)
Definition reads (n : nat) (l : loop) (s : sys) : bool :=
  match l_assoc l with
  | None => negb (free (bound (plane_ s)) n)
  | Some _ => negb (l_closed l)
  end.

Definition quiet (s : sys) : list event * sys := ([], s).

(** [proxySocksUDP] receives a datagram. *)
Definition socks_datagram (n : nat) (src : string) (data : list byte) (answer : option (list Addr)) (s : sys) :
    option (list event * sys) :=
  match loops s !! n with
  | Some (mkLoop t (Some (who, f)) closed fs None as l) =>
      if negb (reads n l s) then None
      else
        match SplitHostPort src, parseSocksUDP data with
        | Some (host, _), Parsed hostname ip port payload =>
            Some (if (host =? addr_String (pr_TunnelIP who))%string
                  then take_datagram n l src (socks_key hostname ip port) payload
                         (Calling <$> socks_call Background who t f hostname ip port answer s) s
                  else quiet s)
        | _, OutOfRange => None
        | _, _ => Some (quiet s)
        end
  | _ => None
  end.

Definition step (l : label) (s : sys) : option (list event * sys) :=
  match l with
  | LControl srv' P ts => Some (quiet (mkSys srv' P ts (plane_ s) (conns s) (loops s) (flows s)))
  | LReload order answers ts =>
      if forallb (fun a => free (loops s) a.1 && free (bound (plane_ s)) a.1) answers then
        let p := reloadTunnels ParsePrefix asn upstream_ok order answers ts (plane_ s) in
        Some (quiet (mkSys (srv s) (policies s) (tunnels s) p (conns s) (start_loops p (loops s)) (flows s)))
      else None
  | LAccept k name remote =>
      match listeners (plane_ s) !! name with
      | Some tl =>
          if is_udp (tl_config tl) || negb (free (conns s) k) then None
          else Some (quiet (match SplitHostPort remote with
                            | Some (host, _) => put_conn k (Some (Accepted tl host)) s
                            | None => s
                            end))
      | None => None
      end
  | LEnter k e =>
      match conns s !! k with
      | Some (Accepted tl host) => Some (quiet (put_conn k (enter e tl host s) s))
      | _ => None
      end
  | LResolve k answer =>
      match conns s !! k with
      | Some (Entered who t target) => Some (quiet (put_conn k (Dialing <$> target_call false who t target answer) s))
      | _ => None
      end
  | LCheck k =>
      match conns s !! k with
      | Some (Dialing c) => (fun c => quiet (put_conn k (Some (Dialing c)) s)) <$> check (policies s) c
      | _ => None
      end
  | LDial k ok =>
      match conns s !! k with
      | Some (Dialing c) =>
          ip ← ready c;
          Some (if ok
                then ([EDial (c_who c) (c_tunnel c) false (Unmap ip) (c_port c)],
                      put_conn k (Some (Spliced (c_who c) (c_tunnel c) (Unmap ip) (c_port c))) s)
                else ([EDial (c_who c) (c_tunnel c) false (Unmap ip) (c_port c)], put_conn k (Some (Dialing (next_address c))) s))
      | _ => None
      end
  | LGone k => if free (conns s) k then None else Some (quiet (put_conn k None s))
  | LAssociate k n =>
      match conns s !! k with
      | Some (Serving who t f) =>
          if free (loops s) n && free (bound (plane_ s)) n
          then Some (quiet (set_loops (<[n := mkLoop t (Some (who, f)) false ∅ None]> (loops s)) s)) else None
      | _ => None
      end
  | LDatagram n e src data =>
      match loops s !! n with
      | Some (mkLoop t None closed fs None as l) =>
          if negb (reads n l s) then None
          else Some (match enter_udp e t src s with
                     | None => quiet s
                     | Some who => take_datagram n l src src data (Some (Resolving who)) s
                     end)
      | _ => None
      end
  | LResolveUDP n answer =>
      match loops s !! n with
      | Some l =>
          match l_pending l with
          | Some (mkPending _ _ _ (Resolving who) as q) =>
              Some (quiet (put_stage n l q (target_call true who (l_tunnel l) (tc_Target (t_config (l_tunnel l))) answer) s))
          | _ => None
          end
      | None => None
      end
  | LSocksDatagram n src data answer => socks_datagram n src data answer s
  | LCheckUDP n =>
      match loops s !! n with
      | Some l =>
          match l_pending l with
          | Some (mkPending _ _ _ (Calling c) as q) =>
              match c_todo c with
              | [] => Some (quiet (put_stage n l q None s))
              | _ => (fun c => quiet (put_stage n l q (Some c) s)) <$> check (policies s) c
              end
          | _ => None
          end
      | None => None
      end
  | LDialUDP n f ok =>
      match loops s !! n with
      | Some l =>
          match l_pending l with
          | Some (mkPending _ _ _ (Calling c) as q) =>
              ip ← ready c;
              if negb (free (flows s) f) then None
              else Some (if ok then open_flow n f l q c ip s
                         else ([EDial (c_who c) (c_tunnel c) true (Unmap ip) (c_port c)], put_stage n l q (Some (next_address c)) s))
          | _ => None
          end
      | None => None
      end
  | LReply f data =>
      match flows s !! f with
      | Some fl =>
          match loops s !! fl_loop fl with
          | Some l => if fl_open fl && reads (fl_loop fl) l s then Some ([EReply (fl_loop fl) f (fl_src fl) data], s) else None
          | None => None
          end
      | None => None
      end
  | LFlowEnd f =>
      match flows s !! f with
      | Some fl =>
          if fl_open fl then
            let s := set_flows (<[f := close_flow fl]> (flows s)) s in
            Some (quiet (match loops s !! fl_loop fl with
                         | Some l => set_loops (<[fl_loop fl := with_flows (delete (fl_key fl) (l_flows l)) l]> (loops s)) s
                         | None => s
                         end))
          else None
      | None => None
      end
  | LCloseAssociation n =>
      match loops s !! n with
      | Some (mkLoop t (Some a) closed fs q) => Some (quiet (set_loops (<[n := mkLoop t (Some a) true fs q]> (loops s)) s))
      | _ => None
      end
  | LLoopEnd n =>
      match loops s !! n with
      | Some l =>
          match l_pending l with
          | None =>
              if reads n l s then None
              else Some (quiet (set_loops (delete n (loops s))
                     (set_flows ((fun fl => if bool_decide (fl_loop fl = n) then close_flow fl else fl) <$> flows s) s)))
          | Some _ => None
          end
      | None => None
      end
  end.

(** ** Histories *)

(** The steps of a run, the last one first, each with the state it was made
    in, and the state they lead to. *)
Definition history := list (sys * label).

Inductive reach (s0 : sys) : history -> sys -> Prop :=
  | reach_start : reach s0 [] s0
  | reach_step h s l evs s' : reach s0 h s -> step l s = Some (evs, s') -> reach s0 ((s, l) :: h) s'.

(** The data plane has just started. *)
Definition begins (s : sys) : Prop := conns s = ∅ /\ flows s = ∅ /\ loops s = start_loops (plane_ s) ∅.

Definition open_at (t : tunnel) (s : sys) : Prop :=
  exists name tl, listeners (plane_ s) !! name = Some tl /\ tl_config tl = t.

(** [who] is the holder of tunnel address [host] in [s], and [t] is granted to
    it: a session that has not expired on the clock of [e], or a native peer. *)
Definition holds (e : env) (host : string) (s : sys) (who : DataPlanePrincipal) (t : tunnel) : Prop :=
  (exists token v, sessions (srv s) !! token = Some v /\ t_first (clk e) < ss_Expires v /\ ss_TunnelIP v = host
     /\ pr_Method who = ss_Method v /\ pr_Identity who = ss_Identity v /\ pr_Policy who = ""%string
     /\ t_name t ∈ map tn_Name (ss_Tunnels v))
  \/ (exists peer, peer ∈ cf_NativePeers (config (srv s)) /\ np_TunnelIP peer = host
     /\ pr_Method who = "native-wireguard"%string /\ pr_Identity who = np_Name peer
     /\ pr_Policy who = np_DestinationPolicy peer /\ t_name t ∈ np_Tunnels peer).

(** The connection [k] came from [host] through the listener [tl]. *)
Definition came (k : nat) (tl : tunnelListener) (host : string) (h : history) : Prop :=
  exists s name remote port, (s, LAccept k name remote) ∈ h /\ listeners (plane_ s) !! name = Some tl
    /\ SplitHostPort remote = Some (host, port).

(** The step lets [who] into [t]: it looks up the source of a connection that
    came through a listener of [t], or of a datagram at an open one. *)
Definition lets_in (who : DataPlanePrincipal) (t : tunnel) (x : sys * label) (before : history) : Prop :=
  match x with
  | (s, LEnter k e) =>
      exists tl host, came k tl host before /\ tl_config tl = t /\ holds e host s who t
  | (s, LDatagram n e src data) =>
      exists host port, SplitHostPort src = Some (host, port) /\ Exists (open_at t) (s :: map fst before)
        /\ holds e host s who t
  | _ => False
  end.

Definition auth (h : history) (who : DataPlanePrincipal) (t : tunnel) : Prop :=
  exists l1 x l2, h = l1 ++ x :: l2 /\ lets_in who t x l2.

(** A step that puts an address before a policy. *)
Definition is_check (l : label) : bool := match l with LCheck _ | LCheckUDP _ => true | _ => false end.

(** A policy let the address pass at one of these steps. *)
Definition approved (l1 : history) (c : call) (ip : Addr) (x : string * string) : Prop :=
  Exists (fun y => is_check y.2 = true
    /\ approves (policies y.1) (c_who c) (c_tunnel c) (c_udp c) (c_port c) ip x = true) l1.

Definition asks (c : call) : Prop :=
  forall name, name ∈ [pr_Policy (c_who c); tc_DestinationPolicy (t_config (c_tunnel c))] -> exists h, (name, h) ∈ c_checks c.

Definition call_ok (h : history) (c : call) : Prop :=
  asks c /\ exists l1 x l2, h = l1 ++ x :: l2 /\ lets_in (c_who c) (c_tunnel c) x l2
    /\ exists done, c_checks c = done ++ c_names c
       /\ forall ip, head (c_todo c) = Some ip -> Forall (approved l1 c ip) done.

Definition conn_ok (h : history) (k : nat) (c : tcp_conn) : Prop :=
  match c with
  | Accepted tl host => came k tl host h
  | Entered who t _ | Serving who t _ | Spliced who t _ _ => auth h who t
  | Dialing c => call_ok h c /\ c_udp c = false
  end.

Definition stage_ok (h : history) (l : loop) (st : stage) : Prop :=
  match st with Resolving who => auth h who (l_tunnel l) | Calling c => call_ok h c /\ c_udp c = true end.

Definition loop_ok (s : sys) (h : history) (l : loop) : Prop :=
  match l_assoc l with
  | None => Exists (open_at (l_tunnel l)) (s :: map fst h)
  | Some (who, _) => auth h who (l_tunnel l)
  end
  /\ forall q, l_pending l = Some q -> stage_ok h l (q_stage q).

Definition sound (s : sys) (h : history) : Prop :=
  (forall k c, conns s !! k = Some c -> conn_ok h k c) /\ (forall n l, loops s !! n = Some l -> loop_ok s h l).

(** What has been evidence stays evidence. *)
Lemma came_mono k tl host h y : came k tl host h -> came k tl host (y :: h).
Proof. intros (s & name & remote & port & H & ?). exists s, name, remote, port. split; [by right|done]. Qed.

Lemma auth_mono h y who t : auth h who t -> auth (y :: h) who t.
Proof. intros (l1 & x & l2 & -> & Hx). by exists (y :: l1), x, l2. Qed.

Lemma call_mono h y c : call_ok h c -> call_ok (y :: h) c.
Proof.
  intros (Ha & l1 & x & l2 & -> & Hx & dn & Hd & Hf). split; [done|]. exists (y :: l1), x, l2.
  split; [done|]. split; [done|]. exists dn. split; [done|]. intros ip Hip.
  eapply Forall_impl; [by apply Hf|]. intros z. unfold approved. by constructor.
Qed.

Lemma conn_mono h y k c : conn_ok h k c -> conn_ok (y :: h) k c.
Proof.
  destruct c; simpl; [apply came_mono|by apply auth_mono| |by apply auth_mono..].
  intros [Hc ?]. split; [by apply call_mono|done].
Qed.

Lemma stage_mono h y l st : stage_ok h l st -> stage_ok (y :: h) l st.
Proof. destruct st; simpl; [by apply auth_mono|]. intros [? ?]. split; [by apply call_mono|done]. Qed.

Lemma loop_mono s s' h lb l : loop_ok s h l -> loop_ok s' ((s, lb) :: h) l.
Proof.
  intros [Hl Hq]. split.
  - destruct (l_assoc l) as [[who f]|]; [by apply auth_mono|by right].
  - intros q Hs%Hq. by apply stage_mono.
Qed.

Lemma sound_step s h lb s' :
  sound s h ->
  (forall k c, conns s' !! k = Some c -> conns s !! k = Some c \/ conn_ok ((s, lb) :: h) k c) ->
  (forall n l, loops s' !! n = Some l -> loops s !! n = Some l \/ loop_ok s' ((s, lb) :: h) l) ->
  sound s' ((s, lb) :: h).
Proof.
  intros [Hc Hl] Hc' Hl'. split.
  - intros k c [H|H]%Hc'; [|done]. by apply conn_mono, (Hc k).
  - intros n l [H|H]%Hl'; [|done]. by apply loop_mono, (Hl n).
Qed.

(** A connection, or a loop, changes. *)
Lemma sound_conn s h lb k c :
  sound s h -> (forall x, c = Some x -> conn_ok ((s, lb) :: h) k x) -> sound (put_conn k c s) ((s, lb) :: h).
Proof.
  intros Hs Hc. apply sound_step; [done| |intros n l Hl; by left]. intros j x Hx. unfold put_conn in Hx. simpl in Hx.
  destruct c as [c|].
  - apply lookup_insert_Some in Hx as [[<- <-]|[_ Hx]]; [right; by apply Hc|by left].
  - apply lookup_delete_Some in Hx as [_ Hx]. by left.
Qed.

Lemma sound_loop s h lb n l s' :
  sound s h -> conns s' = conns s -> loops s' = <[n := l]> (loops s) -> loop_ok s' ((s, lb) :: h) l -> sound s' ((s, lb) :: h).
Proof.
  intros Hs Hc Hl Hok. apply sound_step; [done|by rewrite Hc; left|]. rewrite Hl.
  intros m x [[<- <-]|[_ Hx]]%lookup_insert_Some; [by right|by left].
Qed.

Lemma sound_same s h lb s' : sound s h -> conns s' = conns s -> loops s' = loops s -> sound s' ((s, lb) :: h).
Proof. intros Hs Hc Hl. apply sound_step; [done|rewrite Hc|rewrite Hl]; by left. Qed.

(** ** Calls *)
Lemma asks_of who t udp port names todo host :
  asks (mkCall who t udp port (checks_of who t host) names todo).
Proof. intros name Hn. exists host. unfold checks_of. simpl in *. set_solver. Qed.

Lemma call_starts h who t udp port checks todo :
  asks (mkCall who t udp port checks checks todo) -> auth h who t -> call_ok h (mkCall who t udp port checks checks todo).
Proof.
  intros Ha (l1 & x & l2 & -> & Hx). split; [done|]. exists l1, x, l2. split; [done|]. split; [done|].
  exists []. split; [done|]. by constructor.
Qed.

Lemma call_next h c : call_ok h c -> call_ok h (next_address c).
Proof.
  intros (Ha & l1 & x & l2 & -> & Hx & _). split; [done|]. exists l1, x, l2. split; [done|]. split; [done|].
  exists []. split; [done|]. by constructor.
Qed.

Lemma target_call_ok h udp who t target answer c :
  auth h who t -> target_call udp who t target answer = Some c -> call_ok h c /\ c_udp c = udp.
Proof.
  intros Ha Hc. unfold target_call in Hc. destruct (SplitHostPort target) as [[host port]|]; [|done]. simpl in Hc.
  destruct (LookupPort _ _); [|done]. simpl in Hc. destruct (ParseAddr host).
  - injection Hc as <-. split; [|done]. apply call_starts; [apply asks_of|done].
  - destruct answer; [|done]. injection Hc as <-. split; [|done]. apply call_starts; [apply asks_of|done].
Qed.

Lemma check_ok s h lb c c' :
  is_check lb = true -> call_ok h c -> check (policies s) c = Some c' -> call_ok ((s, lb) :: h) c' /\ c_udp c' = c_udp c.
Proof.
  intros Hlb Hok%(call_mono _ (s, lb)) Hc. unfold check in Hc. destruct (c_todo c) as [|ip rest] eqn:Ht; [done|].
  destruct (c_names c) as [|x names] eqn:Hn; [done|]. injection Hc as <-.
  destruct (approves _ _ _ _ _ _ _) eqn:Hap; [|split; [by apply call_next|done]]. split; [|done].
  destruct Hok as (Ha & l1 & y & l2 & Hl & Hy & dn & Hd & Hf). split; [done|]. exists l1, y, l2. split; [done|]. split; [done|].
  exists (dn ++ [x]). split; [simpl; by rewrite Hd, Hn, <-(assoc_L (++))|]. intros ip' [= <-]. rewrite Ht in Hf.
  apply Forall_app. split; [by apply Hf|]. constructor; [|constructor]. unfold approved. simpl.
  destruct l1 as [|y1 l1]; injection Hl as <- _; [|by left]. by destruct lb.
Qed.

Lemma socks_call_ok h ctx who t f hostname ip port answer s c :
  auth h who t -> socks_call ctx who t f hostname ip port answer s = Some c -> call_ok h c /\ c_udp c = true.
Proof.
  intros Ha Hc. unfold socks_call in Hc. destruct (if addr_IsValid ip then _ else _) as [resolved|]; [|done]. simpl in Hc.
  destruct (negb (Allowed _ _ _)); [done|]. destruct ctx as [p|]; [|done]. simpl in Hc.
  destruct (tunnelConfig _ _) as [cur|]; [|done]. simpl in Hc.
  destruct (negb (IsSocks cur)); [done|]. injection Hc as <-. split; [|done]. apply call_starts; [|done].
  intros name Hn. simpl in *. exists ""%string. set_solver.
Qed.

(** The holder the code finds is one. *)
Lemma principal_holds e host s who t :
  principalForIP e host (srv s) = Some who -> t_name t ∈ pr_Tunnels who -> holds e host s who t.
Proof.
  intros Hp Ht. unfold principalForIP in Hp. destruct (List.find _ (All _ _)) as [v|] eqn:Hf.
  - left. apply find_some in Hf as [Hin%list_elem_of_In Hf]. injection Hp as <-.
    apply list_elem_of_omap in Hin as (token & _ & Hv). apply andb_true_iff in Hf as [Hx Hip].
    unfold time_before in Hx. bool_to_prop. exists token, v. simpl in Ht. rewrite elem_of_list_to_set in Ht. done.
  - right. destruct (List.find _ (cf_NativePeers _)) as [peer|] eqn:Hg; [|done]. injection Hp as <-.
    apply find_some in Hg as [Hin%list_elem_of_In Hip]. bool_to_prop. exists peer.
    simpl in Ht. rewrite elem_of_list_to_set in Ht. done.
Qed.

Lemma enter_ok s h k e tl host c :
  came k tl host h -> enter e tl host s = Some c -> conn_ok ((s, LEnter k e) :: h) k c.
Proof.
  intros Ho Hc. unfold enter in Hc. destruct (principalForIP e host (srv s)) as [who|] eqn:Hp; [|done]. simpl in Hc.
  destruct (bool_decide_reflect (t_name (tl_config tl) ∈ pr_Tunnels who)) as [Hin|]; [|done]. simpl in Hc.
  assert (Ha : auth ((s, LEnter k e) :: h) who (tl_config tl)).
  { exists [], (s, LEnter k e), h. split; [done|]. exists tl, host. split; [done|]. split; [done|]. by apply principal_holds. }
  destruct (negb (IsSocks _)); [by injection Hc as <-|]. destruct (t_Socks _) as [so|]; [|done]. simpl in Hc.
  destruct (so_Transparent so).
  - destruct (url_Host _); [|done]. by injection Hc as <-.
  - destruct (tl_socks tl); [|done]. by injection Hc as <-.
Qed.

Lemma enter_udp_ok s h n e t src data who :
  Exists (open_at t) (s :: map fst h) -> enter_udp e t src s = Some who -> auth ((s, LDatagram n e src data) :: h) who t.
Proof.
  intros Ho Hc. unfold enter_udp in Hc. destruct (SplitHostPort src) as [[host p]|] eqn:Hs; [|done]. simpl in Hc.
  destruct (principalForIP e host (srv s)) as [w|] eqn:Hp; [|done]. simpl in Hc.
  destruct (bool_decide_reflect (t_name t ∈ pr_Tunnels w)); [|done]. injection Hc as <-.
  exists [], (s, LDatagram n e src data), h. split; [done|]. exists host, p. split; [done|]. split; [done|].
  by apply principal_holds.
Qed.

(** ** Every dial is authorized *)
Lemma start_loops_lookup p m n l :
  start_loops p m !! n = Some l ->
  m !! n = Some l \/ exists name tl, listeners p !! name = Some tl /\ tl_sock tl = n /\ is_udp (tl_config tl) = true
    /\ l = mkLoop (tl_config tl) None false ∅ None.
Proof.
  unfold start_loops.
  assert (Hall : forall tl, tl ∈ (map_to_list (listeners p)).*2 -> exists name, listeners p !! name = Some tl).
  { intros tl ([name x] & -> & H%elem_of_map_to_list)%list_elem_of_fmap. by exists name. }
  revert Hall. generalize (map_to_list (listeners p)).*2 as tls. induction tls as [|tl tls IH]; intros Hall; [by left|].
  simpl. unfold start_loop at 1. destruct (is_udp (tl_config tl) && _) eqn:Hu.
  - intros [[<- <-]|[_ H]]%lookup_insert_Some.
    + right. destruct (Hall tl) as [name Hn]; [by left|]. apply andb_true_iff in Hu as [Hu _]. by exists name, tl.
    + apply IH; [|done]. intros x Hx. apply Hall. by right.
  - apply IH. intros x Hx. apply Hall. by right.
Qed.

Lemma sound_begins s : begins s -> sound s [].
Proof.
  intros (Hc & _ & Hl). split.
  - intros k c. rewrite Hc, lookup_empty. done.
  - intros n l. rewrite Hl. intros [H|(name & tl & Hn & _ & _ & ->)]%start_loops_lookup; [by rewrite lookup_empty in H|].
    split; [|done]. simpl. left. by exists name, tl.
Qed.

Lemma loop_fixed_pending s h l q :
  loop_ok s h l -> (forall p, q = Some p -> stage_ok h l (q_stage p)) -> loop_ok s h (with_pending q l).
Proof.
  intros [Hl _] Hq. split; [done|]. simpl. intros p Hp. specialize (Hq p Hp). by destruct (q_stage p).
Qed.

Lemma loop_with_flows s h m l : loop_ok s h l -> loop_ok s h (with_flows m l).
Proof. intros [Hl Hq]. split; [done|]. intros q Hp. specialize (Hq q Hp). by destruct (q_stage q). Qed.

Lemma sound_stage s h lb n l q c :
  sound s h -> loop_ok s h l -> (forall c', c = Some c' -> call_ok ((s, lb) :: h) c' /\ c_udp c' = true) ->
  sound (put_stage n l q c s) ((s, lb) :: h).
Proof.
  intros Hs Hl Hc. eapply sound_loop; [done|done|done|]. apply loop_fixed_pending; [by apply loop_mono|].
  destruct c as [c|]; [|done]. intros p [= <-]. simpl. by apply Hc.
Qed.

Lemma sound_take s h lb n l src key data st :
  sound s h -> loop_ok s h l -> (forall st', st = Some st' -> stage_ok ((s, lb) :: h) l st') ->
  sound (take_datagram n l src key data st s).2 ((s, lb) :: h).
Proof.
  intros Hs Hl Hst. unfold take_datagram. destruct (l_flows l !! key); [by apply sound_same|].
  destruct st as [st|]; [|by apply sound_same]. eapply sound_loop; [done|done|done|].
  apply loop_fixed_pending; [by apply loop_mono|]. intros p [= <-]. simpl. by apply Hst.
Qed.

Lemma sound_conns lb s h evs s' :
  sound s h -> step lb s = Some (evs, s') ->
  match lb with
  | LControl _ _ _ | LReload _ _ _ | LAccept _ _ _ | LEnter _ _ | LResolve _ _ | LCheck _ | LDial _ _ | LGone _
  | LAssociate _ _ => sound s' ((s, lb) :: h)
  | _ => True
  end.
Proof.
  intros Hs Hstep. pose proof Hs as [Hc Hl]. destruct lb; try done; simpl in Hstep.
  - injection Hstep as <- <-. by apply sound_same.
  - destruct (forallb _ _); [|done]. injection Hstep as <- <-. apply sound_step; [done|by left|]. simpl.
    intros n l [H|(name & tl & Hn & _ & _ & ->)]%start_loops_lookup; [by left|]. right. split; [|done].
    left. by exists name, tl.
  - destruct (listeners (plane_ s) !! name) as [tl|] eqn:Hn; [|done]. destruct (_ || _); [done|]. injection Hstep as <- <-.
    destruct (SplitHostPort remote) as [[host p]|] eqn:Hsp; [|by apply sound_same]. apply sound_conn; [done|].
    intros x [= <-]. exists s, name, remote, p. split; [by left|done].
  - destruct (conns s !! k) as [[]|] eqn:Hk; try done. injection Hstep as <- <-. apply sound_conn; [done|].
    intros x Hx. eapply enter_ok; [|done]. exact (Hc _ _ Hk).
  - destruct (conns s !! k) as [[]|] eqn:Hk; try done. injection Hstep as <- <-. apply sound_conn; [done|].
    intros x Hx. destruct (target_call _ _ _ _ _) as [c|] eqn:Ht; [|done]. injection Hx as <-. simpl.
    eapply target_call_ok; [|done]. apply auth_mono. exact (Hc _ _ Hk).
  - destruct (conns s !! k) as [[]|] eqn:Hk; try done. destruct (check (policies s) c) as [c'|] eqn:Hck; [|done].
    injection Hstep as <- <-. apply sound_conn; [done|]. intros x [= <-]. simpl. destruct (Hc _ _ Hk) as [Hok Hu].
    destruct (check_ok s h (LCheck k) _ _ eq_refl Hok Hck) as [? Hu']. split; [done|congruence].
  - destruct (conns s !! k) as [[]|] eqn:Hk; try done. destruct (ready c) as [ip|]; [|done]. simpl in Hstep.
    destruct (Hc _ _ Hk) as [Hok Hu]. destruct ok; injection Hstep as <- <-; apply sound_conn; try done; intros x [= <-]; simpl.
    + destruct Hok as (_ & l1 & y & l2 & Hh & Hy & _). apply auth_mono. by exists l1, y, l2.
    + split; [by apply call_next, call_mono|done].
  - destruct (free (conns s) k); [done|]. injection Hstep as <- <-. by apply sound_conn.
  - destruct (conns s !! k) as [[]|] eqn:Hk; try done. destruct (_ && _); [|done]. injection Hstep as <- <-.
    eapply sound_loop; [done|done|done|]. split; [|done]. apply auth_mono. exact (Hc _ _ Hk).
Qed.

Lemma sound_datagrams lb s h evs s' :
  sound s h -> step lb s = Some (evs, s') ->
  match lb with
  | LDatagram _ _ _ _ | LResolveUDP _ _ | LSocksDatagram _ _ _ _ | LCheckUDP _ | LDialUDP _ _ _ => sound s' ((s, lb) :: h)
  | _ => True
  end.
Proof.
  intros Hs Hstep. pose proof Hs as [_ Hl]. destruct lb; try done; simpl in Hstep.
  - destruct (loops s !! n) as [l|] eqn:Hn; [|done]. pose proof (Hl _ _ Hn) as Hok.
    destruct l as [t [a|] cl fs [q|]]; try done. destruct (negb _); [done|]. injection Hstep as Hstep.
    destruct (enter_udp e t src s) as [who|] eqn:Ha; [|injection Hstep as <- <-; by apply sound_same].
    replace s' with (take_datagram n (mkLoop t None cl fs None) src src data (Some (Resolving who)) s).2 by (by rewrite Hstep).
    apply sound_take; [done|done|]. intros st [= <-]. simpl. eapply enter_udp_ok; [apply Hok|done].
  - destruct (loops s !! n) as [l|] eqn:Hn; [|done]. pose proof (Hl _ _ Hn) as Hok.
    destruct (l_pending l) as [[qs qk qd [who|c]]|] eqn:Hq; try done. injection Hstep as <- <-.
    apply sound_stage; [done|done|]. intros c' Hc'. eapply target_call_ok; [|done].
    apply auth_mono. exact (proj2 Hok _ Hq).
  - unfold socks_datagram in Hstep. destruct (loops s !! n) as [l|] eqn:Hn; [|done]. pose proof (Hl _ _ Hn) as Hok.
    destruct l as [t [[who f]|] cl fs [q|]]; try done. destruct (negb _); [done|].
    destruct (SplitHostPort src) as [[host p]|]; [|destruct (parseSocksUDP data); try done; injection Hstep as <- <-; by apply sound_same].
    destruct (parseSocksUDP data) as [|hostname ip port payload|] eqn:Hp; [injection Hstep as <- <-; by apply sound_same| |done].
    injection Hstep as Hstep. destruct (host =? _)%string; [|injection Hstep as <- <-; by apply sound_same].
    match type of Hstep with ?x = _ => replace s' with x.2 by (by rewrite Hstep) end.
    apply sound_take; [done|done|]. intros st Hst.
    destruct (socks_call Background who t f hostname ip port answer s) as [c|] eqn:Hcall; [|done]. injection Hst as <-. simpl.
    eapply socks_call_ok; [|done]. apply auth_mono, Hok.
  - destruct (loops s !! n) as [l|] eqn:Hn; [|done]. pose proof (Hl _ _ Hn) as Hok.
    destruct (l_pending l) as [[qs qk qd [who|c]]|] eqn:Hq; try done. destruct (proj2 Hok _ Hq) as [Hcall Hu].
    destruct (c_todo c) eqn:Ht; [injection Hstep as <- <-; by apply sound_stage|].
    destruct (check (policies s) c) as [c'|] eqn:Hck; [|done]. injection Hstep as <- <-. apply sound_stage; [done|done|].
    intros x [= <-]. simpl in *. destruct (check_ok s h (LCheckUDP n) _ _ eq_refl Hcall Hck) as [? Hu']. split; [done|congruence].
  - destruct (loops s !! n) as [l|] eqn:Hn; [|done]. pose proof (Hl _ _ Hn) as Hok.
    destruct (l_pending l) as [[qs qk qd [who|c]]|] eqn:Hq; try done. destruct (proj2 Hok _ Hq) as [Hcall Hu].
    destruct (ready c) as [ip|]; [|done]. simpl in Hstep. destruct (negb _); [done|]. destruct ok; injection Hstep as <- <-.
    + eapply sound_loop; [done|done|done|]. apply loop_fixed_pending; [by apply loop_with_flows, loop_mono|done].
    + apply sound_stage; [done|done|]. intros x [= <-]. split; [by apply call_next, call_mono|done].
Qed.

Lemma sound_preserved s h lb evs s' : sound s h -> step lb s = Some (evs, s') -> sound s' ((s, lb) :: h).
Proof.
  intros Hs Hstep. pose proof (sound_conns _ _ _ _ _ Hs Hstep) as H1. pose proof (sound_datagrams _ _ _ _ _ Hs Hstep) as H2.
  pose proof Hs as [_ Hl]. destruct lb; try done; clear H1 H2; simpl in Hstep.
  - destruct (flows s !! f) as [fl|]; [|done]. destruct (loops s !! fl_loop fl); [|done]. destruct (_ && _); [|done].
    injection Hstep as <- <-. by apply sound_same.
  - destruct (flows s !! f) as [fl|]; [|done]. destruct (fl_open fl); [|done]. injection Hstep as <- <-. simpl.
    destruct (loops s !! fl_loop fl) as [l|] eqn:Hn; [|by apply sound_same]. eapply sound_loop; [done|done|done|].
    by apply loop_with_flows, loop_mono, (Hl _ _ Hn).
  - destruct (loops s !! n) as [[t [a|] cl fs q]|] eqn:Hn; try done. injection Hstep as <- <-.
    eapply sound_loop; [done|done|done|].
    match goal with |- loop_ok ?s2 _ _ =>
      destruct (loop_mono s s2 h (LCloseAssociation n) _ (Hl _ _ Hn)) as [H1 H2] end. split; [done|].
    intros q' Hq. specialize (H2 q' Hq). by destruct (q_stage q').
  - destruct (loops s !! n) as [l|] eqn:Hn; [|done]. destruct (l_pending l); [done|]. destruct (reads n l s); [done|].
    injection Hstep as <- <-. apply sound_step; [done|by left|]. simpl. intros m x [_ Hx]%lookup_delete_Some. by left.
Qed.

Lemma sound_reach s0 h s : begins s0 -> reach s0 h s -> sound s h.
Proof.
  intros Hb Hr. induction Hr as [|h s l evs s' Hr IH Hstep]; [by apply sound_begins|].
  by eapply sound_preserved.
Qed.

(** The decision of a policy whose ASN index reads the address unmapped, as
    [ASNIndex.Lookup] does, is about the address that is dialed. *)
Definition reads_unmapped (c : compiledPolicy) : Prop :=
  forall L x, f_asnLookup (cp_filter c) = Some L -> L (Unmap x) = L x.

Lemma index_reads_unmapped (a : ASNIndex) x : Lookup a (Unmap x) = Lookup a x.
Proof. unfold Lookup, Lookup_run. by rewrite Unmap_idemp. Qed.

Lemma decide_unmapped c who name host net ip port :
  reads_unmapped c ->
  decide_ unicode_lower c (mkContext who name host net (Unmap ip) port 0) =
  decide_ unicode_lower c (mkContext who name host net ip port 0).
Proof.
  intros Hc. unfold decide_. simpl.
  assert (Allowed (cp_filter c) host (Unmap ip) = Allowed (cp_filter c) host ip) as ->; [|done].
  assert (Hm : forall ps, matchesAnyCIDR (Unmap ip) ps = matchesAnyCIDR ip ps)
    by (intros ps; unfold matchesAnyCIDR; by rewrite Unmap_valid, Unmap_idemp).
  unfold Allowed, deniedByDefault. rewrite Unmap_idemp, !Hm. destruct (f_asnLookup (cp_filter c)) as [L|] eqn:HL; [|done].
  by rewrite (Hc L ip HL).
Qed.

Lemma ready_authorized h c ip :
  call_ok h c -> ready c = Some ip ->
  exists l1 x l2, h = l1 ++ x :: l2 /\ lets_in (c_who c) (c_tunnel c) x l2
    /\ forall name, name ∈ [pr_Policy (c_who c); tc_DestinationPolicy (t_config (c_tunnel c))] -> name <> ""%string ->
       exists st lb host p, (st, lb) ∈ l1 /\ is_check lb = true /\ policies st !! name = Some p
         /\ forall a, a = ip \/ a = Unmap ip /\ reads_unmapped p ->
             dd_Allowed (decide_ unicode_lower p
              (mkContext (c_who c) (t_name (c_tunnel c)) host (network (c_udp c)) a (c_port c) 0)) = true.
Proof.
  intros (Ha & l1 & x & l2 & -> & Hx & dn & Hd & Hf) Hr. unfold ready in Hr.
  destruct (c_todo c) as [|ip' rest]; [done|]. destruct (c_names c) as [|]; [|done]. injection Hr as ->.
  exists l1, x, l2. split; [done|]. split; [done|]. intros name Hn Hne.
  destruct (Ha name Hn) as [host Hin]. rewrite Hd, app_nil_r in Hin. specialize (Hf ip eq_refl).
  rewrite Forall_forall in Hf. specialize (Hf _ Hin). apply Exists_exists in Hf as ([st lb] & Hst & Hlb & Hap).
  unfold approves in Hap. simpl in Hap, Hlb. apply orb_true_iff in Hap as [Hap|Hap]; [by apply String.eqb_eq in Hap|].
  destruct (policies st !! name) as [p|] eqn:Hp; [|done]. exists st, lb, host, p. do 3 (split; [done|]).
  intros a [->|[-> Hu]]; [done|by rewrite decide_unmapped].
Qed.

Lemma take_datagram_quiet n l src key data st s who t udp ip port :
  EDial who t udp ip port ∉ (take_datagram n l src key data st s).1.
Proof. unfold take_datagram. destruct (l_flows l !! key), st; simpl; set_solver. Qed.

(** The call behind a dial. *)
Lemma step_dials s h l evs s' who t udp ip port :
  sound s h -> step l s = Some (evs, s') -> EDial who t udp ip port ∈ evs ->
  exists c ip', call_ok h c /\ ready c = Some ip' /\ ip = Unmap ip' /\ who = c_who c /\ t = c_tunnel c /\ udp = c_udp c /\ port = c_port c.
Proof.
  intros [Hc Hl] Hstep Hin.
  destruct l as [| | | | | |k ok| | |n e src data| |n src data answer| |n f ok|f data|f|n|n]; simpl in Hstep.
  7: { destruct (conns s !! k) as [[]|] eqn:Hk; try done. destruct (ready c) as [ip'|] eqn:Hr; [|done]. simpl in Hstep.
       destruct (Hc _ _ Hk) as [Hok Hu]. exists c, ip'. destruct ok; injection Hstep as <- _;
       apply list_elem_of_singleton in Hin as [= -> -> -> -> ->]; by rewrite Hu. }
  13: { destruct (loops s !! n) as [l|] eqn:Hn; [|done].
        destruct (l_pending l) as [[qs qk qd [who'|c]]|] eqn:Hq; try done. destruct (proj2 (Hl _ _ Hn) _ Hq) as [Hok Hu].
        destruct (ready c) as [ip'|] eqn:Hr; [|done]. simpl in Hstep. destruct (negb _); [done|]. exists c, ip'.
        assert (EDial who t udp ip port = EDial (c_who c) (c_tunnel c) true (Unmap ip') (c_port c)) as [= -> -> -> -> ->].
        { destruct ok; injection Hstep as <- _; set_solver. }
        by rewrite <-Hu. }
  all: exfalso; try unfold socks_datagram in Hstep; unfold quiet in Hstep; repeat case_match; simplify_option_eq;
    first [by apply not_elem_of_nil in Hin
          |by apply list_elem_of_singleton in Hin
          |match goal with Ht : take_datagram ?n ?l ?a ?b ?c ?d ?e = _ |- _ =>
             eapply (take_datagram_quiet n l a b c d e); by rewrite Ht end].
Qed.

(** C8: Nothing leaves a tunnel unauthorized.  In every interleaving of
    connections, datagrams, reloads, expiries and changes of policy, an
    address is dialed for a principal only after a step of the run that let
    the principal into the tunnel: the source of a connection accepted by a
    listener of the tunnel, or of a datagram to it, was looked up, and then
    and there an unexpired session or a native peer with that tunnel address
    was granted the tunnel.  Since that step each destination policy the
    principal or the tunnel names was found configured and approved, for this
    protocol and port, the resolved address whose IPv4 form, if it has one, is
    dialed, and so, when ASNs are looked up by that form, the very address
    dialed. *)
Theorem forward_authorized s0 h s l evs s' who t udp ip port
    (Hb : begins s0) (Hr : reach s0 h s) (Hstep : step l s = Some (evs, s')) (Hin : EDial who t udp ip port ∈ evs) :
  exists l1 x l2 resolved, h = l1 ++ x :: l2 /\ lets_in who t x l2 /\ ip = Unmap resolved
    /\ forall name, name ∈ [pr_Policy who; tc_DestinationPolicy (t_config t)] -> name <> ""%string ->
       exists st lb host c, (st, lb) ∈ l1 /\ is_check lb = true /\ policies st !! name = Some c
         /\ forall a, a = resolved \/ a = ip /\ reads_unmapped c ->
             dd_Allowed (decide_ unicode_lower c (mkContext who (t_name t) host (network udp) a port 0)) = true.
Proof.
  pose proof (sound_reach _ _ _ Hb Hr) as Hs.
  destruct (step_dials _ _ _ _ _ _ _ _ _ _ Hs Hstep Hin) as (c & a & Hok & Hrd & -> & -> & -> & -> & ->).
  destruct (ready_authorized _ _ _ Hok Hrd) as (l1 & x & l2 & ? & ? & ?). by exists l1, x, l2, a.
Qed.

(** ** Whose datagrams a flow carries *)

(** A run with everything it has done. *)
Inductive trace (s0 : sys) : list event -> sys -> Prop :=
  | trace_start : trace s0 [] s0
  | trace_step tr s l evs s' : trace s0 tr s -> step l s = Some (evs, s') -> trace s0 (tr ++ evs) s'.

Definition listed (fs : gmap nat flow) (n : nat) (l : loop) (key : string) (f : nat) : Prop :=
  (exists fl, fs !! f = Some fl /\ fl_open fl = true /\ fl_loop fl = n /\ fl_key fl = key) /\ l_assoc l = None.

Definition waiting (l : loop) (q : pending) : Prop :=
  l_flows l !! q_key q = None /\ q_key q = q_src q /\ l_assoc l = None.

Definition loop_inv (fs : gmap nat flow) (n : nat) (l : loop) : Prop :=
  (forall key f, l_flows l !! key = Some f -> listed fs n l key f) /\ (forall q, l_pending l = Some q -> waiting l q).

Definition flow_inv (ls : gmap nat loop) (f : nat) (fl : flow) : Prop :=
  fl_socks fl = false /\ fl_key fl = fl_src fl
  /\ (fl_open fl = true -> exists l, ls !! fl_loop fl = Some l /\ l_flows l !! fl_key fl = Some f).

Definition event_inv (fs : gmap nat flow) (ev : event) : Prop :=
  match ev with
  | EDial _ _ _ _ _ => True
  | ESend n f src _ => exists fl, fs !! f = Some fl /\ fl_loop fl = n /\ src = fl_src fl
  | EReply n f dst _ => exists fl, fs !! f = Some fl /\ fl_loop fl = n /\ dst = fl_src fl
  end.

Definition kept (s : sys) : Prop :=
  (forall n l, loops s !! n = Some l -> loop_inv (flows s) n l) /\ (forall f fl, flows s !! f = Some fl -> flow_inv (loops s) f fl).

(** A flow only ever closes. *)
Definition evolves (fs fs' : gmap nat flow) : Prop :=
  forall f fl, fs !! f = Some fl -> fs' !! f = Some fl \/ fs' !! f = Some (close_flow fl).

Lemma event_evolves fs fs' ev : evolves fs fs' -> event_inv fs ev -> event_inv fs' ev.
Proof. intros He. destruct ev; simpl; [done|..]; intros (fl & [H|H]%He & ? & ?); eexists; (split; [exact H|split; assumption]). Qed.

Lemma evolves_refl fs : evolves fs fs.
Proof. intros f fl H. by left. Qed.

(** A loop changes, and no flow does. *)
Lemma kept_loop s n l' s' :
  kept s -> flows s' = flows s -> loops s' = <[n := l']> (loops s) -> loop_inv (flows s) n l' ->
  (forall l key f, loops s !! n = Some l -> l_flows l !! key = Some f -> l_flows l' !! key = Some f) -> kept s'.
Proof.
  intros [Hl Hf] Hfl Hlo Hn Hsub. split; rewrite Hlo, Hfl.
  - intros m x [[<- <-]|[_ H]]%lookup_insert_Some; [done|by apply Hl].
  - intros f fl H. destruct (Hf _ _ H) as (H1 & H2 & H3). split; [done|]. split; [done|]. intros (l & Hx & Hk)%H3.
    destruct (decide (fl_loop fl = n)) as [Heq|Hne].
    + exists l'. rewrite Heq, lookup_insert_eq. split; [done|]. rewrite Heq in Hx. by apply (Hsub l).
    + exists l. by rewrite lookup_insert_ne.
Qed.

Lemma kept_same s s' : kept s -> flows s' = flows s -> loops s' = loops s -> kept s'.
Proof. intros [Hl Hf] Hfl Hlo. split; by rewrite Hlo, Hfl. Qed.

(** Loops appear that had not been there. *)
Lemma kept_fresh s s' :
  kept s -> flows s' = flows s -> (forall n l, loops s !! n = Some l -> loops s' !! n = Some l) ->
  (forall n l, loops s' !! n = Some l -> loops s !! n = Some l \/ l_flows l = ∅ /\ l_pending l = None) -> kept s'.
Proof.
  intros [Hl Hf] Hfl Hold Hnew. split; rewrite Hfl.
  - intros n l [H|[H1 H2]]%Hnew; [by apply Hl|]. split; [intros key f; by rewrite H1, lookup_empty|by rewrite H2].
  - intros f fl H. destruct (Hf _ _ H) as (H1 & H2 & H3). split; [done|]. split; [done|]. intros (l & Hx & Hk)%H3.
    exists l. split; [by apply Hold|done].
Qed.

Lemma start_loops_old p m n l : m !! n = Some l -> start_loops p m !! n = Some l.
Proof.
  intros Hn. unfold start_loops. induction (map_to_list (listeners p)).*2 as [|tl tls IH]; [done|]. simpl.
  unfold start_loop at 1. destruct (_ && _) eqn:Hu; [|done]. apply andb_true_iff in Hu as [_ Hu].
  rewrite lookup_insert_ne; [done|]. intros Heq. by rewrite Heq, IH in Hu.
Qed.

Lemma loop_stage fs n l q :
  loop_inv fs n l -> (forall p, q = Some p -> waiting l p) -> loop_inv fs n (with_pending q l).
Proof. intros [H1 H2] Hq. split; [exact H1|]. intros p Hp. exact (Hq p Hp). Qed.

Lemma kept_put_stage s n l q c : kept s -> loops s !! n = Some l -> l_pending l = Some q -> kept (put_stage n l q c s).
Proof.
  intros Hk Hn Hq. pose proof (proj1 Hk _ _ Hn) as Hl. eapply kept_loop; [done|done|done| |].
  - apply loop_stage; [done|]. destruct c as [c|]; [|done]. intros p [= <-]. exact (proj2 Hl _ Hq).
  - intros l0 key f Hl0. rewrite Hn in Hl0. by injection Hl0 as ->.
Qed.

Lemma kept_take s n l src data st :
  kept s -> loops s !! n = Some l -> l_assoc l = None ->
  kept (take_datagram n l src src data st s).2
  /\ Forall (event_inv (flows s)) (take_datagram n l src src data st s).1
  /\ flows (take_datagram n l src src data st s).2 = flows s.
Proof.
  intros Hk Hn Ha. pose proof (proj1 Hk _ _ Hn) as Hl. unfold take_datagram. destruct (l_flows l !! src) as [f|] eqn:Hf.
  - split; [done|]. split; [|done]. constructor; [|done]. destruct (proj1 Hl _ _ Hf) as [(fl & H & _ & H1 & H2) _].
    exists fl. split; [done|]. split; [done|]. destruct (proj2 Hk _ _ H) as (_ & H5 & _). congruence.
  - destruct st as [st|]; [|by split]. split; [|by split]. eapply kept_loop; [done|done|done| |].
    + apply loop_stage; [done|]. by intros p [= <-].
    + intros l0 k f Hl0. rewrite Hn in Hl0. by injection Hl0 as ->.
Qed.

(** The flow a loop opens. *)
Lemma kept_open s n f l q c ip :
  kept s -> loops s !! n = Some l -> l_pending l = Some q -> flows s !! f = None ->
  kept (open_flow n f l q c ip s).2
  /\ Forall (event_inv (flows (open_flow n f l q c ip s).2)) (open_flow n f l q c ip s).1
  /\ evolves (flows s) (flows (open_flow n f l q c ip s).2).
Proof.
  intros [Hl Hf] Hn Hq Hfree. destruct (Hl _ _ Hn) as [Hfl Hpend]. destruct (Hpend _ Hq) as (Hno & Htk & Hwho).
  set (fl := mkFlow n (q_key q) (q_src q) (c_who c) (Unmap ip) (c_port c) (is_assoc l) true).
  assert (Hsocks : fl_socks fl = false) by (simpl; unfold is_assoc; by rewrite Hwho).
  assert (Hev : evolves (flows s) (<[f := fl]> (flows s))).
  { intros g fg Hg. left. rewrite lookup_insert_ne; [done|]. intros ->. by rewrite Hfree in Hg. }
  assert (Hne : forall g fg, flows s !! g = Some fg -> f <> g) by (intros g fg Hg ->; by rewrite Hfree in Hg).
  assert (Hls : forall m x key g, listed (flows s) m x key g -> listed (<[f := fl]> (flows s)) m x key g).
  { intros m x key g [(fg & Hg & H) Ha]. split; [|done]. exists fg. split; [|done]. rewrite lookup_insert_ne; [done|by eapply Hne]. }
  split; [|split; [|exact Hev]].
  - split; simpl.
    + intros m x [[<- <-]|[_ H]]%lookup_insert_Some.
      * split; [|done]. simpl. intros key g [[<- <-]|[_ H]]%lookup_insert_Some; [|by apply Hls, Hfl].
        split; [|done]. exists fl. by rewrite lookup_insert_eq.
      * destruct (Hl _ _ H) as [H1 H2]. split; [|done]. intros key g Hg. by apply Hls, H1.
    + intros g fg [[<- <-]|[_ H]]%lookup_insert_Some.
      * split; [exact Hsocks|]. split; [exact Htk|]. intros _. simpl.
        exists (with_pending None (with_flows (<[q_key q := f]> (l_flows l)) l)).
        split; [by rewrite lookup_insert_eq|]. simpl. by rewrite lookup_insert_eq.
      * destruct (Hf _ _ H) as (H1 & H2 & H3). split; [done|]. split; [done|]. intros (x & Hx & Hk)%H3.
        destruct (decide (fl_loop fg = n)) as [Heq|Hm].
        -- exists (with_pending None (with_flows (<[q_key q := f]> (l_flows l)) l)). rewrite Heq, lookup_insert_eq.
           split; [done|]. simpl. rewrite Heq, Hn in Hx. injection Hx as <-. rewrite lookup_insert_ne; [done|].
           intros Hkey. by rewrite <-Hkey, Hno in Hk.
        -- exists x. by rewrite lookup_insert_ne.
  - repeat constructor. simpl. exists fl. by rewrite lookup_insert_eq.
Qed.

(** Flows end, and leave their loops' tables. *)
Lemma kept_end s f fl :
  kept s -> flows s !! f = Some fl -> fl_open fl = true ->
  exists l, loops s !! fl_loop fl = Some l
    /\ kept (set_loops (<[fl_loop fl := with_flows (delete (fl_key fl) (l_flows l)) l]> (loops s))
              (set_flows (<[f := close_flow fl]> (flows s)) s)).
Proof.
  intros [Hl Hf] Hfl Hop. destruct (Hf _ _ Hfl) as (Hs & Hk & Ho). destruct (Ho Hop) as (l & Hn & Hkey). exists l.
  split; [done|].
  assert (Hls : forall m x key g, f <> g -> listed (flows s) m x key g -> listed (<[f := close_flow fl]> (flows s)) m x key g).
  { intros m x key g Hne [(fg & Hg & H) Ha]. split; [|done]. exists fg. by rewrite lookup_insert_ne. }
  assert (Hone : forall m x key, loops s !! m = Some x -> l_flows x !! key = Some f -> m = fl_loop fl /\ key = fl_key fl).
  { intros m x key Hm Hx. destruct (proj1 (Hl _ _ Hm) _ _ Hx) as [(fg & Hg & _ & H1 & H2) _].
    rewrite Hfl in Hg. injection Hg as <-. done. }
  split; simpl.
  - intros m x [[<- <-]|[Hne H]]%lookup_insert_Some.
    + destruct (Hl _ _ Hn) as [H1 H2]. split; simpl.
      * intros key g [Hd Hg]%lookup_delete_Some. apply Hls; [|by apply H1]. intros <-.
        destruct (Hone _ _ _ Hn Hg) as [_ ->]. done.
      * intros q Hq. destruct (H2 _ Hq) as (H3 & H4 & H5). split; [|done]. simpl. apply lookup_delete_None. by right.
    + destruct (Hl _ _ H) as [H1 H2]. split; [|done]. intros key g Hg. apply Hls; [|by apply H1]. intros <-.
      destruct (Hone _ _ _ H Hg) as [-> _]. done.
  - intros g fg [[<- <-]|[Hne H]]%lookup_insert_Some; [done|].
    destruct (Hf _ _ H) as (H1 & H2 & H3). split; [done|]. split; [done|]. intros (x & Hx & Hk')%H3.
    destruct (decide (fl_loop fg = fl_loop fl)) as [Heq|Hm]; [|exists x; by rewrite lookup_insert_ne].
    eexists. rewrite Heq, lookup_insert_eq. split; [done|]. simpl. rewrite Heq, Hn in Hx. injection Hx as <-.
    rewrite lookup_delete_ne; [done|]. intros Hkk. rewrite <-Hkk, Hkey in Hk'. by injection Hk'.
Qed.

Lemma kept_loop_end s n :
  kept s ->
  kept (set_loops (delete n (loops s))
    (set_flows ((fun fl => if bool_decide (fl_loop fl = n) then close_flow fl else fl) <$> flows s) s)).
Proof.
  intros [Hl Hf]. split; simpl.
  - intros m l [Hm H]%lookup_delete_Some. destruct (Hl _ _ H) as [H1 H2]. split; [|done]. intros key f Hk.
    destruct (H1 _ _ Hk) as [(fl & Hfl & Ho & Hn & Hr) Ha]. split; [|done]. exists fl. rewrite lookup_fmap, Hfl. simpl.
    rewrite bool_decide_eq_false_2 by congruence. done.
  - intros f fl (fl0 & <- & H)%lookup_fmap_Some. destruct (Hf _ _ H) as (H1 & H2 & H3).
    case_bool_decide; [done|]. split; [done|]. split; [done|]. intros (l & Hx & Hk)%H3. exists l.
    by rewrite lookup_delete_ne.
Qed.

Lemma begins_kept s : begins s -> kept s.
Proof.
  intros (_ & Hf & Hl). split.
  - intros n l. rewrite Hl. intros [H|(name & tl & _ & _ & _ & ->)]%start_loops_lookup; [by rewrite lookup_empty in H|].
    split; [|done]. intros key f. simpl. by rewrite lookup_empty.
  - intros f fl. by rewrite Hf, lookup_empty.
Qed.
(** An association never gets to dial: its context has no principal. *)
Lemma socks_call_refused who t f hostname ip port answer s : socks_call Background who t f hostname ip port answer s = None.
Proof.
  unfold socks_call, Background. destruct (if addr_IsValid ip then _ else _) as [resolved|]; [|done]. simpl.
  by destruct (negb (Allowed _ _ _)).
Qed.

(** A step on the side of TCP touches neither loops nor flows. *)
Lemma kept_conn s k c : kept s -> kept (put_conn k c s).
Proof. intros Hk. by apply (kept_same s). Qed.

Lemma reload_kept s p :
  kept s -> kept (mkSys (srv s) (policies s) (tunnels s) p (conns s) (start_loops p (loops s)) (flows s)).
Proof.
  intros Hk. eapply kept_fresh; [done|done|intros n l; by apply start_loops_old|].
  intros n l [H|(name & tl & _ & _ & _ & ->)]%start_loops_lookup; [by left|by right].
Qed.

Definition keeps (s : sys) (r : list event * sys) : Prop :=
  kept r.2 /\ Forall (event_inv (flows r.2)) r.1 /\ evolves (flows s) (flows r.2).

Lemma keeps_quiet s s' : kept s' -> evolves (flows s) (flows s') -> keeps s (quiet s').
Proof. done. Qed.

Lemma keeps_take s n l src data st :
  kept s -> loops s !! n = Some l -> l_assoc l = None -> keeps s (take_datagram n l src src data st s).
Proof.
  intros Hk Hn Ha. destruct (kept_take s n l src data st Hk Hn Ha) as (H1 & H2 & H3).
  split; [done|]. rewrite H3. split; [done|apply evolves_refl].
Qed.

Lemma step_keeps_tcp l s r :
  kept s -> step l s = Some r ->
  match l with
  | LControl _ _ _ | LReload _ _ _ | LAccept _ _ _ | LEnter _ _ | LResolve _ _ | LCheck _ | LDial _ _ | LGone _
  | LAssociate _ _ => keeps s r
  | _ => True
  end.
Proof.
  intros Hk Hstep. destruct l; try done; simpl in Hstep.
  - injection Hstep as <-. apply keeps_quiet; [by apply (kept_same s)|apply evolves_refl].
  - destruct (forallb _ _); [|done]. injection Hstep as <-.
    apply keeps_quiet; [by apply reload_kept|apply evolves_refl].
  - destruct (listeners _ !! _); [|done]. destruct (_ || _); [done|]. injection Hstep as <-.
    destruct (SplitHostPort remote) as [[host p]|]; (apply keeps_quiet; [by try apply kept_conn|apply evolves_refl]).
  - destruct (conns s !! k) as [[]|]; try done. injection Hstep as <-. apply keeps_quiet; [by apply kept_conn|apply evolves_refl].
  - destruct (conns s !! k) as [[]|]; try done. injection Hstep as <-. apply keeps_quiet; [by apply kept_conn|apply evolves_refl].
  - destruct (conns s !! k) as [[]|]; try done. destruct (check _ _); [|done]. injection Hstep as <-.
    apply keeps_quiet; [by apply kept_conn|apply evolves_refl].
  - destruct (conns s !! k) as [[]|]; try done. destruct (ready c); [|done]. simpl in Hstep.
    destruct ok; injection Hstep as <-; (split; [by apply kept_conn|split; [by repeat constructor|apply evolves_refl]]).
  - destruct (free _ _); [done|]. injection Hstep as <-. apply keeps_quiet; [by apply kept_conn|apply evolves_refl].
  - destruct (conns s !! k) as [[]|]; try done. destruct (free (loops s) n && _) eqn:Hfree; [|done]. injection Hstep as <-.
    apply andb_true_iff in Hfree as [Hfree _]. unfold free in Hfree. destruct (loops s !! n) eqn:Hn; [done|].
    apply keeps_quiet; [|apply evolves_refl]. eapply kept_fresh; [done|done| |]; simpl.
    + intros m l Hm. rewrite lookup_insert_ne; [done|]. intros ->. by rewrite Hn in Hm.
    + intros m l [[<- <-]|[_ H]]%lookup_insert_Some; [by right|by left].
Qed.

Lemma step_keeps_loop l s r :
  kept s -> step l s = Some r ->
  match l with
  | LDatagram _ _ _ _ | LResolveUDP _ _ | LSocksDatagram _ _ _ _ | LCheckUDP _ | LDialUDP _ _ _ => keeps s r
  | _ => True
  end.
Proof.
  intros Hk Hstep. pose proof (keeps_quiet s s Hk (evolves_refl _)) as Hsame. destruct l; try done; simpl in Hstep.
  - destruct (loops s !! n) as [l|] eqn:Hn; [|done]. destruct l as [t [a|] cl fs [q|]]; try done.
    destruct (negb _); [done|]. injection Hstep as <-. destruct (enter_udp e t src s) as [who|]; [|done].
    by apply keeps_take.
  - destruct (loops s !! n) as [l|] eqn:Hn; [|done].
    destruct (l_pending l) as [[qs qk qd [who|c]]|] eqn:Hq; try done. injection Hstep as <-.
    apply keeps_quiet; [by apply kept_put_stage|apply evolves_refl].
  - unfold socks_datagram in Hstep. destruct (loops s !! n) as [l|] eqn:Hn; [|done]. destruct l as [t [[who f]|] cl fs [q|]]; try done.
    destruct (negb _); [done|].
    destruct (SplitHostPort src) as [[host p]|]; [|destruct (parseSocksUDP data); try done; by injection Hstep as <-].
    destruct (parseSocksUDP data) as [|hostname ip port payload|]; [by injection Hstep as <-| |done].
    injection Hstep as <-. destruct (host =? _)%string; [|done].
    rewrite socks_call_refused. unfold take_datagram. simpl. destruct (fs !! _) as [g|] eqn:Hg; [|done].
    by destruct (proj1 (proj1 Hk _ _ Hn) _ _ Hg) as [_ ?].
  - destruct (loops s !! n) as [l|] eqn:Hn; [|done].
    destruct (l_pending l) as [[qs qk qd [who|c]]|] eqn:Hq; try done.
    destruct (c_todo c) as [|ip rest]; [injection Hstep as <-; apply keeps_quiet; [by apply kept_put_stage|apply evolves_refl]|].
    destruct (check (policies s) c) as [c'|]; [|done]. injection Hstep as <-.
    apply keeps_quiet; [by apply kept_put_stage|apply evolves_refl].
  - destruct (loops s !! n) as [l|] eqn:Hn; [|done].
    destruct (l_pending l) as [[qs qk qd [who|c]]|] eqn:Hq; try done. destruct (ready c) as [ip|]; [|done]. simpl in Hstep.
    unfold free in Hstep. destruct (flows s !! f) eqn:Hf; [done|]. simpl in Hstep. destruct ok; injection Hstep as <-.
    + by apply kept_open.
    + split; [by apply kept_put_stage|split; [by repeat constructor|apply evolves_refl]].
Qed.

Lemma step_keeps l s r : kept s -> step l s = Some r -> keeps s r.
Proof.
  intros Hk Hstep. pose proof (step_keeps_tcp _ _ _ Hk Hstep) as H1. pose proof (step_keeps_loop _ _ _ Hk Hstep) as H2.
  destruct l; try done; clear H1 H2; simpl in Hstep.
  - destruct (flows s !! f) as [fl|] eqn:Hf; [|done]. destruct (loops s !! fl_loop fl) as [l|]; [|done].
    destruct (_ && _); [|done]. injection Hstep as <-. split; [done|]. split; [|apply evolves_refl].
    constructor; [|done]. by exists fl.
  - destruct (flows s !! f) as [fl|] eqn:Hf; [|done]. destruct (fl_open fl) eqn:Ho; [|done].
    destruct (kept_end _ _ _ Hk Hf Ho) as (l & Hn & Hk'). injection Hstep as <-. simpl. rewrite Hn.
    apply keeps_quiet; [done|]. intros g fg Hg. simpl. destruct (decide (g = f)) as [->|Hne].
    + right. rewrite lookup_insert_eq. rewrite Hf in Hg. by injection Hg as ->.
    + left. by rewrite lookup_insert_ne.
  - destruct (loops s !! n) as [[t [a|] cl fs q]|] eqn:Hn; try done. injection Hstep as <-.
    apply keeps_quiet; [|apply evolves_refl]. eapply kept_loop; [done|done|done|apply (proj1 Hk _ _ Hn)|].
    intros l key f Hl. rewrite Hn in Hl. by injection Hl as <-.
  - destruct (loops s !! n) as [l|]; [|done]. destruct (l_pending l); [done|]. destruct (reads n l s); [done|].
    injection Hstep as <-. apply keeps_quiet; [by apply kept_loop_end|]. intros g fg Hg. simpl. rewrite lookup_fmap, Hg. simpl.
    case_bool_decide; [by right|by left].
Qed.

Lemma trace_keeps s0 tr s : begins s0 -> trace s0 tr s -> kept s /\ Forall (event_inv (flows s)) tr.
Proof.
  intros Hb Hr. induction Hr as [|tr s l evs s' Hr [Hk Ht] Hstep]; [split; [by apply begins_kept|done]|].
  destruct (step_keeps _ _ _ Hk Hstep) as (H1 & H2 & H3). simpl in *. split; [done|]. apply Forall_app. split; [|done].
  eapply Forall_impl; [exact Ht|]. intros ev. by apply event_evolves.
Qed.

(** C9: A UDP socket of a fixed tunnel serves one source.  Over any run, every
    datagram written to a socket a fixed tunnel's loop has opened came from
    the one source the socket was opened for, every answer read from it was
    returned there, and both went through the loop that opened it, even across
    the end of flows, sessions and listeners; at no time do two open sockets of
    one loop serve one source. *)
Theorem udp_flows_private s0 tr s n f
    (Hb : begins s0) (Hr : trace s0 tr s) :
  (forall src data, ESend n f src data ∈ tr ->
     exists fl, flows s !! f = Some fl /\ (fl_socks fl = false -> fl_loop fl = n /\ src = fl_src fl))
  /\ (forall dst data, EReply n f dst data ∈ tr ->
     exists fl, flows s !! f = Some fl /\ (fl_socks fl = false -> fl_loop fl = n /\ dst = fl_src fl))
  /\ (forall g fl fl', flows s !! f = Some fl -> flows s !! g = Some fl' -> fl_socks fl = false -> fl_socks fl' = false ->
       fl_open fl = true -> fl_open fl' = true -> fl_loop fl = fl_loop fl' -> fl_src fl = fl_src fl' -> f = g).
Proof.
  destruct (trace_keeps _ _ _ Hb Hr) as [[Hl Hf] Ht]. rewrite Forall_forall in Ht. split; [|split].
  - intros src data Hin. destruct (Ht _ Hin) as (fl & Hfl & Hn & Hs). by exists fl.
  - intros dst data Hin. destruct (Ht _ Hin) as (fl & Hfl & Hn & Hs). by exists fl.
  - intros g fl fl' H1 H2 _ _ Ho1 Ho2 Hn Hs. destruct (Hf _ _ H1) as (_ & K1 & O1). destruct (Hf _ _ H2) as (_ & K2 & O2).
    destruct (O1 Ho1) as (l & L1 & F1). destruct (O2 Ho2) as (l' & L2 & F2). rewrite K1 in F1. rewrite K2 in F2.
    rewrite Hn, L2 in L1. injection L1 as ->. rewrite Hs, F2 in F1. by injection F1.
Qed.

(** A SOCKS association is silent in this version: it opens no socket in any
    run, though [proxySocksUDP] is there to relay for it. *)
Lemma association_is_silent s0 tr s n l :
  begins s0 -> trace s0 tr s -> loops s !! n = Some l -> is_assoc l = true -> l_flows l = ∅ /\ l_pending l = None.
Proof.
  intros Hb Hr Hn Ha. destruct (trace_keeps _ _ _ Hb Hr) as [[Hl _] _].
  destruct (Hl _ _ Hn) as [H1 H2]. unfold is_assoc in Ha. split.
  - apply map_eq. intros key. rewrite lookup_empty. destruct (l_flows l !! key) as [g|] eqn:Hg; [|done].
    destruct (H1 _ _ Hg) as [_ Hno]. by rewrite Hno in Ha.
  - destruct (l_pending l) as [q|]; [|done]. destruct (H2 q eq_refl) as (_ & _ & Hno). by rewrite Hno in Ha.
Qed.

(** A run, with its states and what it has done. *)
Fixpoint run (ls : list label) (s : sys) (h : history) (tr : list event) : sys * history * list event :=
  match ls with
  | [] => (s, h, tr)
  | l :: ls =>
      match step l s with
      | Some (evs, s') => run ls s' ((s, l) :: h) (tr ++ evs)
      | None => (s, h, tr)
      end
  end.

Lemma run_reach s0 ls s h tr :
  reach s0 h s -> trace s0 tr s ->
  let '(s', h', tr') := run ls s h tr in reach s0 h' s' /\ trace s0 tr' s'.
Proof.
  revert s h tr. induction ls as [|l ls IH]; intros s h tr Hr Ht; simpl; [done|].
  destruct (step l s) as [[evs s']|] eqn:Hs; [|done]. apply IH; [by eapply reach_step|by eapply trace_step].
Qed.
End forwarding.

(** ** A run of two tunnels *)
#[local] Instance fwd_text : AddrText := {|
  addr_String := toy_String;
  ServerAuth.ParseAddr := toy_ParseAddr;
  ServerAuth.ParsePrefix := toy_ParsePrefix;
  SplitHostPort := toy_split;
  ParseAddr_String := toy_ParseAddr_String;
  ParseAddr_wf := toy_ParseAddr_wf;
  ParsePrefix_wf := toy_ParsePrefix_wf;
|}.

Definition toy_port (_ port : string) : option Z :=
  if (port =? "80")%string then Some 80 else if (port =? "53")%string then Some 53 else None.

Definition toy_step : label -> sys -> option (list event * sys) :=
  step (fun l => l) toy_port (fun _ => None) toy_parse None (fun _ => true).
Definition toy_run : list label -> sys -> history -> list event -> sys * history * list event :=
  run (fun l => l) toy_port (fun _ => None) toy_parse None (fun _ => true).

Definition fwd_web : tunnel :=
  mkT (ServerAuth.mkTunnel "web" "web.internal:80" "" 8001 "tcp" 0 0 "" ["*"] "one" "" "") None.
Definition fwd_ns : tunnel :=
  mkT (ServerAuth.mkTunnel "ns" "ns.internal:53" "" 53 "udp" 0 0 "" ["*"] "" "" "") None.

(** A policy for one address. *)
Definition fwd_policies : gmap string compiledPolicy :=
  {["one"%string := mkCompiled (mkFilter true false [{| p_addr := v4 10 0 0 1; p_bits := 32 |}] [] ∅ false false true None)
                      {[Egress.tcp]} {[80]};
    "shut"%string := mkCompiled (mkFilter true false [] [] ∅ false false false None) ∅ ∅]}.

Definition fwd_ip : string := toy_String (v4 100 64 0 6).
Definition fwd_peer (name policy : string) : NativeWireGuardPeer := mkNativePeer name (wg_key x09) fwd_ip ["web"; "ns"] policy.

Definition fwd_server (peer : NativeWireGuardPeer) : Server :=
  New (mkServerConfig 2 (15 * minute) [] true [peer] "" [] "" "" true false "" "") false.

Definition fwd_start : sys :=
  let p := default (mkPlane ∅ ∅) (listen_all toy_parse None (fun _ => true) [fwd_web; fwd_ns] [(0, true); (1, true)]%nat (mkPlane ∅ ∅)) in
  mkSys (fwd_server (fwd_peer "printer" "")) fwd_policies [fwd_web; fwd_ns] p ∅ (start_loops p ∅) ∅.

Definition fwd_env : env := toy_env 0 "" "".
Definition fwd_src : string := (fwd_ip ++ ":9")%string.
Definition fwd_who : DataPlanePrincipal := principal_of_peer fwd_ip (fwd_peer "printer" "").

Lemma fwd_begins : begins fwd_start.
Proof. done. Qed.

(** The name has two addresses, the second written as IPv6; the policy
    refuses the first. *)
Definition fwd_tcp : list label :=
  [LAccept 0 "web" fwd_src; LEnter 0 fwd_env; LResolve 0 (Some [v4 10 0 0 9; Addr6 0xffff0a000001 ""]);
   LCheck 0; LCheck 0; LCheck 0; LCheck 0].

Definition fwd_udp : list label :=
  [LDatagram 1 fwd_env fwd_src [x01]; LResolveUDP 1 (Some [v4 10 0 0 1]); LCheckUDP 1; LCheckUDP 1; LDialUDP 1 7 true;
   LReply 7 [x02]].

Lemma forward_authorized_witness :
  let '(s, h, _) := toy_run fwd_tcp fwd_start [] [] in
  exists l1 x l2 resolved, h = l1 ++ x :: l2 /\ lets_in fwd_who fwd_web x l2 /\ v4 10 0 0 1 = Unmap resolved
    /\ exists st lb host c, (st, lb) ∈ l1 /\ is_check lb = true /\ policies st !! "one"%string = Some c
         /\ dd_Allowed (decide_ (fun l => l) c (mkContext fwd_who "web" host "tcp" resolved 80 0)) = true.
Proof.
  pose proof (run_reach (fun l => l) toy_port (fun _ => None) toy_parse None (fun _ => true) fwd_start fwd_tcp fwd_start [] []
    (reach_start _ _ _ _ _ _ _) (trace_start _ _ _ _ _ _ _)) as Hr.
  change (run _ _ _ _ _ _ fwd_tcp fwd_start [] []) with (toy_run fwd_tcp fwd_start [] []) in Hr.
  destruct (toy_run fwd_tcp fwd_start [] []) as [[s h] tr] eqn:Hrun. destruct Hr as [Hr _].
  assert (Hev : fst <$> toy_step (LDial 0 true) s = Some [EDial fwd_who fwd_web false (v4 10 0 0 1) 80]).
  { transitivity (fst <$> toy_step (LDial 0 true) (toy_run fwd_tcp fwd_start [] []).1.1);
      [by rewrite Hrun|vm_compute; reflexivity]. }
  destruct (toy_step (LDial 0 true) s) as [[evs s']|] eqn:Hstep; [|discriminate Hev]. injection Hev as Hev.
  destruct (forward_authorized (fun l => l) toy_port (fun _ => None) toy_parse None (fun _ => true) fwd_start h s
    (LDial 0 true) evs s' fwd_who fwd_web false (v4 10 0 0 1) 80 fwd_begins Hr Hstep) as (l1 & x & l2 & a & H1 & H2 & H3 & H4).
  - rewrite Hev. by left.
  - exists l1, x, l2, a. do 3 (split; [done|]).
    destruct (H4 "one"%string ltac:(right; by left) ltac:(discriminate)) as (st & lb & host & c & K1 & K2 & K3 & K4).
    exists st, lb, host, c. do 3 (split; [done|]). apply K4. by left.
Defined.

Lemma udp_flows_private_witness :
  let '(s, _, tr) := toy_run fwd_udp fwd_start [] [] in
  tr = [EDial fwd_who fwd_ns true (v4 10 0 0 1) 53; ESend 1 7 fwd_src [x01]; EReply 1 7 fwd_src [x02]]
  /\ exists fl, flows s !! 7%nat = Some fl /\ (fl_socks fl = false -> fwd_src = fl_src fl).
Proof.
  pose proof (run_reach (fun l => l) toy_port (fun _ => None) toy_parse None (fun _ => true) fwd_start fwd_udp fwd_start [] []
    (reach_start _ _ _ _ _ _ _) (trace_start _ _ _ _ _ _ _)) as Hr.
  change (run _ _ _ _ _ _ fwd_udp fwd_start [] []) with (toy_run fwd_udp fwd_start [] []) in Hr.
  destruct (toy_run fwd_udp fwd_start [] []) as [[s h] tr] eqn:Hrun. destruct Hr as [_ Hr].
  assert (Htr : tr = [EDial fwd_who fwd_ns true (v4 10 0 0 1) 53; ESend 1 7 fwd_src [x01]; EReply 1 7 fwd_src [x02]]).
  { transitivity (toy_run fwd_udp fwd_start [] []).2; [by rewrite Hrun|vm_compute; reflexivity]. }
  split; [done|].
  destruct (udp_flows_private (fun l => l) toy_port (fun _ => None) toy_parse None (fun _ => true) fwd_start tr s 1 7
    fwd_begins Hr) as (_ & H & _).
  assert (Hin : EReply 1 7 fwd_src [x02] ∈ tr) by (rewrite Htr; right; right; left).
  destruct (H _ _ Hin) as (fl & H1 & H2). exists fl. split; [exact H1|intros Hs; by destruct (H2 Hs)].
Defined.

(** A flow outlives the principal it was opened for: the address goes to
    another peer, whose policy denies everything, and its datagram leaves by
    the socket that is there, whose answers it gets. *)
Example flow_outlives_principal :
  let '(_, _, tr) := toy_run (fwd_udp ++ [LControl (fwd_server (fwd_peer "scanner" "shut")) fwd_policies [fwd_web; fwd_ns];
      LDatagram 1 fwd_env fwd_src [x03]; LReply 7 [x04]]) fwd_start [] [] in
  tr = [EDial fwd_who fwd_ns true (v4 10 0 0 1) 53; ESend 1 7 fwd_src [x01]; EReply 1 7 fwd_src [x02];
        ESend 1 7 fwd_src [x03]; EReply 1 7 fwd_src [x04]].
Proof. vm_compute. reflexivity. Qed.

(** The same datagram without the old flow goes nowhere. *)
Example shut_peer_is_refused :
  let '(s, _, tr) := toy_run [LControl (fwd_server (fwd_peer "scanner" "shut")) fwd_policies [fwd_web; fwd_ns];
      LDatagram 1 fwd_env fwd_src [x03]; LResolveUDP 1 (Some [v4 10 0 0 1]); LCheckUDP 1; LCheckUDP 1] fwd_start [] [] in
  tr = [] /\ map_to_list (flows s) = [].
Proof. vm_compute. split; reflexivity. Qed.

