(* ===== verification/ServerConfig.v ===== *)
(** [pkg/server/config.go]: what [ParseConfig] does with a configuration that
    has been decoded: its defaults, its normalizations and its checks, in the
    order of the code, each of which ends it with an error.

    YAML, url.Parse, net.ParseCIDR, net.LookupPort and strconv.Atoi are
    parameters, and so is the portal's template check; the files of
    instructions and template are what [read_file] says.  The ranges over the
    two maps have their order from an argument. *)
From S2P Require Import Prelude Bytes Netip WgKeys Egress Scheduler ServerAuth ServerTable ServerToy ClientTransport Dns.
From S2P Require Import TunnelPlane.

(** ** The configuration file *)
Record OIDCIssuerConfig := mkIssuerConfig {
  ic_issuer : OIDCIssuer;
  ic_DeprecatedClientSecret : string;
}.

Record RelayConfig := mkRelay {
  rl_Enabled : bool;
  rl_URL : string;
  rl_Name : string;
  rl_IdentityFile : string;
  rl_Fingerprint : string;
  rl_DirectClients : bool;
  rl_Endpoints : list (string * string);
  rl_ReconnectMin : Z;
  rl_ReconnectMax : Z;
  rl_AdvertiseDirect : bool;
}.

Record MASQUEConfig := mkMASQUE {
  mq_Enabled : bool;
  mq_Listen : string;
  mq_HTTP2URL : string;
  mq_HTTP3URL : string;
  mq_MatchDomains : list string;
  mq_ClientCAFile : string;
  mq_IssuerCertFile : string;
  mq_IssuerKeyFile : string;
  mq_CertificateTTL : Z;
  mq_Tunnels : gmap string string;
}.

Record PortalConfig := mkPortal {
  po_Enabled : bool;
  po_Template : string;
  po_WebEnabled : bool;
  po_WebListen : string;
}.

(** A tunnel with the URL of its [portal] block. *)
Record tunnelYAML := mkTY { ty_tunnel : tunnel; ty_Portal : option string }.

Record Config := mkC {
  c_StateDir : string;
  c_HTTPS : string;
  c_WireGuard : string;
  c_ListenName : string;
  c_AuthorizedKeysDir : string;
  c_Issuers : list OIDCIssuerConfig;
  c_SessionTTL : Z;
  c_MaxSessionsPerKey : Z;
  c_WebUIToken : string;
  c_TunnelCIDR : string;
  c_AdvertisedEndpoint : string;
  c_DNS : DNSConfig;
  c_Multipath : option bool;
  c_Force : string;
  c_WebhookURL : string;
  c_Exec : string;
  c_AuthorizerTimeout : Z;
  c_DestinationPolicies : gmap string DestinationPolicy;
  c_NativeEnabled : bool;
  c_NativePeers : list NativeWireGuardPeer;
  c_Relay : RelayConfig;
  c_MASQUE : MASQUEConfig;
  c_Portal : PortalConfig;
  c_Tunnels : list tunnelYAML;
}.

Inductive config_error : Type :=
  | NoAuthentication
  | IssuerIncomplete
  | ClientSecretUnsupported (name : string)
  | DuplicateIssuer (name : string)
  | BadTunnelCIDR
  | TunnelCIDRTooSmall
  | BadDomain (domain : string)
  | NoUpstreams
  | BadUpstreamDNS (raw : string)
  | UpstreamIsOurs (raw : string)
  | BadForce
  | ForceNeedsMultipath
  | RelayIncomplete
  | RelayEndpointsCombined
  | RelayEndpointWithoutURL
  | DuplicateRelayEndpoint (url : string)
  | RelayWithoutURL
  | RelayAdvertisesEndpoint
  | AdvertiseDirectNeedsRelay
  | DirectClientsNeedRelay
  | MASQUEIncomplete
  | BadRelayURL
  | HTTP3Unsupported
  | NoMatchDomains
  | BadMatchDomain (domain : string)
  | NoMASQUECertificates
  | BadCertificateTTL
  | TunnelIncomplete
  | DuplicateTunnel (name : string)
  | BadVirtualPort (name : string)
  | BadLocalPort (name : string)
  | LocalHostNotLoopback (name : string)
  | UnsafeDocsURL (name : string)
  | SocksBlockMissing (name : string)
  | BadSocksFilter (name : string)
  | NegativeDNSTimeout (name : string)
  | NegativeIdleTimeout (name : string)
  | BadSocksUpstream (name : string)
  | TransparentNeedsUpstream (name : string)
  | TransparentCombined (name : string)
  | SocksBlockUnexpected (name : string)
  | BadProtocol (name : string)
  | BadTarget (name : string)
  | BadTargetPort (name : string)
  | UnsafePortalURL (name : string)
  | WebUITokenTooShort
  | BadTemplate
  | PortalWebWithoutListen
  | BadPortalWebListen
  | EmptyPolicyName
  | BadPolicy (name : string)
  | BadPeers (e : peer_error)
  | TunnelPolicyUnknown (name : string)
  | NoMASQUETunnels
  | MASQUEDomainUnknown (domain : string)
  | MASQUETunnelUnfit (domain : string).

(** A parsed URL. *)
Record URL := mkURL { u_Scheme : string; u_Host : string; u_User : bool; u_RawQuery : string; u_Fragment : string }.

Definition minAdminTokenLength : Z := 32.
Definition hour : Z := 60 * minute.

Section config.
Context {keys : KeyOps} {text : AddrText} (unicode_lower : list byte -> list byte).
Context (prefix_String : Prefix -> string) (LookupPort : string -> string -> option Z) (ParseCIDR : string -> bool).
Context (url_Parse : string -> option URL) (Atoi : string -> option Z) (template_fatal : string -> bool).
Context (read_file read_template : string -> option string).

Definition empty (s : string) : bool := (s =? "")%string.
Definition TrimSpace (s : string) : string := str_of (trim_space (bytes_of s)).
Definition ToLower (s : string) : string := str_of (to_lower unicode_lower (bytes_of s)).
Definition TrimDot (s : string) : string := str_of (trim_suffix (bytes_of s) [x2e]).
Definition ContainsAny (s : string) (chars : list byte) : bool := existsb (fun c => bool_decide (c ∈ chars)) (bytes_of s).

(** [instructions.SafeURL] *)
Definition SafeURL (raw : string) : bool :=
  let s := TrimSpace raw in
  if ContainsAny s [x20; x09; x0d; x0a; x22; x27; x3c; x3e] then false
  else
    let l := bytes_of (ToLower s) in
    has_prefix l (bytes_of "http://") || has_prefix l (bytes_of "https://").

(** ** The checks *)

(** [auth.oidc.issuers]: the scopes have a default. *)
Definition with_scopes (i : OIDCIssuer) : OIDCIssuer :=
  match oi_Scopes i with
  | [] => mkIssuer (oi_Name i) (oi_Issuer i) (oi_ClientID i) ["openid"; "email"; "profile"] (oi_GroupsClaim i)
            (oi_RequireVerifiedEmail i)
  | _ => i
  end.

Fixpoint check_issuers (seenIssuers : gset string) (l : list OIDCIssuerConfig) : result config_error (list OIDCIssuerConfig) :=
  match l with
  | [] => Ok []
  | iss :: l =>
      let i := ic_issuer iss in
      if empty (oi_Name i) || empty (oi_Issuer i) || empty (oi_ClientID i) then Err IssuerIncomplete
      else if negb (empty (ic_DeprecatedClientSecret iss)) then Err (ClientSecretUnsupported (oi_Name i))
      else if bool_decide (oi_Name i ∈ seenIssuers) then Err (DuplicateIssuer (oi_Name i))
      else
        let? rest := check_issuers ({[oi_Name i]} ∪ seenIssuers) l in
        Ok (mkIssuerConfig (with_scopes i) (ic_DeprecatedClientSecret iss) :: rest)
  end.

Definition BitLen (a : Addr) : Z := match a with AddrNone => 0 | Addr4 _ => 32 | Addr6 _ _ => 128 end.

(** [network.tunnel_cidr], masked. *)
Definition check_network (cidr : string) : result config_error string :=
  match ParsePrefix (if empty cidr then "100.64.0.0/16" else cidr)%string with
  | None => Err BadTunnelCIDR
  | Some tunnelPrefix =>
      if Is4In6 (p_addr tunnelPrefix) || (BitLen (p_addr tunnelPrefix) - p_bits tunnelPrefix <? 2)
      then Err TunnelCIDRTooSmall else Ok (prefix_String (Masked tunnelPrefix))
  end.

Definition prefixAddr (cidr : string) : Addr :=
  match ParsePrefix cidr with Some prefix => Next (p_addr prefix) | None => AddrNone end.

Definition normalizeDNSUpstream (raw : string) : option (string * Addr) :=
  let raw := TrimSpace raw in
  if empty raw then None
  else
    match ParseAddr raw with
    | Some ip => Some (JoinHostPort (addr_String ip) 53, ip)
    | None =>
        '(host, port) ← SplitHostPort raw;
        ip ← ParseAddr host;
        p ← Atoi port;
        if (p <? 1) || (65535 <? p) then None else Some (JoinHostPort (addr_String ip) p, ip)
    end.

Fixpoint check_upstreams (serverIP : Addr) (seenUpstreams : gset string) (l : list string) :
    result config_error (list string) :=
  match l with
  | [] => Ok []
  | raw :: l =>
      match normalizeDNSUpstream raw with
      | None => Err (BadUpstreamDNS raw)
      | Some (upstream, ip) =>
          if bool_decide (ip = serverIP) then Err (UpstreamIsOurs raw)
          else if bool_decide (upstream ∈ seenUpstreams) then check_upstreams serverIP seenUpstreams l
          else let? rest := check_upstreams serverIP ({[upstream]} ∪ seenUpstreams) l in Ok (upstream :: rest)
      end
  end.

Definition check_domain (domain : string) : result config_error unit :=
  if empty domain then Ok tt
  else
    let dom := TrimDot (ToLower (TrimSpace domain)) in
    if empty dom || ContainsAny dom (bytes_of "/: @") then Err (BadDomain domain) else Ok tt.

Definition check_dns (cidr : string) (d : DNSConfig) : result config_error DNSConfig :=
  let? _ := check_domain (dns_Domain d) in
  let f := dns_Forwarding d in
  if negb (fw_Enabled f) then Ok d
  else
    match fw_Upstreams f with
    | [] => Err NoUpstreams
    | l => let? upstreams := check_upstreams (prefixAddr cidr) ∅ l in Ok (mkDNS (dns_Domain d) (mkForwarding true upstreams))
    end.

Definition MultipathEnabled (c : Config) : bool := match c_Multipath c with None => true | Some b => b end.

Definition check_transport (c : Config) : result config_error string :=
  match ValidateTransportName (c_Force c) with
  | Err _ => Err BadForce
  | Ok force => if negb (empty force) && negb (MultipathEnabled c) then Err ForceNeedsMultipath else Ok force
  end.

Fixpoint check_endpoints (seenRelayURLs : gset string) (l : list (string * string)) : result config_error unit :=
  match l with
  | [] => Ok tt
  | (url, _) :: l =>
      if empty url then Err RelayEndpointWithoutURL
      else if bool_decide (url ∈ seenRelayURLs) then Err (DuplicateRelayEndpoint url)
      else check_endpoints ({[url]} ∪ seenRelayURLs) l
  end.

Definition relay_defaults (r : RelayConfig) : RelayConfig :=
  mkRelay (rl_Enabled r) (rl_URL r) (rl_Name r) (rl_IdentityFile r) (rl_Fingerprint r) (rl_DirectClients r) (rl_Endpoints r)
    (if rl_ReconnectMin r =? 0 then second else rl_ReconnectMin r)
    (if rl_ReconnectMax r =? 0 then minute else rl_ReconnectMax r) (rl_AdvertiseDirect r).

Definition check_relay (advertised : string) (r : RelayConfig) : result config_error RelayConfig :=
  let? _ :=
    (if rl_Enabled r then
      if empty (rl_Name r) || empty (rl_IdentityFile r) then Err RelayIncomplete
      else
        let? _ :=
          match rl_Endpoints r with
          | [] => if empty (rl_URL r) then Err RelayWithoutURL else Ok tt
          | l => if negb (empty (rl_URL r)) || negb (empty (rl_Fingerprint r)) then Err RelayEndpointsCombined
                 else check_endpoints ∅ l
          end in
        if negb (empty advertised) then Err RelayAdvertisesEndpoint else Ok tt
     else if rl_AdvertiseDirect r then Err AdvertiseDirectNeedsRelay
     else if rl_DirectClients r then Err DirectClientsNeedRelay
     else Ok tt) in
  Ok (relay_defaults r).

Definition relay_url_ok (raw : string) : bool :=
  empty raw
  || match url_Parse raw with
     | None => false
     | Some u => (u_Scheme u =? "https")%string && negb (empty (u_Host u)) && negb (u_User u) && empty (u_RawQuery u)
                 && empty (u_Fragment u)
     end.

Definition match_domain_ok (domain : string) : bool :=
  let domain := TrimDot (TrimSpace domain) in
  negb (empty domain || ContainsAny domain (bytes_of "/:@") || match ParseIP domain with Some _ => true | None => false end).

Definition check_masque (m : MASQUEConfig) : result config_error MASQUEConfig :=
  if negb (mq_Enabled m) then Ok m
  else if empty (mq_Listen m) || empty (mq_HTTP2URL m) then Err MASQUEIncomplete
  else if negb (relay_url_ok (mq_HTTP2URL m) && relay_url_ok (mq_HTTP3URL m)) then Err BadRelayURL
  else if negb (empty (mq_HTTP3URL m)) then Err HTTP3Unsupported
  else
    match mq_MatchDomains m with
    | [] => Err NoMatchDomains
    | l =>
        match List.find (fun d => negb (match_domain_ok d)) l with
        | Some domain => Err (BadMatchDomain (TrimDot (TrimSpace domain)))
        | None =>
            if empty (mq_ClientCAFile m) || empty (mq_IssuerCertFile m) || empty (mq_IssuerKeyFile m) then Err NoMASQUECertificates
            else
              let ttl := if mq_CertificateTTL m =? 0 then 15 * minute else mq_CertificateTTL m in
              if (ttl <? minute) || (24 * hour <? ttl) then Err BadCertificateTTL
              else Ok (mkMASQUE true (mq_Listen m) (mq_HTTP2URL m) (mq_HTTP3URL m) l (mq_ClientCAFile m) (mq_IssuerCertFile m)
                         (mq_IssuerKeyFile m) ttl (mq_Tunnels m))
        end
    end.

(** [loadInstructionsFile] *)
Definition loadInstructionsFile (t : TunnelConfig) : TunnelConfig :=
  if empty (tc_Instructions t) || bool_decide (x0a ∈ bytes_of (tc_Instructions t)) then t
  else
    match read_file (tc_Instructions t) with
    | None => t
    | Some s =>
        ServerAuth.mkTunnel (tc_Name t) (tc_Target t) (tc_Description t) (tc_VirtualPort t) (tc_Protocol t) (tc_UDPIdleTimeout t)
          (tc_LocalPort t) (tc_LocalHost t) (tc_Allow t) (tc_DestinationPolicy t) s (tc_DocsURL t)
    end.

Definition with_protocol (p : string) (t : TunnelConfig) : TunnelConfig :=
  ServerAuth.mkTunnel (tc_Name t) (tc_Target t) (tc_Description t) (tc_VirtualPort t) p (tc_UDPIdleTimeout t)
    (tc_LocalPort t) (tc_LocalHost t) (tc_Allow t) (tc_DestinationPolicy t) (tc_Instructions t) (tc_DocsURL t).

Definition upstream_url_ok (raw : string) : bool :=
  match url_Parse raw with
  | None => false
  | Some u => ((u_Scheme u =? "socks5")%string || (u_Scheme u =? "socks5h")%string) && negb (empty (u_Host u))
  end.

Definition check_socks (name : string) (c : SocksConfig) : result config_error unit :=
  if negb (forallb ParseCIDR (so_Filters c)) then Err (BadSocksFilter name)
  else if so_DNSTimeout c <? 0 then Err (NegativeDNSTimeout name)
  else if so_UDPIdleTimeout c <? 0 then Err (NegativeIdleTimeout name)
  else if negb (empty (so_Upstream c)) && negb (upstream_url_ok (so_Upstream c)) then Err (BadSocksUpstream name)
  else if negb (so_Transparent c) then Ok tt
  else if empty (so_Upstream c) then Err (TransparentNeedsUpstream name)
  else if so_OnlyLocal c || nonempty (so_Filters c) || nonempty (so_DomainFilters c) || nonempty (so_ASNFilters c)
          || match so_ASNUpdates c with Some _ => true | None => false end || negb (empty (so_ASNURL c)) || so_ReverseFilters c
          || so_AllowAll c || so_AllowBind c || negb (so_DNSTimeout c =? 0) || negb (so_UDPIdleTimeout c =? 0)
  then Err (TransparentCombined name)
  else Ok tt.

(** A fixed target; the protocol has a default. *)
Definition check_fixed (t : TunnelConfig) : result config_error TunnelConfig :=
  let t := if empty (tc_Protocol t) then with_protocol "tcp" t else t in
  if negb ((tc_Protocol t =? "tcp")%string || (tc_Protocol t =? "udp")%string) then Err (BadProtocol (tc_Name t))
  else
    match SplitHostPort (tc_Target t) with
    | None => Err (BadTarget (tc_Name t))
    | Some (host, port) =>
        if empty host || empty port then Err (BadTarget (tc_Name t))
        else
          match LookupPort (tc_Protocol t) port with
          | None => Err (BadTargetPort (tc_Name t))
          | Some _ =>
              if (tc_Protocol t =? "udp")%string && (tc_UDPIdleTimeout t <? 0) then Err (NegativeIdleTimeout (tc_Name t)) else Ok t
          end
    end.

Definition local_host_ok (host : string) : bool :=
  empty host || match ParseAddr host with Some ip => IsLoopback ip | None => false end.

Definition portal_url_ok (p : option string) : bool :=
  match p with Some url => empty url || SafeURL url | None => true end.

(** One tunnel, its instructions read; what is returned is normalized. *)
Definition check_tunnel (y : tunnelYAML) : result config_error tunnelYAML :=
  let t := t_config (ty_tunnel y) in
  let name := tc_Name t in
  if (tc_VirtualPort t <? 1) || (65535 <? tc_VirtualPort t) then Err (BadVirtualPort name)
  else if (tc_LocalPort t <? 0) || (65535 <? tc_LocalPort t) then Err (BadLocalPort name)
  else if negb (local_host_ok (tc_LocalHost t)) then Err (LocalHostNotLoopback name)
  else if negb (empty (tc_DocsURL t)) && negb (SafeURL (tc_DocsURL t)) then Err (UnsafeDocsURL name)
  else
    let? t' :=
      (if IsSocks (ty_tunnel y) then
         match t_Socks (ty_tunnel y) with
         | None => Err (SocksBlockMissing name)
         | Some c => let? _ := check_socks name c in Ok t
         end
       else
         match t_Socks (ty_tunnel y) with
         | Some _ => Err (SocksBlockUnexpected name)
         | None => check_fixed t
         end) in
    if negb (portal_url_ok (ty_Portal y)) then Err (UnsafePortalURL name)
    else Ok (mkTY (mkT t' (t_Socks (ty_tunnel y))) (ty_Portal y)).

Definition load_instructions (y : tunnelYAML) : tunnelYAML :=
  mkTY (mkT (loadInstructionsFile (t_config (ty_tunnel y))) (t_Socks (ty_tunnel y))) (ty_Portal y).

Definition y_name (y : tunnelYAML) : string := t_name (ty_tunnel y).

Fixpoint check_tunnels (seen : gset string) (l : list tunnelYAML) : result config_error (list tunnelYAML) :=
  match l with
  | [] => Ok []
  | y :: l =>
      let y := load_instructions y in
      if empty (y_name y) || empty (tc_Target (t_config (ty_tunnel y))) then Err TunnelIncomplete
      else if bool_decide (y_name y ∈ seen) then Err (DuplicateTunnel (y_name y))
      else
        let? y' := check_tunnel y in
        let? rest := check_tunnels ({[y_name y]} ∪ seen) l in
        Ok (y' :: rest)
  end.

Definition check_portal (p : PortalConfig) : result config_error PortalConfig :=
  let p :=
    if empty (po_Template p) || bool_decide (x0a ∈ bytes_of (po_Template p)) then p
    else match read_template (po_Template p) with
         | Some s => mkPortal (po_Enabled p) s (po_WebEnabled p) (po_WebListen p)
         | None => p
         end in
  if negb (po_Enabled p) then Ok p
  else if negb (empty (po_Template p)) && template_fatal (po_Template p) then Err BadTemplate
  else if negb (po_WebEnabled p) then Ok p
  else if empty (po_WebListen p) then Err PortalWebWithoutListen
  else match SplitHostPort (po_WebListen p) with Some _ => Ok p | None => Err BadPortalWebListen end.

Definition parse_prefix (s : string) : result unit Prefix := match ParsePrefix s with Some p => Ok p | None => Err tt end.

Definition compiles (p : DestinationPolicy) : bool :=
  match compilePolicy parse_prefix unicode_lower p None with Ok _ => true | Err _ => false end.

Fixpoint check_policies (policies : gmap string DestinationPolicy) (order : list string) : result config_error unit :=
  match order with
  | [] => Ok tt
  | name :: order =>
      match policies !! name with
      | None => check_policies policies order
      | Some policy =>
          if empty (TrimSpace name) then Err EmptyPolicyName
          else if negb (compiles policy) then Err (BadPolicy name)
          else check_policies policies order
      end
  end.

Fixpoint check_attachments (policies : gset string) (l : list tunnelYAML) : result config_error unit :=
  match l with
  | [] => Ok tt
  | y :: l =>
      let name := tc_DestinationPolicy (t_config (ty_tunnel y)) in
      if negb (empty name) && negb (bool_decide (name ∈ policies)) then Err (TunnelPolicyUnknown (y_name y))
      else check_attachments policies l
  end.

Definition containsDomain (domains : list string) (want : string) : bool :=
  existsb (fun domain => (TrimDot (ToLower (TrimSpace domain)) =? want)%string) domains.

Definition find_tunnel (name : string) (l : list tunnelYAML) : option tunnelYAML :=
  List.find (fun y => (y_name y =? name)%string) l.

Fixpoint check_masque_tunnels (m : MASQUEConfig) (tunnels : list tunnelYAML) (order : list string) : result config_error unit :=
  match order with
  | [] => Ok tt
  | domain :: order =>
      match mq_Tunnels m !! domain with
      | None => check_masque_tunnels m tunnels order
      | Some tunnelName =>
          let normalized := TrimDot (ToLower (TrimSpace domain)) in
          if negb (normalized =? domain)%string || empty normalized || negb (containsDomain (mq_MatchDomains m) normalized)
          then Err (MASQUEDomainUnknown domain)
          else
            match find_tunnel tunnelName tunnels with
            | Some y => if IsSocks (ty_tunnel y) then Err (MASQUETunnelUnfit domain) else check_masque_tunnels m tunnels order
            | None => Err (MASQUETunnelUnfit domain)
            end
      end
  end.

Definition check_native (c : Config) (cidr : string) (tunnels : list tunnelYAML) : result config_error (list NativeWireGuardPeer) :=
  let prefix := default {| p_addr := AddrNone; p_bits := 0 |} (ParsePrefix cidr) in
  match validate_native (c_NativeEnabled c) prefix (dom (c_DestinationPolicies c)) (list_to_set (y_name <$> tunnels))
          (c_NativePeers c) with
  | Ok peers => Ok peers
  | Err e => Err (BadPeers e)
  end.

(** ** ParseConfig *)
Definition or_default (s d : string) : string := if empty s then d else s.

Definition ParseConfig (policy_order : gmap string DestinationPolicy -> list string)
    (masque_order : gmap string string -> list string) (c : Config) (stateDir : string) : result config_error Config :=
  if empty (c_AuthorizedKeysDir c) && negb (nonempty (c_Issuers c)) && negb (c_NativeEnabled c) then Err NoAuthentication
  else
    let? issuers := check_issuers ∅ (c_Issuers c) in
    let? cidr := check_network (c_TunnelCIDR c) in
    let? dns := check_dns cidr (c_DNS c) in
    let? force := check_transport c in
    let? relay := check_relay (c_AdvertisedEndpoint c) (c_Relay c) in
    let? masque := check_masque (c_MASQUE c) in
    let? tunnels := check_tunnels ∅ (c_Tunnels c) in
    if negb (empty (c_WebUIToken c)) && (Zlen (bytes_of (c_WebUIToken c)) <? minAdminTokenLength) then Err WebUITokenTooShort
    else
      let? portal := check_portal (c_Portal c) in
      let? _ := check_policies (c_DestinationPolicies c) (policy_order (c_DestinationPolicies c)) in
      let? peers := check_native c cidr tunnels in
      let? _ := check_attachments (dom (c_DestinationPolicies c)) tunnels in
      let? _ :=
        (if negb (mq_Enabled masque) then Ok tt
         else if bool_decide (mq_Tunnels masque = ∅) then Err NoMASQUETunnels
         else check_masque_tunnels masque tunnels (masque_order (mq_Tunnels masque))) in
      Ok (mkC (or_default (c_StateDir c) stateDir) (or_default (c_HTTPS c) ":8443") (or_default (c_WireGuard c) ":51820")
            (TrimSpace (c_ListenName c)) (c_AuthorizedKeysDir c) issuers
            (if c_SessionTTL c =? 0 then 15 * minute else c_SessionTTL c) (c_MaxSessionsPerKey c) (c_WebUIToken c) cidr
            (c_AdvertisedEndpoint c) dns (c_Multipath c) force (c_WebhookURL c) (c_Exec c)
            (if c_AuthorizerTimeout c =? 0 then 5 * second else c_AuthorizerTimeout c) (c_DestinationPolicies c)
            (c_NativeEnabled c) peers relay masque portal tunnels).

(** ** What an accepted configuration is *)





















End config.

(** ** A configuration *)
#[local] Instance config_text : AddrText := {|
  addr_String := toy_String;
  ServerAuth.ParseAddr := toy_ParseAddr;
  ServerAuth.ParsePrefix := toy_ParsePrefix;
  SplitHostPort := toy_split;
  ParseAddr_String := toy_ParseAddr_String;
  ParseAddr_wf := toy_ParseAddr_wf;
  ParsePrefix_wf := toy_ParsePrefix_wf;
|}.

Definition toy_prefix_String (p : Prefix) : string :=
  match p_addr p with
  | Addr4 a => str_of (x34 :: put_be 4 a ++ [byte_of (p_bits p)])
  | _ => ""
  end.


Definition toy_socks (upstream : string) (transparent : bool) (filters : list string) : SocksConfig :=
  mkSocks transparent false filters [] [] None "" false 0 false false false upstream 0 (negb (bool_decide (filters = [])), false, false).

Definition toy_socks_tunnel (protocol : string) (filters : list string) : tunnelYAML :=
  mkTY (mkT (ServerAuth.mkTunnel "proxy" "socks" "" 1080 protocol 0 0 "" ["*"] "" "" "") (Some (toy_socks "" false filters))) None.

(** A fixed target whose protocol is left to the default. *)
Definition toy_web : tunnelYAML :=
  mkTY (mkT (ServerAuth.mkTunnel "web" "web.internal:80" "" 80 "" 0 0 (toy_String (v4 127 0 0 1)) ["*"] "one" "" "") None) (Some ""%string).

Definition toy_file (ttl : Z) (upstreams : list string) (ts : list tunnelYAML) : Config :=
  mkC "" "" "" " north " "" [mkIssuerConfig (mkIssuer "idp" "https://idp" "id" [] "" None) ""] ttl 2 ""
    (str_of [x34; x64; x40; x00; x05; x1d]) "" (mkDNS "" (mkForwarding true upstreams)) None "udp" "" "" 0
    {["one"%string := mkPolicy [] [] [] false false true ["tcp"] [80]]} true
    [mkNativePeer "printer" (wg_key x09) (toy_String (v4 100 64 0 6)) ["web"] "one"]
    (mkRelay false "" "" "" "" false [] 0 0 false) (mkMASQUE false "" "" "" [] "" "" "" 0 ∅) (mkPortal false "" false "") ts.

Definition toy_port (_ port : string) : option Z := if (port =? "80")%string then Some 80 else None.
Definition toy_cidr_ok (cidr : string) : bool := negb (cidr =? "")%string.

Definition toy_ParseConfig (c : Config) : result config_error Config :=
  ParseConfig (fun l => l) toy_prefix_String toy_port toy_cidr_ok (fun _ => None) (fun _ => None) (fun _ => false)
    (fun _ => None) (fun _ => None) (fun m => (map_to_list m).*1) (fun m => (map_to_list m).*1) c "/state".

Definition toy_upstream : string := toy_String (v4 8 8 8 8).
Definition toy_accepted : result config_error Config :=
  toy_ParseConfig (toy_file 0 [toy_upstream; toy_upstream] [toy_web; toy_socks_tunnel "" ["10.0.0.0/8"]]).


(** The defaults and normalizations of that file. *)
Example toy_normalized :
  match toy_accepted with
  | Ok c' => c_SessionTTL c' = 15 * minute /\ c_ListenName c' = "north"%string /\ c_Force c' = "direct-udp"%string
             /\ c_TunnelCIDR c' = str_of [x34; x64; x40; x00; x00; x1d]
             /\ fw_Upstreams (dns_Forwarding (c_DNS c')) = [(toy_upstream ++ ":53")%string]
             /\ (tc_Protocol ∘ t_config ∘ ty_tunnel <$> c_Tunnels c') = ["tcp"; ""]%string
  | Err _ => False
  end.
Proof. vm_compute. repeat split. Qed.

(** Nothing bounds the session time below. *)
Example negative_ttl_accepted :
  match toy_ParseConfig (toy_file (-5) [toy_upstream] [toy_web]) with Ok c' => c_SessionTTL c' = -5 | Err _ => False end.
Proof. vm_compute. reflexivity. Qed.

(** A SOCKS tunnel's protocol is not looked at: this one listens for
    datagrams, for which its target has no port. *)
Example socks_over_udp_accepted :
  match toy_ParseConfig (toy_file 0 [toy_upstream] [toy_web; toy_socks_tunnel "udp" []]) with
  | Ok c' => (fun y => (is_udp (ty_tunnel y), SplitHostPort (tc_Target (t_config (ty_tunnel y))))) <$> last (c_Tunnels c')
             = Some (true, None)
  | Err _ => False
  end.
Proof. vm_compute. reflexivity. Qed.

(** Filters are checked by one parser and read by another: net.ParseCIDR
    takes a prefix length with a leading zero, netip.ParsePrefix does not, and
    then the accepted tunnel has no proxy behind its listener. *)
Example accepted_filter_unserved :
  match toy_ParseConfig (toy_file 0 [toy_upstream] [toy_web; toy_socks_tunnel "" ["10.0.0.0/08"]]) with
  | Ok c' => (fun y => newSocksRuntime parse_prefix None (fun _ => true) (ty_tunnel y)) <$> last (c_Tunnels c') = Some None
  | Err _ => False
  end.
Proof. vm_compute. reflexivity. Qed.

(** The server's own address written as an IPv4-mapped one passes for another
    upstream. *)
Example mapped_upstream_accepted :
  match toy_ParseConfig (toy_file 0 [toy_String (Addr6 (Z.lor (Z.shiftl 65535 32) (Z.shiftl 100 24 + Z.shiftl 64 16 + 1)) "")] [toy_web]) with
  | Ok c' => prefixAddr (c_TunnelCIDR c') = v4 100 64 0 1
             /\ Unmap (Addr6 (Z.lor (Z.shiftl 65535 32) (Z.shiftl 100 24 + Z.shiftl 64 16 + 1)) "") = v4 100 64 0 1
  | Err _ => False
  end.
Proof. vm_compute. split; reflexivity. Qed.
