(* ===== verification/ConfigWatch.v ===== *)
(** [pkg/server/reload.go]: [WatchConfig], the goroutine that notices changes
    of the configuration file and reloads it.

    The steps are those of its [select]: the projection ticker, an event of
    fsnotify, the debounce timer, and between the timer and [Reload] the read
    of the file and the watch of a new key directory.  Around them the
    environment writes the file, moves the projection's link and queues
    events.  Time is the order of the steps: the timer may fire any time after
    it was set. *)
From S2P Require Import Prelude Bytes Egress ServerAuth ServerTable ServerConfig.

(** An event of fsnotify, its name cleaned and taken apart; [ev_op] says that
    it is a write, a create, a rename or a remove. *)
Record event := mkEvent { ev_name : string; ev_parent : string; ev_base : string; ev_op : bool }.

Record watch := mkWatch {
  disk : option string;
  link : option string;
  target : string;
  keysDir : string;
  watches : gset string;
  queue : list event;
  pending : bool;
  loaded : option Config;
  refused : option Config;
  running : Config;
  hup : option Config;
}.

Definition set_queue (q : list event) (s : watch) : watch :=
  mkWatch (disk s) (link s) (target s) (keysDir s) (watches s) q (pending s) (loaded s) (refused s) (running s) (hup s).
Definition set_pending (b : bool) (s : watch) : watch :=
  mkWatch (disk s) (link s) (target s) (keysDir s) (watches s) (queue s) b (loaded s) (refused s) (running s) (hup s).
Definition set_target (t : string) (s : watch) : watch :=
  mkWatch (disk s) (link s) t (keysDir s) (watches s) (queue s) (pending s) (loaded s) (refused s) (running s) (hup s).
Definition set_loaded (c : option Config) (s : watch) : watch :=
  mkWatch (disk s) (link s) (target s) (keysDir s) (watches s) (queue s) (pending s) c (refused s) (running s) (hup s).

Section watch.
Context (path configDir : string) (LoadConfig : option string -> option Config) (Abs : string -> option string).

Definition projection (e : event) : bool :=
  (ev_parent e =? configDir)%string && has_prefix (bytes_of (ev_base e)) (bytes_of "..").

Definition keyEvent (keys : string) (e : event) : bool :=
  negb (keys =? "")%string && ((ev_parent e =? keys)%string || (ev_name e =? keys)%string).

(** The events that set the timer. *)
Definition relevant (keys : string) (e : event) : bool :=
  ((ev_name e =? path)%string || projection e || keyEvent keys e) && ev_op e.

(** An event that tells of the configuration file itself. *)
Definition file_event (e : event) : bool := ((ev_name e =? path)%string || projection e) && ev_op e.

(** What to do about the key directory of a configuration: [None] when the
    path cannot be made absolute or its watch fails. *)
Definition nextKeys (c : Config) (keys : string) (ok : bool) : option string :=
  let next := c_AuthorizedKeysDir c in
  if (next =? "")%string then Some ""%string
  else
    match Abs next with
    | None => None
    | Some next => if (next =? keys)%string || ok then Some next else None
    end.

Definition apply (c : Config) (ok : bool) (s : watch) : watch :=
  match nextKeys c (keysDir s) ok with
  | None => mkWatch (disk s) (link s) (target s) (keysDir s) (watches s) (queue s) (pending s) None (Some c) (running s) (hup s)
  | Some next =>
      let added := if (next =? "")%string || (next =? keysDir s)%string then watches s else {[next]} ∪ watches s in
      let left :=
        if negb (keysDir s =? "")%string && negb (keysDir s =? next)%string && negb (keysDir s =? configDir)%string
        then added ∖ {[keysDir s]} else added in
      mkWatch (disk s) (link s) (target s) next left (queue s) (pending s) None None c (hup s)
  end.

Inductive label : Type :=
  | LChange (file : option string) (to : option string) (events : list event)
  | LTick
  | LEvent
  | LFire
  | LApply (ok : bool)
  | LError
  | LOverflow
  | LGone (dir : string)
  | LHup
  | LHupApply.

(** What the environment may do: a change of the file is announced by an event
    of the watched directory, or it is a new target of the link. *)
Definition announced (file to : option string) (events : list event) (s : watch) : bool :=
  (bool_decide (configDir ∈ watches s) && existsb file_event events)
  || match to with Some l => negb (l =? target s)%string | None => false end
  || bool_decide (file = disk s) && bool_decide (to = link s).

Definition step (l : label) (s : watch) : option watch :=
  match l with
  | LChange file to events =>
      if announced file to events s
      then Some (mkWatch file to (target s) (keysDir s) (watches s) (queue s ++ events) (pending s) (loaded s) (refused s) (running s) (hup s))
      else None
  | LTick =>
      match loaded s, link s with
      | Some _, _ => None
      | None, Some next => Some (if (next =? target s)%string then s else set_pending true (set_target next s))
      | None, None => Some s
      end
  | LEvent =>
      match loaded s, queue s with
      | None, e :: q => Some (let s := set_queue q s in if relevant (keysDir s) e then set_pending true s else s)
      | _, _ => None
      end
  | LFire =>
      match loaded s with
      | Some _ => None
      | None => if pending s then Some (set_loaded (LoadConfig (disk s)) (set_pending false s)) else None
      end
  | LApply ok => (fun c => apply c ok s) <$> loaded s
  | LError => match loaded s with Some _ => None | None => Some s end
  | LOverflow => Some (set_queue [] s)
  | LGone dir =>
      Some (mkWatch (disk s) (link s) (target s) (keysDir s) (watches s ∖ {[dir]}) (queue s) (pending s) (loaded s) (refused s) (running s) (hup s))
  | LHup =>
      match hup s with
      | Some _ => None
      | None => Some (mkWatch (disk s) (link s) (target s) (keysDir s) (watches s) (queue s) (pending s) (loaded s) (refused s) (running s)
                        (LoadConfig (disk s)))
      end
  | LHupApply =>
      (fun c => mkWatch (disk s) (link s) (target s) (keysDir s) (watches s) (queue s) (pending s) (loaded s) (refused s) c None) <$> hup s
  end.

Fixpoint run (ls : list label) (s : watch) : option watch :=
  match ls with [] => Some s | l :: ls => s' ← step l s; run ls s' end.

(** [WatchConfig] up to its goroutine, for a configuration just loaded. *)
Definition start (file to : option string) (c : Config) (ok okKeys : bool) : option watch :=
  if negb ok then None
  else
  keys ← (if (c_AuthorizedKeysDir c =? "")%string then Some ""%string else Abs (c_AuthorizedKeysDir c));
  if (keys =? "")%string || okKeys
  then Some (mkWatch file to (default "" to) keys ({[configDir]} ∪ (if (keys =? "")%string then ∅ else {[keys]})) [] false None None c None)
  else None.

(** ** No change is lost *)

(** Nothing tells of a change any more. *)
Definition quiet (s : watch) : bool :=
  negb (existsb file_event (queue s)) && negb (pending s)
  && match link s with Some l => (l =? target s)%string | None => true end.

Definition settled (s : watch) : Prop :=
  forall c, LoadConfig (disk s) = Some c -> running s = c \/ refused s = Some c.

Definition up_to_date (s : watch) : Prop :=
  match loaded s with Some c => LoadConfig (disk s) = Some c | None => settled s end.

Definition accepted (c : Config) : Prop := exists file, LoadConfig file = Some c.

Record watch_inv (s : watch) : Prop := mkWatchInv {
  wi_dir : configDir ∈ watches s;
  wi_keys : keysDir s <> ""%string -> keysDir s ∈ watches s;
  wi_current : quiet s = true -> up_to_date s;
  wi_running : accepted (running s);
  wi_loaded : forall c, loaded s = Some c -> accepted c;
}.

(** The steps this speaks about: fsnotify loses no event, no watched directory
    is deleted and nobody sends SIGHUP. *)
Definition reliable (l : label) : bool := match l with LOverflow | LGone _ | LHup | LHupApply => false | _ => true end.

Definition internal (l : label) : bool := match l with LTick | LEvent | LFire | LApply true => true | _ => false end.

Lemma relevant_file keys e : file_event e = true -> relevant keys e = true.
Proof. unfold file_event, relevant. destruct (_ || projection e); [|done]. simpl. done. Qed.

Lemma quiet_true s : quiet s = true <-> existsb file_event (queue s) = false /\ pending s = false
  /\ forall l, link s = Some l -> l = target s.
Proof.
  unfold quiet. rewrite !andb_true_iff, !negb_true_iff. split.
  - intros [[H1 H2] H3]. split_and!; try done. intros l Hl. rewrite Hl in H3. by apply String.eqb_eq.
  - intros (H1 & H2 & H3). split_and!; try done. destruct (link s) as [l|]; [|done]. apply String.eqb_eq. by apply H3.
Qed.

Lemma apply_inv c ok s : watch_inv s -> loaded s = Some c -> watch_inv (apply c ok s).
Proof.
  intros [Hd Hk Hc Hr Hl] Hload. unfold apply. destruct (nextKeys c (keysDir s) ok) as [next|] eqn:Hn.
  - constructor; simpl; [| | |by apply Hl|done].
    + set (added := if _ || _ then _ else _). assert (Ha : configDir ∈ added) by (unfold added; destruct (_ || _); set_solver).
      destruct (_ && _) eqn:Hrm; [|done]. apply andb_true_iff in Hrm as [_ Hne%negb_true_iff%String.eqb_neq]. set_solver.
    + intros Hne. set (added := if _ || _ then _ else _). assert (Ha : next ∈ added).
      { unfold added. destruct (String.eqb_spec next ""); [done|]. destruct (String.eqb_spec next (keysDir s)) as [->|]; [by apply Hk|set_solver]. }
      destruct (_ && _) eqn:Hrm; [|done]. apply andb_true_iff in Hrm as [Hrm _].
      apply andb_true_iff in Hrm as [_ Hneq%negb_true_iff%String.eqb_neq]. set_solver.
    + intros Hq. assert (Hu : up_to_date s) by (apply Hc; apply quiet_true; by apply quiet_true in Hq).
      unfold up_to_date in *. rewrite Hload in Hu. simpl. intros c' Hc'. left. simpl in *. congruence.
  - constructor; simpl; try done. intros Hq. assert (Hu : up_to_date s) by (apply Hc; apply quiet_true; by apply quiet_true in Hq).
    unfold up_to_date in *. rewrite Hload in Hu. simpl. intros c' Hc'. right. simpl in *. congruence.
Qed.

Lemma watch_step_inv l s s' : reliable l = true -> watch_inv s -> step l s = Some s' -> watch_inv s'.
Proof.
  intros Hrel Hinv Hs. pose proof Hinv as [Hd Hk Hc Hr Hl]. destruct l; simpl in Hs; try done.
  - destruct (announced file to events s) eqn:Ha; [|done]. injection Hs as <-. constructor; simpl; try done.
    intros (H1 & H2 & H3)%quiet_true. simpl in H1, H2, H3. rewrite existsb_app in H1. apply orb_false_iff in H1 as [H1 H1'].
    unfold announced in Ha. rewrite H1', andb_false_r in Ha. simpl in Ha. apply orb_true_iff in Ha as [Ha|Ha].
    + destruct to as [l|]; [|done]. apply negb_true_iff, String.eqb_neq in Ha. by rewrite (H3 l) in Ha.
    + apply andb_true_iff in Ha as [Hf%bool_decide_eq_true Ht%bool_decide_eq_true]. subst file to.
      assert (Hu : up_to_date s) by (apply Hc; apply quiet_true; done). exact Hu.
  - destruct (loaded s) eqn:Hlo; [done|]. destruct (link s) as [next|] eqn:Hlink; [|by injection Hs as <-].
    injection Hs as <-. destruct (next =? target s)%string; [done|]. constructor; simpl; try done.
    + intros (_ & Hp & _)%quiet_true. done.
    + by rewrite Hlo.
  - destruct (loaded s) eqn:Hlo; [done|]. destruct (queue s) as [|e q] eqn:Hq; [done|]. injection Hs as <-.
    destruct (relevant _ e) eqn:Hrl; (constructor; simpl; [done|done| |done|by rewrite Hlo]).
    + intros (_ & Hp & _)%quiet_true. done.
    + intros (H1 & H2 & H3)%quiet_true. simpl in H1, H2, H3. unfold up_to_date, settled in *. simpl. rewrite Hlo in Hc |- *.
      apply Hc. apply quiet_true. rewrite Hq. simpl. split_and!; try done. rewrite H1, orb_false_r.
      destruct (file_event e) eqn:Hfe; [|done]. by rewrite (relevant_file _ _ Hfe) in Hrl.
  - destruct (loaded s) eqn:Hlo; [done|]. destruct (pending s); [|done]. injection Hs as <-. constructor; simpl; try done.
    + intros _. unfold up_to_date. simpl. destruct (LoadConfig (disk s)) eqn:Hload; [done|]. intros c. simpl. congruence.
    + intros c Hc'. by exists (disk s).
  - destruct (loaded s) as [c|] eqn:Hlo; [|done]. injection Hs as <-. by apply apply_inv.
  - destruct (loaded s) eqn:Hlo; [done|]. by injection Hs as <-.
Qed.
Lemma start_inv file to c ok okKeys s :
  LoadConfig file = Some c -> start file to c ok okKeys = Some s -> watch_inv s.
Proof.
  intros Hload Hs. unfold start in Hs. destruct ok; [|done]. simpl in Hs.
  destruct (if (c_AuthorizedKeysDir c =? "")%string then _ else _) as [keys|]; [|done]. simpl in Hs.
  destruct ((keys =? "")%string || okKeys); [|done]. injection Hs as <-. constructor; simpl; [set_solver| | |by exists file|done].
  - intros Hne%String.eqb_neq. rewrite Hne. set_solver.
  - intros _ c' Hc'. left. simpl in *. congruence.
Qed.

Lemma run_inv ls s s' : forallb reliable ls = true -> watch_inv s -> run ls s = Some s' -> watch_inv s'.
Proof.
  revert s. induction ls as [|l ls IH]; intros s Hrel Hinv Hrun; [by injection Hrun as <-|].
  simpl in Hrel, Hrun. apply andb_true_iff in Hrel as [Hl Hls]. destruct (step l s) as [s1|] eqn:Hs; [|done].
  eapply IH; [done| |exact Hrun]. by eapply watch_step_inv.
Qed.

Lemma watch_run_app ls1 ls2 s : run (ls1 ++ ls2) s = (s' ← run ls1 s; run ls2 s').
Proof. revert s. induction ls1 as [|l ls1 IH]; intros s; [done|]. simpl. destruct (step l s); simpl; [apply IH|done]. Qed.

Lemma apply_frame c ok s : let s' := apply c ok s in
  disk s' = disk s /\ link s' = link s /\ target s' = target s /\ queue s' = queue s /\ pending s' = pending s /\ loaded s' = None.
Proof. unfold apply. by destruct (nextKeys c (keysDir s) ok). Qed.

(** What the goroutine does with what there is. *)
Definition steps_to (n : nat) (s s' : watch) : Prop :=
  exists ls, forallb internal ls = true /\ (length ls <= n)%nat /\ run ls s = Some s' /\ disk s' = disk s /\ link s' = link s.

Lemma steps_trans n m s1 s2 s3 : steps_to n s1 s2 -> steps_to m s2 s3 -> steps_to (n + m) s1 s3.
Proof.
  intros (l1 & H1 & L1 & R1 & D1 & K1) (l2 & H2 & L2 & R2 & D2 & K2). exists (l1 ++ l2).
  rewrite forallb_app, length_app, watch_run_app, R1. simpl. split_and!; [by rewrite H1, H2|lia|done|congruence|congruence].
Qed.

Lemma steps_one l s s' : internal l = true -> step l s = Some s' -> disk s' = disk s -> link s' = link s -> steps_to 1 s s'.
Proof. intros Hi Hs Hd Hl. exists [l]. simpl. rewrite Hi, Hs. by split_and!. Qed.

Lemma steps_none n s : steps_to n s s.
Proof. exists []. simpl. split_and!; (done || lia). Qed.

(** A configuration that was read is applied. *)
Lemma apply_read s : exists s', steps_to 1 s s' /\ loaded s' = None /\ queue s' = queue s /\ pending s' = pending s /\ target s' = target s.
Proof.
  destruct (loaded s) as [c|] eqn:Hl; [|exists s; split; [apply steps_none|done]].
  destruct (apply_frame c true s) as (H1 & H2 & H3 & H4 & H5 & H6). exists (apply c true s).
  split; [|done]. apply (steps_one (LApply true)); [done|simpl; by rewrite Hl|done|done].
Qed.

Lemma drain_events s : loaded s = None -> exists s', steps_to (length (queue s)) s s' /\ loaded s' = None /\ queue s' = [].
Proof.
  remember (queue s) as q eqn:Hq. revert s Hq. induction q as [|e q IH]; intros s Hq Hl.
  - exists s. split; [apply steps_none|done].
  - set (s1 := if relevant (keysDir s) e then set_pending true (set_queue q s) else set_queue q s).
    assert (H1 : steps_to 1 s s1).
    { apply (steps_one LEvent); [done|simpl; by rewrite Hl, <-Hq|unfold s1; by destruct (relevant _ e)..]. }
    destruct (IH s1) as (s' & H2 & H3); [unfold s1; by destruct (relevant _ e)|unfold s1; by destruct (relevant _ e)|].
    exists s'. split; [|done]. change (length (e :: q)) with (1 + length q)%nat. by eapply steps_trans.
Qed.

Lemma tick s : loaded s = None -> exists s', steps_to 1 s s' /\ loaded s' = None /\ queue s' = queue s
  /\ forall l, link s' = Some l -> l = target s'.
Proof.
  intros Hl. destruct (link s) as [next|] eqn:Hk; [|exists s; split; [apply steps_none|]; split_and!; try done; by rewrite Hk].
  destruct (next =? target s)%string eqn:He.
  - exists s. split; [apply steps_none|]. split_and!; try done. rewrite Hk. intros l [= <-]. by apply String.eqb_eq.
  - exists (set_pending true (set_target next s)). split; [apply (steps_one LTick); [done|simpl; by rewrite Hl, Hk, He|done|done]|].
    split_and!; try done. simpl. rewrite Hk. by intros l [= <-].
Qed.

Lemma fire s : loaded s = None -> exists s', steps_to 1 s s' /\ queue s' = queue s /\ pending s' = false /\ target s' = target s.
Proof.
  intros Hl. destruct (pending s) eqn:Hp; [|exists s; split; [apply steps_none|done]].
  exists (set_loaded (LoadConfig (disk s)) (set_pending false s)). split; [|done].
  apply (steps_one LFire); [done|simpl; by rewrite Hl, Hp|done|done].
Qed.

Lemma converge s : exists s', steps_to (length (queue s) + 4) s s' /\ loaded s' = None /\ queue s' = [] /\ quiet s' = true.
Proof.
  destruct (apply_read s) as (s1 & R1 & L1 & Q1 & _). destruct (drain_events s1 L1) as (s2 & R2 & L2 & Q2). rewrite Q1 in R2.
  destruct (tick s2 L2) as (s3 & R3 & L3 & Q3 & T3). destruct (fire s3 L3) as (s4 & R4 & Q4 & P4 & T4).
  destruct (apply_read s4) as (s5 & R5 & L5 & Q5 & P5 & T5). exists s5. split_and!; [|done|congruence|].
  - replace (length (queue s) + 4)%nat with (1 + (length (queue s) + (1 + (1 + 1))))%nat by lia.
    repeat (eapply steps_trans; [eassumption|]). exact R5.
  - assert (K : link s5 = link s3).
    { destruct R4 as (? & _ & _ & _ & _ & K4), R5 as (? & _ & _ & _ & _ & K5). congruence. }
    apply quiet_true. rewrite Q5, Q4, Q3, Q2. split_and!; [done|congruence|]. rewrite K, T5, T4. exact T3.
Qed.

Lemma internal_reliable ls : forallb internal ls = true -> forallb reliable ls = true.
Proof. rewrite !forallb_forall. intros H l Hl%H. by destruct l. Qed.

(** C12: No change of the configuration is lost, and no bad one taken over.  A
    server whose file has not changed since it was loaded, in any
    interleaving of writes, partial ones included, moved links, events and
    timers, runs a configuration the loader accepted, and watches the file's
    directory and that configuration's keys.  And whenever the file is left
    alone and no SIGHUP comes, what is queued and at most four further steps bring the server to
    the configuration in the file, if it is a valid one, unless its key
    directory was refused a watch. *)
Theorem changes_are_loaded file to c ok okKeys s0 ls s
    (Hload : LoadConfig file = Some c) (Hstart : start file to c ok okKeys = Some s0)
    (Hrel : forallb reliable ls = true) (Hrun : run ls s0 = Some s) :
  accepted (running s) /\ configDir ∈ watches s /\ (keysDir s <> ""%string -> keysDir s ∈ watches s)
  /\ exists ls' s', forallb internal ls' = true /\ (length ls' <= length (queue s) + 4)%nat /\ run ls' s = Some s'
     /\ disk s' = disk s /\ loaded s' = None /\ queue s' = []
     /\ forall c', LoadConfig (disk s) = Some c' -> running s' = c' \/ refused s' = Some c'.
Proof.
  pose proof (run_inv _ _ _ Hrel (start_inv _ _ _ _ _ _ Hload Hstart) Hrun) as Hinv.
  split; [apply Hinv|]. split; [apply Hinv|]. split; [apply Hinv|].
  destruct (converge s) as (s' & (ls' & Hi & Hlen & Hr & Hd & _) & Hl & Hq & Hquiet). exists ls', s'. split_and!; try done.
  pose proof (run_inv _ _ _ (internal_reliable _ Hi) Hinv Hr) as Hinv'.
  pose proof (wi_current _ Hinv' Hquiet) as Hup. unfold up_to_date in Hup. rewrite Hl in Hup. unfold settled in Hup.
  by rewrite Hd in Hup.
Qed.
End watch.

(** ** A run *)
Definition toy_conf (name keys : string) : Config :=
  mkC "" "" "" name keys [] 1 1 "" "" "" (Dns.mkDNS "" (Dns.mkForwarding false [])) None "" "" "" 1 ∅ false []
    (mkRelay false "" "" "" "" false [] 1 1 false) (mkMASQUE false "" "" "" [] "" "" "" 0 ∅) (mkPortal false "" false "") [].

Definition toy_load (file : option string) : option Config :=
  match file with
  | Some f => if (f =? "a")%string then Some (toy_conf "a" "/keys") else if (f =? "b")%string then Some (toy_conf "b" "/other") else None
  | None => None
  end.

Definition toy_watch : list label -> watch -> option watch := run "/etc/nt/config.yaml" "/etc/nt" toy_load Some.
Definition toy_start (file : string) : watch :=
  default (mkWatch None None "" "" ∅ [] false None None (toy_conf "" "") None)
    (start "/etc/nt" Some (Some file) (Some "/etc/nt/config.yaml"%string) (toy_conf "a" "/keys") true true).

Definition written : event := mkEvent "/etc/nt/config.yaml" "/etc/nt" "config.yaml" true.
Definition here : option string := Some "/etc/nt/config.yaml"%string.

(** A write seen half, then whole. *)
Definition toy_writes : list label :=
  [LChange (Some "hal") here [written]; LEvent; LFire; LChange (Some "b") here [written]].

Lemma changes_are_loaded_witness :
  match toy_watch toy_writes (toy_start "a") with
  | Some s => c_ListenName (running s) = "a"%string
      /\ exists ls' s', toy_watch ls' s = Some s' /\ (running s' = toy_conf "b" "/other" \/ refused s' = Some (toy_conf "b" "/other"))
  | None => False
  end.
Proof.
  destruct (toy_watch toy_writes (toy_start "a")) as [s|] eqn:Hrun; [|vm_compute in Hrun; discriminate Hrun].
  assert (Hstart : start "/etc/nt" Some (Some "a"%string) here (toy_conf "a" "/keys") true true = Some (toy_start "a")) by reflexivity.
  destruct (changes_are_loaded "/etc/nt/config.yaml" "/etc/nt" toy_load Some (Some "a"%string) here (toy_conf "a" "/keys") true true
    (toy_start "a") toy_writes s eq_refl Hstart eq_refl Hrun) as (_ & _ & _ & ls' & s' & _ & _ & Hr & _ & _ & _ & Hend).
  split.
  - transitivity (c_ListenName (default (toy_conf "" "") (running <$> toy_watch toy_writes (toy_start "a")))); [by rewrite Hrun|].
    vm_compute. reflexivity.
  - exists ls', s'. split; [exact Hr|]. apply Hend.
    transitivity (toy_load (default None (disk <$> toy_watch toy_writes (toy_start "a")))); [by rewrite Hrun|vm_compute; reflexivity].
Defined.

(** A file that changed after it was loaded and before it was watched is
    never read. *)
Example early_change_unseen :
  match toy_watch [LTick; LTick; LTick] (toy_start "b") with
  | Some s => quiet "/etc/nt/config.yaml" "/etc/nt" s = true /\ queue s = [] /\ c_ListenName (running s) = "a"%string
              /\ toy_load (disk s) = Some (toy_conf "b" "/other")
  | None => False
  end.
Proof. vm_compute. repeat split. Qed.

(** An overflow of fsnotify's queue is an error like any other: it is logged,
    and the change it swallowed stays unseen. *)
Example overflow_loses_change :
  match toy_watch [LChange (Some "b") here [written]; LOverflow; LError; LTick] (toy_start "a") with
  | Some s => quiet "/etc/nt/config.yaml" "/etc/nt" s = true /\ queue s = [] /\ c_ListenName (running s) = "a"%string
              /\ toy_load (disk s) = Some (toy_conf "b" "/other")
  | None => False
  end.
Proof. vm_compute. repeat split. Qed.

(** A key directory that is replaced takes its watch with it; the reload that
    follows finds its name unchanged and does not watch it again. *)
Example replaced_keys_unwatched :
  match toy_watch [LGone "/keys"; LChange (Some "a") here [mkEvent "/keys" "/" "keys" true]; LEvent; LFire; LApply true] (toy_start "a") with
  | Some s => keysDir s = "/keys"%string /\ bool_decide ("/keys"%string ∈ watches s) = false /\ queue s = []
  | None => False
  end.
Proof. vm_compute. repeat split. Qed.

(** The SIGHUP handler and the watcher read and reload each on its own: one
    that read earlier and reloads later puts the old configuration back, and
    the key directory watched is then not the running configuration's. *)
Example sighup_restores_old :
  match toy_watch [LHup; LChange (Some "b") here [written]; LEvent; LFire; LApply true; LHupApply; LTick] (toy_start "a") with
  | Some s => quiet "/etc/nt/config.yaml" "/etc/nt" s = true /\ queue s = [] /\ c_ListenName (running s) = "a"%string
              /\ toy_load (disk s) = Some (toy_conf "b" "/other") /\ keysDir s = "/other"%string
              /\ c_AuthorizedKeysDir (running s) = "/keys"%string
  | None => False
  end.
Proof. vm_compute. repeat split. Qed.
