(* ===== verification/KubeWatch.v ===== *)
(** [pkg/relay/kubernetes.go]: the discovery of Kubernetes Services that keeps
    the hostname table of [Registry] up to date.

    Each handler of the informers holds [mu] throughout, so each is a
    function; the order of a range over the services is an argument, and so is
    what a label selector selects.  Besides the new state an operation returns
    the endpoints it has offered to the registry with the registry's answer. *)
From stdpp Require Import pretty.
From S2P Require Import Prelude Bytes Sni Registry RelayPublic ClientTransport.

(** ** Objects *)
Record Service := mkService {
  sv_UID : string;
  sv_Name : string;
  sv_Namespace : string;
  sv_Labels : gmap string string;
  sv_Annotations : gmap string string;
  sv_Ports : list (string * Z);
}.

Record KubernetesConfig := mkKubernetes {
  kc_Mode : string;
  kc_Names : list string;
  kc_NamespaceSelector : string;
  kc_Selector : string;
  kc_PortName : string;
  kc_HostnameAnnotation : string;
  kc_TenantAnnotation : string;
}.

Section discovery.
Context {ssh : SSH} (unicode_lower : list byte -> list byte) (Parse : string -> option (gmap string string -> bool)).
Context (cfg : KubernetesConfig).

Record discovery := mkDiscovery {
  registry : Registry;
  services : gmap string Service;
  byID : gmap string string;
  ns : gmap string (gmap string string);
}.

Definition set_registry (r : Registry) (d : discovery) : discovery := mkDiscovery r (services d) (byID d) (ns d).
Definition set_byID (m : gmap string string) (d : discovery) : discovery := mkDiscovery (registry d) (services d) m (ns d).

(** ** Endpoints *)

Definition label_ok (label : list byte) : bool :=
  validLabel label && negb (has_prefix label [x2d]) && negb (has_suffix label [x2d]) && (Zlen label <=? 63).

Definition validHostname (s : list byte) : bool :=
  negb (Zlen s =? 0) && (Zlen s <=? 253) && negb (bool_decide (x2a ∈ s)) && forallb label_ok (split_dots s).

Definition allowedNamespaceLocked (m : gmap string (gmap string string)) (name : string) : bool :=
  if (kc_Mode cfg =? "selected")%string && negb (existsb (String.eqb name) (kc_Names cfg)) && (kc_NamespaceSelector cfg =? "")%string
  then false
  else if (kc_NamespaceSelector cfg =? "")%string then true
  else
    match Parse (kc_NamespaceSelector cfg), m !! name with
    | Some sel, Some labels => sel labels
    | _, _ => false
    end.

Definition annotated_host (s : Service) : string :=
  str_of (normalizeSNI unicode_lower (bytes_of (default ""%string (sv_Annotations s !! kc_HostnameAnnotation cfg)))).

Definition port_of (s : Service) : Z :=
  match List.find (fun p => (p.1 =? kc_PortName cfg)%string) (sv_Ports s) with Some p => p.2 | None => 0 end.

(** [None] when the service is ignored, silently or with a warning. *)
Definition endpointLocked (m : gmap string (gmap string string)) (s : Service) : option ServerEndpoint :=
  if negb (allowedNamespaceLocked m (sv_Namespace s)) then None
  else
    match Parse (kc_Selector cfg) with
    | None => None
    | Some sel =>
        if negb (sel (sv_Labels s)) then None
        else if negb (bool_decide (sv_Labels s !! "ntwire.io/relay-enabled"%string = Some "true"%string)) then None
        else if negb (validHostname (bytes_of (annotated_host s))) then None
        else if (port_of s <? 1) || (65535 <? port_of s) then None
        else Some {| ep_Hostname := annotated_host s;
                     ep_Address := JoinHostPort (sv_Name s ++ "." ++ sv_Namespace s ++ ".svc") (port_of s);
                     ep_Namespace := sv_Namespace s;
                     ep_Service := sv_Name s;
                     ep_Tenant := default ""%string (sv_Annotations s !! kc_TenantAnnotation cfg);
                     ep_Source := SourceKubernetes;
                     ep_ID := sv_UID s |}
    end.

(** ** Reconciliation *)
Definition offers : Type := list (ServerEndpoint * bool).

(** The endpoint a service has now, if it is known. *)
Definition current (d : discovery) (id : string) : option ServerEndpoint := s ← services d !! id; endpointLocked (ns d) s.

(** What was registered for a service is taken back unless it still holds. *)
Definition withdraw (id : string) (keep : option string) (d : discovery) : discovery :=
  let old := default ""%string (byID d !! id) in
  if negb (old =? "")%string && negb (bool_decide (keep = Some old))
  then set_byID (delete id (byID d)) (set_registry (RemoveKubernetes old id (registry d)) d)
  else d.

Definition reconcileLocked (id : string) (d : discovery) : offers * discovery :=
  match current d id with
  | None => ([], withdraw id None d)
  | Some ep =>
      let d := withdraw id (Some (ep_Hostname ep)) d in
      match UpsertKubernetes ep (registry d) with
      | (Ok _, r) => ([(ep, true)], set_byID (<[id := ep_Hostname ep]> (byID d)) (set_registry r d))
      | (Err _, r) => ([(ep, false)], set_registry r d)
      end
  end.

Fixpoint reconcile_all (ids : list string) (d : discovery) : offers * discovery :=
  match ids with
  | [] => ([], d)
  | id :: ids =>
      let '(o, d) := reconcileLocked id d in
      let '(o', d) := reconcile_all ids d in
      (o ++ o', d)
  end.

Definition putService (s : Service) (d : discovery) : offers * discovery :=
  reconcileLocked (sv_UID s) (mkDiscovery (registry d) (<[sv_UID s := s]> (services d)) (byID d) (ns d)).

(** [None]: a tombstone without its object. *)
Definition deleteService (obj : option Service) (d : discovery) : discovery :=
  match obj with
  | None => d
  | Some s =>
      let id := sv_UID s in
      let host := default ""%string (byID d !! id) in
      let host := if (host =? "")%string then annotated_host s else host in
      let r := if (host =? "")%string then registry d else RemoveKubernetes host id (registry d) in
      mkDiscovery r (delete id (services d)) (delete id (byID d)) (ns d)
  end.

Definition putNamespace (order : gmap string Service -> list string) (name : string) (labels : gmap string string) (d : discovery) :
    offers * discovery :=
  let d := mkDiscovery (registry d) (services d) (byID d) (<[name := labels]> (ns d)) in
  reconcile_all (order (services d)) d.

Definition deleteNamespace (order : gmap string Service -> list string) (obj : option string) (d : discovery) : offers * discovery :=
  match obj with
  | None => ([], d)
  | Some name =>
      let d := mkDiscovery (registry d) (services d) (byID d) (delete name (ns d)) in
      reconcile_all (order (services d)) d
  end.

Inductive label : Type :=
  | LPutService (s : Service)
  | LDeleteService (obj : option Service)
  | LPutNamespace (order : gmap string Service -> list string) (name : string) (labels : gmap string string)
  | LDeleteNamespace (order : gmap string Service -> list string) (obj : option string).

Definition step (l : label) (d : discovery) : offers * discovery :=
  match l with
  | LPutService s => putService s d
  | LDeleteService obj => ([], deleteService obj d)
  | LPutNamespace order name labels => putNamespace order name labels d
  | LDeleteNamespace order obj => deleteNamespace order obj d
  end.

Fixpoint run (ls : list label) (d : discovery) : offers * discovery :=
  match ls with
  | [] => ([], d)
  | l :: ls =>
      let '(o, d) := step l d in
      let '(o', d) := run ls d in
      (o ++ o', d)
  end.

Definition newKubernetesDiscovery (r : Registry) : discovery := mkDiscovery r ∅ ∅ ∅.

(** A service has an id, and a range over the services meets each. *)
Definition label_wf (l : label) : Prop :=
  match l with
  | LPutService s => sv_UID s <> ""%string
  | LDeleteService _ => True
  | LPutNamespace order _ _ | LDeleteNamespace order _ => forall m id, id ∈ order m <-> is_Some (m !! id)
  end.

(** ** The table follows the services *)

(** The claims of a service on a hostname, as the registry has them. *)
Definition claim (d : discovery) (h id : string) : option ServerEndpoint := entry_claims (entry_of (registry d) h) !! id.

(** A registration of the service was refused. *)
Definition contested (o : offers) (id : string) : Prop := exists ep, (ep, false) ∈ o /\ ep_ID ep = id.

(** The services in [D] are still to be reconciled. *)
Record table_inv (D : gset string) (o : offers) (d : discovery) : Prop := mkTableInv {
  ti_wf : k8s_wf (registry d);
  ti_keys : forall id s, services d !! id = Some s -> sv_UID s = id /\ id <> ""%string;
  ti_known : forall id h, byID d !! id = Some h -> is_Some (services d !! id) /\ h <> ""%string;
  ti_offered : forall h id ep, claim d h id = Some ep -> ep_Hostname ep = h /\ ep_ID ep = id /\ exists b, (ep, b) ∈ o;
  ti_own : forall id, ~ contested o id -> forall h ep, claim d h id = Some ep -> byID d !! id = Some h;
  ti_sole : forall h id id', is_Some (claim d h id) -> is_Some (claim d h id') -> id <> id' -> contested o id \/ contested o id';
  ti_byID : forall id h, byID d !! id = Some h -> id ∉ D ->
    exists ep, current d id = Some ep /\ ep_Hostname ep = h /\ claim d h id = Some ep;
  ti_current : forall id ep, ~ contested o id -> current d id = Some ep -> id ∉ D -> byID d !! id = Some (ep_Hostname ep);
  ti_asked : forall id ep, current d id = Some ep -> id ∉ D -> exists b, (ep, b) ∈ o;
}.

Lemma endpointLocked_ok m s ep :
  endpointLocked m s = Some ep -> sv_UID s <> ""%string ->
  valid_endpoint ep = true /\ ep_ID ep = sv_UID s /\ ep_Hostname ep <> ""%string.
Proof.
  unfold endpointLocked. destruct (negb (allowedNamespaceLocked _ _)); [done|]. destruct (Parse _) as [sel|]; [|done].
  destruct (negb (sel _)); [done|]. destruct (negb (bool_decide _)); [done|].
  destruct (validHostname (bytes_of (annotated_host s))) eqn:Hv; [|done]. destruct (_ || _); [done|]. intros [= <-] Hid.
  assert (Hh : annotated_host s <> ""%string) by (intros He; by rewrite He in Hv).
  split; [|done]. unfold valid_endpoint. cbn [ep_Source ep_Hostname ep_Address ep_ID].
  apply String.eqb_neq in Hh, Hid. rewrite bool_decide_eq_true_2 by done. rewrite Hh, Hid. simpl.
  unfold JoinHostPort. destruct (bool_decide _); [done|]. destruct (sv_Name s); done.
Qed.

Lemma claim_remove h k r h' id' :
  k8s_wf r -> entry_claims (entry_of (RemoveKubernetes h k r) h') !! id'
  = if decide (h' = h /\ id' = k) then None else entry_claims (entry_of r h') !! id'.
Proof.
  intros Hwf. destruct (decide (h' = h)) as [->|Hne].
  - destruct (RemoveKubernetes_entry h k r (Hwf _)) as [_ ->]. destruct (decide (id' = k)) as [->|Hk].
    + rewrite lookup_delete_eq. by rewrite decide_True.
    + rewrite lookup_delete_ne by done. rewrite decide_False; [done|]. by intros [_ ?].
  - rewrite RemoveKubernetes_frame by done. rewrite decide_False; [done|]. by intros [? _].
Qed.

Lemma claim_upsert ep r h' id' :
  k8s_wf r -> valid_endpoint ep = true -> entry_claims (entry_of (UpsertKubernetes ep r).2 h') !! id'
  = if decide (h' = ep_Hostname ep /\ id' = ep_ID ep) then Some ep else entry_claims (entry_of r h') !! id'.
Proof.
  intros Hwf Hv. destruct (decide (h' = ep_Hostname ep)) as [->|Hne].
  - destruct (UpsertKubernetes_entry ep r (Hwf _) Hv) as (_ & -> & _). destruct (decide (id' = ep_ID ep)) as [->|Hk].
    + rewrite lookup_insert_eq. by rewrite decide_True.
    + rewrite lookup_insert_ne by done. rewrite decide_False; [done|]. by intros [_ ?].
  - rewrite UpsertKubernetes_frame by done. rewrite decide_False; [done|]. by intros [? _].
Qed.

Lemma wf_remove h k r : k8s_wf r -> k8s_wf (RemoveKubernetes h k r).
Proof.
  intros Hwf h'. destruct (decide (h' = h)) as [->|Hne]; [by apply RemoveKubernetes_entry|].
  by rewrite RemoveKubernetes_frame.
Qed.

Lemma wf_upsert ep r : k8s_wf r -> valid_endpoint ep = true -> k8s_wf (UpsertKubernetes ep r).2.
Proof.
  intros Hwf Hv h'. destruct (decide (h' = ep_Hostname ep)) as [->|Hne]; [by apply UpsertKubernetes_entry|].
  by rewrite UpsertKubernetes_frame.
Qed.
Lemma inv_more D D' o d : D ⊆ D' -> table_inv D o d -> table_inv D' o d.
Proof. intros Hsub []. constructor; try done; intros; set_solver. Qed.

(** A service is reconciled when its own two conditions hold. *)
Lemma inv_settle D o d id :
  table_inv (D ∪ {[id]}) o d ->
  (forall h, byID d !! id = Some h -> exists ep, current d id = Some ep /\ ep_Hostname ep = h /\ claim d h id = Some ep) ->
  (forall ep, ~ contested o id -> current d id = Some ep -> byID d !! id = Some (ep_Hostname ep)) ->
  (forall ep, current d id = Some ep -> exists b, (ep, b) ∈ o) ->
  table_inv (D ∖ {[id]}) o d.
Proof.
  intros [] Hb Hc Ho. constructor; try done.
  - intros id' h Hid Hn. destruct (decide (id' = id)) as [->|]; [by apply Hb|]. apply ti_byID0; [done|set_solver].
  - intros id' ep Hn Hid HD. destruct (decide (id' = id)) as [->|]; [by apply Hc|]. apply ti_current0; [done|done|set_solver].
  - intros id' ep Hid HD. destruct (decide (id' = id)) as [->|]; [by apply Ho|]. apply (ti_asked0 id'); [done|set_solver].
Qed.

Lemma withdraw_inv D o d id keep :
  table_inv D o d ->
  table_inv (D ∪ {[id]}) o (withdraw id keep d)
  /\ services (withdraw id keep d) = services d /\ ns (withdraw id keep d) = ns d
  /\ (byID (withdraw id keep d) !! id = None \/ byID (withdraw id keep d) !! id = keep).
Proof.
  intros Hinv. unfold withdraw. destruct (byID d !! id) as [old|] eqn:Hold; simpl.
  2: { split; [apply (inv_more D); [set_solver|done]|]. split_and!; try done. by left. }
  destruct (ti_known _ _ _ Hinv _ _ Hold) as [_ Hne]. apply String.eqb_neq in Hne as ->. simpl.
  case_bool_decide as Hkeep; simpl.
  { split; [apply (inv_more D); [set_solver|done]|]. split_and!; try done. right. by rewrite Hold. }
  split; [|split_and!; try done; left; apply lookup_delete_eq]. destruct Hinv.
  assert (Hclaim : forall h' id', claim (set_byID (delete id (byID d)) (set_registry (RemoveKubernetes old id (registry d)) d)) h' id'
      = if decide (h' = old /\ id' = id) then None else claim d h' id').
  { intros h' id'. unfold claim at 1. cbn [registry set_byID set_registry]. by rewrite claim_remove. }
  constructor; [by apply wf_remove|done| | | | | | |]; cbn [byID set_byID set_registry].
  - intros id' h [_ H]%lookup_delete_Some. by apply (ti_known0 id').
  - intros h id' ep. rewrite Hclaim. case_decide; [done|]. apply ti_offered0.
  - intros id' Hn h ep. rewrite Hclaim. case_decide as Hd; [done|]. intros Hc.
    rewrite lookup_delete_ne; [by eapply ti_own0|].
    intros <-. pose proof (ti_own0 _ Hn _ _ Hc) as Hb. rewrite Hold in Hb. injection Hb as ->. by apply Hd.
  - intros h i i'. rewrite !Hclaim. case_decide; [by intros []|]. case_decide; [by intros ? []|]. apply ti_sole0.
  - intros id' h [Hne' H]%lookup_delete_Some HD. destruct (ti_byID0 id' h H) as (ep & H1 & H2 & H3); [set_solver|].
    exists ep. rewrite Hclaim, decide_False; [done|]. by intros [_ ->].
  - intros id' ep Hn Hc HD. rewrite lookup_delete_ne by set_solver. apply ti_current0; [done|done|set_solver].
  - intros id' ep Hc HD. apply (ti_asked0 id'); [done|set_solver].
Qed.

Lemma contested_app o o' id : contested (o ++ o') id <-> contested o id \/ contested o' id.
Proof.
  unfold contested. split.
  - intros (ep & [H|H]%elem_of_app & He); [left|right]; by exists ep.
  - intros [(ep & H & He)|(ep & H & He)]; exists ep; (split; [apply elem_of_app; auto|done]).
Qed.

(** The registry is offered the current endpoint of a service. *)
Lemma offer_inv D o d id ep (b : bool) m :
  table_inv (D ∪ {[id]}) o d -> current d id = Some ep -> ep_ID ep = id -> valid_endpoint ep = true -> ep_Hostname ep <> ""%string ->
  (byID d !! id = None \/ byID d !! id = Some (ep_Hostname ep)) ->
  (if b then m = <[id := ep_Hostname ep]> (byID d) else m = byID d) ->
  (b = true -> delete id (entry_claims (entry_of (registry d) (ep_Hostname ep))) = ∅) ->
  table_inv (D ∖ {[id]}) (o ++ [(ep, b)]) (set_byID m (set_registry (UpsertKubernetes ep (registry d)).2 d)).
Proof.
  intros Hinv Hcur Hid Hv Hh Hb Hm Halone. destruct Hinv.
  assert (Hclaim : forall h' id', claim (set_byID m (set_registry (UpsertKubernetes ep (registry d)).2 d)) h' id'
      = if decide (h' = ep_Hostname ep /\ id' = id) then Some ep else claim d h' id').
  { intros h' id'. unfold claim at 1. cbn [registry set_byID set_registry]. rewrite claim_upsert by done. by rewrite Hid. }
  assert (Hother : forall id', id' <> id -> m !! id' = byID d !! id').
  { intros id' Hne. destruct b; subst m; [by rewrite lookup_insert_ne|done]. }
  assert (Hself : forall h, m !! id = Some h -> h = ep_Hostname ep).
  { intros h. destruct b; subst m; [rewrite lookup_insert_eq; by intros [= <-]|]. destruct Hb as [->| ->]; [done|by intros [= <-]]. }
  assert (Hnc : forall id', ~ contested (o ++ [(ep, b)]) id' -> ~ contested o id' /\ (id' = id -> b = true)).
  { intros id' Hn. rewrite contested_app in Hn. split; [tauto|]. intros ->. destruct b; [done|]. exfalso. apply Hn. right.
    exists ep. split; [by left|done]. }
  assert (Hlone : forall i, is_Some (claim d (ep_Hostname ep) i) -> i <> id -> contested (o ++ [(ep, b)]) id).
  { intros i [c Hc] Hi. destruct b; [|rewrite contested_app; right; exists ep; split; [by left|done]].
    exfalso. unfold claim in Hc. rewrite <-(lookup_delete_ne _ id) in Hc by done. by rewrite (Halone eq_refl) in Hc. }
  constructor; [by apply wf_upsert|done| | | | | | |].
  - intros id' h Hl. simpl in Hl. destruct (decide (id' = id)) as [->|Hne].
    + apply Hself in Hl as ->. split; [|done]. unfold current in Hcur. destruct (services d !! id) eqn:Hsv; [|done]. simpl. by rewrite Hsv.
    + rewrite Hother in Hl by done. by apply (ti_known0 id').
  - intros h' id' ep'. rewrite Hclaim. case_decide as Hd.
    + intros [= <-]. destruct Hd as [-> ->]. split_and!; try done. exists b. apply elem_of_app. right. by left.
    + intros Hc. destruct (ti_offered0 _ _ _ Hc) as (H1 & H2 & b' & H3). split_and!; try done. exists b'. apply elem_of_app. by left.
  - intros id' [Hn Hok]%Hnc h' ep'. rewrite Hclaim. case_decide as Hd.
    + destruct Hd as [-> ->]. intros _. specialize (Hok eq_refl). subst b. subst m. simpl. by rewrite lookup_insert_eq.
    + intros Hc. pose proof (ti_own0 _ Hn _ _ Hc) as Hby. simpl. destruct (decide (id' = id)) as [->|Hne]; [|by rewrite Hother].
      destruct Hb as [Hb|Hb]; rewrite Hb in Hby; [done|]. injection Hby as <-. by destruct Hd.
  - intros h i i'. rewrite !Hclaim. case_decide as H1; case_decide as H2; intros Hi Hi' Hne.
    + exfalso. destruct H1 as [_ ->], H2 as [_ ->]. done.
    + destruct H1 as [-> ->]. left. by apply (Hlone i').
    + destruct H2 as [-> ->]. right. by apply (Hlone i).
    + rewrite !contested_app. destruct (ti_sole0 h i i' Hi Hi' Hne); auto.
  - intros id' h Hl HD. simpl in Hl. destruct (decide (id' = id)) as [->|Hne].
    + apply Hself in Hl as ->. exists ep. rewrite Hclaim, decide_True by done. done.
    + rewrite Hother in Hl by done. destruct (ti_byID0 id' h Hl) as (ep' & H1 & H2 & H3); [set_solver|].
      exists ep'. rewrite Hclaim, decide_False; [done|]. by intros [_ ?].
  - intros id' ep' [Hn Hok]%Hnc Hc HD. simpl. destruct (decide (id' = id)) as [->|Hne].
    + specialize (Hok eq_refl). subst b m. rewrite lookup_insert_eq. unfold current in *. simpl in Hc. rewrite Hcur in Hc. by injection Hc as <-.
    + rewrite Hother by done. apply ti_current0; [done|done|set_solver].
  - intros id' ep' Hc HD. destruct (decide (id' = id)) as [->|Hne].
    + exists b. unfold current in *. simpl in Hc. rewrite Hcur in Hc. injection Hc as <-. apply elem_of_app. right. by left.
    + destruct (ti_asked0 id' ep' Hc) as [b' Hb']; [set_solver|]. exists b'. apply elem_of_app. by left.
Qed.

Lemma reconcile_inv D o d id :
  table_inv D o d ->
  table_inv (D ∖ {[id]}) (o ++ (reconcileLocked id d).1) (reconcileLocked id d).2
  /\ services (reconcileLocked id d).2 = services d /\ ns (reconcileLocked id d).2 = ns d.
Proof.
  intros Hinv. unfold reconcileLocked. destruct (current d id) as [ep|] eqn:Hcur.
  - destruct (withdraw_inv D o d id (Some (ep_Hostname ep)) Hinv) as (H1 & H2 & H3 & H4).
    set (d1 := withdraw id (Some (ep_Hostname ep)) d) in *.
    assert (Hcur1 : current d1 id = Some ep) by (unfold current in *; by rewrite H2, H3).
    assert (Hep : valid_endpoint ep = true /\ ep_ID ep = id /\ ep_Hostname ep <> ""%string).
    { unfold current in Hcur. destruct (services d !! id) as [s|] eqn:Hs; [|done]. simpl in Hcur.
      destruct (ti_keys _ _ _ Hinv _ _ Hs) as [Hk Hne]. rewrite <-Hk in Hne.
      destruct (endpointLocked_ok _ _ _ Hcur Hne) as (E1 & E2 & E3). by rewrite E2. }
    destruct Hep as (E1 & E2 & E3).
    destruct (UpsertKubernetes_entry ep (registry d1) (ti_wf _ _ _ H1 _) E1) as (_ & _ & Hok). rewrite E2 in Hok.
    pose proof (fun b m => offer_inv D o d1 id ep b m H1 Hcur1 E2 E1 E3 H4) as Hoff.
    destruct (UpsertKubernetes ep (registry d1)) as [[[]|e] r]; simpl in *.
    + split; [|done]. apply (Hoff true _ eq_refl). intros _. by apply Hok.
    + split; [|done]. specialize (Hoff false _ eq_refl). destruct d1. by apply Hoff.
  - destruct (withdraw_inv D o d id None Hinv) as (H1 & H2 & H3 & H4). simpl. rewrite app_nil_r.
    assert (Hcur1 : current (withdraw id None d) id = None) by (unfold current in *; by rewrite H2, H3).
    split; [|done]. apply inv_settle; [done| | |].
    + intros h Hh. destruct H4 as [H4|H4]; by rewrite H4 in Hh.
    + intros ep _. by rewrite Hcur1.
    + intros ep. by rewrite Hcur1.
Qed.

Lemma reconcile_all_inv ids D o d :
  table_inv D o d ->
  table_inv (D ∖ list_to_set ids) (o ++ (reconcile_all ids d).1) (reconcile_all ids d).2.
Proof.
  revert D o d. induction ids as [|id ids IH]; intros D o d Hinv; simpl.
  - rewrite app_nil_r. apply (inv_more D); [set_solver|done].
  - pose proof (reconcile_inv D o d id Hinv) as (H1 & _). destruct (reconcileLocked id d) as [o1 d1].
    simpl in H1. pose proof (IH _ _ _ H1) as H2. revert H2.
    destruct (reconcile_all ids d1) as [o2 d2]. simpl. intros H2.
    rewrite (assoc_L (++)). eapply inv_more; [|exact H2]. set_solver.
Qed.

(** ** The handlers *)
Lemma inv_weaken_services D o d d' :
  table_inv D o d -> registry d' = registry d -> byID d' = byID d ->
  (forall id s, services d' !! id = Some s -> sv_UID s = id /\ id <> ""%string) ->
  (forall id, is_Some (services d !! id) -> is_Some (services d' !! id)) ->
  (forall id, id ∉ D -> current d' id = current d id) ->
  table_inv D o d'.
Proof.
  intros [] Hr Hb Hk Hs Hc. constructor; unfold claim in *; rewrite ?Hr, ?Hb; try done.
  - intros id h [H ?]%ti_known0. split; [by apply Hs|done].
  - intros id h H HD. rewrite Hc by done. by apply ti_byID0.
  - intros id ep Hn H HD. rewrite Hc in H by done. by apply ti_current0.
  - intros id ep H HD. rewrite Hc in H by done. by apply (ti_asked0 id).
Qed.

Lemma putService_inv o d s :
  table_inv ∅ o d -> sv_UID s <> ""%string -> table_inv ∅ (o ++ (putService s d).1) (putService s d).2.
Proof.
  intros Hinv Hid. unfold putService.
  set (d1 := mkDiscovery (registry d) (<[sv_UID s := s]> (services d)) (byID d) (ns d)).
  assert (H1 : table_inv {[sv_UID s]} o d1).
  { apply (inv_weaken_services _ _ d); [by apply (inv_more ∅)|done|done| | |]; unfold d1, current; cbn [services ns].
    - intros id s' [[<- <-]|[Hne H]]%lookup_insert_Some; [done|]. by apply (ti_keys _ _ _ Hinv).
    - intros id H. destruct (decide (id = sv_UID s)) as [->|]; [by rewrite lookup_insert_eq|by rewrite lookup_insert_ne].
    - intros id HD. by rewrite lookup_insert_ne by set_solver. }
  destruct (reconcile_inv _ _ _ (sv_UID s) H1) as [H2 _]. eapply inv_more; [|exact H2]. set_solver.
Qed.

Lemma namespaces_inv o d m ids :
  table_inv ∅ o d -> (forall id, id ∈ ids <-> is_Some (services d !! id)) ->
  let d1 := mkDiscovery (registry d) (services d) (byID d) m in
  table_inv ∅ (o ++ (reconcile_all ids d1).1) (reconcile_all ids d1).2.
Proof.
  intros Hinv Hids d1.
  assert (H1 : table_inv (dom (services d)) o d1).
  { apply (inv_weaken_services _ _ d); [by apply (inv_more ∅); [set_solver|]|done|done|by apply (ti_keys _ _ _ Hinv)|done|].
    intros id HD. unfold current. apply not_elem_of_dom in HD. subst d1. cbn [services]. by rewrite HD. }
  eapply inv_more; [|exact (reconcile_all_inv ids _ _ _ H1)].
  intros id [Hd Hn]%elem_of_difference.
  exfalso. apply Hn. apply elem_of_list_to_set. apply Hids. by apply elem_of_dom.
Qed.

Lemma deleteService_inv o d obj : table_inv ∅ o d -> table_inv ∅ o (deleteService obj d).
Proof.
  intros Hinv. destruct obj as [s|]; [|done]. unfold deleteService.
  set (id := sv_UID s). set (host := if (_ =? _)%string then annotated_host s else _).
  set (r := if (host =? "")%string then _ else _). destruct Hinv.
  assert (Hwf : k8s_wf r) by (subst r; destruct (host =? "")%string; [done|by apply wf_remove]).
  assert (Hhost : forall h, byID d !! id = Some h -> host = h).
  { intros h Hb. subst host. rewrite Hb. simpl. destruct (ti_known0 _ _ Hb) as [_ Hne]. by apply String.eqb_neq in Hne as ->. }
  set (d1 := mkDiscovery r (delete id (services d)) (delete id (byID d)) (ns d)).
  assert (Hkeep : forall h' id', ~ (h' = host /\ id' = id) -> claim d1 h' id' = claim d h' id').
  { intros h' id' Hn. unfold claim, d1. cbn [registry]. subst r. destruct (host =? "")%string; [done|].
    rewrite claim_remove by done. by rewrite decide_False. }
  assert (Hrest : forall h' id' c, claim d1 h' id' = Some c -> claim d h' id' = Some c /\ ~ (h' = host /\ id' = id /\ host <> ""%string)).
  { intros h' id' c. unfold claim, d1. cbn [registry]. subst r. destruct (host =? "")%string eqn:Hz.
    - apply String.eqb_eq in Hz. intros Hc. split; [done|]. tauto.
    - rewrite claim_remove by done. case_decide; [done|]. intros Hc. split; [done|]. tauto. }
  assert (Hcur : forall id', id' <> id -> current d1 id' = current d id').
  { intros id' Hne. unfold current, d1. cbn [services ns]. by rewrite lookup_delete_ne. }
  assert (Hgone : current d1 id = None).
  { unfold current, d1. cbn [services]. by rewrite lookup_delete_eq. }
  assert (Hs : services d1 = delete id (services d)) by done. assert (Hb : byID d1 = delete id (byID d)) by done.
  constructor; [done| | | | | | | |].
  - intros id' s'. rewrite Hs. intros [_ H]%lookup_delete_Some. by apply ti_keys0.
  - intros id' h. rewrite Hs, Hb. intros [Hne H]%lookup_delete_Some. rewrite lookup_delete_ne by done. by apply ti_known0.
  - intros h id' ep [Hc _]%Hrest. by apply ti_offered0.
  - intros id' Hn h ep [Hc Hd]%Hrest. pose proof (ti_own0 _ Hn _ _ Hc) as Ho. rewrite Hb.
    rewrite lookup_delete_ne; [done|]. intros <-. destruct (ti_known0 _ _ Ho) as [_ Hne].
    apply Hd. rewrite (Hhost _ Ho). done.
  - intros h i i' [c [Hc _]%Hrest] [c' [Hc' _]%Hrest]. apply (ti_sole0 h); [by exists c|by exists c'].
  - intros id' h. rewrite Hb. intros [Hne H]%lookup_delete_Some HD. destruct (ti_byID0 _ _ H HD) as (ep & H1 & H2 & H3).
    exists ep. rewrite Hcur, Hkeep by naive_solver. done.
  - intros id' ep Hn Hc HD. destruct (decide (id' = id)) as [->|Hne]; [by rewrite Hgone in Hc|].
    rewrite Hb, lookup_delete_ne by done. rewrite Hcur in Hc by done. by apply ti_current0.
  - intros id' ep Hc HD. destruct (decide (id' = id)) as [->|Hne]; [by rewrite Hgone in Hc|].
    rewrite Hcur in Hc by done. by apply (ti_asked0 id').
Qed.

Lemma table_step_inv l o d : table_inv ∅ o d -> label_wf l -> table_inv ∅ (o ++ (step l d).1) (step l d).2.
Proof.
  intros Hinv Hl. destruct l as [s|obj|order name labels|order [name|]]; simpl in *.
  - by apply putService_inv.
  - rewrite app_nil_r. by apply deleteService_inv.
  - by apply namespaces_inv.
  - by apply namespaces_inv.
  - by rewrite app_nil_r.
Qed.

Lemma table_run_inv ls o d : table_inv ∅ o d -> Forall label_wf ls -> table_inv ∅ (o ++ (run ls d).1) (run ls d).2.
Proof.
  revert o d. induction ls as [|l ls IH]; intros o d Hinv Hls; simpl; [by rewrite app_nil_r|].
  apply Forall_cons in Hls as [Hl Hls]. pose proof (table_step_inv l o d Hinv Hl) as H1. destruct (step l d) as [o1 d1].
  simpl in H1. pose proof (IH _ _ H1 Hls) as H2. revert H2.
  destruct (run ls d1) as [o2 d2]. simpl. intros H2. by rewrite (assoc_L (++)).
Qed.

Lemma inv_new r : kubernetes r = ∅ -> conflicts r = ∅ -> table_inv ∅ [] (newKubernetesDiscovery r).
Proof.
  intros Hk Hc.
  assert (He : forall h, entry_of r h = (None, None)) by (intros h; unfold entry_of; by rewrite Hk, Hc, !lookup_empty).
  assert (Hno : forall h id, claim (newKubernetesDiscovery r) h id = None).
  { intros h id. unfold claim. change (entry_claims (entry_of r h) !! id = None). by rewrite He. }
  constructor; try done.
  - intros h. change (entry_wf (entry_of r h)). by rewrite He.
  - intros h id ep. by rewrite Hno.
  - intros id _ h ep. by rewrite Hno.
  - intros h id id' [? H]. by rewrite Hno in H.
Qed.

(** Services that were never refused, as the hostname's own claims see them. *)
Definition unrefused (o : offers) (h : string) : Prop :=
  forall ep b, (ep, b) ∈ o -> ep_Hostname ep = h -> ~ contested o (ep_ID ep).

Lemma lookup_sole r h : k8s_wf r -> Lookup h r = sole (entry_claims (entry_of r h)).
Proof. intros Hwf. apply (entry_sole (entry_of r h)), Hwf. Qed.

Lemma sole_claim d h ep :
  k8s_wf (registry d) -> sole (entry_claims (entry_of (registry d) h)) = Some ep -> exists id, claim d h id = Some ep.
Proof.
  intros Hwf. unfold sole, claim. destruct (map_to_list _) as [|[id x] [|? ?]] eqn:E; [done| |done]. intros [= ->].
  exists id. apply elem_of_map_to_list. rewrite E. by left.
Qed.

Lemma inv_lookup o d h ep :
  table_inv ∅ o d -> unrefused o h ->
  Lookup h (registry d) = Some ep <-> exists id, current d id = Some ep /\ ep_Hostname ep = h.
Proof.
  intros Hinv Hun. rewrite lookup_sole by apply Hinv.
  assert (Hown : forall id c, claim d h id = Some c -> ~ contested o id /\ current d id = Some c /\ ep_Hostname c = h).
  { intros id c Hc. destruct (ti_offered _ _ _ Hinv _ _ _ Hc) as (Hh & Hi & b & Ho).
    assert (Hn : ~ contested o id) by (rewrite <-Hi; by apply (Hun c b)).
    destruct (ti_byID _ _ _ Hinv id h) as (c' & H1 & H2 & H3); [by apply (ti_own _ _ _ Hinv id Hn h c)|set_solver|].
    rewrite Hc in H3. by injection H3 as <-. }
  split.
  - intros (id & Hc)%sole_claim; [|apply Hinv]. destruct (Hown _ _ Hc) as (_ & H1 & H2). by exists id.
  - intros (id & Hcur & Hh). destruct (ti_asked _ _ _ Hinv _ _ Hcur) as [b Ho]; [set_solver|].
    assert (Hid : ep_ID ep = id).
    { unfold current in Hcur. destruct (services d !! id) as [s|] eqn:Hs; [|done]. simpl in Hcur.
      destruct (ti_keys _ _ _ Hinv _ _ Hs) as [<- Hne]. by apply endpointLocked_ok in Hcur as (_ & ? & _). }
    assert (Hn : ~ contested o id) by (rewrite <-Hid; by apply (Hun ep b)).
    pose proof (ti_current _ _ _ Hinv _ _ Hn Hcur) as Hby. specialize (Hby ltac:(set_solver)). rewrite Hh in Hby.
    destruct (ti_byID _ _ _ Hinv _ _ Hby) as (c & Hc & _ & Hcl); [set_solver|]. rewrite Hcur in Hc. injection Hc as <-.
    replace (entry_claims (entry_of (registry d) h)) with ({[id := ep]} : gmap string ServerEndpoint); [apply sole_singleton|].
    apply map_eq. intros id'. destruct (decide (id' = id)) as [->|Hne]; [by rewrite lookup_singleton_eq|].
    rewrite lookup_singleton_ne by done. symmetry. apply eq_None_not_Some. intros Hs.
    destruct (ti_sole _ _ _ Hinv h id id') as [?|Hco]; [by exists ep|done|done|done|].
    destruct Hs as [c Hs]. by destruct (Hown _ _ Hs) as [? _].
Qed.

(** C21: The Kubernetes discovery keeps the relay's hostname table in step with
    the services: after any sequence of watch events, a hostname is only ever
    routed to an endpoint that some service has asked for under that name,
    and, as long as no service that has asked for it was ever refused a
    registration, a lookup finds exactly the endpoint that a known service
    has now (by its labels, annotations, ports and namespace). *)
Theorem discovery_follows_services (r : Registry) (ls : list label) (h : string)
    (Hk : kubernetes r = ∅) (Hc : conflicts r = ∅) (Hls : Forall label_wf ls) :
  let '(o, d) := run ls (newKubernetesDiscovery r) in
  (forall ep, Lookup h (registry d) = Some ep -> ep_Hostname ep = h /\ exists b, (ep, b) ∈ o) /\
  (unrefused o h -> forall ep,
    Lookup h (registry d) = Some ep <-> exists id, current d id = Some ep /\ ep_Hostname ep = h).
Proof.
  pose proof (table_run_inv ls [] _ (inv_new r Hk Hc) Hls) as Hinv. simpl in Hinv. revert Hinv.
  destruct (run ls (newKubernetesDiscovery r)) as [o d]. intros Hinv. simpl in Hinv. split.
  - intros ep. rewrite lookup_sole by apply Hinv. intros (id & Hcl)%sole_claim; [|apply Hinv].
    destruct (ti_offered _ _ _ Hinv _ _ _ Hcl) as (H1 & _ & H2). done.
  - intros Hun ep. by apply (inv_lookup o).
Qed.
End discovery.

(** ** Concrete runs *)
Definition toy_kube : KubernetesConfig := {|
  kc_Mode := "all"; kc_Names := []; kc_NamespaceSelector := ""; kc_Selector := "app=vpn"; kc_PortName := "tls";
  kc_HostnameAnnotation := "ntwire.io/hostname"; kc_TenantAnnotation := "ntwire.io/tenant" |}.

Definition toy_parse (sel : string) : option (gmap string string -> bool) :=
  if (sel =? "app=vpn")%string then Some (fun m => bool_decide (m !! "app"%string = Some "vpn"%string)) else None.

Definition toy_svc (uid host : string) : Service := {|
  sv_UID := uid; sv_Name := uid; sv_Namespace := "prod";
  sv_Labels := {["app"%string := "vpn"%string; "ntwire.io/relay-enabled"%string := "true"%string]};
  sv_Annotations := {["ntwire.io/hostname"%string := host]};
  sv_Ports := [("http"%string, 80); ("tls"%string, 443)] |}.

Definition toy_run (ls : list label) : offers * discovery :=
  run id toy_parse toy_kube ls (newKubernetesDiscovery (@NewRegistry toy_ssh [] toy_lim)).

Lemma discovery_follows_services_witness :
  (snd <$> (toy_run [LPutService (toy_svc "a" "One.example"); LPutService (toy_svc "b" "two.example");
                     LPutService (toy_svc "a" "three.example"); LDeleteService (Some (toy_svc "b" "two.example"))]).1 = [true; true; true])
  /\ let '(o, d) := toy_run [LPutService (toy_svc "a" "One.example"); LPutService (toy_svc "b" "two.example");
                     LPutService (toy_svc "a" "three.example"); LDeleteService (Some (toy_svc "b" "two.example"))] in
  (forall ep, Lookup "two.example" (registry d) = Some ep -> ep_Hostname ep = "two.example"%string /\ exists b, (ep, b) ∈ o) /\
  (unrefused o "two.example" -> forall ep,
    Lookup "two.example" (registry d) = Some ep <-> exists i, current id toy_parse toy_kube d i = Some ep /\ ep_Hostname ep = "two.example"%string).
Proof.
  split; [by vm_compute|].
  apply (discovery_follows_services id toy_parse toy_kube (@NewRegistry toy_ssh [] toy_lim)); [done|done|].
  repeat constructor; done.
Defined.

(** The routes of that run. *)
Example moved_and_deleted :
  let d := (toy_run [LPutService (toy_svc "a" "One.example"); LPutService (toy_svc "b" "two.example");
                     LPutService (toy_svc "a" "three.example"); LDeleteService (Some (toy_svc "b" "two.example"))]).2 in
  (fun h => ep_Address <$> Lookup h (registry d)) <$> ["one.example"; "two.example"; "three.example"]%string
  = [None; None; Some "a.prod.svc:443"%string].
Proof. by vm_compute. Qed.

(** A refused service is forgotten: once it has moved to another name nothing
    takes its claim on the contested one back, so the service that alone asks
    for it is not routed. *)
Example stale_claim :
  let d := (toy_run [LPutService (toy_svc "a" "one.example"); LPutService (toy_svc "b" "one.example");
                     LPutService (toy_svc "b" "two.example"); LPutService (toy_svc "a" "one.example")]).2 in
  ep_Hostname <$> current id toy_parse toy_kube d "a" = Some "one.example"%string
  /\ ep_Hostname <$> current id toy_parse toy_kube d "b" = Some "two.example"%string
  /\ ep_Service <$> Lookup "one.example" (registry d) = None.
Proof. by vm_compute. Qed.

(** And when the other service leaves, the name is routed to one that has
    moved, and then been deleted. *)
Example departed_service_routed :
  let d := (toy_run [LPutService (toy_svc "a" "one.example"); LPutService (toy_svc "b" "one.example");
                     LPutService (toy_svc "b" "two.example"); LDeleteService (Some (toy_svc "a" "one.example"));
                     LDeleteService (Some (toy_svc "b" "two.example"))]).2 in
  services d = ∅ /\ ep_Service <$> Lookup "one.example" (registry d) = Some "b"%string.
Proof. by vm_compute. Qed.

(** A name with an empty label is taken. *)
Example empty_label_accepted : validHostname (bytes_of "a..b") = true.
Proof. by vm_compute. Qed.
