(* ===== verification/RelayProcess.v ===== *)
(** [pkg/relay/config.go] and [relay.go]: what a relay's configuration must be
    to be loaded, and how a relay opens and closes its sockets.

    YAML is decoded already; TLS certificates, logging and buffer sizes are
    not here.  What the system answers to a bind is an argument ([bind], by
    the number of the attempt), and so are name resolution and whether the
    Kubernetes client could be made. *)
From stdpp Require Import pretty.
From S2P Require Import Prelude Bytes Netip Sni Protocol Registry RelayPublic ServerAuth ClientTransport KubeWatch.
From S2P Require ClientSession ServerToy.
Import ServerToy(toy_String, toy_ParseAddr, toy_ParsePrefix, toy_ParseAddr_String, toy_ParseAddr_wf, toy_ParsePrefix_wf).

(** ** The configuration file *)
Record RegistrationConfig := mkRegConfig {
  rc_Name : string;
  rc_PublicKey : string;
  rc_Listen : string;
  rc_Native : string;
}.

Record Config := mkConfig {
  cf_Public : string;
  cf_Agents : string;
  cf_Reflect : string;
  cf_UDPRelay : string;
  cf_UDPRelayPorts : string;
  cf_Domain : string;
  cf_Limits : Limits;
  cf_MaxNewConnsPerMinute : Z;
  cf_Registrations : list RegistrationConfig;
  cf_KubernetesEnabled : bool;
  cf_Kubernetes : KubernetesConfig;
}.

Inductive config_error : Type :=
  | NoDomain | BadDomain
  | NoPortRange | BadPortRange
  | BadMode | NothingSelected | NoServiceSelector | BadServiceSelector | BadNamespaceSelector | NoPortName
  | Incomplete | BadName | DuplicateName | BadListen | ListenIsPublic | ListenIsAgents | DuplicateListen
  | BadNative | DuplicateNative | BadKey.

Definition or_zero (d z : Z) : Z := if z =? 0 then d else z.
Definition or_empty (d s : string) : string := if (s =? "")%string then d else s.

Definition default_limits (l : Limits) : Limits := {|
  HandshakeTimeout := or_zero (5 * second) (HandshakeTimeout l);
  DialBackTimeout := or_zero (10 * second) (DialBackTimeout l);
  MaxPendingPerServer := or_zero 32 (MaxPendingPerServer l);
  MaxConnsPerServer := or_zero 256 (MaxConnsPerServer l);
  UDPRelayIdleTimeout := or_zero (60 * second) (UDPRelayIdleTimeout l);
  MaxUDPRelaySessionsPerServer := or_zero 64 (MaxUDPRelaySessionsPerServer l);
  MaxRegistrationsPerMinute := or_zero 60 (MaxRegistrationsPerMinute l);
  MaxPendingRegistrations := or_zero 256 (MaxPendingRegistrations l);
|}.

(** [strings.Cut] at one byte. *)
Fixpoint cut (x : byte) (l : list byte) : option (list byte * list byte) :=
  match l with
  | [] => None
  | y :: l => if bool_decide (y = x) then Some ([], l) else '(a, b) ← cut x l; Some (y :: a, b)
  end.

(** The last three tests of [parsePortRange] are its three errors. *)
Definition parsePortRange (s : string) : option (Z * Z) :=
  let '(before, after) := default (bytes_of s, bytes_of s) (cut x2d (bytes_of s)) in
  match ClientSession.Atoi (str_of (trim_space before)), ClientSession.Atoi (str_of (trim_space after)) with
  | Some lo, Some hi =>
      if (lo <? 1) || (65535 <? lo) || (hi <? 1) || (65535 <? hi) then None
      else if hi <? lo then None
      else Some (lo, hi)
  | _, _ => None
  end.

Fixpoint double_dot (l : list byte) : bool :=
  match l with
  | x :: l => (bool_decide (x = x2e) && has_prefix l [x2e]) || double_dot l
  | [] => false
  end.

Section config.
Context {ssh : SSH} {text : AddrText} (unicode_lower : list byte -> list byte).
Context (Parse : string -> option (gmap string string -> bool)).

Definition check_domain (d : string) : result config_error string :=
  if (d =? "")%string then Err NoDomain
  else
    let n := normalizeSNI unicode_lower (bytes_of d) in
    if bool_decide (n = []) || has_prefix n [x2e] || has_suffix n [x2e] || double_dot n then Err BadDomain
    else Ok (str_of n).

Definition check_udp (c : Config) : result config_error () :=
  if (cf_UDPRelay c =? "")%string then Ok ()
  else if (cf_UDPRelayPorts c =? "")%string then Err NoPortRange
  else match parsePortRange (cf_UDPRelayPorts c) with Some _ => Ok () | None => Err BadPortRange end.

Definition check_kubernetes (enabled : bool) (k : KubernetesConfig) : result config_error KubernetesConfig :=
  if negb enabled then Ok k
  else
    let mode := or_empty "all" (kc_Mode k) in
    if negb (mode =? "all")%string && negb (mode =? "selected")%string then Err BadMode
    else if (mode =? "selected")%string && bool_decide (kc_Names k = []) && (kc_NamespaceSelector k =? "")%string then Err NothingSelected
    else if (kc_Selector k =? "")%string then Err NoServiceSelector
    else if bool_decide (Parse (kc_Selector k) = None) then Err BadServiceSelector
    else if negb (kc_NamespaceSelector k =? "")%string && bool_decide (Parse (kc_NamespaceSelector k) = None) then Err BadNamespaceSelector
    else if (kc_PortName k =? "")%string then Err NoPortName
    else Ok {| kc_Mode := mode; kc_Names := kc_Names k; kc_NamespaceSelector := kc_NamespaceSelector k;
               kc_Selector := kc_Selector k; kc_PortName := kc_PortName k;
               kc_HostnameAnnotation := or_empty "ntwire.io/hostname" (kc_HostnameAnnotation k);
               kc_TenantAnnotation := or_empty "ntwire.io/tenant" (kc_TenantAnnotation k) |}.

Definition check_listen (public agents : string) (seenListen : gset string) (listen : string) : result config_error (gset string) :=
  if (listen =? "")%string then Ok seenListen
  else if bool_decide (SplitHostPort listen = None) then Err BadListen
  else if (listen =? public)%string then Err ListenIsPublic
  else if (listen =? agents)%string then Err ListenIsAgents
  else if bool_decide (listen ∈ seenListen) then Err DuplicateListen
  else Ok ({[listen]} ∪ seenListen).

Definition check_native (seenNative : gset string) (listen : string) : result config_error (gset string) :=
  if (listen =? "")%string then Ok seenNative
  else if bool_decide (SplitHostPort listen = None) then Err BadNative
  else if bool_decide (listen ∈ seenNative) then Err DuplicateNative
  else Ok ({[listen]} ∪ seenNative).

Fixpoint check_registrations (public agents : string) (seen seenListen seenNative : gset string) (l : list RegistrationConfig) :
    result config_error () :=
  match l with
  | [] => Ok ()
  | r :: l =>
      if (rc_Name r =? "")%string || (rc_PublicKey r =? "")%string then Err Incomplete
      else if negb (validLabel (bytes_of (rc_Name r))) then Err BadName
      else if bool_decide (rc_Name r ∈ seen) then Err DuplicateName
      else
        let? seenListen := check_listen public agents seenListen (rc_Listen r) in
        let? seenNative := check_native seenNative (rc_Native r) in
        match Registry.ParsePublicString (rc_PublicKey r) with
        | None => Err BadKey
        | Some _ => check_registrations public agents ({[rc_Name r]} ∪ seen) seenListen seenNative l
        end
  end.

Definition LoadConfig (c : Config) : result config_error Config :=
  let public := or_empty ":443" (cf_Public c) in
  let agents := or_empty ":8444" (cf_Agents c) in
  let? domain := check_domain (cf_Domain c) in
  let? u := check_udp c in
  let? k := check_kubernetes (cf_KubernetesEnabled c) (cf_Kubernetes c) in
  let? u := check_registrations public agents ∅ ∅ ∅ (cf_Registrations c) in
  Ok {| cf_Public := public; cf_Agents := agents; cf_Reflect := cf_Reflect c;
        cf_UDPRelay := cf_UDPRelay c; cf_UDPRelayPorts := cf_UDPRelayPorts c;
        cf_Domain := domain; cf_Limits := default_limits (cf_Limits c);
        cf_MaxNewConnsPerMinute := or_zero 60 (cf_MaxNewConnsPerMinute c);
        cf_Registrations := cf_Registrations c;
        cf_KubernetesEnabled := cf_KubernetesEnabled c; cf_Kubernetes := k |}.

Definition parse_registration (r : RegistrationConfig) : option Registration :=
  key ← Registry.ParsePublicString (rc_PublicKey r);
  Some {| rg_Name := rc_Name r; rg_PublicKey := key; rg_Listen := rc_Listen r |}.

Definition ParseRegistrations (l : list RegistrationConfig) : option (list Registration) := mapM parse_registration l.

(** The registry of [New]; the listeners' objects only refer to it. *)
Definition New (c : Config) : option Registry :=
  regs ← ParseRegistrations (cf_Registrations c);
  Some (NewRegistry regs (cf_Limits c)).

Definition ReloadRegistrations (order : gmap string tenantState -> list string) (l : list RegistrationConfig) (r : Registry) :
    option (list Agent * Registry) :=
  regs ← ParseRegistrations l;
  Some (ReplaceRegistrations order regs r).
End config.

(** ** Sockets *)
Record sock := mkSock { sk_id : Z; sk_addr : string }.

(** [live]: the sockets open in the process, by number. *)
Record os := mkOs { next : Z; live : gset Z }.

(** The variables of [Start], which become the fields of the relay. *)
Record opened := mkOpened {
  publicLn : option sock;
  agentsLn : option sock;
  reflectLn : option sock;
  udpRelayLn : option sock;
  udpRelayPool : gmap Z sock;
  nativeWG : gmap string (sock * string);
  tenantLns : gmap string sock;
}.

Definition nothing : opened := mkOpened None None None None ∅ ∅ ∅.
Definition set_public (s : sock) (l : opened) : opened := mkOpened (Some s) (agentsLn l) (reflectLn l) (udpRelayLn l) (udpRelayPool l) (nativeWG l) (tenantLns l).
Definition set_agents (s : sock) (l : opened) : opened := mkOpened (publicLn l) (Some s) (reflectLn l) (udpRelayLn l) (udpRelayPool l) (nativeWG l) (tenantLns l).
Definition set_reflect (s : sock) (l : opened) : opened := mkOpened (publicLn l) (agentsLn l) (Some s) (udpRelayLn l) (udpRelayPool l) (nativeWG l) (tenantLns l).
Definition set_udp (s : sock) (l : opened) : opened := mkOpened (publicLn l) (agentsLn l) (reflectLn l) (Some s) (udpRelayPool l) (nativeWG l) (tenantLns l).
Definition add_pool (p : Z) (s : sock) (l : opened) : opened := mkOpened (publicLn l) (agentsLn l) (reflectLn l) (udpRelayLn l) (<[p := s]> (udpRelayPool l)) (nativeWG l) (tenantLns l).
Definition add_native (n : string) (s : sock) (a : string) (l : opened) : opened := mkOpened (publicLn l) (agentsLn l) (reflectLn l) (udpRelayLn l) (udpRelayPool l) (<[n := (s, a)]> (nativeWG l)) (tenantLns l).
Definition add_tenant (n : string) (s : sock) (l : opened) : opened := mkOpened (publicLn l) (agentsLn l) (reflectLn l) (udpRelayLn l) (udpRelayPool l) (nativeWG l) (<[n := s]> (tenantLns l)).

Inductive start_error : Type :=
  | ETLS | EPublic | EAgents | EReflect | EPorts | EUDP | EPool (port : Z) | ENative (name : string) | ETenant (name : string) | EKubernetes | EFuel.

(** [net.JoinHostPort]. *)
Definition join (host port : string) : string :=
  if bool_decide (x3a ∈ bytes_of host) then ("[" ++ host ++ "]:" ++ port)%string else (host ++ ":" ++ port)%string.

(** What is told to the servers that register. *)
Definition ReflectAddr (r : opened) : string := from_option sk_addr ""%string (reflectLn r).
Definition UDPRelayAddr (r : opened) : string := from_option sk_addr ""%string (udpRelayLn r).

(** ** Closing *)
Definition close (s : sock) (o : os) : os := mkOs (next o) (live o ∖ {[sk_id s]}).

Definition close_opt (s : option sock) (o : os) : os := match s with Some s => close s o | None => o end.

Definition close_all (l : list sock) (o : os) : os := foldl (fun o s => close s o) o l.

Definition abortAll (l : opened) (o : os) : os :=
  close_all (map_to_list (tenantLns l)).*2
    (close_all (map_to_list (nativeWG l)).*2.*1
      (close_all (map_to_list (udpRelayPool l)).*2
        (close_opt (udpRelayLn l) (close_opt (reflectLn l) (close_opt (agentsLn l) (close_opt (publicLn l) o)))))).

(** [udpSweepStop]: made, and still open. *)
Record Relay := mkRelay { r_opened : opened; udpSweepStop : option bool }.

Definition new_relay : Relay := mkRelay nothing None.

(** [None]: a closed channel is closed again, which panics. *)
Definition Close (r : Relay) (o : os) : option (Relay * os) :=
  let l := r_opened r in
  let o := close_opt (publicLn l) o in
  let o := close_all (map_to_list (tenantLns l)).*2 o in
  let o := close_opt (agentsLn l) o in
  let o := close_opt (reflectLn l) o in
  stop ← match udpSweepStop r with
         | None => Some None
         | Some true => Some (Some false)
         | Some false => None
         end;
  let o := close_opt (udpRelayLn l) o in
  let o := close_all (map_to_list (udpRelayPool l)).*2 o in
  let o := close_all (map_to_list (nativeWG l)).*2.*1 o in
  Some (mkRelay l stop, o).

(** ** What is open *)
Definition ids (l : list sock) : gset Z := list_to_set (sk_id <$> l).

Definition held (l : opened) : gset Z :=
  ids (option_list (publicLn l)) ∪ ids (option_list (agentsLn l)) ∪ ids (option_list (reflectLn l)) ∪ ids (option_list (udpRelayLn l))
  ∪ ids (map_to_list (udpRelayPool l)).*2 ∪ ids (map_to_list (nativeWG l)).*2.*1 ∪ ids (map_to_list (tenantLns l)).*2.

(** Sockets are numbered as they are opened. *)
Definition os_wf (o : os) : Prop := forall i, i ∈ live o -> i < next o.

(** The sockets opened since [o0] are those of [l]. *)
Record owns (o0 : os) (l : opened) (o : os) : Prop := mkOwns {
  ow_live : live o = live o0 ∪ held l;
  ow_next : next o0 <= next o;
  ow_held : forall i, i ∈ held l -> next o0 <= i < next o;
}.

Lemma close_all_live l o : live (close_all l o) = live o ∖ ids l.
Proof.
  revert o. induction l as [|s l IH]; intros o; [set_solver|]. unfold close_all in *. cbn [foldl]. rewrite IH.
  unfold ids. cbn [fmap list_fmap list_to_set live close]. set_solver.
Qed.

Lemma close_opt_live s o : live (close_opt s o) = live o ∖ ids (option_list s).
Proof. destruct s as [s|]; unfold ids; cbn; set_solver. Qed.

Lemma abortAll_live l o : live (abortAll l o) = live o ∖ held l.
Proof.
  unfold abortAll, held. rewrite !close_all_live, !close_opt_live. apply set_eq. intros i. rewrite !elem_of_difference, !elem_of_union. tauto.
Qed.

Lemma ids_insert {K} `{Countable K} {A} (f : A -> sock) (m : gmap K A) k a :
  m !! k = None -> ids (f <$> (map_to_list (<[k := a]> m)).*2) = {[sk_id (f a)]} ∪ ids (f <$> (map_to_list m).*2).
Proof.
  intros Hk. unfold ids. pose proof (map_to_list_insert m k a Hk) as Hp.
  rewrite (list_to_set_perm_L _ _ (fmap_Permutation sk_id _ _ (fmap_Permutation f _ _ (fmap_Permutation snd _ _ Hp)))). done.
Qed.

Lemma held_add_pool p s l : udpRelayPool l !! p = None -> held (add_pool p s l) = {[sk_id s]} ∪ held l.
Proof.
  intros Hp. unfold held, add_pool. cbn [publicLn agentsLn reflectLn udpRelayLn udpRelayPool nativeWG tenantLns].
  pose proof (ids_insert id (udpRelayPool l) p s Hp) as E. rewrite !list_fmap_id in E. rewrite E.
  apply set_eq. intros i. rewrite !elem_of_union. tauto.
Qed.

Lemma held_add_native n s a l : nativeWG l !! n = None -> held (add_native n s a l) = {[sk_id s]} ∪ held l.
Proof.
  intros Hn. unfold held, add_native. cbn [publicLn agentsLn reflectLn udpRelayLn udpRelayPool nativeWG tenantLns].
  rewrite (ids_insert fst (nativeWG l) n (s, a) Hn).
  apply set_eq. intros i. rewrite !elem_of_union. tauto.
Qed.

Lemma held_add_tenant n s l : tenantLns l !! n = None -> held (add_tenant n s l) = {[sk_id s]} ∪ held l.
Proof.
  intros Hn. unfold held, add_tenant. cbn [publicLn agentsLn reflectLn udpRelayLn udpRelayPool nativeWG tenantLns].
  pose proof (ids_insert id (tenantLns l) n s Hn) as E. rewrite !list_fmap_id in E. rewrite E.
  apply set_eq. intros i. rewrite !elem_of_union. tauto.
Qed.

Lemma owns_close o0 l o : os_wf o0 -> owns o0 l o -> live o ∖ held l = live o0.
Proof.
  intros Hwf [-> _ H3]. apply set_eq. intros i. rewrite elem_of_difference, elem_of_union. split; [tauto|].
  intros Hi. split; [by left|]. intros Hh%H3. apply Hwf in Hi. lia.
Qed.

(** Closing a relay that was started, for the first time. *)
Lemma Close_live r o : udpSweepStop r <> Some false -> exists r' o', Close r o = Some (r', o') /\ live o' = live o ∖ held (r_opened r).
Proof.
  intros Hs. unfold Close. destruct (udpSweepStop r) as [[]|]; [|done|]; simpl; eexists _, _; (split; [done|]);
    rewrite ?close_all_live, ?close_opt_live, ?close_all_live, ?close_opt_live;
    unfold held; apply set_eq; intros i; rewrite !elem_of_difference, !elem_of_union; tauto.
Qed.
Section process.
Context {text : AddrText}.
(** The address the [n]th bind gives, of a datagram socket or a listener. *)
Context (bind : Z -> bool -> string -> option string).
(** [net.ResolveUDPAddr] of a host that is no address. *)
Context (ResolveUDPAddr : string -> option string).

Definition listen (udp : bool) (addr : string) (o : os) : option sock * os :=
  match bind (next o) udp addr with
  | Some b => (Some (mkSock (next o) b), mkOs (next o + 1) ({[next o]} ∪ live o))
  | None => (None, mkOs (next o + 1) (live o))
  end.

(** A part of [Start] leaves an error, the variables and the sockets. *)
Abbreviation part := (opened -> os -> option start_error * opened * os)%type.

Definition open_agents (c : Config) : part := fun l o =>
  match listen false (cf_Agents c) o with
  | (Some s, o) => (None, set_agents s l, o)
  | (None, o) => (Some EAgents, l, o)
  end.

Definition open_reflect (c : Config) : part := fun l o =>
  if (cf_Reflect c =? "")%string then (None, l, o)
  else
    match listen true (cf_Reflect c) o with
    | (Some s, o) => (None, set_reflect s l, o)
    | (None, o) => (Some EReflect, l, o)
    end.

Definition udpRelayPoolListenAddr (udpRelay : string) (port : Z) : option string :=
  '(host, _) ← SplitHostPort udpRelay; Some (JoinHostPort host port).

(** [port++] wraps at sixteen bits; the loop ends at [maxPort]. *)
Fixpoint open_pool (fuel : nat) (c : Config) (port maxPort : Z) (l : opened) (o : os) : option start_error * opened * os :=
  match fuel with
  | O => (Some EFuel, l, o)
  | S fuel =>
      match udpRelayPoolListenAddr (cf_UDPRelay c) port with
      | None => (Some EPorts, l, o)
      | Some addr =>
          match listen true addr o with
          | (None, o) => (Some (EPool port), l, o)
          | (Some s, o) =>
              let l := add_pool port s l in
              if port =? maxPort then (None, l, o) else open_pool fuel c ((port + 1) mod 65536) maxPort l o
          end
      end
  end.

Definition open_udp (c : Config) : part := fun l o =>
  if (cf_UDPRelay c =? "")%string then (None, l, o)
  else
    match parsePortRange (cf_UDPRelayPorts c) with
    | None => (Some EPorts, l, o)
    | Some (minPort, maxPort) =>
        match listen true (cf_UDPRelay c) o with
        | (None, o) => (Some EUDP, l, o)
        | (Some s, o) => open_pool (Z.to_nat 65536) c minPort maxPort (set_udp s l) o
        end
    end.

Definition resolveNativeWGListenAddr (addr : string) : option string :=
  '(host, _) ← SplitHostPort addr;
  if (host =? "")%string || bool_decide (is_Some (ParseIP host)) then Some addr else ResolveUDPAddr addr.

Definition nativeWGAdvertiseAddr (tenant domain configured bound : string) : option string :=
  '(host, _) ← SplitHostPort configured;
  '(_, port) ← SplitHostPort bound;
  if (host =? "")%string || match ParseIP host with Some ip => IsUnspecified (Unmap ip) | None => false end
  then Some (join (tenant ++ "." ++ domain) port)
  else Some bound.

Fixpoint open_natives (c : Config) (regs : list RegistrationConfig) (l : opened) (o : os) : option start_error * opened * os :=
  match regs with
  | [] => (None, l, o)
  | r :: regs =>
      if (rc_Native r =? "")%string then open_natives c regs l o
      else
        match resolveNativeWGListenAddr (rc_Native r) with
        | None => (Some (ENative (rc_Name r)), l, o)
        | Some addr =>
            match listen true addr o with
            | (None, o) => (Some (ENative (rc_Name r)), l, o)
            | (Some s, o) =>
                match nativeWGAdvertiseAddr (rc_Name r) (cf_Domain c) (rc_Native r) (sk_addr s) with
                | None => (Some (ENative (rc_Name r)), l, close s o)
                | Some a => open_natives c regs (add_native (rc_Name r) s a l) o
                end
            end
        end
  end.

Fixpoint open_tenants (regs : list RegistrationConfig) (l : opened) (o : os) : option start_error * opened * os :=
  match regs with
  | [] => (None, l, o)
  | r :: regs =>
      if (rc_Listen r =? "")%string then open_tenants regs l o
      else
        match listen false (rc_Listen r) o with
        | (None, o) => (Some (ETenant (rc_Name r)), l, o)
        | (Some s, o) => open_tenants regs (add_tenant (rc_Name r) s l) o
        end
  end.

Definition after (p q : part) : part := fun l o =>
  match p l o with
  | (None, l, o) => q l o
  | (Some e, l, o) => (Some e, l, o)
  end.

Definition open_rest (c : Config) : part :=
  after (open_agents c) (after (open_reflect c) (after (open_udp c)
    (after (open_natives c (cf_Registrations c)) (open_tenants (cf_Registrations c))))).

(** [pair]: the certificate was loaded; [kube]: the Kubernetes client was
    made.  By the time it is asked for, the relay has its fields. *)
Definition Start (pair kube : bool) (c : Config) (r : Relay) (o : os) : option start_error * Relay * os :=
  if negb pair then (Some ETLS, r, o)
  else
    match listen false (cf_Public c) o with
    | (None, o) => (Some EPublic, r, o)
    | (Some s, o) =>
        match open_rest c (set_public s nothing) o with
        | (Some e, l, o) => (Some e, r, abortAll l o)
        | (None, l, o) =>
            let r := mkRelay l (match udpRelayLn l with Some _ => Some true | None => None end) in
            if cf_KubernetesEnabled c && negb kube then (Some EKubernetes, r, abortAll l o)
            else (None, r, o)
        end
    end.

Lemma owns_listen udp addr o0 l o r o' :
  os_wf o0 -> listen udp addr o = (r, o') -> owns o0 l o ->
  match r with
  | Some s => bind (sk_id s) udp addr = Some (sk_addr s)
              /\ (forall l', held l' = {[sk_id s]} ∪ held l -> owns o0 l' o') /\ owns o0 l (close s o')
  | None => owns o0 l o'
  end.
Proof.
  unfold listen. intros Hwf Hl [H1 H2 H3].
  assert (Hnew : next o ∉ live o0 ∪ held l).
  { intros [Hi%Hwf|Hi%H3]%elem_of_union; lia. }
  destruct (bind _ _ _) as [b|] eqn:Hb; injection Hl as <- <-; cbn [sk_id sk_addr].
  - split; [done|]. split.
    + intros l' Hh. constructor; cbn [next live]; [|lia|].
      * rewrite Hh, H1. clear. set_solver.
      * intros i. rewrite Hh. intros [->%elem_of_singleton|Hi%H3]%elem_of_union; lia.
    + constructor; cbn [next live close sk_id]; [|lia|].
      * rewrite H1. clear -Hnew. apply set_eq. intros i. rewrite elem_of_difference, (elem_of_union {[_]}), elem_of_singleton.
        split; [tauto|]. intros Hi. split; [by right|]. intros ->. done.
      * intros i Hi%H3. lia.
  - constructor; cbn [next live]; [done|lia|]. intros i Hi%H3. lia.
Qed.

(** ** The parts of [Start] *)
Definition bound (udp : bool) (addr : string) (s : sock) : Prop := bind (sk_id s) udp addr = Some (sk_addr s).

Lemma open_agents_ok c o0 l o e l' o' :
  os_wf o0 -> owns o0 l o -> agentsLn l = None -> open_agents c l o = (e, l', o') ->
  owns o0 l' o' /\ e <> Some EFuel /\ (e = None -> exists s, l' = set_agents s l /\ bound false (cf_Agents c) s).
Proof.
  intros Hwf Hown Hno. unfold open_agents. destruct (listen _ _ _) as [r o1] eqn:Hl.
  pose proof (owns_listen _ _ _ _ _ _ _ Hwf Hl Hown) as Hs. destruct r as [s|]; intros [= <- <- <-]; [|done].
  destruct Hs as (Hb & Ho & _). split; [|split; [done|by exists s]].
  apply Ho. unfold held, set_agents. cbn [publicLn agentsLn reflectLn udpRelayLn udpRelayPool nativeWG tenantLns]. rewrite Hno.
  unfold ids. cbn. clear. set_solver.
Qed.

Lemma open_reflect_ok c o0 l o e l' o' :
  os_wf o0 -> owns o0 l o -> reflectLn l = None -> open_reflect c l o = (e, l', o') ->
  owns o0 l' o' /\ e <> Some EFuel
  /\ (e = None -> cf_Reflect c = ""%string /\ l' = l \/ cf_Reflect c <> ""%string /\ exists s, l' = set_reflect s l /\ bound true (cf_Reflect c) s).
Proof.
  intros Hwf Hown Hno. unfold open_reflect. destruct (String.eqb_spec (cf_Reflect c) "") as [He|He].
  { intros [= <- <- <-]. split_and!; [done|done|by left]. }
  destruct (listen _ _ _) as [r o1] eqn:Hl.
  pose proof (owns_listen _ _ _ _ _ _ _ Hwf Hl Hown) as Hs. destruct r as [s|]; intros [= <- <- <-]; [|done].
  destruct Hs as (Hb & Ho & _). split; [|split; [done|intros _; right; split; [done|by exists s]]].
  apply Ho. unfold held, set_reflect. cbn [publicLn agentsLn reflectLn udpRelayLn udpRelayPool nativeWG tenantLns]. rewrite Hno.
  unfold ids. cbn. clear. set_solver.
Qed.

Definition pool_host (c : Config) : option string := fst <$> SplitHostPort (cf_UDPRelay c).

Definition in_pool (c : Config) (p : Z) (s : sock) : Prop :=
  exists host, pool_host c = Some host /\ bound true (JoinHostPort host p) s.

Definition with_pool (m : gmap Z sock) (l : opened) : opened :=
  mkOpened (publicLn l) (agentsLn l) (reflectLn l) (udpRelayLn l) m (nativeWG l) (tenantLns l).

(** The fuel is more than the ports. *)
Lemma open_pool_ok fuel c hi o0 port l o e l' o' :
  os_wf o0 -> owns o0 l o -> 1 <= port <= hi -> hi <= 65535 -> hi - port < Z.of_nat fuel ->
  (forall p, port <= p -> udpRelayPool l !! p = None) -> open_pool fuel c port hi l o = (e, l', o') ->
  owns o0 l' o' /\ e <> Some EFuel
  /\ exists m, l' = with_pool m l
     /\ (forall p, p < port -> m !! p = udpRelayPool l !! p)
     /\ (e = None -> forall p, port <= p -> match m !! p with Some s => p <= hi /\ in_pool c p s | None => hi < p end).
Proof.
  intros Hwf. revert port l o. induction fuel as [|fuel IH]; intros port l o Hown Hport Hhi Hfuel Hfree; [lia|].
  assert (Hsame : exists m, l = with_pool m l /\ (forall p, p < port -> m !! p = udpRelayPool l !! p) /\ m = udpRelayPool l)
    by (exists (udpRelayPool l); split_and!; [by destruct l|done|done]).
  destruct Hsame as (m0 & Hl0 & Hm0 & _). cbn [open_pool].
  destruct (udpRelayPoolListenAddr _ _) as [addr|] eqn:Ha.
  2: { intros [= <- <- <-]. split_and!; [done|done|]. exists m0. split_and!; [done|done|done]. }
  destruct (listen _ _ _) as [r o1] eqn:Hl. pose proof (owns_listen _ _ _ _ _ _ _ Hwf Hl Hown) as Hs.
  destruct r as [s|].
  2: { intros [= <- <- <-]. split_and!; [done|done|]. exists m0. split_and!; [done|done|done]. }
  destruct Hs as (Hb & Ho & _). specialize (Ho _ (held_add_pool port s l (Hfree port (Z.le_refl _)))).
  assert (Hin : in_pool c port s).
  { unfold udpRelayPoolListenAddr in Ha. unfold in_pool, pool_host. destruct (SplitHostPort _) as [[h q]|]; [|done].
    injection Ha as <-. by exists h. }
  destruct (Z.eqb_spec port hi) as [->|Hne].
  - intros [= <- <- <-]. split_and!; [done|done|]. exists (<[hi := s]> (udpRelayPool l)). split_and!; [done| |].
    + intros p Hp. by rewrite lookup_insert_ne by lia.
    + intros _ p Hp. destruct (decide (p = hi)) as [->|Hp']; [by rewrite lookup_insert_eq|].
      rewrite lookup_insert_ne by done. rewrite Hfree by lia. lia.
  - rewrite Z.mod_small by lia. intros Hrun.
    destruct (IH (port + 1) _ _ Ho ltac:(lia) Hhi ltac:(lia)) as (H1 & H2 & m & H3 & H4 & H5); [|exact Hrun|].
    + intros p Hp. cbn [udpRelayPool add_pool]. rewrite lookup_insert_ne by lia. apply Hfree. lia.
    + split_and!; [done|done|]. exists m. split_and!; [done| |].
      * intros p Hp. rewrite H4 by lia. cbn [udpRelayPool add_pool]. by rewrite lookup_insert_ne by lia.
      * intros He p Hp. destruct (decide (p = port)) as [->|Hp']; [|apply H5; [done|lia]].
        rewrite H4 by lia. cbn [udpRelayPool add_pool]. rewrite lookup_insert_eq. split; [lia|done].
Qed.

Lemma parsePortRange_range s lo hi : parsePortRange s = Some (lo, hi) -> 1 <= lo <= hi /\ hi <= 65535.
Proof.
  unfold parsePortRange. destruct (default _ _) as [b a]. destruct (ClientSession.Atoi _) as [x|]; [|done].
  destruct (ClientSession.Atoi _) as [y|]; [|done]. destruct (_ || _) eqn:E; [done|]. destruct (y <? x) eqn:E2; [done|].
  intros [= <- <-]. bool_to_prop. lia.
Qed.

Lemma open_udp_ok c o0 l o e l' o' :
  os_wf o0 -> owns o0 l o -> udpRelayLn l = None -> udpRelayPool l = ∅ -> open_udp c l o = (e, l', o') ->
  owns o0 l' o' /\ e <> Some EFuel
  /\ exists u m, l' = with_pool m (mkOpened (publicLn l) (agentsLn l) (reflectLn l) u ∅ (nativeWG l) (tenantLns l))
  /\ (e = None -> cf_UDPRelay c = ""%string /\ u = None /\ m = ∅
       \/ exists s lo hi, u = Some s /\ cf_UDPRelay c <> ""%string /\ bound true (cf_UDPRelay c) s
          /\ parsePortRange (cf_UDPRelayPorts c) = Some (lo, hi)
          /\ forall p, match m !! p with Some s => lo <= p <= hi /\ in_pool c p s | None => ~ lo <= p <= hi end).
Proof.
  intros Hwf Hown Hno Hpool. unfold open_udp. destruct (String.eqb_spec (cf_UDPRelay c) "") as [He|He].
  { intros [= <- <- <-]. split_and!; [done|done|]. exists None, ∅. split; [destruct l; simpl in *; by subst|]. by left. }
  assert (Hl0 : l = with_pool ∅ (mkOpened (publicLn l) (agentsLn l) (reflectLn l) None ∅ (nativeWG l) (tenantLns l)))
    by (destruct l; simpl in *; by subst).
  destruct (parsePortRange _) as [[lo hi]|] eqn:Hr.
  2: { intros [= <- <- <-]. split_and!; [done|done|]. by exists None, ∅. }
  destruct (listen _ _ _) as [r o1] eqn:Hl. pose proof (owns_listen _ _ _ _ _ _ _ Hwf Hl Hown) as Hs.
  destruct r as [s|].
  2: { intros [= <- <- <-]. split_and!; [done|done|]. by exists None, ∅. }
  destruct Hs as (Hb & Ho & _). intros Hrun. apply parsePortRange_range in Hr as Hrange.
  assert (Hown1 : owns o0 (set_udp s l) o1).
  { apply Ho. unfold held, set_udp. cbn [publicLn agentsLn reflectLn udpRelayLn udpRelayPool nativeWG tenantLns]. rewrite Hno.
    unfold ids. cbn. clear. apply set_eq. intros i. rewrite !elem_of_union. set_solver. }
  destruct (open_pool_ok (Z.to_nat 65536) c hi o0 lo (set_udp s l) o1 e l' o' Hwf Hown1) as (H1 & H2 & m & H3 & H4 & H5);
    [lia|lia|rewrite Z2Nat.id; lia| |exact Hrun|].
  { intros p _. cbn [udpRelayPool set_udp]. by rewrite Hpool. }
  split_and!; [done|done|]. exists (Some s), m. split; [by rewrite H3|]. intros Hn. right. exists s, lo, hi.
  split_and!; try done. intros p. destruct (decide (lo <= p)) as [Hp|Hp].
  - specialize (H5 Hn p Hp). destruct (m !! p); [|lia]. split; [lia|apply H5].
  - rewrite H4 by lia. cbn [udpRelayPool set_udp]. rewrite Hpool, lookup_empty. lia.
Qed.

Definition native_of (c : Config) (r : RegistrationConfig) (sa : sock * string) : Prop :=
  rc_Native r <> ""%string /\ (exists addr, resolveNativeWGListenAddr (rc_Native r) = Some addr /\ bound true addr sa.1)
  /\ nativeWGAdvertiseAddr (rc_Name r) (cf_Domain c) (rc_Native r) (sk_addr sa.1) = Some sa.2.

Definition tenant_of (r : RegistrationConfig) (s : sock) : Prop := rc_Listen r <> ""%string /\ bound false (rc_Listen r) s.

Definition with_natives (m : gmap string (sock * string)) (l : opened) : opened :=
  mkOpened (publicLn l) (agentsLn l) (reflectLn l) (udpRelayLn l) (udpRelayPool l) m (tenantLns l).

Definition with_tenants (m : gmap string sock) (l : opened) : opened :=
  mkOpened (publicLn l) (agentsLn l) (reflectLn l) (udpRelayLn l) (udpRelayPool l) (nativeWG l) m.

(** A map with the sockets of the registrations that ask for one. *)
Definition filled {A} (regs : list RegistrationConfig) (asks : RegistrationConfig -> string) (fits : RegistrationConfig -> A -> Prop)
    (old m : gmap string A) : Prop :=
  forall name, match m !! name with
    | Some a => old !! name = Some a \/ exists r, r ∈ regs /\ rc_Name r = name /\ fits r a
    | None => old !! name = None /\ forall r, r ∈ regs -> rc_Name r = name -> asks r = ""%string
    end.

Lemma filled_nil {A} asks fits (m : gmap string A) : filled [] asks fits m m.
Proof. intros name. destruct (m !! name); [by left|]. split; [done|]. intros r []%not_elem_of_nil. Qed.

Lemma filled_skip {A} r regs asks fits (old m : gmap string A) :
  asks r = ""%string -> filled regs asks fits old m -> filled (r :: regs) asks fits old m.
Proof.
  intros Hr Hf name. specialize (Hf name). destruct (m !! name).
  - destruct Hf as [?|(r' & ? & ?)]; [by left|]. right. exists r'. by rewrite elem_of_cons; auto.
  - destruct Hf as [? Hf]. split; [done|]. intros r' [->|?]%elem_of_cons; [done|by apply Hf].
Qed.

Lemma filled_add {A} r regs asks (fits : RegistrationConfig -> A -> Prop) old m a :
  fits r a -> filled regs asks fits (<[rc_Name r := a]> old) m -> filled (r :: regs) asks fits old m.
Proof.
  intros Ha Hf name. specialize (Hf name). destruct (m !! name) as [b|].
  - destruct Hf as [[[<- <-]|[_ H]]%lookup_insert_Some|(r' & ? & ?)]; [|by left|].
    + right. exists r. by rewrite elem_of_cons; auto.
    + right. exists r'. by rewrite elem_of_cons; auto.
  - destruct Hf as [[H1 H2]%lookup_insert_None Hf]. split; [done|]. intros r' [->|?]%elem_of_cons; [done|by apply Hf].
Qed.

Lemma open_natives_ok c regs o0 l o e l' o' :
  os_wf o0 -> owns o0 l o -> NoDup (rc_Name <$> regs) -> (forall r, r ∈ regs -> nativeWG l !! rc_Name r = None) ->
  open_natives c regs l o = (e, l', o') ->
  owns o0 l' o' /\ e <> Some EFuel
  /\ exists m, l' = with_natives m l /\ (e = None -> filled regs rc_Native (native_of c) (nativeWG l) m).
Proof.
  intros Hwf. revert l o. induction regs as [|r regs IH]; intros l o Hown Hnd Hfree; cbn [open_natives].
  { intros [= <- <- <-]. split_and!; [done|done|]. exists (nativeWG l). split; [by destruct l|]. intros _. apply filled_nil. }
  assert (Hfail : forall x : start_error, exists m, l = with_natives m l /\ (Some x = None -> filled (r :: regs) rc_Native (native_of c) (nativeWG l) m)).
  { intros x. exists (nativeWG l). split; [by destruct l|done]. }
  apply NoDup_cons in Hnd as [Hr Hnd].
  destruct (String.eqb_spec (rc_Native r) "") as [He|He].
  { intros Hrun. destruct (IH l o Hown Hnd) as (H1 & H2 & m & H3 & H4); [by intros; apply Hfree, elem_of_cons; right|exact Hrun|].
    split_and!; [done|done|]. exists m. split; [done|]. intros Hn. by apply filled_skip; [|apply H4]. }
  destruct (resolveNativeWGListenAddr _) as [addr|] eqn:Ha; [|intros [= <- <- <-]; split_and!; [done|done|apply Hfail]].
  destruct (listen _ _ _) as [q o1] eqn:Hl. pose proof (owns_listen _ _ _ _ _ _ _ Hwf Hl Hown) as Hs.
  destruct q as [s|]; [|intros [= <- <- <-]; split_and!; [done|done|apply Hfail]].
  destruct Hs as (Hb & Ho & Hc).
  destruct (nativeWGAdvertiseAddr _ _ _ _) as [a|] eqn:Had; [|intros [= <- <- <-]; split_and!; [done|done|apply Hfail]].
  intros Hrun. specialize (Ho _ (held_add_native (rc_Name r) s a l ltac:(by apply Hfree, elem_of_cons; left))).
  destruct (IH _ _ Ho Hnd) as (H1 & H2 & m & H3 & H4); [|exact Hrun|].
  - intros r' Hr'. cbn [nativeWG add_native]. rewrite lookup_insert_ne; [by apply Hfree, elem_of_cons; right|].
    intros E. apply Hr. rewrite E. by apply list_elem_of_fmap_2.
  - split_and!; [done|done|]. exists m. split; [done|]. intros Hn. apply (filled_add _ _ _ _ _ _ (s, a)); [|by apply H4].
    split; [done|]. split; [by exists addr|done].
Qed.

Lemma open_tenants_ok regs o0 l o e l' o' :
  os_wf o0 -> owns o0 l o -> NoDup (rc_Name <$> regs) -> (forall r, r ∈ regs -> tenantLns l !! rc_Name r = None) ->
  open_tenants regs l o = (e, l', o') ->
  owns o0 l' o' /\ e <> Some EFuel
  /\ exists m, l' = with_tenants m l /\ (e = None -> filled regs rc_Listen tenant_of (tenantLns l) m).
Proof.
  intros Hwf. revert l o. induction regs as [|r regs IH]; intros l o Hown Hnd Hfree; cbn [open_tenants].
  { intros [= <- <- <-]. split_and!; [done|done|]. exists (tenantLns l). split; [by destruct l|]. intros _. apply filled_nil. }
  apply NoDup_cons in Hnd as [Hr Hnd].
  destruct (String.eqb_spec (rc_Listen r) "") as [He|He].
  { intros Hrun. destruct (IH l o Hown Hnd) as (H1 & H2 & m & H3 & H4); [by intros; apply Hfree, elem_of_cons; right|exact Hrun|].
    split_and!; [done|done|]. exists m. split; [done|]. intros Hn. by apply filled_skip; [|apply H4]. }
  destruct (listen _ _ _) as [q o1] eqn:Hl. pose proof (owns_listen _ _ _ _ _ _ _ Hwf Hl Hown) as Hs.
  destruct q as [s|].
  2: { intros [= <- <- <-]. split_and!; [done|done|]. exists (tenantLns l). split; [by destruct l|done]. }
  destruct Hs as (Hb & Ho & _).
  intros Hrun. specialize (Ho _ (held_add_tenant (rc_Name r) s l ltac:(by apply Hfree, elem_of_cons; left))).
  destruct (IH _ _ Ho Hnd) as (H1 & H2 & m & H3 & H4); [|exact Hrun|].
  - intros r' Hr'. cbn [tenantLns add_tenant]. rewrite lookup_insert_ne; [by apply Hfree, elem_of_cons; right|].
    intros E. apply Hr. rewrite E. by apply list_elem_of_fmap_2.
  - split_and!; [done|done|]. exists m. split; [done|]. intros Hn. by apply (filled_add _ _ _ _ _ _ s); [|apply H4].
Qed.

(** Every socket the configuration asks for, where it asks for it. *)
Record serves (c : Config) (l : opened) : Prop := mkServes {
  sv_public : exists s, publicLn l = Some s /\ bound false (cf_Public c) s;
  sv_agents : exists s, agentsLn l = Some s /\ bound false (cf_Agents c) s;
  sv_reflect : match reflectLn l with
               | Some s => cf_Reflect c <> ""%string /\ bound true (cf_Reflect c) s
               | None => cf_Reflect c = ""%string
               end;
  sv_udp : match udpRelayLn l with
           | Some s => cf_UDPRelay c <> ""%string /\ bound true (cf_UDPRelay c) s
               /\ exists lo hi, parsePortRange (cf_UDPRelayPorts c) = Some (lo, hi)
                  /\ forall p, match udpRelayPool l !! p with Some s => lo <= p <= hi /\ in_pool c p s | None => ~ lo <= p <= hi end
           | None => cf_UDPRelay c = ""%string /\ udpRelayPool l = ∅
           end;
  sv_native : filled (cf_Registrations c) rc_Native (native_of c) ∅ (nativeWG l);
  sv_tenants : filled (cf_Registrations c) rc_Listen tenant_of ∅ (tenantLns l);
}.

Lemma open_rest_ok c o0 s o e l' o' :
  os_wf o0 -> owns o0 (set_public s nothing) o -> bound false (cf_Public c) s -> NoDup (rc_Name <$> cf_Registrations c) ->
  open_rest c (set_public s nothing) o = (e, l', o') -> owns o0 l' o' /\ e <> Some EFuel /\ (e = None -> serves c l').
Proof.
  intros Hwf Hown Hb Hnd. unfold open_rest, after.
  destruct (open_agents c _ o) as [[e1 l1] o1] eqn:H1.
  destruct (open_agents_ok c o0 _ _ _ _ _ Hwf Hown eq_refl H1) as (W1 & F1 & S1).
  destruct e1 as [e1|]; [by intros [= <- <- <-]|]. destruct (S1 eq_refl) as (s1 & -> & B1).
  destruct (open_reflect c _ o1) as [[e2 l2] o2] eqn:H2.
  destruct (open_reflect_ok c o0 _ _ _ _ _ Hwf W1 eq_refl H2) as (W2 & F2 & S2).
  destruct e2 as [e2|]; [by intros [= <- <- <-]|].
  assert (Hl2 : udpRelayLn l2 = None /\ udpRelayPool l2 = ∅ /\ nativeWG l2 = ∅ /\ tenantLns l2 = ∅
      /\ publicLn l2 = Some s /\ agentsLn l2 = Some s1)
    by (destruct (S2 eq_refl) as [[_ ->]|(_ & ? & -> & _)]; done).
  destruct Hl2 as (N1 & N2 & N3 & N4 & N5 & N6).
  destruct (open_udp c l2 o2) as [[e3 l3] o3] eqn:H3.
  destruct (open_udp_ok c o0 _ _ _ _ _ Hwf W2 N1 N2 H3) as (W3 & F3 & u & m3 & -> & S3).
  destruct e3 as [e3|]; [by intros [= <- <- <-]|].
  destruct (open_natives c _ _ o3) as [[e4 l4] o4] eqn:H4.
  edestruct open_natives_ok as (W4 & F4 & m4 & E4 & S4); [exact Hwf|exact W3|exact Hnd| |exact H4|].
  { intros r _. cbn [nativeWG with_pool]. by rewrite N3. }
  subst l4.
  destruct e4 as [e4|]; [by intros [= <- <- <-]|]. intros H5.
  edestruct open_tenants_ok as (W5 & F5 & m5 & E5 & S5); [exact Hwf|exact W4|exact Hnd| |exact H5|].
  { intros r _. cbn [tenantLns with_pool with_natives]. by rewrite N4. }
  subst l'.
  split_and!; [done|done|]. intros ->. specialize (S4 eq_refl). specialize (S5 eq_refl).
  cbn [nativeWG tenantLns with_pool with_natives] in S4, S5. rewrite N3 in S4. rewrite N4 in S5.
  constructor; cbn [publicLn agentsLn reflectLn udpRelayLn udpRelayPool nativeWG tenantLns with_pool with_natives with_tenants].
  - by exists s.
  - by exists s1.
  - destruct (S2 eq_refl) as [[? ->]|(? & s2 & -> & ?)]; done.
  - destruct (S3 eq_refl) as [(? & -> & ->)|(s3 & lo & hi & -> & ? & ? & ? & ?)]; [done|]. split_and!; [done|done|]. by exists lo, hi.
  - done.
  - done.
Qed.

Lemma Start_ok pair kube c r o e r' o' :
  os_wf o -> NoDup (rc_Name <$> cf_Registrations c) -> Start pair kube c r o = (e, r', o') ->
  e <> Some EFuel /\
  match e with
  | Some _ => live o' = live o
  | None => owns o (r_opened r') o' /\ serves c (r_opened r')
      /\ udpSweepStop r' = match udpRelayLn (r_opened r') with Some _ => Some true | None => None end
  end.
Proof.
  intros Hwf Hnd. unfold Start. destruct (negb pair); [by intros [= <- <- <-]|].
  assert (Hown : owns o nothing o) by (constructor; unfold held, ids, nothing; cbn; set_solver by lia).
  destruct (listen _ _ o) as [p o1] eqn:Hl. pose proof (owns_listen _ _ _ _ _ _ _ Hwf Hl Hown) as Hs.
  assert (Hempty : forall l x, owns o l x -> live x ∖ held l = live o) by (intros; by apply owns_close).
  destruct p as [s|].
  2: { intros [= <- <- <-]. split; [done|]. rewrite (ow_live _ _ _ Hs). clear. unfold held, ids, nothing. cbn. set_solver. }
  destruct Hs as (Hb & Ho & _).
  assert (Hown1 : owns o (set_public s nothing) o1) by (apply Ho; unfold held, ids; cbn; clear; set_solver).
  destruct (open_rest c _ o1) as [[e1 l1] o2] eqn:Hrest.
  destruct (open_rest_ok c o s o1 _ _ _ Hwf Hown1 Hb Hnd Hrest) as (W & F & S).
  destruct e1 as [e1|].
  { intros [= <- <- <-]. split; [done|]. by rewrite abortAll_live, Hempty. }
  destruct (_ && _); intros [= <- <- <-]; (split; [done|]); [|by split; [|split; [apply S|]]].
  by rewrite abortAll_live, Hempty.
Qed.

End process.

(** ** What a loaded configuration is good for *)
Section loaded.
Context {ssh : SSH} {text : AddrText} (unicode_lower : list byte -> list byte).
Context (Parse : string -> option (gmap string string -> bool)).

Definition registration_ok (public agents : string) (r : RegistrationConfig) : Prop :=
  rc_Name r <> ""%string /\ validLabel (bytes_of (rc_Name r)) = true /\ is_Some (Registry.ParsePublicString (rc_PublicKey r))
  /\ (rc_Listen r = ""%string \/ is_Some (SplitHostPort (rc_Listen r)) /\ rc_Listen r <> public /\ rc_Listen r <> agents)
  /\ (rc_Native r = ""%string \/ is_Some (SplitHostPort (rc_Native r))).

(** No two of the strings are equal, the empty one apart, nor is one of them in [seen]. *)
Fixpoint apart (seen : gset string) (l : list string) : Prop :=
  match l with
  | [] => True
  | x :: l => (x = ""%string \/ x ∉ seen) /\ apart ({[x]} ∪ seen) l
  end.

Lemma apart_weaken seen seen' l : seen' ⊆ seen ∪ {[""%string]} -> apart seen l -> apart seen' l.
Proof.
  revert seen seen'. induction l as [|x l IH]; intros seen seen' Hs; [done|]. intros [Hx Hl]. split.
  - destruct (decide (x = ""%string)); [by left|]. right. destruct Hx; set_solver.
  - apply (IH ({[x]} ∪ seen)); [set_solver|done].
Qed.

Lemma check_listen_ok public agents seen x seen' :
  check_listen public agents seen x = Ok seen' ->
  (x = ""%string \/ is_Some (SplitHostPort x) /\ x <> public /\ x <> agents) /\ (x = ""%string \/ x ∉ seen)
  /\ seen' ∪ {[""%string]} = {[x]} ∪ seen ∪ {[""%string]}.
Proof.
  unfold check_listen. destruct (String.eqb_spec x "") as [->|Hx]; [intros [= <-]; split_and!; [by left|by left|set_solver]|].
  case_bool_decide as Hs; [done|]. destruct (String.eqb_spec x public); [done|]. destruct (String.eqb_spec x agents); [done|].
  case_bool_decide; [done|]. intros [= <-]. split_and!; [right; split_and!; [|done|done]|by right|done].
  by destruct (SplitHostPort x).
Qed.

Lemma check_native_ok seen x seen' :
  check_native seen x = Ok seen' ->
  (x = ""%string \/ is_Some (SplitHostPort x)) /\ (x = ""%string \/ x ∉ seen) /\ seen' ∪ {[""%string]} = {[x]} ∪ seen ∪ {[""%string]}.
Proof.
  unfold check_native. destruct (String.eqb_spec x "") as [->|Hx]; [intros [= <-]; split_and!; [by left|by left|set_solver]|].
  case_bool_decide as Hs; [done|]. case_bool_decide; [done|]. intros [= <-]. split_and!; [right|by right|done].
  by destruct (SplitHostPort x).
Qed.

Lemma check_registrations_ok public agents seen sl sn l :
  check_registrations public agents seen sl sn l = Ok () ->
  Forall (registration_ok public agents) l /\ NoDup (rc_Name <$> l) /\ (forall r, r ∈ l -> rc_Name r ∉ seen)
  /\ apart sl (rc_Listen <$> l) /\ apart sn (rc_Native <$> l).
Proof.
  revert seen sl sn. induction l as [|r l IH]; intros seen sl sn; cbn [check_registrations fmap list_fmap apart].
  { intros _. split_and!; [constructor|constructor|by intros r ?%not_elem_of_nil|done|done]. }
  destruct (String.eqb_spec (rc_Name r) "") as [|Hn]; [done|]. destruct (rc_PublicKey r =? "")%string; [done|]. cbn [orb].
  destruct (validLabel _) eqn:Hv; [|done]. cbn [negb]. case_bool_decide as Hseen; [done|].
  intros (sl' & Hl & (sn' & Hna & Hrest)%res_bind_ok)%res_bind_ok.
  apply check_listen_ok in Hl as (L1 & L2 & L3). apply check_native_ok in Hna as (N1 & N2 & N3).
  destruct (Registry.ParsePublicString _) as [k|] eqn:Hk; [|done]. destruct (IH _ _ _ Hrest) as (H1 & H2 & H3 & H4 & H5).
  split_and!.
  - constructor; [|done]. split_and!; [done|done|by rewrite Hk; eauto|done|done].
  - constructor; [|done]. intros (r' & E & Hr')%list_elem_of_fmap. apply (H3 r' Hr'). rewrite <-E. set_solver.
  - intros r' [->|Hr']%elem_of_cons; [done|]. intros Hs. apply (H3 r' Hr'). set_solver.
  - done.
  - apply (apart_weaken sl'); [rewrite L3; set_solver|done].
  - done.
  - apply (apart_weaken sn'); [rewrite N3; set_solver|done].
Qed.

Lemma check_domain_ok d n :
  check_domain unicode_lower d = Ok n -> bytes_of n = normalizeSNI unicode_lower (bytes_of d) /\ bytes_of n <> [].
Proof.
  unfold check_domain. destruct (d =? "")%string; [done|]. case_bool_decide as Hn; [done|]. cbn [orb].
  destruct (_ || _); [done|]. intros [= <-]. rewrite bytes_of_str_of. done.
Qed.

Lemma LoadConfig_ok raw c :
  LoadConfig unicode_lower Parse raw = Ok c ->
  cf_Registrations c = cf_Registrations raw /\ cf_Reflect c = cf_Reflect raw
  /\ bytes_of (cf_Domain c) = normalizeSNI unicode_lower (bytes_of (cf_Domain raw)) /\ bytes_of (cf_Domain c) <> []
  /\ Forall (registration_ok (cf_Public c) (cf_Agents c)) (cf_Registrations c) /\ NoDup (rc_Name <$> cf_Registrations c)
  /\ apart ∅ (rc_Listen <$> cf_Registrations c) /\ apart ∅ (rc_Native <$> cf_Registrations c)
  /\ (cf_UDPRelay c = ""%string \/ is_Some (parsePortRange (cf_UDPRelayPorts c))).
Proof.
  unfold LoadConfig. intros (d & Hd & ([] & Hu & (k & Hk & ([] & Hr & [= <-])%res_bind_ok)%res_bind_ok)%res_bind_ok)%res_bind_ok.
  cbn [cf_Registrations cf_Reflect cf_Domain cf_Public cf_Agents cf_UDPRelay cf_UDPRelayPorts].
  apply check_domain_ok in Hd as [D1 D2]. apply check_registrations_ok in Hr as (R1 & R2 & _ & R4 & R5).
  split_and!; try done. unfold check_udp in Hu. destruct (String.eqb_spec (cf_UDPRelay raw) ""); [by left|].
  destruct (cf_UDPRelayPorts raw =? "")%string; [done|]. right. by destruct (parsePortRange _).
Qed.

Lemma bytes_of_append a b : bytes_of (a ++ b)%string = bytes_of a ++ bytes_of b.
Proof. unfold bytes_of, String.list_byte_of_string. induction a as [|x a IH]; [done|]. simpl. by rewrite IH. Qed.

(** A map filled by a loop: a key of the list has the value of an entry with
    that key. *)
Lemma fold_insert {A B} (key : A -> string) (val : A -> B) (l : list A) (m : gmap string B) k :
  match foldl (fun m x => <[key x := val x]> m) m l !! k with
  | Some v => m !! k = Some v \/ exists x, x ∈ l /\ key x = k /\ val x = v
  | None => m !! k = None /\ forall x, x ∈ l -> key x <> k
  end.
Proof.
  revert m. induction l as [|x l IH]; intros m; cbn [foldl].
  { destruct (m !! k); [by left|]. split; [done|]. by intros x ?%not_elem_of_nil. }
  specialize (IH (<[key x := val x]> m)). destruct (foldl _ _ l !! k) as [v|].
  - destruct IH as [[[<- <-]|[_ H]]%lookup_insert_Some|(y & ? & ?)]; [|by left|].
    + right. exists x. by rewrite elem_of_cons; auto.
    + right. exists y. by rewrite elem_of_cons; auto.
  - destruct IH as [[H1 H2]%lookup_insert_None Hf]. split; [done|]. by intros y [->|Hy]%elem_of_cons; [|apply Hf].
Qed.

Lemma ParseRegistrations_ok public agents l :
  Forall (registration_ok public agents) l ->
  exists regs, ParseRegistrations l = Some regs
  /\ (forall g, g ∈ regs -> exists r, r ∈ l /\ rg_Name g = rc_Name r /\ Registry.ParsePublicString (rc_PublicKey r) = Some (rg_PublicKey g))
  /\ (forall r, r ∈ l -> exists g, g ∈ regs /\ rg_Name g = rc_Name r /\ Registry.ParsePublicString (rc_PublicKey r) = Some (rg_PublicKey g)).
Proof.
  unfold ParseRegistrations. induction l as [|r l IH]; intros Hl.
  { exists []. split_and!; [done| |]; by intros x ?%not_elem_of_nil. }
  apply Forall_cons in Hl as [(_ & _ & [k Hk] & _) Hl]. destruct (IH Hl) as (regs & H1 & H2 & H3).
  exists ({| rg_Name := rc_Name r; rg_PublicKey := k; rg_Listen := rc_Listen r |} :: regs). split_and!.
  - assert (E : parse_registration r = Some {| rg_Name := rc_Name r; rg_PublicKey := k; rg_Listen := rc_Listen r |})
      by (unfold parse_registration; by rewrite Hk).
    apply mapM_Some_2. constructor; [done|]. by apply mapM_Some_1.
  - intros g [->|Hg]%elem_of_cons; [exists r; rewrite elem_of_cons; auto|].
    destruct (H2 g Hg) as (r' & ? & ?). exists r'. rewrite elem_of_cons. auto.
  - intros r' [->|Hr]%elem_of_cons; [eexists; rewrite elem_of_cons; eauto|].
    destruct (H3 r' Hr) as (g & ? & ?). exists g. rewrite elem_of_cons. auto.
Qed.

(** C16: What [LoadConfig] accepts can be served.  The relay built from it
    knows exactly the registered names, each of them is what the relay's
    public listener makes of the server name [name.domain], and every
    registration's key is known and, unless another registration has the same
    one, stands for that registration. *)
Theorem loaded_registrations_reachable (raw c : Config) (Hload : LoadConfig unicode_lower Parse raw = Ok c) :
  exists r, New c = Some r
  /\ bytes_of (cf_Domain c) = normalizeSNI unicode_lower (bytes_of (cf_Domain raw))
  /\ (forall reg, reg ∈ cf_Registrations c ->
        resolveTenant (bytes_of (rc_Name reg ++ "." ++ cf_Domain c)) (bytes_of (cf_Domain c)) = Some (bytes_of (rc_Name reg)))
  /\ (forall name, is_Some (tenants r !! name) <-> name ∈ rc_Name <$> cf_Registrations c)
  /\ (forall reg, reg ∈ cf_Registrations c -> exists k g,
        Registry.ParsePublicString (rc_PublicKey reg) = Some k /\ byFingerprint r !! Registry.Fingerprint k = Some g
        /\ ((forall reg' k', reg' ∈ cf_Registrations c -> Registry.ParsePublicString (rc_PublicKey reg') = Some k' ->
                Registry.Fingerprint k' = Registry.Fingerprint k -> rc_Name reg' = rc_Name reg) ->
             rg_Name g = rc_Name reg)).
Proof.
  apply LoadConfig_ok in Hload as (_ & _ & Hd & Hne & Hregs & _).
  destruct (ParseRegistrations_ok _ _ _ Hregs) as (regs & Hp & H1 & H2).
  exists (NewRegistry regs (cf_Limits c)). split_and!; [unfold New; by rewrite Hp|done| | |].
  - intros reg Hr. apply resolveTenant_spec. rewrite Forall_forall in Hregs. destruct (Hregs reg Hr) as (Hn & Hv & _).
    split_and!; [done|by rewrite !bytes_of_append| |].
    + intros E. apply Hn. rewrite <-(str_of_bytes_of (rc_Name reg)), E. done.
    + apply Forall_forall. intros x Hx. unfold validLabel in Hv. rewrite forallb_forall in Hv. apply Hv. by apply list_elem_of_In.
  - intros name. unfold NewRegistry. cbn [tenants].
    pose proof (fold_insert rg_Name (fun _ => new_tenant) regs ∅ name) as Hf. destruct (foldl _ _ _ !! name) as [t|].
    + destruct Hf as [Hf|(g & Hg & <- & _)]; [by rewrite lookup_empty in Hf|]. split; [intros _|by eauto].
      destruct (H1 g Hg) as (r & Hr & -> & _). by apply list_elem_of_fmap_2.
    + destruct Hf as [_ Hf]. split; [by intros []|]. intros (r & -> & Hr)%list_elem_of_fmap.
      destruct (H2 r Hr) as (g & Hg & E & _). by destruct (Hf g Hg).
  - intros reg Hr. destruct (H2 reg Hr) as (g & Hg & _ & Hk). exists (rg_PublicKey g).
    pose proof (fold_insert (fun g => Registry.Fingerprint (rg_PublicKey g)) (fun g => g) regs ∅ (Registry.Fingerprint (rg_PublicKey g))) as Hf.
    unfold NewRegistry. cbn [byFingerprint]. destruct (foldl _ _ _ !! _) as [g'|].
    + exists g'. split_and!; [done|done|]. intros Hdist. destruct Hf as [Hf|(x & Hx & E & <-)]; [by rewrite lookup_empty in Hf|].
      destruct (H1 x Hx) as (r & Hr' & -> & Hk'). by apply (Hdist r (rg_PublicKey x)).
    + destruct Hf as [_ Hf]. by destruct (Hf g Hg).
Qed.

(** C15: Starting a loaded configuration is all or nothing, whatever the
    operating system answers to each bind and wherever it fails: on an error
    the sockets open are those open before; otherwise exactly the configured
    ones are open, each where it was asked for (the port pool at the client
    socket's own host, with every port of the range), and [Close] closes all
    of them. *)
Theorem start_all_or_nothing (bind : Z -> bool -> string -> option string) (ResolveUDPAddr : string -> option string)
    (pair kube : bool) (raw c : Config) (o o' : os) (e : option start_error) (r : Relay)
    (Hload : LoadConfig unicode_lower Parse raw = Ok c) (Hwf : os_wf o)
    (Hstart : Start bind ResolveUDPAddr pair kube c new_relay o = (e, r, o')) :
  e <> Some EFuel /\
  match e with
  | Some _ => live o' = live o
  | None =>
      serves bind ResolveUDPAddr c (r_opened r)
      /\ live o' = live o ∪ held (r_opened r) /\ held (r_opened r) ∩ live o = ∅
      /\ exists r1 o1, Close r o' = Some (r1, o1) /\ live o1 = live o
  end.
Proof.
  apply LoadConfig_ok in Hload as (_ & _ & _ & _ & _ & Hnd & _).
  destruct (Start_ok bind ResolveUDPAddr _ _ _ _ _ _ _ _ Hwf Hnd Hstart) as [Hf H]. split; [done|].
  destruct e; [done|]. destruct H as (Hown & Hs & Hstop). split_and!; [done|by apply ow_live| |].
  - apply set_eq. intros i. rewrite elem_of_intersection. split; [|by intros ?%elem_of_empty].
    intros [Hi%(ow_held _ _ _ Hown) Hl%Hwf]. lia.
  - destruct (Close_live r o') as (r1 & o1 & Hc & Hl); [rewrite Hstop; by destruct (udpRelayLn _)|].
    exists r1, o1. split; [done|]. rewrite Hl. by apply owns_close.
Qed.
End loaded.

(** ** Concrete relays *)
Definition toy_config (udp : string) (regs : list RegistrationConfig) : Config := {|
  cf_Public := ""; cf_Agents := ""; cf_Reflect := ""; cf_UDPRelay := udp; cf_UDPRelayPorts := "40000-40002";
  cf_Domain := "Relay.example.com."; cf_Limits := {| HandshakeTimeout := 0; DialBackTimeout := 0; MaxPendingPerServer := 0; MaxConnsPerServer := -1;
     UDPRelayIdleTimeout := 0; MaxUDPRelaySessionsPerServer := 0; MaxRegistrationsPerMinute := 0; MaxPendingRegistrations := 0 |};
  cf_MaxNewConnsPerMinute := 0; cf_Registrations := regs; cf_KubernetesEnabled := false;
  cf_Kubernetes := toy_kube |}.

Definition toy_regs : list RegistrationConfig := [mkRegConfig "home" "key1" "" ":51821"; mkRegConfig "lab" "key2" ":8443" ""].

(** Host and port around the last colon, without the brackets. *)
Definition split_last (s : string) : option (string * string) :=
  match cut x3a (reverse (bytes_of s)) with
  | Some (port, host) =>
      let host := reverse host in
      let host := if has_prefix host [x5b] && has_suffix host [x5d] then take (length host - 2) (drop 1 host) else host in
      Some (str_of host, str_of (reverse port))
  | None => None
  end.

#[local] Instance relay_text : AddrText := {|
  addr_String := toy_String;
  ServerAuth.ParseAddr := toy_ParseAddr;
  ServerAuth.ParsePrefix := toy_ParsePrefix;
  SplitHostPort := split_last;
  ParseAddr_String := toy_ParseAddr_String;
  ParseAddr_wf := toy_ParseAddr_wf;
  ParsePrefix_wf := toy_ParsePrefix_wf;
|}.

(** A system that binds everything but [taken]; a bind without a host is one
    to every address. *)
Definition toy_bind (taken : string) (_ : Z) (_ : bool) (addr : string) : option string :=
  if (addr =? taken)%string then None
  else match split_last addr with
       | Some (host, port) => Some (if (host =? "")%string then ("[::]:" ++ port)%string else addr)
       | None => None
       end.

Definition toy_load (udp : string) (regs : list RegistrationConfig) : option Config :=
  match @LoadConfig toy_ssh _ id toy_parse (toy_config udp regs) with Ok c => Some c | Err _ => None end.

Definition toy_start (taken udp : string) : option (option start_error * Relay * os) :=
  c ← toy_load udp toy_regs; Some (Start (toy_bind taken) (fun _ => None) true true c new_relay (mkOs 7 {[3]})).

Lemma loaded_registrations_reachable_witness :
  match toy_load "" toy_regs with
  | Some c => exists r, @New toy_ssh c = Some r
      /\ bytes_of (cf_Domain c) = bytes_of "relay.example.com"
      /\ (forall reg, reg ∈ cf_Registrations c ->
            resolveTenant (bytes_of (rc_Name reg ++ "." ++ cf_Domain c)) (bytes_of (cf_Domain c)) = Some (bytes_of (rc_Name reg)))
      /\ (forall name, is_Some (tenants r !! name) <-> name ∈ rc_Name <$> cf_Registrations c)
  | None => False
  end.
Proof.
  destruct (@loaded_registrations_reachable toy_ssh _ id toy_parse (toy_config "" toy_regs)
    (default (toy_config "" toy_regs) (toy_load "" toy_regs))) as (r & H1 & H2 & H3 & H4 & _); [by vm_compute|].
  exists r. split_and!; [exact H1|exact H2|exact H3|exact H4].
Defined.

Definition toy_c : Config := default (toy_config "" toy_regs) (toy_load ":3481" toy_regs).

Definition toy_started : option start_error * Relay * os :=
  Start (toy_bind "") (fun _ => None) true true toy_c new_relay (mkOs 7 {[3]}).

Lemma start_all_or_nothing_witness :
  toy_started.1.1 = None /\ size (live toy_started.2) = 9%nat
  /\ exists r1 o1, Close toy_started.1.2 toy_started.2 = Some (r1, o1) /\ live o1 = {[3]}.
Proof.
  assert (Hwf : os_wf (mkOs 7 {[3]})) by (intros i Hi; cbn in Hi |- *; apply elem_of_singleton in Hi; lia).
  assert (Hrun : Start (toy_bind "") (fun _ => None) true true toy_c new_relay (mkOs 7 {[3]})
    = (toy_started.1.1, toy_started.1.2, toy_started.2)) by (fold toy_started; by destruct toy_started as [[]]).
  assert (Hnone : toy_started.1.1 = None) by (by vm_compute).
  assert (Hload : @LoadConfig toy_ssh _ id toy_parse (toy_config ":3481" toy_regs) = Ok toy_c) by (by vm_compute).
  split; [exact Hnone|]. split; [by vm_compute|].
  pose proof (@start_all_or_nothing toy_ssh _ id toy_parse (toy_bind "") (fun _ => None) true true _ toy_c _ _ _ _ Hload Hwf Hrun) as [_ H].
  rewrite Hnone in H. apply H.
Defined.

(** A port of the pool is taken: nothing is left open. *)
Example taken_port :
  (fun x => (x.1.1, live x.2)) <$> toy_start ":40002" ":3481" = Some (Some (EPool 40002), {[3]}).
Proof. by vm_compute. Qed.

(** A datagram relay on every address tells its clients an address that is
    no destination, and so do the sockets of its pool; the native WireGuard
    relay tells its name. *)
Example wildcard_advertised :
  let l := r_opened toy_started.1.2 in
  UDPRelayAddr l = "[::]:3481"%string /\ sk_addr <$> udpRelayPool l !! 40000 = Some "[::]:40000"%string
  /\ snd <$> nativeWG l !! "home"%string = Some "home.relay.example.com:51821"%string.
Proof. by vm_compute. Qed.

(** Closing twice panics with a datagram relay. *)
Example close_twice :
  ('(r, o) ← Close toy_started.1.2 toy_started.2; Close r o) = None.
Proof. by vm_compute. Qed.

(** Two registrations with one key are accepted; the first never gets in. *)
Example shared_key_accepted :
  match toy_load "" [mkRegConfig "home" "key1" "" ""; mkRegConfig "lab" "key1" "" ""] with
  | Some c => match @New toy_ssh c with
              | Some r => @rg_Name toy_ssh <$> @byFingerprint toy_ssh r !! "SHA256:key1"%string = Some "lab"%string
                  /\ is_Some (@tenants toy_ssh r !! "home"%string)
              | None => False
              end
  | None => False
  end.
Proof. vm_compute. eauto. Qed.

(** A negative limit is accepted. *)
Example negative_limit_accepted : (fun c => MaxConnsPerServer (cf_Limits c)) <$> toy_load "" toy_regs = Some (-1).
Proof. by vm_compute. Qed.
