(* ===== verification/GuiManager.v ===== *)
(** [internal/gui/manager]: the profiles of the desktop application, each
    with at most one connection, driven by calls of the settings page, the
    tray and the connections' own events.

    A call's first critical section is a function of the state; what is left
    of the call, and the goroutine of [Connect], is a list of actions, each
    one critical section of [mu], [subMu] or [persistMu], one use of a
    channel, or one call that leaves the manager, whose outcome the step
    says.  A step may take any of the outcomes the connector, the key files
    and the disk can give; that such a call returns is assumed.  Events may
    come in any order, although those of one connection come one after
    another.  Identity files, browser profiles and [Probe], which leave this
    state alone, are not here. *)
From S2P Require Import Prelude Netip ServerAuth ClientTransport.
From S2P Require ServerToy.
From S2P Require Import GuiConfig.

(** ** Profiles and sessions *)
Inductive State : Type :=
  | StateIdle | StateConnecting | StateAwaitingTrust | StateAwaitingPassphrase
  | StateConnected | StateReconnecting | StateFailed.

#[export] Instance State_eq_dec : EqDecision State.
Proof. solve_decision. Defined.

(** [fp]: what [UnknownCertificateError] says. *)
Inductive Prompt : Type := PromptTrust (fp : string) | PromptPassphrase (path : string).

(** A handle and a channel are numbers; the error is its text. *)
Record session := mkSession {
  activeProfile : Profile;
  profile : Profile;
  state : State;
  err : option string;
  handle : option Z;
  prompt : option Prompt;
  trustReply : option Z;
  passphraseReply : option Z;
  cancel : Z;
}.

Definition newSession (p : Profile) (cancel : Z) : session := mkSession no_profile p StateIdle None None None None None cancel.

Record Snapshot := mkSnapshot {
  sn_Profile : Profile;
  sn_State : State;
  sn_Err : option string;
  sn_Prompt : option Prompt;
  sn_ProxyReconnectRequired : bool;
  sn_Identity : string * string;
  sn_Connection : option Z;
}.

Inductive answer : Type := TrustAnswer (trust : bool) | PassphraseAnswer (passphrase : string) (cancelled : bool).

(** ** Actions *)
Inductive action : Type :=
  | AStart (id : string) (p : Profile)
  | AAskPassphrase (id : string) (p : Profile) (key : string)
  | AWaitPassphrase (id : string) (p : Profile) (key : string) (reply cancel : Z)
  | AUnlock (id : string) (p : Profile) (key passphrase : string)
  | AResume (id : string) (trust : bool)
  | AOptions (id : string) (p : Profile)
  | AReserve (id : string) (p : Profile) (again : bool)
  | ADial (id : string) (p : Profile) (again : bool)
  | AAskTrust (id : string) (p : Profile) (fp : string)
  | AWaitTrust (id : string) (p : Profile) (fp : string) (reply cancel : Z)
  | ATrustServer (id : string) (p : Profile)
  | AInstall (id : string) (h : Z)
  | AReconcile (id : string) (h : Z)
  | AFailed (id e : string)
  | ARelease (id : string)
  | APublish (id : string)
  | ASend (id : string) (s : Snapshot)
  | AHook
  | ACloseHandle (h : Z)
  | AReset (id : string)
  | ADisconnect (id : string)
  | AReplace (id tunnel : string) (h : Z)
  | AReconcileOne (id tunnel addr : string)
  | AReply (ch : Z) (a : answer)
  | APersist
  | ASave (c : Config).

Definition setFailed (id e : string) : list action := [ARelease id; AFailed id e; APublish id].

(** ** State *)

(** [conns]: the connections that are open.  [persisting]: [persistMu] is
    held; [unsaved]: the last write of the file failed.  [hooks] counts the
    calls of [promptHook]; [fresh] numbers everything. *)
Record sys := mkSys {
  settings : Settings;
  promptHook : bool;
  sessions : gmap string session;
  reservations : gmap string (gmap string string);
  subs : gmap Z (list (string * Snapshot));
  nextSub : Z;
  file : Config;
  persisting : bool;
  unsaved : bool;
  hooks : Z;
  conns : gset Z;
  replies : gmap Z answer;
  cancelled : gset Z;
  fresh : Z;
  tasks : gmap Z (list action);
}.

Definition set_settings x s := mkSys x (promptHook s) (sessions s) (reservations s) (subs s) (nextSub s) (file s) (persisting s) (unsaved s) (hooks s) (conns s) (replies s) (cancelled s) (fresh s) (tasks s).
Definition set_hook x s := mkSys (settings s) x (sessions s) (reservations s) (subs s) (nextSub s) (file s) (persisting s) (unsaved s) (hooks s) (conns s) (replies s) (cancelled s) (fresh s) (tasks s).
Definition set_sessions x s := mkSys (settings s) (promptHook s) x (reservations s) (subs s) (nextSub s) (file s) (persisting s) (unsaved s) (hooks s) (conns s) (replies s) (cancelled s) (fresh s) (tasks s).
Definition set_reservations x s := mkSys (settings s) (promptHook s) (sessions s) x (subs s) (nextSub s) (file s) (persisting s) (unsaved s) (hooks s) (conns s) (replies s) (cancelled s) (fresh s) (tasks s).
Definition set_subs x n s := mkSys (settings s) (promptHook s) (sessions s) (reservations s) x n (file s) (persisting s) (unsaved s) (hooks s) (conns s) (replies s) (cancelled s) (fresh s) (tasks s).
Definition set_file x p u s := mkSys (settings s) (promptHook s) (sessions s) (reservations s) (subs s) (nextSub s) x p u (hooks s) (conns s) (replies s) (cancelled s) (fresh s) (tasks s).
Definition count_hook s := mkSys (settings s) (promptHook s) (sessions s) (reservations s) (subs s) (nextSub s) (file s) (persisting s) (unsaved s) (hooks s + 1) (conns s) (replies s) (cancelled s) (fresh s) (tasks s).
Definition set_conns x s := mkSys (settings s) (promptHook s) (sessions s) (reservations s) (subs s) (nextSub s) (file s) (persisting s) (unsaved s) (hooks s) x (replies s) (cancelled s) (fresh s) (tasks s).
Definition set_replies x s := mkSys (settings s) (promptHook s) (sessions s) (reservations s) (subs s) (nextSub s) (file s) (persisting s) (unsaved s) (hooks s) (conns s) x (cancelled s) (fresh s) (tasks s).
Definition set_cancelled x s := mkSys (settings s) (promptHook s) (sessions s) (reservations s) (subs s) (nextSub s) (file s) (persisting s) (unsaved s) (hooks s) (conns s) (replies s) x (fresh s) (tasks s).
Definition take_fresh s := mkSys (settings s) (promptHook s) (sessions s) (reservations s) (subs s) (nextSub s) (file s) (persisting s) (unsaved s) (hooks s) (conns s) (replies s) (cancelled s) (fresh s + 1) (tasks s).
Definition set_tasks x s := mkSys (settings s) (promptHook s) (sessions s) (reservations s) (subs s) (nextSub s) (file s) (persisting s) (unsaved s) (hooks s) (conns s) (replies s) (cancelled s) (fresh s) x.

Definition with_session (id : string) (f : session -> session) (s : sys) : sys := set_sessions (alter f id (sessions s)) s.

(** ** Changes of one session *)
Definition to_connecting (s : session) : session :=
  mkSession (profile s) (profile s) StateConnecting None (handle s) None (trustReply s) (passphraseReply s) (cancel s).
Definition to_idle (s : session) : session :=
  mkSession (activeProfile s) (profile s) StateIdle None None (prompt s) (trustReply s) (passphraseReply s) (cancel s).
Definition clear_error (s : session) : session :=
  mkSession (activeProfile s) (profile s) StateIdle None (handle s) None (trustReply s) (passphraseReply s) (cancel s).
Definition to_failed (e : string) (s : session) : session :=
  mkSession (activeProfile s) (profile s) StateFailed (Some e) None None None None (cancel s).
Definition to_connected (h : Z) (s : session) : session :=
  mkSession (activeProfile s) (profile s) StateConnected None (Some h) None (trustReply s) (passphraseReply s) (cancel s).
Definition ask_passphrase (key : string) (ch : Z) (s : session) : session :=
  mkSession (activeProfile s) (profile s) StateAwaitingPassphrase (err s) (handle s) (Some (PromptPassphrase key)) (trustReply s) (Some ch) (cancel s).
Definition ask_trust (fp : string) (ch : Z) (s : session) : session :=
  mkSession (activeProfile s) (profile s) StateAwaitingTrust (err s) (handle s) (Some (PromptTrust fp)) (Some ch) (passphraseReply s) (cancel s).
Definition to_resumed (trust : bool) (s : session) : session :=
  mkSession (activeProfile s) (profile s) StateConnecting (err s) (handle s) None (if trust then None else trustReply s)
    (if trust then passphraseReply s else None) (cancel s).
Definition with_profile (p : Profile) (s : session) : session :=
  mkSession (activeProfile s) p (state s) (err s) (handle s) (prompt s) (trustReply s) (passphraseReply s) (cancel s).
Definition with_state (st : State) (e : option string) (s : session) : session :=
  mkSession (activeProfile s) (profile s) st e (handle s) (prompt s) (trustReply s) (passphraseReply s) (cancel s).

Definition settled (st : State) : bool := match st with StateIdle | StateFailed => true | _ => false end.

Definition pendingPromptCountLocked (s : sys) : nat :=
  length (List.filter (fun x => match prompt x with Some _ => true | None => false end) (map_to_list (sessions s)).*2).

(** ** Ports *)
Section manager.
Context {text : AddrText}.
(** The home directory, [filepath.Join], and the key [client.DefaultIdentityFile]
    finds. *)
Context (UserHomeDir : option string) (Join : list string -> string) (DefaultIdentityFile : string).

Definition unspecified (host : string) : bool :=
  match ServerAuth.ParseAddr host with Some a => IsUnspecified a | None => false end.

Definition addressesConflict (a b : string) : bool :=
  match SplitHostPort a, SplitHostPort b with
  | Some (ah, ap), Some (bh, bp) =>
      if negb (ap =? bp)%string then false
      else if (ah =? bh)%string then true
      else unspecified ah || unspecified bh
  | _, _ => false
  end.

Definition requested (p : Profile) : gmap string string :=
  map_imap (fun name port =>
    let host := default ""%string (pf_Hosts p !! name) in
    let host := if (host =? "")%string then pf_BindAddress p else host in
    let host := if (host =? "")%string then "127.0.0.1"%string else host in
    Some (JoinHostPort host port)) (pf_Ports p).

(** Some pair conflicts: the order of the ranges only picks the message. *)
Definition conflicting (req : gmap string string) (id : string) (res : gmap string (gmap string string)) : bool :=
  existsb (fun addr =>
    existsb (fun other => negb (other.1 =? id)%string && existsb (fun o => addressesConflict addr o.2) (map_to_list other.2))
      (map_to_list res)) (map_to_list req).*2.

Definition reservePorts (id : string) (p : Profile) (s : sys) : result string sys :=
  if conflicting (requested p) id (reservations s) then Err "gui: local address conflicts"%string
  else Ok (set_reservations (<[id := requested p]> (reservations s)) s).

Definition releasePorts (id : string) (s : sys) : sys := set_reservations (delete id (reservations s)) s.

Definition reconcileAllPortReservations (id : string) (tunnels : list (string * string)) (s : sys) : sys :=
  set_reservations (alter (fun res => foldl (fun res t => <[t.1 := t.2]> res) res tunnels) id (reservations s)) s.

Definition reconcilePortReservation (id tunnel addr : string) (s : sys) : sys :=
  set_reservations (alter (fun res => if bool_decide (is_Some (res !! tunnel)) then <[tunnel := addr]> res else res) id (reservations s)) s.

(** ** Snapshots and the file *)
Definition snapshotOf (s : session) : Snapshot :=
  let p := profile s in
  mkSnapshot p (state s) (err s) (prompt s)
    (negb (settled (state s))
     && (negb (pf_HTTPSProxy p =? pf_HTTPSProxy (activeProfile s))%string || negb (Bool.eqb (pf_NoSystemProxy p) (pf_NoSystemProxy (activeProfile s)))))
    (if pf_SSO p then (""%string, "sso"%string)
     else if negb (pf_IdentityFile p =? "")%string then (IdentityFilePath UserHomeDir Join p, "explicit"%string)
     else if negb (DefaultIdentityFile =? "")%string then (DefaultIdentityFile, "automatic"%string)
     else (""%string, ""%string))
    (handle s).

(** Sorted by name; profiles of one name come in any order. *)
Definition name_le (p q : Profile) : Prop := str_le (pf_Name p) (pf_Name q).

#[local] Instance name_le_dec p q : Decision (name_le p q).
Proof. unfold name_le. apply _. Defined.

Definition profilesLocked (s : sys) : list Profile := merge_sort name_le (profile <$> (map_to_list (sessions s)).*2).

Definition config_of (s : sys) : Config := mkConfig CurrentVersion (settings s) (profilesLocked s).

(** ** The goroutine of a connection attempt *)

(** What a step learns from outside. *)
Inductive choice : Type :=
  | Go
  | Needs (r : result string bool)
  | Answered
  | Removed
  | TimedOut
  | Unlocked (ok : bool)
  | Outcome (e : option string)
  | DialOk
  | DialUnknown (fp : string)
  | DialError (e : string)
  | TunnelsAre (l : list (string * string))
  | Replaced (r : result string string)
  | Saved (ok : bool).

Abbreviation after := (option (list action * sys)).

Definition hook_actions (s : sys) : list action :=
  if (pendingPromptCountLocked s =? 1)%nat && promptHook s then [AHook] else [].

Definition key_path (p : Profile) : string :=
  let key := IdentityFilePath UserHomeDir Join p in
  if (key =? "")%string && negb (pf_SSO p) then DefaultIdentityFile else key.

(** [runConnect], up to the key's passphrase. *)
Definition start (id : string) (p : Profile) (c : choice) (s : sys) : after :=
  if pf_SSO p || (key_path p =? "")%string then Some ([AOptions id p], s)
  else
    match c with
    | Needs (Err e) => Some (setFailed id e, s)
    | Needs (Ok false) => Some ([AOptions id p], s)
    | Needs (Ok true) => Some ([AAskPassphrase id p (key_path p)], s)
    | _ => None
    end.

(** [resolvePassphrase], the question. *)
Definition ask_for_passphrase (id : string) (p : Profile) (key : string) (s : sys) : list action * sys :=
  match sessions s !! id with
  | None => ([], s)
  | Some x =>
      let ch := fresh s in
      let s := with_session id (ask_passphrase key ch) (take_fresh s) in
      (APublish id :: hook_actions s ++ [AWaitPassphrase id p key ch (cancel x)], s)
  end.

(** Its answer. *)
Definition wait_passphrase (id : string) (p : Profile) (key : string) (ch cn : Z) (c : choice) (s : sys) : after :=
  match c with
  | Answered =>
      match replies s !! ch with
      | Some (PassphraseAnswer pw cancelled) =>
          Some (if cancelled then setFailed id "passphrase entry canceled" else [AUnlock id p key pw], set_replies (delete ch (replies s)) s)
      | _ => None
      end
  | Removed => if bool_decide (cn ∈ cancelled s) then Some (setFailed id "profile was removed while awaiting a passphrase", s) else None
  | TimedOut => Some (setFailed id "timed out waiting for a passphrase", s)
  | _ => None
  end.

Definition unlock (id : string) (p : Profile) (c : choice) (s : sys) : after :=
  match c with
  | Unlocked true => Some ([AResume id false; APublish id; AOptions id p], s)
  | Unlocked false => Some (setFailed id "invalid or unsupported SSH private key or incorrect passphrase", s)
  | _ => None
  end.

Definition options (id : string) (p : Profile) (c : choice) (s : sys) : after :=
  match c with
  | Outcome (Some e) => Some (setFailed id e, s)
  | Outcome None => Some ([AReserve id p false], s)
  | _ => None
  end.

Definition reserve (id : string) (p : Profile) (again : bool) (s : sys) : list action * sys :=
  match reservePorts id p s with
  | Err e => (setFailed id e, s)
  | Ok s => ([ADial id p again], s)
  end.

(** [connector.Connect]: a connection is open when it returns one.  An
    unknown certificate is asked about once. *)
Definition dial (id : string) (p : Profile) (again : bool) (c : choice) (s : sys) : after :=
  match c with
  | DialOk => Some ([AInstall id (fresh s)], take_fresh (set_conns ({[fresh s]} ∪ conns s) s))
  | DialUnknown fp => Some (if again then ARelease id :: setFailed id "unknown certificate" else [ARelease id; AAskTrust id p fp], s)
  | DialError e => Some (ARelease id :: setFailed id e, s)
  | _ => None
  end.

(** [resolveTrust], the question and its answer. *)
Definition ask_for_trust (id : string) (p : Profile) (fp : string) (s : sys) : list action * sys :=
  match sessions s !! id with
  | None => ([], s)
  | Some x =>
      let ch := fresh s in
      let s := with_session id (ask_trust fp ch) (take_fresh s) in
      (APublish id :: hook_actions s ++ [AWaitTrust id p fp ch (cancel x)], s)
  end.

Definition wait_trust (id : string) (p : Profile) (ch cn : Z) (c : choice) (s : sys) : after :=
  match c with
  | Answered =>
      match replies s !! ch with
      | Some (TrustAnswer trust) =>
          Some (if trust then [AResume id true; APublish id; ATrustServer id p] else setFailed id "server certificate was not trusted",
                set_replies (delete ch (replies s)) s)
      | _ => None
      end
  | Removed => if bool_decide (cn ∈ cancelled s) then Some (setFailed id "profile was removed while awaiting a trust decision", s) else None
  | TimedOut => Some (setFailed id "timed out waiting for a trust decision", s)
  | _ => None
  end.

Definition trust_server (id : string) (p : Profile) (c : choice) (s : sys) : after :=
  match c with
  | Outcome (Some e) => Some (setFailed id e, s)
  | Outcome None => Some ([AReserve id p true], s)
  | _ => None
  end.

Definition install (id : string) (h : Z) (s : sys) : list action * sys :=
  match sessions s !! id with
  | None => ([ACloseHandle h; ARelease id], s)
  | Some _ => ([AReconcile id h; APublish id], with_session id (to_connected h) s)
  end.

(** ** Publishing and saving *)
Definition publish (id : string) (s : sys) : list action :=
  match sessions s !! id with None => [] | Some x => [ASend id (snapshotOf x)] end.

Definition send (id : string) (u : Snapshot) (s : sys) : sys :=
  set_subs ((fun q => if (length q <? 16)%nat then q ++ [(id, u)] else q) <$> subs s) (nextSub s) s.

Definition persist (s : sys) : after :=
  if persisting s then None else Some ([ASave (config_of s)], set_file (file s) true (unsaved s) s).

Definition save (c : Config) (ch : choice) (s : sys) : after :=
  match ch with
  | Saved true => Some ([], set_file c false false s)
  | Saved false => Some ([], set_file (file s) false true s)
  | _ => None
  end.

(** ** The calls *)
Inductive call : Type :=
  | CConnect (id : string)
  | CDisconnect (id : string)
  | CClearError (id : string)
  | CAnswerTrust (id : string) (trust : bool)
  | CAnswerPassphrase (id passphrase : string) (cancelled : bool)
  | CReplaceListener (id tunnel : string)
  | CAddProfile (drawn : string) (p : Profile)
  | CUpdateProfile (p : Profile)
  | CRemoveProfile (id : string)
  | CSetSettings (x : Settings)
  | CSetUpdatePreferences (disabled automatic : bool)
  | CSetPromptHook
  | CSubscribe
  | CUnsubscribe (n : Z)
  | CClose.

Inductive refusal : Type := NoSuchProfile | AlreadyBusy (st : State) | NotConnected | NoError (st : State) | NotAwaiting | ProfileExists | StillConnected.

Definition Connect (id : string) (s : sys) : result refusal (list action * sys) :=
  match sessions s !! id with
  | None => Err NoSuchProfile
  | Some x =>
      if negb (settled (state x)) then Err (AlreadyBusy (state x))
      else Ok ([APublish id; AStart id (profile x)], with_session id to_connecting s)
  end.

Definition Disconnect (id : string) (s : sys) : result refusal (list action * sys) :=
  match sessions s !! id with
  | None => Err NoSuchProfile
  | Some x => match handle x with
              | None => Err NotConnected
              | Some h => Ok ([ACloseHandle h; AReset id; ARelease id; APublish id], s)
              end
  end.

Definition ClearError (id : string) (s : sys) : result refusal (list action * sys) :=
  match sessions s !! id with
  | None => Err NoSuchProfile
  | Some x => if bool_decide (state x = StateFailed) then Ok ([APublish id], with_session id clear_error s) else Err (NoError (state x))
  end.

Definition AnswerTrust (id : string) (trust : bool) (s : sys) : result refusal (list action * sys) :=
  match sessions s !! id with
  | Some x => match trustReply x with
              | Some ch => if bool_decide (state x = StateAwaitingTrust) then Ok ([AReply ch (TrustAnswer trust)], s) else Err NotAwaiting
              | None => Err NotAwaiting
              end
  | None => Err NotAwaiting
  end.

Definition AnswerPassphrase (id passphrase : string) (cancelled : bool) (s : sys) : result refusal (list action * sys) :=
  match sessions s !! id with
  | Some x => match passphraseReply x with
              | Some ch => if bool_decide (state x = StateAwaitingPassphrase) then Ok ([AReply ch (PassphraseAnswer passphrase cancelled)], s)
                           else Err NotAwaiting
              | None => Err NotAwaiting
              end
  | None => Err NotAwaiting
  end.

Definition ReplaceListener (id tunnel : string) (s : sys) : result refusal (list action * sys) :=
  match sessions s !! id with
  | Some x => match handle x with Some h => Ok ([AReplace id tunnel h], s) | None => Err NotConnected end
  | None => Err NotConnected
  end.

(** A profile without an id is given the one that was drawn. *)
Definition identified (drawn : string) (p : Profile) : Profile := if (pf_ID p =? "")%string then with_ID drawn p else p.

Definition AddProfile (drawn : string) (p : Profile) (s : sys) : result refusal (list action * sys) :=
  let p := identified drawn p in
  if bool_decide (is_Some (sessions s !! pf_ID p)) then Err ProfileExists
  else Ok ([APersist], take_fresh (set_sessions (<[pf_ID p := newSession p (fresh s)]> (sessions s)) s)).

Definition UpdateProfile (p : Profile) (s : sys) : result refusal (list action * sys) :=
  if bool_decide (is_Some (sessions s !! pf_ID p)) then Ok ([APersist], with_session (pf_ID p) (with_profile p) s) else Err NoSuchProfile.

Definition RemoveProfile (id : string) (s : sys) : result refusal (list action * sys) :=
  match sessions s !! id with
  | None => Err NoSuchProfile
  | Some x => match handle x with
              | Some _ => Err StillConnected
              | None => Ok ([APersist], set_cancelled ({[cancel x]} ∪ cancelled s) (set_sessions (delete id (sessions s)) s))
              end
  end.

(** In the order of a range over the sessions. *)
Definition Close (order : list string) (s : sys) : list action :=
  ADisconnect <$> List.filter (fun id => match sessions s !! id with Some x => bool_decide (is_Some (handle x)) | None => false end) order.

Definition do_call (order : list string) (c : call) (s : sys) : result refusal (list action * sys) :=
  match c with
  | CConnect id => Connect id s
  | CDisconnect id => Disconnect id s
  | CClearError id => ClearError id s
  | CAnswerTrust id trust => AnswerTrust id trust s
  | CAnswerPassphrase id pw cancelled => AnswerPassphrase id pw cancelled s
  | CReplaceListener id tunnel => ReplaceListener id tunnel s
  | CAddProfile drawn p => AddProfile drawn p s
  | CUpdateProfile p => UpdateProfile p s
  | CRemoveProfile id => RemoveProfile id s
  | CSetSettings x => Ok ([APersist], set_settings x s)
  | CSetUpdatePreferences disabled automatic =>
      let x := settings s in
      Ok ([APersist], set_settings (mkSettings disabled automatic (StartAtLogin x) (Notifications x) (ImportedCLIConfig x)) s)
  | CSetPromptHook => Ok ([], set_hook true s)
  | CSubscribe => Ok ([], set_subs (<[nextSub s := []]> (subs s)) (nextSub s + 1) s)
  | CUnsubscribe n => Ok ([], set_subs (delete n (subs s)) (nextSub s) s)
  | CClose => Ok (Close order s, s)
  end.

(** A connection's event, on its own goroutine. *)
Inductive event : Type := EventReconnecting (e : string) | EventReconnectFailed (e : string) | EventReconnected | EventRenewed.

Definition handleEvent (id : string) (e : event) (s : sys) : list action * sys :=
  match sessions s !! id with
  | None => ([], s)
  | Some x =>
      match state x with
      | StateConnecting | StateConnected | StateReconnecting =>
          ([APublish id],
           with_session id (match e with
                            | EventReconnecting e | EventReconnectFailed e => with_state StateReconnecting (Some e)
                            | EventReconnected | EventRenewed => with_state StateConnected None
                            end) s)
      | _ => ([], s)
      end
  end.

(** ** Steps *)
Definition exec (a : action) (c : choice) (s : sys) : after :=
  match a with
  | AStart id p => start id p c s
  | AAskPassphrase id p key => Some (ask_for_passphrase id p key s)
  | AWaitPassphrase id p key ch cn => wait_passphrase id p key ch cn c s
  | AUnlock id p _ _ => unlock id p c s
  | AResume id trust => Some ([], with_session id (to_resumed trust) s)
  | AOptions id p => options id p c s
  | AReserve id p again => Some (reserve id p again s)
  | ADial id p again => dial id p again c s
  | AAskTrust id p fp => Some (ask_for_trust id p fp s)
  | AWaitTrust id p _ ch cn => wait_trust id p ch cn c s
  | ATrustServer id p => trust_server id p c s
  | AInstall id h => Some (install id h s)
  | AReconcile id _ => match c with TunnelsAre l => Some ([], reconcileAllPortReservations id l s) | _ => None end
  | AFailed id e => Some ([], with_session id (to_failed e) s)
  | ARelease id => Some ([], releasePorts id s)
  | APublish id => Some (publish id s, s)
  | ASend id u => Some ([], send id u s)
  | AHook => Some ([], count_hook s)
  | ACloseHandle h => Some ([], set_conns (conns s ∖ {[h]}) s)
  | AReset id => Some ([], with_session id to_idle s)
  | ADisconnect id => Some (match Disconnect id s with Ok r => r | Err _ => ([], s) end)
  | AReplace id tunnel _ =>
      match c with
      | Replaced (Ok addr) => Some ([AReconcileOne id tunnel addr; APublish id], s)
      | Replaced (Err _) => Some ([], s)
      | _ => None
      end
  | AReconcileOne id tunnel addr => Some ([], reconcilePortReservation id tunnel addr s)
  | AReply ch a => Some ([], match replies s !! ch with Some _ => s | None => set_replies (<[ch := a]> (replies s)) s end)
  | APersist => persist s
  | ASave cfg => save cfg c s
  end.

Definition put_task (t : Z) (l : list action) (s : sys) : sys :=
  set_tasks (match l with [] => delete t (tasks s) | _ => <[t := l]> (tasks s) end) s.

Definition spawn (l : list action) (s : sys) : sys := put_task (fresh s) l (take_fresh s).

Inductive label : Type :=
  | LCall (order : list string) (c : call)
  | LStep (t : Z) (c : choice)
  | LEvent (id : string) (e : event)
  | LReceive (n : Z).

(** A refused call changes nothing. *)
Definition step (l : label) (s : sys) : option sys :=
  match l with
  | LCall order c => Some (match do_call order c s with Ok (acts, s) => spawn acts s | Err _ => s end)
  | LStep t c =>
      match tasks s !! t with
      | Some (a :: rest) => '(acts, s) ← exec a c s; Some (put_task t (acts ++ rest) s)
      | _ => None
      end
  | LEvent id e => let '(acts, s) := handleEvent id e s in Some (spawn acts s)
  | LReceive n => match subs s !! n with Some (_ :: q) => Some (set_subs (<[n := q]> (subs s)) (nextSub s) s) | _ => None end
  end.

Fixpoint run (ls : list label) (s : sys) : option sys :=
  match ls with [] => Some s | l :: ls => s ← step l s; run ls s end.

(** The profiles of the file, each with its own cancel channel. *)
Definition load_session (s : sys) (p : Profile) : sys :=
  take_fresh (set_sessions (<[pf_ID p := newSession p (fresh s)]> (sessions s)) s).

Definition New (c : Config) : sys :=
  foldl load_session (mkSys (cf_Settings c) false ∅ ∅ ∅ 0 c false false 0 ∅ ∅ ∅ 0 ∅) (cf_Profiles c).

(** [New], with what [Load] and [LoadSettings] returned and whether the file
    could be saved after an import. *)
Definition Open (url_Parse : string -> option URL) (c : Config) (loaded : result string CLISettings) (id : string) (saved : bool) : option sys :=
  let alreadyImported := ImportedCLIConfig (cf_Settings c) || negb (bool_decide (cf_Profiles c = [])) in
  match ImportFromCLI url_Parse c loaded id with
  | Err _ => None
  | Ok (c, _) => if negb alreadyImported && negb saved then None else Some (New c)
  end.

(** ** What the actions are about *)

(** The attempt whose end an action leads to; a task has one at most. *)
Definition attempt (a : action) : option string :=
  match a with
  | AStart id _ | AAskPassphrase id _ _ | AWaitPassphrase id _ _ _ _ | AUnlock id _ _ _ | AOptions id _ | AReserve id _ _ | ADial id _ _
  | AAskTrust id _ _ | AWaitTrust id _ _ _ _ | ATrustServer id _ | AInstall id _ | AFailed id _ => Some id
  | _ => None
  end.

Definition tries (id : string) (a : action) : Prop := attempt a = Some id.
Definition releases (id : string) (a : action) : Prop := a = ARelease id.
Definition resets (id : string) (a : action) : Prop := a = AReset id.

(** The reservation is made and will be a connection's, or released. *)
Definition dials (id : string) (a : action) : Prop :=
  match a with ADial id' _ _ | AInstall id' _ => id' = id | _ => False end.

Definition installs (h : Z) (a : action) : Prop := match a with AInstall _ h' => h' = h | _ => False end.
Definition closes (h : Z) (a : action) : Prop := a = ACloseHandle h.

(** Actions that neither change a session's phase nor close or release. *)
Definition plain (a : action) : bool :=
  match a with
  | AReconcile _ _ | APublish _ | ASend _ _ | AHook | AReplace _ _ _ | AReconcileOne _ _ _ | AReply _ _ | APersist | ASave _ => true
  | _ => false
  end.

Definition calm (a : action) : bool := plain a || match a with ADisconnect _ => true | _ => false end.

(** The tails of a task. *)
Fixpoint shaped (l : list action) : Prop :=
  match l with
  | [] => True
  | a :: l =>
      shaped l /\
      match a with
      | AResume id _ => exists b l', l = APublish id :: b :: l' /\ attempt b = Some id /\ ~ dials id b /\ Forall plain l'
      | ARelease id => Forall calm l \/ (exists b l', (l = b :: l' \/ l = ARelease id :: b :: l') /\ attempt b = Some id
                                           /\ ~ dials id b /\ Forall plain l')
      | AReset id => exists l', l = ARelease id :: l' /\ Forall calm l'
      | ACloseHandle h => exists id l', (l = ARelease id :: l' \/ l = AReset id :: ARelease id :: l') /\ Forall calm l'
      | ADisconnect _ => Forall calm l
      | _ => if plain a then True else Forall plain l
      end
  end.

(** ** Orderly schedules

    A profile is not connected or disconnected while a call of [Disconnect]
    on it is still at work, and a profile is not added under an id of which
    an attempt or a [Disconnect] is still at work. *)
Definition task (s : sys) (t : Z) : list action := default [] (tasks s !! t).

Definition pending (P : action -> Prop) (s : sys) : Prop := exists t, Exists P (task s t).

Definition orderly (l : label) (s : sys) : Prop :=
  match l with
  | LCall _ (CConnect id) => ~ pending (releases id) s
  | LCall _ (CDisconnect id) => ~ pending (resets id) s
  | LCall _ (CAddProfile drawn p) =>
      let id := pf_ID (identified drawn p) in ~ pending (tries id) s /\ ~ pending (releases id) s
  | LStep t _ => match task s t with ADisconnect id :: _ => ~ pending (resets id) s | _ => True end
  | _ => True
  end.

(** ** The invariant *)
Definition obliged (id : string) (l : list action) : Prop := Exists (tries id) l \/ Exists (releases id) l \/ Exists (resets id) l.

Definition connectedish (x : session) : Prop := state x = StateConnected \/ state x = StateReconnecting.

(** One profile: at rest, tried by one task, being disconnected by one, or
    about to give its reservation back. *)
Record phase_ok (s : sys) (id : string) : Prop := mkPhase {
  ph_one : forall t1 t2, obliged id (task s t1) -> obliged id (task s t2) -> t1 = t2;
  ph_down : forall t, Exists (resets id) (task s t) -> exists x h,
    sessions s !! id = Some x /\ handle x = Some h /\ connectedish x /\ is_Some (reservations s !! id)
    /\ (Exists (closes h) (task s t) \/ h ∉ conns s);
  ph_try : forall t, Exists (tries id) (task s t) ->
    (forall x, sessions s !! id = Some x -> settled (state x) = false /\ handle x = None)
    /\ (is_Some (reservations s !! id) -> Exists (releases id) (task s t) \/ Exists (dials id) (task s t))
    /\ (Exists (dials id) (task s t) -> is_Some (reservations s !! id));
  ph_release : forall t, Exists (releases id) (task s t) -> ~ Exists (tries id) (task s t) -> ~ Exists (resets id) (task s t) ->
    forall x, sessions s !! id = Some x -> settled (state x) = true /\ handle x = None;
  ph_rest : (forall t, ~ obliged id (task s t)) ->
    match sessions s !! id with
    | None => reservations s !! id = None
    | Some x => match handle x with
                | None => settled (state x) = true /\ reservations s !! id = None
                | Some h => connectedish x /\ is_Some (reservations s !! id) /\ h ∈ conns s
                end
    end;
}.

(** Whose the connections are. *)
Record conns_ok (s : sys) : Prop := mkConns {
  cn_own : forall h, h ∈ conns s -> (exists id x, sessions s !! id = Some x /\ handle x = Some h) \/ pending (installs h) s \/ pending (closes h) s;
  cn_inj : forall id1 x1 id2 x2 h, sessions s !! id1 = Some x1 -> sessions s !! id2 = Some x2 -> handle x1 = Some h -> handle x2 = Some h -> id1 = id2;
  cn_install : forall t h, Exists (installs h) (task s t) -> h ∈ conns s /\ (forall id x, sessions s !! id = Some x -> handle x <> Some h)
    /\ ~ pending (closes h) s /\ forall t', Exists (installs h) (task s t') -> t' = t;
  cn_close : forall t h id x, Exists (closes h) (task s t) -> sessions s !! id = Some x -> handle x = Some h -> Exists (resets id) (task s t);
  cn_fresh : forall h, h ∈ conns s \/ pending (closes h) s \/ (exists id x, sessions s !! id = Some x /\ handle x = Some h) -> h < fresh s;
}.

Record inv (s : sys) : Prop := mkInv {
  iv_shape : forall t, shaped (task s t);
  iv_phase : forall id, phase_ok s id;
  iv_conns : conns_ok s;
  iv_tasks : forall t, fresh s <= t -> task s t = [];
}.

(** ** Frames *)
Lemma task_put t l s t' : task (put_task t l s) t' = if decide (t' = t) then l else task s t'.
Proof.
  unfold task, put_task. cbn [tasks set_tasks]. case_decide as Ht.
  - subst. destruct l; [by rewrite lookup_delete_eq|by rewrite lookup_insert_eq].
  - destruct l; [by rewrite lookup_delete_ne|by rewrite lookup_insert_ne].
Qed.

(** Two lists with the same business with a profile. *)
Definition alike (id : string) (l l' : list action) : Prop :=
  (Exists (tries id) l <-> Exists (tries id) l') /\ (Exists (releases id) l <-> Exists (releases id) l')
  /\ (Exists (resets id) l <-> Exists (resets id) l') /\ (Exists (dials id) l <-> Exists (dials id) l').

Lemma phase_frame s s' id t :
  phase_ok s id -> (forall t', t' <> t -> task s' t' = task s t') -> alike id (task s t) (task s' t) ->
  (forall x, sessions s !! id = Some x -> exists x', sessions s' !! id = Some x' /\ handle x' = handle x
      /\ settled (state x') = settled (state x) /\ (handle x <> None -> connectedish x -> connectedish x')) ->
  (sessions s !! id = None -> sessions s' !! id = None) ->
  (is_Some (reservations s' !! id) <-> is_Some (reservations s !! id)) ->
  (forall x h, sessions s !! id = Some x -> handle x = Some h -> (h ∈ conns s' -> h ∈ conns s)
      /\ (Exists (closes h) (task s t) -> Exists (closes h) (task s' t) \/ h ∉ conns s')
      /\ (h ∈ conns s -> h ∈ conns s' \/ Exists (resets id) (task s t))) ->
  phase_ok s' id.
Proof.
  intros [P1 P2 P3 P4 P5] Hoth (A1 & A2 & A3 & A4) Hs Hn Hr Hc.
  assert (Ht : forall t', (Exists (tries id) (task s' t') <-> Exists (tries id) (task s t'))
     /\ (Exists (releases id) (task s' t') <-> Exists (releases id) (task s t'))
     /\ (Exists (resets id) (task s' t') <-> Exists (resets id) (task s t'))
     /\ (Exists (dials id) (task s' t') <-> Exists (dials id) (task s t'))).
  { intros t'. destruct (decide (t' = t)) as [->|Hne]; [tauto|by rewrite Hoth]. }
  assert (Hob : forall t', obliged id (task s' t') <-> obliged id (task s t')).
  { intros t'. unfold obliged. destruct (Ht t') as (-> & -> & -> & _). done. }
  assert (Hback : forall x', sessions s' !! id = Some x' -> exists x, sessions s !! id = Some x /\ handle x' = handle x
      /\ settled (state x') = settled (state x)).
  { intros x' Hx'. destruct (sessions s !! id) as [x|] eqn:Hx; [|by rewrite Hn in Hx'].
    destruct (Hs x eq_refl) as (y & Hy & ? & ? & _). rewrite Hx' in Hy. injection Hy as <-. by exists x. }
  constructor.
  - intros t1 t2. rewrite !Hob. apply P1.
  - intros t'. destruct (Ht t') as (_ & _ & -> & _). intros H. destruct (P2 t' H) as (x & h & Hx & Hh & Hcx & Hrx & Hor).
    destruct (Hs x Hx) as (x' & Hx' & Hh' & _ & Hc'). exists x', h. split_and!; [done|congruence|apply Hc'; [by rewrite Hh|done]|by apply Hr|].
    destruct (Hc x h Hx Hh) as (Hc1 & Hc2 & _). destruct (decide (t' = t)) as [->|Hne].
    + destruct Hor as [Hor|Hor]; [by apply Hc2|right; tauto].
    + rewrite Hoth by done. destruct Hor as [Hor|Hor]; [by left|right; tauto].
  - intros t'. destruct (Ht t') as (-> & -> & _ & ->). intros H. destruct (P3 t' H) as (H1 & H2 & H3). rewrite Hr. split_and!; try done.
    intros x' Hx'. destruct (Hback x' Hx') as (x & Hx & -> & ->). by apply H1.
  - intros t'. destruct (Ht t') as (-> & -> & -> & _). intros H1 H2 H3 x' Hx'. destruct (Hback x' Hx') as (x & Hx & -> & ->). by apply (P4 t').
  - intros Hno. assert (Hno' : forall t', ~ obliged id (task s t')) by (intros t'; rewrite <-Hob; apply Hno). specialize (P5 Hno').
    assert (Hres : reservations s !! id = None <-> reservations s' !! id = None) by (rewrite !eq_None_not_Some, Hr; done).
    destruct (sessions s !! id) as [x|] eqn:Hx; [|rewrite Hn by done; tauto].
    destruct (Hs x eq_refl) as (x' & -> & -> & -> & Hc'). destruct (handle x) as [h|] eqn:Hh; [|tauto].
    destruct P5 as (Q1 & Q2 & Q3). split_and!; [by apply Hc'|by apply Hr|].
    destruct (Hc x h eq_refl Hh) as (_ & _ & Hc3). destruct (Hc3 Q3) as [?|Hre]; [done|]. destruct (Hno' t). by right; right.
Qed.

Lemma conns_frame s s' t :
  conns_ok s -> (forall t', t' <> t -> task s' t' = task s t') ->
  (forall h, Exists (installs h) (task s' t) <-> Exists (installs h) (task s t)) ->
  (forall h, Exists (closes h) (task s' t) <-> Exists (closes h) (task s t)) ->
  (forall id, Exists (resets id) (task s t) -> Exists (resets id) (task s' t)) ->
  (forall id, (x ← sessions s' !! id; handle x) = (x ← sessions s !! id; handle x)) ->
  conns s' = conns s -> fresh s <= fresh s' -> conns_ok s'.
Proof.
  intros [C1 C2 C3 C4 C5] Hoth Hi Hc Hr Hs Hcs Hf.
  assert (Hsess : forall id h, (exists x, sessions s' !! id = Some x /\ handle x = Some h) <-> (exists x, sessions s !! id = Some x /\ handle x = Some h)).
  { intros id h. specialize (Hs id). destruct (sessions s' !! id) as [x'|], (sessions s !! id) as [x|]; simpl in Hs; naive_solver congruence. }
  assert (Hi' : forall h t', Exists (installs h) (task s' t') <-> Exists (installs h) (task s t')).
  { intros h t'. destruct (decide (t' = t)) as [->|Hne]; [apply Hi|by rewrite Hoth]. }
  assert (Hc' : forall h t', Exists (closes h) (task s' t') <-> Exists (closes h) (task s t')).
  { intros h t'. destruct (decide (t' = t)) as [->|Hne]; [apply Hc|by rewrite Hoth]. }
  assert (Hpi : forall h, pending (installs h) s' <-> pending (installs h) s) by (intros h; unfold pending; by setoid_rewrite Hi').
  assert (Hpc : forall h, pending (closes h) s' <-> pending (closes h) s) by (intros h; unfold pending; by setoid_rewrite Hc').
  constructor.
  - intros h. rewrite Hcs, Hpi, Hpc. setoid_rewrite Hsess. apply C1.
  - intros id1 x1 id2 x2 h H1 H2 E1 E2. destruct (proj1 (Hsess id1 h)) as (y1 & ? & ?); [by exists x1|].
    destruct (proj1 (Hsess id2 h)) as (y2 & ? & ?); [by exists x2|]. by apply (C2 id1 y1 id2 y2 h).
  - intros t' h. rewrite Hi', Hcs, Hpc. intros H. destruct (C3 t' h H) as (H1 & H2 & H3 & H4). split_and!; [done| |done|].
    + intros id x Hx Hh. destruct (proj1 (Hsess id h)) as (y & Hy & Hyh); [by exists x|]. by apply (H2 id y Hy).
    + intros t''. rewrite Hi'. apply H4.
  - intros t' h id x. rewrite Hc'. intros H Hx Hh. destruct (proj1 (Hsess id h)) as (y & Hy & Hyh); [by exists x|].
    pose proof (C4 t' h id y H Hy Hyh) as Hre. destruct (decide (t' = t)) as [->|Hne]; [by apply Hr|by rewrite Hoth].
  - intros h. rewrite Hcs, Hpc. setoid_rewrite Hsess. intros H%C5. lia.
Qed.

Lemma phase_step s s1 t l' id0 :
  inv s -> tasks s1 = tasks s -> shaped l' -> t < fresh s1 -> fresh s <= fresh s1 ->
  (forall id, id <> id0 -> alike id (task s t) l' /\ sessions s1 !! id = sessions s !! id
     /\ (is_Some (reservations s1 !! id) <-> is_Some (reservations s !! id))) ->
  (forall id x h, id <> id0 -> sessions s !! id = Some x -> handle x = Some h -> (h ∈ conns s1 -> h ∈ conns s)
     /\ (Exists (closes h) (task s t) -> Exists (closes h) l' \/ h ∉ conns s1) /\ (h ∈ conns s -> h ∈ conns s1 \/ Exists (resets id) (task s t))) ->
  phase_ok (put_task t l' s1) id0 -> conns_ok (put_task t l' s1) -> inv (put_task t l' s1).
Proof.
  intros [I1 I2 I3 I4] Ht Hsh Hlt Hf Hid Hcl Hph Hco.
  assert (Hput : forall t', task (put_task t l' s1) t' = if decide (t' = t) then l' else task s t').
  { intros t'. rewrite task_put. unfold task. by rewrite Ht. }
  constructor; [| |done|].
  - intros t'. rewrite Hput. case_decide; [done|apply I1].
  - intros id. destruct (decide (id = id0)) as [->|Hne]; [done|]. destruct (Hid id Hne) as (H1 & H2 & H3).
    apply (phase_frame s _ id t); [by apply I2|intros t' Ht'; by rewrite Hput, decide_False|by rewrite Hput, decide_True| | |done|].
    + intros x Hx. exists x. cbn [sessions put_task set_tasks]. by rewrite H2.
    + cbn [sessions put_task set_tasks]. by rewrite H2.
    + intros x h Hx Hh. rewrite Hput, decide_True by done. by apply (Hcl id x h).
  - intros t' Hle. cbn [fresh put_task set_tasks] in Hle. rewrite Hput, decide_False by lia. apply I4. lia.
Qed.

(** A step that changes no profile's phase. *)
Lemma quiet_step s s1 t l' :
  inv s -> tasks s1 = tasks s -> shaped l' -> t < fresh s1 -> fresh s <= fresh s1 ->
  (forall id, alike id (task s t) l') ->
  (forall h, Exists (installs h) l' <-> Exists (installs h) (task s t)) -> (forall h, Exists (closes h) l' <-> Exists (closes h) (task s t)) ->
  (forall id x, sessions s !! id = Some x -> exists x', sessions s1 !! id = Some x' /\ handle x' = handle x
      /\ settled (state x') = settled (state x) /\ (handle x <> None -> connectedish x -> connectedish x')) ->
  (forall id, sessions s !! id = None -> sessions s1 !! id = None) ->
  (forall id, is_Some (reservations s1 !! id) <-> is_Some (reservations s !! id)) ->
  conns s1 = conns s -> inv (put_task t l' s1).
Proof.
  intros [I1 I2 I3 I4] Ht Hsh Hlt Hf Hal Hi Hc Hs Hn Hr Hcs.
  assert (Hput : forall t', task (put_task t l' s1) t' = if decide (t' = t) then l' else task s t').
  { intros t'. rewrite task_put. unfold task. by rewrite Ht. }
  constructor.
  - intros t'. rewrite Hput. case_decide; [done|apply I1].
  - intros id. apply (phase_frame s _ id t); [by apply I2|intros t' Ht'; by rewrite Hput, decide_False|by rewrite Hput, decide_True| | |done|].
    + by apply Hs.
    + by apply Hn.
    + intros x h Hx Hh. rewrite Hput, decide_True by done. cbn [conns put_task set_tasks]. rewrite Hcs. split_and!; [done|rewrite <-Hc; by left|by left].
  - apply (conns_frame s _ t); [done|intros t' Ht'; by rewrite Hput, decide_False| | | | |done|done]; rewrite ?Hput, ?decide_True by done.
    + done.
    + done.
    + intros id. destruct (Hal id) as (_ & _ & H & _). by rewrite H.
    + intros id. cbn [sessions put_task set_tasks]. destruct (sessions s !! id) as [x|] eqn:Hx; [|by rewrite (Hn _ Hx)].
      destruct (Hs _ _ Hx) as (x' & -> & Hh & _). done.
  - intros t' Hle. cbn [fresh put_task set_tasks] in Hle. rewrite Hput, decide_False by lia. apply I4. lia.
Qed.

(** What a list of plain actions does not hold. *)
Lemma plain_none P l : Forall plain l -> (forall a, P a -> plain a = false) -> ~ Exists P l.
Proof.
  intros Hl HP [a [Ha Hp]]%Exists_exists. rewrite Forall_forall in Hl. specialize (Hl a Ha). apply HP in Hp. by rewrite Hp in Hl.
Qed.

Lemma tries_not_plain id a : tries id a -> plain a = false.
Proof. by destruct a. Qed.
Lemma releases_not_plain id a : releases id a -> plain a = false.
Proof. intros ->. done. Qed.
Lemma resets_not_plain id a : resets id a -> plain a = false.
Proof. intros ->. done. Qed.
Lemma dials_not_plain id a : dials id a -> plain a = false.
Proof. by destruct a. Qed.
Lemma installs_not_plain h a : installs h a -> plain a = false.
Proof. by destruct a. Qed.
Lemma closes_not_plain h a : closes h a -> plain a = false.
Proof. intros ->. done. Qed.

#[local] Hint Resolve tries_not_plain releases_not_plain resets_not_plain dials_not_plain installs_not_plain closes_not_plain : core.

(** What an attempt on [id] may go on with. *)
Definition own (id : string) (a : action) : Prop :=
  match a with
  | AInstall _ _ | ACloseHandle _ | AReset _ | ADisconnect _ => False
  | ARelease id' => id' = id
  | _ => match attempt a with Some id' => id' = id | None => True end
  end.

Lemma own_other id id' acts : Forall (own id) acts -> id' <> id ->
  ~ Exists (tries id') acts /\ ~ Exists (releases id') acts /\ ~ Exists (dials id') acts.
Proof.
  intros Hall Hne. rewrite Forall_forall in Hall.
  split_and!; intros [a [Ha Hp]]%Exists_exists; specialize (Hall a Ha); destruct a; unfold tries, releases, dials in Hp; simpl in *; congruence.
Qed.

Lemma own_none id acts : Forall (own id) acts ->
  (forall id', ~ Exists (resets id') acts) /\ (forall h, ~ Exists (installs h) acts) /\ (forall h, ~ Exists (closes h) acts).
Proof.
  intros Hall. rewrite Forall_forall in Hall.
  split_and!; intros x [a [Ha Hp]]%Exists_exists; specialize (Hall a Ha); destruct a; unfold resets, installs, closes in Hp; simpl in *; congruence || done.
Qed.

(** The head of a task that tries a profile. *)
Lemma trying_rest s t a rest id : inv s -> task s t = a :: rest -> tries id a -> Forall plain rest.
Proof.
  intros [I1 _ _ _] Ht Ha. specialize (I1 t). rewrite Ht in I1. destruct I1 as [_ H]. destruct a; try done; exact H.
Qed.

Lemma trying_unreserved s t a rest id :
  inv s -> task s t = a :: rest -> tries id a -> ~ dials id a -> reservations s !! id = None.
Proof.
  intros Hinv Ht Ha Hd. pose proof (trying_rest _ _ _ _ _ Hinv Ht Ha) as Hrest.
  destruct (ph_try _ _ (iv_phase _ Hinv id) t) as (_ & H & _); [rewrite Ht; by left|].
  apply eq_None_not_Some. intros [Hr|Hr]%H; rewrite Ht in Hr; apply Exists_cons in Hr as [Hr|Hr].
  - by rewrite Hr in Ha.
  - eapply (plain_none _ _ Hrest); [|exact Hr]; eauto.
  - done.
  - eapply (plain_none _ _ Hrest); [|exact Hr]; eauto.
Qed.

Lemma attempt_step s s1 t a rest acts id :
  inv s -> task s t = a :: rest -> tries id a -> (forall h, ~ installs h a) ->
  tasks s1 = tasks s -> conns s1 = conns s -> fresh s <= fresh s1 ->
  (forall id', id' <> id -> sessions s1 !! id' = sessions s !! id' /\ reservations s1 !! id' = reservations s !! id') ->
  (forall x1, sessions s1 !! id = Some x1 -> settled (state x1) = false /\ handle x1 = None /\ is_Some (sessions s !! id)) ->
  shaped (acts ++ rest) -> Exists (tries id) acts -> Forall (own id) acts ->
  (is_Some (reservations s1 !! id) -> Exists (releases id) acts \/ Exists (dials id) acts) ->
  (Exists (dials id) acts -> is_Some (reservations s1 !! id)) ->
  inv (put_task t (acts ++ rest) s1).
Proof.
  intros Hinv Ht Ha Hni Htasks Hcs Hf Hoth Hid Hsh Htry Hown Hres Hdial.
  pose proof (trying_rest _ _ _ _ _ Hinv Ht Ha) as Hrest.
  assert (Hput : forall t', task (put_task t (acts ++ rest) s1) t' = if decide (t' = t) then acts ++ rest else task s t').
  { intros t'. rewrite task_put. unfold task. by rewrite Htasks. }
  destruct (own_none _ _ Hown) as (O1 & O2 & O3).
  assert (Hlt : t < fresh s).
  { destruct (decide (t < fresh s)); [done|]. rewrite (iv_tasks _ Hinv t) in Ht by lia. done. }
  assert (Hhd : ~ (exists i, resets i a) /\ ~ (exists h, closes h a) /\ ~ (exists i, releases i a)).
  { split_and!; intros [i Hi]; destruct a; done. }
  destruct Hhd as (Hd1 & Hd2 & Hd3).
  pose proof (ph_one _ _ (iv_phase _ Hinv id)) as Hone.
  assert (Hob : obliged id (task s t)) by (left; rewrite Ht; by left).
  apply (phase_step s s1 t _ id); try done; [lia| | | |].
  - intros id' Hne. destruct (Hoth id' Hne) as [H1 H2]. split; [|rewrite H1, H2; done].
    destruct (own_other id id' acts Hown Hne) as (N1 & N2 & N3). unfold alike. rewrite Ht, !Exists_app, !Exists_cons.
    pose proof (plain_none (tries id') _ Hrest (tries_not_plain id')). pose proof (plain_none (releases id') _ Hrest (releases_not_plain id')).
    pose proof (plain_none (resets id') _ Hrest (resets_not_plain id')). pose proof (plain_none (dials id') _ Hrest (dials_not_plain id')).
    assert (~ tries id' a) by (unfold tries in *; congruence).
    assert (~ dials id' a) by (destruct a; unfold tries, dials in *; simpl in *; congruence).
    specialize (O1 id'). assert (~ resets id' a) by eauto. assert (~ releases id' a) by eauto. tauto.
  - intros id' x h Hne Hx Hh. rewrite Hcs. split_and!; [done| |by left]. rewrite Ht, Exists_cons. intros [H|H]; [destruct Hd2; by exists h|].
    left; rewrite Exists_app; by right.
  - assert (Hob' : forall t', obliged id (task (put_task t (acts ++ rest) s1) t') -> t' = t).
    { intros t'. rewrite Hput. case_decide as Hdec; [done|]. intros H. by apply Hone. }
    constructor; cbn [sessions reservations conns put_task set_tasks].
    + intros t1 t2 H1%Hob' H2%Hob'. congruence.
    + intros t' H. assert (t' = t) as -> by (apply Hob'; right; by right). exfalso. rewrite Hput, decide_True, Exists_app in H by done.
      destruct H as [H|H]; [by apply (O1 id)|eapply (plain_none _ _ Hrest); [|exact H]; eauto].
    + intros t' H. assert (t' = t) as -> by (apply Hob'; by left). rewrite Hput, decide_True by done. rewrite !Exists_app. split_and!.
      * intros x Hx. destruct (Hid x Hx) as (? & ? & _). done.
      * intros Hr. destruct (Hres Hr); auto.
      * intros [Hd|Hd]; [by apply Hdial|exfalso; eapply (plain_none _ _ Hrest); [|exact Hd]; eauto].
    + intros t' H Hn. assert (t' = t) as -> by (apply Hob'; right; by left). exfalso. apply Hn. rewrite Hput, decide_True, Exists_app by done. by left.
    + intros Hno. destruct (Hno t). left. rewrite Hput, decide_True, Exists_app by done. by left.
  - apply (conns_frame s _ t); [apply Hinv|intros t' Ht'; by rewrite Hput, decide_False| | | | |done|done];
      rewrite ?Hput, ?decide_True by done.
    + intros h. rewrite Ht, Exists_app, Exists_cons. specialize (O2 h). specialize (Hni h). tauto.
    + intros h. rewrite Ht, Exists_app, Exists_cons. specialize (O3 h). assert (~ closes h a) by eauto. tauto.
    + intros id'. rewrite Ht, Exists_app, Exists_cons. intros [H|H]; [destruct Hd1; by exists id'|by right].
    + intros id'. cbn [sessions put_task set_tasks]. destruct (decide (id' = id)) as [->|Hne]; [|by destruct (Hoth id' Hne) as [-> _]].
      destruct (ph_try _ _ (iv_phase _ Hinv id) t) as (Htr & _); [rewrite Ht; by left|].
      destruct (sessions s1 !! id) as [x1|] eqn:H1.
      * destruct (Hid x1 eq_refl) as (_ & Hx1 & [x Hx]). rewrite Hx. simpl. rewrite Hx1. symmetry. by apply Htr.
      * destruct (sessions s !! id) as [x|] eqn:Hx; [|done]. simpl. symmetry. by apply Htr.
Qed.

(** *** The attempt's steps *)
Lemma shaped_plain l : Forall plain l -> shaped l.
Proof.
  induction l as [|a l IH]; [done|]. intros [Ha Hl]%Forall_cons. split; [by apply IH|]. by destruct a.
Qed.

Lemma shaped_more a l : plain a -> shaped l -> shaped (a :: l).
Proof. intros Ha Hl. split; [done|]. by destruct a. Qed.

Lemma shaped_try a id l : tries id a -> Forall plain l -> shaped (a :: l).
Proof. intros Ha Hl. split; [by apply shaped_plain|]. by destruct a. Qed.

Lemma shaped_failed id e l : Forall plain l -> shaped (setFailed id e ++ l) /\ shaped ((ARelease id :: setFailed id e) ++ l).
Proof.
  intros Hl. unfold setFailed. cbn [app].
  assert (H1 : shaped (AFailed id e :: APublish id :: l)) by (apply (shaped_try _ id); [done|by constructor]).
  assert (H2 : shaped (ARelease id :: AFailed id e :: APublish id :: l)).
  { split; [done|]. right. exists (AFailed id e), (APublish id :: l). split_and!; [by left|done|by intros []|by constructor]. }
  split; [done|]. split; [done|]. right. exists (AFailed id e), (APublish id :: l). split_and!; [by right|done|by intros []|by constructor].
Qed.

Lemma shaped_resumed id b a l : tries id a -> ~ dials id a -> Forall plain l -> shaped (AResume id b :: APublish id :: a :: l).
Proof.
  intros Ha Hn Hl. split; [apply shaped_more; [done|by apply (shaped_try _ id)]|]. by exists a, l.
Qed.

(** A step of an attempt that leaves sessions and reservations alone. *)
Lemma attempt_quiet s s1 t a rest acts id :
  inv s -> task s t = a :: rest -> tries id a -> (forall h, ~ installs h a) -> ~ dials id a ->
  tasks s1 = tasks s -> sessions s1 = sessions s -> reservations s1 = reservations s -> conns s1 = conns s -> fresh s <= fresh s1 ->
  shaped (acts ++ rest) -> Exists (tries id) acts -> Forall (own id) acts -> ~ Exists (dials id) acts ->
  inv (put_task t (acts ++ rest) s1).
Proof.
  intros Hinv Ht Ha Hni Hnd H1 H2 H3 H4 H5 Hsh Htry Hown Hd.
  pose proof (trying_unreserved _ _ _ _ _ Hinv Ht Ha Hnd) as Hres.
  apply (attempt_step s s1 t a rest acts id); try done.
  - intros id' _. by rewrite H2, H3.
  - intros x1. rewrite H2. intros Hx. destruct (ph_try _ _ (iv_phase _ Hinv id) t) as (Htr & _); [rewrite Ht; by left|].
    destruct (Htr _ Hx). rewrite Hx. eauto.
  - rewrite H3, Hres. by intros [].
Qed.

Lemma failed_own id e : Exists (tries id) (setFailed id e) /\ Forall (own id) (setFailed id e) /\ ~ Exists (dials id) (setFailed id e).
Proof.
  split_and!; [by right; left|by repeat constructor|]. unfold setFailed. rewrite !Exists_cons, Exists_nil. by intuition.
Qed.

Lemma attempt_fails s s1 t a rest id e :
  inv s -> task s t = a :: rest -> tries id a -> (forall h, ~ installs h a) -> ~ dials id a ->
  tasks s1 = tasks s -> sessions s1 = sessions s -> reservations s1 = reservations s -> conns s1 = conns s -> fresh s <= fresh s1 ->
  inv (put_task t (setFailed id e ++ rest) s1).
Proof.
  intros Hinv Ht Ha Hni Hnd H1 H2 H3 H4 H5. destruct (failed_own id e) as (F1 & F2 & F3).
  apply (attempt_quiet s s1 t a rest _ id); try done. apply shaped_failed. by apply (trying_rest s t a rest id).
Qed.

Lemma attempt_next s s1 t a rest id b :
  inv s -> task s t = a :: rest -> tries id a -> (forall h, ~ installs h a) -> ~ dials id a ->
  tasks s1 = tasks s -> sessions s1 = sessions s -> reservations s1 = reservations s -> conns s1 = conns s -> fresh s <= fresh s1 ->
  tries id b -> ~ dials id b -> inv (put_task t ([b] ++ rest) s1).
Proof.
  intros Hinv Ht Ha Hni Hnd H1 H2 H3 H4 H5 Hb Hbd. apply (attempt_quiet s s1 t a rest _ id); try done.
  - apply (shaped_try _ id); [done|]. by apply (trying_rest s t a rest id).
  - by left.
  - constructor; [|done]. unfold tries, dials in *. destruct b; simpl in *; congruence || (by destruct Hbd; congruence).
  - rewrite Exists_cons, Exists_nil. tauto.
Qed.

Lemma attempt_resumes s s1 t a rest id trust b :
  inv s -> task s t = a :: rest -> tries id a -> (forall h, ~ installs h a) -> ~ dials id a ->
  tasks s1 = tasks s -> sessions s1 = sessions s -> reservations s1 = reservations s -> conns s1 = conns s -> fresh s <= fresh s1 ->
  tries id b -> ~ dials id b -> inv (put_task t ([AResume id trust; APublish id; b] ++ rest) s1).
Proof.
  intros Hinv Ht Ha Hni Hnd H1 H2 H3 H4 H5 Hb Hbd. apply (attempt_quiet s s1 t a rest _ id); try done.
  - apply shaped_resumed; [done|done|by apply (trying_rest s t a rest id)].
  - by right; right; left.
  - do 2 (constructor; [done|]). constructor; [|constructor]. unfold tries, dials in *. destruct b; simpl in *; congruence || (by destruct Hbd; congruence).
  - rewrite !Exists_cons, Exists_nil. unfold dials at 1 2. tauto.
Qed.

Ltac side := try done; try (by intros ? []); try (by intros []); try (cbn; lia).

Lemma starting_inv s t rest id p c acts s1 :
  inv s -> task s t = AStart id p :: rest -> start id p c s = Some (acts, s1) -> inv (put_task t (acts ++ rest) s1).
Proof.
  intros Hinv Ht. unfold start. destruct (_ || _).
  { intros [= <- <-]. apply (attempt_next s s t _ rest id _ Hinv Ht); side. }
  destruct c as [|[[]|e]| | | | | | | | | | |]; try done; intros [= <- <-].
  - apply (attempt_next s s t _ rest id _ Hinv Ht); side.
  - apply (attempt_next s s t _ rest id _ Hinv Ht); side.
  - apply (attempt_fails s s t _ rest id _ Hinv Ht); side.
Qed.

Lemma wait_passphrase_inv s t rest id p key ch cn c acts s1 :
  inv s -> task s t = AWaitPassphrase id p key ch cn :: rest -> wait_passphrase id p key ch cn c s = Some (acts, s1) ->
  inv (put_task t (acts ++ rest) s1).
Proof.
  intros Hinv Ht. unfold wait_passphrase. destruct c; try done.
  - destruct (replies s !! ch) as [[|pw []]|]; try done; intros [= <- <-].
    + apply (attempt_fails s _ t _ rest id _ Hinv Ht); side.
    + apply (attempt_next s _ t _ rest id _ Hinv Ht); side.
  - case_bool_decide; [|done]. intros [= <- <-]. apply (attempt_fails s _ t _ rest id _ Hinv Ht); side.
  - intros [= <- <-]. apply (attempt_fails s _ t _ rest id _ Hinv Ht); side.
Qed.

Lemma unlock_inv s t rest id p key pw c acts s1 :
  inv s -> task s t = AUnlock id p key pw :: rest -> unlock id p c s = Some (acts, s1) -> inv (put_task t (acts ++ rest) s1).
Proof.
  intros Hinv Ht. unfold unlock. destruct c as [| | | | |[]| | | | | | |]; try done; intros [= <- <-].
  - apply (attempt_resumes s _ t _ rest id _ _ Hinv Ht); side.
  - apply (attempt_fails s _ t _ rest id _ Hinv Ht); side.
Qed.

Lemma options_inv s t rest id p c acts s1 :
  inv s -> task s t = AOptions id p :: rest -> options id p c s = Some (acts, s1) -> inv (put_task t (acts ++ rest) s1).
Proof.
  intros Hinv Ht. unfold options. destruct c as [| | | | | |[e|]| | | | | |]; try done; intros [= <- <-].
  - apply (attempt_fails s _ t _ rest id _ Hinv Ht); side.
  - apply (attempt_next s _ t _ rest id _ Hinv Ht); side.
Qed.

Lemma trust_server_inv s t rest id p c acts s1 :
  inv s -> task s t = ATrustServer id p :: rest -> trust_server id p c s = Some (acts, s1) -> inv (put_task t (acts ++ rest) s1).
Proof.
  intros Hinv Ht. unfold trust_server. destruct c as [| | | | | |[e|]| | | | | |]; try done; intros [= <- <-].
  - apply (attempt_fails s _ t _ rest id _ Hinv Ht); side.
  - apply (attempt_next s _ t _ rest id _ Hinv Ht); side.
Qed.

Lemma wait_trust_inv s t rest id p fp ch cn c acts s1 :
  inv s -> task s t = AWaitTrust id p fp ch cn :: rest -> wait_trust id p ch cn c s = Some (acts, s1) -> inv (put_task t (acts ++ rest) s1).
Proof.
  intros Hinv Ht. unfold wait_trust. destruct c; try done.
  - destruct (replies s !! ch) as [[[]|]|]; try done; intros [= <- <-].
    + apply (attempt_resumes s _ t _ rest id _ _ Hinv Ht); side.
    + apply (attempt_fails s _ t _ rest id _ Hinv Ht); side.
  - case_bool_decide; [|done]. intros [= <- <-]. apply (attempt_fails s _ t _ rest id _ Hinv Ht); side.
  - intros [= <- <-]. apply (attempt_fails s _ t _ rest id _ Hinv Ht); side.
Qed.

(** A question: the session is told, and the attempt waits. *)
Lemma attempt_asks s s1 t a rest id f b k :
  inv s -> task s t = a :: rest -> tries id a -> (forall h, ~ installs h a) -> ~ dials id a ->
  tasks s1 = tasks s -> sessions s1 = alter f id (sessions s) -> reservations s1 = reservations s -> conns s1 = conns s -> fresh s <= fresh s1 ->
  (forall x, settled (state (f x)) = false /\ handle (f x) = handle x) -> is_Some (sessions s !! id) ->
  tries id b -> (forall id', ~ dials id' b) ->
  inv (put_task t ((APublish id :: (if k : bool then [AHook] else []) ++ [b]) ++ rest) s1).
Proof.
  intros Hinv Ht Ha Hni Hnd H1 H2 H3 H4 H5 Hf [x0 Hx0] Hb Hbd.
  pose proof (trying_unreserved _ _ _ _ _ Hinv Ht Ha Hnd) as Hres.
  pose proof (trying_rest s t a rest id Hinv Ht Ha) as Hrest.
  destruct (ph_try _ _ (iv_phase _ Hinv id) t) as (Htr & _); [rewrite Ht; by left|].
  assert (Hown : own id b) by (specialize (Hbd id); unfold tries, dials in *; destruct b; simpl in *; congruence || (by destruct Hbd; congruence)).
  assert (Hnone : ~ Exists (dials id) (APublish id :: (if k : bool then [AHook] else []) ++ [b])).
  { specialize (Hbd id). destruct k; cbn [app]; rewrite !Exists_cons, Exists_nil; unfold dials at 1; [unfold dials at 1|]; tauto. }
  apply (attempt_step s s1 t a rest _ id); try done.
  - intros id' Hne. rewrite H2, H3, lookup_alter_ne by done. done.
  - rewrite H2, lookup_alter_eq, Hx0. intros x1 [= <-]. destruct (Hf x0) as [-> ->]. split; [done|]. split; [by apply Htr|done].
  - destruct k; cbn [app]; repeat (apply shaped_more; [done|]); by apply (shaped_try _ id).
  - destruct k; cbn [app]; rewrite !Exists_cons; tauto.
  - destruct k; cbn [app]; repeat constructor; done.
  - rewrite H3, Hres. by intros [].
Qed.

(** The attempt ends: its profile is gone, or has failed. *)
Lemma attempt_ends s s1 t a rest id :
  inv s -> task s t = a :: rest -> tries id a -> (forall h, ~ installs h a) -> ~ dials id a ->
  tasks s1 = tasks s -> reservations s1 = reservations s -> conns s1 = conns s -> fresh s1 = fresh s ->
  (forall id', id' <> id -> sessions s1 !! id' = sessions s !! id') ->
  (forall x, sessions s1 !! id = Some x -> settled (state x) = true /\ handle x = None) ->
  inv (put_task t rest s1).
Proof.
  intros Hinv Ht Ha Hni Hnd T1 T2 T3 T4 Hoth Hx. pose proof (trying_unreserved _ _ _ _ _ Hinv Ht Ha Hnd) as Hres.
  pose proof (trying_rest s t a rest id Hinv Ht Ha) as Hrest.
  assert (Hlt : t < fresh s).
  { destruct (decide (t < fresh s)); [done|]. rewrite (iv_tasks _ Hinv t) in Ht by lia. done. }
  assert (Hput : forall t', task (put_task t rest s1) t' = if decide (t' = t) then rest else task s t').
  { intros t'. rewrite task_put. unfold task. by rewrite T1. }
  pose proof (ph_one _ _ (iv_phase _ Hinv id)) as Hone.
  destruct (ph_try _ _ (iv_phase _ Hinv id) t) as (Htr & _); [rewrite Ht; by left|].
  assert (Hob : obliged id (task s t)) by (left; rewrite Ht; by left).
  assert (Hno : forall t', ~ obliged id (task (put_task t rest s1) t')).
  { intros t'. rewrite Hput. case_decide as Hd; [|intros H; by apply Hd, Hone].
    intros [H|[H|H]]; (eapply (plain_none _ _ Hrest); [|exact H]; eauto). }
  assert (Hq : forall id', alike id' (task s t) rest \/ id' = id).
  { intros id'. destruct (decide (id' = id)) as [->|Hne]; [by right|]. left. unfold alike. rewrite Ht, !Exists_cons.
    assert (~ tries id' a) by (unfold tries in *; congruence).
    assert (~ dials id' a) by (destruct a; unfold tries, dials in *; simpl in *; congruence).
    assert (~ resets id' a /\ ~ releases id' a) by (split; intros ->; done). tauto. }
  apply (phase_step s s1 t rest id); try done; [by apply shaped_plain|lia|lia| | | |].
  - intros id' Hne. split; [destruct (Hq id'); [done|by destruct Hne]|]. rewrite Hoth, T2 by done. done.
  - intros id' x h _ _ _. rewrite T3. split_and!; [done| |by left]. rewrite Ht, Exists_cons. intros [H|H]; [by rewrite H in Ha|by left].
  - constructor; cbn [sessions reservations conns put_task set_tasks].
    + intros t1 t2 H. by destruct (Hno t1).
    + intros t' H. destruct (Hno t'). by right; right.
    + intros t' H. destruct (Hno t'). by left.
    + intros t' H. destruct (Hno t'). by right; left.
    + intros _. rewrite T2. destruct (sessions s1 !! id) as [x|]; [|done]. destruct (Hx x eq_refl) as [H1 H2]. by rewrite H2.
  - apply (conns_frame s _ t); [apply Hinv|intros t' Ht'; by rewrite Hput, decide_False| | | | |done|cbn; lia];
      rewrite ?Hput, ?decide_True by done.
    + intros h. rewrite Ht, Exists_cons. specialize (Hni h). tauto.
    + intros h. rewrite Ht, Exists_cons. assert (~ closes h a) by (intros ->; done). tauto.
    + intros id'. rewrite Ht, Exists_cons. intros [H|H]; [by rewrite H in Ha|done].
    + intros id'. cbn [sessions put_task set_tasks]. destruct (decide (id' = id)) as [->|Hne]; [|by rewrite Hoth].
      assert (E1 : (x ← sessions s1 !! id; handle x) = None).
      { destruct (sessions s1 !! id) as [x|]; [|done]. by destruct (Hx x eq_refl). }
      assert (E2 : (x ← sessions s !! id; handle x) = None).
      { destruct (sessions s !! id) as [x|]; [|done]. by destruct (Htr x eq_refl). }
      by rewrite E1, E2.
Qed.

Lemma attempt_gone s t a rest id :
  inv s -> task s t = a :: rest -> tries id a -> (forall h, ~ installs h a) -> ~ dials id a -> sessions s !! id = None ->
  inv (put_task t rest s).
Proof. intros Hinv Ht Ha Hni Hnd Hx. apply (attempt_ends s s t a rest id); try done. by rewrite Hx. Qed.

Lemma failed_inv s t rest id e :
  inv s -> task s t = AFailed id e :: rest -> inv (put_task t rest (with_session id (to_failed e) s)).
Proof.
  intros Hinv Ht. apply (attempt_ends s _ t _ rest id Hinv Ht); try done; [by intros ? []|by intros []| |]; cbn [sessions with_session set_sessions].
  - intros id' Hne. by rewrite lookup_alter_ne.
  - intros x. rewrite lookup_alter_eq. destruct (sessions s !! id); [|done]. by intros [= <-].
Qed.

Lemma resume_inv s t rest id trust :
  inv s -> task s t = AResume id trust :: rest -> inv (put_task t rest (with_session id (to_resumed trust) s)).
Proof.
  intros Hinv Ht. pose proof (iv_shape _ Hinv t) as Hsh. rewrite Ht in Hsh. destruct Hsh as [Hsh (b & l' & -> & Hb & Hnb & Hl)].
  destruct (ph_try _ _ (iv_phase _ Hinv id) t) as (Htr & _); [rewrite Ht; right; by right; left|].
  assert (Hlt : t < fresh s).
  { destruct (decide (t < fresh s)); [done|]. rewrite (iv_tasks _ Hinv t) in Ht by lia. done. }
  apply (quiet_step s); try done; cbn [sessions with_session set_sessions].
  - intros id'. unfold alike. rewrite Ht, !Exists_cons. unfold tries at 1, releases at 1, resets at 1, dials at 1. simpl. intuition congruence.
  - intros h. rewrite Ht, (Exists_cons _ (AResume _ _)). split; [by right|]. by intros [[]|?].
  - intros h. rewrite Ht, (Exists_cons _ (AResume _ _)). split; [by right|]. by intros [H|?].
  - intros id' x Hx. destruct (decide (id' = id)) as [->|Hne].
    + rewrite lookup_alter_eq, Hx. destruct (Htr x Hx) as [H1 H2]. eexists. split; [done|]. split; [done|]. by rewrite H1.
    + exists x. by rewrite lookup_alter_ne.
  - intros id' Hx. destruct (decide (id' = id)) as [->|Hne]; [by rewrite lookup_alter_eq, Hx|by rewrite lookup_alter_ne].
Qed.

Lemma ask_passphrase_inv s t rest id p key :
  inv s -> task s t = AAskPassphrase id p key :: rest ->
  let '(acts, s1) := ask_for_passphrase id p key s in inv (put_task t (acts ++ rest) s1).
Proof.
  intros Hinv Ht. unfold ask_for_passphrase. destruct (sessions s !! id) as [x|] eqn:Hx.
  - apply (attempt_asks s _ t _ rest id (ask_passphrase key (fresh s)) _ _ Hinv Ht); side.
  - by apply (attempt_gone s t _ rest id Hinv Ht); side.
Qed.

Lemma ask_trust_inv s t rest id p fp :
  inv s -> task s t = AAskTrust id p fp :: rest ->
  let '(acts, s1) := ask_for_trust id p fp s in inv (put_task t (acts ++ rest) s1).
Proof.
  intros Hinv Ht. unfold ask_for_trust. destruct (sessions s !! id) as [x|] eqn:Hx.
  - apply (attempt_asks s _ t _ rest id (ask_trust fp (fresh s)) _ _ Hinv Ht); side.
  - by apply (attempt_gone s t _ rest id Hinv Ht); side.
Qed.

Lemma reserve_inv s t rest id p again :
  inv s -> task s t = AReserve id p again :: rest ->
  let '(acts, s1) := reserve id p again s in inv (put_task t (acts ++ rest) s1).
Proof.
  intros Hinv Ht. unfold reserve, reservePorts. destruct (conflicting _ _ _).
  { apply (attempt_fails s _ t _ rest id _ Hinv Ht); side. }
  pose proof (trying_rest s t _ rest id Hinv Ht eq_refl) as Hrest.
  destruct (ph_try _ _ (iv_phase _ Hinv id) t) as (Htr & _); [rewrite Ht; by left|].
  apply (attempt_step s _ t _ rest _ id Hinv Ht); side.
  - intros id' Hne. cbn. by rewrite lookup_insert_ne.
  - cbn [sessions set_reservations]. intros x Hx. destruct (Htr x Hx). rewrite Hx. eauto.
  - by apply (shaped_try _ id).
  - by left.
  - by repeat constructor.
  - intros _. right. by left.
  - intros _. cbn. rewrite lookup_insert_eq. eauto.
Qed.

Lemma dial_error_inv s t rest id p again acts :
  inv s -> task s t = ADial id p again :: rest -> shaped (acts ++ rest) -> Exists (tries id) acts -> Forall (own id) acts ->
  Exists (releases id) acts -> ~ Exists (dials id) acts -> inv (put_task t (acts ++ rest) s).
Proof.
  intros Hinv Ht Hsh Htry Hown Hrel Hd.
  destruct (ph_try _ _ (iv_phase _ Hinv id) t) as (Htr & _); [rewrite Ht; by left|].
  apply (attempt_step s s t _ rest _ id Hinv Ht); side.
  - intros x Hx. destruct (Htr x Hx). rewrite Hx. eauto.
  - by left.
Qed.

Lemma dial_ok_inv s t rest id p again :
  inv s -> task s t = ADial id p again :: rest ->
  inv (put_task t ([AInstall id (fresh s)] ++ rest) (take_fresh (set_conns ({[fresh s]} ∪ conns s) s))).
Proof.
  intros Hinv Ht. cbn [app]. set (s1 := take_fresh _). set (l' := AInstall id (fresh s) :: rest).
  pose proof (trying_rest s t _ rest id Hinv Ht eq_refl) as Hrest.
  assert (Hlt : t < fresh s).
  { destruct (decide (t < fresh s)); [done|]. rewrite (iv_tasks _ Hinv t) in Ht by lia. done. }
  assert (Hput : forall t', task (put_task t l' s1) t' = if decide (t' = t) then l' else task s t') by (intros; by rewrite task_put).
  pose proof (iv_conns _ Hinv) as [C1 C2 C3 C4 C5].
  assert (Hnew : forall id' x, sessions s !! id' = Some x -> handle x <> Some (fresh s)).
  { intros id' x Hx Hh. assert (fresh s < fresh s) by (apply C5; right; right; by exists id', x). lia. }
  assert (Hnc : forall t', ~ Exists (closes (fresh s)) (task s t')).
  { intros t' H. assert (fresh s < fresh s) by (apply C5; right; left; by exists t'). lia. }
  assert (Hni : forall t', ~ Exists (installs (fresh s)) (task s t')).
  { intros t' H. destruct (C3 _ _ H) as [Hc _]. assert (fresh s < fresh s) by (apply C5; by left). lia. }
  assert (Hal : forall id', alike id' (task s t) l').
  { intros id'. unfold alike, l'. rewrite Ht, !Exists_cons. unfold tries, releases, resets, dials. simpl. intuition congruence. }
  assert (Hcl : forall h, Exists (closes h) l' <-> Exists (closes h) (task s t)).
  { intros h. unfold l'. rewrite Ht, !Exists_cons. unfold closes at 1 3. intuition congruence. }
  assert (Hco : conns_ok (put_task t l' s1)).
  { constructor; cbn [sessions conns put_task set_tasks take_fresh set_conns s1 fresh].
    - intros h [->%elem_of_singleton|Hh]%elem_of_union.
      + right. left. exists t. rewrite Hput, decide_True by done. by left.
      + destruct (C1 h Hh) as [H|[[t' H]|[t' H]]]; [by left| |].
        * right. left. exists t'. rewrite Hput. case_decide as Hd; [subst|done]. rewrite Ht in H. apply Exists_cons in H as [H|H]; [done|by right].
        * right. right. exists t'. rewrite Hput. case_decide as Hd; [subst; by apply Hcl|done].
    - done.
    - assert (Hpc : forall h, pending (closes h) (put_task t l' s1) -> pending (closes h) s).
      { intros h [t' H]. exists t'. rewrite Hput in H. case_decide as Hd; [subst; by apply Hcl|done]. }
      intros t' h. rewrite Hput. assert (Hold : Exists (installs h) (task s t') -> h ∈ {[fresh s]} ∪ conns s
          /\ (forall id x, sessions s !! id = Some x -> handle x <> Some h) /\ ~ pending (closes h) (put_task t l' s1)
          /\ forall t'', Exists (installs h) (task (put_task t l' s1) t'') -> t'' = t').
      { intros H. destruct (C3 t' h H) as (H1 & H2 & H3 & H4). split_and!; [set_solver|done|by intros ?%Hpc|].
        intros t''. rewrite Hput. case_decide as Hd; [subst|apply H4].
        intros [Hf|Hf]%Exists_cons; [|by apply H4; rewrite Ht; right]. unfold installs in Hf. subst h. by destruct (Hni t'). }
      case_decide as Hd; [subst t'|by apply Hold]. intros [Hf|Hf]%Exists_cons; [|by apply Hold; rewrite Ht; right].
      unfold installs in Hf. subst h. split_and!; [set_solver|done|intros [t' H]%Hpc; by destruct (Hnc t')|].
      intros t''. rewrite Hput. case_decide as Hd; [done|]. intros H. by destruct (Hni t'').
    - intros t' h id' x. rewrite Hput. case_decide as Hd; [subst|by apply C4]. rewrite Hcl. intros H Hx Hh.
      pose proof (C4 t h id' x H Hx Hh) as Hr. by apply (Hal id') in Hr.
    - intros h [[->%elem_of_singleton|Hh]%elem_of_union|[[t' H]|H]]; [lia| | |].
      + assert (h < fresh s) by (apply C5; by left). lia.
      + assert (h < fresh s); [|lia]. apply C5. right. left. exists t'. rewrite Hput in H. case_decide as Hd; [subst; by apply Hcl|done].
      + assert (h < fresh s); [|lia]. apply C5. by right; right. }
  assert (Hph : forall id', phase_ok (put_task t l' s1) id').
  { intros id'. apply (phase_frame s _ id' t); [apply Hinv|intros t' Ht'; by rewrite Hput, decide_False|by rewrite Hput, decide_True| |done|done|].
    - intros x Hx. by exists x.
    - intros x h Hx Hh. rewrite Hput, decide_True by done. cbn [conns put_task set_tasks take_fresh set_conns s1].
      assert (h <> fresh s) by (intros ->; by apply (Hnew id' x)). split_and!; [set_solver|rewrite Hcl; by left|set_solver]. }
  constructor; [|done|done|].
  - intros t'. rewrite Hput. case_decide; [by apply (shaped_try _ id)|apply Hinv].
  - intros t' Hle. cbn [fresh put_task set_tasks take_fresh set_conns s1] in Hle. rewrite Hput, decide_False by lia. apply (iv_tasks _ Hinv). lia.
Qed.

Lemma dial_inv s t rest id p again c acts s1 :
  inv s -> task s t = ADial id p again :: rest -> dial id p again c s = Some (acts, s1) -> inv (put_task t (acts ++ rest) s1).
Proof.
  intros Hinv Ht. pose proof (trying_rest s t _ rest id Hinv Ht eq_refl) as Hrest.
  assert (Hfail : forall e, inv (put_task t ((ARelease id :: setFailed id e) ++ rest) s)).
  { intros e. destruct (failed_own id e) as (F1 & F2 & F3). apply (dial_error_inv s t rest id p again); try done.
    - by apply shaped_failed.
    - by right.
    - by constructor.
    - by left.
    - rewrite Exists_cons. unfold dials at 1. tauto. }
  unfold dial. destruct c; try done; intros [= <- <-].
  - by apply (dial_ok_inv s t rest id p again).
  - destruct again; [apply Hfail|]. apply (dial_error_inv s t rest id p false); try done.
    + cbn [app]. split; [by apply (shaped_try _ id)|]. right. eexists _, rest. split_and!; [by left|done|by intros []|done].
    + by right; left.
    + by repeat constructor.
    + by left.
    + rewrite !Exists_cons, Exists_nil. unfold dials. tauto.
  - apply Hfail.
Qed.

Lemma task_bound s t a rest : inv s -> task s t = a :: rest -> t < fresh s.
Proof. intros Hinv Ht. destruct (decide (t < fresh s)); [done|]. rewrite (iv_tasks _ Hinv t) in Ht by lia. done. Qed.

Lemma calm_none P l : Forall calm l -> (forall a, P a -> calm a = false) -> ~ Exists P l.
Proof.
  intros Hl HP [a [Ha Hp]]%Exists_exists. rewrite Forall_forall in Hl. specialize (Hl a Ha). apply HP in Hp. by rewrite Hp in Hl.
Qed.

Lemma tries_not_calm id a : tries id a -> calm a = false.
Proof. by destruct a. Qed.
Lemma releases_not_calm id a : releases id a -> calm a = false.
Proof. intros ->. done. Qed.
Lemma resets_not_calm id a : resets id a -> calm a = false.
Proof. intros ->. done. Qed.
Lemma dials_not_calm id a : dials id a -> calm a = false.
Proof. by destruct a. Qed.
Lemma installs_not_calm h a : installs h a -> calm a = false.
Proof. by destruct a. Qed.
Lemma closes_not_calm h a : closes h a -> calm a = false.
Proof. intros ->. done. Qed.

#[local] Hint Resolve tries_not_calm releases_not_calm resets_not_calm dials_not_calm installs_not_calm closes_not_calm : core.

Lemma plain_calm l : Forall plain l -> Forall calm l.
Proof. intros Hl. apply (Forall_impl _ _ _ Hl). intros a. unfold calm. by destruct (plain a). Qed.

Lemma shaped_calm l : Forall calm l -> shaped l.
Proof.
  induction l as [|a l IH]; [done|]. intros [Ha Hl]%Forall_cons. split; [by apply IH|]. by destruct a.
Qed.

(** No profile has any business with the lists but [id]. *)
Lemma alike_other id' l l' : (~ Exists (tries id') l /\ ~ Exists (releases id') l /\ ~ Exists (resets id') l /\ ~ Exists (dials id') l) ->
  (~ Exists (tries id') l' /\ ~ Exists (releases id') l' /\ ~ Exists (resets id') l' /\ ~ Exists (dials id') l') -> alike id' l l'.
Proof. unfold alike. tauto. Qed.

Lemma install_inv s t rest id h :
  inv s -> task s t = AInstall id h :: rest ->
  let '(acts, s1) := install id h s in inv (put_task t (acts ++ rest) s1).
Proof.
  intros Hinv Ht. pose proof (trying_rest s t _ rest id Hinv Ht eq_refl) as Hrest.
  pose proof (task_bound _ _ _ _ Hinv Ht) as Hlt. pose proof (iv_phase _ Hinv id) as [P1 P2 P3 P4 P5].
  pose proof (iv_conns _ Hinv) as [C1 C2 C3 C4 C5].
  destruct (C3 t h) as (D1 & D2 & D3 & D4); [rewrite Ht; by left|].
  assert (Hob : obliged id (task s t)) by (left; rewrite Ht; by left).
  destruct (P3 t) as (Htr & _ & Hdial); [rewrite Ht; by left|].
  assert (Hres : is_Some (reservations s !! id)) by (apply Hdial; rewrite Ht; by left).
  assert (Hother : forall id', id' <> id -> ~ Exists (tries id') (task s t) /\ ~ Exists (releases id') (task s t)
      /\ ~ Exists (resets id') (task s t) /\ ~ Exists (dials id') (task s t)).
  { intros id' Hne. rewrite Ht, !Exists_cons. unfold tries at 1, releases at 1, resets at 1, dials at 1. simpl.
    split_and!; (intros [H|H]; [congruence|]); (eapply (plain_none _ _ Hrest); [|exact H]; eauto). }
  assert (Hone_close : forall h' t', Exists (closes h') (task s t') -> h' <> h /\ t' <> t).
  { intros h' t' H. split; [intros ->; apply D3; by exists t'|]. intros ->. rewrite Ht in H. apply Exists_cons in H as [H|H]; [done|].
    eapply (plain_none _ _ Hrest); [|exact H]; eauto. }
  unfold install. destruct (sessions s !! id) as [x|] eqn:Hx; cbn [app].
  - set (s1 := with_session _ _ _). set (l' := AReconcile id h :: APublish id :: rest).
    assert (Hput : forall t', task (put_task t l' s1) t' = if decide (t' = t) then l' else task s t') by (intros; by rewrite task_put).
    assert (Hl' : Forall plain l') by (by repeat constructor).
    assert (Hss : forall id', sessions s1 !! id' = if decide (id' = id) then Some (to_connected h x) else sessions s !! id').
    { intros id'. cbn [sessions s1 with_session set_sessions]. case_decide as Hdec; [subst; by rewrite lookup_alter_eq, Hx|by rewrite lookup_alter_ne]. }
    assert (Hno : forall t', ~ obliged id (task (put_task t l' s1) t')).
    { intros t'. rewrite Hput. case_decide as Hd; [|intros H; by apply Hd, P1].
      intros [H|[H|H]]; (eapply (plain_none _ _ Hl'); [|exact H]; eauto). }
    apply (phase_step s s1 t l' id); try done; [by apply shaped_plain| | | |].
    + intros id' Hne. rewrite Hss, decide_False by done. split; [|done]. apply alike_other; [by apply Hother|].
      split_and!; (intros H; eapply (plain_none _ _ Hl'); [|exact H]; eauto).
    + intros id' y h' Hne Hy Hh. split_and!; [done| |by left]. intros H. by destruct (Hone_close h' t H).
    + constructor; cbn [sessions reservations conns put_task set_tasks].
      * intros t1 t2 H. by destruct (Hno t1).
      * intros t' H. destruct (Hno t'). by right; right.
      * intros t' H. destruct (Hno t'). by left.
      * intros t' H. destruct (Hno t'). by right; left.
      * intros _. rewrite Hss, decide_True by done. cbn [handle to_connected]. split_and!; [by left|done|done].
    + assert (Hpc : forall h', pending (closes h') (put_task t l' s1) -> pending (closes h') s).
      { intros h' [t' H]. exists t'. rewrite Hput in H. case_decide as Hdec; [|done]. exfalso. eapply (plain_none _ _ Hl'); [|exact H]; eauto. }
      assert (Hpi : forall h' t', Exists (installs h') (task (put_task t l' s1) t') -> t' <> t /\ Exists (installs h') (task s t')).
      { intros h' t'. rewrite Hput. case_decide as Hdec; [|done]. intros H. exfalso. eapply (plain_none _ _ Hl'); [|exact H]; eauto. }
      assert (Hsess : forall id' y h', sessions s1 !! id' = Some y -> handle y = Some h' ->
          id' = id /\ h' = h \/ id' <> id /\ h' <> h /\ sessions s !! id' = Some y).
      { intros id' y h'. rewrite Hss. case_decide as Hd; [intros [= <-] [= <-]; by left|]. intros Hy Hh. right. split_and!; [done| |done].
        intros ->. by apply (D2 id' y Hy). }
      constructor; cbn [sessions conns put_task set_tasks].
      * intros h' Hh'. destruct (decide (h' = h)) as [->|Hne].
        { left. exists id, (to_connected h x). by rewrite Hss, decide_True. }
        destruct (C1 h' Hh') as [(id' & y & Hy & Hyh)|[[t' H]|[t' H]]].
        -- left. exists id', y. rewrite Hss. case_decide as Hd; [|done]. subst. exfalso. rewrite Hx in Hy. injection Hy as <-.
           destruct (Htr x eq_refl). congruence.
        -- right. left. exists t'. rewrite Hput. case_decide as Hd; [|done]. subst. exfalso. rewrite Ht in H.
           apply Exists_cons in H as [H|H]; [unfold installs in H; congruence|eapply (plain_none _ _ Hrest); [|exact H]; eauto].
        -- right. right. exists t'. rewrite Hput, decide_False; [done|]. by destruct (Hone_close h' t' H).
      * intros id1 x1 id2 x2 h' H1 H2 E1 E2. destruct (Hsess _ _ _ H1 E1) as [[-> ->]|(N1 & N1' & S1)], (Hsess _ _ _ H2 E2) as [[-> ?]|(N2 & N2' & S2)];
          try done. by apply (C2 id1 x1 id2 x2 h').
      * intros t' h' [Hne H]%Hpi. destruct (C3 t' h' H) as (E1 & E2 & E3 & E4). split_and!; [done| |by intros ?%Hpc|].
        { intros id' y Hy Hh. destruct (Hsess _ _ _ Hy Hh) as [[-> ->]|(_ & _ & Hy')]; [by apply Hne, D4|by apply (E2 id' y)]. }
        intros t'' [_ H']%Hpi. by apply E4.
      * intros t' h' id' y H Hy Hh. rewrite Hput in H. case_decide as Hd.
        { exfalso. eapply (plain_none _ _ Hl'); [|exact H]; eauto. }
        destruct (Hone_close h' t' H) as [Hnh _]. destruct (Hsess _ _ _ Hy Hh) as [[-> ->]|(_ & _ & Hy')]; [done|].
        rewrite Hput, decide_False by done. by apply (C4 t' h' id' y).
      * intros h' [H|[H%Hpc|(id' & y & Hy & Hh)]]; [apply C5; by left|apply C5; by right; left|].
        destruct (Hsess _ _ _ Hy Hh) as [[-> ->]|(_ & _ & Hy')]; apply C5; [by left|]. right. right. by exists id', y.
  - set (l' := ACloseHandle h :: ARelease id :: rest).
    assert (Hput : forall t', task (put_task t l' s) t' = if decide (t' = t) then l' else task s t') by (intros; by rewrite task_put).
    assert (Hob' : forall t', obliged id (task (put_task t l' s) t') -> t' = t).
    { intros t'. rewrite Hput. case_decide as Hd; [done|]. intros H. by apply P1. }
    assert (Hnot : ~ Exists (tries id) l' /\ ~ Exists (resets id) l').
    { unfold l'. rewrite !Exists_cons. split; (intros [H|[H|H]]; [done|done|eapply (plain_none _ _ Hrest); [|exact H]; eauto]). }
    assert (Hsh : shaped l').
    { split; [split; [by apply shaped_plain|left; by apply plain_calm]|]. exists id, rest. split; [by left|by apply plain_calm]. }
    apply (phase_step s s t l' id); try done.
    + intros id' Hne. split; [|done]. apply alike_other; [by apply Hother|]. unfold l'. rewrite !Exists_cons.
      unfold tries at 1 2, releases at 1 2, resets at 1 2, dials at 1 2. simpl.
      split_and!; (intros [H|[H|H]]; [congruence|congruence|]); (eapply (plain_none _ _ Hrest); [|exact H]; eauto).
    + intros id' y h' Hne Hy Hh. split_and!; [done| |by left]. intros H. by destruct (Hone_close h' t H).
    + constructor; cbn [sessions reservations conns put_task set_tasks].
      * intros t1 t2 H1%Hob' H2%Hob'. congruence.
      * intros t' H. assert (t' = t) as -> by (apply Hob'; by right; right). rewrite Hput, decide_True in H by done. by destruct Hnot.
      * intros t' H. assert (t' = t) as -> by (apply Hob'; by left). rewrite Hput, decide_True in H by done. by destruct Hnot.
      * intros t' _ _ _ y. by rewrite Hx.
      * intros Hno. destruct (Hno t). right. left. rewrite Hput, decide_True by done. by right; left.
    + assert (Hpi : forall h' t', Exists (installs h') (task (put_task t l' s) t') -> t' <> t /\ Exists (installs h') (task s t')).
      { intros h' t'. rewrite Hput. case_decide as Hdec; [|done]. unfold l'. intros [H|[H|H]%Exists_cons]%Exists_cons; [done|done|].
        exfalso. eapply (plain_none _ _ Hrest); [|exact H]; eauto. }
      assert (Hpc : forall h' t', Exists (closes h') (task (put_task t l' s) t') -> t' = t /\ h' = h \/ t' <> t /\ h' <> h /\ Exists (closes h') (task s t')).
      { intros h' t'. rewrite Hput. case_decide as Hd.
        - unfold l'. intros [H|[H|H]%Exists_cons]%Exists_cons; [|done|exfalso; eapply (plain_none _ _ Hrest); [|exact H]; eauto].
          unfold closes in H. injection H as ->. by left.
        - intros H. right. split_and!; [done| |done]. by destruct (Hone_close h' t' H). }
      constructor; cbn [sessions conns put_task set_tasks].
      * intros h' Hh'. destruct (C1 h' Hh') as [H|[[t' H]|[t' H]]]; [by left| |].
        -- destruct (decide (t' = t)) as [->|Hne].
           ++ right. right. exists t. rewrite Hput, decide_True by done. rewrite Ht in H.
              apply Exists_cons in H as [H|H]; [unfold installs in H; subst; by left|exfalso; eapply (plain_none _ _ Hrest); [|exact H]; eauto].
           ++ right. left. exists t'. by rewrite Hput, decide_False.
        -- right. right. exists t'. rewrite Hput, decide_False; [done|]. by destruct (Hone_close h' t' H).
      * done.
      * intros t' h' [Hne H]%Hpi. destruct (C3 t' h' H) as (E1 & E2 & E3 & E4). split_and!; [done|done| |intros t'' [_ H']%Hpi; by apply E4].
        intros [t'' [[-> ->]|(_ & _ & H')]%Hpc]; [by apply Hne, D4|]. apply E3. by exists t''.
      * intros t' h' id' y [[-> ->]|(Hne & _ & H)]%Hpc Hy Hh; [by destruct (D2 id' y Hy)|].
        rewrite Hput, decide_False by done. by apply (C4 t' h' id' y).
      * intros h' [H|[[t' [[_ ->]|(_ & _ & H)]%Hpc]|H]]; apply C5; [by left|by left|right; left; by exists t'|by right; right].
Qed.

(** *** Giving back, closing and resetting *)
Lemma release_inv s t rest id :
  inv s -> task s t = ARelease id :: rest -> inv (put_task t rest (releasePorts id s)).
Proof.
  intros Hinv Ht. pose proof (iv_shape _ Hinv t) as Hsh. rewrite Ht in Hsh. destruct Hsh as [Hsh Hrest].
  pose proof (task_bound _ _ _ _ Hinv Ht) as Hlt. pose proof (iv_phase _ Hinv id) as [P1 P2 P3 P4 P5].
  assert (Hput : forall t', task (put_task t rest (releasePorts id s)) t' = if decide (t' = t) then rest else task s t') by (intros; by rewrite task_put).
  assert (Hob : obliged id (task s t)) by (right; left; rewrite Ht; by left).
  assert (Hob' : forall t', obliged id (task (put_task t rest (releasePorts id s)) t') -> t' = t).
  { intros t'. rewrite Hput. case_decide as Hd; [done|]. intros H. by apply P1. }
  assert (Hdel : reservations (put_task t rest (releasePorts id s)) !! id = None) by (cbn; apply lookup_delete_eq).
  apply (phase_step s (releasePorts id s) t rest id); try done.
  - intros id' Hne. split; [|cbn; by rewrite lookup_delete_ne]. unfold alike. rewrite Ht, !Exists_cons.
    unfold tries at 1, releases at 1, resets at 1, dials at 1. simpl. intuition congruence.
  - intros id' x h _ _ _. split_and!; [done| |by left]. rewrite Ht. intros [H|H]%Exists_cons; [done|by left].
  - destruct Hrest as [Hcalm|(b & l' & Hl & Hb & Hnb & Hp)].
    + assert (Hno : forall t', ~ obliged id (task (put_task t rest (releasePorts id s)) t')).
      { intros t' H. assert (t' = t) as -> by by apply Hob'. rewrite Hput, decide_True in H by done.
        destruct H as [H|[H|H]]; (eapply (calm_none _ _ Hcalm); [|exact H]; eauto). }
      assert (Hs : forall x, sessions s !! id = Some x -> settled (state x) = true /\ handle x = None).
      { apply (P4 t); rewrite Ht; [by left| |]; (intros [H|H]%Exists_cons; [done|eapply (calm_none _ _ Hcalm); [|exact H]; eauto]). }
      constructor.
      * intros t1 t2 H. by destruct (Hno t1).
      * intros t' H. destruct (Hno t'). by right; right.
      * intros t' H. destruct (Hno t'). by left.
      * intros t' H. destruct (Hno t'). by right; left.
      * intros _. rewrite Hdel. cbn [sessions put_task set_tasks releasePorts set_reservations].
        destruct (sessions s !! id) as [x|]; [|done]. destruct (Hs x eq_refl) as [H1 H2]. by rewrite H2.
    + assert (Hf : forall P : action -> Prop, (forall a, P a -> plain a = false) -> ~ P b -> ~ P (ARelease id) -> ~ Exists P rest).
      { intros P HP Hn1 Hn2 H. destruct Hl as [-> | ->].
        - apply Exists_cons in H as [H|H]; [done|by eapply (plain_none _ _ Hp)].
        - apply Exists_cons in H as [H|H]; [done|]. apply Exists_cons in H as [H|H]; [done|by eapply (plain_none _ _ Hp)]. }
      assert (Htry : Exists (tries id) rest) by (destruct Hl as [-> | ->]; [by left|by right; left]).
      destruct (P3 t) as (Htr & _); [rewrite Ht; by right|].
      constructor.
      * intros t1 t2 H1%Hob' H2%Hob'. congruence.
      * intros t' H. assert (t' = t) as -> by (apply Hob'; by right; right). rewrite Hput, decide_True in H by done.
        exfalso. revert H. apply Hf; [eauto|by intros ->|done].
      * intros t' H. rewrite Hdel. assert (t' = t) as -> by (apply Hob'; by left). split_and!; [exact Htr|by intros []|].
        rewrite Hput, decide_True by done. intros Hd. exfalso. revert Hd. apply Hf; [eauto|done|by intros []].
      * intros t' H Hn. assert (t' = t) as -> by (apply Hob'; by right; left). destruct Hn. by rewrite Hput, decide_True.
      * intros Hno. destruct (Hno t). left. by rewrite Hput, decide_True.
  - apply (conns_frame s _ t); [apply Hinv|intros t' Ht'; by rewrite Hput, decide_False| | | |done|done|cbn; lia]; rewrite ?Hput, ?decide_True by done.
    + intros h. rewrite Ht, Exists_cons. unfold installs at 2. tauto.
    + intros h. rewrite Ht, Exists_cons. split; [by right|]. by intros [H|?].
    + intros id'. rewrite Ht, Exists_cons. by intros [H|?].
Qed.

Lemma close_inv s t rest h :
  inv s -> task s t = ACloseHandle h :: rest -> inv (put_task t rest (set_conns (conns s ∖ {[h]}) s)).
Proof.
  intros Hinv Ht. pose proof (iv_shape _ Hinv t) as Hsh. rewrite Ht in Hsh. destruct Hsh as [Hsh _].
  pose proof (task_bound _ _ _ _ Hinv Ht) as Hlt. pose proof (iv_conns _ Hinv) as [C1 C2 C3 C4 C5].
  set (s1 := set_conns _ s).
  assert (Hput : forall t', task (put_task t rest s1) t' = if decide (t' = t) then rest else task s t') by (intros; by rewrite task_put).
  assert (Hcl : forall h', Exists (closes h') (task s t) -> h' = h \/ Exists (closes h') rest).
  { intros h'. rewrite Ht. intros [H|H]%Exists_cons; [left; unfold closes in H; congruence|by right]. }
  assert (Hin : forall h' t', Exists (installs h') (task (put_task t rest s1) t') <-> Exists (installs h') (task s t')).
  { intros h' t'. rewrite Hput. case_decide as Hd; [|done]. subst. rewrite Ht, Exists_cons. unfold installs at 2. tauto. }
  assert (Hpc : forall h', pending (closes h') (put_task t rest s1) -> pending (closes h') s).
  { intros h' [t' H]. exists t'. rewrite Hput in H. case_decide as Hd; [|done]. subst. rewrite Ht. by right. }
  constructor.
  - intros t'. rewrite Hput. case_decide; [done|apply Hinv].
  - intros id. apply (phase_frame s _ id t); [apply Hinv|intros t' Ht'; by rewrite Hput, decide_False|rewrite Hput, decide_True by done| |done|done|].
    + unfold alike. rewrite Ht, !Exists_cons. unfold tries at 1, releases at 1, resets at 1, dials at 1. simpl. intuition congruence.
    + intros x Hx. by exists x.
    + intros x h' Hx Hh. rewrite Hput, decide_True by done. cbn [conns put_task set_tasks s1 set_conns]. rewrite elem_of_difference, elem_of_singleton.
      split_and!; [tauto| |].
      * intros [->|?]%Hcl; [right; tauto|by left].
      * intros Hi. destruct (decide (h' = h)) as [->|]; [|by left]. right. apply (C4 t h id x); [rewrite Ht; by left|done|done].
  - constructor; cbn [sessions conns put_task set_tasks s1 set_conns].
    + intros h' [Hh' Hn]%elem_of_difference. rewrite elem_of_singleton in Hn. destruct (C1 h' Hh') as [H|[[t' H]|[t' H]]]; [by left| |].
      * right. left. exists t'. by apply Hin.
      * right. right. exists t'. rewrite Hput. case_decide as Hd; [|done]. subst. by destruct (Hcl h' H).
    + done.
    + intros t' h' H%Hin. destruct (C3 t' h' H) as (E1 & E2 & E3 & E4). split_and!; [|done|by intros ?%Hpc|intros t'' H'%Hin; by apply E4].
      apply elem_of_difference. split; [done|]. intros ->%elem_of_singleton. apply E3. exists t. rewrite Ht. by left.
    + intros t' h' id x H Hx Hh. rewrite Hput in H |- *. case_decide as Hd; [|by apply (C4 t' h' id x)]. subst.
      assert (Hr : Exists (resets id) (task s t)) by (apply (C4 t h' id x); [rewrite Ht; by right|done|done]).
      rewrite Ht in Hr. by apply Exists_cons in Hr as [Hr|Hr].
    + intros h' [[H _]%elem_of_difference|[H%Hpc|H]]; apply C5; [by left|by right; left|by right; right].
  - intros t' Hle. cbn in Hle. rewrite Hput, decide_False by lia. by apply (iv_tasks _ Hinv).
Qed.

Lemma reset_inv s t rest id :
  inv s -> task s t = AReset id :: rest -> inv (put_task t rest (with_session id to_idle s)).
Proof.
  intros Hinv Ht. pose proof (iv_shape _ Hinv t) as Hsh. rewrite Ht in Hsh. destruct Hsh as [Hsh (l' & -> & Hcalm)].
  pose proof (task_bound _ _ _ _ Hinv Ht) as Hlt. pose proof (iv_phase _ Hinv id) as [P1 P2 P3 P4 P5]. pose proof (iv_conns _ Hinv) as [C1 C2 C3 C4 C5].
  destruct (P2 t) as (x & h & Hx & Hh & _ & Hres & Hcl); [rewrite Ht; by left|].
  assert (Hnc : forall h', ~ Exists (closes h') (task s t)).
  { intros h'. rewrite Ht. intros [H|[H|H]%Exists_cons]%Exists_cons; [done|done|]. eapply (calm_none _ _ Hcalm); [|exact H]; eauto. }
  assert (Hni : forall h', ~ Exists (installs h') (task s t)).
  { intros h'. rewrite Ht. intros [H|[H|H]%Exists_cons]%Exists_cons; [done|done|]. eapply (calm_none _ _ Hcalm); [|exact H]; eauto. }
  assert (Hgone : h ∉ conns s) by (destruct Hcl as [Hcl|?]; [by destruct (Hnc h)|done]).
  set (s1 := with_session id to_idle s). set (l := ARelease id :: l').
  assert (Hput : forall t', task (put_task t l s1) t' = if decide (t' = t) then l else task s t') by (intros; by rewrite task_put).
  assert (Hss : forall id', sessions s1 !! id' = if decide (id' = id) then Some (to_idle x) else sessions s !! id').
  { intros id'. cbn [sessions s1 with_session set_sessions]. case_decide; [subst; by rewrite lookup_alter_eq, Hx|by rewrite lookup_alter_ne]. }
  assert (Hob : obliged id (task s t)) by (right; right; rewrite Ht; by left).
  assert (Hob' : forall t', obliged id (task (put_task t l s1) t') -> t' = t).
  { intros t'. rewrite Hput. case_decide as Hd; [done|]. intros H. by apply P1. }
  assert (Hl : ~ Exists (tries id) l /\ ~ Exists (resets id) l).
  { split; (intros [H|H]%Exists_cons; [done|]; eapply (calm_none _ _ Hcalm); [|exact H]; eauto). }
  apply (phase_step s s1 t l id); try done.
  - intros id' Hne. rewrite Hss, decide_False by done. split; [|done].
    assert (Hcons : forall P : action -> Prop, ~ P (AReset id) -> (Exists P (task s t) <-> Exists P l)).
    { intros P HP. rewrite Ht, (Exists_cons _ (AReset id)). tauto. }
    unfold alike. rewrite !Hcons; [done|by intros []|intros H; unfold resets in H; congruence|done|done].
  - intros id' y h' _ _ _. split_and!; [done| |by left]. intros H. by destruct (Hnc h').
  - constructor; cbn [reservations conns put_task set_tasks].
    + intros t1 t2 H1%Hob' H2%Hob'. congruence.
    + intros t' H. assert (t' = t) as -> by (apply Hob'; by right; right). rewrite Hput, decide_True in H by done. by destruct Hl.
    + intros t' H. assert (t' = t) as -> by (apply Hob'; by left). rewrite Hput, decide_True in H by done. by destruct Hl.
    + intros t' _ _ _ y. cbn [sessions put_task set_tasks]. rewrite Hss, decide_True by done. by intros [= <-].
    + intros Hno. destruct (Hno t). right. left. rewrite Hput, decide_True by done. by left.
  - assert (Hc' : forall h' t', Exists (closes h') (task (put_task t l s1) t') -> Exists (closes h') (task s t')).
    { intros h' t'. rewrite Hput. case_decide as Hd; [|done]. subst. rewrite Ht. by right. }
    assert (Hi' : forall h' t', Exists (installs h') (task (put_task t l s1) t') -> Exists (installs h') (task s t')).
    { intros h' t'. rewrite Hput. case_decide as Hd; [|done]. subst. rewrite Ht. by right. }
    assert (Hk : forall P t', Exists P (task s t') -> ~ Exists P (task s t) -> Exists P (task (put_task t l s1) t')).
    { intros P t' H Hn. rewrite Hput, decide_False; [done|]. by intros ->. }
    assert (Hsess : forall id' y h', sessions s1 !! id' = Some y -> handle y = Some h' -> id' <> id /\ sessions s !! id' = Some y).
    { intros id' y h'. rewrite Hss. case_decide as Hd; [by intros [= <-]|done]. }
    constructor; cbn [sessions conns put_task set_tasks].
    + intros h' Hh'. destruct (C1 h' Hh') as [(id' & y & Hy & Hyh)|[[t' H]|[t' H]]].
      * left. exists id', y. rewrite Hss. case_decide as Hd; [|done]. subst. rewrite Hx in Hy. injection Hy as <-. rewrite Hh in Hyh. by injection Hyh as ->.
      * right. left. exists t'. by apply Hk.
      * right. right. exists t'. by apply Hk.
    + intros id1 x1 id2 x2 h' H1 H2 E1 E2. destruct (Hsess _ _ _ H1 E1) as [_ S1], (Hsess _ _ _ H2 E2) as [_ S2]. by apply (C2 id1 x1 id2 x2 h').
    + intros t' h' H%Hi'. destruct (C3 t' h' H) as (E1 & E2 & E3 & E4). split_and!; [done| | |intros t'' H'%Hi'; by apply E4].
      * intros id' y Hy Hyh. destruct (Hsess _ _ _ Hy Hyh) as [_ Hy']. by apply (E2 id' y).
      * intros [t'' H'%Hc']. apply E3. by exists t''.
    + intros t' h' id' y H%Hc' Hy Hyh. destruct (Hsess _ _ _ Hy Hyh) as [_ Hy'].
      rewrite Hput, decide_False; [by apply (C4 t' h' id' y)|]. intros ->. by destruct (Hnc h').
    + intros h' [H|[[t' H%Hc']|(id' & y & Hy & Hyh)]]; apply C5; [by left|right; left; by exists t'|].
      destruct (Hsess _ _ _ Hy Hyh) as [_ Hy']. right. right. by exists id', y.
Qed.

(** *** The calls *)
Lemma disconnect_inv s s1 t id x h rest :
  inv s -> tasks s1 = tasks s -> sessions s1 = sessions s -> reservations s1 = reservations s -> conns s1 = conns s ->
  fresh s <= fresh s1 -> t < fresh s1 -> Forall calm (task s t) -> Forall calm rest ->
  sessions s !! id = Some x -> handle x = Some h -> ~ pending (resets id) s ->
  inv (put_task t ([ACloseHandle h; AReset id; ARelease id; APublish id] ++ rest) s1).
Proof.
  intros Hinv T1 T2 T3 T4 T5 Hlt Hold Hcalm Hx Hh Hnr. cbn [app].
  pose proof (iv_phase _ Hinv id) as [P1 P2 P3 P4 P5]. pose proof (iv_conns _ Hinv) as [C1 C2 C3 C4 C5].
  set (l := ACloseHandle h :: AReset id :: ARelease id :: APublish id :: rest).
  assert (Hput : forall t', task (put_task t l s1) t' = if decide (t' = t) then l else task s t').
  { intros t'. rewrite task_put. unfold task. by rewrite T1. }
  assert (Hnob : forall t', ~ obliged id (task s t')).
  { intros t' H. assert (Hnt : ~ Exists (tries id) (task s t')).
    { intros Ht. destruct (P3 t' Ht) as (Htr & _). destruct (Htr x Hx). congruence. }
    assert (Hnre : ~ Exists (resets id) (task s t')) by (intros Ht; apply Hnr; by exists t').
    destruct H as [H|[H|H]]; [done| |done]. destruct (P4 t' H Hnt Hnre x Hx). congruence. }
  specialize (P5 Hnob). rewrite Hx, Hh in P5. destruct P5 as (Hcx & Hres & Hin).
  assert (Hob' : forall t', obliged id (task (put_task t l s1) t') -> t' = t).
  { intros t'. rewrite Hput. case_decide as Hd; [done|]. intros H. by destruct (Hnob t'). }
  assert (Hre : Exists (resets id) l) by (by right; left).
  assert (Hntl : ~ Exists (tries id) l).
  { unfold l. rewrite !Exists_cons. intros [H|[H|[H|[H|H]]]]; try done. eapply (calm_none _ _ Hcalm); [|exact H]; eauto. }
  assert (Hcl : forall h', Exists (closes h') l -> h' = h).
  { intros h'. unfold l. rewrite !Exists_cons. unfold closes at 1. intros [H|[H|[H|[H|H]]]]; try done; [congruence|].
    exfalso. eapply (calm_none _ _ Hcalm); [|exact H]; eauto. }
  assert (Hil : forall h', ~ Exists (installs h') l).
  { intros h'. unfold l. rewrite !Exists_cons. intros [H|[H|[H|[H|H]]]]; try done. eapply (calm_none _ _ Hcalm); [|exact H]; eauto. }
  assert (Hsh : shaped l).
  { assert (Hc1 : Forall calm (APublish id :: rest)) by (by constructor).
    assert (S1 : shaped (ARelease id :: APublish id :: rest)) by (split; [by apply shaped_calm|by left]).
    assert (S2 : shaped (AReset id :: ARelease id :: APublish id :: rest)) by (split; [done|by exists (APublish id :: rest)]).
    split; [done|]. exists id, (APublish id :: rest). split; [by right|done]. }
  apply (phase_step s s1 t l id); try done.
  - intros id' Hne. rewrite T2, T3. split; [|done]. apply alike_other.
    + split_and!; (intros H; eapply (calm_none _ _ Hold); [|exact H]; eauto).
    + unfold l. rewrite !Exists_cons. unfold tries at 1 2 3 4, releases at 1 2 3 4, resets at 1 2 3 4, dials at 1 2 3 4. simpl.
      split_and!; (intros [H|[H|[H|[H|H]]]]; [congruence|congruence|congruence|congruence|]) || (intros [H|[H|[H|[H|H]]]]; try done);
        (eapply (calm_none _ _ Hcalm); [|exact H]; eauto).
  - intros id' y h' _ _ _. rewrite T4. split_and!; [done| |by left]. intros H. exfalso. eapply (calm_none _ _ Hold); [|exact H]; eauto.
  - constructor; cbn [sessions reservations conns put_task set_tasks]; rewrite ?T2, ?T3, ?T4.
    + intros t1 t2 H1%Hob' H2%Hob'. congruence.
    + intros t' H. assert (t' = t) as -> by (apply Hob'; by right; right). exists x, h. split_and!; try done.
      left. rewrite Hput, decide_True by done. by left.
    + intros t' H. assert (t' = t) as -> by (apply Hob'; by left). rewrite Hput, decide_True in H by done. done.
    + intros t' H _ Hn. assert (t' = t) as -> by (apply Hob'; by right; left). rewrite Hput, decide_True in Hn by done. done.
    + intros Hno. destruct (Hno t). right. right. by rewrite Hput, decide_True.
  - assert (Hi' : forall h' t', Exists (installs h') (task (put_task t l s1) t') -> Exists (installs h') (task s t')).
    { intros h' t'. rewrite Hput. case_decide as Hd; [|done]. intros H. by destruct (Hil h'). }
    assert (Hc' : forall h' t', Exists (closes h') (task (put_task t l s1) t') -> t' = t /\ h' = h \/ t' <> t /\ Exists (closes h') (task s t')).
    { intros h' t'. rewrite Hput. case_decide as Hd; [|by right]. intros H%Hcl. by left. }
    assert (Hk : forall P t', Exists P (task s t') -> (forall a, P a -> calm a = false) -> Exists P (task (put_task t l s1) t')).
    { intros P t' H HP. rewrite Hput, decide_False; [done|]. intros ->. by eapply (calm_none _ _ Hold). }
    constructor; cbn [sessions conns put_task set_tasks]; rewrite ?T2, ?T4.
    + intros h' Hh'. destruct (C1 h' Hh') as [H|[[t' H]|[t' H]]]; [by left| |].
      * right. left. exists t'. apply Hk; [done|eauto].
      * right. right. exists t'. apply Hk; [done|eauto].
    + done.
    + intros t' h' H%Hi'. destruct (C3 t' h' H) as (E1 & E2 & E3 & E4). split_and!; [done|done| |intros t'' H'%Hi'; by apply E4].
      intros [t'' [[-> ->]|[_ H']]%Hc']; [by apply (E2 id x)|]. apply E3. by exists t''.
    + intros t' h' id' y [[-> ->]|[Hne H]]%Hc' Hy Hyh; rewrite Hput.
      * rewrite decide_True by done. by rewrite (C2 id' y id x h).
      * rewrite decide_False by done. by apply (C4 t' h' id' y).
    + intros h' [H|[[t' [[_ ->]|[_ H]]%Hc']|H]].
      * assert (h' < fresh s); [|cbn; lia]. apply C5. by left.
      * assert (h < fresh s); [|cbn; lia]. apply C5. by left.
      * assert (h' < fresh s); [|cbn; lia]. apply C5. right. left. by exists t'.
      * assert (h' < fresh s); [|cbn; lia]. apply C5. by right; right.
Qed.

(** A call that leaves actions of no importance. *)
Lemma spawn_quiet s s1 acts :
  inv s -> tasks s1 = tasks s -> reservations s1 = reservations s -> conns s1 = conns s -> fresh s <= fresh s1 -> Forall calm acts ->
  (forall id x, sessions s !! id = Some x -> exists x', sessions s1 !! id = Some x' /\ handle x' = handle x
      /\ settled (state x') = settled (state x) /\ (handle x <> None -> connectedish x -> connectedish x')) ->
  (forall id, sessions s !! id = None -> sessions s1 !! id = None) -> inv (spawn acts s1).
Proof.
  intros Hinv T1 T2 T3 T4 Hacts Hs Hn. unfold spawn.
  assert (Hnil : task s (fresh s1) = []) by (by apply (iv_tasks _ Hinv)).
  apply (quiet_step s); try done; cbn [sessions reservations conns take_fresh fresh]; try lia.
  - by apply shaped_calm.
  - intros id. rewrite Hnil. apply alike_other; rewrite ?Exists_nil; [tauto|].
    split_and!; (intros H; eapply (calm_none _ _ Hacts); [|exact H]; eauto).
  - intros h. rewrite Hnil, Exists_nil. split; [|done]. intros H. eapply (calm_none _ _ Hacts); [|exact H]; eauto.
  - intros h. rewrite Hnil, Exists_nil. split; [|done]. intros H. eapply (calm_none _ _ Hacts); [|exact H]; eauto.
  - intros id. by rewrite T2.
Qed.

(** A call that starts, creates or removes one profile at rest. *)
Lemma spawn_local s s1 acts id :
  inv s -> tasks s1 = tasks s -> reservations s1 = reservations s -> conns s1 = conns s -> fresh s <= fresh s1 ->
  shaped acts -> (forall id', id' <> id -> sessions s1 !! id' = sessions s !! id') ->
  (x ← sessions s1 !! id; handle x) = (x ← sessions s !! id; handle x) ->
  (forall id', id' <> id -> ~ Exists (tries id') acts) -> (forall id', ~ Exists (releases id') acts /\ ~ Exists (resets id') acts /\ ~ Exists (dials id') acts) ->
  (forall h, ~ Exists (installs h) acts /\ ~ Exists (closes h) acts) ->
  phase_ok (spawn acts s1) id -> inv (spawn acts s1).
Proof.
  intros Hinv T1 T2 T3 T4 Hsh Hs Hh Ht Ho Hc Hph. unfold spawn in *.
  assert (Hnil : task s (fresh s1) = []) by (by apply (iv_tasks _ Hinv)).
  apply (phase_step s (take_fresh s1) (fresh s1) acts id); try done; cbn [sessions reservations conns take_fresh fresh]; try lia.
  - intros id' Hne. rewrite T2. split; [|by rewrite Hs]. rewrite Hnil. apply alike_other; rewrite ?Exists_nil; [tauto|].
    destruct (Ho id') as (? & ? & ?). split_and!; [by apply Ht|done|done|done].
  - intros id' x h _ _ _. rewrite T3, Hnil. split_and!; [done|by intros ?%Exists_nil|by left].
  - apply (conns_frame s _ (fresh s1)); [apply Hinv| | | | | |done|cbn; lia].
    + intros t' Hne. rewrite task_put, decide_False by done. unfold task. cbn. by rewrite T1.
    + intros h. rewrite task_put, decide_True, Hnil, Exists_nil by done. by destruct (Hc h).
    + intros h. rewrite task_put, decide_True, Hnil, Exists_nil by done. by destruct (Hc h).
    + intros id'. by rewrite Hnil, Exists_nil.
    + intros id'. cbn [sessions put_task set_tasks take_fresh]. destruct (decide (id' = id)) as [->|Hne]; [done|by rewrite Hs].
Qed.

Lemma spawn_task s s1 acts t :
  inv s -> tasks s1 = tasks s -> fresh s <= fresh s1 ->
  task (spawn acts s1) t = (if decide (t = fresh s1) then acts else task s t) /\ task s (fresh s1) = [].
Proof.
  intros Hinv T1 Hf. unfold spawn. rewrite task_put. unfold task at 1. cbn [tasks take_fresh]. rewrite T1. split; [done|].
  by apply (iv_tasks _ Hinv).
Qed.

Lemma connect_inv s id x :
  inv s -> sessions s !! id = Some x -> settled (state x) = true -> ~ pending (releases id) s ->
  inv (spawn [APublish id; AStart id (profile x)] (with_session id to_connecting s)).
Proof.
  intros Hinv Hx Hst Hnr. pose proof (iv_phase _ Hinv id) as [P1 P2 P3 P4 P5]. set (s1 := with_session _ _ s).
  assert (Hnob : forall t, ~ obliged id (task s t)).
  { intros t [H|[H|H]].
    - destruct (P3 t H) as (Htr & _). destruct (Htr x Hx). congruence.
    - apply Hnr. by exists t.
    - destruct (P2 t H) as (y & h & Hy & _ & Hc & _). rewrite Hx in Hy. injection Hy as <-. by destruct Hc as [E|E]; rewrite E in Hst. }
  specialize (P5 Hnob). rewrite Hx in P5.
  assert (Hrest : handle x = None /\ reservations s !! id = None).
  { destruct (handle x) as [h|]; [|tauto]. destruct P5 as ([E|E] & _); by rewrite E in Hst. }
  destruct Hrest as [Hh Hres].
  assert (Hx1 : sessions s1 !! id = Some (to_connecting x)) by (cbn; by rewrite lookup_alter_eq, Hx).
  assert (Htask : forall t, task (spawn [APublish id; AStart id (profile x)] s1) t
      = if decide (t = fresh s1) then [APublish id; AStart id (profile x)] else task s t)
    by (intros t; by apply (spawn_task s)).
  assert (Hob' : forall t, obliged id (task (spawn [APublish id; AStart id (profile x)] s1) t) -> t = fresh s1).
  { intros t. rewrite Htask. case_decide as Hd; [done|]. intros H. by destruct (Hnob t). }
  apply (spawn_local s s1 _ id); try done.
  - apply shaped_more; [done|]. by apply (shaped_try _ id).
  - intros id' Hne. cbn. by rewrite lookup_alter_ne.
  - by rewrite Hx1, Hx.
  - intros id' Hne. rewrite !Exists_cons, Exists_nil. unfold tries. simpl. intuition congruence.
  - intros id'. split_and!; (intros [H|[H|H%Exists_nil]%Exists_cons]%Exists_cons; done).
  - intros h. split_and!; (intros [H|[H|H%Exists_nil]%Exists_cons]%Exists_cons; done).
  - constructor; cbn [sessions reservations conns spawn put_task set_tasks take_fresh].
    + intros t1 t2 H1%Hob' H2%Hob'. congruence.
    + intros t H. assert (t = fresh s1) as -> by (apply Hob'; by right; right). rewrite Htask, decide_True in H by done.
      by apply Exists_cons in H as [H|[H|H%Exists_nil]%Exists_cons].
    + intros t H. rewrite Hx1. change (reservations s1) with (reservations s). rewrite Hres. split_and!; [intros y [= <-]; cbn; by rewrite Hh|by intros []|].
      assert (t = fresh s1) as -> by (apply Hob'; by left). rewrite Htask, decide_True by done.
      intros [H'|[H'|H'%Exists_nil]%Exists_cons]%Exists_cons; done.
    + intros t H. assert (t = fresh s1) as -> by (apply Hob'; by right; left). rewrite Htask, decide_True in H by done.
      by apply Exists_cons in H as [H|[H|H%Exists_nil]%Exists_cons].
    + intros Hno. destruct (Hno (fresh s1)). left. rewrite Htask, decide_True by done. by right; left.
Qed.

Lemma remove_inv s id x :
  inv s -> sessions s !! id = Some x -> handle x = None ->
  inv (spawn [APersist] (set_cancelled ({[cancel x]} ∪ cancelled s) (set_sessions (delete id (sessions s)) s))).
Proof.
  intros Hinv Hx Hh. pose proof (iv_phase _ Hinv id) as [P1 P2 P3 P4 P5]. set (s1 := set_cancelled _ _).
  assert (Hx1 : sessions s1 !! id = None) by (cbn; by rewrite lookup_delete_eq).
  assert (Htask : forall t, task (spawn [APersist] s1) t = if decide (t = fresh s1) then [APersist] else task s t) by (intros t; by apply (spawn_task s)).
  assert (Hev : forall P t, (forall a, P a -> plain a = false) -> Exists P (task (spawn [APersist] s1) t) -> Exists P (task s t)).
  { intros P t HP. rewrite Htask. case_decide as Hd; [|done]. intros [H%HP|H%Exists_nil]%Exists_cons; done. }
  assert (Hek : forall P t, Exists P (task s t) -> Exists P (task (spawn [APersist] s1) t)).
  { intros P t H. rewrite Htask, decide_False; [done|]. intros ->. rewrite (iv_tasks _ Hinv) in H by (cbn; lia). by apply Exists_nil in H. }
  assert (Hob : forall t, obliged id (task (spawn [APersist] s1) t) -> obliged id (task s t)).
  { intros t [H|[H|H]]; [left|right; left|right; right]; (eapply Hev; [|exact H]; eauto). }
  apply (spawn_local s s1 _ id); try done.
  - intros id' Hne. cbn. by rewrite lookup_delete_ne.
  - rewrite Hx1, Hx. by symmetry.
  - intros id' Hne. by intros [H|H%Exists_nil]%Exists_cons.
  - intros id'. split_and!; by intros [H|H%Exists_nil]%Exists_cons.
  - intros h. split_and!; by intros [H|H%Exists_nil]%Exists_cons.
  - constructor; cbn [sessions reservations conns spawn put_task set_tasks take_fresh].
    + intros t1 t2 H1%Hob H2%Hob. by apply P1.
    + intros t H. destruct (P2 t) as (y & h & Hy & Hyh & _); [eapply Hev; [|exact H]; eauto|]. rewrite Hx in Hy. injection Hy as <-. congruence.
    + intros t H. destruct (P3 t) as (_ & P3' & P3''); [eapply Hev; [|exact H]; eauto|]. rewrite Hx1. split_and!; [done| |].
      * intros Hr. destruct (P3' Hr); [left|right]; by apply Hek.
      * intros Hd. apply P3''. eapply Hev; [|exact Hd]; eauto.
    + intros t _ _ _ y. by rewrite Hx1.
    + intros Hno. rewrite Hx1. change (reservations s1) with (reservations s).
      assert (Hno' : forall t, ~ obliged id (task s t)).
      { intros t [H|[H|H]]; destruct (Hno t); [left|right; left|right; right]; by apply Hek. }
      specialize (P5 Hno'). rewrite Hx, Hh in P5. tauto.
Qed.

Lemma add_inv s p :
  inv s -> sessions s !! pf_ID p = None -> ~ pending (tries (pf_ID p)) s -> ~ pending (releases (pf_ID p)) s ->
  inv (spawn [APersist] (take_fresh (set_sessions (<[pf_ID p := newSession p (fresh s)]> (sessions s)) s))).
Proof.
  intros Hinv Hx Hnt Hnr. set (id := pf_ID p) in *. pose proof (iv_phase _ Hinv id) as [P1 P2 P3 P4 P5]. set (s1 := take_fresh _).
  assert (Hnob : forall t, ~ obliged id (task s t)).
  { intros t [H|[H|H]]; [apply Hnt; by exists t|apply Hnr; by exists t|]. destruct (P2 t H) as (y & h & Hy & _). congruence. }
  specialize (P5 Hnob). rewrite Hx in P5.
  assert (Hx1 : sessions s1 !! id = Some (newSession p (fresh s))) by (cbn; by rewrite lookup_insert_eq).
  assert (Htask : forall t, task (spawn [APersist] s1) t = if decide (t = fresh s1) then [APersist] else task s t) by (intros t; apply (spawn_task s); cbn; done || lia).
  assert (Hno : forall t, ~ obliged id (task (spawn [APersist] s1) t)).
  { intros t. rewrite Htask. case_decide as Hd; [|apply Hnob].
    unfold obliged. rewrite !Exists_cons, !Exists_nil. by intros [[?|?]|[[?|?]|[?|?]]]. }
  apply (spawn_local s s1 _ id); try done; [cbn; lia| | | | | |].
  - intros id' Hne. cbn. by rewrite lookup_insert_ne.
  - by rewrite Hx1, Hx.
  - intros id' Hne. by intros [H|H%Exists_nil]%Exists_cons.
  - intros id'. split_and!; by intros [H|H%Exists_nil]%Exists_cons.
  - intros h. split_and!; by intros [H|H%Exists_nil]%Exists_cons.
  - constructor; cbn [sessions reservations conns spawn put_task set_tasks take_fresh].
    + intros t1 t2 H. by destruct (Hno t1).
    + intros t H. destruct (Hno t). by right; right.
    + intros t H. destruct (Hno t). by left.
    + intros t H. destruct (Hno t). by right; left.
    + intros _. by rewrite Hx1.
Qed.

Lemma same_sessions s s1 : sessions s1 = sessions s ->
  (forall id x, sessions s !! id = Some x -> exists x', sessions s1 !! id = Some x' /\ handle x' = handle x
      /\ settled (state x') = settled (state x) /\ (handle x <> None -> connectedish x -> connectedish x')) /\
  (forall id, sessions s !! id = None -> sessions s1 !! id = None).
Proof. intros ->. split; [|done]. intros id x Hx. by exists x. Qed.

Lemma altered_sessions s s1 f id : sessions s1 = alter f id (sessions s) ->
  (forall x, sessions s !! id = Some x -> handle (f x) = handle x /\ settled (state (f x)) = settled (state x)
      /\ (handle x <> None -> connectedish x -> connectedish (f x))) ->
  (forall id x, sessions s !! id = Some x -> exists x', sessions s1 !! id = Some x' /\ handle x' = handle x
      /\ settled (state x') = settled (state x) /\ (handle x <> None -> connectedish x -> connectedish x')) /\
  (forall id, sessions s !! id = None -> sessions s1 !! id = None).
Proof.
  intros -> Hf. split.
  - intros id' x Hx. destruct (decide (id' = id)) as [->|Hne]; [|exists x; by rewrite lookup_alter_ne].
    rewrite lookup_alter_eq, Hx. exists (f x). destruct (Hf x Hx) as (? & ? & ?). done.
  - intros id' Hx. destruct (decide (id' = id)) as [->|Hne]; [by rewrite lookup_alter_eq, Hx|by rewrite lookup_alter_ne].
Qed.

Lemma call_inv order c s acts s1 :
  inv s -> orderly (LCall order c) s -> do_call order c s = Ok (acts, s1) -> inv (spawn acts s1).
Proof.
  intros Hinv Hord. destruct c; cbn [do_call orderly] in *.
  - unfold Connect. destruct (sessions s !! id) as [x|] eqn:Hx; [|done]. destruct (settled (state x)) eqn:Hs; [|done].
    intros [= <- <-]. by apply connect_inv.
  - unfold Disconnect. destruct (sessions s !! id) as [x|] eqn:Hx; [|done]. destruct (handle x) as [h|] eqn:Hh; [|done].
    intros [= <- <-]. unfold spawn. assert (Hnil : task s (fresh s) = []) by (by apply (iv_tasks _ Hinv)).
    apply (disconnect_inv s _ _ id x h []); try done; cbn; try lia. by rewrite Hnil.
  - unfold ClearError. destruct (sessions s !! id) as [x|] eqn:Hx; [|done]. case_bool_decide as Hs; [|done]. intros [= <- <-].
    destruct (altered_sessions s (with_session id clear_error s) clear_error id eq_refl) as [A1 A2].
    { intros y Hy. rewrite Hx in Hy. injection Hy as <-. rewrite Hs. split_and!; [done|done|]. intros _ [E|E]; by rewrite Hs in E. }
    apply (spawn_quiet s); try done; try (cbn; lia). by constructor.
  - unfold AnswerTrust. destruct (sessions s !! id) as [x|]; [|done]. destruct (trustReply x); [|done]. case_bool_decide; [|done].
    intros [= <- <-]. destruct (same_sessions s s eq_refl). apply (spawn_quiet s); try done; try lia. by constructor.
  - unfold AnswerPassphrase. destruct (sessions s !! id) as [x|]; [|done]. destruct (passphraseReply x); [|done]. case_bool_decide; [|done].
    intros [= <- <-]. destruct (same_sessions s s eq_refl). apply (spawn_quiet s); try done; try lia. by constructor.
  - unfold ReplaceListener. destruct (sessions s !! id) as [x|]; [|done]. destruct (handle x); [|done].
    intros [= <- <-]. destruct (same_sessions s s eq_refl). apply (spawn_quiet s); try done; try lia. by constructor.
  - unfold AddProfile. cbv zeta. case_bool_decide as Hx; [done|]. intros [= <- <-]. apply add_inv; [done| |apply Hord|apply Hord]. by apply eq_None_not_Some.
  - unfold UpdateProfile. case_bool_decide as Hx; [|done]. intros [= <- <-].
    destruct (altered_sessions s (with_session (pf_ID p) (with_profile p) s) (with_profile p) (pf_ID p) eq_refl) as [A1 A2]; [done|].
    apply (spawn_quiet s); try done; try (cbn; lia). by constructor.
  - unfold RemoveProfile. destruct (sessions s !! id) as [x|] eqn:Hx; [|done]. destruct (handle x) eqn:Hh; [done|]. intros [= <- <-].
    by apply remove_inv.
  - intros [= <- <-]. destruct (same_sessions s (set_settings x s) eq_refl). apply (spawn_quiet s); try done; try (cbn; lia). by constructor.
  - intros [= <- <-]. eapply (spawn_quiet s); try done; try (cbn; lia); [by constructor|]. intros id x Hx. by exists x.
  - intros [= <- <-]. eapply (spawn_quiet s); try done; try (cbn; lia). intros id x Hx. by exists x.
  - intros [= <- <-]. eapply (spawn_quiet s); try done; try (cbn; lia). intros id x Hx. by exists x.
  - intros [= <- <-]. eapply (spawn_quiet s); try done; try (cbn; lia). intros id x Hx. by exists x.
  - intros [= <- <-]. eapply (spawn_quiet s); try done; try (cbn; lia); [|intros id x Hx; by exists x].
    unfold Close. apply Forall_fmap. by apply Forall_true.
Qed.

Lemma event_inv id e s : inv s -> let '(acts, s1) := handleEvent id e s in inv (spawn acts s1).
Proof.
  intros Hinv. unfold handleEvent.
  assert (Hnone : inv (spawn [] s)) by (destruct (same_sessions s s eq_refl); apply (spawn_quiet s); try done; lia).
  destruct (sessions s !! id) as [x|] eqn:Hx; [|done].
  assert (Hgo : (state x = StateConnecting \/ state x = StateConnected \/ state x = StateReconnecting) ->
      forall st er, st = StateConnected \/ st = StateReconnecting -> inv (spawn [APublish id] (with_session id (with_state st er) s))).
  { intros Hs st er Hst. destruct (altered_sessions s (with_session id (with_state st er) s) (with_state st er) id eq_refl) as [A1 A2].
    { intros y Hy. rewrite Hx in Hy. injection Hy as <-. split_and!; [done| |intros _ _; exact Hst].
      destruct Hst as [-> | ->], Hs as [-> |[-> | ->]]; done. }
    apply (spawn_quiet s); try done; try (cbn; lia). by constructor. }
  destruct (state x); try done; destruct e; apply Hgo; auto.
Qed.

(** *** The other actions *)
Lemma alter_is_Some {A} (m : gmap string A) f (i j : string) : is_Some (alter f i m !! j) <-> is_Some (m !! j).
Proof. destruct (decide (j = i)) as [->|Hne]; [by rewrite lookup_alter_eq, fmap_is_Some|by rewrite lookup_alter_ne]. Qed.

Lemma quiet_head s t a rest s1 acts :
  inv s -> task s t = a :: rest -> plain a -> Forall plain acts ->
  tasks s1 = tasks s -> sessions s1 = sessions s -> conns s1 = conns s -> fresh s1 = fresh s ->
  (forall id, is_Some (reservations s1 !! id) <-> is_Some (reservations s !! id)) -> inv (put_task t (acts ++ rest) s1).
Proof.
  intros Hinv Ht Ha Hacts T1 T2 T3 T4 T5. pose proof (task_bound _ _ _ _ Hinv Ht) as Hlt.
  pose proof (iv_shape _ Hinv t) as Hsh. rewrite Ht in Hsh. destruct Hsh as [Hsh _].
  assert (HP : forall P : action -> Prop, (forall a, P a -> plain a = false) -> Exists P (task s t) <-> Exists P (acts ++ rest)).
  { intros P HP. rewrite Ht, Exists_cons, Exists_app. pose proof (plain_none P acts Hacts HP) as Hn.
    assert (~ P a) by (intros Hpa%HP; by rewrite Hpa in Ha). tauto. }
  destruct (same_sessions s s1 T2) as [S1 S2].
  apply (quiet_step s); try done; try lia.
  - clear -Hacts Hsh. induction Hacts; [done|]. by apply shaped_more.
  - intros id. unfold alike. rewrite !HP by eauto. done.
  - intros h. symmetry. apply HP. eauto.
  - intros h. symmetry. apply HP. eauto.
Qed.

Lemma disconnect_head s t rest id :
  inv s -> task s t = ADisconnect id :: rest -> ~ pending (resets id) s ->
  let '(acts, s1) := match Disconnect id s with Ok r => r | Err _ => ([], s) end in inv (put_task t (acts ++ rest) s1).
Proof.
  intros Hinv Ht Hnr. pose proof (iv_shape _ Hinv t) as Hsh. rewrite Ht in Hsh. destruct Hsh as [Hsh Hcalm].
  pose proof (task_bound _ _ _ _ Hinv Ht) as Hlt. destruct (same_sessions s s eq_refl) as [S1 S2].
  assert (Hold : Forall calm (task s t)) by (rewrite Ht; by constructor).
  assert (Hgo : inv (put_task t ([] ++ rest) s)).
  { cbn [app]. apply (quiet_step s); try done.
    - intros id'. apply alike_other; split_and!; (intros H; (eapply (calm_none _ _ Hold); [|exact H]) || (eapply (calm_none _ _ Hcalm); [|exact H]); eauto).
    - intros h. split; (intros H; exfalso; (eapply (calm_none _ _ Hold); [|exact H]) || (eapply (calm_none _ _ Hcalm); [|exact H]); eauto).
    - intros h. split; (intros H; exfalso; (eapply (calm_none _ _ Hold); [|exact H]) || (eapply (calm_none _ _ Hcalm); [|exact H]); eauto). }
  unfold Disconnect. destruct (sessions s !! id) as [x|] eqn:Hx; [|done]. destruct (handle x) as [h|] eqn:Hh; [|done].
  by apply (disconnect_inv s s t id x h).
Qed.

Lemma exec_inv s t a rest c acts s1 :
  inv s -> task s t = a :: rest -> orderly (LStep t c) s -> exec a c s = Some (acts, s1) -> inv (put_task t (acts ++ rest) s1).
Proof.
  intros Hinv Ht Hord. cbn [orderly] in Hord. rewrite Ht in Hord.
  assert (Hq : forall s1 acts, plain a -> Forall plain acts -> tasks s1 = tasks s -> sessions s1 = sessions s -> conns s1 = conns s -> fresh s1 = fresh s ->
    (forall id, is_Some (reservations s1 !! id) <-> is_Some (reservations s !! id)) -> inv (put_task t (acts ++ rest) s1)).
  { intros s2 acts2. by apply (quiet_head s t a). }
  destruct a; cbn [exec].
  - by apply starting_inv.
  - intros [= E]. pose proof (ask_passphrase_inv s t rest id p key Hinv Ht) as H. by rewrite E in H.
  - by eapply wait_passphrase_inv.
  - by eapply unlock_inv.
  - intros [= <- <-]. by apply resume_inv.
  - by apply options_inv.
  - intros [= E]. pose proof (reserve_inv s t rest id p again Hinv Ht) as H. by rewrite E in H.
  - by eapply dial_inv.
  - intros [= E]. pose proof (ask_trust_inv s t rest id p fp Hinv Ht) as H. by rewrite E in H.
  - by eapply wait_trust_inv.
  - by apply trust_server_inv.
  - intros [= E]. pose proof (install_inv s t rest id h Hinv Ht) as H. by rewrite E in H.
  - destruct c; try done. intros [= <- <-]. apply Hq; try done. intros id'. apply alter_is_Some.
  - intros [= <- <-]. by apply failed_inv.
  - intros [= <- <-]. by apply release_inv.
  - intros [= <- <-]. apply Hq; try done. unfold publish. destruct (sessions s !! id); by repeat constructor.
  - intros [= <- <-]. by apply Hq.
  - intros [= <- <-]. by apply Hq.
  - intros [= <- <-]. by apply close_inv.
  - intros [= <- <-]. by apply reset_inv.
  - intros [= E]. pose proof (disconnect_head s t rest id Hinv Ht Hord) as H. destruct (match Disconnect id s with Ok r => r | Err _ => _ end).
    by injection E as -> ->.
  - destruct c as [| | | | | | | | | | |[addr|e]|]; try done; intros [= <- <-]; apply Hq; try done. by repeat constructor.
  - intros [= <- <-]. apply Hq; try done. intros id'. apply alter_is_Some.
  - intros [= <- <-]. apply Hq; try done; by destruct (replies s !! ch).
  - unfold persist. destruct (persisting s); [done|]. intros [= <- <-]. apply Hq; try done. by repeat constructor.
  - unfold save. destruct c as [| | | | | | | | | | | |[]]; try done; intros [= <- <-]; by apply Hq.
Qed.

Lemma receive_inv s x n : inv s -> inv (set_subs x n s).
Proof. intros [I1 I2 I3 I4]. constructor; [exact I1| |destruct I3; by constructor|exact I4]. intros id. destruct (I2 id). by constructor. Qed.

Lemma label_inv l s s1 : inv s -> orderly l s -> step l s = Some s1 -> inv s1.
Proof.
  intros Hinv Hord. destruct l as [order c|t c|id e|n]; cbn [step].
  - destruct (do_call order c s) as [[acts s2]|] eqn:E; intros [= <-]; [|done]. by eapply call_inv.
  - destruct (tasks s !! t) as [[|a rest]|] eqn:Ht; try done.
    destruct (exec a c s) as [[acts s2]|] eqn:E; [|done]. intros [= <-].
    eapply exec_inv; [done| |done|done]. unfold task. by rewrite Ht.
  - pose proof (event_inv id e s Hinv) as H. destruct (handleEvent id e s). by intros [= <-].
  - destruct (subs s !! n) as [[|u q]|]; try done. intros [= <-]. by apply receive_inv.
Qed.

(** ** Runs *)
Fixpoint run_orderly (ls : list label) (s : sys) : Prop :=
  match ls with
  | [] => True
  | l :: ls => orderly l s /\ match step l s with Some s => run_orderly ls s | None => True end
  end.

Lemma run_ok ls s s1 : inv s -> run_orderly ls s -> run ls s = Some s1 -> inv s1.
Proof.
  revert s. induction ls as [|l ls IH]; intros s Hinv; cbn [run run_orderly]; [by intros _ [= <-]|].
  intros [Hl Hls]. destruct (step l s) as [s2|] eqn:E; [|done]. cbn. intros Hr. apply (IH s2); [by apply (label_inv l s)|done|done].
Qed.

(** At the start there are only profiles at rest. *)
Definition resting (s : sys) : Prop :=
  tasks s = ∅ /\ reservations s = ∅ /\ conns s = ∅ /\ persisting s = false /\ forall id x, sessions s !! id = Some x -> settled (state x) = true /\ handle x = None.

Lemma load_resting ps s : resting s -> resting (foldl load_session s ps).
Proof.
  revert s. induction ps as [|p ps IH]; intros s Hs; [done|]. cbn [foldl]. apply IH. destruct Hs as (H1 & H2 & H3 & H4 & H5).
  split_and!; [done|done|done|done|]. intros id x. cbn. rewrite lookup_insert_Some. intros [[_ <-]|[_ Hx]]; [done|by apply (H5 id)].
Qed.

Lemma new_resting c : resting (New c).
Proof. apply load_resting. split_and!; [done..|]. intros id x Hx. cbn in Hx. by apply lookup_empty_Some in Hx. Qed.

Lemma inv_resting s : resting s -> inv s.
Proof.
  intros (H1 & H2 & H3 & _ & H4). assert (Ht : forall t, task s t = []) by (intros t; unfold task; by rewrite H1).
  assert (HE : forall P t, ~ Exists P (task s t)) by (intros P t; rewrite Ht; by intros ?%Exists_nil).
  assert (HP : forall P, ~ pending P s) by (intros P [t H]; by apply HE in H).
  constructor; [by intros t; rewrite Ht| | |by intros t _].
  - intros id. constructor.
    + intros t1 t2 [H|[H|H]]; by apply HE in H.
    + intros t H. by apply HE in H.
    + intros t H. by apply HE in H.
    + intros t H. by apply HE in H.
    + intros _. rewrite H2. destruct (sessions s !! id) as [x|] eqn:Hx; [|done]. destruct (H4 _ _ Hx) as [? ->]. done.
  - constructor.
    + intros h. rewrite H3. set_solver.
    + intros id1 x1 id2 x2 h Hx1 _ Hh _. destruct (H4 _ _ Hx1). congruence.
    + intros t h H. by apply HE in H.
    + intros t h id x H. by apply HE in H.
    + intros h [H|[H|(id & x & Hx & Hh)]]; [set_solver|by apply HP in H|]. destruct (H4 _ _ Hx). congruence.
Qed.

Lemma new_inv c : inv (New c).
Proof. apply inv_resting, new_resting. Qed.

(** ** Connections have owners

    What the manager promises of its connections and reservations. *)
Definition well_kept (s : sys) : Prop :=
  (forall h, h ∈ conns s -> (exists id x, sessions s !! id = Some x /\ handle x = Some h) \/ pending (installs h) s \/ pending (closes h) s)
  /\ (forall id1 x1 id2 x2 h, sessions s !! id1 = Some x1 -> sessions s !! id2 = Some x2 -> handle x1 = Some h -> handle x2 = Some h -> id1 = id2)
  /\ (forall id x h, sessions s !! id = Some x -> handle x = Some h -> connectedish x)
  /\ (forall id t1 t2, Exists (tries id) (task s t1) -> Exists (tries id) (task s t2) -> t1 = t2).

(** Nothing is under way. *)
Definition settled_down (s : sys) : Prop :=
  (forall h, h ∈ conns s <-> exists id x, sessions s !! id = Some x /\ handle x = Some h)
  /\ (forall id, is_Some (reservations s !! id) <-> exists x h, sessions s !! id = Some x /\ handle x = Some h)
  /\ (forall id x, sessions s !! id = Some x -> handle x = None -> state x = StateIdle \/ state x = StateFailed).

Lemma handle_connected s id x h : inv s -> sessions s !! id = Some x -> handle x = Some h -> connectedish x.
Proof.
  intros Hinv Hx Hh. pose proof (iv_phase _ Hinv id) as [P1 P2 P3 P4 P5].
  assert (Hdec : connectedish x \/ ~ connectedish x) by (unfold connectedish; destruct (state x); tauto || (right; by intros [?|?])).
  destruct Hdec as [?|Hn]; [done|]. exfalso. apply Hn.
  assert (Hno : forall t, ~ obliged id (task s t)).
  { intros t Ho. assert (Hnt : ~ Exists (tries id) (task s t)).
    { intros Ht. destruct (P3 t Ht) as (Htr & _). destruct (Htr x Hx). congruence. }
    assert (Hnr : ~ Exists (resets id) (task s t)).
    { intros Ht. destruct (P2 t Ht) as (y & h' & Hy & _ & Hc & _). rewrite Hx in Hy. by injection Hy as <-. }
    destruct Ho as [?|[Ho|?]]; [done| |done]. destruct (P4 t Ho Hnt Hnr x Hx). congruence. }
  specialize (P5 Hno). rewrite Hx, Hh in P5. tauto.
Qed.

Lemma inv_well_kept s : inv s -> well_kept s.
Proof.
  intros Hinv. split_and!; [apply Hinv|apply Hinv| |].
  - intros id x h. by apply handle_connected.
  - intros id t1 t2 H1 H2. apply (ph_one _ _ (iv_phase _ Hinv id)); by left.
Qed.

(** Nothing is under way but publishing and saving. *)
Definition at_rest (s : sys) : Prop := forall t, Forall plain (task s t).

Lemma inv_settled_down s : inv s -> at_rest s -> settled_down s.
Proof.
  intros Hinv Hrest. assert (HE : forall P t, (forall a, P a -> plain a = false) -> ~ Exists P (task s t)) by (intros P t; by apply plain_none).
  assert (Hno : forall id t, ~ obliged id (task s t)) by (intros id t [H|[H|H]]; (eapply HE; [|exact H]; eauto)).
  assert (Hst : forall id x, sessions s !! id = Some x -> handle x = None -> settled (state x) = true /\ reservations s !! id = None).
  { intros id x Hx Hh. pose proof (ph_rest _ _ (iv_phase _ Hinv id) (Hno id)) as H. by rewrite Hx, Hh in H. }
  assert (Hco : forall id x h, sessions s !! id = Some x -> handle x = Some h -> is_Some (reservations s !! id) /\ h ∈ conns s).
  { intros id x h Hx Hh. pose proof (ph_rest _ _ (iv_phase _ Hinv id) (Hno id)) as H. rewrite Hx, Hh in H. tauto. }
  split_and!.
  - intros h. split.
    + intros Hh. destruct (cn_own _ (iv_conns _ Hinv) h Hh) as [?|[[t H]|[t H]]]; [done| |]; exfalso; (eapply HE; [|exact H]; eauto).
    + intros (id & x & Hx & Hh). by apply (Hco id x h).
  - intros id. split.
    + intros Hr. pose proof (ph_rest _ _ (iv_phase _ Hinv id) (Hno id)) as H. destruct (sessions s !! id) as [x|]; [|rewrite H in Hr; by destruct Hr].
      destruct (handle x) as [h|] eqn:Hh; [by exists x, h|]. destruct H as [_ H]. rewrite H in Hr. by destruct Hr.
    + intros (x & h & Hx & Hh). by apply (Hco id x h).
  - intros id x Hx Hh. destruct (Hst id x Hx Hh) as [H _]. destruct (state x); auto; done.
Qed.

(** C17: in every run in which a profile is not connected or disconnected
    while an earlier [Disconnect] of it is still at work, and none is added
    under an id whose earlier attempt or [Disconnect] is still at work, each
    open connection is one session's handle, is about to be installed by its
    attempt, or is about to be closed; no two sessions share one, a handle
    means connected or reconnecting, and a profile has one attempt at most.
    Once nothing is under way but publishing and saving, the open connections
    and the port reservations are exactly those of the sessions with a
    handle, and every other session is idle or failed. *)
Theorem connections_owned c ls s :
  run_orderly ls (New c) -> run ls (New c) = Some s -> well_kept s /\ (at_rest s -> settled_down s).
Proof.
  intros Hord Hrun. assert (Hinv : inv s) by (by apply (run_ok ls (New c)); [apply new_inv| |]).
  split; [by apply inv_well_kept|by apply inv_settled_down].
Qed.
(** ** Every task ends *)

(** How many steps an action leads to at most. *)
Definition weight (a : action) : nat :=
  match a with
  | AStart _ _ => 30
  | AAskPassphrase _ _ _ => 29
  | AWaitPassphrase _ _ _ _ _ => 25
  | AUnlock _ _ _ _ => 24
  | AOptions _ _ => 20
  | AReserve _ _ again => if again then 7 else 19
  | ADial _ _ again => if again then 6 else 18
  | AAskTrust _ _ _ => 16
  | AWaitTrust _ _ _ _ _ => 12
  | ATrustServer _ _ => 8
  | AInstall _ _ => 4
  | ADisconnect _ => 6
  | AReplace _ _ _ => 4
  | APublish _ | APersist => 2
  | _ => 1
  end.

Definition weights (l : list action) : nat := sum_list_with weight l.

Definition load (s : sys) : nat := sum_list_with (fun x => weights x.2) (map_to_list (tasks s)).

Lemma weights_app l l' : weights (l ++ l') = (weights l + weights l')%nat.
Proof. apply sum_list_with_app. Qed.

Lemma hook_weight s : (weights (hook_actions s) <= 1)%nat.
Proof. unfold hook_actions. by destruct (_ && _); cbn; lia. Qed.

(** What a step of a task does to the rest of the state. *)
Definition spends (s : sys) (a : action) (acts : list action) (s1 : sys) : Prop :=
  (weights acts < weight a)%nat /\ tasks s1 = tasks s /\ fresh s <= fresh s1
  /\ (persisting s1 = persisting s \/ a = APersist /\ (exists cfg, acts = [ASave cfg]) \/ persisting s1 = false).

Ltac spend := split; [cbn; lia|split; [done|split; [cbn; lia|by left]]].

Lemma ask_spends s a w acts s1 id b :
  weight a = (w + 4)%nat -> weight b = w -> tasks s1 = tasks s -> fresh s <= fresh s1 -> persisting s1 = persisting s ->
  (weights acts <= 1)%nat -> spends s a (APublish id :: acts ++ [b]) s1.
Proof.
  intros H1 H2 H3 H4 H5 H6. split; [|split; [done|split; [done|by left]]].
  change (2 + weights (acts ++ [b]) < weight a)%nat. rewrite weights_app, H1. cbn. lia.
Qed.

Lemma exec_spends a c s acts s1 : exec a c s = Some (acts, s1) -> spends s a acts s1.
Proof.
  destruct a; cbn [exec].
  - unfold start. destruct (_ || _); [intros [= <- <-]; spend|]. destruct c as [|[[]|e]| | | | | | | | | | |]; try done; intros [= <- <-]; spend.
  - unfold ask_for_passphrase. destruct (sessions s !! id); intros [= <- <-]; [|spend].
    apply (ask_spends _ _ 25); try done; [cbn; lia|apply hook_weight].
  - unfold wait_passphrase. destruct c; try done; [|case_bool_decide; [|done]|]; try (intros [= <- <-]; spend).
    destruct (replies s !! reply) as [[|pw []]|]; try done; intros [= <- <-]; spend.
  - unfold unlock. destruct c as [| | | | |[]| | | | | | |]; try done; intros [= <- <-]; spend.
  - intros [= <- <-]; spend.
  - unfold options. destruct c as [| | | | | |[e|]| | | | | |]; try done; intros [= <- <-]; spend.
  - unfold reserve, reservePorts. destruct (conflicting _ _ _), again; intros [= <- <-]; spend.
  - unfold dial. destruct c; try done; destruct again; intros [= <- <-]; spend.
  - unfold ask_for_trust. destruct (sessions s !! id); intros [= <- <-]; [|spend].
    apply (ask_spends _ _ 12); try done; [cbn; lia|apply hook_weight].
  - unfold wait_trust. destruct c; try done; [|case_bool_decide; [|done]|]; try (intros [= <- <-]; spend).
    destruct (replies s !! reply) as [[[]|]|]; try done; intros [= <- <-]; spend.
  - unfold trust_server. destruct c as [| | | | | |[e|]| | | | | |]; try done; intros [= <- <-]; spend.
  - unfold install. destruct (sessions s !! id); intros [= <- <-]; spend.
  - destruct c; try done; intros [= <- <-]; spend.
  - intros [= <- <-]; spend.
  - intros [= <- <-]; spend.
  - unfold publish. destruct (sessions s !! id); intros [= <- <-]; spend.
  - intros [= <- <-]; spend.
  - intros [= <- <-]; spend.
  - intros [= <- <-]; spend.
  - intros [= <- <-]; spend.
  - unfold Disconnect. destruct (sessions s !! id) as [x|]; [destruct (handle x)|]; intros [= <- <-]; spend.
  - destruct c as [| | | | | | | | | | |[addr|e]|]; try done; intros [= <- <-]; spend.
  - intros [= <- <-]; spend.
  - intros [= <- <-]. destruct (replies s !! ch); spend.
  - unfold persist. destruct (persisting s); [done|]. intros [= <- <-]. split; [cbn; lia|]. split; [done|]. split; [cbn; lia|]. right. left. split; [done|by eexists].
  - unfold save. destruct c as [| | | | | | | | | | | |[]]; try done; intros [= <- <-]; (split; [cbn; lia|]; split; [done|]; split; [cbn; lia|by right; right]).
Qed.

(** Some outcome lets every action go on, the file's lock apart. *)
Definition easy (a : action) : choice :=
  match a with
  | AStart _ _ => Needs (Ok false)
  | AWaitPassphrase _ _ _ _ _ | AWaitTrust _ _ _ _ _ => TimedOut
  | AUnlock _ _ _ _ => Unlocked true
  | AOptions _ _ | ATrustServer _ _ => Outcome None
  | ADial _ _ _ => DialError ""
  | AReconcile _ _ => TunnelsAre []
  | AReplace _ _ _ => Replaced (Err ""%string)
  | ASave _ => Saved true
  | _ => Go
  end.

Lemma exec_easy a s : a <> APersist \/ persisting s = false -> is_Some (exec a (easy a) s).
Proof.
  intros H. destruct a; cbn; try done.
  - unfold start. by destruct (_ || _).
  - unfold persist. by destruct H as [?| ->].
Qed.

(** The lock of the file is held by a task that is writing it. *)
Record locked (s : sys) : Prop := mkLocked {
  lk_holder : persisting s = true -> exists t cfg rest, tasks s !! t = Some (ASave cfg :: rest);
  lk_new : forall t, fresh s <= t -> tasks s !! t = None;
  lk_left : forall t, tasks s !! t <> Some [];
}.

Lemma put_lookup t l s t' : tasks (put_task t l s) !! t' = if decide (t' = t) then match l with [] => None | _ => Some l end else tasks s !! t'.
Proof.
  unfold put_task. cbn [tasks set_tasks]. case_decide as Hd; [subst; destruct l; [by rewrite lookup_delete_eq|by rewrite lookup_insert_eq]|].
  destruct l; [by rewrite lookup_delete_ne|by rewrite lookup_insert_ne].
Qed.

Lemma spawn_locked s s1 acts :
  locked s -> tasks s1 = tasks s -> persisting s1 = persisting s -> fresh s <= fresh s1 -> locked (spawn acts s1).
Proof.
  intros [L1 L2 L3] H1 H2 H3. constructor.
  - change (persisting (spawn acts s1)) with (persisting s1). rewrite H2. intros (t & cfg & rest & Ht)%L1. exists t, cfg, rest. unfold spawn. rewrite put_lookup, decide_False; [cbn; by rewrite H1|].
    intros ->. rewrite L2 in Ht by lia. done.
  - intros t. change (fresh (spawn acts s1)) with (fresh s1 + 1). intros Hle. unfold spawn. rewrite put_lookup, decide_False by lia. cbn. rewrite H1. apply L2. lia.
  - intros t. unfold spawn. rewrite put_lookup. case_decide; [by destruct acts|]. cbn. rewrite H1. apply L3.
Qed.

Lemma call_frame order c s acts s1 : do_call order c s = Ok (acts, s1) -> tasks s1 = tasks s /\ persisting s1 = persisting s /\ fresh s <= fresh s1.
Proof.
  destruct c; cbn [do_call]; unfold Connect, Disconnect, ClearError, AnswerTrust, AnswerPassphrase, ReplaceListener, AddProfile, UpdateProfile, RemoveProfile;
    repeat case_match; intros [= <- <-]; (split_and!; [done|done|cbn; lia]).
Qed.

Lemma step_locked l s s1 : locked s -> step l s = Some s1 -> locked s1.
Proof.
  intros Hl. destruct l as [order c|t c|id e|n]; cbn [step].
  - destruct (do_call order c s) as [[acts s2]|] eqn:E; intros [= <-]; [|done]. apply call_frame in E as (? & ? & ?). by apply (spawn_locked s).
  - destruct Hl as [L1 L2 L3]. destruct (tasks s !! t) as [[|a rest]|] eqn:Ht; try done.
    destruct (exec a c s) as [[acts s2]|] eqn:E; [|done]. intros [= <-]. pose proof (exec_spends _ _ _ _ _ E) as (_ & H1 & H2 & H3).
    assert (Hlt : t < fresh s) by (destruct (decide (t < fresh s)); [done|]; rewrite L2 in Ht by lia; done).
    constructor.
    + change (persisting (put_task t (acts ++ rest) s2)) with (persisting s2). intros Hp.
      destruct H3 as [H3|[(-> & cfg & ->)|H3]]; [|exists t, cfg, rest; by rewrite put_lookup, decide_True|congruence].
      rewrite H3 in Hp. destruct (L1 Hp) as (t' & cfg & rest' & Ht'). exists t', cfg, rest'. rewrite put_lookup, decide_False; [by rewrite H1|].
      intros ->. rewrite Ht in Ht'. injection Ht' as -> ->. cbn in E. unfold save in E.
      destruct c as [| | | | | | | | | | | |[]]; try done; injection E as <- <-; cbn in H3; congruence.
    + intros t'. change (fresh (put_task t (acts ++ rest) s2)) with (fresh s2). intros Hle. rewrite put_lookup, decide_False, H1 by lia. apply L2. lia.
    + intros t'. rewrite put_lookup. case_decide; [by destruct (acts ++ rest)|]. rewrite H1. apply L3.
  - unfold handleEvent. destruct (sessions s !! id) as [x|]; [destruct (state x)|]; intros [= <-]; (apply (spawn_locked s); [done|done|done|cbn; lia]).
  - destruct (subs s !! n) as [[|u q]|]; try done. intros [= <-]. destruct Hl as [L1 L2 L3]. by constructor.
Qed.

Lemma run_locked ls s s1 : locked s -> run ls s = Some s1 -> locked s1.
Proof.
  revert s. induction ls as [|l ls IH]; intros s Hl; cbn [run]; [by intros [= <-]|].
  destruct (step l s) as [s2|] eqn:E; [|done]. cbn. apply IH. by apply (step_locked l s).
Qed.

Lemma new_locked c : locked (New c).
Proof.
  destruct (new_resting c) as (Ht & _ & _ & Hp & _).
  constructor; [by rewrite Hp|intros t _; by rewrite Ht|intros t; by rewrite Ht].
Qed.

(** A step on a task takes some of the load. *)
Lemma load_put t l s : (load (put_task t l s) + weights (task s t) = load s + weights l)%nat.
Proof.
  assert (Hdel : forall m : gmap Z (list action), (sum_list_with (fun x => weights x.2) (map_to_list (delete t m)) + weights (default [] (m !! t))
      = sum_list_with (fun x => weights x.2) (map_to_list m))%nat).
  { intros m. destruct (m !! t) as [l0|] eqn:Ht.
    - rewrite <-(map_to_list_delete m t l0 Ht). cbn. lia.
    - rewrite delete_id by done. cbn. lia. }
  unfold load, task, put_task. cbn [tasks set_tasks]. destruct l as [|a l]; [rewrite Hdel; cbn; lia|].
  rewrite <-(insert_delete_eq (tasks s) t (a :: l)), map_to_list_insert by apply lookup_delete_eq. rewrite <-(Hdel (tasks s)). cbn. lia.
Qed.

Lemma step_load t c s s1 : step (LStep t c) s = Some s1 -> (load s1 < load s)%nat.
Proof.
  cbn [step]. destruct (tasks s !! t) as [[|a rest]|] eqn:Ht; try done.
  destruct (exec a c s) as [[acts s2]|] eqn:E; [|done]. intros [= <-]. pose proof (exec_spends _ _ _ _ _ E) as (Hw & H1 & _).
  pose proof (load_put t (acts ++ rest) s2) as H. unfold task in H. rewrite H1, Ht in H. cbn in H. unfold weights in *. rewrite sum_list_with_app in H.
  assert (load s2 = load s) by (unfold load; by rewrite H1). lia.
Qed.

Definition works (l : label) : bool := match l with LStep _ _ => true | _ => false end.

Lemma run_load ls s s1 : forallb works ls = true -> run ls s = Some s1 -> (length ls + load s1 <= load s)%nat.
Proof.
  revert s. induction ls as [|l ls IH]; intros s; cbn [run forallb length]; [intros _ [= <-]; lia|].
  intros [Hl Hls]%andb_true_iff. destruct (step l s) as [s2|] eqn:E; [|done]. cbn. intros Hr%IH; [|done].
  destruct l; try done. apply step_load in E. lia.
Qed.

Lemma locked_steps s : locked s -> tasks s <> ∅ -> exists t c s1, step (LStep t c) s = Some s1.
Proof.
  intros [L1 L2 L3] Hne. assert (Hgo : forall t a rest, tasks s !! t = Some (a :: rest) -> a <> APersist \/ persisting s = false -> exists t c s1, step (LStep t c) s = Some s1).
  { intros t a rest Ht Ha. destruct (exec_easy a s Ha) as [[acts s2] E]. exists t, (easy a). eexists. cbn. rewrite Ht. by rewrite E. }
  destruct (persisting s) eqn:Hp.
  - destruct (L1 eq_refl) as (t & cfg & rest & Ht). apply (Hgo t _ _ Ht). by left.
  - apply map_choose in Hne as (t & [|a rest] & Ht); [by destruct (L3 t)|]. apply (Hgo t _ _ Ht). by right.
Qed.

Lemma locked_ends n s : locked s -> (load s <= n)%nat -> exists ls s1, forallb works ls = true /\ run ls s = Some s1 /\ tasks s1 = ∅.
Proof.
  revert s. induction n as [|n IH]; intros s Hl Hn; (destruct (decide (tasks s = ∅)) as [He|He]; [exists [], s; done|]);
    destruct (locked_steps s Hl He) as (t & c & s1 & Hs); pose proof (step_load _ _ _ _ Hs); [lia|].
  destruct (IH s1) as (ls & s2 & H1 & H2 & H3); [by apply (step_locked (LStep t c) s)|lia|].
  exists (LStep t c :: ls), s2. split; [done|]. split; [|done]. cbn [run]. by rewrite Hs.
Qed.

(** C18: whatever has been called, no attempt and no call is stuck: while one
    is unfinished some critical section, prompt, connection or write can go
    on, each brings an end nearer, so from there at most [load s] of them
    happen without a new call, and there is a way on to the end of them
    all. *)
Theorem calls_finish c ls s :
  run ls (New c) = Some s ->
  (tasks s <> ∅ -> exists t ch s1, step (LStep t ch) s = Some s1)
  /\ (forall ls1 s1, forallb works ls1 = true -> run ls1 s = Some s1 -> (length ls1 <= load s)%nat)
  /\ exists ls1 s1, forallb works ls1 = true /\ run ls1 s = Some s1 /\ tasks s1 = ∅.
Proof.
  intros Hrun. assert (Hl : locked s) by (by apply (run_locked ls (New c)); [apply new_locked|]).
  split; [by apply locked_steps|]. split; [|by apply (locked_ends (load s))].
  intros ls1 s1 Hw Hr. pose proof (run_load ls1 s s1 Hw Hr). lia.
Qed.
(** ** What the file holds *)

(** A manager started with the file has the settings and the profiles. *)
Definition restores (c : Config) (s : sys) : Prop :=
  settings (New c) = settings s /\ profile <$> sessions (New c) = profile <$> sessions s.

Definition writes (a : action) : Prop := match a with ASave _ => True | _ => False end.

Record kept (s : sys) : Prop := mkKept {
  kp_ids : forall id p, (profile <$> sessions s) !! id = Some p -> pf_ID p = id;
  kp_tail : forall t, ~ Exists writes (tail (task s t));
  kp_lock : forall t cfg rest, task s t = ASave cfg :: rest -> persisting s = true;
  kp_one : forall t1 t2 c1 c2 r1 r2, task s t1 = ASave c1 :: r1 -> task s t2 = ASave c2 :: r2 -> t1 = t2;
  kp_writing : forall t cfg rest, task s t = ASave cfg :: rest -> pending (eq APersist) s \/ restores cfg s;
  kp_written : persisting s = false -> pending (eq APersist) s \/ unsaved s = true \/ restores (file s) s;
}.

(** The configuration and the state of its file. *)
Definition same_config (s s1 : sys) : Prop :=
  settings s1 = settings s /\ profile <$> sessions s1 = profile <$> sessions s /\ file s1 = file s /\ unsaved s1 = unsaved s
  /\ persisting s1 = persisting s.

Lemma profile_alter f id (m : gmap string session) : (forall x, profile (f x) = profile x) -> profile <$> alter f id m = profile <$> m.
Proof.
  intros Hf. apply map_eq. intros i. rewrite !lookup_fmap. destruct (decide (i = id)) as [->|Hne]; [|by rewrite lookup_alter_ne].
  rewrite lookup_alter_eq. destruct (m !! id); [|done]. cbn. by rewrite Hf.
Qed.

Lemma same_alter s s1 f id : (forall x, profile (f x) = profile x) -> sessions s1 = alter f id (sessions s) -> settings s1 = settings s ->
  file s1 = file s -> unsaved s1 = unsaved s -> persisting s1 = persisting s -> same_config s s1.
Proof. intros Hf Hs ? ? ? ?. split_and!; try done. rewrite Hs. by apply profile_alter. Qed.

Lemma no_writes l : Forall (fun a => ~ writes a) l -> ~ Exists writes l.
Proof. intros H. by apply Forall_not_Exists. Qed.

Lemma hook_no_writes s b : ~ writes b -> Forall (fun a => ~ writes a) (hook_actions s ++ [b]).
Proof. intros Hb. unfold hook_actions. destruct (_ && _); repeat constructor; by try intros []. Qed.

Ltac frame := split; [done|repeat constructor; by intros []].

Lemma exec_config a c s acts s1 : a <> APersist -> ~ writes a -> exec a c s = Some (acts, s1) ->
  same_config s s1 /\ Forall (fun a => ~ writes a) acts.
Proof.
  intros Ha Hw. destruct a; cbn [exec]; try done.
  - unfold start. destruct (_ || _); [intros [= <- <-]; frame|]. destruct c as [|[[]|e]| | | | | | | | | | |]; try done; intros [= <- <-]; frame.
  - unfold ask_for_passphrase. destruct (sessions s !! id); intros [= <- <-]; [|frame].
    split; [by apply (same_alter _ _ (ask_passphrase key (fresh s)) id)|]. constructor; [by intros []|]. apply hook_no_writes. by intros [].
  - unfold wait_passphrase. destruct c; try done; [|case_bool_decide; [|done]|]; try (intros [= <- <-]; frame).
    destruct (replies s !! reply) as [[|pw []]|]; try done; intros [= <- <-]; frame.
  - unfold unlock. destruct c as [| | | | |[]| | | | | | |]; try done; intros [= <- <-]; frame.
  - intros [= <- <-]. split; [|constructor]. by apply (same_alter _ _ (to_resumed trust) id).
  - unfold options. destruct c as [| | | | | |[e|]| | | | | |]; try done; intros [= <- <-]; frame.
  - unfold reserve, reservePorts. destruct (conflicting _ _ _), again; intros [= <- <-]; frame.
  - unfold dial. destruct c; try done; destruct again; intros [= <- <-]; frame.
  - unfold ask_for_trust. destruct (sessions s !! id); intros [= <- <-]; [|frame].
    split; [by apply (same_alter _ _ (ask_trust fp (fresh s)) id)|]. constructor; [by intros []|]. apply hook_no_writes. by intros [].
  - unfold wait_trust. destruct c; try done; [|case_bool_decide; [|done]|]; try (intros [= <- <-]; frame).
    destruct (replies s !! reply) as [[[]|]|]; try done; intros [= <- <-]; frame.
  - unfold trust_server. destruct c as [| | | | | |[e|]| | | | | |]; try done; intros [= <- <-]; frame.
  - unfold install. destruct (sessions s !! id); intros [= <- <-]; [|frame].
    split; [by apply (same_alter _ _ (to_connected h) id)|]. repeat constructor; by intros [].
  - destruct c; try done; intros [= <- <-]; frame.
  - intros [= <- <-]. split; [|constructor]. by apply (same_alter _ _ (to_failed e) id).
  - intros [= <- <-]; frame.
  - unfold publish. destruct (sessions s !! id); intros [= <- <-]; frame.
  - intros [= <- <-]; frame.
  - intros [= <- <-]; frame.
  - intros [= <- <-]; frame.
  - intros [= <- <-]. split; [|constructor]. by apply (same_alter _ _ to_idle id).
  - unfold Disconnect. destruct (sessions s !! id) as [x|]; [destruct (handle x)|]; intros [= <- <-]; frame.
  - destruct c as [| | | | | | | | | | |[addr|e]|]; try done; intros [= <- <-]; frame.
  - intros [= <- <-]; frame.
  - intros [= <- <-]. destruct (replies s !! ch); frame.
Qed.
(** *** A file read back *)
Lemma loaded_profiles ps s0 :
  profile <$> sessions (foldl load_session s0 ps) = foldl (fun m p => <[pf_ID p := p]> m) (profile <$> sessions s0) ps.
Proof. revert s0. induction ps as [|p ps IH]; intros s0; [done|]. cbn [foldl]. rewrite IH. f_equal. cbn. by rewrite fmap_insert. Qed.

Lemma loaded_settings ps s0 : settings (foldl load_session s0 ps) = settings s0.
Proof. revert s0. induction ps as [|p ps IH]; intros s0; [done|]. cbn [foldl]. by rewrite IH. Qed.

Lemma lookup_loaded ps (m : gmap string Profile) id p : NoDup (pf_ID <$> ps) ->
  foldl (fun m p => <[pf_ID p := p]> m) m ps !! id = Some p <-> p ∈ ps /\ pf_ID p = id \/ id ∉ pf_ID <$> ps /\ m !! id = Some p.
Proof.
  revert m. induction ps as [|q ps IH]; intros m Hnd; cbn [foldl].
  - split; [intros H; right; split; [apply not_elem_of_nil|done]|]. intros [[H _]|[_ H]]; [by apply not_elem_of_nil in H|done].
  - rewrite fmap_cons in Hnd |- *. apply NoDup_cons in Hnd as [Hq Hnd]. rewrite IH by done. rewrite lookup_insert_Some, not_elem_of_cons, elem_of_cons.
    split.
    + intros [[? ?]|[? [[<- <-]|[? ?]]]]; [tauto|tauto|]. right. split; [split; [congruence|done]|done].
    + intros [[[-> |?] <-]|[[? ?] ?]]; [right; split; [done|by left]|tauto|]. right. split; [done|]. right. split; [congruence|done].
Qed.

Lemma restores_config s : (forall id p, (profile <$> sessions s) !! id = Some p -> pf_ID p = id) -> restores (config_of s) s.
Proof.
  intros Hid. unfold restores, New. rewrite loaded_settings, loaded_profiles. split; [done|].
  assert (Hperm : profilesLocked s ≡ₚ profile <$> (map_to_list (sessions s)).*2) by apply merge_sort_Permutation.
  assert (Hkeys : pf_ID <$> (profile <$> (map_to_list (sessions s)).*2) = (map_to_list (sessions s)).*1).
  { rewrite <-!list_fmap_compose. apply list_fmap_ext. intros i [id x] Hx. cbn. apply Hid. rewrite lookup_fmap.
    apply list_elem_of_lookup_2 in Hx. apply elem_of_map_to_list in Hx. by rewrite Hx. }
  apply map_eq. intros id. apply option_eq. intros p. cbn [config_of cf_Profiles sessions].
  rewrite lookup_loaded by (rewrite Hperm, Hkeys; apply NoDup_fst_map_to_list).
  rewrite fmap_empty, lookup_empty, Hperm. split.
  - intros [[Hp <-]|[_ ?]]; [|done]. apply list_elem_of_fmap in Hp as (x & -> & Hx). apply list_elem_of_fmap in Hx as ([id x'] & -> & Hx).
    apply elem_of_map_to_list in Hx. cbn. rewrite lookup_fmap. rewrite (Hid id (profile x')) by (by rewrite lookup_fmap, Hx). by rewrite Hx.
  - intros Hp. left. split; [|by apply Hid]. rewrite lookup_fmap in Hp. destruct (sessions s !! id) as [x|] eqn:Hx; [|done]. injection Hp as <-.
    apply list_elem_of_fmap. exists x. split; [done|]. apply list_elem_of_fmap. exists (id, x). split; [done|]. by apply elem_of_map_to_list.
Qed.

(** *** The invariant is kept *)
Lemma restores_same c s s1 : same_config s s1 -> restores c s -> restores c s1.
Proof. intros (H1 & H2 & _) [R1 R2]. split; congruence. Qed.

Lemma pending_put P t l s : pending P (put_task t l s) <-> Exists P l \/ exists t', t' <> t /\ Exists P (task s t').
Proof.
  unfold pending. setoid_rewrite task_put. split.
  - intros [t' H]. destruct (decide (t' = t)); [by left|right; eauto].
  - intros [H|(t' & Hne & H)]; [exists t; by rewrite decide_True|exists t'; by rewrite decide_False].
Qed.

(** A task does something that is not about the file. *)
Lemma kept_put s s1 t l : kept s -> tasks s1 = tasks s -> same_config s s1 -> Forall (fun a => ~ writes a) l ->
  (Exists (eq APersist) (task s t) -> Exists (eq APersist) l) -> (forall cfg rest, task s t <> ASave cfg :: rest) -> kept (put_task t l s1).
Proof.
  intros [K1 K2 K3 K4 K5 K6] Ht Hsame Hl Hp Hnw. assert (Hput : forall t', task (put_task t l s1) t' = if decide (t' = t) then l else task s t').
  { intros t'. rewrite task_put. unfold task. by rewrite Ht. }
  pose proof Hsame as (S1 & S2 & S3 & S4 & S5).
  assert (Hl' : forall cfg rest, l <> ASave cfg :: rest) by (intros cfg rest ->; apply Forall_cons in Hl as [Hl _]; by apply Hl).
  assert (Hpend : pending (eq APersist) s -> pending (eq APersist) (put_task t l s1)).
  { intros [t' H]. rewrite pending_put. destruct (decide (t' = t)) as [->|Hne]; [left; auto|]. right. exists t'. unfold task. by rewrite Ht. }
  assert (Hold : forall t' cfg rest, task (put_task t l s1) t' = ASave cfg :: rest -> task s t' = ASave cfg :: rest).
  { intros t' cfg rest. rewrite Hput. case_decide; [by intros ?%Hl'|done]. }
  constructor.
  - cbn [sessions put_task set_tasks]. rewrite S2. apply K1.
  - intros t'. rewrite Hput. case_decide; [|apply K2]. apply no_writes. destruct l; [done|]. by apply Forall_cons in Hl as [_ Hl].
  - intros t' cfg rest H%Hold. cbn. rewrite S5. by eapply K3.
  - intros t1 t2 c1 c2 r1 r2 H1%Hold H2%Hold. by eapply K4.
  - intros t' cfg rest H%Hold. destruct (K5 _ _ _ H) as [?|Hr]; [left; auto|right]. by apply (restores_same _ s).
  - intros Hpe. cbn in Hpe. rewrite S5 in Hpe. destruct (K6 Hpe) as [?|[?|Hr]]; [left; auto|right; left; cbn; congruence|].
    right. right. change (file (put_task t l s1)) with (file s1). rewrite S3. by apply (restores_same _ s).
Qed.
(** A call changes the configuration and will save it. *)
Lemma kept_changed s s1 : kept s -> locked s -> tasks s1 = tasks s -> fresh s <= fresh s1 -> persisting s1 = persisting s ->
  (forall id p, (profile <$> sessions s1) !! id = Some p -> pf_ID p = id) -> kept (spawn [APersist] s1).
Proof.
  intros [K1 K2 K3 K4 K5 K6] [_ L2 _] H1 H2 H3 H4. unfold spawn. set (t := fresh s1).
  assert (Hput : forall t', task (put_task t [APersist] (take_fresh s1)) t' = if decide (t' = t) then [APersist] else task s t').
  { intros t'. rewrite task_put. unfold task. cbn. by rewrite H1. }
  assert (Hold : forall t' cfg rest, task (put_task t [APersist] (take_fresh s1)) t' = ASave cfg :: rest -> task s t' = ASave cfg :: rest).
  { intros t' cfg rest. rewrite Hput. by case_decide. }
  assert (Hpend : pending (eq APersist) (put_task t [APersist] (take_fresh s1))) by (rewrite pending_put; left; by left).
  constructor.
  - exact H4.
  - intros t'. rewrite Hput. case_decide; [by intros ?%Exists_nil|apply K2].
  - intros t' cfg rest H%Hold. cbn. rewrite H3. by eapply K3.
  - intros t1 t2 c1 c2 r1 r2 E1%Hold E2%Hold. by eapply K4.
  - intros; by left.
  - intros; by left.
Qed.

Lemma kept_spawn s s1 acts : kept s -> locked s -> tasks s1 = tasks s -> fresh s <= fresh s1 -> same_config s s1 ->
  Forall (fun a => ~ writes a) acts -> kept (spawn acts s1).
Proof.
  intros Hk Hl H1 H2 H3 H4. assert (Hnil : task s (fresh s1) = []) by (unfold task; by rewrite (lk_new _ Hl)).
  unfold spawn. apply (kept_put s); try done; rewrite Hnil; [by intros ?%Exists_nil|done].
Qed.

Lemma call_kept order c s acts s1 : kept s -> locked s -> do_call order c s = Ok (acts, s1) -> kept (spawn acts s1).
Proof.
  intros Hk Hl. pose proof (kp_ids _ Hk) as Hid.
  assert (Hsame : forall acts s1, tasks s1 = tasks s -> fresh s <= fresh s1 -> same_config s s1 -> Forall (fun a => ~ writes a) acts -> kept (spawn acts s1)).
  { intros acts' s2. by apply kept_spawn. }
  destruct c; cbn [do_call].
  - unfold Connect. destruct (sessions s !! id) as [x|]; [|done]. destruct (negb _); [done|]. intros [= <- <-].
    apply Hsame; [done|cbn; lia|by apply (same_alter _ _ to_connecting id)|repeat constructor; by intros []].
  - unfold Disconnect. destruct (sessions s !! id) as [x|]; [|done]. destruct (handle x); [|done]. intros [= <- <-].
    apply Hsame; [done|lia|done|repeat constructor; by intros []].
  - unfold ClearError. destruct (sessions s !! id) as [x|]; [|done]. case_bool_decide; [|done]. intros [= <- <-].
    apply Hsame; [done|cbn; lia|by apply (same_alter _ _ clear_error id)|repeat constructor; by intros []].
  - unfold AnswerTrust. destruct (sessions s !! id) as [x|]; [|done]. destruct (trustReply x); [|done]. case_bool_decide; [|done].
    intros [= <- <-]. apply Hsame; [done|lia|done|repeat constructor; by intros []].
  - unfold AnswerPassphrase. destruct (sessions s !! id) as [x|]; [|done]. destruct (passphraseReply x); [|done]. case_bool_decide; [|done].
    intros [= <- <-]. apply Hsame; [done|lia|done|repeat constructor; by intros []].
  - unfold ReplaceListener. destruct (sessions s !! id) as [x|]; [|done]. destruct (handle x); [|done].
    intros [= <- <-]. apply Hsame; [done|lia|done|repeat constructor; by intros []].
  - unfold AddProfile. cbv zeta. case_bool_decide; [done|]. intros [= <- <-]. apply (kept_changed s); [done|done|done|cbn; lia|done|].
    intros id q. cbn. rewrite fmap_insert. rewrite lookup_insert_Some. intros [[<- <-]|[_ Hq]]; [done|by apply Hid].
  - unfold UpdateProfile. case_bool_decide; [|done]. intros [= <- <-]. apply (kept_changed s); [done|done|done|cbn; lia|done|].
    intros id q. cbn. rewrite lookup_fmap. destruct (decide (id = pf_ID p)) as [->|Hne].
    + rewrite lookup_alter_eq. destruct (sessions s !! pf_ID p); [|done]. by intros [= <-].
    + rewrite lookup_alter_ne by done. intros Hq. apply Hid. by rewrite lookup_fmap.
  - unfold RemoveProfile. destruct (sessions s !! id) as [x|]; [|done]. destruct (handle x); [done|]. intros [= <- <-].
    apply (kept_changed s); [done|done|done|cbn; lia|done|]. intros id' q. cbn. rewrite fmap_delete, lookup_delete_Some. intros [_ Hq]. by apply Hid.
  - intros [= <- <-]. apply (kept_changed s); [done|done|done|cbn; lia|done|exact Hid].
  - intros [= <- <-]. apply (kept_changed s); [done|done|done|cbn; lia|done|exact Hid].
  - intros [= <- <-]. apply Hsame; [done|cbn; lia|done|constructor].
  - intros [= <- <-]. apply Hsame; [done|cbn; lia|done|constructor].
  - intros [= <- <-]. apply Hsame; [done|cbn; lia|done|constructor].
  - intros [= <- <-]. apply Hsame; [done|lia|done|]. unfold Close. apply Forall_fmap, Forall_true. by intros ? [].
Qed.

Lemma persist_kept s t rest acts s1 :
  kept s -> task s t = APersist :: rest -> persist s = Some (acts, s1) -> kept (put_task t (acts ++ rest) s1).
Proof.
  intros [K1 K2 K3 K4 K5 K6] Ht. unfold persist. destruct (persisting s) eqn:Hp; [done|]. intros [= <- <-]. cbn [app].
  set (s1 := set_file _ _ _ s). set (l := ASave (config_of s) :: rest).
  assert (Hput : forall t', task (put_task t l s1) t' = if decide (t' = t) then l else task s t') by (intros; by rewrite task_put).
  assert (Hno : forall t' cfg r, task s t' <> ASave cfg :: r) by (intros t' cfg r H; apply K3 in H; congruence).
  assert (Hnew : forall t' cfg r, task (put_task t l s1) t' = ASave cfg :: r -> t' = t /\ cfg = config_of s).
  { intros t' cfg r. rewrite Hput. case_decide; [by intros [= <- <-]|by intros ?%Hno]. }
  constructor.
  - exact K1.
  - intros t'. rewrite Hput. case_decide; [|apply K2]. specialize (K2 t). by rewrite Ht in K2.
  - done.
  - intros t1 t2 c1 c2 r1 r2 [-> _]%Hnew [-> _]%Hnew. done.
  - intros t' cfg r [_ ->]%Hnew. right. by apply (restores_config s).
  - done.
Qed.

Lemma save_kept s t cfg rest c acts s1 :
  kept s -> task s t = ASave cfg :: rest -> save cfg c s = Some (acts, s1) -> kept (put_task t (acts ++ rest) s1).
Proof.
  intros [K1 K2 K3 K4 K5 K6] Ht Hsave.
  assert (Hnw : ~ Exists writes rest) by (specialize (K2 t); by rewrite Ht in K2).
  assert (Hgo : forall f u, (u = true \/ f = cfg) -> kept (put_task t rest (set_file f false u s))).
  { intros f u Hu. set (s2 := set_file f false u s).
    assert (Hput : forall t', task (put_task t rest s2) t' = if decide (t' = t) then rest else task s t') by (intros; by rewrite task_put).
    assert (Hno : forall t' cfg r, task (put_task t rest s2) t' <> ASave cfg :: r).
    { intros t' cfg' r. rewrite Hput. case_decide as Hd; [intros ->; apply Hnw; by left|]. intros H. by apply Hd, (K4 _ _ _ _ _ _ H Ht). }
    constructor.
    - exact K1.
    - intros t'. rewrite Hput. case_decide as Hd; [|apply K2]. intros He. apply Hnw. destruct rest; [done|by right].
    - by intros t' cfg' r ?%Hno.
    - by intros t1 t2 c1 c2 r1 r2 ?%Hno.
    - by intros t' cfg' r ?%Hno.
    - intros _. destruct Hu as [-> | ->]; [right; by left|]. destruct (K5 _ _ _ Ht) as [[t' H]|Hr]; [left|right; by right].
      rewrite pending_put. destruct (decide (t' = t)) as [->|Hne]; [|right; by exists t'].
      left. rewrite Ht in H. by apply Exists_cons in H as [H|H]. }
  unfold save in Hsave. destruct c as [| | | | | | | | | | | |[]]; try done; injection Hsave as <- <-; cbn [app]; apply Hgo; auto.
Qed.

Lemma step_kept l s s1 : kept s -> locked s -> step l s = Some s1 -> kept s1.
Proof.
  intros Hk Hl. destruct l as [order c|t c|id e|n]; cbn [step].
  - destruct (do_call order c s) as [[acts s2]|] eqn:E; intros [= <-]; [|done]. by apply (call_kept order c s).
  - destruct (tasks s !! t) as [[|a rest]|] eqn:Ht; try done.
    destruct (exec a c s) as [[acts s2]|] eqn:E; [|done]. intros [= <-]. assert (Hta : task s t = a :: rest) by (unfold task; by rewrite Ht).
    assert (Hap : a = APersist \/ a <> APersist) by (destruct a; first [by left|by right]). destruct Hap as [->|Hnp]; [by apply (persist_kept s)|].
    assert (Hdec : writes a \/ ~ writes a) by (destruct a; first [by left|right; intros []]). destruct Hdec as [Hw|Hw]; [destruct a; try done; by apply (save_kept s t c0 rest c acts s2 Hk Hta)|].
    destruct (exec_config a c s acts s2 Hnp Hw E) as [Hsame Hacts]. pose proof (exec_spends _ _ _ _ _ E) as (_ & Htasks & _).
    pose proof (kp_tail _ Hk t) as Htail. rewrite Hta in Htail. cbn [tail] in Htail.
    apply (kept_put s); try done.
    + apply Forall_app. split; [done|]. apply Forall_forall. intros b Hb Hwb. apply Htail, Exists_exists. by exists b.
    + rewrite Hta. intros [H|H]%Exists_cons; [by symmetry in H|]. apply Exists_app. by right.
    + rewrite Hta. intros cfg r [= -> _]. by apply Hw.
  - unfold handleEvent. destruct (sessions s !! id) as [x|] eqn:Hx; [destruct (state x)|]; intros [= <-];
      (apply (kept_spawn s); [done|done|done|cbn; lia| |]); try (by constructor);
      try (apply Forall_singleton; by intros []); destruct e; (eapply same_alter; [|done..]; done).
  - destruct (subs s !! n) as [[|u q]|]; try done. intros [= <-]. destruct Hk as [K1 K2 K3 K4 K5 K6]. by constructor.
Qed.
Lemma loaded_file ps s0 : file (foldl load_session s0 ps) = file s0.
Proof. revert s0. induction ps as [|p ps IH]; intros s0; [done|]. cbn [foldl]. by rewrite IH. Qed.

Lemma new_kept c : kept (New c).
Proof.
  destruct (new_resting c) as (Ht & _ & _ & Hp & _). assert (Hn : forall t, task (New c) t = []) by (intros t; unfold task; by rewrite Ht).
  constructor.
  - intros id p. unfold New. rewrite loaded_profiles.
    assert (H : forall ps (m : gmap string Profile), (forall id p, m !! id = Some p -> pf_ID p = id) ->
        forall id p, foldl (fun m p => <[pf_ID p := p]> m) m ps !! id = Some p -> pf_ID p = id).
    { induction ps as [|q ps IH]; intros m Hm; [done|]. cbn [foldl]. apply IH. intros id' p'. rewrite lookup_insert_Some. intros [[<- <-]|[_ ?]]; auto. }
    apply H. intros id' p'. cbn. rewrite fmap_empty. by intros ?%lookup_empty_Some.
  - intros t. rewrite Hn. by intros ?%Exists_nil.
  - intros t cfg r. by rewrite Hn.
  - intros t1 t2 c1 c2 r1 r2. by rewrite Hn.
  - intros t cfg r. by rewrite Hn.
  - intros _. right. right. assert (Hf : file (New c) = c); [|by rewrite Hf].
    apply loaded_file.
Qed.

(** Started with the same profiles or the mark of an import. *)
Lemma opened_again c s : restores c s -> ImportedCLIConfig (settings s) = true \/ sessions s <> ∅ ->
  forall url_Parse loaded id saved, Open url_Parse c loaded id saved = Some (New c).
Proof.
  intros [R1 R2] H url_Parse loaded id saved. unfold New in R1. rewrite loaded_settings in R1. cbn [settings] in R1. unfold Open, ImportFromCLI.
  assert (Hor : negb (bool_decide (cf_Profiles c = [])) || ImportedCLIConfig (cf_Settings c) = true).
  { destruct H as [H|H]; [rewrite R1, H; by rewrite orb_true_r|]. rewrite bool_decide_eq_false_2; [done|]. intros Hp. apply H.
    unfold New in R2. rewrite Hp in R2. cbn in R2. rewrite fmap_empty in R2. by apply fmap_empty_inv with (f := profile). }
  rewrite Hor. rewrite orb_comm in Hor. by rewrite Hor.
Qed.

(** C19: however the calls that change settings and profiles overlap, once
    none of them waits to save and the last write succeeded, the file is the
    manager's memory: a manager started with it has the same settings and,
    under each id, the same profile, and nothing of the command line's
    settings is put in their place, provided there is a profile or the
    settings still say that the import is done. *)
Theorem restart_restores c ls s :
  run ls (New c) = Some s -> ~ pending (fun a => a = APersist \/ writes a) s -> unsaved s = false ->
  restores (file s) s
  /\ (ImportedCLIConfig (settings s) = true \/ sessions s <> ∅ ->
      forall url_Parse loaded id saved, Open url_Parse (file s) loaded id saved = Some (New (file s))).
Proof.
  intros Hrun Hno Hu. assert (Hr : restores (file s) s); [|split; [done|by apply opened_again]]. assert (Hk : kept s /\ locked s).
  { revert Hrun. generalize (conj (new_kept c) (new_locked c)). generalize (New c). clear Hno Hu. induction ls as [|l ls IH]; intros s0 [Hk Hl]; cbn [run].
    - by intros [= <-].
    - destruct (step l s0) as [s1|] eqn:E; [|done]. apply IH. split; [by apply (step_kept l s0)|by apply (step_locked l s0)]. }
  destruct Hk as [Hk Hl]. assert (Hp : persisting s = false).
  { destruct (persisting s) eqn:Hp; [|done]. destruct (lk_holder _ Hl Hp) as (t & cfg & rest & Ht). destruct Hno. exists t. unfold task. rewrite Ht. left. by right. }
  destruct (kp_written _ Hk Hp) as [[t H]|[H|H]]; [|congruence|done].
  destruct Hno. exists t. apply (Exists_impl _ _ _ H). intros a <-. by left.
Qed.
End manager.

(** ** Deciding whether a run is orderly *)
Definition somewhere (P : action -> bool) (s : sys) : bool := existsb (fun x => existsb P x.2) (map_to_list (tasks s)).

Definition is_release (id : string) (a : action) : bool := match a with ARelease id' => (id' =? id)%string | _ => false end.
Definition is_reset (id : string) (a : action) : bool := match a with AReset id' => (id' =? id)%string | _ => false end.
Definition is_try (id : string) (a : action) : bool := bool_decide (attempt a = Some id).

Definition orderlyb (l : label) (s : sys) : bool :=
  match l with
  | LCall _ (CConnect id) => negb (somewhere (is_release id) s)
  | LCall _ (CDisconnect id) => negb (somewhere (is_reset id) s)
  | LCall _ (CAddProfile drawn p) =>
      let id := pf_ID (identified drawn p) in negb (somewhere (is_try id) s) && negb (somewhere (is_release id) s)
  | LStep t _ => match task s t with ADisconnect id :: _ => negb (somewhere (is_reset id) s) | _ => true end
  | _ => true
  end.

Lemma somewhere_not P Q s : (forall a, Q a -> P a = true) -> negb (somewhere P s) = true -> ~ pending Q s.
Proof.
  intros HPQ Hno%negb_true_iff [t Ht]. assert (somewhere P s = true); [|congruence].
  unfold task in Ht. destruct (tasks s !! t) as [l|] eqn:Hl; [|by apply Exists_nil in Ht]. apply Exists_exists in Ht as (a & Ha & Hq).
  apply existsb_exists. exists (t, l). split; [by apply list_elem_of_In, elem_of_map_to_list|]. apply existsb_exists. exists a.
  split; [by apply list_elem_of_In|by apply HPQ].
Qed.

Lemma is_release_spec id a : releases id a -> is_release id a = true.
Proof. intros ->. cbn. by apply String.eqb_eq. Qed.
Lemma is_reset_spec id a : resets id a -> is_reset id a = true.
Proof. intros ->. cbn. by apply String.eqb_eq. Qed.
Lemma is_try_spec id a : tries id a -> is_try id a = true.
Proof. intros H. by apply bool_decide_eq_true. Qed.

Lemma orderlyb_spec l s : orderlyb l s = true -> orderly l s.
Proof.
  assert (Hs : forall P Q, (forall a, Q a -> P a = true) -> negb (somewhere P s) = true -> ~ pending Q s) by (intros P Q; apply somewhere_not).
  destruct l as [order []|t c|id e|n]; cbn [orderlyb orderly]; try done.
  - apply Hs, is_release_spec.
  - apply Hs, is_reset_spec.
  - intros [H1 H2]%andb_true_iff. split; [by apply (Hs _ _ (is_try_spec _))|by apply (Hs _ _ (is_release_spec _))].
  - destruct (task s t) as [|[] ?]; try done. apply Hs, is_reset_spec.
Qed.

Section toy.
#[local] Instance gui_text : AddrText := {|
  addr_String := ServerToy.toy_String;
  ServerAuth.ParseAddr := ServerToy.toy_ParseAddr;
  ServerAuth.ParsePrefix := ServerToy.toy_ParsePrefix;
  SplitHostPort := ServerToy.toy_split;
  ParseAddr_String := ServerToy.toy_ParseAddr_String;
  ParseAddr_wf := ServerToy.toy_ParseAddr_wf;
  ParsePrefix_wf := ServerToy.toy_ParsePrefix_wf;
|}.

(** One profile that signs in by SSO and asks for port 8080. *)
Definition sso_profile (id name : string) (ports : gmap string Z) : Profile :=
  mkProfile id name "" "" false ports ∅ "" false "" false "" "" false true "" "" "" "" "" "".
Definition office : Profile := sso_profile "a" "office" {["web"%string := 8080]}.
Definition gui_cfg : Config := mkConfig CurrentVersion (mkSettings false false false false true) [office].

Abbreviation go := (run None (String.concat "/") "").

(** The tasks of calls are numbered; a task of [n] steps without a choice. *)
Definition steps (t : Z) (n : nat) : list label := repeat (LStep t Go) n.

(** From a connection attempt to a connection. *)
Definition attempt_steps (t : Z) : list label :=
  steps t 3 ++ [LStep t (Outcome None); LStep t Go; LStep t DialOk; LStep t Go; LStep t (TunnelsAre [("web"%string, "127.0.0.1:8080"%string)])] ++ steps t 2.

Definition connect_office : list label := LCall [] (CConnect "a") :: attempt_steps 1.

Example office_connected :
  (s ← go connect_office (New gui_cfg); x ← sessions s !! "a"%string; Some (state x, handle x, elements (conns s), map_to_list (tasks s)))
  = Some (StateConnected, Some 2, [2], []).
Proof. vm_compute. reflexivity. Qed.

(** *** Witnesses *)
Fixpoint run_orderlyb (ls : list label) (s : sys) : bool :=
  match ls with
  | [] => true
  | l :: ls => orderlyb l s && match step None (String.concat "/") "" l s with Some s => run_orderlyb ls s | None => true end
  end.

Lemma run_orderlyb_spec ls s : run_orderlyb ls s = true -> run_orderly None (String.concat "/") "" ls s.
Proof.
  revert s. induction ls as [|l ls IH]; intros s; cbn [run_orderlyb run_orderly]; [done|]. intros [Hl Hls]%andb_true_iff.
  split; [by apply orderlyb_spec|]. destruct (step None (String.concat "/") "" l s); [by apply IH|done].
Qed.

Definition reached (ls : list label) : sys := default (New gui_cfg) (go ls (New gui_cfg)).

(** Connected, disconnected, and being connected again. *)
Definition again_office : list label := connect_office ++ LCall [] (CDisconnect "a") :: steps 3 5 ++ LCall [] (CConnect "a") :: steps 4 3.

Lemma connections_owned_witness : well_kept (reached again_office) /\ (at_rest (reached again_office) -> settled_down (reached again_office)).
Proof.
  apply (connections_owned None (String.concat "/") "" gui_cfg again_office); [apply run_orderlyb_spec; vm_compute; reflexivity|vm_compute; reflexivity].
Defined.

Lemma calls_finish_witness : let s := reached (connect_office ++ [LCall ["a"%string] CClose; LStep 3 Go]) in
  (tasks s <> ∅ -> exists t ch s1, step None (String.concat "/") "" (LStep t ch) s = Some s1)
  /\ (forall ls1 s1, forallb works ls1 = true -> go ls1 s = Some s1 -> (length ls1 <= load s)%nat)
  /\ exists ls1 s1, forallb works ls1 = true /\ go ls1 s = Some s1 /\ tasks s1 = ∅.
Proof. apply (calls_finish None (String.concat "/") "" gui_cfg (connect_office ++ [LCall ["a"%string] CClose; LStep 3 Go])). vm_compute. reflexivity. Defined.

Definition branch (id : string) : Profile := sso_profile id "branch" ∅.

(** Two additions at once. *)
Definition two_added : list label :=
  [LCall [] (CAddProfile "new" (branch "b")); LCall [] (CAddProfile "new" (branch "c")); LStep 2 Go; LStep 2 (Saved true); LStep 4 Go; LStep 4 (Saved true)].

Lemma restart_restores_witness : size (sessions (reached two_added)) = 3%nat /\ restores (file (reached two_added)) (reached two_added)
  /\ (ImportedCLIConfig (settings (reached two_added)) = true \/ sessions (reached two_added) <> ∅ ->
      forall url_Parse loaded id saved, Open url_Parse (file (reached two_added)) loaded id saved = Some (New (file (reached two_added)))).
Proof.
  split; [vm_compute; reflexivity|]. apply (restart_restores None (String.concat "/") "" gui_cfg two_added); [vm_compute; reflexivity| |vm_compute; reflexivity].
  intros [t Ht]. assert (Hn : tasks (reached two_added) = ∅) by (vm_compute; reflexivity). unfold task in Ht. rewrite Hn in Ht. by apply Exists_nil in Ht.
Defined.

(** A profile added without an id gets the one drawn for it. *)
Example id_drawn :
  (s ← go [LCall [] (CAddProfile "new" (branch ""))] (New gui_cfg); Some (pf_ID ∘ profile <$> sessions s !! "new"%string))
  = Some (Some "new"%string).
Proof. vm_compute. reflexivity. Qed.

(** *** What can go wrong *)

Definition of_office (s : sys) : option (State * option Z * list Z * option (gmap string string) * nat) :=
  x ← sessions s !! "a"%string; Some (state x, handle x, elements (conns s), reservations s !! "a"%string, size (tasks s)).

(** Two calls of [Disconnect] at once, the second of which resets the
    session after it has been connected anew: the new connection stays open
    and no call can close it. *)
Example new_connection_leaked :
  (s ← go (connect_office ++ [LCall [] (CDisconnect "a"); LCall [] (CDisconnect "a")] ++ steps 3 5
           ++ LCall [] (CConnect "a") :: attempt_steps 5 ++ steps 4 5) (New gui_cfg); of_office s)
  = Some (StateIdle, None, [6], None, 0%nat).
Proof. vm_compute. reflexivity. Qed.

(** [Connect] between [Disconnect]'s two critical sections: the profile is
    connected, and its port is free for another. *)
Example reservation_lost :
  (s ← go (connect_office ++ LCall [] (CDisconnect "a") :: steps 3 2 ++ LCall [] (CConnect "a") :: attempt_steps 4 ++ steps 3 3) (New gui_cfg); of_office s)
  = Some (StateConnected, Some 5, [5], None, 0%nat).
Proof. vm_compute. reflexivity. Qed.

(** A profile removed while it is dialed for and added again under its id:
    both attempts succeed, the older one puts its connection in the place of
    the newer one's, and that one stays open without a session. *)
Example abandoned_attempt_returns :
  (s ← go (LCall [] (CConnect "a") :: take 5 (attempt_steps 1)
           ++ [LCall [] (CRemoveProfile "a"); LCall [] (CAddProfile "" office); LCall [] (CConnect "a"); LStep 1 DialOk]
           ++ attempt_steps 5 ++ [LStep 1 Go; LStep 1 (TunnelsAre [("web"%string, "127.0.0.1:8080"%string)])]) (New gui_cfg);
   x ← sessions s !! "a"%string; Some (state x, handle x, elements (conns s)))
  = Some (StateConnected, Some 6, [7; 6]).
Proof. vm_compute. reflexivity. Qed.

(** The last state a subscriber hears of, and the state. *)
Definition heard (s : sys) : option (State * State) :=
  q ← subs s !! 0; u ← last q; x ← sessions s !! "a"%string; Some (sn_State u.2, state x).

(** The attempt's last update is sent after an event's. *)
Example published_out_of_order :
  (s ← go ([LCall [] CSubscribe; LCall [] (CConnect "a")] ++ take 9 (attempt_steps 2) ++ LEvent "a" (EventReconnecting "timeout") :: steps 4 2 ++ steps 2 1)
          (New gui_cfg); heard s)
  = Some (StateConnected, StateReconnecting).
Proof. vm_compute. reflexivity. Qed.

Definition trouble (t : Z) : list label :=
  LEvent "a" (EventReconnecting "timeout") :: steps t 2 ++ LEvent "a" EventReconnected :: steps (t + 1) 2.

(** A subscriber that falls behind misses the newest update. *)
Example newest_update_missed :
  (s ← go ([LCall [] CSubscribe; LCall [] (CConnect "a")] ++ attempt_steps 2 ++ concat ((fun k => trouble (4 + 2 * k)) <$> [0; 1; 2; 3; 4; 5; 6])
           ++ LEvent "a" (EventReconnecting "timeout") :: steps 18 2) (New gui_cfg); heard s)
  = Some (StateConnected, StateReconnecting).
Proof. vm_compute. reflexivity. Qed.

(** Settings written by a caller that leaves the mark of the import out, and
    the only profile removed: the next start imports it again. *)
Example removed_profile_returns :
  let cli := mkCLI "https://office.example" "" ∅ ∅ "" false "" false false "" true "" "" "" "" in
  (s ← go [LCall [] (CSetSettings (mkSettings false false false true false)); LCall [] (CRemoveProfile "a"); LStep 1 Go; LStep 1 (Saved true);
           LStep 2 Go; LStep 2 (Saved true)] (New gui_cfg);
   s' ← Open (fun _ => None) (file s) (Ok cli) "new" true; Some (elements (dom (sessions s)), elements (dom (sessions s'))))
  = Some ([], ["new"%string]).
Proof. vm_compute. reflexivity. Qed.

(** A profile whose file could not be written is reported as not added, and
    stays. *)
Example unsaved_profile_stays :
  (s ← go [LCall [] (CAddProfile "new" (branch "b")); LStep 2 Go; LStep 2 (Saved false)] (New gui_cfg);
   Some (bool_decide (is_Some (sessions s !! "b"%string)), length (cf_Profiles (file s)), do_call [] (CAddProfile "new" (branch "b")) s))
  = Some (true, 1%nat, Err ProfileExists).
Proof. vm_compute. reflexivity. Qed.

End toy.
